(* ===== verification/_CoqProject ===== *)
-Q . S2P
Prelude.v
JsMap.v
Cache.v
Clock.v
JsVal.v
Query.v
IndexInterface.v
SimpleIndex.v
SimpleIndexFacts.v
IndexStore.v
Integers.v
LogSorting.v
EntryIndex.v
EntryIndexFacts.v
Trim.v
Log.v
LogState.v
LogJoin.v
LogDelete.v
LogReady.v
ExchangeHeads.v
TrimFacts.v
Strings.v
Ranges.v
RangeFacts.v
RangeAlgebra.v
JsFloat.v
Factors.v
RangeMerge.v
RangeQueries.v
RangeIterators.v
RangeIteratorsFacts.v
RangeSampling.v
CoverSet.v
PushableLanes.v
Routes.v
RoutesFacts.v
Rebalance.v
RebalanceFacts.v
SimpleSync.v
SimpleSyncFacts.v
TrustGraph.v
Program.v
ProgramFacts.v
StreamMessages.v
PeerStreams.v
Effects.v
Replicators.v
ReplicatorsFacts.v
ReplicationSteps.v
Replicate.v
ReplicateFacts.v
Replication.v
SharedLog.v
Pruning.v
SharedLogMessages.v
SharedLogFacts.v
PruningFacts.v
RebalanceLog.v
Debounce.v
DocumentIndex.v
Documents.v
DocumentsFacts.v
DocumentStore.v
DocumentSearch.v
DocumentMerge.v
Rpc.v
DirectStream.v
DeliveryFacts.v
StreamReceive.v
StreamInvariant.v
RemoteBlocks.v
DirectSub.v
DirectSubFacts.v
Concrete.v
Witnesses.v
DocumentWitnesses.v
StreamWitnesses.v
ReplicationWitnesses.v
SharedLogWitnesses.v
