(* ===== verification/Prelude.v ===== *)
(** * Peerbit: a verification library for its core

    This library models the parts of Peerbit (the TypeScript packages under
    src/packages) that decide where data lives, who is asked for it and in which
    order things happen, and proves what makes them correct.  Every definition
    is translated from the source, keeps its name where Rocq allows it, and can
    be evaluated; nothing is assumed about the modelled code.

    ** How the program fits together

    A node keeps logs of entries ordered by logical clocks (packages/log).  A
    shared log (packages/programs/data/shared-log) places every entry at
    coordinates of a ring of 32 or 64 bit numbers; replicators announce ranges
    of the ring, kept in an index (packages/utils/indexer).  From the ranges the
    program computes who leads an entry ([getSamples]), whom to ask for a part
    of the ring ([getCoverSet]), and what to inspect when ranges change
    ([mergeReplicationChanges], [toRebalance]).  Messages are signed, sent,
    relayed, acknowledged and received by [DirectStream]
    (packages/transport/stream) with a routing table ([Routes]) and prioritised
    lanes to each neighbour ([PeerStreams], [pushableLanes]); [DirectSub]
    (packages/transport/pubsub) adds topics and their subscribers.  A bounded
    cache (packages/utils/cache) serves several of these.  A document store
    (packages/programs/data/document) writes puts and deletions of documents into
    a shared log, indexes the documents, and searches its own index and those of
    its peers by requests and responses over a topic (packages/programs/rpc).  A
    string (packages/programs/data/string) replays the edits of its log.  Blocks
    of data that a node lacks are asked of its peers (packages/transport/blocks).

    ** The files

    - Prelude: outcomes of JavaScript calls ([outcome]: a value, an exception,
      or [NoFuel] where a loop of the model is cut off), their monad, stable
      sorting, tactics and hint databases.
    - JsMap: [Map] and [Set] with insertion order; the first-in
      first-out packages (yallist, fast-fifo) as a class with laws and a list
      instance; JsVal: JavaScript values, field access, number conversion.
    - Cache (utils/cache/src/index.ts): the class Cache.  [trim_correct]: trim
      ends, never meets its internal error, leaves the cache within its bound;
      [readd_undercounts]: adding a deleted key again loses its size.
    - Clock (log/src/clock.ts): Timestamp, HLC, LamportClock.  The hybrid clock
      is strictly increasing along every run, its errors are characterised, and
      the comparison of clocks is a total order.
    - LogSorting (log/src/log-sorting.ts, entry-v0.ts, entry-shallow.ts): the
      metadata of entries and the sort functions; [compare] is the clock order.
    - EntryIndex, EntryIndexFacts (log/src/entry-index.ts): the index of a log's
      entries with its cache and block store; put and delete keep the marks of
      the heads and the length exact ([index_ok]); a hash check that never fails.
    - Trim, TrimFacts (log/src/trim.ts): trimming to a length ends and leaves the
      newest entries; entries that share a wall time stop it early.
    - Log (log/src/log.ts, [EntryV0.create]): append, join, remove and trim as
      functions on the state of a log.  LogState: the invariant [log_wf] of a log
      of [APPEND] entries; the appended entry is the only head.  LogJoin: join refines the union with the ancestors of
      what is joined, two logs that join each other converge, and a refused entry
      leaves a head unmarked.
      LogDelete: the walk of a recursive removal ends and removes exactly what it
      reaches; what a cut removes; the stem that is kept.  LogReady: the invariant
      a log needs so that an append cannot throw, kept by every append.
    - Query (indexer/interface/src/id.ts, query.ts): ids and queries with their
      constructors, and [toQuery].  IndexInterface (index-engine.ts, utils.ts):
      the contract [Index] and [IndexLaws] with the reference meaning of a query
      ([sat], on the fragment [covered]), and iterators in series.
    - SimpleIndex, SimpleIndexFacts (indexer/simple/src/index.ts): the in-memory
      index, its evaluator and iterators; it meets [IndexLaws]; paging is
      complete; put, get and del; comparisons on an array field; two defects.
    - Integers (shared-log/src/integers.ts): the numbers of a resolution.
      JsFloat: numbers as IEEE doubles (the Standard Library's [SpecFloat]), where
      they are exact on integers.  Factors (integers.ts, role.ts, pid.ts, cpu.ts,
      replication-domain-hash.ts, replication-domain-time.ts): fractions of the
      ring, the controller of a dynamic range ([factor_bounds]), domains.
      Ranges, RangeFacts (ranges.ts): both classes of ranges, their messages and
      the replicated entries; a constructor builds exactly the arc asked for,
      [overlaps] means a common point, messages round-trip.
    - RangeAlgebra, RangeMerge (ranges.ts): segments, symmetric difference,
      [mergeRanges]; exact on points, tight on unwrapped ranges, and where it
      loses coverage.
    - RangeQueries (ranges.ts): the queries built for ranges
      and entries, and what they select through the contract of the index.
    - RangeIterators, RangeIteratorsFacts, RangeSampling (ranges.ts): distance
      on the ring, nearest ranges, merged iterators, sampling of leaders:
      [getClosest] is minimal, [getSamples] ends, is sound, and complete unless it
      may end early.
    - CoverSet (ranges.ts): [getCoverSet] ends on every index.
    - Rebalance, RebalanceFacts (ranges.ts): changes of ranges;
      merging them loses no addition and invents nothing, [toRebalance] yields
      exactly the entries concerned, and the removals that get lost.
    - IndexStore (indexer/interface/src/index-engine.ts): [put] and [del] as a
      class with laws, which the in-memory index meets; what an iterator has
      left to return.
    - Replication (shared-log/src/replication.ts, utils.ts): how many replicas an
      entry wants; a degree is read as it was given ([degree_roundtrip]).
    - ExchangeHeads (shared-log/src/exchange-heads.ts): heads
      in messages, each once and in order; the walk to one entry per gid ends on
      every index.
    - SimpleSync, SimpleSyncFacts (shared-log/src/sync/simple.ts): who is asked
      for which missing entry; the tables agree, every announcer has its turn.
    - Debounce (shared-log/src/debounce.ts): debounced calls and accumulators as
      transition systems; no call is lost and no operation sent twice.
    - Replicators, ReplicatorsFacts, ReplicationSteps (shared-log/src/index.ts):
      the ranges of all nodes, announcements, maturity; every owner of a range
      counts as a replicator in all reachable states; an announcement replaces; the
      changes and ranges that get lost.
    - Replicate, ReplicateFacts (same file): the options of [replicate] as
      ranges, merging with stored ones, the dynamic range and its resizing; replicators stay
      tracked ([participants_tracked]), a share without an offset replaces
      ([replicate_factor_replaces]), a dynamic range follows its controller
      ([rebalance_resizes]).
    - SharedLog, SharedLogFacts (same file): the state of a shared log, who leads
      an entry, the index of coordinates ([findLeaders_stores]); the class
      [Syncronizer] is what it asks of a synchroniser, met by SimpleSync.
    - Pruning, PruningFacts (same file): asking the leaders of an
      entry before it is removed, waiting for answers, the timers.  In every
      reachable state a scheduled removal has the answers it needs
      ([prune_safe]); what happens when leaders are missing or come too late.
    - SharedLogMessages, RebalanceLog (same file): the handlers of messages about
      heads and pruning, changes of ranges, peers that leave, closing; what
      rebalancing does with one entry ([rebalance_entry_correct]).
    - Routes, RoutesFacts (transport/stream/src/routes.ts): the routing table as
      a transition system with its invariant; add, remove, fan-out, pruning.
    - PushableLanes (transport/stream/src/pushable-lanes.ts):
      lanes drain in order of priority; the end marker overtakes slower lanes.
    - TrustGraph (programs/acl): relations between identities
      in an indexed store, the trusted network and the walk that decides who is
      trusted; which relations are accepted, what the walk answers on a graph,
      and the graphs on which it is wrong or does not end.
    - Program, ProgramFacts (packages/programs/program/program/src):
      programs as a heap of mutable objects with children, parents and a table of
      the open ones; open, close, drop and the handler's three ways to treat a
      program that is open already; the links between them agree.
    - StreamMessages (transport/stream-interface): delivery
      modes, headers, signing, verification and parsing; what relays may change,
      what verification guarantees, when a message expires.
    - PeerStreams (transport/stream/src/index.ts): the streams to one peer; how
      long a message of high priority waits, how long a message may be.
    - Effects: methods that change an object and may throw; [keeps], the
      rules by which an invariant passes through them, and [wp], a method that
      returns with a result that has a property.
    - DirectStream, DeliveryFacts (transport/stream/src/index.ts): the
      state of a node, deliveries with their acknowledgements, publishing and
      relaying; when a delivery counts as complete, when it fails, whom a message
      reaches, and that sending changes no table ([quiet]).
    - StreamReceive, StreamInvariant (same file): the handlers of messages,
      connections and timers; the classes [PeerHooks] and [MessageHooks] are what
      a subclass overrides, and StreamInvariant proves the invariant of a node
      for every subclass that meets their laws.
    - DirectSub, DirectSubFacts (transport/pubsub/src/index.ts):
      topics and subscriptions.  DirectSub meets those laws, so its tables agree
      in every reachable state ([tables_agree]); they implement registers that
      the last writer wins ([register_refined], [order_irrelevant]); two cases in
      which a subscription is lost.
    - DocumentIndex, Documents, DocumentsFacts, DocumentStore
      (document/document/src/search.ts, program.ts, operation.ts,
      resumable-iterator.ts, document/interface/src): the index over the documents, the
      answers to queries page by page, the checks on entries, put, del and the
      handling of changes of the log.  The classes [DocumentLog] and
      [DocumentLogLaws] are what a store asks of its log, met by Log.  A store
      implements a map from ids to documents ([store_refines_map]); exactly the
      edits that fit its history are accepted ([edits_accepted]); what a change
      does to a document is what it mentions first ([first_mention_wins]).
    - DocumentSearch, DocumentMerge (search.ts,
      rpc/src/utils.ts): iterators over the own index and the peers that cover
      the store, and [queryAll].  Peers and network are the class [SearchPeers].  Whatever
      they answer, no document is handed out twice ([no_document_twice]); where
      they answer in full, a search ends with the union of what everybody has
      found, and sorted if they agree on the order ([search_merges]).
    - Rpc (packages/programs/rpc/src/controller.ts, encoding.ts, io.ts): requests
      over a topic and their responses, as events of a node.  A result is a genuine
      response to the request, of a peer that was asked ([answers_genuine]); a
      request ends when all have answered ([request_settles]); an answer
      arrives as it was given ([exchange_roundtrip]).  With RPC, [SearchPeers] and its
      laws are met, so what holds of a search holds over the network.
    - RemoteBlocks (transport/blocks/src/remote.ts, any-blockstore.ts,
      transport/blocks-interface/src/block.ts): reading a block by its content id
      from the own store or from peers, with the promises that calls for one block
      share.  What a call returns is what its id names ([blocks_genuine]); one good
      response serves all calls that wait ([waiting_served]); a read that was
      aborted fails later calls too ([aborted_read_sticks]).
    - Strings (packages/programs/data/string): the operations on a string in a log
      and their replay.  Nodes that hold the same entries have the same string
      ([strings_converge]), a later entry applies to the string before
      ([later_edit_applies]); a search ends with exactly the occurrences of a text
      ([occurrences_exact]), unless the text is empty; an operation that blocks
      all later ones.
    - Concrete: instances of every parameter; Witnesses,
      DocumentWitnesses, StreamWitnesses, ReplicationWitnesses and
      SharedLogWitnesses: the theorems applied to concrete inputs.

    ** Conventions

    JavaScript numbers that the code uses as integers are [Z], fractions are
    doubles ([number]); [Number] of a bigint rounds as a double does ([Number_of_bigint]); [undefined] is [None];
    truth values of numbers are written out where the code relies on them.  A
    method that changes its object returns the new state.  Promises that are
    awaited at once are calls; where the order of promises matters (the lanes,
    the cleanup timers of routes) they are part of the state.  Times read from
    the clock and random numbers are arguments.  Code outside the repository is
    a parameter with its documented behaviour as laws: queues ([Queue]), string
    comparison and base64 ([JsEnv]), hashing and serialization ([Hashing]), the
    borsh representation of documents ([Document]); for a log, the data of
    entries and their hashes, the blocks of other nodes, signatures, the
    callback [canAppend] and the readings of the clock ([LogEnv]); for the trusted
    network, the hashes of keys and the ids of relations ([Identities]); for
    messages, borsh ([Wire], [PubSubWire]) and signatures ([Signing], whose law
    says that a signature verifies for one content only); for RPC, sealing for
    keys ([Sealing]) and the bytes of values ([Codec]); for blocks, content ids and
    codecs ([BlockFormat]); for strings, lower case and the longest string of the
    engine ([StringEnv]).

    A node of the network keeps its clock, its random ids and the log of what
    left it in its state; an overridden method is a field of a class; the
    promise of a delivery is a numbered cell; a call that the code does not
    await is run at once and its failure kept from the caller ([attempt]).  A
    method of a node runs to its end before the next begins: what another
    handler could do between two of its awaits is not modelled.  A shared log
    waits for leaders in the middle of a handler; such a wait is a [Waiter] of
    its state with what runs afterwards as data ([Continuation]), and the ends of
    waits interleave with messages and timers as steps of their own.

    ** Fuel

    Loops that are not structural take fuel: the eviction loop of the cache (one
    round per queued key), the evaluator on nested arrays (the depth of the
    document), iterators in series (two requests suffice), sampling
    ([search_fuel], linear in the number of ranges), the cover set
    ([cover_fuel]: every round either covers more of the ring or is followed by
    at most two that stop), the draining of an iterator (two rounds), the walk of
    a trim ([walk_fuel], two passes), a join (the depth of the entry graph) and
    the walk of a recursive removal (finite on an acyclic log), the walk over
    trust relations (one level per relation stored), the closing of a program
    (the rank of its tree) and the walk to one entry per gid (a round per indexed
    entry), the walk through the history of a document (the entries of the log) and
    taking everything from a search (two rounds per result).  Each bound is proved enough.  The walk over replication changes needs none: the
    changes it appends are additions, so the removals left bound it.

    ** Not modelled

    The raw streams of libp2p, the registrar and the task queue of a node, its
    average bandwidth (floating point), and waiting for events; storage,
    cryptography and SQL generation; the opening of the indexes of a shared log;
    the rateless synchroniser, which
    drives a WebAssembly module; printing; abort signals; encryption of entries
    and the loading of a log from disk.  Of a program's life, the messages that
    announce it and its topics are left out; of a document store, documents that
    are programs, which are opened and closed with their entries, the domain of its
    replication; of an iterator, two methods that run at once; of the exchange of
    blocks, the queue of requests being answered and the program around it.  Clients and servers are
    glue around these parts. *)

From Stdlib Require Import ZArith Lia.
From stdpp Require Import base decidable list strings option sorting.

(** ** Outcomes of JavaScript calls

    A call returns a value, throws, or (only where the model runs a loop on
    fuel) is cut off.  [NoFuel] never stands for a result: a theorem about a
    loop says which fuel is enough. *)

Inductive outcome (A : Type) : Type :=
| Val (a : A)
| Exn (message : string)
| NoFuel.
Arguments Val {A} a.
Arguments Exn {A} message.
Arguments NoFuel {A}.

#[global] Instance outcome_ret : MRet outcome := fun A a => Val a.
#[global] Instance outcome_bind : MBind outcome := fun A B k m =>
  match m with
  | Val a => k a
  | Exn e => Exn e
  | NoFuel => NoFuel
  end.
#[global] Instance outcome_fmap : FMap outcome := fun A B f m =>
  match m with
  | Val a => Val (f a)
  | Exn e => Exn e
  | NoFuel => NoFuel
  end.

#[global] Instance outcome_eq_dec {A} `{EqDecision A} : EqDecision (outcome A).
Proof. solve_decision. Defined.

(** [throw_if c msg] is the source's [if (c) throw new Error(msg)]. *)
Definition throw_if (c : bool) (msg : string) : outcome unit :=
  if c then Exn msg else Val tt.

(** The [for] loop whose body may throw: left to right, state threaded. *)
Fixpoint foldM {A S} (f : S -> A -> outcome S) (s : S) (l : list A) : outcome S :=
  match l with
  | [] => Val s
  | x :: l' => f s x ≫= fun s' => foldM f s' l'
  end.

(** [Array.prototype.map] with a callback that may throw. *)
Fixpoint mapM_out {A B} (f : A -> outcome B) (l : list A) : outcome (list B) :=
  match l with
  | [] => Val []
  | x :: l' => y ← f x; ys ← mapM_out f l'; Val (y :: ys)
  end.

(** [Array.prototype.filter] with a predicate that may throw. *)
Fixpoint filterM_out {A} (f : A -> outcome bool) (l : list A) : outcome (list A) :=
  match l with
  | [] => Val []
  | x :: l' =>
      b ← f x; ys ← filterM_out f l'; Val (if b : bool then x :: ys else ys)
  end.

Lemma bind_val {A B} (m : outcome A) (k : A -> outcome B) (b : B) :
  m ≫= k = Val b <-> exists a, m = Val a /\ k a = Val b.
Proof.
  destruct m as [a|e|]; simpl; split; try done.
  - by exists a.
  - by intros (a' & [= ->] & Hk).
  - by intros (a' & ? & _).
  - by intros (a' & ? & _).
Qed.

Lemma mapM_out_val {A B} (f : A -> outcome B) (g : A -> B) l :
  (forall x, x ∈ l -> f x = Val (g x)) -> mapM_out f l = Val (map g l).
Proof.
  induction l as [|x l IH]; intros H; [done|].
  simpl. rewrite H by left. simpl. rewrite IH; [done|]. intros y Hy. apply H. by right.
Qed.

Lemma filterM_out_val {A} (f : A -> outcome bool) (g : A -> bool) l :
  (forall x, x ∈ l -> f x = Val (g x)) ->
  filterM_out f l = Val (List.filter g l).
Proof.
  induction l as [|x l IH]; intros H; [done|].
  simpl. rewrite H by left. simpl. rewrite IH; [done|]. intros y Hy. apply H. by right.
Qed.

(** Takes a successful computation apart into its steps. *)
Ltac outcome_inv :=
  repeat match goal with
  | H : Val _ = Val _ |- _ => injection H as H; try subst
  | H : Exn _ = Val _ |- _ => discriminate H
  | H : NoFuel = Val _ |- _ => discriminate H
  | H : _ ≫= _ = Val _ |- _ =>
      let a := fresh "a" in let Ha := fresh "Hstep" in
      apply bind_val in H as (a & Ha & H)
  end.

(** ** Boolean tests

    [case_if] splits on the test of an [if] of the goal, keeping the equation
    in a form [lia] understands. *)

Ltac case_if_in_goal :=
  match goal with
  | |- context [if ?b then _ else _] => let E := fresh "E" in destruct b eqn:E
  end.

Ltac case_ifs_all := repeat match goal with
  | |- context [if ?b then _ else _] => let E := fresh "E" in destruct b eqn:E
  | H : context [if ?b then _ else _] |- _ => let E := fresh "E" in destruct b eqn:E
  end.

Ltac case_ifs := repeat (case_if_in_goal; simpl in *).

(** ** Stable sorting, [Array.prototype.sort(compareFn)]

    The order of [sort] is fixed by ECMAScript up to the choice of a stable
    algorithm whenever the comparator is consistent; insertion sort is the
    reference used here.  [cmp x y <= 0] keeps [x] before [y]. *)

Section JsSort.
Context {A : Type} (cmp : A -> A -> Z).

Fixpoint js_insert (x : A) (l : list A) : list A :=
  match l with
  | [] => [x]
  | y :: l' => if (cmp x y <=? 0)%Z then x :: y :: l' else y :: js_insert x l'
  end.

Fixpoint js_sort (l : list A) : list A :=
  match l with
  | [] => []
  | x :: l' => js_insert x (js_sort l')
  end.

Lemma js_insert_perm x l : js_insert x l ≡ₚ x :: l.
Proof.
  induction l as [|y l IH]; [done|]. simpl. case_if_in_goal; [done|].
  rewrite IH. apply Permutation_swap.
Qed.

Lemma js_sort_perm l : js_sort l ≡ₚ l.
Proof.
  induction l as [|x l IH]; [done|]. simpl. rewrite js_insert_perm. by rewrite IH.
Qed.

Lemma js_sort_elem x l : x ∈ js_sort l <-> x ∈ l.
Proof. by rewrite (js_sort_perm l). Qed.

Lemma js_sort_length l : length (js_sort l) = length l.
Proof. by rewrite (js_sort_perm l). Qed.

(** What a comparator has to satisfy for the result to be ordered. *)
Class Comparator : Prop := {
  cmp_total : forall x y, (cmp x y <= 0)%Z \/ (cmp y x <= 0)%Z;
  cmp_trans : forall x y z, (cmp x y <= 0)%Z -> (cmp y z <= 0)%Z -> (cmp x z <= 0)%Z;
}.

Lemma js_insert_sorted `{Comparator} x l :
  StronglySorted (fun a b => (cmp a b <= 0)%Z) l ->
  StronglySorted (fun a b => (cmp a b <= 0)%Z) (js_insert x l).
Proof.
  induction l as [|y l IH]; intros Hs; simpl; [by repeat constructor|].
  apply StronglySorted_inv in Hs as [Hs Hy]. case_if_in_goal.
  - constructor; [by constructor|]. constructor; [lia|].
    eapply Forall_impl; [exact Hy|]. intros z Hz. apply (cmp_trans x y z); [lia|done].
  - constructor; [auto|]. rewrite js_insert_perm. constructor; [|done].
    destruct (cmp_total x y); lia.
Qed.

Lemma js_sort_sorted `{Comparator} l :
  StronglySorted (fun a b => (cmp a b <= 0)%Z) (js_sort l).
Proof.
  induction l as [|x l IH]; simpl; [constructor|]. by apply js_insert_sorted.
Qed.

End JsSort.

(** A sorted list's first element is below the others. *)
Lemma sorted_head_le {A} (R : A -> A -> Prop) x l :
  StronglySorted R (x :: l) -> Forall (R x) l.
Proof. by intros [_ ?]%StronglySorted_inv. Qed.

Lemma existsb_ext {A} (f g : A -> bool) l : (forall x, f x = g x) -> existsb f l = existsb g l.
Proof. intros Hfg. induction l as [|x l IH]; [done|]. simpl. by rewrite Hfg, IH. Qed.

Lemma List_filter_perm {A} (f : A -> bool) (l k : list A) : l ≡ₚ k -> List.filter f l ≡ₚ List.filter f k.
Proof.
  induction 1 as [|x l k _ IH|x y l|l k m _ IH1 _ IH2]; simpl; [done| | |by etrans].
  - destruct (f x); [by rewrite IH|done].
  - destruct (f x), (f y); try done. apply Permutation_swap.
Qed.

(** What every step of a fold keeps, the fold keeps. *)
Lemma fold_left_keeps {A B} (P : A -> Prop) (f : A -> B -> A) l a :
  (forall a x, x ∈ l -> P a -> P (f a x)) -> P a -> P (fold_left f l a).
Proof.
  revert a. induction l as [|x l IH]; intros a Hf Ha; simpl; [done|].
  apply IH; [intros a' y Hy; apply Hf; by right|]. apply Hf; [by left|done].
Qed.

Lemma elem_of_List_filter {A} (f : A -> bool) (l : list A) x : x ∈ List.filter f l <-> x ∈ l /\ f x = true.
Proof. by rewrite list_elem_of_In, filter_In, <- list_elem_of_In. Qed.

Lemma NoDup_map_filter {A B} (f : A -> B) (g : A -> bool) (l : list A) :
  NoDup (map f l) -> NoDup (map f (List.filter g l)).
Proof.
  induction l as [|x l IH]; [done|]. simpl. intros [Hx Hl]%NoDup_cons. destruct (g x); [|by apply IH].
  simpl. constructor; [|by apply IH]. intros (y & Ey & Hy)%list_elem_of_fmap. apply Hx. apply list_elem_of_fmap.
  exists y. split; [done|]. by apply elem_of_List_filter in Hy as [Hy _].
Qed.

(** ** Automation *)

Create HintDb peerbit.
#[export] Hint Resolve js_sort_perm : peerbit.

(** Closes goals about the tests of the code once their equations are in the
    context. *)
Ltac js_lia := repeat case_if_in_goal; simpl in *; lia.
