(* ===== verification/JsMap.v ===== *)
(** * JavaScript's [Map] and [Set]

    A [Map] iterates its entries in the order their keys were first inserted,
    [set] on a present key keeps its place, and [delete] followed by [set]
    moves it to the end.  The code relies on that order (the cache, the routes,
    the in-memory index), so a [Map] is the list of its entries and a [Set] the
    list of its members, with the laws of both proved once here. *)

From stdpp Require Import base list sets.
From S2P Require Import Prelude.

Section Map.
Context {K V : Type} `{EqDecision K}.
Implicit Types m : list (K * V).

Fixpoint Map_get m (k : K) : option V :=
  match m with
  | [] => None
  | (k', v) :: m' => if decide (k' = k) then Some v else Map_get m' k
  end.

Definition Map_has m (k : K) : bool :=
  match Map_get m k with Some _ => true | None => false end.

Fixpoint Map_set m (k : K) (v : V) : list (K * V) :=
  match m with
  | [] => [(k, v)]
  | (k', v') :: m' => if decide (k' = k) then (k', v) :: m' else (k', v') :: Map_set m' k v
  end.

Definition Map_delete m (k : K) : list (K * V) :=
  List.filter (fun e => negb (bool_decide (e.1 = k))) m.

(** Writing through a reference obtained with [get]: the entry is changed
    where it is. *)
Definition Map_update (f : V -> V) m (k : K) : list (K * V) :=
  map (fun e => if decide (e.1 = k) then (e.1, f e.2) else e) m.

Definition Map_keys m : list K := map fst m.
Definition Map_values m : list V := map snd m.

(** Every [Map] the operations build has distinct keys. *)
Definition Map_wf m : Prop := NoDup (Map_keys m).

Lemma Map_get_set_eq m k v : Map_get (Map_set m k v) k = Some v.
Proof.
  induction m as [|[k' v'] m IH]; simpl; [by rewrite decide_True|].
  destruct (decide (k' = k)); simpl; [by rewrite decide_True|by rewrite decide_False].
Qed.

Lemma Map_get_set_ne m k k' v : k <> k' -> Map_get (Map_set m k v) k' = Map_get m k'.
Proof.
  intros Hne. induction m as [|[k1 v1] m IH]; simpl; [by rewrite decide_False|].
  destruct (decide (k1 = k)) as [->|]; simpl; [by rewrite !decide_False|].
  destruct (decide (k1 = k')); done.
Qed.

Lemma Map_get_set m k k' v :
  Map_get (Map_set m k v) k' = if decide (k = k') then Some v else Map_get m k'.
Proof. destruct (decide (k = k')) as [->|]; [apply Map_get_set_eq|by apply Map_get_set_ne]. Qed.

Lemma Map_get_delete m k k' :
  Map_get (Map_delete m k) k' = if decide (k = k') then None else Map_get m k'.
Proof.
  induction m as [|[k1 v1] m IH]; simpl; [by destruct (decide _)|].
  destruct (bool_decide_reflect (k1 = k)) as [->|Hne]; simpl.
  - rewrite IH. by destruct (decide (k = k')).
  - rewrite IH. destruct (decide (k1 = k')) as [->|]; [by rewrite decide_False|done].
Qed.

Lemma Map_get_update f m k k' :
  Map_get (Map_update f m k) k' = if decide (k = k') then f <$> Map_get m k' else Map_get m k'.
Proof.
  induction m as [|[k1 v1] m IH]; simpl; [by destruct (decide _)|].
  destruct (decide (k1 = k)) as [->|]; simpl; rewrite IH.
  - by destruct (decide (k = k')).
  - destruct (decide (k1 = k')) as [->|]; [by rewrite decide_False|done].
Qed.

Lemma Map_keys_update f m k : Map_keys (Map_update f m k) = Map_keys m.
Proof.
  induction m as [|[k1 v1] m IH]; [done|]. simpl. rewrite IH. by destruct (decide (k1 = k)).
Qed.

Lemma Map_get_None m k : Map_get m k = None <-> k ∉ Map_keys m.
Proof.
  induction m as [|[k' v'] m IH]; simpl; [split; [set_solver|done]|].
  rewrite not_elem_of_cons. destruct (decide (k' = k)) as [->|]; naive_solver.
Qed.

Lemma Map_get_Some_elem m k v : Map_get m k = Some v -> (k, v) ∈ m.
Proof.
  induction m as [|[k' v'] m IH]; simpl; [done|].
  destruct (decide (k' = k)) as [->|]; intros; simplify_eq; [by left|right; auto].
Qed.

Lemma Map_elem_get m k v : Map_wf m -> (k, v) ∈ m -> Map_get m k = Some v.
Proof.
  unfold Map_wf. induction m as [|[k' v'] m IH]; simpl; [by intros _ ?%not_elem_of_nil|].
  intros [Hk' Hnd]%NoDup_cons [[= -> ->]|Hin]%elem_of_cons; [by rewrite decide_True|].
  rewrite decide_False; [auto|]. intros ->. apply Hk'.
  apply list_elem_of_fmap. by exists (k, v).
Qed.

Lemma Map_has_spec m k : Map_has m k = true <-> k ∈ Map_keys m.
Proof.
  unfold Map_has. destruct (Map_get m k) eqn:E.
  - split; [|done]. intros _. apply Map_get_Some_elem in E.
    apply list_elem_of_fmap. by exists (k, v).
  - split; [done|]. intros H. by apply Map_get_None in E.
Qed.

Lemma Map_keys_set m k v :
  Map_keys (Map_set m k v) = if Map_has m k then Map_keys m else Map_keys m ++ [k].
Proof.
  unfold Map_has. induction m as [|[k' v'] m IH]; simpl; [done|].
  destruct (decide (k' = k)); simpl; [done|]. rewrite IH. by destruct (Map_get m k).
Qed.

Lemma Map_keys_delete m k :
  Map_keys (Map_delete m k) = List.filter (fun x => negb (bool_decide (x = k))) (Map_keys m).
Proof.
  induction m as [|[k' v'] m IH]; [done|]. simpl.
  destruct (bool_decide (k' = k)); simpl; [done|]. by rewrite IH.
Qed.

Lemma elem_of_filter_neq (l : list K) k x :
  x ∈ List.filter (fun y => negb (bool_decide (y = k))) l <-> x ∈ l /\ x <> k.
Proof.
  rewrite list_elem_of_In, filter_In, <- list_elem_of_In.
  destruct (bool_decide_reflect (x = k)); simpl; naive_solver.
Qed.

Lemma NoDup_List_filter {A} (f : A -> bool) (l : list A) : NoDup l -> NoDup (List.filter f l).
Proof.
  induction 1 as [|x l Hx Hl IH]; simpl; [constructor|].
  destruct (f x); [|done]. constructor; [|done].
  intros Hin. apply Hx. apply list_elem_of_In. apply list_elem_of_In, filter_In in Hin. tauto.
Qed.

Lemma Map_set_wf m k v : Map_wf m -> Map_wf (Map_set m k v).
Proof.
  unfold Map_wf. intros Hm. rewrite Map_keys_set. destruct (Map_has m k) eqn:E; [done|].
  apply NoDup_app. split; [done|]. split; [|by apply NoDup_singleton].
  intros x Hx ->%list_elem_of_singleton. apply Map_has_spec in Hx. congruence.
Qed.

Lemma Map_delete_wf m k : Map_wf m -> Map_wf (Map_delete m k).
Proof. unfold Map_wf. rewrite Map_keys_delete. apply NoDup_List_filter. Qed.

Lemma Map_update_wf f m k : Map_wf m -> Map_wf (Map_update f m k).
Proof. unfold Map_wf. by rewrite Map_keys_update. Qed.

Lemma Map_empty_wf : Map_wf [].
Proof. constructor. Qed.

Lemma Map_delete_elem m k e : e ∈ Map_delete m k <-> e ∈ m /\ e.1 <> k.
Proof.
  unfold Map_delete. rewrite list_elem_of_In, filter_In, <- list_elem_of_In.
  destruct (bool_decide_reflect (e.1 = k)); simpl; naive_solver.
Qed.

Lemma Map_delete_id m k : Map_get m k = None -> Map_delete m k = m.
Proof.
  induction m as [|[k' v'] m IH]; [done|]. simpl.
  destruct (decide (k' = k)); [done|]. rewrite bool_decide_false by done. simpl. intros H. by rewrite IH.
Qed.

Lemma Map_set_new m k v : Map_get m k = None -> Map_set m k v = m ++ [(k, v)].
Proof.
  induction m as [|[k' v'] m IH]; [done|]. simpl.
  destruct (decide (k' = k)); [done|]. intros H. by rewrite IH.
Qed.

Lemma Map_set_elem m k v e :
  Map_wf m -> e ∈ Map_set m k v <-> e = (k, v) \/ (e ∈ m /\ e.1 <> k).
Proof.
  intros Hm. destruct e as [k' v']. split.
  - intros Hin. apply (Map_elem_get _ _ _ (Map_set_wf _ k v Hm)) in Hin.
    rewrite Map_get_set in Hin. destruct (decide (k = k')) as [->|]; [naive_solver|].
    right. split; [by apply Map_get_Some_elem|done].
  - intros H. apply Map_get_Some_elem. rewrite Map_get_set.
    destruct H as [[= -> ->]|[Hin Hne]]; [by rewrite decide_True|].
    simpl in Hne. rewrite decide_False by done. by apply Map_elem_get.
Qed.

End Map.

Section Sets.
Context {K : Type} `{EqDecision K}.
Implicit Types s : list K.

Definition Set_has s (k : K) : bool := bool_decide (k ∈ s).
Definition Set_add s (k : K) : list K := if Set_has s k then s else s ++ [k].
Definition Set_delete s (k : K) : list K := List.filter (fun x => negb (bool_decide (x = k))) s.

Lemma Set_has_spec s k : Set_has s k = true <-> k ∈ s.
Proof. apply bool_decide_eq_true. Qed.

Lemma Set_add_elem s k x : x ∈ Set_add s k <-> x = k \/ x ∈ s.
Proof.
  unfold Set_add. destruct (Set_has s k) eqn:E.
  - apply Set_has_spec in E. naive_solver.
  - rewrite elem_of_app, list_elem_of_singleton. tauto.
Qed.

Lemma Set_delete_elem s k x : x ∈ Set_delete s k <-> x ∈ s /\ x <> k.
Proof. apply elem_of_filter_neq. Qed.

Lemma Set_add_NoDup s k : NoDup s -> NoDup (Set_add s k).
Proof.
  intros Hs. unfold Set_add. destruct (Set_has s k) eqn:E; [done|].
  apply NoDup_app. split; [done|]. split; [|apply NoDup_singleton].
  intros x Hx ->%list_elem_of_singleton. apply Set_has_spec in Hx. congruence.
Qed.

Lemma Set_delete_NoDup s k : NoDup s -> NoDup (Set_delete s k).
Proof. apply NoDup_List_filter. Qed.

(** Adding many members, in the order given. *)
Lemma Set_add_all_elem s ks x : x ∈ fold_left Set_add ks s <-> x ∈ s \/ x ∈ ks.
Proof.
  revert s. induction ks as [|k ks IH]; intros s; simpl; [set_solver|].
  rewrite IH, Set_add_elem. set_solver.
Qed.

End Sets.

#[export] Hint Resolve Map_set_wf Map_delete_wf Map_update_wf Map_empty_wf
  Set_add_NoDup Set_delete_NoDup : peerbit.

(** Turns lookups after updates into case distinctions on the keys. *)
Ltac map_simpl :=
  repeat (rewrite ?Map_get_set, ?Map_get_delete, ?Map_get_update in *; simpl in *);
  repeat case_decide; simplify_eq.

(** * First-in first-out queues

    The cache keeps its keys in a [yallist], the message lanes keep their
    messages in a [fast-fifo]; both are npm packages.  [Queue] is what the code
    relies on: [push] at the back, [shift] from the front, a look at the front
    and the number of elements.  [QueueLaws] states the documented behaviour
    through the elements in order; [list_queue] shows that it can be met. *)

Class Queue (Q A : Type) := {
  queue_create : Q;
  queue_push : Q -> A -> Q;
  queue_shift : Q -> Q;
  queue_head : Q -> option A;
  queue_length : Q -> nat;
  queue_elements : Q -> list A;
}.

Class QueueLaws (Q A : Type) `{Queue Q A} : Prop := {
  elements_create : queue_elements queue_create = [];
  elements_push q a : queue_elements (queue_push q a) = queue_elements q ++ [a];
  elements_shift q : queue_elements (queue_shift q) = tail (queue_elements q);
  head_elements q : queue_head q = head (queue_elements q);
  length_elements q : queue_length q = length (queue_elements q);
}.

(** [isEmpty]. *)
Definition queue_isEmpty {Q A} `{Queue Q A} (q : Q) : bool := (queue_length q =? 0)%nat.

#[export] Instance list_queue {A} : Queue (list A) A := {
  queue_create := [];
  queue_push l a := l ++ [a];
  queue_shift := tail;
  queue_head := head;
  queue_length := length;
  queue_elements l := l;
}.

#[export] Instance list_queue_laws {A} : QueueLaws (list A) A.
Proof. by split. Qed.

Create Rewrite HintDb queue.
#[export] Hint Rewrite @elements_create @elements_push @elements_shift
  @head_elements @length_elements using typeclasses eauto : queue.

Section Laws.
Context {Q A : Type} `{QueueLaws Q A}.

Lemma isEmpty_elements q : queue_isEmpty q = true <-> queue_elements q = [].
Proof.
  unfold queue_isEmpty. rewrite length_elements, Nat.eqb_eq. apply length_zero_iff_nil.
Qed.

Lemma head_None q : queue_head q = None <-> queue_elements q = [].
Proof. rewrite head_elements. by destruct (queue_elements q). Qed.

End Laws.
