(* ===== verification/Cache.v ===== *)
(** * The bounded cache (packages/utils/cache/src/index.ts)

    A map from keys to values of a given size, evicted first in first out when
    the total size passes [max] or when the oldest entry is older than [ttl].
    [del] only marks a key: the entry is dropped when it reaches the front.

    [Inv] is the representation invariant, [Accounted] says that [currentSize]
    is the total size of the live entries.  The theorems show that [trim] ends,
    never meets its "Cache value not found" error and leaves the cache within
    its bound, that every operation keeps [Inv], and which operations keep
    [Accounted]; re-adding a deleted key does not. *)

From Stdlib Require Import ZArith Lia.
From stdpp Require Import base list sets strings.
From S2P Require Import Prelude JsMap.

Local Open Scope Z_scope.

Section Cache.
Context {K V Q : Type} `{EqDecision K} `{Queue Q K}.

Record CacheData := MkCacheData { cd_value : option V; cd_time : Z; cd_size : Z }.

Record Cache := MkCache {
  cache_map : list (K * CacheData);
  cache_deleted : list K;
  cache_list : Q;
  currentSize : Z;
  cache_max : Z;
  cache_ttl : option Z;
}.

Definition clear (max : Z) (ttl : option Z) : Cache :=
  {| cache_map := []; cache_deleted := []; cache_list := queue_create;
     currentSize := 0; cache_max := max; cache_ttl := ttl |}.

Definition new_Cache (max : Z) (ttl : option Z) : outcome Cache :=
  _ ← throw_if (max <=? 0) "Expecting max > 0"; Val (clear max ttl).

Definition outOfDate (c : Cache) (v : CacheData) (time : Z) : bool :=
  match cache_ttl c with
  | Some ttl => cd_time v <? time - ttl
  | None => false
  end.

(** One eviction: [list.shift], [_map.delete], [deleted.delete]. *)
Definition evict (c : Cache) (k : K) (v : CacheData) : Cache :=
  {| cache_map := Map_delete (cache_map c) k;
     cache_deleted := Set_delete (cache_deleted c) k;
     cache_list := queue_shift (cache_list c);
     currentSize :=
       if Set_has (cache_deleted c) k then currentSize c else currentSize c - cd_size v;
     cache_max := cache_max c;
     cache_ttl := cache_ttl c |}.

Fixpoint trim_loop (fuel : nat) (time : Z) (c : Cache) : outcome Cache :=
  match fuel with
  | O => NoFuel
  | S fuel' =>
      match queue_head (cache_list c) with
      | None => Val c
      | Some k =>
          match Map_get (cache_map c) k with
          | None => Exn "Cache value not found"
          | Some v =>
              if outOfDate c v time || (cache_max c <? currentSize c)
              then trim_loop fuel' time (evict c k v)
              else Val c
          end
      end
  end.

Definition trim (time : Z) (c : Cache) : outcome Cache :=
  trim_loop (S (queue_length (cache_list c))) time c.

(** [has] and [get] trim first; [now] is what [+new Date()] reads. *)
Definition has (now : Z) (c : Cache) (k : K) : outcome (bool * Cache) :=
  c' ← trim now c;
  Val (if Set_has (cache_deleted c') k then false else Map_has (cache_map c') k, c').

Definition get (now : Z) (c : Cache) (k : K) : outcome (option (option V) * Cache) :=
  c' ← trim now c;
  Val (if Set_has (cache_deleted c') k then None else cd_value <$> Map_get (cache_map c') k, c').

Definition del (c : Cache) (k : K) : option CacheData * Cache :=
  match Map_get (cache_map c) k with
  | Some v =>
      if Set_has (cache_deleted c) k then (None, c)
      else (Some v,
            {| cache_map := cache_map c;
               cache_deleted := Set_add (cache_deleted c) k;
               cache_list := cache_list c;
               currentSize := currentSize c - cd_size v;
               cache_max := cache_max c;
               cache_ttl := cache_ttl c |})
  | None => (None, c)
  end.

(** [add] before its final [trim]. *)
Definition insert_entry (time : Z) (c : Cache) (k : K) (value : option V) (size : Z) : Cache :=
  let present := Map_has (cache_map c) k in
  {| cache_map := Map_set (cache_map c) k (MkCacheData value time size);
     cache_deleted := Set_delete (cache_deleted c) k;
     cache_list := if present then cache_list c else queue_push (cache_list c) k;
     currentSize := if present then currentSize c else currentSize c + size;
     cache_max := cache_max c;
     cache_ttl := cache_ttl c |}.

Definition add (now : Z) (c : Cache) (k : K) (value : option V) (size : Z) : outcome Cache :=
  trim now (insert_entry now c k value size).

Definition size (c : Cache) : Z := currentSize c.

(** ** The representation invariant *)

Record Inv (c : Cache) : Prop := {
  inv_map : Map_wf (cache_map c);
  inv_list : queue_elements (cache_list c) = Map_keys (cache_map c);
  inv_deleted : NoDup (cache_deleted c);
  inv_deleted_in : forall k, k ∈ cache_deleted c -> k ∈ Map_keys (cache_map c);
}.

(** The keys that [has] and [get] answer for. *)
Definition live (c : Cache) (k : K) : Prop :=
  k ∈ Map_keys (cache_map c) /\ k ∉ cache_deleted c.

(** Total size of the entries that are not marked as deleted. *)
Definition live_size (m : list (K * CacheData)) (deleted : list K) : Z :=
  foldr (fun e acc => (if Set_has deleted e.1 then 0 else cd_size e.2) + acc) 0 m.

Definition Accounted (c : Cache) : Prop :=
  currentSize c = live_size (cache_map c) (cache_deleted c).

End Cache.

Arguments CacheData : clear implicits.
Arguments Cache : clear implicits.

Section Theory.
Context {K V Q : Type} `{EqDecision K} `{QueueLaws Q K}.
Implicit Types c : Cache K V Q.
Implicit Types m : list (K * CacheData V).

Lemma new_Cache_inv max ttl c : new_Cache max ttl = Val c -> Inv c /\ Accounted c /\ 0 < cache_max c.
Proof.
  unfold new_Cache, throw_if. destruct (max <=? 0) eqn:E; simpl; [done|].
  intros [= <-]. split; [|split; [done|simpl; lia]].
  split; simpl; [apply Map_empty_wf|apply elements_create|constructor|by intros k ?%not_elem_of_nil].
Qed.

Lemma live_size_ext m d d' :
  (forall k, k ∈ Map_keys m -> Set_has d k = Set_has d' k) -> live_size m d = live_size m d'.
Proof.
  induction m as [|[k v] m IH]; intros Hd; [done|]. simpl.
  rewrite (Hd k) by (simpl; left). rewrite IH; [done|]. intros k' Hk'. apply Hd. by right.
Qed.

Lemma live_size_app m1 m2 d : live_size (m1 ++ m2) d = live_size m1 d + live_size m2 d.
Proof. induction m1 as [|e m1 IH]; simpl; [done|]. rewrite IH. lia. Qed.

(** Changing whether one key counts changes the total by that key's size. *)
Lemma live_size_mark m d k v :
  Map_wf m -> Map_get m k = Some v -> Set_has d k = false ->
  live_size m (Set_add d k) = live_size m d - cd_size v.
Proof.
  unfold Map_wf. induction m as [|[k' v'] m IH]; simpl; [done|].
  intros [Hk' Hnd]%NoDup_cons Hget Hd. destruct (decide (k' = k)) as [->|Hne].
  - simplify_eq. rewrite Hd. rewrite (live_size_ext m (Set_add d k) d).
    + replace (Set_has (Set_add d k) k) with true; [lia|].
      symmetry. apply Set_has_spec, Set_add_elem. by left.
    + intros k2 Hk2. apply eq_true_iff_eq. rewrite !Set_has_spec, Set_add_elem.
      split; [intros [->|?]; [done|done]|by right].
  - rewrite (IH Hnd Hget Hd).
    replace (Set_has (Set_add d k) k') with (Set_has d k'); [lia|].
    apply eq_true_iff_eq. rewrite !Set_has_spec, Set_add_elem. naive_solver.
Qed.

(** The oldest entry, its place in the map and in the queue. *)
Lemma Inv_head c k :
  Inv c -> queue_head (cache_list c) = Some k ->
  exists v m, cache_map c = (k, v) :: m /\ k ∉ Map_keys m.
Proof.
  intros [Hm Hl _ _] Hh. rewrite head_elements, Hl in Hh.
  unfold Map_wf in Hm. destruct (cache_map c) as [|[k' v] m]; [done|].
  simpl in *. simplify_eq. apply NoDup_cons in Hm as [? ?]. eauto.
Qed.

Lemma Map_delete_head {B} (k : K) (v : B) (m : list (K * B)) :
  k ∉ Map_keys m -> Map_delete ((k, v) :: m) k = m.
Proof.
  intros Hk. simpl. rewrite bool_decide_true by done. simpl.
  apply Map_delete_id. by apply Map_get_None.
Qed.

Lemma evict_Inv c k v m :
  Inv c -> cache_map c = (k, v) :: m -> Inv (evict c k v).
Proof.
  intros [Hm Hl Hd Hin] E. unfold Map_wf in Hm. rewrite E in Hm, Hl. simpl in Hm, Hl.
  apply NoDup_cons in Hm as [Hk Hm].
  split; cbn [evict cache_map cache_list cache_deleted]; rewrite ?E, ?(Map_delete_head k v m Hk).
  - done.
  - by rewrite elements_shift, Hl.
  - by apply Set_delete_NoDup.
  - intros k' [Hk' Hne]%Set_delete_elem. apply Hin in Hk'. rewrite E in Hk'. set_solver.
Qed.

Lemma evict_Accounted c k v m :
  Inv c -> cache_map c = (k, v) :: m -> Accounted c -> Accounted (evict c k v).
Proof.
  intros [Hm _ _ _] E Hacc. unfold Map_wf in Hm. rewrite E in Hm. simpl in Hm.
  apply NoDup_cons in Hm as [Hk Hm].
  unfold Accounted in *. cbn [evict cache_map currentSize cache_deleted].
  rewrite E, (Map_delete_head k v m Hk). rewrite E in Hacc. simpl in Hacc.
  rewrite (live_size_ext m (Set_delete (cache_deleted c) k) (cache_deleted c)).
  - destruct (Set_has (cache_deleted c) k); lia.
  - intros k' Hk'. apply eq_true_iff_eq. rewrite !Set_has_spec, Set_delete_elem. set_solver.
Qed.

(** The [trim] loop ends at an entry that may stay, and keeps every property
    that a single eviction keeps. *)
Lemma trim_loop_spec (P : Cache K V Q -> Prop) fuel time c :
  (forall c k v m, Inv c -> cache_map c = (k, v) :: m -> P c -> P (evict c k v)) ->
  Inv c -> P c -> (length (cache_map c) < fuel)%nat ->
  exists c', trim_loop fuel time c = Val c' /\ Inv c' /\ P c' /\
    (forall k v, queue_head (cache_list c') = Some k -> Map_get (cache_map c') k = Some v ->
       outOfDate c' v time = false /\ currentSize c' <= cache_max c').
Proof.
  intros HP. revert c. induction fuel as [|fuel IH]; intros c Hinv Hc Hfuel; [lia|]. simpl.
  destruct (queue_head (cache_list c)) as [k|] eqn:Hh.
  - destruct (Inv_head c k Hinv Hh) as (v & m & E & Hk).
    replace (Map_get (cache_map c) k) with (Some v)
      by (rewrite E; simpl; by rewrite decide_True).
    destruct (outOfDate c v time || (cache_max c <? currentSize c)) eqn:Etest.
    + apply IH; [by apply (evict_Inv c k v m)|by apply (HP c k v m)|].
      cbn [evict cache_map]. rewrite E, Map_delete_head by done. rewrite E in Hfuel. simpl in Hfuel. lia.
    + exists c. do 3 (split; [done|]). intros k' v' Hh' Hget. rewrite Hh in Hh'. simplify_eq.
      rewrite E in Hget. simpl in Hget. rewrite decide_True in Hget by done. simplify_eq.
      apply orb_false_iff in Etest as [? ?]. split; [done|lia].
  - exists c. do 3 (split; [done|]). congruence.
Qed.

Lemma trim_spec (P : Cache K V Q -> Prop) time c :
  (forall c k v m, Inv c -> cache_map c = (k, v) :: m -> P c -> P (evict c k v)) ->
  Inv c -> P c ->
  exists c', trim time c = Val c' /\ Inv c' /\ P c' /\
    (forall k v, queue_head (cache_list c') = Some k -> Map_get (cache_map c') k = Some v ->
       outOfDate c' v time = false /\ currentSize c' <= cache_max c').
Proof.
  intros HP Hinv Hc. apply trim_loop_spec; [done|done|done|].
  rewrite length_elements, (inv_list c Hinv). unfold Map_keys. rewrite length_map. lia.
Qed.

(** Properties a single eviction keeps: the entries form a suffix of [m0]; a
    key that is not live stays so. *)
Lemma evict_suffix m0 c k v m :
  cache_map c = (k, v) :: m -> Inv c ->
  (exists n, cache_map c = drop n m0) -> exists n, cache_map (evict c k v) = drop n m0.
Proof.
  intros E Hinv [n Hn]. exists (S n). cbn [evict cache_map].
  pose proof (inv_map c Hinv) as Hm. unfold Map_wf in Hm. rewrite E in Hm.
  apply NoDup_cons in Hm as [Hk _]. rewrite E, Map_delete_head by done.
  replace (S n) with (n + 1)%nat by lia. rewrite <- drop_drop, <- Hn, E. done.
Qed.

Lemma evict_not_live c k v k' : ~ live c k' -> ~ live (evict c k v) k'.
Proof.
  intros Hl [Hin Hd]. apply Hl. cbn [evict cache_map cache_deleted] in *.
  rewrite Map_keys_delete in Hin. apply elem_of_filter_neq in Hin as [Hin Hne].
  split; [done|]. intros Hd'. apply Hd. by apply Set_delete_elem.
Qed.

Lemma has_live c k :
  (if Set_has (cache_deleted c) k then false else Map_has (cache_map c) k) = true <-> live c k.
Proof.
  unfold live. destruct (Set_has (cache_deleted c) k) eqn:E.
  - split; [done|]. intros [_ Hd]. by apply Set_has_spec in E.
  - rewrite Map_has_spec. split; [|tauto]. intros ?. split; [done|].
    intros Hd%Set_has_spec. congruence.
Qed.

Lemma insert_entry_Inv time c k value sz :
  Inv c -> Inv (insert_entry time c k value sz).
Proof.
  intros [Hm Hl Hd Hin]. split; cbn [insert_entry cache_map cache_list cache_deleted].
  - by apply Map_set_wf.
  - rewrite Map_keys_set. destruct (Map_has (cache_map c) k); [done|].
    by rewrite elements_push, Hl.
  - by apply Set_delete_NoDup.
  - intros k' [Hk' _]%Set_delete_elem. rewrite Map_keys_set.
    apply Hin in Hk'. destruct (Map_has (cache_map c) k); [done|]. apply elem_of_app. by left.
Qed.

Lemma insert_entry_Accounted time c k value sz :
  Map_get (cache_map c) k = None -> Inv c -> Accounted c ->
  Accounted (insert_entry time c k value sz).
Proof.
  intros Hk Hinv Hacc. unfold Accounted in *.
  cbn [insert_entry cache_map currentSize cache_deleted].
  unfold Map_has. rewrite Hk, (Map_set_new _ _ _ Hk), live_size_app, Hacc. simpl.
  assert (Hdel : k ∉ cache_deleted c).
  { intros Hd. apply (inv_deleted_in c Hinv) in Hd. by apply Map_get_None in Hk. }
  rewrite (live_size_ext _ (Set_delete (cache_deleted c) k) (cache_deleted c)).
  - replace (Set_has (Set_delete (cache_deleted c) k) k) with false; [lia|].
    symmetry. apply not_true_iff_false. rewrite Set_has_spec, Set_delete_elem. naive_solver.
  - intros k' _. apply eq_true_iff_eq. rewrite !Set_has_spec, Set_delete_elem. naive_solver.
Qed.

Lemma del_Inv c k : Inv c -> Inv (del c k).2.
Proof.
  intros Hinv. unfold del. destruct (Map_get (cache_map c) k) as [v|] eqn:E; [|done].
  destruct (Set_has (cache_deleted c) k) eqn:Ed; [done|]. destruct Hinv as [Hm Hl Hd Hin].
  split; simpl; [done|done|by apply Set_add_NoDup|].
  intros k' [->|Hk']%Set_add_elem; [|by apply Hin].
  apply Map_has_spec. unfold Map_has. by rewrite E.
Qed.

Lemma del_Accounted c k : Inv c -> Accounted c -> Accounted (del c k).2.
Proof.
  intros Hinv Hacc. unfold del. destruct (Map_get (cache_map c) k) as [v|] eqn:E; [|done].
  destruct (Set_has (cache_deleted c) k) eqn:Ed; [done|]. unfold Accounted in *. simpl.
  rewrite (live_size_mark _ _ _ v); [lia|by apply inv_map|done|done].
Qed.

Lemma del_not_live c k : ~ live (del c k).2 k.
Proof.
  unfold del, live. destruct (Map_get (cache_map c) k) as [v|] eqn:E.
  - destruct (Set_has (cache_deleted c) k) eqn:Ed; simpl; intros [_ Hd]; apply Hd.
    + by apply Set_has_spec.
    + apply Set_add_elem. by left.
  - simpl. intros [Hin _]. by apply Map_get_None in E.
Qed.

(** ** Caches in front of a store *)

(** The cache answers what the store would: a value, or that there is none. *)
Definition cache_agrees (st : K -> option V) (c : Cache K V Q) : Prop :=
  forall k v, Map_get (cache_map c) k = Some v -> k ∉ cache_deleted c -> cd_value v = st k.

Lemma evict_agrees st c k v : cache_agrees st c -> cache_agrees st (evict c k v).
Proof.
  intros Hc k' w Hg Hd. cbn [evict cache_map cache_deleted] in *. rewrite Map_get_delete in Hg.
  case_decide; [done|]. apply Hc; [done|]. intros Hin. by apply Hd, Set_delete_elem.
Qed.

Lemma get_agrees st now c k :
  Inv c -> cache_agrees st c ->
  exists mem c', get now c k = Val (mem, c') /\ Inv c' /\ cache_agrees st c' /\ (mem = None \/ mem = Some (st k)).
Proof.
  intros Hc Ha. destruct (trim_spec (cache_agrees st) now c) as (c' & E & Hc' & Ha' & _); [intros; by apply evict_agrees|done|done|].
  unfold get. rewrite E. cbn [mbind outcome_bind]. eexists _, c'. split; [done|]. split_and!; [done|done|].
  destruct (Set_has (cache_deleted c') k) eqn:Ed; [by left|].
  destruct (Map_get (cache_map c') k) as [v|] eqn:Em; [|by left]. right. simpl. f_equal. apply Ha'; [done|].
  intros Hd%Set_has_spec. congruence.
Qed.

(** Adding what the store has come to hold under the key. *)
Lemma add_other st st' now c k :
  Inv c -> cache_agrees st c -> (forall k', k' <> k -> st' k' = st k') ->
  exists c', add now c k (st' k) 1 = Val c' /\ Inv c' /\ cache_agrees st' c'.
Proof.
  intros Hc Ha Hst. destruct (trim_spec (cache_agrees st') now (insert_entry now c k (st' k) 1)) as (c' & E & Hc' & Ha' & _);
    [intros; by apply evict_agrees|by apply insert_entry_Inv| |by exists c'].
  intros k' v Hg Hd. cbn [insert_entry cache_map cache_deleted] in *. rewrite Map_get_set in Hg.
  case_decide as Hx; [by simplify_eq/=|]. rewrite Hst by congruence. apply Ha; [done|]. intros Hin. apply Hd, Set_delete_elem. by split; [|congruence].
Qed.

Lemma add_agrees st now c k : Inv c -> cache_agrees st c -> exists c', add now c k (st k) 1 = Val c' /\ Inv c' /\ cache_agrees st c'.
Proof. intros Hc Ha. by apply (add_other st). Qed.

Lemma del_agrees st st' c k : cache_agrees st c -> (forall k', k' <> k -> st' k' = st k') -> cache_agrees st' (del c k).2.
Proof.
  intros Ha Hst k' v Hg Hd. unfold del in *. destruct (Map_get (cache_map c) k) as [w|] eqn:Ek.
  - destruct (Set_has (cache_deleted c) k) eqn:Ed; simpl in *.
    + rewrite Hst; [by apply Ha|]. intros ->. by apply Hd, Set_has_spec.
    + rewrite Hst; [apply Ha; [done|intros Hin; apply Hd, Set_add_elem; by right]|]. intros ->. apply Hd, Set_add_elem. by left.
  - simpl in *. rewrite Hst; [by apply Ha|congruence].
Qed.

Lemma live_size_set m d k v v' :
  Map_wf m -> Map_get m k = Some v -> Set_has d k = false ->
  live_size (Map_set m k v') d = live_size m d - cd_size v + cd_size v'.
Proof.
  unfold Map_wf. induction m as [|[k1 v1] m IH]; simpl; [done|].
  intros [Hk' Hnd]%NoDup_cons Hget Hd. destruct (decide (k1 = k)) as [->|Hne]; simpl.
  - simplify_eq. rewrite Hd. lia.
  - rewrite (IH Hnd Hget Hd). lia.
Qed.

(** Every call of [trim] ends without reaching its "Cache value not found"
    error, evicts a prefix of the entries in insertion order (first in, first
    out), keeps the representation invariant, and stops only at an entry that
    is not out of date in a cache that is within its size bound. *)
Theorem trim_correct (time : Z) (c : Cache K V Q) :
  Inv c ->
  exists c' n, trim time c = Val c' /\ Inv c' /\
    cache_map c' = drop n (cache_map c) /\
    (cache_map c' <> [] ->
     currentSize c' <= cache_max c' /\
     forall k v, queue_head (cache_list c') = Some k -> Map_get (cache_map c') k = Some v ->
       outOfDate c' v time = false).
Proof.
  intros Hinv.
  destruct (trim_spec (fun c' => exists n, cache_map c' = drop n (cache_map c)) time c)
    as (c' & Hrun & Hinv' & (n & Hmap) & Hpost); [|done|by exists 0%nat|].
  { intros; by eapply evict_suffix. }
  exists c', n. do 3 (split; [done|]). intros Hne.
  destruct (cache_map c') as [|[k v] m] eqn:E; [done|]. rewrite <- E in *.
  assert (Hh : queue_head (cache_list c') = Some k).
  { by rewrite head_elements, (inv_list c' Hinv'), E. }
  assert (Hg : Map_get (cache_map c') k = Some v) by (rewrite E; simpl; by rewrite decide_True).
  split; [by apply (Hpost k v)|]. intros k' v' Hh' Hg'. by apply (Hpost k' v').
Qed.

(** Deleting a key, and adding a key the cache does not hold, keep
    [currentSize] equal to the total size of the entries [has] answers for. *)
Theorem accounting_preserved (now : Z) (c : Cache K V Q) (k : K) (value : option V) (sz : Z) :
  Inv c -> Accounted c ->
  (Inv (del c k).2 /\ Accounted (del c k).2) /\
  (k ∉ Map_keys (cache_map c) ->
   exists c', add now c k value sz = Val c' /\ Inv c' /\ Accounted c').
Proof.
  intros Hinv Hacc. split; [split; [by apply del_Inv|by apply del_Accounted]|].
  intros Hk%Map_get_None.
  destruct (trim_spec Accounted now (insert_entry now c k value sz)) as (c' & Hrun & Hinv' & Ha & _).
  - intros; by eapply evict_Accounted.
  - by apply insert_entry_Inv.
  - by apply insert_entry_Accounted.
  - by exists c'.
Qed.

(** After [del k], neither [has] nor [get] finds [k], at any later time. *)
Theorem del_then_absent (now : Z) (c : Cache K V Q) (k : K) :
  Inv c ->
  exists c', has now (del c k).2 k = Val (false, c') /\ get now (del c k).2 k = Val (None, c').
Proof.
  intros Hinv.
  destruct (trim_spec (fun c' => ~ live c' k) now (del c k).2) as (c' & Hrun & Hinv' & Hl & _).
  - intros; by apply evict_not_live.
  - by apply del_Inv.
  - apply del_not_live.
  - exists c'. unfold has, get. rewrite Hrun. simpl. rewrite <- has_live in Hl.
    destruct (Set_has (cache_deleted c') k); [done|].
    unfold Map_has in *. by destruct (Map_get (cache_map c') k).
Qed.

(** Adding a live-then-deleted key again with its old size brings the key
    back but not its size: [currentSize] is short by that size, so a cache can
    hold more than [max] without evicting (finding). *)
Theorem readd_undercounts (time : Z) (c : Cache K V Q) (k : K) (v : CacheData V) (value : option V) :
  Inv c -> Accounted c -> Map_get (cache_map c) k = Some v -> k ∉ cache_deleted c ->
  let c' := insert_entry time (del c k).2 k value (cd_size v) in
  live c' k /\ currentSize c' = live_size (cache_map c') (cache_deleted c') - cd_size v.
Proof.
  intros Hinv Hacc Hk Hd c'.
  assert (Hd' : Set_has (cache_deleted c) k = false).
  { apply not_true_iff_false. by rewrite Set_has_spec. }
  assert (Hc : c' = insert_entry time (del c k).2 k value (cd_size v)) by done.
  unfold del in Hc. rewrite Hk, Hd' in Hc. subst c'. rewrite Hc. simpl. unfold live, Map_has. simpl.
  rewrite Hk. split.
  - split; [|by intros [_ ?]%Set_delete_elem].
    rewrite Map_keys_set. unfold Map_has. rewrite Hk. apply Map_has_spec. unfold Map_has. by rewrite Hk.
  - rewrite (live_size_ext _ _ (cache_deleted c)).
    + rewrite (live_size_set _ _ _ v) by (auto; by apply inv_map). simpl.
      unfold Accounted in Hacc. lia.
    + intros k' _. apply eq_true_iff_eq. rewrite !Set_has_spec, Set_delete_elem, Set_add_elem.
      naive_solver.
Qed.

End Theory.

(** ** Concrete runs, with the queue instantiated by lists *)

Section Witnesses.

Definition cache2 : Cache string nat (list string) :=
  insert_entry 5 (insert_entry 4 (clear 1 None) "a" (Some 1%nat) 1) "b" (Some 2%nat) 1.

Lemma cache2_Inv : Inv cache2.
Proof. apply insert_entry_Inv, insert_entry_Inv. by apply (new_Cache_inv 1 None). Qed.

Lemma cache2_Accounted : Accounted cache2.
Proof. reflexivity. Qed.

Lemma trim_correct_witness :
  trim 6 cache2 = Val (evict cache2 "a" (MkCacheData (Some 1%nat) 4 1)) /\
  exists c' n, trim 6 cache2 = Val c' /\ Inv c' /\ cache_map c' = drop n (cache_map cache2) /\
    (cache_map c' <> [] ->
     currentSize c' <= cache_max c' /\
     forall k v, queue_head (cache_list c') = Some k -> Map_get (cache_map c') k = Some v ->
       outOfDate c' v 6 = false).
Proof. split; [reflexivity|]. exact (trim_correct 6 cache2 cache2_Inv). Defined.

Lemma accounting_preserved_witness :
  (Inv (del cache2 "c").2 /\ Accounted (del cache2 "c").2) /\
  ("c" ∉ Map_keys (cache_map cache2) ->
   exists c', add 6 cache2 "c" (Some 3%nat) 2 = Val c' /\ Inv c' /\ Accounted c').
Proof.
  exact (accounting_preserved 6 cache2 "c" (Some 3%nat) 2 cache2_Inv cache2_Accounted).
Defined.

Lemma del_then_absent_witness :
  exists c', has 6 (del cache2 "b").2 "b" = Val (false, c') /\
             get 6 (del cache2 "b").2 "b" = Val (None, c').
Proof. exact (del_then_absent 6 cache2 "b" cache2_Inv). Defined.

Lemma readd_undercounts_witness :
  let c' := insert_entry 6 (del cache2 "b").2 "b" (Some 2%nat) 1 in
  live c' "b" /\ currentSize c' = live_size (cache_map c') (cache_deleted c') - 1.
Proof.
  apply (readd_undercounts 6 cache2 "b" (MkCacheData (Some 2%nat) 5 1) (Some 2%nat)).
  - exact cache2_Inv.
  - exact cache2_Accounted.
  - reflexivity.
  - apply not_elem_of_nil.
Defined.

End Witnesses.
