(* ===== verification/Clock.v ===== *)
(** * Hybrid logical clocks (packages/log/src/clock.ts)

    [Timestamp], the hybrid logical clock [HLC] with its three error cases, and
    [LamportClock], the order every log entry is sorted by.  Reading the
    physical clock is an argument of the call; [uint8arrays]' [compare] and
    [equals] are parameters. *)

From Stdlib Require Import ZArith Lia.
From stdpp Require Import base list strings sorting.
From S2P Require Import Prelude.

Local Open Scope Z_scope.

Definition UINT64_MAX : Z := 18446744073709551615.
Definition UINT32_MAX : Z := 0xffffffff.

Record Timestamp := MkTimestamp { wallTime : Z; logical : Z }.

#[export] Instance Timestamp_eq_dec : EqDecision Timestamp.
Proof. solve_decision. Defined.

(** [new Timestamp]: [logical || 0]. *)
Definition new_Timestamp (wall : Z) (logical : option Z) : Timestamp :=
  MkTimestamp wall (default 0 logical).

Definition compare (a b : Timestamp) : Z :=
  if wallTime b <? wallTime a then 1
  else if wallTime a <? wallTime b then -1
  else if logical b <? logical a then 1
  else if logical a <? logical b then -1
  else 0.

Definition bigger (a b : Timestamp) : Timestamp := if compare a b =? -1 then b else a.
Definition smaller (a b : Timestamp) : Timestamp := if compare a b =? 1 then b else a.
Definition clone (t : Timestamp) : Timestamp := new_Timestamp (wallTime t) (Some (logical t)).

Record HLC := MkHLC {
  maxOffset : Z;
  wallTimeUpperBound : Z;
  toleratedForwardClockJump : Z;
  last : Timestamp;
}.

(** [bigIntCoerce(input, 0n)] on the values the constructor's type allows. *)
Definition bigIntCoerce (input : option Z) (fallback : Z) : Z := default fallback input.

(** [new HLC], with [wall] the reading of the physical clock. *)
Definition new_HLC (wall : Z) (maxOffset wallTimeUpperBound tolerated : option Z)
    (lastProp : option Timestamp) : HLC :=
  let last0 := new_Timestamp wall None in
  {| maxOffset := bigIntCoerce maxOffset 0;
     wallTimeUpperBound := bigIntCoerce wallTimeUpperBound 0;
     toleratedForwardClockJump := bigIntCoerce tolerated 0;
     last := match lastProp with Some l => bigger l last0 | None => last0 end |}.

Definition validateOffset (h : HLC) (offset : Z) : outcome unit :=
  if (0 <? toleratedForwardClockJump h) && (toleratedForwardClockJump h <? - offset)
  then Exn "ForwardJumpError"
  else if (0 <? maxOffset h) && (maxOffset h <? offset)
  then Exn "ClockOffsetError"
  else Val tt.

Definition maxWallTime (h : HLC) : Z :=
  if 0 <? wallTimeUpperBound h then wallTimeUpperBound h else UINT64_MAX.

(** The wall time and counter [update] proposes. *)
Definition next_time (latest : Timestamp) (wall : Z) : Z * Z :=
  let offset := wallTime latest - wall in
  if offset <? 0 then (wall, 0)
  else
    let l := logical latest + 1 in
    if UINT32_MAX <? l then (wallTime latest + 1, 0) else (wallTime latest, l).

Definition update (h : HLC) (wall : Z) (other : Timestamp) : outcome (Timestamp * HLC) :=
  let latest := bigger other (last h) in
  _ ← validateOffset h (wallTime latest - wall);
  let '(w, l) := next_time latest wall in
  if maxWallTime h <? w then Exn "WallTimeOverflowError"
  else
    let t := new_Timestamp w (Some l) in
    Val (t, {| maxOffset := maxOffset h; wallTimeUpperBound := wallTimeUpperBound h;
               toleratedForwardClockJump := toleratedForwardClockJump h; last := t |}).

Definition now (h : HLC) (wall : Z) : outcome (Timestamp * HLC) := update h wall (last h).

(** ** The order on timestamps *)

Definition Timestamp_lt (a b : Timestamp) : Prop := compare a b = -1.

(** The range of the borsh fields: a [u32] counter. *)
Definition Timestamp_wf (t : Timestamp) : Prop := 0 <= logical t <= UINT32_MAX.

Lemma compare_cases a b :
  (compare a b = -1 /\ (wallTime a < wallTime b \/ wallTime a = wallTime b /\ logical a < logical b)) \/
  (compare a b = 0 /\ a = b) \/
  (compare a b = 1 /\ (wallTime b < wallTime a \/ wallTime a = wallTime b /\ logical b < logical a)).
Proof.
  unfold compare. destruct a as [wa la], b as [wb lb]. simpl.
  repeat case_if_in_goal; try (left; lia); try (right; right; lia).
  right; left. split; [done|]. f_equal; lia.
Qed.

Lemma Timestamp_lt_spec a b :
  Timestamp_lt a b <-> wallTime a < wallTime b \/ wallTime a = wallTime b /\ logical a < logical b.
Proof.
  unfold Timestamp_lt. destruct (compare_cases a b) as [[E H]|[[E H]|[E H]]]; rewrite E; [|rewrite H|]; split; lia.
Qed.

#[export] Instance Timestamp_lt_strict : StrictOrder Timestamp_lt.
Proof.
  split.
  - intros a. unfold complement. rewrite Timestamp_lt_spec. lia.
  - intros a b c. rewrite !Timestamp_lt_spec. lia.
Qed.

Lemma compare_refl a : compare a a = 0.
Proof. destruct (compare_cases a a) as [[E H]|[[E H]|[E H]]]; rewrite E; lia. Qed.

Lemma compare_antisym a b : compare b a = - compare a b.
Proof.
  destruct (compare_cases a b) as [[-> Hab]|[[-> Hab]|[-> Hab]]];
    destruct (compare_cases b a) as [[-> Hba]|[[-> Hba]|[-> Hba]]];
    try subst b; lia.
Qed.

Lemma bigger_spec a b :
  (bigger a b = a \/ bigger a b = b) /\
  (bigger a b = a \/ Timestamp_lt a (bigger a b)) /\
  (bigger a b = b \/ Timestamp_lt b (bigger a b)).
Proof.
  unfold bigger. destruct (compare_cases a b) as [[H ?]|[[H ?]|[H ?]]]; rewrite H; simpl; subst.
  - split; [by right|]. split; [by right|by left].
  - split; [by left|]. split; by left.
  - split; [by left|]. split; [by left|]. right. apply Timestamp_lt_spec. lia.
Qed.

Lemma next_time_above latest wall w l :
  Timestamp_wf latest -> next_time latest wall = (w, l) ->
  Timestamp_lt latest (MkTimestamp w l) /\ 0 <= l <= UINT32_MAX /\ wall <= w.
Proof.
  unfold next_time, Timestamp_wf. intros Hwf.
  destruct (wallTime latest - wall <? 0) eqn:E1; [intros [= <- <-]|].
  - rewrite Timestamp_lt_spec. simpl. unfold UINT32_MAX in *. lia.
  - destruct (UINT32_MAX <? logical latest + 1) eqn:E2; intros [= <- <-];
      rewrite Timestamp_lt_spec; simpl; unfold UINT32_MAX in *; lia.
Qed.

(** What a successful [update] returns. *)
Lemma update_val h wall other t h' :
  update h wall other = Val (t, h') ->
  (wallTime t, logical t) = next_time (bigger other (last h)) wall /\
  validateOffset h (wallTime (bigger other (last h)) - wall) = Val tt /\
  wallTime t <= maxWallTime h /\ last h' = t /\
  maxOffset h' = maxOffset h /\ wallTimeUpperBound h' = wallTimeUpperBound h /\
  toleratedForwardClockJump h' = toleratedForwardClockJump h.
Proof.
  unfold update. destruct (validateOffset h _) as [[]|e|] eqn:Ev; simpl; [|done|done].
  destruct (next_time _ _) as [w l] eqn:En. destruct (maxWallTime h <? w) eqn:E; [done|].
  intros [= <- <-]. simpl. repeat split; auto. lia.
Qed.

(** The time returned is after the clock's last time and the received one. *)
Lemma update_later h h' wall other t :
  Timestamp_wf (last h) -> Timestamp_wf other -> update h wall other = Val (t, h') ->
  Timestamp_lt (last h) t /\ Timestamp_lt other t /\ Timestamp_wf t /\ last h' = t.
Proof.
  intros Hl Ho Hu. apply update_val in Hu as (Hn & _ & _ & Hlast & _). symmetry in Hn.
  destruct (bigger_spec other (last h)) as (Hor & Hb1 & Hb2).
  assert (Hwf : Timestamp_wf (bigger other (last h))) by (destruct Hor as [-> | ->]; done).
  destruct (next_time_above _ _ _ _ Hwf Hn) as (Hlt & Hr & _).
  replace (MkTimestamp (wallTime t) (logical t)) with t in Hlt by (by destruct t).
  repeat split; try lia; try done.
  - destruct Hb2 as [<-|Hb2]; [done|]. by transitivity (bigger other (last h)).
  - destruct Hb1 as [<-|Hb1]; [done|]. by transitivity (bigger other (last h)).
Qed.

(** The clock is monotone: a successful [update] returns a time strictly
    after the clock's last time and after the received one, not before the
    physical clock, within the upper bound, with a counter that fits in 32
    bits, and remembers it. *)
Theorem update_monotone (h h' : HLC) (wall : Z) (other t : Timestamp) :
  Timestamp_wf (last h) -> Timestamp_wf other ->
  update h wall other = Val (t, h') ->
  Timestamp_lt (last h) t /\ Timestamp_lt other t /\ Timestamp_wf t /\
  wall <= wallTime t <= maxWallTime h /\ last h' = t.
Proof.
  intros Hl Ho Hu. destruct (update_later _ _ _ _ _ Hl Ho Hu) as (Hlt & Hlo & Hwf & Hlast).
  apply update_val in Hu as (Hn & _ & Hmax & _). symmetry in Hn.
  destruct (bigger_spec other (last h)) as (Hor & _).
  assert (Hb : Timestamp_wf (bigger other (last h))) by (destruct Hor as [-> | ->]; done).
  destruct (next_time_above _ _ _ _ Hb Hn) as (_ & _ & Hw). naive_solver lia.
Qed.

(** [update] throws exactly when the physical clock jumped ahead of the
    last known time by more than the tolerance, when the known time is ahead of
    the physical clock by more than [maxOffset], or when the next time passes
    the wall time bound; in every other case it returns. *)
Theorem update_errors (h : HLC) (wall : Z) (other : Timestamp) :
  let offset := wallTime (bigger other (last h)) - wall in
  let jump := 0 < toleratedForwardClockJump h < - offset in
  let ahead := 0 < maxOffset h < offset in
  (update h wall other = Exn "ForwardJumpError" <-> jump) /\
  (update h wall other = Exn "ClockOffsetError" <-> ~ jump /\ ahead) /\
  (update h wall other = Exn "WallTimeOverflowError" <->
     ~ jump /\ ~ ahead /\ maxWallTime h < (next_time (bigger other (last h)) wall).1) /\
  ((exists r, update h wall other = Val r) <->
     ~ jump /\ ~ ahead /\ (next_time (bigger other (last h)) wall).1 <= maxWallTime h).
Proof.
  intros offset jump ahead. unfold update. fold offset.
  assert (Hj : jump <-> (0 <? toleratedForwardClockJump h) &&
                        (toleratedForwardClockJump h <? - offset) = true) by (unfold jump; lia).
  assert (Ha : ahead <-> (0 <? maxOffset h) && (maxOffset h <? offset) = true)
    by (unfold ahead; lia).
  unfold validateOffset.
  destruct ((0 <? toleratedForwardClockJump h) && (toleratedForwardClockJump h <? - offset));
    [|destruct ((0 <? maxOffset h) && (maxOffset h <? offset))]; simpl.
  - naive_solver.
  - naive_solver.
  - destruct (next_time _ _) as [w l]. simpl. destruct (maxWallTime h <? w) eqn:E.
    + assert (maxWallTime h < w) by lia. assert (~ w <= maxWallTime h) by lia. naive_solver.
    + assert (~ maxWallTime h < w) by lia. assert (w <= maxWallTime h) by lia. naive_solver.
Qed.

(** ** Runs of a clock

    A run alternates local events ([now]) and received times ([update]). *)

Inductive event := Local (wall : Z) | Receive (wall : Z) (other : Timestamp).

Definition step (h : HLC) (e : event) : outcome (Timestamp * HLC) :=
  match e with
  | Local wall => now h wall
  | Receive wall other => update h wall other
  end.

Fixpoint run (h : HLC) (es : list event) : outcome (list Timestamp * HLC) :=
  match es with
  | [] => Val ([], h)
  | e :: es' =>
      '(t, h1) ← step h e;
      '(ts, h2) ← run h1 es';
      Val (t :: ts, h2)
  end.

Definition event_wf (e : event) : Prop :=
  match e with Local _ => True | Receive _ other => Timestamp_wf other end.

(** Along any run of a clock, mixing local events and received times in any
    order and under any behaviour of the physical clock (also when it runs
    backwards), the times handed out are strictly increasing and all after the
    time the clock started from. *)
Theorem run_strictly_increasing (es : list event) (h h' : HLC) (ts : list Timestamp) :
  Timestamp_wf (last h) -> Forall event_wf es -> run h es = Val (ts, h') ->
  StronglySorted Timestamp_lt (last h :: ts) /\ length ts = length es.
Proof.
  revert h ts. induction es as [|e es IH]; intros h ts Hwf Hes Hrun; simpl in Hrun.
  { outcome_inv. simplify_eq. split; [by repeat constructor|done]. }
  apply Forall_cons in Hes as [He Hes].
  destruct (step h e) as [[t h1]|s|] eqn:Hstep; simpl in Hrun; try done.
  destruct (run h1 es) as [[ts' h2]|s|] eqn:Hrest; simpl in Hrun; try done.
  injection Hrun as <- <-.
  assert (Hs : Timestamp_lt (last h) t /\ Timestamp_wf t /\ last h1 = t).
  { destruct e; simpl in *; [destruct (update_later h h1 wall (last h) t)|destruct (update_later h h1 wall other t)];
    naive_solver. }
  destruct Hs as (Hlt & Hwft & <-).
  destruct (IH h1 ts') as [Hsort Hlen]; [done|done|done|]. split; [|simpl; by f_equal].
  constructor; [done|]. constructor; [done|].
  apply StronglySorted_inv in Hsort as [_ Hall].
  eapply Forall_impl; [exact Hall|]. intros x Hx. by transitivity (last h1).
Qed.

(** ** Lamport clocks *)

Section Lamport.
Context {Bytes : Type}.
(** [compare] and [equals] of the package [uint8arrays]. *)
Context (bytes_compare : Bytes -> Bytes -> Z) (bytes_equals : Bytes -> Bytes -> bool).

Record LamportClock := MkLamportClock { lc_id : Bytes; lc_timestamp : Timestamp }.

(** The three forms of the constructor's [timestamp] argument. *)
Inductive timestamp_arg := NoTimestamp | LogicalOnly (n : Z) | GivenTimestamp (t : Timestamp).

Definition new_LamportClock (bigintTime : Z) (id : Bytes) (t : timestamp_arg) : LamportClock :=
  match t with
  | NoTimestamp => MkLamportClock id (new_Timestamp bigintTime (Some 0))
  | LogicalOnly n =>
      (* the number 0 is falsy and takes the first branch *)
      if n =? 0 then MkLamportClock id (new_Timestamp bigintTime (Some 0))
      else MkLamportClock id (new_Timestamp bigintTime (Some n))
  | GivenTimestamp ts => MkLamportClock id ts
  end.

Definition lamport_clone (c : LamportClock) : LamportClock :=
  new_LamportClock 0 (lc_id c) (GivenTimestamp (clone (lc_timestamp c))).

Definition lamport_equals (a b : LamportClock) : bool :=
  bytes_equals (lc_id a) (lc_id b) && (compare (lc_timestamp a) (lc_timestamp b) =? 0).

(** [advance] reads the physical clock three times: in the constructor of the
    [HLC], in [update] and in [now]. *)
Definition advance (wall0 wall1 wall2 : Z) (c : LamportClock) : outcome LamportClock :=
  let h := new_HLC wall0 None None None None in
  '(_, h1) ← update h wall1 (new_Timestamp (wallTime (lc_timestamp c)) (Some (logical (lc_timestamp c))));
  '(t, _) ← now h1 wall2;
  Val (new_LamportClock 0 (lc_id c) (GivenTimestamp t)).

Definition lamport_compare (a b : LamportClock) : Z :=
  let timestamp := compare (lc_timestamp a) (lc_timestamp b) in
  if timestamp =? 0 then bytes_compare (lc_id a) (lc_id b) else timestamp.

(** What the documentation of [uint8arrays] says of [compare] and [equals]:
    a lexicographic total order with values -1, 0 and 1. *)
Class BytesLaws : Prop := {
  bytes_equals_spec a b : bytes_equals a b = true <-> a = b;
  bytes_compare_refl a b : bytes_compare a b = 0 <-> a = b;
  bytes_compare_flip a b : bytes_compare b a = - bytes_compare a b;
  bytes_compare_trans a b c : bytes_compare a b < 0 -> bytes_compare b c < 0 -> bytes_compare a c < 0;
}.

(** [LamportClock.compare] is a strict total order up to [equals]: it is
    zero exactly on equal clocks, changes sign when its arguments are swapped
    and is transitive, so every replica sorts the same entries the same way. *)
Theorem lamport_total_order `{BytesLaws} (a b c : LamportClock) :
  (lamport_compare a b = 0 <-> lamport_equals a b = true) /\
  (lamport_compare b a = - lamport_compare a b) /\
  (lamport_compare a b < 0 -> lamport_compare b c < 0 -> lamport_compare a c < 0).
Proof.
  unfold lamport_compare, lamport_equals. split; [|split].
  - destruct (compare_cases (lc_timestamp a) (lc_timestamp b)) as [[-> ?]|[[-> ?]|[-> ?]]]; simpl.
    + rewrite andb_false_r. split; [lia|done].
    + by rewrite bytes_compare_refl, andb_true_r, bytes_equals_spec.
    + rewrite andb_false_r. split; [lia|done].
  - rewrite (compare_antisym (lc_timestamp a) (lc_timestamp b)).
    destruct (compare_cases (lc_timestamp a) (lc_timestamp b)) as [[-> ?]|[[-> ?]|[-> ?]]]; simpl; auto.
    apply bytes_compare_flip.
  - destruct (compare_cases (lc_timestamp a) (lc_timestamp b)) as [[-> ?]|[[-> Hab]|[-> ?]]],
      (compare_cases (lc_timestamp b) (lc_timestamp c)) as [[-> ?]|[[-> Hbc]|[-> ?]]],
      (compare_cases (lc_timestamp a) (lc_timestamp c)) as [[-> ?]|[[-> Hac]|[-> ?]]]; simpl;
      try lia; intros; try (rewrite Hab in *); try (rewrite Hbc in *); try (rewrite Hac in *); try lia.
    by eapply bytes_compare_trans.
Qed.

(** [advance] returns a clock of the same owner that is strictly later. *)
Theorem advance_later (wall0 wall1 wall2 : Z) (c c' : LamportClock) :
  Timestamp_wf (lc_timestamp c) -> advance wall0 wall1 wall2 c = Val c' ->
  lc_id c' = lc_id c /\ lamport_compare c c' = -1.
Proof.
  intros Hwf Hadv. unfold advance in Hadv.
  set (h := new_HLC wall0 None None None None) in *.
  replace (new_Timestamp _ _) with (lc_timestamp c) in Hadv by (by destruct (lc_timestamp c)).
  assert (Hh : Timestamp_wf (last h)) by (unfold Timestamp_wf, UINT32_MAX; simpl; lia).
  destruct (update h wall1 _) as [[t1 h1]|?|] eqn:E1; simpl in Hadv; try done.
  destruct (now h1 wall2) as [[t2 h2]|?|] eqn:E2; simpl in Hadv; try done.
  injection Hadv as <-. split; [done|].
  assert (Hc : Timestamp_lt (lc_timestamp c) t2); [|unfold lamport_compare; simpl; by rewrite Hc].
  assert (Hw1 : Timestamp_wf (lc_timestamp c)) by done.
  destruct (update_later h h1 wall1 _ t1 Hh Hw1 E1) as (_ & Hlt & Hwf1 & Hl1).
  unfold now in E2. rewrite Hl1 in E2.
  destruct (update_later h1 h2 wall2 t1 t2) as (_ & Hlt2 & _); [by rewrite Hl1|done|done|].
  by transitivity t1.
Qed.

End Lamport.

(** ** Concrete runs *)

Section Witnesses.

Definition h0 : HLC := new_HLC 100 (Some 50) None None None.

Lemma update_monotone_witness :
  exists h', update h0 90 (MkTimestamp 120 UINT32_MAX) = Val (MkTimestamp 121 0, h') /\
    (Timestamp_lt (last h0) (MkTimestamp 121 0) /\
     Timestamp_lt (MkTimestamp 120 UINT32_MAX) (MkTimestamp 121 0) /\
     Timestamp_wf (MkTimestamp 121 0) /\ 90 <= 121 <= maxWallTime h0 /\
     last h' = MkTimestamp 121 0).
Proof.
  eexists. split; [reflexivity|].
  eapply (update_monotone h0 _ 90 (MkTimestamp 120 UINT32_MAX) (MkTimestamp 121 0)).
  - unfold Timestamp_wf, UINT32_MAX; simpl; lia.
  - unfold Timestamp_wf, UINT32_MAX; simpl; lia.
  - reflexivity.
Defined.

Definition es0 : list event := [Local 101; Receive 90 (MkTimestamp 120 7); Local 80; Local 300].

Lemma run_strictly_increasing_witness :
  exists h', run h0 es0 =
      Val ([MkTimestamp 101 0; MkTimestamp 120 8; MkTimestamp 120 9; MkTimestamp 300 0], h') /\
    StronglySorted Timestamp_lt
      (last h0 :: [MkTimestamp 101 0; MkTimestamp 120 8; MkTimestamp 120 9; MkTimestamp 300 0]) /\
    4%nat = length es0.
Proof.
  eexists. split; [reflexivity|].
  eapply (run_strictly_increasing es0 h0 _ [MkTimestamp 101 0; MkTimestamp 120 8; MkTimestamp 120 9; MkTimestamp 300 0]).
  - unfold Timestamp_wf, UINT32_MAX; simpl; lia.
  - repeat constructor; unfold Timestamp_wf, UINT32_MAX; simpl; lia.
  - reflexivity.
Defined.

(** Byte arrays as lists of integers, compared lexicographically. *)
Fixpoint lex_compare (a b : list Z) : Z :=
  match a, b with
  | [], [] => 0
  | [], _ :: _ => -1
  | _ :: _, [] => 1
  | x :: a', y :: b' => if x <? y then -1 else if y <? x then 1 else lex_compare a' b'
  end.

Lemma lex_BytesLaws : BytesLaws lex_compare (fun a b => bool_decide (a = b)).
Proof.
  split.
  - intros a b. apply bool_decide_eq_true.
  - induction a as [|x a IH]; intros [|y b]; simpl; try done.
    destruct (x <? y) eqn:E1; [split; [done|intros [= -> ->]; lia]|].
    destruct (y <? x) eqn:E2; [split; [done|intros [= -> ->]; lia]|].
    rewrite IH. assert (x = y) by lia. naive_solver.
  - induction a as [|x a IH]; intros [|y b]; simpl; try done.
    destruct (x <? y) eqn:E1, (y <? x) eqn:E2; try lia. apply IH.
  - induction a as [|x a IH]; intros [|y b] [|z c]; simpl; try lia.
    repeat case_if_in_goal; try lia. apply IH.
Qed.

Lemma lamport_total_order_witness :
  let a := MkLamportClock [1; 2] (MkTimestamp 5 0) in
  let b := MkLamportClock [1; 3] (MkTimestamp 5 0) in
  let c := MkLamportClock [0] (MkTimestamp 6 0) in
  let cmp := lamport_compare lex_compare in
  (cmp a b = 0 <-> lamport_equals (fun a b => bool_decide (a = b)) a b = true) /\
  (cmp b a = - cmp a b) /\ (cmp a b < 0 -> cmp b c < 0 -> cmp a c < 0).
Proof.
  apply (@lamport_total_order _ lex_compare (fun a b => bool_decide (a = b)) lex_BytesLaws).
Defined.

Lemma advance_later_witness :
  let c := MkLamportClock [1] (MkTimestamp 50 3) in
  let c' := MkLamportClock [1] (MkTimestamp 50 5) in
  advance 10 11 12 c = Val c' /\ lc_id c' = lc_id c /\ lamport_compare lex_compare c c' = -1.
Proof.
  intros c c'. split; [reflexivity|].
  apply (@advance_later _ lex_compare 10 11 12 c c').
  - unfold Timestamp_wf, UINT32_MAX; simpl; lia.
  - reflexivity.
Defined.

End Witnesses.
