(* ===== verification/JsVal.v ===== *)
(** * JavaScript values, and the helpers of the indexer interface on them
    (packages/utils/indexer/interface/src/utils.ts)

    The in-memory index looks into documents by field path, so a document is a
    JavaScript value.  [JsEnv] holds the two functions of the platform the
    model does not define: base 64 encoding and locale aware string order. *)

From Stdlib Require Import ZArith Lia.
From stdpp Require Import base list strings.
From S2P Require Import Prelude JsMap.

Local Open Scope Z_scope.


(** [JNum] is an integral number, [JBig] a bigint. *)
Inductive jsval : Type :=
| JUndef
| JNull
| JBool (b : bool)
| JNum (z : Z)
| JBig (z : Z)
| JStr (s : string)
| JBytes (b : list Z)
| JArr (l : list jsval)
| JObj (fields : list (string * jsval)).

Class JsEnv := {
  toBase64 : list Z -> string;
  localeCompare : string -> string -> Z;
}.

Class JsEnvLaws `{JsEnv} : Prop := {
  toBase64_inj a b : toBase64 a = toBase64 b -> a = b;
  localeCompare_total a b : localeCompare a b <= 0 \/ localeCompare b a <= 0;
  localeCompare_trans a b c :
    localeCompare a b <= 0 -> localeCompare b c <= 0 -> localeCompare a c <= 0;
}.

(** [x == null]. *)
Definition is_nullish (v : jsval) : bool :=
  match v with JUndef | JNull => true | _ => false end.

(** [obj[key]]: reading a field of [undefined] or [null] throws. *)
Definition prop (obj : jsval) (key : string) : outcome jsval :=
  match obj with
  | JUndef | JNull => Exn "TypeError"
  | JObj fields => Val (default JUndef (Map_get fields key))
  | _ => Val JUndef
  end.

Definition stringArraysEquals (a b : list string) : bool :=
  if negb (length a =? length b)%nat then false
  else forallb (fun p => bool_decide (p.1 = p.2)) (combine a b).

(** [extractFieldValue(doc, path, aliases)]. *)
Fixpoint extractFieldValue (doc : jsval) (path : list string)
    (aliases : option (list (string * string))) : outcome jsval :=
  match path with
  | [] => Val doc
  | p :: path' =>
      let aliased := from_option (fun m => Map_get m p) None aliases in
      (* aliases?.get(p) || p *)
      let field := match aliased with Some "" | None => p | Some a => a end in
      doc' ← prop doc field;
      extractFieldValue doc' path' aliases
  end.

(** The operand of [<] as a number, where the operator compares numbers. *)
Definition to_numeric (v : jsval) : option Z :=
  match v with
  | JNum z | JBig z => Some z
  | JBool b => Some (if b then 1 else 0)
  | JNull => Some 0
  | _ => None
  end.

(** [a < b] on numbers, bigints, booleans, null, undefined and strings;
    operands that would be coerced to strings are not compared here. *)
Definition js_lt (a b : jsval) : bool :=
  match a, b with
  | JStr s, JStr t => String.ltb s t
  | _, _ =>
      match to_numeric a, to_numeric b with
      | Some x, Some y => x <? y
      | _, _ => false
      end
  end.

Definition sortCompare `{JsEnv} (av bv : jsval) : Z :=
  match av, bv with
  | JStr s, JStr t => localeCompare s t
  | _, _ => if js_lt av bv then -1 else if js_lt bv av then 1 else 0
  end.

(** Induction over values that reaches into arrays and objects. *)
Section JsvalInd.
Context (P : jsval -> Prop).
Context (HU : P JUndef) (HN : P JNull) (HB : forall b, P (JBool b)).
Context (HNum : forall z, P (JNum z)) (HBig : forall z, P (JBig z)).
Context (HS : forall s, P (JStr s)) (HBy : forall b, P (JBytes b)).
Context (HA : forall l, Forall P l -> P (JArr l)).
Context (HO : forall fs, Forall (fun e => P e.2) fs -> P (JObj fs)).

Fixpoint jsval_ind' (v : jsval) : P v :=
  match v with
  | JUndef => HU | JNull => HN | JBool b => HB b | JNum z => HNum z | JBig z => HBig z
  | JStr s => HS s | JBytes b => HBy b
  | JArr l => HA l ((fix go l := match l return Forall P l with
                     | [] => Forall_nil_2 _
                     | x :: l' => Forall_cons_2 _ _ _ (jsval_ind' x) (go l')
                     end) l)
  | JObj fs => HO fs ((fix go fs := match fs return Forall (fun e => P e.2) fs with
                       | [] => Forall_nil_2 _
                       | e :: fs' => Forall_cons_2 _ _ _ (jsval_ind' e.2) (go fs')
                       end) fs)
  end.
End JsvalInd.

Lemma stringArraysEquals_spec a b : stringArraysEquals a b = true <-> a = b.
Proof.
  unfold stringArraysEquals. destruct (Nat.eqb_spec (length a) (length b)) as [Hl|Hl]; simpl.
  - revert b Hl. induction a as [|x a IH]; intros [|y b] Hl; simpl in *; try done.
    rewrite andb_true_iff, bool_decide_eq_true, IH by lia. naive_solver.
  - split; [done|]. intros ->. done.
Qed.

(** Numbers and bigints compare by value, whatever mix of the two. *)
Definition is_integer (v : jsval) : option Z :=
  match v with JNum z | JBig z => Some z | _ => None end.

Lemma sortCompare_integer `{JsEnv} a b x y :
  is_integer a = Some x -> is_integer b = Some y ->
  sortCompare a b = if x <? y then -1 else if y <? x then 1 else 0.
Proof. destruct a, b; naive_solver. Qed.
