(* ===== verification/Query.v ===== *)
(** * Ids and queries of the indexer interface
    (packages/utils/indexer/interface/src/id.ts and query.ts)

    The integer values a query may carry and their range checks, the index
    keys, the query classes with what their constructors reject, and the
    coercions from the short forms a caller may write. *)

From Stdlib Require Import ZArith Lia.
From stdpp Require Import base list strings pretty.
From S2P Require Import Prelude JsMap JsVal.

Local Open Scope Z_scope.

(** ** Integer values and keys (id.ts) *)

Inductive IntegerValue :=
| UnsignedIntegerValue (number : Z)
| BigUnsignedIntegerValue (number : Z).

Definition new_UnsignedIntegerValue (number : Z) : outcome IntegerValue :=
  _ ← throw_if ((4294967295 <? number) || (number <? 0)) "Number is not u32";
  Val (UnsignedIntegerValue number).

Definition new_BigUnsignedIntegerValue (number : Z) : outcome IntegerValue :=
  _ ← throw_if ((18446744073709551615 <? number) || (number <? 0)) "Number is not u64";
  Val (BigUnsignedIntegerValue number).

(** The getter [value]. *)
Definition integer_value (v : IntegerValue) : Z :=
  match v with UnsignedIntegerValue z | BigUnsignedIntegerValue z => z end.

Inductive IdKey :=
| StringKey (key : string)
| Uint8ArrayKey (key : list Z)
| IntegerKey (key : Z)
| LargeIntegerKey (key : Z).

(** What a JavaScript [Map] distinguishes: a number is never a bigint. *)
Inductive IdPrimitive := PStr (s : string) | PNum (z : Z) | PBig (z : Z).

#[export] Instance IdKey_eq_dec : EqDecision IdKey.
Proof. solve_decision. Defined.
#[export] Instance IdPrimitive_eq_dec : EqDecision IdPrimitive.
Proof. solve_decision. Defined.

Definition primitive `{JsEnv} (k : IdKey) : IdPrimitive :=
  match k with
  | StringKey s => PStr s
  | Uint8ArrayKey b => PStr (toBase64 b)
  | IntegerKey z => PNum z
  | LargeIntegerKey z => PBig z
  end.

Definition toId (obj : jsval) : outcome IdKey :=
  match obj with
  | JStr s => Val (StringKey s)
  | JNum z => Val (IntegerKey z)
  | JBig z =>
      if (z <=? 18446744073709551615) && (0 <=? z) then Val (LargeIntegerKey z)
      else Exn "BigInt is not less than 2^64 - 1"
  | JBytes b => Val (Uint8ArrayKey b)
  | _ => Exn "Unexpected index key"
  end.

(** [toIdeable] on an [IdKey]; any other argument is returned as it is. *)
Definition toIdeable (key : IdKey) : jsval :=
  match key with
  | StringKey s => JStr s
  | Uint8ArrayKey b => JBytes b
  | IntegerKey z => JNum z
  | LargeIntegerKey z => JBig z
  end.

(** Numbers are integral in this model, so the integrality check passes. *)
Definition checkId (obj : jsval) : outcome unit :=
  match obj with
  | JUndef | JNull => Exn "The provided key value is null or undefined"
  | JStr _ | JNum _ | JBig _ | JBytes _ => Val tt
  | JBool _ | JArr _ | JObj _ => Exn "Key is not string,number,bigint"
  end.

(** ** Queries (query.ts) *)

Inductive Compare := Equal | Greater | GreaterOrEqual | Less | LessOrEqual.

Definition compare (test : Z) (cmp : Compare) (value : Z) : bool :=
  match cmp with
  | Equal => test =? value
  | Greater => value <? test
  | GreaterOrEqual => value <=? test
  | Less => test <? value
  | LessOrEqual => test <=? value
  end.

Inductive SortDirection := ASC | DESC.

Record Sort := MkSort { sort_key : list string; sort_direction : SortDirection }.

(** A key is written as one name or as a path. *)
Inductive KeyArg := KName (s : string) | KPath (p : list string).
Coercion KName : string >-> KeyArg.
Coercion KPath : list >-> KeyArg.

Definition key_path (k : KeyArg) : list string :=
  match k with KName s => [s] | KPath p => p end.

(** The [direction] argument: the enum, one of two strings, or nothing. *)
Inductive DirectionArg := DirEnum (d : SortDirection) | DirString (s : string).

Definition new_Sort (key : KeyArg) (direction : option DirectionArg) : Sort :=
  {| sort_key := key_path key;
     sort_direction :=
       match direction with
       | Some (DirString s) => if bool_decide (s = "desc") then DESC else ASC
       | Some (DirEnum d) => d
       | None => ASC
       end |}.

Inductive SortLike :=
| SLName (s : string)
| SLObj (key : KeyArg) (direction : option DirectionArg).

Inductive SortArg := SANone | SAOne (s : SortLike) | SAMany (l : list SortLike).

Definition toSort1 (x : SortLike) : Sort :=
  match x with
  | SLName s => new_Sort s None
  | SLObj key direction => new_Sort key direction
  end.

Definition toSort (sort : SortArg) : list Sort :=
  match sort with
  | SANone => []
  | SAOne x => [toSort1 x]
  | SAMany l => map toSort1 l
  end.

Inductive StringMatchMethod := exact_match | prefix_match | contains_match.

Inductive Query :=
| And (and : list Query)
| Or (or : list Query)
| Not (not : Query)
| ByteMatchQuery (key : list string) (value : list Z)
| StringMatch (key : list string) (value : string) (method : StringMatchMethod)
    (caseInsensitive : bool)
| IntegerCompare (key : list string) (cmp : Compare) (value : IntegerValue)
| IsNull (key : list string)
| BoolQuery (key : list string) (value : bool)
| Nested (id : string) (path : list string) (query : list Query).

(** The constructors of the query classes. *)
Definition new_And (and : list Query) : outcome Query :=
  _ ← throw_if (length and =? 0)%nat "And query must have at least one query"; Val (And and).

Definition new_Or (or : list Query) : outcome Query :=
  _ ← throw_if (length or =? 0)%nat "Or query must have at least one query"; Val (Or or).

Definition new_Not (q : Query) : Query := Not q.

Definition new_ByteMatchQuery (key : KeyArg) (value : list Z) : Query :=
  ByteMatchQuery (key_path key) value.

Definition new_StringMatch (key : KeyArg) (value : string)
    (method : option StringMatchMethod) (caseInsensitive : option bool) : Query :=
  StringMatch (key_path key) value (default exact_match method) (default false caseInsensitive).

(** The [value] argument of [IntegerCompare]: bigint, number or [IntegerValue]. *)
Inductive IntegerArg := IBig (z : Z) | INum (z : Z) | IValue (v : IntegerValue).
Inductive CompareArg := CmpEnum (c : Compare) | CmpString (s : string).

Definition new_IntegerCompare (key : KeyArg) (cmp : CompareArg) (value : IntegerArg) : outcome Query :=
  v ← match value with
      | IValue v => Val v
      | IBig z => new_BigUnsignedIntegerValue z
      | INum z => new_UnsignedIntegerValue z
      end;
  c ← match cmp with
      | CmpEnum c => Val c
      | CmpString s =>
          if bool_decide (s = "eq") then Val Equal
          else if bool_decide (s = "gt") then Val Greater
          else if bool_decide (s = "gte") then Val GreaterOrEqual
          else if bool_decide (s = "lt") then Val Less
          else if bool_decide (s = "lte") then Val LessOrEqual
          else Exn "Invalid compare string"
      end;
  Val (IntegerCompare (key_path key) c v).

Definition new_IsNull (key : KeyArg) : Query := IsNull (key_path key).

Definition new_BoolQuery (key : KeyArg) (value : bool) : Query := BoolQuery (key_path key) value.

(** [getMatcher]. *)
Definition getMatcher (key : list string) (value : jsval) : outcome Query :=
  match value with
  | JStr s => Val (new_StringMatch key s None None)
  | JBig z => new_IntegerCompare key (CmpEnum Equal) (IBig z)
  | JNum z => new_IntegerCompare key (CmpEnum Equal) (INum z)
  | JBool b => Val (new_BoolQuery key b)
  | JUndef | JNull => Val (new_IsNull key)
  | JBytes b => Val (new_ByteMatchQuery key b)
  | JArr _ | JObj _ => Exn "Invalid query value"
  end.

(** [Object.entries] of a value of type "object". *)
Definition Object_entries (v : jsval) : outcome (list (string * jsval)) :=
  match v with
  | JUndef | JNull => Exn "TypeError"
  | JObj fields => Val fields
  | JArr l => Val (imap (fun i x => (pretty i, x)) l)
  | _ => Val []
  end.

(** [typeof v === "object" && v instanceof Uint8Array === false]: true of null. *)
Definition is_plain_object (v : jsval) : bool :=
  match v with JObj _ | JArr _ | JNull => true | _ => false end.

(** [convertQueryRecordToObject(obj, queries, path)]; [fuel] bounds the depth of
    the record. *)
Fixpoint convertQueryRecordToObject (fuel : nat) (obj : jsval) (queries : list Query)
    (path : list string) : outcome (list Query) :=
  match fuel with
  | O => NoFuel
  | S fuel' =>
      entries ← Object_entries obj;
      foldM (fun acc e =>
        let mergedKey := path ++ [e.1] in
        if is_plain_object e.2 then convertQueryRecordToObject fuel' e.2 acc mergedKey
        else q ← getMatcher mergedKey e.2; Val (acc ++ [q])) queries entries
  end.

(** Depth of nesting of a value. *)
Fixpoint js_depth (v : jsval) : nat :=
  match v with
  | JArr l => S (foldr (fun x acc => Nat.max (js_depth x) acc) 0%nat l)
  | JObj fs => S (foldr (fun e acc => Nat.max (js_depth e.2) acc) 0%nat fs)
  | _ => 1%nat
  end.

Inductive QueryLike :=
| QLNone
| QLMany (l : list Query)
| QLOne (q : Query)
| QLRecord (obj : jsval).

Definition toQuery (query : QueryLike) : outcome (list Query) :=
  match query with
  | QLNone => Val []
  | QLMany l => Val l
  | QLOne q => Val [q]
  | QLRecord obj => convertQueryRecordToObject (S (js_depth obj)) obj [] []
  end.

(** ** Facts *)

Lemma new_IntegerCompare_u32 key c z :
  0 <= z <= 4294967295 ->
  new_IntegerCompare key (CmpEnum c) (INum z) =
    Val (IntegerCompare (key_path key) c (UnsignedIntegerValue z)).
Proof.
  intros Hz. unfold new_IntegerCompare, new_UnsignedIntegerValue, throw_if.
  replace ((4294967295 <? z) || (z <? 0)) with false by lia. done.
Qed.

Lemma new_IntegerCompare_u64 key c z :
  0 <= z <= 18446744073709551615 ->
  new_IntegerCompare key (CmpEnum c) (IBig z) =
    Val (IntegerCompare (key_path key) c (BigUnsignedIntegerValue z)).
Proof.
  intros Hz. unfold new_IntegerCompare, new_BigUnsignedIntegerValue, throw_if.
  replace ((18446744073709551615 <? z) || (z <? 0)) with false by lia. done.
Qed.

Definition query_field_key (q : Query) : option (list string) :=
  match q with
  | ByteMatchQuery k _ | StringMatch k _ _ _ | IntegerCompare k _ _ | IsNull k | BoolQuery k _ => Some k
  | _ => None
  end.

(** Induction over queries that reaches into the lists of subqueries. *)
Section QueryInd.
Context (P : Query -> Prop).
Context (HAnd : forall l, Forall P l -> P (And l)) (HOr : forall l, Forall P l -> P (Or l)).
Context (HNot : forall q, P q -> P (Not q)).
Context (HBy : forall k v, P (ByteMatchQuery k v)).
Context (HS : forall k v m c, P (StringMatch k v m c)).
Context (HI : forall k c v, P (IntegerCompare k c v)).
Context (HN : forall k, P (IsNull k)) (HB : forall k v, P (BoolQuery k v)).
Context (HNe : forall i p l, Forall P l -> P (Nested i p l)).

Fixpoint Query_ind' (q : Query) : P q :=
  let go := fix go l := match l return Forall P l with
                        | [] => Forall_nil_2 _
                        | x :: l' => Forall_cons_2 _ _ _ (Query_ind' x) (go l')
                        end in
  match q with
  | And l => HAnd l (go l)
  | Or l => HOr l (go l)
  | Not q => HNot q (Query_ind' q)
  | ByteMatchQuery k v => HBy k v
  | StringMatch k v m c => HS k v m c
  | IntegerCompare k c v => HI k c v
  | IsNull k => HN k
  | BoolQuery k v => HB k v
  | Nested i p l => HNe i p l (go l)
  end.
End QueryInd.

(** ** Records as queries *)

Lemma js_depth_field (v : jsval) (k : string) (fs : list (string * jsval)) :
  (k, v) ∈ fs -> (js_depth v <= foldr (fun e acc => Nat.max (js_depth e.2) acc) 0 fs)%nat.
Proof.
  induction fs as [|e fs IH]; [by intros ?%not_elem_of_nil|].
  intros [<-|Hin]%elem_of_cons; simpl; [lia|]. specialize (IH Hin). lia.
Qed.

Lemma js_depth_elem v l :
  v ∈ l -> (js_depth v <= foldr (fun x acc => Nat.max (js_depth x) acc) 0 l)%nat.
Proof.
  induction l as [|e l IH]; [by intros ?%not_elem_of_nil|].
  intros [<-|Hin]%elem_of_cons; simpl; [lia|]. specialize (IH Hin). lia.
Qed.

Lemma Object_entries_depth (v : jsval) (entries : list (string * jsval)) (e : string * jsval) :
  Object_entries v = Val entries -> e ∈ entries -> (js_depth e.2 < js_depth v)%nat.
Proof.
  destruct v as [| |b|z|z|s|b|l|fs]; simpl; intros H; simplify_eq;
    try (by intros ?%not_elem_of_nil).
  - intros Hin. apply list_elem_of_lookup in Hin as [i Hi].
    rewrite list_lookup_imap in Hi. destruct (l !! i) as [x|] eqn:E; simplify_eq/=.
    apply list_elem_of_lookup_2, js_depth_elem in E. lia.
  - intros Hin. destruct e as [k v]. apply js_depth_field in Hin. simpl. lia.
Qed.

Lemma foldM_no_fuel {A S} (f : S -> A -> outcome S) l s :
  (forall s x, x ∈ l -> f s x <> NoFuel) -> foldM f s l <> NoFuel.
Proof.
  revert s. induction l as [|x l IH]; intros s Hf; simpl; [done|].
  pose proof (Hf s x (list_elem_of_here x l)) as Hx.
  destruct (f s x); simpl; [|done|done]. apply IH. intros s' y Hy. apply Hf. by right.
Qed.

Lemma convert_enough_fuel fuel obj queries path :
  (js_depth obj < fuel)%nat -> convertQueryRecordToObject fuel obj queries path <> NoFuel.
Proof.
  revert obj queries path. induction fuel as [|fuel IH]; intros obj queries path Hf; [lia|]. simpl.
  destruct (Object_entries obj) as [entries|?|] eqn:E; simpl; [|done|by destruct obj].
  apply foldM_no_fuel. intros s e He.
  pose proof (Object_entries_depth _ _ _ E He) as Hd.
  destruct (is_plain_object e.2); [apply IH; lia|].
  destruct e as [k [| |b|z|z|str|b|l|fs]]; simpl; try done.
  all: unfold new_IntegerCompare, new_UnsignedIntegerValue, new_BigUnsignedIntegerValue, throw_if;
    by case_if_in_goal.
Qed.

(** [toQuery] always ends: the recursion into a record's nested objects is
    cut off for no record, whatever its shape; and a record whose first field is
    [null], which the type of [QueryLike] allows and [getMatcher] would turn
    into an [IsNull] query, throws instead (finding). *)
Theorem toQuery_terminates (obj : jsval) (k : string) (rest : list (string * jsval)) :
  toQuery (QLRecord obj) <> NoFuel /\
  toQuery (QLRecord (JObj ((k, JNull) :: rest))) = Exn "TypeError" /\
  getMatcher [k] JNull = Val (IsNull [k]).
Proof. split; [apply convert_enough_fuel; lia|]. by split. Qed.
