(* ===== verification/IndexInterface.v ===== *)
(** * The index interface (packages/utils/indexer/interface/src)

    What an index promises its clients: [Index] is the interface of
    index-engine.ts as a class, [IndexLaws] its contract on documents with
    scalar fields, stated through a reference evaluation of queries ([sat]) and
    a reference result list ([reference_results]).  [IteratorOps] are the
    closures of an [IndexIterator] over an explicit state; [iteratorInSeries]
    chains two of them. *)

From Stdlib Require Import ZArith Lia.
From stdpp Require Import base list strings sorting.
From S2P Require Import Prelude JsMap JsVal Query.

Local Open Scope Z_scope.

(** ** Documents

    [to_js] is the document as the index sees it; [schema_clone] is
    [deserialize(serialize(x), schema)] of the package borsh. *)

Class Document (T : Type) := {
  to_js : T -> jsval;
  schema_clone : T -> T;
}.

Class DocumentLaws (T : Type) `{Document T} : Prop := {
  schema_clone_id (x : T) : schema_clone x = x;
}.

Record IndexedResult (T : Type) := MkIndexedResult { ir_id : IdKey; ir_value : T }.
Arguments MkIndexedResult {T} ir_id ir_value.
Arguments ir_id {T} _.
Arguments ir_value {T} _.

Record IterateOptions := MkIterateOptions {
  opt_query : QueryLike;
  opt_sort : option (list Sort);
}.

(** ** Ordering results (utils.ts) *)

Fixpoint extractSortCompare `{JsEnv} (a b : jsval) (sorts : list Sort)
    (aliases : option (list (string * string))) : outcome Z :=
  match sorts with
  | [] => Val 0
  | sort :: sorts' =>
      av ← extractFieldValue a (sort_key sort) aliases;
      bv ← extractFieldValue b (sort_key sort) aliases;
      let cmp := sortCompare av bv in
      if negb (cmp =? 0) then
        Val (match sort_direction sort with ASC => cmp | DESC => - cmp end)
      else extractSortCompare a b sorts' aliases
  end.

(** Stable sort with a comparator that may throw. *)
Fixpoint insertM {A} (cmp : A -> A -> outcome Z) (x : A) (l : list A) : outcome (list A) :=
  match l with
  | [] => Val [x]
  | y :: l' =>
      c ← cmp x y;
      if c <=? 0 then Val (x :: y :: l') else r ← insertM cmp x l'; Val (y :: r)
  end.

Fixpoint sortM {A} (cmp : A -> A -> outcome Z) (l : list A) : outcome (list A) :=
  match l with
  | [] => Val []
  | x :: l' => r ← sortM cmp l'; insertM cmp x r
  end.

Lemma insertM_val {A} (cmp : A -> A -> outcome Z) (c : A -> A -> Z) x l :
  (forall y, y ∈ l -> cmp x y = Val (c x y)) -> insertM cmp x l = Val (js_insert c x l).
Proof.
  induction l as [|y l IH]; intros H; [done|]. simpl. rewrite H by left. simpl.
  destruct (c x y <=? 0); [done|]. rewrite IH; [done|]. intros z Hz. apply H. by right.
Qed.

Lemma sortM_val {A} (cmp : A -> A -> outcome Z) (c : A -> A -> Z) l :
  (forall x y, x ∈ l -> y ∈ l -> cmp x y = Val (c x y)) -> sortM cmp l = Val (js_sort c l).
Proof.
  induction l as [|x l IH]; intros H; [done|]. simpl. rewrite IH.
  - simpl. apply insertM_val. intros y Hy%js_sort_elem. apply H; [by left|by right].
  - intros y z Hy Hz. apply H; by right.
Qed.

(** ** Iterators *)

Record IteratorOps (R S : Type) := MkIteratorOps {
  it_next : nat -> S -> outcome (list R * S);
  it_all : S -> outcome (list R * S);
  it_done : S -> option bool;
  it_pending : S -> outcome (nat * S);
  it_close : S -> S;
}.
Arguments MkIteratorOps {R S}.
Arguments it_next {R S}.
Arguments it_all {R S}.
Arguments it_done {R S}.
Arguments it_pending {R S}.
Arguments it_close {R S}.

(** [iterator.done() !== true] and [!iterator.done()]. *)
Definition not_done (d : option bool) : bool :=
  match d with Some true => false | _ => true end.

(** [iteratorInSeries(first, second)]: the position [i] and the two states. *)
Section InSeries.
Context {R S1 S2 : Type} (ops1 : IteratorOps R S1) (ops2 : IteratorOps R S2).

Record SeriesState := MkSeries { series_i : nat; series_first : S1; series_second : S2 }.

Definition series_start (s1 : S1) (s2 : S2) : SeriesState := MkSeries 0 s1 s2.

(** [const done = () => i >= iterators.length]. *)
Definition series_done (s : SeriesState) : bool := (2 <=? series_i s)%nat.

(** [current] is [iterators[i]], and stays the last one once [i] is past it. *)
Definition current_done (s : SeriesState) : option bool :=
  match series_i s with
  | O => it_done ops1 (series_first s)
  | _ => it_done ops2 (series_second s)
  end.

Definition current_next (count : nat) (s : SeriesState) : outcome (list R * SeriesState) :=
  match series_i s with
  | O => '(r, s1) ← it_next ops1 count (series_first s);
         Val (r, MkSeries (series_i s) s1 (series_second s))
  | _ => '(r, s2) ← it_next ops2 count (series_second s);
         Val (r, MkSeries (series_i s) (series_first s) s2)
  end.

Fixpoint series_loop (fuel : nat) (count : nat) (acc : list R) (s : SeriesState)
    : outcome (list R * SeriesState) :=
  match fuel with
  | O => NoFuel
  | S fuel' =>
      if not_done (current_done s) && (series_i s <? 2)%nat then
        '(r, s1) ← current_next count s;
        let acc1 := acc ++ r in
        if negb (not_done (current_done s1)) then
          let s2 := MkSeries (S (series_i s1)) (series_first s1) (series_second s1) in
          if (2 <=? series_i s2)%nat then Val (acc1, s2)
          else if (count <=? length acc1)%nat then Val (acc1, s2)
          else series_loop fuel' count acc1 s2
        else if (count <=? length acc1)%nat then Val (acc1, s1)
        else series_loop fuel' count acc1 s1
      else Val (acc, s)
  end.

(** Three rounds are enough when every round of an iterator that is not done
    returns [count] results ([series_next_spec]). *)
Definition series_next (count : nat) (s : SeriesState) : outcome (list R * SeriesState) :=
  series_loop 3 count [] s.

Fixpoint series_all_loop (fuel : nat) (acc : list R) (s : SeriesState)
    : outcome (list R * SeriesState) :=
  match fuel with
  | O => NoFuel
  | S fuel' =>
      if series_done s then Val (acc, s)
      else '(r, s1) ← series_next 100 s; series_all_loop fuel' (acc ++ r) s1
  end.

Definition series_close (s : SeriesState) : SeriesState :=
  MkSeries (series_i s) (it_close ops1 (series_first s)) (it_close ops2 (series_second s)).

Definition series_pending (s : SeriesState) : outcome (nat * SeriesState) :=
  '(p1, s1) ← it_pending ops1 (series_first s);
  '(p2, s2) ← it_pending ops2 (series_second s);
  Val ((0 + p1 + p2)%nat, MkSeries (series_i s) s1 s2).

Definition iteratorInSeries (fuel : nat) : IteratorOps R SeriesState := {|
  it_next := series_next;
  it_all := series_all_loop fuel [];
  it_done := fun s => Some (series_done s);
  it_pending := series_pending;
  it_close := series_close;
|}.

End InSeries.

(** ** The interface *)

Class Index (I St T : Type) := {
  idx_contents : I -> list (IndexedResult T);
  idx_count : I -> QueryLike -> outcome nat;
  idx_iterate : I -> IterateOptions -> St;
  idx_ops : I -> IteratorOps (IndexedResult T) St;
}.

(** ** Reference semantics of queries on documents with scalar fields *)

Definition read_field (doc : jsval) (key : list string) : option jsval :=
  match extractFieldValue doc key None with Val v => Some v | _ => None end.

Fixpoint sat (q : Query) (doc : jsval) : bool :=
  match q with
  | And l => forallb (fun q => sat q doc) l
  | Or l => existsb (fun q => sat q doc) l
  | Not q => negb (sat q doc)
  | IntegerCompare key cmp value =>
      match read_field doc key with
      | Some (JNum z) | Some (JBig z) => compare z cmp (integer_value value)
      | _ => false
      end
  | StringMatch key value exact_match false =>
      match read_field doc key with
      | Some (JStr s) => bool_decide (s = value)
      | _ => false
      end
  | ByteMatchQuery key value =>
      match read_field doc key with
      | Some (JBytes b) => bool_decide (b = value)
      | _ => false
      end
  | BoolQuery key value =>
      match read_field doc key with
      | Some (JBool b) => eqb b value
      | _ => false
      end
  | _ => false
  end.

(** The queries the reference covers: exact, on one field of the document that
    holds a value of the type the query compares. *)
Fixpoint covered (q : Query) (doc : jsval) : bool :=
  match q with
  | And l | Or l => forallb (fun q => covered q doc) l
  | Not q => covered q doc
  | IntegerCompare [f] _ _ =>
      match read_field doc [f] with Some (JNum _) | Some (JBig _) => true | _ => false end
  | StringMatch [f] _ exact_match false =>
      match read_field doc [f] with Some (JStr _) => true | _ => false end
  | ByteMatchQuery [f] _ =>
      match read_field doc [f] with Some (JBytes _) => true | _ => false end
  | BoolQuery [f] _ =>
      match read_field doc [f] with Some (JBool _) => true | _ => false end
  | _ => false
  end.

Definition sat_all (qs : list Query) (doc : jsval) : bool := forallb (fun q => sat q doc) qs.
Definition covered_all (qs : list Query) (doc : jsval) : bool := forallb (fun q => covered q doc) qs.

(** The sort keys name one present field each. *)
Definition sortable (sorts : list Sort) (doc : jsval) : bool :=
  forallb (fun s => match sort_key s with
                    | [f] => match read_field doc [f] with Some _ => true | None => false end
                    | _ => false
                    end) sorts.

Fixpoint sort_order `{JsEnv} (sorts : list Sort) (a b : jsval) : Z :=
  match sorts with
  | [] => 0
  | s :: sorts' =>
      let c := sortCompare (default JUndef (read_field a (sort_key s)))
                           (default JUndef (read_field b (sort_key s))) in
      if c =? 0 then sort_order sorts' a b
      else match sort_direction s with ASC => c | DESC => - c end
  end.

Lemma extractSortCompare_sortable `{JsEnv} sorts a b :
  sortable sorts a = true -> sortable sorts b = true ->
  extractSortCompare a b sorts None = Val (sort_order sorts a b).
Proof.
  unfold sortable. induction sorts as [|[key dir] sorts IH]; [done|]. cbn [forallb sort_key].
  rewrite !andb_true_iff. intros [Ha Hsa] [Hb Hsb]. cbn [extractSortCompare sort_order sort_key].
  destruct key as [|f [|? ?]]; [done| |done].
  unfold read_field in *.
  destruct (extractFieldValue a [f] None) as [av|?|]; [|done|done].
  destruct (extractFieldValue b [f] None) as [bv|?|]; [|done|done]. simpl.
  destruct (sortCompare av bv =? 0); simpl; [by apply IH|done].
Qed.

Section Laws.
Context `{JsEnv} {T : Type} `{Document T}.

Definition doc_of (r : IndexedResult T) : jsval := to_js (ir_value r).

Definition order_results (sorts : option (list Sort)) (l : list (IndexedResult T)) :=
  match sorts with
  | Some s => js_sort (fun a b => sort_order s (doc_of a) (doc_of b)) l
  | None => l
  end.

Definition reference_results (contents : list (IndexedResult T)) (qs : list Query)
    (sorts : option (list Sort)) : list (IndexedResult T) :=
  order_results sorts (List.filter (fun r => sat_all qs (doc_of r)) contents).

(** A request the contract speaks about. *)
Definition supported (contents : list (IndexedResult T)) (qs : list Query)
    (sorts : option (list Sort)) : Prop :=
  forall r, r ∈ contents ->
    covered_all qs (doc_of r) = true /\ sortable (default [] sorts) (doc_of r) = true.

End Laws.

(** The contract: on an index in a good state ([idx_ok]), counting and iterating
    follow the reference.  [remaining] is
    what a [started] iterator has still to return; it is fixed by the first
    fetch, and a request of [n > 0] results takes a prefix of it. *)
Class IndexLaws (I St T : Type) `{JsEnv, Document T, Index I St T} := {
  idx_ok : I -> Prop;
  remaining : I -> St -> list (IndexedResult T);
  started : St -> Prop;
  law_count idx ql qs :
    toQuery ql = Val qs -> idx_ok idx -> supported (idx_contents idx) qs None ->
    idx_count idx ql =
      Val (length (reference_results (idx_contents idx) qs None));
  law_iterate idx ql qs sorts :
    toQuery ql = Val qs -> idx_ok idx -> supported (idx_contents idx) qs sorts ->
    let st := idx_iterate idx (MkIterateOptions ql sorts) in
    it_done (idx_ops idx) st = None /\
    (forall n, exists st',
       it_next (idx_ops idx) (S n) st =
         Val (take (S n) (reference_results (idx_contents idx) qs sorts), st') /\
       started st' /\
       remaining idx st' = drop (S n) (reference_results (idx_contents idx) qs sorts) /\
       it_done (idx_ops idx) st' =
         Some (length (reference_results (idx_contents idx) qs sorts) <=? S n)%nat) /\
    (exists st', it_all (idx_ops idx) st =
       Val (reference_results (idx_contents idx) qs sorts, st') /\ it_done (idx_ops idx) st' = Some true);
  law_next idx st n :
    started st -> it_done (idx_ops idx) st = Some false ->
    exists st', it_next (idx_ops idx) (S n) st = Val (take (S n) (remaining idx st), st') /\
      started st' /\ remaining idx st' = drop (S n) (remaining idx st) /\
      it_done (idx_ops idx) st' = Some (length (remaining idx st) <=? S n)%nat;
}.

(** ** Chained iterators *)

(** An iterator that hands out [l], [count] at a time, and is done exactly when
    the last result has been returned. *)
Definition hands_out {R St} (ops : IteratorOps R St) (s : St) (l : list R) : Prop :=
  forall n, exists s', it_next ops (S n) s = Val (take (S n) l, s') /\
    not_done (it_done ops s') = negb (length l <=? S n)%nat.

Section InSeriesFacts.
Context {R S1 S2 : Type} (ops1 : IteratorOps R S1) (ops2 : IteratorOps R S2).

(** One round of the loop on the first, and on the second iterator. *)
Lemma series_round_first f n acc s1 s2 r s1' :
  not_done (it_done ops1 s1) = true -> it_next ops1 n s1 = Val (r, s1') ->
  series_loop ops1 ops2 (S f) n acc (MkSeries 0 s1 s2) =
    let i := if not_done (it_done ops1 s1') then 0%nat else 1%nat in
    if (n <=? length (acc ++ r))%nat then Val (acc ++ r, MkSeries i s1' s2)
    else series_loop ops1 ops2 f n (acc ++ r) (MkSeries i s1' s2).
Proof.
  intros Hd E. cbn [series_loop]. unfold current_done, current_next. cbn [series_i series_first].
  rewrite Hd, E. simpl. by destruct (not_done (it_done ops1 s1')).
Qed.

Lemma series_round_second f n acc s1 s2 r s2' :
  not_done (it_done ops2 s2) = true -> it_next ops2 n s2 = Val (r, s2') ->
  series_loop ops1 ops2 (S f) n acc (MkSeries 1 s1 s2) =
    if not_done (it_done ops2 s2') then
      if (n <=? length (acc ++ r))%nat then Val (acc ++ r, MkSeries 1 s1 s2')
      else series_loop ops1 ops2 f n (acc ++ r) (MkSeries 1 s1 s2')
    else Val (acc ++ r, MkSeries 2 s1 s2').
Proof.
  intros Hd E. cbn [series_loop]. unfold current_done, current_next. cbn [series_i series_second].
  rewrite Hd, E. simpl. by destruct (not_done (it_done ops2 s2')).
Qed.

End InSeriesFacts.

(** One request of [iteratorInSeries] for [n + 1] results never asks in
    vain: on two fresh iterators it ends within its rounds, returns the first
    iterator's results alone when there are enough of them, and otherwise all
    of them followed by up to [n + 1] results of the second. *)
Theorem series_next_spec {R S1 S2} (ops1 : IteratorOps R S1) (ops2 : IteratorOps R S2)
    (s1 : S1) (s2 : S2) (l1 l2 : list R) (n : nat) :
  not_done (it_done ops1 s1) = true -> hands_out ops1 s1 l1 ->
  not_done (it_done ops2 s2) = true -> hands_out ops2 s2 l2 ->
  exists s', series_next ops1 ops2 (S n) (series_start s1 s2) =
    Val (if (S n <=? length l1)%nat then take (S n) l1 else l1 ++ take (S n) l2, s').
Proof.
  intros Hd1 H1 Hd2 H2. destruct (H1 n) as (s1' & E1 & Hd1'). destruct (H2 n) as (s2' & E2 & Hd2').
  unfold series_next, series_start. rewrite (series_round_first _ _ _ _ _ _ _ _ _ Hd1 E1).
  rewrite app_nil_l, length_take. cbv zeta. rewrite Hd1'.
  destruct (Nat.leb_spec (S n) (length l1)) as [Hl|Hl].
  - rewrite Nat.min_l by lia. rewrite Nat.leb_refl. by eexists.
  - rewrite Nat.min_r by lia. rewrite (proj2 (Nat.leb_gt _ _)) by lia.
    rewrite (proj2 (Nat.leb_le (length l1) (S n))) by lia. simpl negb. cbv iota.
    rewrite (series_round_second _ _ _ _ _ _ _ _ _ Hd2 E2), Hd2'.
    rewrite (take_ge l1) by lia. rewrite length_app, length_take.
    destruct (Nat.leb_spec (length l2) (S n)) as [Hl2|Hl2]; simpl negb; cbv iota; [by eexists|].
    rewrite (proj2 (Nat.leb_le _ _)) by lia. by eexists.
Qed.
