(* ===== verification/SimpleIndex.v ===== *)
(** * The in-memory index (packages/utils/indexer/simple/src/index.ts)

    [HashmapIndex]: a [Map] from primitive ids to documents, a query evaluator
    that descends into arrays and remembers which elements matched ("inner
    hits"), and iterators that evaluate their query on the first fetch.

    The evaluator calls itself on the elements of arrays; since a remembered
    array may be visited instead of the present one, the recursion is on fuel
    ([S (js_depth doc)] for a document).  On documents whose queried fields are
    scalars or arrays of scalars that is enough; [nested_arrays_diverge] shows
    why no fuel is enough in general. *)

From Stdlib Require Import ZArith Lia.
From stdpp Require Import base list strings.
From S2P Require Import Prelude JsMap JsVal Query IndexInterface.

Local Open Scope Z_scope.

(** [Map<string, any[] | false>]; [None] is [false]. *)
Abbreviation InnerHits := (list (string * option (list jsval))).

(** [properties.nested] of the engine. *)
Record NestedProperties := {
  nested_match : jsval -> bool;
  nested_iterate : jsval -> list Query -> outcome (list jsval);
}.

(** [s.toLowerCase()] on ASCII letters. *)
Definition toLowerCase (s : string) : string :=
  String.string_of_list_ascii (map (fun c =>
    let n := Ascii.nat_of_ascii c in
    if ((65 <=? n) && (n <=? 90))%nat then Ascii.ascii_of_nat (n + 32) else c) (String.list_ascii_of_string s)).

Definition handleStringMatch (method : StringMatchMethod) (caseInsensitive : bool)
    (compare : string) (fv : jsval) : bool :=
  match fv with
  | JStr s =>
      let fv := if caseInsensitive then toLowerCase s else s in
      match method with
      | exact_match => bool_decide (fv = compare)
      | prefix_match => String.prefix compare fv
      | contains_match => match String.index 0 compare fv with Some _ => true | None => false end
      end
  | _ => false
  end.

(** A query on one field, with the key it reads. *)
Definition field_key (f : Query) : list string := default [] (query_field_key f).

Definition with_key (f : Query) (key : list string) : Query :=
  match f with
  | ByteMatchQuery _ v => ByteMatchQuery key v
  | StringMatch _ v m c => StringMatch key v m c
  | IntegerCompare _ c v => IntegerCompare key c v
  | IsNull _ => IsNull key
  | BoolQuery _ v => BoolQuery key v
  | q => q
  end.

(** [Array.isArray(obj) || (obj instanceof Uint8Array && !(f instanceof
    ByteMatchQuery))]: the elements to go through. *)
Definition array_elements (f : Query) (obj : jsval) : option (list jsval) :=
  match obj, f with
  | JArr l, _ => Some l
  | JBytes _, ByteMatchQuery _ _ => None
  | JBytes b, _ => Some (map JNum b)
  | _, _ => None
  end.

Section Evaluator.
Context `{JsEnv}.
Context (indexByArr : list string) (nested : option NestedProperties).

(** The comparison at the end of [handleFieldQuery], on the field's value. *)
Definition handleLeaf (f : Query) (obj : jsval) : option bool :=
  match f with
  | IsNull _ => Some (is_nullish obj)
  | _ =>
      if is_nullish obj then None
      else
        match f with
        | StringMatch _ value method ci =>
            Some (handleStringMatch method ci (if ci then toLowerCase value else value) obj)
        | ByteMatchQuery key value =>
            match obj with
            | JBytes b => Some (bool_decide (b = value))
            | _ =>
                if stringArraysEquals key indexByArr
                then Some (match obj with JStr s => bool_decide (toBase64 value = s) | _ => false end)
                else Some false
            end
        | IntegerCompare _ cmp value =>
            match obj with
            | JNum z | JBig z => Some (compare z cmp (integer_value value))
            | _ => Some false
            end
        | BoolQuery _ value =>
            Some (match obj with JBool b => eqb b value | _ => false end)
        | _ => Some false
        end
  end.

Section HandleArrayResults.
Context (rec : jsval -> nat -> InnerHits -> outcome (option bool * InnerHits)).

(** Goes over the elements and collects those that match. *)
Fixpoint collect_hits (elements : list jsval) (skipKeys : nat) (hits : list jsval)
    (innerHits : InnerHits) : outcome (list jsval * InnerHits) :=
  match elements with
  | [] => Val (hits, innerHits)
  | element :: rest =>
      '(r, ih) ← rec element skipKeys innerHits;
      collect_hits rest skipKeys (match r with Some true => hits ++ [element] | _ => hits end) ih
  end.

(** [handleArrayResults(path, obj, skipKeys)] with [buildInnerHits] true, the
    only way it is called.  An empty path joins to the falsy key [""]. *)
Definition handleArrayResults (path : list string) (obj : list jsval) (skipKeys : nat)
    (innerHits : InnerHits) : outcome (option bool * InnerHits) :=
  let pathKey := String.concat "." path in
  if bool_decide (pathKey = "") then
    '(newInnerHits, ih) ← collect_hits obj skipKeys [] innerHits;
    match newInnerHits with
    | [] => Val (Some false, ih)
    | _ => Exn "TypeError"
    end
  else
    match Map_get innerHits pathKey with
    | Some None => Val (Some false, innerHits)
    | previous =>
        let objArr := match previous with Some (Some (h :: hs)) => h :: hs | _ => obj end in
        '(newInnerHits, ih) ← collect_hits objArr skipKeys [] innerHits;
        match newInnerHits with
        | [] => Val (Some false, Map_set ih pathKey None)
        | _ => Val (Some true, Map_set ih pathKey (Some newInnerHits))
        end
    end.

End HandleArrayResults.

Fixpoint handleFieldQuery (fuel : nat) (f : Query) (obj : jsval) (skipKeys : nat)
    (innerHits : InnerHits) : outcome (option bool * InnerHits) :=
  match fuel with
  | O => NoFuel
  | S fuel' =>
      let rec := handleFieldQuery fuel' f in
      match array_elements f obj with
      | Some elements => handleArrayResults rec (field_key f) elements skipKeys innerHits
      | None =>
          (fix walk (path rest : list string) (obj : jsval) :=
             match rest with
             | [] => Val (handleLeaf f obj, innerHits)
             | k :: rest' =>
                 obj' ← prop obj k;
                 match array_elements f obj' with
                 | Some elements =>
                     handleArrayResults rec (path ++ [k]) elements (length (path ++ [k])) innerHits
                 | None =>
                     match nested with
                     | Some np =>
                         if nested_match np obj' then
                           results ← nested_iterate np obj' [with_key f rest'];
                           Val (Some (0 <? length results)%nat, innerHits)
                         else walk (path ++ [k]) rest' obj'
                     | None => walk (path ++ [k]) rest' obj'
                     end
                 end
             end) (take skipKeys (field_key f)) (drop skipKeys (field_key f)) obj
      end
  end.

(** [arr = arr[f.path[i]]] for the keys of a [Nested] query's path. *)
Fixpoint follow (obj : jsval) (path : list string) : outcome jsval :=
  match path with
  | [] => Val obj
  | k :: path' => obj' ← prop obj k; follow obj' path'
  end.

Fixpoint handleQueryObject (fuel : nat) (f : Query) (value : jsval) (innerHits : InnerHits)
    (skipKeys : nat) {struct f} : outcome (option bool * InnerHits) :=
  match f with
  | And l =>
      (fix and_loop (l : list Query) (ih : InnerHits) :=
         match l with
         | [] => Val (Some true, ih)
         | q :: l' =>
             '(ret, ih1) ← handleQueryObject fuel q value ih skipKeys;
             match ret with
             | Some true => and_loop l' ih1
             | _ => Val (ret, ih1)
             end
         end) l innerHits
  | Or l =>
      (* every alternative gets a fresh map of inner hits *)
      (fix or_loop (l : list Query) :=
         match l with
         | [] => Val (Some false, innerHits)
         | q :: l' =>
             '(ret, _) ← handleQueryObject fuel q value [] skipKeys;
             match ret with
             | Some true => Val (Some true, innerHits)
             | None => Val (None, innerHits)
             | Some false => or_loop l'
             end
         end) l
  | Not q =>
      '(ret, ih) ← handleQueryObject fuel q value innerHits skipKeys;
      Val (option_map negb ret, ih)
  | Nested _ path queries =>
      arr ← follow value (drop skipKeys path);
      match arr with
      | JArr elements =>
          (fix elements_loop (elements : list jsval) (ih : InnerHits) :=
             match elements with
             | [] => Val (Some false, ih)
             | element :: rest =>
                 '(ok, ih1) ← (fix queries_loop (qs : list Query) (ih : InnerHits) :=
                    match qs with
                    | [] => Val (true, ih)
                    | q :: qs' =>
                        '(ret, ih1) ← handleQueryObject fuel q element ih (skipKeys + length path);
                        match ret with
                        | Some true => queries_loop qs' ih1
                        | _ => Val (false, ih1)
                        end
                    end) queries ih;
                 if ok : bool then Val (Some true, ih1) else elements_loop rest ih1
             end) elements innerHits
      | _ => Exn "Nested field is not an array"
      end
  | _ => handleFieldQuery fuel f value skipKeys innerHits
  end.

(** The callback of [queryAll]: every query of the list holds. *)
Fixpoint matches_all (fuel : nat) (qs : list Query) (value : jsval) (innerHits : InnerHits)
    : outcome bool :=
  match qs with
  | [] => Val true
  | q :: qs' =>
      '(ret, ih) ← handleQueryObject fuel q value innerHits 0;
      match ret with
      | Some true => matches_all fuel qs' value ih
      | _ => Val false
      end
  end.

End Evaluator.

(** ** The index *)

Section HashmapIndex.
Context `{JsEnv} {T : Type} `{Document T}.

Record HashmapIndex := MkHashmapIndex {
  hm_index : list (IdPrimitive * IndexedResult T);
  hm_indexByArr : list string;
  hm_nested : option NestedProperties;
}.

(** [init] with [indexBy] resolved ([properties.indexBy] or the schema's id). *)
Definition init (indexBy : option (list string)) (nested : option NestedProperties)
    : outcome HashmapIndex :=
  match indexBy with
  | Some path => Val (MkHashmapIndex [] path nested)
  | None => Exn "No indexBy property defined nor schema has a property decorated with id"
  end.

Definition with_index (idx : HashmapIndex) (m : list (IdPrimitive * IndexedResult T)) : HashmapIndex :=
  MkHashmapIndex m (hm_indexByArr idx) (hm_nested idx).

Definition get (idx : HashmapIndex) (id : IdKey) : option (IndexedResult T) :=
  match Map_get (hm_index idx) (primitive id) with
  | Some value => Some (MkIndexedResult id (ir_value value))
  | None => None
  end.

Definition put (idx : HashmapIndex) (value : T) (id : option IdKey) : outcome HashmapIndex :=
  id ← match id with
       | Some id => Val id
       | None => v ← extractFieldValue (to_js value) (hm_indexByArr idx) None; toId v
       end;
  Val (with_index idx (Map_set (hm_index idx) (primitive id) (MkIndexedResult id value))).

Definition _queryDocuments (idx : HashmapIndex) (filter : IndexedResult T -> outcome bool)
    : outcome (list (IndexedResult T)) :=
  filterM_out filter (Map_values (hm_index idx)).

(** The lookup by id that [queryAll] does without a scan. *)
Definition id_lookup (idx : HashmapIndex) (qs : list Query) : option (list (IndexedResult T)) :=
  match qs with
  | [ByteMatchQuery key value] =>
      if stringArraysEquals key (hm_indexByArr idx)
      then Some (option_list (Map_get (hm_index idx) (primitive (Uint8ArrayKey value))))
      else None
  | [StringMatch key value exact_match false] =>
      if stringArraysEquals key (hm_indexByArr idx)
      then Some (option_list (Map_get (hm_index idx) (PStr value)))
      else None
  | _ => None
  end.

Definition queryAll (idx : HashmapIndex) (query : QueryLike) : outcome (list (IndexedResult T)) :=
  queryCoerced ← toQuery query;
  match id_lookup idx queryCoerced with
  | Some docs => Val docs
  | None =>
      _queryDocuments idx (fun doc =>
        matches_all (hm_indexByArr idx) (hm_nested idx) (S (js_depth (to_js (ir_value doc))))
          queryCoerced (to_js (ir_value doc)) [])
  end.

Definition del_step (s : HashmapIndex * list IdKey) (doc : IndexedResult T)
    : HashmapIndex * list IdKey :=
  let '(idx, deleted) := s in
  if Map_has (hm_index idx) (primitive (ir_id doc))
  then (with_index idx (Map_delete (hm_index idx) (primitive (ir_id doc))), deleted ++ [ir_id doc])
  else (idx, deleted).

Definition del (idx : HashmapIndex) (query : QueryLike) : outcome (list IdKey * HashmapIndex) :=
  docs ← queryAll idx query;
  let '(idx', deleted) := fold_left del_step docs (idx, []) in
  Val (deleted, idx').

Definition getSize (idx : HashmapIndex) : nat := length (hm_index idx).

Definition hm_drop (idx : HashmapIndex) : HashmapIndex := with_index idx [].

(** A JavaScript value that [!value] rejects. *)
Definition is_falsy (v : jsval) : bool :=
  match v with
  | JUndef | JNull | JBool false | JNum 0 | JBig 0 | JStr "" => true
  | _ => false
  end.

(** Follows the path of [sum], [None] where the loop continues with the next
    document. *)
Fixpoint sum_value (value : jsval) (path : list string) : outcome (option jsval) :=
  match path with
  | [] => Val (Some value)
  | k :: path' =>
      v ← prop value k;
      if is_falsy v then Val None else sum_value v path'
  end.

(** Adding a number to a bigint throws. *)
Definition sum_step (path : list string) (sum : option jsval) (doc : IndexedResult T)
    : outcome (option jsval) :=
  v ← sum_value (to_js (ir_value doc)) path;
  match v, sum with
  | Some (JNum z), (None | Some (JBig 0)) => Val (Some (JNum z))
  | Some (JNum z), Some (JNum s) => Val (Some (JNum (s + z)))
  | Some (JBig z), (None | Some (JNum 0)) => Val (Some (JBig z))
  | Some (JBig z), Some (JBig s) => Val (Some (JBig (s + z)))
  | Some (JNum _), _ | Some (JBig _), _ => Exn "TypeError"
  | _, _ => Val sum
  end.

Definition sum (idx : HashmapIndex) (query : QueryLike) (key : KeyArg) : outcome jsval :=
  docs ← queryAll idx query;
  s ← foldM (sum_step (key_path key)) None docs;
  Val (default (JNum 0) s).

Definition count (idx : HashmapIndex) (query : QueryLike) : outcome nat :=
  docs ← queryAll idx query; Val (length docs).

(** ** Iterators *)

Fixpoint batch_loop (results : list (IndexedResult T)) (wantedSize : option nat)
    (batch : list (IndexedResult T)) : list (IndexedResult T) :=
  match results with
  | [] => batch
  | result :: rest =>
      let batch' := batch ++ [result] in
      if match wantedSize with Some n => (n <=? length batch')%nat | None => false end
      then batch' else batch_loop rest wantedSize batch'
  end.

(** The batch, and what [splice] leaves in the queue. *)
Definition getBatchFromResults (results : list (IndexedResult T)) (wantedSize : option nat)
    : list (IndexedResult T) * list (IndexedResult T) :=
  let batch := batch_loop results wantedSize [] in
  (batch, drop (length batch) results).

Definition cloneResults (indexed : list (IndexedResult T)) : list (IndexedResult T) :=
  map (fun x => MkIndexedResult (ir_id x) (schema_clone (ir_value x))) indexed.

Record ItState := MkItState {
  st_options : IterateOptions;
  st_done : option bool;
  st_queue : option (list (IndexedResult T));
}.

Definition iterate (query : IterateOptions) : ItState := MkItState query None None.

Definition sort_documents (docs : list (IndexedResult T)) (sort : option (list Sort))
    : outcome (list (IndexedResult T)) :=
  if (1 <? length docs)%nat then
    match sort with
    | Some (s :: ss) =>
        sortM (fun a b => extractSortCompare (to_js (ir_value a)) (to_js (ir_value b)) (s :: ss) None) docs
    | _ => Val docs
    end
  else Val docs.

(** [fetch(n)]; [None] is [Infinity]. *)
Definition fetch (idx : HashmapIndex) (n : option nat) (st : ItState)
    : outcome (list (IndexedResult T) * ItState) :=
  let opts := st_options st in
  st1 ← match st_queue st with
        | None =>
            if not_done (st_done st) then
              docs ← queryAll idx (opt_query opts);
              sorted ← sort_documents docs (opt_sort opts);
              match sorted with
              | [] => Val (MkItState opts (Some true) None)
              | _ => Val (MkItState opts (Some false) (Some sorted))
              end
            else Val st
        | Some _ => Val st
        end;
  match st_queue st1 with
  | None => Val ([], st1)
  | Some arr =>
      let done := if match n with Some n => (length arr <=? n)%nat | None => true end
                  then Some true else st_done st1 in
      let '(batch, rest) := getBatchFromResults arr n in
      Val (cloneResults batch, MkItState opts done (Some rest))
  end.

Definition pending (idx : HashmapIndex) (st : ItState) : outcome (nat * ItState) :=
  st1 ← match st_done st with
        | None => '(_, st1) ← fetch idx (Some 0%nat) st; Val st1
        | Some _ => Val st
        end;
  Val (match st_done st1 with
       | Some true => 0%nat
       | _ => from_option length 0%nat (st_queue st1)
       end, st1).

Definition close (st : ItState) : ItState := MkItState (st_options st) (Some true) None.

Definition simple_ops (idx : HashmapIndex) : IteratorOps (IndexedResult T) ItState := {|
  it_next := fun n => fetch idx (Some n);
  it_all := fetch idx None;
  it_done := st_done;
  it_pending := pending idx;
  it_close := close;
|}.

#[export] Instance simple_Index : Index HashmapIndex ItState T := {
  idx_contents idx := Map_values (hm_index idx);
  idx_count := count;
  idx_iterate idx := iterate;
  idx_ops := simple_ops;
}.

End HashmapIndex.

Arguments HashmapIndex : clear implicits.
Arguments ItState : clear implicits.
