(* ===== verification/SimpleIndexFacts.v ===== *)
(** * The in-memory index meets the index contract

    The evaluator agrees with the reference semantics on the queries the
    reference covers, so [HashmapIndex] is an instance of [IndexLaws]; what it
    does on array fields, where the contract is silent, is proved separately. *)

From Stdlib Require Import ZArith Lia.
From stdpp Require Import base list sets strings.
From S2P Require Import Prelude JsMap JsVal Query IndexInterface SimpleIndex.

Local Open Scope Z_scope.

(** ** The evaluator on scalar fields *)

Section Scalars.
Context `{JsEnv} (by_ : list string).
Implicit Types (ih : InnerHits) (doc : jsval).

Lemma read_field1 doc f v :
  read_field doc [f] = Some v -> v <> JUndef ->
  prop doc f = Val v /\ array_elements (IsNull []) doc = None /\ forall q, array_elements q doc = None.
Proof.
  unfold read_field. simpl. intros Hr Hv.
  destruct doc; simpl in *; simplify_eq; try done.
Qed.

(** A query on one scalar field: the leaf comparison decides. *)
Lemma handleFieldQuery_scalar fuel q f doc v ih :
  query_field_key q = Some [f] -> read_field doc [f] = Some v -> v <> JUndef ->
  array_elements q v = None ->
  handleFieldQuery by_ None (S fuel) q doc 0 ih = Val (handleLeaf by_ q v, ih).
Proof.
  intros Hk Hr Hv Ha. destruct (read_field1 _ _ _ Hr Hv) as (Hp & _ & Hd).
  simpl. rewrite Hd. unfold field_key. rewrite Hk. simpl. rewrite Hp. simpl. by rewrite Ha.
Qed.

(** A query on an array field, and on an array. *)
Lemma handleFieldQuery_array_field fuel q f doc els ih :
  query_field_key q = Some [f] -> read_field doc [f] = Some (JArr els) ->
  handleFieldQuery by_ None (S fuel) q doc 0 ih =
    handleArrayResults (handleFieldQuery by_ None fuel q) [f] els 1 ih.
Proof.
  intros Hk Hr. destruct (read_field1 _ _ _ Hr) as (Hp & _ & Hd); [done|].
  simpl. rewrite Hd. unfold field_key. rewrite Hk. simpl. by rewrite Hp.
Qed.

Lemma handleFieldQuery_array fuel q els skip ih :
  handleFieldQuery by_ None (S fuel) q (JArr els) skip ih =
    handleArrayResults (handleFieldQuery by_ None fuel q) (field_key q) els skip ih.
Proof. by destruct q. Qed.

Lemma handleArrayResults_key rec f els skip ih :
  f <> "" -> Map_get ih f <> Some None ->
  handleArrayResults rec [f] els skip ih =
    ('(hits, ih') ← collect_hits rec
        (match Map_get ih f with Some (Some (h :: hs)) => h :: hs | _ => els end) skip [] ih;
     match hits with
     | [] => Val (Some false, Map_set ih' f None)
     | _ => Val (Some true, Map_set ih' f (Some hits))
     end).
Proof.
  intros Hf Hg. unfold handleArrayResults. simpl String.concat. rewrite bool_decide_false by done.
  by destruct (Map_get ih f) as [[[|h hs]|]|].
Qed.

(** The list loop inside [And]. *)
Lemma and_loop_covered fuel doc ih (l : list Query) :
  Forall (fun q => covered q doc = true -> forall ih,
    handleQueryObject by_ None (S fuel) q doc ih 0 = Val (Some (sat q doc), ih)) l ->
  forallb (fun q => covered q doc) l = true ->
  handleQueryObject by_ None (S fuel) (And l) doc ih 0 =
    Val (Some (forallb (fun q => sat q doc) l), ih).
Proof.
  intros Hl. revert ih. induction Hl as [|q l Hq Hl IH]; intros ih; [done|].
  cbn [forallb]. rewrite andb_true_iff. intros [Hc Hcl].
  specialize (IH ih Hcl). simpl in IH |- *. rewrite (Hq Hc). simpl.
  destruct (sat q doc); [exact IH|done].
Qed.

Lemma or_loop_covered fuel doc ih (l : list Query) :
  Forall (fun q => covered q doc = true -> forall ih,
    handleQueryObject by_ None (S fuel) q doc ih 0 = Val (Some (sat q doc), ih)) l ->
  forallb (fun q => covered q doc) l = true ->
  handleQueryObject by_ None (S fuel) (Or l) doc ih 0 =
    Val (Some (existsb (fun q => sat q doc) l), ih).
Proof.
  intros Hl. induction Hl as [|q l Hq Hl IH]; [done|].
  cbn [forallb existsb]. rewrite andb_true_iff. intros [Hc Hcl].
  specialize (IH Hcl). simpl in IH |- *. rewrite (Hq Hc). simpl.
  destruct (sat q doc); [done|exact IH].
Qed.

(** The evaluator computes the reference semantics, and leaves the inner hits
    alone. *)
Lemma handleQueryObject_covered fuel doc q :
  covered q doc = true -> forall ih,
  handleQueryObject by_ None (S fuel) q doc ih 0 = Val (Some (sat q doc), ih).
Proof.
  induction q as [l IH|l IH|q IH|k v|k v m c|k c v|k|k v|i p l IH] using Query_ind'; intros Hc ih.
  - by apply and_loop_covered.
  - by apply or_loop_covered.
  - simpl in *. by rewrite (IH Hc).
  - destruct k as [|f [|? ?]]; [done| |done]. simpl in Hc.
    destruct (read_field doc [f]) as [w|] eqn:E; [|done]. destruct w; try done.
    cbn [handleQueryObject].
    erewrite handleFieldQuery_scalar; [|reflexivity|exact E|done|done]. simpl. by rewrite E.
  - destruct k as [|f [|? ?]], m, c; simpl in Hc; try done.
    destruct (read_field doc [f]) as [w|] eqn:E; [|done]. destruct w; try done.
    cbn [handleQueryObject].
    erewrite handleFieldQuery_scalar; [|reflexivity|exact E|done|done]. simpl. by rewrite E.
  - destruct k as [|f [|? ?]]; [done| |done]. simpl in Hc.
    destruct (read_field doc [f]) as [w|] eqn:E; [|done].
    destruct w; try done; cbn [handleQueryObject];
      (erewrite handleFieldQuery_scalar; [|reflexivity|exact E|done|done]); simpl; by rewrite E.
  - done.
  - destruct k as [|f [|? ?]]; [done| |done]. simpl in Hc.
    destruct (read_field doc [f]) as [w|] eqn:E; [|done]. destruct w; try done.
    cbn [handleQueryObject].
    erewrite handleFieldQuery_scalar; [|reflexivity|exact E|done|done]. simpl. by rewrite E.
  - done.
Qed.

Lemma matches_all_covered fuel doc qs ih :
  covered_all qs doc = true ->
  matches_all by_ None (S fuel) qs doc ih = Val (sat_all qs doc).
Proof.
  unfold covered_all, sat_all. induction qs as [|q qs IH]; [done|].
  cbn [forallb]. rewrite andb_true_iff. intros [Hc Hcs].
  cbn [matches_all]. rewrite handleQueryObject_covered by done. simpl.
  destruct (sat q doc); [by apply IH|done].
Qed.

End Scalars.

(** ** The evaluator on a field holding an array of integers *)

Section Arrays.
Context `{JsEnv} (by_ : list string).

Definition int_test (cond : Compare * IntegerValue) (v : jsval) : bool :=
  match is_integer v with Some z => compare z cond.1 (integer_value cond.2) | None => false end.

(** [And] of comparisons that all read the field [f]. *)
Definition int_queries (f : string) (conds : list (Compare * IntegerValue)) : list Query :=
  map (fun c => IntegerCompare [f] c.1 c.2) conds.

Lemma collect_hits_ints fuel f cond els hits ih :
  Forall (fun v => is_Some (is_integer v)) els ->
  collect_hits (handleFieldQuery by_ None (S fuel) (IntegerCompare [f] cond.1 cond.2)) els 1 hits ih =
    Val (hits ++ List.filter (int_test cond) els, ih).
Proof.
  intros Hels. revert hits. induction Hels as [|v els [z Hv] _ IH]; intros hits; simpl.
  - by rewrite app_nil_r.
  - unfold int_test at 1. destruct v; simpl in Hv; try done; simplify_eq; simpl;
      rewrite IH; simpl; case_if_in_goal; rewrite <- ?app_assoc; done.
Qed.

(** What the inner hits say of the field [f] after the conditions so far. *)
Definition hits_are (f : string) (ih : InnerHits) (els hits : list jsval) : Prop :=
  (Map_get ih f = None /\ hits = els) \/ (Map_get ih f = Some (Some hits) /\ hits <> []).

Lemma int_query_step fuel f cond doc els hits ih :
  f <> "" -> Forall (fun v => is_Some (is_integer v)) els ->
  Forall (fun v => is_Some (is_integer v)) hits ->
  read_field doc [f] = Some (JArr els) -> hits_are f ih els hits ->
  exists ih', handleQueryObject by_ None (S (S fuel)) (IntegerCompare [f] cond.1 cond.2) doc ih 0 =
    Val (Some (existsb (int_test cond) hits), ih') /\
    (existsb (int_test cond) hits = true ->
     hits_are f ih' els (List.filter (int_test cond) hits)).
Proof.
  intros Hf Hels Hhits Hr Hih.
  assert (Hex : existsb (int_test cond) hits = negb (match List.filter (int_test cond) hits with
                                                    | [] => true | _ => false end)).
  { clear. induction hits as [|h hits IH]; [done|]. simpl. destruct (int_test cond h); [done|exact IH]. }
  cbn [handleQueryObject]. erewrite handleFieldQuery_array_field; [|reflexivity|exact Hr].
  rewrite handleArrayResults_key; [|done|by destruct Hih as [[-> _]|[-> _]]].
  assert (Hels' : (match Map_get ih f with Some (Some (h :: hs)) => h :: hs | _ => els end) = hits).
  { destruct Hih as [[-> ->]|[-> Hne]]; [done|]. by destruct hits. }
  rewrite Hels', collect_hits_ints by done. cbn [mbind outcome_bind app]. rewrite Hex.
  destruct (List.filter (int_test cond) hits) as [|x l] eqn:E; eexists; (split; [done|]); [done|].
  intros _. right. split; [apply Map_get_set_eq|done].
Qed.

Lemma filter_Forall {A} (P : A -> Prop) (g : A -> bool) (l : list A) :
  Forall P l -> Forall P (List.filter g l).
Proof. induction 1; simpl; [constructor|]. destruct (g x); [by constructor|done]. Qed.

Lemma existsb_filter {A} (p g : A -> bool) (l : list A) :
  existsb p (List.filter g l) = existsb (fun x => g x && p x) l.
Proof. induction l as [|x l IH]; [done|]. simpl. destruct (g x); simpl; by rewrite IH. Qed.

Lemma int_and_hits fuel f conds doc els hits ih :
  f <> "" -> Forall (fun v => is_Some (is_integer v)) els ->
  Forall (fun v => is_Some (is_integer v)) hits ->
  read_field doc [f] = Some (JArr els) -> hits_are f ih els hits -> conds <> [] ->
  exists ih', handleQueryObject by_ None (S (S fuel)) (And (int_queries f conds)) doc ih 0 =
    Val (Some (existsb (fun v => forallb (fun c => int_test c v) conds) hits), ih').
Proof.
  intros Hf Hels Hhits Hr. revert hits ih Hhits.
  induction conds as [|c conds IH]; intros hits ih Hhits Hih Hne; [done|].
  destruct (int_query_step fuel f c doc els hits ih Hf Hels Hhits Hr Hih) as (ih1 & E1 & Hih1).
  set (g := fun v => forallb (fun c => int_test c v) conds).
  assert (Hsplit : existsb (fun v => forallb (fun c => int_test c v) (c :: conds)) hits =
                   existsb g (List.filter (int_test c) hits)) by (by rewrite existsb_filter).
  rewrite Hsplit. clear Hsplit.
  destruct (existsb (int_test c) hits) eqn:Ex.
  - destruct conds as [|c2 conds].
    + exists ih1. unfold int_queries. cbn [map]. cbn [handleQueryObject] in E1 |- *.
      assert (Hg : existsb g (List.filter (int_test c) hits) = existsb (int_test c) hits).
      { rewrite existsb_filter. subst g. clear. induction hits as [|h hits IH]; [done|].
        simpl in *. by rewrite IH, andb_true_r. }
      rewrite E1, Hg, Ex. done.
    + destruct (IH (List.filter (int_test c) hits) ih1) as (ih2 & E2);
        [by apply filter_Forall|by apply Hih1|done|].
      exists ih2. subst g. etransitivity; [|exact E2]. unfold int_queries. cbn [map].
      cbn [handleQueryObject] in E1 |- *. by rewrite E1.
  - exists ih1. unfold int_queries. cbn [map]. cbn [handleQueryObject] in E1 |- *.
    rewrite E1. cbn. f_equal. f_equal. f_equal.
    assert (Hnil : List.filter (int_test c) hits = []).
    { clear - Ex. induction hits as [|h hits IH]; [done|]. simpl in *.
      apply orb_false_iff in Ex as [-> Ex]. auto. }
    by rewrite Hnil.
Qed.

(** On an array field the conditions of an [And] must hold of one and the
    same element: for a document whose field [f] is an array of integers, the
    evaluator accepts [And [f cmp1 v1; f cmp2 v2; ...]] exactly when some
    element satisfies all the comparisons (the "inner hits" of the first
    condition are what the next one looks at). *)
Theorem and_on_array_field (fuel : nat) (f : string) (conds : list (Compare * IntegerValue))
    (doc : jsval) (els : list jsval) :
  f <> "" -> conds <> [] -> Forall (fun v => is_Some (is_integer v)) els ->
  read_field doc [f] = Some (JArr els) ->
  exists ih, handleQueryObject by_ None (S (S fuel)) (And (int_queries f conds)) doc [] 0 =
    Val (Some (existsb (fun v => forallb (fun c => int_test c v) conds) els), ih).
Proof.
  intros Hf Hne Hels Hr. apply (int_and_hits fuel f conds doc els els []); auto. by left.
Qed.

(** On an array of arrays the evaluator does not terminate: after a first
    condition on the field has recorded its hits, a second condition on the same
    field visits those hits again from inside themselves, so no fuel is enough,
    although the comment above [handleArrayResults] says such fields are gone
    through recursively (finding). *)
Theorem nested_arrays_diverge (fuel : nat) (f : string) (z : Z) :
  f <> "" ->
  let doc := JObj [(f, JArr [JArr [JNum z]])] in
  let q := IntegerCompare [f] Equal (UnsignedIntegerValue z) in
  (exists ih, handleFieldQuery by_ None 5 q doc 0 [] = Val (Some true, ih)) /\
  handleQueryObject by_ None fuel (And [q; q]) doc [] 0 = NoFuel.
Proof.
  intros Hf doc q.
  set (hits := [(f, Some [JArr [JNum z]])] : InnerHits).
  assert (Hr : read_field doc [f] = Some (JArr [JArr [JNum z]])).
  { unfold read_field. simpl. by rewrite decide_True. }
  assert (Hhits : Map_get hits f = Some (Some [JArr [JNum z]])) by (simpl; by rewrite decide_True).
  assert (Hloop : forall n, handleFieldQuery by_ None n q (JArr [JNum z]) 1 hits = NoFuel).
  { induction n as [|n IH]; [done|]. rewrite handleFieldQuery_array. unfold field_key. simpl default.
    rewrite handleArrayResults_key, Hhits by (try rewrite Hhits; done). simpl collect_hits. by rewrite IH. }
  assert (Hsecond : forall n, handleFieldQuery by_ None n q doc 0 hits = NoFuel).
  { intros [|n]; [done|]. erewrite handleFieldQuery_array_field; [|reflexivity|exact Hr].
    rewrite handleArrayResults_key, Hhits by (try rewrite Hhits; done).
    simpl collect_hits. by rewrite Hloop. }
  assert (Hone : forall n, handleFieldQuery by_ None (S n) q (JNum z) 1 [] = Val (Some true, [])).
  { intros n. simpl. by rewrite Z.eqb_refl. }
  assert (Hfirst : forall n, handleFieldQuery by_ None (S (S (S n))) q doc 0 [] = Val (Some true, hits)).
  { intros n. erewrite handleFieldQuery_array_field; [|reflexivity|exact Hr].
    rewrite handleArrayResults_key by done. cbn [Map_get collect_hits].
    rewrite handleFieldQuery_array. unfold field_key. simpl default.
    rewrite handleArrayResults_key by done. cbn [Map_get collect_hits].
    rewrite Hone. simpl. by rewrite decide_True. }
  assert (Hlow : forall n, (n < 3)%nat -> handleFieldQuery by_ None n q doc 0 [] = NoFuel).
  { intros [|[|[|n]]] Hn; [done| | |lia]; (erewrite handleFieldQuery_array_field; [|reflexivity|exact Hr]);
      rewrite handleArrayResults_key by done; cbn [Map_get collect_hits]; [done|].
    rewrite handleFieldQuery_array. unfold field_key. simpl default.
    by rewrite handleArrayResults_key by done. }
  split; [exists hits; apply Hfirst|]. subst q. cbn [handleQueryObject].
  destruct (decide (fuel < 3)%nat) as [Hn|Hn]; [by rewrite Hlow|].
  destruct fuel as [|[|[|n]]]; try lia. rewrite Hfirst. cbn [mbind outcome_bind]. by rewrite Hsecond.
Qed.

End Arrays.

(** ** The index as an instance of the contract *)

Section Instance.
Context `{JsEnv, JsEnvLaws} {T : Type} `{Document T, !DocumentLaws T}.
Implicit Types idx : HashmapIndex T.
Implicit Types docs : list (IndexedResult T).

(** Every entry is stored under its id, and its id is read from its document. *)
Record hm_ok idx : Prop := {
  hm_wf : Map_wf (hm_index idx);
  hm_flat : hm_nested idx = None;
  hm_single : exists f, hm_indexByArr idx = [f];
  hm_ids p r : (p, r) ∈ hm_index idx ->
    p = primitive (ir_id r) /\
    exists v, extractFieldValue (doc_of r) (hm_indexByArr idx) None = Val v /\ toId v = Val (ir_id r);
}.

Lemma filter_by_key (m : list (IdPrimitive * IndexedResult T)) k (g : IndexedResult T -> bool) :
  Map_wf m -> (forall p r, (p, r) ∈ m -> g r = bool_decide (p = k)) ->
  List.filter g (Map_values m) = option_list (Map_get m k).
Proof.
  unfold Map_wf. induction m as [|[p r] m IH]; [done|]. simpl.
  intros [Hp Hnd]%NoDup_cons Hg. rewrite (Hg p r) by left.
  rewrite IH; [|done|intros; apply Hg; by right].
  destruct (decide (p = k)) as [->|Hne].
  - rewrite bool_decide_true by done. rewrite (proj2 (Map_get_None _ _) Hp). done.
  - by rewrite bool_decide_false.
Qed.

Lemma Map_values_elem (m : list (IdPrimitive * IndexedResult T)) r :
  r ∈ Map_values m -> exists p, (p, r) ∈ m.
Proof. intros ([p r'] & -> & Hin)%list_elem_of_fmap. by exists p. Qed.

(** The lookup by id finds what the scan would find. *)
Lemma id_lookup_correct idx qs docs :
  hm_ok idx -> supported (Map_values (hm_index idx)) qs None ->
  id_lookup idx qs = Some docs ->
  docs = List.filter (fun r => sat_all qs (doc_of r)) (Map_values (hm_index idx)).
Proof.
  intros [Hwf _ [f Hf] Hids] Hsup Hl.
  assert (Hentry : forall p r, (p, r) ∈ hm_index idx -> covered_all qs (doc_of r) = true).
  { intros p r Hin. apply Hsup. apply list_elem_of_fmap. by exists (p, r). }
  destruct qs as [|[ | | |key value|key value [] []| | | |] [|? ?]]; try done; simpl in Hl;
    destruct (stringArraysEquals key (hm_indexByArr idx)) eqn:E; try done;
    apply stringArraysEquals_spec in E; simplify_eq; symmetry; apply filter_by_key; try done;
    intros p r Hin; destruct (Hids p r Hin) as (-> & v & Hv & Hid);
    pose proof (Hentry _ _ Hin) as Hc; unfold covered_all, sat_all in *; simpl in *;
    rewrite Hf in *; simpl in Hc; rewrite andb_true_r in *; unfold read_field in *;
    rewrite Hv in *; destruct v; try done; simpl in Hid; simplify_eq; rewrite <- Hid; simpl.
  - apply bool_decide_ext. split; [by intros ->|]. intros [=]. by apply toBase64_inj.
  - apply bool_decide_ext. split; [by intros ->|]. by intros [=].
Qed.

Lemma queryAll_correct idx ql qs :
  toQuery ql = Val qs -> hm_ok idx -> supported (Map_values (hm_index idx)) qs None ->
  queryAll idx ql =
    Val (List.filter (fun r => sat_all qs (doc_of r)) (Map_values (hm_index idx))).
Proof.
  intros Hql Hok Hsup. unfold queryAll. rewrite Hql. cbn [mbind outcome_bind].
  destruct (id_lookup idx qs) as [docs|] eqn:E.
  - by rewrite (id_lookup_correct idx qs docs Hok Hsup E).
  - unfold _queryDocuments. apply filterM_out_val. intros r Hr. rewrite (hm_flat _ Hok).
    apply matches_all_covered. by apply Hsup.
Qed.

Lemma js_sort_zero {A} (l : list A) : js_sort (fun _ _ => 0) l = l.
Proof. induction l as [|x l IH]; [done|]. simpl. rewrite IH. by destruct l. Qed.

Lemma sort_documents_correct docs sorts :
  (forall r, r ∈ docs -> sortable (default [] sorts) (doc_of r) = true) ->
  sort_documents docs sorts = Val (order_results sorts docs).
Proof.
  intros Hs. unfold sort_documents, order_results. destruct (Nat.ltb_spec 1 (length docs)) as [Hl|Hl].
  - destruct sorts as [[|s ss]|]; [|apply sortM_val|done].
    + simpl. by rewrite js_sort_zero.
    + intros x y Hx Hy. apply extractSortCompare_sortable; by apply Hs.
  - destruct docs as [|r [|? ?]]; [| |simpl in Hl; lia]; by destruct sorts as [[|? ?]|].
Qed.

Lemma batch_loop_spec docs n acc :
  (length acc <= n)%nat ->
  batch_loop docs (Some (S n)) acc = acc ++ take (S n - length acc) docs.
Proof.
  revert acc. induction docs as [|r docs IH]; intros acc Hacc.
  { simpl. by rewrite take_nil, app_nil_r. }
  cbn [batch_loop]. rewrite length_app. simpl length.
  destruct (Nat.leb_spec (S n) (length acc + 1)).
  - replace (S n - length acc)%nat with 1%nat by lia. done.
  - rewrite IH by (rewrite length_app; simpl; lia).
    rewrite length_app, <- app_assoc. simpl length.
    replace (S n - length acc)%nat with (S (S n - (length acc + 1))) by lia. done.
Qed.

Lemma batch_loop_all docs acc : batch_loop docs None acc = acc ++ docs.
Proof.
  revert acc. induction docs as [|r docs IH]; intros acc; simpl; [by rewrite app_nil_r|].
  rewrite IH. by rewrite <- app_assoc.
Qed.

Lemma getBatch_spec docs n :
  getBatchFromResults docs (Some (S n)) = (take (S n) docs, drop (S n) docs).
Proof.
  unfold getBatchFromResults. rewrite batch_loop_spec by (simpl; lia). simpl length.
  rewrite Nat.sub_0_r, app_nil_l, length_take. f_equal.
  destruct (Nat.le_gt_cases (length docs) (S n)).
  - rewrite Nat.min_r, !drop_ge by lia. done.
  - by rewrite Nat.min_l by lia.
Qed.

Lemma getBatch_all docs : getBatchFromResults docs None = (docs, []).
Proof. unfold getBatchFromResults. by rewrite batch_loop_all, app_nil_l, drop_all. Qed.

Lemma cloneResults_id docs : cloneResults docs = docs.
Proof.
  unfold cloneResults. induction docs as [|[i v] docs IH]; [done|]. simpl.
  by rewrite IH, schema_clone_id.
Qed.

(** What an iterator has still to return. *)
Definition it_remaining (st : ItState T) : list (IndexedResult T) := default [] (st_queue st).

Definition it_started (st : ItState T) : Prop := st_done st = Some false -> is_Some (st_queue st).

Lemma fetch_started idx arr o n :
  fetch idx (Some (S n)) (MkItState o (Some false) (Some arr)) =
    Val (take (S n) arr,
         MkItState o (Some (length arr <=? S n)%nat) (Some (drop (S n) arr))).
Proof.
  unfold fetch. cbn [st_queue mbind outcome_bind st_options st_done].
  rewrite getBatch_spec, cloneResults_id. by destruct (length arr <=? S n)%nat.
Qed.

Lemma fetch_fresh idx ql qs sorts n :
  toQuery ql = Val qs -> hm_ok idx -> supported (Map_values (hm_index idx)) qs sorts ->
  fetch idx n (iterate (MkIterateOptions ql sorts)) =
    match reference_results (Map_values (hm_index idx)) qs sorts with
    | [] => Val ([], MkItState (MkIterateOptions ql sorts) (Some true) None)
    | arr => fetch idx n (MkItState (MkIterateOptions ql sorts) (Some false) (Some arr))
    end.
Proof.
  intros Hql Hok Hsup. unfold fetch at 1. cbn [iterate st_queue st_done not_done st_options opt_query opt_sort].
  rewrite (queryAll_correct _ _ qs); [|done|done|intros r Hr; split; [by apply Hsup|done]].
  cbn [mbind outcome_bind]. rewrite sort_documents_correct.
  - unfold reference_results. cbn [mbind outcome_bind].
    by destruct (order_results sorts _).
  - intros r Hr. apply Hsup. apply list_elem_of_In in Hr. apply filter_In in Hr as [Hr _].
    by apply list_elem_of_In.
Qed.

#[export, refine] Instance simple_IndexLaws : IndexLaws (HashmapIndex T) (ItState T) T := {
  idx_ok := hm_ok;
  remaining _ := it_remaining;
  started := it_started;
}.
Proof.
  - intros idx ql qs Hql Hok Hsup. simpl. unfold count. by rewrite (queryAll_correct _ _ qs).
  - intros idx ql qs sorts Hql Hok Hsup st. split; [done|]. subst st. simpl. split.
    + intros n. rewrite (fetch_fresh _ _ qs) by done.
      destruct (reference_results _ qs sorts) as [|r arr] eqn:E; [by eexists|].
      rewrite fetch_started. eexists. split; [done|]. split; [by intros _; eexists|done].
    + rewrite (fetch_fresh _ _ qs) by done. destruct (reference_results _ qs sorts) as [|r arr] eqn:E; [by eexists|].
      unfold fetch. cbn [st_queue mbind outcome_bind]. rewrite getBatch_all, cloneResults_id. by eexists.
  - intros idx [o d q] n Hs Hd. simpl in *. subst d. destruct (Hs eq_refl) as [arr ?]. simpl in *; subst q.
    rewrite fetch_started. eexists. split; [done|]. split; [by intros _; eexists|done].
Defined.

End Instance.

(** ** Writing, deleting and paging *)

Section Operations.
Context `{JsEnv, JsEnvLaws} {T : Type} `{Document T, !DocumentLaws T}.
Implicit Types idx : HashmapIndex T.

(** A document stored with [put] under the id read from it keeps the index
    well formed, is found by [get] under that id, leaves every document with
    another primitive id where it was, and replaces the one with the same id. *)
Theorem put_get (idx idx' : HashmapIndex T) (value : T) (other : IdKey) :
  hm_ok idx -> put idx value None = Val idx' ->
  exists id, toId <$> extractFieldValue (to_js value) (hm_indexByArr idx) None = Val (Val id) /\
    hm_ok idx' /\ get idx' id = Some (MkIndexedResult id value) /\
    (primitive other <> primitive id -> get idx' other = get idx other) /\
    getSize idx' = (if Map_has (hm_index idx) (primitive id) then getSize idx else S (getSize idx)).
Proof.
  intros Hok Hput. unfold put in Hput.
  destruct (extractFieldValue (to_js value) (hm_indexByArr idx) None) as [v|?|] eqn:Ev;
    simpl in Hput; try done.
  destruct (toId v) as [id|?|] eqn:Eid; simpl in Hput; try done. injection Hput as <-.
  exists id. split; [simpl; by rewrite Eid|]. split; [|split; [|split]].
  - destruct Hok as [Hwf Hflat Hsingle Hids]. split; simpl; [by apply Map_set_wf|done|done|].
    intros p r [[= -> ->]|[Hin _]]%Map_set_elem; [|by apply Hids|done].
    split; [done|]. exists v. by split.
  - unfold get. simpl. by rewrite Map_get_set_eq.
  - intros Hne. unfold get. simpl. by rewrite Map_get_set_ne.
  - unfold getSize. simpl. pose proof (Map_keys_set (hm_index idx) (primitive id) (MkIndexedResult id value)) as Hk.
    apply (f_equal length) in Hk. unfold Map_keys in Hk. rewrite length_map in Hk.
    destruct (Map_has (hm_index idx) (primitive id)); rewrite ?length_app, length_map in Hk; simpl in Hk; lia.
Qed.

Lemma del_steps docs idx deleted idx' deleted' :
  hm_ok idx -> NoDup docs -> (forall r, r ∈ docs -> r ∈ Map_values (hm_index idx)) ->
  fold_left del_step docs (idx, deleted) = (idx', deleted') ->
  hm_ok idx' /\ deleted' = deleted ++ map ir_id docs /\
  (forall r, r ∈ Map_values (hm_index idx') <-> r ∈ Map_values (hm_index idx) /\ r ∉ docs).
Proof.
  revert idx deleted. induction docs as [|r docs IH]; intros idx deleted Hok Hnd Hin Hf; simpl in Hf.
  { simplify_eq. rewrite app_nil_r. split; [done|]. split; [done|]. intros r. set_solver. }
  apply NoDup_cons in Hnd as [Hr Hnd].
  destruct (Map_values_elem _ _ (Hin r (list_elem_of_here r docs))) as [p Hp].
  destruct (hm_ids _ Hok p r Hp) as (-> & v & Hv & Hid).
  assert (Hhas : Map_has (hm_index idx) (primitive (ir_id r)) = true).
  { apply Map_has_spec. apply list_elem_of_fmap. by eexists (_, r). }
  rewrite Hhas in Hf.
  assert (Hval : forall r', r' ∈ Map_values (Map_delete (hm_index idx) (primitive (ir_id r))) <->
                            r' ∈ Map_values (hm_index idx) /\ r' <> r).
  { intros r'. split.
    - intros [p' [Hin' Hne]%Map_delete_elem]%Map_values_elem. split.
      + apply list_elem_of_fmap. by exists (p', r').
      + intros ->. destruct (hm_ids _ Hok p' r Hin') as (-> & _). done.
    - intros [[p' Hin']%Map_values_elem Hne]. apply list_elem_of_fmap. exists (p', r').
      split; [done|]. apply Map_delete_elem. split; [done|]. simpl. intros ->. apply Hne.
      pose proof (Map_elem_get _ _ _ (hm_wf _ Hok) Hin') as E1.
      pose proof (Map_elem_get _ _ _ (hm_wf _ Hok) Hp) as E2. congruence. }
  apply IH in Hf as (Hok' & -> & Hvals).
  - split; [done|]. split; [simpl; by rewrite <- app_assoc|].
    intros r'. rewrite Hvals. simpl. rewrite Hval. set_solver.
  - destruct Hok as [Hwf Hflat Hsingle Hids].
    split; simpl; [by apply Map_delete_wf|done|done|]. intros p' r' [Hin' _]%Map_delete_elem. by apply Hids.
  - done.
  - intros r' Hr'. simpl. apply Hval. split; [apply Hin; by right|]. by intros ->.
Qed.

(** [del] removes exactly the documents its query selects and returns their
    ids in index order. *)
Theorem del_correct (idx : HashmapIndex T) (qs : list Query) :
  hm_ok idx -> supported (idx_contents idx) qs None ->
  exists idx', del idx (QLMany qs) =
      Val (map ir_id (reference_results (idx_contents idx) qs None), idx') /\
    hm_ok idx' /\
    forall r, r ∈ idx_contents idx' <-> r ∈ idx_contents idx /\ sat_all qs (doc_of r) = false.
Proof.
  intros Hok Hsup. unfold del. rewrite (queryAll_correct _ _ qs) by done. cbn [mbind outcome_bind].
  set (docs := List.filter _ _). destruct (fold_left del_step docs (idx, [])) as [idx' deleted'] eqn:Hf.
  assert (Hdocs : forall r, r ∈ docs <-> r ∈ Map_values (hm_index idx) /\ sat_all qs (doc_of r) = true).
  { intros r. subst docs. by rewrite list_elem_of_In, filter_In, <- list_elem_of_In. }
  apply del_steps in Hf as (Hok' & -> & Hvals); [|done| |intros r Hr; by apply Hdocs in Hr as []].
  - exists idx'. split; [done|]. split; [done|]. intros r. simpl. rewrite Hvals, Hdocs.
    destruct (sat_all qs (doc_of r)); naive_solver.
  - subst docs. apply NoDup_List_filter. destruct Hok as [Hwf _ _ Hids]. clear - Hwf Hids.
    unfold Map_wf in Hwf. induction (hm_index idx) as [|[p r] m IH]; [constructor|]. simpl in *.
    apply NoDup_cons in Hwf as [Hp Hwf]. constructor; [|apply IH; [done|intros; apply Hids; by right]].
    intros [p' Hin]%Map_values_elem.
    destruct (Hids p r) as (-> & _); [by left|]. destruct (Hids p' r) as (-> & _); [by right|].
    apply Hp. apply list_elem_of_fmap. by eexists (_, r).
Qed.

(** Reading page after page, [n + 1] results at a time. *)
Fixpoint pages (fuel n : nat) (idx : HashmapIndex T) (st : ItState T)
    : outcome (list (list (IndexedResult T))) :=
  match fuel with
  | O => NoFuel
  | S fuel' =>
      if not_done (st_done st) then
        '(page, st') ← fetch idx (Some (S n)) st;
        rest ← pages fuel' n idx st';
        Val (page :: rest)
      else Val []
  end.

Lemma pages_started fuel n idx o arr :
  (length arr + 2 <= fuel)%nat ->
  exists ps, pages fuel n idx (MkItState o (Some false) (Some arr)) = Val ps /\ concat ps = arr.
Proof.
  revert arr. induction fuel as [|fuel IH]; intros arr Hf; [lia|].
  cbn [pages st_done not_done]. rewrite fetch_started. cbn [mbind outcome_bind].
  destruct (Nat.leb_spec (length arr) (S n)) as [Hl|Hl].
  - destruct fuel as [|fuel]; [lia|]. cbn [pages st_done not_done mbind outcome_bind].
    eexists. split; [done|]. simpl. by rewrite app_nil_r, take_ge.
  - destruct (IH (drop (S n) arr)) as (ps & -> & Hps).
    { rewrite length_drop. lia. }
    eexists. split; [done|]. cbn [concat]. by rewrite Hps, take_drop.
Qed.

(** C40. Paging is complete: on a well-formed in-memory index, for queries and sort
    fields that the contract of the index covers on its documents, asking a fresh
    iterator for n + 1 results until it is done ends, and the pages put together are
    exactly the selected documents in the requested order. *)
Theorem paging_complete (idx : HashmapIndex T) (qs : list Query) (sorts : option (list Sort)) (n : nat) :
  hm_ok idx -> supported (idx_contents idx) qs sorts ->
  let results := reference_results (idx_contents idx) qs sorts in
  exists ps, pages (length results + 2) n idx (iterate (MkIterateOptions (QLMany qs) sorts)) = Val ps /\
    concat ps = results.
Proof.
  intros Hok Hsup results. replace (length results + 2)%nat with (S (S (length results))) by lia.
  remember (S (length results)) as fuel eqn:Ef. cbn [pages]. simpl not_done. cbv iota.
  rewrite (fetch_fresh _ _ qs) by done. change (reference_results (Map_values _) qs sorts) with results.
  destruct results as [|r arr] eqn:E; cbn [mbind outcome_bind].
  - subst fuel. cbn [pages st_done not_done mbind outcome_bind]. by eexists.
  - rewrite fetch_started. cbn [mbind outcome_bind]. rewrite <- E in *.
    destruct (Nat.leb_spec (length results) (S n)) as [Hl|Hl].
    + subst fuel. cbn [pages st_done not_done mbind outcome_bind].
      eexists. split; [done|]. cbn [concat]. by rewrite app_nil_r, take_ge.
    + destruct (pages_started fuel n idx (MkIterateOptions (QLMany qs) sorts) (drop (S n) results))
        as (ps & -> & Hps).
      { rewrite length_drop. lia. }
      eexists. split; [done|]. cbn [concat]. by rewrite Hps, take_drop.
Qed.

(** Calling [pending] on a fresh iterator loses a result: the request for
    zero results it makes takes one document off the queue, so the count it
    returns is one too small and the following [all] misses the first document
    (finding). *)
Theorem pending_drops_first (idx : HashmapIndex T) (qs : list Query) (sorts : option (list Sort))
    (r : IndexedResult T) (rest : list (IndexedResult T)) :
  hm_ok idx -> supported (idx_contents idx) qs sorts ->
  reference_results (idx_contents idx) qs sorts = r :: rest ->
  exists st st', pending idx (iterate (MkIterateOptions (QLMany qs) sorts)) = Val (length rest, st) /\
    fetch idx None st = Val (rest, st').
Proof.
  intros Hok Hsup E. unfold pending. simpl st_done. cbv iota.
  rewrite (fetch_fresh _ _ qs) by done. change (Map_values (hm_index idx)) with (idx_contents idx). rewrite E.
  unfold fetch at 1. cbn [st_queue mbind outcome_bind st_options st_done].
  unfold getBatchFromResults. cbn [batch_loop app length Nat.leb drop].
  do 2 eexists. split; [done|].
  unfold fetch. cbn [st_queue mbind outcome_bind st_options st_done]. rewrite getBatch_all, cloneResults_id.
  done.
Qed.

End Operations.
