(* ===== verification/IndexStore.v ===== *)
(** * Indexes that can be changed

    [put] and [del] of the index interface (packages/utils/indexer/interface/
    src/index-engine.ts) as a class beside [Index], and their contract: [put]
    replaces the document with the same id, [del] removes exactly what its query
    selects, [get] answers the document under an id, and [pending] counts what an
    iterator has left.  The in-memory index meets it. *)

From Stdlib Require Import ZArith Lia.
From stdpp Require Import base list strings.
From S2P Require Import Prelude JsMap JsVal Query IndexInterface SimpleIndex SimpleIndexFacts.

Local Open Scope Z_scope.

Class IndexStore (I T : Type) := {
  idx_put : I -> T -> outcome I;
  idx_del : I -> QueryLike -> outcome (list IdKey * I);
  idx_get : I -> IdKey -> option (IndexedResult T);
}.

(** The documents of an index. *)
Definition documents {I St T} `{Index I St T} (idx : I) : list T := map ir_value (idx_contents idx).

(** [doc_id idx v]: the id under which [put] stores [v]. *)
Class IndexStoreLaws (I St T : Type) `{JsEnv, Document T, Index I St T, !IndexLaws I St T, !IndexStore I T} := {
  doc_id : I -> T -> option IdPrimitive;
  law_put idx v k :
    idx_ok idx -> doc_id idx v = Some k ->
    exists idx', idx_put idx v = Val idx' /\ idx_ok idx' /\ doc_id idx' = doc_id idx /\
      forall w, w ∈ documents idx' <-> w = v \/ w ∈ documents idx /\ doc_id idx w <> Some k;
  law_del idx ql qs :
    toQuery ql = Val qs -> idx_ok idx -> supported (idx_contents idx) qs None ->
    exists ids idx', idx_del idx ql = Val (ids, idx') /\ idx_ok idx' /\ doc_id idx' = doc_id idx /\
      forall w, w ∈ documents idx' <-> w ∈ documents idx /\ sat_all qs (to_js w) = false;
  law_ids idx v w k : idx_ok idx -> v ∈ documents idx -> w ∈ documents idx ->
    doc_id idx v = Some k -> doc_id idx w = Some k -> v = w;
  law_nodup idx : idx_ok idx -> NoDup (documents idx);
  law_get idx k : idx_ok idx ->
    match idx_get idx k with
    | Some r => ir_value r ∈ documents idx /\ doc_id idx (ir_value r) = Some (primitive k)
    | None => forall w, w ∈ documents idx -> doc_id idx w <> Some (primitive k)
    end;
  law_pending idx st : started st -> it_done (idx_ops idx) st = Some false ->
    it_pending (idx_ops idx) st = Val (length (remaining idx st), st);
}.

(** ** The in-memory index *)

Section Simple.
Context `{JsEnv, JsEnvLaws} {T : Type} `{Document T, !DocumentLaws T}.

#[export] Instance simple_IndexStore : IndexStore (HashmapIndex T) T := {
  idx_put := fun idx v => SimpleIndex.put idx v None;
  idx_del := SimpleIndex.del;
  idx_get := SimpleIndex.get;
}.

Definition simple_doc_id (idx : HashmapIndex T) (v : T) : option IdPrimitive :=
  match extractFieldValue (to_js v) (hm_indexByArr idx) None with
  | Val x => match toId x with Val id => Some (primitive id) | _ => None end
  | _ => None
  end.

Lemma simple_entry_id (idx : HashmapIndex T) p r : hm_ok idx -> (p, r) ∈ hm_index idx -> simple_doc_id idx (ir_value r) = Some p.
Proof.
  intros Hok Hin. destruct (hm_ids _ Hok p r Hin) as (-> & v & Hv & Hid). unfold simple_doc_id.
  unfold doc_of in Hv. by rewrite Hv, Hid.
Qed.

Lemma simple_documents (idx : HashmapIndex T) w : w ∈ documents idx <-> exists p r, (p, r) ∈ hm_index idx /\ w = ir_value r.
Proof.
  unfold documents. cbn [idx_contents simple_Index]. unfold Map_values. rewrite map_map, list_elem_of_fmap. split.
  - intros ([p r] & -> & Hin). by exists p, r.
  - intros (p & r & Hin & ->). by exists (p, r).
Qed.

#[export, refine] Instance simple_IndexStoreLaws : IndexStoreLaws (HashmapIndex T) (ItState T) T := {
  doc_id := simple_doc_id;
}.
Proof.
  - intros idx v k Hok Hk. unfold simple_doc_id in Hk. cbn [idx_put simple_IndexStore]. unfold put.
    destruct (extractFieldValue (to_js v) (hm_indexByArr idx) None) as [x|?|] eqn:Ev; [|done|done].
    cbn [mbind outcome_bind]. destruct (toId x) as [id|?|] eqn:Eid; [|done|done]. injection Hk as <-.
    cbn [mbind outcome_bind]. eexists. split; [done|].
    assert (Hok' : hm_ok (with_index idx (Map_set (hm_index idx) (primitive id) (MkIndexedResult id v)))).
    { destruct Hok as [Hwf Hflat Hsingle Hids]. split; simpl; [by apply Map_set_wf|done|done|].
      intros p r [[= -> ->]|[Hin _]]%Map_set_elem; [|by apply Hids|done]. split; [done|]. exists x. by split. }
    split; [done|]. split; [done|]. intros w. rewrite !simple_documents. cbn [hm_index with_index]. split.
    + intros (p & r & [[= -> ->]|[Hin Hne]]%Map_set_elem & ->); [by left| |apply Hok].
      right. split; [by exists p, r|]. rewrite (simple_entry_id _ _ _ Hok Hin). simpl in Hne. congruence.
    + intros [->|[(p & r & Hin & ->) Hne]].
      * exists (primitive id), (MkIndexedResult id v). split; [|done]. apply Map_set_elem; [apply Hok|by left].
      * exists p, r. split; [|done]. apply Map_set_elem; [apply Hok|]. right. split; [done|]. simpl.
        rewrite (simple_entry_id _ _ _ Hok Hin) in Hne. congruence.
  - intros idx ql qs Hql Hok Hsup. cbn [idx_del simple_IndexStore].
    destruct (del_correct idx qs Hok Hsup) as (idx' & E & Hok' & Hd).
    assert (Eq : del idx ql = del idx (QLMany qs)).
    { unfold del. by rewrite (queryAll_correct idx ql qs Hql Hok Hsup), (queryAll_correct idx (QLMany qs) qs eq_refl Hok Hsup). }
    rewrite Eq. eexists _, idx'. split; [exact E|]. split; [done|]. split.
    + unfold del in E. destruct (queryAll idx (QLMany qs)) as [docs|?|]; [|done|done]. cbn [mbind outcome_bind] in E.
      destruct (fold_left del_step docs (idx, [])) as [idx1 deleted] eqn:Ef. injection E as _ <-.
      assert (Hby : hm_indexByArr (fold_left del_step docs (idx, [])).1 = hm_indexByArr idx).
      { apply (fold_left_keeps (fun st => hm_indexByArr st.1 = hm_indexByArr idx)); [|done].
        intros [i d] x _ Hi. unfold del_step. by destruct (Map_has _ _). }
      rewrite Ef in Hby. unfold simple_doc_id. simpl in Hby. by rewrite Hby.
    + intros w. unfold documents. rewrite !list_elem_of_fmap. split.
      * intros (r & -> & [Hin Hs]%Hd). split; [by exists r|done].
      * intros [(r & -> & Hin) Hs]. exists r. split; [done|]. by apply Hd.
  - intros idx v w k Hok (p & r & Hin & ->)%simple_documents (p' & r' & Hin' & ->)%simple_documents.
    rewrite (simple_entry_id _ _ _ Hok Hin), (simple_entry_id _ _ _ Hok Hin'). intros [= ->] [= ->].
    pose proof (Map_elem_get _ _ _ (hm_wf _ Hok) Hin) as E1.
    pose proof (Map_elem_get _ _ _ (hm_wf _ Hok) Hin') as E2. congruence.
  - intros idx Hok. unfold documents. cbn [idx_contents simple_Index]. unfold Map_values. rewrite map_map.
    apply (NoDup_fmap_1 (simple_doc_id idx)). rewrite <- list_fmap_compose.
    assert (E : (simple_doc_id idx ∘ (fun x => ir_value (snd x))) <$> hm_index idx = Some <$> Map_keys (hm_index idx)).
    { unfold Map_keys. rewrite <- list_fmap_compose. apply list_fmap_ext. intros i [p r] Hi. cbn.
      apply (simple_entry_id idx p r Hok). by eapply list_elem_of_lookup_2. }
    rewrite E. apply NoDup_fmap_2; [by intros ? ? [=]|]. apply (hm_wf _ Hok).
  - intros idx k Hok. cbn [idx_get simple_IndexStore]. unfold get. destruct (Map_get (hm_index idx) (primitive k)) as [r|] eqn:E.
    + apply Map_get_Some_elem in E. cbn [ir_value]. split; [apply simple_documents; by exists (primitive k), r|by apply simple_entry_id].
    + intros w (p & r & Hin & ->)%simple_documents Hid. rewrite (simple_entry_id _ _ _ Hok Hin) in Hid. injection Hid as ->.
      by rewrite (Map_elem_get _ _ _ (hm_wf _ Hok) Hin) in E.
  - intros idx st Hst Hd. cbn [idx_ops it_done it_pending simple_Index simple_ops] in *. unfold pending. rewrite Hd. cbn [mbind outcome_bind].
    rewrite Hd. destruct (Hst Hd) as [q Eq]. cbn [remaining simple_IndexLaws]. unfold it_remaining. by rewrite Eq.
Defined.

End Simple.
