(* ===== verification/Integers.v ===== *)
(** * Coordinates of the replication space
    (packages/programs/data/shared-log/src/integers.ts)

    The space is the ring of the integers below [maxValue], with 32 bit numbers
    or 64 bit bigints.  [Numbers] is the record of operations of that name;
    [createNumbers] builds it for a resolution.  The operations that take a
    fraction between 0 and 1 ([denormalize], [random]) work on floating point
    numbers and are in Factors; [Number(bigint)], which the code applies to 64
    bit widths, rounds to 53 bits. *)

From Stdlib Require Import ZArith Lia.
From stdpp Require Import base list strings sorting.
From S2P Require Import Prelude.

Local Open Scope Z_scope.

Inductive resolution := U32 | U64.

#[export] Instance resolution_eq_dec : EqDecision resolution.
Proof. solve_decision. Defined.

Definition MAX_U32 : Z := 4294967295.
Definition MAX_U64 : Z := 18446744073709551615.
Definition HALF_MAX_U32 : Z := 2147483647.
Definition HALF_MAX_U64 : Z := 9223372036854775807.

(** [Math.round(a / b)] for integers, exact while [b] is below 2^20 (the
    quotient of doubles is then on the right side of every half). *)
Definition round_div (a : Z) (b : positive) : Z := (2 * a + Zpos b) / (2 * Zpos b).

(** [Number(n)] for a bigint: round to nearest, ties to even, 53 bits. *)
Definition Number_of_bigint (z : Z) : Z :=
  let m := Z.abs z in
  if m <? 2 ^ 53 then z
  else
    let e := Z.log2 m - 52 in
    let q := m / 2 ^ e in
    let r := m mod 2 ^ e in
    let half := 2 ^ (e - 1) in
    let q' := if (half <? r) || ((r =? half) && Z.odd q) then q + 1 else q in
    Z.sgn z * q' * 2 ^ e.

(** [bytesToNumber]: [BinaryReader]'s little endian [u32()] and [u64()], the
    prefix of the array of that many bytes. *)
Fixpoint le_number (n : nat) (arr : list Z) : outcome Z :=
  match n with
  | O => Val 0
  | S n' =>
      match arr with
      | [] => Exn "RangeError"
      | b :: arr' => r ← le_number n' arr'; Val (b + 256 * r)
      end
  end.

Record Numbers := MkNumbers {
  zero : Z;
  maxValue : Z;
  getGrid : Z -> nat -> list Z;
  divRound : Z -> positive -> Z;
  num_abs : Z -> Z;
  num_min : Z -> Z -> Z;
  bytesToNumber : list Z -> outcome Z;
}.

Definition getEvenlySpacedU32 (from : Z) (count : nat) : list Z :=
  map (fun i => (from + round_div (Z.of_nat i * MAX_U32) (Pos.of_nat count)) mod MAX_U32)
      (seq 0 count).

Definition getEvenlySpacedU64 (from : Z) (count : nat) : list Z :=
  map (fun i => (from + Z.of_nat i * MAX_U64 / Z.of_nat count) mod MAX_U64) (seq 0 count).

(** [Math.min], and the comparison the bigint version makes. *)
Definition min_of (a b : Z) : Z := if a <? b then a else b.
Definition abs_of (a : Z) : Z := if a <? 0 then - a else a.

Definition createNumbers (R : resolution) : Numbers :=
  match R with
  | U32 => {| zero := 0; maxValue := MAX_U32; getGrid := getEvenlySpacedU32;
              divRound := round_div; num_abs := Z.abs; num_min := Z.min;
              bytesToNumber := le_number 4 |}
  | U64 => {| zero := 0; maxValue := MAX_U64; getGrid := getEvenlySpacedU64;
              divRound := fun a b => Z.quot a (Zpos b); num_abs := abs_of; num_min := min_of;
              bytesToNumber := le_number 8 |}
  end.

(** ** What a [Numbers] promises *)

Class NumbersLaws (N : Numbers) : Prop := {
  numbers_zero : zero N = 0;
  numbers_max : 1 < maxValue N;
  numbers_min a b : num_min N a b = Z.min a b;
  numbers_abs a : num_abs N a = Z.abs a;
  numbers_grid_length from count : length (getGrid N from count) = count;
  numbers_grid_range from count p : p ∈ getGrid N from count -> 0 <= p < maxValue N;
  numbers_div a b : 0 <= a -> divRound N a b * Zpos b <= a + Zpos b / 2 /\
                              a < (divRound N a b + 1) * Zpos b;
}.

Lemma min_of_spec a b : min_of a b = Z.min a b.
Proof. unfold min_of. case_if_in_goal; lia. Qed.

Lemma abs_of_spec a : abs_of a = Z.abs a.
Proof. unfold abs_of. case_if_in_goal; lia. Qed.

Lemma round_div_spec a b :
  round_div a b * Zpos b <= a + Zpos b / 2 /\ a < (round_div a b + 1) * Zpos b.
Proof.
  unfold round_div. set (q := (2 * a + Zpos b) / (2 * Zpos b)).
  pose proof (Z.div_mod (2 * a + Zpos b) (2 * Zpos b) ltac:(lia)) as Hd. fold q in Hd.
  pose proof (Z.mod_pos_bound (2 * a + Zpos b) (2 * Zpos b) ltac:(lia)).
  pose proof (Z.div_mod (Zpos b) 2 ltac:(lia)). pose proof (Z.mod_pos_bound (Zpos b) 2 ltac:(lia)).
  nia.
Qed.

Lemma quot_spec a b :
  0 <= a -> Z.quot a (Zpos b) * Zpos b <= a + Zpos b / 2 /\ a < (Z.quot a (Zpos b) + 1) * Zpos b.
Proof.
  intros Ha. rewrite Z.quot_div_nonneg by lia.
  pose proof (Z.div_mod a (Zpos b) ltac:(lia)). pose proof (Z.mod_pos_bound a (Zpos b) ltac:(lia)).
  pose proof (Z.div_pos (Zpos b) 2 ltac:(lia) ltac:(lia)). nia.
Qed.

Lemma grid_U32_range from count p : p ∈ getEvenlySpacedU32 from count -> 0 <= p < MAX_U32.
Proof.
  intros (i & -> & _)%list_elem_of_fmap. apply Z.mod_pos_bound. unfold MAX_U32. lia.
Qed.

Lemma grid_U64_range from count p : p ∈ getEvenlySpacedU64 from count -> 0 <= p < MAX_U64.
Proof.
  intros (i & -> & _)%list_elem_of_fmap. apply Z.mod_pos_bound. unfold MAX_U64. lia.
Qed.

#[export] Instance createNumbers_laws R : NumbersLaws (createNumbers R).
Proof.
  destruct R; split; simpl; intros.
  - done.
  - unfold MAX_U32; lia.
  - done.
  - done.
  - unfold getEvenlySpacedU32. by rewrite length_map, length_seq.
  - by eapply grid_U32_range.
  - apply round_div_spec.
  - done.
  - unfold MAX_U64; lia.
  - apply min_of_spec.
  - apply abs_of_spec.
  - unfold getEvenlySpacedU64. by rewrite length_map, length_seq.
  - by eapply grid_U64_range.
  - by apply quot_spec.
Qed.

(** ** Rounding to 53 bits *)

Lemma Number_small z : Z.abs z < 2 ^ 53 -> Number_of_bigint z = z.
Proof. intros Hz. unfold Number_of_bigint. by rewrite (proj2 (Z.ltb_lt _ _) Hz). Qed.

(** ** The grid *)

Lemma scaled_step_U64 (n i : Z) : 0 < n <= MAX_U64 -> 0 <= i < n ->
  i * MAX_U64 / n < (i + 1) * MAX_U64 / n <= MAX_U64.
Proof.
  intros Hn Hi. split.
  - apply Z.lt_le_trans with (i * MAX_U64 / n + 1); [lia|].
    rewrite <- Z.div_add by lia. apply Z.div_le_mono; [lia|]. unfold MAX_U64 in *. nia.
  - apply Z.div_le_upper_bound; unfold MAX_U64 in *; nia.
Qed.

Lemma scaled_step_U32 (n : positive) (i : Z) : Zpos n <= MAX_U32 -> 0 <= i < Zpos n ->
  0 <= round_div (i * MAX_U32) n < round_div ((i + 1) * MAX_U32) n /\
  round_div ((i + 1) * MAX_U32) n <= MAX_U32.
Proof.
  intros Hn Hi. unfold round_div. split; [split|].
  - apply Z.div_pos; unfold MAX_U32 in *; lia.
  - apply Z.lt_le_trans with ((2 * (i * MAX_U32) + Zpos n) / (2 * Zpos n) + 1); [lia|].
    rewrite <- Z.div_add by lia. apply Z.div_le_mono; [lia|]. unfold MAX_U32 in *. nia.
  - apply Z.lt_succ_r. apply Z.div_lt_upper_bound; unfold MAX_U32 in *; nia.
Qed.

Lemma sorted_map_seq (f : nat -> Z) (n a : nat) :
  (forall i j, (a <= i < j)%nat -> (j < a + n)%nat -> f i < f j) ->
  StronglySorted Z.lt (map f (seq a n)).
Proof.
  revert a. induction n as [|n IH]; intros a Hf; simpl; [constructor|]. constructor.
  - apply IH. intros i j ? ?. apply Hf; lia.
  - apply Forall_forall. intros x (i & -> & Hi)%list_elem_of_fmap.
    apply elem_of_seq in Hi. apply Hf; lia.
Qed.

Lemma mono_from_step (f : nat -> Z) (n : nat) :
  (forall i, (S i < n)%nat -> f i < f (S i)) -> forall i j, (i < j < n)%nat -> f i < f j.
Proof.
  intros Hs i j [Hij Hj]. induction j as [|j IH]; [lia|].
  destruct (decide (i = j)) as [->|Hne]; [apply Hs; lia|].
  transitivity (f j); [apply IH; lia|apply Hs; lia].
Qed.

Lemma grid_head R count :
  (0 < count)%nat -> head (getGrid (createNumbers R) (zero (createNumbers R)) count) = Some 0.
Proof.
  intros Hpos. destruct count as [|n]; [lia|]. destruct R.
  - change (Some ((0 + round_div 0 (Pos.of_nat (S n))) mod MAX_U32) = Some 0).
    unfold round_div. rewrite (Z.div_small (2 * 0 + _)) by lia. done.
  - done.
Qed.

(** The sampling grid of either resolution starts at zero, has as many
    points as asked for, all inside the ring, and its points are distinct and in
    increasing order, so no part of the ring is sampled twice. *)
Theorem grid_evenly_spaced (R : resolution) (count : nat) :
  (0 < count)%nat -> Z.of_nat count <= maxValue (createNumbers R) ->
  let grid := getGrid (createNumbers R) (zero (createNumbers R)) count in
  length grid = count /\ head grid = Some 0 /\ StronglySorted Z.lt grid /\
  Forall (fun p => 0 <= p < maxValue (createNumbers R)) grid.
Proof.
  intros Hpos Hmax grid. split; [apply numbers_grid_length|]. split; [|split].
  - subst grid. by apply grid_head.
  - subst grid. destruct R; simpl in *.
    + apply sorted_map_seq. intros i j Hij Hj. rewrite !Z.add_0_l.
      assert (Hr : forall k, (k < count)%nat ->
        0 <= round_div (Z.of_nat k * MAX_U32) (Pos.of_nat count) < MAX_U32).
      { intros k Hk. pose proof (scaled_step_U32 (Pos.of_nat count) (Z.of_nat k)). lia. }
      rewrite !Z.mod_small by (apply Hr; lia).
      apply (mono_from_step (fun k => round_div (Z.of_nat k * MAX_U32) (Pos.of_nat count)) count); [|lia].
      intros k Hk. pose proof (scaled_step_U32 (Pos.of_nat count) (Z.of_nat k)) as Hs.
      rewrite Nat2Z.inj_succ, <- Z.add_1_r. lia.
    + apply sorted_map_seq. intros i j Hij Hj. rewrite !Z.add_0_l.
      assert (Hr : forall k, (k < count)%nat -> 0 <= Z.of_nat k * MAX_U64 / Z.of_nat count < MAX_U64).
      { intros k Hk. pose proof (scaled_step_U64 (Z.of_nat count) (Z.of_nat k)).
        split; [apply Z.div_pos; unfold MAX_U64; lia|lia]. }
      rewrite !Z.mod_small by (apply Hr; lia).
      apply (mono_from_step (fun k => Z.of_nat k * MAX_U64 / Z.of_nat count) count); [|lia].
      intros k Hk. pose proof (scaled_step_U64 (Z.of_nat count) (Z.of_nat k)) as Hs.
      rewrite Nat2Z.inj_succ, <- Z.add_1_r. lia.
  - apply Forall_forall. intros p. apply numbers_grid_range.
Qed.

Lemma grid_evenly_spaced_witness :
  let grid := getGrid (createNumbers U32) 0 4 in
  length grid = 4%nat /\ head grid = Some 0 /\ StronglySorted Z.lt grid /\
  Forall (fun p => 0 <= p < maxValue (createNumbers U32)) grid.
Proof. apply (grid_evenly_spaced U32 4); [lia|]. simpl. unfold MAX_U32. lia. Defined.
