(* ===== verification/LogSorting.v ===== *)
(** * Entry metadata and log order
    (packages/log/src/entry-type.ts, entry-v0.ts, entry-shallow.ts, log-sorting.ts)

    The metadata of a log entry, the shallow copy that is indexed, the three
    sort functions of the log with the queries that ask for the entries before
    and after a given one, and [compare]
    ([compareEntries]). *)

From Stdlib Require Import ZArith Lia.
From stdpp Require Import base list strings sorting.
From S2P Require Import Prelude JsMap JsVal Query IndexInterface SimpleIndex Clock.

Local Open Scope Z_scope.

Inductive EntryType := APPEND | CUT.

(** [Meta] (entry-v0.ts); [clock] is a [LamportClock]. *)
Record Meta := MkMeta {
  meta_clock : @LamportClock (list Z);
  meta_gid : string;
  meta_next : list string;
  meta_type : EntryType;
  meta_data : option (list Z);
}.

Record ShallowMeta := MkShallowMeta {
  smeta_clock : @LamportClock (list Z);
  smeta_gid : string;
  smeta_next : list string;
  smeta_type : EntryType;
  smeta_data : option (list Z);
}.

Definition new_ShallowMeta (m : Meta) : ShallowMeta := {|
  smeta_clock := meta_clock m; smeta_gid := meta_gid m; smeta_next := meta_next m;
  smeta_type := meta_type m; smeta_data := meta_data m |}.

Record ShallowEntry := MkShallowEntry {
  se_hash : string;
  se_meta : ShallowMeta;
  se_payloadSize : Z;
  se_head : bool;
}.

(** [SortableEntry], the part of an entry the order looks at. *)
Record SortableEntry := MkSortable {
  so_timestamp : Timestamp;
  so_gid : string;
  so_hash : string;
}.

(** The entry as [sort.key.reduce((prev, curr) => prev[curr], entry)] and an
    index read it. *)
Definition sortable_js (e : SortableEntry) : jsval :=
  JObj [("hash", JStr (so_hash e));
        ("meta", JObj [("gid", JStr (so_gid e));
          ("clock", JObj [("timestamp",
             JObj [("wallTime", JBig (wallTime (so_timestamp e)));
                   ("logical", JNum (logical (so_timestamp e)))])])])]%string.

Definition wallTime_key : list string := ["meta"; "clock"; "timestamp"; "wallTime"]%string.
Definition logical_key : list string := ["meta"; "clock"; "timestamp"; "logical"]%string.

Record SortFn := MkSortFn {
  sort : list Sort;
  before : SortableEntry -> outcome (list Query);
  after : SortableEntry -> outcome (list Query);
}.

Definition compare_wallTime (key : list string) (cmp : Compare) (entry : SortableEntry)
    : outcome (list Query) :=
  q ← new_IntegerCompare key (CmpEnum cmp) (IBig (wallTime (so_timestamp entry))); Val [q].

Definition LastWriteWins : SortFn := {|
  sort := [new_Sort wallTime_key (Some (DirEnum ASC)); new_Sort logical_key (Some (DirEnum ASC))];
  before := compare_wallTime wallTime_key Less;
  after := compare_wallTime wallTime_key Greater;
|}.

Definition FirstWriteWins : SortFn := {|
  sort := [new_Sort wallTime_key (Some (DirEnum DESC)); new_Sort logical_key (Some (DirEnum DESC))];
  before := compare_wallTime wallTime_key Greater;
  after := compare_wallTime wallTime_key Less;
|}.

Definition SortByEntryHash : SortFn := {|
  sort := [new_Sort ["hash"%string] (Some (DirEnum ASC))];
  before := compare_wallTime ["hash"%string] Less;
  after := compare_wallTime ["hash"%string] Greater;
|}.

(** [sort.key.reduce((prev, curr) => prev[curr], a)]. *)
Definition reduce_key (key : list string) (a : jsval) : outcome jsval :=
  foldM prop a key.

Fixpoint compare_sorts (sorts : list Sort) (a b : jsval) : outcome Z :=
  match sorts with
  | [] => Val 0
  | s :: sorts' =>
      aVal ← reduce_key (sort_key s) a;
      bVal ← reduce_key (sort_key s) b;
      let multiplier := match sort_direction s with ASC => 1 | DESC => -1 end in
      if js_lt aVal bVal then Val (-1 * multiplier)
      else if js_lt bVal aVal then Val (1 * multiplier)
      else compare_sorts sorts' a b
  end.

Definition compareEntries (a b : SortableEntry) (sortFn : SortFn) : outcome Z :=
  compare_sorts (sort sortFn) (sortable_js a) (sortable_js b).

(** ** Facts *)

(** Both sort functions by clock go through the wall time and then the counter. *)
Lemma compare_clock_keys a b d :
  compare_sorts [new_Sort wallTime_key (Some (DirEnum d)); new_Sort logical_key (Some (DirEnum d))]
    (sortable_js a) (sortable_js b) =
  Val (match d with ASC => 1 | DESC => -1 end * Clock.compare (so_timestamp a) (so_timestamp b)).
Proof.
  unfold Clock.compare. simpl.
  destruct d; simpl; case_ifs; try done; try (f_equal; lia); exfalso; lia.
Qed.

Lemma string_ltb_irrefl s : String.ltb s s = false.
Proof.
  unfold String.ltb. destruct (String.compare s s) eqn:E; [done| |done].
  pose proof (String.compare_antisym s s) as Ha. rewrite E in Ha. done.
Qed.

Lemma string_ltb_trichotomy s t :
  String.ltb s t = false -> String.ltb t s = false -> s = t.
Proof.
  unfold String.ltb. rewrite (String.compare_antisym s t).
  destruct (String.compare t s) eqn:E; simpl; try done. intros _ _. symmetry. by apply String.compare_eq_iff.
Qed.

(** [compare] with [LastWriteWins] is the order of the timestamps (wall
    time, then the logical counter), with [FirstWriteWins] its reverse; and with
    [SortByEntryHash] two entries are level exactly when their hashes are
    equal.  No entry makes it throw. *)
Theorem compare_is_clock_order (a b : SortableEntry) :
  compareEntries a b LastWriteWins = Val (Clock.compare (so_timestamp a) (so_timestamp b)) /\
  compareEntries a b FirstWriteWins = Val (Clock.compare (so_timestamp b) (so_timestamp a)) /\
  exists c, compareEntries a b SortByEntryHash = Val c /\ (c = 0 <-> so_hash a = so_hash b).
Proof.
  unfold compareEntries. split; [|split].
  - etransitivity; [apply compare_clock_keys|]. f_equal. lia.
  - etransitivity; [apply compare_clock_keys|]. f_equal. rewrite (compare_antisym (so_timestamp a)). lia.
  - simpl. destruct (String.ltb (so_hash a) (so_hash b)) eqn:E1.
    + eexists. split; [done|]. split; [done|]. intros Hab. by rewrite Hab, string_ltb_irrefl in E1.
    + destruct (String.ltb (so_hash b) (so_hash a)) eqn:E2.
      * eexists. split; [done|]. split; [done|]. intros Hab. by rewrite Hab, string_ltb_irrefl in E2.
      * eexists. split; [done|]. split; [|done]. intros _. by apply string_ltb_trichotomy.
Qed.

Section BeforeAfter.
Context `{JsEnv}.

(** Evaluates one clock comparison of the in-memory index on an entry. *)
Lemma eval_wallTime fuel by_ cmp v x :
  matches_all by_ None (S fuel) [IntegerCompare wallTime_key cmp v] (sortable_js x) [] =
  Val (Query.compare (wallTime (so_timestamp x)) cmp (integer_value v)).
Proof. simpl. by destruct (Query.compare _ _ _). Qed.

Lemma eval_hash fuel by_ cmp v x :
  matches_all by_ None (S fuel) [IntegerCompare ["hash"%string] cmp v] (sortable_js x) [] = Val false.
Proof. done. Qed.

Lemma compare_wallTime_val key cmp e :
  0 <= wallTime (so_timestamp e) <= UINT64_MAX ->
  compare_wallTime key cmp e =
    Val [IntegerCompare key cmp (BigUnsignedIntegerValue (wallTime (so_timestamp e)))].
Proof. intros Hw. unfold compare_wallTime. rewrite new_IntegerCompare_u64 by done. done. Qed.

End BeforeAfter.

(** The queries [before] and [after] of [LastWriteWins], evaluated by the
    in-memory index, select the entries with a smaller and with a greater wall
    time.  They are therefore coarser than the order they accompany (finding):
    an entry with the same wall time and a smaller logical counter comes before
    in [compare] and is selected by neither query.  The queries of
    [SortByEntryHash] compare the hash, a string, with a wall time and select no
    entry at all (finding). *)
Theorem before_after_wallTime `{JsEnv} (e x : SortableEntry) (by_ : list string) (fuel : nat) :
  0 <= wallTime (so_timestamp e) <= UINT64_MAX ->
  let selects q x := (qs ← q e; matches_all by_ None (S fuel) qs (sortable_js x) []) in
  selects (before LastWriteWins) x = Val (wallTime (so_timestamp x) <? wallTime (so_timestamp e)) /\
  selects (after LastWriteWins) x = Val (wallTime (so_timestamp e) <? wallTime (so_timestamp x)) /\
  (selects (before LastWriteWins) x = Val true -> compareEntries x e LastWriteWins = Val (-1)) /\
  (wallTime (so_timestamp x) = wallTime (so_timestamp e) ->
   logical (so_timestamp x) < logical (so_timestamp e) ->
     compareEntries x e LastWriteWins = Val (-1) /\
     selects (before LastWriteWins) x = Val false /\ selects (after LastWriteWins) x = Val false) /\
  selects (before SortByEntryHash) x = Val false /\ selects (after SortByEntryHash) x = Val false.
Proof.
  intros Hw selects.
  assert (HL : forall cmp, (qs ← compare_wallTime wallTime_key cmp e;
      matches_all by_ None (S fuel) qs (sortable_js x) []) =
      Val (Query.compare (wallTime (so_timestamp x)) cmp (wallTime (so_timestamp e)))).
  { intros cmp. rewrite compare_wallTime_val by done. apply eval_wallTime. }
  assert (HH : forall cmp, (qs ← compare_wallTime ["hash"%string] cmp e;
      matches_all by_ None (S fuel) qs (sortable_js x) []) = Val false).
  { intros cmp. rewrite compare_wallTime_val by done. apply eval_hash. }
  assert (HC : compareEntries x e LastWriteWins = Val (Clock.compare (so_timestamp x) (so_timestamp e))).
  { etransitivity; [apply compare_clock_keys|]. f_equal. lia. }
  rewrite HC. unfold selects. cbn [before after LastWriteWins SortByEntryHash]. rewrite !HL, !HH. unfold Query.compare.
  split; [done|]. split; [done|]. split; [|split; [|done]].
  - intros Hx. injection Hx as Hx. f_equal. apply Timestamp_lt_spec. lia.
  - intros Hw' Hl. split; [|split]; f_equal; [|lia|lia]. apply Timestamp_lt_spec. lia.
Qed.
