(* ===== verification/EntryIndex.v ===== *)
(** * The entries of a log (packages/log/src/entry-index.ts, entry.ts)

    [EntryIndex] keeps the shallow entries of a log in an index, with their
    heads (entries no other entry follows), their number, a cache of full
    entries and the block store.  It is modelled over the in-memory index, with
    the queries the code builds.  One [put] or [delete] is a single step; the
    bookkeeping of concurrent insertions of one hash is left out. *)

From Stdlib Require Import ZArith Lia.
From stdpp Require Import base list strings.
From S2P Require Import Prelude JsMap Cache Clock JsVal Query IndexInterface SimpleIndex LogSorting.

Local Open Scope Z_scope.

(** The part of an [Entry] the log looks at. *)
Record Entry := MkEntry { en_hash : string; en_meta : Meta; en_payloadSize : Z }.

Definition toShallow (e : Entry) (isHead : bool) : ShallowEntry :=
  {| se_hash := en_hash e; se_payloadSize := en_payloadSize e; se_head := isHead;
     se_meta := new_ShallowMeta (en_meta e) |}.

Definition entry_type_value (t : EntryType) : Z := match t with APPEND => 0 | CUT => 1 end.

(** A shallow entry as the index reads it. *)
Definition shallow_js (e : ShallowEntry) : jsval :=
  JObj [("hash", JStr (se_hash e));
        ("meta", JObj [
           ("clock", JObj [("id", JBytes (lc_id (smeta_clock (se_meta e))));
              ("timestamp", JObj [("wallTime", JBig (wallTime (lc_timestamp (smeta_clock (se_meta e)))));
                                  ("logical", JNum (logical (lc_timestamp (smeta_clock (se_meta e)))))])]);
           ("gid", JStr (smeta_gid (se_meta e)));
           ("next", JArr (map JStr (smeta_next (se_meta e))));
           ("type", JNum (entry_type_value (smeta_type (se_meta e))));
           ("data", match smeta_data (se_meta e) with Some d => JBytes d | None => JUndef end)]);
        ("payloadSize", JNum (se_payloadSize e));
        ("head", JBool (se_head e))]%string.

Section EntryIndex.
Context {Q : Type} `{JsEnv, Document ShallowEntry, Queue Q string}.

Record EntryIndex := MkEntryIndex {
  ei_index : HashmapIndex ShallowEntry;
  ei_cache : Cache string Entry Q;
  ei_store : list (string * Entry);
  ei_length : Z;
  ei_sort : SortFn;
}.

Definition with_table (s : EntryIndex) (i : HashmapIndex ShallowEntry) : EntryIndex :=
  MkEntryIndex i (ei_cache s) (ei_store s) (ei_length s) (ei_sort s).

Definition with_cache (s : EntryIndex) (c : Cache string Entry Q) : EntryIndex :=
  MkEntryIndex (ei_index s) c (ei_store s) (ei_length s) (ei_sort s).

(** ** Queries *)

Definition exactly (key : list string) (value : string) : Query :=
  new_StringMatch (KPath key) value (Some exact_match) (Some false).

(** [this.iterate(query, sort).all()] without resolving. *)
Definition iterate_all (s : EntryIndex) (query : list Query) (sort : list Sort) : outcome (list ShallowEntry) :=
  '(results, _) ← it_all (simple_ops (ei_index s)) (iterate (MkIterateOptions (QLMany query) (Some sort)));
  Val (map ir_value results).

Definition getHeads (s : EntryIndex) (gid : option string) : outcome (list ShallowEntry) :=
  iterate_all s
    (new_BoolQuery "head"%string true ::
     match gid with
     | Some g => if bool_decide (g = ""%string) then [] else [exactly ["meta"; "gid"]%string g]
     | None => []
     end) (sort (ei_sort s)).

Definition getHasNext (s : EntryIndex) (next : string) : outcome (list ShallowEntry) :=
  iterate_all s [exactly ["meta"; "next"]%string next] (sort (ei_sort s)).

Definition countHasNext (s : EntryIndex) (next : string) (excludeHash : option string) : outcome nat :=
  count (ei_index s)
    (QLMany (exactly ["meta"; "next"]%string next ::
       match excludeHash with
       | Some h => if bool_decide (h = ""%string) then [] else [new_Not (exactly ["hash"%string] h)]
       | None => []
       end)).

(** ** Looking entries up *)

Definition getShallow (s : EntryIndex) (k : string) : option (IndexedResult ShallowEntry) :=
  SimpleIndex.get (ei_index s) (StringKey k).

(** [has]: the cache first, then the index. *)
Definition has (now : Z) (s : EntryIndex) (k : string) : outcome (bool * EntryIndex) :=
  '(mem, c) ← Cache.get now (ei_cache s) k;
  Val (match mem with
       | Some (Some _) => true
       | _ => match getShallow s k with Some _ => true | None => false end
       end, with_cache s c).

(** [resolve], the full entry: from the cache or from the store, then cached. *)
Definition resolve (now : Z) (s : EntryIndex) (k : string) (ignoreMissing : bool) : outcome (option Entry * EntryIndex) :=
  '(mem, c) ← Cache.get now (ei_cache s) k;
  match mem with
  | Some (Some e) => Val (Some e, with_cache s c)
  | Some None => Val (None, with_cache s c)
  | None =>
      match Map_get (ei_store s) k with
      | Some e =>
          let e := MkEntry k (en_meta e) (en_payloadSize e) in
          c' ← Cache.add now c k (Some e) 1; Val (Some e, with_cache s c')
      | None =>
          _ ← throw_if (negb ignoreMissing) "Failed to load entry from head with hash";
          c' ← Cache.add now c k None 1; Val (None, with_cache s c')
      end
  end.

(** ** Heads *)

(** [privateUpdateNextHeadProperty]: one of the entries that [from] follows. *)
Definition update_next (isHead : bool) (s : EntryIndex) (next : string) : outcome EntryIndex :=
  match getShallow s next with
  | None => Val s
  | Some indexedEntry =>
      let e := ir_value indexedEntry in
      let with_head b := MkShallowEntry (se_hash e) (se_meta e) (se_payloadSize e) b in
      if isHead then
        n ← countHasNext s next None;
        if (n =? 0)%nat then i ← SimpleIndex.put (ei_index s) (with_head true) None; Val (with_table s i)
        else Val s
      else i ← SimpleIndex.put (ei_index s) (with_head false) None; Val (with_table s i)
  end.

Definition privateUpdateNextHeadProperty (s : EntryIndex) (from : ShallowMeta) (isHead : bool) : outcome EntryIndex :=
  match smeta_type from with
  | CUT => Val s
  | APPEND => foldM (update_next isHead) s (smeta_next from)
  end.

(** ** Putting and deleting *)

(** The gids whose last follower is [entry], which has another gid. *)
Definition shadowed_step (entry : Entry) (s : EntryIndex) (gids : list string) (next : ShallowEntry) : outcome (list string) :=
  nexts ← countHasNext s (se_hash next) (Some (en_hash entry));
  Val (if (0 <? nexts)%nat then gids else Set_add gids (smeta_gid (se_meta next))).

Definition shadowed_gids (s : EntryIndex) (entry : Entry) : outcome (list string) :=
  match meta_next (en_meta entry) with
  | [] => Val []
  | nexts =>
      o ← new_Or (map (exactly ["hash"%string]) nexts);
      others ← iterate_all s [o; new_Not (new_StringMatch (KPath ["meta"; "gid"]%string) (meta_gid (en_meta entry)) None None)]
                 (sort (ei_sort s));
      foldM (shadowed_step entry s) [] others
  end.

(** The entry [put] works on, and the store: [computed] is the hash of the
    contents, which [Entry.toMultihash] computes after storing them. *)
Definition put_hash (computed : string) (s : EntryIndex) (existingHash : option string) (meta : Meta) (payloadSize : Z)
    (toMultiHash : bool) : outcome (Entry * EntryIndex) :=
  if toMultiHash then
    let stored := MkEntryIndex (ei_index s) (ei_cache s)
                    (Map_set (ei_store s) computed (MkEntry computed meta payloadSize)) (ei_length s) (ei_sort s) in
    let entry_hash := existingHash in
    match entry_hash with
    | None => Val (MkEntry computed meta payloadSize, stored)
    | Some hash =>
        _ ← throw_if (negb (bool_decide (existingHash = entry_hash))) "Head hash didn't match the contents";
        Val (MkEntry hash meta payloadSize, stored)
    end
  else match existingHash with
       | Some hash => _ ← throw_if (bool_decide (hash = ""%string)) "Missing hash"; Val (MkEntry hash meta payloadSize, s)
       | None => Exn "Missing hash"
       end.

(** The result is [onGidRemoved]'s argument and the new state. *)
Definition put (computed : string) (now : Z) (s : EntryIndex) (existingHash : option string) (meta : Meta) (payloadSize : Z)
    (unique isHead toMultiHash : bool) : outcome (list string * EntryIndex) :=
  '(entry, s0) ← put_hash computed s existingHash meta payloadSize toMultiHash;
  '(isNew, s1) ← (if unique then Val (true, s0) else '(b, s1) ← has now s0 (en_hash entry); Val (negb b, s1));
  c ← Cache.add now (ei_cache s1) (en_hash entry) (Some entry) 1;
  i ← SimpleIndex.put (ei_index s1) (toShallow entry isHead) None;
  let s2 := MkEntryIndex i c (ei_store s1) (if isNew : bool then ei_length s1 + 1 else ei_length s1) (ei_sort s1) in
  gids ← shadowed_gids s2 entry;
  s3 ← privateUpdateNextHeadProperty s2 (new_ShallowMeta (en_meta entry)) false;
  Val (gids, s3).

Definition delete (s : EntryIndex) (k : string) (from : option ShallowEntry) : outcome (option ShallowEntry * EntryIndex) :=
  let s1 := with_cache s (Cache.del (ei_cache s) k).2 in
  _ ← throw_if (match from with Some f => negb (bool_decide (se_hash f = k)) | None => false end)
        "Shallow hash doesn't match the key";
  match (match from with Some f => Some f | None => ir_value <$> getShallow s1 k end) with
  | None => Val (None, s1)
  | Some from =>
      '(deleted, i) ← SimpleIndex.del (ei_index s1) (QLRecord (JObj [("hash"%string, JStr k)]));
      let s2 := MkEntryIndex i (ei_cache s1) (Map_delete (ei_store s1) k) (ei_length s1) (ei_sort s1) in
      match deleted with
      | [] => Val (None, s2)
      | _ =>
          let s3 := MkEntryIndex i (ei_cache s2) (ei_store s2) (ei_length s2 - Z.of_nat (length deleted)) (ei_sort s2) in
          s4 ← privateUpdateNextHeadProperty s3 (se_meta from) true;
          Val (Some from, s4)
      end
  end.

(** [length] after [init]. *)
Definition init_length (s : EntryIndex) : EntryIndex :=
  MkEntryIndex (ei_index s) (ei_cache s) (ei_store s) (Z.of_nat (getSize (ei_index s))) (ei_sort s).

(** ** Neighbours in the log order *)

Definition sortReversed (s : EntryIndex) : list Sort :=
  map (fun x => MkSort (sort_key x) (match sort_direction x with DESC => ASC | ASC => DESC end)) (sort (ei_sort s)).

Definition first_of (s : EntryIndex) (query : list Query) (sort : list Sort) : outcome (option ShallowEntry) :=
  '(results, _) ← it_next (simple_ops (ei_index s)) 1 (iterate (MkIterateOptions (QLMany query) (Some sort)));
  Val (ir_value <$> head results).

Definition getOldest (s : EntryIndex) : outcome (option ShallowEntry) := first_of s [] (sort (ei_sort s)).
Definition getNewest (s : EntryIndex) : outcome (option ShallowEntry) := first_of s [] (sortReversed s).

Definition sortable (e : ShallowEntry) : SortableEntry :=
  MkSortable (lc_timestamp (smeta_clock (se_meta e))) (smeta_gid (se_meta e)) (se_hash e).

Definition getBefore (s : EntryIndex) (e : ShallowEntry) : outcome (option ShallowEntry) :=
  q ← before (ei_sort s) (sortable e); first_of s q (sortReversed s).
Definition getAfter (s : EntryIndex) (e : ShallowEntry) : outcome (option ShallowEntry) :=
  q ← after (ei_sort s) (sortable e); first_of s q (sort (ei_sort s)).

End EntryIndex.
