(* ===== verification/EntryIndexFacts.v ===== *)
(** * Heads are kept exact

    On an in-memory index of entries, a log without cut entries: after every
    [put] of a new entry and every [delete], an entry is marked as a head
    exactly when no stored_at entry follows it, and [length] is the number of
    entries. *)

From Stdlib Require Import ZArith Lia.
From stdpp Require Import base list strings.
From S2P Require Import Prelude JsMap Cache Clock JsVal Query IndexInterface SimpleIndex SimpleIndexFacts LogSorting EntryIndex.

Local Open Scope Z_scope.

(** The documents of the index are shallow entries as borsh describes them. *)
Class ShallowDocument `{Document ShallowEntry} : Prop := {
  shallow_to_js e : to_js e = shallow_js e
}.

Section Evaluate.
Context `{JsEnv} (by_ : list string).

(** A query on one scalar of an entry. *)
Definition decides (q : Query) (p : ShallowEntry -> bool) : Prop :=
  forall e fuel ih, handleQueryObject by_ None (S (S fuel)) q (shallow_js e) ih 0 = Val (Some (p e), ih).

Lemma decides_hash h : decides (exactly ["hash"%string] h) (fun e => bool_decide (se_hash e = h)).
Proof. intros e fuel ih. reflexivity. Qed.

Lemma decides_gid g : decides (exactly ["meta"; "gid"]%string g) (fun e => bool_decide (smeta_gid (se_meta e) = g)).
Proof. intros e fuel ih. reflexivity. Qed.

Lemma decides_head : decides (new_BoolQuery "head"%string true) se_head.
Proof. intros e fuel ih. cbn. by destruct (se_head e). Qed.

Lemma decides_not q p : decides q p -> decides (new_Not q) (fun e => negb (p e)).
Proof. intros Hq e fuel ih. cbn [new_Not handleQueryObject]. by rewrite Hq. Qed.

Lemma decides_or qs ps :
  Forall2 decides qs ps -> decides (Or qs) (fun e => existsb (fun p => p e) ps).
Proof.
  intros Hqs e fuel ih. cbn [handleQueryObject]. induction Hqs as [|q p qs ps Hq _ IH]; [done|].
  rewrite Hq. cbn [mbind outcome_bind existsb]. by destruct (p e).
Qed.

(** The query on the entries an entry follows; it leaves inner hits behind. *)
Definition follows (next : string) (e : ShallowEntry) : bool := bool_decide (next ∈ smeta_next (se_meta e)).

Lemma collect_hits_strings fuel key v l hits ih :
  collect_hits (handleFieldQuery by_ None (S fuel) (exactly key v)) (map JStr l) (length key) hits ih =
    Val (hits ++ map JStr (List.filter (fun s => bool_decide (s = v)) l), ih).
Proof.
  revert hits. induction l as [|s l IH]; intros hits; [by rewrite app_nil_r|].
  cbn [map collect_hits].
  assert (E : handleFieldQuery by_ None (S fuel) (exactly key v) (JStr s) (length key) ih =
    Val (Some (bool_decide (s = v)), ih)).
  { unfold exactly, new_StringMatch. simpl. by rewrite drop_all. }
  rewrite E. cbn [mbind outcome_bind]. rewrite IH. simpl. destruct (bool_decide (s = v)); simpl; [|done].
  by rewrite <- app_assoc.
Qed.

Lemma has_next_evaluates e fuel next :
  exists ih, handleQueryObject by_ None (S (S fuel)) (exactly ["meta"; "next"]%string next) (shallow_js e) [] 0 =
    Val (Some (follows next e), ih).
Proof.
  assert (E0 : handleQueryObject by_ None (S (S fuel)) (exactly ["meta"; "next"]%string next) (shallow_js e) [] 0 =
    ('(hits, ih) ← collect_hits (handleFieldQuery by_ None (S fuel) (exactly ["meta"; "next"]%string next))
       (map JStr (smeta_next (se_meta e))) 2 [] [];
     match hits with
     | [] => Val (Some false, Map_set ih "meta.next"%string None)
     | _ => Val (Some true, Map_set ih "meta.next"%string (Some hits))
     end)) by reflexivity.
  rewrite E0, (collect_hits_strings fuel ["meta"; "next"]%string). cbn [mbind outcome_bind app].
  unfold follows. destruct (List.filter _ _) as [|s l] eqn:E.
  - eexists. simpl. do 3 f_equal. symmetry. apply bool_decide_false. intros Hin.
    assert (Hbad : next ∈ List.filter (fun s => bool_decide (s = next)) (smeta_next (se_meta e))).
    { apply list_elem_of_In, filter_In. split; [by apply list_elem_of_In|by apply bool_decide_true]. }
    rewrite E in Hbad. by apply not_elem_of_nil in Hbad.
  - eexists. simpl. do 3 f_equal. symmetry. apply bool_decide_true.
    assert (Hs : s ∈ List.filter (fun s => bool_decide (s = next)) (smeta_next (se_meta e))) by (rewrite E; by left).
    apply list_elem_of_In, filter_In in Hs as [Hs ->%bool_decide_eq_true]. by apply list_elem_of_In.
Qed.

End Evaluate.

Section Table.
Context `{JsEnv, Document ShallowEntry, !DocumentLaws ShallowEntry, !ShallowDocument}.
Implicit Types (T : HashmapIndex ShallowEntry) (e : ShallowEntry).

(** The index of a log: entries under their hash. *)
Record table_ok T : Prop := {
  table_wf : Map_wf (hm_index T);
  table_flat : hm_nested T = None;
  table_by : hm_indexByArr T = ["hash"%string];
  table_ids p r : (p, r) ∈ hm_index T -> p = PStr (se_hash (ir_value r)) /\ ir_id r = StringKey (se_hash (ir_value r));
}.

Definition entries T : list ShallowEntry := map ir_value (Map_values (hm_index T)).
Definition stored_at T (h : string) : option ShallowEntry := ir_value <$> Map_get (hm_index T) (PStr h).

(** Some stored_at entry follows the one with this hash. *)
Definition followed T (h : string) : bool := existsb (follows h) (entries T).

Lemma stored_entry T e : table_ok T -> e ∈ entries T <-> stored_at T (se_hash e) = Some e.
Proof.
  intros HT. unfold entries, stored_at, Map_values. rewrite map_map, list_elem_of_fmap. split.
  - intros ([p r] & -> & Hin). destruct (table_ids T HT p r Hin) as [Hp _]. simpl in *. subst p.
    by rewrite (Map_elem_get _ _ _ (table_wf T HT) Hin).
  - destruct (Map_get _ _) as [r|] eqn:E; [|done]. intros [= <-]. apply Map_get_Some_elem in E. by exists (PStr (se_hash (ir_value r)), r).
Qed.

Lemma stored_hash T h e : table_ok T -> stored_at T h = Some e -> se_hash e = h.
Proof.
  intros HT. unfold stored_at. destruct (Map_get _ _) as [r|] eqn:E; [|done]. intros [= <-].
  apply Map_get_Some_elem, (table_ids T HT) in E as [[= ->] _]. done.
Qed.

Lemma stored_in T h e : table_ok T -> stored_at T h = Some e -> e ∈ entries T.
Proof. intros HT Hs. apply stored_entry; [done|]. by rewrite (stored_hash T h e HT Hs). Qed.

(** ** Putting into and deleting from the table *)

Definition set_entry T e : HashmapIndex ShallowEntry :=
  with_index T (Map_set (hm_index T) (PStr (se_hash e)) (MkIndexedResult (StringKey (se_hash e)) e)).

Lemma put_table T e : table_ok T -> SimpleIndex.put T e None = Val (set_entry T e).
Proof. intros HT. unfold SimpleIndex.put. rewrite shallow_to_js, (table_by T HT). reflexivity. Qed.

Lemma set_entry_ok T e : table_ok T -> table_ok (set_entry T e).
Proof.
  intros [Hw Hf Hb Hi]. split; [by apply Map_set_wf|done|done|]. intros p r [[= -> ->]|[Hin _]]%Map_set_elem; [done| |done].
  by apply Hi.
Qed.

Lemma stored_set T e h : stored_at (set_entry T e) h = if decide (se_hash e = h) then Some e else stored_at T h.
Proof.
  unfold stored_at. simpl. rewrite Map_get_set. destruct (decide (se_hash e = h)) as [->|Hne]; [by rewrite decide_True|].
  by rewrite decide_False by congruence.
Qed.

Definition del_entry T (k : string) : HashmapIndex ShallowEntry := with_index T (Map_delete (hm_index T) (PStr k)).

Lemma del_entry_ok T k : table_ok T -> table_ok (del_entry T k).
Proof.
  intros [Hw Hf Hb Hi]. split; [by apply Map_delete_wf|done|done|]. intros p r [Hin _]%Map_delete_elem. by apply Hi.
Qed.

Lemma stored_del T k h : stored_at (del_entry T k) h = if decide (k = h) then None else stored_at T h.
Proof.
  unfold stored_at. simpl. rewrite Map_get_delete. destruct (decide (k = h)) as [->|Hne]; [by rewrite decide_True|].
  by rewrite decide_False by congruence.
Qed.

Lemma del_table T k :
  table_ok T ->
  SimpleIndex.del T (QLRecord (JObj [("hash"%string, JStr k)])) =
    Val (match stored_at T k with Some _ => ([StringKey k], del_entry T k) | None => ([], T) end).
Proof.
  intros HT.
  assert (E : toQuery (QLRecord (JObj [("hash"%string, JStr k)])) = Val [StringMatch ["hash"%string] k exact_match false]) by reflexivity.
  unfold SimpleIndex.del, queryAll. rewrite E. cbn [mbind outcome_bind].
  assert (El : id_lookup T [StringMatch ["hash"%string] k exact_match false] = Some (option_list (Map_get (hm_index T) (PStr k)))).
  { unfold id_lookup. rewrite (table_by T HT). by rewrite (proj2 (stringArraysEquals_spec _ _) eq_refl). }
  rewrite El. cbn [mbind outcome_bind]. unfold stored_at.
  destruct (Map_get (hm_index T) (PStr k)) as [r|] eqn:Er; [|done].
  pose proof (table_ids T HT _ _ (Map_get_Some_elem _ _ _ Er)) as [[= Hk] Hid]. rewrite <- Hk in Hid.
  assert (Es : del_step (T, []) r = (del_entry T k, [StringKey k])).
  { unfold del_step, Map_has. rewrite Hid. cbn [primitive]. by rewrite Er. }
  change (fold_left del_step (option_list (Some r)) (T, [])) with (del_step (T, []) r). by rewrite Es.
Qed.

(** ** Queries *)

(** The entries a list of queries selects. *)
Definition selects T (qs : list Query) (p : ShallowEntry -> bool) : Prop :=
  id_lookup T qs = None /\
  forall e fuel, matches_all (hm_indexByArr T) None (S (S fuel)) qs (shallow_js e) [] = Val (p e).

Lemma queryAll_selects T qs p :
  table_ok T -> selects T qs p ->
  queryAll T (QLMany qs) = Val (List.filter (fun r => p (ir_value r)) (Map_values (hm_index T))).
Proof.
  intros HT [Hid Hp]. unfold queryAll, toQuery. cbn [mbind outcome_bind]. rewrite Hid. unfold _queryDocuments.
  apply filterM_out_val. intros r _. rewrite (table_flat T HT), shallow_to_js.
  change (js_depth (shallow_js (ir_value r))) with (S (Nat.pred (js_depth (shallow_js (ir_value r))))). apply Hp.
Qed.

Lemma map_filter_value T (p : ShallowEntry -> bool) :
  map ir_value (List.filter (fun r => p (ir_value r)) (Map_values (hm_index T))) = List.filter p (entries T).
Proof.
  unfold entries. generalize (Map_values (hm_index T)). intros l. induction l as [|r l IH]; [done|]. simpl.
  destruct (p (ir_value r)); simpl; by rewrite IH.
Qed.

Lemma matches_scalars by_ qs ps e fuel ih :
  Forall2 (decides by_) qs ps ->
  matches_all by_ None (S (S fuel)) qs (shallow_js e) ih = Val (forallb (fun p => p e) ps).
Proof.
  intros Hqs. revert ih. induction Hqs as [|q p qs ps Hq _ IH]; intros ih; [done|]. cbn [matches_all forallb].
  rewrite Hq. cbn [mbind outcome_bind]. destruct (p e); [apply IH|done].
Qed.

(** A query on followers, and scalars. *)
Lemma selects_next T next qs ps :
  Forall2 (decides (hm_indexByArr T)) qs ps -> table_ok T ->
  selects T (exactly ["meta"; "next"]%string next :: qs) (fun e => follows next e && forallb (fun p => p e) ps).
Proof.
  intros Hqs HT. split.
  - unfold id_lookup. cbn [exactly new_StringMatch key_path default]. rewrite (table_by T HT). by destruct qs.
  - intros e fuel. destruct (has_next_evaluates (hm_indexByArr T) e fuel next) as (ih & E).
    cbn [matches_all]. rewrite E. cbn [mbind outcome_bind]. destruct (follows next e); [|done].
    by apply matches_scalars.
Qed.

Lemma countHasNext_val {Q} `{Queue Q string} (s : EntryIndex (Q := Q)) next :
  table_ok (ei_index s) -> countHasNext s next None = Val (length (List.filter (follows next) (entries (ei_index s)))).
Proof.
  intros HT. unfold countHasNext, count.
  rewrite (queryAll_selects _ _ (fun e => follows next e && forallb (fun p => p e) []) HT)
    by (apply selects_next; [constructor|done]).
  cbn [mbind outcome_bind forallb]. rewrite <- map_filter_value, length_map. do 2 f_equal.
  apply List.filter_ext. intros r. by rewrite andb_true_r.
Qed.

(** Iterating in the log's order. *)
Definition sorts_total (sorts : list Sort) : Prop :=
  forall a b, exists z, extractSortCompare (shallow_js a) (shallow_js b) sorts None = Val z.

Lemma readable_total sorts :
  Forall (fun x => forall e, exists v, extractFieldValue (shallow_js e) (sort_key x) None = Val v) sorts -> sorts_total sorts.
Proof.
  intros Hs a b. induction Hs as [|x sorts Hx _ (z & Hz)]; [by exists 0|]. cbn [extractSortCompare].
  destruct (Hx a) as (va & ->), (Hx b) as (vb & ->). cbn [mbind outcome_bind]. destruct (negb _); by eexists.
Qed.

Lemma iterate_all_val {Q} `{Queue Q string} (s : EntryIndex (Q := Q)) qs p sorts :
  table_ok (ei_index s) -> selects (ei_index s) qs p -> sorts_total sorts ->
  exists l, iterate_all s qs sorts = Val l /\ l ≡ₚ List.filter p (entries (ei_index s)).
Proof.
  intros HT Hp Hs. unfold iterate_all. cbn [simple_ops it_all]. unfold fetch.
  cbn [iterate st_queue st_done not_done st_options opt_query opt_sort].
  rewrite (queryAll_selects _ _ p HT Hp). cbn [mbind outcome_bind].
  set (docs := List.filter _ _).
  assert (Hsort : exists l, sort_documents docs (Some sorts) = Val l /\ l ≡ₚ docs).
  { unfold sort_documents. destruct (1 <? length docs)%nat; [|by exists docs]. destruct sorts as [|x sorts]; [by exists docs|].
    set (c := fun a b : IndexedResult ShallowEntry =>
      match extractSortCompare (to_js (ir_value a)) (to_js (ir_value b)) (x :: sorts) None with Val z => z | _ => 0 end).
    rewrite (sortM_val _ c); [eexists; split; [done|apply js_sort_perm]|]. intros a b _ _. unfold c.
    rewrite !shallow_to_js. by destruct (Hs (ir_value a) (ir_value b)) as (z & ->). }
  destruct Hsort as (l & -> & Hl). cbn [mbind outcome_bind].
  assert (Hperm : map ir_value l ≡ₚ List.filter p (entries (ei_index s))).
  { rewrite Hl. subst docs. by rewrite map_filter_value. }
  destruct l as [|r l]; cbn [mbind outcome_bind st_queue]; [by eexists|].
  rewrite getBatch_all, cloneResults_id. cbn [mbind outcome_bind]. by eexists.
Qed.

(** ** Heads *)

Definition set_head (b : bool) e : ShallowEntry := MkShallowEntry (se_hash e) (se_meta e) (se_payloadSize e) b.

Definition heads_exact T : Prop := forall h e, stored_at T h = Some e -> se_head e = negb (followed T h).

(** The same but for entries in [P] that are not marked as heads yet. *)
Definition heads_upto (P : string -> Prop) T : Prop :=
  forall h e, stored_at T h = Some e -> se_head e = negb (followed T h) \/ P h /\ se_head e = false.

Lemma heads_upto_exact (P : string -> Prop) T :
  (forall h, P h -> is_Some (stored_at T h) -> followed T h = true) -> heads_upto P T -> heads_exact T.
Proof. intros HP Hh h e Hs. destruct (Hh h e Hs) as [|[Hp ->]]; [done|]. by rewrite HP. Qed.

(** What is stored, whatever the marks. *)
Definition meta_of T (h : string) : option ShallowMeta := se_meta <$> stored_at T h.

Lemma meta_stored T h : is_Some (meta_of T h) <-> is_Some (stored_at T h).
Proof. unfold meta_of. apply fmap_is_Some. Qed.

Lemma followed_spec T h :
  table_ok T -> followed T h = true <-> exists k e, stored_at T k = Some e /\ h ∈ smeta_next (se_meta e).
Proof.
  intros HT. unfold followed. rewrite existsb_exists. split.
  - intros (e & Hin%list_elem_of_In & Hf%bool_decide_eq_true). exists (se_hash e), e. by split; [apply stored_entry|].
  - intros (k & e & Hs & Hf). exists e. split; [by apply list_elem_of_In, (stored_in T k)|by apply bool_decide_true].
Qed.

(** Tables with the same entries up to heads. *)
Definition same_but_heads T T' : Prop :=
  forall h, smeta_next ∘ se_meta <$> stored_at T' h = (smeta_next ∘ se_meta <$> stored_at T h : option (list string)).

Lemma followed_same T T' h : table_ok T -> table_ok T' -> same_but_heads T T' -> followed T' h = followed T h.
Proof.
  intros HT HT' Hsame. apply eq_true_iff_eq. rewrite !followed_spec by done.
  split; intros (k & e & Hs & Hh); specialize (Hsame k); rewrite Hs in Hsame; simpl in Hsame.
  - destruct (stored_at T k) as [e'|] eqn:E; [|done]. exists k, e'. split; [done|]. simpl in Hsame. unfold compose in Hsame. by injection Hsame as <-.
  - destruct (stored_at T' k) as [e'|] eqn:E; [|done]. exists k, e'. split; [done|]. simpl in Hsame. unfold compose in Hsame. by injection Hsame as ->.
Qed.

Lemma count_zero T h : (length (List.filter (follows h) (entries T)) =? 0)%nat = negb (followed T h).
Proof.
  unfold followed. induction (entries T) as [|e l IH]; [done|]. simpl. by destruct (follows h e).
Qed.

Lemma Map_set_length {V} (m : list (IdPrimitive * V)) k v :
  length (Map_set m k v) = match Map_get m k with Some _ => length m | None => S (length m) end.
Proof.
  induction m as [|[k' v'] m IH]; [done|]. simpl. destruct (decide (k' = k)); simpl; [done|]. rewrite IH.
  by destruct (Map_get m k).
Qed.

(** What the head updates do to a table. *)
Record updated (b : bool) (nexts : list string) T T' : Prop := {
  upd_ok : table_ok T';
  upd_length : length (hm_index T') = length (hm_index T);
  upd_stored h : stored_at T' h =
    if decide (h ∈ nexts /\ (b = true -> followed T h = false)) then set_head b <$> stored_at T h else stored_at T h;
}.

Lemma updated_same b nexts T T' : updated b nexts T T' -> same_but_heads T T'.
Proof. intros Hu h. rewrite (upd_stored _ _ _ _ Hu). case_decide; [|done]. by destruct (stored_at T h). Qed.

Section Updates.
Context {Q : Type} `{Queue Q string}.
Implicit Types s : EntryIndex (Q := Q).

Lemma getShallow_stored s k :
  getShallow s k = (fun e => MkIndexedResult (StringKey k) e) <$> stored_at (ei_index s) k.
Proof. unfold getShallow, SimpleIndex.get, stored_at. cbn [primitive]. by destruct (Map_get _ _). Qed.

Lemma update_next_ok b s next :
  table_ok (ei_index s) ->
  exists T', update_next b s next = Val (with_table s T') /\ updated b [next] (ei_index s) T'.
Proof.
  intros HT. unfold update_next. rewrite getShallow_stored. set (T := ei_index s) in *.
  destruct (stored_at T next) as [e|] eqn:E; cbn [fmap option_fmap option_map].
  2: { exists T. split; [by destruct s|]. split; [done|done|]. intros h. case_decide as Hd; [|done].
       destruct Hd as [->%list_elem_of_singleton _]. by rewrite E. }
  cbn [ir_value]. pose proof (stored_hash T next e HT E) as Hh.
  assert (Hset : forall b', updated b' [next] T (set_entry T (set_head b' e)) \/ (b' = true /\ followed T next = true)).
  { intros b'. destruct (decide (b' = true /\ followed T next = true)) as [|Hn]; [by right|left]. split.
    - by apply set_entry_ok.
    - simpl. rewrite Map_set_length, Hh. unfold stored_at in E. by destruct (Map_get (hm_index T) (PStr next)).
    - intros h. rewrite stored_set. cbn [set_head se_hash]. rewrite Hh. destruct (decide (next = h)) as [<-|Hne].
      + rewrite decide_True, E; [done|]. split; [by left|]. intros ->. destruct (followed T next); [tauto|done].
      + rewrite decide_False; [done|]. intros [->%list_elem_of_singleton _]. done. }
  assert (Hput : forall b', SimpleIndex.put T (set_head b' e) None = Val (set_entry T (set_head b' e))) by (intros; by apply put_table).
  destruct b.
  - rewrite (countHasNext_val s next HT). cbn [mbind outcome_bind]. fold T. rewrite count_zero.
    destruct (followed T next) eqn:Ef; cbn [negb].
    + exists T. split; [by destruct s|]. split; [done|done|]. intros h. case_decide as Hd; [|done].
      destruct Hd as [->%list_elem_of_singleton Hd]. by rewrite Ef in Hd; specialize (Hd eq_refl).
    + unfold set_head in Hput. rewrite (Hput true). cbn [mbind outcome_bind]. eexists. split; [done|].
      destruct (Hset true) as [|[_ ?]]; [done|congruence].
  - unfold set_head in Hput. rewrite (Hput false). cbn [mbind outcome_bind]. eexists. split; [done|].
    by destruct (Hset false) as [|[? _]].
Qed.

Lemma update_all_ok b s nexts :
  table_ok (ei_index s) ->
  exists T', foldM (update_next b) s nexts = Val (with_table s T') /\ updated b nexts (ei_index s) T'.
Proof.
  revert s. induction nexts as [|next nexts IH]; intros s HT; cbn [foldM].
  { exists (ei_index s). split; [by destruct s|]. split; [done|done|]. intros h.
    rewrite decide_False; [done|]. by intros [?%not_elem_of_nil _]. }
  destruct (update_next_ok b s next HT) as (T1 & -> & Hu1). cbn [mbind outcome_bind].
  destruct (IH (with_table s T1) (upd_ok _ _ _ _ Hu1)) as (T2 & -> & Hu2). cbn [with_table ei_index] in Hu2.
  exists T2. split; [done|]. split; [apply Hu2| |].
  - rewrite (upd_length _ _ _ _ Hu2). apply Hu1.
  - intros h. pose proof (upd_ok _ _ _ _ Hu1) as HT1.
    rewrite (upd_stored _ _ _ _ Hu2), (upd_stored _ _ _ _ Hu1).
    rewrite (followed_same (ei_index s) T1 h HT HT1 (updated_same _ _ _ _ Hu1)).
    pose proof (elem_of_cons nexts h next) as Hcons. pose proof (list_elem_of_singleton h next) as Hone.
    set (P := b = true -> followed (ei_index s) h = false).
    destruct (decide (h ∈ nexts /\ P)), (decide (h ∈ [next] /\ P)), (decide (h ∈ next :: nexts /\ P));
      try done; try (exfalso; tauto); by destruct (stored_at (ei_index s) h).
Qed.

(** ** The invariant of an entry index *)

Record index_wf s : Prop := {
  io_table : table_ok (ei_index s);
  io_length : ei_length s = Z.of_nat (length (hm_index (ei_index s)));
  io_cache : Inv (ei_cache s);
  io_sort : sorts_total (sort (ei_sort s));
}.

Definition index_ok s : Prop := index_wf s /\ heads_exact (ei_index s).

Lemma decides_all_next by_ nexts :
  decides by_ (Or (map (exactly ["hash"%string]) nexts)) (fun e => bool_decide (se_hash e ∈ nexts)).
Proof.
  intros e fuel ih.
  assert (Hq : Forall2 (decides by_) (map (exactly ["hash"%string]) nexts) (map (fun h e => bool_decide (se_hash e = h)) nexts)).
  { induction nexts as [|h nexts IH]; cbn [map]; constructor; [apply decides_hash|exact IH]. }
  rewrite (decides_or by_ _ _ Hq). do 3 f_equal. clear. induction nexts as [|h nexts IH]; [done|].
  cbn [map existsb]. rewrite IH. apply eq_true_iff_eq. rewrite orb_true_iff, !bool_decide_eq_true, elem_of_cons. done.
Qed.

Lemma count_excluding s next h :
  table_ok (ei_index s) -> h <> ""%string ->
  exists n, countHasNext s next (Some h) = Val n /\
    (0 < n <-> exists e, e ∈ entries (ei_index s) /\ follows next e = true /\ se_hash e <> h)%nat.
Proof.
  intros HT Hh. unfold countHasNext, count. rewrite bool_decide_false by done.
  set (P := fun e => follows next e && forallb (fun p => p e) [fun e => negb (bool_decide (se_hash e = h))]).
  rewrite (queryAll_selects _ _ P HT)
    by (apply selects_next; [constructor; [apply decides_not, decides_hash|constructor]|done]).
  cbn [mbind outcome_bind]. eexists. split; [done|].
  rewrite <- (length_map ir_value), (map_filter_value (ei_index s) P). set (l := List.filter _ _).
  assert (Hl : forall e, e ∈ l <-> e ∈ entries (ei_index s) /\ follows next e = true /\ se_hash e <> h).
  { intros e. subst l. rewrite list_elem_of_In, filter_In, <- list_elem_of_In. unfold P. cbn [forallb].
    rewrite andb_true_r, andb_true_iff, negb_true_iff, bool_decide_eq_false. done. }
  clearbody l. split.
  - intros Hpos. destruct l as [|e l]; [simpl in Hpos; lia|]. exists e. apply Hl. by left.
  - intros (e & He%Hl). destruct l; [by apply not_elem_of_nil in He|simpl; lia].
Qed.

Lemma shadowed_fold (entry : Entry) s others acc :
  table_ok (ei_index s) -> en_hash entry <> ""%string ->
  exists gids, foldM (shadowed_step entry s) acc others = Val gids /\
    forall g, g ∈ gids <-> g ∈ acc \/ exists e, e ∈ others /\ smeta_gid (se_meta e) = g /\
      forall e', e' ∈ entries (ei_index s) -> follows (se_hash e) e' = true -> se_hash e' = en_hash entry.
Proof.
  intros HT Hh. revert acc. induction others as [|e others IH]; intros acc; cbn [foldM].
  { exists acc. split; [done|]. intros g. split; [by left|]. intros [?|(? & ?%not_elem_of_nil & _)]; done. }
  destruct (count_excluding s (se_hash e) (en_hash entry) HT Hh) as (n & En & Hn).
  assert (Estep : shadowed_step entry s acc e = Val (if (0 <? n)%nat then acc else Set_add acc (smeta_gid (se_meta e))))
    by (unfold shadowed_step; by rewrite En).
  rewrite Estep. cbn [mbind outcome_bind]. destruct (IH (if (0 <? n)%nat then acc else Set_add acc (smeta_gid (se_meta e)))) as (gids & -> & Hg).
  exists gids. split; [done|]. intros g. rewrite Hg.
  assert (Hfree : (0 <? n)%nat = false <-> forall e', e' ∈ entries (ei_index s) -> follows (se_hash e) e' = true -> se_hash e' = en_hash entry).
  { rewrite Nat.ltb_ge. split.
    - intros Hle e' Hin Hf. destruct (decide (se_hash e' = en_hash entry)) as [|Hne]; [done|].
      assert (0 < n)%nat by (apply Hn; by exists e'). lia.
    - intros Hall. destruct (decide (0 < n)%nat) as [Hpos|]; [|lia]. apply Hn in Hpos as (e' & Hin & Hf & Hne).
      by specialize (Hall e' Hin Hf). }
  destruct (0 <? n)%nat.
  - split; [intros [?|(e' & ? & ?)]; [by left|right; exists e'; by split; [right|]]|].
    intros [?|(e' & [->|Hin]%elem_of_cons & Hge & Hall)]; [by left| |right; by exists e'].
    apply Hfree in Hall. done.
  - rewrite Set_add_elem. split.
    + intros [[->|?]|(e' & ? & ?)]; [right; exists e; split_and!; [by left|done|by apply Hfree]|by left|right; exists e'; by split; [right|]].
    + intros [?|(e' & [->|Hin]%elem_of_cons & <- & Hall)]; [by left; right|by left; left|right; by exists e'].
Qed.

(** The gids that lose their last follower-free entry. *)
Lemma shadowed_gids_ok (entry : Entry) s :
  table_ok (ei_index s) -> sorts_total (sort (ei_sort s)) -> en_hash entry <> ""%string ->
  exists gids, shadowed_gids s entry = Val gids /\
    forall g, g ∈ gids <-> g <> meta_gid (en_meta entry) /\ exists e, e ∈ entries (ei_index s) /\
      se_hash e ∈ meta_next (en_meta entry) /\ smeta_gid (se_meta e) = g /\
      forall e', e' ∈ entries (ei_index s) -> follows (se_hash e) e' = true -> se_hash e' = en_hash entry.
Proof.
  intros HT Hs Hh. unfold shadowed_gids. destruct (meta_next (en_meta entry)) as [|n0 nexts] eqn:En.
  { exists []. split; [done|]. intros g. split; [by intros ?%not_elem_of_nil|]. by intros (_ & e & _ & ?%not_elem_of_nil & _). }
  set (nx := n0 :: nexts). change (new_Or (map (exactly ["hash"%string]) nx)) with (Val (Or (map (exactly ["hash"%string]) nx))).
  cbn [mbind outcome_bind]. set (gid := meta_gid (en_meta entry)).
  destruct (iterate_all_val s [Or (map (exactly ["hash"%string]) nx); new_Not (new_StringMatch (KPath ["meta"; "gid"]%string) gid None None)]
    (fun e => forallb (fun p => p e) [fun e => bool_decide (se_hash e ∈ nx); fun e => negb (bool_decide (smeta_gid (se_meta e) = gid))])
    (sort (ei_sort s)) HT) as (others & -> & Hperm); [|done|].
  { split; [done|]. intros e fuel. apply matches_scalars. constructor; [apply decides_all_next|].
    constructor; [|constructor]. apply decides_not, decides_gid. }
  cbn [mbind outcome_bind]. destruct (shadowed_fold entry s others [] HT Hh) as (gids & -> & Hg).
  exists gids. split; [done|]. intros g. rewrite Hg.
  assert (Hin : forall e, e ∈ others <-> e ∈ entries (ei_index s) /\ se_hash e ∈ nx /\ smeta_gid (se_meta e) <> gid).
  { intros e. rewrite Hperm, list_elem_of_In, filter_In, <- list_elem_of_In. cbn [forallb].
    rewrite andb_true_r, andb_true_iff, negb_true_iff, bool_decide_eq_true, bool_decide_eq_false. done. }
  split.
  - intros [?%not_elem_of_nil|(e & (He & Hn & Hne)%Hin & <- & Hall)]; [done|]. split; [done|]. by exists e.
  - intros (Hne & e & He & Hn & <- & Hall). right. exists e. split; [by apply Hin|done].
Qed.

Context `{!QueueLaws Q string}.

(** The cache answers with an entry for this key. *)
Definition holds (c : Cache string Entry Q) (k : string) : Prop :=
  exists v (x : Entry), Map_get (cache_map c) k = Some v /\ cd_value v = Some x /\ k ∉ cache_deleted c.

Lemma evict_holds (P : string -> Prop) (c : Cache string Entry Q) k v :
  (forall k', holds c k' -> P k') -> forall k', holds (evict c k v) k' -> P k'.
Proof.
  intros HP k' (w & e & Hg & Hv & Hd). apply HP. cbn [evict cache_map cache_deleted] in *.
  rewrite Map_get_delete in Hg. case_decide as Hk; [done|]. exists w, e. split_and!; [done|done|].
  intros Hin. by apply Hd, Set_delete_elem.
Qed.

Lemma trim_holds (P : string -> Prop) now (c : Cache string Entry Q) :
  Inv c -> (forall k, holds c k -> P k) -> exists c', Cache.trim now c = Val c' /\ Inv c' /\ forall k, holds c' k -> P k.
Proof.
  intros Hc HP. destruct (trim_spec (fun c => forall k, holds c k -> P k) now c) as (c' & ? & ? & ? & _);
    [intros; by eapply evict_holds|done|done|]. by exists c'.
Qed.

Lemma cache_add_ok (P : string -> Prop) now (c : Cache string Entry Q) k v :
  Inv c -> (forall k', k' <> k -> holds c k' -> P k') -> (is_Some v -> P k) ->
  exists c', Cache.add now c k v 1 = Val c' /\ Inv c' /\ forall k, holds c' k -> P k.
Proof.
  intros Hc HP Hk. apply (trim_holds P now (insert_entry now c k v 1)); [by apply insert_entry_Inv|].
  intros k' (w & e & Hg & Hv & Hd). cbn [insert_entry cache_map cache_deleted] in *. rewrite Map_get_set in Hg.
  case_decide as Hx; [simplify_eq/=; by apply Hk|]. apply HP; [done|]. exists w, e. split_and!; [done|done|].
  intros Hin. by apply Hd, Set_delete_elem.
Qed.

Lemma cache_get_ok (P : string -> Prop) now (c : Cache string Entry Q) k :
  Inv c -> (forall k', holds c k' -> P k') ->
  exists mem c', Cache.get now c k = Val (mem, c') /\ Inv c' /\ (forall k', holds c' k' -> P k') /\
    forall x : Entry, mem = Some (Some x) -> P k.
Proof.
  intros Hc HP. destruct (trim_holds P now c Hc HP) as (c' & E & Hc' & HP').
  eexists _, c'. split; [unfold Cache.get; by rewrite E|]. split_and!; [done|done|].
  intros e He. destruct (Set_has (cache_deleted c') k) eqn:Ed; [done|].
  destruct (Map_get (cache_map c') k) as [w|] eqn:Em; [|done]. apply HP'. exists w, e.
  simpl in He. split_and!; [done|by injection He|]. intros Hd%Set_has_spec. congruence.
Qed.

Lemma cache_del_holds (c : Cache string Entry Q) k k' : holds (Cache.del c k).2 k' -> holds c k' /\ k' <> k.
Proof.
  intros (v & e & Hg & Hv & Hd). unfold Cache.del in *.
  destruct (Map_get (cache_map c) k) as [w|] eqn:Ek; [|split; [by exists v, e|simpl in Hg; congruence]].
  destruct (Set_has (cache_deleted c) k) eqn:Ed; simpl in *.
  - split; [by exists v, e|]. intros ->. by apply Hd, Set_has_spec.
  - split; [exists v, e; split_and!; [done|done|]|]; [intros Hin; apply Hd, Set_add_elem; by right|].
    intros ->. apply Hd, Set_add_elem. by left.
Qed.

Lemma fresh_entries T e h :
  table_ok T -> stored_at T (se_hash e) = None ->
  followed (set_entry T e) h = true <-> followed T h = true \/ h ∈ smeta_next (se_meta e).
Proof.
  intros HT Hn. rewrite !followed_spec by (done || by apply set_entry_ok). setoid_rewrite stored_set. split.
  - intros (k & e' & Hs & Hh). case_decide; [simplify_eq; by right|left; by exists k, e'].
  - intros [(k & e' & Hs & Hh)|Hh].
    + exists k, e'. rewrite decide_False by congruence. done.
    + exists (se_hash e), e. by rewrite decide_True.
Qed.

(** Storing a new entry: what is in the table, the store, the cache and the count. *)
Definition new_store (computed : string) (toMultiHash : bool) (entry : Entry) s : list (string * Entry) :=
  if toMultiHash then Map_set (ei_store s) computed (MkEntry computed (en_meta entry) (en_payloadSize entry)) else ei_store s.

Definition stored_ok (computed : string) (toMultiHash : bool) (entry : Entry) isHead s s' : Prop :=
  updated false (meta_next (en_meta entry)) (set_entry (ei_index s) (toShallow entry isHead)) (ei_index s') /\
  ei_store s' = new_store computed toMultiHash entry s /\
  ei_length s' = ei_length s + 1 /\ ei_sort s' = ei_sort s /\ Inv (ei_cache s') /\
  forall k, holds (ei_cache s') k -> holds (ei_cache s) k \/ k = en_hash entry.

Definition gids_ok (entry : Entry) s (gids : list string) : Prop :=
  forall g, g ∈ gids <-> g <> meta_gid (en_meta entry) /\ exists h e, h ∈ meta_next (en_meta entry) /\
    stored_at (ei_index s) h = Some e /\ smeta_gid (se_meta e) = g /\ followed (ei_index s) h = false.

(** Every entry in the cache is stored. *)
Definition cached_ok s : Prop := forall k, holds (ei_cache s) k -> is_Some (stored_at (ei_index s) k).

Lemma has_absent now s k :
  Inv (ei_cache s) -> stored_at (ei_index s) k = None -> ~ holds (ei_cache s) k ->
  exists c, has now s k = Val (false, with_cache s c) /\ Inv c /\ forall k', holds c k' -> holds (ei_cache s) k'.
Proof.
  intros Hc Hs Hl. unfold has. destruct (cache_get_ok (holds (ei_cache s)) now (ei_cache s) k Hc) as (mem & c & -> & Hc' & Hh & Hm); [done|].
  cbn [mbind outcome_bind]. rewrite getShallow_stored, Hs. exists c. split; [|done].
  destruct mem as [[e|]|]; [|done|done]. by specialize (Hm e eq_refl).
Qed.

(** With a cache of stored entries, [has] tells whether an entry is stored. *)
Lemma has_known now s k :
  Inv (ei_cache s) -> cached_ok s ->
  exists c, has now s k = Val (bool_decide (is_Some (stored_at (ei_index s) k)), with_cache s c) /\ Inv c /\ cached_ok (with_cache s c).
Proof.
  intros Hc Hs. unfold has.
  destruct (cache_get_ok (fun k => is_Some (stored_at (ei_index s) k)) now (ei_cache s) k Hc Hs) as (mem & c & -> & Hc' & Hh & Hm).
  exists c. split; [|done]. cbn [mbind outcome_bind]. do 2 f_equal. rewrite getShallow_stored.
  destruct mem as [[e|]|]; [by rewrite bool_decide_true by by apply (Hm e)| |];
    (destruct (stored_at (ei_index s) k); [by rewrite bool_decide_true by done|by rewrite bool_decide_false by apply is_Some_None]).
Qed.

Lemma put_hash_ok computed s hash meta size toMultiHash :
  hash <> ""%string ->
  let entry := MkEntry hash meta size in
  put_hash computed s (Some hash) meta size toMultiHash =
    Val (entry, MkEntryIndex (ei_index s) (ei_cache s) (new_store computed toMultiHash entry s) (ei_length s) (ei_sort s)).
Proof.
  intros Hne entry. unfold put_hash. destruct toMultiHash.
  - by rewrite bool_decide_true.
  - rewrite bool_decide_false by done. by destruct s.
Qed.

(** The gids [shadowed_gids] finds after the entry is in, by the table before. *)
Lemma gids_before (entry : Entry) isHead s gids :
  table_ok (ei_index s) -> stored_at (ei_index s) (en_hash entry) = None -> en_hash entry ∉ meta_next (en_meta entry) ->
  let T1 := set_entry (ei_index s) (toShallow entry isHead) in
  (forall g, g ∈ gids <-> g <> meta_gid (en_meta entry) /\ exists e, e ∈ entries T1 /\
      se_hash e ∈ meta_next (en_meta entry) /\ smeta_gid (se_meta e) = g /\
      forall e', e' ∈ entries T1 -> follows (se_hash e) e' = true -> se_hash e' = en_hash entry) ->
  gids_ok entry s gids.
Proof.
  intros HT Hfresh Hself T1 Hg g. rewrite Hg. clear Hg.
  assert (HT1 : table_ok T1) by by apply set_entry_ok.
  assert (Hst : forall h, h <> en_hash entry -> stored_at T1 h = stored_at (ei_index s) h).
  { intros h Hh. unfold T1. rewrite stored_set, decide_False; [done|]. simpl. congruence. }
  split; intros [Hgne Hex]; (split; [done|]).
  - destruct Hex as (e & He & Hn & <- & Hall). apply (stored_entry T1 e HT1) in He.
    rewrite Hst in He by congruence.
    exists (se_hash e), e. split_and!; [done|done|done|]. apply not_true_iff_false. intros (k & e' & Hs & Hf)%followed_spec; [|done].
    pose proof (stored_hash _ _ _ HT Hs) as <-. rewrite Hall in Hs; [congruence| |by apply bool_decide_true].
    apply stored_entry; [done|]. rewrite Hst; [done|congruence].
  - destruct Hex as (h & e & Hn & Hs & <- & Hf). pose proof (stored_hash _ _ _ HT Hs) as <-. exists e.
    assert (Hx : se_hash e <> en_hash entry) by congruence.
    split_and!; [|done|done|]; [by apply stored_entry; [|rewrite Hst]|].
    intros e' He' Hfo. apply (stored_entry T1 e' HT1) in He'. destruct (decide (se_hash e' = en_hash entry)) as [|Hy]; [done|].
    exfalso. apply not_true_iff_false in Hf. apply Hf, followed_spec; [done|]. rewrite Hst in He' by done.
    exists (se_hash e'), e'. split; [done|]. by apply bool_decide_eq_true in Hfo.
Qed.

Lemma put_ok computed now s hash meta size unique isHead toMultiHash :
  let entry := MkEntry hash meta size in
  index_wf s -> meta_type meta = APPEND -> hash <> ""%string ->
  stored_at (ei_index s) hash = None -> hash ∉ meta_next meta -> (unique = true \/ ~ holds (ei_cache s) hash) ->
  exists gids s', put computed now s (Some hash) meta size unique isHead toMultiHash = Val (gids, s') /\
    stored_ok computed toMultiHash entry isHead s s' /\ gids_ok entry s gids.
Proof.
  intros entry [HT Hlen Hc Hsort] Happ Hne Hfresh Hself Huniq. unfold put.
  rewrite (put_hash_ok computed s hash meta size toMultiHash Hne). cbn [mbind outcome_bind].
  fold entry. set (store := new_store computed toMultiHash entry s). cbn [en_hash]. set (s0 := MkEntryIndex (ei_index s) (ei_cache s) store (ei_length s) (ei_sort s)).
  assert (Hnew : exists c1, (if unique then Val (true, s0) else '(b, s1) ← has now s0 (en_hash entry); Val (negb b, s1)) =
    Val (true, with_cache s0 c1) /\ Inv c1 /\ forall k, holds c1 k -> holds (ei_cache s) k).
  { destruct unique; [by exists (ei_cache s0)|]. destruct Huniq as [|Hl]; [done|].
    destruct (has_absent now s0 (en_hash entry) Hc Hfresh Hl) as (c1 & -> & Hc1). by exists c1. }
  destruct Hnew as (c1 & -> & Hc1 & Hh1). cbn [mbind outcome_bind with_cache ei_cache ei_index ei_store ei_length ei_sort s0].
  destruct (cache_add_ok (fun k => holds (ei_cache s) k \/ k = en_hash entry) now c1 (en_hash entry) (Some entry) Hc1)
    as (c2 & -> & Hc2 & Hh2); [by intros k _ Hk; left; apply Hh1|by right|]. cbn [mbind outcome_bind].
  rewrite (put_table _ (toShallow entry isHead) HT). cbn [mbind outcome_bind].
  set (T1 := set_entry (ei_index s) (toShallow entry isHead)). set (s2 := MkEntryIndex T1 c2 store _ _).
  assert (HT1 : table_ok T1) by by apply set_entry_ok.
  destruct (shadowed_gids_ok entry s2 HT1 Hsort Hne) as (gids & -> & Hg).
  cbn [mbind outcome_bind]. unfold privateUpdateNextHeadProperty. cbn [new_ShallowMeta smeta_type smeta_next].
  replace (meta_type (en_meta entry)) with APPEND.
  destruct (update_all_ok false s2 (meta_next (en_meta entry)) HT1) as (T' & -> & Hu). cbn [mbind outcome_bind].
  exists gids, (with_table s2 T'). split; [done|]. split; [done|].
  by apply (gids_before entry isHead).
Qed.

Lemma put_meta computed toMultiHash (entry : Entry) isHead s s' h :
  stored_ok computed toMultiHash entry isHead s s' ->
  meta_of (ei_index s') h = if decide (en_hash entry = h) then Some (new_ShallowMeta (en_meta entry)) else meta_of (ei_index s) h.
Proof.
  intros (Hu & _). unfold meta_of. rewrite (upd_stored _ _ _ _ Hu), stored_set. cbn [toShallow se_hash].
  destruct (decide (h ∈ _ /\ _)), (decide (en_hash entry = h)); try done; by destruct (stored_at (ei_index s) h).
Qed.

Lemma heads_after_put P computed toMultiHash (entry : Entry) isHead s s' :
  table_ok (ei_index s) -> heads_upto P (ei_index s) ->
  stored_at (ei_index s) (en_hash entry) = None -> en_hash entry ∉ meta_next (en_meta entry) ->
  (isHead = true -> followed (ei_index s) (en_hash entry) = false) -> stored_ok computed toMultiHash entry isHead s s' ->
  heads_upto (fun h => (P h /\ h ∉ meta_next (en_meta entry)) \/
    (h = en_hash entry /\ isHead = false /\ followed (ei_index s) h = false)) (ei_index s').
Proof.
  intros HT Hheads Hfresh Hself Hhead (Hu & _) h e Hs. set (new := toShallow entry isHead) in *.
  assert (HT1 : table_ok (set_entry (ei_index s) new)) by by apply set_entry_ok.
  rewrite (followed_same _ _ h HT1 (upd_ok _ _ _ _ Hu) (updated_same _ _ _ _ Hu)).
  assert (Hf : followed (set_entry (ei_index s) new) h = followed (ei_index s) h || bool_decide (h ∈ meta_next (en_meta entry))).
  { apply eq_true_iff_eq. by rewrite fresh_entries, orb_true_iff, bool_decide_eq_true. }
  rewrite Hf, (upd_stored _ _ _ _ Hu) in *. rewrite stored_set in Hs. cbn [new toShallow se_hash] in Hs.
  destruct (decide (h ∈ meta_next (en_meta entry) /\ _)) as [[Hin _]|Hnin].
  - left. rewrite bool_decide_true, orb_true_r by done. by destruct (if decide _ then _ else _); simplify_eq/=.
  - assert (Hni : h ∉ meta_next (en_meta entry)) by (intros Hin; by apply Hnin).
    rewrite bool_decide_false by done. rewrite orb_false_r.
    case_decide as Hx; [|destruct (Hheads h e Hs) as [|[? ?]]; [by left|right; split; [by left|done]]].
    simplify_eq/=. destruct isHead; [left; by rewrite Hhead|].
    destruct (followed (ei_index s) (en_hash entry)) eqn:E; [by left|]. right. split; [right|]; done.
Qed.

Lemma put_index_wf computed toMultiHash (entry : Entry) isHead s s' :
  index_wf s -> stored_at (ei_index s) (en_hash entry) = None ->
  stored_ok computed toMultiHash entry isHead s s' -> index_wf s'.
Proof.
  intros Hok Hfresh (Hu & _ & Hlen & Hsort & Hc & _). split; [apply Hu| |done|by rewrite Hsort; apply Hok].
  rewrite Hlen, (io_length _ Hok), (upd_length _ _ _ _ Hu). cbn [set_entry with_index hm_index toShallow se_hash en_hash].
  rewrite Map_set_length. unfold stored_at in Hfresh. destruct (Map_get _ _); [done|lia].
Qed.

Lemma put_index_ok computed toMultiHash (entry : Entry) isHead s s' :
  index_ok s -> stored_at (ei_index s) (en_hash entry) = None -> en_hash entry ∉ meta_next (en_meta entry) ->
  isHead = negb (followed (ei_index s) (en_hash entry)) -> stored_ok computed toMultiHash entry isHead s s' -> index_ok s'.
Proof.
  intros [Hok Hheads] Hfresh Hself -> Hst. split; [by eapply put_index_wf|].
  eapply heads_upto_exact; [|eapply (heads_after_put (fun _ => False)); try done; [apply Hok| |by destruct (followed _ _)]].
  - simpl. intros h [[[] _]|(-> & Hf & Hn)]. by rewrite Hn in Hf.
  - intros h e Hs. left. by apply Hheads.
Qed.

(** Storing a fresh [APPEND] entry that is marked as a head exactly when no
    stored_at entry follows it keeps the index exact - every stored_at entry is marked
    as a head iff no stored_at entry follows it, and the length counts the entries -
    and reports the other gids that had an unfollowed entry among its nexts. *)
Theorem put_keeps_heads computed now s hash meta size unique toMultiHash :
  index_ok s -> meta_type meta = APPEND -> hash <> ""%string ->
  stored_at (ei_index s) hash = None -> hash ∉ meta_next meta -> (unique = true \/ ~ holds (ei_cache s) hash) ->
  let isHead := negb (followed (ei_index s) hash) in
  exists gids s', put computed now s (Some hash) meta size unique isHead toMultiHash = Val (gids, s') /\
    index_ok s' /\ gids_ok (MkEntry hash meta size) s gids /\
    (exists b, stored_at (ei_index s') hash = Some (toShallow (MkEntry hash meta size) b)).
Proof.
  intros Hok Happ Hne Hfresh Hself Huniq isHead.
  destruct (put_ok computed now s hash meta size unique isHead toMultiHash (proj1 Hok) Happ Hne Hfresh Hself Huniq)
    as (gids & s' & -> & Hst & Hg).
  exists gids, s'. split; [done|]. split_and!; [by apply (put_index_ok computed toMultiHash (MkEntry hash meta size) isHead s)|done|].
  destruct Hst as (Hu & _).
  exists isHead. rewrite (upd_stored _ _ _ _ Hu), stored_set. cbn [toShallow se_hash en_hash en_meta].
  rewrite decide_False by tauto. by rewrite decide_True.
Qed.

(** ** Deleting *)

Lemma Map_delete_length {V} (m : list (IdPrimitive * V)) k v :
  Map_wf m -> Map_get m k = Some v -> length m = S (length (Map_delete m k)).
Proof.
  intros Hw. induction m as [|[k' v'] m IH]; [done|]. unfold Map_delete. simpl. unfold Map_wf in *. simpl in Hw.
  apply NoDup_cons in Hw as [Hn Hw]. case_bool_decide as Hk; simpl.
  - rewrite decide_True by done. intros _. f_equal. fold (Map_delete m k). subst k'.
    rewrite Map_delete_id; [done|]. destruct (Map_get m k) as [w|] eqn:E; [|done].
    apply Map_get_Some_elem in E. exfalso. apply Hn. apply list_elem_of_fmap. by exists (k, w).
  - rewrite decide_False by done. intros Hg. f_equal. by apply IH.
Qed.

Lemma followed_del T k h : table_ok T -> followed (del_entry T k) h = true -> followed T h = true.
Proof.
  intros HT. rewrite !followed_spec by (done || by apply del_entry_ok). setoid_rewrite stored_del.
  intros (k' & e & Hs & Hh). case_decide; [done|]. by exists k', e.
Qed.

Lemma followed_still T k h e :
  table_ok T -> stored_at T k = Some e -> h ∉ smeta_next (se_meta e) -> followed (del_entry T k) h = followed T h.
Proof.
  intros HT He Hh. apply eq_true_iff_eq. split; [by apply followed_del|].
  rewrite !followed_spec by (done || by apply del_entry_ok). setoid_rewrite stored_del.
  intros (k' & e' & Hs & Hf). exists k', e'. rewrite decide_False; [done|]. intros ->. congruence.
Qed.

Lemma heads_after_del T T' k e :
  table_ok T -> heads_exact T -> stored_at T k = Some e -> updated true (smeta_next (se_meta e)) (del_entry T k) T' ->
  heads_exact T'.
Proof.
  intros HT Hheads He Hu h e' Hs.
  rewrite (followed_same _ _ h (del_entry_ok T k HT) (upd_ok _ _ _ _ Hu) (updated_same _ _ _ _ Hu)).
  rewrite (upd_stored _ _ _ _ Hu), stored_del in Hs.
  destruct (decide (h ∈ smeta_next (se_meta e) /\ _)) as [[Hin Hf]|Hn].
  - rewrite Hf by done. case_decide; [done|]. destruct (stored_at T h); by simplify_eq/=.
  - case_decide; [done|]. rewrite (Hheads h e' Hs). f_equal.
    destruct (decide (h ∈ smeta_next (se_meta e))) as [Hin|Hin]; [|by rewrite (followed_still T k h e)].
    destruct (followed (del_entry T k) h) eqn:Hf; [by apply (followed_del T k)|]. exfalso. by apply Hn.
Qed.

(** Deleting an [APPEND] entry removes it from the index, the cache and the
    store, returns it, and keeps the index exact: an entry it followed becomes a
    head exactly when no other stored_at entry follows it. *)
Theorem delete_keeps_heads s k e from :
  index_ok s -> stored_at (ei_index s) k = Some e -> smeta_type (se_meta e) = APPEND -> from = None \/ from = Some e ->
  exists s', delete s k from = Val (Some e, s') /\ index_ok s' /\ stored_at (ei_index s') k = None /\
    ~ holds (ei_cache s') k /\ Map_get (ei_store s') k = None /\
    forall h, h <> k -> is_Some (stored_at (ei_index s') h) <-> is_Some (stored_at (ei_index s) h).
Proof.
  intros [[HT Hlen Hc Hsort] Hheads] He Happ Hfrom. unfold delete. cbv zeta.
  assert (Hthrow : throw_if (match from with Some f => negb (bool_decide (se_hash f = k)) | None => false end)
    "Shallow hash doesn't match the key" = Val tt).
  { destruct Hfrom as [->| ->]; [done|]. by rewrite bool_decide_true by by apply (stored_hash (ei_index s)). }
  assert (Hf : (match from with Some f => Some f | None => ir_value <$> getShallow (with_cache s (Cache.del (ei_cache s) k).2) k end) = Some e).
  { destruct Hfrom as [->| ->]; [|done]. rewrite getShallow_stored. cbn [with_cache ei_index]. by rewrite He. }
  rewrite Hthrow. cbn [mbind outcome_bind]. rewrite Hf. cbn [with_cache ei_index ei_cache ei_store ei_length ei_sort].
  rewrite (del_table _ k HT), He. cbn [mbind outcome_bind length]. unfold privateUpdateNextHeadProperty. rewrite Happ.
  set (T1 := del_entry (ei_index s) k). assert (HT1 : table_ok T1) by by apply del_entry_ok.
  set (s3 := MkEntryIndex T1 _ _ _ _).
  destruct (update_all_ok true s3 (smeta_next (se_meta e)) HT1) as (T' & -> & Hu). cbn [mbind outcome_bind].
  exists (with_table s3 T'). split; [done|]. cbn [with_table ei_index ei_cache ei_store s3 ei_length ei_sort] in *.
  assert (Hst : forall h, is_Some (stored_at T' h) <-> is_Some (stored_at T1 h)).
  { intros h. rewrite (upd_stored _ _ _ _ Hu). case_decide; [apply fmap_is_Some|done]. }
  assert (Hk : stored_at T' k = None).
  { apply eq_None_not_Some. rewrite Hst. unfold T1. rewrite stored_del, decide_True by done. apply is_Some_None. }
  split_and!; [|done|by intros [_ ?]%cache_del_holds|by rewrite Map_get_delete, decide_True|].
  - split; [|by apply (heads_after_del (ei_index s) T' k e)]. split; [apply Hu| |by apply del_Inv|done].
    cbn [with_table ei_length ei_index s3]. rewrite Hlen, (upd_length _ _ _ _ Hu).
    unfold stored_at in He. destruct (Map_get _ _) as [r|] eqn:Er; [|done].
    rewrite (Map_delete_length _ _ _ (table_wf _ HT) Er). cbn [T1 del_entry with_index hm_index]. lia.
  - intros h Hne. rewrite Hst. unfold T1. by rewrite stored_del, decide_False.
Qed.

(** [put] with [toMultiHash] accepts an entry whose hash is not the hash of
    its contents (the hash is compared with itself): the contents go to the
    store under the computed hash, the index gets the other one, and nothing in
    the store is found under the hash the index has. *)
Theorem put_accepts_wrong_hash computed now s hash meta size unique isHead :
  index_ok s -> meta_type meta = APPEND -> hash <> ""%string ->
  stored_at (ei_index s) hash = None -> hash ∉ meta_next meta -> (unique = true \/ ~ holds (ei_cache s) hash) ->
  computed <> hash -> Map_get (ei_store s) hash = None ->
  exists gids s', put computed now s (Some hash) meta size unique isHead true = Val (gids, s') /\
    is_Some (stored_at (ei_index s') hash) /\ Map_get (ei_store s') hash = None.
Proof.
  intros Hok Happ Hne Hfresh Hself Huniq Hc Hs.
  destruct (put_ok computed now s hash meta size unique isHead true (proj1 Hok) Happ Hne Hfresh Hself Huniq)
    as (gids & s' & -> & (Hu & Est & _) & _).
  exists gids, s'. split; [done|]. split.
  - rewrite (upd_stored _ _ _ _ Hu), stored_set. cbn [toShallow se_hash en_hash en_meta].
    rewrite decide_False by tauto. by rewrite decide_True.
  - rewrite Est. unfold new_store. rewrite Map_get_set. by rewrite decide_False by done.
Qed.

End Updates.

End Table.
