(* ===== verification/Trim.v ===== *)
(** * Trimming a log (packages/log/src/trim.ts)

    [Trim] deletes the oldest entries of a log until a condition on its length,
    its size in bytes or the age of its oldest entry holds.  It keeps where it
    left off between two calls.  The log it works on is given by [deleteNode]
    and [getLength]; its queue runs one call at a time. *)

From Stdlib Require Import ZArith Lia.
From stdpp Require Import base list strings.
From S2P Require Import Prelude JsMap Cache Clock JsVal Query IndexInterface SimpleIndex Integers LogSorting EntryIndex.

Local Open Scope Z_scope.

Inductive Seed := StrSeed (s : string) | NumSeed (z : Z).
#[export] Instance Seed_eq_dec : EqDecision Seed.
Proof. solve_decision. Defined.

(** [filter]; functions are compared by identity. *)
Record TrimFilter := MkFilter {
  canTrim_id : nat;
  canTrim : ShallowEntry -> bool;
  cacheId : option Seed;
}.

Inductive TrimCondition :=
| TrimToLength (to : Z) (from : option Z)
| TrimToByteLength (to : Z) (from : option Z)
| TrimToTime (maxAge : Z).

Record TrimOptions := MkTrimOptions { condition : TrimCondition; filter_ : option TrimFilter }.

Definition same_filter (a b : TrimOptions) : bool :=
  bool_decide ((canTrim_id <$> filter_ a) = (canTrim_id <$> filter_ b)).

Definition trimOptionsEqual (a b : TrimOptions) : bool :=
  match condition a, condition b with
  | TrimToLength to from, TrimToLength to' from' | TrimToByteLength to from, TrimToByteLength to' from' =>
      bool_decide (from = from') && (to =? to') && same_filter a b
  | TrimToTime m, TrimToTime m' => (m =? m') && same_filter a b
  | _, _ => false
  end.

(** [from.from || from.to]: zero counts as missing. *)
Definition from_or_to (to : Z) (from : option Z) : Z :=
  match from with Some f => if f =? 0 then to else f | None => to end.

Definition trimOptionsStricter (from to : TrimOptions) : bool :=
  match condition from, condition to with
  | TrimToLength a f, TrimToLength a' f' | TrimToByteLength a f, TrimToByteLength a' f' =>
      if negb (same_filter from to) then true
      else if a' <? a then true
      else from_or_to a' f' <? from_or_to a f
  | TrimToTime m, TrimToTime m' => if negb (same_filter from to) then true else m' <? m
  | _, _ => true
  end.

Section Trim.
Context {Q : Type} `{JsEnv, Document ShallowEntry, Queue Q string}.
Abbreviation Index := (EntryIndex (Q := Q)).

Record Trim := MkTrim {
  tr_trim : option TrimOptions;
  tr_canTrimCacheLastNode : option ShallowEntry;
  tr_trimLastHead : option ShallowEntry;
  tr_trimLastTail : option ShallowEntry;
  tr_trimLastLength : Z;
  tr_trimLastOptions : option TrimOptions;
  tr_trimLastSeed : option Seed;
  tr_breakpoint : Cache string bool Q;
}.

Definition new_Trim (options : option TrimOptions) : Trim :=
  MkTrim options None None None 0 None None (clear 100000 None).

Definition set_breakpoint (t : Trim) (c : Cache string bool Q) : Trim :=
  MkTrim (tr_trim t) (tr_canTrimCacheLastNode t) (tr_trimLastHead t) (tr_trimLastTail t) (tr_trimLastLength t)
    (tr_trimLastOptions t) (tr_trimLastSeed t) c.

Definition set_lastNode (t : Trim) (n : option ShallowEntry) : Trim :=
  MkTrim (tr_trim t) n (tr_trimLastHead t) (tr_trimLastTail t) (tr_trimLastLength t)
    (tr_trimLastOptions t) (tr_trimLastSeed t) (tr_breakpoint t).

Definition deleteFromCache (s : Index) (t : Trim) (hash : string) : outcome Trim :=
  match tr_canTrimCacheLastNode t with
  | Some n => if bool_decide (se_hash n = hash) then n' ← getAfter s n; Val (set_lastNode t n') else Val t
  | None => Val t
  end.

(** ** When to stop *)

(** [BigInt(sum({ key: "payloadSize" }))]. *)
Definition byteLengthFn (s : Index) : outcome Z :=
  v ← SimpleIndex.sum (ei_index s) (QLMany []) (KPath ["payloadSize"%string]);
  match v with JNum z | JBig z => Val z | _ => Exn "TypeError" end.

Section Task.
(** The log: deleting a node, its length; and [+new Date()], the time of the cache. *)
Variable deleteNode : Index -> ShallowEntry -> outcome (option Entry * Index).
Variable getLength : Index -> outcome Z.
Variables date now : Z.

(** [None]: nothing to do; otherwise the function [done]. *)
Definition condition_done (c : TrimCondition) (s : Index) : outcome (option (Index -> outcome bool)) :=
  match c with
  | TrimToLength to from =>
      len ← getLength s;
      if len <? default to from then Val None
      else Val (Some (fun s => len ← getLength s; Val (len <=? to)))
  | TrimToByteLength to from =>
      bytes ← byteLengthFn s;
      if bytes <? default to from then Val None
      else Val (Some (fun s => bytes ← byteLengthFn s; Val (bytes <=? to)))
  | TrimToTime maxAge =>
      let s0 := Number_of_bigint (date * 1000000) in
      Val (Some (fun s =>
        oldest ← getOldest s;
        match oldest with
        | None => Val true
        | Some n => Val (s0 - wallTime (lc_timestamp (smeta_clock (se_meta n))) <? maxAge * 1000000)
        end))
  end.

(** ** The walk from the oldest entry *)

Record Walk := MkWalk {
  wk_index : Index;
  wk_node : option ShallowEntry;
  wk_lastNode : option ShallowEntry;
  wk_looped : bool;
  wk_byGid : list (string * bool);
  wk_breakpoint : Cache string bool Q;
  wk_deleted : list Entry;
}.

(** [deleteAble], asked once per gid, and the breakpoint cache. *)
Definition ask (filter : option TrimFilter) (w : Walk) (node : ShallowEntry)
    : outcome (bool * list (string * bool) * Cache string bool Q) :=
  match filter with
  | None => Val (true, wk_byGid w, wk_breakpoint w)
  | Some f =>
      let gid := smeta_gid (se_meta node) in
      let '(deleteAble, byGid) :=
        match Map_get (wk_byGid w) gid with
        | Some b => (b, wk_byGid w)
        | None => (canTrim f node, Map_set (wk_byGid w) gid (canTrim f node))
        end in
      if negb deleteAble && bool_decide (is_Some (cacheId f)) then
        c ← Cache.add now (wk_breakpoint w) (se_hash node) (Some true) 1; Val (deleteAble, byGid, c)
      else Val (deleteAble, byGid, wk_breakpoint w)
  end.

(** One round; [true] asks for another one. *)
Definition walk_round (filter : option TrimFilter) (changed cacheProgress : bool) (tail : option ShallowEntry)
    (w : Walk) (node : ShallowEntry) : outcome (Walk * bool) :=
  '(deleteAble, byGid, bp) ← ask filter w node;
  '(s, node', lastNode, deleted) ←
    (if deleteAble : bool then
       prev ← getAfter (wk_index w) node;
       next ← getBefore (wk_index w) node;
       '(entry, s) ← deleteNode (wk_index w) node;
       Val (s, prev, match prev with Some p => Some p | None => next end,
            wk_deleted w ++ match entry with Some e => [e] | None => [] end)
     else
       after ← getAfter (wk_index w) node;
       Val (wk_index w, after, Some node, wk_deleted w));
  match node' with
  | Some _ => Val (MkWalk s node' lastNode (wk_looped w) byGid bp deleted, true)
  | None =>
      if negb (wk_looped w) && changed && negb cacheProgress then
        Val (MkWalk s tail lastNode true byGid bp deleted, true)
      else Val (MkWalk s None lastNode (wk_looped w) byGid bp deleted, false)
  end.

Fixpoint walk (fuel : nat) (done : Index -> outcome bool) (filter : option TrimFilter) (changed cacheProgress : bool)
    (tail startNode : option ShallowEntry) (w : Walk) : outcome Walk :=
  match fuel with
  | O => NoFuel
  | S fuel =>
      match wk_node w with
      | None => Val w
      | Some node =>
          d ← done (wk_index w);
          if d : bool then Val w else
          len ← getLength (wk_index w);
          if (0 <? len) && (negb (wk_looped w) || negb (bool_decide (Some (se_hash node) = (se_hash <$> startNode)))) then
            '(w, more) ← walk_round filter changed cacheProgress tail w node;
            if more : bool then walk fuel done filter changed cacheProgress tail startNode w else Val w
          else Val w
      end
  end.

(** Both passes over the entries, and the start node. *)
Definition walk_fuel (s : Index) : nat := 2 * length (hm_index (ei_index s)) + 5.

Definition is_changed (t : Trim) (s : Index) (option : TrimOptions) : outcome bool :=
  newest ← getNewest s;
  oldest ← getOldest s;
  len ← getLength s;
  Val (negb (bool_decide ((se_hash <$> tr_trimLastHead t) = (se_hash <$> newest))) ||
       negb (bool_decide ((se_hash <$> tr_trimLastTail t) = (se_hash <$> oldest))) ||
       negb (tr_trimLastLength t =? len) ||
       match tr_trimLastOptions t with None => true | Some o => negb (trimOptionsEqual o option) end).

Definition trimTask (s : Index) (t : Trim) (opts : option TrimOptions) : outcome (list Entry * Index * Trim) :=
  match opts with
  | None => Val ([], s, t)
  | Some option =>
      d ← condition_done (condition option) s;
      match d with
      | None => Val ([], s, t)
      | Some done =>
          tail ← getOldest s;
          let t := match tr_trimLastOptions t with
                   | Some o => if trimOptionsStricter o option then set_breakpoint t (clear 100000 None) else t
                   | None => t
                   end in
          let seed := f ← filter_ option; cacheId f in
          let cacheProgress := bool_decide (is_Some seed) in
          let fresh := negb (bool_decide (seed = tr_trimLastSeed t)) || negb cacheProgress in
          let t := if fresh then set_lastNode (set_breakpoint t (clear 100000 None)) None else t in
          changed ← (if fresh then Val true else is_changed t s option);
          if negb changed then Val ([], s, t) else
          let node := match tr_canTrimCacheLastNode t with Some n => Some n | None => tail end in
          w ← walk (walk_fuel s) done (filter_ option) changed cacheProgress tail node
                (MkWalk s node node false [] (tr_breakpoint t) []);
          let s := wk_index w in
          newest ← getNewest s;
          oldest ← getOldest s;
          len ← getLength s;
          Val (wk_deleted w, s,
               MkTrim (tr_trim t) (match wk_node w with Some n => Some n | None => wk_lastNode w end)
                 newest oldest len (Some option) seed (wk_breakpoint w))
      end
  end.

(** [None] when there are no options. *)
Definition trim (s : Index) (t : Trim) (options : option TrimOptions) : outcome (option (list Entry) * Index * Trim) :=
  match (match options with Some o => Some o | None => tr_trim t end) with
  | None => Val (None, s, t)
  | Some o => '(deleted, s, t) ← trimTask s t (Some o); Val (Some deleted, s, t)
  end.

End Task.
End Trim.
