(* ===== verification/Log.v ===== *)
(** * Appending to, joining and deleting from a log (packages/log/src/log.ts)

    [Log] ties the entry index, the hybrid clock and trimming together.  Its
    methods run one at a time here, so the map of joins in progress holds only
    the joins that enclose the current one; joining an entry that follows itself
    ends in neither.  Deletions the code starts together run in their order. *)

From Stdlib Require Import ZArith Lia.
From stdpp Require Import base list strings.
From S2P Require Import Prelude JsMap Cache Clock JsVal Query IndexInterface SimpleIndex Integers LogSorting EntryIndex Trim.

Local Open Scope Z_scope.

(** What comes from outside: the data and its encoding, the hash under which the
    block store keeps contents, blocks of other nodes, the checks of entries,
    and the readings of the clocks. *)
Class LogEnv := {
  Data : Type;
  byteLength : Data -> Z;
  multihash : Meta -> Data -> string;
  multihash_of : Entry -> string;
  remote_get : string -> option Entry;
  verifySignatures : Entry -> bool;
  option_canAppend : option string -> Meta -> Z -> outcome bool;
  wall_time : nat -> Z;
  date_now : nat -> Z;
}.

(** [ShallowOrFullEntry]. *)
Inductive ShallowOrFullEntry := Shallow (e : ShallowEntry) | Full (e : Entry).

Definition any_hash (e : ShallowOrFullEntry) : string :=
  match e with Shallow e => se_hash e | Full e => en_hash e end.
Definition any_gid (e : ShallowOrFullEntry) : string :=
  match e with Shallow e => smeta_gid (se_meta e) | Full e => meta_gid (en_meta e) end.
Definition any_timestamp (e : ShallowOrFullEntry) : Timestamp :=
  lc_timestamp (match e with Shallow e => smeta_clock (se_meta e) | Full e => meta_clock (en_meta e) end).

Record Change := MkChange { added : list (bool * Entry); removed : list ShallowOrFullEntry }.

(** Who is told of a change: the callback of the call or the log's. *)
Inductive OnChange := OptionsOnChange | LogOnChange.

Section Log.
Context {Q : Type} `{JsEnv, Document ShallowEntry, Queue Q string, LogEnv}.
Abbreviation Index := (EntryIndex (Q := Q)).

Record Log := MkLog {
  lg_entryIndex : Index;
  lg_trim : Trim (Q := Q);
  lg_hlc : HLC;
  lg_closed : bool;
  lg_identity : list Z;
  lg_tick : nat;                              (* clock readings so far *)
  lg_changes : list (OnChange * Change);      (* calls of the callbacks *)
  lg_gidsRemoved : list (list string);        (* calls of [onGidRemoved] *)
}.

Definition set_index (l : Log) (s : Index) : Log :=
  MkLog s (lg_trim l) (lg_hlc l) (lg_closed l) (lg_identity l) (lg_tick l) (lg_changes l) (lg_gidsRemoved l).
Definition set_trim (l : Log) (t : Trim (Q := Q)) : Log :=
  MkLog (lg_entryIndex l) t (lg_hlc l) (lg_closed l) (lg_identity l) (lg_tick l) (lg_changes l) (lg_gidsRemoved l).
Definition set_hlc (l : Log) (h : HLC) : Log :=
  MkLog (lg_entryIndex l) (lg_trim l) h (lg_closed l) (lg_identity l) (S (lg_tick l)) (lg_changes l) (lg_gidsRemoved l).
Definition tell (l : Log) (who : OnChange) (c : Change) : Log :=
  MkLog (lg_entryIndex l) (lg_trim l) (lg_hlc l) (lg_closed l) (lg_identity l) (lg_tick l) (lg_changes l ++ [(who, c)]) (lg_gidsRemoved l).
Definition tell_gids (l : Log) (gids : list string) : Log :=
  match gids with
  | [] => l
  | _ => MkLog (lg_entryIndex l) (lg_trim l) (lg_hlc l) (lg_closed l) (lg_identity l) (lg_tick l) (lg_changes l) (lg_gidsRemoved l ++ [gids])
  end.

Definition now_ (l : Log) : Z := date_now (lg_tick l).

(** [get length()]. *)
Definition log_length (l : Log) : outcome Z :=
  _ ← throw_if (lg_closed l) "Closed"; Val (ei_length (lg_entryIndex l)).

Definition log_has (l : Log) (cid : string) : outcome (bool * Log) :=
  '(b, s) ← has (now_ l) (lg_entryIndex l) cid; Val (b, set_index l s).

(** [get(hash)]: a missing entry is not an error. *)
Definition log_get (l : Log) (hash : string) : outcome (option Entry * Log) :=
  '(e, s) ← resolve (now_ l) (lg_entryIndex l) hash true; Val (e, set_index l s).

Definition _canAppend (hash : option string) (m : Meta) (size : Z) : outcome bool := option_canAppend hash m size.

(** [new Trim({ deleteNode, getLength })] of [open]. *)
Definition deleteNode (l : Log) (s : Index) (node : ShallowEntry) : outcome (option Entry * Index) :=
  '(resolved, s) ← resolve (now_ l) s (se_hash node) true;
  '(_, s) ← EntryIndex.delete s (se_hash node) None;
  Val (resolved, MkEntryIndex (ei_index s) (ei_cache s) (Map_delete (ei_store s) (se_hash node)) (ei_length s) (ei_sort s)).

Definition log_trim (l : Log) (option : option TrimOptions) : outcome (list Entry * Log) :=
  '(deleted, s, t) ← Trim.trim (deleteNode l) (fun s => _ ← throw_if (lg_closed l) "Closed"; Val (ei_length s))
                       (now_ l) (now_ l) (lg_entryIndex l) (lg_trim l) option;
  Val (default [] deleted, set_trim (set_index l s) t).

(** ** Deleting *)

Record PendingDelete := MkPending { pd_hash : string; pd_entry : ShallowEntry }.

Definition prepareDelete (l : Log) (hash : string) : option PendingDelete :=
  (fun r => MkPending hash (ir_value r)) <$> getShallow (lg_entryIndex l) hash.

(** [fn] of a pending delete. *)
Definition run_delete (l : Log) (d : PendingDelete) : outcome (option ShallowEntry * Log) :=
  t ← deleteFromCache (lg_entryIndex l) (lg_trim l) (pd_hash d);
  '(removed, s) ← EntryIndex.delete (lg_entryIndex l) (pd_hash d) (Some (pd_entry d));
  Val (removed, set_index (set_trim l t) s).

Definition run_deletes (l : Log) (ds : list PendingDelete) : outcome Log :=
  foldM (fun l d => '(_, l) ← run_delete l d; Val l) l ds.

(** An entry to delete from: its hash and what it follows. *)
Record Node := MkNode { nd_hash : string; nd_next : list string }.
Definition node_of (e : Entry) : Node := MkNode (en_hash e) (meta_next (en_meta e)).

Definition not_cut (t : EntryType) : bool := match t with CUT => false | APPEND => true end.

(** One of the entries that a deleted entry follows: pushed on the stack unless
    another entry that is not a cut follows it too. *)
Definition push_next (hash : string) (st : Log * list Node) (next : string) : outcome (Log * list Node) :=
  let '(l, stack) := st in
  entriesThatHasNext ← getHasNext (lg_entryIndex l) next;
  let hasAlternativeNext :=
    existsb (fun x => not_cut (smeta_type (se_meta x)) && negb (bool_decide (se_hash x = hash))) entriesThatHasNext in
  if hasAlternativeNext then Val (l, stack)
  else '(ne, l) ← log_get l next; Val (l, match ne with Some ne => stack ++ [node_of ne] | None => stack end).

(** The stack is popped from its end. *)
Fixpoint prepare_loop (fuel : nat) (l : Log) (skip : bool) (stack : list Node) (toDelete : list PendingDelete)
    : outcome (Log * list PendingDelete) :=
  match fuel with
  | O => NoFuel
  | S fuel =>
      match List.last (map Some stack) None with
      | None => Val (l, toDelete)
      | Some entry =>
          let toDelete := if skip then toDelete
                          else toDelete ++ match prepareDelete l (nd_hash entry) with Some d => [d] | None => [] end in
          '(l, stack) ← foldM (push_next (nd_hash entry)) (l, removelast stack) (nd_next entry);
          prepare_loop fuel l false stack toDelete
      end
  end.

Definition prepareDeleteRecursively (fuel : nat) (l : Log) (from : list Node) (skipFirst : bool)
    : outcome (Log * list PendingDelete) := prepare_loop fuel l skipFirst from [].

Definition processEntry (fuel : nat) (l : Log) (entry : Entry) : outcome (Log * list PendingDelete) :=
  match meta_type (en_meta entry) with
  | CUT => prepareDeleteRecursively fuel l [node_of entry] true
  | APPEND => Val (l, [])
  end.

Definition deleteRecursively (fuel : nat) (l : Log) (from : list Node) (skipFirst : bool) : outcome (list ShallowEntry * Log) :=
  '(l, toDelete) ← prepareDeleteRecursively fuel l from skipFirst;
  foldM (fun st d => let '(out, l) := st in
           '(removed, l) ← run_delete l d; Val (out ++ match removed with Some e => [e] | None => [] end, l))
    ([], l) toDelete.

Definition delete (l : Log) (hash : string) : outcome (option ShallowEntry * Log) :=
  match prepareDelete l hash with Some d => run_delete l d | None => Val (None, l) end.

Definition remove (fuel : nat) (l : Log) (entries : list Node) (recursively : bool) : outcome (Change * Log) :=
  match entries with
  | [] => Val (MkChange [] [], l)
  | _ =>
      '(l, removed) ← (if recursively then prepareDeleteRecursively fuel l entries false
                       else Val (l, omap (fun e => prepareDelete l (nd_hash e)) entries));
      let change := MkChange [] (map (fun d => Shallow (pd_entry d)) removed) in
      l ← run_deletes (tell l LogOnChange change) removed;
      Val (change, l)
  end.

(** ** Joining *)

Record JoinOptions := MkJoinOptions {
  jo_verifySignatures : bool;
  jo_trim : option TrimOptions;
  jo_length : option Z;
  jo_reset : bool;
  jo_onChange : bool;
}.

Definition MAX_SAFE_INTEGER : Z := 9007199254740991.

(** [Entry.fromMultihash]: the block store, then other nodes. *)
Definition fromMultihash (l : Log) (hash : string) : outcome Entry :=
  _ ← throw_if (bool_decide (hash = ""%string)) "Invalid hash";
  match (match Map_get (ei_store (lg_entryIndex l)) hash with Some e => Some e | None => remote_get hash end) with
  | None => Exn "Failed to resolve block"
  | Some e => Val (MkEntry hash (en_meta e) (en_payloadSize e))
  end.

Definition entry_sortable (e : Entry) : SortableEntry :=
  MkSortable (lc_timestamp (meta_clock (en_meta e))) (meta_gid (en_meta e)) (en_hash e).

(** A head that is a cut of this entry and newer. *)
Definition cut_by (l : Log) (entry : Entry) (v : ShallowEntry) : outcome bool :=
  if negb (not_cut (smeta_type (se_meta v))) && bool_decide (en_hash entry ∈ smeta_next (se_meta v)) then
    c ← compareEntries (entry_sortable entry) (sortable v) (ei_sort (lg_entryIndex l)); Val (c <? 0)
  else Val false.

Fixpoint already_deleted (l : Log) (entry : Entry) (heads : list ShallowEntry) : outcome bool :=
  match heads with
  | [] => Val false
  | v :: heads => b ← cut_by l entry v; if b : bool then Val true else already_deleted l entry heads
  end.

(** The end of [joinRecursively], once what the entry follows is in. *)
Definition join_entry (fuel : nat) (l : Log) (entry : Entry) (isHead : bool) (options : JoinOptions) : outcome (bool * Log) :=
  accepted ← _canAppend (Some (en_hash entry)) (en_meta entry) (en_payloadSize entry);
  if negb accepted then Val (false, l) else
  '(_, hlc) ← update (lg_hlc l) (wall_time (lg_tick l)) (lc_timestamp (meta_clock (en_meta entry)));
  let l := set_hlc l hlc in
  '(gids, s) ← put (multihash_of entry) (now_ l) (lg_entryIndex l) (Some (en_hash entry)) (en_meta entry) (en_payloadSize entry)
                 false isHead true;
  let l := tell_gids (set_index l s) gids in
  '(l, pendingDeletes) ← processEntry fuel l entry;
  '(trimmed, l) ← log_trim l (jo_trim options);
  let change := MkChange [(isHead, entry)] (map (fun d => Shallow (pd_entry d)) pendingDeletes ++ map Full trimmed) in
  let l := if jo_onChange options then tell l OptionsOnChange change else l in
  l ← run_deletes (tell l LogOnChange change) pendingDeletes;
  Val (true, l).

Fixpoint joinRecursively (fuel : nat) (l : Log) (entry : Entry) (references : list (string * Entry)) (isHead : bool)
    (options : JoinOptions) : outcome (bool * Log) :=
  match fuel with
  | O => NoFuel
  | S fuel =>
      if default MAX_SAFE_INTEGER (jo_length options) <? ei_length (lg_entryIndex l) then Val (false, l) else
      _ ← throw_if (bool_decide (en_hash entry = ""%string)) "Unexpected";
      '(known, l) ← log_has l (en_hash entry);
      if known && negb (jo_reset options) then Val (false, l) else
      _ ← throw_if (jo_verifySignatures options && negb (verifySignatures entry)) "Invalid signature entry with hash";
      headsWithGid ← getHeads (lg_entryIndex l) (Some (meta_gid (en_meta entry)));
      deleted ← already_deleted l entry headsWithGid;
      if deleted : bool then Val (false, l) else
      l ← match meta_type (en_meta entry) with
          | CUT => Val l
          | APPEND =>
              foldM (fun l a =>
                '(known, l) ← log_has l a;
                if known && negb (jo_reset options) then Val l else
                nested ← match Map_get references a with Some e => Val e | None => fromMultihash l a end;
                '(_, l) ← joinRecursively fuel l nested references false options;
                Val l) l (meta_next (en_meta entry))
          end;
      join_entry fuel l entry isHead options
  end.

(** What can be joined. *)
Inductive JoinItem :=
| ItemEntry (e : Entry)
| ItemHash (hash : string)
| ItemShallow (e : ShallowEntry)
| ItemWithRefs (e : Entry) (references : list Entry).

Inductive Joinable :=
| JoinArray (items : list JoinItem)
| JoinLog (entries : list Entry)
| JoinIterator (entries : list Entry).

Definition set_reference (references : list (string * Entry)) (e : Entry) : list (string * Entry) :=
  Map_set references (en_hash e) e.

Definition collect_hash (reset : bool) (st : Log * list Entry * list (string * Entry)) (hash : string)
    : outcome (Log * list Entry * list (string * Entry)) :=
  let '(l, entries, references) := st in
  '(known, l) ← log_has l hash;
  if known && negb reset then Val (l, entries, references)
  else e ← fromMultihash l hash; Val (l, entries ++ [e], references).

Definition collect_item (reset : bool) (st : Log * list Entry * list (string * Entry)) (item : JoinItem)
    : outcome (Log * list Entry * list (string * Entry)) :=
  let '(l, entries, references) := st in
  match item with
  | ItemEntry e => Val (l, entries ++ [e], set_reference references e)
  | ItemHash hash => collect_hash reset st hash
  | ItemShallow e => collect_hash reset st (se_hash e)
  | ItemWithRefs e refs => Val (l, entries ++ [e], fold_left set_reference refs (set_reference references e))
  end.

Definition collect (reset : bool) (l : Log) (j : Joinable) : outcome (Log * list Entry * list (string * Entry)) :=
  match j with
  | JoinLog entries => Val (l, entries, fold_left set_reference entries [])
  | JoinArray items => foldM (collect_item reset) (l, [], []) items
  | JoinIterator entries => Val (l, entries, [])
  end.

(** Which of the entries are heads among themselves. *)
Definition mark_heads (heads : list (string * bool)) (entry : Entry) : list (string * bool) :=
  if Map_has heads (en_hash entry) then heads
  else fold_left (fun heads next => Map_set heads next false) (meta_next (en_meta entry)) (Map_set heads (en_hash entry) true).

Definition join (fuel : nat) (l : Log) (entriesOrLog : Joinable) (options : JoinOptions) : outcome Log :=
  '(l, entries, references) ← collect (jo_reset options) l entriesOrLog;
  let heads := fold_left mark_heads entries [] in
  foldM (fun l entry =>
    '(_, l) ← joinRecursively fuel l entry references (default false (Map_get heads (en_hash entry))) options; Val l)
    l entries.

(** ** Appending *)

Record AppendOptions := MkAppendOptions {
  ao_type : option EntryType;
  ao_data : option (list Z);
  ao_timestamp : option Timestamp;
  ao_next : option (list ShallowOrFullEntry);
  ao_trim : option TrimOptions;
  ao_onChange : bool;
}.

(** [EntryV0.create] without encryption; [gid0] is what [createGid] returns. *)
Definition min_gid (gid : option string) (n : ShallowOrFullEntry) : option string :=
  match gid with
  | None => Some (any_gid n)
  | Some g => if String.ltb (any_gid n) g then Some (any_gid n) else Some g
  end.

Fixpoint check_nexts (clock : Timestamp) (nexts : list ShallowOrFullEntry) : outcome unit :=
  match nexts with
  | [] => Val tt
  | n :: nexts =>
      _ ← throw_if (0 <=? Clock.compare (any_timestamp n) clock) "Expecting next(s) to happen before entry";
      check_nexts clock nexts
  end.

Definition create (l : Log) (clock : @LamportClock (list Z)) (gid0 : string) (data : Data) (type : option EntryType)
    (meta_data : option (list Z)) (nexts : list ShallowOrFullEntry) : outcome (Entry * Log) :=
  _ ← check_nexts (lc_timestamp clock) nexts;
  _ ← throw_if (existsb (fun n => bool_decide (any_hash n = ""%string)) nexts) "Expecting hash to be defined to next entries";
  let gid := default gid0 (fold_left min_gid nexts None) in
  let meta := MkMeta clock gid (map any_hash nexts) (default APPEND type) meta_data in
  accepted ← _canAppend None meta (byteLength data);
  _ ← throw_if (negb accepted) "AccessError";
  let entry := MkEntry (multihash meta data) meta (byteLength data) in
  let s := lg_entryIndex l in
  Val (entry, set_index l (MkEntryIndex (ei_index s) (ei_cache s) (Map_set (ei_store s) (en_hash entry) entry) (ei_length s) (ei_sort s))).

Definition no_join_options : JoinOptions := MkJoinOptions false None None false false.

(** A given entry to follow that is not in the log is joined first. *)
Definition join_next (fuel : nat) (l : Log) (e : ShallowOrFullEntry) : outcome Log :=
  '(known, l) ← log_has l (any_hash e);
  if known : bool then Val l else
  '(entry, l) ← match e with
                | Full e => Val (Some e, l)
                | Shallow e => '(r, s) ← resolve (now_ l) (lg_entryIndex l) (se_hash e) false; Val (r, set_index l s)
                end;
  match entry with
  | None => Val l
  | Some entry => join fuel l (JoinArray [ItemEntry entry]) no_join_options
  end.

(** Up to the report of the change; what a cut removes is deleted after it. *)
Definition append_begin (fuel : nat) (l : Log) (data : Data) (gid0 : string) (options : AppendOptions)
    : outcome (Entry * list ShallowOrFullEntry * list PendingDelete * Log) :=
  _ ← throw_if (existsb (fun n => bool_decide (any_hash n = ""%string)) (default [] (ao_next options)))
        "Expecting nexts to already be saved. missing hash for one or more entries";
  nexts ← match ao_next options with
          | Some nexts => Val nexts
          | None => heads ← getHeads (lg_entryIndex l) None; Val (map Shallow heads)
          end;
  '(timestamp, l) ← match ao_timestamp options with
                    | Some t => Val (t, l)
                    | None => '(t, h) ← Clock.now (lg_hlc l) (wall_time (lg_tick l)); Val (t, set_hlc l h)
                    end;
  let clock := MkLamportClock (lg_identity l) timestamp in
  '(entry, l) ← create l clock gid0 data (ao_type options) (ao_data options) nexts;
  _ ← throw_if (bool_decide (en_hash entry = ""%string)) "Unexpected";
  l ← match meta_type (en_meta entry) with
      | CUT => Val l
      | APPEND => foldM (join_next fuel) l nexts
      end;
  '(gids, s) ← put (en_hash entry) (now_ l) (lg_entryIndex l) (Some (en_hash entry)) (en_meta entry) (en_payloadSize entry)
                 true true false;
  let l := tell_gids (set_index l s) gids in
  '(l, pendingDeletes) ← processEntry fuel l entry;
  '(trimmed, l) ← log_trim l (ao_trim options);
  let removed := map (fun d => Shallow (pd_entry d)) pendingDeletes ++ map Full trimmed in
  let l := tell l (if ao_onChange options then OptionsOnChange else LogOnChange) (MkChange [(true, entry)] removed) in
  Val (entry, removed, pendingDeletes, l).

Definition append (fuel : nat) (l : Log) (data : Data) (gid0 : string) (options : AppendOptions)
    : outcome (Entry * list ShallowOrFullEntry * Log) :=
  '(entry, removed, pendingDeletes, l) ← append_begin fuel l data gid0 options;
  l ← run_deletes l pendingDeletes;
  Val (entry, removed, l).

End Log.
