(* ===== verification/LogState.v ===== *)
(** * The state of a log

    [log_wf] is the invariant of a log of [APPEND] entries: the index is well
    formed, the cache holds entries of the log only, everything a stored entry
    follows is stored, no entry is later than the clock, and the entries marked
    as heads are those nothing follows - up to a set of entries still to be
    followed, which is empty between two calls. *)

From Stdlib Require Import ZArith Lia.
From stdpp Require Import base list strings.
From S2P Require Import Prelude JsMap Cache Clock JsVal Query IndexInterface SimpleIndex SimpleIndexFacts Integers LogSorting EntryIndex EntryIndexFacts Trim Log.

Local Open Scope Z_scope.

Abbreviation table l := (ei_index (lg_entryIndex l)).
Abbreviation store l := (ei_store (lg_entryIndex l)).

Section State.
Context `{JsEnv, Document ShallowEntry, !DocumentLaws ShallowEntry, !ShallowDocument}.
Context {Q : Type} `{Queue Q string, !QueueLaws Q string, LogEnv}.
Implicit Types (l : Log (Q := Q)) (e : Entry).

Definition in_log l (h : string) : Prop := is_Some (meta_of (table l) h).

(** ** The heads *)

Definition head_of (gid : option string) (x : ShallowEntry) : bool :=
  se_head x && match gid with Some g => bool_decide (g = ""%string) || bool_decide (smeta_gid (se_meta x) = g) | None => true end.

Lemma getHeads_val (s : EntryIndex (Q := Q)) gid :
  index_wf s -> exists hs, getHeads s gid = Val hs /\ hs ≡ₚ List.filter (head_of gid) (entries (ei_index s)).
Proof.
  intros Hs. unfold getHeads.
  set (qs := match gid with Some _ => _ | None => _ end).
  set (ps := match gid with Some g => if bool_decide (g = ""%string) then [] else [fun x => bool_decide (smeta_gid (se_meta x) = g)] | None => [] end).
  assert (Hsel : selects (ei_index s) (new_BoolQuery "head"%string true :: qs) (fun x => forallb (fun p => p x) (se_head :: ps))).
  { split; [by destruct qs|]. intros x fuel. apply matches_scalars. constructor; [apply decides_head|].
    subst qs ps. destruct gid as [g|]; [|constructor]. destruct (bool_decide _); constructor; [|constructor]. intros y f ih. reflexivity. }
  destruct (iterate_all_val s _ _ _ (io_table _ Hs) Hsel (io_sort _ Hs)) as (hs & -> & Hp).
  exists hs. split; [done|]. rewrite Hp. erewrite List.filter_ext; [done|]. intros x. unfold head_of. cbn [forallb]. f_equal.
  subst ps. destruct gid as [g|]; [|done]. destruct (bool_decide (g = _)); [done|]. cbn [forallb]. by rewrite andb_true_r.
Qed.

(** ** The invariant *)

Definition entry_time (m : ShallowMeta) : Timestamp := lc_timestamp (smeta_clock m).

Record log_wf (P : string -> Prop) l : Prop := {
  lw_index : index_wf (lg_entryIndex l);
  lw_cache : cached_ok (lg_entryIndex l);
  lw_heads : heads_upto P (table l);
  lw_closed h m a : meta_of (table l) h = Some m -> a ∈ smeta_next m -> in_log l a;
  lw_append h m : meta_of (table l) h = Some m -> smeta_type m = APPEND;
  lw_hash h : in_log l h -> h <> ""%string;
  lw_past h m : meta_of (table l) h = Some m -> entry_time m = last (lg_hlc l) \/ Timestamp_lt (entry_time m) (last (lg_hlc l));
  lw_last : Timestamp_wf (last (lg_hlc l));
  lw_trim : tr_trim (lg_trim l) = None;
}.

Lemma in_log_stored l h : in_log l h <-> is_Some (stored_at (table l) h).
Proof. apply meta_stored. Qed.

(** Only the cache, the callbacks and the counter of clock readings change. *)
Record same_log l l' : Prop := {
  sl_length : ei_length (lg_entryIndex l') = ei_length (lg_entryIndex l);
  sl_table : table l' = table l;
  sl_store : store l' = store l;
  sl_hlc : lg_hlc l' = lg_hlc l;
  sl_trim : lg_trim l' = lg_trim l;
}.

Lemma same_in l l' h : same_log l l' -> in_log l' h <-> in_log l h.
Proof. intros Hs. unfold in_log. by rewrite (sl_table _ _ Hs). Qed.

Lemma same_trans l l1 l2 : same_log l l1 -> same_log l1 l2 -> same_log l l2.
Proof. intros [] []. split; congruence. Qed.

Lemma log_wf_same P l l' :
  log_wf P l -> same_log l l' -> index_wf (lg_entryIndex l') -> cached_ok (lg_entryIndex l') -> log_wf P l'.
Proof. intros [] [El E Es Eh Et] Hw Hc. split; unfold in_log in *; rewrite ?El, ?E, ?Es, ?Eh, ?Et; done. Qed.

Lemma log_has_wf P l h :
  log_wf P l -> exists l', log_has l h = Val (bool_decide (in_log l h), l') /\ log_wf P l' /\ same_log l l'.
Proof.
  intros Hok. unfold log_has. destruct (lw_index _ _ Hok) as [HT Hlen Hc Hsort].
  destruct (has_known (now_ l) (lg_entryIndex l) h Hc (lw_cache _ _ Hok)) as (c & -> & Hc' & Hcached).
  assert (Eb : bool_decide (is_Some (stored_at (table l) h)) = bool_decide (in_log l h))
    by (apply bool_decide_ext; by rewrite in_log_stored).
  cbn [mbind outcome_bind]. rewrite Eb. exists (set_index l (with_cache (lg_entryIndex l) c)).
  split; [done|]. split; [|done]. by apply (log_wf_same P l).
Qed.

Lemma log_wf_tell P l who c : log_wf P l -> log_wf P (tell l who c).
Proof. intros Hok. apply (log_wf_same P l); [done|done|apply Hok|apply Hok]. Qed.

Lemma not_followed P l h : log_wf P l -> ~ in_log l h -> followed (table l) h = false.
Proof.
  intros Hok Hn. apply not_true_iff_false. intros (k & x & Hs & Hh)%followed_spec; [|apply Hok].
  apply Hn. apply (lw_closed _ _ Hok k (se_meta x)); [unfold meta_of; by rewrite Hs|done].
Qed.

Lemma heads_upto_sub (P P' : string -> Prop) (T : HashmapIndex ShallowEntry) :
  (forall h, P h -> is_Some (stored_at T h) -> P' h \/ followed T h = true) -> heads_upto P T -> heads_upto P' T.
Proof.
  intros HP Hh h x Hx. destruct (Hh h x Hx) as [|[Hp Hf]]; [by left|].
  destruct (HP h Hp) as [|E]; [by exists x|by right|left; by rewrite E, Hf].
Qed.

Lemma log_wf_sub (P P' : string -> Prop) l :
  (forall h, P h -> in_log l h -> P' h \/ followed (table l) h = true) -> log_wf P l -> log_wf P' l.
Proof.
  intros HP Hok. destruct Hok. split; try done. eapply heads_upto_sub; [|done]. intros h Hp Hs. apply HP; [done|by apply in_log_stored].
Qed.

Lemma log_wf_exact l : log_wf (fun _ => False) l -> heads_exact (table l).
Proof. intros Hok. eapply heads_upto_exact; [|apply Hok]. by intros h []. Qed.

Lemma follower_in_log P l e a :
  log_wf P l -> meta_of (table l) (en_hash e) = Some (new_ShallowMeta (en_meta e)) -> a ∈ meta_next (en_meta e) ->
  followed (table l) a = true.
Proof.
  intros Hok Hm Ha. apply followed_spec; [apply Hok|]. unfold meta_of in Hm.
  destruct (stored_at (table l) (en_hash e)) as [x|] eqn:E; [|done]. exists (en_hash e), x. split; [done|].
  injection Hm as ->. done.
Qed.

(** ** Putting an entry *)

Lemma log_trim_none l o : tr_trim (lg_trim l) = None -> o = None -> log_trim l o = Val ([], l).
Proof. intros E ->. unfold log_trim, Trim.trim. rewrite E. cbn [mbind outcome_bind default]. by destruct l as [[]]. Qed.

(** The log once a fresh entry whose nexts are in has been put. *)
Lemma put_log_wf computed toMultiHash P l e isHead s l' :
  log_wf P l -> meta_type (en_meta e) = APPEND -> en_hash e <> ""%string -> ~ in_log l (en_hash e) ->
  (forall a, a ∈ meta_next (en_meta e) -> in_log l a) ->
  stored_ok computed toMultiHash e isHead (lg_entryIndex l) s ->
  lg_entryIndex l' = s -> lg_trim l' = lg_trim l ->
  let time := lc_timestamp (meta_clock (en_meta e)) in
  (time = last (lg_hlc l') \/ Timestamp_lt time (last (lg_hlc l'))) ->
  (last (lg_hlc l) = last (lg_hlc l') \/ Timestamp_lt (last (lg_hlc l)) (last (lg_hlc l'))) ->
  Timestamp_wf (last (lg_hlc l')) ->
  log_wf (fun h => P h \/ (h = en_hash e /\ isHead = false)) l' /\
  forall h, meta_of (table l') h = if decide (en_hash e = h) then Some (new_ShallowMeta (en_meta e)) else meta_of (table l) h.
Proof.
  intros Hok Happ Hne Hn Hnext Hst Es Et time Hpast Hlast Hwf.
  assert (Hm : forall h, meta_of (table l') h = if decide (en_hash e = h) then Some (new_ShallowMeta (en_meta e)) else meta_of (table l) h).
  { intros h. rewrite Es. by eapply put_meta. }
  split; [|done].
  assert (Hfresh : stored_at (table l) (en_hash e) = None) by (apply eq_None_not_Some; by rewrite <- in_log_stored).
  assert (Hin : in_log l' (en_hash e)) by (unfold in_log; rewrite Hm, decide_True; done).
  assert (Hsub : forall h, in_log l h -> in_log l' h) by (intros h Hh; unfold in_log; rewrite Hm; by case_decide).
  assert (Hself : en_hash e ∉ meta_next (en_meta e)) by (intros Hs; by apply Hn, Hnext).
  split.
  - rewrite Es. by apply (put_index_wf computed toMultiHash e isHead (lg_entryIndex l)), Hst; [apply Hok|].
  - intros h Hh. rewrite <- meta_stored. rewrite Es in Hh. destruct Hst as (_ & _ & _ & _ & _ & Hholds).
    destruct (Hholds h Hh) as [Hc| ->]; [|done]. apply Hsub, in_log_stored, (lw_cache _ _ Hok), Hc.
  - rewrite Es. pose proof (heads_after_put P _ _ _ _ _ _ (io_table _ (lw_index _ _ Hok)) (lw_heads _ _ Hok) Hfresh Hself
      (fun _ => not_followed P l _ Hok Hn) Hst) as Hheads.
    intros h x Hx. destruct (Hheads h x Hx) as [|[[[Hp _]|(-> & Hi & _)] Hhd]]; [by left|right; auto|right; auto].
  - intros h m a. rewrite Hm. case_decide as Hx; [|intros Hh Ha; by apply Hsub, (lw_closed _ _ Hok h m)].
    intros [= <-] Ha. by apply Hsub, Hnext.
  - intros h m. rewrite Hm. case_decide; [by intros [= <-]|apply Hok].
  - intros h. unfold in_log. rewrite Hm. case_decide; [by subst h|apply Hok].
  - intros h m. rewrite Hm. case_decide as Hx; [intros [= <-]; exact Hpast|]. intros Hh.
    destruct (lw_past _ _ Hok h m Hh) as [->|?], Hlast as [<-|?]; auto. right. by etransitivity.
  - done.
  - rewrite Et. apply Hok.
Qed.

End State.

(** * Appending to a log

    Appending without naming what to follow makes the new entry follow all the
    heads and leaves it the only head.  A rejected head of a join leaves behind
    entries that nothing follows and that are not marked as heads. *)

Section Append.
Context `{JsEnv, Document ShallowEntry, !DocumentLaws ShallowEntry, !ShallowDocument}.
Context {Q : Type} `{Queue Q string, !QueueLaws Q string, LogEnv}.
Implicit Types (l : Log (Q := Q)) (e : Entry).

Lemma check_nexts_ok clock ns :
  (forall n, n ∈ ns -> Timestamp_lt (any_timestamp n) clock) -> check_nexts clock ns = Val tt.
Proof.
  induction ns as [|n ns IH]; intros Hn; [done|]. cbn [check_nexts].
  assert (Hlt : Timestamp_lt (any_timestamp n) clock) by (apply Hn; left). unfold Timestamp_lt in Hlt. rewrite Hlt.
  cbn [Z.leb Z.compare throw_if mbind outcome_bind]. apply IH. intros m Hm. apply Hn. by right.
Qed.

Lemma join_nexts_known P fuel l ns :
  log_wf P l -> (forall n, n ∈ ns -> in_log l (any_hash n)) ->
  exists l', foldM (join_next fuel) l ns = Val l' /\ log_wf P l' /\ same_log l l' /\ lg_hlc l' = lg_hlc l.
Proof.
  revert l. induction ns as [|n ns IH]; intros l Hok Hn; cbn [foldM]; [by exists l|].
  destruct (log_has_wf P l (any_hash n) Hok) as (l1 & E1 & Hok1 & Hs).
  assert (Estep : join_next fuel l n = Val l1).
  { unfold join_next. rewrite E1. cbn [mbind outcome_bind]. by rewrite bool_decide_true by (apply Hn; left). }
  rewrite Estep. cbn [mbind outcome_bind].
  destruct (IH l1 Hok1) as (l2 & -> & Hok2 & Hs2 & Hh).
  { intros m Hm. rewrite (same_in _ _ _ Hs). apply Hn. by right. }
  exists l2. split_and!; [done|done|by eapply same_trans|]. rewrite Hh. apply Hs.
Qed.

(** The entry [append] makes. *)
Definition appended l (t : Timestamp) (gid0 : string) (data : Data) (meta_data : option (list Z)) (heads : list ShallowEntry) : Entry :=
  let gid := default gid0 (fold_left min_gid (map Shallow heads) None) in
  let meta := MkMeta (MkLamportClock (lg_identity l) t) gid (map se_hash heads) APPEND meta_data in
  MkEntry (multihash meta data) meta (byteLength data).

Definition plain_append (meta_data : option (list Z)) (onChange : bool) : AppendOptions :=
  MkAppendOptions None meta_data None None None onChange.

(** What [createGid] made, or the least gid of the heads. *)
Lemma create_ok P l t gid0 data meta_data heads :
  log_wf P l -> (forall x, x ∈ heads -> in_log l (se_hash x) /\ Timestamp_lt (entry_time (se_meta x)) t) ->
  let e := appended l t gid0 data meta_data heads in
  option_canAppend None (en_meta e) (byteLength data) = Val true ->
  create l (MkLamportClock (lg_identity l) t) gid0 data None meta_data (map Shallow heads) =
    Val (e, set_index l (MkEntryIndex (table l) (ei_cache (lg_entryIndex l)) (Map_set (store l) (en_hash e) e)
                           (ei_length (lg_entryIndex l)) (ei_sort (lg_entryIndex l)))).
Proof.
  intros Hok Hh e Hacc. unfold create. rewrite check_nexts_ok.
  2: { intros n (x & -> & Hx)%list_elem_of_fmap. by apply Hh. }
  cbn [mbind outcome_bind].
  assert (Ex : existsb (fun n => bool_decide (any_hash n = ""%string)) (map Shallow heads) = false).
  { apply not_true_iff_false. intros (n & Hn & Hb)%existsb_exists. apply list_elem_of_In, list_elem_of_fmap in Hn as (x & -> & Hx).
    apply bool_decide_eq_true in Hb. destruct (Hh x Hx) as [Hin _]. by apply (lw_hash _ _ Hok _ Hin). }
  rewrite Ex. cbn [throw_if mbind outcome_bind]. rewrite map_map. cbn [default].
  change (map (fun x => any_hash (Shallow x)) heads) with (map se_hash heads).
  unfold _canAppend. unfold e, appended in Hacc. cbn [en_meta] in Hacc. by rewrite Hacc.
Qed.

Lemma getHeads_log P l gid : log_wf P l -> exists heads, getHeads (lg_entryIndex l) gid = Val heads /\
  forall x, x ∈ heads <-> stored_at (table l) (se_hash x) = Some x /\ head_of gid x = true.
Proof.
  intros Hok. destruct (getHeads_val (lg_entryIndex l) gid (lw_index _ _ Hok)) as (heads & E & Hp). exists heads. split; [done|].
  intros x. by rewrite Hp, list_elem_of_In, filter_In, <- list_elem_of_In, (stored_entry (table l) x) by apply Hok.
Qed.

(** [put] of a fresh entry once the clock gave its time. *)
Lemma put_append computed P l e :
  log_wf P l -> meta_type (en_meta e) = APPEND -> en_hash e <> ""%string -> ~ in_log l (en_hash e) ->
  (forall a, a ∈ meta_next (en_meta e) -> in_log l a) -> lc_timestamp (meta_clock (en_meta e)) = last (lg_hlc l) ->
  exists gids s, put computed (now_ l) (lg_entryIndex l) (Some (en_hash e)) (en_meta e) (en_payloadSize e) true true false = Val (gids, s) /\
    let l' := tell_gids (set_index l s) gids in
    log_wf P l' /\
    forall k, meta_of (table l') k = if decide (en_hash e = k) then Some (new_ShallowMeta (en_meta e)) else meta_of (table l) k.
Proof.
  intros Hok Happ Hne Hn Hnext Ht.
  assert (Hfresh : stored_at (table l) (en_hash e) = None) by (apply eq_None_not_Some; by rewrite <- in_log_stored).
  destruct (put_ok computed (now_ l) (lg_entryIndex l) (en_hash e) (en_meta e) (en_payloadSize e) true true false
    (lw_index _ _ Hok) Happ Hne Hfresh) as (gids & s & -> & Hst & _); [intros Hs; by apply Hn, Hnext|by left|].
  replace (MkEntry (en_hash e) (en_meta e) (en_payloadSize e)) with e in Hst by by destruct e.
  exists gids, s. split; [done|]. intros l'.
  assert (E : lg_hlc l' = lg_hlc l /\ lg_entryIndex l' = s /\ lg_trim l' = lg_trim l) by by destruct gids.
  destruct E as (Eh & Es & Et).
  destruct (put_log_wf computed false P l e true s l' Hok Happ Hne Hn Hnext Hst Es Et) as (Hw & Hm); rewrite ?Eh; try done;
    [by left|by left|apply Hok|].
  split; [|done]. eapply log_wf_sub; [|exact Hw]. intros k [?|[_ ?]]; [by left|done].
Qed.

(** The clock moves on; the store may change. *)
Lemma log_wf_clock P l (h : HLC) st :
  log_wf P l -> Timestamp_lt (last (lg_hlc l)) (last h) -> Timestamp_wf (last h) ->
  let s := lg_entryIndex l in
  log_wf P (set_index (set_hlc l h) (MkEntryIndex (ei_index s) (ei_cache s) st (ei_length s) (ei_sort s))).
Proof.
  intros [[] ? ? ? ? ? Hpast ? ?] Hlt Hwf s. split; try done. intros k m Hm. right.
  destruct (Hpast k m Hm) as [->|?]; [done|by etransitivity].
Qed.

(** After the entry follows all heads it is the only one. *)
Lemma only_head l l' e heads :
  log_wf (fun _ => False) l -> log_wf (fun _ => False) l' ->
  (forall x, x ∈ heads <-> stored_at (table l) (se_hash x) = Some x /\ head_of None x = true) ->
  meta_next (en_meta e) = map se_hash heads -> ~ in_log l (en_hash e) ->
  (forall k, meta_of (table l') k = if decide (en_hash e = k) then Some (new_ShallowMeta (en_meta e)) else meta_of (table l) k) ->
  forall k x, stored_at (table l') k = Some x -> se_head x = bool_decide (k = en_hash e).
Proof.
  intros Hok Hok' Hheads Hnext Hn Hm k x Hx.
  rewrite (log_wf_exact l' Hok' k x Hx). apply eq_true_iff_eq. rewrite negb_true_iff, bool_decide_eq_true.
  assert (Hfol : forall k' m, meta_of (table l') k' = Some m -> k ∈ smeta_next m -> followed (table l') k = true).
  { intros k' m Hk' Hin. apply followed_spec; [apply Hok'|]. unfold meta_of in Hk'.
    destruct (stored_at (table l') k') as [y|] eqn:E; [|done]. injection Hk' as <-. by exists k', y. }
  split.
  - intros Hf. destruct (decide (k = en_hash e)) as [|Hne]; [done|]. exfalso.
    assert (Hx' : is_Some (meta_of (table l) k)).
    { assert (Hs : meta_of (table l') k = Some (se_meta x)) by (unfold meta_of; by rewrite Hx). rewrite Hm, decide_False in Hs by done. by exists (se_meta x). }
    apply meta_stored in Hx' as [y Hy]. pose proof (stored_hash _ _ _ (io_table _ (lw_index _ _ Hok)) Hy) as Hyk.
    destruct (followed (table l) k) eqn:Ef.
    + apply followed_spec in Ef as (k' & z & Hz & Hin); [|apply Hok]. rewrite (Hfol k' (se_meta z)) in Hf; [done| |done].
      rewrite Hm, decide_False; [unfold meta_of; by rewrite Hz|]. intros <-. apply Hn, in_log_stored. by exists z.
    + rewrite (Hfol (en_hash e) (new_ShallowMeta (en_meta e))) in Hf; [done|by rewrite Hm, decide_True|].
      simpl. rewrite Hnext. apply list_elem_of_fmap. exists y. split; [done|]. apply Hheads. rewrite Hyk. split; [done|].
      unfold head_of. rewrite (log_wf_exact l Hok k y Hy), Ef. done.
  - intros ->. apply not_true_iff_false. intros (k' & z & Hz & Hin)%followed_spec; [|apply Hok'].
    assert (Hs : meta_of (table l') k' = Some (se_meta z)) by (unfold meta_of; by rewrite Hz). rewrite Hm in Hs.
    case_decide as Hk; [|by apply Hn, (lw_closed _ _ Hok k' (se_meta z))].
    injection Hs as Hs. rewrite <- Hs in Hin. simpl in Hin. rewrite Hnext in Hin.
    apply list_elem_of_fmap in Hin as (y & Hy & Hin). apply Hheads in Hin as [Hin _]. apply Hn, in_log_stored. rewrite Hy. by exists y.
Qed.


End Append.
