(* ===== verification/LogJoin.v ===== *)
(** * Joining a log

    On a log of [APPEND] entries in which everything an entry follows is present,
    joining entries whose ancestors can be found - in the log, among the joined
    entries, in the block store or at other nodes - ends, adds exactly the
    ancestors that were missing, keeps the log closed under ancestors, and leaves
    an entry marked as a head exactly when no entry of the log follows it. *)

From Stdlib Require Import ZArith Lia.
From stdpp Require Import base list strings.
From S2P Require Import Prelude JsMap Cache Clock JsVal Query IndexInterface SimpleIndex SimpleIndexFacts Integers LogSorting EntryIndex EntryIndexFacts Trim Log LogState.

Local Open Scope Z_scope.

Section Facts.
Context `{JsEnv, Document ShallowEntry, !DocumentLaws ShallowEntry, !ShallowDocument}.
Context {Q : Type} `{Queue Q string, !QueueLaws Q string, LogEnv}.
Implicit Types (l : Log (Q := Q)) (e : Entry).

(** ** The entries a join can meet *)

Record universe (U : list Entry) (rank : string -> nat) (B : Z) : Prop := {
  un_hash e : e ∈ U -> en_hash e <> ""%string;
  un_unique e e' : e ∈ U -> e' ∈ U -> en_hash e = en_hash e' -> e = e';
  un_honest e : e ∈ U -> multihash_of e = en_hash e;
  un_append e : e ∈ U -> meta_type (en_meta e) = APPEND;
  un_rank e a : e ∈ U -> a ∈ meta_next (en_meta e) -> (rank a < rank (en_hash e))%nat;
  un_accepted e : e ∈ U -> option_canAppend (Some (en_hash e)) (en_meta e) (en_payloadSize e) = Val true;
  un_signed e : e ∈ U -> verifySignatures e = true;
  un_time e : e ∈ U -> Timestamp_wf (lc_timestamp (meta_clock (en_meta e))) /\ wallTime (lc_timestamp (meta_clock (en_meta e))) <= B;
  un_wall n : wall_time n <= B;
  un_remote a e : remote_get a = Some e -> MkEntry a (en_meta e) (en_payloadSize e) ∈ U;
}.

Section Universe.
Context (U : list Entry) (rank : string -> nat) (B : Z) (HU : universe U rank B).

(** Entries that are not in the log yet. *)
Definition missing l : nat := length (List.filter (fun e => negb (bool_decide (in_log l (en_hash e)))) U).

(** The log: its invariant, a store that holds entries of the universe, and a
    clock with room for what is missing. *)
Record log_ok (P : string -> Prop) l : Prop := {
  lo_wf : log_wf P l;
  lo_store a e : Map_get (store l) a = Some e -> MkEntry a (en_meta e) (en_payloadSize e) ∈ U;
  lo_offset : maxOffset (lg_hlc l) = 0;
  lo_jump : toleratedForwardClockJump (lg_hlc l) = 0;
  lo_bound : wallTimeUpperBound (lg_hlc l) = 0;
  lo_clock : wallTime (last (lg_hlc l)) + Z.of_nat (missing l) <= UINT64_MAX;
  lo_clockB : B + Z.of_nat (missing l) <= UINT64_MAX;
  lo_room : ei_length (lg_entryIndex l) + Z.of_nat (missing l) <= MAX_SAFE_INTEGER;
}.

(** What a join adds: entries of the universe, each with [new]. *)
Record grows (new : string -> Prop) l l' : Prop := {
  gr_meta h m : meta_of (table l) h = Some m -> meta_of (table l') h = Some m;
  gr_new h m : meta_of (table l') h = Some m -> meta_of (table l) h = Some m \/
    exists e, e ∈ U /\ en_hash e = h /\ m = new_ShallowMeta (en_meta e) /\ new h;
  gr_store a : is_Some (Map_get (store l) a) -> is_Some (Map_get (store l') a);
}.

Lemma grows_refl new l l' : table l' = table l -> store l' = store l -> grows new l l'.
Proof. intros E E'. split; rewrite ?E, ?E'; auto. Qed.

Lemma grows_trans (new new1 new2 : string -> Prop) l l1 l2 :
  (forall h, new1 h -> new h) -> (forall h, new2 h -> new h) -> grows new1 l l1 -> grows new2 l1 l2 -> grows new l l2.
Proof.
  intros H1n H2n [M1 N1 S1] [M2 N2 S2]. split; [auto| |auto]. intros h m Hm.
  destruct (N2 h m Hm) as [Hm1|(e & ? & ? & ? & ?)]; [|right; exists e; auto].
  destruct (N1 h m Hm1) as [|(e & ? & ? & ? & ?)]; [by left|right; exists e; auto].
Qed.

Lemma grows_in new l l' h : grows new l l' -> in_log l h -> in_log l' h.
Proof. intros Hg [m Hm]. exists m. by apply (gr_meta _ _ _ Hg). Qed.

Inductive ancestor : Entry -> string -> Prop :=
| anc_self e : ancestor e (en_hash e)
| anc_next e a e' h : a ∈ meta_next (en_meta e) -> e' ∈ U -> en_hash e' = a -> ancestor e' h -> ancestor e h.

(** ** Steps *)

Lemma missing_same l l' : table l' = table l -> missing l' = missing l.
Proof. intros E. unfold missing, in_log. by rewrite E. Qed.

Lemma log_ok_same P l l' : log_ok P l -> same_log l l' -> log_wf P l' -> log_ok P l'.
Proof. intros [] [El E Es Eh Et] Hw. split; rewrite ?El, ?Es, ?Eh, ?(missing_same l l') by done; done. Qed.

Lemma log_has_ok P l h :
  log_ok P l -> exists l', log_has l h = Val (bool_decide (in_log l h), l') /\ log_ok P l' /\ same_log l l'.
Proof.
  intros Hok. destruct (log_has_wf P l h (lo_wf _ _ Hok)) as (l' & -> & Hw & Hs). exists l'. split; [done|].
  split; [by apply (log_ok_same P l)|done].
Qed.

Lemma clock_step P l t :
  log_ok P l -> (0 < missing l)%nat -> Timestamp_wf t -> wallTime t <= B ->
  exists t' h, update (lg_hlc l) (wall_time (lg_tick l)) t = Val (t', h) /\ last h = t' /\
    maxOffset h = 0 /\ toleratedForwardClockJump h = 0 /\ wallTimeUpperBound h = 0 /\ Timestamp_wf t' /\
    wallTime t' <= Z.max (wallTime (last (lg_hlc l))) B + 1 /\
    Timestamp_lt t t' /\ Timestamp_lt (last (lg_hlc l)) t'.
Proof.
  intros [Hwl _ Ho Hj Hb Hr HrB _] Hm Ht HtB. pose proof (lw_last _ _ Hwl) as Hl. pose proof (un_wall _ _ _ HU (lg_tick l)) as Hw.
  set (latest := bigger t (last (lg_hlc l))).
  assert (Hwf : Timestamp_wf latest) by (subst latest; unfold bigger; by destruct (_ =? _)).
  assert (Hle : wallTime latest <= Z.max (wallTime (last (lg_hlc l))) B) by (subst latest; unfold bigger; destruct (_ =? _); lia).
  destruct (next_time latest (wall_time (lg_tick l))) as [w lg] eqn:En.
  destruct (next_time_above latest _ w lg Hwf En) as (Hlt & Hlg & _).
  assert (Hnext : forall m wall, wall <= B -> next_time m wall = (w, lg) -> w <= Z.max (wallTime m) B + 1).
  { clear. intros m wall Hw. unfold next_time. case_ifs_all; intros [= <- <-]; lia. }
  assert (Hwle : w <= Z.max (wallTime (last (lg_hlc l))) B + 1) by (specialize (Hnext _ _ Hw En); lia).
  exists (MkTimestamp w lg). eexists. split.
  { unfold update. fold latest. unfold validateOffset, maxWallTime. rewrite Ho, Hj, Hb. cbn [Z.ltb Z.compare andb mbind outcome_bind].
    rewrite En. assert ((UINT64_MAX <? w) = false) as -> by lia. done. }
  destruct (bigger_spec t (last (lg_hlc l))) as (_ & H1b & H2b). fold latest in H1b, H2b.
  cbn [last maxOffset toleratedForwardClockJump wallTimeUpperBound]. split_and!; try done.
  - destruct H1b as [Eq|?]; [by rewrite <- Eq|by transitivity latest].
  - destruct H2b as [Eq|?]; [by rewrite <- Eq|by transitivity latest].
Qed.

Lemma missing_lt l l' e :
  (forall h, in_log l h -> in_log l' h) -> e ∈ U -> ~ in_log l (en_hash e) -> in_log l' (en_hash e) ->
  (missing l' < missing l)%nat.
Proof.
  intros Hsub He Hn Hin. unfold missing. clear HU.
  set (f := fun l e => negb (bool_decide (in_log l (en_hash e)))). change (length (List.filter (f l') U) < length (List.filter (f l) U))%nat.
  assert (Hf : forall x, f l' x = true -> f l x = true).
  { intros x. unfold f. rewrite !negb_true_iff, !bool_decide_eq_false. auto. }
  assert (Hle : forall V, (length (List.filter (f l') V) <= length (List.filter (f l) V))%nat).
  { intros V. induction V as [|x V IH]; [done|]. simpl. specialize (Hf x).
    destruct (f l' x), (f l x); simpl; try lia; by specialize (Hf eq_refl). }
  assert (Hf1 : f l e = true) by (unfold f; by rewrite bool_decide_false).
  assert (Hf2 : f l' e = false) by (unfold f; by rewrite bool_decide_true).
  induction U as [|x V IH]; [by apply not_elem_of_nil in He|]. simpl. specialize (Hle V).
  apply elem_of_cons in He as [<-|He].
  - rewrite Hf1, Hf2. simpl. lia.
  - specialize (IH He). specialize (Hf x). destruct (f l' x), (f l x); simpl; try lia; by specialize (Hf eq_refl).
Qed.

Lemma log_ok_tell P l who c : log_ok P l -> log_ok P (tell l who c).
Proof. intros Hok. apply (log_ok_same P l); [done|done|apply log_wf_tell, Hok]. Qed.

(** The log once a fresh entry whose nexts are in has been put. *)
Lemma put_log_ok P l e isHead s l' :
  log_ok P l -> e ∈ U -> ~ in_log l (en_hash e) -> (forall a, a ∈ meta_next (en_meta e) -> in_log l a) ->
  stored_ok (multihash_of e) true e isHead (lg_entryIndex l) s ->
  maxOffset (lg_hlc l') = 0 -> toleratedForwardClockJump (lg_hlc l') = 0 -> wallTimeUpperBound (lg_hlc l') = 0 ->
  Timestamp_wf (last (lg_hlc l')) -> wallTime (last (lg_hlc l')) <= Z.max (wallTime (last (lg_hlc l))) B + 1 ->
  Timestamp_lt (lc_timestamp (meta_clock (en_meta e))) (last (lg_hlc l')) -> Timestamp_lt (last (lg_hlc l)) (last (lg_hlc l')) ->
  lg_entryIndex l' = s -> lg_trim l' = lg_trim l ->
  log_ok (fun h => P h \/ (h = en_hash e /\ isHead = false)) l' /\ grows (fun h => h = en_hash e) l l' /\
    stored_at (table l') (en_hash e) = Some (toShallow e isHead).
Proof.
  intros Hok He Hn Hnext Hst Ho Hj Hb Hwf Hw Hlt Hlast Es Et.
  destruct (put_log_wf _ _ P l e isHead s l' (lo_wf _ _ Hok) (un_append _ _ _ HU e He) (un_hash _ _ _ HU e He) Hn Hnext Hst Es Et)
    as (Hwf' & Hm); [by right|by right|done|].
  assert (Hin : in_log l' (en_hash e)) by (unfold in_log; rewrite Hm, decide_True; done).
  assert (Hsub : forall h, in_log l h -> in_log l' h) by (intros h Hh; unfold in_log; rewrite Hm; by case_decide).
  assert (Hstore : store l' = Map_set (store l) (en_hash e) (MkEntry (en_hash e) (en_meta e) (en_payloadSize e))).
  { rewrite Es. destruct Hst as (_ & -> & _). unfold new_store. by rewrite (un_honest _ _ _ HU e He). }
  assert (Hmiss : (missing l' < missing l)%nat) by by apply (missing_lt l l' e).
  split_and!; [|split|].
  - destruct Hok. split; try done; [|lia|lia|].
    + intros a x. rewrite Hstore, Map_get_set. case_decide as Hx; [|apply lo_store0]. intros [= <-]. cbn. subst a. by destruct e.
    + rewrite Es. destruct Hst as (_ & _ & -> & _). lia.
  - intros h m Hh. rewrite Hm. case_decide as Hx; [|done]. subst h. exfalso. apply Hn. by exists m.
  - intros h m. rewrite Hm. case_decide as Hx; [|by left]. intros [= <-]. right. by exists e.
  - intros a Ha. rewrite Hstore, Map_get_set. by case_decide.
  - rewrite Es. destruct Hst as (Hu & _). rewrite (upd_stored _ _ _ _ Hu), stored_set. cbn [toShallow se_hash].
    rewrite decide_False by (intros [Hs _]; by apply Hn, Hnext). by rewrite decide_True.
Qed.

Lemma same_grows new l l' : same_log l l' -> grows new l l'.
Proof. intros Hs. apply grows_refl; [apply Hs|apply Hs]. Qed.

Lemma log_ok_sub (P P' : string -> Prop) l :
  (forall h, P h -> in_log l h -> P' h \/ followed (table l) h = true) -> log_ok P l -> log_ok P' l.
Proof. intros HP [Hw]. split; try done. by eapply log_wf_sub. Qed.

(** The universe of the log: a known hash is that of the entry of the universe. *)
Definition knows l : Prop := forall h m e, meta_of (table l) h = Some m -> e ∈ U -> en_hash e = h -> m = new_ShallowMeta (en_meta e).

Lemma grows_knows new l l' : grows new l l' -> knows l -> knows l'.
Proof.
  intros Hg Hk h m e Hm He Hh. destruct (gr_new _ _ _ Hg h m Hm) as [Hm'|(e' & He' & Hh' & -> & _)]; [by apply (Hk h)|].
  do 2 f_equal. apply (un_unique _ _ _ HU); congruence.
Qed.

Lemma join_entry_ok P fuel l e isHead opts :
  log_ok P l -> e ∈ U -> ~ in_log l (en_hash e) -> (forall a, a ∈ meta_next (en_meta e) -> in_log l a) -> jo_trim opts = None ->
  exists l', join_entry fuel l e isHead opts = Val (true, l') /\
    log_ok (fun h => P h \/ (h = en_hash e /\ isHead = false)) l' /\ grows (fun h => h = en_hash e) l l' /\
    stored_at (table l') (en_hash e) = Some (toShallow e isHead).
Proof.
  intros Hok He Hn Hnext Ht. unfold join_entry, _canAppend. rewrite (un_accepted _ _ _ HU e He). cbn [negb mbind outcome_bind].
  assert (Hmiss : (0 < missing l)%nat).
  { unfold missing. destruct (List.filter _ U) as [|x V] eqn:E; [|simpl; lia].
    assert (Hbad : e ∈ List.filter (fun e => negb (bool_decide (in_log l (en_hash e)))) U).
    { apply list_elem_of_In, filter_In. split; [by apply list_elem_of_In|]. by rewrite bool_decide_false. }
    rewrite E in Hbad. by apply not_elem_of_nil in Hbad. }
  destruct (un_time _ _ _ HU e He) as [Htw HtB].
  destruct (clock_step P l _ Hok Hmiss Htw HtB) as (t' & h & -> & <- & Ho & Hj & Hb & Hwf & Hw & Hlt & Hlast).
  cbn [mbind outcome_bind]. set (l1 := set_hlc l h). change (lg_entryIndex l1) with (lg_entryIndex l).
  assert (Hfresh : stored_at (table l) (en_hash e) = None) by (apply eq_None_not_Some; by rewrite <- in_log_stored).
  destruct (put_ok (multihash_of e) (now_ l1) (lg_entryIndex l) (en_hash e) (en_meta e) (en_payloadSize e) false isHead true
    (lw_index _ _ (lo_wf _ _ Hok))) as (gids & s & -> & Hst & _); [by apply (un_append _ _ _ HU)|by apply (un_hash _ _ _ HU)|done| | |].
  { intros Hs. specialize (un_rank _ _ _ HU e _ He Hs). lia. }
  { right. intros Hh. apply Hn, in_log_stored. by apply (lw_cache _ _ (lo_wf _ _ Hok)). }
  replace (MkEntry (en_hash e) (en_meta e) (en_payloadSize e)) with e in Hst by by destruct e.
  cbn [mbind outcome_bind]. set (l2 := tell_gids (set_index l1 s) gids).
  assert (E2 : lg_hlc l2 = h /\ lg_entryIndex l2 = s /\ lg_trim l2 = lg_trim l) by by destruct gids.
  destruct E2 as (Eh & Es & Et).
  destruct (put_log_ok P l e isHead s l2 Hok He Hn Hnext Hst) as (Hok2 & Hg & Hin); rewrite ?Eh; try done.
  unfold processEntry. rewrite (un_append _ _ _ HU e He). cbn [mbind outcome_bind].
  rewrite log_trim_none by (apply (lo_wf _ _ Hok2) || done). cbn [mbind outcome_bind map app].
  set (c := MkChange [(isHead, e)] []). set (l3 := if jo_onChange opts then tell l2 OptionsOnChange c else l2).
  exists (tell l3 LogOnChange c). split; [done|].
  assert (Hok3 : log_ok (fun h => P h \/ (h = en_hash e /\ isHead = false)) l3) by (subst l3; destruct (jo_onChange opts); [by apply log_ok_tell|done]).
  assert (E3 : lg_entryIndex l3 = lg_entryIndex l2) by (subst l3; by destruct (jo_onChange opts)).
  split; [by apply log_ok_tell|]. cbn [tell lg_entryIndex]. rewrite E3. split; [|done].
  destruct Hg as [M N S]. split; cbn [tell lg_entryIndex]; rewrite ?E3; done.
Qed.

(** ** Joining one entry and what it follows *)

Lemma ancestor_rank e h : e ∈ U -> ancestor e h -> (rank h <= rank (en_hash e))%nat.
Proof.
  intros He Ha. induction Ha as [e|e a e' h Ha He' <- _ IH]; [done|].
  specialize (IH He'). pose proof (un_rank _ _ _ HU e _ He Ha). lia.
Qed.

Section Join.
Context (refs : list (string * Entry)) (opts : JoinOptions).
Context (Hrefs : forall a e, Map_get refs a = Some e -> e ∈ U /\ en_hash e = a).
Context (Hreset : jo_reset opts = false) (Hlength : jo_length opts = None) (Htrim : jo_trim opts = None).

(** Where a followed entry can be found. *)
Definition found l a : Prop :=
  in_log l a \/ is_Some (Map_get refs a) \/ is_Some (Map_get (store l) a) \/ is_Some (remote_get a).
Definition findable l : Prop := forall e a, e ∈ U -> a ∈ meta_next (en_meta e) -> found l a.

Lemma findable_grows new l l' : grows new l l' -> findable l -> findable l'.
Proof.
  intros Hg Hf e a He Ha. destruct (Hf e a He Ha) as [?|[?|[?|?]]]; unfold found; eauto using grows_in, gr_store.
Qed.

(** Knowing the log and where to find the rest. *)
Record joinable P l : Prop := {
  jb_ok : log_ok P l;
  jb_knows : knows l;
  jb_find : findable l;
}.

Lemma joinable_grows P P' new l l' : joinable P l -> log_ok P' l' -> grows new l l' -> joinable P' l'.
Proof. intros [] Hok Hg. split; [done|by eapply grows_knows|by eapply findable_grows]. Qed.

Lemma nested_found P l a :
  log_ok P l -> ~ in_log l a -> found l a ->
  exists e, e ∈ U /\ en_hash e = a /\
    (match Map_get refs a with Some e => Val e | None => fromMultihash l a end) = Val e.
Proof.
  intros Hok Hn [?|Hf]; [done|]. destruct (Map_get refs a) as [e|] eqn:E; [by exists e; destruct (Hrefs a e E)|].
  destruct Hf as [[? ?]|Hf]; [done|]. unfold fromMultihash.
  assert (Hx : exists x, (match Map_get (store l) a with Some e => Some e | None => remote_get a end) = Some x /\ MkEntry a (en_meta x) (en_payloadSize x) ∈ U).
  { destruct (Map_get (store l) a) as [x|] eqn:Ex; [exists x; split; [done|by apply (lo_store _ _ Hok)]|].
    destruct Hf as [[x ?]|[x Hx]]; [done|]. exists x. split; [done|by apply (un_remote _ _ _ HU)]. }
  destruct Hx as (x & -> & Hx). pose proof (un_hash _ _ _ HU _ Hx) as Hne. cbn [en_hash] in Hne.
  rewrite bool_decide_false by done. by eexists.
Qed.

Definition join_next_step fuel l a : outcome (Log (Q := Q)) :=
  '(known, l) ← log_has l a;
  if known && negb (jo_reset opts) then Val l else
  nested ← match Map_get refs a with Some e => Val e | None => fromMultihash l a end;
  '(_, l) ← joinRecursively fuel l nested refs false opts;
  Val l.

Definition joins fuel : Prop := forall P l e isHead,
  joinable P l -> e ∈ U -> (rank (en_hash e) < fuel)%nat ->
  exists b l', joinRecursively fuel l e refs isHead opts = Val (b, l') /\
    log_ok (fun h => P h \/ (h = en_hash e /\ isHead = false)) l' /\ grows (ancestor e) l l' /\ in_log l' (en_hash e) /\
    (~ in_log l (en_hash e) -> stored_at (table l') (en_hash e) = Some (toShallow e isHead)).

Lemma join_nexts_ok fuel P l e nx :
  joins fuel -> joinable P l -> e ∈ U -> (rank (en_hash e) <= fuel)%nat -> (forall a, a ∈ nx -> a ∈ meta_next (en_meta e)) ->
  exists l', foldM (join_next_step fuel) l nx = Val l' /\ log_ok (fun h => P h \/ h ∈ nx) l' /\
    grows (fun h => ancestor e h /\ h <> en_hash e) l l' /\ (forall a, a ∈ nx -> in_log l' a).
Proof.
  intros IH Hl He Hr. revert P l Hl. induction nx as [|a nx IHn]; intros P l Hl Hnx; cbn [foldM].
  { exists l. split; [done|]. split; [eapply log_ok_sub; [|apply Hl]; auto|]. split; [by apply grows_refl|by intros a ?%not_elem_of_nil]. }
  assert (Ha : a ∈ meta_next (en_meta e)) by (apply Hnx; left).
  assert (Hstep : exists l1, join_next_step fuel l a = Val l1 /\ log_ok (fun h => P h \/ h = a) l1 /\
    grows (fun h => ancestor e h /\ h <> en_hash e) l l1 /\ in_log l1 a).
  { unfold join_next_step. destruct (log_has_ok P l a (jb_ok _ _ Hl)) as (l1 & -> & Hok1 & Hs). cbn [mbind outcome_bind].
    rewrite Hreset, andb_true_r. case_bool_decide as Hin.
    - exists l1. split; [done|]. split; [eapply log_ok_sub; [|exact Hok1]; auto|]. split; [by apply same_grows|by rewrite (same_in _ _ _ Hs)].
    - assert (Hl1 : joinable P l1) by (eapply joinable_grows; [exact Hl|done|by apply (same_grows (fun _ => False))]).
      destruct (nested_found P l1 a Hok1) as (x & Hx & Hxa & ->); [by rewrite (same_in _ _ _ Hs)|by apply (jb_find _ _ Hl1 e)|].
      cbn [mbind outcome_bind]. pose proof (un_rank _ _ _ HU e a He Ha) as Hra.
      destruct (IH P l1 x false Hl1 Hx) as (b & l2 & -> & Hok2 & Hg & Hin2 & _); [rewrite Hxa; lia|].
      cbn [mbind outcome_bind]. exists l2. split; [done|]. rewrite Hxa in *. split.
      { eapply log_ok_sub; [|exact Hok2]. intros h [?|[? _]] _; left; [by left|by right]. }
      split; [|done]. eapply grows_trans; [| |by apply (same_grows (fun _ => False))|exact Hg]; [done|].
      intros h Hh. split; [by eapply anc_next|]. intros ->. pose proof (ancestor_rank x _ Hx Hh). rewrite Hxa in *. lia. }
  destruct Hstep as (l1 & -> & Hok1 & Hg1 & Hin1). cbn [mbind outcome_bind].
  destruct (IHn (fun h => P h \/ h = a) l1) as (l2 & -> & Hok2 & Hg2 & Hin2).
  { by eapply joinable_grows. } { intros b Hb. apply Hnx. by right. }
  exists l2. split; [done|]. split_and!.
  - eapply log_ok_sub; [|exact Hok2]. intros h [[?| ->]|?] _; left; [by left|right; left|right; by right].
  - by eapply grows_trans; [| |exact Hg1|exact Hg2].
  - intros b [->|Hb]%elem_of_cons; [by eapply grows_in|by apply Hin2].
Qed.

Lemma already_deleted_false l e hs :
  (forall x, x ∈ hs -> smeta_type (se_meta x) = APPEND) -> already_deleted l e hs = Val false.
Proof.
  induction hs as [|x hs IH]; intros Hx; [done|]. simpl. unfold cut_by. rewrite (Hx x) by left. cbn.
  apply IH. intros y Hy. apply Hx. by right.
Qed.

Lemma heads_append P l gid : log_ok P l -> exists hs, getHeads (lg_entryIndex l) gid = Val hs /\
  forall e, already_deleted l e hs = Val false.
Proof.
  intros Hok. destruct (getHeads_val (lg_entryIndex l) gid (lw_index _ _ (lo_wf _ _ Hok))) as (hs & E & Hp). exists hs. split; [done|].
  intros e. apply already_deleted_false. intros x Hx. rewrite Hp, list_elem_of_In, filter_In, <- list_elem_of_In in Hx.
  destruct Hx as [Hx _]. apply stored_entry in Hx; [|apply (lo_wf _ _ Hok)]. apply (lw_append _ _ (lo_wf _ _ Hok) (se_hash x)). unfold meta_of. by rewrite Hx.
Qed.

Lemma joins_all fuel : joins fuel.
Proof.
  induction fuel as [|fuel IH]; intros P l e isHead Hl He Hr; [lia|]. cbn [joinRecursively].
  pose proof (jb_ok _ _ Hl) as Hok. rewrite Hlength. cbn [default].
  assert ((MAX_SAFE_INTEGER <? ei_length (lg_entryIndex l)) = false) as -> by (pose proof (lo_room _ _ Hok); lia).
  rewrite bool_decide_false by by apply (un_hash _ _ _ HU). cbn [throw_if mbind outcome_bind].
  destruct (log_has_ok P l (en_hash e) Hok) as (l1 & -> & Hok1 & Hs). cbn [mbind outcome_bind].
  rewrite Hreset, andb_true_r. case_bool_decide as Hin.
  { exists false, l1. split; [done|]. split; [eapply log_ok_sub; [|exact Hok1]; auto|]. split; [by apply same_grows|].
    split; [by rewrite (same_in _ _ _ Hs)|done]. }
  rewrite (un_signed _ _ _ HU e He), andb_false_r. cbn [throw_if mbind outcome_bind].
  destruct (heads_append P l1 (Some (meta_gid (en_meta e))) Hok1) as (hs & -> & Hd). cbn [mbind outcome_bind]. rewrite Hd.
  cbn [mbind outcome_bind]. rewrite (un_append _ _ _ HU e He).
  assert (Hl1 : joinable P l1) by (eapply joinable_grows; [exact Hl|done|by apply (same_grows (fun _ => False))]).
  destruct (join_nexts_ok fuel P l1 e (meta_next (en_meta e)) IH Hl1 He) as (l2 & E2 & Hok2 & Hg2 & Hin2); [lia|done|].
  unfold join_next_step in E2. rewrite Hreset in E2. rewrite E2. cbn [mbind outcome_bind].
  assert (Hn2 : ~ in_log l2 (en_hash e)).
  { intros [m Hm]. destruct (gr_new _ _ _ Hg2 _ m Hm) as [Hm'|(_ & _ & _ & _ & _ & ?)]; [|done].
    apply Hin. rewrite <- (same_in _ _ _ Hs). by exists m. }
  destruct (join_entry_ok _ fuel l2 e isHead opts Hok2 He Hn2 Hin2 Htrim) as (l3 & -> & Hok3 & Hg3 & Hat).
  assert (Hin3 : in_log l3 (en_hash e)) by (apply in_log_stored; rewrite Hat; done).
  exists true, l3. split; [done|]. split.
  - eapply log_ok_sub; [|exact Hok3]. intros h [[?|Hh]|?] _; [by left; left| |by left; right].
    right. eapply follower_in_log; [exact (lo_wf _ _ Hok3)| |exact Hh]. destruct Hin3 as [m Hm]. rewrite Hm. f_equal.
    by apply (grows_knows _ _ _ Hg3 (grows_knows _ _ _ Hg2 (jb_knows _ _ Hl1)) (en_hash e) m e).
  - split; [|by split]. eapply grows_trans; [| |by apply (same_grows (fun _ => False))|]; [done| |].
    2: eapply grows_trans; [| |exact Hg2|exact Hg3]; [by intros h []|intros h ->; apply anc_self].
    done.
Qed.

End Join.

(** ** Which entries are heads among the joined ones *)

Lemma set_false_spec (R : string -> Prop) nx heads :
  (forall h, Map_get heads h = Some false -> R h) -> (forall a, a ∈ nx -> R a) ->
  let heads' := fold_left (fun heads next => Map_set heads next false) nx heads in
  (forall h, Map_get heads' h = Some false -> R h) /\ forall h, is_Some (Map_get heads h) -> is_Some (Map_get heads' h).
Proof.
  revert heads. induction nx as [|a nx IH]; intros heads Hh Hn; [done|]. cbn [fold_left].
  destruct (IH (Map_set heads a false)) as [IH1 IH2].
  - intros h. rewrite Map_get_set. case_decide as Hx; [|apply Hh]. intros _. subst h. apply Hn. left.
  - intros b Hb. apply Hn. by right.
  - split; [done|]. intros h Hs. apply IH2. rewrite Map_get_set. by case_decide.
Qed.

Lemma mark_heads_spec (R : string -> Prop) es heads :
  (forall h, Map_get heads h = Some false -> R h) -> (forall e a, e ∈ es -> a ∈ meta_next (en_meta e) -> R a) ->
  let heads' := fold_left mark_heads es heads in
  (forall h, Map_get heads' h = Some false -> R h) /\ (forall h, is_Some (Map_get heads h) -> is_Some (Map_get heads' h)) /\
  forall e, e ∈ es -> is_Some (Map_get heads' (en_hash e)).
Proof.
  revert heads. induction es as [|e es IH]; intros heads Hh Hn; cbn [fold_left]; [by split_and!; [| |intros e ?%not_elem_of_nil]|].
  assert (Hm : (forall h, Map_get (mark_heads heads e) h = Some false -> R h) /\
    (forall h, is_Some (Map_get heads h) -> is_Some (Map_get (mark_heads heads e) h)) /\ is_Some (Map_get (mark_heads heads e) (en_hash e))).
  { unfold mark_heads, Map_has. destruct (Map_get heads (en_hash e)) as [b|] eqn:E; [by rewrite E|].
    destruct (set_false_spec R (meta_next (en_meta e)) (Map_set heads (en_hash e) true)) as [S1 S2].
    - intros h. rewrite Map_get_set. case_decide; [done|apply Hh].
    - intros a Ha. apply (Hn e); [left|done].
    - split_and!; [done| |apply S2; by rewrite Map_get_set, decide_True].
      intros h Hs. apply S2. rewrite Map_get_set. by case_decide. }
  destruct Hm as (M1 & M2 & M3). destruct (IH (mark_heads heads e) M1) as (I1 & I2 & I3); [intros x a Hx; apply Hn; by right|].
  split_and!; [done|auto|]. intros x [->|Hx]%elem_of_cons; [by apply I2|by apply I3].
Qed.

(** ** What is joined *)

Definition item_hash (i : JoinItem) : string :=
  match i with ItemEntry e | ItemWithRefs e _ => en_hash e | ItemHash h => h | ItemShallow e => se_hash e end.
Definition item_entries (i : JoinItem) : list Entry :=
  match i with ItemEntry e => [e] | ItemWithRefs e rs => e :: rs | _ => [] end.

(** The hashes a call of [join] names, and the entries it brings along. *)
Definition named (j : Joinable) (h : string) : Prop :=
  match j with JoinArray items => h ∈ map item_hash items | JoinLog es | JoinIterator es => h ∈ map en_hash es end.
Definition given (j : Joinable) (e : Entry) : Prop :=
  match j with JoinArray items => exists i, i ∈ items /\ e ∈ item_entries i | JoinLog es | JoinIterator es => e ∈ es end.
Definition offered (j : Joinable) (a : string) : Prop :=
  match j with JoinIterator _ => False | _ => exists e, given j e /\ en_hash e = a end.

(** A hash without its entry is in the log or can be fetched. *)
Definition fetchable l (i : JoinItem) : Prop :=
  match i with
  | ItemEntry _ | ItemWithRefs _ _ => True
  | ItemHash h => in_log l h \/ is_Some (Map_get (store l) h) \/ is_Some (remote_get h)
  | ItemShallow x => in_log l (se_hash x) \/ is_Some (Map_get (store l) (se_hash x)) \/ is_Some (remote_get (se_hash x))
  end.

Definition refs_ok (refs : list (string * Entry)) : Prop := forall a e, Map_get refs a = Some e -> e ∈ U /\ en_hash e = a.

Lemma set_references_ok es refs :
  refs_ok refs -> (forall e, e ∈ es -> e ∈ U) ->
  let refs' := fold_left set_reference es refs in
  refs_ok refs' /\ forall a, is_Some (Map_get refs a) \/ (exists e, e ∈ es /\ en_hash e = a) -> is_Some (Map_get refs' a).
Proof.
  revert refs. induction es as [|e es IH]; intros refs Hr He; cbn [fold_left].
  { split; [done|]. intros a [?|(e & ?%not_elem_of_nil & _)]; done. }
  destruct (IH (set_reference refs e)) as [I1 I2].
  - intros a x. unfold set_reference. rewrite Map_get_set. case_decide; [intros [= <-]; split; [apply He; left|done]|apply Hr].
  - intros x Hx. apply He. by right.
  - split; [done|]. intros a [Hs|(x & [->|Hx]%elem_of_cons & <-)]; apply I2; [left|left|right; by exists x];
      unfold set_reference; rewrite Map_get_set; [by case_decide|by rewrite decide_True].
Qed.

Record collected P l j l' (es : list Entry) (refs : list (string * Entry)) : Prop := {
  cd_ok : log_ok P l';
  cd_same : same_log l l';
  cd_in e : e ∈ es -> e ∈ U;
  cd_refs : refs_ok refs;
  cd_named h : named j h -> in_log l h \/ exists e, e ∈ es /\ en_hash e = h;
  cd_only e : e ∈ es -> named j (en_hash e);
  cd_offered a : offered j a -> is_Some (Map_get refs a);
}.

Lemma collect_hash_ok P l es refs h :
  log_ok P l -> in_log l h \/ is_Some (Map_get (store l) h) \/ is_Some (remote_get h) ->
  exists l' new, collect_hash false (l, es, refs) h = Val (l', es ++ new, refs) /\ log_ok P l' /\ same_log l l' /\
    (forall e, e ∈ new -> e ∈ U /\ en_hash e = h) /\ (in_log l h \/ exists e, e ∈ new).
Proof.
  intros Hok Hf. unfold collect_hash. destruct (log_has_ok P l h Hok) as (l1 & -> & Hok1 & Hs). cbn [mbind outcome_bind].
  rewrite andb_true_r. case_bool_decide as Hin.
  - exists l1, []. rewrite app_nil_r. split_and!; try done; [by intros e ?%not_elem_of_nil|by left].
  - destruct (nested_found [] (fun a e Hx => ltac:(done)) P l1 h Hok1) as (e & He & Hh & E).
    + by rewrite (same_in _ _ _ Hs).
    + destruct Hf as [?|[?|?]]; [done|right; right; left; by rewrite (sl_store _ _ Hs)|by right; right; right].
    + cbn [Map_get] in E. rewrite E. cbn [mbind outcome_bind]. exists l1, [e]. split_and!; try done.
      * by intros x ->%list_elem_of_singleton.
      * right. exists e. by left.
Qed.

Lemma collect_item_ok P l es refs i :
  log_ok P l -> refs_ok refs -> (forall e, e ∈ item_entries i -> e ∈ U) -> fetchable l i ->
  exists l' new refs', collect_item false (l, es, refs) i = Val (l', es ++ new, refs') /\ log_ok P l' /\ same_log l l' /\
    refs_ok refs' /\ (forall e, e ∈ new -> e ∈ U /\ en_hash e = item_hash i) /\ (in_log l (item_hash i) \/ exists e, e ∈ new) /\
    (forall a, is_Some (Map_get refs a) \/ (exists e, e ∈ item_entries i /\ en_hash e = a) -> is_Some (Map_get refs' a)).
Proof.
  intros Hok Hr Hg Hf.
  assert (Hhash : forall h, item_hash i = h -> (forall e, ~ e ∈ item_entries i) ->
    collect_item false (l, es, refs) i = collect_hash false (l, es, refs) h ->
    in_log l h \/ is_Some (Map_get (store l) h) \/ is_Some (remote_get h) ->
    exists l' new refs', collect_item false (l, es, refs) i = Val (l', es ++ new, refs') /\ log_ok P l' /\ same_log l l' /\
      refs_ok refs' /\ (forall e, e ∈ new -> e ∈ U /\ en_hash e = item_hash i) /\ (in_log l (item_hash i) \/ exists e, e ∈ new) /\
      (forall a, is_Some (Map_get refs a) \/ (exists e, e ∈ item_entries i /\ en_hash e = a) -> is_Some (Map_get refs' a))).
  { intros h -> Hno -> Hh. destruct (collect_hash_ok P l es refs h Hok Hh) as (l' & new & -> & Hok' & Hs & Hnew & Hin).
    exists l', new, refs. split_and!; try done. intros a [?|(e & He & _)]; [done|by apply Hno in He]. }
  assert (Hentry : forall e rs, item_hash i = en_hash e -> item_entries i = e :: rs ->
    collect_item false (l, es, refs) i = Val (l, es ++ [e], fold_left set_reference (e :: rs) refs) ->
    exists l' new refs', collect_item false (l, es, refs) i = Val (l', es ++ new, refs') /\ log_ok P l' /\ same_log l l' /\
      refs_ok refs' /\ (forall e, e ∈ new -> e ∈ U /\ en_hash e = item_hash i) /\ (in_log l (item_hash i) \/ exists e, e ∈ new) /\
      (forall a, is_Some (Map_get refs a) \/ (exists e, e ∈ item_entries i /\ en_hash e = a) -> is_Some (Map_get refs' a))).
  { intros e rs -> Hie ->. rewrite Hie in *. destruct (set_references_ok (e :: rs) refs Hr Hg) as [Hr' Ho].
    exists l, [e], (fold_left set_reference (e :: rs) refs). split_and!; try done.
    - intros x ->%list_elem_of_singleton. split; [apply Hg; left|done].
    - right. exists e. left. }
  destruct i as [e|h|x|e rs]; [by apply (Hentry e [])|apply (Hhash h)|apply (Hhash (se_hash x))|by apply (Hentry e rs)];
    try done; by intros y ?%not_elem_of_nil.
Qed.

Lemma collect_items_ok P items l es refs :
  log_ok P l -> refs_ok refs -> (forall i, i ∈ items -> (forall e, e ∈ item_entries i -> e ∈ U) /\ fetchable l i) ->
  exists l' new refs', foldM (collect_item false) (l, es, refs) items = Val (l', es ++ new, refs') /\ log_ok P l' /\ same_log l l' /\
    refs_ok refs' /\ (forall e, e ∈ new -> e ∈ U /\ en_hash e ∈ map item_hash items) /\
    (forall h, h ∈ map item_hash items -> in_log l h \/ exists e, e ∈ new /\ en_hash e = h) /\
    (forall a, is_Some (Map_get refs a) \/ (exists i e, i ∈ items /\ e ∈ item_entries i /\ en_hash e = a) -> is_Some (Map_get refs' a)).
Proof.
  revert l es refs. induction items as [|i items IH]; intros l es refs Hok Hr Hi; cbn [foldM map].
  { exists l, [], refs. rewrite app_nil_r. split_and!; try done; [by intros e ?%not_elem_of_nil|by intros h ?%not_elem_of_nil|].
    intros a [?|(i & e & ?%not_elem_of_nil & _)]; done. }
  destruct (Hi i) as [Hg Hf]; [left|].
  destruct (collect_item_ok P l es refs i Hok Hr Hg Hf) as (l1 & new & refs1 & -> & Hok1 & Hs & Hr1 & Hnew & Hin & Ho).
  cbn [mbind outcome_bind]. destruct (IH l1 (es ++ new) refs1 Hok1 Hr1) as (l2 & new2 & refs2 & -> & Hok2 & Hs2 & Hr2 & Hnew2 & Hin2 & Ho2).
  { intros k Hk. destruct (Hi k) as [Hgk Hfk]; [by right|]. split; [done|]. destruct k; cbn [fetchable] in *; rewrite ?(same_in _ _ _ Hs), ?(sl_store _ _ Hs); done. }
  exists l2, (new ++ new2), refs2. rewrite app_assoc. split_and!; try done; [by eapply same_trans| | |].
  - intros e [He|He]%elem_of_app; [destruct (Hnew e He) as [? ->]; split; [done|left]|destruct (Hnew2 e He); split; [done|by right]].
  - intros h [->|Hh]%elem_of_cons.
    + destruct Hin as [?|[e He]]; [by left|right]. exists e. rewrite elem_of_app. destruct (Hnew e He). auto.
    + destruct (Hin2 h Hh) as [Hl|(e & He & ?)]; [left; by rewrite <- (same_in _ _ _ Hs)|right; exists e; rewrite elem_of_app; auto].
  - intros a [Hs1|(k & e & [->|Hk]%elem_of_cons & He & Ha)]; apply Ho2.
    + left. apply Ho. by left.
    + left. apply Ho. right. by exists e.
    + right. by exists k, e.
Qed.

Definition acceptable l j : Prop :=
  (forall e, given j e -> e ∈ U) /\ match j with JoinArray items => forall i, i ∈ items -> fetchable l i | _ => True end.

Lemma collect_ok P l j : log_ok P l -> acceptable l j -> exists l' es refs, collect false l j = Val (l', es, refs) /\ collected P l j l' es refs.
Proof.
  intros Hok [Hg Hf]. destruct j as [items|es|es]; cbn [collect].
  - destruct (collect_items_ok P items l [] [] Hok) as (l' & new & refs & -> & Hok' & Hs & Hr & Hnew & Hin & Ho); [done| |].
    { intros i Hi. split; [intros e He; apply Hg; by exists i|by apply Hf]. }
    exists l', new, refs. split; [done|]. split; try done; [intros e He; by apply Hnew|intros e He; by apply Hnew|].
    intros a (e & (i & Hi & He) & Ha). apply Ho. right. by exists i, e.
  - destruct (set_references_ok es []) as [Hr Ho]; [done|done|]. exists l, es, (fold_left set_reference es []). split; [done|].
    split; try done; [| |intros a (e & He & Ha); apply Ho; right; by exists e].
    + intros h (e & -> & He)%list_elem_of_fmap. right. by exists e.
    + intros e He. apply list_elem_of_fmap. by exists e.
  - exists l, es, []. split; [done|]. split; try done.
    + intros h (e & -> & He)%list_elem_of_fmap. right. by exists e.
    + intros e He. apply list_elem_of_fmap. by exists e.
Qed.

(** ** The whole join *)

Lemma join_list_ok refs opts fuel heads (P : string -> Prop) es l :
  refs_ok refs -> jo_reset opts = false -> jo_length opts = None -> jo_trim opts = None ->
  (forall e, e ∈ U -> (rank (en_hash e) < fuel)%nat) ->
  (forall e, e ∈ es -> e ∈ U /\ (default false (Map_get heads (en_hash e)) = false -> P (en_hash e))) ->
  joinable refs P l ->
  exists l', foldM (fun l entry =>
      '(_, l) ← joinRecursively fuel l entry refs (default false (Map_get heads (en_hash entry))) opts; Val l) l es = Val l' /\
    joinable refs P l' /\ grows (fun h => exists e, e ∈ es /\ ancestor e h) l l' /\ forall e, e ∈ es -> in_log l' (en_hash e).
Proof.
  intros Hr Ho1 Ho2 Ho3 Hfuel. revert l. induction es as [|e es IH]; intros l Hes Hl; cbn [foldM].
  { exists l. split_and!; [done|done|by apply grows_refl|by intros e ?%not_elem_of_nil]. }
  destruct (Hes e) as [He Hp]; [left|].
  destruct (joins_all refs opts Hr Ho1 Ho2 Ho3 fuel P l e (default false (Map_get heads (en_hash e))) Hl He (Hfuel e He))
    as (b & l1 & -> & Hok1 & Hg1 & Hin1 & _). cbn [mbind outcome_bind].
  assert (Hl1 : joinable refs P l1).
  { eapply joinable_grows; [exact Hl| |exact Hg1]. eapply log_ok_sub; [|exact Hok1]. intros h [?|[-> ?]] _; left; auto. }
  destruct (IH l1) as (l2 & -> & Hl2 & Hg2 & Hin2); [intros x Hx; apply Hes; by right|done|].
  exists l2. split_and!; [done|done| |].
  - eapply grows_trans; [| |exact Hg1|exact Hg2]; [intros h Hh; exists e; by split; [left|]|].
    intros h (x & ? & ?). exists x. by split; [right|].
  - intros x [->|Hx]%elem_of_cons; [by eapply grows_in|by apply Hin2].
Qed.

(** In a closed log all the ancestors of a stored entry are there. *)
Lemma ancestors_in P l e h : log_ok P l -> knows l -> e ∈ U -> in_log l (en_hash e) -> ancestor e h -> in_log l h.
Proof.
  intros Hok Hk He Hin Ha. induction Ha as [e|e a e' h Ha He' <- _ IH]; [done|]. apply IH; [done|].
  destruct Hin as [m Hm]. apply (lw_closed _ _ (lo_wf _ _ Hok) (en_hash e) m); [done|]. by rewrite (Hk _ m e Hm He eq_refl).
Qed.

Lemma join_ok l j opts fuel :
  log_ok (fun _ => False) l -> knows l -> acceptable l j ->
  (forall e a, e ∈ U -> a ∈ meta_next (en_meta e) ->
     in_log l a \/ offered j a \/ is_Some (Map_get (store l) a) \/ is_Some (remote_get a)) ->
  jo_reset opts = false -> jo_length opts = None -> jo_trim opts = None ->
  (forall e, e ∈ U -> (rank (en_hash e) < fuel)%nat) ->
  exists l', join fuel l j opts = Val l' /\ log_ok (fun _ => False) l' /\ knows l' /\
    (forall h, in_log l' h <-> in_log l h \/ exists e, e ∈ U /\ named j (en_hash e) /\ ancestor e h) /\
    (forall h m, meta_of (table l) h = Some m -> meta_of (table l') h = Some m) /\
    (forall h, named j h -> in_log l' h).
Proof.
  intros Hok Hk Hacc Hfind Ho1 Ho2 Ho3 Hfuel. unfold join. rewrite Ho1.
  destruct (collect_ok _ l j Hok Hacc) as (l1 & es & refs & -> & Hc). cbn [mbind outcome_bind].
  destruct (mark_heads_spec (fun h => exists e, e ∈ es /\ h ∈ meta_next (en_meta e)) es [])
    as (Hfalse & _ & Hall); [done|by intros e a He Ha; exists e|].
  set (heads := fold_left mark_heads es []) in *. set (P := fun h => Map_get heads h = Some false).
  assert (Hg0 : grows (fun _ => False) l l1) by apply same_grows, (cd_same _ _ _ _ _ _ Hc).
  assert (Hl1 : joinable refs P l1).
  { split; [eapply log_ok_sub; [|apply Hc]; by intros h []|by eapply grows_knows|].
    eapply findable_grows; [exact Hg0|]. intros e a He Ha. destruct (Hfind e a He Ha) as [?|[?|[?|?]]]; unfold found; auto.
    right. left. by apply (cd_offered _ _ _ _ _ _ Hc). }
  destruct (join_list_ok refs opts fuel heads P es l1 (cd_refs _ _ _ _ _ _ Hc) Ho1 Ho2 Ho3 Hfuel) as (l2 & -> & Hl2 & Hg & Hin).
  { intros e He. split; [by apply (cd_in _ _ _ _ _ _ Hc)|]. unfold P. destruct (Hall e He) as [b ->]. by intros [= ->]. }
  { done. }
  assert (Hn : forall h, named j h -> in_log l2 h).
  { intros h Hh. destruct (cd_named _ _ _ _ _ _ Hc h Hh) as [Hl|(e & He & <-)]; [|by apply Hin].
    eapply grows_in; [exact Hg|]. by eapply grows_in. }
  destruct Hl2 as [Hok2 Hk2 _]. exists l2. split; [done|]. split_and!; [|done| | |done].
  - eapply log_ok_sub; [|exact Hok2]. intros h Hp Hh. right. destruct (Hfalse h Hp) as (e & He & Ha).
    destruct (Hin e He) as [m Hm]. eapply follower_in_log; [exact (lo_wf _ _ Hok2)| |exact Ha].
    rewrite Hm. f_equal. apply (Hk2 (en_hash e) m e Hm); [by apply (cd_in _ _ _ _ _ _ Hc)|done].
  - intros h. split.
    + intros [m Hm]. destruct (gr_new _ _ _ Hg h m Hm) as [Hm1|(_ & _ & _ & _ & x & Hx & Ha)].
      * left. rewrite <- (same_in _ _ _ (cd_same _ _ _ _ _ _ Hc)). by exists m.
      * right. exists x. split_and!; [by apply (cd_in _ _ _ _ _ _ Hc)|by apply (cd_only _ _ _ _ _ _ Hc)|done].
    + intros [Hl|(e & He & Hnm & Ha)]; [eapply grows_in; [exact Hg|]; by eapply grows_in|].
      eapply ancestors_in; [exact Hok2|done|exact He|by apply Hn|done].
  - intros h m Hm. apply (gr_meta _ _ _ Hg). by apply (gr_meta _ _ _ Hg0).
Qed.

(** What a caller relies on: the invariant between calls, and where the
    ancestors of what is joined come from. *)
Definition log_state l : Prop := log_ok (fun _ => False) l /\ knows l.

Definition complete l j : Prop := forall e a, e ∈ U -> a ∈ meta_next (en_meta e) ->
  in_log l a \/ offered j a \/ is_Some (Map_get (store l) a) \/ is_Some (remote_get a).

Definition plain (opts : JoinOptions) : Prop := jo_reset opts = false /\ jo_length opts = None /\ jo_trim opts = None.

(** The abstract log: a set of hashes, joined with the ancestors of what is named. *)
Definition join_spec (A : string -> Prop) (roots : string -> Prop) : string -> Prop :=
  fun h => A h \/ exists e, e ∈ U /\ roots (en_hash e) /\ ancestor e h.

(** C1. Joining entries into a log, without resetting it, limiting the join or trimming,
    ends within the depth of the entry graph and refines the abstract join: the log
    then holds exactly what it held and the ancestors of what was joined, the
    entries it had are untouched, everything an entry follows is present, and an
    entry is marked as a head exactly when no entry of the log follows it.
    Conditions: the entries are of type APPEND, have different honest hashes,
    verify, are accepted by canAppend and follow no cycle; their clocks are in
    range; and whatever they follow can be found in the log, with the call, in the
    block store or at other nodes. *)
Theorem join_correct l j opts fuel :
  log_state l -> acceptable l j -> complete l j -> plain opts -> (forall e, e ∈ U -> (rank (en_hash e) < fuel)%nat) ->
  exists l', join fuel l j opts = Val l' /\ log_state l' /\
    (forall h, in_log l' h <-> join_spec (in_log l) (named j) h) /\
    (forall h m, meta_of (table l) h = Some m -> meta_of (table l') h = Some m) /\
    (forall h m a, meta_of (table l') h = Some m -> a ∈ smeta_next m -> in_log l' a) /\
    heads_exact (table l').
Proof.
  intros [Hok Hk] Ha Hc (Ho1 & Ho2 & Ho3) Hf.
  destruct (join_ok l j opts fuel Hok Hk Ha Hc Ho1 Ho2 Ho3 Hf) as (l' & E & Hok' & Hk' & Hin & Hm & _).
  exists l'. split_and!; try done; [intros h m a; apply (lw_closed _ _ (lo_wf _ _ Hok'))|apply log_wf_exact, Hok'].
Qed.

(** What [toArray] of a log hands to the [join] of another one. *)
Definition contents_of l (es : list Entry) : Prop := (forall e, e ∈ es -> e ∈ U) /\ forall h, h ∈ map en_hash es <-> in_log l h.

Lemma contents_closed l es h : log_state l -> contents_of l es -> join_spec (fun _ => False) (fun h => h ∈ map en_hash es) h <-> in_log l h.
Proof.
  intros [Hok Hk] [Hes Hin]. split.
  - intros [[]|(e & He & Hr & Ha)]. by eapply ancestors_in; [exact Hok|..|exact Ha]; [|done|apply Hin].
  - intros Hh. right. apply Hin, list_elem_of_fmap in Hh as Hh'. destruct Hh' as (e & -> & He).
    exists e. split_and!; [by apply Hes|apply list_elem_of_fmap; by exists e|apply anc_self].
Qed.

Lemma known_meta l l' h m m' :
  log_state l -> log_state l' -> (forall h, in_log l h -> exists e, e ∈ U /\ en_hash e = h) ->
  meta_of (table l) h = Some m -> meta_of (table l') h = Some m' -> m = m'.
Proof.
  intros [_ Hk] [_ Hk'] Hu Hm Hm'. destruct (Hu h) as (e & He & Hh); [by exists m|].
  by rewrite (Hk h m e Hm He Hh), (Hk' h m' e Hm' He Hh).
Qed.

Lemma heads_agree l l' h x x' :
  log_state l -> log_state l' -> (forall h, in_log l h -> exists e, e ∈ U /\ en_hash e = h) -> (forall h, in_log l h <-> in_log l' h) ->
  stored_at (table l) h = Some x -> stored_at (table l') h = Some x' -> se_head x = se_head x'.
Proof.
  intros Hl Hl' Hu Hin Hx Hx'. destruct (Hl) as [Hok _], (Hl') as [Hok' _].
  rewrite (log_wf_exact l (lo_wf _ _ Hok) h x Hx), (log_wf_exact l' (lo_wf _ _ Hok') h x' Hx'). f_equal.
  apply eq_true_iff_eq. rewrite !followed_spec by (apply (lo_wf _ _ Hok) || apply (lo_wf _ _ Hok')).
  assert (Hsym : forall a b, log_state a -> log_state b -> (forall h, in_log a h -> exists e, e ∈ U /\ en_hash e = h) ->
    (forall h, in_log a h <-> in_log b h) ->
    (exists k y, stored_at (table a) k = Some y /\ h ∈ smeta_next (se_meta y)) ->
    exists k y, stored_at (table b) k = Some y /\ h ∈ smeta_next (se_meta y)).
  { intros a b Ha Hb Hua Hab (k & y & Hs & Hh). assert (Hk : in_log a k) by (apply in_log_stored; by exists y).
    destruct (proj1 (in_log_stored b k) (proj1 (Hab k) Hk)) as [y' Hs']. exists k, y'. split; [done|].
    rewrite <- (known_meta a b k (se_meta y) (se_meta y') Ha Hb Hua); [done|unfold meta_of; by rewrite Hs|unfold meta_of; by rewrite Hs']. }
  split; apply Hsym; try done.
  intros k Hk. by apply Hu, Hin.
Qed.

(** C35. Two logs that join each other, without resetting, limits or trimming, converge:
    they hold the same entries, the union of what both held, with the same metadata,
    and agree on which of them are heads. Conditions: each is given all the entries
    of the other; the entries are of type APPEND, have different honest hashes,
    verify, are accepted by canAppend and follow no cycle; their clocks are in
    range; and what an entry follows is in one of the two logs. Each join ends
    within the depth of the entry graph. *)
Theorem join_converges l1 l2 es1 es2 opts fuel :
  log_state l1 -> log_state l2 -> contents_of l1 es1 -> contents_of l2 es2 -> plain opts ->
  (forall e a, e ∈ U -> a ∈ meta_next (en_meta e) -> in_log l1 a \/ in_log l2 a) ->
  (forall e, e ∈ U -> (rank (en_hash e) < fuel)%nat) ->
  exists l1' l2', join fuel l1 (JoinLog es2) opts = Val l1' /\ join fuel l2 (JoinLog es1) opts = Val l2' /\
    (forall h, in_log l1' h <-> in_log l1 h \/ in_log l2 h) /\ (forall h, in_log l2' h <-> in_log l1 h \/ in_log l2 h) /\
    forall h x1 x2, stored_at (table l1') h = Some x1 -> stored_at (table l2') h = Some x2 -> se_head x1 = se_head x2 /\ se_meta x1 = se_meta x2.
Proof.
  intros Hl1 Hl2 Hc1 Hc2 (Ho1 & Ho2 & Ho3) Hall Hf.
  assert (Hoff : forall l es a, contents_of l es -> in_log l a -> offered (JoinLog es) a).
  { intros l es a [_ Hes] Ha. apply Hes, list_elem_of_fmap in Ha as (e & -> & He). by exists e. }
  destruct (join_ok l1 (JoinLog es2) opts fuel) as (l1' & E1 & Hok1 & Hk1 & Hin1 & _); try done; [apply Hl1|apply Hl1|split; [apply Hc2|done]| |].
  { intros e a He Ha. destruct (Hall e a He Ha) as [?|Hi]; [by left|right; left; by eapply Hoff]. }
  destruct (join_ok l2 (JoinLog es1) opts fuel) as (l2' & E2 & Hok2 & Hk2 & Hin2 & _); try done; [apply Hl2|apply Hl2|split; [apply Hc1|done]| |].
  { intros e a He Ha. destruct (Hall e a He Ha) as [Hi|?]; [right; left; by eapply Hoff|by left]. }
  assert (H1' : forall h, in_log l1' h <-> in_log l1 h \/ in_log l2 h).
  { intros h. rewrite Hin1, <- (contents_closed l2 es2) by done. unfold join_spec. simpl. naive_solver. }
  assert (H2' : forall h, in_log l2' h <-> in_log l1 h \/ in_log l2 h).
  { intros h. rewrite Hin2, <- (contents_closed l1 es1) by done. unfold join_spec. simpl. naive_solver. }
  exists l1', l2'. split_and!; try done. intros h x1 x2 Hx1 Hx2.
  assert (Hu : forall k, in_log l1' k -> exists e, e ∈ U /\ en_hash e = k).
  { intros k [Hk|Hk]%H1'; [apply Hc1 in Hk|apply Hc2 in Hk]; apply list_elem_of_fmap in Hk as (e & -> & He); exists e; (split; [|done]);
      [by apply Hc1|by apply Hc2]. }
  split; [eapply (heads_agree l1' l2'); try done; intros k; by rewrite H1', H2'|].
  eapply (known_meta l1' l2' h); try done; unfold meta_of; [by rewrite Hx1|by rewrite Hx2].
Qed.

(** When the entry that is joined is refused, what it follows has been joined
    already, as something that is followed: the entry it follows stays in the log
    without anything following it and without being marked as a head. *)
Theorem join_refused_loses_head l b c opts fuel :
  log_state l -> plain opts -> b ∈ U -> ~ in_log l (en_hash b) ->
  (forall e a, e ∈ U -> a ∈ meta_next (en_meta e) -> in_log l a \/ is_Some (Map_get (store l) a) \/ is_Some (remote_get a)) ->
  is_Some (Map_get (store l) (en_hash b)) \/ is_Some (remote_get (en_hash b)) ->
  en_hash c <> ""%string -> ~ in_log l (en_hash c) -> ~ ancestor b (en_hash c) ->
  meta_type (en_meta c) = APPEND -> meta_next (en_meta c) = [en_hash b] -> verifySignatures c = true ->
  option_canAppend (Some (en_hash c)) (en_meta c) (en_payloadSize c) = Val false ->
  (forall e, e ∈ U -> (rank (en_hash e) < fuel)%nat) ->
  exists l' x, join (S fuel) l (JoinIterator [c]) opts = Val l' /\ ~ in_log l' (en_hash c) /\
    stored_at (table l') (en_hash b) = Some x /\ followed (table l') (en_hash b) = false /\ se_head x = false.
Proof.
  intros [Hok Hk] (Ho1 & Ho2 & Ho3) Hb Hnb Hfind Hfb Hc Hnc Hanc Happ Hnext Hsig Hrej Hfuel.
  destruct (log_has_ok _ l (en_hash c) Hok) as (l1 & E1 & Hok1 & Hs1).
  destruct (heads_append _ l1 (Some (meta_gid (en_meta c))) Hok1) as (hs & E2 & Hd).
  destruct (log_has_ok _ l1 (en_hash b) Hok1) as (l2 & E3 & Hok2 & Hs2).
  assert (Hs : same_log l l2) by by eapply same_trans.
  assert (Hl2 : joinable [] (fun _ => False) l2).
  { split; [done|eapply grows_knows; [apply (same_grows (fun _ => False) _ _ Hs)|done]|].
    eapply (findable_grows []); [apply (same_grows (fun _ => False) _ _ Hs)|]. intros e a He Ha. unfold found.
    destruct (Hfind e a He Ha) as [?|[?|?]]; auto. }
  destruct (nested_found [] (fun a e Hx => ltac:(done)) _ l2 (en_hash b) Hok2) as (x & Hx & Hxb & E4).
  { by rewrite (same_in _ _ _ Hs). }
  { right; right. by rewrite (sl_store _ _ Hs). }
  assert (x = b) as -> by by apply (un_unique _ _ _ HU). cbn [Map_get] in E4.
  destruct (joins_all [] opts (fun a e Hx => ltac:(done)) Ho1 Ho2 Ho3 fuel _ l2 b false Hl2 Hb (Hfuel b Hb))
    as (r & l3 & E5 & Hok3 & Hg & Hin & Hat).
  exists l3, (toShallow b false). split_and!.
  - unfold join. rewrite Ho1. cbn [collect mbind outcome_bind foldM]. set (heads := fold_left mark_heads [c] []).
    assert (Hhd : default false (Map_get heads (en_hash c)) = true).
    { subst heads. cbn [fold_left]. unfold mark_heads, Map_has. cbn [Map_get]. rewrite Hnext. cbn [fold_left].
      rewrite Map_get_set, decide_False; [by rewrite Map_get_set, decide_True|]. intros Hbc. apply Hanc. rewrite <- Hbc. apply anc_self. }
    rewrite Hhd. cbn [joinRecursively]. rewrite Ho2. cbn [default].
    assert ((MAX_SAFE_INTEGER <? ei_length (lg_entryIndex l)) = false) as -> by (pose proof (lo_room _ _ Hok); lia).
    rewrite bool_decide_false by done. cbn [throw_if mbind outcome_bind]. rewrite E1. cbn [mbind outcome_bind].
    rewrite Ho1, bool_decide_false by done. cbn [andb]. rewrite Hsig, andb_false_r. cbn [throw_if mbind outcome_bind].
    rewrite E2. cbn [mbind outcome_bind]. rewrite Hd. cbn [mbind outcome_bind]. rewrite Happ, Hnext. cbn [foldM mbind outcome_bind].
    rewrite E3. cbn [mbind outcome_bind]. rewrite bool_decide_false by by rewrite (same_in _ _ _ Hs1).
    cbn [andb Map_get]. rewrite E4. cbn [mbind outcome_bind]. rewrite E5. cbn [mbind outcome_bind].
    unfold join_entry, _canAppend. rewrite Hrej. done.
  - intros [m Hm]. destruct (gr_new _ _ _ Hg _ m Hm) as [Hm'|(_ & _ & _ & _ & ?)]; [|done].
    apply Hnc. rewrite <- (same_in _ _ _ Hs). by exists m.
  - apply Hat. by rewrite (same_in _ _ _ Hs).
  - apply not_true_iff_false. intros (k & y & Hy & Hin')%followed_spec; [|apply (lo_wf _ _ Hok3)].
    assert (Hm : meta_of (table l3) k = Some (se_meta y)) by (unfold meta_of; by rewrite Hy).
    destruct (gr_new _ _ _ Hg k _ Hm) as [Hm'|(e & He & <- & Hme & Ha)].
    + apply Hnb. rewrite (sl_table _ _ Hs) in Hm'. by apply (lw_closed _ _ (lo_wf _ _ Hok) k (se_meta y)).
    + rewrite Hme in Hin'. pose proof (ancestor_rank b _ Hb Ha). pose proof (un_rank _ _ _ HU e _ He Hin'). lia.
  - done.
Qed.

End Universe.
End Facts.
