(* ===== verification/LogDelete.v ===== *)
(** * Deleting an entry with what only it holds

    [prepareDeleteRecursively] walks from the entries to delete to what they
    follow, as long as no other entry that is not a cut follows it.  The walk
    ends on every acyclic log and [deleteRecursively] removes exactly the entries
    it reaches - which leaves an entry behind when two of the deleted entries
    follow it. *)

From Stdlib Require Import ZArith Lia.
From stdpp Require Import base list strings.
From S2P Require Import Prelude JsMap Cache Clock JsVal Query IndexInterface SimpleIndex SimpleIndexFacts Integers LogSorting EntryIndex EntryIndexFacts Trim Log LogState.

Local Open Scope Z_scope.

Section Delete.
Context `{JsEnv, Document ShallowEntry, !DocumentLaws ShallowEntry, !ShallowDocument}.
Context {Q : Type} `{Queue Q string, !QueueLaws Q string, LogEnv}.
Implicit Types (l : Log (Q := Q)) (s : EntryIndex (Q := Q)).

(** ** The cache and the block store *)

(** What [resolve] finds in the store. *)
Definition full s (k : string) : option Entry := (fun e => MkEntry k (en_meta e) (en_payloadSize e)) <$> Map_get (ei_store s) k.

Record ready s : Prop := {
  rd_index : index_wf s;
  rd_cache : cache_agrees (full s) (ei_cache s);
}.

Lemma resolve_full now s k :
  ready s -> exists c, resolve now s k true = Val (full s k, with_cache s c) /\ Inv c /\ cache_agrees (full s) c.
Proof.
  intros [Hs Ha]. unfold resolve.
  destruct (get_agrees (full s) now (ei_cache s) k (io_cache _ Hs) Ha) as (mem & c & -> & Hc & Ha' & Hm).
  cbn [mbind outcome_bind]. destruct Hm as [->| ->]; [|exists c; by destruct (full s k)].
  destruct (add_agrees (full s) now c k Hc Ha') as (c' & E & Hc' & Ha''). exists c'.
  unfold full in E at 1 |- * at 1. destruct (Map_get (ei_store s) k) as [e|]; cbn [fmap option_fmap option_map] in E;
    cbn [throw_if negb mbind outcome_bind]; rewrite E; done.
Qed.

(** ** One step of the walk *)

Definition state_ready l : Prop := ready (lg_entryIndex l).

(** Only the cache changes during the walk. *)
Definition recached l l' : Prop := exists c, l' = set_index l (with_cache (lg_entryIndex l) c) /\ state_ready l'.

Lemma recached_refl l : state_ready l -> recached l l.
Proof. intros Hl. exists (ei_cache (lg_entryIndex l)). split; [by destruct l as [[]]|done]. Qed.

Lemma recached_trans l l1 l2 : recached l l1 -> recached l1 l2 -> recached l l2.
Proof. intros (c1 & -> & _) (c2 & -> & H2'). by exists c2. Qed.

Lemma recached_index l l' : recached l l' -> table l' = table l /\ store l' = store l /\ state_ready l'.
Proof. by intros (c & -> & Hr). Qed.

(** Another entry that is not a cut follows [next]. *)
Definition alternative (T : HashmapIndex ShallowEntry) (hash next : string) : bool :=
  existsb (fun x => follows next x && (not_cut (smeta_type (se_meta x)) && negb (bool_decide (se_hash x = hash)))) (entries T).

Lemma existsb_perm {A} (f : A -> bool) (xs ys : list A) : xs ≡ₚ ys -> existsb f xs = existsb f ys.
Proof. intros Hp. induction Hp; simpl; try congruence. by rewrite !orb_assoc, (orb_comm (f y)). Qed.

Lemma getHasNext_val s next :
  index_wf s -> exists es, getHasNext s next = Val es /\
    forall f, existsb f es = existsb (fun x => follows next x && f x) (entries (ei_index s)).
Proof.
  intros Hs. unfold getHasNext.
  destruct (iterate_all_val s [exactly ["meta"; "next"]%string next] (fun e => follows next e && forallb (fun p => p e) []) (sort (ei_sort s)))
    as (es & -> & Hp); [apply Hs|apply selects_next; [constructor|apply Hs]|apply Hs|].
  exists es. split; [done|]. intros f. rewrite (existsb_perm f _ _ Hp), existsb_filter. apply existsb_ext. intros x.
  cbn [forallb]. by rewrite andb_true_r.
Qed.

(** What [push_next] pushes for one followed entry. *)
Definition pushed (T : HashmapIndex ShallowEntry) (fl : string -> option Entry) (hash next : string) : list Node :=
  if alternative T hash next then [] else match fl next with Some e => [node_of e] | None => [] end.

Lemma log_get_full l k : state_ready l -> exists l', log_get l k = Val (full (lg_entryIndex l) k, l') /\ recached l l'.
Proof.
  intros Hl. unfold log_get. destruct (resolve_full (now_ l) (lg_entryIndex l) k Hl) as (c & -> & Hc & Ha).
  cbn [mbind outcome_bind]. eexists. split; [done|]. exists c. split; [done|]. split; [|done].
  destruct (rd_index _ Hl). by split.
Qed.

Lemma push_next_ok l hash next :
  state_ready l -> exists l', recached l l' /\ forall stack, push_next hash (l, stack) next =
    Val (l', stack ++ pushed (table l) (full (lg_entryIndex l)) hash next).
Proof.
  intros Hl. unfold push_next. destruct (getHasNext_val (lg_entryIndex l) next (rd_index _ Hl)) as (es & -> & Hes).
  cbn [mbind outcome_bind]. rewrite Hes. unfold pushed. fold (alternative (table l) hash next).
  destruct (alternative (table l) hash next); [exists l; split; [by apply recached_refl|intros stack; by rewrite app_nil_r]|].
  destruct (log_get_full l next Hl) as (l' & -> & Hr). cbn [mbind outcome_bind]. exists l'. split; [done|].
  intros stack. destruct (full (lg_entryIndex l) next); [done|by rewrite app_nil_r].
Qed.

Lemma push_nexts_ok hash nx : forall l,
  state_ready l -> exists l', recached l l' /\ forall stack, foldM (push_next hash) (l, stack) nx =
    Val (l', stack ++ flat_map (pushed (table l) (full (lg_entryIndex l)) hash) nx).
Proof.
  induction nx as [|a nx IH]; intros l Hl; cbn [foldM flat_map].
  { exists l. split; [by apply recached_refl|]. intros stack. by rewrite app_nil_r. }
  destruct (push_next_ok l hash a Hl) as (l1 & Hr1 & E1).
  destruct (recached_index _ _ Hr1) as (Et & Es & Hl1). destruct (IH l1 Hl1) as (l2 & Hr2 & E2).
  exists l2. split; [by eapply recached_trans|]. intros stack. rewrite E1. cbn [mbind outcome_bind]. rewrite E2.
  unfold full. rewrite Et, Es, app_assoc. done.
Qed.

(** ** The whole walk *)

(** What the walk visits from the nodes it starts with. *)
Inductive visited (T : HashmapIndex ShallowEntry) (fl : string -> option Entry) : Node -> Node -> Prop :=
| visit_self n : visited T fl n n
| visit_next n a m k : a ∈ nd_next n -> m ∈ pushed T fl (nd_hash n) a -> visited T fl m k -> visited T fl n k.

Definition marks l (n : Node) : list PendingDelete := match prepareDelete l (nd_hash n) with Some d => [d] | None => [] end.

Lemma prepareDelete_recached l l' h : recached l l' -> prepareDelete l' h = prepareDelete l h.
Proof. by intros (c & -> & _). Qed.

Section Walk.
Context (rank : string -> nat).

(** What an entry found on the walk follows is of a lower rank. *)
Definition acyclic (fl : string -> option Entry) : Prop :=
  forall k e a, fl k = Some e -> a ∈ meta_next (en_meta e) -> (rank a < rank k)%nat.
Definition ranked (n : Node) : Prop := forall a, a ∈ nd_next n -> (rank a < rank (nd_hash n))%nat.

Lemma pushed_node T fl hash a m : acyclic fl -> (forall k e, fl k = Some e -> en_hash e = k) -> m ∈ pushed T fl hash a -> nd_hash m = a /\ ranked m.
Proof.
  intros Hac Hfl. unfold pushed. destruct (alternative _ _ _); [by intros ?%not_elem_of_nil|].
  destruct (fl a) as [e|] eqn:E; [|by intros ?%not_elem_of_nil]. intros ->%list_elem_of_singleton. cbn. pose proof (Hfl a e E) as Ha.
  split; [done|]. intros b Hb. cbn in *. rewrite Ha. by apply (Hac a e).
Qed.

Definition marked l (ns : list Node) (ds : list PendingDelete) : Prop :=
  forall d, d ∈ ds <-> exists n k, n ∈ ns /\ visited (table l) (full (lg_entryIndex l)) n k /\ d ∈ marks l k.

(** A node and all it leads to is finished before the rest of the stack. *)
Definition walks l (ns : list Node) : Prop := exists k ds l', recached l l' /\ marked l ns ds /\
  forall fuel stack td, prepare_loop (k + fuel) l false (stack ++ ns) td = prepare_loop fuel l' false stack (td ++ ds).

Lemma full_hash s k e : full s k = Some e -> en_hash e = k.
Proof. unfold full. destruct (Map_get _ _); [|done]. by intros [= <-]. Qed.

Lemma marked_recached l l' ns ds : recached l l' -> marked l' ns ds <-> marked l ns ds.
Proof. intros (c & -> & _). done. Qed.

Lemma walks_nil l : state_ready l -> walks l [].
Proof.
  intros Hl. exists O, [], l. split; [by apply recached_refl|]. split.
  - intros d. split; [by intros ?%not_elem_of_nil|by intros (n & k & ?%not_elem_of_nil & _)].
  - intros fuel stack td. by rewrite !app_nil_r.
Qed.

Lemma walks_app l ns1 ns2 : walks l ns2 -> (forall l', recached l l' -> walks l' ns1) -> walks l (ns1 ++ ns2).
Proof.
  intros (k2 & ds2 & l2 & Hr2 & Hm2 & E2) H1'. destruct (H1' l2 Hr2) as (k1 & ds1 & l1 & Hr1 & Hm1 & E1).
  exists (k2 + k1)%nat, (ds2 ++ ds1), l1. split; [by eapply recached_trans|]. split.
  - intros d. rewrite elem_of_app, (Hm2 d). apply (marked_recached l l2) in Hm1; [|done]. rewrite (Hm1 d). split.
    + intros [(n & k & Hn & ?)|(n & k & Hn & ?)]; exists n, k; rewrite elem_of_app; auto.
    + intros (n & k & [Hn|Hn]%elem_of_app & ?); [right|left]; by exists n, k.
  - intros fuel stack td. rewrite <- Nat.add_assoc, app_assoc, E2, E1. by rewrite app_assoc.
Qed.

Lemma walk_node r : forall n l, (rank (nd_hash n) < r)%nat -> ranked n -> state_ready l -> acyclic (full (lg_entryIndex l)) -> walks l [n].
Proof.
  induction r as [|r IH]; intros n l Hr Hn Hl Hac; [lia|].
  set (children := flat_map (pushed (table l) (full (lg_entryIndex l)) (nd_hash n)) (nd_next n)).
  assert (Hch : forall ns l', (forall m, m ∈ ns -> m ∈ children) -> recached l l' -> walks l' ns).
  { intros ns. induction ns as [|m ns IHns]; intros l' Hns Hrl; destruct (recached_index _ _ Hrl) as (Et & Es & Hl'); [by apply walks_nil|].
    apply (walks_app l' [m] ns); [apply IHns; [intros x Hx; apply Hns; by right|done]|]. intros l2 Hr2.
    destruct (recached_index _ _ Hr2) as (Et2 & Es2 & Hl2).
    assert (Hm : m ∈ children) by (apply Hns; left). apply list_elem_of_In, in_flat_map in Hm as (a & Ha & Hm).
    apply list_elem_of_In in Ha, Hm. destruct (pushed_node _ _ _ _ _ Hac (full_hash _) Hm) as [Hma Hmr].
    apply IH; [rewrite Hma; specialize (Hn a Ha); lia|done|done|]. unfold full. rewrite Es2, Es. exact Hac. }
  destruct (push_nexts_ok (nd_hash n) (nd_next n) l Hl) as (l1 & Hr1 & E1).
  destruct (Hch children l1 (fun m Hm => Hm) Hr1) as (k & ds & l2 & Hr2 & Hm2 & E2).
  exists (S k), (marks l n ++ ds), l2. split; [by eapply recached_trans|]. split.
  - apply (marked_recached l l1) in Hm2; [|done]. intros d. rewrite elem_of_app, (Hm2 d). split.
    + intros [Hd|(m & x & Hm & Hv & Hd)]; [exists n, n; split_and!; [by left|apply visit_self|done]|].
      apply list_elem_of_In, in_flat_map in Hm as (a & Ha & Hm). apply list_elem_of_In in Ha, Hm.
      exists n, x. split_and!; [by left|by eapply visit_next|done].
    + intros (n' & x & ->%list_elem_of_singleton & Hv & Hd). destruct Hv as [n|n a m x Ha Hm Hv]; [by left|right].
      exists m, x. split_and!; [|done|done]. apply list_elem_of_In, in_flat_map. exists a. by split; apply list_elem_of_In.
  - intros fuel stack td. cbn [Nat.add prepare_loop]. rewrite map_app. change (map Some [n]) with [Some n]. rewrite last_last, removelast_last, E1.
    cbn [mbind outcome_bind]. fold children. by rewrite E2, app_assoc.
Qed.

Lemma walk_all ns : forall l, (forall n, n ∈ ns -> ranked n) -> state_ready l -> acyclic (full (lg_entryIndex l)) -> walks l ns.
Proof.
  induction ns as [|n ns IH]; intros l Hns Hl Hac; [by apply walks_nil|].
  apply (walks_app l [n] ns); [apply IH; [intros m Hm; apply Hns; by right|done|done]|]. intros l' Hr.
  destruct (recached_index _ _ Hr) as (Et & Es & Hl'). apply (walk_node (S (rank (nd_hash n)))); [lia|apply Hns; left|done|].
  unfold full. by rewrite Es.
Qed.

End Walk.

(** ** Deleting what the walk found *)

(** The nodes whose entries are to be deleted. *)
Definition doomed l (starts : list Node) (h : string) : Prop :=
  exists n k, n ∈ starts /\ visited (table l) (full (lg_entryIndex l)) n k /\ nd_hash k = h.

Lemma prepareDelete_spec l h d :
  state_ready l -> prepareDelete l h = Some d <-> pd_hash d = h /\ stored_at (table l) h = Some (pd_entry d).
Proof.
  intros Hl. unfold prepareDelete. rewrite getShallow_stored. destruct (stored_at (table l) h) as [x|]; cbn; [|naive_solver].
  split; [intros [= <-]; done|]. intros [Hh [= ->]]. by destruct d; simplify_eq/=.
Qed.

Lemma marked_doomed l ns ds :
  state_ready l -> marked l ns ds ->
  (forall d, d ∈ ds -> stored_at (table l) (pd_hash d) = Some (pd_entry d)) /\
  forall h, h ∈ map pd_hash ds <-> doomed l ns h /\ in_log l h.
Proof.
  intros Hl Hm. assert (Hmk : forall d n, d ∈ marks l n <-> pd_hash d = nd_hash n /\ stored_at (table l) (nd_hash n) = Some (pd_entry d)).
  { intros d n. rewrite <- prepareDelete_spec by done. unfold marks. destruct (prepareDelete l (nd_hash n)) as [d'|].
    - rewrite list_elem_of_singleton. naive_solver.
    - split; [by intros ?%not_elem_of_nil|done]. }
  split.
  - intros d (n & k & Hn & Hv & [-> Hd]%Hmk)%Hm. done.
  - intros h. rewrite list_elem_of_fmap. split.
    + intros (d & -> & (n & k & Hn & Hv & [Hh Hd]%Hmk)%Hm). split; [by exists n, k|]. apply in_log_stored. rewrite Hh. by exists (pd_entry d).
    + intros [(n & k & Hn & Hv & Hh) [x Hx]%in_log_stored]. exists (MkPending h x). split; [done|]. apply Hm.
      exists n, k. split_and!; [done|done|]. apply Hmk. cbn. by rewrite Hh.
Qed.

Lemma delete_any s k f :
  index_wf s -> se_hash f = k ->
  exists r s', EntryIndex.delete s k (Some f) = Val (r, s') /\ index_wf s' /\
    (forall h, meta_of (ei_index s') h = if decide (k = h) then None else meta_of (ei_index s) h) /\
    ei_store s' = Map_delete (ei_store s) k /\ ei_cache s' = (Cache.del (ei_cache s) k).2 /\ ei_sort s' = ei_sort s /\
    ei_length s' = match stored_at (ei_index s) k with Some _ => ei_length s - 1 | None => ei_length s end.
Proof.
  intros [HT Hlen Hc Hsort] Hf. unfold EntryIndex.delete. cbv zeta. rewrite bool_decide_true by done. cbn [negb throw_if mbind outcome_bind].
  cbn [with_cache ei_index ei_cache ei_store ei_length ei_sort]. rewrite (del_table _ k HT).
  destruct (stored_at (ei_index s) k) as [x|] eqn:Ex; cbn [mbind outcome_bind length].
  - set (T1 := del_entry (ei_index s) k). assert (HT1 : table_ok T1) by by apply del_entry_ok.
    assert (Hm1 : forall h, meta_of T1 h = if decide (k = h) then None else meta_of (ei_index s) h).
    { intros h. unfold meta_of, T1. rewrite stored_del. by case_decide. }
    assert (Hl1 : ei_length s - 1 = Z.of_nat (length (hm_index T1))).
    { unfold stored_at in Ex. destruct (Map_get _ _) as [r|] eqn:Er; [|done].
      pose proof (Map_delete_length _ _ _ (table_wf _ HT) Er). cbn [T1 del_entry with_index hm_index]. lia. }
    set (s3 := MkEntryIndex T1 _ _ _ _). unfold privateUpdateNextHeadProperty. destruct (smeta_type (se_meta f)).
    + destruct (update_all_ok true s3 (smeta_next (se_meta f)) HT1) as (T' & -> & Hu). cbn [mbind outcome_bind].
      exists (Some f), (with_table s3 T'). split; [done|]. split_and!; try done.
      * split; [apply Hu| |by apply del_Inv|done]. cbn [with_table ei_length ei_index s3]. by rewrite (upd_length _ _ _ _ Hu).
      * intros h. cbn [with_table ei_index]. rewrite <- Hm1. unfold meta_of. rewrite (upd_stored _ _ _ _ Hu).
        case_decide; [|done]. by destruct (stored_at _ h).
    + cbn [mbind outcome_bind]. exists (Some f), s3. split; [done|]. split_and!; try done. by split; [|..|apply del_Inv|].
  - exists None, (MkEntryIndex (ei_index s) (Cache.del (ei_cache s) k).2 (Map_delete (ei_store s) k) (ei_length s) (ei_sort s)).
    split; [done|]. split_and!; try done; [split; try done; by apply del_Inv|]. intros h. case_decide as Hx; [|done].
    subst h. cbn [ei_index]. unfold meta_of. by rewrite Ex.
Qed.

Lemma run_delete_ok l d :
  state_ready l -> tr_canTrimCacheLastNode (lg_trim l) = None -> se_hash (pd_entry d) = pd_hash d ->
  exists r l', run_delete l d = Val (r, l') /\ state_ready l' /\ lg_trim l' = lg_trim l /\
    forall h, meta_of (table l') h = if decide (pd_hash d = h) then None else meta_of (table l) h.
Proof.
  intros Hl Ht Hd. unfold run_delete, deleteFromCache. rewrite Ht. cbn [mbind outcome_bind].
  destruct (delete_any (lg_entryIndex l) (pd_hash d) (pd_entry d) (rd_index _ Hl) Hd) as (r & s' & -> & Hw & Hm & Hst & Hc & _).
  cbn [mbind outcome_bind]. eexists r, _. split; [done|]. split_and!; [|done|exact Hm].
  split; [done|]. cbn [set_index lg_entryIndex]. rewrite Hc. apply (del_agrees (full (lg_entryIndex l))); [apply (rd_cache _ Hl)|].
  intros k' Hk'. unfold full. by rewrite Hst, Map_get_delete, decide_False by congruence.
Qed.

Lemma run_deletes_ok ds : forall l,
  state_ready l -> tr_canTrimCacheLastNode (lg_trim l) = None -> (forall d, d ∈ ds -> se_hash (pd_entry d) = pd_hash d) ->
  exists l', run_deletes l ds = Val l' /\ state_ready l' /\
    forall h, meta_of (table l') h = if decide (h ∈ map pd_hash ds) then None else meta_of (table l) h.
Proof.
  induction ds as [|d ds IH]; intros l Hl Ht Hd.
  { exists l. split; [done|]. split; [done|]. intros h. cbn [map]. by rewrite decide_False by apply not_elem_of_nil. }
  destruct (run_delete_ok l d Hl Ht) as (r & l1 & E1 & Hl1 & Ht1 & Hm1); [apply Hd; left|].
  destruct (IH l1 Hl1) as (l2 & E2 & Hl2 & Hm2); [by rewrite Ht1|intros x Hx; apply Hd; by right|].
  exists l2. split; [unfold run_deletes in *; cbn [foldM]; rewrite E1; cbn [mbind outcome_bind]; exact E2|]. split; [done|].
  intros h. rewrite Hm2, Hm1. cbn [map]. destruct (decide (h ∈ pd_hash d :: _)) as [[->|Hin]%elem_of_cons|Hn].
  - rewrite (decide_True (P := pd_hash d = pd_hash d)) by done. by destruct (decide _).
  - by rewrite decide_True.
  - rewrite not_elem_of_cons in Hn. destruct Hn as [Hne Hn]. rewrite decide_False by done. by rewrite decide_False by congruence.
Qed.

Lemma prepare_ends (rank : string -> nat) l ns :
  (forall n, n ∈ ns -> ranked rank n) -> state_ready l -> acyclic rank (full (lg_entryIndex l)) ->
  exists fuel0 l' ds, recached l l' /\ marked l ns ds /\
    forall fuel, (fuel0 <= fuel)%nat -> prepare_loop fuel l false ns [] = Val (l', ds).
Proof.
  intros Hns Hl Hac. destruct (walk_all rank ns l Hns Hl Hac) as (k & ds & l' & Hr & Hm & E).
  exists (S k), l', ds. split_and!; [done|done|]. intros fuel Hf. specialize (E (fuel - k)%nat [] []).
  replace (k + (fuel - k))%nat with fuel in E by lia. cbn [app] in E. rewrite E.
  destruct (fuel - k)%nat eqn:Ek; [lia|]. done.
Qed.

(** Running the deletions of a walk: what is left, and what was there. *)
Lemma run_marked l l1 ns ds :
  state_ready l -> tr_canTrimCacheLastNode (lg_trim l) = None -> recached l l1 -> marked l ns ds ->
  forall l2, table l2 = table l1 -> lg_trim l2 = lg_trim l1 -> state_ready l2 ->
  exists l', run_deletes l2 ds = Val l' /\ (forall h, in_log l' h <-> in_log l h /\ ~ doomed l ns h) /\
    (forall h m, meta_of (table l') h = Some m -> meta_of (table l) h = Some m).
Proof.
  intros Hl Ht Hr Hm l2 Et2 Ett Hl2. destruct (marked_doomed l ns ds Hl Hm) as [Hds Hdoom].
  destruct (recached_index _ _ Hr) as (Et & _ & Hl1).
  destruct (run_deletes_ok ds l2 Hl2) as (l' & -> & _ & Hm'); [rewrite Ett; by destruct Hr as (c & -> & _)| |].
  { intros d Hd. by apply (stored_hash (table l)), Hds; [apply (rd_index _ Hl)|]. }
  exists l'. split; [done|]. rewrite Et2, Et in Hm'. split.
  - intros h. unfold in_log at 1. rewrite Hm'. case_decide as Hin.
    + apply Hdoom in Hin as [? ?]. split; [by intros ?%is_Some_None|]. by intros [_ ?].
    + split; [|by intros [? _]]. intros Hh. split; [done|]. intros Hd. by apply Hin, Hdoom.
  - intros h m. rewrite Hm'. by case_decide.
Qed.

(** C31. Removing one or more entries recursively ends on every acyclic log, with enough
    fuel, and removes exactly the entries of the log the walk reaches from the given
    ones - an entry another removed one follows, unless a further entry that is not
    a cut follows it too - which is also what it reports. The index of the log is in
    order, and the option canTrimCacheLastNode is not set. *)
Theorem remove_recursively_exact (rank : string -> nat) l from :
  state_ready l -> tr_canTrimCacheLastNode (lg_trim l) = None -> from <> [] ->
  (forall n, n ∈ from -> ranked rank n) -> acyclic rank (full (lg_entryIndex l)) ->
  exists fuel0, forall fuel, (fuel0 <= fuel)%nat -> exists change l', remove fuel l from true = Val (change, l') /\
    added change = [] /\ (forall h, h ∈ map any_hash (removed change) <-> doomed l from h /\ in_log l h) /\
    (forall h, in_log l' h <-> in_log l h /\ ~ doomed l from h) /\
    (forall h m, meta_of (table l') h = Some m -> meta_of (table l) h = Some m).
Proof.
  intros Hl Ht Hne Hns Hac. destruct (prepare_ends rank l from Hns Hl Hac) as (fuel0 & l1 & ds & Hr & Hm & E).
  exists fuel0. intros fuel Hf. unfold remove. destruct from as [|n from]; [done|]. unfold prepareDeleteRecursively.
  rewrite E by done. cbn [mbind outcome_bind]. set (change := MkChange [] (map (fun d => Shallow (pd_entry d)) ds)).
  destruct (run_marked l l1 _ ds Hl Ht Hr Hm (tell l1 LogOnChange change)) as (l' & -> & Hin & Hme); [done|done|by destruct Hr as (c & -> & Hr)|].
  cbn [mbind outcome_bind]. exists change, l'. split_and!; try done.
  intros h. destruct (marked_doomed l _ ds Hl Hm) as [Hds Hd]. rewrite <- Hd. cbn [change removed]. rewrite map_map.
  erewrite map_ext_in; [done|]. intros d Hin'. cbn. apply (stored_hash (table l)), Hds; [apply (rd_index _ Hl)|by apply list_elem_of_In].
Qed.

Lemma cut_starts (rank : string -> nat) l c m :
  ranked rank (node_of c) -> acyclic rank (full (lg_entryIndex l)) ->
  m ∈ flat_map (pushed (table l) (full (lg_entryIndex l)) (en_hash c)) (meta_next (en_meta c)) ->
  ranked rank m /\ (rank (nd_hash m) < rank (en_hash c))%nat.
Proof.
  intros Hrank Hac (a & Ha & Hm)%list_elem_of_In%in_flat_map. apply list_elem_of_In in Ha, Hm.
  destruct (pushed_node rank _ _ _ _ _ Hac (full_hash _) Hm) as [-> Hr]. split; [done|]. by apply Hrank.
Qed.

(** What processing a [CUT] entry that has been put asks to delete. *)
Lemma cut_prepares (rank : string -> nat) l c :
  state_ready l -> meta_type (en_meta c) = CUT -> ranked rank (node_of c) -> acyclic rank (full (lg_entryIndex l)) ->
  let starts := flat_map (pushed (table l) (full (lg_entryIndex l)) (en_hash c)) (meta_next (en_meta c)) in
  exists fuel0, forall fuel, (fuel0 <= fuel)%nat -> exists l1 ds, processEntry fuel l c = Val (l1, ds) /\ recached l l1 /\ marked l starts ds.
Proof.
  intros Hl Hcut Hrank Hac starts.
  destruct (push_nexts_ok (en_hash c) (meta_next (en_meta c)) l Hl) as (l0 & Hr0 & E0). fold starts in E0.
  destruct (recached_index _ _ Hr0) as (Et0 & Es0 & Hl0).
  destruct (prepare_ends rank l0 starts) as (fuel0 & l1 & ds & Hr & Hm & E);
    [intros m Hm; by apply (cut_starts rank l c)|done|unfold full; by rewrite Es0|].
  exists (S fuel0). intros fuel Hf. destruct fuel as [|fuel]; [lia|]. exists l1, ds. split_and!; [|by eapply recached_trans|by apply (marked_recached l l0)].
  unfold processEntry. rewrite Hcut. unfold prepareDeleteRecursively. cbn [prepare_loop map List.last removelast].
  cbn [node_of nd_hash nd_next]. rewrite E0. cbn [mbind outcome_bind app]. by rewrite E by lia.
Qed.

(** A cut removes what it follows: processing a [CUT] entry that has been put
    and running the deletions it asks for removes exactly what only cuts follow,
    and what only these entries hold; the cut itself stays. *)
Theorem cut_removes (rank : string -> nat) l c :
  state_ready l -> tr_canTrimCacheLastNode (lg_trim l) = None -> meta_type (en_meta c) = CUT ->
  ranked rank (node_of c) -> acyclic rank (full (lg_entryIndex l)) ->
  let starts := flat_map (pushed (table l) (full (lg_entryIndex l)) (en_hash c)) (meta_next (en_meta c)) in
  exists fuel0, forall fuel, (fuel0 <= fuel)%nat -> exists l1 ds l', processEntry fuel l c = Val (l1, ds) /\
    run_deletes l1 ds = Val l' /\ (forall h, in_log l' h <-> in_log l h /\ ~ doomed l starts h) /\ ~ doomed l starts (en_hash c).
Proof.
  intros Hl Ht Hcut Hrank Hac starts. destruct (cut_prepares rank l c Hl Hcut Hrank Hac) as (fuel0 & E).
  exists fuel0. intros fuel Hf. destruct (E fuel Hf) as (l1 & ds & Ep & Hr & Hm). fold starts in Hm.
  destruct (run_marked l l1 starts ds Hl Ht Hr Hm l1) as (l' & Erun & Hin & _); [done|done|by apply (recached_index _ _ Hr)|].
  exists l1, ds, l'. split_and!; [done|done|done|].
  intros (n & k & Hn & Hv & Hk). destruct (cut_starts rank l c n Hrank Hac Hn) as [Hrn Hlt].
  assert (Hle : (rank (nd_hash k) <= rank (nd_hash n))%nat).
  { clear -Hv Hrn Hac. induction Hv as [n|n a m k Ha Hm _ IH]; [done|].
    destruct (pushed_node rank _ _ _ _ _ Hac (full_hash _) Hm) as [Hma Hrm]. specialize (IH Hrm). specialize (Hrn a Ha). rewrite Hma in IH. lia. }
  rewrite Hk in Hle. lia.
Qed.

(** Two branches are cut but their common stem stays: an entry that two
    entries which are not cuts follow is never removed by a recursive removal that
    does not name it, even when both of its followers are removed. *)
Theorem remove_keeps_stem (rank : string -> nat) l from a f1 f2 x1 x2 :
  state_ready l -> tr_canTrimCacheLastNode (lg_trim l) = None -> from <> [] ->
  (forall n, n ∈ from -> ranked rank n) -> acyclic rank (full (lg_entryIndex l)) ->
  in_log l a -> (forall n, n ∈ from -> nd_hash n <> a) -> f1 <> f2 ->
  stored_at (table l) f1 = Some x1 -> smeta_type (se_meta x1) = APPEND -> a ∈ smeta_next (se_meta x1) ->
  stored_at (table l) f2 = Some x2 -> smeta_type (se_meta x2) = APPEND -> a ∈ smeta_next (se_meta x2) ->
  exists fuel0, forall fuel, (fuel0 <= fuel)%nat -> exists change l', remove fuel l from true = Val (change, l') /\
    in_log l' a /\ (doomed l from f1 -> doomed l from f2 -> ~ in_log l' f1 /\ ~ in_log l' f2).
Proof.
  intros Hl Ht Hne Hns Hac Ha Hfrom H12 Hs1 Ht1 Hn1 Hs2 Ht2 Hn2.
  destruct (prepare_ends rank l from Hns Hl Hac) as (fuel0 & l1 & ds & Hr & Hm & E).
  exists fuel0. intros fuel Hf. unfold remove. destruct from as [|n from]; [done|]. unfold prepareDeleteRecursively.
  rewrite E by done. cbn [mbind outcome_bind]. set (change := MkChange [] (map (fun d => Shallow (pd_entry d)) ds)).
  destruct (run_marked l l1 _ ds Hl Ht Hr Hm (tell l1 LogOnChange change)) as (l' & -> & Hin & Hme); [done|done|by destruct Hr as (c & -> & Hr)|].
  cbn [mbind outcome_bind]. exists change, l'. split; [done|].
  assert (Halt : forall h, alternative (table l) h a = true).
  { intros h. apply existsb_exists. assert (HT : table_ok (table l)) by apply (rd_index _ Hl).
    destruct (decide (f1 = h)) as [->|Hne'].
    - exists x2. split; [by apply list_elem_of_In, (stored_in _ _ _ HT Hs2)|]. unfold follows. rewrite Ht2. cbn.
      rewrite bool_decide_true, bool_decide_false; [done| |done]. rewrite (stored_hash _ _ _ HT Hs2). congruence.
    - exists x1. split; [by apply list_elem_of_In, (stored_in _ _ _ HT Hs1)|]. unfold follows. rewrite Ht1. cbn.
      rewrite bool_decide_true, bool_decide_false; [done| |done]. by rewrite (stored_hash _ _ _ HT Hs1). }
  assert (Hvis : forall n k, visited (table l) (full (lg_entryIndex l)) n k -> nd_hash n <> a -> nd_hash k <> a).
  { intros n' k Hv. induction Hv as [n'|n' b m k Hb Hmp _ IH]; [done|]. intros _. apply IH.
    destruct (pushed_node rank _ _ _ _ _ Hac (full_hash _) Hmp) as [-> _]. intros ->. unfold pushed in Hmp. rewrite Halt in Hmp.
    by apply not_elem_of_nil in Hmp. }
  split.
  - apply Hin. split; [done|]. intros (m & k & Hm' & Hv & Hk). by apply (Hvis m k Hv (Hfrom m Hm')).
  - intros Hd1 Hd2. rewrite !Hin. tauto.
Qed.

End Delete.
