(* ===== verification/LogReady.v ===== *)
(** * Appending with named nexts and of any type
    (packages/log/src/log.ts)

    The documents of a store are chains in one log: an edit follows the head of
    its document, and a deletion is a [CUT] that follows it.  [log_ready] is the
    invariant of such a log, in which cuts stay behind when what they follow has
    been removed; [append_begin_ready] and [run_deletes_ready] say what appending
    does to it. *)

From Stdlib Require Import ZArith Lia.
From stdpp Require Import base list strings relations.
From S2P Require Import Prelude JsMap Cache Clock JsVal Query IndexInterface SimpleIndex SimpleIndexFacts Integers LogSorting EntryIndex EntryIndexFacts Trim Log LogState LogDelete.

Local Open Scope Z_scope.

Definition full_of {Q} `{Queue Q string} (l : Log (Q := Q)) (k : string) : option Entry := full (lg_entryIndex l) k.
Definition time_of (e : Entry) : Timestamp := lc_timestamp (meta_clock (en_meta e)).

(** The hash of the block store names contents. *)
Class LogEnvLaws `{LogEnv} : Prop := {
  law_multihash_inj m d m' d' : multihash m d = multihash m' d' -> m = m' /\ d = d';
  law_multihash_ne m d : multihash m d <> ""%string;
}.

(** Another environment, with the check of one call. *)
Definition with_canAppend (E : LogEnv) (f : option string -> Meta -> Z -> outcome bool) : LogEnv := {|
  Data := Data; byteLength := byteLength; multihash := multihash; multihash_of := multihash_of; remote_get := remote_get;
  verifySignatures := verifySignatures; option_canAppend := f; wall_time := wall_time; date_now := date_now |}.

Lemma filter_shorter {A} (p q : A -> bool) (l : list A) x :
  (forall y, p y = true -> q y = true) -> x ∈ l -> q x = true -> p x = false ->
  (length (List.filter p l) < length (List.filter q l))%nat.
Proof.
  intros Hpq Hx Hq Hp. assert (Hle : forall l, (length (List.filter p l) <= length (List.filter q l))%nat).
  { clear -Hpq. induction l as [|y l IH]; simpl; [lia|]. specialize (Hpq y). destruct (p y), (q y); simpl; try lia; discriminate (Hpq eq_refl). }
  induction l as [|y l IH]; [by apply not_elem_of_nil in Hx|]. simpl.
  apply elem_of_cons in Hx as [<-|Hx]; [rewrite Hq, Hp; simpl; specialize (Hle l); lia|].
  specialize (IH Hx). specialize (Hpq y). destruct (p y), (q y); simpl; try lia; discriminate (Hpq eq_refl).
Qed.

Section Ready.
Context `{JsEnv, Document ShallowEntry, !DocumentLaws ShallowEntry, !ShallowDocument}.
Context {Q : Type} `{Queue Q string, !QueueLaws Q string, LogEnv, !LogEnvLaws}.
Implicit Types (l : Log (Q := Q)) (s : EntryIndex (Q := Q)) (e : Entry).

Record log_ready l : Prop := {
  lr_ready : state_ready l;
  lr_trim : tr_trim (lg_trim l) = None;
  lr_last_node : tr_canTrimCacheLastNode (lg_trim l) = None;
  lr_clock : Timestamp_wf (last (lg_hlc l));
  lr_full k e : full_of l k = Some e -> k <> ""%string /\ meta_of (table l) k = Some (new_ShallowMeta (en_meta e));
  lr_meta k : in_log l k -> is_Some (full_of l k);
  lr_past k e : full_of l k = Some e -> time_of e = last (lg_hlc l) \/ Timestamp_lt (time_of e) (last (lg_hlc l));
  lr_hash k e : full_of l k = Some e -> exists d, k = multihash (en_meta e) d;
  lr_next k e a : full_of l k = Some e -> a ∈ meta_next (en_meta e) ->
    exists m d, a = multihash m d /\ Timestamp_lt (lc_timestamp (meta_clock m)) (time_of e);
}.

Lemma ready_in_log l k : log_ready l -> in_log l k <-> is_Some (full_of l k).
Proof.
  intros Hl. split; [apply (lr_meta _ Hl)|]. intros [e He]. exists (new_ShallowMeta (en_meta e)). by apply (lr_full _ Hl).
Qed.

Lemma full_of_hash l k e : full_of l k = Some e -> en_hash e = k.
Proof. apply full_hash. Qed.

Lemma next_earlier l k e a e' :
  log_ready l -> full_of l k = Some e -> a ∈ meta_next (en_meta e) -> full_of l a = Some e' -> Timestamp_lt (time_of e') (time_of e).
Proof.
  intros Hl Hk Ha Ea. destruct (lr_next _ Hl k e a Hk Ha) as (m & d & -> & Hlt). destruct (lr_hash _ Hl _ _ Ea) as (d' & E).
  destruct (law_multihash_inj _ _ _ _ E) as [-> _]. exact Hlt.
Qed.

(** ** Entries are ranked by how many stored ones are earlier *)

Definition entries_of l : list Entry := map snd (ei_store (lg_entryIndex l)).
Definition earlier_than (e x : Entry) : bool := bool_decide (Clock.compare (time_of x) (time_of e) = -1).
Definition rank_of l (k : string) : nat :=
  match full_of l k with Some e => S (length (List.filter (earlier_than e) (entries_of l))) | None => 0 end.

Lemma full_stored l k e : full_of l k = Some e -> exists e0, e0 ∈ entries_of l /\ time_of e0 = time_of e.
Proof.
  unfold full_of, full. destruct (Map_get _ k) as [e0|] eqn:E; [|done]. intros [= <-]. exists e0. split; [|done].
  apply list_elem_of_fmap. exists (k, e0). split; [done|]. by apply Map_get_Some_elem.
Qed.

Lemma ready_acyclic l : log_ready l -> acyclic (rank_of l) (full_of l).
Proof.
  intros Hl k e a Hk Ha. unfold rank_of. rewrite Hk. destruct (full_of l a) as [e'|] eqn:Ea; [|lia].
  apply -> Nat.succ_lt_mono. pose proof (next_earlier l k e a e' Hl Hk Ha Ea) as Hlt.
  destruct (full_stored l a e' Ea) as (e0 & Hin & Ht). unfold earlier_than. apply (filter_shorter _ _ _ e0).
  - intros y Hy%bool_decide_eq_true. apply bool_decide_eq_true. change (Timestamp_lt (time_of y) (time_of e)). by transitivity (time_of e').
  - done.
  - apply bool_decide_eq_true. rewrite Ht. exact Hlt.
  - apply bool_decide_eq_false. rewrite Ht. apply (irreflexivity Timestamp_lt).
Qed.

(** ** Putting an entry whose block is stored *)

Lemma put_ready computed now s e isHead (st : string -> option Entry) :
  index_wf s -> cache_agrees st (ei_cache s) -> (forall k, k <> en_hash e -> full s k = st k) -> full s (en_hash e) = Some e ->
  en_hash e <> ""%string -> stored_at (ei_index s) (en_hash e) = None -> en_hash e ∉ meta_next (en_meta e) ->
  exists gids s', put computed now s (Some (en_hash e)) (en_meta e) (en_payloadSize e) true isHead false = Val (gids, s') /\
    ready s' /\ ei_store s' = ei_store s /\
    forall k, meta_of (ei_index s') k = if decide (en_hash e = k) then Some (new_ShallowMeta (en_meta e)) else meta_of (ei_index s) k.
Proof.
  intros [HT Hlen Hc Hsort] Ha Hst He Hne Hfresh Hself. unfold put.
  rewrite (put_hash_ok computed s (en_hash e) (en_meta e) (en_payloadSize e) false Hne). cbn [mbind outcome_bind new_store ei_cache ei_index ei_store ei_length ei_sort].
  replace (MkEntry (en_hash e) (en_meta e) (en_payloadSize e)) with e by by destruct e.
  destruct (add_other st (full s) now (ei_cache s) (en_hash e) Hc Ha) as (c & Ec & Hc' & Ha'); [by intros k Hk; apply Hst|].
  rewrite He in Ec. rewrite Ec. cbn [mbind outcome_bind]. rewrite (put_table _ (toShallow e isHead) HT). cbn [mbind outcome_bind].
  set (T1 := set_entry (ei_index s) (toShallow e isHead)). set (s2 := MkEntryIndex T1 c (ei_store s) _ _).
  assert (HT1 : table_ok T1) by by apply set_entry_ok.
  assert (Hlen1 : length (hm_index T1) = S (length (hm_index (ei_index s)))).
  { unfold T1. cbn [set_entry with_index hm_index toShallow se_hash]. rewrite Map_set_length. unfold stored_at in Hfresh.
    destruct (Map_get _ _); [done|lia]. }
  destruct (shadowed_gids_ok e s2 HT1 Hsort Hne) as (gids & -> & _). cbn [mbind outcome_bind].
  assert (Hm1 : forall k, meta_of T1 k = if decide (en_hash e = k) then Some (new_ShallowMeta (en_meta e)) else meta_of (ei_index s) k).
  { intros k. unfold meta_of, T1. rewrite stored_set. cbn [toShallow se_hash]. by destruct (decide _). }
  unfold privateUpdateNextHeadProperty. cbn [new_ShallowMeta smeta_type smeta_next].
  destruct (meta_type (en_meta e)).
  - destruct (update_all_ok false s2 (meta_next (en_meta e)) HT1) as (T' & -> & Hu). cbn [mbind outcome_bind].
    exists gids, (with_table s2 T'). split; [done|]. split; [|split; [done|]].
    + split; [|exact Ha']. split; [apply Hu| |done|done]. cbn [with_table ei_length ei_index s2]. rewrite (upd_length _ _ _ _ Hu). cbn [s2 ei_index]. lia.
    + intros k. rewrite <- Hm1. unfold meta_of. cbn [with_table ei_index]. rewrite (upd_stored _ _ _ _ Hu). cbn [s2 ei_index].
      case_decide; [|done]. by destruct (stored_at T1 k).
  - exists gids, s2. split; [done|]. split; [|by split]. split; [|exact Ha']. split; [done| |done|done]. cbn [s2 ei_length ei_index]. lia.
Qed.

(** ** Named nexts that are in the log *)

Lemma log_has_ready l st k :
  index_wf (lg_entryIndex l) -> cache_agrees st (ei_cache (lg_entryIndex l)) ->
  (forall k e, st k = Some e -> is_Some (stored_at (table l) k)) -> is_Some (stored_at (table l) k) ->
  exists c, log_has l k = Val (true, set_index l (with_cache (lg_entryIndex l) c)) /\ Inv c /\ cache_agrees st c.
Proof.
  intros Hw Ha Hst [x Hk]. unfold log_has, has.
  destruct (get_agrees st (now_ l) (ei_cache (lg_entryIndex l)) k (io_cache _ Hw) Ha) as (mem & c & -> & Hc & Ha' & _).
  cbn [mbind outcome_bind]. exists c. split; [|done]. do 3 f_equal. change (getShallow (with_cache (lg_entryIndex l) c) k) with (getShallow (lg_entryIndex l) k).
  rewrite getShallow_stored, Hk. by destruct mem as [[?|]|].
Qed.

Lemma join_nexts_ready st ns : forall l,
  index_wf (lg_entryIndex l) -> cache_agrees st (ei_cache (lg_entryIndex l)) ->
  (forall k e, st k = Some e -> is_Some (stored_at (table l) k)) -> (forall n, n ∈ ns -> is_Some (stored_at (table l) (any_hash n))) ->
  exists c, (forall fuel, foldM (join_next fuel) l ns = Val (set_index l (with_cache (lg_entryIndex l) c))) /\ Inv c /\ cache_agrees st c.
Proof.
  induction ns as [|n ns IH]; intros l Hw Ha Hst Hn; cbn [foldM].
  { exists (ei_cache (lg_entryIndex l)). split; [by destruct l as [[]]|]. split; [apply Hw|done]. }
  destruct (log_has_ready l st (any_hash n) Hw Ha Hst) as (c & E & Hc & Ha'); [apply Hn; left|].
  assert (Estep : forall fuel, join_next fuel l n = Val (set_index l (with_cache (lg_entryIndex l) c))) by (intros fuel; unfold join_next; by rewrite E).
  destruct (IH (set_index l (with_cache (lg_entryIndex l) c))) as (c' & E' & ? & ?); [by destruct Hw|done|done|by intros m Hm; apply Hn; right|].
  exists c'. split; [|done]. intros fuel. rewrite Estep. cbn [mbind outcome_bind]. by rewrite E'.
Qed.

(** ** Appending *)

(** The entry [append] makes with named nexts. *)
Definition appended_as l (t : Timestamp) (gid0 : string) (data : Data) (type : option EntryType) (meta_data : option (list Z))
    (ns : list Entry) : Entry :=
  let gid := default gid0 (fold_left min_gid (map Full ns) None) in
  let meta := MkMeta (MkLamportClock (lg_identity l) t) gid (map en_hash ns) (default APPEND type) meta_data in
  MkEntry (multihash meta data) meta (byteLength data).

Definition append_with (type : option EntryType) (meta_data : option (list Z)) (ns : list Entry) (onChange : bool) : AppendOptions :=
  MkAppendOptions type meta_data None (Some (map Full ns)) None onChange.

Lemma create_with l t gid0 data type meta_data ns :
  let e := appended_as l t gid0 data type meta_data ns in
  (forall n, n ∈ ns -> en_hash n <> ""%string /\ Timestamp_lt (time_of n) t) ->
  option_canAppend None (en_meta e) (byteLength data) = Val true ->
  create l (MkLamportClock (lg_identity l) t) gid0 data type meta_data (map Full ns) =
    Val (e, set_index l (MkEntryIndex (table l) (ei_cache (lg_entryIndex l)) (Map_set (store l) (en_hash e) e)
                           (ei_length (lg_entryIndex l)) (ei_sort (lg_entryIndex l)))).
Proof.
  intros e Hns Hacc. unfold create. rewrite check_nexts_ok by (intros n (x & -> & Hx)%list_elem_of_fmap; by apply Hns).
  cbn [mbind outcome_bind]. assert (Ex : existsb (fun n => bool_decide (any_hash n = ""%string)) (map Full ns) = false).
  { apply not_true_iff_false. intros (n & Hn & Hb)%existsb_exists. apply list_elem_of_In, list_elem_of_fmap in Hn as (x & -> & Hx).
    apply bool_decide_eq_true in Hb. by apply (Hns x Hx). }
  rewrite Ex. cbn [throw_if mbind outcome_bind]. rewrite map_map.
  change (map (fun x => any_hash (Full x)) ns) with (map en_hash ns).
  unfold _canAppend. unfold e, appended_as in Hacc. cbn [en_meta] in Hacc. by rewrite Hacc.
Qed.

(** The log with one entry more. *)
Definition grown l l' (e : Entry) : Prop := forall k, full_of l' k = if decide (en_hash e = k) then Some e else full_of l k.

Lemma grown_ready l l' e data ns :
  log_ready l -> grown l l' e -> state_ready l' -> lg_trim l' = lg_trim l ->
  (forall k, meta_of (table l') k = if decide (en_hash e = k) then Some (new_ShallowMeta (en_meta e)) else meta_of (table l) k) ->
  en_hash e = multihash (en_meta e) data -> meta_next (en_meta e) = map en_hash ns -> (forall n, n ∈ ns -> full_of l (en_hash n) = Some n) ->
  time_of e = last (lg_hlc l') -> Timestamp_lt (last (lg_hlc l)) (time_of e) -> Timestamp_wf (last (lg_hlc l')) -> log_ready l'.
Proof.
  intros Hl Hg Hr Ht Hm Hh Hnext Hns Hlast Hlt Hwf.
  assert (Hpast : forall k x, full_of l k = Some x -> Timestamp_lt (time_of x) (time_of e)).
  { intros k x Hx. destruct (lr_past _ Hl k x Hx) as [->|?]; [done|by etransitivity]. }
  split; rewrite ?Ht; try done; try apply Hl.
  - intros k x. rewrite Hg, Hm. case_decide as Hk; [intros [= <-]; split; [rewrite <- Hk, Hh; apply law_multihash_ne|done]|apply (lr_full _ Hl)].
  - intros k. unfold in_log. rewrite Hg, Hm. case_decide; [by intros _; eexists|apply (lr_meta _ Hl)].
  - intros k x. rewrite Hg, <- Hlast. case_decide; [intros [= <-]; by left|intros Hx; right; by apply (Hpast k)].
  - intros k x. rewrite Hg. case_decide as Hk; [intros [= <-]; exists data; congruence|apply (lr_hash _ Hl)].
  - intros k x a. rewrite Hg. case_decide as Hk; [|apply (lr_next _ Hl)]. intros [= <-]. rewrite Hnext.
    intros (n & -> & Hn)%list_elem_of_fmap. destruct (lr_hash _ Hl _ n (Hns n Hn)) as (d & E). exists (en_meta n), d. split; [done|].
    apply (Hpast (en_hash n)). by apply Hns.
Qed.

(** The entries behind some entries. *)
Definition follows_in l (x y : string) : Prop := exists e, full_of l x = Some e /\ y ∈ meta_next (en_meta e).
Definition behind l (ns : list string) (y : string) : Prop := exists x, x ∈ ns /\ rtc (follows_in l) x y.

Lemma pushed_full l h a m : m ∈ pushed (table l) (full_of l) h a -> exists e, full_of l a = Some e /\ m = node_of e /\ nd_hash m = a.
Proof.
  unfold pushed. destruct (alternative _ _ _); [by intros ?%not_elem_of_nil|]. destruct (full_of l a) as [e|] eqn:E; [|by intros ?%not_elem_of_nil].
  intros ->%list_elem_of_singleton. exists e. split; [done|]. split; [done|]. by apply full_of_hash in E.
Qed.

Lemma visited_behind l n m : visited (table l) (full_of l) n m ->
  (exists e, full_of l (nd_hash n) = Some e /\ n = node_of e) -> rtc (follows_in l) (nd_hash n) (nd_hash m).
Proof.
  induction 1 as [n|n a m k Ha Hm _ IH]; [done|]. intros (e & He & En).
  destruct (pushed_full l _ _ _ Hm) as (e' & He' & Em & Eh). eapply rtc_l; [|apply IH; exists e'; by rewrite Eh].
  exists e. rewrite Eh. split; [done|]. by rewrite En in Ha.
Qed.

Lemma marked_behind l c d :
  log_ready l -> d ∈ map pd_hash c ->
  forall e, marked l (flat_map (pushed (table l) (full_of l) (en_hash e)) (meta_next (en_meta e))) c ->
  behind l (meta_next (en_meta e)) d.
Proof.
  intros Hl Hd e Hm. destruct (marked_doomed l _ c (lr_ready _ Hl) Hm) as [_ Hdoom]. destruct (proj1 (Hdoom d) Hd) as [(n & k & Hn & Hv & Ek) _]. rewrite <- Ek.
  apply list_elem_of_In, in_flat_map in Hn as (a & Ha & Hn). apply list_elem_of_In in Ha, Hn.
  destruct (pushed_full l _ _ _ Hn) as (x & Hx & En & Eh). exists a. split; [done|]. rewrite <- Eh at 1.
  apply visited_behind; [exact Hv|]. exists x. by rewrite Eh.
Qed.

(** Appending stores the entry and reports it, with what a cut asks to delete. *)
Lemma append_begin_ready l data gid0 type meta_data onChange ns t h :
  log_ready l -> Clock.now (lg_hlc l) (wall_time (lg_tick l)) = Val (t, h) ->
  (forall n, n ∈ ns -> full_of l (en_hash n) = Some n) ->
  let e := appended_as l t gid0 data type meta_data ns in
  option_canAppend None (en_meta e) (byteLength data) = Val true ->
  exists fuel0, forall fuel, (fuel0 <= fuel)%nat -> exists pending l',
    append_begin fuel l data gid0 (append_with type meta_data ns onChange) =
      Val (e, map (fun d => Shallow (pd_entry d)) pending, pending, l') /\
    log_ready l' /\ grown l l' e /\ full_of l (en_hash e) = None /\ Timestamp_lt (last (lg_hlc l)) t /\
    (forall d, d ∈ pending -> stored_at (table l') (pd_hash d) = Some (pd_entry d)) /\
    (forall k, k ∈ map pd_hash pending -> behind l' (map en_hash ns) k) /\
    (default APPEND type = APPEND -> pending = []).
Proof.
  intros Hl Hnow Hns e Hacc. destruct (update_later _ _ _ _ _ (lr_clock _ Hl) (lr_clock _ Hl) Hnow) as (Hlt & _ & Hwf & Hh).
  assert (Hpast : forall k x, full_of l k = Some x -> Timestamp_lt (time_of x) t).
  { intros k x Hx. destruct (lr_past _ Hl k x Hx) as [->|?]; [done|by etransitivity]. }
  assert (Hfresh : full_of l (en_hash e) = None).
  { destruct (full_of l (en_hash e)) as [x|] eqn:Ex; [|done]. destruct (lr_hash _ Hl _ x Ex) as (d & E).
    destruct (law_multihash_inj _ _ _ _ E) as [Em _]. pose proof (Hpast _ x Ex) as Hx. unfold time_of in Hx. rewrite <- Em in Hx. by apply irreflexivity in Hx; [|apply _]. }
  assert (Hne : en_hash e <> ""%string) by apply law_multihash_ne.
  assert (Hin : forall n, n ∈ ns -> en_hash n <> en_hash e) by (intros n Hn E; rewrite <- E, (Hns n Hn) in Hfresh; done).
  set (l1 := set_hlc l h).
  set (l2 := set_index l1 (MkEntryIndex (table l1) (ei_cache (lg_entryIndex l1)) (Map_set (store l1) (en_hash e) e)
                           (ei_length (lg_entryIndex l1)) (ei_sort (lg_entryIndex l1)))).
  assert (Ec : create l1 (MkLamportClock (lg_identity l) t) gid0 data type meta_data (map Full ns) = Val (e, l2)).
  { apply (create_with l1 t gid0 data type meta_data ns); [|exact Hacc]. intros n Hn. split; [by apply (lr_full _ Hl _ n), Hns|by apply (Hpast (en_hash n)), Hns]. }
  assert (Hw : index_wf (lg_entryIndex l2)) by by destruct (rd_index _ (lr_ready _ Hl)).
  assert (Hst : forall k x, full_of l k = Some x -> is_Some (stored_at (table l2) k)).
  { intros k x Hx. apply meta_stored. eexists. by apply (lr_full _ Hl). }
  assert (Hjoin : exists c, (forall fuel, match default APPEND type with CUT => Val l2 | APPEND => foldM (join_next fuel) l2 (map Full ns) end =
             Val (set_index l2 (with_cache (lg_entryIndex l2) c))) /\ Inv c /\ cache_agrees (full_of l) c).
  { destruct (default APPEND type).
    - apply join_nexts_ready; [done|apply (rd_cache _ (lr_ready _ Hl))|done|]. intros n (x & -> & Hx)%list_elem_of_fmap. by apply (Hst _ x), Hns.
    - exists (ei_cache (lg_entryIndex l2)). split; [intros fuel; by destruct l2 as [[]]|]. split; [apply Hw|apply (rd_cache _ (lr_ready _ Hl))]. }
  destruct Hjoin as (c & Ej & Hc & Ha). set (l3 := set_index l2 (with_cache _ c)) in Ej.
  assert (Hg3 : forall k, full_of l3 k = if decide (en_hash e = k) then Some e else full_of l k).
  { intros k. unfold full_of, full. cbn [l3 l2 set_index lg_entryIndex with_cache ei_store]. rewrite Map_get_set. case_decide as Hk; [|done]. rewrite <- Hk. by destruct e. }
  assert (Hfs : stored_at (table l3) (en_hash e) = None).
  { apply eq_None_not_Some. intros Hs. change (table l3) with (table l) in Hs. apply in_log_stored, (ready_in_log _ _ Hl) in Hs. rewrite Hfresh in Hs. by destruct Hs. }
  destruct (put_ready (en_hash e) (now_ l3) (lg_entryIndex l3) e true (full_of l)) as (gids & s & Ep & Hr & Hs & Hm); [by destruct Hw|exact Ha| | |done|done| |].
  { intros k Hk. change (full_of l3 k = full_of l k). rewrite Hg3. by rewrite decide_False by congruence. }
  { change (full_of l3 (en_hash e) = Some e). by rewrite Hg3, decide_True. }
  { intros (n & E & Hn)%list_elem_of_fmap. by apply (Hin n Hn). }
  set (l4 := tell_gids (set_index l3 s) gids).
  assert (E4 : lg_entryIndex l4 = s /\ lg_trim l4 = lg_trim l /\ lg_hlc l4 = h) by by destruct gids.
  destruct E4 as (Es4 & Et4 & Eh4).
  assert (Hg4 : grown l l4 e).
  { intros k. rewrite <- Hg3. unfold full_of, full. by rewrite Es4, Hs. }
  assert (Hl4 : log_ready l4).
  { apply (grown_ready l l4 e data ns); try done; rewrite ?Eh4, ?Hh; try done; unfold state_ready, table; by rewrite ?Es4. }
  assert (Hproc : exists fuel0, forall fuel, (fuel0 <= fuel)%nat -> exists l5 ds, processEntry fuel l4 e = Val (l5, ds) /\ recached l4 l5 /\
     (forall d, d ∈ ds -> stored_at (table l4) (pd_hash d) = Some (pd_entry d)) /\
     (forall k, k ∈ map pd_hash ds -> behind l4 (map en_hash ns) k) /\ (default APPEND type = APPEND -> ds = [])).
  { unfold processEntry. change (meta_type (en_meta e)) with (default APPEND type). destruct (default APPEND type) eqn:Et.
    - exists 0%nat. intros fuel _. exists l4, []. split_and!; [done|apply recached_refl, Hl4|by intros ? ?%not_elem_of_nil|by intros ? ?%not_elem_of_nil|done].
    - destruct (cut_prepares (rank_of l4) l4 e (lr_ready _ Hl4) Et) as (fuel0 & E).
      { intros a Ha'. cbn in *. apply (ready_acyclic l4 Hl4 (en_hash e) e); [|done]. by rewrite Hg4, decide_True. }
      { by apply ready_acyclic. }
      exists fuel0. intros fuel Hf. destruct (E fuel Hf) as (l5 & ds & Ed & Hr5 & Hm5). exists l5, ds.
      unfold processEntry in Ed. change (meta_type (en_meta e)) with (default APPEND type) in Ed. rewrite Et in Ed. split_and!; [exact Ed|done| | |done].
      + by apply (marked_doomed l4 _ ds (lr_ready _ Hl4) Hm5).
      + intros k Hk. by apply (marked_behind l4 ds k Hl4 Hk e). }
  destruct Hproc as (fuel0 & Hproc). exists fuel0. intros fuel Hf. destruct (Hproc fuel Hf) as (l5 & ds & Ed & Hr5 & Hd1 & Hd2 & Hd3).
  assert (Et5 : tr_trim (lg_trim l5) = None) by (destruct Hr5 as (c5 & -> & _); cbn; apply Hl4).
  exists ds, (tell l5 (if onChange then OptionsOnChange else LogOnChange) (MkChange [(true, e)] (map (fun d => Shallow (pd_entry d)) ds))). split.
  { unfold append_begin, append_with. cbn [ao_next ao_type ao_data ao_timestamp ao_trim ao_onChange default from_option id].
    assert (Ex : existsb (fun n => bool_decide (any_hash n = ""%string)) (map Full ns) = false).
    { apply not_true_iff_false. intros (n & Hn & Hb)%existsb_exists. apply list_elem_of_In, list_elem_of_fmap in Hn as (x & -> & Hx).
      apply bool_decide_eq_true in Hb. by apply (lr_full _ Hl _ x (Hns x Hx)). }
    rewrite Ex. cbn [throw_if mbind outcome_bind]. rewrite Hnow. cbn [mbind outcome_bind]. fold l1.
    change (lg_identity l1) with (lg_identity l). rewrite Ec. cbn [mbind outcome_bind]. rewrite bool_decide_false by done. cbn [throw_if mbind outcome_bind].
    change (meta_type (en_meta e)) with (default APPEND type). rewrite Ej. cbn [mbind outcome_bind]. rewrite Ep. cbn [mbind outcome_bind]. fold l4.
    rewrite Ed. cbn [mbind outcome_bind]. rewrite log_trim_none by done. cbn [mbind outcome_bind]. by rewrite app_nil_r. }
  destruct Hr5 as (c5 & -> & Hr5').
  split; [|split_and!; try done].
  destruct Hl4. by split.
Qed.

(** ** Deleting *)

Lemma run_delete_ready l d :
  log_ready l -> se_hash (pd_entry d) = pd_hash d ->
  exists r l', run_delete l d = Val (r, l') /\ log_ready l' /\ lg_hlc l' = lg_hlc l /\
    forall k, full_of l' k = if decide (pd_hash d = k) then None else full_of l k.
Proof.
  intros Hl Hd. unfold run_delete, deleteFromCache. rewrite (lr_last_node _ Hl). cbn [mbind outcome_bind].
  destruct (delete_any (lg_entryIndex l) (pd_hash d) (pd_entry d) (rd_index _ (lr_ready _ Hl)) Hd) as (r & s' & -> & Hw & Hm & Hst & Hc & _).
  cbn [mbind outcome_bind]. eexists r, _. split; [done|].
  assert (Hf : forall k, full s' k = if decide (pd_hash d = k) then None else full_of l k).
  { intros k. unfold full_of, full. rewrite Hst, Map_get_delete. by case_decide. }
  split; [|by split]. assert (Hr : ready s').
  { split; [done|]. rewrite Hc. apply (del_agrees (full (lg_entryIndex l))); [apply (rd_cache _ (lr_ready _ Hl))|].
    intros k' Hk'. rewrite Hf. by rewrite decide_False by congruence. }
  destruct Hl as [H1' H2' H3' H4' H5' H6' H7' H8' H9']. split; try done;
    [intros k x|intros k; unfold in_log|intros k x|intros k x|intros k x a]; change (full_of _ k) with (full s' k); rewrite Hf.
  - intros Hx. cbn [set_index lg_entryIndex]. rewrite Hm. case_decide; [done|by apply H5'].
  - cbn [set_index lg_entryIndex]. rewrite Hm. case_decide; [by intros []|apply H6'].
  - case_decide; [done|apply H7'].
  - case_decide; [done|apply H8'].
  - case_decide; [done|apply H9'].
Qed.

Lemma run_deletes_ready ds : forall l,
  log_ready l -> (forall d, d ∈ ds -> se_hash (pd_entry d) = pd_hash d) ->
  exists l', run_deletes l ds = Val l' /\ log_ready l' /\ lg_hlc l' = lg_hlc l /\
    forall k, full_of l' k = if decide (k ∈ map pd_hash ds) then None else full_of l k.
Proof.
  induction ds as [|d ds IH]; intros l Hl Hd.
  { exists l. split_and!; [done..|]. intros k. by rewrite decide_False by apply not_elem_of_nil. }
  destruct (run_delete_ready l d Hl) as (r & l1 & E1 & Hl1 & Hh1 & Hf1); [apply Hd; left|].
  destruct (IH l1 Hl1) as (l2 & E2 & Hl2 & Hh2 & Hf2); [intros x Hx; apply Hd; by right|].
  exists l2. split; [unfold run_deletes in *; cbn [foldM]; rewrite E1; cbn [mbind outcome_bind]; exact E2|]. split; [done|]. split; [congruence|].
  intros k. rewrite Hf2, Hf1. cbn [map]. destruct (decide (k ∈ map pd_hash ds)) as [Hin|Hn].
  - by rewrite decide_True by by right.
  - case_decide as Hk; [subst k; by rewrite decide_True by left|rewrite decide_False; [done|]]. intros [?|?]%elem_of_cons; congruence.
Qed.

End Ready.
