(* ===== verification/ExchangeHeads.v ===== *)
(** * Sending heads (packages/programs/data/shared-log/src/exchange-heads.ts)

    The messages that carry entries between replicators and those that negotiate
    pruning, and how heads are packed into messages: each head with the gids of
    the entries behind it, one per gid, in messages of about 100 kB. *)

From Stdlib Require Import ZArith Lia.
From stdpp Require Import base list strings.
From S2P Require Import Prelude JsMap Cache Clock JsVal Query IndexInterface SimpleIndex SimpleIndexFacts Integers LogSorting EntryIndex EntryIndexFacts Trim Log LogState LogDelete.

Local Open Scope Z_scope.

Record EntryWithRefs := MkEntryWithRefs { ewr_entry : Entry; gidRefrences : list string }.

Record ExchangeHeadsMessage := MkExchangeHeads { exchanged_heads : list EntryWithRefs }.

(** Hashes I want to prune, and hashes I am allowed to prune. *)
Record RequestIPrune := MkRequestIPrune { request_hashes : list string }.
Record ResponseIPrune := MkResponseIPrune { response_hashes : list string }.

(** 1e5 bytes. *)
Definition MAX_EXCHANGE_MESSAGE_SIZE : Z := 100000.

(** What is sent: entries, or hashes of entries to look up. *)
Inductive HeadItem := HeadEntry (e : Entry) | HeadHash (hash : string).

Section ExchangeHeads.
Context {Q : Type} `{JsEnv, Document ShallowEntry, Queue Q string, LogEnv}.
Context (entry_size : Entry -> Z).   (* [entry.size], the length of its serialisation *)
Implicit Types l : Log (Q := Q).

(** ** The entries behind a head, one per gid *)

Definition any_type (e : ShallowOrFullEntry) : EntryType :=
  match e with Shallow e => smeta_type (se_meta e) | Full e => meta_type (en_meta e) end.
Definition any_next (e : ShallowOrFullEntry) : list string :=
  match e with Shallow e => smeta_next (se_meta e) | Full e => meta_next (en_meta e) end.

(** The indexed entries that an entry follows; the others are reported and skipped. *)
Definition indexed_next l (element : ShallowOrFullEntry) : list ShallowOrFullEntry :=
  match any_type element with
  | APPEND => omap (fun next => (fun r => Shallow (ir_value r)) <$> getShallow (lg_entryIndex l) next) (any_next element)
  | CUT => []
  end.

Definition walk_element l (st : list (string * ShallowOrFullEntry) * list ShallowOrFullEntry)
    (element : ShallowOrFullEntry) : list (string * ShallowOrFullEntry) * list ShallowOrFullEntry :=
  let '(map_, nexts) := st in
  if Map_has map_ (any_gid element) then st
  else (Map_set map_ (any_gid element) element, nexts ++ indexed_next l element).

(** [while (curr.length > 0)]. *)
Fixpoint walk_gids (fuel : nat) l (map_ : list (string * ShallowOrFullEntry)) (curr : list ShallowOrFullEntry)
    : outcome (list (string * ShallowOrFullEntry)) :=
  match curr with
  | [] => Val map_
  | _ =>
      match fuel with
      | O => NoFuel
      | S fuel => let '(map_, nexts) := fold_left (walk_element l) curr (map_, []) in walk_gids fuel l map_ nexts
      end
  end.

(** [entryIndex.get(hash)], which throws when the entry is not in the store. *)
Definition entryIndex_get l (hash : string) : outcome (option Entry * Log (Q := Q)) :=
  '(e, s) ← resolve (now_ l) (lg_entryIndex l) hash false; Val (e, set_index l s).

Definition load_value (st : list Entry * Log (Q := Q)) (x : ShallowOrFullEntry) : outcome (list Entry * Log (Q := Q)) :=
  let '(es, l) := st in
  match x with
  | Full e => Val (es ++ [e], l)
  | Shallow s => '(e, l) ← entryIndex_get l (se_hash s); Val (es ++ option_list e, l)
  end.

Definition allEntriesWithUniqueGids (fuel : nat) l (entry : Entry) : outcome (list Entry * Log (Q := Q)) :=
  map_ ← walk_gids fuel l [] [Full entry];
  foldM load_value ([], l) (Map_values map_).

(** ** Packing heads into messages *)

Record Batch := MkBatch {
  bt_size : Z;
  bt_current : list EntryWithRefs;
  bt_visited : list string;
  bt_yielded : list ExchangeHeadsMessage;
}.

(** The filter that drops what has been sent as a head or a reference before. *)
Definition visit (st : list string * list Entry) (x : Entry) : list string * list Entry :=
  let '(visited, refs) := st in
  if Set_has visited (en_hash x) then st else (Set_add visited (en_hash x), refs ++ [x]).

Definition push_head (b : Batch) (visited : list string) (entry : Entry) (refs : list Entry) : Batch :=
  let current := bt_current b ++ [MkEntryWithRefs entry (map (fun x => meta_gid (en_meta x)) refs)] in
  let size := bt_size b + entry_size entry in
  if MAX_EXCHANGE_MESSAGE_SIZE <? size
  then MkBatch 0 [] visited (bt_yielded b ++ [MkExchangeHeads current])
  else MkBatch size current visited (bt_yielded b).

Definition send_head (fuel : nat) (st : Batch * Log (Q := Q)) (fromHead : HeadItem) : outcome (Batch * Log (Q := Q)) :=
  let '(b, l) := st in
  '(entry, l) ← match fromHead with HeadEntry e => Val (Some e, l) | HeadHash hash => log_get l hash end;
  match entry with
  | None => Val (b, l)
  | Some entry =>
      '(all, l) ← allEntriesWithUniqueGids fuel l entry;
      let '(visited, refs) := fold_left visit all (Set_add (bt_visited b) (en_hash entry), []) in
      Val (push_head b visited entry refs, l)
  end.

Definition createExchangeHeadsMessages (fuel : nat) l (heads : list HeadItem) : outcome (list ExchangeHeadsMessage * Log (Q := Q)) :=
  '(b, l) ← foldM (send_head fuel) (MkBatch 0 [] [] [], l) heads;
  Val (match bt_current b with [] => bt_yielded b | _ => bt_yielded b ++ [MkExchangeHeads (bt_current b)] end, l).

End ExchangeHeads.

(** * Every head is sent, once, with one reference per gid

    The walk to the entries behind a head ends on every index of entries and
    finds exactly one entry of every gid it can reach; the messages carry every
    head that is present, once and in order, and each is closed by the head
    that makes it larger than 100 kB. *)

Section Facts.
Context `{JsEnv, Document ShallowEntry, !DocumentLaws ShallowEntry, !ShallowDocument}.
Context {Q : Type} `{Queue Q string, !QueueLaws Q string, LogEnv}.
Implicit Types (l : Log (Q := Q)) (m : list (string * ShallowOrFullEntry)) (curr : list ShallowOrFullEntry).

(** ** The walk *)

Inductive linked l (x : ShallowOrFullEntry) : ShallowOrFullEntry -> Prop :=
| linked_self : linked l x x
| linked_next y z : linked l x y -> z ∈ indexed_next l y -> linked l x z.

Lemma indexed_next_shallow l x y : y ∈ indexed_next l x ->
  exists h s, h ∈ any_next x /\ any_type x = APPEND /\ y = Shallow s /\ stored_at (table l) h = Some s.
Proof.
  unfold indexed_next. destruct (any_type x); [|by intros ?%not_elem_of_nil].
  intros (h & Hh & E)%list_elem_of_omap. rewrite getShallow_stored in E.
  destruct (stored_at (table l) h) as [s|] eqn:Es; [|done]. injection E as <-. by exists h, s.
Qed.

Lemma linked_shallow l e x : linked l (Full e) x ->
  x = Full e \/ exists h s, x = Shallow s /\ stored_at (table l) h = Some s.
Proof.
  induction 1 as [|y z _ _ Hz]; [by left|]. right. apply indexed_next_shallow in Hz as (h & s & _ & _ & -> & Hs). eauto.
Qed.

Definition keyed m : Prop := forall e, e ∈ m -> any_gid e.2 = e.1.

(** One round: the map grows by elements of the round, whose followed entries
    make up the next one; or nothing changes. *)
Record round_done l m curr (n : list ShallowOrFullEntry) m' (n' : list ShallowOrFullEntry) : Prop := {
  rd_wf : Map_wf m';
  rd_keyed : keyed m';
  rd_old e : e ∈ m -> e ∈ m';
  rd_new e : e ∈ m' -> e ∈ m \/ e.2 ∈ curr /\ forall y, y ∈ indexed_next l e.2 -> y ∈ n';
  rd_all x : x ∈ curr -> any_gid x ∈ Map_keys m';
  rd_nexts y : y ∈ n' -> y ∈ n \/ exists x, x ∈ curr /\ y ∈ indexed_next l x;
  rd_kept y : y ∈ n -> y ∈ n';
  rd_grows : (length m < length m')%nat \/ m' = m /\ n' = n;
}.

Lemma walk_round l curr m n :
  Map_wf m -> keyed m ->
  round_done l m curr n (fold_left (walk_element l) curr (m, n)).1 (fold_left (walk_element l) curr (m, n)).2.
Proof.
  revert m n. induction curr as [|x curr IH]; intros m n Hm Hk; cbn [fold_left].
  { split; try done; [by left|by intros ? ?%not_elem_of_nil|by left|by right]. }
  unfold walk_element at 2 4. destruct (Map_has m (any_gid x)) eqn:Eh.
  - destruct (IH m n Hm Hk) as [R1 R2 R3 R4 R5 R6 R7 R8]. split; try done.
    + intros e He. destruct (R4 e He) as [|[? ?]]; [by left|right; split; [by right|done]].
    + intros y [->|Hy]%elem_of_cons; [|by apply R5]. apply Map_has_spec in Eh.
      apply list_elem_of_fmap in Eh as (e & -> & He). apply list_elem_of_fmap. exists e. split; [done|by apply R3].
    + intros y Hy. destruct (R6 y Hy) as [|(z & ? & ?)]; [by left|right; exists z; split; [by right|done]].
  - assert (Hn : Map_get m (any_gid x) = None) by (unfold Map_has in Eh; by destruct (Map_get m (any_gid x))).
    pose proof (Map_set_wf m (any_gid x) x Hm) as Hm'. rewrite (Map_set_new m _ x Hn) in Hm' |- *.
    destruct (IH (m ++ [(any_gid x, x)]) (n ++ indexed_next l x) Hm') as [R1 R2 R3 R4 R5 R6 R7 R8].
    { intros e [He| ->%list_elem_of_singleton]%elem_of_app; [by apply Hk|done]. }
    split; try done.
    + intros e He. apply R3. apply elem_of_app. by left.
    + intros e He. destruct (R4 e He) as [[Ho| ->%list_elem_of_singleton]%elem_of_app|[Hc Hy]].
      * by left.
      * right. split; [by left|]. intros y Hy. apply R7. apply elem_of_app. by right.
      * right. split; [by right|done].
    + intros y [->|Hy]%elem_of_cons; [|by apply R5]. apply list_elem_of_fmap. exists (any_gid x, x). split; [done|].
      apply R3. apply elem_of_app. right. by apply list_elem_of_singleton.
    + intros y Hy. destruct (R6 y Hy) as [[|]%elem_of_app|(z & ? & ?)]; [by left|right; exists x; split; [by left|done]
        |right; exists z; split; [by right|done]].
    + intros y Hy. apply R7. apply elem_of_app. by left.
    + left. destruct R8 as [R8|[-> _]]; [rewrite length_app in R8; simpl in R8; lia|].
      rewrite length_app. simpl. lia.
Qed.

Record walk_ok l (entry : Entry) m curr : Prop := {
  wk_wf : Map_wf m;
  wk_keyed : keyed m;
  wk_entry : (meta_gid (en_meta entry), Full entry) ∈ m;
  wk_linked e : e ∈ m -> linked l (Full entry) e.2;
  wk_curr x : x ∈ curr -> linked l (Full entry) x;
  wk_closed e y : e ∈ m -> y ∈ indexed_next l e.2 -> any_gid y ∈ Map_keys m \/ y ∈ curr;
}.

Lemma walk_length l entry m curr :
  table_ok (table l) -> walk_ok l entry m curr -> (length m <= S (length (entries (table l))))%nat.
Proof.
  intros HT Hok.
  assert (Hsub : incl (Map_keys m) (meta_gid (en_meta entry) :: map (fun s => smeta_gid (se_meta s)) (entries (table l)))).
  { intros g Hg%list_elem_of_In. apply list_elem_of_fmap in Hg as (e & -> & He).
    rewrite <- (wk_keyed _ _ _ _ Hok e He).
    destruct (linked_shallow _ _ _ (wk_linked _ _ _ _ Hok e He)) as [->|(h & s & -> & Hs)]; [by left|].
    right. apply in_map_iff. exists s. split; [done|]. apply list_elem_of_In. by apply (stored_in _ h). }
  pose proof (NoDup_incl_length (proj1 (NoDup_ListNoDup _) (wk_wf _ _ _ _ Hok)) Hsub) as Hl.
  simpl in Hl. unfold Map_keys in Hl. rewrite !length_map in Hl. done.
Qed.

Lemma walk_step l entry m curr :
  walk_ok l entry m curr ->
  walk_ok l entry (fold_left (walk_element l) curr (m, [])).1 (fold_left (walk_element l) curr (m, [])).2.
Proof.
  intros [W1 W2 W3 W4 W5 W6]. destruct (walk_round l curr m [] W1 W2) as [R1 R2 R3 R4 R5 R6 R7 R8].
  split; try done.
  - by apply R3.
  - intros e He. destruct (R4 e He) as [|[Hc _]]; [by apply W4|by apply W5].
  - intros y Hy. destruct (R6 y Hy) as [[]%not_elem_of_nil|(x & Hx & Hn)]. by apply (linked_next _ _ x); [apply W5|].
  - intros e y He Hy. destruct (R4 e He) as [Ho|[_ Hn]]; [|right; by apply Hn].
    destruct (W6 e y Ho Hy) as [(e' & -> & He')%list_elem_of_fmap|Hc]; left; [|by apply R5].
    apply list_elem_of_fmap. exists e'. split; [done|by apply R3].
Qed.

Lemma walk_ends l entry fuel m curr :
  table_ok (table l) -> walk_ok l entry m curr -> (S (S (length (entries (table l)))) - length m <= fuel)%nat ->
  exists m', walk_gids fuel l m curr = Val m' /\ walk_ok l entry m' [].
Proof.
  intros HT. revert m curr. induction fuel as [|fuel IH]; intros m curr Hok Hf; pose proof (walk_length _ _ _ _ HT Hok) as Hl;
    (destruct curr as [|x curr]; [exists m; by split; [|]|]); [lia|].
  cbn [walk_gids]. pose proof (walk_step l entry m (x :: curr) Hok) as Hs.
  pose proof (rd_grows _ _ _ _ _ _ (walk_round l (x :: curr) m [] (wk_wf _ _ _ _ Hok) (wk_keyed _ _ _ _ Hok))) as Hg.
  destruct (fold_left (walk_element l) (x :: curr) (m, [])) as [m' n']. cbn [fst snd] in Hs, Hg.
  destruct Hg as [Hg|[-> ->]]; [apply IH; [done|lia]|]. destruct fuel; exists m; by split.
Qed.

Lemma walk_from l entry fuel :
  table_ok (table l) -> (S (S (length (entries (table l)))) <= fuel)%nat ->
  exists m, walk_gids fuel l [] [Full entry] = Val m /\ walk_ok l entry m [].
Proof.
  intros HT Hf. destruct fuel as [|fuel]; [lia|]. cbn [walk_gids fold_left walk_element Map_has Map_get].
  apply walk_ends; [done| |simpl; lia]. split.
  - apply (Map_set_wf [] _ _), Map_empty_wf.
  - by intros e ->%list_elem_of_singleton.
  - by left.
  - intros e ->%list_elem_of_singleton. constructor.
  - intros x Hx. by apply (linked_next _ _ (Full entry)); [constructor|].
  - intros e y ->%list_elem_of_singleton Hy. by right.
Qed.

(** ** Loading the entries *)

(** The store holds what the index lists. *)
Definition backed l : Prop := forall h s, stored_at (table l) h = Some s ->
  exists e, full (lg_entryIndex l) h = Some e /\ new_ShallowMeta (en_meta e) = se_meta s.

Lemma backed_recached l l' : recached l l' -> backed l -> backed l'.
Proof. intros (c & -> & _). done. Qed.

Lemma full_recached l l' h : recached l l' -> full (lg_entryIndex l') h = full (lg_entryIndex l) h.
Proof. by intros (c & -> & _). Qed.

Lemma entryIndex_get_ok l h e :
  state_ready l -> full (lg_entryIndex l) h = Some e ->
  exists l', entryIndex_get l h = Val (Some e, l') /\ recached l l'.
Proof.
  intros Hl He. unfold entryIndex_get, resolve.
  destruct (get_agrees (full (lg_entryIndex l)) (now_ l) (ei_cache (lg_entryIndex l)) h (io_cache _ (rd_index _ Hl)) (rd_cache _ Hl))
    as (mem & c & -> & Hc & Ha & Hm). cbn [mbind outcome_bind].
  assert (Hr : forall c', Inv c' -> cache_agrees (full (lg_entryIndex l)) c' ->
             recached l (set_index l (with_cache (lg_entryIndex l) c'))).
  { intros c' Hc' Ha'. exists c'. split; [done|]. split; [|done]. destruct (rd_index _ Hl). by split. }
  destruct Hm as [->| ->].
  - destruct (add_agrees (full (lg_entryIndex l)) (now_ l) c h Hc Ha) as (c' & E & Hc' & Ha').
    rewrite He in E. unfold full in He. destruct (Map_get _ h) as [e0|]; [|done]. injection He as <-.
    rewrite E. cbn [mbind outcome_bind]. eexists. by split; [|apply Hr].
  - rewrite He. cbn [mbind outcome_bind]. eexists. by split; [|apply Hr].
Qed.

(** The full entry of an element of the map. *)
Definition loaded l (x : ShallowOrFullEntry) (e : Entry) : Prop :=
  match x with
  | Full e' => e = e'
  | Shallow s => full (lg_entryIndex l) (se_hash s) = Some e /\ new_ShallowMeta (en_meta e) = se_meta s
  end.

Lemma loaded_gid l x e : loaded l x e -> meta_gid (en_meta e) = any_gid x.
Proof. destruct x as [s|e']; [intros [_ E]; simpl; by rewrite <- E|by intros ->]. Qed.

Lemma loaded_next l l' x e : loaded l x e -> any_next x = meta_next (en_meta e) /\ any_type x = meta_type (en_meta e).
Proof. destruct x as [s|e']; [intros [_ E]; simpl; by rewrite <- E|by intros ->]. Qed.

Lemma load_values_ok xs l es :
  state_ready l -> backed l ->
  (forall x, x ∈ xs -> match x with Full _ => True | Shallow s => stored_at (table l) (se_hash s) = Some s end) ->
  exists es' l', foldM load_value (es, l) xs = Val (es ++ es', l') /\ recached l l' /\ Forall2 (loaded l) xs es'.
Proof.
  revert l es. induction xs as [|x xs IH]; intros l es Hl Hb Hx; cbn [foldM].
  { exists [], l. rewrite app_nil_r. split; [done|]. split; [by apply recached_refl|constructor]. }
  destruct x as [s|e]; cbn [load_value].
  - destruct (Hb (se_hash s) s) as (e & He & Em); [by apply (Hx (Shallow s)); left|].
    destruct (entryIndex_get_ok l (se_hash s) e Hl He) as (l1 & -> & Hr). cbn [mbind outcome_bind]. change (option_list (Some e)) with [e].
    destruct (recached_index _ _ Hr) as (Et & _ & Hl1).
    destruct (IH l1 (es ++ [e]) Hl1 (backed_recached _ _ Hr Hb)) as (es' & l2 & -> & Hr2 & Hf).
    { intros x Hin. rewrite Et. apply Hx. by right. }
    exists (e :: es'), l2. rewrite <- app_assoc. split; [done|]. split; [by apply (recached_trans _ l1)|].
    constructor; [done|]. eapply Forall2_impl; [done|]. intros [s'|e'] e1; [|done]. simpl. by rewrite (full_recached l l1).
  - cbn [mbind outcome_bind]. destruct (IH l (es ++ [e]) Hl Hb) as (es' & l2 & -> & Hr2 & Hf).
    { intros x Hin. apply Hx. by right. }
    exists (e :: es'), l2. rewrite <- app_assoc. split; [done|]. split; [done|]. by constructor.
Qed.

Lemma all_entries_ok l entry fuel :
  state_ready l -> backed l -> (S (S (length (entries (table l)))) <= fuel)%nat ->
  exists m es l', allEntriesWithUniqueGids fuel l entry = Val (es, l') /\ recached l l' /\
    walk_ok l entry m [] /\ Forall2 (loaded l) (Map_values m) es.
Proof.
  intros Hl Hb Hf. destruct (walk_from l entry fuel (io_table _ (rd_index _ Hl)) Hf) as (m & Em & Hok).
  unfold allEntriesWithUniqueGids. rewrite Em. cbn [mbind outcome_bind].
  destruct (load_values_ok (Map_values m) l [] Hl Hb) as (es & l' & -> & Hr & Hes).
  { intros x (e & -> & He)%list_elem_of_fmap.
    destruct (linked_shallow _ _ _ (wk_linked _ _ _ _ Hok e He)) as [E|(h & s & E & Hs)]; rewrite E; [done|].
    by rewrite (stored_hash _ h s (io_table _ (rd_index _ Hl)) Hs). }
  by exists m, es, l'.
Qed.


(** ** Packing *)

Section Packing.
Context (entry_size : Entry -> Z).

Definition entry_total (hs : list EntryWithRefs) : Z := foldr (fun x t => entry_size (ewr_entry x) + t) 0 hs.

Lemma entry_total_app xs ys : entry_total (xs ++ ys) = entry_total xs + entry_total ys.
Proof. induction xs as [|x xs IH]; simpl; [done|]. rewrite IH. lia. Qed.

(** A message closed by the head that made it too large. *)
Definition full_message (hs : list EntryWithRefs) : Prop :=
  exists hs' x, hs = hs' ++ [x] /\ entry_total hs' <= MAX_EXCHANGE_MESSAGE_SIZE < entry_total hs.

Definition sent (b : Batch) : list Entry :=
  map ewr_entry (concat (map exchanged_heads (bt_yielded b)) ++ bt_current b).

Definition batch_ok (b : Batch) : Prop :=
  bt_size b = entry_total (bt_current b) /\ bt_size b <= MAX_EXCHANGE_MESSAGE_SIZE /\
  Forall (fun msg => full_message (exchanged_heads msg)) (bt_yielded b).

Lemma push_head_ok b visited entry refs :
  batch_ok b -> batch_ok (push_head entry_size b visited entry refs) /\
  sent (push_head entry_size b visited entry refs) = sent b ++ [entry].
Proof.
  intros (Hs & Hm & Hy). unfold push_head.
  set (x := MkEntryWithRefs entry _). assert (Ht : bt_size b + entry_size entry = entry_total (bt_current b ++ [x])).
  { rewrite entry_total_app, Hs. simpl. lia. }
  destruct (Z.ltb_spec MAX_EXCHANGE_MESSAGE_SIZE (bt_size b + entry_size entry)).
  - split.
    + split; [done|]. split; [by vm_compute|]. apply Forall_app. split; [done|]. constructor; [|constructor].
      exists (bt_current b), x. cbn [exchanged_heads]. split; [done|]. lia.
    + unfold sent. cbn [bt_yielded bt_current]. rewrite (map_app exchanged_heads), concat_app. simpl.
      rewrite !app_nil_r, !map_app, <- app_assoc. done.
  - split; [split; [|split]; cbn [bt_size bt_current bt_yielded]; [lia|lia|done]|].
    unfold sent. cbn [bt_yielded bt_current]. rewrite !map_app, <- app_assoc. done.
Qed.

(** The heads that are there. *)
Definition present l (h : HeadItem) : option Entry :=
  match h with HeadEntry e => Some e | HeadHash hash => full (lg_entryIndex l) hash end.

Lemma present_recached l l' h : recached l l' -> present l' h = present l h.
Proof. intros Hr. destruct h; [done|]. by apply full_recached. Qed.

Lemma send_head_ok fuel b l h :
  state_ready l -> backed l -> (S (S (length (entries (table l)))) <= fuel)%nat -> batch_ok b ->
  exists b' l', send_head entry_size fuel (b, l) h = Val (b', l') /\ recached l l' /\ batch_ok b' /\
    sent b' = sent b ++ option_list (present l h).
Proof.
  intros Hl Hb Hf Hok. unfold send_head.
  assert (Hget : exists l1, match h with HeadEntry e => Val (Some e, l) | HeadHash hash => log_get l hash end = Val (present l h, l1) /\ recached l l1).
  { destruct h as [e|hash]; [exists l; split; [done|by apply recached_refl]|by apply log_get_full]. }
  destruct Hget as (l1 & -> & Hr1). cbn [mbind outcome_bind].
  destruct (present l h) as [entry|]; [|exists b, l1; by rewrite app_nil_r].
  destruct (recached_index _ _ Hr1) as (Et & _ & Hl1).
  destruct (all_entries_ok l1 entry fuel Hl1 (backed_recached _ _ Hr1 Hb)) as (m & es & l2 & -> & Hr2 & _); [by rewrite Et|].
  cbn [mbind outcome_bind]. destruct (fold_left visit es _) as [visited refs].
  destruct (push_head_ok b visited entry refs Hok) as [Hok' Hs'].
  eexists _, l2. split; [done|]. split; [by apply (recached_trans _ l1)|]. by split.
Qed.

Lemma send_heads_ok fuel heads b l :
  state_ready l -> backed l -> (S (S (length (entries (table l)))) <= fuel)%nat -> batch_ok b ->
  exists b' l', foldM (send_head entry_size fuel) (b, l) heads = Val (b', l') /\ recached l l' /\ batch_ok b' /\
    sent b' = sent b ++ omap (present l) heads.
Proof.
  revert b l. induction heads as [|h heads IH]; intros b l Hl Hb Hf Hok; cbn [foldM].
  { exists b, l. rewrite app_nil_r. split; [done|]. split; [by apply recached_refl|done]. }
  destruct (send_head_ok fuel b l h Hl Hb Hf Hok) as (b1 & l1 & -> & Hr1 & Hok1 & E1). cbn [mbind outcome_bind].
  destruct (recached_index _ _ Hr1) as (Et & _ & Hl1).
  destruct (IH b1 l1 Hl1 (backed_recached _ _ Hr1 Hb)) as (b2 & l2 & -> & Hr2 & Hok2 & E2); [by rewrite Et|done|].
  exists b2, l2. split; [done|]. split; [by apply (recached_trans _ l1)|]. split; [done|].
  assert (Eo : omap (present l1) heads = omap (present l) heads).
  { clear - Hr1. induction heads as [|x heads IH]; [done|]. simpl. rewrite (present_recached l l1 x Hr1).
    destruct (present l x); [f_equal|]; exact IH. }
  rewrite E2, E1, Eo, <- app_assoc. simpl. by destruct (present l h).
Qed.
End Packing.
End Facts.

(** C25. The entries behind a head are found in a bounded number of rounds, on every
    index whose entries are in the block store, cyclic ones included: the answer
    holds the head, exactly one entry for each of its gids, only gids of entries
    that can be reached from the head, and a gid for whatever an APPEND entry of the
    answer follows in the index. *)
Theorem unique_gids_correct `{JsEnv, Document ShallowEntry, !DocumentLaws ShallowEntry, !ShallowDocument}
    {Q : Type} `{Queue Q string, !QueueLaws Q string, LogEnv} (l : Log (Q := Q)) (entry : Entry) (fuel : nat) :
  state_ready l -> backed l -> (S (S (length (entries (table l)))) <= fuel)%nat ->
  exists es l', allEntriesWithUniqueGids fuel l entry = Val (es, l') /\ recached l l' /\
    entry ∈ es /\ NoDup (map (fun e => meta_gid (en_meta e)) es) /\
    (forall e, e ∈ es -> exists x, linked l (Full entry) x /\ any_gid x = meta_gid (en_meta e)) /\
    (forall e h s, e ∈ es -> meta_type (en_meta e) = APPEND -> h ∈ meta_next (en_meta e) ->
       stored_at (table l) h = Some s -> smeta_gid (se_meta s) ∈ map (fun e => meta_gid (en_meta e)) es).
Proof.
  intros Hl Hb Hf. destruct (all_entries_ok l entry fuel Hl Hb Hf) as (m & es & l' & E & Hr & Hok & Hes).
  assert (Eg : map (fun e => meta_gid (en_meta e)) es = Map_keys m).
  { unfold Map_keys. rewrite <- (map_ext_in (fun e => any_gid e.2)).
    - unfold Map_values in Hes. rewrite <- (map_map snd any_gid).
      clear - Hes. induction Hes as [|x e xs es Hx _ IH]; [done|]. simpl. by rewrite IH, (loaded_gid l x e Hx).
    - intros e He%list_elem_of_In. by apply (wk_keyed _ _ _ _ Hok). }
  assert (Hin : forall e, e ∈ es -> exists x, x ∈ m /\ loaded l x.2 e).
  { intros e (i & Hi)%list_elem_of_lookup. destruct (Forall2_lookup_r _ _ _ _ _ Hes Hi) as (x & Hx & Hle).
    apply list_elem_of_lookup_2, list_elem_of_fmap in Hx as (y & -> & Hy). by exists y. }
  exists es, l'. split; [done|]. split; [done|]. split; [|split; [|split]].
  - assert (Hv : Full entry ∈ Map_values m).
    { apply list_elem_of_fmap. exists (meta_gid (en_meta entry), Full entry). split; [done|]. apply Hok. }
    apply list_elem_of_lookup in Hv as (i & Hi). destruct (Forall2_lookup_l _ _ _ _ _ Hes Hi) as (e & Hi' & ->).
    by apply list_elem_of_lookup_2 in Hi'.
  - rewrite Eg. apply (wk_wf _ _ _ _ Hok).
  - intros e (x & Hx & Hle)%Hin. exists x.2. split; [by apply (wk_linked _ _ _ _ Hok)|]. symmetry. by apply (loaded_gid l).
  - intros e h s (x & Hx & Hle)%Hin Ht Hh Hs. rewrite Eg.
    destruct (loaded_next l l _ _ Hle) as [En Et].
    assert (Hy : Shallow s ∈ indexed_next l x.2).
    { unfold indexed_next. rewrite Et, Ht. apply list_elem_of_omap. exists h. rewrite En. split; [done|].
      by rewrite getShallow_stored, Hs. }
    destruct (wk_closed _ _ _ _ Hok x (Shallow s) Hx Hy) as [|[]%not_elem_of_nil]. done.
Qed.

(** C24. Every head that is present is sent once, in the order given, and nothing else:
    every message but the last is closed by the head that makes it larger than 100
    kB, no message is empty, and the last one is not larger. The index of the log is
    in order, each entry it lists is in the block store, and the fuel exceeds the
    number of entries by two. *)
Theorem exchange_complete `{JsEnv, Document ShallowEntry, !DocumentLaws ShallowEntry, !ShallowDocument}
    {Q : Type} `{Queue Q string, !QueueLaws Q string, LogEnv} (entry_size : Entry -> Z)
    (l : Log (Q := Q)) (heads : list HeadItem) (fuel : nat) :
  state_ready l -> backed l -> (S (S (length (entries (table l)))) <= fuel)%nat ->
  exists closed_ last_ l', createExchangeHeadsMessages entry_size fuel l heads =
      Val (map MkExchangeHeads (closed_ ++ last_), l') /\ recached l l' /\
    map ewr_entry (concat (closed_ ++ last_)) = omap (present l) heads /\
    Forall (full_message entry_size) closed_ /\
    (last_ = [] \/ exists hs, last_ = [hs] /\ hs <> [] /\ entry_total entry_size hs <= MAX_EXCHANGE_MESSAGE_SIZE).
Proof.
  intros Hl Hb Hf.
  destruct (send_heads_ok entry_size fuel heads (MkBatch 0 [] [] []) l Hl Hb Hf) as (b & l' & E & Hr & (Hs & Hm & Hy) & Es).
  { split; [done|]. split; [by vm_compute|constructor]. }
  unfold createExchangeHeadsMessages. rewrite E. cbn [mbind outcome_bind].
  assert (Em : map MkExchangeHeads (map exchanged_heads (bt_yielded b)) = bt_yielded b).
  { rewrite map_map. etrans; [|apply map_id]. apply map_ext. by intros []. }
  unfold sent in Es. cbn [bt_yielded bt_current] in Es.
  exists (map exchanged_heads (bt_yielded b)), (match bt_current b with [] => [] | hs => [hs] end), l'.
  split; [|split; [done|split; [|split]]].
  - rewrite map_app, Em. destruct (bt_current b); [by rewrite app_nil_r|done].
  - rewrite concat_app. simpl in Es. rewrite <- Es. destruct (bt_current b); simpl; by rewrite ?app_nil_r.
  - apply Forall_fmap. done.
  - destruct (bt_current b) as [|h hs] eqn:Ec; [by left|]. right. exists (h :: hs). split; [done|]. split; [done|]. lia.
Qed.
