(* ===== verification/TrimFacts.v ===== *)
(** * Trimming to a length

    With the default order and entries of different wall times, trimming to a
    length removes the oldest entries until the length is reached.  Entries that
    share a wall time are skipped by the walk, and the length is not reached. *)

From Stdlib Require Import ZArith Lia.
From stdpp Require Import base list strings sorting.
From S2P Require Import Prelude JsMap Cache Clock JsVal Query IndexInterface SimpleIndex SimpleIndexFacts Integers LogSorting EntryIndex EntryIndexFacts Trim Log LogState LogDelete.

Local Open Scope Z_scope.

Section TrimFacts.
Context `{JsEnv, Document ShallowEntry, !DocumentLaws ShallowEntry, !ShallowDocument}.
Context {Q : Type} `{Queue Q string, !QueueLaws Q string, LogEnv}.
Implicit Types (l : Log (Q := Q)) (s : EntryIndex (Q := Q)) (x : ShallowEntry).

Definition wall (m : ShallowMeta) : Z := wallTime (entry_time m).

(** ** The first entry in an order *)

Definition time_cmp (d : SortDirection) (a b : ShallowEntry) : Z :=
  match d with
  | ASC => Clock.compare (entry_time (se_meta a)) (entry_time (se_meta b))
  | DESC => Clock.compare (entry_time (se_meta b)) (entry_time (se_meta a))
  end.

Lemma clock_le a b : Clock.compare a b <= 0 <-> wallTime a < wallTime b \/ (wallTime a = wallTime b /\ logical a <= logical b).
Proof. destruct (compare_cases a b) as [[-> ?]|[[-> ->]|[-> ?]]]; split; lia. Qed.

#[local] Instance time_cmp_comparator d : Comparator (time_cmp d).
Proof. split; destruct d; intros *; unfold time_cmp; rewrite !clock_le; lia. Qed.

Lemma extract_clock d a b :
  extractSortCompare (shallow_js a) (shallow_js b)
    [new_Sort wallTime_key (Some (DirEnum d)); new_Sort logical_key (Some (DirEnum d))] None = Val (time_cmp d a b).
Proof.
  assert (Ew : forall e, extractFieldValue (shallow_js e) wallTime_key None = Val (JBig (wallTime (entry_time (se_meta e))))) by reflexivity.
  assert (El : forall e, extractFieldValue (shallow_js e) logical_key None = Val (JNum (logical (entry_time (se_meta e))))) by reflexivity.
  cbn [extractSortCompare new_Sort sort_key key_path]. rewrite !Ew, !El. cbn [mbind outcome_bind sort_direction new_Sort].
  unfold sortCompare, js_lt, time_cmp, Clock.compare. cbn [to_numeric].
  generalize (wallTime (entry_time (se_meta a))) (wallTime (entry_time (se_meta b)))
    (logical (entry_time (se_meta a))) (logical (entry_time (se_meta b))). clear. intros wa wb la lb.
  destruct d; cbn; destruct (Z.ltb_spec wa wb), (Z.ltb_spec wb wa), (Z.ltb_spec la lb), (Z.ltb_spec lb la); try lia; done.
Qed.

Lemma first_of_val d s qs p sorts :
  index_wf s -> selects (ei_index s) qs p ->
  sorts = [new_Sort wallTime_key (Some (DirEnum d)); new_Sort logical_key (Some (DirEnum d))] ->
  exists r, first_of s qs sorts = Val r /\
    match r with
    | None => forall x, x ∈ entries (ei_index s) -> p x = false
    | Some x => x ∈ entries (ei_index s) /\ p x = true /\ forall y, y ∈ entries (ei_index s) -> p y = true -> time_cmp d x y <= 0
    end.
Proof.
  intros Hs Hp Hso. unfold first_of. cbn [simple_ops it_next]. unfold fetch.
  cbn [iterate st_queue st_done not_done st_options opt_query opt_sort].
  rewrite (queryAll_selects _ _ p (io_table _ Hs) Hp). cbn [mbind outcome_bind].
  set (docs := List.filter _ _). set (c := fun a b : IndexedResult ShallowEntry => time_cmp d (ir_value a) (ir_value b)).
  assert (Hc : Comparator c).
  { destruct (time_cmp_comparator d) as [Ht Htr]. split; unfold c; intros *; [apply Ht|apply Htr]. }
  assert (Hdocs : forall r, r ∈ docs <-> r ∈ Map_values (hm_index (ei_index s)) /\ p (ir_value r) = true).
  { intros r. subst docs. by rewrite list_elem_of_In, filter_In, <- list_elem_of_In. }
  assert (Hsort : exists rs, sort_documents docs (Some sorts) = Val rs /\ rs ≡ₚ docs /\ StronglySorted (fun a b => c a b <= 0) rs).
  { unfold sort_documents. destruct (1 <? length docs)%nat eqn:El.
    - rewrite Hso. cbv beta iota. rewrite <- Hso. rewrite (sortM_val _ c).
      + eexists. split; [done|]. split; [apply js_sort_perm|by apply js_sort_sorted].
      + intros a b _ _. rewrite !shallow_to_js, Hso. apply extract_clock.
    - exists docs. split; [done|]. split; [done|]. apply Nat.ltb_ge in El.
      destruct docs as [|a [|b docs']]; [constructor|by repeat constructor|simpl in El; lia]. }
  destruct Hsort as (rs & -> & Hrs & Hss). cbn [mbind outcome_bind].
  assert (Hent : forall x, x ∈ entries (ei_index s) <-> exists r, r ∈ Map_values (hm_index (ei_index s)) /\ ir_value r = x).
  { intros x. unfold entries. rewrite list_elem_of_fmap. naive_solver. }
  destruct rs as [|r rs]; cbn [mbind outcome_bind st_queue st_done].
  - exists None. split; [done|]. intros x (r & Hr & <-)%Hent. apply not_true_iff_false. intros Hpx.
    assert (Hin : r ∈ docs) by by apply Hdocs. rewrite <- Hrs in Hin. by apply not_elem_of_nil in Hin.
  - rewrite getBatch_spec. cbn [take mbind outcome_bind]. rewrite cloneResults_id. cbn [head fmap option_fmap option_map].
    exists (Some (ir_value r)). split; [done|].
    assert (Hr : r ∈ docs) by (rewrite <- Hrs; left). apply Hdocs in Hr as [Hr Hpr].
    split; [apply Hent; by exists r|]. split; [done|]. intros y (q & Hq & <-)%Hent Hpq.
    assert (Hin : q ∈ docs) by by apply Hdocs. rewrite <- Hrs in Hin.
    apply elem_of_cons in Hin as [->|Hin]; [change (c r r <= 0); destruct Hc as [Ht _]; destruct (Ht r r); lia|].
    pose proof (sorted_head_le _ _ _ Hss) as Hle. rewrite Forall_forall in Hle. by apply (Hle q).
Qed.

(** ** The neighbours the walk asks for *)

Definition in_range s : Prop := forall h m, meta_of (ei_index s) h = Some m -> 0 <= wall m <= UINT64_MAX.

Record by_clock s : Prop := {
  bc_index : index_wf s;
  bc_sort : ei_sort s = LastWriteWins;
  bc_range : in_range s;
}.

Lemma selects_all (T : HashmapIndex ShallowEntry) : selects T [] (fun _ => true).
Proof. split; [done|]. intros e fuel. reflexivity. Qed.

Lemma selects_wall (T : HashmapIndex ShallowEntry) cmp v :
  selects T [IntegerCompare wallTime_key cmp (BigUnsignedIntegerValue v)] (fun e => Query.compare (wall (se_meta e)) cmp v).
Proof.
  split; [done|]. intros e fuel.
  assert (E : handleQueryObject (hm_indexByArr T) None (S (S fuel)) (IntegerCompare wallTime_key cmp (BigUnsignedIntegerValue v)) (shallow_js e) [] 0 =
    Val (Some (Query.compare (wall (se_meta e)) cmp v), [])) by reflexivity.
  cbn [matches_all]. rewrite E. cbn [mbind outcome_bind]. by destruct (Query.compare _ _ _).
Qed.

(** The oldest of the entries that satisfy [p]. *)
Definition first_in (d : SortDirection) s (p : ShallowEntry -> bool) (r : option ShallowEntry) : Prop :=
  match r with
  | None => forall x, x ∈ entries (ei_index s) -> p x = false
  | Some x => x ∈ entries (ei_index s) /\ p x = true /\ forall y, y ∈ entries (ei_index s) -> p y = true -> time_cmp d x y <= 0
  end.

Lemma getOldest_val s : by_clock s -> exists r, getOldest s = Val r /\ first_in ASC s (fun _ => true) r.
Proof. intros []. unfold getOldest. rewrite bc_sort0. by apply (first_of_val ASC); [|apply selects_all|]. Qed.

Lemma getNewest_val s : by_clock s -> exists r, getNewest s = Val r /\ first_in DESC s (fun _ => true) r.
Proof. intros []. unfold getNewest, sortReversed. rewrite bc_sort0. by apply (first_of_val DESC); [|apply selects_all|]. Qed.

Lemma getAfter_val s x :
  by_clock s -> 0 <= wall (se_meta x) <= UINT64_MAX ->
  exists r, getAfter s x = Val r /\ first_in ASC s (fun e => wall (se_meta x) <? wall (se_meta e)) r.
Proof.
  intros [Hw Hs _] Hx. unfold getAfter. rewrite Hs. cbn [after LastWriteWins]. rewrite compare_wallTime_val by done.
  cbn [mbind outcome_bind].
  destruct (first_of_val ASC s _ _ _ Hw (selects_wall (ei_index s) Greater (wall (se_meta x))) eq_refl) as (r & E & Hr).
  exists r. split; [exact E|]. exact Hr.
Qed.

Lemma getBefore_val s x : by_clock s -> 0 <= wall (se_meta x) <= UINT64_MAX -> exists r, getBefore s x = Val r.
Proof.
  intros [Hw Hs _] Hx. unfold getBefore, sortReversed. rewrite Hs. cbn [before LastWriteWins]. rewrite compare_wallTime_val by done.
  cbn [mbind outcome_bind].
  destruct (first_of_val DESC s _ _ _ Hw (selects_wall (ei_index s) Less (wall (se_meta x))) eq_refl) as (r & E & _).
  by exists r.
Qed.

(** ** Deleting a node of the walk *)

Lemma resolve_total now s k : index_wf s -> exists r c, resolve now s k true = Val (r, with_cache s c) /\ Inv c.
Proof.
  intros [_ _ Hc _]. unfold resolve.
  destruct (cache_get_ok (fun _ => True) now (ei_cache s) k Hc) as (mem & c & -> & Hc' & _ & _); [done|]. cbn [mbind outcome_bind].
  destruct mem as [[e|]|]; [by exists (Some e), c|by exists None, c|].
  destruct (Map_get (ei_store s) k) as [e|]; cbn [negb throw_if mbind outcome_bind].
  - destruct (cache_add_ok (fun _ => True) now c k (Some (MkEntry k (en_meta e) (en_payloadSize e))) Hc') as (c' & -> & Hc'' & _); [done|done|].
    cbn [mbind outcome_bind]. by eexists _, c'.
  - destruct (cache_add_ok (fun _ => True) now c k None Hc') as (c' & -> & Hc'' & _); [done|done|].
    cbn [mbind outcome_bind]. by eexists _, c'.
Qed.

Lemma delete_none s k x : table_ok (ei_index s) -> stored_at (ei_index s) k = Some x -> EntryIndex.delete s k None = EntryIndex.delete s k (Some x).
Proof.
  intros HT Hx. unfold EntryIndex.delete. cbv zeta.
  assert (Hget : ir_value <$> getShallow (with_cache s (Cache.del (ei_cache s) k).2) k = Some x).
  { rewrite getShallow_stored. cbn [with_cache ei_index]. by rewrite Hx. }
  rewrite Hget, bool_decide_true by by apply (stored_hash (ei_index s)). done.
Qed.

Lemma deleteNode_ok l s node x :
  index_wf s -> stored_at (ei_index s) (se_hash node) = Some x ->
  exists r s', deleteNode l s node = Val (r, s') /\ index_wf s' /\ ei_sort s' = ei_sort s /\ ei_length s' = ei_length s - 1 /\
    forall h, meta_of (ei_index s') h = if decide (se_hash node = h) then None else meta_of (ei_index s) h.
Proof.
  intros Hs Hx. unfold deleteNode. destruct (resolve_total (now_ l) s (se_hash node) Hs) as (r & c & -> & Hc).
  cbn [mbind outcome_bind]. assert (Hs1 : index_wf (with_cache s c)) by by destruct Hs; split.
  rewrite (delete_none (with_cache s c) _ x) by (apply Hs || done).
  destruct (delete_any (with_cache s c) (se_hash node) x Hs1) as (r' & s' & -> & Hw & Hm & _ & _ & Hso & Hl).
  { by apply (stored_hash (ei_index s)); [apply Hs|]. }
  cbn [mbind outcome_bind]. eexists r, _. split; [done|]. cbn [ei_index ei_sort ei_length with_cache] in *.
  rewrite Hx in Hl. split_and!; try done. by destruct Hw; split.
Qed.

(** ** The walk *)

(** No two entries have the same wall time. *)
Definition distinct s : Prop := forall h h' m m', meta_of (ei_index s) h = Some m -> meta_of (ei_index s) h' = Some m' -> wall m = wall m' -> h = h'.

(** What trimming to a length leaves. *)
Record trimmed (to : Z) s s' : Prop := {
  tm_clock : by_clock s';
  tm_length : ei_length s' = Z.min (ei_length s) (Z.max 0 to);
  tm_sub h m : meta_of (ei_index s') h = Some m -> meta_of (ei_index s) h = Some m;
  tm_oldest h h' m m' : meta_of (ei_index s) h = Some m -> meta_of (ei_index s') h = None ->
    meta_of (ei_index s') h' = Some m' -> wall m < wall m';
}.

Definition oldest s x : Prop :=
  meta_of (ei_index s) (se_hash x) = Some (se_meta x) /\ forall h m, meta_of (ei_index s) h = Some m -> wall (se_meta x) <= wall m.

Lemma entry_meta s x : index_wf s -> x ∈ entries (ei_index s) -> meta_of (ei_index s) (se_hash x) = Some (se_meta x).
Proof. intros Hs Hx%stored_entry; [|apply Hs]. unfold meta_of. by rewrite Hx. Qed.

Lemma meta_entry s h m : index_wf s -> meta_of (ei_index s) h = Some m -> exists x, x ∈ entries (ei_index s) /\ se_hash x = h /\ se_meta x = m.
Proof.
  intros Hs. unfold meta_of. destruct (stored_at (ei_index s) h) as [x|] eqn:E; [|done]. intros [= <-].
  exists x. split_and!; [by apply (stored_in _ h); [apply Hs|]|by apply (stored_hash (ei_index s)); [apply Hs|]|done].
Qed.

Lemma empty_length s : index_wf s -> (forall h, meta_of (ei_index s) h = None) -> ei_length s = 0.
Proof.
  intros [HT -> _ _] Hn. destruct (hm_index (ei_index s)) as [|[p r] m] eqn:E; [done|]. exfalso.
  assert (Hin : ir_value r ∈ entries (ei_index s)) by (unfold entries; rewrite E; left).
  apply stored_entry in Hin; [|done]. specialize (Hn (se_hash (ir_value r))). unfold meta_of in Hn. by rewrite Hin in Hn.
Qed.

Lemma clock_le_wall a b : Clock.compare a b <= 0 -> wallTime a <= wallTime b.
Proof. intros ?%clock_le. lia. Qed.

Section Walk.
Context (l : Log (Q := Q)) (getLength : EntryIndex (Q := Q) -> outcome Z) (now : Z).
Context (HgetLength : forall s, getLength s = Val (ei_length s)).

Lemma drop_oldest s x h m :
  by_clock s -> distinct s -> oldest s x -> h <> se_hash x -> meta_of (ei_index s) h = Some m -> wall (se_meta x) < wall m.
Proof.
  intros Hs Hd [Hx Hmin] Hne Hm. specialize (Hmin h m Hm).
  destruct (decide (wall (se_meta x) = wall m)) as [E|]; [|lia]. exfalso. apply Hne. by apply (Hd h (se_hash x) m (se_meta x)).
Qed.

(** One round on the oldest entry: it is gone, and the next oldest comes next. *)
Lemma round_ok s x looped byGid bp deleted last tail :
  by_clock s -> oldest s x ->
  exists s' r lastNode deleted' next more, walk_round (deleteNode l) now None true false tail (MkWalk s (Some x) last looped byGid bp deleted) x =
      Val (MkWalk s' next lastNode (match r with Some _ => looped | None => true end) byGid bp deleted', more) /\
    by_clock s' /\ ei_length s' = ei_length s - 1 /\
    (forall h, meta_of (ei_index s') h = if decide (se_hash x = h) then None else meta_of (ei_index s) h) /\
    first_in ASC s (fun e => wall (se_meta x) <? wall (se_meta e)) r /\
    match r with
    | Some y => next = Some y /\ more = true
    | None => if looped then next = None /\ more = false else next = tail /\ more = true
    end.
Proof.
  intros Hs [Hx Hmin]. unfold walk_round, ask. cbn [mbind outcome_bind wk_index wk_deleted wk_looped wk_byGid wk_breakpoint].
  assert (Hr : 0 <= wall (se_meta x) <= UINT64_MAX) by by apply (bc_range _ Hs (se_hash x)).
  destruct (getAfter_val s x Hs Hr) as (r & -> & Hf). destruct (getBefore_val s x Hs Hr) as (b & ->). cbn [mbind outcome_bind].
  assert (Hst : is_Some (stored_at (ei_index s) (se_hash x))) by (apply meta_stored; rewrite Hx; done). destruct Hst as [z Hz].
  destruct (deleteNode_ok l s x z (bc_index _ Hs) Hz) as (e & s' & -> & Hw & Hso & Hl & Hm). cbn [mbind outcome_bind].
  assert (Hs' : by_clock s').
  { destruct Hs. split; [done|congruence|]. intros h m. rewrite Hm. case_decide; [done|]. apply bc_range0. }
  destruct r as [y|]; [|destruct looped]; cbn [negb andb].
  - eexists s', (Some y), _, _, _, _. split; [reflexivity|]. by split_and!.
  - eexists s', None, _, _, _, _. split; [reflexivity|]. by split_and!.
  - eexists s', None, _, _, _, _. split; [reflexivity|]. by split_and!.
Qed.

Lemma trimmed_step to s s1 s' x :
  by_clock s -> distinct s -> oldest s x -> to < ei_length s -> 1 <= ei_length s -> ei_length s1 = ei_length s - 1 ->
  (forall h, meta_of (ei_index s1) h = if decide (se_hash x = h) then None else meta_of (ei_index s) h) ->
  trimmed to s1 s' -> trimmed to s s'.
Proof.
  intros Hs Hd Hx Hto Hpos Hl1 Hm1 [Hc Hl Hsub Hold].
  assert (Hsub1 : forall h m, meta_of (ei_index s1) h = Some m -> h <> se_hash x /\ meta_of (ei_index s) h = Some m).
  { intros h m. rewrite Hm1. case_decide; [done|]. split; [congruence|done]. }
  split; [done|lia|intros h m Hm; by apply Hsub1, Hsub|]. intros h h' m m' Hm Hn Hm'.
  destruct (decide (h = se_hash x)) as [->|Hne].
  - destruct Hx as [Hx Hmin]. rewrite Hx in Hm. injection Hm as <-. apply Hsub, Hsub1 in Hm' as [Hne Hm']. by apply (drop_oldest s x h' m').
  - apply (Hold h h'); [|done|done]. rewrite Hm1, decide_False by congruence. done.
Qed.

Lemma walk_ok to tail startNode : forall fuel s node last byGid bp deleted,
  by_clock s -> distinct s -> (Z.to_nat (ei_length s) + 2 <= fuel)%nat ->
  match node with None => forall h, meta_of (ei_index s) h = None | Some x => oldest s x end ->
  exists w', walk (deleteNode l) getLength now fuel (fun s => len ← getLength s; Val (len <=? to)) None true false tail startNode
      (MkWalk s node last false byGid bp deleted) = Val w' /\ trimmed to s (wk_index w').
Proof.
  induction fuel as [|fuel IH]; intros s node last byGid bp deleted Hs Hd Hf Hnode; [lia|].
  assert (Hpos : forall h m, meta_of (ei_index s) h = Some m -> 1 <= ei_length s).
  { intros h m Hm. destruct (meta_entry s h m (bc_index _ Hs) Hm) as (x & Hx & _). rewrite (io_length _ (bc_index _ Hs)).
    unfold entries in Hx. apply list_elem_of_fmap in Hx as (r & _ & Hr). unfold Map_values in Hr.
    destruct (hm_index (ei_index s)); [by apply not_elem_of_nil in Hr|simpl; lia]. }
  assert (Hstay : ei_length s <= Z.max 0 to -> trimmed to s s).
  { intros Hle. split; [done|lia|done|congruence]. }
  cbn [walk wk_node wk_index]. destruct node as [x|].
  2: { eexists. split; [done|]. cbn [wk_index]. apply Hstay. rewrite (empty_length s (bc_index _ Hs) Hnode). lia. }
  rewrite HgetLength. cbn [mbind outcome_bind]. destruct (ei_length s <=? to) eqn:Edone.
  { eexists. split; [done|]. cbn [wk_index]. apply Hstay. lia. }
  pose proof (Hpos _ _ (proj1 Hnode)) as Hone. assert ((0 <? ei_length s) = true) as -> by lia. cbn [negb orb andb wk_looped].
  destruct (round_ok s x false byGid bp deleted last tail Hs Hnode) as (s1 & r & ln & del' & next & more & -> & Hs1 & Hl1 & Hm1 & Hf1 & Hnext).
  cbn [mbind outcome_bind].
  assert (Hd1 : distinct s1).
  { intros h h' m m'. rewrite !Hm1. do 2 (case_decide; [done|]). by apply Hd. }
  assert (Hstep : forall s', trimmed to s1 s' -> trimmed to s s') by (intros s'; by apply (trimmed_step to s s1 s' x); lia || auto).
  destruct r as [y|].
  - destruct Hnext as [-> ->]. destruct Hf1 as (Hy & Hxy & Hymin). apply Z.ltb_lt in Hxy.
    destruct (IH s1 (Some y) ln byGid bp del') as (w' & -> & Ht); [done|done|lia| |exists w'; split; [done|by apply Hstep]].
    split.
    + rewrite Hm1, decide_False; [by apply entry_meta; [apply Hs|]|]. intros Exy.
      pose proof (entry_meta s y (bc_index _ Hs) Hy) as Hmy. rewrite <- Exy, (proj1 Hnode) in Hmy. injection Hmy as Hmy. rewrite Hmy in Hxy. lia.
    + intros h m. rewrite Hm1. case_decide as Hne; [done|]. intros Hm.
      pose proof (drop_oldest s x h m Hs Hd Hnode (not_eq_sym Hne) Hm) as Hlt.
      destruct (meta_entry s h m (bc_index _ Hs) Hm) as (z & Hz & _ & <-). specialize (Hymin z Hz). rewrite (proj2 (Z.ltb_lt _ _) Hlt) in Hymin.
      by apply clock_le_wall, Hymin.
  - destruct Hnext as [-> ->].
    assert (Hempty : forall h, meta_of (ei_index s1) h = None).
    { intros h. rewrite Hm1. case_decide as Hne; [done|]. destruct (meta_of (ei_index s) h) as [m|] eqn:Hm; [|done]. exfalso.
      pose proof (drop_oldest s x h m Hs Hd Hnode (not_eq_sym Hne) Hm) as Hlt.
      destruct (meta_entry s h m (bc_index _ Hs) Hm) as (z & Hz & _ & <-). simpl in Hf1. specialize (Hf1 z Hz).
      rewrite (proj2 (Z.ltb_lt _ _) Hlt) in Hf1. done. }
    assert (Hl0 : ei_length s1 = 0) by by apply empty_length; [apply Hs1|].
    assert (Ht : trimmed to s s1).
    { apply Hstep. split; [done|lia|done|congruence]. }
    destruct fuel as [|fuel]; [lia|]. cbn [walk wk_node wk_index]. destruct tail as [t|]; [|by eexists].
    rewrite HgetLength, Hl0. cbn [mbind outcome_bind]. destruct (0 <=? to); [by eexists|].
    cbn [Z.ltb Z.compare andb]. by eexists.
Qed.

End Walk.

(** ** Trimming *)

Definition to_length (to : Z) (from : option Z) : TrimOptions := MkTrimOptions (TrimToLength to from) None.

Lemma oldest_first s r : by_clock s -> first_in ASC s (fun _ => true) r ->
  match r with None => forall h, meta_of (ei_index s) h = None | Some x => oldest s x end.
Proof.
  intros Hs Hr. destruct r as [x|].
  - destruct Hr as (Hx & _ & Hmin). split; [by apply entry_meta; [apply Hs|]|]. intros h m Hm.
    destruct (meta_entry s h m (bc_index _ Hs) Hm) as (y & Hy & _ & <-). by apply clock_le_wall, Hmin.
  - intros h. destruct (meta_of (ei_index s) h) as [m|] eqn:Hm; [|done].
    destruct (meta_entry s h m (bc_index _ Hs) Hm) as (y & Hy & _). by specialize (Hr y Hy).
Qed.

(** [trimTask] around the walk. *)
Lemma trim_walk l to from deleted_w w' tail :
  let s := lg_entryIndex l in
  lg_closed l = false -> default to from <= ei_length s -> getOldest s = Val tail ->
  walk (deleteNode l) (fun s => _ ← throw_if (lg_closed l) "Closed"; Val (ei_length s)) (now_ l) (walk_fuel s)
    (fun s => len ← (_ ← throw_if (lg_closed l) "Closed"; Val (ei_length s)); Val (len <=? to)) None true false tail tail
    (MkWalk s tail tail false [] (clear 100000 None) []) = Val w' ->
  wk_deleted w' = deleted_w -> by_clock (wk_index w') ->
  exists l', log_trim l (Some (to_length to from)) = Val (deleted_w, l') /\ lg_entryIndex l' = wk_index w'.
Proof.
  intros s Hc Hfrom Hold Hw <- Hs'. unfold log_trim, Trim.trim, trimTask. cbn [to_length condition condition_done filter_].
  rewrite Hc in *. cbn [throw_if mbind outcome_bind] in *. fold s.
  assert ((ei_length s <? default to from) = false) as -> by lia. cbn [mbind outcome_bind]. rewrite Hold.
  cbn [mbind outcome_bind option_bind]. rewrite (bool_decide_false (is_Some None)) by apply is_Some_None. cbn [negb]. rewrite orb_true_r.
  cbn [mbind outcome_bind negb tr_canTrimCacheLastNode set_lastNode set_breakpoint tr_breakpoint].
  rewrite Hw. cbn [mbind outcome_bind].
  destruct (getNewest_val (wk_index w') Hs') as (nw & -> & _). destruct (getOldest_val (wk_index w') Hs') as (od & -> & _).
  cbn [mbind outcome_bind default]. by eexists.
Qed.

(** C32. Trimming to a length removes nothing while the log is shorter than the lower
    bound from (by default the length itself). Otherwise, in an open log with the
    default order (LastWriteWins), whose entries have wall times that fit 64 bits
    and no two of which have the same wall time, it ends and leaves exactly the
    newest entries, as many as asked for or all there are: every entry that is gone
    is older than every entry that is left. *)
Theorem trim_to_length l to from :
  let s := lg_entryIndex l in
  lg_closed l = false -> by_clock s -> distinct s ->
  exists deleted l', log_trim l (Some (to_length to from)) = Val (deleted, l') /\
    let s' := lg_entryIndex l' in
    if ei_length s <? default to from then s' = s /\ deleted = [] else
      ei_length s' = Z.min (ei_length s) (Z.max 0 to) /\
      (forall h m, meta_of (ei_index s') h = Some m -> meta_of (ei_index s) h = Some m) /\
      (forall h h' m m', meta_of (ei_index s) h = Some m -> meta_of (ei_index s') h = None ->
         meta_of (ei_index s') h' = Some m' -> wall m < wall m').
Proof.
  intros s Hc Hs Hd. destruct (ei_length s <? default to from) eqn:Hfrom.
  - unfold log_trim, Trim.trim, trimTask. cbn [to_length condition condition_done]. rewrite Hc. cbn [throw_if mbind outcome_bind].
    fold s. rewrite Hfrom. cbn [mbind outcome_bind default]. exists [], (set_trim (set_index l s) (lg_trim l)). by split.
  - destruct (getOldest_val s Hs) as (tail & Et & Hf). pose proof (oldest_first s tail Hs Hf) as Hnode.
    destruct (walk_ok l (fun s => _ ← throw_if (lg_closed l) "Closed"; Val (ei_length s)) (now_ l)) with
      (to := to) (tail := tail) (startNode := tail) (fuel := walk_fuel s) (s := s) (node := tail) (last := tail)
      (byGid := @nil (string * bool)) (bp := @clear string bool Q _ 100000 None) (deleted := @nil Entry) as (w' & Ew & [Hcl Hl Hsub Hold]);
      [intros s0; by rewrite Hc|done|done|unfold walk_fuel; rewrite (io_length _ (bc_index _ Hs)); lia|done|].
    destruct (trim_walk l to from (wk_deleted w') w' tail Hc) as (l' & E & El); [by apply Z.ltb_ge|done|exact Ew|done|done|].
    exists (wk_deleted w'), l'. split; [done|]. cbv zeta. rewrite El. done.
Qed.

(** Entries that share a wall time stop the walk: when all the entries have
    the same one, trimming removes a single entry and leaves the log longer than
    the length asked for. *)
Theorem trim_same_time_stops l to from w0 :
  let s := lg_entryIndex l in
  lg_closed l = false -> by_clock s -> (forall h m, meta_of (ei_index s) h = Some m -> wall m = w0) ->
  default to from <= ei_length s -> 0 <= to -> to + 1 < ei_length s ->
  exists deleted l', log_trim l (Some (to_length to from)) = Val (deleted, l') /\
    ei_length (lg_entryIndex l') = ei_length s - 1 /\ to < ei_length (lg_entryIndex l').
Proof.
  intros s Hc Hs Hw Hfrom Hto Hlong. destruct (getOldest_val s Hs) as (tail & Et & Hf).
  pose proof (oldest_first s tail Hs Hf) as Hnode. destruct tail as [x|].
  2: { pose proof (empty_length s (bc_index _ Hs) Hnode). lia. }
  set (getLength := fun s : EntryIndex (Q := Q) => _ ← throw_if (lg_closed l) "Closed"; Val (ei_length s)).
  destruct (round_ok l (now_ l) s x false [] (clear 100000 None) [] (Some x) (Some x) Hs Hnode)
    as (s1 & r & ln & del' & next & more & Er & Hs1 & Hl1 & Hm1 & Hf1 & Hnext).
  assert (r = None) as ->.
  { destruct r as [y|]; [|done]. destruct Hf1 as (Hy & Hxy & _). apply Z.ltb_lt in Hxy.
    rewrite (Hw _ _ (proj1 Hnode)), (Hw _ _ (entry_meta s y (bc_index _ Hs) Hy)) in Hxy. lia. }
  destruct Hnext as [-> ->].
  destruct (trim_walk l to from del' (MkWalk s1 (Some x) ln true [] (clear 100000 None) del') (Some x) Hc Hfrom Et) as (l' & E & El); [|done|done|].
  - unfold walk_fuel. rewrite Nat.add_succ_r. cbn [walk wk_node wk_index wk_looped]. rewrite Hc. cbn [throw_if mbind outcome_bind]. fold s.
    assert ((ei_length s <=? to) = false) as -> by lia. assert ((0 <? ei_length s) = true) as -> by lia. cbn [negb orb andb].
    fold s in Er. rewrite Er. cbn [mbind outcome_bind]. rewrite Nat.add_succ_r. cbn [walk wk_node wk_index wk_looped].
    cbn [throw_if mbind outcome_bind]. rewrite Hl1.
    assert ((ei_length s - 1 <=? to) = false) as -> by lia. assert ((0 <? ei_length s - 1) = true) as -> by lia. cbn [negb orb andb].
    rewrite bool_decide_true by done. done.
  - exists del', l'. split; [done|]. rewrite El. cbn [wk_index]. rewrite Hl1. split; [done|lia].
Qed.

End TrimFacts.
