(* ===== verification/Strings.v ===== *)
(** * Strings that are edited by ranges
    (packages/programs/data/string/src/string-index.ts, string-store.ts, range.ts, query.ts)

    A string is the replay of the operations in a log, in the order of their clocks.  A
    change of the log replays it all.  Nodes with the same entries have the same string
    ([strings_converge]), an edit applies to what was before it ([later_edit_applies]); a
    search finds exactly the occurrences of what it looks for ([occurrences_exact]), and
    what it does with the empty string, and an edit whose range is too long for a string. *)

From Stdlib Require Import ZArith Lia Sorted.
From stdpp Require Import base list strings sorting.
From S2P Require Import Prelude JsMap Cache Clock JsVal Query IndexInterface SimpleIndex SimpleIndexFacts LogSorting EntryIndex EntryIndexFacts Trim Log LogState LogDelete TrimFacts.

Local Open Scope Z_scope.

(** Strings are lists of UTF-16 code units. *)
Definition Text : Type := list Z.

(** The longest string that the engine makes, and lower case. *)
Class StringEnv := { max_length : Z; toLowerCase : Text -> Text }.

(** ** Operations *)

(** Offsets and lengths have 64 bits.  Their sum as a number is rounded beyond 2^53,
    which is above the length of every string either way. *)
Record Range := MkRange { offset : Z; range_length : Z }.
Record StringOperation := MkStringOperation { op_index : Range; op_value : option Text }.

Definition slice_to (s : Text) (n : Z) : Text := take (Z.to_nat (Z.min n (Z.of_nat (length s)))) s.
Definition slice_from (s : Text) (n : Z) : Text := drop (Z.to_nat (Z.min n (Z.of_nat (length s)))) s.

Section Strings.
Context `{StringEnv}.

Definition check_length (s : Text) : outcome Text := if max_length <? Z.of_nat (length s) then Exn "Invalid string length" else Val s.
Definition padEnd (s : Text) (to : Z) : outcome Text :=
  if to <=? Z.of_nat (length s) then Val s
  else if max_length <? to then Exn "Invalid string length"
  else Val (s ++ replicate (Z.to_nat to - length s) 32).

Definition applyOperation (s : Text) (operation : StringOperation) : outcome Text :=
  let to := offset (op_index operation) + range_length (op_index operation) in
  match op_value operation with
  | Some value => s ← padEnd s to; check_length (slice_to s (offset (op_index operation)) ++ value ++ slice_from s to)
  | None => Val (slice_to s (offset (op_index operation)) ++ slice_from s to)
  end.

(** ** The replay *)

(** The operation of an entry. *)
Context (getPayloadValue : Entry -> outcome StringOperation).

Definition handle_operation (st : list string * Text) (item : Entry) : outcome (list string * Text) :=
  if bool_decide (en_hash item ∈ st.1) then Val st
  else operation ← getPayloadValue item; s ← applyOperation st.2 operation; Val (st.1 ++ [en_hash item], s).

Definition applyOperations (s : Text) (operations : list Entry) : outcome Text :=
  _ ← mapM_out getPayloadValue operations;
  st ← foldM handle_operation ([], s) operations;
  Val st.2.

Section Store.
Context {Q : Type} `{JsEnv, Document ShallowEntry, Queue Q string}.
Abbreviation Entries := (EntryIndex (Q := Q)).

(** [toArray] of the log; what cannot be resolved makes it throw. *)
Fixpoint resolve_all (now : Z) (s : Entries) (hs : list string) : outcome (list Entry * Entries) :=
  match hs with
  | [] => Val ([], s)
  | h :: hs =>
      '(e, s) ← resolve now s h false;
      '(es, s) ← resolve_all now s hs;
      Val (match e with Some e => e :: es | None => es end, s)
  end.
Definition toArray (now : Z) (s : Entries) : outcome (list Entry * Entries) :=
  hs ← iterate_all s [] (sort (ei_sort s));
  resolve_all now s (map se_hash hs).

Record DString := MkDString { ds_log : Entries; ds_string : Text }.

(** [onChange] of the log. *)
Definition updateIndex (now : Z) (d : DString) : outcome DString :=
  '(es, s) ← toArray now (ds_log d);
  t ← applyOperations [] es;
  Val (MkDString s t).

(** ** Which entries are accepted *)

Fixpoint has_one (now : Z) (s : Entries) (nexts : list string) : outcome (bool * Entries) :=
  match nexts with
  | [] => Val (false, s)
  | next :: nexts => '(b, s) ← has now s next; if b : bool then Val (true, s) else has_one now s nexts
  end.

Definition _canPerform (now : Z) (entry : Entry) (s : Entries) : outcome (bool * Entries) :=
  if (ei_length s =? 0) || bool_decide (meta_next (en_meta entry) = []) then Val (true, s)
  else has_one now s (meta_next (en_meta entry)).

(** [canAppend] of the log, with the callback of the user. *)
Definition canAppend (now : Z) (canPerform : option (StringOperation -> Entry -> outcome bool)) (entry : Entry) (s : Entries) : outcome (bool * Entries) :=
  operation ← getPayloadValue entry;
  '(b, s) ← _canPerform now entry s;
  if negb b then Val (false, s)
  else match canPerform with Some f => b ← f operation entry; Val (b, s) | None => Val (true, s) end.

End Store.

(** What [add] and [del] append. *)
Definition add_operation (value : Text) (index : Range) : StringOperation := MkStringOperation index (Some value).
Definition del_operation (index : Range) : StringOperation := add_operation [] index.

(** ** Searching *)

Fixpoint starts_with (sub s : Text) : bool :=
  match sub, s with [], _ => true | x :: sub, y :: s => (x =? y) && starts_with sub s | _ :: _, [] => false end.

(** The first position of [sub] in what is [at] of a string. *)
Fixpoint first_position (sub s : Text) (at_ : nat) : option nat :=
  if starts_with sub s then Some at_ else match s with [] => None | _ :: s => first_position sub s (S at_) end.
Definition indexOf (s sub : Text) (from : nat) : option nat :=
  let from := Nat.min from (length s) in first_position sub (drop from s) from.

Fixpoint occurrences_from (fuel : nat) (s sub : Text) (idx : option nat) : outcome (list nat) :=
  match fuel with
  | O => NoFuel
  | S fuel => match idx with None => Val [] | Some idx => l ← occurrences_from fuel s sub (indexOf s sub (S idx)); Val (idx :: l) end
  end.
Definition findAllOccurrences (fuel : nat) (str substr : Text) : outcome (list nat) :=
  let str := toLowerCase str in occurrences_from fuel str substr (indexOf str substr 0).

Record StringMatch := MkStringMatch { sm_value : Text; sm_exactMatch : bool }.
Definition preprocess (m : StringMatch) (s : Text) : Text := if sm_exactMatch m then toLowerCase s else s.

Inductive AbstractSearchResult := StringResult (string : Text) (metadatas : option (list Range)) | NoAccess.

Definition match_ranges (fuel : nat) (content : Text) (m : StringMatch) : outcome (list Range) :=
  l ← findAllOccurrences fuel (preprocess m content) (preprocess m (sm_value m));
  Val (map (fun ix => MkRange (Z.of_nat ix) (Z.of_nat (length (sm_value m)))) l).

(** [canRead] is [_canRead] of the store. *)
Definition queryHandler (fuel : nat) (canRead : option (string -> outcome bool)) (query : list StringMatch) (from : string) (content : Text) : outcome (option AbstractSearchResult) :=
  allowed ← match canRead with Some f => f from | None => Val true end;
  if negb allowed then Val (Some NoAccess)
  else match query with
  | [] => Val (Some (StringResult content None))
  | _ =>
      ranges ← mapM_out (match_ranges fuel content) query;
      Val (match mjoin ranges with [] => None | ranges => Some (StringResult content (Some ranges)) end)
  end.

(** ** Asking the others *)

Definition count_response (counter : list (Text * Z)) (r : AbstractSearchResult) : list (Text * Z) :=
  match r with NoAccess => counter | StringResult s _ => Map_set counter s (default 0 (Map_get counter s) + 1) end.
Definition most_common (counter : list (Text * Z)) : option Text :=
  (fold_left (fun m c => if m.1 <? c.2 then (c.2, Some c.1) else m) counter (-1, None)).2.
(** [getValue] of what the others respond. *)
Definition getValue_remote (responses : list AbstractSearchResult) : option Text := most_common (fold_left count_response responses []).

End Strings.

(** ** Replay in the order of clocks *)

Section Replay.
Context `{StringEnv} (getPayloadValue : Entry -> outcome StringOperation).
Context {Q : Type} `{JsEnv, Document ShallowEntry, !DocumentLaws ShallowEntry, !ShallowDocument, Queue Q string, !QueueLaws Q string}.
Implicit Types (s : EntryIndex (Q := Q)) (e : Entry) (d : DString (Q := Q)).

Definition clock_of e : Timestamp := lc_timestamp (meta_clock (en_meta e)).
Definition earlier e1 e2 : Prop := Timestamp_lt (clock_of e1) (clock_of e2).
Definition holds_entry s (h : string) : Prop := is_Some (stored_at (ei_index s) h).

(** The entries are there in full, and each has a time of its own. *)
Record dated s : Prop := {
  dt_ready : ready s;
  dt_sort : ei_sort s = LastWriteWins;
  dt_full h x : stored_at (ei_index s) h = Some x -> exists e, full s h = Some e /\ se_meta x = new_ShallowMeta (en_meta e);
  dt_distinct h1 h2 e1 e2 : holds_entry s h1 -> holds_entry s h2 -> full s h1 = Some e1 -> full s h2 = Some e2 -> clock_of e1 = clock_of e2 -> h1 = h2;
}.

Lemma filter_everything {A} (l : list A) : List.filter (fun _ => true) l = l.
Proof. induction l as [|x l IH]; cbn; [done|by f_equal]. Qed.

Lemma entries_distinct (T : HashmapIndex ShallowEntry) : table_ok T -> NoDup (map se_hash (entries T)).
Proof.
  intros [Hw _ _ Hids]. apply (NoDup_fmap_1 PStr). unfold entries, Map_values, Map_wf, Map_keys in *. rewrite !map_map.
  erewrite (map_ext_in _ fst); [exact Hw|]. intros [p r] Hin. cbn. symmetry. by apply Hids, list_elem_of_In.
Qed.

Lemma held_hash s h e : full s h = Some e -> en_hash e = h.
Proof. unfold full. destruct (Map_get _ _); [|done]. by intros [= <-]. Qed.

Lemma resolve_known now s k e : ready s -> full s k = Some e -> exists c, resolve now s k false = Val (Some e, with_cache s c) /\ ready (with_cache s c).
Proof.
  intros [Hs Ha] Hf. unfold resolve. destruct (get_agrees (full s) now (ei_cache s) k (io_cache _ Hs) Ha) as (mem & c & -> & Hc & Ha' & Hm). cbn [mbind outcome_bind].
  assert (Hr : forall c', Inv c' -> cache_agrees (full s) c' -> ready (with_cache s c')) by (intros c' ? ?; split; [by destruct Hs; split|done]).
  destruct Hm as [->| ->]; [|rewrite Hf; exists c; by split; [|apply Hr]].
  destruct (add_agrees (full s) now c k Hc Ha') as (c' & E & Hc' & Ha''). exists c'. rewrite Hf in E. unfold full in Hf.
  destruct (Map_get (ei_store s) k) as [e'|]; [|done]. injection Hf as <-. rewrite E. cbn [mbind outcome_bind]. by split; [|apply Hr].
Qed.

Lemma iterate_all_sorted s : index_wf s -> ei_sort s = LastWriteWins ->
  exists hs, iterate_all s [] (sort (ei_sort s)) = Val hs /\ hs ≡ₚ entries (ei_index s) /\ StronglySorted (fun a b => time_cmp ASC a b <= 0) hs.
Proof.
  intros Hs Hso. rewrite Hso. unfold iterate_all. cbn [simple_ops it_all]. unfold fetch. cbn [iterate st_queue st_done not_done st_options opt_query opt_sort].
  rewrite (queryAll_selects _ _ (fun _ => true) (io_table _ Hs) (selects_all _)). cbn [mbind outcome_bind].
  set (docs := List.filter _ _). set (c := fun a b : IndexedResult ShallowEntry => time_cmp ASC (ir_value a) (ir_value b)).
  assert (Hc : Comparator c) by (destruct (time_cmp_comparator ASC) as [Ht Htr]; split; unfold c; intros *; [apply Ht|apply Htr]).
  assert (Hsort : exists rs, sort_documents docs (Some (sort LastWriteWins)) = Val rs /\ rs ≡ₚ docs /\ StronglySorted (fun a b => c a b <= 0) rs).
  { unfold sort_documents. destruct (1 <? length docs)%nat eqn:El.
    - cbn [sort LastWriteWins]. rewrite (sortM_val _ c); [eexists; split; [done|]; split; [apply js_sort_perm|by apply js_sort_sorted]|].
      intros a b _ _. rewrite !shallow_to_js. apply extract_clock.
    - exists docs. split; [done|]. split; [done|]. apply Nat.ltb_ge in El. destruct docs as [|a [|b docs']]; [constructor|by repeat constructor|simpl in El; lia]. }
  destruct Hsort as (rs & -> & Hrs & Hss). cbn [mbind outcome_bind].
  assert (Hd : map ir_value docs ≡ₚ entries (ei_index s)) by (subst docs; by rewrite filter_everything).
  assert (Hm : StronglySorted (fun a b => time_cmp ASC a b <= 0) (map ir_value rs)) by (clear -Hss; induction Hss as [|r rs _ IH Hr]; cbn; constructor; [done|]; by apply Forall_fmap).
  exists (map ir_value rs). split; [|split; [by rewrite Hrs|done]].
  destruct rs as [|r l]; cbn [mbind outcome_bind st_queue]; [done|]. by rewrite getBatch_all, cloneResults_id.
Qed.

(** What [toArray] answers: all entries, by their clocks. *)
Definition listed s (es : list Entry) : Prop := (forall e, e ∈ es <-> full s (en_hash e) = Some e /\ holds_entry s (en_hash e)) /\ StronglySorted earlier es.

Lemma recache_dated s c : dated s -> ready (with_cache s c) -> dated (with_cache s c).
Proof. intros [Hr Hso Hf Hd] Hr'. by split. Qed.

Lemma resolve_all_known now es : forall s hs, ready s -> Forall2 (fun h e => full s h = Some e) hs es ->
  exists c, resolve_all now s hs = Val (es, with_cache s c) /\ ready (with_cache s c).
Proof.
  induction es as [|e es IH]; intros s hs Hs Hes.
  - apply Forall2_nil_inv_r in Hes as ->. exists (ei_cache s). by destruct s.
  - apply Forall2_cons_inv_r in Hes as (h & hs' & Hh & Hes & ->). cbn [resolve_all]. destruct (resolve_known now s h e Hs Hh) as (c & -> & Hc).
    cbn [mbind outcome_bind]. destruct (IH (with_cache s c) hs' Hc Hes) as (c' & -> & Hc'). cbn [mbind outcome_bind]. by exists c'.
Qed.

(** Each entry in full, for a sorted list of what the index holds. *)
Lemma sorted_entries s hs es : dated s -> NoDup (map se_hash hs) -> StronglySorted (fun a b => time_cmp ASC a b <= 0) hs ->
  (forall x, x ∈ hs -> holds_entry s (se_hash x)) -> Forall2 (fun x e => full s (se_hash x) = Some e /\ se_meta x = new_ShallowMeta (en_meta e)) hs es ->
  StronglySorted earlier es.
Proof.
  intros Hs Hn Hso Hin' Hes. induction Hes as [|x e hs es [Hx Hm] Hes IH]; [constructor|]. apply StronglySorted_inv in Hso as [Hso Hle]. cbn in Hn. apply NoDup_cons in Hn as [Hne Hn].
  constructor; [apply IH; [done|done|intros y Hy; apply Hin'; by right]|]. apply Forall_forall. intros e' (i & Hi')%list_elem_of_lookup.
  destruct (Forall2_lookup_r _ _ _ _ _ Hes Hi') as (x' & Hx' & Hf' & Hm'). apply list_elem_of_lookup_2 in Hx'. rewrite Forall_forall in Hle. specialize (Hle x' Hx').
  unfold earlier. rewrite Timestamp_lt_spec. assert (Hc : Clock.compare (clock_of e) (clock_of e') <= 0) by (unfold time_cmp, entry_time in Hle; rewrite Hm, Hm' in Hle; exact Hle).
  destruct (compare_cases (clock_of e) (clock_of e')) as [[? Hlt]|[[? Eq]|[? _]]]; [lia| |lia]. destruct Hne. rewrite (dt_distinct s Hs (se_hash x) (se_hash x') e e'); try done; [by apply list_elem_of_fmap_2|apply Hin'; left|apply Hin'; by right].
Qed.

Lemma toArray_ok now s : dated s -> exists es c, toArray now s = Val (es, with_cache s c) /\ dated (with_cache s c) /\ listed s es.
Proof.
  intros Hs. pose proof (dt_ready s Hs) as Hr. pose proof (rd_index s Hr) as Hi. destruct (iterate_all_sorted s Hi (dt_sort s Hs)) as (hs & E & Hp & Hso).
  assert (Hin : forall x, x ∈ hs <-> stored_at (ei_index s) (se_hash x) = Some x) by (intros x; rewrite Hp; apply stored_entry, Hi).
  assert (Hes : exists es, Forall2 (fun x e => full s (se_hash x) = Some e /\ se_meta x = new_ShallowMeta (en_meta e)) hs es).
  { assert (Hall : Forall (fun x => exists e, full s (se_hash x) = Some e /\ se_meta x = new_ShallowMeta (en_meta e)) hs).
    { apply Forall_forall. intros x Hx. by apply (dt_full s Hs), Hin. }
    clear -Hall. induction Hall as [|x hs (e & He) _ (es & IH)]; [by exists []|]. exists (e :: es). by constructor. }
  destruct Hes as (es & Hes). destruct (resolve_all_known now es s (map se_hash hs) Hr) as (c & Ec & Hc).
  { clear -Hes. induction Hes as [|x e hs es [Hx _] _ IH]; cbn; by constructor. }
  exists es, c. unfold toArray. rewrite E. cbn [mbind outcome_bind]. split; [exact Ec|]. split; [by apply recache_dated|]. split.
  - intros e. split.
    + intros (i & Hi')%list_elem_of_lookup. destruct (Forall2_lookup_r _ _ _ _ _ Hes Hi') as (x & Hx & Hf & _). apply list_elem_of_lookup_2, Hin in Hx.
      pose proof (held_hash _ _ _ Hf) as Hh. rewrite Hh. split; [done|]. by exists x.
    + intros [Hf (x & Hx)]. pose proof (stored_hash _ _ _ (io_table _ Hi) Hx) as Hh. assert (Hx' : x ∈ hs) by (apply Hin; by rewrite Hh).
      apply list_elem_of_lookup in Hx' as (i & Hi'). destruct (Forall2_lookup_l _ _ _ _ _ Hes Hi') as (e' & He' & Hf' & _). rewrite Hh in Hf'.
      assert (e' = e) as -> by congruence. by eapply list_elem_of_lookup_2.
  - apply (sorted_entries s hs es Hs); [rewrite Hp; by apply entries_distinct, Hi|done|intros x Hx%Hin; by exists x|done].
Qed.

Lemma listed_unique s1 s2 es1 es2 : (forall e, e ∈ es1 <-> e ∈ es2) -> listed s1 es1 -> listed s2 es2 -> es1 = es2.
Proof.
  intros He [_ H1'] [_ H2']. assert (Hn : forall es, StronglySorted earlier es -> NoDup es).
  { intros es Hs. induction Hs as [|e es _ IH Hf]; constructor; [|done]. intros Hin. rewrite Forall_forall in Hf. by apply (irreflexivity Timestamp_lt (clock_of e)), Hf. }
  apply (StronglySorted_unique_strong earlier); [|done|done|by apply NoDup_Permutation; [apply Hn..|]].
  intros x y _ _ Hxy Hyx. exfalso. apply (irreflexivity Timestamp_lt (clock_of x)). by etransitivity.
Qed.

Lemma updateIndex_replays now d : dated (ds_log d) ->
  exists es c, listed (ds_log d) es /\ dated (with_cache (ds_log d) c) /\
    updateIndex getPayloadValue now d = (t ← applyOperations getPayloadValue [] es; Val (MkDString (with_cache (ds_log d) c) t)).
Proof. intros Hd. destruct (toArray_ok now _ Hd) as (es & c & E & Hc & Hl). exists es, c. split; [done|]. split; [done|]. unfold updateIndex. by rewrite E. Qed.


Lemma foldM_app {A S} (f : S -> A -> outcome S) (st : S) (l1 l2 : list A) : foldM f st (l1 ++ l2) = (st ← foldM f st l1; foldM f st l2).
Proof. revert st. induction l1 as [|x l1 IH]; intros st; cbn; [done|]. destruct (f st x); cbn; auto. Qed.

Lemma mapM_out_app {A B} (f : A -> outcome B) (l1 l2 : list A) ys : mapM_out f l1 = Val ys ->
  mapM_out f (l1 ++ l2) = (zs ← mapM_out f l2; Val (ys ++ zs)).
Proof.
  revert ys. induction l1 as [|x l1 IH]; intros ys; cbn; [intros [= <-]; by destruct (mapM_out f l2)|]. destruct (f x) as [y|?|]; [|done|done]. cbn.
  destruct (mapM_out f l1) as [ys1|?|]; [|done|done]. cbn. intros [= <-]. rewrite (IH ys1 eq_refl). by destruct (mapM_out f l2).
Qed.

(** Only hashes of what was replayed are marked as handled. *)
Lemma handled_hashes es : forall st st' h, foldM (handle_operation getPayloadValue) st es = Val st' -> h ∈ st'.1 -> h ∈ st.1 \/ h ∈ map en_hash es.
Proof.
  induction es as [|e es IH]; intros st st' h; cbn [foldM]; [intros [= <-]; by left|]. destruct (handle_operation getPayloadValue st e) as [st1|?|] eqn:E; [|done|done].
  cbn [mbind outcome_bind]. intros Es Hh. destruct (IH _ _ _ Es Hh) as [Hh'|Hh']; [|by right; right]. unfold handle_operation in E.
  case_bool_decide; [injection E as <-; by left|]. destruct (getPayloadValue e) as [op|?|]; [|done|done]. cbn in E. destruct (applyOperation _ op); [|done|done]. injection E as <-.
  cbn in Hh'. apply elem_of_app in Hh' as [Hh'| ->%list_elem_of_singleton]; [by left|]. right. left.
Qed.

(** An edit applies to what was before it: when an entry comes that is later than
    all that the log holds, in full and no two of one time, the string becomes what its
    operation makes of the string before, although all is replayed. *)
Theorem later_edit_applies now now' d d1 d' e op :
  dated (ds_log d) -> dated (ds_log d') -> updateIndex getPayloadValue now d = Val d1 -> getPayloadValue e = Val op ->
  ~ holds_entry (ds_log d) (en_hash e) -> full (ds_log d') (en_hash e) = Some e ->
  (forall h, holds_entry (ds_log d') h <-> holds_entry (ds_log d) h \/ h = en_hash e) ->
  (forall h, holds_entry (ds_log d) h -> full (ds_log d') h = full (ds_log d) h) ->
  (forall h x, holds_entry (ds_log d) h -> full (ds_log d) h = Some x -> earlier x e) ->
  ds_string <$> updateIndex getPayloadValue now' d' = applyOperation (ds_string d1) op.
Proof.
  intros Hd Hd' E1 Hop Hnew He Hh Hf Hlater. destruct (updateIndex_replays now d Hd) as (es & c & Hl & _ & E), (updateIndex_replays now' d' Hd') as (es' & c' & Hl' & _ & E').
  assert (Hlast : forall x, x ∈ es -> earlier x e) by (intros x [Hx Hx']%(proj1 Hl); by eapply Hlater).
  assert (Hl2 : listed (ds_log d') (es ++ [e])).
  { split.
    - intros x. rewrite elem_of_app, list_elem_of_singleton, (proj1 Hl), Hh. split.
      + intros [[Hx Hx']| ->]; [split; [by rewrite Hf|by left]|split; [exact He|by right]].
      + intros [Hx [Hx'|Hx']]; [left; by rewrite <- Hf|right]. congruence.
    - destruct Hl as [_ Hso]. clear -Hso Hlast. induction Hso as [|x es _ IH Hx]; cbn; [by repeat constructor|]. constructor; [apply IH; intros y Hy; apply Hlast; by right|].
      apply Forall_app. split; [done|]. constructor; [|done]. apply Hlast. left. }
  assert (es' = es ++ [e]) as -> by (eapply listed_unique; [|exact Hl'|exact Hl2]; intros x; by rewrite (proj1 Hl'), (proj1 Hl2)).
  rewrite E1 in E. destruct (applyOperations getPayloadValue [] es) as [t|?|] eqn:Ea; [|done|done]. cbn in E. injection E as ->. rewrite E'. cbn [ds_string].
  unfold applyOperations in Ea |- *. destruct (mapM_out getPayloadValue es) as [ops|?|] eqn:Em; [|done|done]. rewrite (mapM_out_app _ _ _ _ Em). cbn [mapM_out]. rewrite Hop. cbn [mbind outcome_bind] in Ea |- *.
  rewrite foldM_app. destruct (foldM _ _ es) as [st|?|] eqn:Est; [|done|done]. cbn [mbind outcome_bind] in Ea |- *. injection Ea as <-.
  cbn [foldM]. unfold handle_operation at 1. rewrite bool_decide_false.
  - rewrite Hop. cbn [mbind outcome_bind]. by destruct (applyOperation st.2 op).
  - intros Hin. destruct (handled_hashes es _ _ _ Est Hin) as [Hn|(x & Ex & Hx)%list_elem_of_fmap]; [by apply not_elem_of_nil in Hn|].
    apply Hnew. rewrite Ex. by apply (proj1 Hl).
Qed.

End Replay.

(** ** Occurrences *)

Lemma starts_with_spec sub s : starts_with sub s = true <-> sub `prefix_of` s.
Proof.
  revert s. induction sub as [|x sub IH]; intros s; cbn; [split; [intros _; apply prefix_nil|done]|].
  destruct s as [|y s]; [split; [done|by intros ?%prefix_nil_not]|]. rewrite andb_true_iff, Z.eqb_eq, IH. split.
  - intros [-> Hp]. by apply prefix_cons.
  - intros Hp. split; [by eapply prefix_cons_inv_1|by eapply prefix_cons_inv_2].
Qed.

Lemma drop_step {A} (x : A) l s n : drop n s = x :: l -> drop (S n) s = l.
Proof. intros E. rewrite <- Nat.add_1_r, <- drop_drop, E. done. Qed.

Lemma first_position_spec (sub whole : Text) : sub <> [] -> forall s from, drop from whole = s ->
  match first_position sub s from with
  | Some i => (from <= i)%nat /\ sub `prefix_of` drop i whole /\ forall k, (from <= k < i)%nat -> ~ sub `prefix_of` drop k whole
  | None => forall k, (from <= k)%nat -> ~ sub `prefix_of` drop k whole
  end.
Proof.
  intros Hne. induction s as [|x s IH]; intros from Hs; cbn [first_position].
  - destruct (starts_with sub []) eqn:E; [apply starts_with_spec, prefix_nil_inv in E; done|]. intros k Hk Hp.
    assert (Hd : drop k whole = []) by (replace k with (from + (k - from))%nat by lia; by rewrite <- drop_drop, Hs, drop_nil). rewrite Hd in Hp. by apply prefix_nil_inv in Hp.
  - destruct (starts_with sub (x :: s)) eqn:E; [split; [done|]; split; [rewrite Hs; by apply starts_with_spec|lia]|].
    assert (Hno : ~ sub `prefix_of` drop from whole) by (rewrite Hs; intros Hp%starts_with_spec; congruence).
    specialize (IH (S from) (drop_step _ _ _ _ Hs)). destruct (first_position sub s (S from)) as [i|].
    + destruct IH as (Hi & Hp & Hk). split; [lia|]. split; [done|]. intros k Hk'. destruct (decide (k = from)) as [->|]; [done|]. apply Hk. lia.
    + intros k Hk'. destruct (decide (k = from)) as [->|]; [done|]. apply IH. lia.
Qed.

Lemma occurs_before (sub s : Text) i : sub <> [] -> sub `prefix_of` drop i s -> (i < length s)%nat.
Proof. intros Hne Hp. destruct (decide (i < length s)%nat) as [|Hge]; [done|]. rewrite drop_ge in Hp by lia. by apply prefix_nil_inv in Hp. Qed.

Lemma indexOf_spec (s sub : Text) from : sub <> [] ->
  match indexOf s sub from with
  | Some i => (from <= i)%nat /\ sub `prefix_of` drop i s /\ forall k, (from <= k < i)%nat -> ~ sub `prefix_of` drop k s
  | None => forall k, (from <= k)%nat -> ~ sub `prefix_of` drop k s
  end.
Proof.
  intros Hne. unfold indexOf. pose proof (first_position_spec sub s Hne _ (Nat.min from (length s)) eq_refl) as Hs.
  destruct (first_position _ _ _) as [i|].
  - destruct Hs as (Hi & Hp & Hk). pose proof (occurs_before sub s i Hne Hp). split; [lia|]. split; [done|]. intros k Hk'. apply Hk. lia.
  - intros k Hk. apply Hs. lia.
Qed.

Lemma occurrences_from_spec (s sub : Text) : sub <> [] -> forall fuel from, (S (length s) - from < fuel)%nat ->
  exists l, occurrences_from fuel s sub (indexOf s sub from) = Val l /\ StronglySorted lt l /\ forall i, i ∈ l <-> (from <= i)%nat /\ sub `prefix_of` drop i s.
Proof.
  intros Hne. induction fuel as [|fuel IH]; intros from Hf; [lia|]. cbn [occurrences_from]. pose proof (indexOf_spec s sub from Hne) as Hs. destruct (indexOf s sub from) as [i|].
  - destruct Hs as (Hi & Hp & Hk). pose proof (occurs_before sub s i Hne Hp) as Hlt. destruct (IH (S i)) as (l & -> & Hso & Hl); [lia|]. cbn [mbind outcome_bind].
    exists (i :: l). split; [done|]. split.
    + constructor; [done|]. apply Forall_forall. intros j Hj%Hl. lia.
    + intros j. rewrite elem_of_cons, Hl. split; [intros [->|[Hj Hpj]]; [done|split; [lia|done]]|].
      intros [Hj Hpj]. destruct (decide (j = i)) as [->|]; [by left|]. right. split; [|done]. destruct (decide (j < i)%nat); [|lia]. exfalso. apply (Hk j); [lia|done].
  - exists []. split; [done|]. split; [constructor|]. intros j. split; [by intros ?%elem_of_nil|]. intros [Hj Hp]. exfalso. by apply (Hs j).
Qed.

Section Search.
Context `{StringEnv}.

(** C15. A search for a text that is not empty ends, and finds exactly the positions at
    which the text is in the lower case of the string, overlapping ones too, each
    once and in order. *)
Theorem occurrences_exact (str substr : Text) fuel : substr <> [] -> (S (length (toLowerCase str)) < fuel)%nat ->
  exists l, findAllOccurrences fuel str substr = Val l /\ StronglySorted lt l /\
    forall i, i ∈ l <-> substr `prefix_of` drop i (toLowerCase str).
Proof.
  intros Hne Hf. destruct (occurrences_from_spec (toLowerCase str) substr Hne fuel 0) as (l & E & Hso & Hl); [lia|].
  exists l. split; [exact E|]. split; [done|]. intros i. rewrite Hl. split; [by intros [_ ?]|]. intros ?. split; [lia|done].
Qed.

(** A search for the empty text never ends: from the end of the string it is found at
    the end of the string again. *)
Theorem empty_search_never_ends (str : Text) fuel : findAllOccurrences fuel str [] = NoFuel.
Proof.
  unfold findAllOccurrences. assert (Hi : forall s from, exists i, indexOf s [] from = Some i) by (intros s from; unfold indexOf; by destruct (drop _ s); eexists).
  generalize 0%nat. generalize (toLowerCase str). intros s. induction fuel as [|fuel IH]; intros from; cbn [occurrences_from]; [done|].
  destruct (Hi s from) as (i & ->). by rewrite IH.
Qed.

(** ** What most respond *)

Definition votes (responses : list AbstractSearchResult) (t : Text) : Z :=
  Z.of_nat (length (List.filter (fun r => match r with StringResult s _ => bool_decide (s = t) | NoAccess => false end) responses)).

Lemma count_votes responses : forall counter t, default 0 (Map_get (fold_left count_response responses counter) t) = default 0 (Map_get counter t) + votes responses t.
Proof.
  unfold votes. induction responses as [|r responses IH]; intros counter t; cbn [fold_left List.filter]; [cbn; lia|]. rewrite IH. destruct r as [s metadatas|]; cbn [count_response]; [|lia].
  rewrite Map_get_set. case_decide as Hs; [subst; rewrite bool_decide_true by done; cbn [from_option Datatypes.id id length]; lia|]. rewrite bool_decide_false by done. lia.
Qed.

Lemma counted responses : forall counter, Map_wf counter -> (forall t v, Map_get counter t = Some v -> 0 < v) ->
  Map_wf (fold_left count_response responses counter) /\ forall t v, Map_get (fold_left count_response responses counter) t = Some v -> 0 < v.
Proof.
  induction responses as [|r responses IH]; intros counter Hw Hp; cbn [fold_left]; [done|]. apply IH; destruct r as [s metadatas|]; cbn [count_response]; try done; [by apply Map_set_wf|].
  intros t v. rewrite Map_get_set. case_decide; [|apply Hp]. intros [= <-]. destruct (Map_get counter s) as [v|] eqn:E; cbn; [apply Hp in E|]; lia.
Qed.

Lemma most_common_fold (counter : list (Text * Z)) : forall m0, exists m, fold_left (fun m c => if m.1 <? c.2 then (c.2, Some c.1) else m) counter m0 = m /\
  m0.1 <= m.1 /\ (forall c, c ∈ counter -> c.2 <= m.1) /\ (m = m0 \/ exists c, c ∈ counter /\ m = (c.2, Some c.1)).
Proof.
  induction counter as [|c counter IH]; intros m0; cbn [fold_left]; [exists m0; split_and!; [done|done|by intros c ?%elem_of_nil|by left]|].
  destruct (IH (if m0.1 <? c.2 then (c.2, Some c.1) else m0)) as (m & -> & Hle & Hall & Hm). exists m. split; [done|].
  destruct (Z.ltb_spec m0.1 c.2); cbn [fst] in Hle; (split; [lia|]); (split; [intros c' [->|Hc']%elem_of_cons; [lia|by apply Hall]|]).
  - right. destruct Hm as [->|(c' & Hc' & ->)]; [exists c; split; [left|done]|exists c'; split; [by right|done]].
  - destruct Hm as [->|(c' & Hc' & ->)]; [by left|right]. exists c'. split; [by right|done].
Qed.

(** Asking the others for the string gives one that nobody else has more votes than;
    there is none exactly when nobody responds with a string. *)
Theorem most_voted (responses : list AbstractSearchResult) :
  match getValue_remote responses with
  | Some t => 0 < votes responses t /\ forall t', votes responses t' <= votes responses t
  | None => forall t, votes responses t = 0
  end.
Proof.
  unfold getValue_remote, most_common. set (counter := fold_left count_response responses []).
  assert (Hv : forall t, votes responses t = default 0 (Map_get counter t)) by (intros t; unfold counter; rewrite count_votes; cbn; lia).
  destruct (counted responses [] (NoDup_nil_2 : Map_wf ([] : list (Text * Z)))) as [Hw Hp]; [done|]. fold counter in Hw, Hp.
  destruct (most_common_fold counter (-1, None)) as (m & -> & _ & Hall & Hm). destruct Hm as [->|(c & Hc & ->)]; cbn [snd fst] in *.
  - intros t. rewrite Hv. destruct (Map_get counter t) as [v|] eqn:E; [|done]. pose proof (Hp _ _ E). apply Map_get_Some_elem, Hall in E. cbn in E. lia.
  - destruct c as [t v]. cbn in *. apply (Map_elem_get _ _ _ Hw) in Hc. rewrite Hv, Hc. cbn. split; [by eapply Hp|]. intros t'. rewrite Hv.
    destruct (Map_get counter t') as [v'|] eqn:E; cbn; [by apply Map_get_Some_elem, Hall in E|]. pose proof (Hp _ _ Hc). lia.
Qed.

(** ** Ranges that are too long *)

Context (getPayloadValue : Entry -> outcome StringOperation).

Lemma edit_length s op s' : 0 <= range_length (op_index op) -> Z.of_nat (length s) <= max_length -> applyOperation s op = Val s' ->
  Z.of_nat (length s') <= max_length /\ forall v, op_value op = Some v -> offset (op_index op) + range_length (op_index op) <= max_length.
Proof.
  intros Hr Hs. unfold applyOperation. destruct (op_value op) as [v|].
  - unfold padEnd. set (to := offset _ + _). destruct (Z.leb_spec to (Z.of_nat (length s))) as [Hle|Hgt]; [|destruct (Z.ltb_spec max_length to); [done|]];
      cbn [mbind outcome_bind]; unfold check_length; (case_if_in_goal; [done|]);
      intros [= <-]; (split; [by apply Z.ltb_ge|]); intros; lia.
  - intros [= <-]. split; [|done]. rewrite length_app. unfold slice_to, slice_from. rewrite length_take, length_drop. lia.
Qed.

(** One operation whose range ends beyond what a string can hold stops every later
    change: the replay that it is in throws. *)
Theorem long_range_blocks es e op v :
  (forall x o, x ∈ es -> getPayloadValue x = Val o -> 0 <= range_length (op_index o)) -> 0 <= max_length ->
  NoDup (map en_hash es) -> e ∈ es -> getPayloadValue e = Val op -> op_value op = Some v -> max_length < offset (op_index op) + range_length (op_index op) ->
  forall t, applyOperations getPayloadValue [] es <> Val t.
Proof.
  intros Hr Hm Hn He Hop Hv Hlong t. unfold applyOperations. destruct (mapM_out _ es); [|done|done]. cbn [mbind outcome_bind].
  destruct (foldM _ _ es) as [st'|?|] eqn:Est; [|done|done]. exfalso.
  assert (Hst : forall es (st st' : list string * Text), (forall x o, x ∈ es -> getPayloadValue x = Val o -> 0 <= range_length (op_index o)) -> NoDup (map en_hash es) -> e ∈ es ->
    en_hash e ∉ st.1 -> Z.of_nat (length st.2) <= max_length -> foldM (handle_operation getPayloadValue) st es <> Val st').
  { clear -Hop Hv Hlong. induction es as [|x es IH]; intros st st' Hr Hn He Hh Hl; [by apply elem_of_nil in He|]. cbn [foldM]. apply NoDup_cons in Hn as [Hx Hn].
    destruct (handle_operation getPayloadValue st x) as [st1|?|] eqn:E; [|done|done]. cbn [mbind outcome_bind]. unfold handle_operation in E. case_bool_decide as Hd.
    - injection E as <-. apply elem_of_cons in He as [->|He]; [done|]. apply IH; try done. intros y o Hy. apply Hr. by right.
    - destruct (getPayloadValue x) as [o|?|] eqn:Eo; [|done|done]. cbn in E. destruct (applyOperation st.2 o) as [s|?|] eqn:Ea; [|done|done]. injection E as <-.
      destruct (edit_length _ _ _ (Hr x o ltac:(left) Eo) Hl Ea) as [Hl' Hv']. apply elem_of_cons in He as [->|He].
      + assert (o = op) as -> by congruence. specialize (Hv' v Hv). lia.
      + apply IH; try done; [intros y o' Hy; apply Hr; by right|]. cbn. rewrite elem_of_app, list_elem_of_singleton. intros [?|E]; [done|]. apply Hx. rewrite <- E. by apply list_elem_of_fmap_2. }
  by apply (Hst es ([], []) st' Hr Hn He); [apply not_elem_of_nil|cbn; lia|].
Qed.

End Search.

(** ** Which entries are accepted *)

Section Accept.
Context {Q : Type} `{JsEnv, Document ShallowEntry, !DocumentLaws ShallowEntry, !ShallowDocument, Queue Q string, !QueueLaws Q string}.
Implicit Types (s : EntryIndex (Q := Q)).

Lemma has_one_ok now nexts : forall s, Inv (ei_cache s) -> cached_ok s ->
  exists b c, has_one now s nexts = Val (b, with_cache s c) /\ (b = true <-> exists n, n ∈ nexts /\ is_Some (stored_at (ei_index s) n)).
Proof.
  induction nexts as [|n nexts IH]; intros s Hc Hs; cbn [has_one].
  - exists false, (ei_cache s). split; [by destruct s|]. split; [done|]. by intros (n & ?%elem_of_nil & _).
  - destruct (has_known now s n Hc Hs) as (c & -> & Hc' & Hs'). cbn [mbind outcome_bind]. case_bool_decide as Hn.
    + exists true, c. split; [done|]. split; [|done]. intros _. exists n. split; [left|done].
    + destruct (IH (with_cache s c) Hc' Hs') as (b & c' & -> & Hb). exists b, c'. split; [done|]. rewrite Hb. split.
      * intros (k & Hk & Hk'). exists k. split; [by right|done].
      * intros (k & [->|Hk]%elem_of_cons & Hk'); [done|by exists k].
Qed.

(** An entry may follow nothing, or something the log holds; an empty log takes anything. *)
Lemma canPerform_exact now entry s : index_wf s -> cached_ok s ->
  exists b c, _canPerform now entry s = Val (b, with_cache s c) /\
    (b = true <-> ei_length s = 0 \/ meta_next (en_meta entry) = [] \/ exists n, n ∈ meta_next (en_meta entry) /\ is_Some (stored_at (ei_index s) n)).
Proof.
  intros Hw Hs. unfold _canPerform. destruct (_ || _) eqn:E.
  - exists true, (ei_cache s). split; [by destruct s|]. split; [|done]. intros _. apply orb_true_iff in E as [E|E]; [left; by apply Z.eqb_eq|right; left; by apply bool_decide_eq_true in E].
  - apply orb_false_iff in E as [E1 E2]. apply Z.eqb_neq in E1. apply bool_decide_eq_false in E2. destruct (has_one_ok now (meta_next (en_meta entry)) s (io_cache _ Hw) Hs) as (b & c & E & Hb).
    exists b, c. split; [done|]. rewrite Hb. split; [by right; right|]. by intros [?|[?|?]].
Qed.

End Accept.
