(* ===== verification/Ranges.v ===== *)
(** * Replication ranges (packages/programs/data/shared-log/src/ranges.ts, part 1)

    The stored range of a replicator: one or two half open arcs of the ring of
    coordinates, [start1, end1) and [start2, end2), built from an offset and a
    width; the message a range is sent as; and the entries that are indexed with
    their coordinates.  The two classes [ReplicationRangeIndexableU32] and
    [...U64] are the Modules [U32Range] and [U64Range]; [r_type] tells the class
    of a value ([typeof range.start1]).  Numbers are integral here, so
    [Math.round] is the identity. *)

From Stdlib Require Import ZArith Lia.
From stdpp Require Import base list strings.
From S2P Require Import Prelude JsMap JsVal Query Integers Clock LogSorting.

Local Open Scope Z_scope.

Inductive ReplicationIntent := NonStrict | Strict.

#[export] Instance ReplicationIntent_eq_dec : EqDecision ReplicationIntent.
Proof. solve_decision. Defined.

(** The value of the enum. *)
Definition intent_value (m : ReplicationIntent) : Z :=
  match m with NonStrict => 0 | Strict => 1 end.

Definition min (a b : Z) : Z := if a <? b then a else b.

Definition getSegmentsFromOffsetAndRange (offset factor zero max : Z) : (Z * Z) * (Z * Z) :=
  let start1 := offset in
  let end1Unscaled := offset + factor in
  let end1 := min end1Unscaled max in
  ((start1, end1),
   if max <? end1Unscaled
   then (zero, Z.rem (if negb (factor =? max) then offset + factor else offset) max)
   else (start1, end1)).

(** [leaders] maps a replicator's hash to its [intersecting] flag; [None] is
    [false]. *)
Definition shouldAssigneToRangeBoundary (leaders : option (list (string * bool)))
    (minReplicas : Z) : bool :=
  let assignedToRangeBoundary :=
    match leaders with None => true | Some m => Z.of_nat (length m) <? minReplicas end in
  match leaders with
  | Some m =>
      if negb assignedToRangeBoundary then existsb (fun e => negb e.2) m
      else assignedToRangeBoundary
  | None => assignedToRangeBoundary
  end.

(** ** Entries with coordinates *)

Record EntryReplicated := MkEntryReplicated {
  er_type : resolution;
  er_hash : string;
  er_gid : string;
  er_coordinates : list Z;
  er_wallTime : Z;
  er_assignedToRangeBoundary : bool;
  er_meta : Meta;
}.

Definition new_EntryReplicatedU32 (coordinates : list Z) (hash : string) (meta : Meta)
    (assigned : bool) : EntryReplicated :=
  {| er_type := U32; er_hash := hash; er_gid := meta_gid meta; er_coordinates := coordinates;
     er_wallTime := wallTime (lc_timestamp (meta_clock meta));
     er_assignedToRangeBoundary := assigned; er_meta := meta |}.

Definition new_EntryReplicatedU64 (coordinates : list Z) (hash : string) (meta : Meta)
    (assigned : bool) : EntryReplicated :=
  {| er_type := U64; er_hash := hash; er_gid := meta_gid meta; er_coordinates := coordinates;
     er_wallTime := wallTime (lc_timestamp (meta_clock meta));
     er_assignedToRangeBoundary := assigned; er_meta := meta |}.

Definition coordinate_js (t : resolution) (z : Z) : jsval :=
  match t with U32 => JNum z | U64 => JBig z end.

(** An entry as the index sees it. *)
Definition entry_js (e : EntryReplicated) : jsval :=
  JObj [("hash", JStr (er_hash e)); ("gid", JStr (er_gid e));
        ("coordinates", JArr (map (coordinate_js (er_type e)) (er_coordinates e)));
        ("wallTime", JBig (er_wallTime e));
        ("assignedToRangeBoundary", JBool (er_assignedToRangeBoundary e))]%string.

(** ** Ranges *)

Record Range := MkRange {
  r_type : resolution;
  r_id : list Z;
  r_hash : string;
  r_timestamp : Z;
  r_start1 : Z;
  r_end1 : Z;
  r_start2 : Z;
  r_end2 : Z;
  r_width : Z;
  r_mode : ReplicationIntent;
}.

#[export] Instance Range_eq_dec : EqDecision Range.
Proof. solve_decision. Defined.

(** The borsh field order of both classes; a mode is a [u8]. *)
Definition range_js (r : Range) : jsval :=
  JObj [("id", JBytes (r_id r)); ("hash", JStr (r_hash r)); ("timestamp", JBig (r_timestamp r));
        ("start1", coordinate_js (r_type r) (r_start1 r)); ("end1", coordinate_js (r_type r) (r_end1 r));
        ("start2", coordinate_js (r_type r) (r_start2 r)); ("end2", coordinate_js (r_type r) (r_end2 r));
        ("width", coordinate_js (r_type r) (r_width r));
        ("mode", JNum (intent_value (r_mode r)))]%string.

(** A message carries the offset and the width ("factor") only. *)
Record RangeMessage := MkRangeMessage {
  m_type : resolution;
  m_id : list Z;
  m_timestamp : Z;
  m_offset : Z;
  m_factor : Z;
  m_mode : ReplicationIntent;
}.

(** Hashing: [sha256Base64Sync] of the package's crypto library, and borsh's
    [serialize] of a public key, of a range and of a [HashableSegment]. *)
Record HashableSegment := MkHashableSegment {
  hs_type : resolution;
  hs_start1 : Z; hs_end1 : Z; hs_start2 : Z; hs_end2 : Z;
  hs_mode : ReplicationIntent;
}.

Definition new_HashableSegmentU32 (r : Range) : HashableSegment :=
  {| hs_type := U32; hs_start1 := r_start1 r; hs_end1 := r_end1 r; hs_start2 := r_start2 r;
     hs_end2 := r_end2 r; hs_mode := r_mode r |}.

Definition new_HashableSegmentU64 (r : Range) : HashableSegment :=
  {| hs_type := U64; hs_start1 := r_start1 r; hs_end1 := r_end1 r; hs_start2 := r_start2 r;
     hs_end2 := r_end2 r; hs_mode := r_mode r |}.

Class Hashing := {
  PublicSignKey : Type;
  key_bytes : PublicSignKey -> list Z;
  sha256Base64Sync : list Z -> string;
  serialize_range : Range -> list Z;
  serialize_segment : HashableSegment -> list Z;
}.

(** [PublicSignKey.hashcode] (packages/utils/crypto/src/key.ts). *)
Definition hashcode `{Hashing} (k : PublicSignKey) : string := sha256Base64Sync (key_bytes k).

(** The owner of a new range is given by its hash or by its key; an empty hash
    is falsy and falls through to the key that is not there. *)
Inductive Owner `{Hashing} := publicKeyHash (h : string) | publicKey (k : PublicSignKey).

Definition owner_hash `{Hashing} (o : Owner) : outcome string :=
  match o with
  | publicKeyHash h => if bool_decide (h = ""%string) then Exn "TypeError" else Val h
  | publicKey k => Val (hashcode k)
  end.

(** The constructor's argument; [p_random] is what [randomBytes(32)] returns. *)
Record RangeProps `{Hashing} := MkRangeProps {
  p_id : option (list Z);
  p_random : list Z;
  p_offset : Z;
  p_width : Z;
  p_mode : option ReplicationIntent;
  p_timestamp : option Z;
  p_owner : Owner;
}.

(** The coordinates [transform] computes. *)
Record Coordinates := MkCoordinates {
  c_start1 : Z; c_end1 : Z; c_start2 : Z; c_end2 : Z; c_width : Z
}.

Module U32Range.
Section Methods.
Context `{Hashing}.

Definition transform (offset width : Z) : outcome Coordinates :=
  let ranges := getSegmentsFromOffsetAndRange offset width 0 MAX_U32 in
  let start1 := ranges.1.1 in
  let end1 := ranges.1.2 in
  let start2 := ranges.2.1 in
  let end2 := ranges.2.2 in
  let width := end1 - start1 + (if end2 <? end1 then end2 - start2 else 0) in
  _ ← throw_if ((MAX_U32 <? start1) || (MAX_U32 <? end1) || (MAX_U32 <? start2) ||
                (MAX_U32 <? end2) || (MAX_U32 <? width) || (width <? 0))
        "Segment coordinate out of bounds";
  Val (MkCoordinates start1 end1 start2 end2 width).

Definition new_Range (p : RangeProps) : outcome Range :=
  hash ← owner_hash (p_owner p);
  c ← transform (p_offset p) (p_width p);
  Val {| r_type := U32; r_id := default (p_random p) (p_id p); r_hash := hash;
         r_timestamp := default 0 (p_timestamp p);
         r_start1 := c_start1 c; r_end1 := c_end1 c; r_start2 := c_start2 c; r_end2 := c_end2 c;
         r_width := c_width c; r_mode := default NonStrict (p_mode p) |}.

Definition rangeHash (r : Range) : string := sha256Base64Sync (serialize_range r).

Definition contains (r : Range) (point : Z) : bool :=
  ((r_start1 r <=? point) && (point <? r_end1 r)) ||
  ((r_start2 r <=? point) && (point <? r_end2 r)).

(** [overlaps(other, checkOther)]: the recursion is one call deep. *)
Definition overlaps_ends (r other : Range) : bool :=
  contains r (r_start1 other) || contains r (r_start2 other) ||
  contains r (r_end1 other - 1) || contains r (r_end2 other - 1).

Definition overlaps (r other : Range) (checkOther : bool) : bool :=
  if overlaps_ends r other then true
  else if checkOther then (if overlaps_ends other r then true else false)
  else false.

Definition toReplicationRange (r : Range) : RangeMessage :=
  {| m_type := U32; m_id := r_id r; m_timestamp := r_timestamp r; m_offset := r_start1 r;
     m_factor := r_width r; m_mode := r_mode r |}.

Definition wrapped (r : Range) : bool := r_end2 r <? r_end1 r.

Definition equals (r other : Range) : bool :=
  bool_decide (r_id r = r_id other) && bool_decide (r_hash r = r_hash other) &&
  (r_timestamp r =? r_timestamp other) && bool_decide (r_mode r = r_mode other) &&
  (r_start1 r =? r_start1 other) && (r_end1 r =? r_end1 other) &&
  (r_start2 r =? r_start2 other) && (r_end2 r =? r_end2 other) && (r_width r =? r_width other).

Definition equalRange (r other : Range) : bool :=
  bool_decide (r_hash r = r_hash other) && (r_start1 r =? r_start1 other) &&
  (r_end1 r =? r_end1 other) && (r_start2 r =? r_start2 other) && (r_end2 r =? r_end2 other).

Definition toUniqueSegmentId (r : Range) : string :=
  sha256Base64Sync (serialize_segment (new_HashableSegmentU32 r)).

(** [ReplicationRangeMessageU32]. *)
Definition new_Message (id : list Z) (offset factor timestamp : Z) (mode : ReplicationIntent)
    : RangeMessage :=
  {| m_type := U32; m_id := id; m_timestamp := timestamp; m_offset := offset; m_factor := factor;
     m_mode := mode |}.

Definition toReplicationRangeIndexable (m : RangeMessage) (key : PublicSignKey) : outcome Range :=
  new_Range {| p_id := Some (m_id m); p_random := []; p_offset := m_offset m; p_width := m_factor m;
               p_mode := Some (m_mode m); p_timestamp := Some (m_timestamp m);
               p_owner := publicKeyHash (hashcode key) |}.

End Methods.
End U32Range.

Module U64Range.
Section Methods.
Context `{Hashing}.

(** [BigInt(properties.offset)] is the same integer. *)
Definition transform (offset width : Z) : outcome Coordinates :=
  let ranges := getSegmentsFromOffsetAndRange offset width 0 MAX_U64 in
  let start1 := ranges.1.1 in
  let end1 := ranges.1.2 in
  let start2 := ranges.2.1 in
  let end2 := ranges.2.2 in
  let width := end1 - start1 + (if end2 <? end1 then end2 - start2 else 0) in
  _ ← throw_if ((MAX_U64 <? start1) || (MAX_U64 <? end1) || (MAX_U64 <? start2) ||
                (MAX_U64 <? end2) || (MAX_U64 <? width) || (width <? 0))
        "Segment coordinate out of bounds";
  Val (MkCoordinates start1 end1 start2 end2 width).

Definition new_Range (p : RangeProps) : outcome Range :=
  hash ← owner_hash (p_owner p);
  c ← transform (p_offset p) (p_width p);
  Val {| r_type := U64; r_id := default (p_random p) (p_id p); r_hash := hash;
         r_timestamp := default 0 (p_timestamp p);
         r_start1 := c_start1 c; r_end1 := c_end1 c; r_start2 := c_start2 c; r_end2 := c_end2 c;
         r_width := c_width c; r_mode := default NonStrict (p_mode p) |}.

Definition rangeHash (r : Range) : string := sha256Base64Sync (serialize_range r).

Definition contains (r : Range) (point : Z) : bool :=
  ((r_start1 r <=? point) && (point <? r_end1 r)) ||
  ((r_start2 r <=? point) && (point <? r_end2 r)).

Definition overlaps_ends (r other : Range) : bool :=
  contains r (r_start1 other) || contains r (r_start2 other) ||
  contains r (r_end1 other - 1) || contains r (r_end2 other - 1).

Definition overlaps (r other : Range) (checkOther : bool) : bool :=
  if overlaps_ends r other then true
  else if checkOther then (if overlaps_ends other r then true else false)
  else false.

Definition toReplicationRange (r : Range) : RangeMessage :=
  {| m_type := U64; m_id := r_id r; m_timestamp := r_timestamp r; m_offset := r_start1 r;
     m_factor := r_width r; m_mode := r_mode r |}.

Definition wrapped (r : Range) : bool := r_end2 r <? r_end1 r.

Definition equals (r other : Range) : bool :=
  bool_decide (r_id r = r_id other) && bool_decide (r_hash r = r_hash other) &&
  (r_timestamp r =? r_timestamp other) && bool_decide (r_mode r = r_mode other) &&
  (r_start1 r =? r_start1 other) && (r_end1 r =? r_end1 other) &&
  (r_start2 r =? r_start2 other) && (r_end2 r =? r_end2 other) && (r_width r =? r_width other).

Definition equalRange (r other : Range) : bool :=
  bool_decide (r_hash r = r_hash other) && (r_start1 r =? r_start1 other) &&
  (r_end1 r =? r_end1 other) && (r_start2 r =? r_start2 other) && (r_end2 r =? r_end2 other).

Definition toUniqueSegmentId (r : Range) : string :=
  sha256Base64Sync (serialize_segment (new_HashableSegmentU64 r)).

(** [ReplicationRangeMessageU64]. *)
Definition new_Message (id : list Z) (offset factor timestamp : Z) (mode : ReplicationIntent)
    : RangeMessage :=
  {| m_type := U64; m_id := id; m_timestamp := timestamp; m_offset := offset; m_factor := factor;
     m_mode := mode |}.

Definition toReplicationRangeIndexable (m : RangeMessage) (key : PublicSignKey) : outcome Range :=
  new_Range {| p_id := Some (m_id m); p_random := []; p_offset := m_offset m; p_width := m_factor m;
               p_mode := Some (m_mode m); p_timestamp := Some (m_timestamp m);
               p_owner := publicKeyHash (hashcode key) |}.

End Methods.
End U64Range.

(** ** The methods of either class *)

Section Dispatch.
Context `{Hashing}.

Definition new_Range (t : resolution) (p : RangeProps) : outcome Range :=
  match t with U32 => U32Range.new_Range p | U64 => U64Range.new_Range p end.

Definition contains (r : Range) (point : Z) : bool :=
  match r_type r with U32 => U32Range.contains r point | U64 => U64Range.contains r point end.

Definition overlaps (r other : Range) : bool :=
  match r_type r with
  | U32 => U32Range.overlaps r other true
  | U64 => U64Range.overlaps r other true
  end.

Definition wrapped (r : Range) : bool :=
  match r_type r with U32 => U32Range.wrapped r | U64 => U64Range.wrapped r end.

Definition rangeHash (r : Range) : string :=
  match r_type r with U32 => U32Range.rangeHash r | U64 => U64Range.rangeHash r end.

Definition toReplicationRange (r : Range) : RangeMessage :=
  match r_type r with
  | U32 => U32Range.toReplicationRange r
  | U64 => U64Range.toReplicationRange r
  end.

Definition toReplicationRangeIndexable (m : RangeMessage) (key : PublicSignKey) : outcome Range :=
  match m_type m with
  | U32 => U32Range.toReplicationRangeIndexable m key
  | U64 => U64Range.toReplicationRangeIndexable m key
  end.

End Dispatch.

Definition idString `{JsEnv} (r : Range) : string := toBase64 (r_id r).

Definition isU32Range (r : Range) : bool :=
  match r_type r with U32 => true | U64 => false end.

(** The ring of a resolution. *)
Definition ring (t : resolution) : Z := maxValue (createNumbers t).
