(* ===== verification/RangeFacts.v ===== *)
(** * Facts about replication ranges

    The shape every constructed range has, what it contains, and what a message
    preserves. *)

From Stdlib Require Import ZArith Lia.
From stdpp Require Import base list strings.
From S2P Require Import Prelude JsVal Integers Ranges.

Local Open Scope Z_scope.

Lemma ring_pos t : 1 < ring t.
Proof. apply numbers_max. Qed.

(** One arc, or two that meet at the end of the ring. *)
Inductive shape (r : Range) : Prop :=
| shape_single :
    r_start2 r = r_start1 r -> r_end2 r = r_end1 r ->
    0 <= r_start1 r <= r_end1 r -> r_end1 r <= ring (r_type r) ->
    r_width r = r_end1 r - r_start1 r -> shape r
| shape_wrapped :
    r_end1 r = ring (r_type r) -> r_start2 r = 0 ->
    0 < r_end2 r <= r_start1 r -> r_start1 r < ring (r_type r) ->
    r_width r = ring (r_type r) - r_start1 r + r_end2 r -> shape r.

Lemma containsE `{Hashing} r p :
  contains r p = ((r_start1 r <=? p) && (p <? r_end1 r)) || ((r_start2 r <=? p) && (p <? r_end2 r)).
Proof. unfold contains. by destruct (r_type r). Qed.

Lemma contains_spec `{Hashing} r p :
  contains r p = true <->
  r_start1 r <= p < r_end1 r \/ r_start2 r <= p < r_end2 r.
Proof. rewrite containsE. lia. Qed.

Definition transform (t : resolution) (offset width : Z) : outcome Coordinates :=
  match t with U32 => U32Range.transform offset width | U64 => U64Range.transform offset width end.

Lemma transformE t offset width :
  transform t offset width =
    let ranges := getSegmentsFromOffsetAndRange offset width 0 (ring t) in
    let s1 := ranges.1.1 in let e1 := ranges.1.2 in let s2 := ranges.2.1 in let e2 := ranges.2.2 in
    let w := e1 - s1 + (if e2 <? e1 then e2 - s2 else 0) in
    if (ring t <? s1) || (ring t <? e1) || (ring t <? s2) || (ring t <? e2) || (ring t <? w) || (w <? 0)
    then Exn "Segment coordinate out of bounds" else Val (MkCoordinates s1 e1 s2 e2 w).
Proof.
  destruct t; cbv zeta; unfold transform, U32Range.transform, U64Range.transform, throw_if; cbv zeta;
    change (ring U32) with MAX_U32; change (ring U64) with MAX_U64;
    match goal with |- (if ?b then _ else _) ≫= _ = _ => by destruct b end.
Qed.

(** The two cases of a valid offset and width. *)
Lemma transform_single t offset width :
  0 <= offset -> 0 <= width -> offset + width <= ring t ->
  transform t offset width = Val (MkCoordinates offset (offset + width) offset (offset + width) width).
Proof.
  intros Ho Hw Hs. rewrite transformE. unfold getSegmentsFromOffsetAndRange, min. cbv zeta. cbn [fst snd].
  replace (ring t <? offset + width) with false by lia.
  assert (Hm : (if offset + width <? ring t then offset + width else ring t) = offset + width)
    by (case_if_in_goal; lia).
  rewrite Hm. cbn [fst snd]. rewrite Z.ltb_irrefl.
  replace (offset + width - offset + 0) with width by lia.
  replace (_ || _) with false by lia. done.
Qed.

Lemma transform_wrapped t offset width :
  0 <= offset < ring t -> 0 <= width <= ring t -> ring t < offset + width ->
  transform t offset width =
    Val (MkCoordinates offset (ring t) 0 (offset + width - ring t) width).
Proof.
  intros Ho Hw Hs. rewrite transformE. unfold getSegmentsFromOffsetAndRange, min. cbv zeta. cbn [fst snd].
  replace (ring t <? offset + width) with true by lia.
  replace (offset + width <? ring t) with false by lia. cbn [fst snd].
  assert (Hr : Z.rem (if negb (width =? ring t) then offset + width else offset) (ring t) =
               offset + width - ring t).
  { destruct (Z.eqb_spec width (ring t)) as [->|]; cbn [negb].
    - rewrite Z.rem_small; lia.
    - rewrite Z.rem_mod_nonneg by lia.
      replace (offset + width) with (offset + width - ring t + 1 * ring t) by lia.
      rewrite Z.mod_add by lia. rewrite Z.mod_small; lia. }
  rewrite Hr. replace (offset + width - ring t <? ring t) with true by lia.
  replace (ring t - offset + (offset + width - ring t - 0)) with width by lia.
  replace (_ || _) with false by lia. done.
Qed.

Lemma new_RangeE `{Hashing} t p :
  new_Range t p =
    (hash ← owner_hash (p_owner p);
     c ← transform t (p_offset p) (p_width p);
     Val {| r_type := t; r_id := default (p_random p) (p_id p); r_hash := hash;
            r_timestamp := default 0 (p_timestamp p);
            r_start1 := c_start1 c; r_end1 := c_end1 c; r_start2 := c_start2 c; r_end2 := c_end2 c;
            r_width := c_width c; r_mode := default NonStrict (p_mode p) |}).
Proof. by destruct t. Qed.

(** A valid offset and width give a range of the right shape. *)
Lemma new_Range_shape `{Hashing} t p h :
  owner_hash (p_owner p) = Val h -> 0 <= p_offset p < ring t -> 0 <= p_width p <= ring t ->
  exists r, new_Range t p = Val r /\ shape r /\ r_type r = t /\ r_start1 r = p_offset p /\
    r_width r = p_width p /\ r_hash r = h /\ r_id r = default (p_random p) (p_id p) /\
    r_timestamp r = default 0 (p_timestamp p) /\ r_mode r = default NonStrict (p_mode p).
Proof.
  intros Hh Ho Hw. rewrite new_RangeE, Hh. cbn [mbind outcome_bind].
  destruct (Z_le_gt_dec (p_offset p + p_width p) (ring t)) as [Hs|Hs].
  - rewrite transform_single by lia. eexists. split; [done|]. split_and!; try done.
    apply shape_single; simpl; lia.
  - rewrite transform_wrapped by lia. eexists. split; [done|]. split_and!; try done.
    apply shape_wrapped; simpl; lia.
Qed.

(** Membership on the ring. *)
Lemma shape_contains `{Hashing} r p :
  shape r -> 0 <= p < ring (r_type r) -> r_start1 r < ring (r_type r) ->
  contains r p = true <-> (p - r_start1 r) mod ring (r_type r) < r_width r.
Proof.
  intros Hs Hp Hlt. rewrite contains_spec. pose proof (ring_pos (r_type r)) as Hr.
  assert (H0 : 0 <= r_start1 r) by (destruct Hs; lia).
  destruct (Z_le_gt_dec (r_start1 r) p) as [Hle|Hgt].
  - rewrite Z.mod_small by lia. destruct Hs; lia.
  - assert (Hmod : (p - r_start1 r) mod ring (r_type r) = p - r_start1 r + ring (r_type r)).
    { rewrite <- (Z.mod_add (p - r_start1 r) 1) by lia. rewrite Z.mul_1_l. apply Z.mod_small. lia. }
    rewrite Hmod. destruct Hs; lia.
Qed.

(** The offset and the width determine the coordinates of a shape. *)
Lemma shape_transform r :
  shape r -> (r_start1 r < ring (r_type r) \/ r_width r = 0) ->
  transform (r_type r) (r_start1 r) (r_width r) =
    Val (MkCoordinates (r_start1 r) (r_end1 r) (r_start2 r) (r_end2 r) (r_width r)).
Proof.
  intros Hs Hlt. destruct Hs as [E2 E3 H1 H2 Hw|E1 E2 H1 H2 Hw].
  - rewrite transform_single by lia. rewrite E2, E3. do 2 f_equal; lia.
  - rewrite transform_wrapped by lia. rewrite E1, E2. do 2 f_equal; lia.
Qed.

Section Ranges.
Context `{Hashing}.

(** A range built from an offset and a width covers exactly the arc of that
    width that starts at the offset: the constructor of either class does not
    throw, keeps the width, and [contains] holds for the points at a clockwise
    distance below the width, whether or not the arc runs over the end of the
    ring.  An offset outside the ring makes it throw. *)
Theorem new_range_contains (t : resolution) (p : RangeProps) (h : string) :
  owner_hash (p_owner p) = Val h -> 0 <= p_width p <= ring t ->
  (0 <= p_offset p < ring t ->
   exists r, new_Range t p = Val r /\ shape r /\ r_width r = p_width p /\
     wrapped r = (ring t <? p_offset p + p_width p) /\
     forall point, 0 <= point < ring t ->
       (contains r point = true <-> (point - p_offset p) mod ring t < p_width p)) /\
  (ring t < p_offset p -> new_Range t p = Exn "Segment coordinate out of bounds").
Proof.
  intros Hh Hw. split.
  - intros Ho. destruct (new_Range_shape t p h Hh Ho Hw) as (r & E & Hs & <- & E1 & E2 & _).
    exists r. split; [done|]. split; [done|]. split; [done|]. split.
    + unfold wrapped, U32Range.wrapped, U64Range.wrapped. destruct Hs; destruct (r_type r); lia.
    + intros point Hp. rewrite shape_contains by (done || lia). by rewrite E1, E2.
  - intros Ho. rewrite new_RangeE, Hh. cbn [mbind outcome_bind]. rewrite transformE.
    cbv zeta. unfold getSegmentsFromOffsetAndRange at 1. cbv zeta. cbn [fst snd].
    rewrite (proj2 (Z.ltb_lt _ _) Ho). done.
Qed.

(** A range survives being sent: the message made of a range and turned back
    into a range with its owner's key is the same range, for every range of the
    shape the constructor gives (that starts inside the ring). *)
Theorem message_roundtrip (r : Range) (key : PublicSignKey) :
  shape r -> r_start1 r < ring (r_type r) -> hashcode key = r_hash r -> r_hash r <> ""%string ->
  toReplicationRangeIndexable (toReplicationRange r) key = Val r.
Proof.
  intros Hs Hlt Hk Hne.
  assert (E : toReplicationRangeIndexable (toReplicationRange r) key =
    new_Range (r_type r) {| p_id := Some (r_id r); p_random := []; p_offset := r_start1 r;
      p_width := r_width r; p_mode := Some (r_mode r); p_timestamp := Some (r_timestamp r);
      p_owner := publicKeyHash (hashcode key) |})
    by (unfold toReplicationRangeIndexable, toReplicationRange; by destruct (r_type r)).
  rewrite E, new_RangeE. cbn [p_owner owner_hash p_offset p_width]. rewrite Hk.
  rewrite bool_decide_false by done. cbn [mbind outcome_bind]. rewrite shape_transform by auto.
  by destruct r.
Qed.

Lemma overlaps_ends_point r o :
  shape r -> shape o -> 0 < r_width o ->
  U32Range.overlaps_ends r o = true -> exists p, contains r p = true /\ contains o p = true.
Proof.
  intros Hr Ho Hw. unfold U32Range.overlaps_ends. rewrite !orb_true_iff.
  assert (Hc : forall p, U32Range.contains r p = contains r p) by (intros; by rewrite containsE).
  rewrite !Hc. intros [[[E|E]|E]|E]; eexists; (split; [exact E|]); rewrite contains_spec; destruct Ho; lia.
Qed.

Lemma overlaps_ends_start r o x :
  x = r_start1 o \/ x = r_start2 o -> contains r x = true -> U32Range.overlaps_ends r o = true.
Proof.
  rewrite containsE. unfold U32Range.overlaps_ends, U32Range.contains.
  intros [->| ->] ->; by rewrite ?orb_true_r.
Qed.

Lemma overlapsE r o : overlaps r o = U32Range.overlaps r o true.
Proof. unfold overlaps. by destruct (r_type r). Qed.

(** [overlaps], which only looks at the end points of the two ranges, holds
    exactly when the ranges have a coordinate in common; so it is symmetric. *)
Theorem overlaps_iff_common_point (r o : Range) :
  shape r -> shape o -> 0 < r_width r -> 0 < r_width o ->
  overlaps r o = true <-> exists p, contains r p = true /\ contains o p = true.
Proof.
  intros Hr Ho Hwr Hwo. rewrite overlapsE. unfold U32Range.overlaps. split.
  - case_if_in_goal; [intros _; by apply overlaps_ends_point|].
    case_if_in_goal; [|done]. intros _.
    destruct (overlaps_ends_point o r) as (p & ? & ?); [done..|]. by exists p.
  - intros (p & H1%contains_spec & H2%contains_spec).
    assert (Hor : U32Range.overlaps_ends r o = true \/ U32Range.overlaps_ends o r = true).
    { destruct H1 as [H1|H1], H2 as [H2|H2];
        match type of H1 with ?a <= _ < _ => match type of H2 with ?c <= _ < _ =>
          destruct (Z_le_gt_dec a c);
            [left; apply (overlaps_ends_start r o c)|right; apply (overlaps_ends_start o r a)]
        end end; auto; apply contains_spec; lia. }
    destruct (U32Range.overlaps_ends r o); [done|]. by destruct Hor as [Hor | ->].
Qed.

End Ranges.
