(* ===== verification/RangeAlgebra.v ===== *)
(** * Algebra of replication ranges
    (packages/programs/data/shared-log/src/ranges.ts, part 2)

    Ranges as lists of half open segments: subtraction, merging, the symmetric
    difference of two ranges that cancels out replication changes, and
    [mergeRanges], the single arc that replaces several of one owner. *)

From Stdlib Require Import ZArith Lia.
From stdpp Require Import base list strings sorting.
From S2P Require Import Prelude JsMap JsVal Integers Ranges RangeFacts.

Local Open Scope Z_scope.

Abbreviation Segment := (Z * Z)%type.

Definition toSegmentsBigInt (range : Range) : list Segment :=
  let s1 := r_start1 range in
  let e1 := r_end1 range in
  let s2 := r_start2 range in
  let e2 := r_end2 range in
  [(s1, e1)] ++ (if negb (s2 =? s1) && negb (s2 =? e2) then [(s2, e2)] else []).

Definition toOriginalType (segment : Segment) (templateRange : Range) : Segment :=
  if isU32Range templateRange
  then (Number_of_bigint segment.1, Number_of_bigint segment.2)
  else (segment.1, segment.2).

Definition segment_cmp (a b : Segment) : Z :=
  if a.1 <? b.1 then -1 else if b.1 <? a.1 then 1 else 0.

(** [Object.assign(Object.create(proto), {...templateRange, start1, ...})]. *)
Definition with_segments (templateRange : Range) (a b : Segment) : Range :=
  {| r_type := r_type templateRange; r_id := r_id templateRange; r_hash := r_hash templateRange;
     r_timestamp := r_timestamp templateRange; r_start1 := a.1; r_end1 := a.2; r_start2 := b.1;
     r_end2 := b.2; r_width := r_width templateRange; r_mode := r_mode templateRange |}.

Fixpoint build_loop (segments : list Segment) (templateRange : Range) : list Range :=
  match segments with
  | [] => []
  | [seg1] =>
      [with_segments templateRange (toOriginalType seg1 templateRange) (toOriginalType seg1 templateRange)]
  | seg1 :: seg2 :: rest =>
      with_segments templateRange (toOriginalType seg1 templateRange) (toOriginalType seg2 templateRange)
        :: build_loop rest templateRange
  end.

Definition buildRangesFromBigIntSegments (segments : list Segment) (templateRange : Range) : list Range :=
  build_loop (js_sort segment_cmp segments) templateRange.

Definition subtractBigIntSegment (aStart aEnd bStart bEnd : Z) : list Segment :=
  if (bEnd <=? aStart) || (aEnd <=? bStart) then [(aStart, aEnd)]
  else if (bStart <=? aStart) && (aEnd <=? bEnd) then []
  else (if aStart <? bStart then [(aStart, bStart)] else []) ++
       (if bEnd <? aEnd then [(bEnd, aEnd)] else []).

Fixpoint merge_loop (merged : list Segment) (current : Segment) (segments : list Segment) : list Segment :=
  match segments with
  | [] => merged ++ [current]
  | next :: rest =>
      if next.1 <=? current.2
      then merge_loop merged (current.1, if next.2 <? current.2 then current.2 else next.2) rest
      else merge_loop (merged ++ [current]) next rest
  end.

Definition mergeBigIntSegments (segments : list Segment) : list Segment :=
  if (length segments <? 2)%nat then segments
  else match js_sort segment_cmp segments with
       | [] => []
       | current :: rest => merge_loop [] current rest
       end.

(** The pieces of [segments] that [others] leave, one segment after another. *)
Definition subtract_all (leftover others : list Segment) : list Segment :=
  fold_left (fun leftover b =>
    flat_map (fun a => subtractBigIntSegment a.1 a.2 b.1 b.2) leftover) others leftover.

Definition difference_segments (segments others : list Segment) : list Segment :=
  flat_map (fun a => subtract_all [a] others) segments.

Definition symmetricDifferenceRanges (rangeA rangeB : Range) : list Range * list Range :=
  let segmentsA := toSegmentsBigInt rangeA in
  let segmentsB := toSegmentsBigInt rangeB in
  let resultSegmentsA := difference_segments segmentsA segmentsB in
  let resultSegmentsB := difference_segments segmentsB segmentsA in
  let validSegmentsA := List.filter (fun s => s.1 <? s.2) resultSegmentsA in
  let validSegmentsB := List.filter (fun s => s.1 <? s.2) resultSegmentsB in
  let mergedSegmentsA := mergeBigIntSegments validSegmentsA in
  let mergedSegmentsB := mergeBigIntSegments validSegmentsB in
  (buildRangesFromBigIntSegments mergedSegmentsA rangeA,
   buildRangesFromBigIntSegments mergedSegmentsB rangeB).

(** ** Merging the ranges of one owner *)

(** [Number(x)] of a coordinate of the class. *)
Definition coordinate_Number (t : resolution) (x : Z) : Z :=
  match t with U32 => x | U64 => Number_of_bigint x end.

Definition range_cmp (a b : Range) : Z :=
  if r_start1 a <? r_start1 b then -1 else if r_start1 b <? r_start1 a then 1 else 0.

Definition strictest (a b : ReplicationIntent) : ReplicationIntent :=
  match a, b with NonStrict, NonStrict => NonStrict | _, _ => Strict end.

Section Merge.
Context `{Hashing}.

(** One step of the first [reduce]; [t] is the class of [segments[0]]. *)
Definition merge_step (t : resolution) (acc : list Range) (current : Range) : outcome (list Range) :=
  match last acc with
  | None => Val [current]
  | Some last =>
      if r_start1 current <=? r_end2 last then
        let newEnd2 := if r_end2 current <? r_end2 last then r_end2 last else r_end2 current in
        let extendedWidth := coordinate_Number t (newEnd2 - r_start1 last) in
        mergedArc ← new_Range t {| p_id := Some (r_id last); p_random := []; p_offset := r_start1 last;
          p_width := extendedWidth; p_mode := Some (strictest (r_mode last) (r_mode current));
          p_timestamp := None; p_owner := publicKeyHash (r_hash last) |};
        Val (removelast acc ++ [mergedArc])
      else Val (acc ++ [current])
  end.

(** The gap after arc [i], measured to the next arc of the ring. *)
Definition gap_after (maxValue zero : Z) (arc nextArc : Range) : Z :=
  if r_start1 nextArc <? r_end2 arc
  then maxValue - r_end2 arc + (r_start1 nextArc - zero)
  else r_start1 nextArc - r_end2 arc.

(** The second [reduce]: the largest gap and the index of the arc after it. *)
Fixpoint largest_gap_loop (maxValue zero : Z) (arr : list Range) (i : nat) (rest : list Range)
    (acc : Z * option nat) : Z * option nat :=
  match rest with
  | [] => acc
  | arc :: rest' =>
      let next := ((i + 1) mod length arr)%nat in
      let gap := match arr !! next with Some nextArc => gap_after maxValue zero arc nextArc | None => 0 end in
      largest_gap_loop maxValue zero arr (S i) rest'
        (if acc.1 <? gap then (gap, Some next) else acc)
  end.

Definition mergeRanges (segments : list Range) (zero maxValue : Z) (random : list Z) : outcome Range :=
  match segments with
  | [] => Exn "No segments to merge"
  | [s] => Val s
  | s0 :: _ =>
      if negb (forallb (fun x => bool_decide (r_hash x = r_hash s0)) segments)
      then Exn "Segments have different publicKeyHash"
      else
        let sorted := js_sort range_cmp segments in
        merged ← foldM (merge_step (r_type s0)) [] sorted;
        match merged with
        | [m] => Val m
        | _ =>
            let finalMode :=
              if existsb (fun m => bool_decide (r_mode m = Strict)) merged then Strict else NonStrict in
            let '(largestGap, largestGapIndex) :=
              largest_gap_loop maxValue zero merged 0 merged (zero, None) in
            let totalCoverage := maxValue - largestGap in
            match largestGapIndex ≫= (merged !!.) with
            | None => Exn "TypeError"
            | Some arc =>
                new_Range (r_type s0) {| p_id := None; p_random := random; p_offset := r_start1 arc;
                  p_width := totalCoverage; p_mode := Some finalMode; p_timestamp := None;
                  p_owner := publicKeyHash (r_hash s0) |}
            end
        end
  end.

End Merge.

(** ** Points of segment lists *)

Definition in_seg (p : Z) (s : Segment) : Prop := s.1 <= p < s.2.
Definition in_segs (p : Z) (l : list Segment) : Prop := Exists (in_seg p) l.

(** Sorted by start, every segment nonempty and clear of the next one. *)
Definition separated (l : list Segment) : Prop :=
  Forall (fun s => s.1 < s.2) l /\ StronglySorted (fun a b => a.2 < b.1) l.

Lemma in_segs_nil p : in_segs p [] <-> False.
Proof. apply Exists_nil. Qed.
Lemma in_segs_cons p s l : in_segs p (s :: l) <-> in_seg p s \/ in_segs p l.
Proof. apply Exists_cons. Qed.
Lemma in_segs_app p l k : in_segs p (l ++ k) <-> in_segs p l \/ in_segs p k.
Proof. apply Exists_app. Qed.
Lemma in_segs_perm p l k : l ≡ₚ k -> in_segs p l <-> in_segs p k.
Proof. intros E. unfold in_segs. rewrite !Exists_exists. by setoid_rewrite E. Qed.
Lemma Exists_and p (P : Prop) l : Exists (fun s => in_seg p s /\ P) l <-> in_segs p l /\ P.
Proof.
  induction l as [|s l IH]; [rewrite Exists_nil, in_segs_nil; tauto|].
  rewrite Exists_cons, in_segs_cons, IH. tauto.
Qed.

Create Rewrite HintDb segs.
#[local] Hint Rewrite in_segs_nil in_segs_cons in_segs_app : segs.

(** One subtraction, for segments of any shape, empty ones included. *)
Lemma subtract_points p aStart aEnd bStart bEnd :
  in_segs p (subtractBigIntSegment aStart aEnd bStart bEnd) <->
  aStart <= p < aEnd /\ ~ (bStart <= p < bEnd).
Proof.
  unfold subtractBigIntSegment. case_if_in_goal;
    [|case_if_in_goal; [|case_if_in_goal; case_if_in_goal]];
    autorewrite with segs; unfold in_seg; simpl; lia.
Qed.

Lemma flat_map_points p (f : Segment -> list Segment) (P : Segment -> Prop) l :
  (forall s, in_segs p (f s) <-> in_seg p s /\ P s) ->
  in_segs p (flat_map f l) <-> Exists (fun s => in_seg p s /\ P s) l.
Proof.
  intros Hf. induction l as [|s l IH]; simpl; [by rewrite Exists_nil, in_segs_nil|].
  by rewrite in_segs_app, Exists_cons, Hf, IH.
Qed.

Lemma subtract_all_points p leftover others :
  in_segs p (subtract_all leftover others) <-> in_segs p leftover /\ ~ in_segs p others.
Proof.
  unfold subtract_all. revert leftover. induction others as [|b others IH]; intros leftover; simpl.
  - rewrite in_segs_nil. tauto.
  - rewrite IH, in_segs_cons.
    rewrite (flat_map_points p _ (fun _ => ~ in_seg p b)) by (intros; apply subtract_points).
    rewrite Exists_and. tauto.
Qed.

Lemma difference_points p segments others :
  in_segs p (difference_segments segments others) <-> in_segs p segments /\ ~ in_segs p others.
Proof.
  unfold difference_segments. rewrite (flat_map_points p _ (fun _ => ~ in_segs p others)).
  - apply Exists_and.
  - intros s. rewrite subtract_all_points. unfold in_segs at 1. rewrite Exists_cons, Exists_nil. tauto.
Qed.

Lemma filter_points p l : in_segs p (List.filter (fun s => s.1 <? s.2) l) <-> in_segs p l.
Proof.
  induction l as [|s l IH]; simpl; [done|]. case_if_in_goal; autorewrite with segs; rewrite IH; [done|].
  unfold in_seg. split; [tauto|]. intros [?|?]; [lia|done].
Qed.

#[export] Instance segment_cmp_Comparator : Comparator segment_cmp.
Proof. split; intros; unfold segment_cmp in *; case_ifs_all; lia. Qed.

(** ** Merging segments *)

Lemma merge_loop_points p merged current l :
  StronglySorted (fun a b => segment_cmp a b <= 0) (current :: l) ->
  in_segs p (merge_loop merged current l) <-> in_segs p merged \/ in_seg p current \/ in_segs p l.
Proof.
  revert merged current. induction l as [|next l IH]; intros merged current Hs; simpl.
  { rewrite in_segs_app, in_segs_cons. tauto. }
  apply StronglySorted_inv in Hs as [Hs Hall]. pose proof (Forall_inv Hall) as Hcn.
  apply StronglySorted_inv in Hs as [Hs Hnext]. unfold segment_cmp in Hcn.
  case_if_in_goal; rewrite IH.
  - rewrite in_segs_cons. unfold in_seg. simpl. case_ifs_all; intuition lia.
  - constructor; [done|]. apply Forall_inv_tail in Hall.
    eapply Forall_impl; [exact Hall|]. intros s. unfold segment_cmp. simpl. done.
  - rewrite in_segs_app, !in_segs_cons, in_segs_nil. tauto.
  - by constructor.
Qed.

Lemma merge_points p l : in_segs p (mergeBigIntSegments l) <-> in_segs p l.
Proof.
  unfold mergeBigIntSegments. case_if_in_goal; [done|].
  destruct (js_sort segment_cmp l) as [|current rest] eqn:Es.
  - apply (f_equal length) in Es. rewrite js_sort_length in Es. by destruct l.
  - rewrite merge_loop_points, in_segs_nil.
    + assert (Hp : current :: rest ≡ₚ l) by (rewrite <- Es; apply js_sort_perm).
      pose proof (in_segs_perm p _ _ Hp) as Hl. rewrite in_segs_cons in Hl. tauto.
    + rewrite <- Es. exact (js_sort_sorted segment_cmp l).
Qed.

Lemma merge_loop_separated merged current l :
  separated (merged ++ [current]) -> Forall (fun s => s.1 < s.2) l ->
  StronglySorted (fun a b => segment_cmp a b <= 0) (current :: l) ->
  separated (merge_loop merged current l).
Proof.
  revert merged current. induction l as [|next l IH]; intros merged current Hsep Hl Hs; simpl; [done|].
  apply StronglySorted_inv in Hs as [Hs Hall]. pose proof (Forall_inv Hall) as Hcn.
  apply Forall_cons in Hl as [Hn Hl].
  apply StronglySorted_inv in Hs as [Hs Hnext]. unfold segment_cmp in Hcn.
  destruct Hsep as [Hf Hss]. apply Forall_app in Hf as [Hfm Hfc].
  apply StronglySorted_app in Hss as (Hmc & Hm & _).
  case_if_in_goal; apply IH; try done.
  - split.
    + apply Forall_app. split; [done|]. constructor; [|done]. simpl. apply Forall_inv in Hfc.
      case_ifs_all; lia.
    + apply StronglySorted_app. split; [|split; [done|by repeat constructor]].
      intros a b Ha ->%list_elem_of_singleton. apply (Hmc a current); [done|by left].
  - constructor; [done|]. apply Forall_inv_tail in Hall.
    eapply Forall_impl; [exact Hall|]. intros s. unfold segment_cmp. simpl. done.
  - split.
    + rewrite !Forall_app. split; [done|]. by constructor.
    + apply StronglySorted_app. split; [|split; [|by repeat constructor]].
      * intros a b Ha ->%list_elem_of_singleton. apply elem_of_app in Ha as [Ha|Ha].
        -- assert (a.2 < current.1) by (apply (Hmc a current); [done|by left]).
           case_ifs_all; lia.
        -- apply list_elem_of_singleton in Ha as ->. lia.
      * apply StronglySorted_app. split; [done|]. by repeat constructor.
  - by constructor.
Qed.

Lemma merge_separated l : Forall (fun s => s.1 < s.2) l -> separated (mergeBigIntSegments l).
Proof.
  intros Hl. unfold mergeBigIntSegments. destruct (Nat.ltb_spec (length l) 2) as [Hlen|Hlen].
  - destruct l as [|s [|s' l]]; simpl in Hlen; [|split; [done|by repeat constructor]|lia].
    split; constructor.
  - rewrite <- (js_sort_perm segment_cmp l) in Hl. pose proof (js_sort_sorted segment_cmp l) as Hs.
    destruct (js_sort segment_cmp l) as [|current rest]; [split; constructor|].
    apply Forall_cons in Hl as [Hc Hl]. apply merge_loop_separated; [|done|done].
    split; [by constructor|by repeat constructor].
Qed.

(** [mergeBigIntSegments] keeps every point and adds none, and on nonempty
    segments its result is in order with a gap between any two neighbours:
    overlapping and touching segments have been joined. *)
Theorem merge_segments_correct (l : list Segment) :
  Forall (fun s => s.1 < s.2) l ->
  (forall p, in_segs p (mergeBigIntSegments l) <-> in_segs p l) /\ separated (mergeBigIntSegments l).
Proof. intros Hl. split; [intros p; apply merge_points|by apply merge_separated]. Qed.

(** ** The ranges built from segments *)

Lemma toOriginalType_id (s : Segment) t :
  (r_type t = U32 -> Z.abs s.1 < 2 ^ 53 /\ Z.abs s.2 < 2 ^ 53) -> toOriginalType s t = s.
Proof.
  destruct s as [a b]. unfold toOriginalType, isU32Range. destruct (r_type t); [|done].
  intros Hb. destruct Hb as [Ha Hb]; [done|]. simpl in *. by rewrite !Number_small.
Qed.

Lemma build_loop_points `{Hashing} p t (l : list Segment) :
  Forall (fun s => r_type t = U32 -> Z.abs s.1 < 2 ^ 53 /\ Z.abs s.2 < 2 ^ 53) l ->
  Exists (fun r => contains r p = true) (build_loop l t) <-> in_segs p l.
Proof.
  revert l. fix IH 1. intros [|a [|b l]] Hl; cbn [build_loop].
  - by rewrite Exists_nil, in_segs_nil.
  - rewrite Exists_cons, Exists_nil, in_segs_cons, in_segs_nil, contains_spec.
    apply Forall_inv in Hl. rewrite toOriginalType_id by done. unfold in_seg. simpl. tauto.
  - apply Forall_cons in Hl as [Ha Hl]. apply Forall_cons in Hl as [Hb Hl].
    rewrite Exists_cons, !in_segs_cons, contains_spec, IH by done.
    rewrite !toOriginalType_id by done. unfold in_seg. simpl. tauto.
Qed.

(** ** Symmetric difference *)

(** A segment inside [0, hi]. *)
Definition within (hi : Z) (s : Segment) : Prop := 0 <= s.1 <= s.2 /\ s.2 <= hi.

Lemma subtract_within hi aStart aEnd bStart bEnd :
  within hi (aStart, aEnd) -> Forall (within hi) (subtractBigIntSegment aStart aEnd bStart bEnd).
Proof.
  unfold within, subtractBigIntSegment. simpl. intros Hw.
  case_ifs_all; repeat constructor; simpl; lia.
Qed.

Lemma difference_within hi segments others :
  Forall (within hi) segments -> Forall (within hi) (difference_segments segments others).
Proof.
  assert (Hall : forall leftover, Forall (within hi) leftover -> Forall (within hi) (subtract_all leftover others)).
  { unfold subtract_all. induction others as [|b others IH]; intros leftover Hl; simpl; [done|].
    apply IH. induction Hl as [|[a1 a2] l Ha _ IHl]; simpl; [constructor|].
    apply Forall_app. split; [by apply subtract_within|done]. }
  intros Hs. unfold difference_segments. induction Hs as [|a l Ha _ IHl]; simpl; [constructor|].
  apply Forall_app. split; [|done]. apply Hall. by constructor.
Qed.

Lemma filter_within hi (f : Segment -> bool) l : Forall (within hi) l -> Forall (within hi) (List.filter f l).
Proof. induction 1; simpl; [constructor|]. destruct (f _); [by constructor|done]. Qed.

Lemma merge_within hi l : Forall (within hi) l -> Forall (within hi) (mergeBigIntSegments l).
Proof.
  assert (Hloop : forall k merged current, Forall (within hi) merged -> within hi current ->
    Forall (within hi) k -> Forall (within hi) (merge_loop merged current k)).
  { induction k as [|next k IH]; intros merged current Hm Hc Hk; simpl.
    - apply Forall_app. split; [done|by constructor].
    - apply Forall_cons in Hk as [Hn Hk]. case_if_in_goal; apply IH; try done.
      + unfold within in *. simpl. case_ifs_all; lia.
      + apply Forall_app. split; [done|by constructor]. }
  intros Hl. unfold mergeBigIntSegments. case_if_in_goal; [done|].
  rewrite <- (js_sort_perm segment_cmp l) in Hl. destruct (js_sort segment_cmp l); [constructor|].
  apply Forall_cons in Hl as [Ha Hl]. by apply Hloop.
Qed.

(** What the cuts of a range keep: two arcs inside the ring, the second of which
    is the first one again when both start at the same point. *)
Record cut_ok (r : Range) : Prop := {
  cut_first : within (ring (r_type r)) (r_start1 r, r_end1 r);
  cut_second : within (ring (r_type r)) (r_start2 r, r_end2 r);
  cut_same : r_start2 r = r_start1 r -> r_end2 r = r_end1 r;
}.

Lemma shape_cut_ok r : shape r -> cut_ok r.
Proof. intros Hs. split; unfold within; simpl; destruct Hs; lia. Qed.

Lemma cut_segments `{Hashing} r p : cut_ok r -> in_segs p (toSegmentsBigInt r) <-> contains r p = true.
Proof.
  intros [H1 H2 H3]. unfold within in *. simpl in *.
  rewrite contains_spec. unfold toSegmentsBigInt. rewrite in_segs_app, in_segs_cons, in_segs_nil.
  case_if_in_goal; rewrite ?in_segs_cons, ?in_segs_nil; unfold in_seg; simpl; [tauto|].
  apply andb_false_iff in E as [E%negb_false_iff|E%negb_false_iff]; apply Z.eqb_eq in E; [specialize (H3 E)|]; lia.
Qed.

Lemma cut_within r : cut_ok r -> Forall (within (ring (r_type r))) (toSegmentsBigInt r).
Proof.
  intros [H1 H2 _]. unfold toSegmentsBigInt. apply Forall_app. split; [by constructor|].
  case_if_in_goal; [by constructor|done].
Qed.

Lemma within_exact t (s : Segment) :
  within (ring (r_type t)) s -> r_type t = U32 -> Z.abs s.1 < 2 ^ 53 /\ Z.abs s.2 < 2 ^ 53.
Proof. unfold within. intros Hw E. rewrite E in Hw. change (ring U32) with 4294967295 in Hw. lia. Qed.

Lemma build_loop_meta t l :
  Forall (fun r => r_type r = r_type t /\ r_id r = r_id t /\ r_hash r = r_hash t /\
                   r_timestamp r = r_timestamp t /\ r_mode r = r_mode t) (build_loop l t).
Proof.
  revert l. fix IH 1. intros [|a [|b l]]; cbn [build_loop].
  - constructor.
  - by repeat constructor.
  - constructor; [done|apply IH].
Qed.

(** The side of one of the two ranges. *)
Lemma difference_side `{Hashing} (a b : Range) :
  cut_ok a -> cut_ok b ->
  let d := buildRangesFromBigIntSegments (mergeBigIntSegments (List.filter (fun s => s.1 <? s.2)
             (difference_segments (toSegmentsBigInt a) (toSegmentsBigInt b)))) a in
  forall p, Exists (fun r => contains r p = true) d <-> contains a p = true /\ contains b p = false.
Proof.
  intros Ha Hb d p. subst d. unfold buildRangesFromBigIntSegments. rewrite build_loop_points.
  - rewrite (in_segs_perm p _ _ (js_sort_perm segment_cmp _)), merge_points, filter_points, difference_points.
    rewrite !cut_segments by done. by rewrite not_true_iff_false.
  - rewrite (js_sort_perm segment_cmp _). apply (Forall_impl (within (ring (r_type a)))); [|intros s; apply within_exact].
    by apply merge_within, filter_within, difference_within, cut_within.
Qed.

(** The cuts of a range can be cut again. *)
Lemma separated_starts l : separated l -> NoDup (map fst l).
Proof.
  intros [Hl Hs]. induction l as [|a l IH]; simpl; [constructor|].
  apply StronglySorted_inv in Hs as [Hs Ha]. apply Forall_cons in Hl as [Haa Hl].
  constructor; [|by apply IH]. intros (b & Hab & Hb)%list_elem_of_fmap.
  rewrite Forall_forall in Ha, Hl. specialize (Ha b Hb). specialize (Hl b Hb). lia.
Qed.

Lemma build_loop_cut t l :
  Forall (within (ring (r_type t))) l -> NoDup (map fst l) -> Forall cut_ok (build_loop l t).
Proof.
  revert l. fix IH 1. intros [|a [|b l]] Hl Hnd; cbn [build_loop].
  - constructor.
  - apply Forall_inv in Hl. constructor; [|constructor].
    by split; cbn [with_segments r_start1 r_end1 r_start2 r_end2 r_type];
      rewrite ?toOriginalType_id by (by apply within_exact); destruct a.
  - apply Forall_cons in Hl as [Ha Hl]. apply Forall_cons in Hl as [Hb Hl].
    cbn [map] in Hnd. apply NoDup_cons in Hnd as [Hab Hnd]. apply NoDup_cons in Hnd as [_ Hnd].
    constructor; [|by apply IH].
    split; cbn [with_segments r_start1 r_end1 r_start2 r_end2 r_type];
      rewrite ?toOriginalType_id by (by apply within_exact); [by destruct a|by destruct b|].
    intros E. exfalso. apply Hab. rewrite <- E. by left.
Qed.

Lemma difference_cut `{Hashing} (a b : Range) :
  cut_ok a ->
  Forall cut_ok (buildRangesFromBigIntSegments (mergeBigIntSegments (List.filter (fun s => s.1 <? s.2)
    (difference_segments (toSegmentsBigInt a) (toSegmentsBigInt b)))) a).
Proof.
  intros Ha. unfold buildRangesFromBigIntSegments. apply build_loop_cut.
  - rewrite (js_sort_perm segment_cmp _). by apply merge_within, filter_within, difference_within, cut_within.
  - rewrite (js_sort_perm segment_cmp _). apply separated_starts, merge_separated.
    apply Forall_forall. intros s Hs. apply list_elem_of_In, filter_In in Hs. lia.
Qed.

(** [symmetricDifferenceRanges]: the ranges it returns for [rangeA] cover
    exactly the points of A that are not in B, those for [rangeB] the points of B
    not in A, wrapped or not, with the numbers of either class; and they carry
    the identity, owner, time and mode of the range they are cut from. *)
Theorem symmetric_difference_correct `{Hashing} (rangeA rangeB : Range) :
  shape rangeA -> shape rangeB ->
  let '(fromA, fromB) := symmetricDifferenceRanges rangeA rangeB in
  (forall p, Exists (fun r => contains r p = true) fromA <->
             contains rangeA p = true /\ contains rangeB p = false) /\
  (forall p, Exists (fun r => contains r p = true) fromB <->
             contains rangeB p = true /\ contains rangeA p = false) /\
  Forall (fun r => r_type r = r_type rangeA /\ r_id r = r_id rangeA /\ r_hash r = r_hash rangeA /\
                   r_timestamp r = r_timestamp rangeA /\ r_mode r = r_mode rangeA) fromA.
Proof.
  intros Ha Hb. unfold symmetricDifferenceRanges. split; [|split].
  - by apply difference_side; apply shape_cut_ok.
  - by apply difference_side; apply shape_cut_ok.
  - apply build_loop_meta.
Qed.
