(* ===== verification/JsFloat.v ===== *)
(** * JavaScript numbers that are not integers

    Where the code computes with fractions, a number is an IEEE 754 double of the
    Standard Library's [SpecFloat]: 53 bits of precision, rounding to nearest with
    ties to even, infinities, signed zeros and NaN.  Decimal literals are
    quotients of integers that are exact, so that the division rounds them as a
    parser does. *)

From Stdlib Require Import ZArith Lia SpecFloat.
From stdpp Require Import base strings.
From S2P Require Import Prelude.

Local Open Scope Z_scope.

Abbreviation number := spec_float.

Definition of_Z (z : Z) : number := binary_normalize 53 1024 z 0 false.

(** The literal [a / 10^k]. *)
Definition decimal (a : Z) (k : nat) : number := SFdiv 53 1024 (of_Z a) (of_Z (10 ^ Z.of_nat k)).

Definition add_n : number -> number -> number := SFadd 53 1024.
Definition sub_n : number -> number -> number := SFsub 53 1024.
Definition mul_n : number -> number -> number := SFmul 53 1024.
Definition div_n : number -> number -> number := SFdiv 53 1024.
Definition sqrt_n : number -> number := SFsqrt 53 1024.

Declare Scope number_scope.
Delimit Scope number_scope with n.
Infix "+" := add_n : number_scope.
Infix "-" := sub_n : number_scope.
Infix "*" := mul_n : number_scope.
Infix "/" := div_n : number_scope.

(** [<], [<=] and [===]: false when one side is NaN. *)
Definition lt_n (a b : number) : bool := SFltb a b.
Definition le_n (a b : number) : bool := SFleb a b.
Definition eq_n (a b : number) : bool := SFeqb a b.
Infix "<?" := lt_n : number_scope.
Infix "<=?" := le_n : number_scope.

Definition is_nan (a : number) : bool := match a with S754_nan => true | _ => false end.

(** [Math.abs], [Math.max] and [Math.min]; of the zeros, the positive one is the
    larger. *)
Definition Math_abs (a : number) : number := SFabs a.

Definition Math_max (a b : number) : number :=
  if is_nan a || is_nan b then S754_nan
  else match a, b with
       | S754_zero s, S754_zero t => S754_zero (s && t)
       | _, _ => if lt_n a b then b else a
       end.

Definition Math_min (a b : number) : number :=
  if is_nan a || is_nan b then S754_nan
  else match a, b with
       | S754_zero s, S754_zero t => S754_zero (s || t)
       | _, _ => if lt_n b a then b else a
       end.

(** [x || 0] and the truth value of a number. *)
Definition truthy_n (a : number) : bool := match a with S754_zero _ | S754_nan => false | _ => true end.

(** The integral part: the greatest integer below, of a finite number. *)
Definition signed (s : bool) (m : positive) : Z := if s then Zneg m else Zpos m.

Definition floor_z (a : number) : option Z :=
  match a with
  | S754_zero _ => Some 0
  | S754_finite s m e => Some (Z.shiftl (signed s m) e)
  | _ => None
  end.

(** [Math.round]: the nearest integer, the larger of two; it keeps the sign of a
    negative number that rounds to zero. *)
Definition round_z (s : bool) (m : positive) (e : Z) : Z := Z.shiftr (Z.shiftl (signed s m) (e + 1) + 1) 1.

Definition Math_round (a : number) : number :=
  match a with
  | S754_finite s m e =>
      match round_z s m e with
      | 0 => S754_zero s
      | z => of_Z z
      end
  | _ => a
  end.

(** [BigInt(a)]: a [RangeError] unless the number is an integer. *)
Definition BigInt (a : number) : outcome Z :=
  match a with
  | S754_zero _ => Val 0
  | S754_finite s m e => if Z.shiftl (Z.shiftl (signed s m) e) (- e) =? signed s m then Val (Z.shiftl (signed s m) e) else Exn "RangeError"
  | _ => Exn "RangeError"
  end.

(** ** Facts *)

Definition in_unit (a : number) : Prop := le_n (of_Z 0) a = true /\ le_n a (of_Z 1) = true.

(** What a clamp leaves, whatever goes in. *)
Lemma clamp_unit (a : number) :
  let c := Math_max (Math_min a (of_Z 1)) (of_Z 0) in c = S754_nan /\ a = S754_nan \/ in_unit c.
Proof.
  unfold in_unit. change (of_Z 1) with (S754_finite false 4503599627370496 (-52)). change (of_Z 0) with (S754_zero false).
  destruct a as [s|s| |s m e]; try (right; split; by destruct s); [by left|]. right.
  unfold Math_min. cbn [is_nan orb]. unfold lt_n, SFltb.
  destruct (SFcompare (S754_finite false 4503599627370496 (-52)) (S754_finite s m e)) as [c|] eqn:Ec; [|by destruct s].
  destruct c; destruct s; try done; try (by split); change (Math_max _ _) with (S754_finite false m e); (split; [done|]);
    unfold le_n, SFleb; cbn [SFcompare] in *; rewrite (Z.compare_antisym (-52) e); revert Ec; destruct (-52 ?= e); intros Ec; try done;
    injection Ec as Ec; cbn [CompOpp]; pose proof (Pos.compare_cont_antisym 4503599627370496 m Eq) as Ha;
    change (CompOpp Eq) with Eq in Ha; by rewrite <- Ha, Ec.
Qed.

(** ** Integers in doubles

    Sums, differences and rounding of integers below [2^53] are exact, which is
    why the rest of the library writes them as [Z]. *)

Lemma digits_log2 p : Zpos (digits2_pos p) = Z.log2 (Zpos p) + 1.
Proof.
  assert (E : forall p, digits2_pos p = Pos.size p) by (intros q; induction q; simpl; congruence).
  rewrite E. destruct p as [p|p|]; simpl; lia.
Qed.

Lemma digits_shift z j : 0 < z -> 0 <= j -> forall m, Zpos m = z * 2 ^ j -> Zpos (digits2_pos m) = Z.log2 z + 1 + j.
Proof. intros Hz Hj m E. rewrite digits_log2, E, Z.log2_mul_pow2 by lia. lia. Qed.

Lemma shr_1_even m : 0 < m -> shr_1 (Build_shr_record (m * 2) false false) = Build_shr_record m false false.
Proof. intros Hm. destruct m as [|p|p]; try lia. by rewrite Z.mul_comm. Qed.

Lemma shr_exact n m : 0 < m -> SpecFloat.iter_pos shr_1 n (Build_shr_record (m * 2 ^ Zpos n) false false) = Build_shr_record m false false.
Proof.
  revert m. induction n as [n IH|n IH|]; intros m Hm; cbn [SpecFloat.iter_pos].
  - replace (m * 2 ^ Zpos n~1) with (m * 2 ^ Zpos n * 2 ^ Zpos n * 2).
    + rewrite shr_1_even by (apply Z.mul_pos_pos; [apply Z.mul_pos_pos; [done|]|]; lia). rewrite IH by (apply Z.mul_pos_pos; lia). by apply IH.
    + replace (Zpos n~1) with (Zpos n + Zpos n + 1) by lia. rewrite !Z.pow_add_r by lia. lia.
  - replace (m * 2 ^ Zpos n~0) with (m * 2 ^ Zpos n * 2 ^ Zpos n).
    + rewrite IH by (apply Z.mul_pos_pos; lia). by apply IH.
    + replace (Zpos n~0) with (Zpos n + Zpos n) by lia. rewrite Z.pow_add_r by lia. lia.
  - by apply shr_1_even.
Qed.

(** The double of a positive integer up to [2^53]. *)
Definition mantissa_of (z : Z) : Z := if z =? 2 ^ 53 then 2 ^ 52 else z * 2 ^ (52 - Z.log2 z).
Definition double_of (s : bool) (z : Z) : number := S754_finite s (Z.to_pos (mantissa_of z)) (Z.log2 z - 52).

Lemma small_log2 z : 0 < z <= 2 ^ 53 -> 0 <= Z.log2 z <= 53 /\ (z <> 2 ^ 53 -> Z.log2 z <= 52).
Proof.
  intros Hz. pose proof (Z.log2_nonneg z). split; [split; [done|]|].
  - rewrite <- (Z.log2_pow2 53) by lia. apply Z.log2_le_mono. lia.
  - intros Hne. apply Z.lt_succ_r. change (Z.succ 52) with 53. apply Z.log2_lt_pow2; lia.
Qed.

Lemma mantissa_pos z : 0 < z <= 2 ^ 53 -> 0 < mantissa_of z.
Proof.
  intros Hz. unfold mantissa_of. destruct (Z.eqb_spec z (2 ^ 53)); [done|]. pose proof (small_log2 z Hz) as [_ Hl].
  apply Z.mul_pos_pos; [lia|]. apply Z.pow_pos_nonneg; [lia|]. specialize (Hl n). lia.
Qed.

Lemma mantissa_digits z : 0 < z <= 2 ^ 53 -> Z.log2 (mantissa_of z) = 52.
Proof.
  intros Hz. unfold mantissa_of. destruct (Z.eqb_spec z (2 ^ 53)); [done|]. pose proof (small_log2 z Hz) as [_ Hl]. specialize (Hl n).
  rewrite Z.log2_mul_pow2 by lia. lia.
Qed.

Lemma fexp_small e : -1021 <= e -> fexp 53 1024 e = e - 53.
Proof. unfold fexp, emin. lia. Qed.

Lemma shr_fexp_fixed m e : 0 < m -> Z.log2 m = 52 -> -1074 <= e ->
  shr_fexp 53 1024 m e loc_Exact = (Build_shr_record m false false, e).
Proof.
  intros Hm Hd He. unfold shr_fexp. destruct m as [|m|m]; try lia. cbn [Zdigits2]. rewrite digits_log2, Hd.
  rewrite fexp_small by lia. replace (52 + 1 + e - 53 - e) with 0 by lia. done.
Qed.

Lemma shr_fexp_exact z j m : 0 < z <= 2 ^ 53 -> 0 <= j <= 1000 -> Zpos m = z * 2 ^ j -> 0 <= Z.log2 z - 52 + j ->
  shr_fexp 53 1024 (Zpos m) (- j) loc_Exact = (Build_shr_record (mantissa_of z) false false, Z.log2 z - 52).
Proof.
  intros Hz Hj Em Hn. unfold shr_fexp. cbn [Zdigits2 shr_record_of_loc]. pose proof (small_log2 z Hz) as [Hl Hl'].
  rewrite (digits_shift z j) by (lia || done). rewrite fexp_small by lia.
  replace (Z.log2 z + 1 + j + - j - 53 - - j) with (Z.log2 z - 52 + j) by lia.
  assert (E : Zpos m = mantissa_of z * 2 ^ (Z.log2 z - 52 + j)).
  { rewrite Em. unfold mantissa_of. destruct (Z.eqb_spec z (2 ^ 53)) as [->|Hne].
    - rewrite <- !Z.pow_add_r by (rewrite ?Z.log2_pow2 by lia; lia). f_equal. rewrite Z.log2_pow2 by lia. lia.
    - specialize (Hl' Hne). rewrite <- Z.mul_assoc, <- Z.pow_add_r by lia. do 2 f_equal. lia. }
  rewrite E. unfold shr. destruct (Z.log2 z - 52 + j) as [|p|p] eqn:En; [|rewrite shr_exact by (by apply mantissa_pos)|lia].
  - rewrite Z.mul_1_r. f_equal. lia.
  - f_equal. lia.
Qed.

Lemma round_aux_exact s z j m : 0 < z <= 2 ^ 53 -> 0 <= j <= 1000 -> Zpos m = z * 2 ^ j -> 0 <= Z.log2 z - 52 + j ->
  binary_round_aux 53 1024 s (Zpos m) (- j) loc_Exact = double_of s z.
Proof.
  intros Hz Hj Em Hn. unfold binary_round_aux. rewrite (shr_fexp_exact z j m Hz Hj Em Hn).
  cbn [shr_m loc_of_shr_record round_nearest_even]. pose proof (small_log2 z Hz) as [Hl _].
  rewrite shr_fexp_fixed; [|by apply mantissa_pos|by apply mantissa_digits|lia]. cbn [shr_m]. unfold double_of.
  pose proof (mantissa_pos z Hz). destruct (mantissa_of z) as [|p|p]; try lia.
  rewrite (proj2 (Z.leb_le _ _)) by lia. done.
Qed.

Lemma iter_xO d m : Zpos (Pos.iter xO m d) = Zpos m * 2 ^ Zpos d.
Proof.
  induction d as [|d IH] using Pos.peano_ind; [simpl; lia|]. rewrite Pos.iter_succ.
  change (Zpos (Pos.iter xO m d)~0) with (2 * Zpos (Pos.iter xO m d)). rewrite IH, Pos2Z.inj_succ, Z.pow_succ_r by lia. lia.
Qed.

Lemma round_exact s z j m : 0 < z <= 2 ^ 53 -> 0 <= j <= 1000 -> Zpos m = z * 2 ^ j ->
  binary_round 53 1024 s m (- j) = double_of s z.
Proof.
  intros Hz Hj Em. unfold binary_round, shl_align. pose proof (small_log2 z Hz) as [Hl Hl'].
  rewrite (digits_shift z j) by (lia || done). rewrite fexp_small by lia.
  replace (Z.log2 z + 1 + j + - j - 53 - - j) with (Z.log2 z - 52 + j) by lia.
  destruct (Z.log2 z - 52 + j) as [|p|p] eqn:En; [apply round_aux_exact; (done || lia)..|].
  assert (Hne : z <> 2 ^ 53) by (intros ->; rewrite Z.log2_pow2 in En by lia; lia). specialize (Hl' Hne).
  replace (Z.log2 z + 1 + j + - j - 53) with (- (52 - Z.log2 z)) by lia.
  apply round_aux_exact; [done|lia| |lia].
  rewrite iter_xO, Em, <- Z.mul_assoc, <- Z.pow_add_r by lia. do 2 f_equal. lia.
Qed.

Definition small (z : Z) : Prop := Z.abs z < 2 ^ 53.

Lemma of_Z_pos z : 0 < z <= 2 ^ 53 -> of_Z z = double_of false z.
Proof.
  intros Hz. unfold of_Z. destruct z as [|p|p]; try lia. cbn [binary_normalize].
  change 0 with (- 0) at 1. apply round_exact; [done|lia|]. lia.
Qed.

Lemma of_Z_neg z : 0 < z <= 2 ^ 53 -> of_Z (- z) = double_of true z.
Proof.
  intros Hz. unfold of_Z. destruct z as [|p|p]; try lia. cbn [Z.opp binary_normalize].
  change 0 with (- 0) at 1. apply round_exact; [done|lia|]. lia.
Qed.

(** A scaled integer is normalised to the integer. *)
Lemma normalize_exact z j : Z.abs z <= 2 ^ 53 -> 0 <= j <= 1000 -> binary_normalize 53 1024 (z * 2 ^ j) (- j) false = of_Z z.
Proof.
  intros Hz Hj. pose proof (Z.pow_pos_nonneg 2 j ltac:(lia) ltac:(lia)) as Hp.
  destruct (Z_dec' z 0) as [[Hlt|Hgt]| ->]; [| |done].
  - assert (Hm : z * 2 ^ j < 0) by nia. destruct (z * 2 ^ j) as [|m|m] eqn:Em; try lia. cbn [binary_normalize].
    rewrite (round_exact true (- z) j m) by lia. symmetry. rewrite <- (Z.opp_involutive z) at 1. apply of_Z_neg. lia.
  - assert (Hm : 0 < z * 2 ^ j) by nia. destruct (z * 2 ^ j) as [|m|m] eqn:Em; try lia. cbn [binary_normalize].
    rewrite (round_exact false z j m) by lia. symmetry. apply of_Z_pos. lia.
Qed.

(** A small integer other than zero, as the operations see it. *)
Lemma small_double z : small z -> z <> 0 ->
  exists s m e, of_Z z = S754_finite s m e /\ -52 <= e <= 0 /\ signed s m = z * 2 ^ (- e).
Proof.
  unfold small. intros Hz Hne. set (a := Z.abs z). assert (Ha : 0 < a <= 2 ^ 53) by lia.
  pose proof (small_log2 a Ha) as [Hl Hl']. specialize (Hl' ltac:(lia)). pose proof (mantissa_pos a Ha) as Hm.
  exists (z <? 0), (Z.to_pos (mantissa_of a)), (Z.log2 a - 52).
  assert (Em : Zpos (Z.to_pos (mantissa_of a)) = a * 2 ^ (- (Z.log2 a - 52))).
  { rewrite Z2Pos.id by done. unfold mantissa_of. destruct (Z.eqb_spec a (2 ^ 53)); [lia|]. do 2 f_equal. lia. }
  split; [|split; [lia|]].
  - destruct (Z.ltb_spec z 0).
    + rewrite <- (Z.opp_involutive z). rewrite of_Z_neg by lia. unfold double_of. by replace (- z) with a by lia.
    + rewrite of_Z_pos by lia. unfold double_of. by replace z with a by lia.
  - unfold signed. destruct (Z.ltb_spec z 0).
    + change (Zneg (Z.to_pos (mantissa_of a))) with (- Zpos (Z.to_pos (mantissa_of a))). rewrite Em. replace a with (- z) by lia. lia.
    + rewrite Em. by replace a with z by lia.
Qed.

Lemma aligned s m e ez z : -52 <= ez <= e -> e <= 0 -> signed s m = z * 2 ^ (- e) ->
  cond_Zopp s (Zpos (fst (shl_align m e ez))) = z * 2 ^ (- ez).
Proof.
  intros Hez He E. assert (Es : cond_Zopp s (Zpos (fst (shl_align m e ez))) = signed s m * 2 ^ (e - ez)).
  { unfold shl_align. destruct (ez - e) as [|p|p] eqn:Ed; [|lia|]; cbn [fst].
    - replace (e - ez) with 0 by lia. rewrite Z.mul_1_r. by destruct s.
    - rewrite iter_xO. replace (e - ez) with (Zpos p) by lia.
      destruct s; cbn [cond_Zopp signed]; [|done]. change (Zneg m) with (- Zpos m). lia. }
  rewrite Es, E, <- Z.mul_assoc, <- Z.pow_add_r by lia. do 2 f_equal. lia.
Qed.

Lemma add_exact a b : small a -> small b -> Z.abs (a + b) <= 2 ^ 53 -> (of_Z a + of_Z b)%n = of_Z (a + b).
Proof.
  intros Ha Hb Hab. destruct (Z.eq_dec a 0) as [->|Hna].
  { destruct (Z.eq_dec b 0) as [->|Hnb]; [done|]. destruct (small_double b Hb Hnb) as (s & m & e & E & _). rewrite Z.add_0_l, E. done. }
  destruct (small_double a Ha Hna) as (sa & ma & ea & Ea & Hea & Va). destruct (Z.eq_dec b 0) as [->|Hnb]; [by rewrite Z.add_0_r, Ea|].
  destruct (small_double b Hb Hnb) as (sb & mb & eb & Eb & Heb & Vb). rewrite Ea, Eb. unfold add_n. cbn [SFadd].
  rewrite (aligned sa ma ea _ a), (aligned sb mb eb _ b) by (lia || done). rewrite <- Z.mul_add_distr_r.
  rewrite <- (Z.opp_involutive (Z.min ea eb)) at 2. apply normalize_exact; lia.
Qed.

Lemma sub_exact a b : small a -> small b -> Z.abs (a - b) <= 2 ^ 53 -> (of_Z a - of_Z b)%n = of_Z (a - b).
Proof.
  intros Ha Hb Hab. destruct (Z.eq_dec b 0) as [->|Hnb].
  { rewrite Z.sub_0_r. destruct (Z.eq_dec a 0) as [->|Hna]; [done|]. by destruct (small_double a Ha Hna) as (s & m & e & -> & _). }
  destruct (small_double b Hb Hnb) as (sb & mb & eb & Eb & Heb & Vb). destruct (Z.eq_dec a 0) as [->|Hna].
  { destruct (small_double (- b)) as (s & m & e & E & He & V); [unfold small in *; lia|lia|].
    assert (Ez : of_Z 0 = S754_zero false) by done. rewrite Ez, Eb. unfold sub_n. cbn [SFsub].
    rewrite Z.sub_0_l. unfold small in *. destruct (Z_lt_le_dec b 0) as [Hlt|Hge].
    - rewrite (of_Z_pos (- b)) by lia. rewrite <- (Z.opp_involutive b), of_Z_neg in Eb by lia. unfold double_of in *. by injection Eb as <- <- <-.
    - rewrite (of_Z_neg b) by lia. rewrite of_Z_pos in Eb by lia. unfold double_of in *. by injection Eb as <- <- <-. }
  destruct (small_double a Ha Hna) as (sa & ma & ea & Ea & Hea & Va). rewrite Ea, Eb. unfold sub_n. cbn [SFsub].
  rewrite (aligned sa ma ea _ a), (aligned sb mb eb _ b) by (lia || done). rewrite <- Z.mul_sub_distr_r.
  rewrite <- (Z.opp_involutive (Z.min ea eb)) at 2. apply normalize_exact; lia.
Qed.

Lemma round_of_int z : small z -> Math_round (of_Z z) = of_Z z.
Proof.
  intros Hz. destruct (Z.eq_dec z 0) as [->|Hne]; [done|]. destruct (small_double z Hz Hne) as (s & m & e & E & He & V).
  rewrite E. cbn [Math_round]. assert (Er : round_z s m e = z).
  { unfold round_z. rewrite V. assert (Hsh : Z.shiftl (z * 2 ^ (- e)) (e + 1) = 2 * z).
    - destruct (Z.eq_dec e 0) as [->|Hn0]; [cbn [Z.opp]; rewrite Z.shiftl_mul_pow2 by lia; simpl; lia|].
      replace (e + 1) with (- (- e - 1)) by lia. rewrite Z.shiftl_opp_r, Z.shiftr_div_pow2 by lia.
      replace (- e) with (1 + (- e - 1)) at 1 by lia. rewrite Z.pow_add_r by lia. rewrite Z.mul_assoc, Z.div_mul by (apply Z.pow_nonzero; lia). lia.
    - rewrite Hsh. rewrite Z.shiftr_div_pow2 by lia. change (2 ^ 1) with 2. rewrite Z.add_comm, Z.mul_comm, Z.div_add by lia. done. }
  rewrite Er. destruct z; [lia|done|done].
Qed.

Lemma small_mantissa z s m e : small z -> z <> 0 -> of_Z z = S754_finite s m e -> -52 <= e <= 0 -> signed s m = z * 2 ^ (- e) ->
  s = (z <? 0) /\ Zpos m = Z.abs z * 2 ^ (- e) /\ double_of s (Z.abs z) = of_Z z /\ Z.log2 (Z.abs z) = 52 + e.
Proof.
  unfold small. intros Hz Hne E He V. pose proof (Z.pow_pos_nonneg 2 (- e) ltac:(lia) ltac:(lia)) as Hp.
  assert (Es : s = (z <? 0)) by (destruct s; cbn [signed] in V; destruct (Z.ltb_spec z 0); nia).
  assert (Ed : double_of s (Z.abs z) = of_Z z).
  { subst s. destruct (Z.ltb_spec z 0).
    - rewrite <- (Z.opp_involutive z) at 2. rewrite of_Z_neg by lia. by rewrite Z.abs_neq by lia.
    - rewrite of_Z_pos by lia. by rewrite Z.abs_eq by lia. }
  split; [done|]. split; [|split; [done|]].
  - subst s. destruct (Z.ltb_spec z 0); cbn [signed] in V; nia.
  - rewrite E in Ed. unfold double_of in Ed. injection Ed as _ Ed. lia.
Qed.

Lemma mul_one a : small a -> (of_Z a * of_Z 1)%n = of_Z a.
Proof.
  intros Ha. destruct (Z.eq_dec a 0) as [->|Hne]; [done|]. destruct (small_double a Ha Hne) as (s & m & e & E & He & V).
  destruct (small_mantissa a s m e Ha Hne E He V) as (_ & Em & Ed & El). rewrite <- Ed at 2. rewrite E.
  change (of_Z 1) with (S754_finite false 4503599627370496 (-52)). unfold mul_n. cbn [SFmul]. rewrite xorb_false_r.
  replace (e + -52) with (- (52 - e)) by lia. unfold small in Ha. apply round_aux_exact; [lia|lia| |lia].
  rewrite Pos2Z.inj_mul, Em, <- Z.mul_assoc. f_equal. replace (52 - e) with (- e + 52) by lia. by rewrite Z.pow_add_r by lia.
Qed.

Lemma div_one a : small a -> (of_Z a / of_Z 1)%n = of_Z a.
Proof.
  intros Ha. destruct (Z.eq_dec a 0) as [->|Hne]; [done|]. destruct (small_double a Ha Hne) as (s & m & e & E & He & V).
  destruct (small_mantissa a s m e Ha Hne E He V) as (_ & Em & Ed & El). rewrite <- Ed at 2. rewrite E.
  change (of_Z 1) with (S754_finite false 4503599627370496 (-52)). unfold div_n. cbn [SFdiv]. rewrite xorb_false_r.
  assert (Edig : Zdigits2 (Zpos m) = 53).
  { cbn [Zdigits2]. rewrite digits_log2, Em, Z.log2_mul_pow2 by (unfold small in Ha; lia). lia. }
  unfold SFdiv_core_binary. rewrite Edig. change (Zdigits2 4503599627370496) with 53.
  rewrite fexp_small by lia. replace (Z.min (53 + e - (53 + -52) - 53) (e - -52)) with (e - 1) by lia.
  replace (e - -52 - (e - 1)) with 53 by lia. rewrite Z.shiftl_mul_pow2 by lia.
  assert (Ediv : Z.div_eucl (Zpos m * 2 ^ 53) 4503599627370496 = (Zpos m * 2, 0)).
  { assert (Eq : (Zpos m * 2 ^ 53) / 4503599627370496 = Zpos m * 2).
    { replace (Zpos m * 2 ^ 53) with (Zpos m * 2 * 4503599627370496) by (change (2 ^ 53) with (2 * 4503599627370496); lia).
      by rewrite Z.div_mul. }
    assert (Er : (Zpos m * 2 ^ 53) mod 4503599627370496 = 0).
    { replace (Zpos m * 2 ^ 53) with (Zpos m * 2 * 4503599627370496) by (change (2 ^ 53) with (2 * 4503599627370496); lia). by rewrite Z.mod_mul. }
    unfold Z.div in Eq. unfold Z.modulo in Er. destruct (Z.div_eucl _ _) as [q r]. by subst. }
  rewrite Ediv. change (new_location 4503599627370496 0) with loc_Exact.
  replace (e - 1) with (- (1 - e)) by lia. change (Zpos m * 2) with (Zpos (m * 2)). unfold small in Ha. apply round_aux_exact; [lia|lia| |lia].
  rewrite Pos2Z.inj_mul, Em, <- Z.mul_assoc. f_equal. replace (1 - e) with (- e + 1) by lia. by rewrite Z.pow_add_r by lia.
Qed.

(** ** Comparing with integers *)

Lemma shr_fexp_grows m e l mrs e' : shr_fexp 53 1024 m e l = (mrs, e') -> e <= e'.
Proof. unfold shr_fexp, shr. destruct (_ - e) as [|p|p]; intros [= <- <-]; lia. Qed.

(** A number above [2^53] has a positive exponent. *)
Lemma of_Z_big z : 2 ^ 53 < z -> match of_Z z with S754_finite s _ e => s = false /\ 1 <= e | _ => True end.
Proof.
  intros Hz. unfold of_Z. destruct z as [|p|p]; try lia. cbn [binary_normalize]. unfold binary_round, shl_align.
  assert (Hl : 53 <= Z.log2 (Zpos p)) by (apply Z.log2_le_pow2; lia).
  assert (Hd : 54 <= Zpos (digits2_pos p)) by (rewrite digits_log2; lia). rewrite fexp_small by lia.
  destruct (Zpos (digits2_pos p) + 0 - 53 - 0) as [|q|q] eqn:Eq; [lia| |lia].
  unfold binary_round_aux. destruct (shr_fexp 53 1024 (Zpos p) 0 loc_Exact) as [mrs1 e1] eqn:E1.
  assert (H1 : 1 <= e1).
  { unfold shr_fexp in E1. cbn [Zdigits2] in E1. rewrite fexp_small in E1 by lia. unfold shr in E1. rewrite Eq in E1. injection E1 as _ <-. lia. }
  destruct (shr_fexp 53 1024 _ e1 loc_Exact) as [mrs2 e2] eqn:E2. apply shr_fexp_grows in E2.
  destruct (shr_m mrs2); [done| |done]. destruct (Z.leb _ _); [|done]. split; [done|lia].
Qed.

Lemma double_compare a b : 0 < a <= 2 ^ 53 -> 0 < b <= 2 ^ 53 -> lt_n (double_of false a) (double_of false b) = false -> b <= a.
Proof.
  intros Ha Hb. unfold lt_n, SFltb, double_of. cbn [SFcompare].
  pose proof (small_log2 a Ha) as [La La']. pose proof (small_log2 b Hb) as [Lb Lb'].
  destruct (Z.compare_spec (Z.log2 a - 52) (Z.log2 b - 52)) as [E|E|E]; [|done|intros _; apply Z.lt_le_incl, Z.log2_lt_cancel; lia].
  assert (El : Z.log2 a = Z.log2 b) by lia. destruct (Z.eq_dec a (2 ^ 53)) as [->|Na]; [intros _; lia|]. specialize (La' Na).
  destruct (Z.eq_dec b (2 ^ 53)) as [->|Nb]; [rewrite Z.log2_pow2 in El by lia; lia|].
  intros Hc. assert (Hm : mantissa_of b <= mantissa_of a).
  { pose proof (mantissa_pos a Ha). pose proof (mantissa_pos b Hb).
    destruct (Z_le_gt_dec (mantissa_of b) (mantissa_of a)) as [|Hgt]; [done|exfalso].
    change (Pos.compare_cont Eq (Z.to_pos (mantissa_of a)) (Z.to_pos (mantissa_of b))) with (Z.to_pos (mantissa_of a) ?= Z.to_pos (mantissa_of b))%positive in Hc.
    rewrite (proj2 (Pos.compare_lt_iff _ _)) in Hc; [done|]. pose proof (Z2Pos.id _ H); pose proof (Z2Pos.id _ H0); lia. }
  unfold mantissa_of in Hm. rewrite (proj2 (Z.eqb_neq _ _) Na), (proj2 (Z.eqb_neq _ _) Nb), El in Hm.
  apply Z.mul_le_mono_pos_r in Hm; [done|]. apply Z.pow_pos_nonneg; lia.
Qed.

Lemma BigInt_double z : 0 < z <= 2 ^ 53 -> BigInt (double_of false z) = Val z.
Proof.
  intros Hz. unfold double_of, BigInt, signed. pose proof (small_log2 z Hz) as [Hl Hl']. pose proof (mantissa_pos z Hz).
  rewrite Z2Pos.id by done. unfold mantissa_of. destruct (Z.eqb_spec z (2 ^ 53)) as [->|Hne]; [done|]. specialize (Hl' Hne).
  replace (Z.log2 z - 52) with (- (52 - Z.log2 z)) by lia. rewrite Z.opp_involutive.
  assert (E : Z.shiftl (z * 2 ^ (52 - Z.log2 z)) (- (52 - Z.log2 z)) = z).
  { rewrite Z.shiftl_opp_r, Z.shiftr_div_pow2 by lia. apply Z.div_mul. apply Z.pow_nonzero; lia. }
  rewrite E, Z.shiftl_mul_pow2 by lia. by rewrite Z.eqb_refl.
Qed.

(** An integral double that is not above a small integer is at most that. *)
Lemma BigInt_le max z w : 0 < max < 2 ^ 53 -> lt_n (of_Z max) (of_Z z) = false -> BigInt (of_Z z) = Val w -> w <= max.
Proof.
  intros Hmax Hlt Hw. rewrite (of_Z_pos max) in Hlt by lia. destruct (Z_le_gt_dec z 0) as [Hz|Hz]; [|destruct (Z_le_gt_dec z (2 ^ 53)) as [Hs|Hb]].
  - destruct (Z.eq_dec z 0) as [->|Hne]; [injection Hw as <-; lia|]. unfold of_Z in Hw. destruct z as [|p|p]; try lia. cbn [binary_normalize] in Hw.
    assert (Hsign : forall m e l, match binary_round_aux 53 1024 true m e l with S754_finite s _ _ => s = true | _ => True end).
    { intros m e l. unfold binary_round_aux. destruct (shr_fexp 53 1024 m e l) as [? ?]. destruct (shr_fexp _ _ _ _ loc_Exact) as [mrs ?].
      destruct (shr_m mrs); [done| |done]. by destruct (Z.leb _ _). }
    unfold binary_round in Hw. destruct (shl_align p 0 _) as [mz ez]. specialize (Hsign (Zpos mz) ez loc_Exact).
    destruct (binary_round_aux 53 1024 true (Zpos mz) ez loc_Exact) as [s|s| |s m e]; [injection Hw as <-; lia|done|done|].
    subst s. cbn [BigInt signed] in Hw. case_match; [|done]. injection Hw as <-. pose proof (proj2 (Z.shiftl_neg (Zneg m) e) ltac:(lia)). lia.
  - rewrite of_Z_pos in Hlt, Hw by lia. rewrite BigInt_double in Hw by lia. injection Hw as <-. apply double_compare; [lia|lia|done].
  - pose proof (of_Z_big z ltac:(lia)) as Hbig. destruct (of_Z z) as [s|s| |s m e]; [injection Hw as <-; lia|done|done|].
    destruct Hbig as [-> He]. exfalso. revert Hlt. unfold lt_n, SFltb, double_of. cbn [SFcompare].
    pose proof (small_log2 max ltac:(lia)) as [Hl Hl']. specialize (Hl' ltac:(lia)). rewrite (proj2 (Z.compare_lt_iff (Z.log2 max - 52) e)) by lia. done.
Qed.
