(* ===== verification/Factors.v ===== *)
(** * Fractions of the ring: roles, the controller of a dynamic range, domains
    (packages/programs/data/shared-log/src/integers.ts, role.ts, replication.ts,
    pid.ts, cpu.ts, replication-domain-hash.ts, replication-domain-time.ts)

    Where the shared log computes with doubles: a fraction of the ring becomes a
    coordinate ([denormalizer]); a dynamic range is resized by a PID controller
    from the use of memory and processor, the coverage of the ring and the number
    of peers; and a time domain places entries by their wall time. *)

From Stdlib Require Import ZArith Lia SpecFloat.
From stdpp Require Import base list strings.
From S2P Require Import Prelude JsFloat Clock LogSorting Integers Ranges.

Local Open Scope Z_scope.

(** ** Coordinates of fractions *)

Definition denormalizer_u32 (value : number) : number :=
  let result := Math_round (value * of_Z MAX_U32)%n in
  if lt_n (of_Z MAX_U32) result then of_Z MAX_U32 else result.

Definition denormalizer_u64 (value : number) : outcome Z :=
  result ← BigInt (Math_round (value * of_Z (Number_of_bigint MAX_U64))%n);
  Val (if MAX_U64 <? result then MAX_U64 else result).

(** Of a u32 coordinate the integer; the code goes on with a number that is not
    one, here that is an error. *)
Definition denormalize (R : resolution) (value : number) : outcome Z :=
  match R with
  | U32 => BigInt (denormalizer_u32 value)
  | U64 => denormalizer_u64 value
  end.

(** ** Roles (deprecated; role.ts and [ResponseRoleMessage]) *)

Record RoleReplicationSegment := MkRoleSegment {
  rs_timestamp : Z;
  factorNominator : number;
  offsetNominator : number;
}.

Inductive Role := NoType | Observer | Replicator (segments : list RoleReplicationSegment).

Definition new_RoleReplicationSegment (factor offset : number) (timestamp : Z) : outcome RoleReplicationSegment :=
  _ ← throw_if (lt_n (of_Z 1) factor || lt_n factor (of_Z 0)) "Expecting factor to be between 0 and 1";
  _ ← throw_if (lt_n (of_Z 1) offset || lt_n offset (of_Z 0)) "Expecting offset to be between 0 and 1";
  Val (MkRoleSegment timestamp (denormalizer_u32 factor) (denormalizer_u32 factor)).

Definition segment_factor (s : RoleReplicationSegment) : number := (factorNominator s / of_Z MAX_U32)%n.
Definition segment_offset (s : RoleReplicationSegment) : number := (offsetNominator s / of_Z MAX_U32)%n.

Definition new_Replicator (factor offset : number) (timestamp : Z) : outcome Role :=
  s ← new_RoleReplicationSegment factor offset timestamp; Val (Replicator [s]).

Definition role_equals (a b : Role) : bool :=
  match a, b with
  | NoType, NoType | Observer, Observer => true
  | Replicator (s :: _), Replicator (t :: _) => eq_n (segment_factor t) (segment_factor s) && eq_n (segment_offset t) (segment_offset s)
  | _, _ => false
  end.

(** [toReplicationInfoMessage]: what [ReplicationRangeMessageU32] is built from. *)
Definition role_segments (r : Role) : list (number * number * Z) :=
  match r with
  | Replicator segments => map (fun x => (segment_offset x, segment_factor x, rs_timestamp x)) segments
  | _ => []
  end.

(** ** The controller *)

Record PIDReplicationController := MkPID {
  integral : number;
  prevError : number;
  prevMemoryUsage : number;
  prevTotalFactor : option number;
  kp : number;
  ki : number;
  kd : number;
  maxMemoryLimit : option number;
  maxCPUUsage : option number;
}.

Definition reset (c : PIDReplicationController) : PIDReplicationController :=
  MkPID (of_Z 0) (of_Z 0) (of_Z 0) (prevTotalFactor c) (kp c) (ki c) (kd c) (maxMemoryLimit c) (maxCPUUsage c).

Definition new_PID (storage cpu kp ki kd : option number) : PIDReplicationController :=
  reset (MkPID (of_Z 0) (of_Z 0) (of_Z 0) None (default (decimal 7 1) kp) (default (decimal 25 3) ki) (default (decimal 5 2) kd) storage cpu).

Record Measures := MkMeasures {
  memoryUsage : number;
  currentFactor : number;
  totalFactor : number;
  peerCount : number;
  cpuUsage : option number;
}.

Definition zero_n : number := of_Z 0.
Definition one_n : number := of_Z 1.
Definition or_zero (x : option number) : number := match x with Some v => if truthy_n v then v else zero_n | None => zero_n end.

(** [this.maxMemoryLimit] as a condition. *)
Definition limits_memory (c : PIDReplicationController) : bool :=
  match maxMemoryLimit c with Some m => truthy_n m | None => false end.

Section Step.
Context (c : PIDReplicationController) (p : Measures).

Definition estimatedTotalSize : number :=
  if lt_n zero_n (currentFactor p) then (memoryUsage p / currentFactor p)%n else of_Z 100000.

Definition errorMemory : number :=
  match maxMemoryLimit c with
  | Some limit =>
      if lt_n zero_n (currentFactor p) && lt_n zero_n (memoryUsage p)
      then (Math_max (Math_min one_n (limit / estimatedTotalSize)) zero_n - currentFactor p)%n
      else zero_n
  | None => zero_n
  end.

Definition errorCoverageUnmodified : number := Math_min (one_n - totalFactor p)%n one_n.
Definition errorCoverage : number :=
  ((if limits_memory c then one_n - sqrt_n (Math_abs errorMemory) else one_n) * errorCoverageUnmodified)%n.
Definition errorFromEven : number := (one_n / peerCount p - currentFactor p)%n.
Definition balanceErrorScaler : number :=
  if limits_memory c then Math_abs errorMemory else (one_n - Math_abs errorCoverage)%n.
Definition errorBalance : number :=
  if (if limits_memory c then lt_n zero_n errorMemory else true)
  then if lt_n zero_n errorFromEven then (balanceErrorScaler * errorFromEven)%n else zero_n
  else zero_n.
Definition errorCPU : number := if lt_n one_n (peerCount p) then (of_Z (-1) * or_zero (cpuUsage p))%n else zero_n.

Definition totalError : number :=
  let errorMemoryFactor := decimal 9 1 in
  let errorBalanceFactor := decimal 6 1 in
  let e := (errorBalance * errorBalanceFactor + errorCoverage * (one_n - errorBalanceFactor))%n in
  let e := if lt_n errorMemory zero_n then (errorMemory * errorMemoryFactor + e * (one_n - errorMemoryFactor))%n else e in
  match maxCPUUsage c with
  | Some max =>
      if lt_n max (or_zero (cpuUsage p)) then
        let errorCpuFactor := decimal 5 1 in
        (e * (one_n - errorCpuFactor) + errorCpuFactor * (errorCPU - max))%n
      else e
  | None => e
  end.

Definition beta : number := decimal 3 1.
Definition newIntegral : number := (beta * totalError + (one_n - beta) * (integral c + totalError))%n.

Definition newFactor : number :=
  let pTerm := (kp c * totalError)%n in
  let iTerm := (ki c * newIntegral)%n in
  let dTerm := (kd c * (totalError - prevError c))%n in
  (currentFactor p + (pTerm + iTerm + dTerm))%n.

(** The integral does not lag behind a factor that is out of bounds. *)
Definition keptIntegral : number :=
  if lt_n newFactor zero_n && lt_n newIntegral zero_n then zero_n
  else if lt_n one_n newFactor && lt_n zero_n newIntegral then zero_n
  else newIntegral.

Definition step : number * PIDReplicationController :=
  (Math_max (Math_min newFactor one_n) zero_n,
   MkPID keptIntegral totalError (memoryUsage p) (Some (totalFactor p)) (kp c) (ki c) (kd c) (maxMemoryLimit c) (maxCPUUsage c)).
End Step.

(** ** The load of the processor, from the lag of an interval *)

Record CPUUsageIntervalLag := MkCPU {
  windowSize : nat;
  intervalTime : Z;
  upperBoundLag : Z;
  dt : list Z;
  cpu_sum : Z;
  ts : Z;
}.

Definition cpu_start (windowSize : nat) (intervalTime upperBoundLag now : Z) : CPUUsageIntervalLag :=
  MkCPU windowSize intervalTime upperBoundLag (repeat intervalTime windowSize) (Z.of_nat windowSize * intervalTime) now.

(** The timer of the interval. *)
Definition cpu_tick (now : Z) (c : CPUUsageIntervalLag) : CPUUsageIntervalLag :=
  let d := now - ts c in
  MkCPU (windowSize c) (intervalTime c) (upperBoundLag c) (tail (dt c) ++ [d]) (cpu_sum c - default 0 (head (dt c)) + d) now.

Definition cpu_mean (c : CPUUsageIntervalLag) : number := (of_Z (cpu_sum c) / of_Z (Z.of_nat (length (dt c))))%n.

Definition cpu_value (c : CPUUsageIntervalLag) : number :=
  (Math_min (Math_max (cpu_mean c - of_Z (intervalTime c))%n zero_n) (of_Z (upperBoundLag c)) / of_Z (upperBoundLag c))%n.

(** ** Domains *)

(** [createReplicationDomainHash]: [sha256] of the gid as borsh writes it. *)
Definition hash_fromEntry (sha256_gid : string -> list Z) (R : resolution) (m : Meta) : outcome Z :=
  le_number (match R with U32 => 4 | U64 => 8 end) (sha256_gid (meta_gid m)).

Inductive TimeUnit := seconds | milliseconds | microseconds | nanoseconds.

Definition scalarNanoToUnit (u : TimeUnit) : Z :=
  match u with seconds => 1000000000 | milliseconds => 1000000 | microseconds => 1000 | nanoseconds => 1 end.

Definition scalarMilliToUnit (u : TimeUnit) : number :=
  match u with seconds => of_Z 1000 | milliseconds => of_Z 1 | microseconds => decimal 1 3 | nanoseconds => decimal 1 6 end.

(** [fromEntry] of the time domain; the origin is in milliseconds. *)
Definition time_fromEntry (origin : Z) (unit_ : TimeUnit) (m : Meta) : number :=
  let originTime := (of_Z origin / scalarMilliToUnit unit_)%n in
  let cursor := wallTime (lc_timestamp (meta_clock m)) / scalarNanoToUnit unit_ in
  Math_round (of_Z (Number_of_bigint cursor) - originTime)%n.

(** A number of units or a [Date] in milliseconds. *)
Inductive Time := TimeNumber (t : number) | TimeDate (ms : Z).

Definition fromTime (origin : Z) (unit_ : TimeUnit) (time : Time) : number :=
  let originScaled := (of_Z origin * scalarMilliToUnit unit_)%n in
  (match time with TimeNumber t => t | TimeDate ms => of_Z ms * scalarMilliToUnit unit_ end - originScaled)%n.

Definition fromDuration (duration : number) : number := duration.

(** [fromArgs]: without arguments the offset is the node's key. *)
Definition time_fromArgs {K} (origin : Z) (unit_ : TimeUnit) (publicKey : K) (args : option (number * number)) : (K + number) * option number :=
  match args with
  | None => (inl publicKey, None)
  | Some (from, to) => (inr (fromTime origin unit_ (TimeNumber from)), Some (fromDuration (to - from)%n))
  end.

(** ** Facts *)

(** The offset of a role is never stored. *)
Lemma role_offset_lost factor offset timestamp s :
  new_RoleReplicationSegment factor offset timestamp = Val s -> segment_offset s = segment_factor s.
Proof.
  unfold new_RoleReplicationSegment, throw_if. repeat case_match; cbn [mbind outcome_bind]; (done || by intros [= <-]).
Qed.

(** The controller never asks for more than the whole ring or less than
    nothing: its answer lies between 0 and 1, or is not a number when the factor it
    computes is not; and an accumulated error that drives the factor out of its
    bounds is forgotten, so that it does not lag. *)
Theorem factor_bounds (c : PIDReplicationController) (p : Measures) :
  let answer := (Factors.step c p).1 in
  let c' := (Factors.step c p).2 in
  (in_unit answer \/ answer = S754_nan /\ newFactor c p = S754_nan) /\
  (lt_n (newFactor c p) zero_n = true -> lt_n (integral c') zero_n = false) /\
  (lt_n one_n (newFactor c p) = true -> lt_n zero_n (integral c') = false) /\
  prevError c' = totalError c p.
Proof.
  intros answer c'. split; [|split; [|split; [|done]]].
  - destruct (clamp_unit (newFactor c p)) as [[H1 H2]|H1]; [right; by split|by left].
  - intros Hn. unfold c'. cbn [Factors.step snd integral]. unfold keptIntegral. rewrite Hn. cbn [andb].
    destruct (lt_n (newIntegral c p) zero_n) eqn:Ei; [done|]. by destruct (lt_n one_n (newFactor c p) && lt_n zero_n (newIntegral c p)).
  - intros Hn. unfold c'. cbn [Factors.step snd integral]. unfold keptIntegral. rewrite Hn. cbn [andb].
    destruct (lt_n (newFactor c p) zero_n && lt_n (newIntegral c p) zero_n); [done|].
    by destruct (lt_n zero_n (newIntegral c p)) eqn:Ei.
Qed.

(** In a time domain of milliseconds, the coordinate of an entry and that of
    its time as a [Date] are the same integer, the milliseconds since the origin.
    In seconds they differ: an entry divides its time by the scale, and a [Date]
    is multiplied by it (finding). *)
Theorem time_domain_agrees (origin : Z) (m : Meta) :
  let ms := wallTime (lc_timestamp (meta_clock m)) / 1000000 in
  small origin -> small ms -> small (ms - origin) ->
  time_fromEntry origin milliseconds m = of_Z (ms - origin) /\
  fromTime origin milliseconds (TimeDate ms) = of_Z (ms - origin) /\
  (time_fromEntry 0 seconds (MkMeta (MkLamportClock [] (MkTimestamp 2000000000 0)) "" [] (meta_type m) None) = of_Z 2 /\
   fromTime 0 seconds (TimeDate 2000) = of_Z 2000000).
Proof.
  intros ms Ho Hm Hd. split; [|split; [|split; by vm_compute]].
  - unfold time_fromEntry. cbn [scalarMilliToUnit scalarNanoToUnit]. fold ms. rewrite div_one by done.
    assert (En : Number_of_bigint ms = ms).
    { unfold Number_of_bigint, small in *. by rewrite (proj2 (Z.ltb_lt _ _)) by lia. }
    rewrite En, sub_exact by (unfold small in *; (done || lia)). by apply round_of_int.
  - unfold fromTime. cbn [scalarMilliToUnit]. rewrite !mul_one by done. apply sub_exact; unfold small in *; (done || lia).
Qed.

(** ** The window of the load *)

Definition ticks (times : list Z) (c : CPUUsageIntervalLag) : CPUUsageIntervalLag := fold_left (fun c now => cpu_tick now c) times c.

Definition window_sum (l : list Z) : Z := foldr Z.add 0 l.

Lemma window_sum_app a b : window_sum (a ++ b) = window_sum a + window_sum b.
Proof. unfold window_sum. rewrite foldr_app. induction a as [|x a IH]; simpl; lia. Qed.

Record cpu_ok (c : CPUUsageIntervalLag) : Prop := {
  cpu_window : length (dt c) = windowSize c;
  cpu_total : cpu_sum c = window_sum (dt c);
}.

Lemma cpu_tick_ok now c : (0 < windowSize c)%nat -> cpu_ok c -> cpu_ok (cpu_tick now c) /\ windowSize (cpu_tick now c) = windowSize c.
Proof.
  intros Hw [Hl Hs]. split; [|done]. unfold cpu_tick. destruct (dt c) as [|d l] eqn:Ed; [simpl in Hl; lia|].
  split; cbn [dt windowSize cpu_sum tail head default from_option].
  - rewrite length_app. simpl in *. lia.
  - rewrite window_sum_app, Hs. simpl. lia.
Qed.

(** The times between consecutive ticks. *)
Fixpoint diffs (l : list Z) : list Z :=
  match l with
  | x :: (y :: _) as l' => y - x :: diffs l'
  | _ => []
  end.

Lemma diffs_cons x y l : diffs (x :: y :: l) = y - x :: diffs (y :: l).
Proof. done. Qed.

Lemma drop_diffs l r : r <> [] -> drop (length l) (diffs (l ++ r)) = diffs r.
Proof.
  intros Hr. induction l as [|x l IH]; [done|]. cbn [app length].
  destruct (l ++ r) as [|y k] eqn:E; [by apply app_nil in E as [_ ?]|]. rewrite diffs_cons. exact IH.
Qed.

Lemma sum_diffs l : window_sum (diffs l) = default 0 (list.last l) - default 0 (head l).
Proof.
  induction l as [|x [|y l] IH]; [done|simpl; lia|]. rewrite diffs_cons.
  change (window_sum (y - x :: diffs (y :: l))) with (y - x + window_sum (diffs (y :: l))). rewrite IH, last_cons_cons. simpl. lia.
Qed.

Lemma ticks_window times c : dt c <> [] -> dt (ticks times c) = drop (length times) (dt c ++ diffs (ts c :: times)).
Proof.
  revert c. induction times as [|t times IH]; intros c Hc; cbn [ticks fold_left length].
  { cbn [drop diffs]. by rewrite app_nil_r. }
  fold (ticks times (cpu_tick t c)). rewrite IH by (cbn; by intros [_ ?]%app_nil). cbn [cpu_tick dt ts].
  destruct (dt c) as [|d l] eqn:Ed; [done|]. cbn [tail app]. rewrite diffs_cons. cbn [drop]. by rewrite <- app_assoc.
Qed.

(** The load is taken over a window of constant length: after any number of
    ticks the sum kept beside the list of intervals is the sum of the list, and
    once the window has been filled it is the time since as many ticks ago. *)
Theorem cpu_window_exact (size : nat) (intervalTime upperBoundLag start : Z) (times : list Z) (Hw : (0 < size)%nat) :
  let c := ticks times (cpu_start size intervalTime upperBoundLag start) in
  length (dt c) = size /\ cpu_sum c = window_sum (dt c) /\
  forall before recent, start :: times = before ++ recent -> length recent = S size ->
    cpu_sum c = default 0 (list.last recent) - default 0 (head recent).
Proof.
  intros c. set (c0 := cpu_start size intervalTime upperBoundLag start) in *.
  assert (Hgen : forall times c0, (0 < windowSize c0)%nat -> cpu_ok c0 -> cpu_ok (ticks times c0) /\ windowSize (ticks times c0) = windowSize c0).
  { clear. induction times as [|t times IH]; intros c0 Hw Hc; [by split|]. cbn [ticks fold_left].
    destruct (cpu_tick_ok t c0 Hw Hc) as [Hok Ew]. fold (ticks times (cpu_tick t c0)). destruct (IH (cpu_tick t c0)) as [K1 K2]; [by rewrite Ew|done|].
    split; [done|]. by rewrite K2. }
  assert (Hok0 : cpu_ok c0).
  { split; [apply repeat_length|]. unfold c0, cpu_start. cbn [dt cpu_sum]. clear. induction size as [|n IH]; [done|].
    cbn [repeat]. unfold window_sum in *. cbn [foldr]. rewrite <- IH. lia. }
  destruct (Hgen times c0 Hw Hok0) as [[Hl Hs] Ew]. fold c in Hl, Hs, Ew. split; [by rewrite Hl, Ew|]. split; [exact Hs|].
  intros before recent E Hr. rewrite Hs. unfold c. rewrite ticks_window by (destruct size; [lia|done]).
  change (ts c0) with start. rewrite E. change (dt c0) with (repeat intervalTime size).
  assert (En : length times = (size + length before)%nat) by (apply (f_equal length) in E; rewrite length_app in E; simpl in E; lia).
  rewrite En, <- drop_drop, drop_app_length' by (symmetry; apply repeat_length). rewrite drop_diffs by (by destruct recent). apply sum_diffs.
Qed.

(** ** Witnesses *)

Lemma time_domain_agrees_witness :
  let m := MkMeta (MkLamportClock [] (MkTimestamp 1700000005123456789 0)) "" [] APPEND None in
  time_fromEntry 1700000000000 milliseconds m = of_Z 5123 /\
  fromTime 1700000000000 milliseconds (TimeDate 1700000005123) = of_Z 5123.
Proof.
  pose proof (time_domain_agrees 1700000000000 (MkMeta (MkLamportClock [] (MkTimestamp 1700000005123456789 0)) "" [] APPEND None)) as K.
  unfold small in K. destruct K as [K1 [K2 _]]; [vm_compute; by split..|]. split; [exact K1|exact K2].
Defined.

Lemma cpu_window_exact_witness :
  cpu_sum (ticks [1000; 1150; 1500; 1600; 1710] (cpu_start 3 100 1000 900)) = 1710 - 1150.
Proof.
  destruct (cpu_window_exact 3 100 1000 900 [1000; 1150; 1500; 1600; 1710]) as [_ [_ K]]; [lia|].
  rewrite (K [900; 1000] [1150; 1500; 1600; 1710] eq_refl eq_refl). reflexivity.
Defined.
