(* ===== verification/RangeMerge.v ===== *)
(** * Merging the ranges of one owner, verified

    [mergeRanges] of RangeAlgebra on ranges that do not run over the end of the
    ring: the single range it returns covers all of them and is the narrowest
    arc of the ring that does. *)

From Stdlib Require Import ZArith Lia.
From stdpp Require Import base list strings sorting.
From S2P Require Import Prelude JsVal Integers Ranges RangeFacts RangeAlgebra.

Local Open Scope Z_scope.

Abbreviation RING := (ring U32).

(** A nonempty single arc of the class U32, owned by [h]. *)
Definition arc (h : string) (r : Range) : Prop :=
  r_type r = U32 /\ r_hash r = h /\ r_start2 r = r_start1 r /\ r_end2 r = r_end1 r /\
  0 <= r_start1 r < r_end1 r /\ r_end1 r <= RING /\ r_width r = r_end1 r - r_start1 r.

Definition covers (l : list Range) (p : Z) : Prop := Exists (fun r => r_start1 r <= p < r_end1 r) l.

Lemma covers_app l k p : covers (l ++ k) p <-> covers l p \/ covers k p.
Proof. apply Exists_app. Qed.
Lemma covers_one r p : covers [r] p <-> r_start1 r <= p < r_end1 r.
Proof. unfold covers. rewrite Exists_cons, Exists_nil. tauto. Qed.
Lemma covers_cons r l p : covers (r :: l) p <-> r_start1 r <= p < r_end1 r \/ covers l p.
Proof. apply Exists_cons. Qed.

(** In order, no two arcs touching. *)
Definition apart (l : list Range) : Prop := StronglySorted (fun a b => r_end1 a < r_start1 b) l.

Section Merging.
Context `{Hashing} (h : string) (h_nonempty : h <> ""%string).

(** ** The first pass *)

Lemma merge_step_arc l cur :
  arc h l -> arc h cur -> r_start1 l <= r_start1 cur <= r_end1 l ->
  exists m, (forall acc, merge_step U32 (acc ++ [l]) cur = Val (acc ++ [m])) /\ arc h m /\
    r_start1 m = r_start1 l /\ r_end1 m = Z.max (r_end1 l) (r_end1 cur).
Proof.
  intros (Tl & Hl & S2l & E2l & Sl & El) (Tc & Hc & S2c & E2c & Sc & Ec) Hle.
  destruct (new_Range_shape U32 {| p_id := Some (r_id l); p_random := []; p_offset := r_start1 l;
     p_width := Z.max (r_end1 l) (r_end1 cur) - r_start1 l;
     p_mode := Some (strictest (r_mode l) (r_mode cur)); p_timestamp := None;
     p_owner := publicKeyHash (r_hash l) |} h) as (m & E & Hs & Tm & S1 & W & Hh & _); simpl; try lia.
  { rewrite bool_decide_false by congruence. by rewrite Hl. }
  simpl in S1, W. exists m. split; [|split; [|split; [done|]]].
  - intros acc. unfold merge_step. rewrite last_snoc, removelast_last, E2l, E2c.
    rewrite (proj2 (Z.leb_le _ _)) by lia.
    replace (if r_end1 cur <? r_end1 l then r_end1 l else r_end1 cur) with (Z.max (r_end1 l) (r_end1 cur))
      by (case_if_in_goal; lia).
    unfold coordinate_Number. by rewrite E.
  - unfold arc. destruct Hs; rewrite Tm in *; [repeat split; congruence || lia|lia].
  - destruct Hs; rewrite Tm in *; lia.
Qed.

(** What the fold maintains, and one step of it. *)
Record good (acc : list Range) (start : Z) : Prop := {
  good_arcs : Forall (arc h) acc;
  good_apart : apart acc;
  good_starts : forall a, a ∈ acc -> r_start1 a <= start;
}.

Lemma apart_snoc acc m :
  apart acc -> (forall a, a ∈ acc -> r_end1 a < r_start1 m) -> apart (acc ++ [m]).
Proof.
  intros Ha Hm. apply StronglySorted_app. split; [|split; [done|by repeat constructor]].
  intros a b Hin ->%list_elem_of_singleton. by apply Hm.
Qed.

Lemma good_snoc acc m start :
  Forall (arc h) acc -> arc h m -> apart acc -> (forall a, a ∈ acc -> r_end1 a < r_start1 m) ->
  r_start1 m <= start -> good (acc ++ [m]) start.
Proof.
  intros Ha Hm Hap Hlt Hs. split.
  - apply Forall_app. split; [done|by constructor].
  - by apply apart_snoc.
  - intros a [Hin| ->%list_elem_of_singleton]%elem_of_app; [|done].
    specialize (Hlt a Hin). rewrite Forall_forall in Ha. destruct (Ha a Hin) as (_ & _ & _ & _ & ? & _). lia.
Qed.

Lemma merge_step_good acc cur :
  good acc (r_start1 cur) -> arc h cur ->
  exists acc', merge_step U32 acc cur = Val acc' /\ good acc' (r_start1 cur) /\ acc' <> [] /\
    forall p, covers acc' p <-> covers acc p \/ covers [cur] p.
Proof.
  intros [Ha Hap Hlt] Hcur. destruct acc as [|last acc _] using rev_ind.
  { exists [cur]. split; [done|]. split; [apply (good_snoc []); try done; by intros a ?%elem_of_nil|].
    split; [done|]. intros p. unfold covers. rewrite Exists_nil. tauto. }
  apply Forall_app in Ha as [Ha Hlast%Forall_inv]. apply StronglySorted_app in Hap as (Hx & Hacc & _).
  assert (Hx' : forall a, a ∈ acc -> r_end1 a < r_start1 last) by (intros a Hin; apply Hx; [done|by left]).
  assert (Hlc : r_start1 last <= r_start1 cur) by (apply Hlt, elem_of_app; right; by left).
  destruct (Z_le_gt_dec (r_start1 cur) (r_end1 last)) as [Hle|Hgt].
  - destruct (merge_step_arc last cur Hlast Hcur) as (m & Em & Hm & Sm & Eem); [lia|].
    exists (acc ++ [m]). split; [done|]. split; [|split].
    + apply good_snoc; try done; [by rewrite Sm|lia].
    + by destruct acc.
    + intros p. rewrite !covers_app, !covers_one, Sm, Eem.
      destruct Hcur as (_ & _ & _ & _ & ? & _), Hlast as (_ & _ & _ & _ & ? & _). intuition lia.
  - exists ((acc ++ [last]) ++ [cur]). split; [|split; [|split]].
    + unfold merge_step. rewrite last_snoc. destruct Hlast as (_ & _ & _ & -> & _).
      by rewrite (proj2 (Z.leb_gt _ _)) by lia.
    + apply good_snoc; try done.
      * apply Forall_app. split; [done|by constructor].
      * by apply apart_snoc.
      * intros a [Hin| ->%list_elem_of_singleton]%elem_of_app; [|lia].
        specialize (Hx' a Hin). destruct Hlast as (_ & _ & _ & _ & ? & _). lia.
    + by destruct acc.
    + intros p. by rewrite !covers_app.
Qed.

Lemma first_pass (l acc : list Range) :
  Forall (arc h) acc -> apart acc -> (forall a c, a ∈ acc -> c ∈ l -> r_start1 a <= r_start1 c) ->
  Forall (arc h) l -> StronglySorted (fun a b => range_cmp a b <= 0) l ->
  exists merged, foldM (merge_step U32) acc l = Val merged /\ Forall (arc h) merged /\ apart merged /\
    (forall p, covers merged p <-> covers acc p \/ covers l p) /\ (acc <> [] \/ l <> [] -> merged <> []).
Proof.
  revert acc. induction l as [|cur l IH]; intros acc Ha Hap Hlt Hl Hs; simpl.
  { exists acc. split_and!; try done; [|by intros [?|?]]. intros p. unfold covers. rewrite Exists_nil. tauto. }
  apply Forall_cons in Hl as [Hcur Hl]. apply StronglySorted_inv in Hs as [Hs Hcs].
  destruct (merge_step_good acc cur) as (acc' & E & [Ha' Hap' Hlt'] & Hne & Hc); [|done|].
  { split; try done. intros a Hin. apply Hlt; [done|by left]. }
  rewrite E. cbn [mbind outcome_bind].
  destruct (IH acc') as (merged & E' & H1 & H2 & H3 & H4); try done.
  { intros a c Hin Hcin. specialize (Hlt' a Hin). rewrite Forall_forall in Hcs. specialize (Hcs c Hcin).
    unfold range_cmp in Hcs. case_ifs_all; lia. }
  exists merged. split_and!; try done; [|by auto].
  intros p. rewrite H3, Hc, covers_one, covers_cons. tauto.
Qed.

(** ** The second pass *)

Definition gap_at (arr : list Range) (i : nat) : Z :=
  match arr !! i, arr !! ((i + 1) mod length arr)%nat with
  | Some a, Some b => gap_after RING 0 a b
  | _, _ => 0
  end.

Lemma largest_gap_loop_spec arr rest i acc :
  rest = drop i arr -> (i + length rest = length arr)%nat ->
  let '(G, o) := largest_gap_loop RING 0 arr i rest acc in
  acc.1 <= G /\ (forall k, (i <= k < length arr)%nat -> gap_at arr k <= G) /\
  ((G, o) = acc \/ exists k, (i <= k < length arr)%nat /\ o = Some ((k + 1) mod length arr)%nat /\ G = gap_at arr k).
Proof.
  revert i acc. induction rest as [|a rest IH]; intros i acc Hr Hlen; cbn [largest_gap_loop].
  { destruct acc as [G o]. simpl in *. split; [lia|]. split; [lia|by left]. }
  assert (Hi : arr !! i = Some a) by (rewrite <- (Nat.add_0_r i), <- lookup_drop, <- Hr; done).
  assert (Hr' : rest = drop (S i) arr).
  { replace (S i) with (i + 1)%nat by lia. rewrite <- drop_drop, <- Hr. done. }
  assert (Hg : match arr !! ((i + 1) mod length arr)%nat with
               | Some nextArc => gap_after RING 0 a nextArc | None => 0 end = gap_at arr i).
  { unfold gap_at. rewrite Hi. by case_match. }
  rewrite Hg. simpl in Hlen.
  specialize (IH (S i) (if acc.1 <? gap_at arr i then (gap_at arr i, Some ((i + 1) mod length arr)%nat) else acc)
    Hr' ltac:(lia)).
  destruct (largest_gap_loop _ _ _ _ _ _) as [G o]. destruct IH as (H1 & H2 & H3).
  destruct (Z.ltb_spec acc.1 (gap_at arr i)) as [Hlt|Hge]; simpl in H1.
  - split; [lia|]. split.
    + intros k Hk. destruct (decide (k = i)) as [->|]; [lia|apply H2; lia].
    + destruct H3 as [[= -> ->]|(k & Hk & ? & ?)]; right; [exists i|exists k]; (split; [lia|done]).
  - split; [lia|]. split.
    + intros k Hk. destruct (decide (k = i)) as [->|]; [lia|apply H2; lia].
    + destruct H3 as [?|(k & Hk & ? & ?)]; [by left|right; exists k; (split; [lia|done])].
Qed.

(** In [apart] arcs the gap to the next arc is the distance to it. *)
Lemma apart_lookup arr i j a b :
  apart arr -> arr !! i = Some a -> arr !! j = Some b -> (i < j)%nat -> r_end1 a < r_start1 b.
Proof.
  unfold apart. intros Hs. revert i j. induction Hs as [|x l Hl IH Hx]; intros i j Hi Hj Hij; [done|].
  destruct j as [|j]; [lia|]. destruct i as [|i]; simpl in *.
  - simplify_eq. rewrite Forall_forall in Hx. by apply Hx, list_elem_of_lookup_2 with j.
  - by apply (IH i j); try lia.
Qed.

Lemma arc_lookup arr i a : Forall (arc h) arr -> arr !! i = Some a -> arc h a.
Proof. intros Ha Hi. rewrite Forall_forall in Ha. by apply Ha, list_elem_of_lookup_2 with i. Qed.

Lemma gap_inner arr i a b :
  Forall (arc h) arr -> apart arr -> arr !! i = Some a -> arr !! S i = Some b ->
  gap_at arr i = r_start1 b - r_end1 a.
Proof.
  intros Ha Hap Hi Hj. unfold gap_at. pose proof (lookup_lt_Some _ _ _ Hj).
  rewrite Hi, Nat.mod_small, Nat.add_1_r, Hj by lia. unfold gap_after.
  pose proof (apart_lookup arr i (S i) a b Hap Hi Hj ltac:(lia)).
  destruct (arc_lookup _ _ _ Ha Hi) as (_ & _ & _ & -> & _). case_if_in_goal; lia.
Qed.

Lemma gap_outer arr a b :
  Forall (arc h) arr -> apart arr -> arr !! 0%nat = Some a -> arr !! pred (length arr) = Some b ->
  gap_at arr (pred (length arr)) = RING - r_end1 b + r_start1 a.
Proof.
  intros Ha Hap Hi Hj. unfold gap_at. pose proof (lookup_lt_Some _ _ _ Hj).
  replace (pred (length arr) + 1)%nat with (length arr) by lia. rewrite Nat.Div0.mod_same, Hi, Hj.
  destruct (arc_lookup _ _ _ Ha Hi) as (_ & _ & _ & _ & ? & _).
  destruct (arc_lookup _ _ _ Ha Hj) as (_ & _ & _ & E & ? & _). unfold gap_after. rewrite E.
  destruct (decide (pred (length arr) = 0%nat)) as [E0|E0].
  - rewrite E0 in Hj. simplify_eq. case_if_in_goal; lia.
  - pose proof (apart_lookup arr 0 (pred (length arr)) a b Hap Hi Hj ltac:(lia)). case_if_in_goal; lia.
Qed.

Lemma covers_start arr i a : Forall (arc h) arr -> arr !! i = Some a -> covers arr (r_start1 a).
Proof.
  intros Ha Hi. apply Exists_exists. exists a. split; [by apply list_elem_of_lookup_2 with i|].
  destruct (arc_lookup _ _ _ Ha Hi) as (_ & _ & _ & _ & ? & _). lia.
Qed.

(** An uncovered point between the first and the last arc lies between two
    neighbours. *)
Lemma between arr a b q :
  Forall (arc h) arr -> arr !! 0%nat = Some a -> arr !! pred (length arr) = Some b ->
  r_start1 a <= q < r_end1 b -> ~ covers arr q ->
  exists i x y, arr !! i = Some x /\ arr !! S i = Some y /\ r_end1 x <= q < r_start1 y.
Proof.
  revert a. induction arr as [|x [|y arr] IH]; intros a Ha E0 El Hq Hc; simpl in *; [done| |].
  - simplify_eq. exfalso. apply Hc, covers_one. lia.
  - simplify_eq. rewrite covers_cons in Hc. destruct (Z_lt_ge_dec q (r_start1 y)) as [Hy|Hy].
    + exists 0%nat, a, y. split_and!; try done. lia.
    + destruct (IH y) as (i & x' & y' & ?); [by apply Forall_inv_tail in Ha|done|done|lia|tauto|].
      by exists (S i), x', y'.
Qed.

(** A run of points of the ring that no arc covers lies in one gap. *)
Lemma run_in_gap arr q d :
  arr <> [] -> Forall (arc h) arr -> apart arr -> 0 <= q < RING -> 0 < d ->
  (forall k, 0 <= k < d -> ~ covers arr ((q + k) mod RING)) ->
  exists i, (i < length arr)%nat /\ d <= gap_at arr i.
Proof.
  intros Hne Ha Hap Hq Hd Hrun.
  assert (Hstop : forall e p, 0 <= e -> (q + e) mod RING = p -> covers arr p -> d <= e).
  { intros e p He Hp Hc. destruct (Z_le_gt_dec d e); [done|]. exfalso. apply (Hrun e); [lia|by rewrite Hp]. }
  assert (Hlen : (0 < length arr)%nat) by (destruct arr; [done|simpl; lia]).
  destruct (lookup_lt_is_Some_2 arr 0) as [a Ea]; [lia|].
  destruct (lookup_lt_is_Some_2 arr (pred (length arr))) as [b Eb]; [lia|].
  pose proof (arc_lookup _ _ _ Ha Ea) as (_ & _ & _ & _ & Hsa & Hea).
  pose proof (arc_lookup _ _ _ Ha Eb) as (_ & _ & _ & _ & Hsb & Heb).
  pose proof (gap_outer arr a b Ha Hap Ea Eb) as Hgo. pose proof (covers_start _ _ _ Ha Ea) as Hca.
  destruct (Z_lt_ge_dec q (r_start1 a)) as [H1|H1]; [|destruct (Z_lt_ge_dec q (r_end1 b)) as [H2|H2]].
  - exists (pred (length arr)). split; [lia|]. rewrite Hgo.
    specialize (Hstop (r_start1 a - q) (r_start1 a) ltac:(lia)). rewrite Zplus_minus, Z.mod_small in Hstop by lia.
    specialize (Hstop eq_refl Hca). lia.
  - destruct (between arr a b q) as (i & x & y & Ex & Ey & Hxy); [done|done|done|lia| |].
    { intros Hc. apply (Hrun 0); [lia|]. by rewrite Z.add_0_r, Z.mod_small by lia. }
    exists i. split; [by apply lookup_lt_Some in Ex|]. rewrite (gap_inner arr i x y) by done.
    pose proof (arc_lookup _ _ _ Ha Ey) as (_ & _ & _ & _ & Hsy & Hey).
    specialize (Hstop (r_start1 y - q) (r_start1 y) ltac:(lia)). rewrite Zplus_minus, Z.mod_small in Hstop by lia.
    specialize (Hstop eq_refl (covers_start _ _ _ Ha Ey)). lia.
  - exists (pred (length arr)). split; [lia|]. rewrite Hgo.
    specialize (Hstop (RING - q + r_start1 a) (r_start1 a) ltac:(lia)).
    replace (q + (RING - q + r_start1 a)) with (r_start1 a + 1 * RING) in Hstop by lia.
    rewrite Z.mod_add, Z.mod_small in Hstop by lia. specialize (Hstop eq_refl Hca). lia.
Qed.

(** ** The result *)

(** The narrowest arc of the ring around [l]: it covers [l], and a run of points
    free of [l] is no longer than what the arc leaves out. *)
Definition tight_cover (l : list Range) (r : Range) : Prop :=
  (forall p, 0 <= p < RING -> covers l p -> contains r p = true) /\
  (forall q d, 0 <= q < RING -> 0 < d -> (forall k, 0 <= k < d -> ~ covers l ((q + k) mod RING)) ->
     d <= RING - r_width r).

Definition ring_minus_largest (merged : list Range) (r : Range) : Prop :=
  exists i, (i < length merged)%nat /\ (forall k, (k < length merged)%nat -> gap_at merged k <= gap_at merged i) /\
    exists a, merged !! ((i + 1) mod length merged)%nat = Some a /\
      r_start1 r = r_start1 a /\ r_width r = RING - gap_at merged i /\ shape r /\ r_type r = U32.

Lemma covers_inv arr p :
  Forall (arc h) arr -> covers arr p ->
  exists k a, arr !! k = Some a /\ r_start1 a <= p < r_end1 a.
Proof.
  intros Ha (a & Hin & Hp)%Exists_exists. apply list_elem_of_lookup in Hin as [k Hk]. by exists k, a.
Qed.

Lemma ring_minus_largest_tight merged r :
  merged <> [] -> Forall (arc h) merged -> apart merged -> ring_minus_largest merged r ->
  tight_cover merged r.
Proof.
  intros Hne Ha Hap (i & Hi & Hmax & a & Ea & Es & Ew & Hs & Ht). split.
  - intros p Hp Hc. destruct (covers_inv _ _ Ha Hc) as (k & x & Ex & Hx).
    pose proof (arc_lookup _ _ _ Ha Ex) as (_ & _ & _ & _ & Hsx & Hex).
    pose proof (arc_lookup _ _ _ Ha Ea) as (_ & _ & _ & _ & Hsa & Hea).
    pose proof (lookup_lt_Some _ _ _ Ex) as Hk.
    rewrite shape_contains by (rewrite ?Ht; done || lia). rewrite Ht, Es, Ew.
    destruct (decide (S i = length merged)) as [Elast|Hnl].
    + replace i with (pred (length merged)) in * by lia.
      replace (pred (length merged) + 1)%nat with (length merged) in Ea by lia.
      rewrite Nat.Div0.mod_same in Ea.
      destruct (lookup_lt_is_Some_2 merged (pred (length merged))) as [b Eb]; [lia|].
      rewrite (gap_outer merged a b) by done.
      assert (r_start1 a <= r_start1 x).
      { destruct k; [naive_solver lia|]. pose proof (apart_lookup _ _ _ _ _ Hap Ea Ex ltac:(lia)). lia. }
      assert (r_end1 x <= r_end1 b).
      { destruct (decide (k = pred (length merged))) as [->|]; [naive_solver lia|].
        pose proof (apart_lookup _ _ _ _ _ Hap Ex Eb ltac:(lia)).
        pose proof (arc_lookup _ _ _ Ha Eb) as (_ & _ & _ & _ & ? & _). lia. }
      rewrite Z.mod_small by lia. lia.
    + rewrite Nat.mod_small, Nat.add_1_r in Ea by lia.
      destruct (lookup_lt_is_Some_2 merged i) as [b Eb]; [lia|]. rewrite (gap_inner merged i b a) by done.
      pose proof (arc_lookup _ _ _ Ha Eb) as (_ & _ & _ & _ & Hsb & _).
      destruct (Nat.le_gt_cases k i) as [Hki|Hki].
      * assert (r_end1 x <= r_end1 b).
        { destruct (decide (k = i)) as [->|]; [naive_solver lia|].
          pose proof (apart_lookup _ _ _ _ _ Hap Ex Eb ltac:(lia)). lia. }
        pose proof (apart_lookup _ _ _ _ _ Hap Eb Ea ltac:(lia)).
        rewrite <- (Z.mod_add _ 1) by lia. rewrite Z.mul_1_l, Z.mod_small by lia. lia.
      * assert (r_start1 a <= r_start1 x).
        { destruct (decide (k = S i)) as [->|]; [naive_solver lia|].
          pose proof (apart_lookup _ _ _ _ _ Hap Ea Ex ltac:(lia)). lia. }
        pose proof (apart_lookup _ _ _ _ _ Hap Eb Ea ltac:(lia)). rewrite Z.mod_small by lia. lia.
  - intros q d Hq Hd Hrun. destruct (run_in_gap merged q d) as (k & Hk & Hdk); try done.
    specialize (Hmax k Hk). lia.
Qed.

Lemma arc_shape m : arc h m -> shape m.
Proof. intros (E & _ & ? & ? & ? & ? & ?). apply shape_single; rewrite ?E; lia || done. Qed.

(** Taking the ring minus the largest gap of two or more arcs. *)
Lemma second_pass merged :
  (1 < length merged)%nat -> Forall (arc h) merged -> apart merged ->
  let '(G, o) := largest_gap_loop RING 0 merged 0 merged (0, None) in
  exists a, o ≫= (merged !!.) = Some a /\
    forall random mode, exists r,
      new_Range U32 {| p_id := None; p_random := random; p_offset := r_start1 a; p_width := RING - G;
        p_mode := Some mode; p_timestamp := None; p_owner := publicKeyHash h |} = Val r /\
      ring_minus_largest merged r.
Proof.
  intros Hlen Ha Hap. pose proof (largest_gap_loop_spec merged merged 0 (0, None) eq_refl eq_refl) as Hspec.
  destruct (largest_gap_loop _ _ _ _ _ _) as [G o]. destruct Hspec as (H0 & Hmax & Hwhich). simpl in H0.
  destruct (lookup_lt_is_Some_2 merged 0) as [a0 E0]; [lia|].
  destruct (lookup_lt_is_Some_2 merged 1) as [a1 E1]; [lia|].
  pose proof (gap_inner merged 0 a0 a1 Ha Hap E0 E1) as Hg0.
  pose proof (apart_lookup _ _ _ _ _ Hap E0 E1 ltac:(lia)). pose proof (Hmax 0%nat ltac:(lia)).
  destruct Hwhich as [[= -> ->]|(k & Hk & -> & EG)]; [lia|].
  destruct (lookup_lt_is_Some_2 merged ((k + 1) mod length merged)) as [a Ea]; [apply Nat.mod_upper_bound; lia|].
  exists a. split; [done|]. intros random mode.
  pose proof (arc_lookup _ _ _ Ha Ea) as (_ & _ & _ & _ & Hsa & Hea & _).
  assert (HG : G <= RING).
  { rewrite EG. unfold gap_at. rewrite Ea. destruct (lookup_lt_is_Some_2 merged k) as [b Eb]; [lia|].
    rewrite Eb. pose proof (arc_lookup _ _ _ Ha Eb) as (_ & _ & _ & Ee & Hsb & _). unfold gap_after. rewrite Ee.
    case_if_in_goal; lia. }
  destruct (new_Range_shape U32 {| p_id := None; p_random := random; p_offset := r_start1 a; p_width := RING - G;
    p_mode := Some mode; p_timestamp := None; p_owner := publicKeyHash h |} h) as (r & E & Hs & Ht & Es & Ew & _);
    simpl; [by rewrite bool_decide_false by done|lia|lia|].
  exists r. split; [done|]. exists k. split; [lia|]. split; [intros j Hj; rewrite <- EG; apply Hmax; lia|].
  exists a. rewrite <- EG. done.
Qed.

Lemma sorted_input (l : list Range) :
  Forall (arc h) l ->
  exists merged, foldM (merge_step U32) [] (js_sort range_cmp l) = Val merged /\
    Forall (arc h) merged /\ apart merged /\ (forall p, covers merged p <-> covers l p) /\
    (l <> [] -> merged <> []).
Proof.
  intros Hl. assert (Hcmp : Comparator range_cmp).
  { split; intros; unfold range_cmp in *; case_ifs_all; lia. }
  destruct (first_pass (js_sort range_cmp l) []) as (merged & E & H1 & H2 & H3 & H4).
  - constructor.
  - constructor.
  - by intros a c ?%elem_of_nil.
  - by rewrite (js_sort_perm range_cmp l).
  - by apply js_sort_sorted.
  - exists merged. split_and!; try done.
    + intros p. rewrite H3. unfold covers. rewrite Exists_nil, !Exists_exists.
      setoid_rewrite (js_sort_elem range_cmp). tauto.
    + intros Hne. apply H4. right. intros E0. apply (f_equal length) in E0.
      rewrite js_sort_length in E0. by destruct l.
Qed.

Lemma tight_cover_covers l k r : (forall p, covers l p <-> covers k p) -> tight_cover l r -> tight_cover k r.
Proof.
  intros E [H1 H2]. split.
  - intros p Hp Hc. by apply H1, E.
  - intros q d Hq Hd Hrun. apply (H2 q); [done|done|]. intros j Hj. rewrite E. by apply Hrun.
Qed.

Lemma ring_minus_single m : arc h m -> ring_minus_largest [m] m.
Proof.
  intros Hm. exists 0%nat. split; [simpl; lia|]. split; [intros [|k] Hk; simpl in *; lia|].
  exists m. split; [done|]. split; [done|]. split; [|split; [by apply arc_shape|apply Hm]].
  pose proof (gap_outer [m] m m) as Hg. simpl in Hg. rewrite Hg; [|by constructor|by repeat constructor|done|done].
  destruct Hm as (_ & _ & _ & _ & _ & _ & ->). lia.
Qed.

Lemma mergeRangesE s0 s1 l random :
  Forall (arc h) (s0 :: s1 :: l) ->
  mergeRanges (s0 :: s1 :: l) 0 RING random =
    (merged ← foldM (merge_step U32) [] (js_sort range_cmp (s0 :: s1 :: l));
     match merged with
     | [m] => Val m
     | _ =>
       let '(G, o) := largest_gap_loop RING 0 merged 0 merged (0, None) in
       match o ≫= (merged !!.) with
       | None => Exn "TypeError"
       | Some a =>
           new_Range U32 {| p_id := None; p_random := random; p_offset := r_start1 a; p_width := RING - G;
             p_mode := Some (if existsb (fun m => bool_decide (r_mode m = Strict)) merged then Strict else NonStrict);
             p_timestamp := None; p_owner := publicKeyHash h |}
       end
     end).
Proof.
  intros Hl. pose proof (Forall_inv Hl) as (Ht & Hh & _). unfold mergeRanges. rewrite Ht, Hh.
  replace (forallb _ _) with true; [done|]. symmetry. apply forallb_forall.
  intros r Hr. apply bool_decide_true. rewrite Forall_forall in Hl.
  destruct (Hl r) as (_ & Er & _); [by apply list_elem_of_In|done].
Qed.

End Merging.

(** [mergeRanges] on the ranges of one owner, none of which runs over the
    end of the ring (32 bit class): it returns a range, which covers every point
    of every segment and is the narrowest arc of the ring that does, since what
    it leaves out is at least as long as any run of points free of the
    segments. *)
Theorem merge_ranges_tight `{Hashing} (h : string) (segments : list Range) (random : list Z) :
  h <> ""%string -> segments <> [] -> Forall (arc h) segments ->
  exists r, mergeRanges segments 0 MAX_U32 random = Val r /\ tight_cover segments r.
Proof.
  intros Hh Hne Hl. change MAX_U32 with RING. destruct segments as [|s0 [|s1 l]]; [done| |].
  - apply Forall_inv in Hl. exists s0. split; [done|].
    apply (ring_minus_largest_tight h); [done|by constructor|by repeat constructor|by apply (ring_minus_single h)].
  - rewrite (mergeRangesE h) by done. destruct (sorted_input h Hh _ Hl) as (merged & -> & Ha & Hap & Hc & Hn).
    cbn [mbind outcome_bind]. specialize (Hn ltac:(done)). destruct merged as [|m [|m' merged]]; [done| |].
    + exists m. split; [done|]. apply (tight_cover_covers [m]); [done|]. pose proof (Forall_inv Ha) as Hm.
      apply (ring_minus_largest_tight h); [done|done|done|by apply (ring_minus_single h)].
    + pose proof (second_pass h Hh (m :: m' :: merged) ltac:(simpl; lia) Ha Hap) as Hs.
      destruct (largest_gap_loop _ _ _ _ _ _) as [G o]. destruct Hs as (a & -> & Hr).
      edestruct Hr as (r & E & Hmin). rewrite E. exists r. split; [done|].
      eapply tight_cover_covers; [exact Hc|]. by apply (ring_minus_largest_tight h).
Qed.

(** Outside those bounds [mergeRanges] fails its purpose (findings).  It
    reads [end2] of a range that runs over the end of the ring as if the range
    ended there: merging [0, 10) with the range of width 10 that starts five
    before the end of the ring gives [0, 5), which covers neither.  And with 64
    bit coordinates it takes the width through [Number], so two halves that
    together fill the ring get the width 2^64 and the constructor throws. *)
Theorem merge_ranges_wrapped_loses `{Hashing} (id random : list Z) :
  let owned offset width := {| p_id := Some id; p_random := []; p_offset := offset; p_width := width;
    p_mode := None; p_timestamp := None; p_owner := publicKeyHash "a"%string |} in
  (exists a b r, new_Range U32 (owned 0 10) = Val a /\ new_Range U32 (owned (MAX_U32 - 5) 10) = Val b /\
     mergeRanges [a; b] 0 MAX_U32 random = Val r /\
     (forall p, contains r p = true <-> 0 <= p < 5) /\
     contains a 7 = true /\ contains b (MAX_U32 - 1) = true) /\
  (exists a b, new_Range U64 (owned 0 HALF_MAX_U64) = Val a /\
     new_Range U64 (owned HALF_MAX_U64 (HALF_MAX_U64 + 1)) = Val b /\
     mergeRanges [a; b] 0 MAX_U64 random = Exn "Segment coordinate out of bounds").
Proof.
  intros owned. split.
  - do 2 eexists. exists (MkRange U32 random "a" 0 0 5 0 5 5 NonStrict).
    do 3 (split; [reflexivity|]). split; [|by split].
    intros p. rewrite contains_spec. simpl. lia.
  - do 2 eexists. do 2 (split; [reflexivity|]). reflexivity.
Qed.
