(* ===== verification/RangeQueries.v ===== *)
(** * Queries for ranges and entries
    (packages/programs/data/shared-log/src/ranges.ts, part 3)

    The queries the shared log puts to its index of ranges and to its index of
    entries, and the operations that only run one: which ranges contain a
    point, how well the ring is covered, which ranges cover another one, which
    entries lie in a range.  The index is any implementation of [Index].

    A coordinate is a number in the 32 bit class and a bigint in the 64 bit
    class, which is what [coord] passes to [IntegerCompare]. *)

From Stdlib Require Import ZArith Lia QArith.
From stdpp Require Import base list strings.
From S2P Require Import Prelude JsMap JsVal Query IndexInterface SimpleIndex SimpleIndexFacts Integers Ranges RangeFacts RangeAlgebra.

Local Open Scope Z_scope.

Definition coord (t : resolution) (z : Z) : IntegerArg :=
  match t with U32 => INum z | U64 => IBig z end.

Definition IntCmp (key : string) (c : Compare) (v : IntegerArg) : outcome Query :=
  new_IntegerCompare key (CmpEnum c) v.

(** [options.time]. *)
Record TimeOption := MkTime { roleAgeLimit : Z; matured : bool; now : Z }.

(** Points: one or several. *)
Inductive Points := OnePoint (p : Z) | ManyPoints (l : list Z).

Definition point_list (p : Points) : list Z :=
  match p with OnePoint p => [p] | ManyPoints l => l end.

Definition arc_query (t : resolution) (startKey endKey : string) (point : Z) : outcome (list Query) :=
  q1 ← IntCmp startKey LessOrEqual (coord t point);
  q2 ← IntCmp endKey Greater (coord t point);
  Val [q1; q2].

Definition containing_ors (t : resolution) (points : list Z) : outcome (list Query) :=
  foldM (fun or point =>
    qs1 ← arc_query t "start1" "end1" point; a1 ← new_And qs1;
    qs2 ← arc_query t "start2" "end2" point; a2 ← new_And qs2;
    Val (or ++ [a1; a2])) [] points.

Definition createContainingPointQuery (t : resolution) (points : Points) (time : option TimeOption)
    : outcome QueryLike :=
  or ← containing_ors t (point_list points);
  match time with
  | Some tm =>
      o ← new_Or or;
      q ← IntCmp "timestamp" (if matured tm then LessOrEqual else Greater)
            (IBig (now tm - roleAgeLimit tm));
      Val (QLMany [o; q])
  | None => o ← new_Or or; Val (QLOne o)
  end.

Definition createContainingPartialPointQuery (t : resolution) (point : Z) (first : bool)
    (time : option TimeOption) : outcome (list Query) :=
  query ← (if first then arc_query t "start1" "end1" point else arc_query t "start2" "end2" point);
  match time with
  | Some tm =>
      q ← IntCmp "timestamp" (if matured tm then LessOrEqual else Greater)
            (IBig (now tm - roleAgeLimit tm));
      Val (query ++ [q])
  | None => Val query
  end.

(** The two arcs of a range, as [getCoveringRangeQuery] takes them. *)
Record Arcs := MkArcs { a_start1 : Z; a_end1 : Z; a_start2 : Z; a_end2 : Z }.

Definition arcs_of (r : Range) : Arcs := MkArcs (r_start1 r) (r_end1 r) (r_start2 r) (r_end2 r).

Definition cover_one (t : resolution) (startKey endKey : string) (start end_ : Z) : outcome Query :=
  q1 ← IntCmp startKey LessOrEqual (coord t start);
  q2 ← IntCmp endKey GreaterOrEqual (coord t end_);
  new_And [q1; q2].

Definition getCoveringRangeQuery (t : resolution) (range : Arcs) : outcome (list Query) :=
  a1 ← cover_one t "start1" "end1" (a_start1 range) (a_end1 range);
  a2 ← cover_one t "start2" "end2" (a_start1 range) (a_end1 range);
  o1 ← new_Or [a1; a2];
  b1 ← cover_one t "start1" "end1" (a_start2 range) (a_end2 range);
  b2 ← cover_one t "start2" "end2" (a_start2 range) (a_end2 range);
  o2 ← new_Or [b1; b2];
  Val [o1; o2].

Definition same_owner_query (t : resolution) (range : Arcs) (hash : string) (id : list Z)
    : outcome (list Query) :=
  covering ← getCoveringRangeQuery t range;
  Val (covering ++ [new_StringMatch "hash"%string hash None None;
                    new_Not (new_ByteMatchQuery "id"%string id)]).

Definition coordinates_arc (t : resolution) (start end_ : Z) : outcome Query :=
  q1 ← new_IntegerCompare "coordinates"%string (CmpString "gte") (coord t start);
  q2 ← new_IntegerCompare "coordinates"%string (CmpString "lt") (coord t end_);
  new_And [q1; q2].

Definition matchEntriesInRangeQuery (t : resolution) (range : Arcs) : outcome Query :=
  c1 ← coordinates_arc t (a_start1 range) (a_end1 range);
  if a_start2 range =? a_end2 range then Val c1
  else
    c2 ← coordinates_arc t (a_start2 range) (a_end2 range);
    new_Or [c1; c2].

(** ** Operations that run one query *)

Section Operations.
Context {I St : Type} `{Index I St Range}.

Definition iterateRangesContainingPoint (rects : I) (t : resolution) (points : Points)
    (sort : option (list Sort)) (time : option TimeOption) : outcome St :=
  q ← createContainingPointQuery t points time;
  Val (idx_iterate rects (MkIterateOptions q sort)).

Definition containing_one (rects : I) (t : resolution) (point : Z) (sort : option (list Sort))
    (time : option TimeOption) : outcome (list (IndexedResult Range)) :=
  q2 ← createContainingPartialPointQuery t point false time;
  q1 ← createContainingPartialPointQuery t point true time;
  '(r2, _) ← it_all (idx_ops rects) (idx_iterate rects (MkIterateOptions (QLMany q2) sort));
  '(r1, _) ← it_all (idx_ops rects) (idx_iterate rects (MkIterateOptions (QLMany q1) sort));
  Val (r2 ++ r1).

Definition allRangesContainingPoint (rects : I) (t : resolution) (points : Points)
    (sort : option (list Sort)) (time : option TimeOption) : outcome (list (IndexedResult Range)) :=
  foldM (fun allResults point =>
    r ← containing_one rects t point sort time; Val (allResults ++ r)) [] (point_list points).

Definition countRangesContainingPoint (rects : I) (t : resolution) (point : Z)
    (time : option TimeOption) : outcome nat :=
  q ← createContainingPointQuery t (OnePoint point) time;
  idx_count rects q.

(** The result is the exact quotient; the code returns the nearest double. *)
Definition appromixateCoverage (peers : I) (t : resolution) (samples : nat) (numbers : Numbers)
    (normalized : bool) : outcome Q :=
  hits ← foldM (fun hits point =>
    count ← countRangesContainingPoint peers t point None;
    Val (hits + (if normalized then (if (0 <? count)%nat then 1 else 0) else Z.of_nat count)))
    0 (getGrid numbers (zero numbers) samples);
  Val (hits # Pos.of_nat samples)%Q.

Definition countCoveringRangesSameOwner (rects : I) (t : resolution) (range : Range) : outcome bool :=
  q ← same_owner_query t (arcs_of range) (r_hash range) (r_id range);
  n ← idx_count rects (QLMany q);
  Val (0 <? n)%nat.

Definition getCoveringRangesSameOwner (rects : I) (t : resolution) (range : Arcs) (hash : string)
    (id : list Z) : outcome St :=
  q ← same_owner_query t range hash id;
  Val (idx_iterate rects (MkIterateOptions (QLMany q) None)).

End Operations.

(** ** What the queries select *)

(** The documents of the index are ranges as borsh describes them. *)
Class RangeDocument `{Document Range} : Prop := {
  range_to_js r : to_js r = range_js r
}.

(** The fields of a class [t] range, within their borsh widths. *)
Record range_ok (t : resolution) (r : Range) : Prop := {
  ok_type : r_type r = t;
  ok_timestamp : 0 <= r_timestamp r <= MAX_U64;
  ok_shape : shape r;
}.

Lemma IntCmp_val t key c z :
  0 <= z <= ring t ->
  IntCmp key c (coord t z) =
    Val (IntegerCompare [key] c (match t with U32 => UnsignedIntegerValue z | U64 => BigUnsignedIntegerValue z end)).
Proof.
  intros Hz. unfold IntCmp. destruct t; [by rewrite new_IntegerCompare_u32|by rewrite new_IntegerCompare_u64].
Qed.

Lemma IntCmp_time key c z :
  0 <= z <= MAX_U64 -> IntCmp key c (IBig z) = Val (IntegerCompare [key] c (BigUnsignedIntegerValue z)).
Proof. intros Hz. unfold IntCmp. by rewrite new_IntegerCompare_u64. Qed.

(** A comparison with a field of a range, evaluated. *)
Definition int_field (r : Range) (key : string) : option Z :=
  match read_field (range_js r) [key] with Some (JNum z) | Some (JBig z) => Some z | _ => None end.

Lemma sat_int r key c v z :
  int_field r key = Some z -> sat (IntegerCompare [key] c v) (range_js r) = compare z c (integer_value v).
Proof.
  unfold int_field. cbn [sat]. destruct (read_field (range_js r) [key]) as [[]|]; naive_solver.
Qed.

Lemma covered_int r key c v z :
  int_field r key = Some z -> covered (IntegerCompare [key] c v) (range_js r) = true.
Proof.
  unfold int_field. cbn [covered]. destruct (read_field (range_js r) [key]) as [[]|]; naive_solver.
Qed.

Lemma int_fields r :
  int_field r "start1" = Some (r_start1 r) /\ int_field r "end1" = Some (r_end1 r) /\
  int_field r "start2" = Some (r_start2 r) /\ int_field r "end2" = Some (r_end2 r) /\
  int_field r "width" = Some (r_width r) /\ int_field r "timestamp" = Some (r_timestamp r) /\
  int_field r "mode" = Some (intent_value (r_mode r)).
Proof. unfold int_field, read_field, coordinate_js. simpl. by destruct (r_type r). Qed.

(** * What the range queries select

    Proved against the contract of the index ([IndexLaws]) for the queries on
    ranges, and against the in-memory evaluator for the query on entries, whose
    coordinates are an array. *)

Section Pure.
Context (t : resolution).

Definition coord_value (z : Z) : IntegerValue :=
  match t with U32 => UnsignedIntegerValue z | U64 => BigUnsignedIntegerValue z end.

Lemma coord_value_Z z : integer_value (coord_value z) = z.
Proof. unfold coord_value. by destruct t. Qed.

Lemma IntCmp_coord key c z : 0 <= z <= ring t -> IntCmp key c (coord t z) = Val (IntegerCompare [key] c (coord_value z)).
Proof. apply IntCmp_val. Qed.

(** The queries without their error checks. *)
Definition arc_q (sk ek : string) (p : Z) : list Query :=
  [IntegerCompare [sk] LessOrEqual (coord_value p); IntegerCompare [ek] Greater (coord_value p)].

Lemma arc_query_val sk ek p : 0 <= p <= ring t -> arc_query t sk ek p = Val (arc_q sk ek p).
Proof. intros Hp. unfold arc_query. by rewrite !IntCmp_coord. Qed.

Definition containing_q (p : Z) : Query :=
  Or [And (arc_q "start1" "end1" p); And (arc_q "start2" "end2" p)].

Lemma createContainingPointQuery_val p :
  0 <= p <= ring t -> createContainingPointQuery t (OnePoint p) None = Val (QLOne (containing_q p)).
Proof.
  intros Hp. unfold createContainingPointQuery, containing_ors. cbn [point_list foldM].
  by rewrite !arc_query_val.
Qed.

Lemma createContainingPartialPointQuery_val p first :
  0 <= p <= ring t ->
  createContainingPartialPointQuery t p first None =
    Val (if first then arc_q "start1" "end1" p else arc_q "start2" "end2" p).
Proof. intros Hp. unfold createContainingPartialPointQuery. by destruct first; rewrite arc_query_val. Qed.

Lemma sat_two a b d :
  sat (And [a; b]) d = sat a d && sat b d /\ sat (Or [a; b]) d = sat a d || sat b d /\
  covered (And [a; b]) d = covered a d && covered b d /\ covered (Or [a; b]) d = covered a d && covered b d.
Proof. simpl. by rewrite !andb_true_r, orb_false_r. Qed.

(** Evaluates a query on a range. *)
Lemma sat_arc r sk ek s e p :
  int_field r sk = Some s -> int_field r ek = Some e ->
  sat_all (arc_q sk ek p) (range_js r) = ((s <=? p) && (p <? e)) /\
  covered_all (arc_q sk ek p) (range_js r) = true.
Proof.
  intros Hs He. unfold sat_all, covered_all, arc_q. cbn [forallb].
  rewrite (sat_int _ _ _ _ s), (sat_int _ _ _ _ e), (covered_int _ _ _ _ s), (covered_int _ _ _ _ e),
    !coord_value_Z by done.
  by rewrite andb_true_r.
Qed.

Lemma sat_containing `{Hashing} r p :
  sat (containing_q p) (range_js r) = contains r p /\ covered (containing_q p) (range_js r) = true.
Proof.
  destruct (int_fields r) as (H1 & H2 & H3 & H4 & _).
  destruct (sat_arc r _ _ _ _ p H1 H2) as [E1 C1]. destruct (sat_arc r _ _ _ _ p H3 H4) as [E2 C2].
  unfold containing_q. destruct (sat_two (And (arc_q "start1" "end1" p)) (And (arc_q "start2" "end2" p)) (range_js r))
    as (_ & -> & _ & ->).
  rewrite containsE. unfold sat_all, covered_all in *. split; [by apply f_equal2|by apply andb_true_intro].
Qed.

(** Covering another range. *)
Definition cover_q (sk ek : string) (s e : Z) : Query :=
  And [IntegerCompare [sk] LessOrEqual (coord_value s); IntegerCompare [ek] GreaterOrEqual (coord_value e)].

Definition covering_q (a : Arcs) : list Query :=
  [Or [cover_q "start1" "end1" (a_start1 a) (a_end1 a); cover_q "start2" "end2" (a_start1 a) (a_end1 a)];
   Or [cover_q "start1" "end1" (a_start2 a) (a_end2 a); cover_q "start2" "end2" (a_start2 a) (a_end2 a)]].

Definition arcs_ok (a : Arcs) : Prop :=
  0 <= a_start1 a <= ring t /\ 0 <= a_end1 a <= ring t /\
  0 <= a_start2 a <= ring t /\ 0 <= a_end2 a <= ring t.

Definition same_owner_q (a : Arcs) (hash : string) (id : list Z) : list Query :=
  covering_q a ++ [StringMatch ["hash"%string] hash exact_match false; Not (ByteMatchQuery ["id"%string] id)].

Lemma same_owner_query_val a hash id :
  arcs_ok a -> same_owner_query t a hash id = Val (same_owner_q a hash id).
Proof.
  intros (H1 & H2 & H3 & H4). unfold same_owner_query, getCoveringRangeQuery, cover_one.
  by rewrite !IntCmp_coord.
Qed.

Lemma sat_cover r sk ek s e s' e' :
  int_field r sk = Some s' -> int_field r ek = Some e' ->
  sat (cover_q sk ek s e) (range_js r) = ((s' <=? s) && (e <=? e')) /\
  covered (cover_q sk ek s e) (range_js r) = true.
Proof.
  intros Hs He. unfold cover_q.
  destruct (sat_two (IntegerCompare [sk] LessOrEqual (coord_value s)) (IntegerCompare [ek] GreaterOrEqual (coord_value e))
    (range_js r)) as (-> & _ & -> & _).
  by rewrite (sat_int _ _ _ _ s'), (sat_int _ _ _ _ e'), (covered_int _ _ _ _ s'), (covered_int _ _ _ _ e'),
    !coord_value_Z.
Qed.

(** Both arcs of [a] lie in an arc of [r]. *)
Definition covers_arcs (r : Range) (a : Arcs) : bool :=
  (((r_start1 r <=? a_start1 a) && (a_end1 a <=? r_end1 r)) ||
   ((r_start2 r <=? a_start1 a) && (a_end1 a <=? r_end2 r))) &&
  (((r_start1 r <=? a_start2 a) && (a_end2 a <=? r_end1 r)) ||
   ((r_start2 r <=? a_start2 a) && (a_end2 a <=? r_end2 r))).

Lemma sat_same_owner r a hash id :
  sat_all (same_owner_q a hash id) (range_js r) =
    covers_arcs r a && bool_decide (r_hash r = hash) && negb (bool_decide (r_id r = id)) /\
  covered_all (same_owner_q a hash id) (range_js r) = true.
Proof.
  destruct (int_fields r) as (H1 & H2 & H3 & H4 & _).
  destruct (sat_cover r _ _ (a_start1 a) (a_end1 a) _ _ H1 H2) as [E1 C1].
  destruct (sat_cover r _ _ (a_start1 a) (a_end1 a) _ _ H3 H4) as [E2 C2].
  destruct (sat_cover r _ _ (a_start2 a) (a_end2 a) _ _ H1 H2) as [E3 C3].
  destruct (sat_cover r _ _ (a_start2 a) (a_end2 a) _ _ H3 H4) as [E4 C4].
  unfold sat_all, covered_all, same_owner_q, covering_q. cbn [app forallb].
  repeat match goal with |- context [sat (Or [?a; ?b]) ?d] =>
    destruct (sat_two a b d) as (_ & -> & _ & ->) end.
  rewrite E1, E2, E3, E4, C1, C2, C3, C4. split; [|done].
  unfold covers_arcs. rewrite <- !andb_assoc. do 3 f_equal. simpl. by rewrite andb_true_r.
Qed.

End Pure.

(** ** The index of ranges *)

Section RangeIndex.
Context {I St : Type} `{JsEnv, Hashing, Document Range, !RangeDocument, Index I St Range, !IndexLaws I St Range}.
Context (t : resolution).
Implicit Types idx : I.

(** The ranges stored. *)
Definition ranges idx : list Range := map ir_value (idx_contents idx).

Record ranges_ok idx : Prop := {
  ranges_idx : idx_ok idx;
  ranges_each : Forall (range_ok t) (ranges idx);
}.

Lemma supported_by idx qs :
  (forall r, covered_all qs (range_js r) = true) -> supported (idx_contents idx) qs None.
Proof. intros Hq r _. unfold doc_of. rewrite range_to_js. split; [apply Hq|done]. Qed.

Lemma reference_filter idx qs (P : Range -> bool) :
  (forall r, sat_all qs (range_js r) = P r) ->
  reference_results (idx_contents idx) qs None = List.filter (fun r => P (ir_value r)) (idx_contents idx).
Proof.
  intros Hq. unfold reference_results, order_results. apply List.filter_ext.
  intros r. unfold doc_of. by rewrite range_to_js, Hq.
Qed.

(** Counting and collecting with a query whose meaning is [P]. *)
Lemma count_by idx ql qs (P : Range -> bool) :
  ranges_ok idx -> toQuery ql = Val qs ->
  (forall r, sat_all qs (range_js r) = P r /\ covered_all qs (range_js r) = true) ->
  idx_count idx ql = Val (length (List.filter (fun r => P (ir_value r)) (idx_contents idx))).
Proof.
  intros Hok Hql Hq. rewrite (law_count idx ql qs); [|done|apply Hok|by apply supported_by; apply Hq].
  by rewrite (reference_filter _ _ P) by apply Hq.
Qed.

Lemma all_by idx ql qs (P : Range -> bool) :
  ranges_ok idx -> toQuery ql = Val qs ->
  (forall r, sat_all qs (range_js r) = P r /\ covered_all qs (range_js r) = true) ->
  exists st, it_all (idx_ops idx) (idx_iterate idx (MkIterateOptions ql None)) =
    Val (List.filter (fun r => P (ir_value r)) (idx_contents idx), st).
Proof.
  intros Hok Hql Hq.
  destruct (law_iterate idx ql qs None Hql (ranges_idx _ Hok)) as (_ & _ & st & E & _).
  { by apply supported_by; apply Hq. }
  exists st. by rewrite E, (reference_filter _ _ P) by apply Hq.
Qed.

Definition arc1_has (p : Z) (r : Range) : bool := (r_start1 r <=? p) && (p <? r_end1 r).
Definition arc2_has (p : Z) (r : Range) : bool := (r_start2 r <=? p) && (p <? r_end2 r).

Lemma containing_one_val idx p :
  ranges_ok idx -> 0 <= p <= ring t ->
  containing_one idx t p None None =
    Val (List.filter (fun r => arc2_has p (ir_value r)) (idx_contents idx) ++
         List.filter (fun r => arc1_has p (ir_value r)) (idx_contents idx)).
Proof.
  intros Hok Hp. unfold containing_one. rewrite !createContainingPartialPointQuery_val by done.
  cbn [mbind outcome_bind].
  destruct (all_by idx (QLMany (arc_q t "start2" "end2" p)) _ (arc2_has p) Hok eq_refl) as (st2 & E2).
  { intros r. destruct (int_fields r) as (H1' & H2' & H3' & H4' & _). by apply sat_arc. }
  destruct (all_by idx (QLMany (arc_q t "start1" "end1" p)) _ (arc1_has p) Hok eq_refl) as (st1 & E1).
  { intros r. destruct (int_fields r) as (H1' & H2' & H3' & H4' & _). by apply sat_arc. }
  by rewrite E2, E1.
Qed.

Lemma containing_one_elem idx p results x :
  ranges_ok idx -> 0 <= p <= ring t -> containing_one idx t p None None = Val results ->
  x ∈ results <-> x ∈ idx_contents idx /\ contains (ir_value x) p = true.
Proof.
  intros Hok Hp E. rewrite containing_one_val in E by done. outcome_inv.
  rewrite elem_of_app, !list_elem_of_In, !filter_In, containsE. unfold arc1_has, arc2_has.
  rewrite orb_true_iff. tauto.
Qed.

Lemma count_containing idx p :
  ranges_ok idx -> 0 <= p <= ring t ->
  countRangesContainingPoint idx t p None =
    Val (length (List.filter (fun r => contains (ir_value r) p) (idx_contents idx))).
Proof.
  intros Hok Hp. unfold countRangesContainingPoint. rewrite createContainingPointQuery_val by done.
  cbn [mbind outcome_bind]. apply (count_by idx _ [containing_q t p] (fun r => contains r p)); [done..|].
  intros r. unfold sat_all, covered_all. cbn [forallb]. destruct (sat_containing t r p) as [-> ->].
  by rewrite andb_true_r.
Qed.

(** The ranges a point belongs to: [countRangesContainingPoint] counts, and
    [allRangesContainingPoint] collects, exactly the stored ranges that contain
    the point; the latter puts the matches of the second arc first, so a range
    that is not wrapped is returned twice. *)
Theorem containing_point_correct (idx : I) (p : Z) :
  ranges_ok idx -> 0 <= p <= ring t ->
  countRangesContainingPoint idx t p None =
    Val (length (List.filter (fun r => contains (ir_value r) p) (idx_contents idx))) /\
  exists results, allRangesContainingPoint idx t (OnePoint p) None None = Val results /\
    (forall x, x ∈ results <-> x ∈ idx_contents idx /\ contains (ir_value x) p = true) /\
    results = List.filter (fun r => arc2_has p (ir_value r)) (idx_contents idx) ++
              List.filter (fun r => arc1_has p (ir_value r)) (idx_contents idx).
Proof.
  intros Hok Hp. split; [by apply count_containing|].
  unfold allRangesContainingPoint. cbn [point_list foldM].
  pose proof (containing_one_val idx p Hok Hp) as E. rewrite E. cbn [mbind outcome_bind app].
  eexists. split; [done|]. split; [|done]. intros x. by apply containing_one_elem.
Qed.

(** The sum the loop of [appromixateCoverage] computes. *)
Lemma coverage_loop idx normalized (grid : list Z) hits :
  ranges_ok idx -> Forall (fun p => 0 <= p <= ring t) grid ->
  foldM (fun hits point =>
    count ← countRangesContainingPoint idx t point None;
    Val (hits + (if normalized : bool then (if (0 <? count)%nat then 1 else 0) else Z.of_nat count))) hits grid =
  Val (fold_left (fun hits p =>
    let count := length (List.filter (fun r => contains (ir_value r) p) (idx_contents idx)) in
    hits + (if normalized then (if (0 <? count)%nat then 1 else 0) else Z.of_nat count)) grid hits).
Proof.
  intros Hok Hg. revert hits. induction Hg as [|p grid Hp _ IH]; intros hits; [done|].
  simpl. rewrite count_containing by done. simpl. apply IH.
Qed.

Lemma filter_length_pos {A} (P : A -> bool) (l : list A) :
  (0 <? length (List.filter P l))%nat = existsb P l.
Proof. induction l as [|x l IH]; [done|]. simpl. by destruct (P x). Qed.

Lemma fold_left_pointwise {A B} (f g : A -> B -> A) l a :
  (forall a b, f a b = g a b) -> fold_left f l a = fold_left g l a.
Proof. intros Hfg. revert a. induction l as [|b l IH]; intros a; simpl; [done|]. by rewrite Hfg. Qed.

Lemma existsb_ranges (P : Range -> bool) (l : list (IndexedResult Range)) :
  existsb (fun r => P (ir_value r)) l = existsb P (map ir_value l).
Proof. induction l as [|x l IH]; [done|]. simpl. by rewrite IH. Qed.

Lemma count_hits (P : Z -> bool) (grid : list Z) hits :
  fold_left (fun hits p => hits + (if P p then 1 else 0)) grid hits =
  hits + Z.of_nat (length (List.filter P grid)).
Proof.
  revert hits. induction grid as [|p grid IH]; intros hits; simpl; [lia|].
  rewrite IH. destruct (P p); simpl; lia.
Qed.

(** [appromixateCoverage] in its normalised form is the share of the sampled
    points that some stored range contains, so it lies between 0 and 1, is 1
    exactly when every sampled point is covered, and never throws for a positive
    number of samples. *)
Theorem coverage_normalized (idx : I) (samples : nat) :
  ranges_ok idx -> (0 < samples)%nat ->
  let grid := getGrid (createNumbers t) (zero (createNumbers t)) samples in
  let covered := List.filter (fun p => existsb (fun r => contains r p) (ranges idx)) grid in
  appromixateCoverage idx t samples (createNumbers t) true =
    Val (Z.of_nat (length covered) # Pos.of_nat samples)%Q /\
  (length covered <= samples)%nat /\ (length covered = samples <-> covered = grid).
Proof.
  intros Hok Hs grid covered. pose proof (numbers_grid_length (N := createNumbers t) (zero (createNumbers t)) samples) as Hlen.
  fold grid in Hlen. split; [|split].
  - unfold appromixateCoverage. rewrite (coverage_loop idx true) by
      (done || (apply Forall_forall; intros p Hp%numbers_grid_range; unfold ring; lia)).
    cbn [mbind outcome_bind]. do 2 f_equal. rewrite (fold_left_pointwise _ (fun hits p =>
      hits + (if existsb (fun r => contains r p) (ranges idx) then 1 else 0))).
    + by rewrite count_hits.
    + intros hits p. cbv zeta. rewrite filter_length_pos. unfold ranges. by rewrite (existsb_ranges (fun r => contains r p)).
  - rewrite <- Hlen. apply List.filter_length_le.
  - split; [|by intros ->]. intros E. subst covered. rewrite <- Hlen in E. clear - E.
    induction grid as [|p grid IH]; [done|]. simpl in *.
    pose proof (List.filter_length_le (fun p => existsb (fun r => contains r p) (ranges idx)) grid).
    destruct (existsb _ _); simpl in *; [f_equal; apply IH; lia|lia].
Qed.

(** What covering both arcs means for the points. *)
Lemma covers_arcs_points (r range : Range) p :
  covers_arcs r (arcs_of range) = true -> contains range p = true -> contains r p = true.
Proof.
  unfold covers_arcs, arcs_of. rewrite !contains_spec. cbn [a_start1 a_end1 a_start2 a_end2].
  rewrite andb_true_iff, !orb_true_iff, !andb_true_iff, !Z.leb_le. intros [Ha1 Ha2] [Hp|Hp]; lia.
Qed.

Lemma shape_arcs_ok r : shape r -> r_type r = t -> arcs_ok t (arcs_of r).
Proof. intros Hs <-. unfold arcs_ok, arcs_of. simpl. destruct Hs; lia. Qed.

(** [countCoveringRangesSameOwner] says whether the owner already has
    another range around this one: it is true exactly when a stored range with
    the same owner and a different id has both arcs of the range inside one of
    its arcs, and then that range contains every point of the range. *)
Theorem covering_same_owner (idx : I) (range : Range) :
  ranges_ok idx -> shape range -> r_type range = t ->
  exists b, countCoveringRangesSameOwner idx t range = Val b /\
    (b = true <-> exists r, r ∈ ranges idx /\ r_hash r = r_hash range /\ r_id r <> r_id range /\
                            covers_arcs r (arcs_of range) = true) /\
    (b = true -> exists r, r ∈ ranges idx /\ r_hash r = r_hash range /\ r_id r <> r_id range /\
                           forall p, contains range p = true -> contains r p = true).
Proof.
  intros Hok Hs Ht. unfold countCoveringRangesSameOwner.
  rewrite same_owner_query_val by by apply shape_arcs_ok. cbn [mbind outcome_bind].
  set (P := fun r => covers_arcs r (arcs_of range) && bool_decide (r_hash r = r_hash range) &&
                     negb (bool_decide (r_id r = r_id range))).
  rewrite (count_by idx (QLMany (same_owner_q t (arcs_of range) (r_hash range) (r_id range))) _ P Hok eq_refl) by (intros; apply sat_same_owner).
  cbn [mbind outcome_bind]. rewrite filter_length_pos, (existsb_ranges P).
  eexists. split; [done|].
  assert (Hex : existsb P (map ir_value (idx_contents idx)) = true <->
    exists r, r ∈ ranges idx /\ r_hash r = r_hash range /\ r_id r <> r_id range /\
              covers_arcs r (arcs_of range) = true).
  { rewrite existsb_exists. split.
    - intros (r & Hin%list_elem_of_In & HP). unfold P in HP.
      apply andb_true_iff in HP as [[Hc Hh%bool_decide_eq_true]%andb_true_iff Hi%negb_true_iff%bool_decide_eq_false].
      by exists r.
    - intros (r & Hin & Hh & Hi & Hc). exists r. split; [by apply list_elem_of_In|].
      unfold P. by rewrite Hc, bool_decide_true, bool_decide_false. }
  split; [exact Hex|]. intros (r & ? & ? & ? & Hc)%Hex. exists r. split_and!; try done.
  intros p. by apply covers_arcs_points.
Qed.

End RangeIndex.

(** ** Entries in a range *)

Section Entries.
Context `{JsEnv, Hashing}.

Definition coordinates_conds (t : resolution) (s e : Z) : list (Compare * IntegerValue) :=
  [(GreaterOrEqual, coord_value t s); (Less, coord_value t e)].

Lemma coordinates_arc_val t s e :
  0 <= s <= ring t -> 0 <= e <= ring t ->
  coordinates_arc t s e = Val (And (int_queries "coordinates" (coordinates_conds t s e))).
Proof.
  intros Hs He. unfold coordinates_arc, new_IntegerCompare.
  destruct t; unfold coord, new_UnsignedIntegerValue, new_BigUnsignedIntegerValue, throw_if.
  - change (ring U32) with 4294967295 in *.
    replace ((4294967295 <? s) || (s <? 0)) with false by lia.
    by replace ((4294967295 <? e) || (e <? 0)) with false by lia.
  - change (ring U64) with 18446744073709551615 in *.
    replace ((18446744073709551615 <? s) || (s <? 0)) with false by lia.
    by replace ((18446744073709551615 <? e) || (e <? 0)) with false by lia.
Qed.

Lemma entry_arc by_ fuel e t s e' :
  exists ih, handleQueryObject by_ None (S (S fuel)) (And (int_queries "coordinates" (coordinates_conds t s e')))
      (entry_js e) [] 0 =
    Val (Some (existsb (fun c => (s <=? c) && (c <? e')) (er_coordinates e)), ih).
Proof.
  set (els := map (coordinate_js (er_type e)) (er_coordinates e)).
  assert (Hels : Forall (fun v => is_Some (is_integer v)) els).
  { apply Forall_forall. intros v (c & -> & _)%list_elem_of_fmap. unfold coordinate_js. by destruct (er_type e). }
  destruct (int_and_hits by_ fuel "coordinates" (coordinates_conds t s e') (entry_js e) els els [])
    as (ih & ->); try done; [by left|].
  exists ih. do 3 f_equal. subst els. generalize (er_coordinates e). clear.
  induction l as [|c l IH]; [done|]. cbn [map existsb]. rewrite IH. f_equal.
  unfold int_test, coordinates_conds. cbn [forallb fst snd].
  assert (E : is_integer (coordinate_js (er_type e) c) = Some c) by (unfold coordinate_js; by destruct (er_type e)).
  rewrite E, !coord_value_Z, andb_true_r. done.
Qed.

(** Two alternatives, each with inner hits of its own. *)
Lemma handleQueryObject_Or2 by_ fuel a b doc ih :
  handleQueryObject by_ None fuel (Or [a; b]) doc ih 0 =
    ('(ret, _) ← handleQueryObject by_ None fuel a doc [] 0;
     match ret with
     | Some true => Val (Some true, ih)
     | None => Val (None, ih)
     | Some false =>
         '(ret, _) ← handleQueryObject by_ None fuel b doc [] 0;
         Val (match ret with Some true => Some true | None => None | Some false => Some false end, ih)
     end).
Proof.
  cbn [handleQueryObject]. destruct (handleQueryObject by_ None fuel a doc [] 0) as [[[[]|] ?]|?|]; try done.
  cbn [mbind outcome_bind]. by destruct (handleQueryObject by_ None fuel b doc [] 0) as [[[[]|] ?]|?|].
Qed.

(** The query of a range or of a cut of one, and what it selects. *)
Lemma range_query_ok (by_ : list string) (range : Range) :
  cut_ok range ->
  exists q, matchEntriesInRangeQuery (r_type range) (arcs_of range) = Val q /\
    forall e fuel, exists ih, handleQueryObject by_ None (S (S fuel)) q (entry_js e) [] 0 =
      Val (Some (existsb (contains range) (er_coordinates e)), ih).
Proof.
  intros [H1 H2 _]. unfold within in H1, H2. cbn [fst snd] in H1, H2.
  unfold matchEntriesInRangeQuery, arcs_of. cbn [a_start1 a_end1 a_start2 a_end2].
  rewrite !coordinates_arc_val by lia. cbn [mbind outcome_bind].
  case_if_in_goal; (eexists; split; [done|]); intros e fuel;
    destruct (entry_arc by_ fuel e (r_type range) (r_start1 range) (r_end1 range)) as (ih1 & E1).
  - exists ih1. rewrite E1. do 3 f_equal. apply existsb_ext. intros c. rewrite containsE.
    replace ((r_start2 range <=? c) && (c <? r_end2 range)) with false by lia. by rewrite orb_false_r.
  - destruct (entry_arc by_ fuel e (r_type range) (r_start2 range) (r_end2 range)) as (ih2 & E2).
    assert (Hx : forall l, existsb (contains range) l =
      existsb (fun c => (r_start1 range <=? c) && (c <? r_end1 range)) l ||
      existsb (fun c => (r_start2 range <=? c) && (c <? r_end2 range)) l).
    { intros l. induction l as [|c l IH]; [done|]. simpl. rewrite IH, containsE.
      rewrite <- !orb_assoc. f_equal. rewrite orb_comm, <- !orb_assoc. f_equal. apply orb_comm. }
    rewrite Hx, handleQueryObject_Or2, E1. cbn [mbind outcome_bind].
    destruct (existsb _ (er_coordinates e)); [by eexists|]. rewrite E2. cbn [mbind outcome_bind].
    destruct (existsb _ (er_coordinates e)); by eexists.
Qed.

(** [matchEntriesInRangeQuery], run by the in-memory index, selects exactly
    the entries that have a coordinate in the range: wrapped or not, both
    comparisons of an arc are met by the same coordinate of the entry. *)
Theorem entries_in_range (by_ : list string) (range : Range) (e : EntryReplicated) (fuel : nat) :
  shape range ->
  exists q, matchEntriesInRangeQuery (r_type range) (arcs_of range) = Val q /\
    matches_all by_ None (S (S fuel)) [q] (entry_js e) [] =
      Val (existsb (contains range) (er_coordinates e)).
Proof.
  intros Hs. destruct (range_query_ok by_ range) as (q & E & Hq); [by apply shape_cut_ok|].
  destruct (Hq e fuel) as (ih & Eq). exists q. split; [done|]. cbn [matches_all]. rewrite Eq.
  cbn [mbind outcome_bind]. by destruct (existsb _ _).
Qed.

End Entries.
