(* ===== verification/RangeIterators.v ===== *)
(** * Iterating over ranges by distance
    (packages/programs/data/shared-log/src/ranges.ts, part 4)

    Distances on the ring, iterators joined by distance, the closest ranges
    below, above and around a point, the neighbours of the same owner, the
    candidates for a merge, and the sampling of the replicators responsible for
    a list of cursors.

    An iterator object is its operations with its state, [Iter]; a joined
    iterator keeps a queue per iterator.  A queue that does not exist yet behaves
    as an empty one. *)

From Stdlib Require Import ZArith Lia.
From stdpp Require Import base list strings.
From S2P Require Import Prelude JsMap JsVal Query IndexInterface Integers Ranges RangeQueries.

Local Open Scope Z_scope.

Inductive Direction := above | below | closest.

Definition diff (a b : Z) : Z := if a - b <? 0 then - (a - b) else a - b.

Definition getDistance (from to : Z) (direction : Direction) (end_ : Z) : Z :=
  match direction with
  | closest =>
      if from =? to then 0
      else if diff from to <? diff end_ (diff from to) then diff from to
      else diff end_ (diff from to)
  | above => if from <=? to then end_ - to + from else from - to
  | below => if to <=? from then end_ - from + to else to - from
  end.

(** [Number.MAX_VALUE], the distance the search for the closest starts at. *)
Definition Number_MAX_VALUE : Z := (2 ^ 53 - 1) * 2 ^ 971.

(** ** Joining iterators *)

Section Join.
Context {S : Type}.

Record QueueElement := MkElement { qe_result : IndexedResult Range; qe_dist : Z }.

Record Joined := MkJoined {
  jn_ops : IteratorOps (IndexedResult Range) S;
  jn_state : S;
  jn_queue : list QueueElement;
}.

Context (point : Z) (direction : Direction) (numbers : Numbers).

Definition element_dist (closest_ : Range) : Z :=
  match direction with
  | closest =>
      num_min numbers (getDistance (r_start1 closest_) point direction (maxValue numbers))
                      (getDistance (r_end2 closest_) point direction (maxValue numbers))
  | above => getDistance (r_start1 closest_) point direction (maxValue numbers)
  | below => getDistance (r_end2 closest_) point direction (maxValue numbers)
  end.

Definition to_element (el : IndexedResult Range) : QueueElement :=
  MkElement el (element_dist (ir_value el)).

(** First loop of [next]: fill the queue of one iterator. *)
Definition fill (count : nat) (j : Joined) : outcome Joined :=
  if (length (jn_queue j) <? count)%nat && not_done (it_done (jn_ops j) (jn_state j)) then
    '(res, s') ← it_next (jn_ops j) count (jn_state j);
    Val (MkJoined (jn_ops j) s' (jn_queue j ++ map to_element res))
  else Val j.

(** The index of the queue with the closest head, and that distance. *)
Fixpoint closest_queue (j : nat) (l : list Joined) (acc : option nat * Z) : option nat * Z :=
  match l with
  | [] => acc
  | q :: l' =>
      closest_queue (Datatypes.S j) l'
        (match jn_queue q with
         | e :: _ => if qe_dist e <? acc.2 then (Some j, qe_dist e) else acc
         | [] => acc
         end)
  end.

Fixpoint shift_queue (i : nat) (l : list Joined) : list Joined * option (IndexedResult Range) :=
  match l with
  | [] => ([], None)
  | q :: l' =>
      match i with
      | O => (MkJoined (jn_ops q) (jn_state q) (tail (jn_queue q)) :: l',
              qe_result <$> head (jn_queue q))
      | Datatypes.S i' => let '(l'', r) := shift_queue i' l' in (q :: l'', r)
      end
  end.

(** Second loop of [next]: take [count] results from the heads of the queues. *)
Fixpoint pull (count : nat) (l : list Joined) (results : list (IndexedResult Range))
    : list (IndexedResult Range) * list Joined :=
  match count with
  | O => (results, l)
  | Datatypes.S count' =>
      match closest_queue 0 l (None, Number_MAX_VALUE) with
      | (None, _) => (results, l)
      | (Some i, _) =>
          let '(l', r) := shift_queue i l in
          pull count' l' (results ++ option_list r)
      end
  end.

Definition join_next (count : nat) (l : list Joined) : outcome (list (IndexedResult Range) * list Joined) :=
  l' ← mapM_out (fill count) l;
  Val (pull count l' []).

Definition join_done (l : list Joined) : option bool :=
  Some (forallb (fun j => negb (not_done (it_done (jn_ops j) (jn_state j)))) l).

Definition join_pending (l : list Joined) : outcome (nat * list Joined) :=
  ps ← mapM_out (fun j => '(p, s') ← it_pending (jn_ops j) (jn_state j);
                          Val (p, MkJoined (jn_ops j) s' (jn_queue j))) l;
  Val (foldr (fun p acc => (p.1 + acc)%nat) 0%nat ps, map snd ps).

Definition join_close (l : list Joined) : list Joined :=
  map (fun j => MkJoined (jn_ops j) (it_close (jn_ops j) (jn_state j)) (jn_queue j)) l.

Definition join_all (l : list Joined) : outcome (list (IndexedResult Range) * list Joined) :=
  rs ← mapM_out (fun j => '(r, s') ← it_all (jn_ops j) (jn_state j);
                          Val (r, MkJoined (jn_ops j) s' (jn_queue j))) l;
  Val (concat (map fst rs), map snd rs).

Definition joinIterator : IteratorOps (IndexedResult Range) (list Joined) := {|
  it_next := join_next;
  it_all := join_all;
  it_done := join_done;
  it_pending := join_pending;
  it_close := join_close;
|}.

End Join.

Arguments QueueElement : clear implicits.
Arguments Joined : clear implicits.

(** ** Closest ranges *)

(** An iterator: operations and state. *)
Record Iter (S : Type) := MkIter { iter_ops : IteratorOps (IndexedResult Range) S; iter_state : S }.
Arguments MkIter {S}.
Arguments iter_ops {S}.
Arguments iter_state {S}.

Definition join {S} (its : list (Iter S)) (point : Z) (direction : Direction) (numbers : Numbers)
    : Iter (list (Joined S)) :=
  MkIter (joinIterator point direction numbers)
         (map (fun i => MkJoined (iter_ops i) (iter_state i) []) its).

(** The options of [getClosest]. *)
Record ClosestOptions := MkClosestOptions { co_hash : option string; co_time : option TimeOption }.

Definition no_options : ClosestOptions := MkClosestOptions None None.

(** [createQueries(p, equality)] of [getClosest]; [side] is false for "below". *)
Definition closest_queries (t : resolution) (is_above : bool) (includeStrict : bool)
    (options : ClosestOptions) (p : Z) (equality : bool) : outcome (list Query) :=
  q ← (if is_above then IntCmp "start1" (if equality then GreaterOrEqual else Greater) (coord t p)
       else IntCmp "end2" (if equality then LessOrEqual else Less) (coord t p));
  qtime ← match co_time options with
          | Some tm =>
              q ← IntCmp "timestamp" (if matured tm then LessOrEqual else GreaterOrEqual)
                    (IBig (now tm - roleAgeLimit tm));
              Val [q]
          | None => Val []
          end;
  qwidth ← IntCmp "width" Greater (INum 0);
  qmode ← (if negb includeStrict then
             q ← IntCmp "mode" Equal (INum (intent_value NonStrict)); Val [q]
           else Val []);
  let qhash := match co_hash options with
               | Some h => if bool_decide (h = ""%string) then []
                           else [new_StringMatch "hash"%string h None None]
               | None => []
               end in
  Val ([q] ++ qtime ++ [qwidth] ++ qmode ++ qhash).

Definition closest_sort (is_above : bool) : list Sort :=
  [if is_above then new_Sort (KPath ["start1"%string]) (Some (DirString "asc"))
   else new_Sort (KPath ["end2"%string]) (Some (DirString "desc"));
   new_Sort "timestamp"%string (Some (DirString "asc"));
   new_Sort "hash"%string (Some (DirString "asc"))].

Section Client.
Context {I St : Type} `{JsEnv, Hashing, Index I St Range}.

Definition iter_of (rects : I) (qs : list Query) (sort : list Sort) : Iter St :=
  MkIter (idx_ops rects) (idx_iterate rects (MkIterateOptions (QLMany qs) (Some sort))).

Definition getClosest (is_above : bool) (rects : I) (t : resolution) (point : Z) (includeStrict : bool)
    (numbers : Numbers) (options : ClosestOptions) : outcome (Iter (list (Joined St))) :=
  q1 ← closest_queries t is_above includeStrict options point false;
  q2 ← closest_queries t is_above includeStrict options
         (if is_above then zero numbers else maxValue numbers) true;
  Val (join [iter_of rects q1 (closest_sort is_above); iter_of rects q2 (closest_sort is_above)]
            point (if is_above then above else below) numbers).

(** The iterator over the containing ranges, then the closest ones around. *)
Record SeriesIter := MkSeriesIter {
  si_containing : Iter St;
  si_around : Iter (list (Joined (list (Joined St))));
  si_state : SeriesState (S1 := St) (S2 := list (Joined (list (Joined St))));
}.

Definition getClosestAroundOrContaining (peers : I) (t : resolution) (point : Z)
    (includeStrictBelow includeStrictAbove : bool) (numbers : Numbers) (options : ClosestOptions)
    : outcome SeriesIter :=
  closestBelow ← getClosest false peers t point includeStrictBelow numbers options;
  closestAbove ← getClosest true peers t point includeStrictAbove numbers options;
  st ← iterateRangesContainingPoint peers t (OnePoint point) None (co_time options);
  let containing := MkIter (idx_ops peers) st in
  let around := join [closestBelow; closestAbove] point closest numbers in
  Val (MkSeriesIter containing around (series_start (iter_state containing) (iter_state around))).

Definition series_iter_next (count : nat) (s : SeriesIter) : outcome (list (IndexedResult Range) * SeriesIter) :=
  '(r, st) ← series_next (iter_ops (si_containing s)) (iter_ops (si_around s)) count (si_state s);
  Val (r, MkSeriesIter (si_containing s) (si_around s) st).

(** [fetchOne] of an iterator, and of a series of iterators. *)
Definition fetchOne {S} (it : Iter S) : outcome (option Range) :=
  '(value, _) ← it_next (iter_ops it) 1 (iter_state it);
  Val (ir_value <$> head value).

Definition fetchOneSeries (s : SeriesIter) : outcome (option Range) :=
  '(value, _) ← series_iter_next 1 s;
  Val (ir_value <$> head value).

Definition fetchOneClosest (peers : I) (t : resolution) (point : Z)
    (includeStrictBelow includeStrictAbove : bool) (numbers : Numbers) (options : ClosestOptions)
    : outcome (option Range) :=
  it ← getClosestAroundOrContaining peers t point includeStrictBelow includeStrictAbove numbers options;
  fetchOneSeries it.

(** ** Neighbours and merge candidates *)

(** The argument of [getAdjecentSameOwner] and [getAllMergeCandiates]. *)
Record RangeArg := MkRangeArg { ra_idString : option string; ra_arcs : Arcs; ra_hash : string; ra_id : list Z }.

Definition getAdjecentSameOwner (peers : I) (t : resolution) (range : RangeArg) (numbers : Numbers)
    : outcome (option Range * option Range) :=
  let options := MkClosestOptions (Some (ra_hash range)) None in
  below_it ← getClosest false peers t (a_start1 (ra_arcs range)) true numbers options;
  '(closestBelow, _) ← it_next (iter_ops below_it) 1 (iter_state below_it);
  above_it ← getClosest true peers t (a_end2 (ra_arcs range)) true numbers options;
  '(closestAbove, _) ← it_next (iter_ops above_it) 1 (iter_state above_it);
  let below0 := head closestBelow in
  let above0 := head closestAbove in
  let same := bool_decide (ra_idString range = (fun r => idString (ir_value r)) <$> below0) in
  Val (if same then None else ir_value <$> below0,
       if bool_decide (((fun r => primitive (ir_id r)) <$> below0) = ((fun r => primitive (ir_id r)) <$> above0)) || same
       then None else ir_value <$> above0).

Definition getAllMergeCandiates (peers : I) (t : resolution) (range : RangeArg) (numbers : Numbers)
    : outcome (list (string * Range)) :=
  '(below_, above_) ← getAdjecentSameOwner peers t range numbers;
  st ← getCoveringRangesSameOwner peers t (ra_arcs range) (ra_hash range) (ra_id range);
  '(covering, _) ← it_all (idx_ops peers) st;
  let set_opt m r := match r with Some r => Map_set m (idString r) r | None => m end in
  Val (fold_left (fun ret r => Map_set ret (idString (ir_value r)) (ir_value r)) covering
                 (set_opt (set_opt [] below_) above_)).

(** ** Sampling the replicators of a cursor *)

Definition isMatured (timestamp : Z) (now minAge : Z) : bool :=
  minAge <=? now - Number_of_bigint timestamp.

Section Collect.
Context {L : Type} (collector : Range -> bool -> L -> L) (done : L -> bool).

(** The [for] loop over one batch; [true] when [done()] ended it. *)
Fixpoint collect_batch (res : list (IndexedResult Range)) (roleAge now : Z) (acc : L) : L * bool :=
  match res with
  | [] => (acc, false)
  | rect :: res' =>
      let acc' := collector (ir_value rect) (isMatured (r_timestamp (ir_value rect)) now roleAge) acc in
      if done acc' then (acc', true) else collect_batch res' roleAge now acc'
  end.

Fixpoint collect_loop {S} (fuel : nat) (it : Iter S) (roleAge now : Z) (acc : L) : outcome L :=
  match fuel with
  | O => NoFuel
  | Datatypes.S fuel' =>
      if not_done (it_done (iter_ops it) (iter_state it)) && negb (done acc) then
        '(res, s') ← it_next (iter_ops it) 100 (iter_state it);
        let '(acc', stop) := collect_batch res roleAge now acc in
        if stop : bool then Val acc'
        else collect_loop fuel' (MkIter (iter_ops it) s') roleAge now acc'
      else Val acc
  end.

Definition collectClosestAround (fuel : nat) (roleAge : Z) (peers : I) (t : resolution) (point now : Z)
    (numbers : Numbers) (acc : L) : outcome L :=
  closestBelow ← getClosest false peers t point false numbers no_options;
  closestAbove ← getClosest true peers t point false numbers no_options;
  collect_loop fuel (join [closestBelow; closestAbove] point closest numbers) roleAge now acc.

End Collect.

(** The variables of [getSamples] that its loops update. *)
Record Sampling := MkSampling {
  leaders : list (string * bool);
  sampled_matured : nat;
  uniqueVisited : list string;
  foundOneUniqueMatured : bool;
}.

Record SampleOptions := MkSampleOptions {
  onlyIntersecting : bool;
  uniqueReplicators : option (list string);
}.

(** A containing range: its owner becomes an intersecting leader. *)
Definition sample_containing (roleAge now : Z) (s : Sampling) (rect : IndexedResult Range) : Sampling :=
  let hash := r_hash (ir_value rect) in
  {| leaders := Map_set (leaders s) hash true;
     sampled_matured :=
       match Map_get (leaders s) hash with
       | None => if isMatured (r_timestamp (ir_value rect)) now roleAge
                 then Datatypes.S (sampled_matured s) else sampled_matured s
       | Some _ => sampled_matured s
       end;
     uniqueVisited := Set_add (uniqueVisited s) hash;
     foundOneUniqueMatured := foundOneUniqueMatured s |}.

(** The callback of [collectClosestAround] for the cursor at position [i]. *)
Definition sample_around (i : nat) (rect : Range) (m : bool) (s : Sampling) : Sampling :=
  let visited := Set_add (uniqueVisited s) (r_hash rect) in
  if m then
    let prev := Map_get (leaders s) (r_hash rect) in
    let matured' := match prev with None => Datatypes.S (sampled_matured s) | Some _ => sampled_matured s end in
    {| leaders := match prev with None => Map_set (leaders s) (r_hash rect) false | Some _ => leaders s end;
       sampled_matured := matured';
       uniqueVisited := visited;
       foundOneUniqueMatured := if (i <? matured')%nat then true else foundOneUniqueMatured s |}
  else MkSampling (leaders s) (sampled_matured s) visited (foundOneUniqueMatured s).

Definition nothing_more (o : SampleOptions) (s : Sampling) : bool :=
  match uniqueReplicators o with
  | Some u => (length u =? length (leaders s))%nat || (length u =? length (uniqueVisited s))%nat
  | None => false
  end.

Fixpoint samples_loop (fuel : nat) (i : nat) (cursor : list Z) (peers : I) (t : resolution)
    (roleAge now : Z) (numbers : Numbers) (o : SampleOptions) (s : Sampling) : outcome Sampling :=
  match cursor with
  | [] => Val s
  | point :: cursor' =>
      allContaining ← allRangesContainingPoint peers t (OnePoint point) None None;
      let s1 := fold_left (sample_containing roleAge now) allContaining s in
      if nothing_more o s1 then Val s1
      else if onlyIntersecting o || (i <? sampled_matured s1)%nat
      then samples_loop fuel (Datatypes.S i) cursor' peers t roleAge now numbers o s1
      else
        s2 ← collectClosestAround (sample_around i) foundOneUniqueMatured fuel roleAge peers t point now numbers
               (MkSampling (leaders s1) (sampled_matured s1) (uniqueVisited s1) false);
        samples_loop fuel (Datatypes.S i) cursor' peers t roleAge now numbers o s2
  end.

(** [now] is what [+new Date()] reads. *)
Definition getSamples (fuel : nat) (cursor : list Z) (peers : I) (t : resolution) (roleAge now : Z)
    (numbers : Numbers) (o : SampleOptions) : outcome (list (string * bool)) :=
  s ← samples_loop fuel 0 cursor peers t roleAge now numbers o (MkSampling [] 0 [] false);
  Val (leaders s).

End Client.
