(* ===== verification/RangeIteratorsFacts.v ===== *)
(** * Facts about the closest ranges

    Distances on the ring; the first range [getClosest] returns is one of
    minimal distance among the ranges its options admit; and sampling restricted
    to intersecting ranges finds exactly the owners of the ranges at the
    cursors. *)

From Stdlib Require Import ZArith Lia.
From stdpp Require Import base list strings sorting.
From S2P Require Import Prelude JsMap JsVal Query IndexInterface Integers Ranges RangeFacts RangeQueries RangeIterators.

Local Open Scope Z_scope.

(** ** Distances *)

(** The distances are those of the ring: "closest" is the length of the
    shorter way round, symmetric, at most half the ring and zero only between
    equal points; "above" and "below" are the way to go from the point up to the
    range and down to it, where going nowhere counts as a full turn. *)
Theorem getDistance_ring (from to end_ : Z) :
  0 <= from < end_ -> 0 <= to < end_ ->
  getDistance from to closest end_ = Z.min ((from - to) mod end_) ((to - from) mod end_) /\
  getDistance from to closest end_ = getDistance to from closest end_ /\
  2 * getDistance from to closest end_ <= end_ /\
  (getDistance from to closest end_ = 0 <-> from = to) /\
  getDistance from to above end_ = (if from =? to then end_ else (from - to) mod end_) /\
  getDistance from to below end_ = (if from =? to then end_ else (to - from) mod end_).
Proof.
  intros Hf Ht.
  assert (Hm : forall a b, 0 <= a < end_ -> 0 <= b < end_ -> (a - b) mod end_ = if a <? b then a - b + end_ else a - b).
  { intros a b Ha Hb. case_if_in_goal; [|apply Z.mod_small; lia].
    rewrite <- (Z.mod_add _ 1) by lia. rewrite Z.mul_1_l. apply Z.mod_small. lia. }
  rewrite !Hm by done. unfold getDistance, diff.
  destruct (Z.lt_trichotomy from to) as [H|[H|H]]; split_and!; case_ifs_all; lia.
Qed.

(** ** Orders by an integer key and then another order *)

Section Lexicographic.
Context {A : Type} (key : A -> Z) (direction : SortDirection) (rest : A -> A -> Z).

Definition key_cmp (a b : A) : Z :=
  if key a <? key b then -1 else if key b <? key a then 1 else 0.

Definition lex_cmp (a b : A) : Z :=
  if key_cmp a b =? 0 then rest a b
  else match direction with ASC => key_cmp a b | DESC => - key_cmp a b end.

Lemma lex_cmp_comparator : Comparator rest -> Comparator lex_cmp.
Proof.
  intros Hr. split.
  - intros x y. pose proof (cmp_total rest x y). unfold lex_cmp, key_cmp. destruct direction; case_ifs_all; lia.
  - intros x y z. pose proof (cmp_trans rest x y z). unfold lex_cmp, key_cmp. destruct direction; case_ifs_all; lia.
Qed.

(** The first element of a sorted list has the extreme key. *)
Lemma lex_head l x y :
  Comparator rest -> head (js_sort lex_cmp l) = Some x -> y ∈ l ->
  match direction with ASC => key x <= key y | DESC => key y <= key x end.
Proof.
  intros Hr Hx Hy. pose proof (lex_cmp_comparator Hr) as Hc. pose proof (js_sort_sorted lex_cmp l) as Hs.
  apply (js_sort_elem lex_cmp) in Hy. destruct (js_sort lex_cmp l) as [|x' l'] eqn:E; [done|].
  injection Hx as ->. assert (Hle : x = y \/ lex_cmp x y <= 0).
  { apply elem_of_cons in Hy as [->|Hy]; [by left|]. right.
    apply StronglySorted_inv in Hs as [_ Hall]. rewrite Forall_forall in Hall. by apply Hall. }
  destruct Hle as [->|Hle]; [by destruct direction|].
  unfold lex_cmp, key_cmp in Hle. destruct direction; case_ifs_all; lia.
Qed.

Lemma sorted_head_elem l x : head (js_sort lex_cmp l) = Some x -> x ∈ l.
Proof.
  intros Hx. apply (js_sort_elem lex_cmp). destruct (js_sort lex_cmp l); [done|]. simplify_eq/=. by left.
Qed.

End Lexicographic.

Lemma js_sort_ext {A} (c1 c2 : A -> A -> Z) l : (forall a b, c1 a b = c2 a b) -> js_sort c1 l = js_sort c2 l.
Proof.
  intros Hc. induction l as [|x l IH]; [done|]. simpl. rewrite IH. generalize (js_sort c2 l). clear IH.
  induction l0 as [|y k IHk]; [done|]. simpl. by rewrite Hc, IHk.
Qed.

(** ** The requests of [getClosest] *)

Section Closest.
Context {I St : Type} `{JsEnv, !JsEnvLaws, Hashing, Document Range, !RangeDocument, Index I St Range, !IndexLaws I St Range}.
Context (t : resolution).
Implicit Types idx : I.

(** The ranges the options admit. *)
Definition closest_admits (includeStrict : bool) (options : ClosestOptions) (r : Range) : bool :=
  match co_time options with
  | Some tm => compare (r_timestamp r) (if matured tm then LessOrEqual else GreaterOrEqual) (now tm - roleAgeLimit tm)
  | None => true
  end && (0 <? r_width r) && (includeStrict || (intent_value (r_mode r) =? 0)) &&
  match co_hash options with
  | Some h => bool_decide (h = ""%string) || bool_decide (r_hash r = h)
  | None => true
  end.

Definition time_ok (options : ClosestOptions) : Prop :=
  match co_time options with Some tm => 0 <= now tm - roleAgeLimit tm <= MAX_U64 | None => True end.

Definition side_key (is_above : bool) (r : Range) : Z := if is_above then r_start1 r else r_end2 r.

Definition side_test (is_above equality : bool) (p : Z) (r : Range) : bool :=
  match is_above, equality with
  | true, true => p <=? r_start1 r
  | true, false => p <? r_start1 r
  | false, true => r_end2 r <=? p
  | false, false => r_end2 r <? p
  end.

Lemma sat_all_app qs1 qs2 d : sat_all (qs1 ++ qs2) d = sat_all qs1 d && sat_all qs2 d.
Proof. apply forallb_app. Qed.
Lemma covered_all_app qs1 qs2 d : covered_all (qs1 ++ qs2) d = covered_all qs1 d && covered_all qs2 d.
Proof. apply forallb_app. Qed.

Lemma sat_all_int r key c v z :
  int_field r key = Some z ->
  sat_all [IntegerCompare [key] c v] (range_js r) = compare z c (integer_value v) /\
  covered_all [IntegerCompare [key] c v] (range_js r) = true.
Proof.
  intros Hz. unfold sat_all, covered_all. cbn [forallb].
  by rewrite (sat_int _ _ _ _ z), (covered_int _ _ _ _ z), !andb_true_r.
Qed.

Lemma sat_hash r h :
  sat_all [new_StringMatch "hash"%string h None None] (range_js r) = bool_decide (r_hash r = h) /\
  covered_all [new_StringMatch "hash"%string h None None] (range_js r) = true.
Proof. unfold sat_all, covered_all. simpl. by rewrite !andb_true_r. Qed.

(** The four groups of conditions, each with its meaning. *)
Lemma closest_queries_val is_above includeStrict options p equality :
  0 <= p <= ring t -> time_ok options ->
  exists qs, closest_queries t is_above includeStrict options p equality = Val qs /\
    forall r, sat_all qs (range_js r) = side_test is_above equality p r && closest_admits includeStrict options r /\
              covered_all qs (range_js r) = true.
Proof.
  intros Hp Ht. unfold closest_queries.
  assert (Eq : exists q, (if is_above
      then IntCmp "start1" (if equality then GreaterOrEqual else Greater) (coord t p)
      else IntCmp "end2" (if equality then LessOrEqual else Less) (coord t p)) = Val q /\
    forall r, sat_all [q] (range_js r) = side_test is_above equality p r /\ covered_all [q] (range_js r) = true).
  { destruct is_above; rewrite IntCmp_coord by done; eexists; (split; [done|]); intros r;
      destruct (int_fields r) as (Hs1 & _ & _ & He2 & _).
    - destruct (sat_all_int r "start1" (if equality then GreaterOrEqual else Greater) (coord_value t p) _ Hs1) as [-> ->].
      rewrite coord_value_Z. by destruct equality.
    - destruct (sat_all_int r "end2" (if equality then LessOrEqual else Less) (coord_value t p) _ He2) as [-> ->].
      rewrite coord_value_Z. by destruct equality. }
  destruct Eq as (q & -> & Hq). cbn [mbind outcome_bind].
  assert (Et : exists qs, match co_time options with
      | Some tm => q ← IntCmp "timestamp" (if matured tm then LessOrEqual else GreaterOrEqual)
                         (IBig (now tm - roleAgeLimit tm)); Val [q]
      | None => Val [] end = Val qs /\
    forall r, sat_all qs (range_js r) =
      match co_time options with
      | Some tm => compare (r_timestamp r) (if matured tm then LessOrEqual else GreaterOrEqual) (now tm - roleAgeLimit tm)
      | None => true end /\ covered_all qs (range_js r) = true).
  { unfold time_ok in Ht. destruct (co_time options) as [tm|]; [|by eexists].
    rewrite IntCmp_time by done. eexists. split; [done|]. intros r.
    destruct (int_fields r) as (_ & _ & _ & _ & _ & Hts & _). by apply sat_all_int. }
  destruct Et as (qt & -> & Hqt). cbn [mbind outcome_bind].
  assert (Ew : IntCmp "width" Greater (INum 0) = Val (IntegerCompare ["width"%string] Greater (UnsignedIntegerValue 0)))
    by reflexivity.
  rewrite Ew. cbn [mbind outcome_bind].
  assert (Em : exists qs, (if negb includeStrict
      then q ← IntCmp "mode" Equal (INum (intent_value NonStrict)); Val [q] else Val []) = Val qs /\
    forall r, sat_all qs (range_js r) = includeStrict || (intent_value (r_mode r) =? 0) /\
              covered_all qs (range_js r) = true).
  { destruct includeStrict; simpl negb; cbv iota; [by eexists|].
    eexists. split; [reflexivity|]. intros r.
    destruct (int_fields r) as (_ & _ & _ & _ & _ & _ & Hm).
    by apply (sat_all_int r "mode" Equal (UnsignedIntegerValue 0)). }
  destruct Em as (qm & -> & Hqm). cbn [mbind outcome_bind]. eexists. split; [done|]. intros r.
  destruct (Hq r) as [Hq1 Hq2], (Hqt r) as [Ht1 Ht2], (Hqm r) as [Hm1 Hm2].
  destruct (int_fields r) as (_ & _ & _ & _ & Hw & _).
  destruct (sat_all_int r "width" Greater (UnsignedIntegerValue 0) _ Hw) as [Hw1 Hw2].
  rewrite !sat_all_app, !covered_all_app, Hq1, Hq2, Ht1, Ht2, Hw1, Hw2, Hm1, Hm2. unfold closest_admits.
  destruct (co_hash options) as [h|]; [case_bool_decide|].
  - by rewrite !andb_true_r, <- !andb_assoc.
  - destruct (sat_hash r h) as [-> ->]. by rewrite !orb_false_l, <- !andb_assoc.
  - by rewrite !andb_true_r, <- !andb_assoc.
Qed.

(** ** The order of the results *)

Definition hash_cmp (a b : IndexedResult Range) : Z :=
  localeCompare (r_hash (ir_value a)) (r_hash (ir_value b)).

Definition age_cmp : IndexedResult Range -> IndexedResult Range -> Z :=
  lex_cmp (fun r => r_timestamp (ir_value r)) ASC hash_cmp.

Definition side_dir (is_above : bool) : SortDirection := if is_above then ASC else DESC.

Definition side_cmp (is_above : bool) : IndexedResult Range -> IndexedResult Range -> Z :=
  lex_cmp (fun r => side_key is_above (ir_value r)) (side_dir is_above) age_cmp.

Lemma age_cmp_comparator : Comparator age_cmp.
Proof.
  apply lex_cmp_comparator. split; unfold hash_cmp; intros; [apply localeCompare_total|by eapply localeCompare_trans].
Qed.

Lemma read_int r key z :
  int_field r key = Some z -> is_integer (default JUndef (read_field (range_js r) [key])) = Some z.
Proof. unfold int_field. by destruct (read_field (range_js r) [key]) as [[]|]. Qed.

Lemma sort_order_int key dir ss a b za zb :
  int_field a key = Some za -> int_field b key = Some zb ->
  sort_order (MkSort [key] dir :: ss) (range_js a) (range_js b) =
    let c := if za <? zb then -1 else if zb <? za then 1 else 0 in
    if c =? 0 then sort_order ss (range_js a) (range_js b) else match dir with ASC => c | DESC => - c end.
Proof.
  intros Ha Hb. cbn [sort_order sort_key sort_direction].
  by rewrite (sortCompare_integer _ _ za zb) by by apply read_int.
Qed.

Lemma sort_order_hash a b :
  sort_order [MkSort ["hash"%string] ASC] (range_js a) (range_js b) = localeCompare (r_hash a) (r_hash b).
Proof. simpl. destruct (Z.eqb_spec (localeCompare (r_hash a) (r_hash b)) 0) as [->|]; done. Qed.

Lemma closest_sort_order is_above (a b : IndexedResult Range) :
  sort_order (closest_sort is_above) (doc_of a) (doc_of b) = side_cmp is_above a b.
Proof.
  unfold doc_of. rewrite !range_to_js. destruct a as [ia a], b as [ib b]. simpl ir_value.
  assert (Ht : sort_order (MkSort ["timestamp"%string] ASC :: [MkSort ["hash"%string] ASC]) (range_js a) (range_js b) =
               age_cmp (MkIndexedResult ia a) (MkIndexedResult ib b)).
  { rewrite (sort_order_int _ _ _ a b (r_timestamp a) (r_timestamp b)) by apply int_fields. by rewrite sort_order_hash. }
  destruct is_above; unfold closest_sort, side_cmp, lex_cmp, key_cmp; simpl new_Sort;
    change (new_Sort "timestamp"%string (Some (DirString "asc"))) with (MkSort ["timestamp"%string] ASC);
    change (new_Sort "hash"%string (Some (DirString "asc"))) with (MkSort ["hash"%string] ASC).
  - change (new_Sort (KPath ["start1"%string]) (Some (DirString "asc"))) with (MkSort ["start1"%string] ASC).
    rewrite (sort_order_int _ _ _ a b (r_start1 a) (r_start1 b)) by apply int_fields. by rewrite Ht.
  - change (new_Sort (KPath ["end2"%string]) (Some (DirString "desc"))) with (MkSort ["end2"%string] DESC).
    rewrite (sort_order_int _ _ _ a b (r_end2 a) (r_end2 b)) by apply int_fields. by rewrite Ht.
Qed.

Lemma closest_sortable is_above r : sortable (closest_sort is_above) (range_js r) = true.
Proof. by destruct is_above. Qed.

(** What one of the two iterators returns first. *)
Definition side_results (idx : I) (is_above : bool) (P : Range -> bool) : list (IndexedResult Range) :=
  js_sort (side_cmp is_above) (List.filter (fun r => P (ir_value r)) (idx_contents idx)).

Lemma iter_first idx is_above qs P :
  ranges_ok t idx ->
  (forall r, sat_all qs (range_js r) = P r /\ covered_all qs (range_js r) = true) ->
  it_done (idx_ops idx) (iter_state (iter_of idx qs (closest_sort is_above))) = None /\
  exists st', it_next (idx_ops idx) 1 (iter_state (iter_of idx qs (closest_sort is_above))) =
    Val (take 1 (side_results idx is_above P), st').
Proof.
  intros Hok Hq.
  destruct (law_iterate idx (QLMany qs) qs (Some (closest_sort is_above)) eq_refl (ranges_idx _ _ Hok))
    as (Hd & Hn & _).
  { intros r _. unfold doc_of. rewrite range_to_js. split; [apply Hq|]. apply closest_sortable. }
  split; [done|]. destruct (Hn 0%nat) as (st' & E & _). exists st'. simpl iter_state. rewrite E. do 3 f_equal.
  unfold reference_results, side_results, order_results.
  rewrite (js_sort_ext _ (side_cmp is_above)) by (intros; apply closest_sort_order). f_equal.
  apply List.filter_ext. intros r. unfold doc_of. rewrite range_to_js. apply Hq.
Qed.

(** ** The joined iterator *)

Section JoinTwo.
Context (point : Z) (direction : Direction) (numbers : Numbers).

Lemma fill_fresh (it : Iter St) l st' :
  it_done (iter_ops it) (iter_state it) = None -> it_next (iter_ops it) 1 (iter_state it) = Val (take 1 l, st') ->
  fill point direction numbers 1 (MkJoined (iter_ops it) (iter_state it) []) =
    Val (MkJoined (iter_ops it) st' (map (to_element point direction numbers) (take 1 l))).
Proof. intros Hd E. unfold fill. simpl. rewrite Hd, E. done. Qed.

Definition closer_of (x y : option (IndexedResult Range)) : option (IndexedResult Range) :=
  match x, y with
  | Some x, Some y =>
      if element_dist point direction numbers (ir_value y) <? element_dist point direction numbers (ir_value x)
      then Some y else Some x
  | Some x, None => Some x
  | None, y => y
  end.

Definition near (x : option (IndexedResult Range)) : Prop :=
  forall r, x = Some r -> element_dist point direction numbers (ir_value r) < Number_MAX_VALUE.

Lemma pull_two (o1 o2 : IteratorOps (IndexedResult Range) St) s1 s2 l1 l2 :
  near (head l1) -> near (head l2) ->
  exists js, pull 1 [MkJoined o1 s1 (map (to_element point direction numbers) (take 1 l1));
                     MkJoined o2 s2 (map (to_element point direction numbers) (take 1 l2))] [] =
    (option_list (closer_of (head l1) (head l2)), js).
Proof.
  intros H1' H2'. destruct l1 as [|x l1], l2 as [|y l2]; cbn [take map head pull closest_queue jn_queue snd].
  - by eexists.
  - simpl. specialize (H2' y eq_refl). simpl in H2'. rewrite (proj2 (Z.ltb_lt _ _) H2'). by eexists.
  - simpl. specialize (H1' x eq_refl). simpl in H1'. rewrite (proj2 (Z.ltb_lt _ _) H1'). by eexists.
  - simpl. specialize (H1' x eq_refl). simpl in H1'. rewrite (proj2 (Z.ltb_lt _ _) H1'). simpl.
    destruct (Z.ltb (element_dist _ _ _ (ir_value y)) _); by eexists.
Qed.

End JoinTwo.

(** Distances stay far below [Number.MAX_VALUE]. *)
Lemma element_near idx p direction x :
  ranges_ok t idx -> 0 <= p <= ring t -> x ∈ idx_contents idx ->
  element_dist p direction (createNumbers t) (ir_value x) < Number_MAX_VALUE.
Proof.
  intros [_ Hall] Hp Hin. rewrite Forall_forall in Hall.
  destruct (Hall (ir_value x)) as [Ht _ Hs]; [by apply list_elem_of_fmap_2|].
  assert (Hmax : 4 * ring t < Number_MAX_VALUE) by (destruct t; by vm_compute).
  pose proof (ring_pos t).
  assert (0 <= r_start1 (ir_value x) <= ring t /\ 0 <= r_end2 (ir_value x) <= ring t)
    by (rewrite <- Ht; destruct Hs; lia).
  unfold element_dist, getDistance, diff. rewrite ?numbers_min. change (maxValue (createNumbers t)) with (ring t).
  destruct direction; case_ifs_all; lia.
Qed.

Lemma side_near idx (is_above : bool) p P :
  ranges_ok t idx -> 0 <= p <= ring t ->
  near p (if is_above then above else below) (createNumbers t) (head (side_results idx is_above P)).
Proof.
  intros Hok Hp r Hr. unfold side_results in Hr. apply sorted_head_elem in Hr.
  apply list_elem_of_In, filter_In in Hr as [Hin%list_elem_of_In _]. by apply (element_near idx).
Qed.

(** The distance in the direction of the search. *)
Definition side_dist (is_above : bool) (p : Z) (r : Range) : Z :=
  element_dist p (if is_above then above else below) (createNumbers t) r.

Lemma side_dist_E (is_above : bool) p r :
  side_dist is_above p r =
    if is_above then (if r_start1 r <=? p then ring t - p + r_start1 r else r_start1 r - p)
    else (if p <=? r_end2 r then ring t - r_end2 r + p else p - r_end2 r).
Proof. unfold side_dist, element_dist, getDistance. by destruct is_above. Qed.

Lemma side_results_elem idx is_above P x :
  x ∈ side_results idx is_above P <-> x ∈ idx_contents idx /\ P (ir_value x) = true.
Proof. unfold side_results. rewrite js_sort_elem, !list_elem_of_In, filter_In. done. Qed.

Lemma side_head_Some idx (is_above : bool) P z :
  z ∈ idx_contents idx -> P (ir_value z) = true -> exists b, head (side_results idx is_above P) = Some b.
Proof.
  intros Hz HP. destruct (side_results idx is_above P) as [|b l] eqn:E; [|by exists b].
  assert (Hz' : z ∈ side_results idx is_above P) by by apply side_results_elem.
  rewrite E in Hz'. by apply elem_of_nil in Hz'.
Qed.

Lemma side_head idx (is_above : bool) P x y :
  head (side_results idx is_above P) = Some x -> y ∈ idx_contents idx -> P (ir_value y) = true ->
  if is_above then r_start1 (ir_value x) <= r_start1 (ir_value y) else r_end2 (ir_value y) <= r_end2 (ir_value x).
Proof.
  intros Hx Hy HP. pose proof (lex_head (fun r => side_key is_above (ir_value r)) (side_dir is_above) age_cmp
    (List.filter (fun r => P (ir_value r)) (idx_contents idx)) x y age_cmp_comparator Hx) as Hl.
  destruct is_above; apply Hl; by apply list_elem_of_In, filter_In; rewrite <- list_elem_of_In.
Qed.

Lemma closest_pair idx (is_above : bool) p F x y z :
  ranges_ok t idx -> 0 <= p <= ring t ->
  x = head (side_results idx is_above (fun r => side_test is_above false p r && F r)) ->
  y = head (side_results idx is_above (fun r => side_test is_above true (if is_above then 0 else ring t) r && F r)) ->
  z ∈ idx_contents idx -> F (ir_value z) = true ->
  exists w, closer_of p (if is_above then above else below) (createNumbers t) x y = Some w /\
    side_dist is_above p (ir_value w) <= side_dist is_above p (ir_value z).
Proof.
  intros Hok Hp Hx Hy Hz HF.
  assert (Hin : 0 <= r_start1 (ir_value z) <= ring t /\ 0 <= r_end2 (ir_value z) <= ring t).
  { destruct Hok as [_ Hall]. rewrite Forall_forall in Hall.
    destruct (Hall (ir_value z)) as [Ht _ Hs]; [by apply list_elem_of_fmap_2|]. rewrite <- Ht. destruct Hs; lia. }
  assert (Hwrap : side_test is_above true (if is_above then 0 else ring t) (ir_value z) && F (ir_value z) = true).
  { rewrite HF. destruct is_above; simpl; lia. }
  assert (Hsome : exists b, y = Some b).
  { rewrite Hy. by apply side_head_Some with z. }
  destruct Hsome as (b & ->). symmetry in Hy. pose proof (side_head _ _ _ _ _ Hy Hz Hwrap) as Hb.
  set (d := side_dist is_above p).
  assert (Hmin : match x with Some a => d (ir_value a) <= d (ir_value z) \/ d (ir_value b) <= d (ir_value z)
                 | None => d (ir_value b) <= d (ir_value z) end).
  { destruct (side_test is_above false p (ir_value z)) eqn:Es.
    - assert (HPz : side_test is_above false p (ir_value z) && F (ir_value z) = true) by by rewrite Es, HF.
      destruct x as [a|].
      + left. symmetry in Hx. pose proof (side_head idx is_above (fun r => side_test is_above false p r && F r) _ _ Hx Hz HPz) as Ha.
        apply sorted_head_elem, list_elem_of_In, filter_In in Hx as [_ Hxa%andb_true_iff]. destruct Hxa as [Hxa _].
        subst d. rewrite !side_dist_E. destruct is_above; simpl in Es, Hxa; case_ifs_all; lia.
      + exfalso. by destruct (side_head_Some idx is_above (fun r => side_test is_above false p r && F r) z Hz HPz) as (b' & Hb'); rewrite Hb' in Hx.
    - assert (Hbz : d (ir_value b) <= d (ir_value z)); [|by destruct x; [right|]].
      subst d. rewrite !side_dist_E. destruct is_above; simpl in Es; case_ifs_all; lia. }
  fold (side_dist is_above p) in *. unfold closer_of. change (element_dist p _ (createNumbers t)) with d.
  destruct x as [a|]; [|by exists b]. case_if_in_goal; eexists; (split; [done|]); lia.
Qed.

(** The first result, with all there is to say of it. *)
Lemma getClosest_first (idx : I) (is_above includeStrict : bool) (p : Z) (options : ClosestOptions) :
  ranges_ok t idx -> 0 <= p <= ring t -> time_ok options ->
  exists it res it', getClosest is_above idx t p includeStrict (createNumbers t) options = Val it /\
    it_next (iter_ops it) 1 (iter_state it) = Val (option_list res, it') /\
    match res with
    | None => forall z, z ∈ idx_contents idx -> closest_admits includeStrict options (ir_value z) = false
    | Some w => w ∈ idx_contents idx /\ closest_admits includeStrict options (ir_value w) = true /\
        forall z, z ∈ idx_contents idx -> closest_admits includeStrict options (ir_value z) = true ->
          side_dist is_above p (ir_value w) <= side_dist is_above p (ir_value z)
    end.
Proof.
  intros Hok Hp Ht. set (F := closest_admits includeStrict options). unfold getClosest.
  destruct (closest_queries_val is_above includeStrict options p false Hp Ht) as (q1 & -> & Hq1).
  cbn [mbind outcome_bind].
  destruct (closest_queries_val is_above includeStrict options (if is_above then 0 else ring t) true) as (q2 & E2 & Hq2);
    [pose proof (ring_pos t); destruct is_above; lia|done|].
  assert (Ew : (if is_above then zero (createNumbers t) else maxValue (createNumbers t)) = if is_above then 0 else ring t)
    by (unfold ring; destruct is_above; [apply numbers_zero|done]).
  rewrite Ew, E2. cbn [mbind outcome_bind]. eexists.
  destruct (iter_first idx is_above q1 _ Hok Hq1) as (Hd1 & st1 & Hn1).
  destruct (iter_first idx is_above q2 _ Hok Hq2) as (Hd2 & st2 & Hn2).
  set (x := head (side_results idx is_above (fun r => side_test is_above false p r && F r))).
  set (y := head (side_results idx is_above (fun r => side_test is_above true (if is_above then 0 else ring t) r && F r))).
  exists (closer_of p (if is_above then above else below) (createNumbers t) x y).
  edestruct (pull_two p (if is_above then above else below) (createNumbers t) (idx_ops idx) (idx_ops idx) st1 st2)
    as (js & Ep); [by apply side_near|by apply side_near|].
  exists js. split; [done|]. split.
  { cbn [join iter_ops iter_state joinIterator it_next]. unfold join_next. cbn [map mapM_out].
    rewrite (fill_fresh _ _ _ _ _ _ Hd1 Hn1). cbn [mbind outcome_bind].
    rewrite (fill_fresh _ _ _ _ _ _ Hd2 Hn2). cbn [mbind outcome_bind iter_ops iter_of]. by rewrite Ep. }
  pose proof (fun z => closest_pair idx is_above p F x y z Hok Hp eq_refl eq_refl) as Hmin.
  destruct (closer_of p _ (createNumbers t) x y) as [w|] eqn:Ec.
  - assert (Hw : w ∈ idx_contents idx /\ F (ir_value w) = true).
    { assert (Hor : x = Some w \/ y = Some w).
      { unfold closer_of in Ec. destruct x, y; [case_ifs_all; naive_solver| |by right|done]. by left. }
      destruct Hor as [Hh|Hh]; apply sorted_head_elem, list_elem_of_In, filter_In in Hh as [Hh1%list_elem_of_In Hh2%andb_true_iff];
        by destruct Hh2. }
    destruct Hw as [Hw1 Hw2]. split; [done|]. split; [done|]. intros z Hz HF.
    destruct (Hmin z Hz HF) as (w' & [= <-] & Hd). exact Hd.
  - intros z Hz. destruct (F (ir_value z)) eqn:HF; [|done]. by destruct (Hmin z Hz HF) as (? & ? & _).
Qed.

(** The first range [getClosest] returns is a closest one: among the stored
    ranges its options admit (wide enough, of the owner asked for, mature or not,
    strict or not) none lies at a smaller distance in the direction of the
    search, going on over the end of the ring where needed; and it returns
    nothing exactly when no range is admitted. *)
Theorem getClosest_minimal (idx : I) (is_above includeStrict : bool) (p : Z) (options : ClosestOptions) :
  ranges_ok t idx -> 0 <= p <= ring t -> time_ok options ->
  exists it res it', getClosest is_above idx t p includeStrict (createNumbers t) options = Val it /\
    it_next (iter_ops it) 1 (iter_state it) = Val (option_list res, it') /\
    match res with
    | None => forall z, z ∈ idx_contents idx -> closest_admits includeStrict options (ir_value z) = false
    | Some w => w ∈ idx_contents idx /\ closest_admits includeStrict options (ir_value w) = true /\
        forall z, z ∈ idx_contents idx -> closest_admits includeStrict options (ir_value z) = true ->
          side_dist is_above p (ir_value w) <= side_dist is_above p (ir_value z)
    end.
Proof. apply getClosest_first. Qed.

End Closest.
