(* ===== verification/RangeSampling.v ===== *)
(** * Sampling ends and finds replicators

    A joined iterator that is not done makes progress with every batch, so
    [collectClosestAround] ends; [getSamples] marks only owners of ranges at the
    cursors as intersecting, and all of them unless it may end early. *)

From Stdlib Require Import ZArith Lia.
From stdpp Require Import base list strings sorting.
From S2P Require Import Prelude JsMap JsVal Query IndexInterface Integers Ranges RangeFacts RangeQueries RangeIterators RangeIteratorsFacts.

Local Open Scope Z_scope.

(** ** Progress

    [ok ops s n]: the iterator is in a good state with at most [n] steps of work
    left.  A request for [c] results to an iterator that is not done uses up more
    work than it returns results, and returns nothing only when that leaves the
    iterator done. *)

Section Progress.
Context (G : IndexedResult Range -> Prop) (c : nat) (Hc : (0 < c)%nat).

Definition progressive {S} (ok : IteratorOps (IndexedResult Range) S -> S -> nat -> Prop) : Prop :=
  forall ops s n, ok ops s n -> not_done (it_done ops s) = true ->
  exists res s' n', it_next ops c s = Val (res, s') /\ ok ops s' n' /\ Forall G res /\
    (length res + n' < n)%nat /\ (res = [] -> not_done (it_done ops s') = false).

Section Parts.
Context {S : Type} (ok : IteratorOps (IndexedResult Range) S -> S -> nat -> Prop) (Hok : progressive ok).

Definition queue_ok (q : list QueueElement) : Prop :=
  Forall (fun e => G (qe_result e) /\ qe_dist e < Number_MAX_VALUE) q.

Fixpoint parts_ok (l : list (Joined S)) (n : nat) : Prop :=
  match l with
  | [] => n = 0%nat
  | j :: l' => exists k m, ok (jn_ops j) (jn_state j) k /\ queue_ok (jn_queue j) /\ parts_ok l' m /\
                           n = (2 * (k + length (jn_queue j)) + m)%nat
  end.

Context (point : Z) (direction : Direction) (numbers : Numbers).
Context (Hnear : forall x, G x -> element_dist point direction numbers (ir_value x) < Number_MAX_VALUE).

Lemma queue_ok_map res : Forall G res -> queue_ok (map (to_element point direction numbers) res).
Proof. induction 1 as [|x l Hx _ IH]; simpl; constructor; [|done]. split; [done|]. by apply Hnear. Qed.

(** Filling the queues. *)
Definition spent (j : Joined S) : Prop := jn_queue j = [] -> not_done (it_done (jn_ops j) (jn_state j)) = false.

Lemma fill_one j k :
  ok (jn_ops j) (jn_state j) k -> queue_ok (jn_queue j) ->
  exists j' k', fill point direction numbers c j = Val j' /\ ok (jn_ops j') (jn_state j') k' /\
    queue_ok (jn_queue j') /\ spent j' /\
    ((k' + length (jn_queue j') < k + length (jn_queue j))%nat \/ k' = k /\ j' = j).
Proof.
  intros Hj Hq. unfold fill. destruct (length (jn_queue j) <? c)%nat eqn:Elen;
    [destruct (not_done (it_done (jn_ops j) (jn_state j))) eqn:Ed|]; cbn [andb mbind outcome_bind].
  - destruct (Hok _ _ _ Hj Ed) as (res & s' & k' & En & Hj' & HG & Hk & Hr). rewrite En. cbn [mbind outcome_bind].
    eexists _, k'. split; [done|]. split; [done|]. split; [|split].
    + apply Forall_app. split; [done|by apply queue_ok_map].
    + unfold spent. cbn [jn_queue jn_ops jn_state]. intros [_ E]%app_nil. apply Hr. by destruct res.
    + left. cbn [jn_queue]. rewrite length_app, length_map. lia.
  - exists j, k. split_and!; try done; [by intros _|by right].
  - exists j, k. split_and!; try done; [|by right]. intros E. apply Nat.ltb_ge in Elen. rewrite E in Elen. simpl in Elen. lia.
Qed.

Lemma fill_parts l n :
  parts_ok l n ->
  exists l' n', mapM_out (fill point direction numbers c) l = Val l' /\ parts_ok l' n' /\ Forall spent l' /\
    ((n' < n)%nat \/ n' = n /\ l' = l).
Proof.
  revert n. induction l as [|j l IH]; intros n; cbn [parts_ok mapM_out].
  { intros ->. exists [], 0%nat. split; [done|]. split; [done|]. split; [done|]. by right. }
  intros (k & m & Hj & Hq & Hl & ->). destruct (IH m Hl) as (l' & m' & El & Hl' & Hsp & Hm).
  destruct (fill_one j k Hj Hq) as (j' & k' & -> & Hj' & Hq' & Hj'sp & Hk). cbn [mbind outcome_bind].
  rewrite El. cbn [mbind outcome_bind]. eexists _, (2 * (k' + length (jn_queue j')) + m')%nat.
  split; [done|]. split; [by exists k', m'|]. split; [by constructor|].
  destruct Hk as [Hk|(-> & ->)]; destruct Hm as [Hm|(-> & ->)]; [left; lia..|by right].
Qed.

(** Choosing and shifting. *)
Lemma closest_queue_spec j (l : list (Joined S)) acc :
  (exists i q, l !! i = Some q /\ jn_queue q <> [] /\ (closest_queue j l acc).1 = Some (j + i)%nat) \/
  closest_queue j l acc = acc /\ Forall (fun q => forall e, head (jn_queue q) = Some e -> acc.2 <= qe_dist e) l.
Proof.
  revert j acc. induction l as [|q l IH]; intros j acc; cbn [closest_queue]; [by right|].
  destruct (jn_queue q) as [|e es] eqn:Eq.
  - destruct (IH (Datatypes.S j) acc) as [(i & q' & Hi & Hq' & E)|[E Hf]].
    + left. exists (Datatypes.S i), q'. split; [done|]. split; [done|]. rewrite E. f_equal. lia.
    + right. split; [done|]. constructor; [by rewrite Eq|done].
  - destruct (Z.ltb_spec (qe_dist e) acc.2) as [Hlt|Hge].
    + left. destruct (IH (Datatypes.S j) (Some j, qe_dist e)) as [(i & q' & Hi & Hq' & E)|[E Hf]].
      * exists (Datatypes.S i), q'. split; [done|]. split; [done|]. rewrite E. f_equal. lia.
      * exists 0%nat, q. split; [done|]. split; [by rewrite Eq|]. rewrite E. simpl. f_equal. lia.
    + destruct (IH (Datatypes.S j) acc) as [(i & q' & Hi & Hq' & E)|[E Hf]].
      * left. exists (Datatypes.S i), q'. split; [done|]. split; [done|]. rewrite E. f_equal. lia.
      * right. split; [done|]. constructor; [|done]. rewrite Eq. simpl. by intros ? [= <-].
Qed.

Lemma shift_queue_ok i l n q :
  parts_ok l n -> l !! i = Some q -> jn_queue q <> [] ->
  exists x l' n', shift_queue i l = (l', Some x) /\ G x /\ parts_ok l' n' /\ n = (2 + n')%nat.
Proof.
  revert i n. induction l as [|j l IH]; intros i n Hn Hi Hq; [done|].
  destruct Hn as (k & m & Hj & Hjq & Hl & ->). destruct i as [|i]; simpl in Hi.
  - injection Hi as ->. destruct q as [o s [|e es]]; [done|]. simpl in *.
    apply Forall_cons in Hjq as [[HG _] Hes].
    exists (qe_result e), (MkJoined o s es :: l), (2 * (k + length es) + m)%nat.
    split; [done|]. split; [done|]. split; [by exists k, m|lia].
  - destruct (IH i m Hl Hi Hq) as (x & l' & m' & E & HG & Hl' & ->). simpl. rewrite E.
    exists x, (j :: l'), (2 * (k + length (jn_queue j)) + m')%nat. split; [done|]. split; [done|].
    split; [by exists k, m'|lia].
Qed.

Lemma parts_queue_near l n :
  parts_ok l n -> Forall (fun q => forall e, head (jn_queue q) = Some e -> qe_dist e < Number_MAX_VALUE) l.
Proof.
  revert n. induction l as [|j l IH]; intros n; [constructor|]. intros (k & m & _ & Hq & Hl & _).
  constructor; [|by apply (IH m)]. intros e He. destruct (jn_queue j); simplify_eq/=. by apply Forall_inv in Hq as [_ ?].
Qed.

Lemma pull_ok d l n acc :
  parts_ok l n ->
  exists r l' n', pull d l acc = (acc ++ r, l') /\ Forall G r /\ parts_ok l' n' /\ n = (2 * length r + n')%nat /\
    (r = [] -> d = 0%nat \/ l' = l /\ Forall (fun j => jn_queue j = []) l).
Proof.
  revert l n acc. induction d as [|d IH]; intros l n acc Hl; cbn [pull].
  { exists [], l, n. rewrite app_nil_r. split_and!; try done. by left. }
  destruct (closest_queue_spec 0 l (None, Number_MAX_VALUE)) as [(i & q & Hi & Hq & E)|[E Hf]].
  - destruct (closest_queue 0 l (None, Number_MAX_VALUE)) as [o dist]. simpl in E. subst o.
    destruct (shift_queue_ok i l n q Hl Hi Hq) as (x & l1 & n1 & -> & HG & Hl1 & ->). simpl option_list.
    destruct (IH l1 n1 (acc ++ [x]) Hl1) as (r & l2 & n2 & -> & Hr & Hl2 & -> & _).
    exists (x :: r), l2, n2. rewrite <- app_assoc. split_and!; try done; [by constructor|simpl; lia].
  - rewrite E. exists [], l, n. rewrite app_nil_r. split_and!; try done. intros _. right. split; [done|].
    pose proof (parts_queue_near l n Hl) as Hn. simpl in Hf. rewrite Forall_forall in Hf, Hn |- *.
    intros j Hj. specialize (Hf j Hj). specialize (Hn j Hj). destruct (jn_queue j) as [|e es]; [done|].
    specialize (Hf e eq_refl). specialize (Hn e eq_refl). lia.
Qed.

End Parts.

(** Joining keeps progress. *)
Definition join_ok {S} (ok : IteratorOps (IndexedResult Range) S -> S -> nat -> Prop)
    (ops : IteratorOps (IndexedResult Range) (list (Joined S))) (l : list (Joined S)) (n : nat) : Prop :=
  (exists point direction numbers, ops = joinIterator point direction numbers /\
     forall x, G x -> element_dist point direction numbers (ir_value x) < Number_MAX_VALUE) /\
  parts_ok ok l n.

Lemma join_progressive {S} (ok : IteratorOps (IndexedResult Range) S -> S -> nat -> Prop) :
  progressive ok -> progressive (join_ok ok).
Proof.
  intros Hok ops l n [(point & direction & numbers & -> & Hnear) Hl] Hd.
  destruct (fill_parts ok Hok point direction numbers Hnear l n Hl) as (l1 & n1 & E1 & Hl1 & Hsp & Hn1).
  destruct (pull_ok ok c l1 n1 [] Hl1) as (r & l2 & n2 & E2 & Hr & Hl2 & En1 & Hr0).
  exists r, l2, n2. split.
  { cbn [joinIterator it_next]. unfold join_next. rewrite E1. cbn [mbind outcome_bind]. by rewrite E2. }
  clear E2. split; [split; [by exists point, direction, numbers|done]|]. split; [done|].
  assert (Hnil : r = [] -> join_done l2 = Some true).
  { intros Er. destruct (Hr0 Er) as [?|[-> Hempty]]; [lia|]. unfold join_done. f_equal.
    apply forallb_forall. intros j Hj%list_elem_of_In. rewrite Forall_forall in Hsp, Hempty.
    by rewrite (Hsp j Hj (Hempty j Hj)). }
  split; [|intros Er; cbn [joinIterator it_done]; by rewrite Hnil].
  destruct Hn1 as [Hn1|[Hn1 ->]]; [lia|]. destruct r as [|x r]; [|cbn [length] in *; lia].
  exfalso. destruct (Hr0 eq_refl) as [?|[-> _]]; [lia|]. cbn [joinIterator it_done] in Hd.
  by rewrite (Hnil eq_refl) in Hd.
Qed.

End Progress.

(** ** Collecting *)

Section Collecting.
Context (G : IndexedResult Range -> Prop) {L : Type} (collector : Range -> bool -> L -> L) (done : L -> bool) (P : L -> Prop).
Context (HP : forall x m acc, G x -> P acc -> P (collector (ir_value x) m acc)).

Lemma collect_batch_P res roleAge now acc :
  Forall G res -> P acc -> P (collect_batch collector done res roleAge now acc).1.
Proof.
  revert acc. induction res as [|x res IH]; intros acc Hr Ha; [done|]. apply Forall_cons in Hr as [Hx Hr].
  cbn [collect_batch]. case_if_in_goal; [by apply HP|]. apply IH; [done|by apply HP].
Qed.

Lemma collect_loop_ends {S} (ok : IteratorOps (IndexedResult Range) S -> S -> nat -> Prop) fuel it n roleAge now acc :
  progressive G 100 ok -> ok (iter_ops it) (iter_state it) n -> (n < fuel)%nat -> P acc ->
  exists acc', collect_loop collector done fuel it roleAge now acc = Val acc' /\ P acc'.
Proof.
  intros Hok. revert it n acc. induction fuel as [|fuel IH]; intros it n acc Hit Hf Ha; [lia|].
  cbn [collect_loop]. destruct (not_done (it_done (iter_ops it) (iter_state it))) eqn:Ed; simpl; [|by eexists].
  destruct (done acc) eqn:Edone; simpl; [by eexists|].
  destruct (Hok _ _ _ Hit Ed) as (res & s' & n' & En & Hs' & Hres & Hlt & _). rewrite En. cbn [mbind outcome_bind].
  pose proof (collect_batch_P res roleAge now acc Hres Ha) as Hb.
  destruct (collect_batch collector done res roleAge now acc) as [acc' stop]. simpl in Hb.
  destruct stop; [by eexists|]. apply (IH (MkIter (iter_ops it) s') n'); [done|lia|done].
Qed.

End Collecting.

(** ** The sampling *)

Section Samples.
Context {I St : Type} `{JsEnv, !JsEnvLaws, Hashing, Document Range, !RangeDocument, Index I St Range, !IndexLaws I St Range}.
Context (t : resolution) (idx : I) (Hidx : ranges_ok t idx).

Abbreviation stored_result := (fun x => x ∈ idx_contents idx).

(** The iterators of the index: fresh, or started and with results left. *)
Inductive base_ok (ops : IteratorOps (IndexedResult Range) St) (s : St) (n : nat) : Prop :=
| base_fresh qs sorts :
    ops = idx_ops idx -> s = idx_iterate idx (MkIterateOptions (QLMany qs) sorts) ->
    supported (idx_contents idx) qs sorts ->
    n = (2 * Datatypes.S (length (reference_results (idx_contents idx) qs sorts)))%nat -> base_ok ops s n
| base_started :
    ops = idx_ops idx -> started s -> Forall stored_result (remaining idx s) ->
    (it_done ops s = Some true \/ it_done ops s = Some false /\ remaining idx s <> []) ->
    n = (2 * length (remaining idx s))%nat -> base_ok ops s n.

Lemma reference_stored qs sorts x :
  x ∈ reference_results (idx_contents idx) qs sorts -> x ∈ idx_contents idx.
Proof.
  unfold reference_results, order_results. destruct sorts; rewrite ?js_sort_elem, list_elem_of_In, filter_In;
    by intros [?%list_elem_of_In _].
Qed.

Lemma drop_done {A} (l : list A) n : Some (length l <=? n)%nat = Some true \/
  Some (length l <=? n)%nat = Some false /\ drop n l <> [].
Proof.
  destruct (Nat.leb_spec (length l) n) as [Hl|Hl]; [by left|right]. split; [done|].
  intros E. apply (f_equal length) in E. rewrite length_drop in E. simpl in E. lia.
Qed.

Lemma base_progressive c : progressive stored_result (Datatypes.S c) base_ok.
Proof.
  intros ops s n [qs sorts -> -> Hsup -> | -> Hst Hrem Hdone ->] Hd.
  - destruct (law_iterate idx (QLMany qs) qs sorts eq_refl (ranges_idx _ _ Hidx) Hsup) as (_ & Hn & _).
    destruct (Hn c) as (s' & E & Hst & Hrem & Hdone). set (l := reference_results _ qs sorts) in *.
    assert (Hl : Forall stored_result l) by (apply Forall_forall; intros x; apply reference_stored).
    exists (take (Datatypes.S c) l), s', (2 * length (drop (Datatypes.S c) l))%nat. split; [exact E|]. split; [|split].
    + apply base_started; try done; rewrite ?Hrem, ?Hdone; [by apply Forall_drop|apply drop_done|done].
    + by apply Forall_take.
    + split; [rewrite length_take, length_drop; lia|]. intros E0. rewrite Hdone. by destruct l.
  - destruct Hdone as [E|[E Hne]]; [by rewrite E in Hd|].
    destruct (law_next idx s c Hst E) as (s' & En & Hst' & Hrem' & Hdone').
    exists (take (Datatypes.S c) (remaining idx s)), s', (2 * length (drop (Datatypes.S c) (remaining idx s)))%nat.
    split; [exact En|]. split; [|split].
    + apply base_started; try done; rewrite ?Hrem', ?Hdone'; [by apply Forall_drop|apply drop_done|done].
    + by apply Forall_take.
    + rewrite length_take, length_drop. split.
      * assert (0 < length (remaining idx s))%nat by (destruct (remaining idx s); [done|simpl; lia]). lia.
      * intros E0. by destruct (remaining idx s).
Qed.

Lemma reference_length qs sorts :
  (length (reference_results (idx_contents idx) qs sorts) <= length (idx_contents idx))%nat.
Proof.
  unfold reference_results, order_results. destruct sorts; rewrite ?js_sort_length; apply List.filter_length_le.
Qed.

(** The steps of work of a fresh search around a point. *)
Definition search_fuel : nat := 32 * Datatypes.S (length (idx_contents idx)).

Lemma getClosest_ok is_above p includeStrict options :
  0 <= p <= ring t -> time_ok options ->
  exists it n, getClosest is_above idx t p includeStrict (createNumbers t) options = Val it /\
    join_ok stored_result base_ok (iter_ops it) (iter_state it) n /\
    not_done (it_done (iter_ops it) (iter_state it)) = true /\
    (n <= 8 * Datatypes.S (length (idx_contents idx)))%nat.
Proof.
  intros Hp Ht. unfold getClosest.
  destruct (closest_queries_val t is_above includeStrict options p false Hp Ht) as (q1 & -> & Hq1).
  cbn [mbind outcome_bind].
  assert (Hw : 0 <= (if is_above then zero (createNumbers t) else maxValue (createNumbers t)) <= ring t).
  { destruct is_above; [rewrite numbers_zero|change (maxValue (createNumbers t)) with (ring t)];
      pose proof (ring_pos t); lia. }
  destruct (closest_queries_val t is_above includeStrict options _ true Hw Ht) as (q2 & -> & Hq2).
  cbn [mbind outcome_bind].
  assert (Hsup : forall q (P : Range -> bool),
    (forall r, sat_all q (range_js r) = P r /\ covered_all q (range_js r) = true) ->
    supported (idx_contents idx) q (Some (closest_sort is_above))).
  { intros q P Hq r _. unfold doc_of. rewrite range_to_js. split; [by apply Hq|apply closest_sortable]. }
  eexists _, _. split; [done|]. split; [|split].
  - split; [eexists _, _, _; split; [done|]; intros x Hx; by apply (element_near t idx)|].
    eexists _, _. split; [eapply base_fresh; [done|done|exact (Hsup _ _ Hq1)|done]|]. split; [constructor|]. split; [|done].
    eexists _, _. split; [eapply base_fresh; [done|done|exact (Hsup _ _ Hq2)|done]|]. split; [constructor|]. by split.
  - cbn [join iter_ops iter_state joinIterator it_done]. unfold join_done. cbn [map forallb jn_ops jn_state iter_of iter_ops iter_state].
    destruct (law_iterate idx (QLMany q1) q1 (Some (closest_sort is_above)) eq_refl (ranges_idx _ _ Hidx) (Hsup _ _ Hq1))
      as (Hd & _). by rewrite Hd.
  - cbn [length]. pose proof (reference_length q1 (Some (closest_sort is_above))).
    pose proof (reference_length q2 (Some (closest_sort is_above))). cbn [jn_queue length]. lia.
Qed.

Lemma collectClosestAround_ends {L} (collector : Range -> bool -> L -> L) done_ (P : L -> Prop) fuel roleAge p now acc :
  (forall x m acc, x ∈ idx_contents idx -> P acc -> P (collector (ir_value x) m acc)) ->
  0 <= p <= ring t -> (search_fuel < fuel)%nat -> P acc ->
  exists acc', collectClosestAround collector done_ fuel roleAge idx t p now (createNumbers t) acc = Val acc' /\ P acc'.
Proof.
  intros HP Hp Hf Ha. unfold collectClosestAround.
  destruct (getClosest_ok false p false no_options Hp Logic.I) as (it1 & n1 & -> & H1' & _ & Hn1). cbn [mbind outcome_bind].
  destruct (getClosest_ok true p false no_options Hp Logic.I) as (it2 & n2 & -> & H2' & _ & Hn2). cbn [mbind outcome_bind].
  apply (collect_loop_ends stored_result collector done_ P HP
    (join_ok stored_result (join_ok stored_result base_ok)) _ _ (2 * (n1 + 0) + (2 * (n2 + 0) + 0))).
  - apply join_progressive; [lia|]. apply join_progressive; [lia|]. apply base_progressive.
  - split; [eexists _, _, _; split; [done|]; intros x Hx; by apply (element_near t idx)|].
    eexists _, _. split; [exact H1'|]. split; [constructor|]. split; [|done].
    eexists _, _. split; [exact H2'|]. split; [constructor|]. by split.
  - unfold search_fuel in Hf. lia.
  - done.
Qed.

(** What the leaders say, where [T] are the owners found to intersect. *)
Record sampled (only : bool) (T : string -> Prop) (s : Sampling) : Prop := {
  sampled_true h : Map_get (leaders s) h = Some true <-> T h;
  sampled_false h : Map_get (leaders s) h = Some false -> only = false /\ exists r, r ∈ ranges idx /\ r_hash r = h;
}.

Lemma sampled_around T i x m s :
  x ∈ idx_contents idx -> sampled false T s -> sampled false T (sample_around i (ir_value x) m s).
Proof.
  intros Hx [Ht Hf]. unfold sample_around. destruct m; [|by split].
  destruct (Map_get (leaders s) (r_hash (ir_value x))) as [b|] eqn:E; [by split|].
  split; intros h; simpl; rewrite Map_get_set; case_decide as Hh; subst; try done.
  - rewrite <- Ht, E. split; by intros.
  - intros _. split; [done|]. exists (ir_value x). split; [by apply list_elem_of_fmap_2|done].
  - apply Hf.
Qed.

Lemma sampled_containing only roleAge now T l s :
  sampled only T s ->
  sampled only (fun h => T h \/ exists x, x ∈ l /\ r_hash (ir_value x) = h) (fold_left (sample_containing roleAge now) l s).
Proof.
  revert T s. induction l as [|x l IH]; intros T s [Ht Hf]; simpl.
  - split; [|done]. intros h. rewrite Ht. split; [by left|]. intros [?|(? & ?%elem_of_nil & _)]; done.
  - destruct (IH (fun h => T h \/ r_hash (ir_value x) = h) (sample_containing roleAge now s x)) as [Ht' Hf'].
    { split; intros h; simpl; rewrite Map_get_set; case_decide as Hh; subst; try done.
      - split; [by right|done].
      - rewrite Ht. split; [by left|]. intros [?|?]; [done|congruence].
      - apply Hf. }
    split; [|done]. intros h. rewrite Ht'. setoid_rewrite elem_of_cons. naive_solver.
Qed.

(** The owners of ranges at one of the cursors. *)
Definition found_at (cursor : list Z) (h : string) : Prop :=
  exists r p, r ∈ ranges idx /\ p ∈ cursor /\ contains r p = true /\ r_hash r = h.

(** With the owners given, the loop may end before it has seen every cursor. *)
Lemma samples_loop_any fuel o roleAge now T cursor i s :
  (search_fuel < fuel)%nat -> Forall (fun p => 0 <= p <= ring t) cursor ->
  sampled (onlyIntersecting o) T s ->
  exists s' T', samples_loop fuel i cursor idx t roleAge now (createNumbers t) o s = Val s' /\
    sampled (onlyIntersecting o) T' s' /\ (forall h, T h -> T' h) /\ (forall h, T' h -> T h \/ found_at cursor h) /\
    (uniqueReplicators o = None -> forall h, found_at cursor h -> T' h) /\ (forall h, found_at (take 1 cursor) h -> T' h).
Proof.
  intros Hf. revert T i s. induction cursor as [|p cursor IH]; intros T i s Hc Hs; cbn [samples_loop].
  { exists s, T. split_and!; try done; [by intros h; left|..]; [intros _|]; by intros h (? & ? & _ & ?%elem_of_nil & _). }
  apply Forall_cons in Hc as [Hp Hc].
  unfold allRangesContainingPoint. cbn [point_list foldM].
  pose proof (containing_one_val t idx p Hidx Hp) as E.
  pose proof (fun x => containing_one_elem t idx p _ x Hidx Hp E) as Hmem. rewrite E. cbn [mbind outcome_bind app].
  set (l := _ ++ _) in *. pose proof (sampled_containing _ roleAge now T l s Hs) as Hs1.
  set (s1 := fold_left _ l s) in *. set (T1 := fun h => T h \/ exists x, x ∈ l /\ r_hash (ir_value x) = h) in *.
  assert (HT1 : forall h, T1 h -> T h \/ found_at (p :: cursor) h).
  { intros h [?|(x & Hx%Hmem & Hh)]; [by left|right]. exists (ir_value x), p. destruct Hx.
    split; [by apply list_elem_of_fmap_2|]. split; [by left|done]. }
  assert (Hfirst : forall h, found_at (take 1 (p :: cursor)) h -> T1 h).
  { intros h (r & q & Hr & ->%list_elem_of_singleton & Hcq & Hh). right. apply list_elem_of_fmap in Hr as (x & -> & Hx). exists x. split; [by apply Hmem|done]. }
  assert (Hrest : forall s2 k, sampled (onlyIntersecting o) T1 s2 ->
    exists s' T', samples_loop fuel k cursor idx t roleAge now (createNumbers t) o s2 = Val s' /\
      sampled (onlyIntersecting o) T' s' /\ (forall h, T h -> T' h) /\ (forall h, T' h -> T h \/ found_at (p :: cursor) h) /\
      (uniqueReplicators o = None -> forall h, found_at (p :: cursor) h -> T' h) /\ (forall h, found_at (take 1 (p :: cursor)) h -> T' h)).
  { intros s2 k Hs2. destruct (IH T1 k s2 Hc Hs2) as (s' & T' & E' & Hs' & Hup & Hlow & Hall & _).
    exists s', T'. split; [done|]. split; [done|]. split; [intros h Hh; apply Hup; by left|]. split; [|split].
    - intros h [Hh|(r & q & Hr & Hq & Hh)]%Hlow; [by apply HT1|right]. exists r, q. split; [done|]. split; [by right|done].
    - intros Ho h (r & q & Hr & Hq & Hcq & Hh). apply elem_of_cons in Hq as [->|Hq].
      + apply Hup. right. apply list_elem_of_fmap in Hr as (x & -> & Hx). exists x. split; [by apply Hmem|done].
      + apply (Hall Ho). by exists r, q.
    - intros h Hh. by apply Hup, Hfirst. }
  destruct (nothing_more o s1) eqn:En.
  { exists s1, T1. split_and!; try done; [by intros h; left|]. intros Ho. unfold nothing_more in En. by rewrite Ho in En. }
  destruct (onlyIntersecting o) eqn:Eo; cbn [orb]; [by apply Hrest|].
  destruct (i <? sampled_matured s1)%nat; [by apply Hrest|].
  destruct (collectClosestAround_ends (sample_around i) foundOneUniqueMatured (sampled false T1) fuel roleAge p now
    (MkSampling (leaders s1) (sampled_matured s1) (uniqueVisited s1) false)) as (s2 & -> & Hs2); [|done|done| |].
  - intros x m acc Hx. by apply sampled_around.
  - destruct Hs1. by split.
  - cbn [mbind outcome_bind]. by apply Hrest.
Qed.

End Samples.

(** C34. getSamples ends, on every well-formed index, whatever the options, with fuel
    that is linear in the number of ranges, and its answer is sound: a replicator it
    names owns a stored range, one that is marked as intersecting owns a range at
    one of the cursors, and when only intersecting ones are asked for there are no
    others. The owners of the ranges at the first cursor are always marked. Only
    when the set of unique replicators is not given are those at all cursors marked
    for sure; when it is given, as _findLeaders always does, the loop may end early
    and miss owners at later cursors (finding). The cursors lie on the ring. *)
Theorem getSamples_correct {I St : Type}
    `{JsEnv, !JsEnvLaws, Hashing, Document Range, !RangeDocument, Index I St Range, !IndexLaws I St Range}
    (t : resolution) (idx : I) (fuel : nat) (cursor : list Z) (roleAge now : Z) (o : SampleOptions) :
  ranges_ok t idx -> (search_fuel idx < fuel)%nat -> Forall (fun p => 0 <= p <= ring t) cursor ->
  let owner_at points h := exists r p, r ∈ ranges idx /\ p ∈ points /\ contains r p = true /\ r_hash r = h in
  exists m, getSamples fuel cursor idx t roleAge now (createNumbers t) o = Val m /\
    forall h,
      (Map_get m h = Some true -> owner_at cursor h) /\
      (Map_get m h = Some false -> onlyIntersecting o = false /\ exists r, r ∈ ranges idx /\ r_hash r = h) /\
      (owner_at (take 1 cursor) h -> Map_get m h = Some true) /\
      (uniqueReplicators o = None -> owner_at cursor h -> Map_get m h = Some true).
Proof.
  intros Hidx Hf Hc owner_at. unfold getSamples.
  destruct (samples_loop_any t idx Hidx fuel o roleAge now (fun _ => False) cursor 0 (MkSampling [] 0 [] false))
    as (s & T & -> & [Ht Hfl] & _ & Hlow & Hall & Hfirst); [done..|by split|].
  exists (leaders s). split; [done|]. intros h. split; [|split; [apply Hfl|split]]; rewrite Ht; [by intros [[]|Hh]%Hlow|apply Hfirst|intros Ho; by apply Hall].
Qed.

(** With the set of replicators given: still an answer, and a sound one. *)
Lemma getSamples_sound {I St : Type}
    `{JsEnv, !JsEnvLaws, Hashing, Document Range, !RangeDocument, Index I St Range, !IndexLaws I St Range}
    (t : resolution) (idx : I) (fuel : nat) (cursor : list Z) (roleAge now : Z) (o : SampleOptions) :
  ranges_ok t idx -> (search_fuel idx < fuel)%nat -> Forall (fun p => 0 <= p <= ring t) cursor ->
  exists m, getSamples fuel cursor idx t roleAge now (createNumbers t) o = Val m /\
    forall h b, Map_get m h = Some b -> (exists r, r ∈ ranges idx /\ r_hash r = h) /\ (b = true -> found_at idx cursor h).
Proof.
  intros Hidx Hf Hc. unfold getSamples.
  destruct (samples_loop_any t idx Hidx fuel o roleAge now (fun _ => False) cursor 0 (MkSampling [] 0 [] false))
    as (s & T & -> & [Ht Hfl] & _ & Hlow & _ & _); [done..|by split|].
  exists (leaders s). split; [done|]. intros h [|] Hm.
  - apply Ht, Hlow in Hm as [[]|Hm]. split; [|done]. destruct Hm as (r & p & Hr & _ & _ & Hh). by exists r.
  - apply Hfl in Hm as [_ Hr]. by split.
Qed.
