(* ===== verification/CoverSet.v ===== *)
(** * The set of replicators to ask
    (packages/programs/data/shared-log/src/ranges.ts, part 5)

    [getCoverSet] walks the ring from a starting point and collects replicators
    until a given width is covered: it finds a starting node
    ([getStartAndEnd]), then repeatedly takes the range that contains the next
    location, or the closest one above it, among the mature ranges and, where
    there is none, among all of them. *)

From Stdlib Require Import ZArith Lia.
From stdpp Require Import base list strings sorting.
From S2P Require Import Prelude JsMap JsVal Query IndexInterface Integers Ranges RangeFacts RangeQueries RangeIterators RangeIteratorsFacts RangeSampling.

Local Open Scope Z_scope.

Section Cover.
Context {I St : Type} `{JsEnv, Hashing, Index I St Range}.

(** The [start] argument. *)
Inductive StartArg := StartKey (k : PublicSignKey) | StartPoint (p : Z) | StartAnywhere.

Definition minimumWidthToCover (minReplicas : positive) (numbers : Numbers) : Z :=
  divRound numbers (maxValue numbers) minReplicas.

Definition fetchOneFromPublicKey (publicKey : PublicSignKey) (index : I) (t : resolution)
    (numbers : Numbers) (options : ClosestOptions) : outcome (option Range) :=
  '(result, _) ← it_next (idx_ops index) 1
    (idx_iterate index (MkIterateOptions (QLMany [new_StringMatch "hash"%string (hashcode publicKey) None None]) None));
  match ir_value <$> head result with
  | None => Val None
  | Some node =>
      match co_time options with
      | Some tm =>
          if negb (isMatured (r_timestamp node) (now tm) (roleAgeLimit tm)) then
            it ← getClosestAroundOrContaining index t (r_start1 node) false false numbers options;
            matured_ ← fetchOneSeries it;
            Val (Some (default node matured_))
          else Val (Some node)
      | None => Val (Some node)
      end
  end.

(** [startNode], [startLocation] and [endLocation]. *)
Record StartEnd := MkStartEnd { se_node : option Range; se_start : Z; se_end : Z }.

(** How far the start point lies in front of the start node. *)
Definition covered_distance_to_start (numbers : Numbers) (node : Range) (startLocation : Z) : Z :=
  if r_start1 node <? startLocation then zero numbers + (maxValue numbers - startLocation + r_start1 node)
  else zero numbers + (r_start1 node - startLocation).

(** [random] is what [numbers.random()] returns. *)
Definition getStartAndEnd (peers : I) (t : resolution) (start : StartArg) (widthToCoverScaled random : Z)
    (numbers : Numbers) (options : ClosestOptions) : outcome StartEnd :=
  let nodeFromPoint point :=
    n ← fetchOneClosest peers t point false true numbers options; Val (n, point) in
  '(startNode, startLocation) ←
    match start with
    | StartKey k =>
        n ← fetchOneFromPublicKey k peers t numbers options;
        match n with
        | None => nodeFromPoint random
        | Some node => Val (Some node, r_start1 node)
        end
    | StartPoint p => nodeFromPoint p
    | StartAnywhere => nodeFromPoint random
    end;
  match startNode with
  | None => Val (MkStartEnd None (zero numbers) (zero numbers))
  | Some node =>
      let endLocation := Z.rem (startLocation + widthToCoverScaled) (maxValue numbers) in
      if negb (contains node startLocation) &&
         (bool_decide (r_mode node = Strict) &&
          (widthToCoverScaled <? covered_distance_to_start numbers node startLocation))
      then Val (MkStartEnd None (zero numbers) (zero numbers))
      else Val (MkStartEnd (Some node) startLocation endLocation)
  end.

(** [eager]: false, true, or the size of the batch. *)
Inductive EagerArg := EagerOff | EagerOn | EagerSize (unmaturedFetchCoverSize : option nat).

Definition eager_fetch (e : EagerArg) : option nat :=
  match e with
  | EagerOff => None
  | EagerOn => Some 1000%nat
  | EagerSize n => Some (default 1000%nat n)
  end.

Record CoverState := MkCover {
  cv_current : Range;
  cv_wrappedOnce : bool;
  cv_coveredLength : Z;
  cv_maturedCoveredLength : Z;
  cv_nextLocation : Z;
  cv_ret : list string;
}.

Section Walk.
Context (peers : I) (t : resolution) (numbers : Numbers) (now_ : Z).

Definition mature_time (roleAge : Z) : TimeOption := MkTime roleAge true now_.

Definition resolveNextContaining (nextLocation roleAge : Z) : outcome (option Range) :=
  st ← iterateRangesContainingPoint peers t (OnePoint nextLocation)
         (Some [new_Sort "end2"%string (Some (DirEnum DESC))]) (Some (mature_time roleAge));
  fetchOne (MkIter (idx_ops peers) st).

Definition resolveNextAbove (nextLocation roleAge : Z) : outcome (option Range) :=
  it ← getClosest true peers t nextLocation true numbers (MkClosestOptions None (Some (mature_time roleAge)));
  fetchOne it.

Definition resolveNext (nextLocation roleAge : Z) : outcome (option Range * bool) :=
  containing ← resolveNextContaining nextLocation roleAge;
  match containing with
  | Some c => Val (Some c, true)
  | None => a ← resolveNextAbove nextLocation roleAge; Val (a, false)
  end.

(** [addLength(from)] for the range [current]. *)
Definition addLength (current : Range) (from : Z) (wrappedOnce : bool) (coveredLength : Z) : bool * Z :=
  if (r_end2 current <? from) || wrapped current
  then (true, coveredLength + (maxValue numbers - from) + r_end2 current)
  else (wrappedOnce, coveredLength + (r_end1 current - from)).

(** The distance of the nearer end of a range to the end location. *)
Definition end_distance (r : Range) (endLocation : Z) : Z :=
  num_min numbers (getDistance (r_start1 r) endLocation closest (maxValue numbers))
                  (getDistance (r_end2 r) endLocation closest (maxValue numbers)).

(** The candidate of a round, and whether it was found among the mature ranges. *)
Definition nextCandidate (nextLocation roleAge : Z) : outcome ((option Range * bool) * bool) :=
  first ← resolveNext nextLocation roleAge;
  match first.1 with
  | Some _ => Val (first, true)
  | None => second ← resolveNext nextLocation 0; Val (second, false)
  end.

(** One round of the [while] loop; [inr] is a [break]. *)
Definition cover_step (roleAge widthToCoverScaled endLocation : Z) (endIsWrapped : bool) (s : CoverState)
    : outcome (CoverState + CoverState) :=
  '(candidate, matured_) ← nextCandidate (cv_nextLocation s) roleAge;
  match candidate.1 with
  | None => Val (inr s)
  | Some next =>
      if bool_decide (r_id next = r_id (cv_current s)) then Val (inr s)
      else
        let last_ := cv_current s in
        let distanceBefore := cv_coveredLength s in
        let '(wrappedOnce, coveredLength) :=
          addLength next (cv_nextLocation s) (cv_wrappedOnce s) (cv_coveredLength s) in
        let isLast := (distanceBefore <? widthToCoverScaled) && (widthToCoverScaled <=? coveredLength) in
        let ret :=
          if negb isLast || candidate.2 || (end_distance next endLocation <? end_distance last_ endLocation)
          then Set_add (cv_ret s) (r_hash next) else cv_ret s in
        if isLast && negb candidate.2
        then Val (inr (MkCover next wrappedOnce coveredLength (cv_maturedCoveredLength s) (cv_nextLocation s) ret))
        else
          let nextLocation :=
            if endIsWrapped
            then (if wrappedOnce then num_min numbers (r_end2 next) endLocation else r_end2 next)
            else num_min numbers (r_end2 next) endLocation in
          Val (inl (MkCover next wrappedOnce coveredLength
                      (if matured_ : bool then coveredLength else cv_maturedCoveredLength s) nextLocation ret))
  end.

Fixpoint cover_loop (fuel : nat) (roleAge widthToCoverScaled endLocation : Z) (endIsWrapped : bool)
    (s : CoverState) : outcome CoverState :=
  match fuel with
  | O => NoFuel
  | S fuel' =>
      if (cv_maturedCoveredLength s <? widthToCoverScaled) && (cv_coveredLength s <=? maxValue numbers) then
        r ← cover_step roleAge widthToCoverScaled endLocation endIsWrapped s;
        match r with
        | inl s' => cover_loop fuel' roleAge widthToCoverScaled endLocation endIsWrapped s'
        | inr s' => Val s'
        end
      else Val s
  end.

Definition getCoverSet (fuel : nat) (start : StartArg) (widthToCoverScaled roleAge random : Z)
    (eager : EagerArg) : outcome (list string) :=
  se ← getStartAndEnd peers t start widthToCoverScaled random numbers
         (MkClosestOptions None (Some (mature_time roleAge)));
  ret ← match eager_fetch eager with
        | None => Val []
        | Some eagerFetch =>
            q ← IntCmp "timestamp" GreaterOrEqual (IBig (now_ - roleAge));
            '(rects, _) ← it_next (idx_ops peers) eagerFetch
              (idx_iterate peers (MkIterateOptions (QLMany [q]) None));
            Val (fold_left (fun ret r => Set_add ret (r_hash (ir_value r))) rects [])
        end;
  match se_node se with
  | None => Val ret
  | Some startNode =>
      let endIsWrapped := se_end se <=? se_start se in
      let '(wrappedOnce, coveredLength) :=
        addLength startNode (se_start se) (r_end2 startNode <? r_end1 startNode) (zero numbers) in
      s ← cover_loop fuel roleAge widthToCoverScaled (se_end se) endIsWrapped
            (MkCover startNode wrappedOnce coveredLength coveredLength (r_end2 startNode)
                     (Set_add ret (r_hash startNode)));
      Val (match start with StartKey k => Set_add (cv_ret s) (hashcode k) | _ => cv_ret s end)
  end.

End Walk.
End Cover.

(** * The walk of [getCoverSet] ends

    Every search of the walk succeeds, every round either moves the covered
    length forward or brings the next location to a place from which the next
    round stops, so the walk ends; and it only names owners of stored ranges. *)

(** One request for one result from two iterators in a row. *)
Lemma series_one {R S1 S2} (ops1 : IteratorOps R S1) (ops2 : IteratorOps R S2) s1 s2 r1 s1' r2 s2' :
  not_done (it_done ops1 s1) = true -> it_next ops1 1 s1 = Val (r1, s1') ->
  (r1 = [] -> not_done (it_done ops1 s1') = false) ->
  not_done (it_done ops2 s2) = true -> it_next ops2 1 s2 = Val (r2, s2') ->
  (r2 = [] -> not_done (it_done ops2 s2') = false) ->
  exists res s', series_next ops1 ops2 1 (series_start s1 s2) = Val (res, s') /\
    head res = match r1 with x :: _ => Some x | [] => head r2 end.
Proof.
  intros Hd1 E1 Hr1 Hd2 E2 Hr2. unfold series_next, series_start.
  rewrite (series_round_first _ _ _ _ _ _ _ _ _ Hd1 E1). cbv zeta. rewrite app_nil_l.
  destruct r1 as [|x r1]; [|by do 2 eexists].
  rewrite (Hr1 eq_refl). cbn [length Nat.leb]. cbv iota.
  rewrite (series_round_second _ _ _ _ _ _ _ _ _ Hd2 E2). rewrite app_nil_l.
  destruct r2 as [|y r2]; [rewrite (Hr2 eq_refl); by do 2 eexists|].
  cbn [length Nat.leb]. cbv iota. destruct (not_done (it_done ops2 s2')); by do 2 eexists.
Qed.

Section Walk.
Context {I St : Type} `{JsEnv, !JsEnvLaws, Hashing, Document Range, !RangeDocument, Index I St Range, !IndexLaws I St Range}.
Context (t : resolution) (idx : I) (Hidx : ranges_ok t idx) (now_ : Z).

Abbreviation numbers := (createNumbers t).

Definition age_ok (age : Z) : Prop := 0 <= now_ - age <= MAX_U64.

Lemma stored_range x : x ∈ idx_contents idx -> ir_value x ∈ ranges idx.
Proof. apply list_elem_of_fmap_2. Qed.

Lemma range_bounds r :
  r ∈ ranges idx -> shape r /\ r_type r = t /\ 0 <= r_start1 r <= ring t /\ 0 <= r_end2 r <= ring t.
Proof.
  intros Hr. destruct Hidx as [_ Hall]. rewrite Forall_forall in Hall. destruct (Hall r Hr) as [Ht _ Hs].
  split_and!; try done; rewrite <- ?Ht; destruct Hs; lia.
Qed.

Lemma time_query_val age :
  age_ok age ->
  IntCmp "timestamp" LessOrEqual (IBig (now_ - age)) =
    Val (IntegerCompare ["timestamp"%string] LessOrEqual (BigUnsignedIntegerValue (now_ - age))).
Proof. apply IntCmp_time. Qed.

(** The containing ranges, mature ones or all, in any sort order by one field. *)
Lemma containing_first p tm sorts :
  0 <= p <= ring t -> match tm with Some tm => matured tm = true /\ 0 <= now tm - roleAgeLimit tm <= MAX_U64 | None => True end ->
  (sorts = None \/ sorts = Some [new_Sort "end2"%string (Some (DirEnum DESC))]) ->
  exists st r st', iterateRangesContainingPoint idx t (OnePoint p) sorts tm = Val st /\
    it_done (idx_ops idx) st = None /\ it_next (idx_ops idx) 1 st = Val (option_list r, st') /\
    (r = None -> not_done (it_done (idx_ops idx) st') = false) /\
    (forall x, r = Some x -> x ∈ idx_contents idx /\ contains (ir_value x) p = true).
Proof.
  intros Hp Htm Hsorts. unfold iterateRangesContainingPoint.
  assert (Eq : exists ql qs, createContainingPointQuery t (OnePoint p) tm = Val ql /\ toQuery ql = Val qs /\
    forall r, covered_all qs (range_js r) = true /\ (sat_all qs (range_js r) = true -> contains r p = true)).
  { unfold createContainingPointQuery, containing_ors. cbn [point_list foldM]. rewrite !arc_query_val by done.
    cbn [mbind outcome_bind]. destruct tm as [tm|].
    - destruct Htm as [-> Htm]. rewrite IntCmp_time by done.
      exists (QLMany [containing_q t p; IntegerCompare ["timestamp"%string] LessOrEqual
        (BigUnsignedIntegerValue (now tm - roleAgeLimit tm))]). eexists. split; [reflexivity|]. split; [done|].
      intros r. destruct (sat_containing t r p) as [Hs Hc]. unfold sat_all, covered_all. cbn [forallb].
      destruct (int_fields r) as (_ & _ & _ & _ & _ & Hts & _).
      pose proof (covered_int r "timestamp" LessOrEqual (BigUnsignedIntegerValue (now tm - roleAgeLimit tm)) _ Hts) as Hct.
      rewrite Hs, Hc, Hct. split; [done|]. by intros [? _]%andb_true_iff.
    - exists (QLOne (containing_q t p)), [containing_q t p]. split; [reflexivity|]. split; [reflexivity|]. intros r.
      destruct (sat_containing t r p) as [Hs Hc]. unfold sat_all, covered_all. cbn [forallb].
      rewrite Hs, Hc. split; [done|]. by rewrite andb_true_r. }
  destruct Eq as (ql & qs & -> & Hql & Hqs). cbn [mbind outcome_bind].
  destruct (law_iterate idx ql qs sorts Hql (ranges_idx _ _ Hidx)) as (Hd & Hn & _).
  { intros r _. unfold doc_of. rewrite range_to_js. split; [apply Hqs|]. by destruct Hsorts as [->| ->]. }
  destruct (Hn 0%nat) as (st' & E & _ & _ & Hd').
  set (l := reference_results _ _ _) in *. exists (idx_iterate idx (MkIterateOptions ql sorts)), (head l), st'.
  split; [done|]. split; [done|]. split; [by destruct l as [|x l]; [|simpl in E; rewrite take_0 in E]|]. split.
  - intros Hl. rewrite Hd'. by destruct l.
  - intros x Hx. assert (Hin : x ∈ l) by (destruct l; simplify_eq/=; by left).
    subst l. unfold reference_results in Hin.
    assert (Hin' : x ∈ List.filter (fun r => sat_all qs (doc_of r)) (idx_contents idx)).
    { unfold order_results in Hin. destruct sorts; [|done]. by apply js_sort_elem in Hin. }
    apply list_elem_of_In, filter_In in Hin' as [Hin1%list_elem_of_In Hin2]. split; [done|].
    unfold doc_of in Hin2. rewrite range_to_js in Hin2. by apply Hqs.
Qed.

(** ** The searches of a round *)

(** What a search may return at a location. *)
Definition candidate_ok (loc : Z) (o : option Range) (containing : bool) : Prop :=
  forall r, o = Some r -> r ∈ ranges idx /\ 0 < r_width r /\ (containing = true -> contains r loc = true).

Lemma contains_width r p : shape r -> contains r p = true -> 0 < r_width r.
Proof. intros Hs Hc%contains_spec. destruct Hs; lia. Qed.

Lemma resolveNext_ok loc age :
  0 <= loc <= ring t -> age_ok age ->
  exists o b, resolveNext idx t numbers now_ loc age = Val (o, b) /\ candidate_ok loc o b.
Proof.
  intros Hl Ha. unfold resolveNext, resolveNextContaining.
  destruct (containing_first loc (Some (mature_time now_ age)) (Some [new_Sort "end2"%string (Some (DirEnum DESC))]))
    as (st & r & st' & -> & Hd & En & _ & Hr); [done|done|by right|].
  cbn [mbind outcome_bind]. unfold fetchOne at 1. cbn [iter_ops iter_state]. rewrite En. cbn [mbind outcome_bind].
  destruct r as [x|]; cbn [option_list head fmap option_fmap option_map].
  - eexists _, _. split; [done|]. intros r [= <-]. destruct (Hr x eq_refl) as [Hin Hc].
    apply stored_range in Hin. split; [done|]. split; [|done]. by apply (contains_width _ loc), Hc; apply range_bounds.
  - unfold resolveNextAbove.
    destruct (getClosest_first t idx true true loc (MkClosestOptions None (Some (mature_time now_ age))) Hidx Hl Ha)
      as (it & res & it' & -> & En' & Hres). cbn [mbind outcome_bind].
    unfold fetchOne. rewrite En'. cbn [mbind outcome_bind]. eexists _, _. split; [done|].
    intros r Hr'. destruct res as [w|]; [|done]. simpl in Hr'. injection Hr' as <-.
    destruct Hres as (Hin & Had & _). split; [by apply stored_range|]. split; [|done].
    unfold closest_admits in Had. rewrite !andb_true_iff in Had. lia.
Qed.

Lemma nextCandidate_ok loc age :
  0 <= loc <= ring t -> age_ok age -> age_ok 0 ->
  exists o b m, nextCandidate idx t numbers now_ loc age = Val (o, b, m) /\ candidate_ok loc o b.
Proof.
  intros Hl Ha H0'. unfold nextCandidate. destruct (resolveNext_ok loc age Hl Ha) as (o & b & -> & Ho).
  cbn [mbind outcome_bind fst]. destruct o as [r|]; [by do 3 eexists|].
  destruct (resolveNext_ok loc 0 Hl H0') as (o & b' & -> & Ho'). by do 3 eexists.
Qed.

(** ** Rounds *)

(** A range never takes the covered length back, and leaves it where it is only
    when it ends exactly at the location. *)
Lemma addLength_forward r from w cov w' cov' :
  r ∈ ranges idx -> 0 < r_width r -> 0 <= from <= ring t -> addLength numbers r from w cov = (w', cov') ->
  cov <= cov' /\ (cov' = cov -> r_end2 r = from).
Proof.
  intros Hr Hw Hfrom E. destruct (range_bounds r Hr) as (Hs & Ht & _). unfold addLength in E.
  change (maxValue numbers) with (ring t) in E.
  assert (Hwr : wrapped r = (r_end2 r <? r_end1 r)) by (unfold wrapped; by destruct (r_type r)).
  rewrite Hwr in E. destruct Hs; rewrite Ht in *; case_ifs_all; simplify_eq; lia.
Qed.

Definition owners (h : string) : Prop := exists r, r ∈ ranges idx /\ r_hash r = h.

Lemma Set_add_owners ret h : Forall owners ret -> owners h -> Forall owners (Set_add ret h).
Proof. intros Hr Hh. apply Forall_forall. intros x Hx%Set_add_elem. rewrite Forall_forall in Hr. naive_solver. Qed.

Record walk_ok (s : CoverState) : Prop := {
  walk_next : 0 <= cv_nextLocation s <= ring t;
  walk_ret : Forall owners (cv_ret s);
}.

Section Loop.
Context (age width E : Z) (endIsWrapped : bool).
Context (Hage : age_ok age) (Hage0 : age_ok 0) (HE : 0 <= E <= ring t).

(** The next round meets the current range again, or nothing. *)
Definition will_stop (s : CoverState) : bool :=
  match nextCandidate idx t numbers now_ (cv_nextLocation s) age with
  | Val (Some n, _, _) => bool_decide (r_id n = r_id (cv_current s))
  | _ => true
  end.

Definition phase (s : CoverState) : Z :=
  if will_stop s then 0 else if cv_nextLocation s =? E then 1 else 2.

Lemma cover_step_ok s :
  walk_ok s ->
  exists r, cover_step idx t numbers now_ age width E endIsWrapped s = Val r /\
    match r with
    | inr s' => walk_ok s'
    | inl s' => walk_ok s' /\ cv_coveredLength s <= cv_coveredLength s' /\
                (cv_coveredLength s' = cv_coveredLength s -> phase s' < phase s)
    end.
Proof.
  intros [Hn Hret].
  destruct (nextCandidate_ok (cv_nextLocation s) age Hn Hage Hage0) as (o & b & m & Ec & Ho).
  unfold cover_step. rewrite Ec. cbn [mbind outcome_bind fst snd].
  destruct o as [n|]; [|by eexists; split; [done|by split]].
  destruct (Ho n eq_refl) as (Hin & Hw & _). case_bool_decide as Hid; [by eexists; split; [done|by split]|].
  destruct (addLength numbers n (cv_nextLocation s) (cv_wrappedOnce s) (cv_coveredLength s)) as [w' cov'] eqn:Ea.
  destruct (addLength_forward _ _ _ _ _ _ Hin Hw Hn Ea) as [Hmono Hzero].
  destruct (range_bounds n Hin) as (_ & _ & _ & He2). cbv zeta. rewrite numbers_min.
  match goal with |- context [Set_add (cv_ret s) (r_hash n)] => idtac end.
  assert (Hret' : forall c : bool, Forall owners (if c then Set_add (cv_ret s) (r_hash n) else cv_ret s)).
  { intros []; [|done]. apply Set_add_owners; [done|by exists n]. }
  match goal with |- context [if ?isLast && negb b then _ else _] => destruct (isLast && negb b) end.
  { eexists. split; [done|]. split; [done|apply Hret']. }
  eexists. split; [done|]. cbn [cv_coveredLength]. split; [split; [cbn [cv_nextLocation]; case_ifs_all; lia|apply Hret']|].
  split; [done|]. intros Hz. specialize (Hzero Hz).
  assert (Hstop : will_stop s = false) by (unfold will_stop; rewrite Ec; by apply bool_decide_false).
  unfold phase at 2. rewrite Hstop. unfold phase. cbn [cv_nextLocation].
  set (nx := if endIsWrapped then _ else _).
  assert (Hnx : nx = cv_nextLocation s \/ nx = E) by (subst nx; case_ifs_all; lia).
  destruct (Z.eqb_spec nx (cv_nextLocation s)) as [Esame|Hdiff].
  - match goal with |- (if ?ws then _ else _) < _ => assert (Hws : ws = true) end.
    { unfold will_stop. cbn [cv_nextLocation cv_current]. fold nx. rewrite Esame, Ec. by apply bool_decide_true. }
    rewrite Hws. case_if_in_goal; lia.
  - destruct Hnx as [?|Hnx]; [done|]. rewrite (proj2 (Z.eqb_neq (cv_nextLocation s) E)) by lia.
    rewrite (proj2 (Z.eqb_eq nx E)) by done. case_if_in_goal; lia.
Qed.

Lemma phase_range s : 0 <= phase s <= 2.
Proof. unfold phase. case_ifs_all; lia. Qed.

Lemma cover_loop_ends fuel s :
  walk_ok s -> 3 * Z.max 0 (ring t + 1 - cv_coveredLength s) + phase s < Z.of_nat fuel ->
  exists s', cover_loop idx t numbers now_ fuel age width E endIsWrapped s = Val s' /\ walk_ok s'.
Proof.
  revert s. induction fuel as [|fuel IH]; intros s Hs Hf; [pose proof (phase_range s); lia|].
  cbn [cover_loop]. change (maxValue numbers) with (ring t).
  destruct ((cv_maturedCoveredLength s <? width) && (cv_coveredLength s <=? ring t)) eqn:Eg; [|by eexists].
  destruct (cover_step_ok s Hs) as (r & -> & Hr). cbn [mbind outcome_bind].
  destruct r as [s'|s']; [|by eexists]. destruct Hr as (Hs' & Hmono & Hph). apply IH; [done|].
  pose proof (phase_range s). pose proof (phase_range s').
  destruct (Z.eq_dec (cv_coveredLength s') (cv_coveredLength s)) as [Heq|Hne]; [specialize (Hph Heq); lia|lia].
Qed.

End Loop.

(** ** Where the walk starts *)

Lemma around_ok p below_ above_ options :
  0 <= p <= ring t -> time_ok options ->
  match co_time options with Some tm => matured tm = true | None => True end ->
  exists it o, getClosestAroundOrContaining idx t p below_ above_ numbers options = Val it /\
    fetchOneSeries it = Val o /\ forall r, o = Some r -> r ∈ ranges idx.
Proof.
  intros Hp Ht Hm. unfold getClosestAroundOrContaining.
  destruct (getClosest_ok t idx Hidx false p below_ options Hp Ht) as (it1 & n1 & -> & Hok1 & Hd1 & _).
  destruct (getClosest_ok t idx Hidx true p above_ options Hp Ht) as (it2 & n2 & -> & Hok2 & Hd2 & _).
  cbn [mbind outcome_bind].
  destruct (containing_first p (co_time options) None) as (st & r & st' & -> & Hd & En & Hr0 & Hr); [done| |by left|].
  { unfold time_ok in Ht. by destruct (co_time options). }
  cbn [mbind outcome_bind]. eexists. set (around := join [it1; it2] p closest numbers).
  assert (Hj : join_ok (fun x => x ∈ idx_contents idx) (join_ok (fun x => x ∈ idx_contents idx) (base_ok idx))
    (iter_ops around) (iter_state around) (2 * (n1 + 0) + (2 * (n2 + 0) + 0))).
  { split; [eexists _, _, _; split; [done|]; intros x Hx; by apply (element_near t idx)|].
    eexists _, _. split; [exact Hok1|]. split; [constructor|]. split; [|done].
    eexists _, _. split; [exact Hok2|]. split; [constructor|]. by split. }
  assert (Hda : not_done (it_done (iter_ops around) (iter_state around)) = true).
  { subst around. cbn [join iter_ops iter_state joinIterator it_done]. unfold join_done.
    cbn [map forallb jn_ops jn_state]. by rewrite Hd1. }
  assert (Hprog : progressive (fun x => x ∈ idx_contents idx) 1
    (join_ok (fun x => x ∈ idx_contents idx) (join_ok (fun x => x ∈ idx_contents idx) (base_ok idx))))
    by (apply join_progressive; [lia|]; apply join_progressive; [lia|]; apply (base_progressive t idx Hidx)).
  destruct (Hprog _ _ _ Hj Hda) as (r2 & s2' & n' & E2 & _ & HG & _ & Hr2).
  destruct (series_one (idx_ops idx) (iter_ops around) st (iter_state around) (option_list r) st' r2 s2')
    as (res & s' & Es & Hres); [by rewrite Hd|exact En|by destruct r; auto|exact Hda|exact E2|exact Hr2|].
  eexists. split; [done|]. unfold fetchOneSeries, series_iter_next.
  cbn [si_containing si_around si_state iter_ops iter_state]. fold around. rewrite Es. cbn [mbind outcome_bind]. split; [done|].
  intros x Hx. rewrite Hres in Hx. destruct r as [y|]; cbn [option_list head fmap option_fmap option_map] in Hx.
  - injection Hx as <-. apply stored_range. by apply Hr.
  - destruct r2 as [|y r2]; [done|]. cbn [head fmap option_fmap option_map] in Hx. injection Hx as <-.
    apply stored_range. by apply Forall_inv in HG.
Qed.

Lemma fetchOneFromPublicKey_ok k options :
  time_ok options -> match co_time options with Some tm => matured tm = true | None => True end ->
  exists o, fetchOneFromPublicKey k idx t numbers options = Val o /\ forall r, o = Some r -> r ∈ ranges idx.
Proof.
  intros Ht Hm. unfold fetchOneFromPublicKey. set (qs := [new_StringMatch "hash"%string (hashcode k) None None]).
  destruct (law_iterate idx (QLMany qs) qs None eq_refl (ranges_idx _ _ Hidx)) as (_ & Hn & _).
  { intros r _. unfold doc_of. rewrite range_to_js. split; [apply sat_hash|done]. }
  destruct (Hn 0%nat) as (st' & E & _). rewrite E. cbn [mbind outcome_bind].
  set (l := reference_results _ _ _) in *.
  assert (Hl : forall x, x ∈ l -> ir_value x ∈ ranges idx) by (intros x Hx; apply stored_range; by eapply reference_stored).
  clearbody l. destruct l as [|x l]; [by eexists|]. cbn [take head fmap option_fmap option_map].
  assert (Hx : ir_value x ∈ ranges idx) by (apply Hl; by left).
  destruct (co_time options) as [tm|] eqn:Etm; [|by eexists; split; [done|]; intros r [= <-]].
  case_if_in_goal; [|by eexists; split; [done|]; intros r [= <-]].
  destruct (range_bounds _ Hx) as (_ & _ & Hs1 & _).
  destruct (around_ok (r_start1 (ir_value x)) false false options Hs1 Ht) as (it & o & -> & Ef & Ho); [by rewrite Etm|].
  cbn [mbind outcome_bind]. rewrite Ef. cbn [mbind outcome_bind]. eexists. split; [done|].
  intros r [= <-]. destruct o; simpl; [by apply Ho|done].
Qed.

(** The points a caller may start from. *)
Definition start_ok (start : StartArg) : Prop :=
  match start with StartPoint p => 0 <= p <= ring t | _ => True end.

Lemma getStartAndEnd_ok start width random options :
  start_ok start -> 0 <= random <= ring t -> 0 <= width -> time_ok options ->
  match co_time options with Some tm => matured tm = true | None => True end ->
  exists se, getStartAndEnd idx t start width random numbers options = Val se /\
    0 <= se_start se <= ring t /\ 0 <= se_end se <= ring t /\
    forall r, se_node se = Some r -> r ∈ ranges idx.
Proof.
  intros Hstart Hrandom Hwidth Ht Hm. unfold getStartAndEnd.
  assert (Hpoint : forall p, 0 <= p <= ring t -> exists o,
    (n ← fetchOneClosest idx t p false true numbers options; Val (n, p)) = Val (o, p) /\
    forall r, o = Some r -> r ∈ ranges idx).
  { intros p Hp. unfold fetchOneClosest. destruct (around_ok p false true options Hp Ht Hm) as (it & o & -> & Ef & Ho).
    cbn [mbind outcome_bind]. rewrite Ef. cbn [mbind outcome_bind]. by exists o. }
  assert (Hnode : exists o p, match start with
      | StartKey k => n ← fetchOneFromPublicKey k idx t numbers options;
          match n with
          | None => n ← fetchOneClosest idx t random false true numbers options; Val (n, random)
          | Some node => Val (Some node, r_start1 node)
          end
      | StartPoint p => n ← fetchOneClosest idx t p false true numbers options; Val (n, p)
      | StartAnywhere => n ← fetchOneClosest idx t random false true numbers options; Val (n, random)
      end = Val (o, p) /\ 0 <= p <= ring t /\ forall r, o = Some r -> r ∈ ranges idx).
  { destruct start as [k|p|].
    - destruct (fetchOneFromPublicKey_ok k options Ht Hm) as (o & -> & Ho). cbn [mbind outcome_bind].
      destruct o as [node|].
      + exists (Some node), (r_start1 node). split; [done|]. split; [|done]. apply range_bounds. by apply Ho.
      + destruct (Hpoint random Hrandom) as (o & -> & Ho'). by exists o, random.
    - destruct (Hpoint p Hstart) as (o & -> & Ho). by exists o, p.
    - destruct (Hpoint random Hrandom) as (o & -> & Ho). by exists o, random. }
  destruct Hnode as (o & p & -> & Hp & Ho). cbn [mbind outcome_bind].
  assert (Hz : zero numbers = 0) by (clear; by destruct t). pose proof (ring_pos t) as Hring.
  assert (Hempty : 0 <= zero numbers <= ring t) by lia.
  destruct o as [node|]; [|eexists; split; [done|]; cbn [se_start se_end se_node]; rewrite Hz; split_and!; [lia..|done]].
  change (maxValue numbers) with (ring t).
  match goal with |- context [if ?b then _ else _] => destruct b end; eexists; (split; [done|]); cbn [se_start se_end se_node]; [rewrite Hz; split_and!; [lia..|done]|].
  split; [done|]. split; [|done].
  pose proof (Z.rem_bound_pos (p + width) (ring t)). lia.
Qed.

Definition cover_fuel : nat := Z.to_nat (3 * (ring t + 1) + 3).

Lemma start_length_nonneg r from w w' cov' :
  r ∈ ranges idx -> 0 <= from <= ring t -> addLength numbers r from w 0 = (w', cov') -> 0 <= cov'.
Proof.
  intros Hr Hfrom E. destruct (range_bounds r Hr) as (Hs & Ht & _). unfold addLength in E.
  change (maxValue numbers) with (ring t) in E.
  assert (Hwr : wrapped r = (r_end2 r <? r_end1 r)) by (unfold wrapped; by destruct (r_type r)).
  rewrite Hwr in E. destruct Hs; rewrite Ht in *; case_ifs_all; simplify_eq; lia.
Qed.

(** The owners an eager request adds. *)
Lemma eager_owners (rects : list (IndexedResult Range)) ret :
  Forall owners ret -> (forall x, x ∈ rects -> x ∈ idx_contents idx) ->
  Forall owners (fold_left (fun ret r => Set_add ret (r_hash (ir_value r))) rects ret).
Proof.
  revert ret. induction rects as [|x rects IH]; intros ret Hret Hin; simpl; [done|].
  apply IH; [|intros y Hy; apply Hin; by right]. apply Set_add_owners; [done|].
  exists (ir_value x). split; [|done]. apply stored_range, Hin. by left.
Qed.

Lemma eager_ok age eager :
  age_ok age -> eager_fetch eager <> Some 0%nat ->
  exists ret, match eager_fetch eager with
    | None => Val []
    | Some eagerFetch =>
        q ← IntCmp "timestamp" GreaterOrEqual (IBig (now_ - age));
        '(rects, _) ← it_next (idx_ops idx) eagerFetch (idx_iterate idx (MkIterateOptions (QLMany [q]) None));
        Val (fold_left (fun ret r => Set_add ret (r_hash (ir_value r))) rects [])
    end = Val ret /\ Forall owners ret.
Proof.
  intros Ha Hne. destruct (eager_fetch eager) as [[|n]|]; [done| |by exists []].
  rewrite IntCmp_time by done. cbn [mbind outcome_bind].
  set (qs := [IntegerCompare ["timestamp"%string] GreaterOrEqual (BigUnsignedIntegerValue (now_ - age))]).
  destruct (law_iterate idx (QLMany qs) qs None eq_refl (ranges_idx _ _ Hidx)) as (_ & Hn & _).
  { intros r _. unfold doc_of. rewrite range_to_js. split; [|done]. unfold covered_all. cbn [qs forallb].
    destruct (int_fields (ir_value r)) as (_ & _ & _ & _ & _ & Hts & _). by rewrite (covered_int _ _ GreaterOrEqual (BigUnsignedIntegerValue (now_ - age)) _ Hts). }
  destruct (Hn n) as (st' & E & _). rewrite E. cbn [mbind outcome_bind]. eexists. split; [done|].
  apply eager_owners; [done|]. intros x Hx. eapply reference_stored, subseteq_take, Hx.
Qed.

(** [getCoverSet] ends, whatever the stored ranges, the start and the
    width: with the given number of rounds it returns a set, and every member
    of the set is the owner of a stored range or the key the caller started
    from. *)
Theorem getCoverSet_ends fuel start width age random eager :
  start_ok start -> 0 <= random <= ring t -> 0 <= width -> age_ok age -> age_ok 0 ->
  eager_fetch eager <> Some 0%nat -> (cover_fuel <= fuel)%nat ->
  exists ret, getCoverSet idx t numbers now_ fuel start width age random eager = Val ret /\
    forall h, h ∈ ret -> owners h \/ exists k, start = StartKey k /\ h = hashcode k.
Proof.
  intros Hstart Hrandom Hwidth Ha H0' He Hf. unfold getCoverSet.
  destruct (getStartAndEnd_ok start width random (MkClosestOptions None (Some (mature_time now_ age))))
    as (se & -> & Hs & Hend & Hnode); [done..|]. cbn [mbind outcome_bind].
  destruct (eager_ok age eager Ha He) as (ret & -> & Hret). cbn [mbind outcome_bind].
  destruct (se_node se) as [node|]; [|exists ret; split; [done|]; rewrite Forall_forall in Hret; by left; apply Hret].
  specialize (Hnode node eq_refl). assert (Hz : zero numbers = 0) by (clear; by destruct t). rewrite Hz.
  destruct (addLength numbers node (se_start se) (r_end2 node <? r_end1 node) 0) as [w cov] eqn:Ea.
  pose proof (start_length_nonneg _ _ _ _ _ Hnode Hs Ea) as Hcov.
  set (s0 := MkCover _ _ _ _ _ _).
  destruct (cover_loop_ends age width (se_end se) (se_end se <=? se_start se) Ha H0' Hend fuel s0) as (s & -> & Hok).
  - split; [by apply range_bounds|]. apply Set_add_owners; [done|by exists node].
  - pose proof (phase_range age (se_end se) s0). cbn [s0 cv_coveredLength] in *. unfold cover_fuel in Hf.
    pose proof (ring_pos t). lia.
  - cbn [mbind outcome_bind]. eexists. split; [done|]. destruct Hok as [_ Hall]. rewrite Forall_forall in Hall.
    intros h Hh. destruct start as [k| |]; [|by left; apply Hall..].
    apply Set_add_elem in Hh as [->|Hh]; [right; by exists k|by left; apply Hall].
Qed.

End Walk.
