(* ===== verification/PushableLanes.v ===== *)
(** * Message lanes (packages/transport/stream/src/pushable-lanes.ts)

    An async iterable that values are pushed into, with lanes of decreasing
    priority: lane 0 is emptied before lane 1.  The queue of a lane is the
    package fast-fifo, the class [Queue].  A pending [next()] is the number of
    its call; what settles promises and what is queued as a microtask is written
    out ([Task]), so the order of events is explicit. *)

From Stdlib Require Import ZArith Lia.
From stdpp Require Import base list strings.
From S2P Require Import Prelude JsMap.

Local Open Scope Z_scope.

Section Types.
Context (V E : Type).

Record Next := MkNext { nx_done : bool; nx_error : option E; nx_value : option V }.

(** What a promise of [next()] settles with. *)
Inductive NextResult := DoneResult | ValueResult (done : bool) (value : option V) | Rejected (error : E).

(** What the consumer can observe. *)
Inductive Effect :=
| Settled (call : nat) (r : NextResult)
| Drained (call : nat)
| OnEnd (error : option E).
End Types.

Arguments MkNext {V E} _ _ _.
Arguments nx_done {V E} _.
Arguments nx_error {V E} _.
Arguments nx_value {V E} _.
Arguments DoneResult {V E}.
Arguments ValueResult {V E} _ _.
Arguments Rejected {V E} _.
Arguments Settled {V E} _ _.
Arguments Drained {V E} _.
Arguments OnEnd {V E} _.

Section Lanes.
Context {V E Q : Type} `{Queue Q (Next V E)} (byteLength : V -> Z).

(** ** Uint8ArrayFifo *)

Record Uint8ArrayFifo := MkFifo { fifo : Q; fifo_size : Z }.

Definition new_Fifo : Uint8ArrayFifo := MkFifo queue_create 0.

Definition value_bytes (n : Next V E) : Z :=
  match nx_value n with Some v => byteLength v | None => 0 end.

Definition fifo_push (f : Uint8ArrayFifo) (val : Next V E) : Uint8ArrayFifo :=
  MkFifo (queue_push (fifo f) val) (fifo_size f + value_bytes val).

Definition fifo_shift (f : Uint8ArrayFifo) : option (Next V E) * Uint8ArrayFifo :=
  match queue_head (fifo f) with
  | None => (None, f)
  | Some shifted => (Some shifted, MkFifo (queue_shift (fifo f)) (fifo_size f - value_bytes shifted))
  end.

(** ** Uint8arrayPriorityQueue *)

Definition new_PriorityQueue (lanes : nat) : list Uint8ArrayFifo := repeat new_Fifo lanes.

Definition lanes_size (lanes : list Uint8ArrayFifo) : Z :=
  fold_left (fun sum lane => sum + fifo_size lane) lanes 0.

Definition lanes_push (lanes : list Uint8ArrayFifo) (val : Next V E) (lane : nat)
    : outcome (list Uint8ArrayFifo) :=
  match lanes !! lane with
  | None => Exn "TypeError"
  | Some f => Val (<[lane := fifo_push f val]> lanes)
  end.

Fixpoint lanes_shift (lanes : list Uint8ArrayFifo) : option (Next V E) * list Uint8ArrayFifo :=
  match lanes with
  | [] => (None, [])
  | lane :: rest =>
      match fifo_shift lane with
      | (Some element, lane') => (Some element, lane' :: rest)
      | (None, lane') => let '(element, rest') := lanes_shift rest in (element, lane' :: rest')
      end
  end.

Definition lanes_isEmpty (lanes : list Uint8ArrayFifo) : bool :=
  forallb (fun lane => queue_isEmpty (fifo lane)) lanes.

(** ** The buffer: lanes, or one queue once the iterable is ended early *)

Inductive Buffer := Lanes (lanes : list Uint8ArrayFifo) | Single (f : Uint8ArrayFifo).

Definition buffer_push (b : Buffer) (val : Next V E) (lane : nat) : outcome Buffer :=
  match b with
  | Lanes lanes => l ← lanes_push lanes val lane; Val (Lanes l)
  | Single f => Val (Single (fifo_push f val))
  end.

Definition buffer_shift (b : Buffer) : option (Next V E) * Buffer :=
  match b with
  | Lanes lanes => let '(n, l) := lanes_shift lanes in (n, Lanes l)
  | Single f => let '(n, f') := fifo_shift f in (n, Single f')
  end.

Definition buffer_isEmpty (b : Buffer) : bool :=
  match b with Lanes lanes => lanes_isEmpty lanes | Single f => queue_isEmpty (fifo f) end.

Definition buffer_size (b : Buffer) : Z :=
  match b with Lanes lanes => lanes_size lanes | Single f => fifo_size f end.

(** ** The iterable *)

(** Microtasks: the [finally] of a [next()] that had to wait, and the
    resolution of the drain promise. *)
Inductive Task := ResumeFinally | ResolveDrain.

Record Pushable := MkPushable {
  buffer : Buffer;
  onNext : option nat;
  ended : bool;
  calls : nat;
  drain : list nat;
  tasks : list Task;
}.

Definition _pushable (lanes : option nat) : Pushable :=
  MkPushable (Lanes (new_PriorityQueue (match lanes with None | Some O => 1%nat | Some n => n end)))
    None false 0 [] [].

Definition with_buffer (p : Pushable) (b : Buffer) : Pushable :=
  MkPushable b (onNext p) (ended p) (calls p) (drain p) (tasks p).

Definition getNext (b : Buffer) : NextResult V E * Buffer :=
  match buffer_shift b with
  | (None, b') => (DoneResult, b')
  | (Some next, b') =>
      match nx_error next with
      | Some err => (Rejected err, b')
      | None => (ValueResult (nx_done next) (nx_value next), b')
      end
  end.

(** The [finally] block of [waitNext]. *)
Definition finally (p : Pushable) : Pushable :=
  if buffer_isEmpty (buffer p)
  then MkPushable (buffer p) (onNext p) (ended p) (calls p) (drain p) (tasks p ++ [ResolveDrain])
  else p.

Definition waitNext (p : Pushable) : Pushable * list (Effect V E) :=
  let call := calls p in
  let p1 := MkPushable (buffer p) (onNext p) (ended p) (S call) (drain p) (tasks p) in
  if negb (buffer_isEmpty (buffer p)) then
    let '(r, b) := getNext (buffer p) in (finally (with_buffer p1 b), [Settled call r])
  else if ended p then (finally p1, [Settled call DoneResult])
  else (MkPushable (buffer p) (Some call) (ended p) (S call) (drain p) (tasks p), []).

Definition bufferNext (p : Pushable) (next : Next V E) (lane : nat) : outcome (Pushable * list (Effect V E)) :=
  match onNext p with
  | Some call =>
      b ← buffer_push (buffer p) next lane;
      let '(r, b') := getNext b in
      Val (MkPushable b' None (ended p) (calls p) (drain p) (tasks p ++ [ResumeFinally]), [Settled call r])
  | None => b ← buffer_push (buffer p) next lane; Val (with_buffer p b, [])
  end.

Definition bufferError (p : Pushable) (err : E) : outcome (Pushable * list (Effect V E)) :=
  bufferNext (with_buffer p (Single new_Fifo)) (MkNext false (Some err) None) 0.

Definition push (p : Pushable) (value : V) (lane : nat) : outcome (Pushable * list (Effect V E)) :=
  if ended p then Val (p, []) else bufferNext p (MkNext false None (Some value)) lane.

Definition end_ (p : Pushable) (err : option E) : outcome (Pushable * list (Effect V E)) :=
  if ended p then Val (p, [])
  else
    let p1 := MkPushable (buffer p) (onNext p) true (calls p) (drain p) (tasks p) in
    match err with
    | Some err => bufferError p1 err
    | None => bufferNext p1 (MkNext true None None) 0
    end.

Definition _return (p : Pushable) : outcome (Pushable * list (Effect V E)) :=
  end_ (with_buffer p (Single new_Fifo)) None.

Definition _throw (p : Pushable) (err : E) : outcome (Pushable * list (Effect V E)) := end_ p (Some err).

Definition readableLength (p : Pushable) : Z := buffer_size (buffer p).

Definition getReadableLength (p : Pushable) (lane : option nat) : outcome Z :=
  match lane, buffer p with
  | None, b => Val (buffer_size b)
  | Some i, Lanes lanes =>
      match lanes !! i with Some f => Val (fifo_size f) | None => Exn "TypeError" end
  | Some _, Single f => Val (fifo_size f)
  end.

(** [onEmpty()] without a signal. *)
Definition onEmpty (p : Pushable) : Pushable * list (Effect V E) :=
  let call := calls p in
  if buffer_isEmpty (buffer p)
  then (MkPushable (buffer p) (onNext p) (ended p) (S call) (drain p) (tasks p), [Drained call])
  else (MkPushable (buffer p) (onNext p) (ended p) (S call) (drain p ++ [call]) (tasks p), []).

(** The next microtask runs. *)
Definition microtask (p : Pushable) : Pushable * list (Effect V E) :=
  match tasks p with
  | [] => (p, [])
  | ResumeFinally :: ts =>
      (finally (MkPushable (buffer p) (onNext p) (ended p) (calls p) (drain p) ts), [])
  | ResolveDrain :: ts =>
      (MkPushable (buffer p) (onNext p) (ended p) (calls p) [] ts, map Drained (drain p))
  end.

(** ** With [onEnd] *)

Record WithOnEnd := MkWithOnEnd { inner : Pushable; onEnd : bool }.

(** After an operation of the wrapped iterable [onEnd] is called, once. *)
Definition then_onEnd (w : WithOnEnd) (err : option E) (r : outcome (Pushable * list (Effect V E)))
    : outcome (WithOnEnd * list (Effect V E)) :=
  '(p, eff) ← r; Val (MkWithOnEnd p false, eff ++ (if onEnd w then [OnEnd err] else [])).

Definition w_throw (w : WithOnEnd) (err : E) : outcome (WithOnEnd * list (Effect V E)) :=
  then_onEnd w (Some err) (_throw (inner w) err).

Definition w_return (w : WithOnEnd) : outcome (WithOnEnd * list (Effect V E)) :=
  then_onEnd w None (_return (inner w)).

Definition w_end (w : WithOnEnd) (err : option E) : outcome (WithOnEnd * list (Effect V E)) :=
  then_onEnd w err (end_ (inner w) err).

End Lanes.

(** * Message lanes: order, lengths, and what [end] overtakes

    Draining the lanes yields their values lane by lane, each in the order
    pushed, and [readableLength] counts the bytes left.  The end marker goes to
    lane 0, so values of slower lanes come after it. *)

Section Facts.
Context {V E Q : Type} `{QueueLaws Q (Next V E)} (byteLength : V -> Z).

Abbreviation Fifo := (@Uint8ArrayFifo Q).
Abbreviation bytes := (value_bytes byteLength).

(** The elements of a lane, and its size as the sum of their bytes. *)
Definition total (l : list (Next V E)) : Z := fold_right (fun n acc => bytes n + acc) 0 l.

Lemma total_app l k : total (l ++ k) = total l + total k.
Proof. induction l as [|n l IH]; simpl; [done|]. rewrite IH. lia. Qed.

Definition lane_elements (f : Fifo) : list (Next V E) := queue_elements (fifo f).
Definition lane_ok (f : Fifo) : Prop := fifo_size f = total (lane_elements f).

Definition lanes_elements (lanes : list Fifo) : list (Next V E) := flat_map lane_elements lanes.

Definition elements (b : @Buffer Q) : list (Next V E) :=
  match b with Lanes lanes => lanes_elements lanes | Single f => lane_elements f end.

Definition buffer_ok (b : @Buffer Q) : Prop :=
  match b with Lanes lanes => Forall lane_ok lanes | Single f => lane_ok f end.

Lemma new_Fifo_ok : lane_ok new_Fifo /\ lane_elements new_Fifo = [].
Proof. unfold lane_ok, lane_elements. simpl. by rewrite elements_create. Qed.

Lemma fifo_push_ok f n : lane_ok f -> lane_ok (fifo_push byteLength f n).
Proof.
  unfold lane_ok, lane_elements. simpl. intros ->. rewrite elements_push, total_app. simpl. lia.
Qed.

Lemma fifo_shift_spec f :
  lane_ok f ->
  match lane_elements f with
  | [] => fifo_shift byteLength f = (None, f)
  | n :: l => exists f', fifo_shift byteLength f = (Some n, f') /\ lane_elements f' = l /\ lane_ok f'
  end.
Proof.
  unfold lane_ok, lane_elements, fifo_shift. rewrite head_elements. intros Hs.
  destruct (queue_elements (fifo f)) as [|n l] eqn:El; simpl; [done|].
  eexists. split; [done|]. simpl. rewrite elements_shift, El. simpl. split; [done|]. rewrite Hs. simpl. lia.
Qed.

Lemma lanes_shift_spec lanes :
  Forall lane_ok lanes ->
  match lanes_elements lanes with
  | [] => lanes_shift byteLength lanes = (None, lanes)
  | n :: l => exists lanes', lanes_shift byteLength lanes = (Some n, lanes') /\ lanes_elements lanes' = l /\ Forall lane_ok lanes'
  end.
Proof.
  induction 1 as [|f lanes Hf Hl IH]; [done|]. cbn [lanes_elements flat_map lanes_shift].
  pose proof (fifo_shift_spec f Hf) as Hs. destruct (lane_elements f) as [|n l] eqn:Ef.
  - rewrite Hs. fold (lanes_elements lanes). cbn [app]. destruct (lanes_elements lanes) as [|n l].
    + by rewrite IH.
    + destruct IH as (lanes' & -> & He & Hok). eexists. split; [done|]. cbn [lanes_elements flat_map].
      rewrite Ef. split; [done|by constructor].
  - destruct Hs as (f' & -> & He & Hok). eexists. split; [done|]. cbn [lanes_elements flat_map].
    rewrite He. split; [done|by constructor].
Qed.

Lemma isEmpty_spec b : buffer_isEmpty b = bool_decide (elements b = []).
Proof.
  apply eq_true_iff_eq. rewrite bool_decide_eq_true. destruct b as [lanes|f]; simpl; [|apply isEmpty_elements].
  unfold lanes_isEmpty. induction lanes as [|f lanes IH]; [done|]. simpl.
  rewrite andb_true_iff, IH, isEmpty_elements. fold (lane_elements f). split; [by intros [-> ->]|apply app_nil].
Qed.

(** [getNext] takes the first element. *)
Lemma getNext_spec b n l :
  buffer_ok b -> elements b = n :: l -> nx_error n = None ->
  exists b', getNext byteLength b = (ValueResult (nx_done n) (nx_value n), b') /\ elements b' = l /\ buffer_ok b'.
Proof.
  intros Hok He Hn. unfold getNext. destruct b as [lanes|f]; simpl in *.
  - pose proof (lanes_shift_spec lanes Hok) as Hs. rewrite He in Hs. destruct Hs as (lanes' & -> & ? & ?).
    rewrite Hn. by eexists.
  - pose proof (fifo_shift_spec f Hok) as Hs. rewrite He in Hs. destruct Hs as (f' & -> & ? & ?).
    rewrite Hn. by eexists.
Qed.

Lemma buffer_size_total b : buffer_ok b -> buffer_size b = total (elements b).
Proof.
  destruct b as [lanes|f]; simpl; [|done]. unfold lanes_size.
  assert (Hacc : forall acc, Forall lane_ok lanes ->
    fold_left (fun sum lane => sum + fifo_size lane) lanes acc = acc + total (lanes_elements lanes)).
  { induction lanes as [|f lanes IH]; intros acc Hl; simpl; [lia|]. apply Forall_cons in Hl as [Hf Hl].
    rewrite IH by done. rewrite total_app, Hf. lia. }
  intros Hl. by rewrite Hacc.
Qed.

(** ** Pushing into the lanes *)

Definition value_next (v : V) : Next V E := MkNext false None (Some v).
Definition end_next : Next V E := MkNext true None None.

(** The values pushed into a lane, in order. *)
Definition lane_values (ps : list (V * nat)) (i : nat) : list (Next V E) :=
  map (fun p => value_next p.1) (List.filter (fun p => (p.2 =? i)%nat) ps).

Lemma lane_values_app ps qs i : lane_values (ps ++ qs) i = lane_values ps i ++ lane_values qs i.
Proof. unfold lane_values. by rewrite List.filter_app, map_app. Qed.

(** No [next()] waits, the iterable is open, and the lanes hold what was pushed. *)
Record holds (k : nat) (ps : list (V * nat)) (p : @Pushable Q) : Prop := {
  holds_lanes : exists lanes, buffer p = Lanes lanes /\ length lanes = k /\ Forall lane_ok lanes /\
    forall i f, lanes !! i = Some f -> lane_elements f = lane_values ps i;
  holds_open : onNext p = None /\ ended p = false;
}.

Fixpoint pushes (ps : list (V * nat)) (p : @Pushable Q) : outcome (@Pushable Q) :=
  match ps with
  | [] => Val p
  | (v, lane) :: ps' => '(p', _) ← push (E := E) byteLength p v lane; pushes ps' p'
  end.

Lemma pushes_hold k ps qs p :
  Forall (fun x => (x.2 < k)%nat) qs -> holds k ps p -> exists p', pushes qs p = Val p' /\ holds k (ps ++ qs) p'.
Proof.
  intros Hq. revert ps p. induction Hq as [|[v lane] qs Hl _ IH]; intros ps p Hp.
  { exists p. by rewrite app_nil_r. }
  destruct Hp as [(lanes & Eb & Hlen & Hok & Hel) [Ew Eo]]. cbn [pushes]. unfold push. rewrite Eo.
  unfold bufferNext. rewrite Ew, Eb. cbn [buffer_push]. unfold lanes_push. simpl in Hl.
  destruct (lookup_lt_is_Some_2 lanes lane) as [f Ef]; [lia|]. rewrite Ef. cbn [mbind outcome_bind].
  destruct (IH (ps ++ [(v, lane)]) (with_buffer p (Lanes (<[lane:=fifo_push byteLength f (value_next v)]> lanes))))
    as (p' & Ep & Hp'); [|exists p'; split; [exact Ep|by rewrite <- app_assoc in Hp']].
  split; [|done]. eexists. split; [done|]. split; [by rewrite length_insert|]. split.
  - apply Forall_insert; [done|]. apply fifo_push_ok. rewrite Forall_lookup in Hok. by eapply Hok.
  - intros i g Hg. rewrite lane_values_app. apply list_lookup_insert_Some in Hg as [(-> & <- & _)|[Hne Hg]].
    + unfold lane_elements, lane_values. simpl. rewrite elements_push, Nat.eqb_refl.
      f_equal. by apply Hel.
    + rewrite (Hel i g Hg). unfold lane_values at 3. simpl.
      rewrite (proj2 (Nat.eqb_neq lane i) Hne). by rewrite app_nil_r.
Qed.

Lemma holds_start k : holds (S k) [] (_pushable (Some (S k))).
Proof.
  split; [|done]. exists (new_PriorityQueue (S k)). unfold new_PriorityQueue. split_and!.
  - done.
  - apply repeat_length.
  - apply Forall_forall. intros f Hf%list_elem_of_In. apply repeat_spec in Hf as ->. apply new_Fifo_ok.
  - intros i f Hf. apply list_elem_of_lookup_2, list_elem_of_In, repeat_spec in Hf as ->. apply new_Fifo_ok.
Qed.

(** All values, lane by lane. *)
Definition by_lanes (k : nat) (ps : list (V * nat)) : list (Next V E) := flat_map (lane_values ps) (seq 0 k).

Lemma elements_by_lanes lanes g :
  (forall i f, lanes !! i = Some f -> lane_elements f = g i) ->
  lanes_elements lanes = flat_map g (seq 0 (length lanes)).
Proof.
  intros Hel. enough (Hx : forall n, (forall i f, lanes !! i = Some f -> lane_elements f = g (n + i)%nat) ->
    lanes_elements lanes = flat_map g (seq n (length lanes))) by (by apply (Hx 0%nat)).
  clear Hel. induction lanes as [|f lanes IH]; intros n Hel; [done|]. cbn [lanes_elements flat_map length seq].
  rewrite (Hel 0%nat f eq_refl), Nat.add_0_r. f_equal. apply IH. intros i f' Hf'.
  rewrite (Hel (S i) f' Hf'). f_equal. lia.
Qed.

(** ** Reading *)

Fixpoint nexts (n : nat) (p : @Pushable Q) : list (NextResult V E) * @Pushable Q :=
  match n with
  | O => ([], p)
  | S n' =>
      let '(p', eff) := waitNext byteLength p in
      let '(rs, p'') := nexts n' p' in
      (flat_map (fun e => match e with Settled _ r => [r] | _ => [] end) eff ++ rs, p'')
  end.

Definition result_of (n : Next V E) : NextResult V E := ValueResult (nx_done n) (nx_value n).

Lemma nexts_elements (l : list (Next V E)) p rest :
  buffer_ok (buffer p) -> elements (buffer p) = l ++ rest -> Forall (fun n => nx_error n = None) l ->
  exists p', nexts (length l) p = (map result_of l, p') /\ elements (buffer p') = rest /\ buffer_ok (buffer p').
Proof.
  revert p. induction l as [|n l IH]; intros p Hok He Hn; [by exists p|].
  apply Forall_cons in Hn as [Hn Hl]. cbn [length nexts]. unfold waitNext.
  rewrite isEmpty_spec, bool_decide_false by by rewrite He. cbn [negb].
  destruct (getNext_spec (buffer p) n (l ++ rest) Hok He Hn) as (b' & -> & He' & Hok').
  set (p1 := finally _). assert (Eb : buffer p1 = b') by (subst p1; unfold finally; by case_if_in_goal).
  destruct (IH p1) as (p' & Ep & He'' & Hok''); [by rewrite Eb|by rewrite Eb|done|].
  rewrite Ep. exists p'. by split.
Qed.

(** Values pushed into open lanes are read lane by lane, lane 0 first, each
    lane in the order pushed; meanwhile [readableLength] is the number of bytes
    not yet read. *)
Theorem lanes_priority_order (k : nat) (ps : list (V * nat)) (n : nat) :
  Forall (fun x => (x.2 < S k)%nat) ps -> (n <= length (by_lanes (S k) ps))%nat ->
  exists p p', pushes ps (_pushable (Some (S k))) = Val p /\
    readableLength p = total (by_lanes (S k) ps) /\
    nexts n p = (map result_of (take n (by_lanes (S k) ps)), p') /\
    readableLength p' = total (drop n (by_lanes (S k) ps)).
Proof.
  intros Hps Hn. destruct (pushes_hold (S k) [] ps _ Hps (holds_start k)) as (p & Ep & [(lanes & Eb & Hlen & Hok & Hel) _]).
  cbn [app] in Hel. pose proof (elements_by_lanes lanes (lane_values ps) Hel) as Hall. rewrite Hlen in Hall.
  fold (by_lanes (S k) ps) in Hall. set (all := by_lanes (S k) ps) in *.
  assert (Hb : buffer_ok (buffer p)) by (by rewrite Eb).
  assert (He : elements (buffer p) = take n all ++ drop n all) by (rewrite Eb, take_drop; exact Hall).
  destruct (nexts_elements (take n all) p (drop n all) Hb He) as (p' & En & He' & Hok').
  { apply Forall_take, Forall_forall. subst all. unfold by_lanes. intros x Hx.
    apply list_elem_of_In, in_flat_map in Hx as (i & _ & Hx). unfold lane_values in Hx.
    apply in_map_iff in Hx as (y & <- & _). done. }
  rewrite length_take, Nat.min_l in En by done. exists p, p'. split_and!; [exact Ep| |exact En|].
  - unfold readableLength. by rewrite buffer_size_total, He, take_drop.
  - unfold readableLength. by rewrite buffer_size_total, He'.
Qed.

(** [end()] overtakes the slower lanes: the end marker is pushed to lane 0,
    so a reader is told that the iterable is done as soon as lane 0 is empty,
    although values of the other lanes are still buffered. *)
Theorem end_overtakes_lanes (k : nat) (ps : list (V * nat)) :
  Forall (fun x => (x.2 < S k)%nat) ps ->
  exists p p1 p2, pushes ps (_pushable (Some (S k))) = Val p /\ end_ (E := E) byteLength p None = Val (p1, []) /\
    nexts (S (length (lane_values ps 0))) p1 =
      (map result_of (lane_values ps 0) ++ [ValueResult true None], p2) /\
    elements (buffer p2) = flat_map (lane_values ps) (seq 1 k).
Proof.
  intros Hps. destruct (pushes_hold (S k) [] ps _ Hps (holds_start k)) as (p & Ep & [(lanes & Eb & Hlen & Hok & Hel) [Ew Eo]]).
  cbn [app] in Hel. destruct lanes as [|f lanes]; [done|]. simpl in Hlen.
  set (lanes1 := fifo_push byteLength f end_next :: lanes).
  exists p, (MkPushable (Lanes lanes1) None true (calls p) (drain p) (tasks p)).
  assert (He : end_ (E := E) byteLength p None =
    Val (MkPushable (Lanes lanes1) None true (calls p) (drain p) (tasks p), [])).
  { unfold end_. rewrite Eo. unfold bufferNext. cbn [onNext buffer]. rewrite Ew, Eb. done. }
  assert (Hall : lanes_elements lanes1 = (lane_values ps 0 ++ [end_next]) ++ flat_map (lane_values ps) (seq 1 k)).
  { cbn [lanes1 lanes_elements flat_map]. unfold lane_elements at 1. cbn [fifo_push fifo]. rewrite elements_push.
    fold (lane_elements f). rewrite (Hel 0%nat f eq_refl). f_equal. injection Hlen as <-.
    change (flat_map lane_elements lanes) with (lanes_elements lanes).
    rewrite (elements_by_lanes lanes (fun i => lane_values ps (S i))) by (intros i g Hg; by apply (Hel (S i) g)).
    by rewrite <- seq_shift, !flat_map_concat_map, map_map. }
  apply Forall_cons in Hok as [Hf Hok].
  destruct (nexts_elements (lane_values ps 0 ++ [end_next]) (MkPushable (Lanes lanes1) None true (calls p) (drain p) (tasks p))
    (flat_map (lane_values ps) (seq 1 k))) as (p2 & En & He2 & _).
  - constructor; [by apply fifo_push_ok|done].
  - exact Hall.
  - apply Forall_app. split; [|by repeat constructor]. apply Forall_forall. intros x (y & -> & _)%list_elem_of_fmap. done.
  - rewrite length_app, Nat.add_1_r, map_app in En. exists p2. by split_and!.
Qed.

End Facts.

(** ** Two lanes of byte strings, over list queues *)

Section Witnesses.

Definition bytes_length (v : list Z) : Z := Z.of_nat (length v).

Definition some_pushes : list (list Z * nat) := [([1; 2], 1%nat); ([3], 0%nat); ([4], 1%nat)].

Lemma lanes_priority_order_witness :
  exists p p', pushes (E := string) (Q := list (Next (list Z) string)) bytes_length some_pushes (_pushable (Some 2%nat)) = Val p /\
    readableLength p = 4 /\
    nexts bytes_length 2 p = ([ValueResult false (Some [3]); ValueResult false (Some [1; 2])], p') /\
    readableLength p' = 1.
Proof.
  apply (lanes_priority_order (E := string) (Q := list (Next (list Z) string)) bytes_length 1 some_pushes 2).
  - unfold some_pushes. repeat constructor; simpl; lia.
  - vm_compute. lia.
Defined.

Lemma end_overtakes_lanes_witness :
  exists p p1 p2, pushes (E := string) (Q := list (Next (list Z) string)) bytes_length some_pushes (_pushable (Some 2%nat)) = Val p /\
    end_ (E := string) bytes_length p None = Val (p1, []) /\
    nexts bytes_length 2 p1 = ([ValueResult false (Some [3]); ValueResult true None], p2) /\
    elements (buffer p2) = [value_next [1; 2]; value_next [4]].
Proof.
  apply (end_overtakes_lanes (E := string) (Q := list (Next (list Z) string)) bytes_length 1 some_pushes).
  unfold some_pushes. repeat constructor; simpl; lia.
Defined.

End Witnesses.
