(* ===== verification/Routes.v ===== *)
(** * Routing tables (packages/transport/stream/src/routes.ts)

    [Routes] remembers, per origin and target, through which neighbours the
    target can be reached, at what distance and in which session of the target.
    New sessions expire the routes of older ones; expired routes are dropped by
    a scheduled [cleanup].  The clock is an argument, and the promises that
    [delay] returns are the list [scheduled]. *)

From Stdlib Require Import ZArith Lia.
From stdpp Require Import base list strings sorting.
From S2P Require Import Prelude JsMap.

Local Open Scope Z_scope.

Definition MAX_SAFE_INTEGER : Z := 2 ^ 53 - 1.
Definition MAX_ROUTE_DISTANCE : Z := MAX_SAFE_INTEGER - 1.

Record RelayInfo := MkRelay {
  relay_session : Z;
  relay_hash : string;
  expireAt : option Z;
  relay_distance : Z;
}.

Record RouteInfo := MkRoute {
  remoteSession : Z;
  route_session : Z;
  route_list : list RelayInfo;
}.

(** A timer of [scheduleCleanup]: when it fires, and for which route. *)
Record Cleanup := MkCleanup { due : Z; cl_from : string; cl_to : string }.

Record Routes := MkRoutes {
  me : string;
  routes : list (string * list (string * RouteInfo));
  remoteInfo : list (string * option Z);
  routeMaxRetentionPeriod : Z;
  scheduled : list Cleanup;
}.

Definition new_Routes (me : string) (routeMaxRetentionPeriod : option Z) : Routes :=
  MkRoutes me [] [] (default 10000 routeMaxRetentionPeriod) [].

Definition with_routes (r : Routes) (m : list (string * list (string * RouteInfo))) : Routes :=
  MkRoutes (me r) m (remoteInfo r) (routeMaxRetentionPeriod r) (scheduled r).

Definition clear (r : Routes) : Routes := with_routes r [].

(** The truth value of [expireAt]. *)
Definition expires (route : RelayInfo) : bool :=
  match expireAt route with Some e => negb (e =? 0) | None => false end.

Definition route_cmp (a b : RelayInfo) : Z :=
  if relay_distance a =? relay_distance b then
    if expires a && negb (expires b) then 1
    else if negb (expires a) && expires b then -1
    else 0
  else relay_distance a - relay_distance b.

Definition sortRoutes (routes : list RelayInfo) : list RelayInfo := js_sort route_cmp routes.

Definition findNeighbor (r : Routes) (from target : string) : option RouteInfo :=
  match Map_get (routes r) from with
  | Some fromMap => Map_get fromMap target
  | None => None
  end.

(** [route.expireAt != null && route.expireAt < now]. *)
Definition is_expired (now : Z) (route : RelayInfo) : bool :=
  match expireAt route with Some e => e <? now | None => false end.

Definition cleanup (r : Routes) (now : Z) (from to : string) : Routes :=
  match Map_get (routes r) from with
  | None => r
  | Some fromMap =>
      match Map_get fromMap to with
      | None => r
      | Some info =>
          match List.filter (fun route => negb (is_expired now route)) (route_list info) with
          | [] =>
              let fromMap' := Map_delete fromMap to in
              with_routes r (if (length fromMap' =? 1)%nat then Map_delete (routes r) from
                             else Map_set (routes r) from fromMap')
          | keepRoutes =>
              with_routes r (Map_set (routes r) from
                (Map_set fromMap to (MkRoute (remoteSession info) (route_session info) keepRoutes)))
          end
      end
  end.

(** A timer fires. *)
Definition fire (r : Routes) (now : Z) (c : Cleanup) : Routes :=
  cleanup (MkRoutes (me r) (routes r) (remoteInfo r) (routeMaxRetentionPeriod r)
             (List.filter (fun c' => negb (bool_decide (due c' = due c /\ cl_from c' = cl_from c /\ cl_to c' = cl_to c)))
                (scheduled r)))
    now (cl_from c) (cl_to c).

(** ** Adding a route *)

Inductive AddResult := AddNew | AddUpdated | AddRestart.

(** [x || -1] of a number. *)
Definition or_minus_one (x : Z) : Z := if x =? 0 then -1 else x.

(** The first route of the list that goes through the neighbour: updated in
    place (and whether the list is sorted again), left alone, or missing. *)
Inductive Scan :=
| ScanUpdated (l : list RelayInfo) (resort : bool)
| ScanExists
| ScanMissing.

Fixpoint scan (isNewSession : bool) (neighbour : string) (distance session : Z) (l : list RelayInfo) : Scan :=
  match l with
  | [] => ScanMissing
  | route :: rest =>
      if bool_decide (relay_hash route = neighbour) then
        if isNewSession then
          if distance <? relay_distance route
          then ScanUpdated (MkRelay session (relay_hash route) None distance :: rest) true
          else if relay_distance route =? distance
          then ScanUpdated (MkRelay session (relay_hash route) None distance :: rest) false
          else ScanExists
        else ScanExists
      else match scan isNewSession neighbour distance session rest with
           | ScanUpdated l' b => ScanUpdated (route :: l') b
           | s => s
           end
  end.

Definition mark_expired (at_ : Z) (l : list RelayInfo) : list RelayInfo :=
  map (fun route => if expires route then route
                    else MkRelay (relay_session route) (relay_hash route) (Some at_) (relay_distance route)) l.

(** The distance that is stored: a direct neighbour of this node is at -1. *)
Definition route_distance (r : Routes) (from neighbour target : string) (distance : Z) : Z :=
  if bool_decide (neighbour = target) && bool_decide (from = me r) then -1 else distance.

(** The list of routes after the expiry of old ones and the change for the
    neighbour, and whether it had a route through the neighbour. *)
Definition add_list (isNewSession isOldSession : bool) (later : Z) (neighbour : string)
    (distance session : Z) (l : list RelayInfo) : list RelayInfo * bool :=
  let list1 := if isNewSession then mark_expired later l else l in
  let pushed := MkRelay session neighbour (if isOldSession then Some later else None) distance in
  match scan isNewSession neighbour distance session list1 with
  | ScanUpdated l' resort => (if resort then sortRoutes l' else l', true)
  | ScanExists => (if isNewSession then sortRoutes (list1 ++ [pushed]) else list1, true)
  | ScanMissing => (sortRoutes (list1 ++ [pushed]), false)
  end.

Definition add (r : Routes) (now : Z) (from neighbour target : string) (distance session remoteSession_ : Z)
    : AddResult * Routes :=
  let fromMap := default [] (Map_get (routes r) from) in
  let routeDidExist := Map_get fromMap target in
  let isNewSession := match routeDidExist with Some prev => route_session prev <? session | None => true end in
  let isOldSession := match routeDidExist with Some prev => session <? route_session prev | None => false end in
  let prev := default (MkRoute remoteSession_ session []) routeDidExist in
  let distance := route_distance r from neighbour target distance in
  let isNewRemoteSession :=
    match routeDidExist with Some _ => or_minus_one (remoteSession prev) <? remoteSession_ | None => false end in
  let remoteSession' :=
    match routeDidExist with
    | Some _ => Z.max remoteSession_ (or_minus_one (remoteSession prev))
    | None => remoteSession prev
    end in
  let session' := Z.max session (route_session prev) in
  let later := now + routeMaxRetentionPeriod r in
  let foundNodeToExpire := existsb (fun route => negb (expires route)) (route_list prev) in
  let schedule :=
    if isNewSession then negb (distance =? -1) && foundNodeToExpire else isOldSession in
  let changed := if isNewRemoteSession then AddRestart else AddUpdated in
  let '(list2, existed) :=
    add_list isNewSession isOldSession later neighbour distance session (route_list prev) in
  (if existed then changed else AddNew,
   MkRoutes (me r)
     (Map_set (routes r) from (Map_set fromMap target (MkRoute remoteSession' session' list2)))
     (remoteInfo r) (routeMaxRetentionPeriod r)
     (if schedule then scheduled r ++ [MkCleanup (later + 100) from target] else scheduled r)).

(** ** Reachability and sessions *)

Definition isReachable (r : Routes) (from target : string) (maxDistance : Z) : bool :=
  match findNeighbor r from target, Map_get (remoteInfo r) target with
  | Some routeInfo, Some (Some session) =>
      if remoteSession routeInfo <? session then false
      else match route_list routeInfo with
           | route :: _ => relay_distance route <=? maxDistance
           | [] => MAX_SAFE_INTEGER <=? maxDistance
           end
  | _, _ => false
  end.

Definition hasTarget (r : Routes) (target : string) : bool :=
  existsb (fun e => Map_has e.2 target) (routes r).

Definition updateSession (r : Routes) (remote : string) (session : option Z) : bool * Routes :=
  let set_info m := MkRoutes (me r) (routes r) m (routeMaxRetentionPeriod r) (scheduled r) in
  match session with
  | None => (false, set_info (Map_delete (remoteInfo r) remote))
  | Some session =>
      match Map_get (remoteInfo r) remote with
      | Some info =>
          if bool_decide (info = Some (-1)) then (false, r)
          else if session =? -1 then (false, set_info (Map_set (remoteInfo r) remote (Some (-1))))
          else if or_minus_one (default 0 info) <? session
          then (true, set_info (Map_set (remoteInfo r) remote (Some session)))
          else (false, r)
      | None => (true, set_info (Map_set (remoteInfo r) remote (Some session)))
      end
  end.

Definition getSession (r : Routes) (remote : string) : option Z :=
  default None (Map_get (remoteInfo r) remote).

Definition isUpToDate (r : Routes) (target : string) (route : RouteInfo) : bool :=
  match getSession r target with Some session => session <=? remoteSession route | None => false end.

(** ** Removal *)

Definition drop_relay (hash : string) (info : RouteInfo) : RouteInfo :=
  MkRoute (remoteSession info) (route_session info)
    (List.filter (fun x => negb (bool_decide (relay_hash x = hash))) (route_list info)).

(** One origin: the remaining targets, and those that lost their last route. *)
Fixpoint drop_from_map (hash : string) (fromMap : list (string * RouteInfo))
    : list (string * RouteInfo) * list string :=
  match fromMap with
  | [] => ([], [])
  | (remote, info) :: rest =>
      let '(kept, lost) := drop_from_map hash rest in
      match route_list (drop_relay hash info) with
      | [] => (kept, remote :: lost)
      | _ => ((remote, drop_relay hash info) :: kept, lost)
      end
  end.

(** The loop over the origins: the remaining table, [targetRemoved] and
    [maybeUnreachable]. *)
Fixpoint remove_loop (me target : string) (m : list (string * list (string * RouteInfo)))
    (targetRemoved : bool) (maybeUnreachable : list string)
    : list (string * list (string * RouteInfo)) * bool * list string :=
  match m with
  | [] => ([], targetRemoved, maybeUnreachable)
  | (fromMapKey, fromMap) :: rest =>
      let isMe := bool_decide (fromMapKey = me) in
      let targetRemoved' := targetRemoved || (Map_has fromMap target && isMe) in
      let '(kept, lost) := drop_from_map target (Map_delete fromMap target) in
      let maybeUnreachable' := if isMe then fold_left Set_add lost maybeUnreachable else maybeUnreachable in
      let '(rest', removed, unreachable) := remove_loop me target rest targetRemoved' maybeUnreachable' in
      (if (length kept =? 0)%nat then rest' else (fromMapKey, kept) :: rest', removed, unreachable)
  end.

Definition remove (r : Routes) (target : string) : list string * Routes :=
  let '(m, targetRemoved, maybeUnreachable) :=
    remove_loop (me r) target (Map_delete (routes r) target) false [] in
  let r' := MkRoutes (me r) m (Map_delete (remoteInfo r) target) (routeMaxRetentionPeriod r) (scheduled r) in
  let maybeUnreachable := if targetRemoved : bool then Set_add maybeUnreachable target else maybeUnreachable in
  (List.filter (fun x => negb (isReachable r' (me r) x MAX_ROUTE_DISTANCE)) maybeUnreachable, r').

Definition removeNeighbour (r : Routes) (neighbour : string) : Routes :=
  with_routes r (map (fun e => (e.1, (drop_from_map neighbour e.2).1)) (Map_delete (routes r) neighbour)).

(** ** Questions about the table *)

Definition getDependent (r : Routes) (peer : string) : list string :=
  map fst (List.filter (fun e =>
    negb (bool_decide (e.1 = me r)) &&
    (Map_has e.2 peer ||
     existsb (fun t => existsb (fun neighbour => bool_decide (relay_hash neighbour = peer)) (route_list t.2)) e.2))
    (routes r)).

Definition count (r : Routes) (from : string) : nat :=
  length (fold_left (fun set e => fold_left (fun set peer => Set_add set (relay_hash peer)) (route_list e.2) (Set_add set e.1))
    (default [] (Map_get (routes r) from)) []).

Definition countAll (r : Routes) : nat :=
  fold_left (fun size e => fold_left (fun size t => (size + length (route_list t.2))%nat) e.2 size) (routes r) 0%nat.

(** ** The fan-out of a message *)

Abbreviation Fanout := (list (string * list (string * (string * Z)))).

Record FanState := MkFan {
  foundClosest : bool;
  added : Z;
  foundPathForDistance : Z;
  fanoutMap : option Fanout;
}.

(** [fanout.set(to, {to, timestamp})] in the map of a neighbour. *)
Definition fan_set (m : option Fanout) (hash to : string) (timestamp : Z) : option Fanout :=
  let m := default [] m in
  Some (Map_set m hash (Map_set (default [] (Map_get m hash)) to (to, timestamp))).

(** The loop over the routes to one target. *)
Fixpoint fan_loop (relaying : bool) (redundancy : Z) (to : string) (infoSession : Z)
    (l : list RelayInfo) (s : FanState) : FanState :=
  match l with
  | [] => s
  | route :: rest =>
      let distance := relay_distance route in
      if expires route && (negb relaying && (foundPathForDistance s =? distance))
      then fan_loop relaying redundancy to infoSession rest s
      else
        let path := if expires route then foundPathForDistance s else distance in
        if redundancy <=? distance then MkFan (foundClosest s) (added s) path (fanoutMap s)
        else
          let fan := fan_set (fanoutMap s) (relay_hash route) to (relay_session route) in
          let closest := (distance <=? 0) && (relay_session route <=? infoSession) in
          let found := foundClosest s || closest in
          if closest && (distance =? -1) then MkFan found (added s) path fan
          else if expires route then fan_loop relaying redundancy to infoSession rest (MkFan found (added s) path fan)
          else if redundancy <=? added s + 1 then MkFan found (added s + 1) path fan
          else fan_loop relaying redundancy to infoSession rest (MkFan found (added s + 1) path fan)
  end.

(** The loop over [tos]; [None] is [return undefined]. *)
Fixpoint fan_targets (r : Routes) (from : string) (tos : list string) (redundancy : Z) (m : option Fanout)
    : option (option Fanout) :=
  match tos with
  | [] => Some m
  | to :: rest =>
      if bool_decide (to = me r) || bool_decide (from = to) then fan_targets r from rest redundancy m
      else match findNeighbor r from to with
           | None => None
           | Some info =>
               let s := fan_loop (negb (bool_decide (from = me r))) redundancy to (route_session info)
                          (route_list info) (MkFan false 0 (-2) m) in
               if negb (foundClosest s) && bool_decide (from = me r) then None
               else fan_targets r from rest redundancy (fanoutMap s)
           end
  end.

Definition getFanout (r : Routes) (from : string) (tos : list string) (redundancy : Z) : option Fanout :=
  match tos with
  | [] => None
  | _ =>
      match fan_targets r from tos redundancy None with
      | None => None
      | Some m => Some (default [] m)
      end
  end.

Definition getPrunable (r : Routes) (neighbours : list string) : list string :=
  match Map_get (routes r) (me r) with
  | None => []
  | Some m =>
      List.filter (fun candidate =>
        negb (existsb (fun t =>
          negb (bool_decide (t.1 = candidate)) &&
          match route_list t.2 with [x] => bool_decide (relay_hash x = candidate) | _ => false end) m))
        neighbours
  end.
