(* ===== verification/RoutesFacts.v ===== *)
(** * Routing tables: the invariant and what the operations do

    In every reachable table each target has at least one route and its routes
    are in order of distance.  The theorems say what [add] and [remove] change,
    that a fan-out from this node covers every target by a closest path, which
    neighbours are really prunable, and two places where the code loses what
    it means to keep. *)

From Stdlib Require Import ZArith Lia.
From stdpp Require Import base list strings sorting relations.
From S2P Require Import Prelude JsMap Routes.

Local Open Scope Z_scope.

#[export] Instance route_cmp_Comparator : Comparator route_cmp.
Proof. split; intros; unfold route_cmp in *; destruct (expires x), (expires y); try destruct (expires z); simpl in *; case_ifs_all; lia. Qed.

Definition by_distance (l : list RelayInfo) : Prop :=
  StronglySorted (fun a b => relay_distance a <= relay_distance b) l.

Lemma sortRoutes_perm l : sortRoutes l ≡ₚ l.
Proof. apply js_sort_perm. Qed.

Lemma StronglySorted_impl {A} (R R' : A -> A -> Prop) l :
  (forall x y, R x y -> R' x y) -> StronglySorted R l -> StronglySorted R' l.
Proof.
  intros HR. induction 1 as [|x l _ IH Hx]; constructor; [done|]. eapply Forall_impl; [exact Hx|auto].
Qed.

Lemma sortRoutes_by_distance l : by_distance (sortRoutes l).
Proof.
  eapply StronglySorted_impl; [|exact (js_sort_sorted route_cmp l)].
  intros x y. unfold route_cmp. simpl. case_ifs_all; lia.
Qed.

(** Lists with the same distances in the same places are sorted alike. *)
Lemma by_distance_map l l' :
  map relay_distance l = map relay_distance l' -> by_distance l -> by_distance l'.
Proof.
  revert l'. induction l as [|x l IH]; intros [|x' l'] E Hs; simplify_eq/=; [constructor|].
  apply StronglySorted_inv in Hs as [Hs Hx]. constructor; [by apply IH|].
  rewrite Forall_forall in Hx. apply Forall_forall. intros y Hy.
  apply (list_elem_of_fmap_2 relay_distance) in Hy. change (relay_distance y ∈ map relay_distance l') in Hy.
  match goal with E : map relay_distance l = map relay_distance l' |- _ => rewrite <- E in Hy end.
  apply list_elem_of_fmap in Hy as (z & -> & Hz). specialize (Hx z Hz). lia.
Qed.

Lemma by_distance_filter f l : by_distance l -> by_distance (List.filter f l).
Proof.
  induction 1 as [|x l _ IH Hx]; simpl; [constructor|]. destruct (f x); [|done]. constructor; [done|].
  rewrite Forall_forall in Hx. apply Forall_forall. intros y Hy. apply list_elem_of_In, filter_In in Hy as [Hy _].
  by apply Hx, list_elem_of_In.
Qed.

(** ** The invariant *)

Definition info_ok (info : RouteInfo) : Prop := route_list info <> [] /\ by_distance (route_list info).

Definition from_ok (fromMap : list (string * RouteInfo)) : Prop :=
  Map_wf fromMap /\ Forall (fun t => info_ok t.2) fromMap.

Definition table_ok (m : list (string * list (string * RouteInfo))) : Prop :=
  Map_wf m /\ Forall (fun e => from_ok e.2) m.

Definition routes_ok (r : Routes) : Prop := table_ok (routes r).

Section Maps.
Context {V : Type} (P : V -> Prop).
Implicit Types m : list (string * V).

Lemma Map_get_Forall m k v : Forall (fun e => P e.2) m -> Map_get m k = Some v -> P v.
Proof. rewrite Forall_forall. intros Hm Hk%Map_get_Some_elem. exact (Hm _ Hk). Qed.

Lemma Map_set_Forall m k v : Forall (fun e => P e.2) m -> P v -> Forall (fun e => P e.2) (Map_set m k v).
Proof.
  intros Hm Hv. induction Hm as [|[k' v'] m Hk Hm IH]; simpl; [by constructor|].
  case_decide; by constructor.
Qed.

Lemma Map_delete_Forall m k : Forall (fun e => P e.2) m -> Forall (fun e => P e.2) (Map_delete m k).
Proof.
  rewrite !Forall_forall. intros Hm e [He _]%Map_delete_elem. by apply Hm.
Qed.

End Maps.

Lemma get_from_ok m from : table_ok m -> from_ok (default [] (Map_get m from)).
Proof.
  intros [_ Hm]. destruct (Map_get m from) as [fm|] eqn:E; simpl; [|by split; [constructor|]].
  by apply (Map_get_Forall from_ok m from).
Qed.

Lemma set_table_ok m from fm : table_ok m -> from_ok fm -> table_ok (Map_set m from fm).
Proof. intros [Hw Hm] Hf. split; [by apply Map_set_wf|by apply (Map_set_Forall from_ok)]. Qed.

Lemma set_from_ok fm to info : from_ok fm -> info_ok info -> from_ok (Map_set fm to info).
Proof. intros [Hw Hm] Hi. split; [by apply Map_set_wf|by apply (Map_set_Forall info_ok)]. Qed.

Lemma delete_table_ok m from : table_ok m -> table_ok (Map_delete m from).
Proof. intros [Hw Hm]. split; [by apply Map_delete_wf|by apply (Map_delete_Forall from_ok)]. Qed.

Lemma delete_from_ok fm to : from_ok fm -> from_ok (Map_delete fm to).
Proof. intros [Hw Hm]. split; [by apply Map_delete_wf|by apply (Map_delete_Forall info_ok)]. Qed.

Create HintDb routes.
#[local] Hint Resolve get_from_ok set_table_ok set_from_ok delete_table_ok delete_from_ok : routes.

(** ** Adding *)

Lemma mark_expired_distance at_ l : map relay_distance (mark_expired at_ l) = map relay_distance l.
Proof. unfold mark_expired. rewrite map_map. apply map_ext. intros x. by destruct (expires x). Qed.

Lemma mark_expired_hash at_ l : map relay_hash (mark_expired at_ l) = map relay_hash l.
Proof. unfold mark_expired. rewrite map_map. apply map_ext. intros x. by destruct (expires x). Qed.

(** What a scan finds. *)
Lemma scan_spec new nb d session l :
  match scan new nb d session l with
  | ScanMissing => Forall (fun x => relay_hash x <> nb) l
  | ScanExists => exists x, x ∈ l /\ relay_hash x = nb /\ (new = true -> relay_distance x < d)
  | ScanUpdated l' resort => new = true /\ exists l1 x l2, l = l1 ++ x :: l2 /\ relay_hash x = nb /\
      Forall (fun x => relay_hash x <> nb) l1 /\ l' = l1 ++ MkRelay session nb None d :: l2 /\
      (resort = false -> relay_distance x = d) /\ d <= relay_distance x
  end.
Proof.
  induction l as [|x l IH]; cbn [scan]; [constructor|]. case_bool_decide as Hx.
  - destruct new; [|exists x; split_and!; [by left|done|done]].
    destruct (Z.ltb_spec d (relay_distance x)); [|destruct (Z.eqb_spec (relay_distance x) d)].
    + split; [done|]. exists [], x, l. rewrite Hx. split_and!; try done; lia.
    + split; [done|]. exists [], x, l. rewrite Hx. split_and!; try done; lia.
    + exists x. split_and!; [by left|done|lia].
  - destruct (scan new nb d session l) as [l' b| |].
    + destruct IH as (Hn & l1 & y & l2 & -> & Hy & Hl1 & -> & Hb & Hd). split; [done|].
      exists (x :: l1), y, l2. split_and!; try done. by constructor.
    + destruct IH as (y & Hy & ? & ?). exists y. split_and!; [by right|done|done].
    + by constructor.
Qed.

Lemma mark_expired_elem at_ l y :
  at_ <> 0 -> y ∈ mark_expired at_ l -> expires y = true.
Proof.
  intros Ha (x & -> & _)%list_elem_of_fmap. destruct (expires x) eqn:E; [done|]. unfold expires. simpl. lia.
Qed.

Lemma sortRoutes_elem x l : x ∈ sortRoutes l <-> x ∈ l.
Proof. by rewrite (sortRoutes_perm l). Qed.

(** Every route of [l] that is not through [nb] is still in [l'], with its distance. *)
Definition others_kept (nb : string) (l l' : list RelayInfo) : Prop :=
  forall y, y ∈ l -> relay_hash y <> nb ->
    exists y', y' ∈ l' /\ relay_hash y' = relay_hash y /\ relay_distance y' = relay_distance y.

Lemma mark_kept nb at_ l : others_kept nb l (mark_expired at_ l).
Proof.
  intros y Hy _. eexists. split; [apply list_elem_of_fmap; exists y; split; [done|exact Hy]|].
  by destruct (expires y).
Qed.

Lemma others_kept_trans nb l k m : others_kept nb l k -> (forall y, y ∈ k -> relay_hash y <> nb -> y ∈ m) -> others_kept nb l m.
Proof.
  intros Hlk Hkm y Hy Hne. destruct (Hlk y Hy Hne) as (y' & Hy' & Hh & Hd).
  exists y'. split; [|done]. apply Hkm; [done|congruence].
Qed.

(** What becomes of the list. *)
Record add_list_ok (new : bool) (l1 l : list RelayInfo) (later : Z) (nb : string) (d session : Z)
    (l' : list RelayInfo) (existed : bool) : Prop := {
  al_sorted : by_distance l';
  al_existed : existed = true <-> exists x, x ∈ l /\ relay_hash x = nb;
  al_route : exists y, y ∈ l' /\ relay_hash y = nb /\ (new = true \/ existed = false -> relay_distance y = d);
  al_origin y : y ∈ l' -> y ∈ l1 \/ relay_hash y = nb /\ relay_session y = session /\ relay_distance y = d;
  al_others : others_kept nb l l';
  al_new : new = true -> MkRelay session nb None d ∈ l' /\
     (later <> 0 -> forall y, y ∈ l' -> expires y = false -> y = MkRelay session nb None d);
}.

Lemma add_list_spec new old later nb d session l :
  (new = true -> old = false) -> by_distance l ->
  let l1 := if new then mark_expired later l else l in
  let '(l', existed) := add_list new old later nb d session l in
  add_list_ok new l1 l later nb d session l' existed.
Proof.
  intros Hno Hs l1. unfold add_list. fold l1.
  assert (Hs1 : by_distance l1).
  { subst l1. destruct new; [|done]. by eapply by_distance_map, Hs; rewrite mark_expired_distance. }
  assert (Hhash : map relay_hash l1 = map relay_hash l) by (subst l1; destruct new; [apply mark_expired_hash|done]).
  assert (Hex : (exists x, x ∈ l1 /\ relay_hash x = nb) <-> (exists x, x ∈ l /\ relay_hash x = nb)).
  { transitivity (nb ∈ map relay_hash l1); [|rewrite Hhash]; rewrite list_elem_of_fmap; naive_solver. }
  assert (Hkept : others_kept nb l l1).
  { subst l1. destruct new; [apply mark_kept|]. intros y Hy _. by exists y. }
  assert (Hexp : new = true -> later <> 0 -> forall y, y ∈ l1 -> expires y = true).
  { intros Hn. subst l1. rewrite Hn. intros Hl y. by apply mark_expired_elem. }
  pose proof (scan_spec new nb d session l1) as Hscan.
  set (pushed := MkRelay session nb (if old then Some later else None) d).
  assert (Hpush : forall existed, (existed = true <-> exists x, x ∈ l /\ relay_hash x = nb) ->
    add_list_ok new l1 l later nb d session (sortRoutes (l1 ++ [pushed])) existed).
  { intros existed He.
    assert (Hin : forall y, y ∈ sortRoutes (l1 ++ [pushed]) <-> y ∈ l1 \/ y = pushed)
      by (intros y; rewrite sortRoutes_elem, elem_of_app, list_elem_of_singleton; done).
    split; [apply sortRoutes_by_distance|done| | | |].
    - exists pushed. rewrite Hin. by split; [right|].
    - intros y [Hy| ->]%Hin; [by left|by right].
    - eapply others_kept_trans; [exact Hkept|]. intros y Hy _. apply Hin. by left.
    - intros Hn. assert (Hp : MkRelay session nb None d = pushed) by (unfold pushed; by rewrite (Hno Hn)).
      rewrite Hp, Hin. split; [by right|]. intros Hl y [Hy| ->]%Hin He'; [|done].
      rewrite (Hexp Hn Hl y Hy) in He'. done. }
  destruct (scan new nb d session l1) as [l' resort| |].
  - destruct Hscan as (-> & a & x & b & El & Hx & Ha & -> & Hres & Hd). set (R := MkRelay session nb None d).
    assert (Hin : forall y, y ∈ (if resort then sortRoutes (a ++ R :: b) else a ++ R :: b) <-> y ∈ a \/ y = R \/ y ∈ b).
    { intros y. destruct resort; rewrite ?sortRoutes_elem, elem_of_app, elem_of_cons; done. }
    assert (Hin1 : forall y, y ∈ l1 <-> y ∈ a \/ y = x \/ y ∈ b)
      by (intros y; rewrite El, elem_of_app, elem_of_cons; done).
    split.
    + destruct resort; [apply sortRoutes_by_distance|]. eapply by_distance_map, Hs1.
      rewrite El, !map_app. simpl. by rewrite (Hres eq_refl).
    + split; [|done]. intros _. apply Hex. exists x. split; [|done]. apply Hin1. by right; left.
    + exists R. rewrite Hin. split_and!; [by right; left|done|done].
    + intros y [Hy|[->|Hy]]%Hin; [left|by right|left]; apply Hin1; tauto.
    + eapply others_kept_trans; [exact Hkept|]. intros y Hy Hne. apply Hin. apply Hin1 in Hy as [?|[->|?]]; tauto.
    + intros _. rewrite Hin. split; [by right; left|]. intros Hl y [Hy|[->|Hy]]%Hin He; try done;
        rewrite (Hexp eq_refl Hl y) in He; try done; apply Hin1; tauto.
  - destruct Hscan as (x & Hx & Hxn & Hxd).
    assert (He : true = true <-> exists x, x ∈ l /\ relay_hash x = nb) by (split; [intros _; apply Hex; by exists x|done]).
    destruct new; [by apply Hpush|]. split; try done.
    + exists x. split_and!; [done|done|]. by intros [|].
    + intros y Hy. by left.
  - apply Hpush. split; [done|]. intros (x & Hx & Hxn)%Hex. rewrite Forall_forall in Hscan. by apply Hscan in Hx.
Qed.

(** The list a new route is added to. *)
Definition routes_via (r : Routes) (from target : string) : list RelayInfo :=
  match findNeighbor r from target with Some prev => route_list prev | None => [] end.

Definition is_new_session (r : Routes) (from target : string) (session : Z) : bool :=
  match findNeighbor r from target with Some prev => route_session prev <? session | None => true end.

Lemma findNeighbor_get r from target :
  findNeighbor r from target = Map_get (default [] (Map_get (routes r) from)) target.
Proof. unfold findNeighbor. by destruct (Map_get (routes r) from). Qed.

Lemma find_ok r from target info : routes_ok r -> findNeighbor r from target = Some info -> info_ok info.
Proof.
  intros Hr. rewrite findNeighbor_get. apply (Map_get_Forall info_ok). by apply (get_from_ok (routes r)).
Qed.

Lemma routes_via_sorted r from target : routes_ok r -> by_distance (routes_via r from target).
Proof.
  intros Hr. unfold routes_via. destruct (findNeighbor r from target) eqn:E; [|constructor]. by eapply find_ok.
Qed.

(** [add] in terms of the list it changes. *)
Lemma add_outcome r now from nb target distance session rs :
  routes_ok r ->
  let new := is_new_session r from target session in
  let later := now + routeMaxRetentionPeriod r in
  let d := route_distance r from nb target distance in
  let l := routes_via r from target in
  let '(res, r') := add r now from nb target distance session rs in
  exists info existed,
    routes r' = Map_set (routes r) from (Map_set (default [] (Map_get (routes r) from)) target info) /\
    me r' = me r /\ remoteInfo r' = remoteInfo r /\ routeMaxRetentionPeriod r' = routeMaxRetentionPeriod r /\
    rs <= remoteSession info /\
    route_session info = match findNeighbor r from target with Some prev => Z.max session (route_session prev) | None => session end /\
    (res = AddNew <-> existed = false) /\
    add_list_ok new (if new then mark_expired later l else l) l later nb d session (route_list info) existed.
Proof.
  intros Hr new later d l. unfold add. rewrite <- findNeighbor_get. fold new.
  set (old := match findNeighbor r from target with Some _ => _ | None => false end).
  assert (Hno : new = true -> old = false).
  { subst new old. unfold is_new_session. destruct (findNeighbor r from target); [|done]. lia. }
  pose proof (add_list_spec new old later nb d session l Hno (routes_via_sorted r from target Hr)) as Hspec.
  assert (El : route_list (default (MkRoute rs session []) (findNeighbor r from target)) = l)
    by (subst l; unfold routes_via; by destruct (findNeighbor r from target)).
  fold (is_new_session r from target session). fold new. fold later. fold d. rewrite El.
  destruct (add_list new old later nb d session l) as [l' existed] eqn:E.
  eexists _, existed. cbn [routes me remoteInfo routeMaxRetentionPeriod]. split_and!; [reflexivity|done..| | | |exact Hspec].
  - cbn [remoteSession]. destruct (findNeighbor r from target); simpl; lia.
  - cbn [route_session]. destruct (findNeighbor r from target); simpl; lia.
  - destruct existed; [|done]. by case_if_in_goal.
Qed.

(** ** Dropping a relay *)

Lemma drop_from_get hash fm k :
  Map_wf fm ->
  Map_get (drop_from_map hash fm).1 k =
    match Map_get fm k with
    | Some info => match route_list (drop_relay hash info) with [] => None | _ => Some (drop_relay hash info) end
    | None => None
    end.
Proof.
  unfold Map_wf. induction fm as [|[k' info] fm IH]; intros Hw; [done|]. cbn [Map_keys map] in Hw.
  apply NoDup_cons in Hw as [Hk Hw]. specialize (IH Hw). cbn [drop_from_map].
  destruct (drop_from_map hash fm) as [kept lost]. cbn [fst] in IH. cbn [Map_get]. destruct (decide (k' = k)) as [->|Hne].
  - assert (Hn : Map_get fm k = None) by by apply Map_get_None. rewrite Hn in IH.
    destruct (route_list (drop_relay hash info)); cbn [fst Map_get]; [done|by rewrite decide_True].
  - destruct (route_list (drop_relay hash info)); cbn [fst Map_get]; [done|by rewrite decide_False].
Qed.

Lemma drop_from_keys hash fm x : x ∈ Map_keys (drop_from_map hash fm).1 -> x ∈ Map_keys fm.
Proof.
  induction fm as [|[k info] fm IH]; [done|]. cbn [drop_from_map].
  destruct (drop_from_map hash fm) as [kept lost]. cbn [fst] in IH.
  destruct (route_list (drop_relay hash info)); cbn [fst Map_keys map]; [right; auto|].
  intros [->|?]%elem_of_cons; [by left|right; auto].
Qed.

Lemma drop_from_ok hash fm : from_ok fm -> from_ok (drop_from_map hash fm).1.
Proof.
  intros [Hw Hm]. unfold Map_wf in Hw. induction Hm as [|[k info] fm [Hne Hs] Hm IH]; [by split; [constructor|]|].
  simpl in Hw. apply NoDup_cons in Hw as [Hk Hw]. cbn [drop_from_map]. pose proof (drop_from_keys hash fm k) as Hkeys.
  destruct (drop_from_map hash fm) as [kept lost]. destruct (IH Hw) as [Hw' Hm']. simpl in *.
  destruct (List.filter (fun x => negb (bool_decide (relay_hash x = hash))) (route_list info)) eqn:E; [by split|]. split.
  - constructor; [|done]. intros Hin. by apply Hk, Hkeys.
  - constructor; [|done]. split; simpl; rewrite E; [done|]. rewrite <- E. by apply by_distance_filter.
Qed.

Lemma remove_loop_keys me target m b u x :
  x ∈ Map_keys (remove_loop me target m b u).1.1 -> x ∈ Map_keys m.
Proof.
  revert b u. induction m as [|[k fm] m IH]; intros b u; [done|]. cbn [remove_loop].
  destruct (drop_from_map target (Map_delete fm target)) as [kept lost]. cbv zeta.
  match goal with |- context [remove_loop me target m ?b' ?u'] =>
    specialize (IH b' u'); destruct (remove_loop me target m b' u') as [[rest removed] unreachable] end.
  simpl in *. destruct (length kept =? 0)%nat; simpl; [right; auto|].
  intros [->|?]%elem_of_cons; [by left|right; auto].
Qed.

Lemma remove_loop_ok me target m b u : table_ok m -> table_ok (remove_loop me target m b u).1.1.
Proof.
  intros [Hw Hm]. unfold Map_wf in Hw. revert b u.
  induction Hm as [|[k fm] m Hf Hm IH]; intros b u; [by split; [constructor|]|]. simpl in Hw, Hf.
  apply NoDup_cons in Hw as [Hk Hw]. cbn [remove_loop].
  pose proof (drop_from_ok target _ (delete_from_ok fm target Hf)) as Hd.
  destruct (drop_from_map target (Map_delete fm target)) as [kept lost]. cbv zeta.
  match goal with |- context [remove_loop me target m ?b' ?u'] =>
    specialize (IH Hw b' u'); pose proof (remove_loop_keys me target m b' u' k) as Hkeys;
    destruct (remove_loop me target m b' u') as [[rest removed] unreachable] end.
  simpl in *. destruct (length kept =? 0)%nat; [done|]. destruct IH as [Hw' Hm']. split.
  - constructor; [|done]. intros Hin. by apply Hk, Hkeys.
  - by constructor.
Qed.

Lemma remove_ok r target : routes_ok r -> routes_ok (remove r target).2.
Proof.
  intros Hr. unfold remove. pose proof (remove_loop_ok (me r) target _ false [] (delete_table_ok _ target Hr)) as Hok.
  destruct (remove_loop (me r) target (Map_delete (routes r) target) false []) as [[m b] u]. done.
Qed.

Lemma removeNeighbour_ok r neighbour : routes_ok r -> routes_ok (removeNeighbour r neighbour).
Proof.
  intros Hr. apply (delete_table_ok _ neighbour) in Hr as [Hw Hm]. unfold removeNeighbour. split; simpl.
  - unfold Map_wf, Map_keys in *. by rewrite map_map.
  - apply Forall_fmap. eapply Forall_impl; [exact Hm|]. intros [k fm]. simpl. by apply drop_from_ok.
Qed.

Lemma cleanup_ok r now from to : routes_ok r -> routes_ok (cleanup r now from to).
Proof.
  intros Hr. unfold cleanup. destruct (Map_get (routes r) from) as [fm|] eqn:Ef; [|done].
  pose proof (get_from_ok (routes r) from Hr) as Hf. rewrite Ef in Hf. simpl in Hf.
  destruct (Map_get fm to) as [info|] eqn:Et; [|done].
  pose proof (Map_get_Forall info_ok fm to info (proj2 Hf) Et) as [_ Hs].
  apply (by_distance_filter (fun route => negb (is_expired now route))) in Hs.
  destruct (List.filter _ (route_list info)) as [|x l].
  - case_if_in_goal; [by apply delete_table_ok|]. apply set_table_ok; [done|by apply delete_from_ok].
  - apply set_table_ok; [done|]. by apply set_from_ok.
Qed.

Lemma add_ok r now from nb target distance session rs :
  routes_ok r -> routes_ok (add r now from nb target distance session rs).2.
Proof.
  intros Hr. pose proof (add_outcome r now from nb target distance session rs Hr) as H. cbv zeta in H.
  destruct (add r now from nb target distance session rs) as [res r'].
  destruct H as (info & existed & E & _ & _ & _ & _ & _ & _ & Hal). unfold routes_ok. simpl. rewrite E.
  apply set_table_ok; [done|]. apply set_from_ok; [by apply get_from_ok|].
  split; [|apply Hal]. destruct (al_route _ _ _ _ _ _ _ _ _ Hal) as (y & Hy & _). intros El. rewrite El in Hy.
  by apply not_elem_of_nil in Hy.
Qed.

(** ** Reachable tables *)

(** What can happen to a table: its public operations, and the timers. *)
Inductive routes_step (r : Routes) : Routes -> Prop :=
| step_add now from neighbour target distance session rs :
    routes_step r (add r now from neighbour target distance session rs).2
| step_remove target : routes_step r (remove r target).2
| step_removeNeighbour neighbour : routes_step r (removeNeighbour r neighbour)
| step_updateSession remote session : routes_step r (updateSession r remote session).2
| step_clear : routes_step r (clear r)
| step_fire now c : c ∈ scheduled r -> due c <= now -> routes_step r (fire r now c).

Lemma step_ok r r' : routes_ok r -> routes_step r r' -> routes_ok r'.
Proof.
  intros Hr [now from nb target distance session rs|target|nb|remote session| |now c _ _].
  - by apply add_ok.
  - by apply remove_ok.
  - by apply removeNeighbour_ok.
  - unfold updateSession. destruct session; [|done]. destruct (Map_get (remoteInfo r) remote); [|done].
    by case_ifs_all.
  - split; [constructor|done].
  - by apply cleanup_ok.
Qed.

(** In every table that the operations and timers can produce, no target is
    without a route and the routes to it are in order of distance, so the first
    one, which [isReachable] and [getFanout] rely on, is a closest one. *)
Theorem reachable_tables_sorted (me_ : string) (retention : option Z) (r : Routes) :
  rtc routes_step (new_Routes me_ retention) r ->
  forall from target info, findNeighbor r from target = Some info ->
    exists x l, route_list info = x :: l /\ forall y, y ∈ x :: l -> relay_distance x <= relay_distance y.
Proof.
  intros Hr from target info Hi. assert (Hok : routes_ok r).
  { assert (H0 : routes_ok (new_Routes me_ retention)) by (split; [constructor|done]).
    induction Hr as [|r1 r2 r3 Hstep _ IH]; [done|]. by apply IH, (step_ok r1). }
  destruct (find_ok r from target info Hok Hi) as [Hne Hs]. destruct (route_list info) as [|x l]; [done|].
  exists x, l. split; [done|]. apply StronglySorted_inv in Hs as [_ Hx]. rewrite Forall_forall in Hx.
  intros y [->|Hy]%elem_of_cons; [lia|by apply Hx].
Qed.

(** ** [add] and [remove], as lookups *)

(** [add]: only the route from the origin to the target changes; it goes
    through the neighbour; routes through others stay (as expired ones where a
    new session has begun, when only the route just added is not due to
    expire); the sessions never go back; and the answer is [new] exactly when
    there was no route through the neighbour.  A route that is new, or of a new
    session, makes the target reachable at its distance, if it knows the
    target's current session. *)
Theorem add_correct (r : Routes) (now : Z) (from nb target : string) (distance session rs : Z) :
  routes_ok r ->
  let d := route_distance r from nb target distance in
  let '(res, r') := add r now from nb target distance session rs in
  (forall f t, (f, t) <> (from, target) -> findNeighbor r' f t = findNeighbor r f t) /\
  exists info, findNeighbor r' from target = Some info /\
    rs <= remoteSession info /\ session <= route_session info /\
    (res = AddNew <-> Forall (fun x => relay_hash x <> nb) (routes_via r from target)) /\
    (exists y, y ∈ route_list info /\ relay_hash y = nb) /\
    others_kept nb (routes_via r from target) (route_list info) /\
    (is_new_session r from target session = true -> now + routeMaxRetentionPeriod r <> 0 ->
       forall y, y ∈ route_list info -> expires y = false -> y = MkRelay session nb None d) /\
    (is_new_session r from target session = true \/ res = AddNew ->
       forall s maxDistance, Map_get (remoteInfo r) target = Some (Some s) -> s <= rs -> d <= maxDistance ->
         isReachable r' from target maxDistance = true).
Proof.
  intros Hr d. pose proof (add_outcome r now from nb target distance session rs Hr) as H. cbv zeta in H. fold d in H.
  destruct (add r now from nb target distance session rs) as [res r'].
  destruct H as (info & existed & E & _ & Eri & _ & Hrs & Hses & Hres & Hal).
  assert (Hfind : forall f t, findNeighbor r' f t = if decide (f = from /\ t = target) then Some info else findNeighbor r f t).
  { intros f t. rewrite !findNeighbor_get, E, Map_get_set. destruct (decide (from = f)) as [->|].
    - simpl. rewrite Map_get_set. destruct (decide (target = t)) as [->|].
      + by rewrite decide_True.
      + rewrite decide_False by naive_solver. done.
    - rewrite decide_False by naive_solver. done. }
  split; [intros f t Hne; rewrite Hfind; rewrite decide_False; naive_solver|].
  assert (Hi : findNeighbor r' from target = Some info) by (rewrite Hfind; by rewrite decide_True).
  destruct (al_route _ _ _ _ _ _ _ _ _ Hal) as (y & Hy & Hyn & Hyd).
  exists info. split_and!; [done|done| | |by exists y|by eapply al_others| |].
  - rewrite Hses. destruct (findNeighbor r from target); lia.
  - rewrite Hres. pose proof (al_existed _ _ _ _ _ _ _ _ _ Hal) as He. rewrite <- not_true_iff_false, He, Forall_forall.
    naive_solver.
  - intros Hn Hl. by apply (al_new _ _ _ _ _ _ _ _ _ Hal Hn).
  - intros Hor s maxd Hs Hle Hd. unfold isReachable. rewrite Hi, Eri, Hs.
    replace (remoteSession info <? s) with false by lia.
    pose proof (al_sorted _ _ _ _ _ _ _ _ _ Hal) as Hsort. destruct (route_list info) as [|x l]; [by apply not_elem_of_nil in Hy|].
    apply StronglySorted_inv in Hsort as [_ Hx]. rewrite Forall_forall in Hx.
    assert (relay_distance y = d) by (apply Hyd; destruct Hor; [by left|right; by apply Hres]).
    apply elem_of_cons in Hy as [->|Hy]; [lia|]. specialize (Hx y Hy). lia.
Qed.

Lemma drop_from_lost hash fm x :
  Map_wf fm -> x ∈ (drop_from_map hash fm).2 <->
  exists info, Map_get fm x = Some info /\ route_list (drop_relay hash info) = [].
Proof.
  unfold Map_wf. induction fm as [|[k info] fm IH]; intros Hw; [split; [by intros ?%not_elem_of_nil|by intros (? & ? & _)]|].
  cbn [Map_keys map] in Hw. apply NoDup_cons in Hw as [Hk Hw]. specialize (IH Hw). cbn [drop_from_map Map_get].
  destruct (drop_from_map hash fm) as [kept lost]. cbn [snd] in IH.
  assert (Hnone : Map_get fm k = None) by by apply Map_get_None.
  destruct (decide (k = x)) as [->|Hne].
  - rewrite Hnone in IH. destruct (route_list (drop_relay hash info)) eqn:E; cbn [snd].
    + split; [intros _; by exists info|intros _; by left].
    + rewrite IH. split; [by intros (i & ? & _)|]. intros (i & [= <-] & Hi). congruence.
  - destruct (route_list (drop_relay hash info)) eqn:E; cbn [snd]; [rewrite elem_of_cons|]; rewrite IH; naive_solver.
Qed.

(** The targets of one origin after the removal. *)
Definition kept_targets (target : string) (fm : list (string * RouteInfo)) : list (string * RouteInfo) :=
  (drop_from_map target (Map_delete fm target)).1.

Lemma remove_loop_spec me_ target m b u :
  table_ok m ->
  let '(m', removed, unreachable) := remove_loop me_ target m b u in
  (forall k, default [] (Map_get m' k) = match Map_get m k with Some fm => kept_targets target fm | None => [] end) /\
  (removed = true <-> b = true \/ exists fm, Map_get m me_ = Some fm /\ Map_has fm target = true) /\
  (forall x, x ∈ unreachable <-> x ∈ u \/
     exists fm, Map_get m me_ = Some fm /\ x ∈ (drop_from_map target (Map_delete fm target)).2).
Proof.
  intros [Hw Hm]. unfold Map_wf in Hw. revert b u. induction m as [|[k fm] m IH]; intros b u.
  { cbn [remove_loop]. split_and!; [done|naive_solver|naive_solver]. }
  cbn [Map_keys map] in Hw. apply NoDup_cons in Hw as [Hk Hw]. apply Forall_cons in Hm as [Hf Hm]. cbn [remove_loop].
  destruct (drop_from_map target (Map_delete fm target)) as [kept lost] eqn:Ed. cbv zeta.
  match goal with |- context [remove_loop me_ target m ?b' ?u'] =>
    specialize (IH Hw Hm b' u'); pose proof (remove_loop_keys me_ target m b' u' k) as Hkeys;
    destruct (remove_loop me_ target m b' u') as [[m' removed] unreachable] end.
  destruct IH as (Hget & Hrem & Hun). cbn [fst] in Hkeys.
  assert (Hkept : kept_targets target fm = kept) by (unfold kept_targets; by rewrite Ed).
  assert (Hmk : Map_get m k = None) by by apply Map_get_None.
  assert (Hmk' : Map_get m' k = None) by (apply Map_get_None; intros Hin; by apply Hk, Hkeys). split_and!.
  - intros x. cbn [Map_get]. destruct (decide (k = x)) as [->|Hne].
    + rewrite Hkept. destruct kept; cbn [length Nat.eqb]; [by rewrite Hmk'|].
      cbn [Map_get]. by rewrite decide_True.
    + rewrite <- Hget. destruct kept; cbn [length Nat.eqb]; [done|]. cbn [Map_get]. by rewrite decide_False.
  - rewrite Hrem. cbn [Map_get]. rewrite orb_true_iff, andb_true_iff, bool_decide_eq_true.
    destruct (decide (k = me_)) as [->|]; [rewrite Hmk|]; naive_solver.
  - intros x. rewrite Hun. cbn [Map_get]. case_bool_decide as Hme.
    + subst k. rewrite Hmk, decide_True, Set_add_all_elem by done.
      split; [intros [[?|?]|(? & ? & _)]; [by left|right; exists fm; by rewrite Ed|done]|].
      intros [?|(fm' & [= <-] & Hx)]; [by left; left|]. rewrite Ed in Hx. by left; right.
    + rewrite decide_False by done. done.
Qed.

(** What [remove] leaves of the route to [to]. *)
Definition without (target : string) (info : RouteInfo) : option RouteInfo :=
  match route_list (drop_relay target info) with [] => None | _ => Some (drop_relay target info) end.

Lemma kept_targets_get target fm to :
  Map_wf fm ->
  Map_get (kept_targets target fm) to = if decide (to = target) then None else Map_get fm to ≫= without target.
Proof.
  intros Hw. unfold kept_targets. rewrite drop_from_get, Map_get_delete by by apply Map_delete_wf.
  destruct (decide (target = to)) as [->|]; [by rewrite decide_True|]. rewrite decide_False by done.
  by destruct (Map_get fm to).
Qed.

Lemma remove_find r target from to :
  routes_ok r ->
  findNeighbor (remove r target).2 from to =
    if decide (from = target \/ to = target) then None else findNeighbor r from to ≫= without target.
Proof.
  intros Hr. unfold remove.
  pose proof (remove_loop_spec (me r) target (Map_delete (routes r) target) false [] (delete_table_ok _ target Hr)) as H.
  destruct (remove_loop (me r) target (Map_delete (routes r) target) false []) as [[m b] u].
  destruct H as (Hget & _ & _). rewrite !findNeighbor_get. cbn [snd routes]. rewrite Hget, Map_get_delete.
  destruct (decide (target = from)) as [->|Hne]; [by rewrite decide_True by by left|].
  pose proof (get_from_ok (routes r) from Hr) as [Hw _].
  destruct (Map_get (routes r) from) as [fm|]; simpl in *; [|by case_decide].
  rewrite kept_targets_get by done. destruct (decide (to = target)) as [->|]; [by rewrite decide_True by by right|].
  by rewrite decide_False by naive_solver.
Qed.

(** [remove]: afterwards nothing leads to the removed peer, from it or
    through it, every other route is as it was, in the same order; and the
    answer names exactly the peers this node had a route to and now has not. *)
Theorem remove_correct (r : Routes) (target : string) :
  routes_ok r ->
  let '(unreachable, r') := remove r target in
  (forall from to info, findNeighbor r' from to = Some info ->
     from <> target /\ to <> target /\ Forall (fun x => relay_hash x <> target) (route_list info)) /\
  (forall from to info, from <> target -> to <> target -> findNeighbor r from to = Some info ->
     Exists (fun x => relay_hash x <> target) (route_list info) ->
     findNeighbor r' from to = Some (drop_relay target info)) /\
  (forall x, x ∈ unreachable <->
     target <> me r /\ is_Some (findNeighbor r (me r) x) /\ findNeighbor r' (me r) x = None).
Proof.
  intros Hr. pose proof (remove_find r target) as Hfind. unfold remove in *.
  pose proof (remove_loop_spec (me r) target (Map_delete (routes r) target) false [] (delete_table_ok _ target Hr)) as H.
  destruct (remove_loop (me r) target (Map_delete (routes r) target) false []) as [[m b] u].
  destruct H as (_ & Hb & Hu). cbn [snd] in Hfind. set (r' := MkRoutes (me r) m _ _ _) in *.
  split_and!.
  - intros from to info. rewrite Hfind by done. intros Hi. case_decide as Hd; [done|]. split_and!; [tauto..|].
    destruct (findNeighbor r from to) as [i|]; [|done]. simpl in Hi. unfold without in Hi.
    assert (E : info = drop_relay target i) by (destruct (route_list (drop_relay target i)); by simplify_eq).
    subst info. simpl. apply Forall_forall. intros x Hx. apply list_elem_of_In, filter_In in Hx as [_ Hx].
    by apply negb_true_iff, bool_decide_eq_false in Hx.
  - intros from to info Hf Ht Hi (x & Hx & Hn)%Exists_exists. rewrite Hfind, decide_False, Hi by tauto. simpl.
    unfold without. destruct (route_list (drop_relay target info)) eqn:E; [|done]. exfalso. simpl in E.
    assert (Hin : x ∈ List.filter (fun x => negb (bool_decide (relay_hash x = target))) (route_list info)).
    { apply list_elem_of_In, filter_In. split; [by apply list_elem_of_In|]. by apply negb_true_iff, bool_decide_eq_false. }
    rewrite E in Hin. by apply not_elem_of_nil in Hin.
  - intros x.
    assert (Hmem : x ∈ (if b then Set_add u target else u) <->
      target <> me r /\ is_Some (findNeighbor r (me r) x) /\ findNeighbor r' (me r) x = None).
    { rewrite Hfind by done.
      assert (Hbt : b = true <-> target <> me r /\ is_Some (findNeighbor r (me r) target)).
      { rewrite Hb, Map_get_delete, findNeighbor_get. unfold Map_has.
        destruct (decide (target = me r)) as [|]; [split; [by intros [?|(? & ? & _)]|tauto]|].
        destruct (Map_get (routes r) (me r)) as [fm|]; simpl.
        - split; [|intros [_ [i E]]; right; exists fm; by rewrite E].
          intros [?|(fm' & [= <-] & Hx)]; [done|]. split; [done|]. by destruct (Map_get fm target).
        - split; [by intros [?|(? & ? & _)]|by intros [_ [? ?]]]. }
      assert (Hut : x ∈ u <-> target <> me r /\ x <> target /\ exists info, findNeighbor r (me r) x = Some info /\ without target info = None).
      { rewrite Hu, Map_get_delete, findNeighbor_get. destruct (decide (target = me r)) as [|Hne].
        - split; [intros [?%not_elem_of_nil|(? & ? & _)]; done|naive_solver].
        - pose proof (get_from_ok (routes r) (me r) Hr) as [Hw _].
          destruct (Map_get (routes r) (me r)) as [fm|]; simpl in *.
          + split.
            * intros [?%not_elem_of_nil|(fm' & [= <-] & Hx)]; [done|].
              apply drop_from_lost in Hx as (info & Hi & E); [|by apply Map_delete_wf].
              rewrite Map_get_delete in Hi. case_decide; [done|]. split_and!; [done|done|]. exists info.
              split; [done|]. unfold without. by rewrite E.
            * intros (_ & Hx & info & Hi & E). right. exists fm. split; [done|].
              apply drop_from_lost; [by apply Map_delete_wf|]. exists info. rewrite Map_get_delete, decide_False by done.
              split; [done|]. unfold without in E. by destruct (route_list (drop_relay target info)).
          + split; [intros [?%not_elem_of_nil|(? & ? & _)]; done|naive_solver]. }
      destruct (decide (x = target)) as [->|Hx].
      - rewrite (decide_True (P := me r = target \/ target = target)) by by right.
        destruct b; [rewrite Set_add_elem|rewrite Hut].
        + split; [intros _; by destruct (proj1 Hbt eq_refl)|by left].
        + split; [by intros (_ & ? & _)|]. intros (H1 & H2 & _). discriminate (proj2 Hbt (conj H1 H2)).
      - transitivity (x ∈ u).
        { destruct b; [rewrite Set_add_elem|done]. split; [by intros [?|?]|by right]. }
        rewrite Hut. destruct (findNeighbor r (me r) x) as [i|]; simpl.
        + split.
          * intros (H1 & _ & info & [= <-] & H3). split_and!; [done|by exists i|]. by case_decide.
          * intros (H1 & _ & H3). rewrite decide_False in H3 by (intros [?|?]; congruence).
            split_and!; [done..|]. by exists i.
        + split; [by intros (_ & _ & ? & ? & _)|by intros (_ & [? ?] & _)]. }
    rewrite list_elem_of_In, filter_In, <- list_elem_of_In, Hmem. split; [tauto|]. intros (H1 & H2 & H3).
    split; [done|]. unfold isReachable. by rewrite H3.
Qed.

(** ** The fan-out *)

(** Neighbour [nb] is asked to relay to [to]. *)
Definition asked (m : option Fanout) (nb to : string) : Prop :=
  exists inner, Map_get (default [] m) nb = Some inner /\ is_Some (Map_get inner to).

Lemma asked_set m h t ts nb to :
  asked (fan_set m h t ts) nb to <-> (nb = h /\ to = t) \/ asked m nb to.
Proof.
  unfold asked, fan_set. cbv zeta. cbn [from_option]. unfold id at 1. rewrite Map_get_set. destruct (decide (h = nb)) as [->|Hne]; [|naive_solver].
  split.
  - intros (inner & [= <-] & Hi). rewrite Map_get_set in Hi. destruct (decide (t = to)) as [->|]; [by left|].
    right. destruct (Map_get (default [] m) nb) as [inner|]; simpl in Hi; [by exists inner|by destruct Hi].
  - intros H. eexists. split; [done|]. rewrite Map_get_set. destruct (decide (t = to)) as [|]; [by eexists|].
    destruct H as [[_ ->]|(inner & E & Hi)]; [done|]. by rewrite E.
Qed.

Section FanLoop.
Context (relaying : bool) (redundancy : Z) (to : string) (infoSession : Z).

(** A route of this node's closest kind: the target is a neighbour, or one hop away. *)
Definition closest_route (x : RelayInfo) : Prop :=
  relay_distance x <= 0 /\ relay_session x <= infoSession.

Record fan_ok (l : list RelayInfo) (s s' : FanState) : Prop := {
  fan_keeps nb t : asked (fanoutMap s) nb t -> asked (fanoutMap s') nb t;
  fan_from nb t : asked (fanoutMap s') nb t -> asked (fanoutMap s) nb t \/
    t = to /\ exists x, x ∈ l /\ relay_hash x = nb /\ relay_distance x < redundancy;
  fan_closest : foundClosest s' = true -> foundClosest s = true \/
    exists x, x ∈ l /\ closest_route x /\ asked (fanoutMap s') (relay_hash x) to;
}.

Lemma fan_ok_refl l s b n p : (b = true -> foundClosest s = true) -> fan_ok l s (MkFan b n p (fanoutMap s)).
Proof. intros Hb. split; simpl; auto. Qed.

Lemma fan_ok_tail x l s s' : fan_ok l s s' -> fan_ok (x :: l) s s'.
Proof.
  intros [H1 H2 H3]. split; [done| |].
  - intros nb t Ha. destruct (H2 nb t Ha) as [?|(? & y & ? & ?)]; [by left|]. right. split; [done|]. exists y. by split; [right|].
  - intros Hf. destruct (H3 Hf) as [?|(y & ? & ?)]; [by left|right; exists y; by split; [right|]].
Qed.

(** One route taken, then the rest. *)
Lemma fan_ok_step x l s b n p s' :
  relay_distance x < redundancy ->
  (b = true -> foundClosest s = true \/ closest_route x) ->
  fan_ok l (MkFan b n p (fan_set (fanoutMap s) (relay_hash x) to (relay_session x))) s' -> fan_ok (x :: l) s s'.
Proof.
  intros Hx Hb [H1 H2 H3]. cbn [fanoutMap foundClosest] in *. split.
  - intros nb t Ha. apply H1, asked_set. by right.
  - intros nb t Ha. destruct (H2 nb t Ha) as [[[-> ->]|?]%asked_set|(-> & y & ? & ?)]; [|by left|].
    + right. split; [done|]. exists x. by split; [left|].
    + right. split; [done|]. exists y. by split; [right|].
  - intros Hf. destruct (H3 Hf) as [[?|Hc]%Hb|(y & ? & ?)]; [by left| |].
    + right. exists x. split_and!; [by left|done|]. apply H1, asked_set. by left.
    + right. exists y. by split; [right|].
Qed.

Lemma fan_loop_ok l s : fan_ok l s (fan_loop relaying redundancy to infoSession l s).
Proof.
  revert s. induction l as [|x l IH]; intros s; cbn [fan_loop]; [destruct s; by apply (fan_ok_refl [] (MkFan _ _ _ _))|].
  destruct (expires x && _); [by apply fan_ok_tail|]. cbv zeta.
  destruct (Z.leb_spec redundancy (relay_distance x)) as [|Hr]; [by apply fan_ok_refl|].
  set (closest := (relay_distance x <=? 0) && (relay_session x <=? infoSession)).
  assert (Hb : foundClosest s || closest = true -> foundClosest s = true \/ closest_route x).
  { intros [?|Hc]%orb_true_iff; [by left|right]. subst closest. unfold closest_route. lia. }
  case_ifs_all; first [apply (fan_ok_step x l s _ 0 0 _ Hr Hb); by apply fan_ok_refl
                      |eapply fan_ok_step; [exact Hr|exact Hb|apply IH]].
Qed.

End FanLoop.

Section Fanouts.
Context (r : Routes) (from : string) (redundancy : Z).

(** What the fan-out promises for one target. *)
Definition covers_target (m : option Fanout) (to : string) : Prop :=
  exists info, findNeighbor r from to = Some info /\
    (from = me r -> exists x, x ∈ route_list info /\ closest_route (route_session info) x /\ asked m (relay_hash x) to).

Definition from_table (tos : list string) (nb to : string) : Prop :=
  to ∈ tos /\ to <> me r /\ to <> from /\
  exists info x, findNeighbor r from to = Some info /\ x ∈ route_list info /\ relay_hash x = nb /\ relay_distance x < redundancy.

Lemma fan_targets_ok tos m m' :
  fan_targets r from tos redundancy m = Some m' ->
  (forall nb t, asked m nb t -> asked m' nb t) /\
  (forall nb t, asked m' nb t -> asked m nb t \/ from_table tos nb t) /\
  (forall to, to ∈ tos -> to <> me r -> to <> from -> covers_target m' to).
Proof.
  revert m. induction tos as [|to tos IH]; intros m E; cbn [fan_targets] in E.
  { simplify_eq. split_and!; [done|by left|by intros ? ?%not_elem_of_nil]. }
  assert (Hmore : forall nb t, from_table tos nb t -> from_table (to :: tos) nb t).
  { intros nb t (? & ? & ? & ?). split_and!; [by right|done..]. }
  destruct (bool_decide (to = me r) || bool_decide (from = to)) eqn:Eskip.
  - destruct (IH m E) as (H1 & H2 & H3). split_and!; [done| |].
    + intros nb t Ha. destruct (H2 nb t Ha); [by left|right; auto].
    + intros t [->|Ht]%elem_of_cons Hm Hf; [|by apply H3].
      apply orb_true_iff in Eskip as [?%bool_decide_eq_true|?%bool_decide_eq_true]; congruence.
  - apply orb_false_iff in Eskip as [Em%bool_decide_eq_false Ef%bool_decide_eq_false].
    destruct (findNeighbor r from to) as [info|] eqn:Ei; [|done]. cbv zeta in E.
    set (s0 := MkFan false 0 (-2) m) in *. set (s := fan_loop _ _ _ _ _ s0) in *.
    pose proof (fan_loop_ok (negb (bool_decide (from = me r))) redundancy to (route_session info) (route_list info) s0) as [K1 K2 K3].
    fold s in K1, K2, K3. cbn [fanoutMap foundClosest s0] in K1, K2, K3.
    destruct (negb (foundClosest s) && bool_decide (from = me r)) eqn:Ec; [done|].
    destruct (IH _ E) as (H1 & H2 & H3). split_and!.
    + intros nb t Ha. by apply H1, K1.
    + intros nb t Ha. destruct (H2 nb t Ha) as [Ha'|]; [|by right; apply Hmore].
      destruct (K2 nb t Ha') as [?|(-> & x & Hx & Hh & Hd)]; [by left|]. right.
      split_and!; [by left|done|congruence|]. by exists info, x.
    + intros t [->|Ht]%elem_of_cons Hm Hf; [|by apply H3]. exists info. split; [done|]. intros Hme.
      rewrite bool_decide_true, andb_true_r, negb_false_iff in Ec by done.
      destruct (K3 Ec) as [?|(x & Hx & Hc & Ha)]; [done|]. exists x. split_and!; [done|done|]. by apply H1.
Qed.

End Fanouts.

(** [getFanout]: when it answers with a map, every target other than this
    node and the sender has a route from the sender, and when the sender is this
    node the map asks a neighbour on a closest route of the current session for
    it; and the map asks only neighbours on known routes, nearer than the
    redundancy, and only for targets of the message. *)
Theorem getFanout_correct (r : Routes) (from : string) (tos : list string) (redundancy : Z) (m : Fanout) :
  getFanout r from tos redundancy = Some m ->
  (forall to, to ∈ tos -> to <> me r -> to <> from -> covers_target r from (Some m) to) /\
  (forall nb to, asked (Some m) nb to -> from_table r from redundancy tos nb to).
Proof.
  intros E. unfold getFanout in E. destruct tos as [|to tos]; [done|]. set (l := to :: tos) in *.
  destruct (fan_targets r from l redundancy None) as [m'|] eqn:Em; [|done]. injection E as <-.
  destruct (fan_targets_ok r from redundancy l None m' Em) as (_ & H2 & H3). split.
  - intros t Ht Hm Hf. destruct (H3 t Ht Hm Hf) as (info & Hi & Hc). exists info. split; [done|]. intros Hme.
    destruct (Hc Hme) as (x & Hx & Hcx & inner & Ha). exists x. split_and!; [done|done|]. by exists inner.
  - intros nb t (inner & Ha). destruct (H2 nb t) as [(? & ? & _)|?]; [by exists inner|done|done].
Qed.

(** ** What is lost *)

(** [cleanup] of the last route to a target throws away the whole table of
    the origin when exactly one other target is left in it, live routes and
    all; and it keeps the table when it has become empty. *)
Theorem cleanup_drops_live_route (r : Routes) (now : Z) (from to other : string) (info info' : RouteInfo) :
  Map_get (routes r) from = Some [(to, info); (other, info')] -> to <> other ->
  Forall (fun x => is_expired now x = true) (route_list info) ->
  findNeighbor r from other = Some info' /\ findNeighbor (cleanup r now from to) from other = None.
Proof.
  intros E Hne Hexp. split.
  - unfold findNeighbor. rewrite E. cbn [Map_get]. by rewrite decide_False, decide_True.
  - unfold cleanup. rewrite E. cbn [Map_get]. rewrite decide_True by done.
    assert (Ef : List.filter (fun route => negb (is_expired now route)) (route_list info) = []).
    { induction Hexp as [|x l Hx _ IH]; [done|]. simpl. by rewrite Hx. }
    rewrite Ef. cbn [Map_delete List.filter fst]. rewrite bool_decide_true, bool_decide_false by congruence.
    cbn [negb length Nat.eqb]. cbv zeta iota. unfold findNeighbor. cbn [with_routes routes].
    by rewrite Map_get_delete, decide_True.
Qed.

(** ** Pruning *)

Lemma removeNeighbour_find r nb from to :
  routes_ok r -> from <> nb ->
  findNeighbor (removeNeighbour r nb) from to = findNeighbor r from to ≫= without nb.
Proof.
  intros Hr Hne. rewrite !findNeighbor_get. unfold removeNeighbour. cbn [with_routes routes].
  assert (E : Map_get (map (fun e => (e.1, (drop_from_map nb e.2).1)) (Map_delete (routes r) nb)) from =
              (fun fm => (drop_from_map nb fm).1) <$> Map_get (routes r) from).
  { assert (Hg : forall m : list (string * list (string * RouteInfo)),
      Map_get (map (fun e => (e.1, (drop_from_map nb e.2).1)) m) from = (fun fm => (drop_from_map nb fm).1) <$> Map_get m from).
    { induction m as [|[k fm] m IH]; [done|]. cbn [map Map_get fst snd]. by case_decide. }
    by rewrite Hg, Map_get_delete, decide_False by done. }
  rewrite E. pose proof (get_from_ok (routes r) from Hr) as [Hw _].
  destruct (Map_get (routes r) from) as [fm|]; simpl in *; [|done]. rewrite drop_from_get by done.
  by destruct (Map_get fm to).
Qed.

(** [getPrunable]: as long as the routes to a target go through different
    neighbours, dropping a prunable neighbour leaves this node a route to every
    other target it has. *)
Theorem prunable_keeps_targets (r : Routes) (neighbours : list string) (candidate target : string) (info : RouteInfo) :
  routes_ok r -> candidate ∈ getPrunable r neighbours -> candidate <> me r -> target <> candidate ->
  findNeighbor r (me r) target = Some info -> NoDup (map relay_hash (route_list info)) ->
  candidate ∈ neighbours /\
  exists info', findNeighbor (removeNeighbour r candidate) (me r) target = Some info' /\ route_list info' <> [].
Proof.
  intros Hr Hp Hme Ht Hi Hnd. unfold getPrunable in Hp. pose proof Hi as Hi'. rewrite findNeighbor_get in Hi'.
  destruct (Map_get (routes r) (me r)) as [fm|] eqn:Em; [|by apply not_elem_of_nil in Hp].
  apply list_elem_of_In, filter_In in Hp as [Hin Hp]. split; [by apply list_elem_of_In|].
  rewrite removeNeighbour_find, Hi by done. simpl. unfold without.
  destruct (route_list (drop_relay candidate info)) eqn:E; [exfalso|eexists; split; [done|]; by rewrite E].
  apply negb_true_iff, not_true_iff_false in Hp. apply Hp, existsb_exists. exists (target, info).
  split; [by apply list_elem_of_In, Map_get_Some_elem|]. cbn [fst snd]. rewrite bool_decide_false by done. cbn [negb andb].
  destruct (find_ok r (me r) target info Hr Hi) as [Hne _].
  assert (Hall : Forall (fun x => relay_hash x = candidate) (route_list info)).
  { apply Forall_forall. intros x Hx. destruct (decide (relay_hash x = candidate)) as [|Hd]; [done|]. exfalso.
    enough (x ∈ route_list (drop_relay candidate info)) as Hbad by (rewrite E in Hbad; by apply not_elem_of_nil in Hbad).
    simpl. apply list_elem_of_In, filter_In. split; [by apply list_elem_of_In|]. by rewrite bool_decide_false. }
  destruct (route_list info) as [|x [|y l]]; [done| |].
  - apply bool_decide_true. by apply Forall_inv in Hall.
  - apply Forall_cons in Hall as [Hx Hall]. apply Forall_inv in Hall. cbn [map] in Hnd.
    apply NoDup_cons in Hnd as [Hnd _]. exfalso. apply Hnd. rewrite Hx, <- Hall. by left.
Qed.

(** A longer route of a new session through the same neighbour is kept
    beside the old one, so the list has two entries through one neighbour; the
    only neighbour towards a target then counts as prunable. *)
Theorem prunable_duplicate_loses :
  let r1 := (add (new_Routes "me" None) 0 "me" "n" "t" 1 1 1).2 in
  let r2 := (add r1 5 "me" "n" "t" 2 2 1).2 in
  getPrunable r1 ["n"%string] = [] /\ getPrunable r2 ["n"%string] = ["n"%string] /\
  map relay_hash (routes_via r2 "me" "t") = ["n"; "n"]%string /\
  findNeighbor (removeNeighbour r2 "n") "me" "t" = None.
Proof. by vm_compute. Qed.

(** ** A concrete table: "a" is a neighbour, "b" lies behind it *)

Section Witnesses.

Definition table1 : Routes := (add (new_Routes "me" None) 0 "me" "a" "a" 0 1 1).2.
Definition table2 : Routes := (add table1 0 "me" "a" "b" 0 1 1).2.
Definition table3 : Routes := (updateSession table2 "b" (Some 1)).2.

Lemma table3_reachable : rtc routes_step (new_Routes "me" None) table3.
Proof.
  eapply rtc_l; [apply (step_add _ 0 "me" "a" "a" 0 1 1)|].
  eapply rtc_l; [apply (step_add _ 0 "me" "a" "b" 0 1 1)|].
  eapply rtc_l; [apply (step_updateSession _ "b" (Some 1))|]. apply rtc_refl.
Qed.

Lemma table3_ok : routes_ok table3.
Proof.
  apply (step_ok table2); [|apply (step_updateSession _ "b" (Some 1))].
  apply add_ok, add_ok. split; [constructor|done].
Qed.

Lemma reachable_tables_sorted_witness :
  exists x l, routes_via table3 "me" "b" = x :: l /\ relay_hash x = "a"%string.
Proof.
  destruct (findNeighbor table3 "me" "b") as [info|] eqn:E; [|by vm_compute in E].
  destruct (reachable_tables_sorted "me" None table3 table3_reachable "me" "b" info E) as (x & l & El & _).
  exists x, l. split; [unfold routes_via; by rewrite E|]. vm_compute in E. injection E as <-. by injection El as <- _.
Defined.

Lemma add_correct_witness :
  let r' := (add table3 9 "me" "c" "b" 1 2 1).2 in
  isReachable r' "me" "b" 1 = true /\ findNeighbor r' "me" "a" = findNeighbor table3 "me" "a".
Proof.
  pose proof (add_correct table3 9 "me" "c" "b" 1 2 1 table3_ok) as H. cbv zeta in H.
  destruct (add table3 9 "me" "c" "b" 1 2 1) as [res r'] eqn:E. simpl.
  destruct H as (Hsame & info & _ & _ & _ & _ & _ & _ & _ & Hreach). split.
  - apply (Hreach (or_introl eq_refl) 1 1); by vm_compute.
  - by apply Hsame.
Defined.

Lemma remove_correct_witness :
  (remove table3 "a").1 = ["b"; "a"]%string /\
  (forall from to info, findNeighbor (remove table3 "a").2 from to = Some info -> to <> "a"%string).
Proof.
  pose proof (remove_correct table3 "a" table3_ok) as H. split; [by vm_compute|].
  destruct (remove table3 "a") as [u r']. destruct H as (H & _). intros from to info Hi. by destruct (H from to info Hi) as (_ & ? & _).
Defined.

Lemma getFanout_correct_witness :
  getFanout table3 "me" ["b"%string] 2 = Some [("a", [("b", ("b", 1))])]%string /\
  covers_target table3 "me" (Some [("a", [("b", ("b", 1))])])%string "b".
Proof.
  split; [by vm_compute|].
  apply (getFanout_correct table3 "me" ["b"%string] 2 [("a", [("b", ("b", 1))])]%string); [by vm_compute|by left|done|done].
Defined.

Definition stale : RouteInfo := MkRoute 1 1 [MkRelay 1 "x" (Some 5) 0].
Definition fresh : RouteInfo := MkRoute 1 1 [MkRelay 1 "y" None 0].

Lemma cleanup_drops_live_route_witness :
  let r := MkRoutes "me" [("me", [("b", stale); ("c", fresh)])]%string [] 10000 [] in
  findNeighbor r "me" "c" = Some fresh /\ findNeighbor (cleanup r 6 "me" "b") "me" "c" = None.
Proof. intros r. apply (cleanup_drops_live_route r 6 "me" "b" "c" stale fresh); [done|done|by repeat constructor]. Defined.

Definition table4 : Routes := (add table3 9 "me" "c" "b" 1 1 1).2.

Lemma prunable_keeps_targets_witness :
  exists info', findNeighbor (removeNeighbour table4 "c") "me" "b" = Some info' /\ route_list info' <> [].
Proof.
  destruct (findNeighbor table4 "me" "b") as [info|] eqn:E; [|by vm_compute in E].
  apply (prunable_keeps_targets table4 ["c"%string] "c" "b" info); try done.
  - by apply add_ok, table3_ok.
  - vm_compute. by left.
  - vm_compute in E. injection E as <-. simpl. repeat constructor; set_solver.
Defined.

End Witnesses.
