(* ===== verification/Rebalance.v ===== *)
(** * Replication changes and what to rebalance
    (packages/programs/data/shared-log/src/ranges.ts, part 6)

    Ranges are added, removed and replaced.  [agg_add] keeps the newest change
    per range while the debounce runs; [mergeReplicationChanges] cancels a
    removal against newer additions of the same owner, so that only the points
    that really change hands are looked at; [toRebalance] asks the entry index
    for the entries in the changed ranges. *)

From Stdlib Require Import ZArith Lia.
From stdpp Require Import base list strings.
From S2P Require Import Prelude JsMap Cache JsVal Query IndexInterface Integers Ranges RangeFacts RangeAlgebra RangeQueries.

Local Open Scope Z_scope.

(** The tags of [ReplicationChange]; only an addition may be matured. *)
Inductive ChangeType := added (matured : bool) | removed | replaced.

Record ReplicationChange := MkChange {
  ch_type : ChangeType;
  ch_range : Range;
  ch_timestamp : Z;
}.

(** [changesOrChangesArr]: one list of changes, or a list of such lists. *)
Inductive ReplicationChanges :=
| Changes (l : list ReplicationChange)
| ChangeBatches (l : list (list ReplicationChange)).

Definition flatten (c : ReplicationChanges) : list ReplicationChange :=
  match c with Changes l => l | ChangeBatches ll => concat ll end.

(** ** The accumulator of [debounceAggregationChanges] *)

Abbreviation Aggregated := (list (string * ReplicationChange)).

Definition agg_add `{JsEnv} (aggregated : Aggregated) (change : ReplicationChange) : Aggregated :=
  match Map_get aggregated (idString (ch_range change)) with
  | Some prev =>
      if r_timestamp (ch_range prev) <? r_timestamp (ch_range change)
      then Map_set aggregated (idString (ch_range change)) change
      else aggregated
  | None => Map_set aggregated (idString (ch_range change)) change
  end.

Definition agg_delete (aggregated : Aggregated) (key : string) : Aggregated := Map_delete aggregated key.

Definition agg_size (aggregated : Aggregated) : nat := length aggregated.

(** What [fn] is called with, if it is called. *)
Definition agg_flush (result : Aggregated) : option (list ReplicationChange) :=
  if (agg_size result =? 0)%nat then None else Some (Map_values result).

(** ** The history of rebalanced ranges

    [rebalanceHistory] is a [Cache] of range hashes; [History] is what the code
    uses of it.  [CacheHistory] is the cache together with the number of times
    its clock has been read. *)

Class History (S : Type) := {
  history_has : S -> string -> outcome (bool * S);
  history_del : S -> string -> S;
  history_add : S -> string -> outcome S;
}.

Definition CacheHistory {Q : Type} `{Queue Q string} (clock : nat -> Z) : History (nat * Cache string unit Q) := {|
  history_has s k := '(b, c) ← has (clock s.1) s.2 k; Val (b, (Datatypes.S s.1, c));
  history_del s k := (s.1, (del s.2 k).2);
  history_add s k := c ← add (clock s.1) s.2 k None 1; Val (Datatypes.S s.1, c);
|}.

Section Changes.
Context {S : Type} `{Hashing, History S}.

(** ** Cancelling *)

Definition is_added (c : ReplicationChange) : bool :=
  match ch_type c with added _ => true | _ => false end.

(** [newer.type === "added" && !newer.matured]. *)
Definition cancels (c : ReplicationChange) : bool :=
  match ch_type c with added matured => negb matured | _ => false end.

(** A removal against one newer addition: what is pushed to [results] and to [v]. *)
Definition cancel_one (old newer : ReplicationChange)
    : list ReplicationChange * list ReplicationChange :=
  let '(updatedRemoved, updatedNewer) := symmetricDifferenceRanges (ch_range old) (ch_range newer) in
  (map (fun diff => MkChange removed diff (ch_timestamp old)) updatedRemoved,
   map (fun diff => MkChange (added false) diff (ch_timestamp newer)) updatedNewer).

(** The changes of [v] that are still to be processed, each with whether its
    index is in [consumed]. *)
Abbreviation Todo := (list (ReplicationChange * bool)).

(** The loop over [j]: what is pushed to [results], the changes after [i] with
    the consumed ones marked, and what is pushed to [v]. *)
Fixpoint cancel_all (old : ReplicationChange) (rest : Todo)
    : list ReplicationChange * Todo * list ReplicationChange :=
  match rest with
  | [] => ([], [], [])
  | (newer, consumed) :: rest' =>
      let '(results, marked, pushed) := cancel_all old rest' in
      if cancels newer
      then let '(r, p) := cancel_one old newer in (r ++ results, (newer, true) :: marked, p ++ pushed)
      else (results, (newer, consumed) :: marked, pushed)
  end.

Definition removals (v : list ReplicationChange) : nat :=
  length (List.filter (fun c => negb (is_added c)) v).

(** The loop over [i].  What it pushes to [v] are additions, so the removals
    still to come bound the number of times [v] grows. *)
Fixpoint process (k : nat) : Todo -> list ReplicationChange -> S -> outcome (list ReplicationChange * S) :=
  fix go (todo : Todo) (results : list ReplicationChange) (history : S) :=
    match todo with
    | [] => Val (results, history)
    | (c, consumed) :: rest =>
        if is_added c then
          history' ← history_add history (rangeHash (ch_range c));
          go rest (if consumed : bool then results else results ++ [c]) history'
        else
          '(known, history') ← history_has history (rangeHash (ch_range c));
          if known : bool then
            match k with
            | O => NoFuel
            | Datatypes.S k' =>
                let '(r, marked, pushed) := cancel_all c rest in
                process k' (marked ++ map (fun x => (x, false)) pushed) (results ++ r)
                  (history_del history' (rangeHash (ch_range c)))
            end
          else go rest (results ++ [c]) history'
    end.

Definition timestamp_cmp (a b : ReplicationChange) : Z :=
  if r_timestamp (ch_range a) <? r_timestamp (ch_range b) then -1
  else if r_timestamp (ch_range b) <? r_timestamp (ch_range a) then 1 else 0.

(** The changes of one owner. *)
Definition merge_group (v : list ReplicationChange) (history : S) : outcome (list ReplicationChange * S) :=
  match v with
  | [] => Exn "TypeError"
  | [c] => history' ← history_add history (rangeHash (ch_range c)); Val ([c], history')
  | _ => process (removals v) (map (fun c => (c, false)) (js_sort timestamp_cmp v)) [] history
  end.

Definition group_change (grouped : list (string * list ReplicationChange)) (change : ReplicationChange)
    : list (string * list ReplicationChange) :=
  match Map_get grouped (r_hash (ch_range change)) with
  | Some _ => Map_update (fun prev => prev ++ [change]) grouped (r_hash (ch_range change))
  | None => Map_set grouped (r_hash (ch_range change)) [change]
  end.

Definition group_by_hash (changes : list ReplicationChange) : list (string * list ReplicationChange) :=
  fold_left group_change changes [].

Definition mergeReplicationChanges (changesOrChangesArr : ReplicationChanges) (rebalanceHistory : S)
    : outcome (list ReplicationChange * S) :=
  foldM (fun '(all, history) g =>
    '(results, history') ← merge_group g.2 history; Val (all ++ results, history'))
    ([], rebalanceHistory) (group_by_hash (flatten changesOrChangesArr)).

End Changes.

(** ** The entries to look at *)

Section ToRebalance.
Context {S I St : Type} `{JsEnv, Hashing, History S, Index I St EntryReplicated}.

Definition assignedRangesQuery (changes : list ReplicationChange) : outcome Query :=
  ors ← mapM_out (fun c => matchEntriesInRangeQuery (r_type (ch_range c)) (arcs_of (ch_range c))) changes;
  let onlyStrict := negb (existsb (fun c => bool_decide (r_mode (ch_range c) = NonStrict)) changes) in
  new_Or (if negb onlyStrict || (length changes =? 0)%nat
          then ors ++ [BoolQuery ["assignedToRangeBoundary"%string] true] else ors).

(** The [while] loop that drains the iterator. *)
Fixpoint drain (fuel : nat) (ops : IteratorOps (IndexedResult EntryReplicated) St) (st : St)
    : outcome (list EntryReplicated) :=
  match fuel with
  | O => NoFuel
  | Datatypes.S fuel' =>
      if not_done (it_done ops st) then
        '(entries, st') ← it_all ops st;
        rest ← drain fuel' ops st';
        Val (map ir_value entries ++ rest)
      else Val []
  end.

(** What the async iterable yields, and the history it leaves. *)
Definition toRebalance (fuel : nat) (changeOrChanges : ReplicationChanges) (index : I) (rebalanceHistory : S)
    : outcome (list EntryReplicated * S) :=
  '(change, history) ← mergeReplicationChanges changeOrChanges rebalanceHistory;
  q ← assignedRangesQuery change;
  entries ← drain fuel (idx_ops index) (idx_iterate index (MkIterateOptions (QLOne q) None));
  Val (entries, history).

End ToRebalance.
