(* ===== verification/RebalanceFacts.v ===== *)
(** * Merging replication changes: no addition is lost

    [mergeReplicationChanges] ends on every list of changes, invents nothing,
    and keeps every added point that no removal of the same owner touches;
    removals of ranges it remembers are kept only as far as they differ from
    later additions, and vanish when there is none. *)

From Stdlib Require Import ZArith Lia.
From stdpp Require Import base list strings.
From S2P Require Import Prelude JsMap Cache JsVal Query IndexInterface SimpleIndex SimpleIndexFacts Integers Ranges RangeFacts RangeAlgebra RangeQueries Rebalance.

Local Open Scope Z_scope.

(** What merging relies on: no operation of the history throws. *)
Class HistoryLaws (S : Type) `{History S} := {
  history_ok : S -> Prop;
  law_has s k : history_ok s -> exists b s', history_has s k = Val (b, s') /\ history_ok s';
  law_add s k : history_ok s -> exists s', history_add s k = Val s' /\ history_ok s';
  law_history_del s k : history_ok s -> history_ok (history_del s k);
}.

(** ** The accumulator *)

Section Accumulator.
Context `{JsEnv}.

Lemma agg_add_get (m : list (string * ReplicationChange)) c k :
  Map_get (agg_add m c) k =
    if decide (idString (ch_range c) = k)
    then match Map_get m k with
         | Some prev => Some (if r_timestamp (ch_range prev) <? r_timestamp (ch_range c) then c else prev)
         | None => Some c
         end
    else Map_get m k.
Proof.
  unfold agg_add. destruct (decide (idString (ch_range c) = k)) as [<-|Hne].
  - destruct (Map_get m (idString (ch_range c))) eqn:E; [case_if_in_goal|];
      rewrite ?Map_get_set, ?decide_True, ?E by done; done.
  - destruct (Map_get m (idString (ch_range c))); [case_if_in_goal|];
      rewrite ?Map_get_set, ?decide_False by done; done.
Qed.

(** The newest of the changes of a range, the first of equally new ones. *)
Definition newest (c c' : ReplicationChange) : Prop :=
  r_timestamp (ch_range c') <= r_timestamp (ch_range c).

Lemma agg_adds_get l m k c :
  (forall c0, Map_get m k = Some c0 -> idString (ch_range c0) = k) ->
  Map_get (fold_left agg_add l m) k = Some c ->
  (c ∈ l \/ Map_get m k = Some c) /\ idString (ch_range c) = k /\
  (forall c', c' ∈ l -> idString (ch_range c') = k -> newest c c') /\
  (forall c', Map_get m k = Some c' -> newest c c').
Proof.
  revert m. induction l as [|x l IH]; intros m Hm Hc; cbn [fold_left] in Hc.
  - split_and!; [by right|by apply Hm|by intros ? ?%not_elem_of_nil|].
    intros c' Hc'. rewrite Hc in Hc'. simplify_eq. unfold newest. lia.
  - apply IH in Hc as (Hin & Hk & Hl & Hprev).
    + rewrite agg_add_get in Hin, Hprev. split; [|split; [done|split]].
      * destruct Hin as [Hin|Hin]; [left; by right|]. case_decide; [|by right].
        destruct (Map_get m k) as [prev|] eqn:E; [|simplify_eq; left; by left].
        case_ifs_all; simplify_eq; [left; by left|by right].
      * intros c' [->|Hc']%elem_of_cons Hk'; [|by apply Hl].
        rewrite decide_True in Hprev by done. destruct (Map_get m k) as [prev|]; [|by apply Hprev].
        specialize (Hprev _ eq_refl). unfold newest in *. case_ifs_all; lia.
      * intros c' Hc'. rewrite Hc' in Hprev. case_decide; [|by apply Hprev].
        specialize (Hprev _ eq_refl). unfold newest in *. case_ifs_all; lia.
    + intros c0. rewrite agg_add_get. intros Hc0. case_decide as Hx; [|by apply Hm].
      destruct (Map_get m k) as [prev|] eqn:E; [|by simplify_eq]. case_ifs_all; simplify_eq; [done|by apply Hm].
Qed.

(** The debounced changes: after any sequence of additions the accumulator
    holds, per range, one of the changes added for it, and none of them is
    newer; it holds one for every range that was added. *)
Theorem aggregate_newest (l : list ReplicationChange) (k : string) :
  match Map_get (fold_left agg_add l []) k with
  | Some c => c ∈ l /\ idString (ch_range c) = k /\
              forall c', c' ∈ l -> idString (ch_range c') = k -> newest c c'
  | None => forall c', c' ∈ l -> idString (ch_range c') <> k
  end.
Proof.
  destruct (Map_get (fold_left agg_add l []) k) as [c|] eqn:E.
  - apply agg_adds_get in E as ([Hin|?] & Hk & Hl & _); done.
  - enough (Hx : forall m, Map_get (fold_left agg_add l m) k = None ->
      Map_get m k = None /\ forall c', c' ∈ l -> idString (ch_range c') <> k) by by apply (Hx []).
    clear E. induction l as [|x l IH]; intros m; cbn [fold_left]; [by split; [|intros ? ?%not_elem_of_nil]|].
    intros [E Hl]%IH. rewrite agg_add_get in E. case_decide; [by destruct (Map_get m k)|].
    split; [done|]. intros c' [->|Hc']%elem_of_cons; [done|by apply Hl].
Qed.

End Accumulator.

Section Merge.
Context {S : Type} `{Hashing, HistoryLaws S}.

Abbreviation range_cut_ok c := (cut_ok (ch_range c)).

(** [c] is (a cut of) the change [c0]: same kind, same owner, no other points,
    and arcs inside the ring. *)
Definition cut_of (c c0 : ReplicationChange) : Prop :=
  is_added c = is_added c0 /\ r_hash (ch_range c) = r_hash (ch_range c0) /\
  (forall p, contains (ch_range c) p = true -> contains (ch_range c0) p = true) /\
  (cut_ok (ch_range c0) -> cut_ok (ch_range c)).

Lemma cut_of_refl c : cut_of c c.
Proof. by split_and!. Qed.

Lemma cut_of_trans a b c : cut_of a b -> cut_of b c -> cut_of a c.
Proof. intros (A1 & A2 & A3 & A4) (B1 & B2 & B3 & B4). split_and!; [congruence..|auto|auto]. Qed.

(** One side of the difference, as changes of the kind and owner of [c0]. *)
Lemma side_cuts ty ts c0 (d : Range) :
  (match ty with added _ => true | _ => false end) = is_added c0 ->
  cut_ok (ch_range c0) -> cut_ok d ->
  let cuts := map (fun diff => MkChange ty diff ts)
    (buildRangesFromBigIntSegments (mergeBigIntSegments (List.filter (fun s => s.1 <? s.2)
       (difference_segments (toSegmentsBigInt (ch_range c0)) (toSegmentsBigInt d)))) (ch_range c0)) in
  Forall (fun c => cut_of c c0 /\ range_cut_ok c) cuts /\
  forall p, contains (ch_range c0) p = true -> contains d p = false ->
    Exists (fun c => cut_of c c0 /\ contains (ch_range c) p = true) cuts.
Proof.
  intros Hty H0' Hd cuts. pose proof (difference_side (ch_range c0) d H0' Hd) as Hside.
  pose proof (difference_cut (ch_range c0) d H0') as Hcut. cbv zeta in Hside.
  pose proof (build_loop_meta (ch_range c0) (js_sort segment_cmp (mergeBigIntSegments (List.filter (fun s => s.1 <? s.2)
    (difference_segments (toSegmentsBigInt (ch_range c0)) (toSegmentsBigInt d)))))) as Hmeta.
  unfold buildRangesFromBigIntSegments in *. subst cuts.
  set (l := build_loop _ _) in *. rewrite Forall_forall in Hcut, Hmeta. setoid_rewrite Exists_exists in Hside.
  assert (Hof : forall r, r ∈ l -> cut_of (MkChange ty r ts) c0).
  { intros r Hr. split; [exact Hty|]. split; [apply (Hmeta r Hr)|].
    split; [|intros _; by apply Hcut]. intros p Hp. apply Hside. by exists r. }
  split.
  - apply Forall_forall. intros c (r & -> & Hr)%list_elem_of_fmap. split; [by apply Hof|by apply Hcut].
  - intros p Hp Hnp. destruct (proj2 (Hside p) (conj Hp Hnp)) as (r & Hr & Hrp).
    apply Exists_exists. exists (MkChange ty r ts). split; [|by split; [apply Hof|]].
    apply list_elem_of_fmap. by exists r.
Qed.

Lemma cancel_one_ok old newer r p :
  is_added old = false -> is_added newer = true -> range_cut_ok old -> range_cut_ok newer ->
  cancel_one old newer = (r, p) ->
  Forall (fun c => cut_of c old) r /\ Forall (fun c => cut_of c newer /\ range_cut_ok c) p /\
  forall x, contains (ch_range newer) x = true -> contains (ch_range old) x = false ->
    Exists (fun c => cut_of c newer /\ contains (ch_range c) x = true) p.
Proof.
  intros Ho Hn Hco Hcn E. unfold cancel_one, symmetricDifferenceRanges in E. injection E as <- <-.
  destruct (side_cuts removed (ch_timestamp old) old (ch_range newer)) as [Hr _]; [done..|].
  destruct (side_cuts (added false) (ch_timestamp newer) newer (ch_range old)) as [Hp Hx]; [done..|].
  split; [|by split]. eapply Forall_impl; [exact Hr|]. by intros c [? _].
Qed.

Abbreviation Todo := (list (ReplicationChange * bool)).

Lemma cancel_all_ok old (rest : Todo) r marked pushed :
  is_added old = false -> range_cut_ok old -> Forall (fun i => range_cut_ok i.1) rest ->
  cancel_all old rest = (r, marked, pushed) ->
  Forall (fun c => cut_of c old) r /\ map fst marked = map fst rest /\
  Forall (fun c => is_added c = true /\ range_cut_ok c /\ Exists (fun i => cut_of c i.1) rest) pushed /\
  forall x i, i ∈ rest -> is_added i.1 = true -> i.2 = false -> contains (ch_range i.1) x = true ->
    contains (ch_range old) x = false ->
    i ∈ marked \/ Exists (fun c => cut_of c i.1 /\ contains (ch_range c) x = true) pushed.
Proof.
  intros Ho Hco. revert r marked pushed.
  induction rest as [|[newer consumed] rest IH]; intros r marked pushed Hrest E; cbn [cancel_all] in E.
  { simplify_eq. split_and!; try done. by intros x i ?%not_elem_of_nil. }
  destruct (cancel_all old rest) as [[r0 marked0] pushed0] eqn:E0. apply Forall_cons in Hrest as [Hn Hrest].
  destruct (IH _ _ _ Hrest eq_refl) as (Hr & Hm & Hp & Hx). clear IH. simpl in Hn.
  assert (Hp' : Forall (fun c => is_added c = true /\ range_cut_ok c /\
    Exists (fun i => cut_of c i.1) ((newer, consumed) :: rest)) pushed0).
  { eapply Forall_impl; [exact Hp|]. intros c (? & ? & ?). split_and!; try done. by right. }
  destruct (cancels newer) eqn:Ec.
  - assert (Ha : is_added newer = true) by (unfold cancels, is_added in *; by destruct (ch_type newer)).
    destruct (cancel_one old newer) as [r1 p1] eqn:E1. simplify_eq.
    destruct (cancel_one_ok _ _ _ _ Ho Ha Hco Hn E1) as (Hr1 & Hp1 & Hx1).
    split; [by apply Forall_app|]. split; [cbn [map fst]; by f_equal|]. split.
    + apply Forall_app. split; [|done]. eapply Forall_impl; [exact Hp1|]. intros c [Hc ?].
      split_and!; [by rewrite (proj1 Hc)|done|by left].
    + intros x i [->|Hi]%elem_of_cons Hia Hic Hix Hox.
      * right. apply Exists_app. left. by apply Hx1.
      * destruct (Hx x i Hi Hia Hic Hix Hox); [left; by right|right; apply Exists_app; by right].
  - simplify_eq. split; [done|]. split; [cbn [map fst]; by f_equal|]. split; [done|].
    intros x i [->|Hi]%elem_of_cons Hia Hic Hix Hox; [left; by left|].
    destruct (Hx x i Hi Hia Hic Hix Hox); [left; by right|by right].
Qed.

(** ** The whole loop *)

Lemma process_nil k results (h : S) : process k [] results h = Val (results, h).
Proof. by destruct k. Qed.

Lemma process_cons k c consumed rest results (h : S) :
  process k ((c, consumed) :: rest) results h =
    if is_added c then
      h' ← history_add h (rangeHash (ch_range c));
      process k rest (if consumed then results else results ++ [c]) h'
    else
      '(known, h') ← history_has h (rangeHash (ch_range c));
      if known : bool then
        match k with
        | O => NoFuel
        | Datatypes.S k' =>
            let '(r, marked, pushed) := cancel_all c rest in
            process k' (marked ++ map (fun x => (x, false)) pushed) (results ++ r)
              (history_del h' (rangeHash (ch_range c)))
        end
      else process k rest (results ++ [c]) h'.
Proof. by destruct k. Qed.

(** Every added point that no removal of the list touches is in the output. *)
Definition kept (todo : Todo) (out : list ReplicationChange) : Prop :=
  forall x i, i ∈ todo -> is_added i.1 = true -> i.2 = false -> contains (ch_range i.1) x = true ->
    (forall r, r ∈ todo -> is_added r.1 = false -> contains (ch_range r.1) x = false) ->
    Exists (fun c => cut_of c i.1 /\ contains (ch_range c) x = true) out.

Definition traced (todo : Todo) (out : list ReplicationChange) : Prop :=
  Forall (fun c => Exists (fun i => cut_of c i.1) todo) out.

Lemma traced_tail i todo out : traced todo out -> traced (i :: todo) out.
Proof. intros Ht. eapply Forall_impl; [exact Ht|]. intros c Hc. by right. Qed.

Lemma kept_push i todo out :
  kept todo out -> kept (i :: todo) (i.1 :: out).
Proof.
  intros Hk x j [->|Hj]%elem_of_cons Hja Hjc Hjx Hr.
  - left. split; [apply cut_of_refl|done].
  - right. apply Hk; try done. intros r Hin. apply Hr. by right.
Qed.

Lemma removals_fst (l k : Todo) : map fst l = map fst k -> removals (map fst l) = removals (map fst k).
Proof. by intros ->. Qed.

Lemma removals_added l : Forall (fun c => is_added c = true) l -> removals l = 0%nat.
Proof. unfold removals. induction 1 as [|c l Hc _ IH]; [done|]. simpl. by rewrite Hc. Qed.

Lemma removals_app l k : removals (l ++ k) = (removals l + removals k)%nat.
Proof. unfold removals. by rewrite List.filter_app, length_app. Qed.

(** The list after a removal has been cancelled against it. *)
Lemma cancelled_ok old consumed (rest : Todo) r marked pushed :
  is_added old = false -> range_cut_ok old -> Forall (fun i => range_cut_ok i.1) rest ->
  cancel_all old rest = (r, marked, pushed) ->
  let todo := marked ++ map (fun x => (x, false)) pushed in
  Forall (fun i => range_cut_ok i.1) todo /\ removals (map fst todo) = removals (map fst rest) /\
  (forall out, traced todo out -> traced ((old, consumed) :: rest) (r ++ out)) /\
  (forall out, kept todo out -> kept ((old, consumed) :: rest) (r ++ out)).
Proof.
  intros Ho Hco Hrest E todo. destruct (cancel_all_ok _ _ _ _ _ Ho Hco Hrest E) as (Hr & Hm & Hp & Hx).
  assert (Hfst : map fst todo = map fst rest ++ pushed).
  { subst todo. rewrite map_app, Hm, map_map. by rewrite map_id. }
  assert (Hmember : forall i, i ∈ todo -> Exists (fun j => cut_of i.1 j.1) rest).
  { intros i Hi. apply (list_elem_of_fmap_2 fst) in Hi. change (i.1 ∈ map fst todo) in Hi.
    rewrite Hfst in Hi. apply elem_of_app in Hi as [Hi|Hi].
    - apply list_elem_of_fmap in Hi as (j & Hj & Hin). apply Exists_exists. exists j.
      split; [done|]. rewrite <- Hj. apply cut_of_refl.
    - rewrite Forall_forall in Hp. by apply Hp. }
  split_and!.
  - apply (Forall_fmap fst (fun c => range_cut_ok c)). change (fst <$> todo) with (map fst todo). rewrite Hfst.
    apply Forall_app. split; [by apply (Forall_fmap fst (fun c => range_cut_ok c))|].
    eapply Forall_impl; [exact Hp|]. by intros c (_ & ? & _).
  - rewrite Hfst, removals_app, (removals_added pushed); [lia|].
    eapply Forall_impl; [exact Hp|]. by intros c (? & _).
  - intros out Ht. apply Forall_app. split.
    + eapply Forall_impl; [exact Hr|]. intros c Hc. by left.
    + eapply Forall_impl; [exact Ht|]. intros c (i & Hi & Hc)%Exists_exists. right.
      apply Hmember in Hi as (j & Hj & Hij)%Exists_exists. apply Exists_exists. exists j.
      split; [done|]. by eapply cut_of_trans.
  - intros out Hk x i [->|Hi]%elem_of_cons Hia Hic Hix Hno; [simpl in Hia; congruence|].
    apply Exists_app. right.
    assert (Hno' : forall j, j ∈ todo -> is_added j.1 = false -> contains (ch_range j.1) x = false).
    { intros j Hj Hja. apply Hmember in Hj as (j' & Hj' & Hka & _ & Hc & _)%Exists_exists.
      apply not_true_iff_false. intros Hjx%Hc. rewrite (Hno j') in Hjx; [done|by right|congruence]. }
    assert (Hox : contains (ch_range old) x = false) by (apply (Hno (old, consumed)); [by left|done]).
    destruct (Hx x i Hi Hia Hic Hix Hox) as [Him|(c & Hc & Hci & Hcx)%Exists_exists].
    + apply Hk; try done. subst todo. apply elem_of_app. by left.
    + assert (Hin : (c, false) ∈ todo).
      { subst todo. apply elem_of_app. right. apply list_elem_of_fmap. by exists c. }
      assert (Hca : is_added c = true) by (rewrite Forall_forall in Hp; by apply Hp).
      specialize (Hk x (c, false) Hin Hca eq_refl Hcx Hno').
      apply Exists_exists in Hk as (c' & Hc' & Hcc & ?). apply Exists_exists. exists c'.
      split; [done|]. split; [by eapply cut_of_trans|done].
Qed.

Lemma process_ok k (todo : Todo) results (h : S) :
  history_ok h -> Forall (fun i => range_cut_ok i.1) todo -> (removals (map fst todo) <= k)%nat ->
  exists out h', process k todo results h = Val (results ++ out, h') /\ history_ok h' /\
    traced todo out /\ kept todo out.
Proof.
  revert todo results h. induction k as [k IHk] using lt_wf_ind. intros todo.
  induction todo as [|[c consumed] rest IH]; intros results h Hh Hok Hk.
  { rewrite process_nil. exists [], h. rewrite app_nil_r. split_and!; try done.
    { constructor. } intros x i ?%not_elem_of_nil. done. }
  rewrite process_cons. apply Forall_cons in Hok as [Hc Hrest]. unfold removals in Hk. simpl in Hk, Hc.
  destruct (is_added c) eqn:Ea; simpl in Hk.
  - destruct (law_add h (rangeHash (ch_range c)) Hh) as (h1 & -> & Hh1). cbn [mbind outcome_bind].
    destruct (IH (if consumed then results else results ++ [c]) h1 Hh1 Hrest Hk) as (out & h2 & -> & Hh2 & Ht & Hkp).
    destruct consumed.
    + exists out, h2. split_and!; [done|done|by apply traced_tail|].
      intros x i [->|Hi]%elem_of_cons Hia Hic Hix Hno; [done|]. apply Hkp; try done.
      intros r Hr. apply Hno. by right.
    + exists (c :: out), h2. rewrite <- app_assoc. split_and!; [done|done| |by apply (kept_push (c, false))].
      constructor; [left; apply cut_of_refl|by apply traced_tail].
  - destruct (law_has h (rangeHash (ch_range c)) Hh) as (known & h1 & -> & Hh1). cbn [mbind outcome_bind].
    destruct known.
    + destruct k as [|k]; [lia|]. destruct (cancel_all c rest) as [[r marked] pushed] eqn:E.
      destruct (cancelled_ok c consumed rest r marked pushed Ea Hc Hrest E) as (Hok' & Hrem & Htr & Hkp).
      destruct (IHk k (Nat.lt_succ_diag_r k) (marked ++ map (fun x => (x, false)) pushed) (results ++ r)
        (history_del h1 (rangeHash (ch_range c)))) as (out & h2 & -> & Hh2 & Ht & Hkt).
      * by apply law_history_del.
      * done.
      * rewrite Hrem. unfold removals. lia.
      * exists (r ++ out), h2. rewrite <- app_assoc. split_and!; [done|done|by apply Htr|by apply Hkp].
    + destruct (IH (results ++ [c]) h1 Hh1 Hrest) as (out & h2 & -> & Hh2 & Ht & Hkp); [unfold removals; lia|].
      exists (c :: out), h2. rewrite <- app_assoc. split_and!; [done|done| |by apply (kept_push (c, consumed))].
      constructor; [left; apply cut_of_refl|by apply traced_tail].
Qed.

(** ** Groups *)

Definition traces (v out : list ReplicationChange) : Prop :=
  Forall (fun c => Exists (cut_of c) v) out.

Definition keeps (v out : list ReplicationChange) : Prop :=
  forall x a, a ∈ v -> is_added a = true -> contains (ch_range a) x = true ->
    (forall r, r ∈ v -> is_added r = false -> r_hash (ch_range r) = r_hash (ch_range a) ->
               contains (ch_range r) x = false) ->
    Exists (fun c => cut_of c a /\ contains (ch_range c) x = true) out.

Lemma map_fst_pair {A} (l : list A) : map fst (map (fun c => (c, false)) l) = l.
Proof. by rewrite map_map, map_id. Qed.

Lemma merge_group_ok v (h : S) :
  v <> [] -> history_ok h -> Forall (fun c => range_cut_ok c) v ->
  (forall a b, a ∈ v -> b ∈ v -> r_hash (ch_range a) = r_hash (ch_range b)) ->
  exists out h', merge_group v h = Val (out, h') /\ history_ok h' /\ traces v out /\ keeps v out.
Proof.
  intros Hv Hh Hok Hsame. unfold merge_group. destruct v as [|c [|c' v]]; [done| |].
  - destruct (law_add h (rangeHash (ch_range c)) Hh) as (h1 & -> & Hh1). cbn [mbind outcome_bind].
    exists [c], h1. split_and!; [done|done|constructor; [by left; apply cut_of_refl|constructor]|].
    intros x a ->%list_elem_of_singleton _ Hx _. constructor. by split; [apply cut_of_refl|].
  - set (w := c :: c' :: v) in *. pose proof (js_sort_perm timestamp_cmp w) as Hperm.
    set (todo := map (fun c => (c, false)) (js_sort timestamp_cmp w)).
    assert (Hin : forall i, i ∈ todo <-> i.1 ∈ w /\ i.2 = false).
    { intros [a b]. subst todo. rewrite list_elem_of_fmap. cbn [fst snd]. split.
      - by intros (y & [= -> ->] & Hy%js_sort_elem).
      - intros [Ha ->]. exists a. split; [done|]. by apply js_sort_elem. }
    destruct (process_ok (removals w) todo [] h) as (out & h1 & E & Hh1 & Ht & Hk); [done| | |].
    + apply Forall_forall. intros i [Hi _]%Hin. rewrite Forall_forall in Hok. by apply Hok.
    + unfold todo. rewrite map_fst_pair. unfold removals.
      apply Nat.eq_le_incl, Permutation_length. by apply List_filter_perm.
    + exists out, h1. split_and!; [exact E|done| |].
      * eapply Forall_impl; [exact Ht|]. intros d (i & [Hi _]%Hin & Hd)%Exists_exists. apply Exists_exists. by exists i.1.
      * intros x a Ha Haa Hax Hno. apply (Hk x (a, false)); try done; [by apply Hin|].
        intros r [Hr _]%Hin Hra. apply Hno; [done|done|by apply Hsame].
Qed.

Definition hash_is (k : string) (c : ReplicationChange) : bool := bool_decide (r_hash (ch_range c) = k).

Lemma group_by_hash_get changes :
  Map_wf (group_by_hash changes) /\
  forall k, Map_get (group_by_hash changes) k =
    match List.filter (hash_is k) changes with [] => None | v => Some v end.
Proof.
  unfold group_by_hash. induction changes as [|c changes IH] using rev_ind; [by split; [constructor|]|].
  rewrite fold_left_app. cbn [fold_left]. destruct IH as [Hwf Hget].
  set (m := fold_left group_change changes []) in *. clearbody m. unfold group_change. set (h := r_hash (ch_range c)).
  assert (Hfilter : forall k, List.filter (hash_is k) (changes ++ [c]) =
    if decide (h = k) then List.filter (hash_is k) changes ++ [c] else List.filter (hash_is k) changes).
  { intros k. rewrite List.filter_app. cbn [List.filter]. unfold hash_is at 2. fold h.
    destruct (decide (h = k)); [by rewrite bool_decide_true|rewrite bool_decide_false, app_nil_r by done; done]. }
  pose proof (Hget h) as Hh. split.
  - destruct (Map_get m h); [by apply Map_update_wf|by apply Map_set_wf].
  - intros k. rewrite Hfilter. destruct (Map_get m h) eqn:E.
    + rewrite Map_get_update, Hget. destruct (decide (h = k)) as [<-|]; [|done].
      by destruct (List.filter (hash_is h) changes).
    + rewrite Map_get_set, Hget. destruct (decide (h = k)) as [<-|]; [|done].
      by destruct (List.filter (hash_is h) changes).
Qed.

Lemma group_members changes k v :
  (k, v) ∈ group_by_hash changes -> v <> [] /\ v = List.filter (hash_is k) changes.
Proof.
  destruct (group_by_hash_get changes) as [Hwf Hget]. intros Hin%Map_elem_get; [|done].
  rewrite Hget in Hin. by destruct (List.filter (hash_is k) changes); simplify_eq.
Qed.

Lemma group_of changes c :
  c ∈ changes -> exists v, (r_hash (ch_range c), v) ∈ group_by_hash changes /\ c ∈ v.
Proof.
  intros Hc. destruct (group_by_hash_get changes) as [_ Hget].
  assert (Hin : c ∈ List.filter (hash_is (r_hash (ch_range c))) changes).
  { apply list_elem_of_In, filter_In. split; [by apply list_elem_of_In|by apply bool_decide_true]. }
  specialize (Hget (r_hash (ch_range c))).
  destruct (List.filter (hash_is (r_hash (ch_range c))) changes) as [|a v]; [by apply not_elem_of_nil in Hin|].
  exists (a :: v). split; [by apply Map_get_Some_elem|done].
Qed.

Lemma group_elem changes k v c :
  (k, v) ∈ group_by_hash changes -> c ∈ v <-> c ∈ changes /\ r_hash (ch_range c) = k.
Proof.
  intros [_ ->]%group_members. rewrite !list_elem_of_In, filter_In. unfold hash_is.
  by rewrite bool_decide_eq_true.
Qed.

Lemma groups_ok gs all (h : S) :
  history_ok h ->
  (forall g, g ∈ gs -> forall h, history_ok h ->
     exists out h', merge_group g.2 h = Val (out, h') /\ history_ok h' /\ traces g.2 out /\ keeps g.2 out) ->
  exists out h', foldM (fun '(all, history) (g : string * list ReplicationChange) =>
      '(results, history') ← merge_group g.2 history; Val (all ++ results, history')) (all, h) gs =
      Val (all ++ out, h') /\ history_ok h' /\
    (forall c, c ∈ out -> exists g, g ∈ gs /\ Exists (cut_of c) g.2) /\
    (forall g, g ∈ gs -> keeps g.2 out).
Proof.
  revert all h. induction gs as [|g gs IH]; intros all h Hh Hgs; cbn [foldM].
  { exists [], h. rewrite app_nil_r. split_and!; try done; by intros ? ?%not_elem_of_nil. }
  destruct (Hgs g) with (h := h) as (out & h1 & -> & Hh1 & Ht & Hk); [by left|done|]. cbn [mbind outcome_bind].
  destruct (IH (all ++ out) h1 Hh1) as (out' & h2 & -> & Hh2 & Ht' & Hk'); [intros g' Hg'; apply Hgs; by right|].
  exists (out ++ out'), h2. rewrite <- app_assoc. split_and!; [done|done| |].
  - intros c [Hc|Hc]%elem_of_app.
    + exists g. split; [by left|]. unfold traces in Ht. rewrite Forall_forall in Ht. by apply Ht.
    + destruct (Ht' c Hc) as (g' & ? & ?). exists g'. by split; [right|].
  - intros g' [->|Hg']%elem_of_cons x a Ha Haa Hx Hno; apply Exists_app; [left; by apply Hk|right; by apply (Hk' g')].
Qed.

Lemma merge_changes_ok changes (h : S) :
  history_ok h -> Forall (fun c => range_cut_ok c) (flatten changes) ->
  exists out h', mergeReplicationChanges changes h = Val (out, h') /\ history_ok h' /\
    traces (flatten changes) out /\ keeps (flatten changes) out.
Proof.
  intros Hh Hok. unfold mergeReplicationChanges. set (l := flatten changes) in *.
  destruct (groups_ok (group_by_hash l) [] h Hh) as (out & h' & E & Hh' & Ht & Hk).
  { intros [k v] Hg h0 Hh0. simpl. pose proof (fun c => group_elem l k v c Hg) as Hel.
    apply merge_group_ok; [by apply (group_members l k v)|done| |].
    - apply Forall_forall. intros c [Hc _]%Hel. rewrite Forall_forall in Hok. by apply Hok.
    - intros a b [_ ->]%Hel [_ ->]%Hel. done. }
  exists out, h'. split_and!; [exact E|done| |].
  - apply Forall_forall. intros c Hc. destruct (Ht c Hc) as ([k v] & Hg & (c0 & Hc0 & Hcc)%Exists_exists).
    apply Exists_exists. exists c0. split; [|done]. by apply (group_elem l k v) in Hc0 as [? _].
  - intros x a Ha Haa Hx Hno. destruct (group_of l a Ha) as (v & Hg & Hav).
    apply (Hk _ Hg x a Hav Haa Hx). intros r Hr. apply (group_elem l _ v r Hg) in Hr as [Hr ?].
    intros. by apply Hno.
Qed.

(** [mergeReplicationChanges] always returns: the changes it pushes to the
    list it is walking never keep it going.  What it returns are changes, or
    cuts of changes, of its input, of the same kind and owner; and no addition
    is lost: every point of an added range that no removal of the same owner
    touches is in an addition of the result. *)
Theorem merge_changes_correct (changes : ReplicationChanges) (h : S) :
  history_ok h -> Forall (fun c => range_cut_ok c) (flatten changes) ->
  exists out h', mergeReplicationChanges changes h = Val (out, h') /\ history_ok h' /\
    (forall c, c ∈ out -> exists c0, c0 ∈ flatten changes /\ cut_of c c0) /\
    (forall a x, a ∈ flatten changes -> is_added a = true -> contains (ch_range a) x = true ->
       (forall r, r ∈ flatten changes -> is_added r = false -> r_hash (ch_range r) = r_hash (ch_range a) ->
                  contains (ch_range r) x = false) ->
       exists c, c ∈ out /\ is_added c = true /\ r_hash (ch_range c) = r_hash (ch_range a) /\
                 contains (ch_range c) x = true).
Proof.
  intros Hh Hok. destruct (merge_changes_ok changes h Hh Hok) as (out & h' & E & Hh' & Ht & Hk).
  exists out, h'. split_and!; [done|done| |].
  - unfold traces in Ht. rewrite Forall_forall in Ht. intros c Hc. by apply Exists_exists, Ht.
  - intros a x Ha Haa Hx Hno. destruct (proj1 (Exists_exists _ _) (Hk x a Ha Haa Hx Hno)) as (c & Hc & (E1 & E2 & _) & ?).
    exists c. split_and!; [done|congruence|done|done].
Qed.

(** Two removals of one owner whose ranges are in the history leave no
    trace: with no later addition to compare with, the loop pushes nothing for
    them, and the entries of both ranges are not looked at.  (A single removal
    is kept.) *)
Theorem known_removals_lost (r1 r2 : ReplicationChange) (h h1 h2 : S) :
  is_added r1 = false -> is_added r2 = false -> r_hash (ch_range r1) = r_hash (ch_range r2) ->
  r_timestamp (ch_range r1) <= r_timestamp (ch_range r2) ->
  history_has h (rangeHash (ch_range r1)) = Val (true, h1) ->
  history_has (history_del h1 (rangeHash (ch_range r1))) (rangeHash (ch_range r2)) = Val (true, h2) ->
  mergeReplicationChanges (Changes [r1; r2]) h = Val ([], history_del h2 (rangeHash (ch_range r2))).
Proof.
  intros Ha1 Ha2 Hhash Hts E1 E2. unfold mergeReplicationChanges, group_by_hash, flatten. cbn [fold_left].
  assert (Eg : group_change (group_change [] r1) r2 = [(r_hash (ch_range r1), [r1; r2])]).
  { unfold group_change. cbn [Map_get Map_set]. rewrite <- Hhash. cbn [Map_get]. rewrite decide_True by done.
    unfold Map_update. cbn [map fst snd]. by rewrite decide_True by done. }
  rewrite Eg. cbn [foldM snd merge_group]. unfold removals. cbn [List.filter length]. rewrite Ha1, Ha2.
  cbn [negb List.filter length].
  assert (Es : js_sort timestamp_cmp [r1; r2] = [r1; r2]).
  { cbn [js_sort js_insert]. unfold timestamp_cmp. by case_ifs_all; try lia. }
  rewrite Es. cbn [map]. rewrite process_cons, Ha1, E1. cbn [mbind outcome_bind cancel_all cancels].
  assert (Ec : cancels r2 = false) by (unfold cancels, is_added in *; by destruct (ch_type r2)).
  rewrite Ec. cbn [map app]. rewrite process_cons, Ha2, E2. cbn [mbind outcome_bind cancel_all map app].
  by rewrite process_nil.
Qed.

End Merge.

(** ** The cache as a history *)

Section CacheLaws.
Context {Q : Type} `{QueueLaws Q string} (clock : nat -> Z).

#[local] Existing Instance CacheHistory.

Lemma trim_Inv time (c : Cache string unit Q) : Inv c -> exists c', trim time c = Val c' /\ Inv c'.
Proof. intros Hc. destruct (trim_spec (fun _ => True) time c) as (c' & ? & ? & _); eauto. Qed.

#[refine] Instance CacheHistory_laws : HistoryLaws (H := CacheHistory clock) (nat * Cache string unit Q) := {
  history_ok s := Inv s.2;
}.
Proof.
  - intros [n c] k Hc. simpl. unfold has. destruct (trim_Inv (clock n) c Hc) as (c' & -> & Hc').
    cbn [mbind outcome_bind]. by do 2 eexists.
  - intros [n c] k Hc. simpl. unfold add.
    destruct (trim_Inv (clock n) (insert_entry (clock n) c k None 1)) as (c' & -> & Hc'); [by apply insert_entry_Inv|].
    cbn [mbind outcome_bind]. by eexists.
  - intros [n c] k Hc. by apply del_Inv.
Defined.

End CacheLaws.

(** * The entries a rebalance looks at

    [toRebalance] over the in-memory index of entries yields exactly the
    entries with a coordinate in one of the merged changes, and those at a range
    boundary unless every change is strict. *)

(** The documents of the index are entries as borsh describes them. *)
Class EntryDocument `{Document EntryReplicated} : Prop := {
  entry_to_js e : to_js e = entry_js e
}.

Section Entries.
Context {S : Type} `{JsEnv, Hashing, HistoryLaws S, Document EntryReplicated, !DocumentLaws EntryReplicated, !EntryDocument}.

(** A query that computes [g] on entries. *)
Definition computes (by_ : list string) (q : Query) (g : EntryReplicated -> bool) : Prop :=
  forall e fuel, exists ih,
    handleQueryObject by_ None (Datatypes.S (Datatypes.S fuel)) q (entry_js e) [] 0 = Val (Some (g e), ih).

Lemma computes_Or by_ l gs :
  Forall2 (computes by_) l gs -> computes by_ (Or l) (fun e => existsb (fun g => g e) gs).
Proof.
  intros Hl e fuel. exists []. cbn [handleQueryObject]. induction Hl as [|q g l gs Hq _ IH]; [done|].
  destruct (Hq e fuel) as (ih & ->). cbn [mbind outcome_bind existsb]. by destruct (g e).
Qed.

Lemma computes_boundary by_ :
  computes by_ (BoolQuery ["assignedToRangeBoundary"%string] true) er_assignedToRangeBoundary.
Proof.
  intros e fuel. exists [].
  rewrite (handleQueryObject_covered by_ (Datatypes.S fuel) (entry_js e)) by done.
  simpl. by destruct (er_assignedToRangeBoundary e).
Qed.

(** What a list of changes asks of an entry. *)
Definition inspects (changes : list ReplicationChange) (e : EntryReplicated) : bool :=
  existsb (fun c => existsb (contains (ch_range c)) (er_coordinates e)) changes ||
  ((existsb (fun c => bool_decide (r_mode (ch_range c) = NonStrict)) changes || (length changes =? 0)%nat) &&
   er_assignedToRangeBoundary e).

Lemma change_queries_ok by_ changes :
  Forall (fun c => cut_ok (ch_range c)) changes ->
  exists ors, mapM_out (fun c => matchEntriesInRangeQuery (r_type (ch_range c)) (arcs_of (ch_range c))) changes = Val ors /\
    Forall2 (computes by_) ors (map (fun c e => existsb (contains (ch_range c)) (er_coordinates e)) changes).
Proof.
  induction 1 as [|c changes Hc _ (ors & E & IH)]; [by exists []|].
  destruct (range_query_ok by_ (ch_range c) Hc) as (q & Eq & Hq).
  exists (q :: ors). cbn [mapM_out]. rewrite Eq. cbn [mbind outcome_bind]. rewrite E. split; [done|].
  by constructor.
Qed.

Lemma existsb_map {A B} (f : B -> bool) (g : A -> B) l : existsb f (map g l) = existsb (fun x => f (g x)) l.
Proof. induction l as [|x l IH]; [done|]. simpl. by rewrite IH. Qed.

Lemma assigned_query_ok by_ changes :
  Forall (fun c => cut_ok (ch_range c)) changes ->
  exists q, assignedRangesQuery changes = Val (Or q) /\ computes by_ (Or q) (inspects changes).
Proof.
  intros Hok. destruct (change_queries_ok by_ changes Hok) as (ors & E & Hors).
  unfold assignedRangesQuery. rewrite E. cbn [mbind outcome_bind]. rewrite negb_involutive.
  pose proof (Forall2_length _ _ _ Hors) as Hlen. rewrite length_map in Hlen.
  set (b := existsb _ changes || _). unfold new_Or.
  assert (Hne : forall l, l = (if b then ors ++ [BoolQuery ["assignedToRangeBoundary"%string] true] else ors) ->
    (length l =? 0)%nat = false).
  { intros l ->. destruct b eqn:Eb; [by rewrite length_app, Nat.add_1_r|]. subst b.
    apply orb_false_iff in Eb as [_ Eb]. by rewrite Hlen. }
  rewrite (Hne _ eq_refl). cbn [throw_if mbind outcome_bind]. eexists. split; [done|].
  intros e fuel. set (gs := map (fun c e => existsb (contains (ch_range c)) (er_coordinates e)) changes) in *.
  assert (Hall : Forall2 (computes by_) (if b then ors ++ [BoolQuery ["assignedToRangeBoundary"%string] true] else ors)
    (if b then gs ++ [er_assignedToRangeBoundary] else gs)).
  { destruct b; [|done]. apply Forall2_app; [done|]. constructor; [apply computes_boundary|done]. }
  destruct (computes_Or by_ _ _ Hall e fuel) as (ih & ->). exists ih. do 3 f_equal.
  unfold inspects. fold b. destruct b.
  - unfold gs. rewrite existsb_app, (existsb_map (fun g => g e)). cbn [existsb]. by rewrite orb_false_r.
  - unfold gs. by rewrite (existsb_map (fun g => g e)), orb_false_r.
Qed.

(** ** Running the query *)

Lemma all_entries (idx : HashmapIndex EntryReplicated) q g :
  hm_nested idx = None -> computes (hm_indexByArr idx) (Or q) g ->
  exists st, it_all (idx_ops idx) (idx_iterate idx (MkIterateOptions (QLOne (Or q)) None)) =
    Val (List.filter (fun r => g (ir_value r)) (idx_contents idx), st) /\ it_done (idx_ops idx) st = Some true.
Proof.
  intros Hflat Hq. cbn [idx_ops simple_Index simple_ops it_all it_done idx_iterate idx_contents].
  unfold fetch. cbn [iterate st_queue st_done not_done st_options opt_query opt_sort].
  assert (E : queryAll idx (QLOne (Or q)) = Val (List.filter (fun r => g (ir_value r)) (Map_values (hm_index idx)))).
  { unfold queryAll, toQuery, id_lookup. cbn [mbind outcome_bind]. unfold _queryDocuments.
    apply filterM_out_val. intros r _. rewrite Hflat, entry_to_js.
    destruct (Hq (ir_value r) (Nat.pred (js_depth (entry_js (ir_value r))))) as (ih & Eq).
    cbn [matches_all]. change (js_depth (entry_js (ir_value r))) with
      (Datatypes.S (Nat.pred (js_depth (entry_js (ir_value r))))) at 1.
    rewrite Eq. cbn [mbind outcome_bind]. by destruct (g (ir_value r)). }
  rewrite E. cbn [mbind outcome_bind]. unfold sort_documents.
  destruct (List.filter _ _) as [|r l].
  - cbn [mbind outcome_bind]. by eexists.
  - case_if_in_goal; cbn [mbind outcome_bind st_queue]; rewrite getBatch_all, cloneResults_id; by eexists.
Qed.

(** C33. Over the in-memory index without a nested property, toRebalance ends and
    yields, in the order of the index, exactly the entries that have a coordinate in
    one of the merged changes, together with those assigned to a range boundary when
    some change is not strict or when nothing is left to change. The ranges of the
    changes have arcs inside the ring, and the history given keeps its laws. *)
Theorem toRebalance_correct (changes : ReplicationChanges) (h : S) (idx : HashmapIndex EntryReplicated) (fuel : nat) :
  history_ok h -> Forall (fun c => cut_ok (ch_range c)) (flatten changes) ->
  hm_nested idx = None -> (2 <= fuel)%nat ->
  exists change h', mergeReplicationChanges changes h = Val (change, h') /\
    toRebalance fuel changes idx h =
      Val (List.filter (inspects change) (map ir_value (idx_contents idx)), h').
Proof.
  intros Hh Hok Hflat Hfuel.
  destruct (merge_changes_ok changes h Hh Hok) as (change & h' & E & _ & Hcut & _).
  exists change, h'. split; [done|]. unfold toRebalance. rewrite E. cbn [mbind outcome_bind].
  destruct (assigned_query_ok (hm_indexByArr idx) change) as (q & -> & Hq).
  { rewrite Forall_forall in Hok. eapply Forall_impl; [exact Hcut|].
    intros c (c0 & Hc0 & _ & _ & _ & Hc)%Exists_exists. by apply Hc, Hok. } cbn [mbind outcome_bind].
  destruct fuel as [|[|fuel]]; [lia..|]. cbn [drain].
  change (it_done (idx_ops idx) (idx_iterate idx (MkIterateOptions (QLOne (Or q)) None))) with (@None bool).
  cbn [not_done].
  destruct (all_entries idx q (inspects change) Hflat Hq) as (st & -> & Hd). cbn [mbind outcome_bind].
  rewrite Hd. cbn [not_done mbind outcome_bind]. rewrite app_nil_r. do 2 f_equal.
  generalize (idx_contents idx). intros l. induction l as [|r l IH]; [done|]. cbn [List.filter map].
  destruct (inspects change (ir_value r)); cbn [map]; by rewrite IH.
Qed.

End Entries.
