(* ===== verification/SimpleSync.v ===== *)
(** * Synchronisation by asking (packages/programs/data/shared-log/src/sync/simple.ts)

    [SimpleSyncronizer] remembers which keys (hashes of entries or coordinates)
    are announced by whom, asks the first announcer at once and the others one
    after the other, every three seconds, while the entry is still missing.
    Calls run to their end; what the log and the index of entries hold is an
    argument ([Holdings]); the messages a call sends are part of its result. *)

From Stdlib Require Import ZArith Lia.
From stdpp Require Import base list strings relations.
From S2P Require Import Prelude JsMap JsVal Query Integers Ranges.

Local Open Scope Z_scope.

(** A hash or a coordinate. *)
Inductive SyncableKey := HashKey (hash : string) | CoordinateKey (coordinate : Z).

#[export] Instance SyncableKey_eq_dec : EqDecision SyncableKey.
Proof. solve_decision. Defined.

(** [typeof key === "bigint"]. *)
Definition isBigInt (key : SyncableKey) : bool :=
  match key with CoordinateKey _ => true | HashKey _ => false end.

(** The arrays of the two requests a node sends itself are built from keys of
    either type. *)
Inductive SyncMessage :=
| RequestMaybeSync (hashes : list string)
| ResponseMaybeSync (hashes : list SyncableKey)
| RequestMaybeSyncCoordinate (coordinates : list SyncableKey).

(** A message for [rpc.send], always with [SilentDelivery] and redundancy one. *)
Record SyncSend := MkSyncSend {
  send_message : SyncMessage;
  send_to : list string;
  send_priority : option Z;
}.

(** What [entryIndex.count] and [log.has] answer. *)
Record Holdings := MkHoldings { coordinate_count : Z -> nat; log_has : string -> bool }.

Definition checkHasCoordinateOrHash (h : Holdings) (key : SyncableKey) : bool :=
  match key with
  | CoordinateKey c => (0 <? coordinate_count h c)%nat
  | HashKey hash => log_has h hash
  end.

Section SimpleSyncronizer.
Context `{Hashing}.

(** [PublicSignKey.equals]: keys serialise injectively. *)
Definition equals (a b : PublicSignKey) : bool := bool_decide (key_bytes a = key_bytes b).

Record SimpleSyncronizer := MkSimpleSyncronizer {
  syncInFlightQueue : list (SyncableKey * list PublicSignKey);
  syncInFlightQueueInverted : list (string * list SyncableKey);
  syncInFlight : list (string * list (SyncableKey * Z));
  syncMoreInterval : option Z;
  closed : bool;
}.
Implicit Types s : SimpleSyncronizer.

Definition set_queue s q : SimpleSyncronizer :=
  MkSimpleSyncronizer q (syncInFlightQueueInverted s) (syncInFlight s) (syncMoreInterval s) (closed s).
Definition set_inverted s i : SimpleSyncronizer :=
  MkSimpleSyncronizer (syncInFlightQueue s) i (syncInFlight s) (syncMoreInterval s) (closed s).
Definition set_inFlight s f : SimpleSyncronizer :=
  MkSimpleSyncronizer (syncInFlightQueue s) (syncInFlightQueueInverted s) f (syncMoreInterval s) (closed s).

Definition new_SimpleSyncronizer : SimpleSyncronizer := MkSimpleSyncronizer [] [] [] None true.

Definition onMaybeMissingEntries (entries : list (string * EntryReplicated)) (targets : list string) : SyncSend :=
  MkSyncSend (RequestMaybeSync (Map_keys entries)) targets (Some 1).

(** ** Asking *)

(** One node of [to]. *)
Definition mark_inFlight (hashes : list SyncableKey) (now : Z) (m : list (string * list (SyncableKey * Z)))
    (node : string) : list (string * list (SyncableKey * Z)) :=
  Map_set m node (fold_left (fun f hash => Map_set f hash now) hashes (default [] (Map_get m node))).

Definition requestSync s (hashes : list SyncableKey) (to : list string) (now : Z) : SimpleSyncronizer * list SyncSend :=
  match hashes with
  | [] => (s, [])
  | first :: _ =>
      (set_inFlight s (fold_left (mark_inFlight hashes now) to (syncInFlight s)),
       [MkSyncSend (if isBigInt first then RequestMaybeSyncCoordinate hashes else ResponseMaybeSync hashes)
          to (Some 1)])
  end.

(** The body of the loop of [queueSync] for one key. *)
Definition queue_key (h : Holdings) (from : PublicSignKey) (skipCheck : bool)
    (acc : SimpleSyncronizer * list SyncableKey) (key : SyncableKey) : SimpleSyncronizer * list SyncableKey :=
  let '(s, requestHashes) := acc in
  match Map_get (syncInFlightQueue s) key with
  | Some inFlight =>
      if existsb (fun x => bool_decide (hashcode x = hashcode from)) inFlight then acc
      else
        let inverted := default [] (Map_get (syncInFlightQueueInverted s) (hashcode from)) in
        (set_inverted (set_queue s (Map_set (syncInFlightQueue s) key (inFlight ++ [from])))
           (Map_set (syncInFlightQueueInverted s) (hashcode from) (Set_add inverted key)), requestHashes)
  | None =>
      if skipCheck || negb (checkHasCoordinateOrHash h key)
      then (set_queue s (Map_set (syncInFlightQueue s) key []), requestHashes ++ [key])
      else acc
  end.

Definition queueSync s (h : Holdings) (keys : list SyncableKey) (from : PublicSignKey) (skipCheck : bool) (now : Z)
    : SimpleSyncronizer * list SyncSend :=
  let '(s, requestHashes) := fold_left (queue_key h from skipCheck) keys (s, []) in
  requestSync s requestHashes [hashcode from] now.

(** ** The loop, one round every three seconds *)

Record Round := MkRound { round_sync : SimpleSyncronizer; requestHashes : list SyncableKey; round_from : list string }.

(** [map.delete(hash)], and the set itself when that empties it. *)
Definition invert_delete (m : list (string * list SyncableKey)) (peer : string) (key : SyncableKey) :=
  match Map_get m peer with
  | Some set => match Set_delete set key with [] => Map_delete m peer | set' => Map_set m peer set' end
  | None => m
  end.

(** The same in the loop: [if (invertedSet.delete(key))]. *)
Definition round_invert (m : list (string * list SyncableKey)) (peer : string) (key : SyncableKey) :=
  match Map_get m peer with
  | Some set => if Set_has set key then invert_delete m peer key else m
  | None => m
  end.

Definition round_key (h : Holdings) (r : Round) (e : SyncableKey * list PublicSignKey) : Round :=
  let '(key, value) := e in
  let s := round_sync r in
  if checkHasCoordinateOrHash h key then
    MkRound (set_queue s (Map_delete (syncInFlightQueue s) key)) (requestHashes r) (round_from r)
  else
    match value with
    | [] => MkRound (set_queue s (Map_delete (syncInFlightQueue s) key)) (requestHashes r) (round_from r)
    | first :: value' =>
        let queue := match value' with
                     | [] => Map_delete (syncInFlightQueue s) key
                     | _ => Map_set (syncInFlightQueue s) key value'
                     end in
        MkRound (set_inverted (set_queue s queue)
                   (round_invert (syncInFlightQueueInverted s) (hashcode first) key))
          (requestHashes r ++ [key]) (Set_add (round_from r) (hashcode first))
    end.

(** Requests without an answer are forgotten after 20 seconds. *)
Definition expire (now : Z) (m : list (string * list (SyncableKey * Z))) : list (string * list (SyncableKey * Z)) :=
  List.filter (fun e => negb (bool_decide (e.2 = [])))
    (map (fun e => (e.1, List.filter (fun x => negb (x.2 <? now - 20000)) e.2)) m).

Definition requestSyncLoop s (h : Holdings) (now : Z) : SimpleSyncronizer * list SyncSend :=
  if closed s && negb (bool_decide (syncInFlightQueue s = [])) then (s, [])
  else
    let r := fold_left (round_key h) (syncInFlightQueue s) (MkRound s [] []) in
    let s := round_sync r in
    let '(s, sends) := requestSync (set_inFlight s (expire now (syncInFlight s))) (requestHashes r) (round_from r) now in
    if closed s then (s, sends)
    else (MkSimpleSyncronizer (syncInFlightQueue s) (syncInFlightQueueInverted s) (syncInFlight s)
            (Some (now + 3000)) (closed s), sends).

Definition open s (h : Holdings) (now : Z) : SimpleSyncronizer * list SyncSend :=
  requestSyncLoop (MkSimpleSyncronizer (syncInFlightQueue s) (syncInFlightQueueInverted s) (syncInFlight s)
                     (syncMoreInterval s) false) h now.

Definition close (s : SimpleSyncronizer) : SimpleSyncronizer := MkSimpleSyncronizer [] [] [] None true.

(** ** Entries and peers that come and go *)

(** One received entry, given by its hash. *)
Definition received_entry (from : PublicSignKey) (m : list (string * list (SyncableKey * Z))) (hash : string) :=
  match Map_get m (hashcode from) with
  | Some set =>
      match Map_delete set (HashKey hash) with
      | [] => Map_delete m (hashcode from)
      | set' => Map_set m (hashcode from) set'
      end
  | None => m
  end.

Definition onReceivedEntries s (hashes : list string) (from : PublicSignKey) : SimpleSyncronizer :=
  set_inFlight s (fold_left (received_entry from) hashes (syncInFlight s)).

Definition clearSyncProcess s (hash : string) : SimpleSyncronizer :=
  match Map_get (syncInFlightQueue s) (HashKey hash) with
  | Some inflight =>
      set_queue
        (set_inverted s (fold_left (fun m key => invert_delete m (hashcode key) (HashKey hash)) inflight
                           (syncInFlightQueueInverted s)))
        (Map_delete (syncInFlightQueue s) (HashKey hash))
  | None => s
  end.

Definition onEntryAdded := clearSyncProcess.
Definition onEntryRemoved := clearSyncProcess.

(** One key the disconnected peer is queued for. *)
Definition forget_peer (publicKey : PublicSignKey) (q : list (SyncableKey * list PublicSignKey)) (hash : SyncableKey) :=
  match Map_get q hash with
  | Some arr =>
      match List.filter (fun x => negb (equals x publicKey)) arr with
      | [] => Map_delete q hash
      | filtered => Map_set q hash filtered
      end
  | None => q
  end.

Definition clearSyncProcessPublicKey s (publicKey : PublicSignKey) : SimpleSyncronizer :=
  let s := set_inFlight s (Map_delete (syncInFlight s) (hashcode publicKey)) in
  match Map_get (syncInFlightQueueInverted s) (hashcode publicKey) with
  | Some map_ =>
      set_inverted (set_queue s (fold_left (forget_peer publicKey) map_ (syncInFlightQueue s)))
        (Map_delete (syncInFlightQueueInverted s) (hashcode publicKey))
  | None => s
  end.

Definition onPeerDisconnected := clearSyncProcessPublicKey.

Definition pending s : nat := length (syncInFlightQueue s).

End SimpleSyncronizer.
