(* ===== verification/SimpleSyncFacts.v ===== *)
(** * The tables of the synchroniser, and who gets asked

    [sync_ok]: the queue and its inverse agree, no announcer is queued twice
    for a key, nothing empty is kept.  Every operation keeps it.  A round of the
    loop asks the first announcer of every missing key, so every announcer is
    asked in its turn; but it sends all keys to all of them. *)

From Stdlib Require Import ZArith Lia.
From stdpp Require Import base list strings relations.
From S2P Require Import Prelude JsMap JsVal Query Integers Ranges SimpleSync.

Local Open Scope Z_scope.

Section Facts.
Context `{Hashing}.
Implicit Types (s : SimpleSyncronizer) (q : list (SyncableKey * list PublicSignKey)) (i : list (string * list SyncableKey)).

(** ** The invariant *)

Record tables_ok q i : Prop := {
  queue_wf : Map_wf q;
  inverted_wf : Map_wf i;
  announced_once k v : Map_get q k = Some v -> NoDup (map hashcode v);
  queue_inverted k v p : Map_get q k = Some v -> p ∈ v ->
    exists set, Map_get i (hashcode p) = Some set /\ k ∈ set;
  inverted_sets h set : Map_get i h = Some set -> set <> [] /\ NoDup set;
}.

Record flight_ok (f : list (string * list (SyncableKey * Z))) : Prop := {
  flight_wf : Map_wf f;
  flight_maps h m : Map_get f h = Some m -> m <> [] /\ Map_wf m;
}.

Definition sync_ok s : Prop :=
  tables_ok (syncInFlightQueue s) (syncInFlightQueueInverted s) /\ flight_ok (syncInFlight s).

(** *** The queue *)

Lemma tables_new q i k : tables_ok q i -> tables_ok (Map_set q k []) i.
Proof.
  intros [Hq Hi Ho Hv Hs]. split; [by apply Map_set_wf|done| | |done].
  - intros k' v'. rewrite Map_get_set. case_decide; [intros [= <-]; constructor|apply Ho].
  - intros k' v' p. rewrite Map_get_set. case_decide; [intros [= <-] []%not_elem_of_nil|apply Hv].
Qed.

Lemma tables_drop q i k : tables_ok q i -> tables_ok (Map_delete q k) i.
Proof.
  intros [Hq Hi Ho Hv Hs]. split; [by apply Map_delete_wf|done| | |done].
  - intros k' v'. rewrite Map_get_delete. case_decide; [done|apply Ho].
  - intros k' v' p. rewrite Map_get_delete. case_decide; [done|apply Hv].
Qed.

Lemma tables_add q i k v from :
  tables_ok q i -> Map_get q k = Some v -> hashcode from ∉ map hashcode v ->
  tables_ok (Map_set q k (v ++ [from]))
    (Map_set i (hashcode from) (Set_add (default [] (Map_get i (hashcode from))) k)).
Proof.
  intros [Hq Hi Ho Hv Hs] Hk Hf.
  assert (Hset : NoDup (default [] (Map_get i (hashcode from)))).
  { destruct (Map_get i (hashcode from)) as [set|] eqn:E; [by destruct (Hs _ _ E)|constructor]. }
  split; [by apply Map_set_wf|by apply Map_set_wf| | |].
  - intros k' v'. rewrite Map_get_set. case_decide as Ek; [|apply Ho]. intros [= <-].
    rewrite map_app. apply NoDup_app. split; [by apply (Ho k)|]. split; [|apply NoDup_singleton].
    intros x Hx ->%list_elem_of_singleton. done.
  - intros k' v' p Hk' Hp. rewrite Map_get_set in Hk'.
    rewrite Map_get_set. destruct (decide (hashcode from = hashcode p)) as [Ep|Ep].
    + eexists. split; [done|]. apply Set_add_elem. destruct (decide (k = k')) as [->|Hne]; [by left|].
      right. destruct (Hv k' v' p Hk' Hp) as (set & E & Hin). rewrite Ep, E. done.
    + destruct (decide (k = k')) as [->|Hne].
      * injection Hk' as <-. apply elem_of_app in Hp as [Hp| ->%list_elem_of_singleton]; [|done].
        by apply (Hv k' v).
      * by apply (Hv k' v').
  - intros h set. rewrite Map_get_set. case_decide; [|apply Hs]. intros [= <-]. split; [|by apply Set_add_NoDup].
    intros E. assert (Hin : k ∈ Set_add (default [] (Map_get i (hashcode from))) k) by (apply Set_add_elem; by left).
    rewrite E in Hin. by apply not_elem_of_nil in Hin.
Qed.

(** *** Its inverse *)

Lemma invert_delete_get i h k h' :
  Map_get (invert_delete i h k) h' =
    if decide (h = h') then
      match Map_get i h with
      | Some set => match Set_delete set k with [] => None | set' => Some set' end
      | None => None
      end
    else Map_get i h'.
Proof.
  unfold invert_delete. destruct (Map_get i h) as [set|] eqn:E.
  - destruct (Set_delete set k) eqn:Ed; [by rewrite Map_get_delete|by rewrite Map_get_set].
  - destruct (decide (h = h')) as [<-|]; done.
Qed.

Lemma invert_delete_wf i h k : Map_wf i -> Map_wf (invert_delete i h k).
Proof.
  intros Hi. unfold invert_delete. destruct (Map_get i h) as [set|]; [|done].
  destruct (Set_delete set k); [by apply Map_delete_wf|by apply Map_set_wf].
Qed.

(** Taking a key out of sets touches no other key. *)
Lemma invert_delete_keeps i h k h' k' set :
  k' <> k -> Map_get i h' = Some set -> k' ∈ set ->
  exists set', Map_get (invert_delete i h k) h' = Some set' /\ k' ∈ set'.
Proof.
  intros Hne Hg Hin. rewrite invert_delete_get. destruct (decide (h = h')) as [<-|]; [|by exists set].
  rewrite Hg. assert (Hd : k' ∈ Set_delete set k) by (by apply Set_delete_elem).
  destruct (Set_delete set k) as [|y l] eqn:E; [by apply not_elem_of_nil in Hd|]. eexists. by split.
Qed.

Lemma invert_delete_sets i h k :
  (forall h' set, Map_get i h' = Some set -> set <> [] /\ NoDup set) ->
  forall h' set, Map_get (invert_delete i h k) h' = Some set -> set <> [] /\ NoDup set.
Proof.
  intros Hs h' set. rewrite invert_delete_get. case_decide as E; [subst h'|apply Hs].
  destruct (Map_get i h) as [set0|] eqn:Eg; [|done]. destruct (Set_delete set0 k) as [|y l] eqn:Ed; [done|].
  intros [= <-]. split; [done|]. rewrite <- Ed. apply Set_delete_NoDup. by destruct (Hs _ _ Eg).
Qed.

Lemma round_invert_or i h k : round_invert i h k = invert_delete i h k \/ round_invert i h k = i.
Proof.
  unfold round_invert, invert_delete. destruct (Map_get i h) as [set|]; [|by right].
  destruct (Set_has set k); [by left|by right].
Qed.

(** The keys of one entry of the queue go out of the sets of some peers. *)
Lemma tables_invert q i i' k :
  tables_ok q i -> Map_get q k = None ->
  i' = i \/ (exists h, i' = invert_delete i h k) -> tables_ok q i'.
Proof.
  intros [Hq Hi Ho Hv Hs] Hk [->|[h ->]]; [done|].
  split; [done|by apply invert_delete_wf|done| |by apply invert_delete_sets].
  intros k' v p Hk' Hp. destruct (Hv k' v p Hk' Hp) as (set & Hg & Hin).
  apply (invert_delete_keeps _ _ _ _ _ set); [congruence|done|done].
Qed.

Lemma tables_invert_all q i k l :
  tables_ok q i -> Map_get q k = None ->
  tables_ok q (fold_left (fun m key => invert_delete m (hashcode key) k) l i).
Proof.
  intros Hok Hk. revert i Hok. induction l as [|p l IH]; intros i Hok; simpl; [done|].
  apply IH. apply (tables_invert q i _ k); [done|done|]. right. by eexists.
Qed.

(** The first announcer leaves the queue of a key. *)
Lemma tables_shift q i k p v :
  tables_ok q i -> Map_get q k = Some (p :: v) ->
  tables_ok (match v with [] => Map_delete q k | _ => Map_set q k v end) (round_invert i (hashcode p) k).
Proof.
  intros Hok Hk. destruct v as [|p' v].
  { apply (tables_invert _ i _ k); [by apply tables_drop|by rewrite Map_get_delete, decide_True|].
    destruct (round_invert_or i (hashcode p) k) as [->| ->]; [right; by eexists|by left]. }
  destruct Hok as [Hq Hi Ho Hv Hs]. pose proof (Ho _ _ Hk) as Hnd. simpl in Hnd.
  apply NoDup_cons in Hnd as [Hp Hnd].
  destruct (round_invert_or i (hashcode p) k) as [->| ->].
  - split; [by apply Map_set_wf|by apply invert_delete_wf| | |by apply invert_delete_sets].
    + intros k' v'. rewrite Map_get_set. case_decide; [by intros [= <-]|apply Ho].
    + intros k' v' x. rewrite Map_get_set, invert_delete_get. case_decide as Ek.
      * intros [= <-] Hx. subst k'. rewrite decide_False.
        -- apply (Hv k (p :: p' :: v)); [done|by right].
        -- intros E. apply Hp. rewrite E. apply (list_elem_of_fmap hashcode (p' :: v)). by exists x.
      * intros Hk' Hx. destruct (Hv k' v' x Hk' Hx) as (set & Hg & Hin).
        destruct (decide (hashcode p = hashcode x)) as [E|]; [|by exists set].
        rewrite E, Hg. assert (Hd : k' ∈ Set_delete set k) by (apply Set_delete_elem; by split).
        destruct (Set_delete set k) as [|y l] eqn:El; [by apply not_elem_of_nil in Hd|]. eexists. by split.
  - split; [by apply Map_set_wf|done| | |done].
    + intros k' v'. rewrite Map_get_set. case_decide; [by intros [= <-]|apply Ho].
    + intros k' v' x. rewrite Map_get_set. case_decide as Ek; [|apply Hv].
      intros [= <-] Hx. subst k'. apply (Hv k (p :: p' :: v)); [done|by right].
Qed.

(** *** A peer that disconnects *)

Lemma forget_peer_get pk q h k :
  Map_get (forget_peer pk q h) k =
    if decide (h = k) then
      match List.filter (fun x => negb (equals x pk)) (default [] (Map_get q h)) with [] => None | l => Some l end
    else Map_get q k.
Proof.
  unfold forget_peer. destruct (Map_get q h) as [arr|] eqn:E; simpl.
  - destruct (List.filter _ arr); [by rewrite Map_get_delete|by rewrite Map_get_set].
  - destruct (decide (h = k)) as [<-|]; done.
Qed.

Lemma forget_peer_wf pk q h : Map_wf q -> Map_wf (forget_peer pk q h).
Proof.
  intros Hq. unfold forget_peer. destruct (Map_get q h) as [arr|]; [|done].
  destruct (List.filter _ arr); [by apply Map_delete_wf|by apply Map_set_wf].
Qed.

(** What the loop over the keys of a peer leaves. *)
Lemma forget_all pk keys q k v' :
  Map_get (fold_left (forget_peer pk) keys q) k = Some v' ->
  exists v, Map_get q k = Some v /\ (forall p, p ∈ v' -> p ∈ v) /\
    (NoDup (map hashcode v) -> NoDup (map hashcode v')) /\
    (k ∈ keys \/ Forall (fun p => equals p pk = false) v -> Forall (fun p => equals p pk = false) v').
Proof.
  revert q. induction keys as [|h keys IH]; intros q; simpl.
  { intros ->. exists v'. split_and!; try done. intros [[]%not_elem_of_nil|Hf]; done. }
  intros (v & Hv & Hin & Hnd & Hf)%IH. rewrite forget_peer_get in Hv.
  destruct (decide (h = k)) as [<-|Hne].
  - destruct (Map_get q h) as [v0|] eqn:E; simpl in Hv; [|done].
    assert (Ev : v = List.filter (fun x => negb (equals x pk)) v0).
    { destruct (List.filter _ v0); [done|by injection Hv]. }
    exists v0. split; [done|]. split_and!.
    + intros p Hp%Hin. subst v. by apply elem_of_List_filter in Hp as [Hp _].
    + intros Hn. apply Hnd. subst v. by apply NoDup_map_filter.
    + intros _. apply Hf. right. subst v. apply Forall_forall. intros p Hp.
      apply elem_of_List_filter in Hp as [_ Hp]. by apply negb_true_iff.
  - exists v. split_and!; try done. intros [[->|Hk]%elem_of_cons|Hv']; [done|apply Hf; by left|apply Hf; by right].
Qed.

Context (hash_inj : forall a b : PublicSignKey, hashcode a = hashcode b -> key_bytes a = key_bytes b).

Lemma tables_forget q i pk set :
  tables_ok q i -> Map_get i (hashcode pk) = Some set ->
  tables_ok (fold_left (forget_peer pk) set q) (Map_delete i (hashcode pk)).
Proof.
  intros [Hq Hi Ho Hv Hs] Hset. split.
  - clear Hset. revert q Hq Ho Hv. induction set as [|h set IH]; intros q Hq Ho Hv; simpl; [done|].
    apply IH; [by apply forget_peer_wf| |].
    + intros k v Hg. destruct (forget_all pk [h] q k v Hg) as (v0 & E & _ & Hn & _). eauto.
    + intros k v p Hg Hp. destruct (forget_all pk [h] q k v Hg) as (v0 & E & Hin & _ & _). eauto.
  - by apply Map_delete_wf.
  - intros k v (v0 & E & _ & Hn & _)%forget_all. eauto.
  - intros k v p Hg Hp. destruct (forget_all _ _ _ _ _ Hg) as (v0 & E & Hin & _ & Hf).
    destruct (Hv k v0 p E (Hin p Hp)) as (set' & Hset' & Hk). exists set'. split; [|done].
    rewrite Map_get_delete, decide_False; [done|]. intros Ep. rewrite <- Ep, Hset in Hset'. injection Hset' as <-.
    assert (Hne : equals p pk = false).
    { assert (Hall : Forall (fun p => equals p pk = false) v) by (apply Hf; by left).
      rewrite Forall_forall in Hall. by apply Hall. }
    apply bool_decide_eq_false in Hne. apply Hne. by apply hash_inj.
  - intros h set'. rewrite Map_get_delete. case_decide; [done|apply Hs].
Qed.

(** ** The operations *)

Lemma mark_hashes (hashes : list SyncableKey) (now : Z) (m0 : list (SyncableKey * Z)) :
  Map_wf m0 -> Map_wf (fold_left (fun f hash => Map_set f hash now) hashes m0) /\
  (m0 <> [] \/ hashes <> [] -> fold_left (fun f hash => Map_set f hash now) hashes m0 <> []).
Proof.
  revert m0. induction hashes as [|k hashes IH]; intros m0 Hm; simpl; [tauto|].
  destruct (IH (Map_set m0 k now)) as [Hw Hne]; [by apply Map_set_wf|]. split; [done|]. intros _. apply Hne. left.
  destruct m0 as [|[k' v'] m0]; simpl; [done|]. by destruct (decide (k' = k)).
Qed.

Lemma flight_mark hashes now to f : hashes <> [] -> flight_ok f -> flight_ok (fold_left (mark_inFlight hashes now) to f).
Proof.
  intros Hh. revert f. induction to as [|node to IH]; intros f Hf; simpl; [done|]. apply IH.
  destruct Hf as [Hw Hm]. unfold mark_inFlight. split; [by apply Map_set_wf|].
  assert (Hd : Map_wf (default [] (Map_get f node))).
  { destruct (Map_get f node) eqn:E; [by destruct (Hm _ _ E)|apply Map_empty_wf]. }
  intros h m. rewrite Map_get_set. case_decide; [|apply Hm]. intros [= <-].
  destruct (mark_hashes hashes now _ Hd) as [Hw' Hne]. split; [apply Hne; by right|done].
Qed.

Lemma requestSync_ok s hashes to now : sync_ok s -> sync_ok (requestSync s hashes to now).1.
Proof.
  intros [Ht Hf]. destruct hashes as [|k hashes]; [done|]. split; [done|]. by apply flight_mark.
Qed.

Lemma queue_key_ok h from skip acc key :
  sync_ok acc.1 -> sync_ok (queue_key h from skip acc key).1.
Proof.
  destruct acc as [s hashes]. intros [Ht Hf]. unfold queue_key. simpl in Ht, Hf.
  destruct (Map_get (syncInFlightQueue s) key) as [v|] eqn:E.
  - destruct (existsb _ v) eqn:Ex; [done|]. split; [|done]. cbn. apply (tables_add _ _ key v from Ht E).
    intros (p & Ep & Hp)%list_elem_of_fmap. apply not_true_iff_false in Ex. apply Ex. apply existsb_exists.
    exists p. split; [by apply list_elem_of_In|]. by apply bool_decide_eq_true.
  - destruct (skip || _); [|done]. split; [|done]. by apply tables_new.
Qed.

Lemma queueSync_ok s h keys from skip now : sync_ok s -> sync_ok (queueSync s h keys from skip now).1.
Proof.
  intros Hs. unfold queueSync.
  assert (Hk : sync_ok (fold_left (queue_key h from skip) keys (s, [])).1).
  { apply (fold_left_keeps (fun acc => sync_ok acc.1)); [|done]. intros acc x _. apply queue_key_ok. }
  destruct (fold_left _ keys (s, [])) as [s' hashes]. by apply requestSync_ok.
Qed.

Lemma flight_received from hash f : flight_ok f -> flight_ok (received_entry from f hash).
Proof.
  intros [Hw Hm]. unfold received_entry. destruct (Map_get f (hashcode from)) as [set|] eqn:E; [|done].
  destruct (Hm _ _ E) as [_ Hset]. destruct (Map_delete set (HashKey hash)) as [|e l] eqn:Ed.
  - split; [by apply Map_delete_wf|]. intros h m. rewrite Map_get_delete. case_decide; [done|apply Hm].
  - split; [by apply Map_set_wf|]. intros h m. rewrite Map_get_set. case_decide; [|apply Hm].
    intros [= <-]. split; [done|]. rewrite <- Ed. by apply Map_delete_wf.
Qed.

Lemma onReceivedEntries_ok s hashes from : sync_ok s -> sync_ok (onReceivedEntries s hashes from).
Proof.
  intros [Ht Hf]. split; [done|]. cbn. apply fold_left_keeps; [|done]. intros f x _. apply flight_received.
Qed.

Lemma clearSyncProcess_ok s hash : sync_ok s -> sync_ok (clearSyncProcess s hash).
Proof.
  intros [Ht Hf]. unfold clearSyncProcess.
  destruct (Map_get (syncInFlightQueue s) (HashKey hash)) as [v|] eqn:E; [|done]. split; [|done].
  cbn [set_queue set_inverted syncInFlightQueue syncInFlightQueueInverted].
  apply tables_invert_all; [by apply tables_drop|by rewrite Map_get_delete, decide_True].
Qed.

Lemma sync_disconnected_ok s pk : sync_ok s -> sync_ok (onPeerDisconnected s pk).
Proof.
  intros [Ht [Hw Hm]]. unfold onPeerDisconnected, clearSyncProcessPublicKey. cbn [set_inFlight syncInFlightQueueInverted].
  assert (Hf : flight_ok (Map_delete (syncInFlight s) (hashcode pk))).
  { split; [by apply Map_delete_wf|]. intros h m. rewrite Map_get_delete. case_decide; [done|apply Hm]. }
  destruct (Map_get (syncInFlightQueueInverted s) (hashcode pk)) as [set|] eqn:E; [|done].
  split; [|done]. by apply tables_forget.
Qed.

(** ** A round of the loop *)

(** The announcers of a key after a round. *)
Definition next_queue (h : Holdings) (k : SyncableKey) (v : list PublicSignKey) : option (list PublicSignKey) :=
  if checkHasCoordinateOrHash h k then None else match v with [] | [_] => None | _ :: v' => Some v' end.

Definition asked (h : Holdings) (e : SyncableKey * list PublicSignKey) : bool :=
  negb (checkHasCoordinateOrHash h e.1) && match e.2 with [] => false | _ => true end.

Definition first_announcer (e : SyncableKey * list PublicSignKey) : list string :=
  match e.2 with [] => [] | p :: _ => [hashcode p] end.

Lemma round_key_ok h r e :
  Map_get (syncInFlightQueue (round_sync r)) e.1 = Some e.2 -> sync_ok (round_sync r) ->
  sync_ok (round_sync (round_key h r e)).
Proof.
  intros He [Ht Hf]. destruct e as [k v]. cbn [fst snd] in He. unfold round_key.
  destruct (checkHasCoordinateOrHash h k); [by split; [apply tables_drop|]|].
  destruct v as [|p v]; [by split; [apply tables_drop|]|]. split; [|done].
  cbn [round_sync set_inverted set_queue syncInFlightQueue syncInFlightQueueInverted]. by apply tables_shift.
Qed.

Lemma round_key_get h r e k :
  Map_get (syncInFlightQueue (round_sync (round_key h r e))) k =
    if decide (e.1 = k) then next_queue h e.1 e.2 else Map_get (syncInFlightQueue (round_sync r)) k.
Proof.
  destruct e as [k' v]. unfold round_key, next_queue. cbn [fst snd].
  destruct (checkHasCoordinateOrHash h k'); [apply Map_get_delete|].
  destruct v as [|p [|p' v]]; [apply Map_get_delete|apply Map_get_delete|apply Map_get_set].
Qed.

Lemma round_key_rest h r e :
  requestHashes (round_key h r e) = requestHashes r ++ map fst (List.filter (asked h) [e]) /\
  round_from (round_key h r e) = fold_left Set_add (flat_map first_announcer (List.filter (asked h) [e])) (round_from r) /\
  syncInFlight (round_sync (round_key h r e)) = syncInFlight (round_sync r) /\
  closed (round_sync (round_key h r e)) = closed (round_sync r).
Proof.
  destruct e as [k v]. unfold round_key, asked. cbn [fst snd List.filter].
  destruct (checkHasCoordinateOrHash h k); [by rewrite app_nil_r|].
  destruct v as [|p v]; [by rewrite app_nil_r|done].
Qed.

Lemma round_spec h l r :
  NoDup (map fst l) -> (forall e, e ∈ l -> Map_get (syncInFlightQueue (round_sync r)) e.1 = Some e.2) ->
  sync_ok (round_sync r) ->
  let r' := fold_left (round_key h) l r in
  sync_ok (round_sync r') /\
  (forall k, Map_get (syncInFlightQueue (round_sync r')) k =
     match Map_get l k with Some v => next_queue h k v | None => Map_get (syncInFlightQueue (round_sync r)) k end) /\
  requestHashes r' = requestHashes r ++ map fst (List.filter (asked h) l) /\
  round_from r' = fold_left Set_add (flat_map first_announcer (List.filter (asked h) l)) (round_from r) /\
  syncInFlight (round_sync r') = syncInFlight (round_sync r) /\ closed (round_sync r') = closed (round_sync r).
Proof.
  revert r. induction l as [|e l IH]; intros r Hnd He Hok; cbn [fold_left].
  { split_and!; try done. by rewrite app_nil_r. }
  simpl in Hnd. apply NoDup_cons in Hnd as [Hl Hnd].
  destruct (round_key_rest h r e) as (E1 & E2 & E3 & E4).
  destruct (IH (round_key h r e)) as (Hok' & Hg & Eh & Ef & Ei & Ec).
  - done.
  - intros e' He'. rewrite round_key_get, decide_False; [apply He; by right|].
    intros E. apply Hl. rewrite E. apply list_elem_of_fmap. by exists e'.
  - apply round_key_ok; [apply He; by left|done].
  - split; [done|]. split; [|split; [|split; [|split]]].
    + intros k. rewrite Hg, round_key_get. destruct e as [k' v]. cbn [Map_get fst snd].
      destruct (decide (k' = k)) as [->|]; [|done]. rewrite (proj2 (Map_get_None l k)); done.
    + rewrite Eh, E1. simpl. destruct (asked h e); simpl; rewrite <- app_assoc; done.
    + rewrite Ef, E2. simpl. destruct (asked h e); simpl; [|done]. by rewrite app_nil_r, fold_left_app.
    + by rewrite Ei, E3.
    + by rewrite Ec, E4.
Qed.

Lemma expire_get now m h :
  Map_wf m -> Map_get (expire now m) h =
    match Map_get m h with
    | Some v => match List.filter (fun x => negb (x.2 <? now - 20000)) v with [] => None | l => Some l end
    | None => None
    end.
Proof.
  unfold Map_wf, expire. induction m as [|[h' v] m IH]; [done|]. simpl. intros [Hh Hm]%NoDup_cons.
  destruct (List.filter _ v) as [|x l] eqn:E; cbn [fst snd].
  - rewrite bool_decide_eq_true_2 by done. simpl. rewrite IH by done.
    destruct (decide (h' = h)) as [<-|]; [|done]. rewrite E. by rewrite (proj2 (Map_get_None m h')).
  - rewrite bool_decide_eq_false_2 by done. simpl. destruct (decide (h' = h)); [by rewrite E|by apply IH].
Qed.

Lemma flight_expire now f : flight_ok f -> flight_ok (expire now f).
Proof.
  intros [Hw Hm]. split.
  - unfold Map_wf, expire, Map_keys. apply NoDup_map_filter. by rewrite map_map.
  - intros h m. rewrite expire_get by done. destruct (Map_get f h) as [v|] eqn:E; [|done].
    destruct (List.filter _ v) as [|x l] eqn:El; [done|]. intros [= <-]. split; [done|].
    rewrite <- El. unfold Map_wf. apply NoDup_map_filter. by destruct (Hm _ _ E).
Qed.

Lemma sync_snapshot s e : sync_ok s -> e ∈ syncInFlightQueue s -> Map_get (syncInFlightQueue s) e.1 = Some e.2.
Proof. intros [Ht _] He. apply Map_elem_get; [apply (queue_wf _ _ Ht)|by destruct e]. Qed.

Definition request_message (hashes : list SyncableKey) : SyncMessage :=
  match hashes with
  | first :: _ => if isBigInt first then RequestMaybeSyncCoordinate hashes else ResponseMaybeSync hashes
  | [] => ResponseMaybeSync []
  end.

(** A round, as a whole. *)
Lemma requestSyncLoop_spec s h now :
  sync_ok s -> closed s = false ->
  let hashes := map fst (List.filter (asked h) (syncInFlightQueue s)) in
  let to := fold_left Set_add (flat_map first_announcer (List.filter (asked h) (syncInFlightQueue s))) [] in
  let '(s', sends) := requestSyncLoop s h now in
  sync_ok s' /\ closed s' = false /\ syncMoreInterval s' = Some (now + 3000) /\
  (forall k, Map_get (syncInFlightQueue s') k =
     match Map_get (syncInFlightQueue s) k with Some v => next_queue h k v | None => None end) /\
  sends = match hashes with [] => [] | _ => [MkSyncSend (request_message hashes) to (Some 1)] end.
Proof.
  intros Hok Hc. unfold requestSyncLoop. rewrite Hc. cbn [andb].
  destruct (round_spec h (syncInFlightQueue s) (MkRound s [] [])) as (Hok' & Hg & Eh & Ef & Ei & Ec).
  { apply Hok. } { intros e He. by apply sync_snapshot. } { done. }
  set (r := fold_left _ _ _) in *. cbn [app requestHashes] in Eh. rewrite Eh, Ef. cbn [round_from].
  set (hashes := map fst _). set (to := fold_left Set_add _ _).
  pose proof (requestSync_ok (set_inFlight (round_sync r) (expire now (syncInFlight (round_sync r)))) hashes to now) as Hr.
  assert (Hok2 : sync_ok (set_inFlight (round_sync r) (expire now (syncInFlight (round_sync r))))).
  { destruct Hok' as [Ht Hf]. split; [done|]. by apply flight_expire. }
  specialize (Hr Hok2).
  assert (Hq : forall k, Map_get (syncInFlightQueue (round_sync r)) k =
            match Map_get (syncInFlightQueue s) k with Some v => next_queue h k v | None => None end).
  { intros k. rewrite Hg. cbn [round_sync]. by destruct (Map_get (syncInFlightQueue s) k). }
  cbn [round_sync] in Ec. rewrite Hc in Ec.
  destruct hashes as [|first hashes]; cbn [requestSync fst] in Hr |- *;
    cbn [closed set_inFlight]; rewrite Ec; split_and!; done.
Qed.

Lemma requestSyncLoop_ok s h now : sync_ok s -> sync_ok (requestSyncLoop s h now).1.
Proof.
  intros Hok. destruct (closed s) eqn:Hc.
  - unfold requestSyncLoop. rewrite Hc. destruct (syncInFlightQueue s) eqn:Eq; cbn [andb].
    + rewrite bool_decide_eq_true_2 by done. cbn [negb]. simpl. rewrite Hc. destruct Hok as [Ht Hf]. split; [done|].
      by apply flight_expire.
    + by rewrite bool_decide_eq_false_2.
  - pose proof (requestSyncLoop_spec s h now Hok Hc) as Hs. destruct (requestSyncLoop s h now). by destruct Hs.
Qed.

(** ** Every state the synchroniser can reach *)

Inductive sync_step : SimpleSyncronizer -> SimpleSyncronizer -> Prop :=
| step_queueSync s h keys from skip now : sync_step s (queueSync s h keys from skip now).1
| step_loop s h now : sync_step s (requestSyncLoop s h now).1
| step_received s hashes from : sync_step s (onReceivedEntries s hashes from)
| step_added s hash : sync_step s (onEntryAdded s hash)
| step_removed s hash : sync_step s (onEntryRemoved s hash)
| step_disconnected s pk : sync_step s (onPeerDisconnected s pk)
| step_open s h now : sync_step s (open s h now).1
| step_close s : sync_step s (close s).

Lemma new_sync_ok : sync_ok new_SimpleSyncronizer.
Proof. split; split; simpl; (apply Map_empty_wf || done). Qed.

Lemma sync_step_ok s s' : sync_step s s' -> sync_ok s -> sync_ok s'.
Proof.
  destruct 1; intros Hok; [by apply queueSync_ok|by apply requestSyncLoop_ok|by apply onReceivedEntries_ok
    |by apply clearSyncProcess_ok|by apply clearSyncProcess_ok|by apply sync_disconnected_ok| |apply new_sync_ok].
  by apply requestSyncLoop_ok.
Qed.

End Facts.

(** ** Properties *)

Section Properties.
Context `{Hashing}.

(** The keys and the receivers of a request. *)
Definition send_keys (m : SyncSend) : list SyncableKey :=
  match send_message m with
  | RequestMaybeSync hashes => map HashKey hashes
  | ResponseMaybeSync l | RequestMaybeSyncCoordinate l => l
  end.

Definition asks (sends : list SyncSend) (k : SyncableKey) (peer : string) : Prop :=
  exists m, m ∈ sends /\ k ∈ send_keys m /\ peer ∈ send_to m.

Lemma round_asks s h now k p v k' p' v' :
  sync_ok s -> closed s = false ->
  checkHasCoordinateOrHash h k = false -> Map_get (syncInFlightQueue s) k = Some (p :: v) ->
  checkHasCoordinateOrHash h k' = false -> Map_get (syncInFlightQueue s) k' = Some (p' :: v') ->
  asks (requestSyncLoop s h now).2 k (hashcode p').
Proof.
  intros Hok Hc Hk Hg Hk' Hg'. pose proof (requestSyncLoop_spec s h now Hok Hc) as Hs. cbv zeta in Hs.
  destruct (requestSyncLoop s h now) as [s' sends]. destruct Hs as (_ & _ & _ & _ & ->). cbn [snd].
  assert (Hin : forall k p v, checkHasCoordinateOrHash h k = false -> Map_get (syncInFlightQueue s) k = Some (p :: v) ->
                  (k, p :: v) ∈ List.filter (asked h) (syncInFlightQueue s)).
  { intros k0 p0 v0 H1 H2. apply elem_of_List_filter. split; [by apply Map_get_Some_elem|].
    unfold asked. cbn [fst snd]. by rewrite H1. }
  assert (Hkey : k ∈ map fst (List.filter (asked h) (syncInFlightQueue s))).
  { apply list_elem_of_fmap. exists (k, p :: v). split; [done|by apply Hin]. }
  assert (Hto : hashcode p' ∈ fold_left Set_add (flat_map first_announcer (List.filter (asked h) (syncInFlightQueue s))) []).
  { apply Set_add_all_elem. right. apply list_elem_of_In, in_flat_map. exists (k', p' :: v').
    split; [by apply list_elem_of_In, Hin|by left]. }
  destruct (map fst _) as [|k0 hashes]; [by apply not_elem_of_nil in Hkey|].
  eexists. split; [by left|]. split; [|done]. unfold send_keys. cbn [send_message request_message].
  by destruct (isBigInt k0).
Qed.

(** Announcements that arrive between two rounds. *)
Record Announcement := MkAnnouncement {
  an_holdings : Holdings; an_keys : list SyncableKey; an_from : PublicSignKey; an_skip : bool; an_now : Z
}.

Definition announce (s : SimpleSyncronizer) (a : Announcement) : SimpleSyncronizer :=
  (queueSync s (an_holdings a) (an_keys a) (an_from a) (an_skip a) (an_now a)).1.

(** What each round sends, after the announcements before it. *)
Fixpoint run_rounds (h : Holdings) (schedule : list (list Announcement * Z)) (s : SimpleSyncronizer) : list (list SyncSend) :=
  match schedule with
  | [] => []
  | (before, now) :: schedule' =>
      let '(s', sends) := requestSyncLoop (fold_left announce before s) h now in
      sends :: run_rounds h schedule' s'
  end.

Lemma queue_key_extends h from skip acc key k v :
  Map_get (syncInFlightQueue acc.1) k = Some v ->
  (exists w, Map_get (syncInFlightQueue (queue_key h from skip acc key).1) k = Some (v ++ w)) /\
  closed (queue_key h from skip acc key).1 = closed acc.1.
Proof.
  destruct acc as [s hashes]. cbn [fst]. intros Hk. unfold queue_key.
  destruct (Map_get (syncInFlightQueue s) key) as [v0|] eqn:E.
  - destruct (existsb _ v0); [split; [exists []; by rewrite app_nil_r|done]|]. split; [|done].
    cbn [fst set_inverted set_queue syncInFlightQueue]. rewrite Map_get_set. case_decide as Ek.
    + subst key. rewrite Hk in E. injection E as <-. by exists [from].
    + exists []. by rewrite app_nil_r.
  - destruct (skip || _); [|split; [exists []; by rewrite app_nil_r|done]]. split; [|done].
    cbn [fst set_queue syncInFlightQueue]. rewrite Map_get_set_ne; [|congruence]. exists []. by rewrite app_nil_r.
Qed.

Lemma announce_extends s a k v :
  Map_get (syncInFlightQueue s) k = Some v ->
  (exists w, Map_get (syncInFlightQueue (announce s a)) k = Some (v ++ w)) /\ closed (announce s a) = closed s.
Proof.
  intros Hk. unfold announce, queueSync.
  assert (Hf : (exists w, Map_get (syncInFlightQueue
             (fold_left (queue_key (an_holdings a) (an_from a) (an_skip a)) (an_keys a) (s, [])).1) k = Some (v ++ w)) /\
             closed (fold_left (queue_key (an_holdings a) (an_from a) (an_skip a)) (an_keys a) (s, [])).1 = closed s).
  { apply (fold_left_keeps (fun acc => (exists w, Map_get (syncInFlightQueue acc.1) k = Some (v ++ w)) /\ closed acc.1 = closed s)).
    - intros acc x _ [[w Hw] Hc]. destruct (queue_key_extends (an_holdings a) (an_from a) (an_skip a) acc x k _ Hw)
        as [[w' Hw'] Hc']. split; [exists (w ++ w'); by rewrite app_assoc|by rewrite Hc'].
    - split; [exists []; by rewrite app_nil_r|done]. }
  destruct (fold_left _ _ _) as [s' [|x hashes]]; done.
Qed.

Lemma announcements_extend l s k v :
  sync_ok s -> Map_get (syncInFlightQueue s) k = Some v ->
  sync_ok (fold_left announce l s) /\ closed (fold_left announce l s) = closed s /\
  exists w, Map_get (syncInFlightQueue (fold_left announce l s)) k = Some (v ++ w).
Proof.
  intros Hok Hk.
  apply (fold_left_keeps (fun s' => sync_ok s' /\ closed s' = closed s /\
           exists w, Map_get (syncInFlightQueue s') k = Some (v ++ w))).
  - intros s' a _ (Hok' & Hc & w & Hw). destruct (announce_extends s' a k _ Hw) as [[w' Hw'] Hc'].
    split; [by apply queueSync_ok|]. split; [by rewrite Hc'|]. exists (w ++ w'). by rewrite app_assoc.
  - split; [done|]. split; [done|]. exists []. by rewrite app_nil_r.
Qed.

Context (hash_inj : forall a b : PublicSignKey, hashcode a = hashcode b -> key_bytes a = key_bytes b).

Lemma sync_reachable_ok s : rtc sync_step new_SimpleSyncronizer s -> sync_ok s.
Proof.
  apply (rtc_ind_r sync_ok); [apply new_sync_ok|]. intros s1 s2 _ Hstep Hok. by apply (sync_step_ok hash_inj s1).
Qed.
End Properties.

(** C22. In every state the synchroniser reaches, by announcements, rounds of its loop,
    received, added and removed entries, peers that disconnect, opening and closing
    in any order, provided that the hash codes of different keys differ: no key has
    an announcer queued twice, every queued announcer has the key in its own set (so
    disconnecting finds it), and neither a set of keys nor the map of a peer's
    requests is kept empty. *)
Theorem sync_tables_agree `{Hashing} (s : SimpleSyncronizer)
    (hash_inj : forall a b : PublicSignKey, hashcode a = hashcode b -> key_bytes a = key_bytes b)
    (reached : rtc sync_step new_SimpleSyncronizer s) :
  (forall k v, Map_get (syncInFlightQueue s) k = Some v ->
     NoDup (map hashcode v) /\
     forall p, p ∈ v -> exists set, Map_get (syncInFlightQueueInverted s) (hashcode p) = Some set /\ k ∈ set) /\
  (forall h set, Map_get (syncInFlightQueueInverted s) h = Some set -> set <> [] /\ NoDup set) /\
  (forall h m, Map_get (syncInFlight s) h = Some m -> m <> []).
Proof.
  destruct (sync_reachable_ok hash_inj s reached) as [Ht Hf]. split; [|split].
  - intros k v Hk. split; [by apply (announced_once _ _ Ht k)|]. intros p Hp. by apply (queue_inverted _ _ Ht k v).
  - apply (inverted_sets _ _ Ht).
  - intros h m Hm. by destruct (flight_maps _ Hf h m Hm).
Qed.

(** C23. Every announcer gets its turn: in a synchroniser that is open, and while an
    entry is missing and nothing but announcements happens between the rounds, the
    peer at position i of its queue is asked for it in round i, counting from zero,
    however many announcements arrive. The hash codes of different keys differ. *)
Theorem candidates_asked `{Hashing} (s : SimpleSyncronizer) (h : Holdings) (schedule : list (list Announcement * Z))
    (k : SyncableKey) (v : list PublicSignKey) (i : nat) (p : PublicSignKey)
    (hash_inj : forall a b : PublicSignKey, hashcode a = hashcode b -> key_bytes a = key_bytes b) :
  rtc sync_step new_SimpleSyncronizer s -> closed s = false ->
  checkHasCoordinateOrHash h k = false -> Map_get (syncInFlightQueue s) k = Some v ->
  v !! i = Some p -> (i < length schedule)%nat ->
  exists sends, run_rounds h schedule s !! i = Some sends /\ asks sends k (hashcode p).
Proof.
  intros Hr%(sync_reachable_ok hash_inj) Hc Hk. revert s v i Hr Hc.
  induction schedule as [|[before now] schedule IH]; intros s v i Hok Hc Hv Hi Hlen; [simpl in Hlen; lia|].
  destruct (announcements_extend before s k v Hok Hv) as (Hok1 & Hc1 & w & Hw). rewrite Hc in Hc1.
  cbn [run_rounds]. pose proof (requestSyncLoop_spec _ h now Hok1 Hc1) as Hs. cbv zeta in Hs.
  pose proof (round_asks (fold_left announce before s) h now k) as Hasks.
  destruct (requestSyncLoop _ h now) as [s' sends]. destruct Hs as (Hok' & Hc' & _ & Hq & _).
  destruct v as [|p0 v]; [done|]. destruct i as [|i].
  - injection Hi as ->. exists sends. split; [done|]. by apply (Hasks p (v ++ w) k p (v ++ w)).
  - simpl in Hi, Hlen. apply (IH s' (v ++ w) i); [done|done| |by apply lookup_app_l_Some|lia].
    rewrite Hq, Hw. unfold next_queue. rewrite Hk. cbn [app]. by destruct v.
Qed.

(** A round asks every peer for every key: when two keys are missing and
    queued, the first announcer of one is asked for the other as well, whether
    or not it announced it, in the same message, and also when one key is a hash
    and the other a coordinate. *)
Theorem round_asks_all_for_all `{Hashing} (s : SimpleSyncronizer) (h : Holdings) (now : Z)
    (k k' : SyncableKey) (p p' : PublicSignKey) (v v' : list PublicSignKey)
    (hash_inj : forall a b : PublicSignKey, hashcode a = hashcode b -> key_bytes a = key_bytes b) :
  rtc sync_step new_SimpleSyncronizer s -> closed s = false ->
  checkHasCoordinateOrHash h k = false -> Map_get (syncInFlightQueue s) k = Some (p :: v) ->
  checkHasCoordinateOrHash h k' = false -> Map_get (syncInFlightQueue s) k' = Some (p' :: v') ->
  exists m, (requestSyncLoop s h now).2 = [m] /\ k ∈ send_keys m /\ k' ∈ send_keys m /\
    hashcode p ∈ send_to m /\ hashcode p' ∈ send_to m.
Proof.
  intros Hr%(sync_reachable_ok hash_inj) Hc Hk Hg Hk' Hg'.
  destruct (round_asks s h now k p v k' p' v' Hr Hc Hk Hg Hk' Hg') as (m & Hm & H1 & H2).
  destruct (round_asks s h now k' p' v' k p v Hr Hc Hk' Hg' Hk Hg) as (m' & Hm' & H1' & H2').
  pose proof (requestSyncLoop_spec s h now Hr Hc) as Hs. cbv zeta in Hs.
  destruct (requestSyncLoop s h now) as [s' sends]. destruct Hs as (_ & _ & _ & _ & ->). cbn [snd] in *.
  destruct (map fst _) as [|k0 l]; [by apply not_elem_of_nil in Hm|].
  apply list_elem_of_singleton in Hm as ->. apply list_elem_of_singleton in Hm' as ->. eexists. by split_and!.
Qed.

(** When a peer disconnects no key is left queued for it, and neither its
    set of keys nor its open requests are kept. *)
Theorem disconnected_forgotten `{Hashing} (s : SimpleSyncronizer) (pk : PublicSignKey)
    (hash_inj : forall a b : PublicSignKey, hashcode a = hashcode b -> key_bytes a = key_bytes b) :
  rtc sync_step new_SimpleSyncronizer s ->
  let s' := onPeerDisconnected s pk in
  (forall k v p, Map_get (syncInFlightQueue s') k = Some v -> p ∈ v -> hashcode p <> hashcode pk) /\
  Map_get (syncInFlightQueueInverted s') (hashcode pk) = None /\
  Map_get (syncInFlight s') (hashcode pk) = None.
Proof.
  intros Hr%(sync_reachable_ok hash_inj).
  assert (Hi : Map_get (syncInFlightQueueInverted (onPeerDisconnected s pk)) (hashcode pk) = None).
  { unfold onPeerDisconnected, clearSyncProcessPublicKey. cbn [set_inFlight syncInFlightQueueInverted].
    destruct (Map_get (syncInFlightQueueInverted s) (hashcode pk)) eqn:E; [|done].
    cbn [set_inverted syncInFlightQueueInverted]. by rewrite Map_get_delete, decide_True. }
  destruct (sync_disconnected_ok hash_inj s pk Hr) as [Ht _]. split; [|split].
  - intros k v p Hk Hp E. destruct (queue_inverted _ _ Ht k v p Hk Hp) as (set & Hs & _). by rewrite E, Hi in Hs.
  - done.
  - unfold onPeerDisconnected, clearSyncProcessPublicKey. cbn [set_inFlight syncInFlightQueueInverted].
    destruct (Map_get (syncInFlightQueueInverted s) (hashcode pk)); cbn [set_inverted set_queue syncInFlight set_inFlight];
      by rewrite Map_get_delete, decide_True.
Qed.
