(* ===== verification/TrustGraph.v ===== *)
(** * Trust graphs and access control (packages/programs/acl)

    identity-graph.ts and controller.ts of trusted-network, acl-db.ts, access.ts
    and condition.ts of identity-access-controller: relations between keys kept
    in a document store, the walk along them, and the decisions made with it.

    The store is the list of its relations in search order.  A search returns
    documents: the generator remembers the objects of their ids in a [Set],
    which compares by identity, so a store also says which object the n-th
    search of a walk hands out for a relation ([gs_resolved]). *)

From Stdlib Require Import ZArith Lia.
From stdpp Require Import base list strings sets relations.
From S2P Require Import Prelude JsMap JsVal Query IndexInterface SimpleIndex Integers Ranges.

Local Open Scope Z_scope.

(** Keys are compared by their bytes ([equals]); [serialize] of a key and
    [sha256Sync] come from packages outside the repository. *)
Class Identities `{Hashing} := {
  equals :: EqDecision PublicSignKey;
  serialize_key : PublicSignKey -> list Z;
  sha256Sync : list Z -> list Z;
}.

(** What is documented of the hashes: different inputs, different hashes. *)
Class IdentityLaws `{Identities} : Prop := {
  hashcode_inj k k' : hashcode k = hashcode k' -> k = k';
  relation_id_inj a b c d : sha256Sync (serialize_key a ++ serialize_key b) = sha256Sync (serialize_key c ++ serialize_key d) -> a = c /\ b = d;
}.

Section Graph.
Context `{Identities}.

(** ** Relations and their store *)

Record IdentityRelation := MkRelation { rel_id : list Z; rel_from : PublicSignKey; rel_to : PublicSignKey }.

#[export] Instance IdentityRelation_eq_dec : EqDecision IdentityRelation.
Proof. solve_decision. Defined.

Definition relation_id (to from : PublicSignKey) : list Z := sha256Sync (serialize_key to ++ serialize_key from).
Definition new_IdentityRelation (to from : PublicSignKey) : IdentityRelation := MkRelation (relation_id to from) from to.

(** The indexed form of a relation. *)
Record FromTo := MkFromTo { ft_id : list Z; ft_from : string; ft_to : string }.
Definition new_FromTo (r : IdentityRelation) : FromTo := MkFromTo (rel_id r) (hashcode (rel_from r)) (hashcode (rel_to r)).

Record GraphStore := MkStore {
  gs_relations : list IdentityRelation;
  gs_resolved : nat -> IdentityRelation -> positive;
}.

(** [index.search] with one [StringMatch] on a field: the objects of the ids
    and the relations. *)
Definition search (db : GraphStore) (n : nat) (key : FromTo -> string) (value : string) : list (positive * IdentityRelation) :=
  map (fun r => (gs_resolved db n r, r)) (List.filter (fun r => bool_decide (key (new_FromTo r) = value)) (gs_relations db)).

Inductive RelationResolver := getFromByTo | getToByFrom.

Definition resolve (resolver : RelationResolver) (db : GraphStore) (n : nat) (key : PublicSignKey) : list (positive * IdentityRelation) :=
  match resolver with
  | getFromByTo => search db n ft_to (hashcode key)
  | getToByFrom => search db n ft_from (hashcode key)
  end.

Definition next_ (resolver : RelationResolver) (r : IdentityRelation) : PublicSignKey :=
  match resolver with getFromByTo => rel_from r | getToByFrom => rel_to r end.

(** ** The walk *)

Record Gen := MkGen {
  gen_visited : list positive;             (* the objects in the [Set] *)
  gen_searches : nat;
  gen_newIter : list PublicSignKey;
  gen_out : list IdentityRelation;    (* what has been yielded *)
  gen_returned : bool;
}.

Definition gen_result (resolver : RelationResolver) (g : Gen) (result : positive * IdentityRelation) : Gen :=
  if gen_returned g then g else
  if Set_has (gen_visited g) result.1 then MkGen (gen_visited g) (gen_searches g) (gen_newIter g) (gen_out g) true
  else MkGen (Set_add (gen_visited g) result.1) (gen_searches g) (gen_newIter g ++ [next_ resolver result.2])
         (gen_out g ++ [result.2]) false.

Definition gen_value (resolver : RelationResolver) (db : GraphStore) (g : Gen) (value : PublicSignKey) : Gen :=
  if gen_returned g then g else
  fold_left (gen_result resolver) (resolve resolver db (gen_searches g) value)
    (MkGen (gen_visited g) (S (gen_searches g)) (gen_newIter g) (gen_out g) false).

(** What is yielded within [fuel] levels, and whether the generator has ended. *)
Fixpoint gen_loop (fuel : nat) (resolver : RelationResolver) (db : GraphStore) (iter : list PublicSignKey) (g : Gen)
    : list IdentityRelation * bool :=
  match iter with
  | [] => (gen_out g, true)
  | _ =>
      match fuel with
      | O => (gen_out g, false)
      | S fuel =>
          let g := fold_left (gen_value resolver db) iter (MkGen (gen_visited g) (gen_searches g) [] (gen_out g) false) in
          if gen_returned g then (gen_out g, true) else gen_loop fuel resolver db (gen_newIter g) g
      end
  end.

Definition getPathGenerator (fuel : nat) (from : PublicSignKey) (db : GraphStore) (resolver : RelationResolver)
    : list IdentityRelation * bool :=
  gen_loop fuel resolver db [from] (MkGen [] 0 [] [] false).

(** A [for await] over the generator that returns [true] at the first relation
    that passes an awaited test. *)
Fixpoint any_yielded (test : IdentityRelation -> outcome bool) (yielded : list IdentityRelation) (ended : bool) : outcome bool :=
  match yielded with
  | [] => if ended then Val false else NoFuel
  | r :: yielded => b ← test r; if b : bool then Val true else any_yielded test yielded ended
  end.

Definition hasPathToTarget (fuel : nat) (start : PublicSignKey) (target : PublicSignKey -> bool) (db : GraphStore)
    (resolver : RelationResolver) : outcome bool :=
  if target start then Val true
  else let '(yielded, ended) := getPathGenerator fuel start db resolver in
       any_yielded (fun r => Val (target (rel_from r))) yielded ended.

Definition hasPath (fuel : nat) (start end_ : PublicSignKey) (db : GraphStore) (resolver : RelationResolver) : outcome bool :=
  hasPathToTarget fuel start (fun key => bool_decide (end_ = key)) db resolver.

(** [db.index.get(id)]. *)
Definition getRelation (from to : PublicSignKey) (db : GraphStore) : option IdentityRelation :=
  List.find (fun r => bool_decide (rel_id r = relation_id to from)) (gs_relations db).

(** ** Who may change the relations *)

(** The operations on a store that [canPerform] is asked about. *)
Inductive Performed := PutRelation (r : IdentityRelation) | PutOther | Delete (id : list Z).

Definition checkKey (operation : Performed) (isTrusted : option (PublicSignKey -> outcome bool)) (key : PublicSignKey) : outcome bool :=
  let rejected := match operation with PutRelation r => negb (bool_decide (rel_from r = key)) | _ => false end in
  if rejected then Val false
  else match isTrusted with Some isTrusted => isTrusted key | None => Val true end.

Fixpoint any_key (test : PublicSignKey -> outcome bool) (keys : list PublicSignKey) : outcome bool :=
  match keys with
  | [] => Val false
  | key :: keys => b ← test key; if b : bool then Val true else any_key test keys
  end.

(** [keys]: the keys that signed the entry. *)
Definition canPerformByRelation (operation : Performed) (keys : list PublicSignKey)
    (isTrusted : option (PublicSignKey -> outcome bool)) : outcome bool :=
  any_key (checkKey operation isTrusted) keys.

(** A document replaces the one with its id. *)
Definition store_document (db : GraphStore) (operation : Performed) : GraphStore :=
  match operation with
  | PutRelation r =>
      if existsb (fun r' => bool_decide (rel_id r' = rel_id r)) (gs_relations db)
      then MkStore (map (fun r' => if bool_decide (rel_id r' = rel_id r) then r else r') (gs_relations db)) (gs_resolved db)
      else MkStore (gs_relations db ++ [r]) (gs_resolved db)
  | PutOther => db
  | Delete id => MkStore (List.filter (fun r' => negb (bool_decide (rel_id r' = id))) (gs_relations db)) (gs_resolved db)
  end.

(** [IdentityGraph]: anyone may add relations that start at the own key. *)
Definition identityGraph_canPerform (operation : Performed) (keys : list PublicSignKey) : outcome bool :=
  canPerformByRelation operation keys None.

Definition perform (allowed : outcome bool) (db : GraphStore) (operation : Performed) : outcome GraphStore :=
  b ← allowed; if b : bool then Val (store_document db operation) else Exn "AccessError".

Definition addRelation (db : GraphStore) (self to : PublicSignKey) : outcome GraphStore :=
  let relation := new_IdentityRelation to self in
  perform (identityGraph_canPerform (PutRelation relation) [self]) db (PutRelation relation).

(** ** The trusted network *)

Record TrustedNetwork := MkNetwork { tn_rootTrust : PublicSignKey; tn_trustGraph : GraphStore }.

Definition _isTrustedLocal (fuel : nat) (tn : TrustedNetwork) (trustee truster : PublicSignKey) : outcome bool :=
  hasPath fuel trustee truster (tn_trustGraph tn) getFromByTo.

(** A node that does not replicate the graph first asks the others for it,
    without waiting, and decides with what it has as well. *)
Definition isTrusted (fuel : nat) (tn : TrustedNetwork) (trustee : PublicSignKey) (truster : option PublicSignKey) : outcome bool :=
  if bool_decide (trustee = tn_rootTrust tn) then Val true
  else _isTrustedLocal fuel tn trustee (default (tn_rootTrust tn) truster).

Definition tn_canPerform (fuel : nat) (tn : TrustedNetwork) (operation : Performed) (keys : list PublicSignKey) : outcome bool :=
  canPerformByRelation operation keys (Some (fun key => isTrusted fuel tn key None)).

Definition tn_perform (fuel : nat) (tn : TrustedNetwork) (operation : Performed) (keys : list PublicSignKey) : outcome TrustedNetwork :=
  db ← perform (tn_canPerform fuel tn operation keys) (tn_trustGraph tn) operation; Val (MkNetwork (tn_rootTrust tn) db).

Definition tn_getRelation (tn : TrustedNetwork) (trustee : PublicSignKey) (truster : option PublicSignKey) : option IdentityRelation :=
  getRelation (default (tn_rootTrust tn) truster) trustee (tn_trustGraph tn).

Definition hasRelation (tn : TrustedNetwork) (trustee : PublicSignKey) (truster : option PublicSignKey) : bool :=
  bool_decide (is_Some (tn_getRelation tn trustee truster)).

(** [self] is the identity of the node. *)
Definition add (fuel : nat) (tn : TrustedNetwork) (self trustee : PublicSignKey) : outcome (IdentityRelation * TrustedNetwork) :=
  match tn_getRelation tn trustee (Some self) with
  | Some existing => Val (existing, tn)
  | None =>
      let relation := new_IdentityRelation trustee self in
      tn ← tn_perform fuel tn (PutRelation relation) [self]; Val (relation, tn)
  end.

Definition getTrusted (fuel : nat) (tn : TrustedNetwork) : outcome (list PublicSignKey) :=
  let '(yielded, ended) := getPathGenerator fuel (tn_rootTrust tn) (tn_trustGraph tn) getToByFrom in
  if ended then Val (tn_rootTrust tn :: map rel_to yielded) else NoFuel.

(** ** The access controller *)

Inductive AccessType := AccessAny | AccessRead | AccessWrite.
#[export] Instance AccessType_eq_dec : EqDecision AccessType.
Proof. solve_decision. Defined.

Inductive AccessCondition := AbstractCondition | AnyAccessCondition | PublicKeyAccessCondition (key : PublicSignKey).

Definition allowed (c : AccessCondition) (key : PublicSignKey) : outcome bool :=
  match c with
  | AbstractCondition => Exn "Not implemented"
  | AnyAccessCondition => Val true
  | PublicKeyAccessCondition k => Val (bool_decide (k = key))
  end.

Record Access := MkAccess { accessTypes : list AccessType; accessCondition : AccessCondition }.

Record AccessController := MkController {
  ac_access : list Access;
  ac_identityGraph : GraphStore;
  ac_trustedNetwork : TrustedNetwork;
}.

(** The test of a query and, again, of the loop over its results. *)
Definition grants (wanted : AccessType) (a : Access) : bool :=
  existsb (fun t => bool_decide (t = AccessAny) || bool_decide (t = wanted)) (accessTypes a).

Fixpoint any_allowed (wanted : AccessType) (accesses : list Access) (key : PublicSignKey) : outcome bool :=
  match accesses with
  | [] => Val false
  | a :: accesses =>
      if grants wanted a then b ← allowed (accessCondition a) key; if b : bool then Val true else any_allowed wanted accesses key
      else any_allowed wanted accesses key
  end.

(** [canReadCheck] and [canPerformCheck]. *)
Definition accessCheck (wanted : AccessType) (ac : AccessController) (key : PublicSignKey) : outcome bool :=
  any_allowed wanted (List.filter (grants wanted) (ac_access ac)) key.

(** The part [canRead] and [canPerform] share: the trust web, the conditions,
    and the conditions for the keys that vouch for this one. *)
Definition has_access (fuel : nat) (wanted : AccessType) (ac : AccessController) (key : PublicSignKey) : outcome bool :=
  trusted ← isTrusted fuel (ac_trustedNetwork ac) key None;
  if trusted : bool then Val true else
  direct ← accessCheck wanted ac key;
  if direct : bool then Val true else
  let '(yielded, ended) := getPathGenerator fuel key (ac_identityGraph ac) getFromByTo in
  any_yielded (fun r => accessCheck wanted ac (rel_from r)) yielded ended.

Definition canRead (fuel : nat) (ac : AccessController) (s : option PublicSignKey) : outcome bool :=
  match s with None => Val false | Some s => has_access fuel AccessRead ac s end.

Definition canPerform (fuel : nat) (ac : AccessController) (keys : list PublicSignKey) : outcome bool :=
  any_key (has_access fuel AccessWrite ac) keys.

End Graph.

(** * The walk along relations and the trust it finds

    Whatever objects the store hands out, the walk yields only relations that
    lead to the key it starts at.  When a relation always comes as one object
    the walk ends, and it yields all of them when the keys that lead to the
    start form a tree; a key that is met on two paths ends it early, and with
    fresh objects a cycle never ends. *)

Section Facts.
Context `{IdentityLaws}.
Implicit Types (r : IdentityRelation) (k : PublicSignKey) (db : GraphStore).

(** ** The relations of a key *)

Definition key_of (resolver : RelationResolver) r : PublicSignKey :=
  match resolver with getFromByTo => rel_to r | getToByFrom => rel_from r end.

Definition found resolver db k : list IdentityRelation :=
  List.filter (fun r => bool_decide (key_of resolver r = k)) (gs_relations db).

Lemma found_elem resolver db k r : r ∈ found resolver db k <-> r ∈ gs_relations db /\ key_of resolver r = k.
Proof. unfold found. by rewrite list_elem_of_In, filter_In, <- list_elem_of_In, bool_decide_eq_true. Qed.

Lemma resolve_found resolver db n k : resolve resolver db n k = map (fun r => (gs_resolved db n r, r)) (found resolver db k).
Proof.
  unfold resolve, search, found. destruct resolver; f_equal; apply List.filter_ext; intros r; apply bool_decide_ext;
    (split; [apply hashcode_inj|by intros <-]).
Qed.

(** ** One level of the walk *)

Section Level.
Context (resolver : RelationResolver) (db : GraphStore).
Abbreviation fnd := (found resolver db).
Abbreviation nxt := (next_ resolver).

(** A prefix of the results is yielded, all of them unless the walk returns. *)
Record grown (rs : list IdentityRelation) (g g' : Gen) : Prop := {
  gw_out : exists new, gen_out g' = gen_out g ++ new /\ gen_newIter g' = gen_newIter g ++ map nxt new /\ new ⊆ rs /\
             (gen_returned g' = false -> new = rs);
}.

Lemma grown_refl g : grown [] g g.
Proof. split. exists []. by rewrite !app_nil_r. Qed.

Lemma returned_stays rs g : gen_returned g = true -> fold_left (gen_result resolver) rs g = g.
Proof. intros Hg. induction rs as [|r rs IH]; [done|]. simpl. unfold gen_result at 2. by rewrite Hg. Qed.

Lemma results_grown n rs g :
  gen_returned g = false -> grown rs g (fold_left (gen_result resolver) (map (fun r => (gs_resolved db n r, r)) rs) g).
Proof.
  revert g. induction rs as [|r rs IH]; intros g Hg; [apply grown_refl|]. cbn [map fold_left].
  unfold gen_result at 2. rewrite Hg. cbn [fst snd]. destruct (Set_has _ _).
  - rewrite returned_stays by done. split. exists []. rewrite !app_nil_r. split_and!; [done|done|set_solver|done].
  - set (g1 := MkGen _ _ _ _ _). destruct (IH g1 eq_refl) as [(new & Eo & Ei & Hsub & Hall)]. split. exists (r :: new).
    rewrite Eo, Ei. cbn [g1 gen_out gen_newIter]. rewrite <- !app_assoc. split_and!; [done|done|set_solver|intros E; by rewrite (Hall E)].
Qed.

Lemma values_stay ks g : gen_returned g = true -> fold_left (gen_value resolver db) ks g = g.
Proof. intros Hg. induction ks as [|k ks IH]; [done|]. simpl. unfold gen_value at 2. by rewrite Hg. Qed.

Lemma value_grown k g : gen_returned g = false -> grown (fnd k) g (gen_value resolver db g k).
Proof.
  intros Hg. unfold gen_value. rewrite Hg, resolve_found.
  destruct (results_grown (gen_searches g) (fnd k) (MkGen (gen_visited g) (S (gen_searches g)) (gen_newIter g) (gen_out g) false) eq_refl)
    as [Hn]. by split.
Qed.

Lemma values_grown ks g : gen_returned g = false -> grown (flat_map fnd ks) g (fold_left (gen_value resolver db) ks g).
Proof.
  revert g. induction ks as [|k ks IH]; intros g Hg; [apply grown_refl|]. cbn [flat_map fold_left].
  destruct (value_grown k g Hg) as [(new & Eo & Ei & Hsub & Hall)]. set (g1 := gen_value resolver db g k) in *.
  destruct (gen_returned g1) eqn:E1.
  - rewrite values_stay by done. split. exists new. split_and!; [done|done|set_solver|congruence].
  - destruct (IH g1 E1) as [(new2 & Eo2 & Ei2 & Hsub2 & Hall2)]. split. exists (new ++ new2).
    rewrite Eo2, Ei2, Eo, Ei, map_app, <- !app_assoc. split_and!; [done|done|set_solver|]. intros E. by rewrite (Hall eq_refl), (Hall2 E).
Qed.

(** ** What a walk can reach *)

Context (start : PublicSignKey).

Inductive reached : IdentityRelation -> Prop :=
| reach_start r : r ∈ fnd start -> reached r
| reach_next r r' : reached r -> r' ∈ fnd (nxt r) -> reached r'.

Definition reached_key k : Prop := k = start \/ exists r, reached r /\ k = nxt r.

Lemma reached_found k r : reached_key k -> r ∈ fnd k -> reached r.
Proof. intros [->|(r' & Hr & ->)] Hk; [by apply reach_start|by apply (reach_next r')]. Qed.

Lemma reached_level ks r : (forall k, k ∈ ks -> reached_key k) -> r ∈ flat_map fnd ks -> reached r.
Proof.
  intros Hks Hr. apply list_elem_of_In, in_flat_map in Hr as (k & Hk & Hr). apply (reached_found k); [|by apply list_elem_of_In].
  by apply Hks, list_elem_of_In.
Qed.

Lemma loop_sound fuel iter g :
  (forall k, k ∈ iter -> reached_key k) -> (forall r, r ∈ gen_out g -> reached r) ->
  forall r, r ∈ (gen_loop fuel resolver db iter g).1 -> reached r.
Proof.
  revert iter g. induction fuel as [|fuel IH]; intros iter g Hit Hout.
  - destruct iter; exact Hout.
  - destruct iter as [|k0 ks]; [exact Hout|]. remember (k0 :: ks) as iter eqn:Hiter. cbn [gen_loop]. rewrite Hiter. rewrite <- Hiter.
    destruct (values_grown iter (MkGen (gen_visited g) (gen_searches g) [] (gen_out g) false) eq_refl) as [(new & Eo & Ei & Hsub & _)].
    cbn [gen_out gen_newIter] in Eo, Ei. set (g' := fold_left _ iter _) in *.
    assert (Hnew : forall r, r ∈ new -> reached r) by (intros r Hr; apply (reached_level iter); [done|by apply Hsub]).
    assert (Hout' : forall r, r ∈ gen_out g' -> reached r) by (intros r; rewrite Eo, elem_of_app; intros [?|?]; auto).
    destruct (gen_returned g'); [exact Hout'|]. apply IH; [|exact Hout']. intros k. rewrite Ei. cbn [app].
    intros (r & -> & Hr)%list_elem_of_fmap. right. exists r. auto.
Qed.

(** Whatever the objects, only relations that lead on from the start. *)
Lemma generator_sound fuel r : r ∈ (getPathGenerator fuel start db resolver).1 -> reached r.
Proof.
  apply loop_sound; [|by intros ? ?%not_elem_of_nil]. intros k ->%list_elem_of_singleton. by left.
Qed.

(** ** One object per relation *)

Definition shared : Prop := forall n m r r', gs_resolved db n r = gs_resolved db m r' <-> r = r'.

(** Every object yielded is remembered, and no relation is yielded twice. *)
Record tidy (g : Gen) : Prop := {
  td_visited : gen_visited g = map (gs_resolved db 0) (gen_out g);
  td_once : NoDup (gen_out g);
}.

Lemma visited_shared n g r : shared -> tidy g -> Set_has (gen_visited g) (gs_resolved db n r) = bool_decide (r ∈ gen_out g).
Proof.
  intros Hsh [-> _]. apply Bool.eq_iff_eq_true. rewrite Set_has_spec, bool_decide_eq_true, list_elem_of_fmap. split.
  - intros (r' & E%Hsh & Hr'). by subst.
  - intros Hr. exists r. split; [by apply Hsh|done].
Qed.

Lemma results_tidy n rs g :
  shared -> tidy g -> gen_returned g = false ->
  let g' := fold_left (gen_result resolver) (map (fun r => (gs_resolved db n r, r)) rs) g in
  tidy g' /\ (NoDup (gen_out g ++ rs) -> gen_returned g' = false).
Proof.
  intros Hsh. revert g. induction rs as [|r rs IH]; intros g Hg Hr; [done|]. cbn [map fold_left].
  unfold gen_result at 2 4. rewrite Hr. cbn [fst snd]. rewrite visited_shared by done. case_bool_decide as Hin.
  - rewrite returned_stays by done. split; [by destruct Hg; split|]. intros Hnd. exfalso.
    apply NoDup_app in Hnd as (_ & Hd & _). by apply (Hd r Hin); left.
  - set (g1 := MkGen _ _ _ _ _). assert (Hg1 : tidy g1).
    { destruct Hg as [Hv Ho]. split; cbn [g1 gen_visited gen_out].
      - unfold Set_add. rewrite visited_shared, bool_decide_false by done. rewrite Hv, map_app. do 2 f_equal. cbn. f_equal. by apply Hsh.
      - apply NoDup_app. split_and!; [done| |apply NoDup_singleton]. by intros x Hx ->%list_elem_of_singleton. }
    destruct (IH g1 Hg1 eq_refl) as [Ht Hn]. split; [done|]. intros Hnd. apply Hn. cbn [g1 gen_out]. by rewrite <- app_assoc.
Qed.

Lemma values_tidy ks g :
  shared -> tidy g -> gen_returned g = false ->
  let g' := fold_left (gen_value resolver db) ks g in
  tidy g' /\ (NoDup (gen_out g ++ flat_map fnd ks) -> gen_returned g' = false).
Proof.
  intros Hsh. revert g. induction ks as [|k ks IH]; intros g Hg Hr; [done|]. cbn [flat_map fold_left].
  assert (Hv : tidy (gen_value resolver db g k) /\ (NoDup (gen_out g ++ fnd k) -> gen_returned (gen_value resolver db g k) = false)).
  { unfold gen_value. rewrite Hr, resolve_found.
    apply (results_tidy (gen_searches g) (fnd k) (MkGen (gen_visited g) (S (gen_searches g)) (gen_newIter g) (gen_out g) false)); [done| |done].
    by destruct Hg; split. }
  destruct Hv as [Hg1 Hn1]. destruct (value_grown k g Hr) as [(new & Eo & _ & _ & Hall)].
  destruct (gen_returned (gen_value resolver db g k)) eqn:E1.
  - rewrite values_stay by done. split; [done|]. intros Hnd. exfalso. rewrite app_assoc in Hnd.
    apply NoDup_app in Hnd as (Hnd & _). by apply Hn1 in Hnd.
  - destruct (IH _ Hg1 E1) as [Ht Hn]. split; [done|]. intros Hnd. apply Hn. rewrite Eo, (Hall eq_refl). by rewrite <- app_assoc.
Qed.

Lemma level_shared ks g :
  shared -> tidy g -> gen_returned g = false ->
  let g' := fold_left (gen_value resolver db) ks g in
  tidy g' /\ (NoDup (gen_out g ++ flat_map fnd ks) <-> gen_returned g' = false) /\ grown (flat_map fnd ks) g g'.
Proof.
  intros Hsh Hg Hr g'. destruct (values_tidy ks g Hsh Hg Hr) as [Hg' Hn]. pose proof (values_grown ks g Hr) as Hgr.
  split; [done|]. split; [|done]. split; [done|]. intros Hr'.
  destruct Hgr as [(new & Eo & _ & _ & Hall)]. rewrite <- (Hall Hr'), <- Eo. apply Hg'.
Qed.

Lemma tidy_reset g : tidy g -> tidy (MkGen (gen_visited g) (gen_searches g) [] (gen_out g) false).
Proof. by intros []. Qed.

(** Each level yields a relation that has not been yielded yet. *)
Lemma loop_ends fuel iter g :
  shared -> tidy g -> (forall r, r ∈ gen_out g -> r ∈ gs_relations db) -> (length (gs_relations db) < length (gen_out g) + fuel)%nat ->
  (gen_loop fuel resolver db iter g).2 = true.
Proof.
  intros Hsh. revert iter g. induction fuel as [|fuel IH]; intros iter g Hg Hsub Hlen.
  - exfalso. assert (length (gen_out g) <= length (gs_relations db))%nat; [|lia].
    apply List.NoDup_incl_length; [by apply NoDup_ListNoDup, Hg|]. intros r Hr. by apply list_elem_of_In, Hsub, list_elem_of_In.
  - destruct iter as [|k0 ks]; [done|]. remember (k0 :: ks) as iter eqn:Hiter. cbn [gen_loop]. rewrite Hiter. rewrite <- Hiter.
    destruct (values_tidy iter _ Hsh (tidy_reset g Hg) eq_refl) as [Ht _].
    destruct (values_grown iter (MkGen (gen_visited g) (gen_searches g) [] (gen_out g) false) eq_refl) as [(new & Eo & Ei & Hnew & _)].
    cbn [gen_out gen_newIter] in Eo, Ei. set (g' := fold_left _ iter _) in *.
    destruct (gen_returned g'); [done|]. destruct new as [|r new].
    + rewrite Ei. by destruct fuel.
    + apply IH; [done| |rewrite Eo, length_app; cbn; lia]. intros r'. rewrite Eo, elem_of_app. intros [?|Hr]; [auto|].
      apply Hnew, list_elem_of_In, in_flat_map in Hr as (k & _ & Hk). by apply list_elem_of_In, found_elem in Hk as [? _].
Qed.

(** ** All the relations, on a tree *)

(** The keys that are reached are all different. *)
Definition tree : Prop :=
  (forall r r', reached r -> reached r' -> nxt r = nxt r' -> r = r') /\ forall r, reached r -> nxt r <> start.

Lemma found_NoDup ks : NoDup (gs_relations db) -> NoDup ks -> NoDup (flat_map fnd ks).
Proof.
  intros Hdb. induction ks as [|k ks IH]; intros Hks; [constructor|]. apply NoDup_cons in Hks as [Hk Hks]. cbn [flat_map].
  apply NoDup_app. split_and!; [by apply NoDup_List_filter| |by apply IH].
  intros r [_ Hr]%found_elem Hr'. apply list_elem_of_In, in_flat_map in Hr' as (k' & Hk' & Hr').
  apply list_elem_of_In, found_elem in Hr' as [_ Hr']. apply Hk. rewrite <- Hr, Hr'. by apply list_elem_of_In.
Qed.

Lemma keys_NoDup (out : list IdentityRelation) : tree -> NoDup out -> (forall r, r ∈ out -> reached r) -> NoDup (start :: map nxt out).
Proof.
  intros [Hinj Hst] Hnd Hout. constructor.
  - intros (r & E & Hr)%list_elem_of_fmap. by apply (Hst r); [apply Hout|].
  - induction out as [|r out IH]; [constructor|]. apply NoDup_cons in Hnd as [Hr Hnd]. cbn [map]. constructor.
    + intros (r' & E & Hr')%list_elem_of_fmap. apply Hr. rewrite (Hinj r r'); [done| | |done]; apply Hout; [left|by right].
    + apply IH; [done|]. intros r' Hr'. apply Hout. by right.
Qed.

Lemma loop_complete fuel iter g processed :
  shared -> NoDup (gs_relations db) -> tree -> tidy g ->
  gen_out g = flat_map fnd processed -> processed ++ iter = start :: map nxt (gen_out g) -> (forall r, r ∈ gen_out g -> reached r) ->
  (gen_loop fuel resolver db iter g).2 = true ->
  forall r, reached r -> r ∈ (gen_loop fuel resolver db iter g).1.
Proof.
  intros Hsh Hdb Htree. revert iter g processed. induction fuel as [|fuel IH]; intros iter g processed Hg Ho Hp Hout.
  all: destruct iter as [|k0 ks].
  1,3: (rewrite app_nil_r in Hp; cbn [gen_loop fst snd]; intros _ r Hr;
    assert (Hk : forall k, reached_key k -> (k = start \/ exists r', r' ∈ gen_out g /\ k = nxt r') -> fnd k ⊆ gen_out g) by
      (intros k _ Hk r' Hr'; rewrite Ho; apply list_elem_of_In, in_flat_map; exists k; split; [|by apply list_elem_of_In];
       apply list_elem_of_In; rewrite Hp; destruct Hk as [->|(r2 & Hr2 & ->)]; [left|right; apply list_elem_of_fmap; by exists r2]);
    induction Hr as [r Hr|r r' Hr IHr Hr']; [apply (Hk start); [by left|by left|done]|apply (Hk (nxt r)); [right; by exists r|right; by exists r|done]]).
  - done.
  - remember (k0 :: ks) as iter eqn:Hiter. cbn [gen_loop]. rewrite Hiter. rewrite <- Hiter.
    destruct (values_tidy iter _ Hsh (tidy_reset g Hg) eq_refl) as [Ht Hret].
    destruct (values_grown iter (MkGen (gen_visited g) (gen_searches g) [] (gen_out g) false) eq_refl) as [(new & Eo & Ei & Hnew & Hall)].
    cbn [gen_out gen_newIter] in Eo, Ei, Hret. set (g' := fold_left _ iter _) in *.
    assert (Hnd : NoDup (gen_out g ++ flat_map fnd iter)).
    { rewrite Ho, <- flat_map_app. apply found_NoDup; [done|]. rewrite Hp. apply keys_NoDup; [done|apply Hg|done]. }
    rewrite (Hret Hnd) in Hall |- *. rewrite (Hall eq_refl) in *. rewrite Ei. cbn [app].
    apply (IH _ _ (processed ++ iter)); [done| | |].
    + by rewrite Eo, Ho, flat_map_app.
    + rewrite Eo, map_app, Hp. done.
    + intros r. rewrite Eo, elem_of_app. intros [?|Hr]; [auto|]. apply (reached_level iter); [|done].
      intros k Hk. assert (Hk' : k ∈ processed ++ iter) by (apply elem_of_app; by right). rewrite Hp in Hk'.
      apply elem_of_cons in Hk' as [->|(r' & -> & Hr')%list_elem_of_fmap]; [by left|right; exists r'; auto].
Qed.

Lemma start_tidy : tidy (MkGen [] 0 [] [] false).
Proof. split; [done|constructor]. Qed.

Lemma generator_ends fuel : shared -> (length (gs_relations db) < fuel)%nat -> (getPathGenerator fuel start db resolver).2 = true.
Proof. intros Hsh Hf. apply loop_ends; [done|apply start_tidy|by intros ? ?%not_elem_of_nil|done]. Qed.

Lemma generator_complete fuel :
  shared -> NoDup (gs_relations db) -> tree -> (length (gs_relations db) < fuel)%nat ->
  exists out, getPathGenerator fuel start db resolver = (out, true) /\ forall r, r ∈ out <-> reached r.
Proof.
  intros Hsh Hdb Htree Hf. pose proof (generator_ends fuel Hsh Hf) as He. destruct (getPathGenerator fuel start db resolver) as [out e] eqn:E.
  cbn in He. subst e. exists out. split; [done|]. intros r. split.
  - intros Hr. apply (generator_sound fuel). by rewrite E.
  - intros Hr. change out with (out, true).1. rewrite <- E. unfold getPathGenerator.
    apply (loop_complete fuel [start] _ []); try done; [apply start_tidy|by intros ? ?%not_elem_of_nil|].
    unfold getPathGenerator in E. by rewrite E.
Qed.

(** ** Fresh objects and a cycle *)

Definition fresh_objects : Prop := forall n m r r', gs_resolved db n r = gs_resolved db m r' -> n = m /\ r = r'.

(** Keys that only lead on to keys of the same kind. *)
Definition trapped (S : PublicSignKey -> Prop) : Prop :=
  forall k, S k -> (exists r, r ∈ fnd k) /\ forall r, r ∈ fnd k -> S (nxt r).

Definition older (g : Gen) : Prop := forall o, o ∈ gen_visited g -> exists m r, (m < gen_searches g)%nat /\ o = gs_resolved db m r.

Lemma results_fresh n rs g :
  fresh_objects -> NoDup rs -> gen_returned g = false ->
  (forall o, o ∈ gen_visited g -> exists m r, o = gs_resolved db m r /\ (m <> n \/ r ∉ rs)) ->
  let g' := fold_left (gen_result resolver) (map (fun r => (gs_resolved db n r, r)) rs) g in
  gen_returned g' = false /\ gen_searches g' = gen_searches g /\
  forall o, o ∈ gen_visited g' -> o ∈ gen_visited g \/ exists r, o = gs_resolved db n r.
Proof.
  intros Hfr. revert g. induction rs as [|r rs IH]; intros g Hnd Hr Hv; [cbn; auto|]. cbn [map fold_left].
  apply NoDup_cons in Hnd as [Hrs Hnd]. unfold gen_result at 2 4 6. rewrite Hr. cbn [fst snd].
  assert (Hin : Set_has (gen_visited g) (gs_resolved db n r) = false).
  { apply not_true_iff_false. intros (m & r' & E & Hm)%Set_has_spec%Hv. apply Hfr in E as [-> ->]. destruct Hm as [?|Hm]; [done|]. apply Hm. left. }
  rewrite Hin. set (g1 := MkGen _ _ _ _ _). destruct (IH g1) as (E1 & E2 & E3); [done|done| |].
  - intros o. cbn [g1 gen_visited]. rewrite Set_add_elem. intros [->|Ho]; [exists n, r; auto|].
    destruct (Hv o Ho) as (m & r' & -> & Hm). exists m, r'. split; [done|]. destruct Hm; [by left|right; set_solver].
  - split_and!; [done|done|]. intros o Ho. destruct (E3 o Ho) as [Ho'|?]; [|by right]. cbn [g1 gen_visited] in Ho'.
    apply Set_add_elem in Ho' as [->|?]; [right; by exists r|by left].
Qed.

Lemma values_fresh ks g :
  fresh_objects -> NoDup (gs_relations db) -> gen_returned g = false -> older g ->
  gen_returned (fold_left (gen_value resolver db) ks g) = false /\ older (fold_left (gen_value resolver db) ks g).
Proof.
  intros Hfr Hdb. revert g. induction ks as [|k ks IH]; intros g Hr Hold; [done|]. cbn [fold_left].
  destruct (results_fresh (gen_searches g) (fnd k) (MkGen (gen_visited g) (S (gen_searches g)) (gen_newIter g) (gen_out g) false))
    as (E1 & E2 & E3); [done|by apply NoDup_List_filter|done| |].
  { intros o (m & r & Hm & ->)%Hold. exists m, r. split; [done|left; lia]. }
  assert (Hv : gen_value resolver db g k = fold_left (gen_result resolver) (resolve resolver db (gen_searches g) k)
     (MkGen (gen_visited g) (S (gen_searches g)) (gen_newIter g) (gen_out g) false)) by (unfold gen_value; by rewrite Hr).
  rewrite <- resolve_found in E1, E2, E3. rewrite <- Hv in E1, E2, E3. apply IH; [done|].
  intros o [Ho|(r & ->)]%E3; rewrite E2; cbn [gen_searches]; [|exists (gen_searches g), r; split; [lia|done]].
  destruct (Hold o Ho) as (m & r & Hm & ->). exists m, r. split; [lia|done].
Qed.

Lemma loop_never_ends (S : PublicSignKey -> Prop) fuel iter g :
  fresh_objects -> NoDup (gs_relations db) -> trapped S -> older g -> iter <> [] -> (forall k, k ∈ iter -> S k) ->
  (forall r, r ∈ gen_out g -> S (nxt r)) ->
  (gen_loop fuel resolver db iter g).2 = false /\ forall r, r ∈ (gen_loop fuel resolver db iter g).1 -> S (nxt r).
Proof.
  intros Hfr Hdb HS. revert iter g. induction fuel as [|fuel IH]; intros iter g Hold Hne Hit Hout.
  - by destruct iter.
  - destruct iter as [|k0 ks]; [done|]. remember (k0 :: ks) as iter eqn:Hiter. cbn [gen_loop]. rewrite Hiter. rewrite <- Hiter.
    destruct (values_fresh iter (MkGen (gen_visited g) (gen_searches g) [] (gen_out g) false) Hfr Hdb eq_refl Hold) as [Hret Hold'].
    destruct (values_grown iter (MkGen (gen_visited g) (gen_searches g) [] (gen_out g) false) eq_refl) as [(new & Eo & Ei & _ & Hall)].
    cbn [gen_out gen_newIter] in Eo, Ei. set (g' := fold_left _ iter _) in *. rewrite Hret in Hall |- *. rewrite (Hall eq_refl) in *.
    assert (Hnew : forall r, r ∈ flat_map fnd iter -> S (nxt r)).
    { intros r Hr. apply list_elem_of_In, in_flat_map in Hr as (k & Hk & Hr). apply (proj2 (HS k (Hit k (proj2 (list_elem_of_In _ _) Hk)))).
      by apply list_elem_of_In. }
    rewrite Ei. cbn [app]. apply IH; [done| | |].
    + destruct (HS k0) as [(r & Hr) _]; [apply Hit; rewrite Hiter; left|]. rewrite Hiter. cbn [flat_map].
      intros E. apply map_eq_nil, app_eq_nil in E as [E _]. rewrite E in Hr. by apply not_elem_of_nil in Hr.
    + intros k (r & -> & Hr)%list_elem_of_fmap. by apply Hnew.
    + intros r. rewrite Eo, elem_of_app. intros [?|?]; auto.
Qed.

Lemma generator_never_ends (S : PublicSignKey -> Prop) fuel :
  fresh_objects -> NoDup (gs_relations db) -> trapped S -> S start ->
  exists out, getPathGenerator fuel start db resolver = (out, false) /\ forall r, r ∈ out -> S (nxt r).
Proof.
  intros Hfr Hdb HS Hst. destruct (loop_never_ends S fuel [start] (MkGen [] 0 [] [] false)) as [He Hout]; try done.
  - by intros o ?%not_elem_of_nil.
  - by intros k ->%list_elem_of_singleton.
  - by intros r ?%not_elem_of_nil.
  - unfold getPathGenerator. destruct (gen_loop _ _ _ _ _) as [out e]. cbn in *. subst e. by exists out.
Qed.

End Level.

(** No key vouches twice: one path to every key. *)
Lemma tree_once db start :
  NoDup (map rel_from (gs_relations db)) -> start ∉ map rel_from (gs_relations db) -> tree getFromByTo db start.
Proof.
  assert (Hin : forall r, reached getFromByTo db start r -> r ∈ gs_relations db) by (by intros r [r' [? _]%found_elem|? r' _ [? _]%found_elem]).
  intros Hnd Hst. split.
  - intros r r' Hr%Hin Hr'%Hin E. revert Hnd Hr Hr'. clear -E. induction (gs_relations db) as [|x l IH]; [by intros _ ?%not_elem_of_nil|].
    cbn [map]. intros [Hx Hnd]%NoDup_cons Hr Hr'.
    assert (Hl : forall y, y ∈ l -> rel_from y ∈ map rel_from l) by (intros y Hy; apply list_elem_of_fmap; by exists y).
    apply elem_of_cons in Hr as [->|Hr], Hr' as [->|Hr']; [done| | |by apply IH].
    + exfalso. apply Hx. cbn in E. rewrite E. by apply Hl.
    + exfalso. apply Hx. cbn in E. rewrite <- E. by apply Hl.
  - intros r Hr E. apply Hst. apply list_elem_of_fmap. exists r. split; [done|auto].
Qed.

(** ** Chains of trust *)

Definition vouches db (a b : PublicSignKey) : Prop := exists r, r ∈ gs_relations db /\ rel_from r = a /\ rel_to r = b.

Lemma reached_chain db start r : reached getFromByTo db start r -> rtc (vouches db) (rel_from r) start.
Proof.
  induction 1 as [r [Hr <-]%found_elem|r r' _ IH [Hr Hk]%found_elem].
  - apply rtc_once. by exists r.
  - eapply rtc_l; [|exact IH]. exists r'. split_and!; [done|done|exact Hk].
Qed.

Lemma chain_reached db start a : rtc (vouches db) a start -> a = start \/ exists r, reached getFromByTo db start r /\ rel_from r = a.
Proof.
  induction 1 as [a|a b c (r & Hr & Ha & Hb) _ IH]; [by left|]. right. exists r. split; [|done].
  destruct IH as [->|(r' & Hr' & <-)].
  - apply reach_start. by apply found_elem.
  - apply (reach_next _ _ _ r'); [done|]. by apply found_elem.
Qed.

Lemma any_yielded_val (p : IdentityRelation -> bool) out e :
  any_yielded (fun r => Val (p r)) out e = if existsb p out then Val true else if e then Val false else NoFuel.
Proof. induction out as [|r out IH]; [done|]. cbn. by destruct (p r). Qed.

Lemma existsb_exists_elem {A} (p : A -> bool) l : existsb p l = true <-> exists x, x ∈ l /\ p x = true.
Proof. rewrite existsb_exists. split; intros (x & Hx & Hp); exists x; (split; [by apply list_elem_of_In|done]). Qed.

Lemma hasPath_sound fuel start end_ db : hasPath fuel start end_ db getFromByTo = Val true -> rtc (vouches db) end_ start.
Proof.
  unfold hasPath, hasPathToTarget. case_bool_decide as Hs; [by subst|].
  pose proof (generator_sound getFromByTo db start fuel) as Hg. destruct (getPathGenerator _ _ _ _) as [out e].
  rewrite any_yielded_val. destruct (existsb _ out) eqn:E; [|by destruct e]. intros _.
  apply existsb_exists_elem in E as (r & Hr & ->%bool_decide_eq_true). by apply reached_chain, Hg.
Qed.

Lemma hasPath_correct fuel start end_ db :
  shared db -> NoDup (gs_relations db) -> tree getFromByTo db start -> (length (gs_relations db) < fuel)%nat ->
  exists b, hasPath fuel start end_ db getFromByTo = Val b /\ (b = true <-> rtc (vouches db) end_ start).
Proof.
  intros Hsh Hnd Ht Hf. unfold hasPath, hasPathToTarget. case_bool_decide as Hs; [exists true; subst; done|].
  destruct (generator_complete getFromByTo db start fuel Hsh Hnd Ht Hf) as (out & -> & Hout). rewrite any_yielded_val.
  exists (existsb (fun r => bool_decide (end_ = rel_from r)) out). split; [by destruct (existsb _ _)|].
  rewrite existsb_exists_elem. split.
  - intros (r & Hr & ->%bool_decide_eq_true). by apply reached_chain, Hout.
  - intros [->|(r & Hr & <-)]%chain_reached; [done|]. exists r. split; [by apply Hout|by apply bool_decide_eq_true].
Qed.

Lemma isTrusted_sound fuel tn trustee :
  isTrusted fuel tn trustee None = Val true -> rtc (vouches (tn_trustGraph tn)) (tn_rootTrust tn) trustee.
Proof. unfold isTrusted. case_bool_decide as Hr; [by intros _; subst|]. apply hasPath_sound. Qed.

(** C39. When every key that leads to the trustee is met on one path only, the relations
    are different and the store hands out one object per relation, isTrusted
    returns, within one level per relation, whether a chain of relations leads from
    the truster to the trustee (the root is trusted by everyone, and a missing
    truster stands for the root). *)
Theorem isTrusted_correct fuel tn trustee truster :
  let db := tn_trustGraph tn in
  shared db -> NoDup (gs_relations db) -> tree getFromByTo db trustee -> (length (gs_relations db) < fuel)%nat ->
  exists b, isTrusted fuel tn trustee truster = Val b /\
    (b = true <-> trustee = tn_rootTrust tn \/ rtc (vouches db) (default (tn_rootTrust tn) truster) trustee).
Proof.
  intros db Hsh Hnd Ht Hf. unfold isTrusted. case_bool_decide as Hr; [exists true; split; [done|]; tauto|].
  destruct (hasPath_correct fuel trustee (default (tn_rootTrust tn) truster) db Hsh Hnd Ht Hf) as (b & E & Hb).
  exists b. split; [exact E|]. tauto.
Qed.

(** A key that vouches for two of the trustee's trusters ends the walk when it
    is met the second time: the chain that leads on from it to the root is not
    looked at and a trusted key is reported as not trusted. *)
Theorem isTrusted_diamond_lost fuel tn t ra rb ca cb :
  let db := tn_trustGraph tn in let root := tn_rootTrust tn in
  shared db -> (3 <= fuel)%nat ->
  found getFromByTo db t = [ra; rb] -> found getFromByTo db (rel_from ra) = [ca] -> found getFromByTo db (rel_from rb) = [cb] ->
  rel_from cb = rel_from ca -> NoDup [ra; rb; ca; cb] ->
  (exists r, r ∈ found getFromByTo db (rel_from ca)) ->
  (forall r, r ∈ found getFromByTo db (rel_from ca) -> rel_from r <> root) ->
  root ∉ [t; rel_from ra; rel_from rb; rel_from ca] ->
  rtc (vouches db) root t -> isTrusted fuel tn t None = Val false.
Proof.
  intros db root Hsh Hf Ht Ha Hb Hc Hnd (rc & Hrc) Hcr Hroot _. unfold isTrusted. rewrite bool_decide_false by set_solver.
  unfold _isTrustedLocal, hasPath, hasPathToTarget. cbn [default]. rewrite bool_decide_false by set_solver.
  assert (exists out, getPathGenerator fuel t db getFromByTo = (out, true) /\
    forall r, r ∈ out -> r ∈ [ra; rb; ca; cb] \/ r ∈ found getFromByTo db (rel_from ca)) as (out & E & Hout).
  2: { fold db. rewrite E, any_yielded_val. destruct (existsb _ out) eqn:Ex; [|done]. exfalso.
    apply existsb_exists_elem in Ex as (r & Hr & Hroot'%bool_decide_eq_true). destruct (Hout r Hr) as [Hr'|Hr']; [|by apply (Hcr r)].
    apply Hroot. change root with (tn_rootTrust tn). rewrite Hroot'. clear -Hr' Hc.
    repeat (apply elem_of_cons in Hr' as [->|Hr']; [rewrite ?Hc, !elem_of_cons; tauto|]). by apply not_elem_of_nil in Hr'. }
  destruct fuel as [|[|[|fuel]]]; [lia..|]. unfold getPathGenerator. cbn [gen_loop].
  pose proof (fun ks g => level_shared getFromByTo db ks g Hsh) as Hlevel.
  destruct (Hlevel [t] (MkGen [] 0 [] [] false)) as (Hg1 & Hr1 & [(n1 & Eo1 & Ei1 & _ & Hall1)]); [by split; [|constructor]|done|].
  cbn [gen_visited gen_searches gen_out]. set (g1 := fold_left _ [t] _) in *. cbn [flat_map app gen_out gen_newIter] in *. rewrite app_nil_r, Ht in *.
  assert (gen_returned g1 = false) as Er1.
  { apply Hr1. by apply (NoDup_app [ra; rb] [ca; cb]) in Hnd as [? _]. }
  rewrite Er1 in *. rewrite (Hall1 eq_refl) in *. rewrite Ei1. cbn [map next_].
  set (g1' := MkGen (gen_visited g1) (gen_searches g1) [] (gen_out g1) false).
  destruct (Hlevel [rel_from ra; rel_from rb] g1') as (Hg2 & Hr2 & [(n2 & Eo2 & Ei2 & _ & Hall2)]); [by apply tidy_reset|done|].
  set (g2 := fold_left _ [rel_from ra; rel_from rb] g1') in *. cbn [flat_map app gen_out gen_newIter g1'] in *. rewrite Ha, Hb, Eo1 in *. cbn [app] in *.
  rewrite (proj1 Hr2 Hnd) in *. rewrite (Hall2 eq_refl) in *. rewrite Ei2. cbn [map next_]. rewrite Hc.
  set (g2' := MkGen (gen_visited g2) (gen_searches g2) [] (gen_out g2) false).
  destruct (Hlevel [rel_from ca; rel_from ca] g2') as (Hg3 & Hr3 & [(n3 & Eo3 & _ & Hsub & _)]); [by apply tidy_reset|done|].
  set (g3 := fold_left _ [rel_from ca; rel_from ca] g2') in *. cbn [flat_map app gen_out gen_newIter g2'] in *.
  destruct (gen_returned g3) eqn:Er3.
  - exists (gen_out g3). split; [done|]. intros r. rewrite Eo3, Eo2, elem_of_app. intros [?|Hr]; [by left|right].
    apply Hsub in Hr. rewrite app_nil_r, elem_of_app in Hr. tauto.
  - exfalso. pose proof (proj2 Hr3 eq_refl) as Hnd3. rewrite app_nil_r in Hnd3.
    apply NoDup_app in Hnd3 as (_ & _ & Hnd3). apply NoDup_app in Hnd3 as (_ & Hd & _). by apply (Hd rc).
Qed.

(** When every search hands out new objects (documents that the cache of the
    store does not hold) and the keys that lead to the trustee include a cycle
    without the truster, [isTrusted] never returns. *)
Theorem isTrusted_cycle_diverges (S : PublicSignKey -> Prop) tn trustee :
  let db := tn_trustGraph tn in
  fresh_objects db -> NoDup (gs_relations db) -> trapped getFromByTo db S -> S trustee -> ~ S (tn_rootTrust tn) ->
  forall fuel, isTrusted fuel tn trustee None = NoFuel.
Proof.
  intros db Hfr Hnd HS Ht Hroot fuel. unfold isTrusted, _isTrustedLocal, hasPath, hasPathToTarget. cbn [default].
  rewrite !bool_decide_false by (intros E; apply Hroot; congruence).
  destruct (generator_never_ends getFromByTo db trustee S fuel Hfr Hnd HS Ht) as (out & E & Hout).
  fold db. rewrite E, any_yielded_val. destruct (existsb _ out) eqn:Ex; [|done]. exfalso.
  apply existsb_exists_elem in Ex as (r & Hr & Hr'%bool_decide_eq_true). apply Hroot. rewrite Hr'. by apply (Hout r).
Qed.

(** ** The relations that are accepted *)

Lemma any_key_true test keys : any_key test keys = Val true -> exists key, key ∈ keys /\ test key = Val true.
Proof.
  induction keys as [|key keys IH]; [done|]. cbn. destruct (test key) as [[]|?|] eqn:E; cbn; [|..]; try done.
  - intros _. exists key. split; [left|done].
  - intros (k & Hk & ?)%IH. exists k. split; [by right|done].
Qed.

Lemma vouches_mono db db' : gs_relations db ⊆ gs_relations db' -> forall a b, rtc (vouches db) a b -> rtc (vouches db') a b.
Proof.
  intros Hs a b Hab. induction Hab as [a|a b c (r & Hr & E) _ IH]; [done|]. eapply rtc_l; [|exact IH]. exists r. split; [by apply Hs|done].
Qed.

(** A network that grows by relations whose ids are computed, with any signers;
    which objects the store hands out may change. *)
Inductive network (root : PublicSignKey) : TrustedNetwork -> Prop :=
| network_new resolved : network root (MkNetwork root (MkStore [] resolved))
| network_put tn fuel to from keys resolved tn' :
    network root tn -> tn_perform fuel tn (PutRelation (new_IdentityRelation to from)) keys = Val tn' ->
    network root (MkNetwork root (MkStore (gs_relations (tn_trustGraph tn')) resolved)).

Lemma tn_perform_put fuel tn r keys tn' :
  tn_perform fuel tn (PutRelation r) keys = Val tn' ->
  isTrusted fuel tn (rel_from r) None = Val true /\ rel_from r ∈ keys /\ tn' = MkNetwork (tn_rootTrust tn) (store_document (tn_trustGraph tn) (PutRelation r)).
Proof.
  unfold tn_perform, perform. destruct (tn_canPerform _ _ _ _) as [[]|?|] eqn:E; cbn; try done. intros [= <-].
  apply any_key_true in E as (key & Hk & E). unfold checkKey in E. case_bool_decide as Hkey; [|done]. by subst.
Qed.

(** Every relation that has been put into a trusted network is rooted: a chain
    of relations leads from the root to the key that signed it, whatever the
    order of the puts, the objects of the store and the depth of the searches. *)
Theorem network_rooted root tn :
  network root tn -> tn_rootTrust tn = root /\ NoDup (gs_relations (tn_trustGraph tn)) /\
    forall r, r ∈ gs_relations (tn_trustGraph tn) -> rel_id r = relation_id (rel_to r) (rel_from r) /\
      rtc (vouches (tn_trustGraph tn)) root (rel_from r) /\ rtc (vouches (tn_trustGraph tn)) root (rel_to r).
Proof.
  assert (Hsuf : forall db, (forall r, r ∈ gs_relations db -> rel_id r = relation_id (rel_to r) (rel_from r) /\ rtc (vouches db) root (rel_from r)) ->
    forall r, r ∈ gs_relations db -> rel_id r = relation_id (rel_to r) (rel_from r) /\ rtc (vouches db) root (rel_from r) /\ rtc (vouches db) root (rel_to r)).
  { intros db Hdb r Hr. destruct (Hdb r Hr) as [? Hc]. split_and!; [done|done|]. eapply rtc_r; [exact Hc|]. by exists r. }
  induction 1 as [resolved|tn fuel to from keys resolved tn' Hn (Hr & Hnd & IH) Hp].
  - split_and!; [done|constructor|]. by intros r ?%not_elem_of_nil.
  - apply tn_perform_put in Hp as (Ht & _ & ->). cbn [tn_rootTrust tn_trustGraph]. cbn [new_IdentityRelation rel_from] in Ht.
    apply isTrusted_sound in Ht. rewrite Hr in Ht. set (r0 := new_IdentityRelation to from) in *. set (db := tn_trustGraph tn) in *.
    assert (Hin : gs_relations (store_document db (PutRelation r0)) = gs_relations db \/
                  gs_relations (store_document db (PutRelation r0)) = gs_relations db ++ [r0] /\ r0 ∉ gs_relations db).
    { cbn [store_document]. destruct (existsb _ _) eqn:Ex; cbn [gs_relations].
      - left. rewrite <- (map_id (gs_relations db)) at 2. apply map_ext_in. intros r Hin. case_bool_decide as Hid; [|done].
        apply list_elem_of_In, IH in Hin as (Hid' & _). rewrite Hid' in Hid. apply relation_id_inj in Hid as [? ?].
        destruct r; unfold r0, new_IdentityRelation; cbn in *; subst; by f_equal.
      - right. split; [done|]. intros Hin. apply not_true_iff_false in Ex. apply Ex, existsb_exists_elem. exists r0. split; [done|by apply bool_decide_eq_true]. }
    split_and!; [done| |].
    + cbn [gs_relations]. destruct Hin as [->|[-> Hn0]]; [done|]. apply NoDup_app. split_and!; [done| |apply NoDup_singleton].
      by intros x Hx ->%list_elem_of_singleton.
    + apply Hsuf. cbn [gs_relations]. intros r Hr'.
      assert (Hsub : gs_relations db ⊆ gs_relations (store_document db (PutRelation r0))) by (destruct Hin as [->|[-> _]]; set_solver).
      assert (Hm : forall b, rtc (vouches db) root b -> rtc (vouches (MkStore (gs_relations (store_document db (PutRelation r0))) resolved)) root b)
        by by apply vouches_mono.
      destruct Hin as [Hin|[Hin _]]; rewrite Hin in Hr'.
      * split; [by apply IH|]. by apply Hm, IH.
      * apply elem_of_app in Hr' as [Hr'| ->%list_elem_of_singleton]; [split; [by apply IH|by apply Hm, IH]|]. split; [done|by apply Hm].
Qed.

(** The id of a relation is not checked: a trusted key can replace the relation
    of another key by one of its own under the same id. *)
Theorem forged_id_replaces fuel tn r0 attacker victim :
  r0 ∈ gs_relations (tn_trustGraph tn) -> isTrusted fuel tn attacker None = Val true -> attacker <> rel_from r0 ->
  let forged := MkRelation (rel_id r0) attacker victim in
  exists tn', tn_perform fuel tn (PutRelation forged) [attacker] = Val tn' /\
    forged ∈ gs_relations (tn_trustGraph tn') /\ r0 ∉ gs_relations (tn_trustGraph tn').
Proof.
  intros Hr Ht Hne forged. unfold tn_perform, perform, tn_canPerform, canPerformByRelation, any_key, checkKey. cbn [forged rel_from].
  rewrite bool_decide_true by done. cbn [negb]. rewrite Ht. cbn [mbind outcome_bind]. eexists. split; [done|]. cbn [tn_trustGraph store_document].
  assert (existsb (fun r' => bool_decide (rel_id r' = rel_id forged)) (gs_relations (tn_trustGraph tn)) = true) as ->.
  { apply existsb_exists_elem. exists r0. split; [done|by apply bool_decide_eq_true]. }
  cbn [gs_relations]. split.
  - apply list_elem_of_fmap. exists r0. split; [by rewrite bool_decide_true|done].
  - intros (r' & E & _)%list_elem_of_fmap. case_bool_decide as Hid; [|apply Hid; by rewrite <- E].
    apply Hne. by rewrite E.
Qed.

(** ** The access controller *)

Definition granted (wanted : AccessType) (ac : AccessController) k : Prop :=
  exists a, a ∈ ac_access ac /\ grants wanted a = true /\ allowed (accessCondition a) k = Val true.

(** Every stored condition is one of the two that are implemented. *)
Definition implemented (ac : AccessController) : Prop := forall a, a ∈ ac_access ac -> accessCondition a <> AbstractCondition.

Lemma any_allowed_val wanted accesses k :
  (forall a, a ∈ accesses -> accessCondition a <> AbstractCondition) ->
  exists b, any_allowed wanted accesses k = Val b /\
    (b = true <-> exists a, a ∈ accesses /\ grants wanted a = true /\ allowed (accessCondition a) k = Val true).
Proof.
  induction accesses as [|a accesses IH]; intros Hc.
  - exists false. split; [done|]. split; [done|]. by intros (? & ?%not_elem_of_nil & _).
  - destruct IH as (b & E & Hb); [intros a' Ha'; apply Hc; by right|]. cbn [any_allowed].
    assert (Hcons : (exists a', a' ∈ a :: accesses /\ grants wanted a' = true /\ allowed (accessCondition a') k = Val true) <->
      (grants wanted a = true /\ allowed (accessCondition a) k = Val true) \/ b = true).
    { rewrite Hb. split; [intros (a' & [->|?]%elem_of_cons & ?); [by left|right; eauto]|].
      intros [?|(a' & ? & ?)]; [exists a; split; [left|done]|exists a'; split; [by right|done]]. }
    specialize (Hc a ltac:(left)). rewrite E.
    destruct (grants wanted a); [|exists b; split; [done|]; rewrite Hcons; naive_solver].
    destruct (accessCondition a) as [| |k']; cbn [allowed mbind outcome_bind]; [done|exists true; split; [done|]; rewrite Hcons; naive_solver|].
    cbn [allowed] in Hcons. case_bool_decide; [exists true|exists b]; (split; [done|]); rewrite Hcons; naive_solver.
Qed.

Lemma accessCheck_val wanted ac k : implemented ac -> exists b, accessCheck wanted ac k = Val b /\ (b = true <-> granted wanted ac k).
Proof.
  intros Hi. assert (Hel : forall a, a ∈ List.filter (grants wanted) (ac_access ac) <-> a ∈ ac_access ac /\ grants wanted a = true).
  { intros a. by rewrite list_elem_of_In, filter_In, <- list_elem_of_In. }
  destruct (any_allowed_val wanted (List.filter (grants wanted) (ac_access ac)) k) as (b & E & Hb); [intros a [Ha _]%Hel; by apply Hi|].
  exists b. split; [exact E|]. rewrite Hb. unfold granted. split; intros (a & Ha & ?); exists a; (split; [by apply Hel|done]) || naive_solver.
Qed.

Lemma any_yielded_total (p : PublicSignKey -> Prop) test out :
  (forall r, exists b, test r = Val b /\ (b = true <-> p (rel_from r))) ->
  exists b, any_yielded test out true = Val b /\ (b = true <-> exists r, r ∈ out /\ p (rel_from r)).
Proof.
  intros Ht. induction out as [|r out (b & E & Hb)]; cbn [any_yielded].
  - exists false. split; [done|]. split; [done|]. by intros (? & ?%not_elem_of_nil & _).
  - destruct (Ht r) as (b' & -> & Hb'). cbn [mbind outcome_bind]. destruct b'.
    + exists true. split; [done|]. split; [|done]. intros _. exists r. split; [left|by apply Hb'].
    + exists b. split; [exact E|]. rewrite Hb. split; intros (r' & Hr' & Hp); exists r'; (split; [|done]); [by right|].
      apply elem_of_cons in Hr' as [->|?]; [by apply Hb' in Hp|done].
Qed.

(** When the keys that lead to the reader form trees in both graphs and every
    stored condition is implemented, [canRead] returns, and it allows exactly the
    keys the trust network trusts and those for which the key itself, or a key
    that a chain of identity relations leads from, has been granted reading. *)
Theorem canRead_correct fuel ac s :
  let tn := ac_trustedNetwork ac in let web := tn_trustGraph tn in let ids := ac_identityGraph ac in
  shared web -> NoDup (gs_relations web) -> tree getFromByTo web s -> (length (gs_relations web) < fuel)%nat ->
  shared ids -> NoDup (gs_relations ids) -> tree getFromByTo ids s -> (length (gs_relations ids) < fuel)%nat ->
  implemented ac ->
  exists b, canRead fuel ac (Some s) = Val b /\
    (b = true <-> rtc (vouches web) (tn_rootTrust tn) s \/ exists k, rtc (vouches ids) k s /\ granted AccessRead ac k).
Proof.
  intros tn web ids Hs1 Hn1 Ht1 Hf1 Hs2 Hn2 Ht2 Hf2 Hi. unfold canRead, has_access. fold tn.
  assert (exists b, isTrusted fuel tn s None = Val b /\ (b = true <-> rtc (vouches web) (tn_rootTrust tn) s)) as (b1 & -> & Hb1).
  { unfold isTrusted. case_bool_decide as Hr; [exists true; split; [done|]; by rewrite Hr|]. by apply hasPath_correct. }
  cbn [mbind outcome_bind]. destruct b1; [exists true; split; [done|]; tauto|].
  destruct (accessCheck_val AccessRead ac s Hi) as (b2 & -> & Hb2). cbn [mbind outcome_bind].
  destruct b2; [exists true; split; [done|]; split; [|done]; intros _; right; exists s; split; [done|by apply Hb2]|].
  destruct (generator_complete getFromByTo ids s fuel Hs2 Hn2 Ht2 Hf2) as (out & E & Hout). fold ids. rewrite E.
  destruct (any_yielded_total (granted AccessRead ac) (fun r => accessCheck AccessRead ac (rel_from r)) out) as (b & E' & Hb);
    [intros r; by apply accessCheck_val|].
  exists b. split; [exact E'|]. rewrite Hb. split.
  - intros (r & Hr & Hg). right. exists (rel_from r). split; [by apply reached_chain, Hout|done].
  - intros [Hr|(k & [->|(r & Hr & <-)]%chain_reached & Hg)].
    + by apply Hb1 in Hr.
    + by apply Hb2 in Hg.
    + exists r. split; [by apply Hout|done].
Qed.

End Facts.
