(* ===== verification/Program.v ===== *)
(** * The life cycle of programs (packages/programs/program)

    program.ts and handler.ts: programs are objects that know their parents and
    children, are opened through a handler that keeps one program per address,
    and are closed or dropped once their last parent lets go of them.

    The objects live in a heap and refer to each other by their place in it.  A
    computation keeps the state it has reached when it throws ([M]).  [close] and
    [drop] are asynchronous: their synchronous part runs down the children first
    ([end_]) and returns the promises ([Ending]); what comes after the awaits runs
    from the leaves up ([settle]).  Opening is one step. *)

From Stdlib Require Import ZArith Lia.
From stdpp Require Import base list strings gmap.
From S2P Require Import Prelude JsMap.

(** What [serialize(program)] holds: the address of the bytes, whether the class
    has a string variant, and the programs in its fields. *)
Inductive Source := MkSource (cid : string) (variant : bool) (programs : list Source).

Definition source_cid (s : Source) : string := let 'MkSource cid _ _ := s in cid.

(** [EventOptions]: the handler's own callbacks or the caller's. *)
Inductive Callback := HandlerCallback | UserCallback (n : nat).
Record UserEvents := MkUserEvents {
  user_onBeforeOpen : option nat; user_onOpen : option nat; user_onDrop : option nat; user_onClose : option nat;
}.

(** The handler's callbacks refer to the program that was opened, its address and
    whether the caller gave a parent. *)
Record EventOptions := MkEvents {
  eo_program : nat;
  eo_address : string;
  eo_parent : option nat;
  onBeforeOpen : option Callback;
  onOpen : option Callback;
  onDrop : option Callback;
  onClose : option Callback;
}.

Record Program := MkProgram {
  pr_source : Source;
  pr_programs : list nat;              (* [get programs()] *)
  pr_address : option string;
  pr_closed : option bool;
  pr_parents : option (list (option nat));
  pr_children : option (list nat);
  pr_eventOptions : option EventOptions;
  pr_listening : bool;                 (* to subscribe and unsubscribe events *)
}.

Inductive EndType := Close | Drop.
Inductive EventName := OpenEvent | EndEvent (type : EndType).

(** What can be observed. *)
Inductive Observed :=
| Dispatched (target : nat) (name : EventName) (detail : nat)
| Called (callback : nat) (program : nat).

Record World := MkWorld {
  w_heap : gmap nat Program;
  w_items : list (string * nat);
  w_blocks : list (string * Source);
  w_observed : list Observed;
}.

(** ** Computations that keep their state when they throw *)

Definition M (A : Type) : Type := World -> outcome A * World.
Definition ret {A} (a : A) : M A := fun w => (Val a, w).
Definition raise {A} (e : string) : M A := fun w => (Exn e, w).
Definition out_of_fuel {A} : M A := fun w => (NoFuel, w).
Definition bindM {A B} (m : M A) (k : A -> M B) : M B := fun w =>
  match m w with
  | (Val a, w) => k a w
  | (Exn e, w) => (Exn e, w)
  | (NoFuel, w) => (NoFuel, w)
  end.

Declare Scope program_scope.
Delimit Scope program_scope with program.
Notation "x ⇠ m ;; k" := (bindM m (fun x => k)) (at level 100, m at next level, right associativity) : program_scope.
Local Open Scope program_scope.

Fixpoint forM {A} (f : A -> M unit) (l : list A) : M unit :=
  match l with [] => ret tt | x :: l => _ ⇠ f x;; forM f l end.

(** ** Objects *)

Definition new_Program (s : Source) (programs : list nat) : Program := MkProgram s programs None None None None None false.

Definition obj (w : World) (id : nat) : Program := default (new_Program (MkSource "" false []) []) (w_heap w !! id).
Definition upd (w : World) (id : nat) (f : Program -> Program) : World :=
  MkWorld (<[id := f (obj w id)]> (w_heap w)) (w_items w) (w_blocks w) (w_observed w).

Definition set_address (a : string) (p : Program) : Program :=
  MkProgram (pr_source p) (pr_programs p) (Some a) (pr_closed p) (pr_parents p) (pr_children p) (pr_eventOptions p) (pr_listening p).
Definition set_closed (b : bool) (p : Program) : Program :=
  MkProgram (pr_source p) (pr_programs p) (pr_address p) (Some b) (pr_parents p) (pr_children p) (pr_eventOptions p) (pr_listening p).
Definition set_parents (l : list (option nat)) (p : Program) : Program :=
  MkProgram (pr_source p) (pr_programs p) (pr_address p) (pr_closed p) (Some l) (pr_children p) (pr_eventOptions p) (pr_listening p).
Definition set_children (l : list nat) (p : Program) : Program :=
  MkProgram (pr_source p) (pr_programs p) (pr_address p) (pr_closed p) (pr_parents p) (Some l) (pr_eventOptions p) (pr_listening p).
Definition set_events (e : option EventOptions) (p : Program) : Program :=
  MkProgram (pr_source p) (pr_programs p) (pr_address p) (pr_closed p) (pr_parents p) (pr_children p) e (pr_listening p).
Definition set_listening (b : bool) (p : Program) : Program :=
  MkProgram (pr_source p) (pr_programs p) (pr_address p) (pr_closed p) (pr_parents p) (pr_children p) (pr_eventOptions p) b.

Definition parents (w : World) (id : nat) : list (option nat) := default [] (pr_parents (obj w id)).
Definition children (w : World) (id : nat) : list nat := default [] (pr_children (obj w id)).

(** [get closed()]. *)
Definition closed (w : World) (id : nat) : bool := default true (pr_closed (obj w id)).

(** [get address()]. *)
Definition address (id : nat) : M string := fun w =>
  match pr_address (obj w id) with
  | Some a => (Val a, w)
  | None => (Exn "Address does not exist, please open or save this program once to obtain it", w)
  end.

Definition with_items (w : World) (items : list (string * nat)) : World := MkWorld (w_heap w) items (w_blocks w) (w_observed w).
Definition observe (w : World) (o : Observed) : World := MkWorld (w_heap w) (w_items w) (w_blocks w) (w_observed w ++ [o]).
Definition with_blocks (w : World) (b : list (string * Source)) : World := MkWorld (w_heap w) (w_items w) b (w_observed w).

Definition addParent (child : nat) (parent : option nat) (w : World) : World :=
  match parent with
  | None => if bool_decide (None ∈ parents w child) then w else upd w child (set_parents (parents w child ++ [None]))
  | Some p =>
      let w := upd w child (set_parents (parents w child ++ [Some p])) in
      upd w p (set_children (children w p ++ [child]))
  end.

(** [store.put] keeps the bytes under their address. *)
Definition save (id : nat) : M string := fun w =>
  let existing := pr_address (obj w id) in
  let s := pr_source (obj w id) in
  let w := upd (with_blocks w (Map_set (w_blocks w) (source_cid s) s)) id (set_address (source_cid s)) in
  match existing with
  | Some a => if negb (bool_decide (a = ""%string)) && negb (bool_decide (a = source_cid s))
              then (Exn "Program properties has been changed after constructor so that the hash has changed", w)
              else (Val (source_cid s), w)
  | None => (Val (source_cid s), w)
  end.

Definition delete (id : nat) : M unit :=
  a ⇠ address id;; fun w => (Val tt, with_blocks w (if bool_decide (a = ""%string) then w_blocks w else Map_delete (w_blocks w) a)).

(** [getAllParent], without the program itself. *)
Fixpoint getAllParent (fuel : nat) (w : World) (id : nat) : outcome (list nat) :=
  match fuel with
  | O => NoFuel
  | S fuel => foldM (fun arr q => match q with
                | None => Val arr
                | Some p => up ← getAllParent fuel w p; Val (arr ++ p :: up)
                end) [] (parents w id)
  end.

Definition getAllParentAddresses (fuel : nat) (id : nat) : M (list string) := fun w =>
  (ps ← getAllParent fuel w id; mapM_out (fun p => (address p w).1) ps, w).

(** The event goes to the program and up to all its parents. *)
Fixpoint emitEvent (fuel : nat) (name : EventName) (detail : nat) (id : nat) : M unit :=
  match fuel with
  | O => out_of_fuel
  | S fuel => fun w =>
      forM (fun q => match q with Some p => emitEvent fuel name detail p | None => ret tt end) (parents w id)
        (observe w (Dispatched id name detail))
  end.

(** ** The callbacks of the handler *)

Definition _onProgamClose (id : nat) : M unit := a ⇠ address id;; fun w => (Val tt, with_items w (Map_delete (w_items w) a)).

Definition call_back (c : option Callback) (mine : M unit) (id : nat) : M unit :=
  match c with
  | None => ret tt
  | Some HandlerCallback => mine
  | Some (UserCallback n) => fun w => (Val tt, observe w (Called n id))
  end.

Definition call_onBeforeOpen (e : EventOptions) (id : nat) : M unit :=
  call_back (onBeforeOpen e)
    (fun w => (Val tt, match eo_parent e with None => with_items w (Map_set (w_items w) (eo_address e) (eo_program e)) | Some _ => w end)) id.

Definition call_end (type : EndType) (e : option EventOptions) (id : nat) : M unit :=
  match e with
  | None => ret tt
  | Some e => call_back (match type with Close => onClose e | Drop => onDrop e end) (_onProgamClose id) id
  end.

(** ** Opening *)

Fixpoint beforeOpen (fuel : nat) (id : nat) (e : EventOptions) (parent : option nat) : M unit :=
  match fuel with
  | O => out_of_fuel
  | S fuel => fun w0 =>
      let 'MkSource cid variant _ := pr_source (obj w0 id) in
      (if negb variant then raise "Expecting class to be decorated with a string variant" else
       _ ⇠ save id;;
       a ⇠ address id;;
       up ⇠ getAllParentAddresses (S fuel) id;;
       if bool_decide (a ∈ up) then raise "Subprogram has same address as some parent program. This is not currently supported" else
       fun w =>
         let wasClosed := closed w id in
         let w := addParent id parent w in
         if negb wasClosed then (Val tt, w) else
         let w := upd w id (set_events (Some e)) in
         (_ ⇠ forM (fun next => beforeOpen fuel next e (Some id)) (pr_programs (obj w id));;
          _ ⇠ call_onBeforeOpen e id;;
          fun w => (Val tt, upd w id (set_closed false))) w) w0
  end.

Fixpoint afterOpen (fuel : nat) (id : nat) : M unit :=
  match fuel with
  | O => out_of_fuel
  | S fuel => fun w =>
      (_ ⇠ emitEvent (S fuel) OpenEvent id id;;
       _ ⇠ (fun w => match pr_eventOptions (obj w id) with Some e => call_back (onOpen e) (ret tt) id w | None => (Val tt, w) end);;
       fun w => forM (afterOpen fuel) (pr_programs (obj w id)) w) (upd w id (set_listening true))
  end.

(** ** Closing and dropping *)

(** A promise that has settled, or one that waits for those of the children. *)
Inductive Ending :=
| Settled (r : outcome bool)
| Awaiting (id : nat) (type : EndType) (parentIdx : option nat) (promises : list Ending).

Fixpoint findIndex (from : option nat) (l : list (option nat)) : option nat :=
  match l with
  | [] => None
  | q :: l => if bool_decide (q = from) then Some 0 else S <$> findIndex from l
  end.

(** [splice(i, 1)]. *)
Definition splice {A} (i : nat) (l : list A) : list A := take i l ++ drop (S i) l.

(** Whether the program closes, or what else [end] returns. *)
Definition end_decision (from : option nat) (w : World) (id : nat) : outcome bool * option nat * World :=
  match pr_parents (obj w id) with
  | None => (Val true, None, w)
  | Some ps =>
      match findIndex from ps with
      | Some i => if bool_decide (length ps = 1) then (Val true, Some i, w) else (Val false, Some i, upd w id (set_parents (splice i ps)))
      | None => match from with Some _ => (Exn "Could not find from in parents", None, w) | None => (Val true, None, w) end
      end
  end.

(** One call per element, in order, collecting what they return. *)
Definition collect_all {A B} (f : A -> World -> B * World) (l : list A) (w : World) : list B * World :=
  fold_left (fun st a => let '(bs, w) := st in let '(b, w) := f a w in (bs ++ [b], w)) l ([], w).

(** The synchronous part of [processEnd] of an open program; [end_child] is what
    closing or dropping a child does. *)
Definition processEnd (end_child : nat -> World -> Ending * World) (fuel : nat) (type : EndType) (id : nat)
    (parentIdx : option nat) (w : World) : Ending * World :=
  match (_ ⇠ emitEvent fuel (EndEvent type) id id;; fun w => call_end type (pr_eventOptions (obj w id)) id w) w with
  | (Val _, w) =>
      let '(promises, w) := collect_all end_child (children w id) w in
      (Awaiting id type parentIdx promises,
       match pr_children (obj w id) with Some _ => upd w id (set_children []) | None => w end)
  | (Exn e, w) => (Settled (Exn e), w)
  | (NoFuel, w) => (Settled NoFuel, w)
  end.

Fixpoint end_ (fuel : nat) (type : EndType) (id : nat) (from : option nat) (w : World) : Ending * World :=
  match fuel with
  | O => (Settled NoFuel, w)
  | S fuel' =>
      if closed w id then (Settled (match type with Drop => Exn "ClosedError" | Close => Val true end), w) else
      match end_decision from w id with
      | (Val true, parentIdx, w) => processEnd (fun c w => end_ fuel' type c (Some id) w) fuel type id parentIdx w
      | (r, _, w) => (Settled r, w)
      end
  end.

(** [Promise.all]: the first rejection. *)
Definition all_settled (rs : list (outcome bool)) : outcome unit := foldM (fun _ r => _ ← r; Val tt) tt rs.

(** After [processEnd]. *)
Definition ended (id : nat) (parentIdx : option nat) (p : Program) : Program :=
  let p := set_events None (set_listening false (set_closed true p)) in
  match parentIdx with Some i => set_parents (splice i (default [] (pr_parents p))) p | None => p end.

Fixpoint settle (e : Ending) (w : World) : outcome bool * World :=
  match e with
  | Settled r => (r, w)
  | Awaiting id type parentIdx promises =>
      let '(rs, w) := collect_all settle promises w in
      match all_settled rs with
      | Val _ =>
          let w := upd w id (ended id parentIdx) in
          match type with
          | Close => (Val true, w)
          | Drop => (_ ⇠ delete id;; ret true) w
          end
      | Exn e => (Exn e, w)
      | NoFuel => (NoFuel, w)
      end
  end.

Definition end_program (fuel : nat) (type : EndType) (id : nat) (from : option nat) : M bool := fun w =>
  let '(e, w) := end_ fuel type id from w in settle e w.

Definition close (fuel : nat) (id : nat) (from : option nat) : M bool := end_program fuel Close id from.
Definition drop_program (fuel : nat) (id : nat) (from : option nat) : M bool := end_program fuel Drop id from.

(** ** The handler *)

Inductive MergeStrategy := replace | reject | reuse.

Record OpenOptions := MkOpenOptions {
  existing : option MergeStrategy;
  option_parent : option nat;
  user_events : UserEvents;
  (** The program's own [open]: [None] when it succeeds. *)
  open_fails : option string;
}.

Definition checkProcessExisting (fuel : nat) (addr : string) (toOpen : option nat) (strategy : option MergeStrategy) : M (option nat) := fun w =>
  let prev := Map_get (w_items w) addr in
  match default reject strategy with
  | reject => match prev with Some _ => raise "Program is already open" w | None => (Val None, w) end
  | replace => match prev with
               | Some p => if bool_decide (toOpen = Some p) then (Val None, w) else (_ ⇠ close fuel p None;; ret None) w
               | None => (Val None, w)
               end
  | reuse => (Val prev, w)
  end.

(** The objects a block is read into. *)
Fixpoint allocate (s : Source) (w : World) : nat * World :=
  let 'MkSource cid variant programs := s in
  let '(ids, w) := collect_all allocate programs w in
  let id := fresh (dom (w_heap w)) in
  (id, MkWorld (<[id := new_Program s ids]> (w_heap w)) (w_items w) (w_blocks w) (w_observed w)).

Definition load (addr : string) : M nat := fun w =>
  match Map_get (w_blocks w) addr with
  | Some s => let '(id, w) := allocate s w in (Val id, upd w id (set_address addr))
  | None => (Exn "Failed to resolve program with address", w)
  end.

(** The options of [beforeOpen]: the caller's callbacks come after the handler's
    and take their place. *)
Definition handler_events (id : nat) (addr : string) (o : OpenOptions) : EventOptions :=
  let take (user : option nat) (own : option Callback) := match user with Some n => Some (UserCallback n) | None => own end in
  MkEvents id addr (option_parent o)
    (take (user_onBeforeOpen (user_events o)) (Some HandlerCallback)) (take (user_onOpen (user_events o)) None)
    (take (user_onDrop (user_events o)) (Some HandlerCallback)) (take (user_onClose (user_events o)) (Some HandlerCallback)).

(** From [program.save] on; [program] is the program or, still, its address. *)
Definition open_program (fuel : nat) (program : string + nat) (o : OpenOptions) : M nat :=
  match program with
  | inl _ => raise "TypeError: program.save is not a function"
  | inr id =>
      addr ⇠ save id;;
      prev ⇠ checkProcessExisting fuel addr (Some id) (existing o);;
      match prev with
      | Some p => ret p
      | None =>
          _ ⇠ beforeOpen fuel id (handler_events id addr o) (option_parent o);;
          _ ⇠ match open_fails o with Some e => raise e | None => ret tt end;;
          _ ⇠ afterOpen fuel id;;
          ret id
      end
  end.

Definition handler_open (fuel : nat) (storeOrAddress : string + nat) (o : OpenOptions) : M nat :=
  match storeOrAddress with
  | inl addr => fun w =>
      if Map_has (w_items w) addr then
        (prev ⇠ checkProcessExisting fuel addr None (existing o);;
         match prev with Some p => ret p | None => open_program fuel (inl addr) o end) w
      else (id ⇠ load addr;; open_program fuel (inr id) o) w
  | inr id => fun w =>
      if bool_decide (option_parent o = Some id) then raise "Parent program can not be equal to the program" w else
      if closed w id then open_program fuel (inr id) o w else
      (addr ⇠ address id;;
       fun w => match Map_get (w_items w) addr with
       | Some p =>
           if bool_decide (p = id) then (Val id, addParent p (option_parent o) w)
           else (prev ⇠ checkProcessExisting fuel addr (Some id) (existing o);;
                 match prev with Some p => ret p | None => open_program fuel (inr id) o end) w
       | None => (Val id, addParent id (option_parent o) (with_items w (Map_set (w_items w) addr id)))
       end) w
  end.

(** [stop]: all programs are asked to close before one of them has. *)
Definition stop (fuel : nat) : M unit := fun w =>
  let '(es, w) := collect_all (fun p w => end_ fuel Close p None w) (Map_values (w_items w)) w in
  let '(rs, w) := collect_all settle es w in
  match all_settled rs with
  | Val _ => (Val tt, with_items w [])
  | Exn e => (Exn e, w)
  | NoFuel => (NoFuel, w)
  end.
