(* ===== verification/ProgramFacts.v ===== *)
(** * Closing a program lets go of what only it holds

    The links between parents and children are kept in both objects.  When they
    agree, closing a program closes exactly the programs all of whose parents are
    closed with it, and takes it off the parents of the others. *)

From Stdlib Require Import ZArith Lia.
From stdpp Require Import base list strings gmap.
From S2P Require Import Prelude JsMap Program.

Local Open Scope nat_scope.
Local Open Scope program_scope.

(** ** Occurrences in a list *)

Definition occ {A} `{EqDecision A} (x : A) (l : list A) : nat := length (filter (fun y => y = x) l).

Section Occ.
Context {A : Type} `{EqDecision A}.
Implicit Types (x y : A) (l : list A).

Lemma occ_cons x y l : occ x (y :: l) = (if decide (y = x) then 1 else 0) + occ x l.
Proof. unfold occ. rewrite filter_cons. by destruct (decide (y = x)). Qed.

Lemma occ_app x l k : occ x (l ++ k) = occ x l + occ x k.
Proof. unfold occ. by rewrite filter_app, length_app. Qed.

Lemma occ_perm x l k : l ≡ₚ k -> occ x l = occ x k.
Proof. intros Hp. unfold occ. by rewrite Hp. Qed.

Lemma occ_zero x l : occ x l = 0 <-> x ∉ l.
Proof.
  induction l as [|y l IH]; [split; [by intros _ ?%not_elem_of_nil|done]|]. rewrite occ_cons, not_elem_of_cons.
  destruct (decide (y = x)); [split; [lia|naive_solver]|]. rewrite <- IH. naive_solver.
Qed.

Lemma occ_pos x l : 0 < occ x l <-> x ∈ l.
Proof.
  split; intros Hx.
  - destruct (decide (x ∈ l)) as [|Hn]; [done|]. apply occ_zero in Hn. lia.
  - destruct (decide (occ x l = 0)) as [E|]; [by apply occ_zero in E|lia].
Qed.
End Occ.

Lemma occ_pairs (p : nat) {A} `{EqDecision A} (q : nat) (x : A) (xs : list A) :
  occ (q, x) (map (fun y => (p, y)) xs) = if decide (p = q) then occ x xs else 0.
Proof.
  induction xs as [|y xs IH]; [by destruct (decide _)|]. cbn [map]. rewrite !occ_cons, IH.
  destruct (decide (p = q)) as [->|Hne], (decide ((_, y) = (q, x))) as [E|E], (decide (y = x)) as [E'|E']; try congruence; lia.
Qed.

Lemma findIndex_perm from l i : findIndex from l = Some i -> l ≡ₚ from :: splice i l.
Proof.
  revert i. induction l as [|q l IH]; intros i; [done|]. cbn. case_bool_decide as Hq; [by intros [= <-]; subst|].
  destruct (findIndex from l) as [j|]; [|done]. intros [= <-]. rewrite (IH j eq_refl) at 1. unfold splice. cbn.
  apply Permutation_swap.
Qed.

Lemma findIndex_in from l : from ∈ l -> exists i, findIndex from l = Some i.
Proof.
  induction l as [|q l IH]; [by intros ?%not_elem_of_nil|]. cbn. case_bool_decide as Hq; [by eexists|].
  intros [->|Hl]%elem_of_cons; [done|]. destruct (IH Hl) as (i & ->). by eexists.
Qed.

(** ** What the steps leave alone *)

(** Only the observations, the items and the blocks may differ. *)
Definition same_heap (w w' : World) : Prop := w_heap w' = w_heap w.

Lemma same_heap_obj w w' : same_heap w w' -> (forall c, obj w' c = obj w c).
Proof. unfold same_heap, obj. by intros ->. Qed.

Lemma obj_upd w id f c : obj (upd w id f) c = if decide (c = id) then f (obj w id) else obj w c.
Proof. unfold obj, upd. cbn. destruct (decide (c = id)) as [->|]; [by rewrite lookup_insert_eq|by rewrite lookup_insert_ne]. Qed.

(** ** Events reach all the ancestors *)

(** Parents have a greater rank, up to a bound. *)
Definition ranked (rk : nat -> nat) (N : nat) (w : World) : Prop :=
  forall c p, Some p ∈ parents w c -> rk c < rk p <= N.

Lemma forM_heap {A} (f : A -> M unit) l w :
  (forall x w', x ∈ l -> same_heap w w' -> exists w2, f x w' = (Val tt, w2) /\ same_heap w w2) ->
  exists w', forM f l w = (Val tt, w') /\ same_heap w w'.
Proof.
  intros Hf. assert (Hgen : forall w', same_heap w w' -> exists w2, forM f l w' = (Val tt, w2) /\ same_heap w w2); [|by apply Hgen].
  induction l as [|x l IH]; intros w' Hw; [by exists w'|]. cbn. unfold bindM.
  destruct (Hf x w') as (w2 & -> & Hw2); [by left|done|]. apply IH; [|done]. intros y w3 Hy. apply Hf. by right.
Qed.

Lemma emit_ok rk N w0 name detail fuel id w :
  ranked rk N w0 -> N < fuel + rk id -> 0 < fuel -> same_heap w0 w ->
  exists w', emitEvent fuel name detail id w = (Val tt, w') /\ same_heap w0 w'.
Proof.
  intros Hr. revert id w. induction fuel as [|fuel IH]; intros id w Hf Hpos Hw; [lia|]. cbn [emitEvent].
  set (w1 := observe w _). assert (Hw1 : same_heap w0 w1) by exact Hw.
  assert (Hp : parents w id = parents w0 id) by (unfold parents; by rewrite (same_heap_obj _ _ Hw)). rewrite Hp.
  destruct (forM_heap (fun q => match q with Some p => emitEvent fuel name detail p | None => ret tt end) (parents w0 id) w1)
    as (w2 & E & Hw2); [|exists w2; split; [exact E|unfold same_heap in *; congruence]].
  intros [p|] w3 Hq Hw3; [|by exists w3]. apply Hr in Hq as Hrank.
  destruct (IH p w3) as (w4 & E & Hw4); [lia|lia|unfold same_heap in *; congruence|]. exists w4. split; [exact E|].
  unfold same_heap in *. congruence.
Qed.

(** ** Closing: the synchronous part *)

(** Parents and children agree. *)
Definition linked (w : World) : Prop := forall c p, occ (Some p) (parents w c) = occ c (children w p).

(** Open programs have an address and open children. *)
Definition all_open (w : World) : Prop :=
  forall p, closed w p = false -> is_Some (pr_address (obj w p)) /\ forall c, c ∈ children w p -> closed w c = false.

Section Closing.
Context (rk : nat -> nat) (N : nat) (w0 : World) (r : nat).
Context (Hlinked : linked w0) (Hranked : ranked rk N w0) (Hopen : all_open w0) (Hroot : parents w0 r = [None]).

(** Between two calls: [D] are the programs that close, [pend] the calls to
    children of these that are still to be made. *)
Record mid (w : World) (D : list nat) (pend : list (nat * nat)) : Prop := {
  mid_closed c : closed w c = closed w0 c;
  mid_address c : pr_address (obj w c) = pr_address (obj w0 c);
  mid_children c : c ∉ D -> children w c = children w0 c;
  mid_pend p x : (p, x) ∈ pend -> p ∈ D /\ x ∈ children w0 p;
  mid_occ c p : c ∉ D -> occ (Some p) (parents w c) = if decide (p ∈ D) then occ (p, c) pend else occ (Some p) (parents w0 c);
  mid_none c : c ∉ D -> occ None (parents w c) = occ None (parents w0 c);
  mid_left c : c ∉ D -> parents w0 c <> [] -> parents w c <> [];
  mid_all c : c ∈ D -> c = r \/ parents w0 c <> [] /\ forall q, q ∈ parents w0 c -> exists p, q = Some p /\ p ∈ D;
  mid_nopend c p : c ∈ D -> (p, c) ∉ pend;
  mid_once c : c ∈ D -> exists q, parents w c = [q];
  mid_open c : c ∈ D -> closed w0 c = false;
  mid_ranked : ranked rk N w;
  mid_nodup : NoDup D;
}.

Lemma child_rank p c : c ∈ children w0 p -> rk c < rk p <= N.
Proof. intros Hc. apply Hranked. apply occ_pos. rewrite Hlinked. by apply occ_pos. Qed.

Lemma parents_sub w D pend c p : mid w D pend -> Some p ∈ parents w c -> Some p ∈ parents w0 c \/ c ∈ D.
Proof.
  intros Hm Hp. destruct (decide (c ∈ D)) as [|Hc]; [by right|left]. apply occ_pos. apply occ_pos in Hp. rewrite (mid_occ _ _ _ Hm c p Hc) in Hp.
  destruct (decide (p ∈ D)); [|done]. rewrite Hlinked. apply occ_pos. by apply (mid_pend _ _ _ Hm p c), occ_pos.
Qed.

Lemma mid_same_heap w w' D pend : mid w D pend -> same_heap w w' -> mid w' D pend.
Proof.
  intros [] Hw. pose proof (same_heap_obj _ _ Hw) as Ho. split; unfold parents, children, closed in *; intros; rewrite ?Ho; eauto.
  intros c p. unfold parents. rewrite Ho. apply mid_ranked0.
Qed.

(** What the promises are: all of them will be kept. *)
Inductive clean : Ending -> Prop :=
| clean_val b : clean (Settled (Val b))
| clean_await id ps : Forall clean ps -> clean (Awaiting id Close (Some 0) ps).

Fixpoint ending_ids (e : Ending) : list nat :=
  match e with Settled _ => [] | Awaiting id _ _ ps => id :: flat_map ending_ids ps end.

(** What a call did: the programs that started to close have no children left. *)
Record called (w : World) (D D' : list nat) (es : list Ending) (w' : World) : Prop := {
  cl_ids : D' ≡ₚ flat_map ending_ids es ++ D;
  cl_clean : Forall clean es;
  cl_new c : c ∈ flat_map ending_ids es -> children w' c = [];
  cl_old c : c ∈ D -> children w' c = children w c;
}.

Lemma collect_all_cons {A B} (f : A -> World -> B * World) a l w :
  collect_all f (a :: l) w =
    let '(b, w1) := f a w in let '(bs, w2) := collect_all f l w1 in (b :: bs, w2).
Proof.
  unfold collect_all. cbn. destruct (f a w) as [b w1]. cbn.
  assert (Hgen : forall l bs w, fold_left (fun st a => let '(bs, w) := st in let '(b, w) := f a w in (bs ++ [b], w)) l (bs, w) =
    let '(cs, w2) := fold_left (fun st a => let '(bs, w) := st in let '(b, w) := f a w in (bs ++ [b], w)) l ([], w) in (bs ++ cs, w2)).
  { clear. induction l as [|a l IH]; intros bs w; cbn; [by rewrite app_nil_r|]. destruct (f a w) as [b w1].
    rewrite IH, (IH [b]). destruct (fold_left _ _ _) as [cs w2]. by rewrite <- app_assoc. }
  rewrite Hgen. by destruct (fold_left _ _ _).
Qed.

Lemma children_calls f p xs w D pend :
  mid w D (map (fun x => (p, x)) xs ++ pend) -> p ∈ D ->
  (forall x w D pend, x ∈ xs -> mid w D ((p, x) :: pend) -> exists e w' D', f x w = (e, w') /\ mid w' D' pend /\ called w D D' [e] w') ->
  exists es w' D', collect_all f xs w = (es, w') /\ mid w' D' pend /\ called w D D' es w'.
Proof.
  intros Hm Hp Hf. revert w D Hm Hp. induction xs as [|x xs IH]; intros w D Hm Hp.
  - exists [], w, D. split; [done|]. split; [done|]. split; [done|constructor|by intros c ?%not_elem_of_nil|done].
  - rewrite collect_all_cons. destruct (Hf x w D _ ltac:(left) Hm) as (e & w1 & D1 & -> & Hm1 & [Hi1 Hc1 Hn1 Ho1]).
    assert (Hsub : D ⊆ D1) by (intros c Hc; rewrite Hi1; apply elem_of_app; by right).
    destruct (IH (fun y w D pend Hy => Hf y w D pend ltac:(by right)) w1 D1 Hm1) as (es & w2 & D2 & -> & Hm2 & [Hi2 Hc2 Hn2 Ho2]); [by apply Hsub|].
    exists (e :: es), w2, D2. split; [done|]. split; [done|]. cbn [flat_map] in *. rewrite app_nil_r in *. split.
    + rewrite Hi2, Hi1. rewrite (app_assoc _ _ D). f_equiv. apply Permutation_app_comm.
    + constructor; [by inversion Hc1|done].
    + intros c Hc. apply elem_of_app in Hc as [Hc|Hc]; [|by apply Hn2]. rewrite Ho2; [by apply Hn1|]. rewrite Hi1. apply elem_of_app. by left.
    + intros c Hc. rewrite Ho2 by by apply Hsub. by apply Ho1.
Qed.

(** A program starts to close once it is among [D]. *)
Lemma processEnd_ok f fuel x w D pend :
  mid w (x :: D) (map (fun c => (x, c)) (children w x) ++ pend) -> x ∉ D -> N < fuel + rk x -> 0 < fuel ->
  (forall y w D pend, y ∈ children w0 x -> mid w D ((x, y) :: pend) -> exists e w' D', f y w = (e, w') /\ mid w' D' pend /\ called w D D' [e] w') ->
  children w x = children w0 x ->
  exists e w' D', processEnd f fuel Close x (Some 0) w = (e, w') /\ mid w' D' pend /\ called w D D' [e] w' /\ x ∈ D'.
Proof.
  intros Hm HxD Hf Hpos IH Hch. pose proof (mid_ranked _ _ _ Hm) as Hrk. unfold processEnd, bindM.
  destruct (emit_ok rk N w (EndEvent Close) x fuel x w Hrk Hf Hpos eq_refl) as (w1 & -> & Hw1).
  assert (Hm1 : mid w1 (x :: D) (map (fun c => (x, c)) (children w x) ++ pend)) by by eapply mid_same_heap.
  assert (exists w2, call_end Close (pr_eventOptions (obj w1 x)) x w1 = (Val tt, w2) /\ same_heap w1 w2) as (w2 & -> & Hw2).
  { unfold call_end. destruct (pr_eventOptions _) as [ev|]; [|by exists w1]. unfold call_back. destruct (onClose ev) as [[|n]|]; [|by eexists|by exists w1].
    unfold _onProgamClose, bindM, address. destruct (Hopen x) as [[a Ha] _]; [apply (mid_open _ _ _ Hm); left|].
    rewrite (mid_address _ _ _ Hm1), Ha. by eexists. }
  assert (Hm2 : mid w2 (x :: D) (map (fun c => (x, c)) (children w x) ++ pend)) by by eapply mid_same_heap.
  assert (Ech : children w2 x = children w x) by (unfold children; by rewrite (same_heap_obj _ _ Hw2), (same_heap_obj _ _ Hw1)). rewrite Ech.
  destruct (children_calls f x (children w x) w2 (x :: D) pend) as (es & w3 & D3 & -> & Hm3 & [Hi3 Hc3 Hn3 Ho3]);
    [done|left|intros y w' D' p' Hy; apply IH; by rewrite <- Hch|].
  assert (HD3 : x ∈ D3) by (rewrite Hi3; apply elem_of_app; right; left).
  assert (Hold : forall c, c ∈ x :: D -> children w3 c = children w c).
  { intros c Hc. rewrite Ho3 by done. unfold children. by rewrite (same_heap_obj _ _ Hw2), (same_heap_obj _ _ Hw1). }
  set (w4 := match pr_children (obj w3 x) with Some _ => upd w3 x (set_children []) | None => w3 end).
  assert (Ho : forall c, obj w4 c = obj w3 c \/ c = x /\ obj w4 c = set_children [] (obj w3 c)).
  { intros c. unfold w4. destruct (pr_children _); [|by left]. rewrite obj_upd. destruct (decide (c = x)) as [->|]; [by right|by left]. }
  assert (Hch4 : forall c, children w4 c = if decide (c = x) then [] else children w3 c).
  { intros c. unfold w4, children. destruct (pr_children (obj w3 x)) eqn:E.
    - rewrite obj_upd. by destruct (decide (c = x)) as [->|].
    - destruct (decide (c = x)) as [->|]; [by rewrite E|done]. }
  exists (Awaiting x Close (Some 0) es), w4, D3. split; [done|]. split; [|split; [|done]].
  - assert (Hpar : forall c, parents w4 c = parents w3 c) by (intros c; unfold parents; destruct (Ho c) as [->|[_ ->]]; done).
    destruct Hm3. split; try done; intros; rewrite ?Hpar in *; eauto.
    + unfold closed. destruct (Ho c) as [->|[_ ->]]; apply mid_closed0.
    + destruct (Ho c) as [->|[_ ->]]; apply mid_address0.
    + rewrite Hch4, decide_False by (intros ->; done). eauto.
    + intros c p. rewrite Hpar. apply mid_ranked0.
  - cbn [flat_map ending_ids]. split; cbn [flat_map ending_ids app]; rewrite ?app_nil_r.
    + rewrite Hi3. symmetry. apply Permutation_middle.
    + constructor; [|constructor]. by constructor.
    + intros c Hc. rewrite Hch4. destruct (decide (c = x)); [done|]. apply Hn3. by apply elem_of_cons in Hc as [?|?].
    + intros c Hc. rewrite Hch4, decide_False by congruence. apply Hold. by right.
Qed.

Lemma splice_occ {A} `{EqDecision A} (q from : A) l l' : l ≡ₚ from :: l' -> occ q l = (if decide (from = q) then 1 else 0) + occ q l'.
Proof. intros Hp. by rewrite (occ_perm q _ _ Hp), occ_cons. Qed.

(** A program that is let go of by its last parent joins [D]. *)
Lemma start_mid w D pend x p :
  mid w D ((p, x) :: pend) -> x ∉ D -> parents w x = [Some p] ->
  mid w (x :: D) (map (fun c => (x, c)) (children w x) ++ pend).
Proof.
  intros Hm HxD Hp. pose proof (mid_children _ _ _ Hm x HxD) as Hch.
  assert (HpD : p ∈ D /\ x ∈ children w0 p) by (apply (mid_pend _ _ _ Hm); left). destruct HpD as [HpD Hxp].
  assert (Hparents : forall q, q ∈ parents w0 x -> exists p', q = Some p' /\ p' ∈ D).
  { intros [q|] Hq; apply occ_pos in Hq.
    - destruct (decide (q ∈ D)) as [|Hn]; [by exists q|]. pose proof (mid_occ _ _ _ Hm x q HxD) as E. rewrite decide_False in E by done.
      rewrite <- E, Hp, occ_cons in Hq. destruct (decide (Some p = Some q)) as [[= ->]|]; [done|unfold occ in Hq; cbn in Hq; lia].
    - rewrite <- (mid_none _ _ _ Hm x HxD), Hp, occ_cons, decide_False in Hq by done. unfold occ in Hq. cbn in Hq. lia. }
  assert (Hx0 : forall q, occ (q, x) pend = 0).
  { intros q. destruct (decide (q ∈ D)) as [Hq|Hq].
    - pose proof (mid_occ _ _ _ Hm x q HxD) as E. rewrite decide_True, Hp, !occ_cons in E by done. change (occ (Some q) []) with 0 in E.
      destruct (decide (Some p = Some q)), (decide ((p, x) = (q, x))); try congruence; lia.
    - apply occ_zero. intros Hin. apply Hq. apply (mid_pend _ _ _ Hm q x). by right. }
  destruct Hm. split; try done.
  - intros c Hc. apply mid_children0. set_solver.
  - intros q c Hin. apply elem_of_app in Hin as [Hin|Hin].
    + apply list_elem_of_fmap in Hin as (c' & [= -> ->] & Hc'). split; [left|by rewrite <- Hch].
    + destruct (mid_pend0 q c) as [? ?]; [by right|]. split; [by right|done].
  - intros c q [Hcx Hc]%not_elem_of_cons. rewrite occ_app, occ_pairs. specialize (mid_occ0 c q Hc).
    rewrite mid_occ0. destruct (decide (x = q)) as [->|Hxq].
    + rewrite decide_False by done. rewrite decide_True by left. rewrite Hlinked, Hch.
      assert (occ (q, c) pend = 0) as ->; [|lia]. apply occ_zero. intros Hin. destruct (mid_pend0 q c) as [? _]; [by right|done].
    + destruct (decide (q ∈ D)) as [Hq|Hq]; [rewrite decide_True by by right|rewrite decide_False by set_solver; done].
      rewrite occ_cons, decide_False by congruence. lia.
  - intros c [_ Hc]%not_elem_of_cons. by apply mid_none0.
  - intros c [_ Hc]%not_elem_of_cons. by apply mid_left0.
  - intros c [->|Hc]%elem_of_cons.
    + right. split; [|intros q Hq; destruct (Hparents q Hq) as (p' & -> & ?); exists p'; split; [done|by right]].
      intros E. pose proof (Hlinked x p) as El. rewrite E in El. apply occ_pos in Hxp. unfold occ in El at 1. cbn in El. lia.
    + destruct (mid_all0 c Hc) as [|[? Ha]]; [by left|right]. split; [done|]. intros q Hq. destruct (Ha q Hq) as (p' & -> & ?). exists p'. split; [done|by right].
  - intros c q Hc Hin. apply elem_of_app in Hin as [Hin|Hin].
    + apply list_elem_of_fmap in Hin as (c' & [= -> ->] & Hc'). rewrite Hch in Hc'. apply elem_of_cons in Hc as [->|Hc].
      * apply child_rank in Hc'. lia.
      * assert (Hs : Some x ∈ parents w0 c') by (apply occ_pos; rewrite Hlinked; by apply occ_pos).
        destruct (mid_all0 c' Hc) as [->|[_ Ha]]; [rewrite Hroot in Hs; by apply list_elem_of_singleton in Hs|].
        destruct (Ha _ Hs) as (p' & [= <-] & ?). done.
    + apply elem_of_cons in Hc as [->|Hc]; [|apply (mid_nopend0 c q Hc); by right]. apply occ_pos in Hin. rewrite Hx0 in Hin. lia.
  - intros c [->|Hc]%elem_of_cons; [by exists (Some p)|by apply mid_once0].
  - intros c [->|Hc]%elem_of_cons; [|by apply mid_open0]. apply (Hopen p); [by apply mid_open0|done].
  - by constructor.
Qed.

(** Letting go of a program that has other parents. *)
Lemma splice_mid w D pend x p i :
  mid w D ((p, x) :: pend) -> x ∉ D -> findIndex (Some p) (parents w x) = Some i -> length (parents w x) <> 1 ->
  mid (upd w x (set_parents (splice i (parents w x)))) D pend.
Proof.
  intros Hm HxD Hi Hlen. set (w' := upd _ _ _). apply findIndex_perm in Hi as Hperm.
  assert (Hpar : forall c, parents w' c = if decide (c = x) then splice i (parents w x) else parents w c).
  { intros c. unfold parents at 1, w'. rewrite obj_upd. by destruct (decide (c = x)) as [->|]. }
  assert (Hch : forall c, children w' c = children w c).
  { intros c. unfold children, w'. rewrite obj_upd. by destruct (decide (c = x)) as [->|]. }
  assert (HpD : p ∈ D) by (apply (mid_pend _ _ _ Hm p x); left).
  destruct Hm. split.
  - intros c. unfold closed, w'. rewrite obj_upd. destruct (decide (c = x)) as [->|]; apply mid_closed0.
  - intros c. unfold w'. rewrite obj_upd. destruct (decide (c = x)) as [->|]; apply mid_address0.
  - intros c Hc. rewrite Hch. by apply mid_children0.
  - intros q c Hin. apply mid_pend0. by right.
  - intros c q Hc. rewrite Hpar. specialize (mid_occ0 c q Hc). rewrite occ_cons in mid_occ0. destruct (decide (c = x)) as [->|Hcx].
    + rewrite (splice_occ _ _ _ _ Hperm) in mid_occ0. destruct (decide (q ∈ D)) as [Hq|Hq].
      * destruct (decide (Some p = Some q)), (decide ((p, x) = (q, x))); try congruence; lia.
      * rewrite (decide_False (P := Some p = Some q)) in mid_occ0 by congruence. lia.
    + rewrite (decide_False (P := (p, x) = (q, c))) in mid_occ0 by congruence. done.
  - intros c Hc. rewrite Hpar, <- mid_none0 by done. destruct (decide (c = x)) as [->|]; [|done].
    rewrite (splice_occ None _ _ _ Hperm). by rewrite decide_False.
  - intros c Hc Hne. rewrite Hpar. destruct (decide (c = x)) as [->|]; [|by apply mid_left0].
    intros E. rewrite E in Hperm. apply Permutation_length in Hperm. done.
  - done.
  - intros c q Hc Hin. apply (mid_nopend0 c q Hc). by right.
  - intros c Hc. rewrite Hpar, decide_False by congruence. by apply mid_once0.
  - done.
  - intros c q. rewrite Hpar. destruct (decide (c = x)) as [->|]; [|apply mid_ranked0]. intros Hq. apply mid_ranked0. rewrite Hperm. by right.
  - done.
Qed.

Lemma end_ok fuel : forall x p w D pend,
  mid w D ((p, x) :: pend) -> N + rk x < fuel ->
  exists e w' D', end_ fuel Close x (Some p) w = (e, w') /\ mid w' D' pend /\ called w D D' [e] w'.
Proof.
  induction fuel as [|fuel IH]; intros x p w D pend Hm Hf; [lia|]. cbn [end_].
  destruct (mid_pend _ _ _ Hm p x) as [HpD Hxp]; [left|].
  assert (HxD : x ∉ D) by (intros Hx; apply (mid_nopend _ _ _ Hm x p Hx); left).
  assert (closed w x = false) as -> by (rewrite (mid_closed _ _ _ Hm); apply (Hopen p); [by apply (mid_open _ _ _ Hm)|done]).
  assert (Hin : Some p ∈ parents w x).
  { apply occ_pos. rewrite (mid_occ _ _ _ Hm x p HxD), decide_True, occ_cons, decide_True by done. lia. }
  unfold end_decision. destruct (pr_parents (obj w x)) as [ps|] eqn:Eps.
  2: { unfold parents in Hin. rewrite Eps in Hin. by apply not_elem_of_nil in Hin. }
  assert (Hps : parents w x = ps) by (unfold parents; by rewrite Eps). rewrite Hps in Hin.
  destruct (findIndex_in _ _ Hin) as (i & Ei). rewrite Ei. case_bool_decide as Hlen.
  - destruct ps as [|q [|]]; try done. apply list_elem_of_singleton in Hin as <-. cbn in Ei. rewrite bool_decide_true in Ei by done. injection Ei as <-.
    destruct (processEnd_ok (fun c w => end_ fuel Close c (Some x) w) (S fuel) x w D pend) as (e & w' & D' & ? & ? & ? & _);
      [by apply (start_mid w D pend x p)|done|lia|lia| |by apply (mid_children _ _ _ Hm)|by exists e, w', D'].
    intros y w' D' pend' Hy Hm'. apply IH; [done|]. apply child_rank in Hy. lia.
  - exists (Settled (Val false)), (upd w x (set_parents (splice i ps))), D. split; [done|]. rewrite <- Hps in *. split; [by apply (splice_mid w D pend x p)|].
    split; [done|by repeat constructor|by intros c ?%not_elem_of_nil|].
    intros c Hc. unfold children. by rewrite obj_upd, decide_False by congruence.
Qed.

(** ** Closing: what follows the awaits *)

Fixpoint ending_rect (P : Ending -> Prop) (Hs : forall r, P (Settled r))
    (Ha : forall id t i ps, Forall P ps -> P (Awaiting id t i ps)) (e : Ending) : P e :=
  match e with
  | Settled r => Hs r
  | Awaiting id t i ps => Ha id t i ps ((fix go ps := match ps return Forall P ps with [] => Forall_nil_2 _ | p :: ps => Forall_cons_2 _ _ _ (ending_rect P Hs Ha p) (go ps) end) ps)
  end.

(** The programs that waited are closed. *)
Definition after (ids : list nat) (w w' : World) : Prop :=
  forall c, obj w' c = if decide (c ∈ ids) then ended c (Some 0) (obj w c) else obj w c.

Lemma after_app ids ids' w w1 w2 : NoDup (ids ++ ids') -> after ids w w1 -> after ids' w1 w2 -> after (ids ++ ids') w w2.
Proof.
  intros (_ & Hd & _)%NoDup_app E1 E2 c. rewrite E2. destruct (decide (c ∈ ids')) as [Hc|Hc]; rewrite E1.
  - rewrite decide_False by (intros ?; by apply (Hd c)). by rewrite decide_True by (apply elem_of_app; by right).
  - destruct (decide (c ∈ ids)) as [Hi|Hi]; [by rewrite decide_True by (apply elem_of_app; by left)|].
    by rewrite decide_False by (intros [?|?]%elem_of_app; done).
Qed.

Definition settles (e : Ending) : Prop := forall w, clean e -> NoDup (ending_ids e) ->
  exists b w', settle e w = (Val b, w') /\ after (ending_ids e) w w' /\ (forall id t i ps, e = Awaiting id t i ps -> b = true).

Lemma settle_all es w :
  Forall settles es -> Forall clean es -> NoDup (flat_map ending_ids es) ->
  exists rs w', collect_all settle es w = (rs, w') /\ all_settled rs = Val tt /\ after (flat_map ending_ids es) w w'.
Proof.
  intros He. revert w. induction He as [|e es He _ IH]; intros w Hc Hnd.
  - exists [], w. split; [done|]. split; [done|]. intros c. by rewrite decide_False by by apply not_elem_of_nil.
  - inversion Hc as [|? ? Hce Hces]; subst. cbn [flat_map] in *. apply NoDup_app in Hnd as Hnd'. destruct Hnd' as (Hnd1 & _ & Hnd2).
    rewrite collect_all_cons. destruct (He w Hce Hnd1) as (b & w1 & -> & E1 & _). destruct (IH w1 Hces Hnd2) as (rs & w2 & -> & Es & E2).
    exists (Val b :: rs), w2. split; [done|]. split; [exact Es|by eapply after_app].
Qed.

Lemma settle_clean e : settles e.
Proof.
  induction e as [r'|id t i ps IH] using ending_rect; intros w Hc Hnd.
  - inversion Hc as [b E|]; subst. exists b, w. split; [done|]. split; [|done]. intros c. cbn. by rewrite decide_False by by apply not_elem_of_nil.
  - inversion Hc as [|? ? Hps]; subst. cbn [ending_ids] in *. apply NoDup_cons in Hnd as [Hid Hnd]. cbn [settle].
    destruct (settle_all ps w IH Hps Hnd) as (rs & w1 & -> & -> & E). exists true, (upd w1 id (ended id (Some 0))).
    split; [done|]. split; [|done]. intros c. rewrite obj_upd. destruct (decide (c = id)) as [->|Hci].
    + rewrite decide_True by left. by rewrite E, decide_False.
    + rewrite E. destruct (decide (c ∈ flat_map ending_ids ps)); [by rewrite decide_True by by right|by rewrite decide_False by set_solver].
Qed.

(** ** The whole *)

Lemma root_mid : closed w0 r = false -> mid w0 [r] (map (fun c => (r, c)) (children w0 r) ++ []).
Proof.
  intros Hr. split; try done.
  - intros p x. rewrite app_nil_r. intros (c & [= -> ->] & Hc)%list_elem_of_fmap. split; [left|done].
  - intros c p Hc. rewrite app_nil_r, occ_pairs. destruct (decide (p ∈ [r])) as [->%list_elem_of_singleton|Hp]; [|done].
    by rewrite decide_True, Hlinked.
  - intros c ->%list_elem_of_singleton. by left.
  - intros c p ->%list_elem_of_singleton. rewrite app_nil_r. intros (c & [= -> ->] & Hc%child_rank)%list_elem_of_fmap. lia.
  - intros c ->%list_elem_of_singleton. by eexists.
  - by intros c ->%list_elem_of_singleton.
  - apply NoDup_singleton.
Qed.

Lemma close_parts fuel : closed w0 r = false -> N + rk r < fuel ->
  exists e w1 w' D, close fuel r None w0 = (Val true, w') /\ mid w1 D [] /\ called w0 [] D [e] w1 /\ after (ending_ids e) w1 w' /\ r ∈ D.
Proof.
  intros Hr Hf. destruct fuel as [|fuel]; [lia|]. unfold close, end_program. cbn [end_]. rewrite Hr. unfold end_decision.
  destruct (pr_parents (obj w0 r)) as [ps|] eqn:Eps; [|by unfold parents in Hroot; rewrite Eps in Hroot].
  assert (ps = [None]) as -> by (unfold parents in Hroot; by rewrite Eps in Hroot). cbn [findIndex]. rewrite !bool_decide_true by done.
  destruct (processEnd_ok (fun c w => end_ fuel Close c (Some r) w) (S fuel) r w0 [] []) as (e & w1 & D & E & Hm & Hc & HrD);
    [by apply root_mid|set_solver|lia|lia| |done|].
  { intros y w' D' pend' Hy Hm'. apply end_ok; [done|]. apply child_rank in Hy. lia. }
  rewrite E. destruct Hc as [Hi Hcl Hn Ho]. cbn [flat_map] in Hi, Hn. rewrite !app_nil_r in Hi. rewrite app_nil_r in Hn.
  destruct (settle_clean e w1) as (b & w' & E' & Ha & Hb); [by inversion Hcl|rewrite <- Hi; apply Hm|].
  assert (b = true) as ->.
  { unfold processEnd in E. destruct (bindM _ _ _) as [[u|?|] w2]; [|injection E as <- _; inversion Hcl as [|? ? Hx _]; inversion Hx..].
    destruct (collect_all _ _ _) as [ps w3]. injection E as <- _. by eapply Hb. }
  exists e, w1, w', D. split; [exact E'|]. split; [done|]. split; [|done]. split; cbn [flat_map]; rewrite ?app_nil_r; done.
Qed.
End Closing.

(** A parent that does not close, or no parent. *)
Definition stays (D : list nat) (q : option nat) : bool := match q with Some p => negb (bool_decide (p ∈ D)) | None => true end.

(** C38. Closing a program that was opened on its own, in a world of open programs whose
    links between parents and children agree and whose graph of children has no
    cycle, ends and closes exactly that program and the programs all of whose
    parents close with it, takes the closed ones off the parents of all others, and
    leaves the links in agreement. The fuel exceeds the rank of the program. *)
Theorem close_releases rk N w r fuel :
  linked w -> ranked rk N w -> all_open w -> parents w r = [None] -> closed w r = false -> N + rk r < fuel ->
  exists w' (D : list nat), close fuel r None w = (Val true, w') /\
    (forall c, c ∈ D <-> c = r \/ closed w c = false /\ parents w c <> [] /\ forall q, q ∈ parents w c -> exists p, q = Some p /\ p ∈ D) /\
    (forall c, closed w' c = closed w c || bool_decide (c ∈ D)) /\
    (forall c q, c ∉ D -> occ q (parents w' c) = if stays D q then occ q (parents w c) else 0) /\
    (forall c, c ∈ D -> parents w' c = [] /\ children w' c = []) /\ (forall c, c ∉ D -> children w' c = children w c) /\
    linked w' /\ all_open w'.
Proof.
  intros Hl Hrk Ho Hp Hr Hf. destruct (close_parts rk N w r Hl Hrk Ho Hp fuel Hr Hf) as (e & w1 & w' & D & E & Hm & [Hi _ Hn _] & Ha & HrD).
  cbn [flat_map] in Hi, Hn. rewrite !app_nil_r in *.
  assert (HaD : forall c, obj w' c = if decide (c ∈ D) then ended c (Some 0) (obj w1 c) else obj w1 c).
  { intros c. rewrite Ha. destruct (decide (c ∈ D)) as [Hc|Hc]; rewrite Hi in Hc; [by rewrite decide_True|by rewrite decide_False]. }
  assert (Hparent : forall c, parents w' c = if decide (c ∈ D) then [] else parents w1 c).
  { intros c. unfold parents at 1. rewrite HaD. destruct (decide (c ∈ D)) as [Hc|]; [|done].
    destruct (mid_once _ _ _ _ _ _ _ Hm c Hc) as (q & Eq). cbn. unfold parents in Eq. by rewrite Eq. }
  assert (Hchild : forall c, children w' c = if decide (c ∈ D) then [] else children w c).
  { intros c. unfold children at 1. rewrite HaD. destruct (decide (c ∈ D)) as [Hc|Hc].
    - cbn. fold (children w1 c). apply Hn. by rewrite <- Hi.
    - by apply (mid_children _ _ _ _ _ _ _ Hm). }
  assert (Hclosed : forall c, closed w' c = closed w c || bool_decide (c ∈ D)).
  { intros c. unfold closed at 1. rewrite HaD. destruct (decide (c ∈ D)) as [Hc|Hc].
    - rewrite (bool_decide_true (c ∈ D)), orb_true_r by done. done.
    - rewrite (bool_decide_false (c ∈ D)), orb_false_r by done. apply (mid_closed _ _ _ _ _ _ _ Hm). }
  assert (Hocc : forall c q, c ∉ D -> occ q (parents w' c) = if stays D q then occ q (parents w c) else 0).
  { intros c [p|] Hc; rewrite Hparent, decide_False by done.
    - rewrite (mid_occ _ _ _ _ _ _ _ Hm c p Hc). cbn [stays].
      destruct (decide (p ∈ D)) as [Hd|Hd]; [by rewrite bool_decide_true|by rewrite bool_decide_false].
    - by rewrite (mid_none _ _ _ _ _ _ _ Hm c Hc). }
  assert (Hin : forall c, c ∈ D <-> c = r \/ closed w c = false /\ parents w c <> [] /\ forall q, q ∈ parents w c -> exists p, q = Some p /\ p ∈ D).
  { intros c. split.
    - intros Hc. destruct (mid_all _ _ _ _ _ _ _ Hm c Hc) as [|[? ?]]; [by left|right]. split; [by apply (mid_open _ _ _ _ _ _ _ Hm)|done].
    - intros [->|(Hc & Hne & Hall)]; [done|]. destruct (decide (c ∈ D)) as [|HcD]; [done|]. exfalso.
      pose proof (mid_left _ _ _ _ _ _ _ Hm c HcD Hne) as Hne'. destruct (parents w1 c) as [|q ps] eqn:Eps; [done|].
      assert (Hq : 0 < occ q (parents w' c)) by (rewrite Hparent, decide_False, Eps by done; apply occ_pos; left).
      rewrite Hocc in Hq by done. destruct (stays D q) eqn:Es; [|lia].
      apply occ_pos, Hall in Hq as (p & -> & Hd). cbn in Es. by rewrite bool_decide_true in Es. }
  exists w', D. split_and!; try done.
  - intros c Hc. by rewrite Hparent, Hchild, !decide_True.
  - intros c Hc. by rewrite Hchild, decide_False.
  - intros c p. rewrite Hchild. destruct (decide (c ∈ D)) as [Hc|Hc].
    + rewrite Hparent, decide_True by done. destruct (decide (p ∈ D)) as [Hd|Hd]; [done|]. symmetry. apply occ_zero. intros Hpc.
      apply occ_pos in Hpc. rewrite <- Hl in Hpc. apply occ_pos in Hpc. apply Hin in Hc as [->|(_ & _ & Hall)].
      * rewrite Hp in Hpc. by apply list_elem_of_singleton in Hpc.
      * destruct (Hall _ Hpc) as (p' & [= <-] & ?). done.
    + rewrite Hocc by done. cbn [stays].
      destruct (decide (p ∈ D)) as [Hd|Hd]; [by rewrite bool_decide_true|rewrite bool_decide_false by done; apply Hl].
  - intros p Hpo. rewrite Hclosed in Hpo. apply orb_false_iff in Hpo as [Hpo HpD%bool_decide_eq_false].
    destruct (Ho p Hpo) as [Haddr Hcs]. split.
    + rewrite HaD, decide_False by done. by rewrite (mid_address _ _ _ _ _ _ _ Hm).
    + intros c. rewrite Hchild, decide_False by done. intros Hc. rewrite Hclosed, (Hcs c Hc). apply bool_decide_eq_false. intros HcD.
      assert (Hs : Some p ∈ parents w c) by (apply occ_pos; rewrite Hl; by apply occ_pos).
      apply Hin in HcD as [->|(_ & _ & Hall)]; [rewrite Hp in Hs; by apply list_elem_of_singleton in Hs|].
      destruct (Hall _ Hs) as (p' & [= <-] & ?). done.
Qed.

(** * Opening keeps the links in agreement, and where programs get lost

    Whatever a call of [open] does, also when it throws, the parents and children
    of all programs agree afterwards, unless the caller asks to replace a program.
    Some calls then fail: letting go of a child by hand, reusing a program for a
    parent, replacing a program by its address. *)

(** ** Computations that keep the links *)

Definition keeps {A} (m : M A) : Prop := forall w, linked w -> linked (m w).2.

Definition same_links (w w' : World) : Prop := forall c, parents w' c = parents w c /\ children w' c = children w c.

Lemma linked_same w w' : linked w -> same_links w w' -> linked w'.
Proof. intros Hl Hs c p. destruct (Hs c) as [-> _], (Hs p) as [_ ->]. apply Hl. Qed.

Lemma keeps_apply {A} (m : M A) w : linked w -> keeps m -> linked (m w).2.
Proof. intros Hl Hm. by apply Hm. Qed.

Lemma keeps_same {A} (m : M A) : (forall w, same_links w (m w).2) -> keeps m.
Proof. intros Hs w Hl. by apply (linked_same w). Qed.

Lemma same_links_refl w : same_links w w.
Proof. done. Qed.

Lemma same_links_upd w id f :
  (forall p, pr_parents (f p) = pr_parents p) -> (forall p, pr_children (f p) = pr_children p) -> same_links w (upd w id f).
Proof. intros Hp Hc c. unfold parents, children. rewrite obj_upd. destruct (decide (c = id)) as [->|]; [by rewrite Hp, Hc|done]. Qed.

Lemma kept_bind {A B} (m : M A) (k : A -> M B) : keeps m -> (forall a, keeps (k a)) -> keeps (bindM m k).
Proof. intros Hm Hk w Hl. unfold bindM. specialize (Hm w Hl). destruct (m w) as [[a|e|] w1]; [by apply Hk|done|done]. Qed.

Lemma kept_read {A B} (f : World -> A) (k : A -> M B) : (forall a, keeps (k a)) -> keeps (fun w => k (f w) w).
Proof. intros Hk w. apply Hk. Qed.

Lemma kept_forM {A} (f : A -> M unit) l : (forall x, keeps (f x)) -> keeps (forM f l).
Proof. intros Hf. induction l as [|x l IH]; [by intros w|]. cbn. by apply kept_bind. Qed.

Lemma kept_ret {A} (a : A) : keeps (ret a).
Proof. by intros w. Qed.
Lemma kept_raise {A} e : keeps (raise (A := A) e).
Proof. by intros w. Qed.
#[local] Hint Resolve kept_bind kept_ret kept_raise kept_forM : core.

Lemma kept_if {A} (b : bool) (m m' : M A) : keeps m -> keeps m' -> keeps (if b then m else m').
Proof. by destruct b. Qed.

Lemma addParent_links c q w : linked w -> linked (addParent c q w).
Proof.
  intros Hl. unfold addParent. destruct q as [p|].
  - set (w1 := upd w c _). set (w2 := upd w1 p _).
    assert (Hp : forall x, parents w2 x = if decide (x = c) then parents w c ++ [Some p] else parents w x).
    { intros x. unfold w2, w1, parents at 1. rewrite !obj_upd. destruct (decide (x = p)) as [->|]; cbn; rewrite ?obj_upd;
        (destruct (decide (_ = c)) as [->|]; done). }
    assert (Hc : forall x, children w2 x = if decide (x = p) then children w p ++ [c] else children w x).
    { assert (Hc1 : forall y, children w1 y = children w y).
      { intros y. unfold w1, children. rewrite obj_upd. by destruct (decide (y = c)) as [->|]. }
      intros x. unfold w2, children at 1. rewrite obj_upd. destruct (decide (x = p)) as [->|]; cbn; [by rewrite Hc1|apply Hc1]. }
    intros x y. rewrite Hp, Hc. destruct (decide (x = c)) as [->|Hx], (decide (y = p)) as [->|Hy].
    + rewrite !occ_app, Hl, !occ_cons, !decide_True by done. done.
    + rewrite occ_app, Hl, occ_cons, decide_False by congruence. unfold occ at 2. cbn. lia.
    + rewrite occ_app, Hl, occ_cons, decide_False by congruence. unfold occ at 3. cbn. lia.
    + apply Hl.
  - case_bool_decide; [done|]. set (w1 := upd w c _). intros x y.
    assert (Hc : children w1 y = children w y) by (unfold w1, children; rewrite obj_upd; by destruct (decide (y = c)) as [->|]).
    rewrite Hc, <- Hl. unfold w1, parents at 1. rewrite obj_upd. destruct (decide (x = c)) as [->|]; [|done].
    change (occ (Some y) (parents w c ++ [None]) = occ (Some y) (parents w c)).
    rewrite occ_app, occ_cons, decide_False by done. unfold occ at 2. cbn. lia.
Qed.

Lemma save_keeps id : keeps (save id).
Proof.
  intros w Hl. unfold save. set (s := pr_source _).
  set (w1 := upd (with_blocks w (Map_set (w_blocks w) (source_cid s) s)) id _).
  assert (linked w1) by (apply (linked_same w); [done|]; by apply (same_links_upd (with_blocks w _))).
  destruct (pr_address _); [|done]. by destruct (_ && _).
Qed.

Lemma address_keeps id : keeps (address id).
Proof. intros w Hl. unfold address. by destruct (pr_address _). Qed.

Lemma emit_keeps fuel name detail : forall id, keeps (emitEvent fuel name detail id).
Proof.
  induction fuel as [|fuel IH]; intros id; [by intros w|]. cbn [emitEvent]. intros w Hl.
  apply (kept_forM (fun q => match q with Some p => emitEvent fuel name detail p | None => ret tt end)).
  - intros [p|]; [apply IH|apply kept_ret].
  - by apply (linked_same w).
Qed.

Lemma call_back_keeps c mine id : keeps mine -> keeps (call_back c mine id).
Proof. intros Hm. destruct c as [[|n]|]; [done|by intros w Hl; apply (linked_same w)|by intros w]. Qed.

Lemma beforeOpen_keeps fuel : forall id e parent, keeps (beforeOpen fuel id e parent).
Proof.
  induction fuel as [|fuel IH]; intros id e parent w0 Hl0; [done|]. cbn [beforeOpen].
  destruct (pr_source (obj w0 id)) as [cid variant programs]. apply keeps_apply; [done|]. apply kept_if; [done|]. apply kept_bind; [apply save_keeps|]. intros _.
  apply kept_bind; [apply address_keeps|]. intros a. apply kept_bind; [by intros w|]. intros up. apply kept_if; [done|].
  intros w Hl. apply (addParent_links id parent) in Hl. destruct (negb (closed w id)); [done|]. revert Hl. generalize (addParent id parent w). clear w. intros w Hl.
  assert (Hl' : linked (upd w id (set_events (Some e)))) by (apply (linked_same w); [done|by apply same_links_upd]).
  apply (kept_bind (forM (fun next => beforeOpen fuel next e (Some id)) (pr_programs (obj (upd w id (set_events (Some e))) id)))); [auto| |done].
  intros _. apply kept_bind.
  - unfold call_onBeforeOpen. apply call_back_keeps. intros w1 Hl1. cbn. destruct (eo_parent e); [done|]. by apply (linked_same w1).
  - intros _ w1 Hl1. apply (linked_same w1); [done|]. by apply same_links_upd.
Qed.

Lemma afterOpen_keeps fuel : forall id, keeps (afterOpen fuel id).
Proof.
  induction fuel as [|fuel IH]; intros id; [by intros w|]. intros w Hl. cbn [afterOpen].
  apply (kept_bind (emitEvent (S fuel) OpenEvent id id)); [apply emit_keeps| |apply (linked_same w); [done|by apply same_links_upd]].
  intros _. apply kept_bind.
  - intros w1 Hl1. destruct (pr_eventOptions _); [by apply call_back_keeps|done].
  - intros _ w1 Hl1. by apply kept_forM.
Qed.

(** ** Reading a program from its block *)

Fixpoint source_rect (P : Source -> Prop) (Hs : forall c v ps, Forall P ps -> P (MkSource c v ps)) (s : Source) : P s :=
  match s with
  | MkSource c v ps => Hs c v ps ((fix go ps := match ps return Forall P ps with [] => Forall_nil_2 _ | p :: ps => Forall_cons_2 _ _ _ (source_rect P Hs p) (go ps) end) ps)
  end.

Lemma allocate_links s : forall w, same_links w (allocate s w).2.
Proof.
  induction s as [cid v ps IH] using source_rect. intros w. cbn [allocate].
  assert (Hall : forall w, same_links w (collect_all allocate ps w).2).
  { clear w. induction IH as [|s ps Hs _ IHps]; intros w; [done|]. rewrite collect_all_cons. specialize (Hs w). destruct (allocate s w) as [i w1].
    specialize (IHps w1). destruct (collect_all allocate ps w1) as [ids w2]. cbn in *. intros c. destruct (Hs c) as [<- <-]. apply IHps. }
  specialize (Hall w). destruct (collect_all allocate ps w) as [ids w1]. cbn in *. set (id := fresh _). intros c. destruct (Hall c) as [<- <-].
  unfold parents, children, obj. cbn. destruct (decide (c = id)) as [->|Hc]; [|by rewrite lookup_insert_ne].
  rewrite lookup_insert_eq. assert (w_heap w1 !! id = None) as ->; [|done]. apply not_elem_of_dom. apply is_fresh.
Qed.

Lemma load_keeps addr : keeps (load addr).
Proof.
  intros w Hl. unfold load. destruct (Map_get _ addr) as [s|]; [|done]. pose proof (allocate_links s w) as Hs. destruct (allocate s w) as [id w1].
  cbn in *. apply (linked_same w1); [by apply (linked_same w)|]. by apply same_links_upd.
Qed.

Lemma check_keeps fuel addr toOpen s : s <> Some replace -> keeps (checkProcessExisting fuel addr toOpen s).
Proof. intros Hs w Hl. unfold checkProcessExisting. destruct s as [m|]; [destruct m|]; try done; cbn; by destruct (Map_get _ addr). Qed.

Lemma open_program_keeps fuel program o : existing o <> Some replace -> keeps (open_program fuel program o).
Proof.
  intros Ho. destruct program as [a|id]; [apply kept_raise|]. cbn [open_program]. apply kept_bind; [apply save_keeps|]. intros addr.
  apply kept_bind; [by apply check_keeps|]. intros [p|]; [apply kept_ret|]. apply kept_bind; [apply beforeOpen_keeps|]. intros _.
  apply kept_bind; [destruct (open_fails o); [apply kept_raise|apply kept_ret]|]. intros _. apply kept_bind; [apply afterOpen_keeps|intros _; apply kept_ret].
Qed.

(** Whatever [open] is called with - a program or an address, with or without a
    parent, rejecting or reusing a program that is open - and whether it returns or
    throws, the parents and the children of all programs agree afterwards if they
    did before. *)
Theorem open_keeps_links fuel storeOrAddress o w :
  existing o <> Some replace -> linked w -> linked (handler_open fuel storeOrAddress o w).2.
Proof.
  intros Ho. revert w. change (keeps (handler_open fuel storeOrAddress o)). destruct storeOrAddress as [addr|id]; cbn [handler_open].
  - intros w Hl. destruct (Map_has _ addr).
    + revert w Hl. apply kept_bind; [by apply check_keeps|]. intros [p|]; [apply kept_ret|by apply open_program_keeps].
    + revert w Hl. apply kept_bind; [apply load_keeps|]. intros id. by apply open_program_keeps.
  - intros w Hl. case_bool_decide; [done|]. destruct (closed w id); [by apply open_program_keeps|]. revert w Hl.
    apply kept_bind; [apply address_keeps|]. intros a w Hl. destruct (Map_get _ a) as [p|].
    + case_bool_decide; [by apply addParent_links|]. revert w Hl. apply kept_bind; [by apply check_keeps|]. intros [p'|]; [apply kept_ret|by apply open_program_keeps].
    + apply addParent_links. by apply (linked_same w).
Qed.

(** ** Programs that get lost *)

Lemma addParent_closed c q w x : closed (addParent c q w) x = closed w x.
Proof.
  unfold addParent, closed. destruct q as [p|]; [|case_bool_decide; [done|rewrite obj_upd; by destruct (decide (x = c)) as [->|]]].
  rewrite !obj_upd. destruct (decide (x = p)) as [->|]; cbn; rewrite ?obj_upd; by destruct (decide (_ = c)) as [->|].
Qed.

(** Opening a program for a parent with the strategy to reuse returns the
    program that is open at the address without telling it of its parent: the
    parent cannot let go of it, its [drop] throws. *)
Theorem reuse_forgets_parent fuel fuel' w id p0 ps q ev fails :
  closed w id = true -> id <> q -> id <> p0 -> pr_address (obj w id) = None ->
  Map_get (w_items w) (source_cid (pr_source (obj w id))) = Some p0 ->
  closed w p0 = false -> pr_parents (obj w p0) = Some ps -> Some q ∉ ps ->
  exists w', handler_open fuel (inr id) (MkOpenOptions (Some reuse) (Some q) ev fails) w = (Val p0, w') /\
    parents w' p0 = parents w p0 /\ (drop_program (S fuel') p0 (Some q) w').1 = Exn "Could not find from in parents".
Proof.
  intros Hc Hq Hp Ha Hi Hc0 Hps Hn. cbn [handler_open option_parent]. rewrite bool_decide_false by congruence. rewrite Hc.
  unfold open_program, bindM, save. rewrite Ha. set (s := pr_source (obj w id)). set (w1 := upd _ id _).
  unfold checkProcessExisting. cbn [existing default]. change (w_items w1) with (w_items w). fold s in Hi. rewrite Hi. exists w1. split; [done|].
  assert (Ho : obj w1 p0 = obj w p0) by (unfold w1; rewrite obj_upd, decide_False by done; done).
  split; [unfold parents; by rewrite Ho|]. unfold drop_program, end_program. cbn [end_]. unfold closed in *. rewrite Ho, Hc0.
  unfold end_decision. rewrite Ho, Hps. assert (findIndex (Some q) ps = None) as ->; [|done].
  destruct (findIndex (Some q) ps) as [i|] eqn:E; [|done]. exfalso. apply Hn. apply findIndex_perm in E. rewrite E. by left.
Qed.

Lemma emit_root fuel name detail id w :
  parents w id = [None] -> emitEvent (S (S fuel)) name detail id w = (Val tt, observe w (Dispatched id name detail)).
Proof. intros Hp. cbn [emitEvent]. rewrite Hp. done. Qed.

(** A child that was let go of by hand but stays open for another parent is still
    among the children of the first one: closing that one throws and it stays open. *)
Theorem released_child_blocks_close fuel w p c address_p :
  p <> c -> closed w p = false -> closed w c = false -> pr_parents (obj w p) = Some [None] -> pr_children (obj w p) = Some [c] ->
  pr_parents (obj w c) = Some [Some p; None] -> pr_address (obj w p) = Some address_p -> pr_eventOptions (obj w p) = None -> 2 <= fuel ->
  exists w1 w2, close fuel c (Some p) w = (Val false, w1) /\
    close fuel p None w1 = (Exn "Could not find from in parents", w2) /\ closed w2 p = false /\ closed w2 c = false.
Proof.
  intros Hpc Hp Hc Hpp Hch Hcp Hap Hev Hf. destruct fuel as [|[|fuel]]; [lia..|].
  set (w1 := upd w c (set_parents [None])).
  assert (Ho : forall x, obj w1 x = if decide (x = c) then set_parents [None] (obj w c) else obj w x) by (intros x; unfold w1; apply obj_upd).
  exists w1. unfold close, end_program. cbn [end_]. rewrite Hc. unfold end_decision at 1. rewrite Hcp. cbn [findIndex].
  rewrite bool_decide_true by done. rewrite bool_decide_false by done. cbn [splice take drop app settle].
  assert (closed w1 p = false) as -> by (unfold closed; rewrite Ho, decide_False by done; exact Hp).
  unfold end_decision. rewrite Ho, decide_False by done. rewrite Hpp. cbn [findIndex]. rewrite !bool_decide_true by done.
  unfold processEnd, bindM. rewrite (emit_root fuel (EndEvent Close) p p w1) by (unfold parents; rewrite Ho, decide_False by done; by rewrite Hpp).
  set (w2 := observe w1 _). assert (Ho2 : forall x, obj w2 x = obj w1 x) by done.
  unfold call_end. rewrite Ho2, Ho, decide_False, Hev by done. unfold ret.
  assert (children w2 p = [c]) as -> by (unfold children; rewrite Ho2, Ho, decide_False by done; by rewrite Hch).
  rewrite collect_all_cons. assert (closed w2 c = false) as Hc2 by (unfold closed; rewrite Ho2, Ho, decide_True by done; exact Hc). rewrite Hc2.
  unfold end_decision. rewrite Ho2, Ho, decide_True by done. cbn [set_parents pr_parents findIndex]. rewrite bool_decide_false by done.
  cbn [fmap option_fmap option_map]. unfold collect_all. cbn [fold_left]. rewrite Ho2, Ho, decide_False, Hch by done.
  set (w3 := upd w2 p (set_children [])). exists w3. split; [done|]. split; [done|].
  assert (Hcl : forall x, closed w3 x = closed w1 x).
  { intros x. unfold closed, w3. rewrite obj_upd. destruct (decide (x = p)) as [->|]; by rewrite Ho2. }
  rewrite !Hcl. split; unfold closed; rewrite Ho; [by rewrite decide_False|by rewrite decide_True].
Qed.

(** When the program's own [open] throws, the program is left open and kept
    under its address: opening it again returns it without running its [open]. *)
Theorem failed_open_stays_open fuel w id cid e ev :
  pr_source (obj w id) = MkSource cid true [] -> pr_programs (obj w id) = [] -> cid <> ""%string ->
  pr_address (obj w id) = None -> pr_parents (obj w id) = None -> closed w id = true -> Map_get (w_items w) cid = None ->
  user_onBeforeOpen ev = None ->
  let failing := MkOpenOptions None None ev (Some e) in
  exists w1, handler_open (S fuel) (inr id) failing w = (Exn e, w1) /\ closed w1 id = false /\
    forall o, option_parent o <> Some id -> (handler_open (S fuel) (inr id) o w1).1 = Val id.
Proof.
  intros Hs Hp Hcid Ha Hpar Hc Hi Hev failing. cbn [handler_open failing option_parent]. rewrite bool_decide_false by done. rewrite Hc.
  unfold open_program, bindM at 1. unfold save at 1. rewrite Ha, Hs. cbn [source_cid].
  set (w1 := upd _ id (set_address cid)). assert (Hi1 : w_items w1 = w_items w) by done.
  assert (Ho1 : obj w1 id = set_address cid (obj w id)) by (unfold w1; by rewrite obj_upd, decide_True).
  unfold bindM at 1. unfold checkProcessExisting. cbn [existing failing default]. rewrite Hi1, Hi.
  assert (Hb : exists w2, beforeOpen (S fuel) id (handler_events id cid failing) None w1 = (Val tt, w2) /\ closed w2 id = false /\
    Map_get (w_items w2) cid = Some id /\ pr_address (obj w2 id) = Some cid).
  { cbn [beforeOpen]. rewrite Ho1. cbn [set_address pr_source]. rewrite Hs. cbn [negb]. unfold bindM at 1. unfold save. rewrite Ho1. cbn [set_address pr_source pr_address].
    rewrite Hs. cbn [source_cid]. rewrite (bool_decide_true (cid = cid)) by done. cbn [negb]. rewrite andb_false_r.
    set (w2 := upd _ id (set_address cid)). assert (Ho2 : obj w2 id = set_address cid (obj w id)).
    { unfold w2. rewrite obj_upd, decide_True by done. transitivity (set_address cid (obj w1 id)); [done|by rewrite Ho1]. }
    unfold bindM at 1. unfold address. rewrite Ho2. cbn [set_address pr_address]. unfold bindM at 1. unfold getAllParentAddresses. cbn [getAllParent].
    assert (parents w2 id = []) as -> by (unfold parents; rewrite Ho2; cbn; by rewrite Hpar). cbn [foldM mbind outcome_bind mapM_out].
    rewrite bool_decide_false by apply not_elem_of_nil.
    assert (closed w2 id = true) as -> by (unfold closed; rewrite Ho2; cbn; exact Hc). cbn [negb].
    unfold addParent. assert (parents w2 id = []) as -> by (unfold parents; rewrite Ho2; cbn; by rewrite Hpar).
    rewrite bool_decide_false by apply not_elem_of_nil. cbn [app]. set (w3 := upd w2 id (set_parents [None])). set (w4 := upd w3 id (set_events _)).
    assert (Ho4 : obj w4 id = set_events (Some (handler_events id cid failing)) (set_parents [None] (set_address cid (obj w id)))).
    { unfold w4, w3. rewrite !obj_upd, !decide_True by done. by rewrite Ho2. }
    rewrite Ho4. cbn [set_events set_parents set_address pr_programs]. rewrite Hp. cbn [forM]. unfold bindM at 1. cbn [ret]. unfold bindM.
    unfold call_onBeforeOpen, handler_events at 1. cbn [onBeforeOpen user_events failing]. rewrite Hev. cbn [call_back eo_parent eo_address eo_program option_parent handler_events].
    eexists. split; [done|]. split; [unfold closed; by rewrite obj_upd, decide_True|]. split; [apply Map_get_set_eq|].
    rewrite obj_upd, decide_True by done. transitivity (pr_address (obj w4 id)); [done|by rewrite Ho4]. }
  destruct Hb as (w2 & E & Hc2 & Hi2 & Ha2). unfold bindM at 1. cbn [option_parent failing]. fold failing. rewrite E. unfold bindM at 1. cbn [open_fails failing]. exists w2. split; [done|]. split; [done|].
  intros o Ho. rewrite bool_decide_false by done. rewrite Hc2. unfold bindM at 1. unfold address. rewrite Ha2, Hi2. by rewrite bool_decide_true.
Qed.
