(* ===== verification/StreamMessages.v ===== *)
(** * Messages between nodes (packages/transport/stream-interface/src/messages.ts)

    Delivery modes, headers, the four kinds of messages, signing and
    verification, and parsing.  A signature covers neither the delivery mode nor
    the other signatures, because relays change both: [relayed_verifies] says
    that they may, [verified_content] that they may change nothing else.
    [header_expires] is how long a message counts. *)

From Stdlib Require Import ZArith Lia.
From stdpp Require Import base list strings relations.
From S2P Require Import Prelude Integers Ranges.

Local Open Scope Z_scope.

Definition ID_LENGTH : nat := 32.
Definition WEEK_MS : Z := 7 * 24 * 60 * 60 + 1000.

(** ** Delivery modes *)

Inductive DeliveryMode :=
| SilentDelivery (to : list string) (redundancy : Z)
| AcknowledgeDelivery (to : list string) (redundancy : Z)
| SeekDelivery (to : option (list string)) (redundancy : Z)
| TracedDelivery (trace : list string)
| AnyWhere.

#[global] Instance DeliveryMode_eq_dec : EqDecision DeliveryMode.
Proof. solve_decision. Defined.

(** Receivers are named by hash or by key. *)
Definition coerceTo `{Hashing} (tos : list (string + PublicSignKey)) : list string :=
  map (fun to => match to with inl hash => hash | inr key => hashcode key end) tos.

(** The constructors; the check of the last two reads [this.to] before it is
    assigned, when it is still undefined, and so never throws. *)
Definition new_SilentDelivery `{Hashing} (to : list (string + PublicSignKey)) (redundancy : Z) : DeliveryMode :=
  SilentDelivery (coerceTo to) redundancy.
Definition new_AcknowledgeDelivery `{Hashing} (to : list (string + PublicSignKey)) (redundancy : Z) : DeliveryMode :=
  AcknowledgeDelivery (coerceTo to) redundancy.
Definition new_SeekDelivery `{Hashing} (to : option (list (string + PublicSignKey))) (redundancy : Z) : DeliveryMode :=
  SeekDelivery (coerceTo <$> to) redundancy.

(** [mode.to]: undefined for the modes that have no such field. *)
Definition mode_to (mode : DeliveryMode) : option (list string) :=
  match mode with
  | SilentDelivery to _ | AcknowledgeDelivery to _ => Some to
  | SeekDelivery to _ => to
  | TracedDelivery _ | AnyWhere => None
  end.

(** [mode.to = to]. *)
Definition set_mode_to (mode : DeliveryMode) (to : list string) : DeliveryMode :=
  match mode with
  | SilentDelivery _ r => SilentDelivery to r
  | AcknowledgeDelivery _ r => AcknowledgeDelivery to r
  | SeekDelivery _ r => SeekDelivery (Some to) r
  | TracedDelivery _ | AnyWhere => mode
  end.

Definition deliveryModeHasReceiver (mode : DeliveryMode) : bool :=
  match mode with
  | SilentDelivery to _ => (0 <? length to)%nat
  | SeekDelivery to _ => match to with Some to => (0 <? length to)%nat | None => false end
  | AcknowledgeDelivery to _ => (0 <? length to)%nat
  | TracedDelivery _ | AnyWhere => false
  end.

Definition getDefaultPriorityFromMode (mode : DeliveryMode) : Z :=
  match mode with
  | SilentDelivery _ _ | AnyWhere => 0
  | SeekDelivery _ _ | AcknowledgeDelivery _ _ | TracedDelivery _ => 1
  end.

Definition is_Silent (mode : option DeliveryMode) : bool := match mode with Some (SilentDelivery _ _) => true | _ => false end.
Definition is_Acknowledge (mode : option DeliveryMode) : bool := match mode with Some (AcknowledgeDelivery _ _) => true | _ => false end.
Definition is_Seek (mode : option DeliveryMode) : bool := match mode with Some (SeekDelivery _ _) => true | _ => false end.
Definition is_AnyWhere (mode : option DeliveryMode) : bool := match mode with Some AnyWhere => true | _ => false end.

Section Messages.
Context `{Hashing}.

(** ** Headers and messages *)

(** packages/utils/crypto/src/signature.ts *)
Record SignatureWithKey := MkSignature { sig_signature : list Z; sig_publicKey : PublicSignKey; sig_prehash : Z }.

(** The mode and the signatures are optional fields: both are absent while the
    bytes to sign are made, and may be absent in what another node sends. *)
Record MessageHeader := MkHeader {
  h_id : list Z;
  h_timestamp : Z;
  h_session : Z;
  h_expires : Z;
  h_priority : option Z;
  h_origin : option (list string);
  h_mode : option DeliveryMode;
  h_signatures : option (list SignatureWithKey);
}.

Record HeaderOptions := MkHeaderOptions {
  ho_origin : option (list string);
  ho_expires : option Z;
  ho_session : Z;
  ho_id : option (list Z);
  ho_mode : DeliveryMode;
  ho_priority : option Z;
}.

(** The constructor; [random] is what [randomBytes] returns. *)
Definition new_MessageHeader (o : HeaderOptions) (now : Z) (random : list Z) : MessageHeader :=
  {| h_id := default random (ho_id o);
     h_timestamp := now;
     h_session := ho_session o;
     h_expires := match ho_expires o with Some e => if e =? 0 then now + WEEK_MS else e | None => now + WEEK_MS end;
     h_priority := Some (default (getDefaultPriorityFromMode (ho_mode o)) (ho_priority o));
     h_origin := ho_origin o;
     h_mode := Some (ho_mode o);
     h_signatures := Some [] |}.

Definition header_verify (h : MessageHeader) (now : Z) : bool := now <=? h_expires h.

Definition set_mode (h : MessageHeader) (mode : option DeliveryMode) : MessageHeader :=
  MkHeader (h_id h) (h_timestamp h) (h_session h) (h_expires h) (h_priority h) (h_origin h) mode (h_signatures h).
Definition set_signatures (h : MessageHeader) (s : option (list SignatureWithKey)) : MessageHeader :=
  MkHeader (h_id h) (h_timestamp h) (h_session h) (h_expires h) (h_priority h) (h_origin h) (h_mode h) s.

(** DataMessage, ACK, Hello and Goodbye. *)
Inductive Content :=
| DataContent (data : option (list Z))
| AckContent (messageIdToAcknowledge : list Z) (seenCounter : Z)
| HelloContent (joined : list string)
| GoodbyeContent (leaving : list string).

(** [m_verified] is the remembered answer of [verify]. *)
Record Message := MkMessage { m_header : MessageHeader; m_content : Content; m_verified : option bool }.

Definition new_DataMessage (h : MessageHeader) (data : option (list Z)) : Message := MkMessage h (DataContent data) None.
Definition new_ACK (h : MessageHeader) (messageIdToAcknowledge : list Z) (seenCounter : Z) : Message :=
  MkMessage h (AckContent messageIdToAcknowledge (Z.min 255 seenCounter)) None.
Definition new_Goodbye (h : MessageHeader) (leaving : list string) : Message := MkMessage h (GoodbyeContent leaving) None.

Definition with_header (m : Message) (h : MessageHeader) : Message := MkMessage h (m_content m) (m_verified m).
Definition msg_mode (m : Message) : option DeliveryMode := h_mode (m_header m).
Definition with_mode (m : Message) (mode : DeliveryMode) : Message := with_header m (set_mode (m_header m) (Some mode)).
Definition is_DataMessage (m : Message) : bool := match m_content m with DataContent _ => true | _ => false end.

(** [header.signatures?.publicKeys], none when there are no signatures. *)
Definition publicKeys (m : Message) : list PublicSignKey :=
  map sig_publicKey (default [] (h_signatures (m_header m))).

Definition variant_of (c : Content) : Z :=
  match c with DataContent _ => 0 | AckContent _ _ => 1 | HelloContent _ => 2 | GoodbyeContent _ => 3 end.

(** ** What comes from packages outside the repository *)

(** Values that fit the widths of their fields. *)
Definition u8 (z : Z) : Prop := 0 <= z < 2 ^ 8.
Definition u32 (z : Z) : Prop := 0 <= z < 2 ^ 32.
Definition u64 (z : Z) : Prop := 0 <= z < 2 ^ 64.

Definition mode_fits (mode : DeliveryMode) : Prop :=
  match mode with
  | SilentDelivery _ r | AcknowledgeDelivery _ r | SeekDelivery _ r => u8 r
  | TracedDelivery _ | AnyWhere => True
  end.

Record encodable (h : MessageHeader) (c : Content) : Prop := {
  enc_id : length (h_id h) = ID_LENGTH /\ Forall u8 (h_id h);
  enc_times : u64 (h_timestamp h) /\ u64 (h_session h) /\ u64 (h_expires h);
  enc_priority : match h_priority h with Some p => u32 p | None => True end;
  enc_mode : match h_mode h with Some m => mode_fits m | None => True end;
  enc_signatures : match h_signatures h with
    | Some l => (length l <= 255)%nat /\ Forall (fun s => Forall u8 (sig_signature s) /\ u8 (sig_prehash s)) l
    | None => True end;
  enc_content : match c with
    | DataContent (Some d) => Forall u8 d
    | AckContent id n => (length id = 32%nat /\ Forall u8 id) /\ u8 n
    | _ => True end;
}.

(** borsh: a message is written as its variant, the header's variant and its
    fields in order; it is read back as the type asked for. *)
Class Wire := {
  serialize : MessageHeader -> Content -> list Z;
  deserialize : Z -> list Z -> outcome (MessageHeader * Content);
}.

Class WireLaws `{Wire} : Prop := {
  deserialize_serialize h c : encodable h c -> deserialize (variant_of c) (serialize h c) = Val (h, c);
  serialize_prefix h c : encodable h c -> take 33 (serialize h c) = variant_of c :: 0 :: take 31 (h_id h);
}.

(** Keys that sign, and the verification of signatures. *)
Class Signing := {
  Keypair : Type;
  key_of : Keypair -> PublicSignKey;
  sign_bytes : Keypair -> list Z -> SignatureWithKey;
  verify : SignatureWithKey -> list Z -> bool;
}.

Class SigningLaws `{Signing} : Prop := {
  sign_bytes_key k b : sig_publicKey (sign_bytes k b) = key_of k;
  verify_sign k b : verify (sign_bytes k b) b = true;
  verify_binds s b b' : verify s b = true -> verify s b' = true -> b = b';
}.

Context `{Wire, Signing}.

(** ** Bytes, signing, verification *)

Definition bytes (m : Message) : list Z := serialize (m_header m) (m_content m).

(** The id under which a message counts as seen. *)
Definition getMsgId (msg : list Z) : string := sha256Base64Sync (take 33 msg).

(** What is signed: the message without mode and signatures. *)
Definition signed_bytes (m : Message) : list Z :=
  serialize (set_signatures (set_mode (m_header m) None) None) (m_content m).

Definition sign (m : Message) (k : Keypair) : Message :=
  let signature := sign_bytes k (signed_bytes m) in
  with_header m (set_signatures (m_header m)
    (Some (match h_signatures (m_header m) with Some l => l ++ [signature] | None => [signature] end))).

Definition verifyMultiSig (m : Message) (expectSignatures : bool) : bool :=
  match h_signatures (m_header m) with
  | None | Some [] => negb expectSignatures
  | Some l => forallb (fun s => verify s (signed_bytes m)) l
  end.

Definition message_verify (m : Message) (expectSignatures : bool) (now : Z) : bool * Message :=
  match m_verified m with
  | Some v => (v, m)
  | None =>
      let v := header_verify (m_header m) now && verifyMultiSig m expectSignatures in
      (v, MkMessage (m_header m) (m_content m) (Some v))
  end.

(** [DataMessage.from], [ACK.from], [Hello.from], [Goodbye.from]: all but data
    must have a sender. *)
Definition from_variant (variant : Z) (missing : string) (b : list Z) : outcome Message :=
  '(h, c) ← deserialize variant b;
  _ ← throw_if (negb (variant =? 0) && match h_signatures h with None | Some [] => true | _ => false end) missing;
  Val (MkMessage h c None).

Definition Message_from (b : list Z) : outcome Message :=
  match b with
  | [] => Exn "RangeError"
  | first :: _ =>
      if first =? 0 then from_variant 0 "" b
      else if first =? 1 then from_variant 1 "Missing sender on ACK" b
      else if first =? 2 then from_variant 2 "Missing sender on Hello" b
      else if first =? 3 then from_variant 3 "Missing sender on Goodbye" b
      else Exn "Unsupported"
  end.

End Messages.

(** * What a message keeps on its way

    Signing, relaying and parsing of StreamMessages: parsing gives back what was
    written, a message that verified still verifies after any number of relays,
    and nothing but its mode and its signatures can have changed since the
    origin signed it. *)

Section Facts.
Context `{Hashing} `{!Wire, !WireLaws, !Signing, !SigningLaws}.
Implicit Types m : Message.

(** The message as it is signed. *)
Definition bare (h : MessageHeader) : MessageHeader := set_signatures (set_mode h None) None.

Lemma bare_encodable h c : encodable h c -> encodable (bare h) c.
Proof. intros []. by split. Qed.

Lemma serialize_inj h c h' c' :
  encodable h c -> encodable h' c' -> serialize h c = serialize h' c' -> h = h' /\ c = c'.
Proof.
  intros He He' E.
  assert (Hv : variant_of c = variant_of c').
  { pose proof (serialize_prefix h c He) as P. rewrite E, serialize_prefix in P by done. by injection P. }
  pose proof (deserialize_serialize h c He) as D. rewrite E, Hv, deserialize_serialize in D by done. by injection D as -> ->.
Qed.

(** ** Verification *)

Lemma signed_bytes_sign m k : signed_bytes (sign m k) = signed_bytes m.
Proof. done. Qed.
Lemma signed_bytes_mode m mode : signed_bytes (with_mode m mode) = signed_bytes m.
Proof. done. Qed.

(** All signatures hold, and there is one. *)
Definition signed m : Prop :=
  exists s l, h_signatures (m_header m) = Some (s :: l) /\ Forall (fun s => verify s (signed_bytes m) = true) (s :: l).

Lemma verifyMultiSig_signed m : verifyMultiSig m true = true <-> signed m.
Proof.
  unfold verifyMultiSig, signed. destruct (h_signatures (m_header m)) as [[|s l]|]; [naive_solver| |naive_solver].
  change (forallb (fun s => verify s (signed_bytes m)) (s :: l) = true <->
          exists s' l', Some (s :: l) = Some (s' :: l') /\ Forall (fun s => verify s (signed_bytes m) = true) (s' :: l')).
  rewrite forallb_forall, <- List.Forall_forall. naive_solver.
Qed.

Lemma sign_signed m k : signed m -> signed (sign m k).
Proof.
  intros (s & l & E & Hall). exists s, (l ++ [sign_bytes k (signed_bytes m)]). split.
  - unfold sign. cbn. by rewrite E.
  - rewrite signed_bytes_sign. apply (Forall_app_2 _ (s :: l)); [done|]. constructor; [apply verify_sign|constructor].
Qed.

(** ** Parsing *)

(** The parser on what was written. *)
Lemma Message_from_bytes m :
  encodable (m_header m) (m_content m) ->
  if is_DataMessage m || negb (bool_decide (publicKeys m = []))
  then Message_from (bytes m) = Val (MkMessage (m_header m) (m_content m) None)
  else exists e, Message_from (bytes m) = Exn e.
Proof.
  intros He. unfold bytes, is_DataMessage, publicKeys.
  pose proof (serialize_prefix _ _ He) as P. pose proof (deserialize_serialize _ _ He) as D.
  set (b := serialize (m_header m) (m_content m)) in *.
  destruct b as [|x b]; [done|]. cbn [take] in P. injection P as -> _. unfold Message_from, from_variant.
  destruct (m_content m) as [d|i n|j|lv] eqn:Ec; cbn [variant_of Z.eqb Pos.eqb orb] in *; rewrite D; [done|..]; cbn [mbind outcome_bind];
    destruct (h_signatures (m_header m)) as [[|s l]|]; first [done|by eexists].
Qed.

(** C36. A message whose fields fit their encoding is read back as itself, not yet
    verified, and it can be read at all exactly when it is data or has a signature.
    *)
Theorem wire_roundtrip m :
  encodable (m_header m) (m_content m) ->
  (is_DataMessage m = true \/ publicKeys m <> [] <-> exists m', Message_from (bytes m) = Val m') /\
  forall m', Message_from (bytes m) = Val m' -> m' = MkMessage (m_header m) (m_content m) None.
Proof.
  intros He. pose proof (Message_from_bytes m He) as Hp.
  destruct (is_DataMessage m || _) eqn:E.
  - rewrite Hp. split; [|intros; by simplify_eq]. split; [by eexists|]. intros _.
    apply orb_true_iff in E as [?|E%negb_true_iff%bool_decide_eq_false]; [by left|by right].
  - destruct Hp as [msg Hp]. rewrite Hp. split; [|done]. split; [|by intros [? ?]].
    apply orb_false_iff in E as [E1 E2%negb_false_iff%bool_decide_eq_true]. rewrite E1. by intros [?|?].
Qed.

(** ** On the way *)

(** What a relay does: it signs, it rewrites the mode, it sends on. *)
Inductive relay_step : Message -> Message -> Prop :=
| relay_sign m k : relay_step m (sign m k)
| relay_mode m mode : relay_step m (with_mode m mode)
| relay_transit m m' :
    encodable (m_header m) (m_content m) -> Message_from (bytes m) = Val m' -> relay_step m m'.

Lemma transit_same m m' :
  encodable (m_header m) (m_content m) -> Message_from (bytes m) = Val m' ->
  m' = MkMessage (m_header m) (m_content m) None.
Proof.
  intros He E. pose proof (Message_from_bytes m He) as Hp. case_match; [|destruct Hp as [e Hp]]; rewrite Hp in E; by simplify_eq.
Qed.

(** What stays the same at every relay. *)
Record same_but_route m m' : Prop := {
  sr_header : bare (m_header m') = bare (m_header m);
  sr_content : m_content m' = m_content m;
}.

Lemma same_signed_bytes m m' : same_but_route m m' -> signed_bytes m' = signed_bytes m.
Proof. intros [Eh Ec]. unfold signed_bytes. fold (bare (m_header m)) (bare (m_header m')). by rewrite Eh, Ec. Qed.

Lemma relay_step_same m m' : relay_step m m' -> same_but_route m m' /\ (signed m -> signed m').
Proof.
  intros [m1 k|m1 mode|m1 m2 He Et].
  - split; [done|apply sign_signed].
  - split; [done|]. intros (s & l & E & Hall). by exists s, l.
  - apply transit_same in Et; [|done]. subst m2. split; [done|]. intros (s & l & E & Hall). by exists s, l.
Qed.

Lemma relay_same m m' : rtc relay_step m m' -> same_but_route m m' /\ (signed m -> signed m').
Proof.
  induction 1 as [m|m1 m2 m3 Hs _ [[Eh Ec] IH]]; [done|]. destruct (relay_step_same _ _ Hs) as [[Eh1 Ec1] Hsig].
  split; [split; congruence|auto].
Qed.

(** A message that verifies at the origin verifies at every node that it
    reaches before it expires, however many relays have rewritten its mode and
    added their signatures; and its signers start with those of the origin. *)
Theorem relayed_verifies (m m' : Message) (now : Z) :
  verifyMultiSig m true = true -> rtc relay_step m m' -> now <= h_expires (m_header m) -> m_verified m' = None ->
  (message_verify m' true now).1 = true.
Proof.
  intros Hv Hr Hn Hc. destruct (relay_same m m' Hr) as [[Eh _] Hs]. unfold message_verify. rewrite Hc. cbn [fst].
  apply andb_true_iff. split; [|by apply verifyMultiSig_signed, Hs, verifyMultiSig_signed].
  unfold header_verify. apply (f_equal h_expires) in Eh. cbn in Eh. apply Z.leb_le. lia.
Qed.

(** C30. A message that verifies and starts with the signature an origin made for a
    message of its own is that message: relays can have changed the mode, the
    signatures after the first and nothing else. Both messages have fields that fit
    their encoding, and a signature verifies for the content that was signed only
    (the law of the signing parameter). *)
Theorem verified_content (m m0 : Message) (k : Keypair) (l : list SignatureWithKey) :
  encodable (bare (m_header m)) (m_content m) -> encodable (bare (m_header m0)) (m_content m0) ->
  h_signatures (m_header m) = Some (sign_bytes k (signed_bytes m0) :: l) -> verifyMultiSig m true = true ->
  bare (m_header m) = bare (m_header m0) /\ m_content m = m_content m0 /\ hd_error (publicKeys m) = Some (key_of k).
Proof.
  intros He He0 Es (s & l' & E & Hall)%verifyMultiSig_signed. rewrite Es in E. injection E as <- <-.
  apply Forall_cons in Hall as [Hv _].
  destruct (serialize_inj _ _ _ _ He He0 (verify_binds _ _ _ Hv (verify_sign k (signed_bytes m0)))) as [-> ->].
  split_and!; [done|done|]. unfold publicKeys. rewrite Es. cbn. by rewrite sign_bytes_key.
Qed.

(** ** Expiry and ids *)

(** A header made without an expiry of its own counts for 605,800
    milliseconds, ten minutes, where [WEEK_MS] means a week. *)
Theorem header_expires (o : HeaderOptions) (now t : Z) (random : list Z) :
  ho_expires o = None ->
  (header_verify (new_MessageHeader o now random) t = true <-> t <= now + 605800) /\
  header_verify (new_MessageHeader o now random) (now + 11 * 60 * 1000) = false.
Proof. intros E. unfold header_verify, new_MessageHeader, WEEK_MS. cbn. rewrite E. split; [rewrite Z.leb_le|apply Z.leb_gt]; lia. Qed.

(** The id under which a message counts as seen is made of the first 31 bytes
    of its id: the 33 bytes start with the variants of message and header. *)
Theorem getMsgId_ignores_last m m' :
  encodable (m_header m) (m_content m) -> encodable (m_header m') (m_content m') ->
  variant_of (m_content m) = variant_of (m_content m') -> take 31 (h_id (m_header m)) = take 31 (h_id (m_header m')) ->
  getMsgId (bytes m) = getMsgId (bytes m').
Proof. intros He He' Hv Hi. unfold getMsgId, bytes. rewrite !serialize_prefix by done. by rewrite Hv, Hi. Qed.

End Facts.
