(* ===== verification/PeerStreams.v ===== *)
(** * The streams to one peer (packages/transport/stream/src/index.ts, class PeerStreams)

    An outbound stream of two lanes that messages are written into, and an
    inbound one that is read.  A write waits for the outbound stream to be
    attached; the waiting writes are part of the state, and what is done to the
    raw streams of libp2p, which are numbered, is written out as effects.

    [one_low_ahead]: a message of high priority waits for at most one message of
    low priority; [written_fits_reader]: what is written is short enough for the
    limit of the reader.  The moving average of the bandwidth is left out. *)

From Stdlib Require Import ZArith Lia.
From stdpp Require Import base list strings relations.
From S2P Require Import Prelude JsMap PushableLanes.

Local Open Scope Z_scope.

Definition MAX_DATA_LENGTH_IN : Z := 15000000 + 1000.
Definition MAX_DATA_LENGTH_OUT : Z := 10000000 + 1000.

Definition getLaneFromPriority (priority : Z) : nat := if 0 <? priority then 0 else 1.

Section PeerStreams.
Context {Q : Type} `{Queue Q (Next (list Z) string)}.

Abbreviation Lanes2 := (@Pushable Q).

(** What happens outside: to the raw streams, to those who wait, and what is
    pushed into the lanes. *)
Inductive StreamEffect :=
| RawClosed (stream : nat)
| RawAborted (stream : nat)
| Pushed (data : list Z) (lane : nat)
| StreamEvent (name : string).

Record PeerStreams := MkPeerStreams {
  ps_protocol : string;
  ps_connId : string;
  ps_closed : bool;
  outboundStream : option Lanes2;
  rawOutboundStream : option nat;
  rawInboundStream : option nat;
  (** the writes that wait for "stream:outbound" *)
  ps_waiting : list (list Z * Z);
}.

Definition new_PeerStreams (protocol connId : string) : PeerStreams :=
  MkPeerStreams protocol connId false None None None [].

Definition set_connId (p : PeerStreams) (connId : string) : PeerStreams :=
  MkPeerStreams (ps_protocol p) connId (ps_closed p) (outboundStream p) (rawOutboundStream p) (rawInboundStream p) (ps_waiting p).
Definition set_outbound (p : PeerStreams) (out : option Lanes2) : PeerStreams :=
  MkPeerStreams (ps_protocol p) (ps_connId p) (ps_closed p) out (rawOutboundStream p) (rawInboundStream p) (ps_waiting p).
Definition set_waiting (p : PeerStreams) (w : list (list Z * Z)) : PeerStreams :=
  MkPeerStreams (ps_protocol p) (ps_connId p) (ps_closed p) (outboundStream p) (rawOutboundStream p) (rawInboundStream p) w.

Definition data_length (data : list Z) : Z := Z.of_nat (length data).

Definition isReadable (p : PeerStreams) : bool := bool_decide (is_Some (rawInboundStream p)).
Definition isWritable (p : PeerStreams) : bool := bool_decide (is_Some (outboundStream p)).

Definition write (p : PeerStreams) (data : list Z) (priority : Z) : outcome (PeerStreams * list StreamEffect) :=
  if MAX_DATA_LENGTH_OUT <? data_length data then Exn "Message too large"
  else match outboundStream p with
       | None => Exn "No writable connection"
       | Some out =>
           n ← getReadableLength out (Some 0%nat);
           let lane := if n =? 0 then 0%nat else getLaneFromPriority priority in
           '(out', _) ← push (E := string) data_length out data lane;
           Val (set_outbound p (Some out'), [Pushed data lane])
       end.

Definition waitForWrite (p : PeerStreams) (data : list Z) (priority : Z) : outcome (PeerStreams * list StreamEffect) :=
  if ps_closed p then Val (p, [])
  else if negb (isWritable p) then Val (set_waiting p (ps_waiting p ++ [(data, priority)]), [])
  else write p data priority.

Definition attachInboundStream (p : PeerStreams) (stream : nat) : PeerStreams * list StreamEffect :=
  (MkPeerStreams (ps_protocol p) (ps_connId p) (ps_closed p) (outboundStream p) (rawOutboundStream p) (Some stream) (ps_waiting p),
   [StreamEvent "stream:inbound"]).

(** The waiting writes are made in their order; one that is too long rejects
    its own promise only. *)
Definition write_waiting (p : PeerStreams) (w : list (list Z * Z)) : PeerStreams * list StreamEffect :=
  fold_left (fun '(p, eff) '(data, priority) =>
    match write p data priority with Val (p', eff') => (p', eff ++ eff') | _ => (p, eff) end) w (p, []).

Definition attachOutboundStream (p : PeerStreams) (stream : nat) : PeerStreams * list StreamEffect :=
  match outboundStream p with
  | Some _ => (p, [])
  | None =>
      let p' := MkPeerStreams (ps_protocol p) (ps_connId p) (ps_closed p) (Some (_pushable (E := string) (V := list Z) (Some 2%nat))) (Some stream) (rawInboundStream p) [] in
      let '(p'', eff) := write_waiting p' (ps_waiting p) in (p'', StreamEvent "stream:outbound" :: eff)
  end.

(** The three seconds of the i-th waiting write are over: it is rejected. *)
Definition write_timed_out (p : PeerStreams) (i : nat) : PeerStreams :=
  set_waiting p (take i (ps_waiting p) ++ drop (S i) (ps_waiting p)).

(** Closing ends the lanes, aborts and closes the raw streams, and lets the
    waiting writes go without an error. *)
Definition close (p : PeerStreams) : outcome (PeerStreams * list StreamEffect) :=
  if ps_closed p then Val (p, [])
  else
    eff ← match outboundStream p with
      | Some out =>
          _ ← _return (E := string) data_length out;
          Val (match rawOutboundStream p with Some s => [RawAborted s; RawClosed s] | None => [] end)
      | None => Val []
      end;
    let eff_in := match rawInboundStream p with Some s => [RawClosed s] | None => [] end in
    Val (MkPeerStreams (ps_protocol p) (ps_connId p) true None None None [], eff ++ eff_in ++ [StreamEvent "close"]).

(** The other side takes the next message. *)
Definition read_outbound (p : PeerStreams) : PeerStreams :=
  match outboundStream p with
  | Some out => set_outbound p (Some (waitNext (E := string) data_length out).1)
  | None => p
  end.

End PeerStreams.
Arguments PeerStreams Q : clear implicits.

(** ** The messages in the lanes *)

Section Theory.
Context {Q : Type} `{QueueLaws Q (Next (list Z) string)}.
Implicit Types p : PeerStreams Q.

(** Messages have bytes, and their priority is part of them. *)
Context (prio : list Z -> Z).

Abbreviation lane := (lane_elements (V := list Z) (E := string) (Q := Q)).
Abbreviation pending := (elements (V := list Z) (E := string) (Q := Q)).

(** A queued message of low, of high priority. *)
Definition message_of (n : Next (list Z) string) (d : list Z) : Prop :=
  n = value_next d /\ d <> [] /\ data_length d <= MAX_DATA_LENGTH_OUT.
Definition low (n : Next (list Z) string) : Prop := exists d, message_of n d /\ prio d <= 0.
Definition high (n : Next (list Z) string) : Prop := exists d, message_of n d /\ 0 < prio d.

(** The first lane holds at most one message of low priority, at its front;
    the second lane only such messages. *)
Record lanes_ok (out : @Pushable Q) (f0 f1 : @Uint8ArrayFifo Q) : Prop := {
  ok_open : ended out = false;
  ok_buffer : buffer out = Lanes [f0; f1];
  ok_sizes : lane_ok data_length f0 /\ lane_ok data_length f1;
  ok_first : match lane f0 with [] => True | n :: l => (low n \/ high n) /\ Forall high l end;
  ok_second : Forall low (lane f1);
  ok_waiting : onNext out <> None -> lane f0 ++ lane f1 = [];
}.

Record peer_ok p : Prop := {
  ok_out : match outboundStream p with Some out => exists f0 f1, lanes_ok out f0 f1 | None => True end;
  ok_waits : Forall (fun w => w.1 <> [] /\ w.2 = prio w.1) (ps_waiting p);
}.

(** The messages in the order they will be read. *)
Definition queued p : list (Next (list Z) string) :=
  match outboundStream p with Some out => pending (buffer out) | None => [] end.

Inductive peer_step : PeerStreams Q -> PeerStreams Q -> Prop :=
| peer_write p d p' eff : d <> [] -> waitForWrite p d (prio d) = Val (p', eff) -> peer_step p p'
| peer_read p : peer_step p (read_outbound p)
| peer_timeout p i : peer_step p (write_timed_out p i)
| peer_attach p s : peer_step p (attachOutboundStream p s).1
| peer_in p s : peer_step p (attachInboundStream p s).1
| peer_close p p' eff : close p = Val (p', eff) -> peer_step p p'.

Lemma lanes_pending out f0 f1 : lanes_ok out f0 f1 -> pending (buffer out) = lane f0 ++ lane f1.
Proof. intros Hok. rewrite (ok_buffer _ _ _ Hok). cbn. by rewrite app_nil_r. Qed.

Lemma message_bytes n : low n \/ high n -> 0 < value_bytes data_length n.
Proof.
  intros [(d & (-> & Hd & _) & _)|(d & (-> & Hd & _) & _)]; unfold value_bytes, data_length; cbn [nx_value value_next];
    destruct d; cbn [length]; [done|lia|done|lia].
Qed.

Lemma total_messages l : Forall (fun n => low n \/ high n) l -> 0 <= total data_length l /\ (total data_length l = 0 -> l = []).
Proof.
  induction 1 as [|n l Hn _ [IH _]]; [done|]. apply message_bytes in Hn. unfold total in *. cbn [fold_right]. split; lia.
Qed.

Lemma lane_size_zero f :
  lane_ok data_length f -> Forall (fun n => low n \/ high n) (lane f) -> (fifo_size f =? 0) = bool_decide (lane f = []).
Proof.
  unfold lane_ok. intros -> [_ Hl]%total_messages. apply eq_true_iff_eq. rewrite Z.eqb_eq, bool_decide_eq_true.
  split; [done|by intros ->].
Qed.

Lemma new_lanes_ok : lanes_ok (_pushable (E := string) (V := list Z) (Some 2%nat)) new_Fifo new_Fifo.
Proof.
  destruct (new_Fifo_ok (V := list Z) (E := string) (Q := Q) data_length) as [Hok He].
  split; [done|done|done| | |]; rewrite ?He; done.
Qed.

Lemma first_all n l : (low n \/ high n) /\ Forall high l -> Forall (fun n => low n \/ high n) (n :: l).
Proof. intros [? Hl]. constructor; [done|]. eapply Forall_impl; [exact Hl|]. by right. Qed.

(** A write into attached lanes: where the message goes. *)
Lemma write_lanes p out f0 f1 d p' eff :
  outboundStream p = Some out -> lanes_ok out f0 f1 -> d <> [] -> write p d (prio d) = Val (p', eff) ->
  data_length d <= MAX_DATA_LENGTH_OUT /\ ps_waiting p' = ps_waiting p /\
  exists out' g0 g1, outboundStream p' = Some out' /\ lanes_ok out' g0 g1 /\
    (onNext out = None ->
       lane g0 = lane f0 ++ [value_next d] /\ lane g1 = lane f1 /\ (0 < prio d \/ lane f0 = []) \/
       lane g0 = lane f0 /\ lane g1 = lane f1 ++ [value_next d] /\ prio d <= 0).
Proof.
  intros Eo Hok Hd Hw. pose proof Hok as [Hopen Hbuf [Hs0 Hs1] Hfirst Hsec Hwait]. unfold write in Hw.
  destruct (Z.ltb_spec MAX_DATA_LENGTH_OUT (data_length d)) as [|Hlen]; [done|]. split; [done|]. rewrite Eo in Hw.
  unfold getReadableLength in Hw. rewrite Hbuf in Hw. cbn [lookup list_lookup mbind outcome_bind] in Hw.
  assert (Hz : (fifo_size f0 =? 0) = bool_decide (lane f0 = [])).
  { apply lane_size_zero; [done|]. destruct (lane f0); [constructor|by apply first_all]. }
  rewrite Hz in Hw. set (ln := if bool_decide (lane f0 = []) then 0%nat else getLaneFromPriority (prio d)) in *.
  unfold push in Hw. rewrite Hopen in Hw. unfold bufferNext in Hw. rewrite Hbuf in Hw.
  assert (Hmsg : message_of (value_next d) d) by done.
  assert (Hln : ln = 0%nat /\ (0 < prio d \/ lane f0 = []) \/ ln = 1%nat /\ prio d <= 0 /\ lane f0 <> []).
  { subst ln. unfold getLaneFromPriority. case_bool_decide; [by left; split; [|right]|].
    destruct (Z.ltb_spec 0 (prio d)); [by left; split; [|left]|by right]. }
  clearbody ln. assert (Epush : forall f, lane_ok data_length f -> lane (fifo_push data_length f (value_next d)) = lane f ++ [value_next d] /\
      lane_ok data_length (fifo_push data_length f (value_next d))).
  { intros f Hf. split; [|by apply fifo_push_ok]. unfold lane_elements. cbn. by rewrite elements_push. }
  destruct (Epush f0 Hs0) as [E0 Hok0], (Epush f1 Hs1) as [E1 Hok1]. change (MkNext false None (Some d)) with (value_next (E := string) d) in Hw.
  destruct (onNext out) as [call|] eqn:En.
  - destruct (app_eq_nil _ _ (Hwait ltac:(done))) as [El0 El1].
    destruct Hln as [[-> _]|(_ & _ & ?)]; [|done]. cbn in Hw.
    pose proof (fifo_shift_spec data_length _ Hok0) as Hshift. rewrite E0, El0 in Hshift. cbn [app] in Hshift.
    destruct Hshift as (f' & Es & El' & Hok'). unfold getNext in Hw. cbn [buffer_shift lanes_shift] in Hw. rewrite Es in Hw.
    cbn in Hw. injection Hw as <- _. split; [done|]. eexists _, f', f1. split; [done|]. split; [|done].
    split; [done|done|done| |done|done]. by rewrite El'.
  - destruct Hln as [[-> Hp]|(-> & Hp & Hne)]; cbn in Hw; injection Hw as <- _; (split; [done|]).
    + eexists _, (fifo_push data_length f0 (value_next d)), f1. split; [done|]. split; [|intros _; left; by rewrite E0]. split; [done|done|done| |done|done].
      rewrite E0. destruct (lane f0) as [|n l]; cbn [app].
      * split; [|done]. destruct (Z.lt_ge_cases 0 (prio d)); [right|left]; exists d; by split.
      * destruct Hfirst. split; [done|]. apply Forall_app. split; [done|]. constructor; [|done]. exists d. split; [done|]. by destruct Hp.
    + eexists _, f0, (fifo_push data_length f1 (value_next d)). split; [done|]. split; [|intros _; right; by rewrite E1]. split; [done|done|done|done| |done].
      rewrite E1. apply Forall_app. split; [done|]. constructor; [|done]. by exists d.
Qed.

Lemma write_ok p d p' eff : peer_ok p -> d <> [] -> write p d (prio d) = Val (p', eff) -> peer_ok p'.
Proof.
  intros [Ho Hw] Hd E. destruct (outboundStream p) as [out|] eqn:Eo.
  - destruct Ho as (f0 & f1 & Hok). destruct (write_lanes p out f0 f1 d p' eff Eo Hok Hd E) as (_ & Ew & out' & g0 & g1 & Eo' & Hok' & _).
    split; [rewrite Eo'; eauto|by rewrite Ew].
  - unfold write in E. rewrite Eo in E. by case_match.
Qed.

Lemma write_waiting_ok p w :
  peer_ok p -> Forall (fun x => x.1 <> [] /\ x.2 = prio x.1) w -> peer_ok (write_waiting p w).1.
Proof.
  intros Hp Hw. unfold write_waiting. generalize (@nil StreamEffect) as eff. revert p Hp.
  induction Hw as [|[d pr] w [Hd Hpr] _ IH]; intros p Hp eff; cbn [fold_left]; [done|]. cbn in Hd, Hpr. subst pr.
  destruct (write p d (prio d)) as [[p' eff']|e|] eqn:E; apply IH; [by eapply write_ok|done|done].
Qed.

Lemma read_ok p : peer_ok p -> peer_ok (read_outbound p).
Proof.
  intros [Ho Hw]. unfold read_outbound. destruct (outboundStream p) as [out|] eqn:Eo; [|split; [by rewrite Eo|done]].
  destruct Ho as (f0 & f1 & Hok). split; [|done]. cbn [set_outbound outboundStream].
  pose proof Hok as [Hopen Hbuf [Hs0 Hs1] Hfirst Hsec Hwait]. unfold waitNext.
  rewrite (isEmpty_spec (V := list Z) (E := string)), (lanes_pending _ _ _ Hok), Hopen. case_bool_decide as Hemp; cbn [negb].
  - exists f0, f1. by split.
  - rewrite Hbuf. unfold getNext. cbn [buffer_shift lanes_shift].
    pose proof (fifo_shift_spec data_length _ Hs0) as H0s. pose proof (fifo_shift_spec data_length _ Hs1) as H1s.
    assert (Hfin : forall b g0 g1, lanes_ok (MkPushable (Lanes [g0; g1]) (onNext out) false (S (calls out)) (drain out) (tasks out)) g0 g1 ->
      exists h0 h1, lanes_ok (finally (E := string) (V := list Z)
        (with_buffer (MkPushable b (onNext out) false (S (calls out)) (drain out) (tasks out)) (Lanes [g0; g1]))) h0 h1).
    { intros b g0 g1 [? ? ? ? ? ?]. exists g0, g1. unfold finally. destruct (buffer_isEmpty _); by split. }
    destruct (lane f0) as [|n0 l0] eqn:E0.
    + rewrite H0s. destruct (lane f1) as [|n1 l1] eqn:E1; [done|]. destruct H1s as (g1 & -> & Eg & Hg).
      apply Forall_cons in Hsec as [(d & (-> & _) & _) Hsec]. cbn. apply Hfin.
      split; [done|done|done|by rewrite E0|by rewrite Eg|]. intros Hn. by apply Hwait in Hn.
    + destruct H0s as (g0 & -> & Eg & Hg). destruct Hfirst as [Hn0 Hfirst].
      assert (Hnx : nx_error n0 = None) by (by destruct Hn0 as [(d & (-> & _) & _)|(d & (-> & _) & _)]). rewrite Hnx. cbn.
      apply Hfin. split; [done|done|done| |done|].
      * rewrite Eg. destruct l0 as [|n l]; [done|]. apply Forall_cons in Hfirst as [? ?]. split; [by right|done].
      * intros Hn. by apply Hwait in Hn.
Qed.

Lemma peer_step_ok p p' : peer_ok p -> peer_step p p' -> peer_ok p'.
Proof.
  intros Hok Hs. revert Hok. destruct Hs as [p1 d p2 eff Hd E|p1|p1 i|p1 s|p1 s|p1 p2 eff E]; intros Hok.
  - unfold waitForWrite in E. destruct (ps_closed p1); [by simplify_eq|]. destruct (isWritable p1); cbn [negb] in E; [by eapply write_ok|].
    simplify_eq. destruct Hok as [Ho Hw]. split; [done|]. cbn. apply Forall_app. by repeat constructor.
  - by apply read_ok.
  - destruct Hok as [Ho Hw]. split; [done|]. cbn. apply Forall_app. split; [by apply Forall_take|by apply Forall_drop].
  - unfold attachOutboundStream. destruct (outboundStream p1) as [out|]; [done|]. destruct Hok as [_ Hw].
    match goal with |- context [write_waiting ?q ?w] => pose proof (write_waiting_ok q w) as Hww; destruct (write_waiting q w) as [p2 eff2] end.
    apply Hww; [|done]. split; [|constructor]. cbn. do 2 eexists. apply new_lanes_ok.
  - by destruct Hok.
  - unfold close in E. destruct (ps_closed p1); [by simplify_eq|]. apply bind_val in E as (eff' & _ & E). simplify_eq. by split.
Qed.

Lemma reachable_ok protocol connId p : rtc peer_step (new_PeerStreams protocol connId) p -> peer_ok p.
Proof.
  assert (H1 : peer_ok (new_PeerStreams protocol connId)) by (by split).
  intros Hr. remember (new_PeerStreams protocol connId) as p0. clear Heqp0.
  induction Hr as [|p1 p2 p3 Hs _ IH]; [done|]. by apply IH, (peer_step_ok p1).
Qed.

(** However messages have been written to a peer and taken by it, a message
    of high priority that is written now waits for at most one message of low
    priority, the first of all; those of low priority behind it do not count. *)
Theorem one_low_ahead (protocol connId : string) (p p' : PeerStreams Q) (out : @Pushable Q) (d : list Z) (eff : list StreamEffect) :
  rtc peer_step (new_PeerStreams protocol connId) p -> outboundStream p = Some out -> onNext out = None ->
  d <> [] -> 0 < prio d -> waitForWrite p d (prio d) = Val (p', eff) -> ps_closed p = false ->
  exists ahead behind, queued p' = ahead ++ value_next d :: behind /\ Forall high (tail ahead) /\ Forall low behind /\
    queued p = ahead ++ behind.
Proof.
  intros Hr Eo En Hd Hp E Hc. destruct (reachable_ok protocol connId p Hr) as [Ho _]. rewrite Eo in Ho. destruct Ho as (f0 & f1 & Hok).
  unfold waitForWrite, isWritable in E. rewrite Hc, Eo, bool_decide_true in E by done. cbn [negb] in E.
  destruct (write_lanes p out f0 f1 d p' eff Eo Hok Hd E) as (_ & _ & out' & g0 & g1 & Eo' & Hok' & Hwhere).
  destruct (Hwhere En) as [(E0 & E1 & _)|(_ & _ & ?)]; [|lia]. exists (lane f0), (lane f1). unfold queued.
  rewrite Eo, Eo', (lanes_pending _ _ _ Hok), (lanes_pending _ _ _ Hok'), E0, E1, <- app_assoc. split_and!; [done| |by apply (ok_second out f0 f1)|done].
  pose proof (ok_first _ _ _ Hok) as Hf. destruct (lane f0); [constructor|]. by destruct Hf.
Qed.

(** C37. In every state that the streams to a peer reach from their creation, every
    message in the lanes is within what the reader of the other side accepts; and a
    write is refused exactly when the message is too long while the streams are open
    and there is a stream to write it to. *)
Theorem written_fits_reader (protocol connId : string) (p : PeerStreams Q) :
  rtc peer_step (new_PeerStreams protocol connId) p ->
  (forall n, n ∈ queued p -> exists d, nx_value n = Some d /\ data_length d <= MAX_DATA_LENGTH_OUT < MAX_DATA_LENGTH_IN) /\
  forall d priority, (exists e, waitForWrite p d priority = Exn e) <->
    ps_closed p = false /\ isWritable p = true /\ MAX_DATA_LENGTH_OUT < data_length d.
Proof.
  intros Hr. destruct (reachable_ok protocol connId p Hr) as [Ho _]. split.
  - intros n Hn. unfold queued in Hn. destruct (outboundStream p) as [out|]; [|by apply not_elem_of_nil in Hn].
    destruct Ho as (f0 & f1 & Hok). rewrite (lanes_pending _ _ _ Hok) in Hn.
    assert (Hm : low n \/ high n).
    { pose proof (ok_first _ _ _ Hok) as Hf. pose proof (ok_second _ _ _ Hok) as Hl. rewrite Forall_forall in Hl.
      apply elem_of_app in Hn as [Hn|Hn]; [|by left; apply Hl]. destruct (lane f0) as [|n0 l0]; [by apply not_elem_of_nil in Hn|].
      apply first_all in Hf. rewrite Forall_forall in Hf. by apply Hf. }
    destruct Hm as [(d & (-> & _ & Hd) & _)|(d & (-> & _ & Hd) & _)]; by exists d.
  - intros d priority. unfold waitForWrite, isWritable, write. destruct (ps_closed p); [naive_solver|].
    destruct (outboundStream p) as [out|]; [|case_bool_decide as Hi; [by destruct Hi|naive_solver]].
    rewrite bool_decide_true by done. cbn [negb]. destruct (Z.ltb_spec MAX_DATA_LENGTH_OUT (data_length d)); [naive_solver|].
    split; [|lia]. intros [e E]. exfalso. destruct Ho as (f0 & f1 & [Hopen Hbuf _ _ _ _]). revert E.
    unfold getReadableLength, push, bufferNext, getLaneFromPriority. rewrite Hbuf, Hopen. cbn.
    destruct (fifo_size f0 =? 0), (0 <? priority), (onNext out) as [call|]; cbn; try done; by destruct (getNext _ _).
Qed.

End Theory.
