(* ===== verification/Effects.v ===== *)
(** * Methods that change an object and may throw

    A method is a function from the state of its object to an outcome and the
    new state, which it keeps when it throws.  [attempt] is the source's
    [catch]: the outcome as a value. *)

From stdpp Require Import base list strings.
From S2P Require Import Prelude.

Definition Method (S A : Type) : Type := S -> outcome A * S.

Section Methods.
Context {S : Type}.

Definition ret {A} (a : A) : Method S A := fun s => (Val a, s).
Definition raise {A} (e : string) : Method S A := fun s => (Exn e, s).
Definition lift {A} (o : outcome A) : Method S A := fun s => (o, s).
Definition bindM {A B} (m : Method S A) (k : A -> Method S B) : Method S B := fun s =>
  match m s with
  | (Val a, s) => k a s
  | (Exn e, s) => (Exn e, s)
  | (NoFuel, s) => (NoFuel, s)
  end.
Definition gets {A} (f : S -> A) : Method S A := fun s => (Val (f s), s).
Definition modify (f : S -> S) : Method S unit := fun s => (Val tt, f s).
Definition attempt {A} (m : Method S A) : Method S (outcome A) := fun s => let '(r, s) := m s in (Val r, s).
Definition whenM (c : bool) (m : Method S unit) : Method S unit := if c then m else ret tt.

(** [for (const x of l) await f(x)]. *)
Fixpoint forM {A} (f : A -> Method S unit) (l : list A) : Method S unit :=
  match l with [] => ret tt | x :: l => bindM (f x) (fun _ => forM f l) end.

(** [await Promise.all(l.map(f))]: all are started, the first failure counts. *)
Fixpoint allM {A} (f : A -> Method S unit) (l : list A) : Method S unit :=
  match l with
  | [] => ret tt
  | x :: l => bindM (attempt (f x)) (fun r => bindM (attempt (allM f l)) (fun rs => lift (_ ← r; rs)))
  end.

Lemma bindM_spec {A B} (m : Method S A) (k : A -> Method S B) (P : S -> Prop) s :
  P (m s).2 -> (forall a s', m s = (Val a, s') -> P (k a s').2) -> P (bindM m k s).2.
Proof. unfold bindM. destruct (m s) as [[a|e|] s'] eqn:E; naive_solver. Qed.

(** [wp m Φ s]: from [s] the method returns a value, and [Φ] holds of it and the new state. *)
Definition wp {A} (m : Method S A) (Φ : A -> S -> Prop) (s : S) : Prop :=
  match m s with (Val a, s') => Φ a s' | _ => False end.

Lemma wp_bind {A B} (m : Method S A) (k : A -> Method S B) Φ s : wp m (fun a => wp (k a) Φ) s -> wp (bindM m k) Φ s.
Proof. unfold wp, bindM. by destruct (m s) as [[a|e|] s']. Qed.
Lemma wp_mono {A} (m : Method S A) (Φ Ψ : A -> S -> Prop) s : wp m Φ s -> (forall a s', Φ a s' -> Ψ a s') -> wp m Ψ s.
Proof. unfold wp. destruct (m s) as [[a|e|] s']; naive_solver. Qed.
Lemma wp_ret {A} (a : A) (Φ : A -> S -> Prop) s : Φ a s -> wp (ret a) Φ s.
Proof. done. Qed.
Lemma wp_lift {A} (o : outcome A) a (Φ : A -> S -> Prop) s : o = Val a -> Φ a s -> wp (lift o) Φ s.
Proof. by intros ->. Qed.
Lemma wp_gets {A} (f : S -> A) (Φ : A -> S -> Prop) s : Φ (f s) s -> wp (gets f) Φ s.
Proof. done. Qed.
Lemma wp_modify (f : S -> S) (Φ : unit -> S -> Prop) s : Φ tt (f s) -> wp (modify f) Φ s.
Proof. done. Qed.
Lemma wp_when (c : bool) (m : Method S unit) (Φ : unit -> S -> Prop) s : (if c then wp m Φ s else Φ tt s) -> wp (whenM c m) Φ s.
Proof. by destruct c. Qed.
Lemma wp_attempt {A} (m : Method S A) (Φ : outcome A -> S -> Prop) s : wp m (fun a => Φ (Val a)) s -> wp (attempt m) Φ s.
Proof. unfold wp, attempt. by destruct (m s) as [[a|e|] s']. Qed.
Lemma wp_returns {A} (m : Method S A) (Φ : A -> S -> Prop) s : wp m Φ s -> exists a s', m s = (Val a, s') /\ Φ a s'.
Proof. unfold wp. destruct (m s) as [[a|e|] s']; [by exists a, s'|done|done]. Qed.

(** What every step of a method keeps, the method keeps. *)
Definition keeps {A} (P : S -> Prop) (m : Method S A) : Prop := forall s, P s -> P (m s).2.

Lemma keeps_ret {A} P (a : A) : keeps P (ret a).
Proof. by intros s. Qed.
Lemma keeps_raise {A} P e : keeps P (raise (A := A) e).
Proof. by intros s. Qed.
Lemma keeps_lift {A} P (o : outcome A) : keeps P (lift o).
Proof. by intros s. Qed.
Lemma keeps_gets {A} P (f : S -> A) : keeps P (gets f).
Proof. by intros s. Qed.
Lemma keeps_modify P f : (forall s, P s -> P (f s)) -> keeps P (modify f).
Proof. by intros H s Hs; apply H. Qed.
Lemma keeps_bind {A B} P (m : Method S A) (k : A -> Method S B) :
  keeps P m -> (forall a, keeps P (k a)) -> keeps P (bindM m k).
Proof. intros Hm Hk s Hs. apply bindM_spec; [auto|]. intros a s' E. apply Hk. specialize (Hm s Hs). by rewrite E in Hm. Qed.
Lemma keeps_attempt {A} P (m : Method S A) : keeps P m -> keeps P (attempt m).
Proof. intros Hm s Hs. unfold attempt. specialize (Hm s Hs). by destruct (m s). Qed.
Lemma keeps_when P c m : keeps P m -> keeps P (whenM c m).
Proof. intros Hm. destruct c; [done|apply keeps_ret]. Qed.
Lemma keeps_forM {A} P (f : A -> Method S unit) l : (forall x, keeps P (f x)) -> keeps P (forM f l).
Proof. intros Hf. induction l as [|x l IH]; [apply keeps_ret|]. by apply keeps_bind. Qed.
Lemma keeps_allM {A} P (f : A -> Method S unit) l : (forall x, keeps P (f x)) -> keeps P (allM f l).
Proof.
  intros Hf. induction l as [|x l IH]; [apply keeps_ret|]. apply keeps_bind; [by apply keeps_attempt|]. intros r.
  apply keeps_bind; [by apply keeps_attempt|]. intros rs. apply keeps_lift.
Qed.
End Methods.

(** Runs a method up to a step that needs an argument. *)
Ltac wp_step :=
  lazymatch goal with
  | |- wp (bindM _ _) _ _ => apply wp_bind
  | |- wp (ret _) _ _ => apply wp_ret
  | |- wp (gets _) _ _ => apply wp_gets
  | |- wp (modify _) _ _ => apply wp_modify
  | |- wp (whenM _ _) _ _ => apply wp_when
  | |- wp (attempt _) _ _ => apply wp_attempt
  | |- wp (lift (Val _)) _ _ => eapply wp_lift; [reflexivity|]
  end.
Ltac wp_steps := cbn beta iota zeta; repeat (wp_step; cbn beta iota zeta).

Create HintDb keeps discriminated.
#[export] Hint Resolve keeps_ret keeps_raise keeps_lift keeps_gets keeps_attempt keeps_when keeps_forM keeps_allM : keeps.

(** Takes a method apart down to the steps that need an argument. *)
Ltac keeps_auto :=
  repeat first
    [ apply keeps_bind; [|intros ?]
    | progress auto with keeps
    | match goal with |- keeps _ (match ?x with _ => _ end) => destruct x
                    | |- keeps _ (if ?b then _ else _) => destruct b end ].

Declare Scope effects_scope.
Delimit Scope effects_scope with effects.
Notation "x ⇠ m ;; k" := (bindM m (fun x => k)) (at level 100, m at next level, right associativity) : effects_scope.
Notation "m ;;; k" := (bindM m (fun _ => k)) (at level 100, right associativity) : effects_scope.
