(* ===== verification/Replicators.v ===== *)
(** * The replicators of a shared log (packages/programs/data/shared-log/src/index.ts, part 1)

    What a shared log knows about who replicates: the index of ranges, the set
    [uniqueReplicators] of their owners, the timers of ranges that are not
    mature yet, and the changes that wait to be rebalanced.  The methods that
    add and remove ranges, announce them and react to announcements.  A method
    runs to its end; messages, events and calls of the debounced rebalancing
    are collected in the state. *)

From Stdlib Require Import ZArith Lia.
From stdpp Require Import base list strings.
From S2P Require Import Prelude JsMap JsVal Query IndexInterface IndexStore Integers Ranges RangeQueries RangeIterators Rebalance SimpleSync Effects.

Local Open Scope Z_scope.
Local Open Scope effects_scope.

(** The messages about ranges (replication.ts). *)
Inductive ReplicationMessage :=
| RequestReplicationInfoMessage
| AllReplicatingSegmentsMessage (segments : list RangeMessage)
| AddedReplicationSegmentMessage (segments : list RangeMessage)
| StoppedReplicating (segmentIds : list (list Z)).

(** The receivers of [rpc.send]: all subscribers, or one by its hash. *)
Inductive Audience := Everyone | SilentTo (peer : string) | SeekTo (peer : string).

Section Replicators.
Context {I St : Type} `{JsEnv, Hashing, Index I St Range, !IndexStore I Range}.

Inductive SharedLogEvent :=
| ReplicatorJoinEvent (publicKey : PublicSignKey)
| ReplicatorLeaveEvent (publicKey : PublicSignKey)
| ReplicationChangeEvent (publicKey : PublicSignKey)
| ReplicatorMatureEvent (publicKey : PublicSignKey).

(** An entry of [pendingMaturity] with the closure of its timer. *)
Record PendingMaturity := MkPendingMaturity {
  pm_range : ReplicationChange;
  pm_diff : ReplicationChange;
  pm_from : PublicSignKey;
  pm_rebalance : bool;
  pm_due : Z;
}.

(** What does not change while the log is open. *)
Record Options := MkOptions {
  publicKey_ : PublicSignKey;                              (* [node.identity.publicKey] *)
  resolution_ : resolution;
  isTrustedReplicator : option (PublicSignKey -> bool);
  timeUntilRoleMaturity : Z;
}.

Record Replicators := MkReplicators {
  replicationIndex : I;
  uniqueReplicators_ : list string;
  pendingMaturity : list (string * list (string * PendingMaturity));
  oldestOpenTime : Z;
  isReplicating_ : option bool;
  isAdaptiveReplicating : option bool;
  latestReplicationInfoMessage : list (string * Z);
  pendingChanges : Aggregated;                             (* [replicationChangeDebounceFn] *)
  rebalances : nat;                                        (* calls of [rebalanceParticipationDebounced] *)
  events : list SharedLogEvent;
  outbox : list (ReplicationMessage * Audience);
}.
Abbreviation M := (Method Replicators).

Definition set_replicationIndex (i : I) (s : Replicators) := MkReplicators i (uniqueReplicators_ s) (pendingMaturity s)
  (oldestOpenTime s) (isReplicating_ s) (isAdaptiveReplicating s) (latestReplicationInfoMessage s) (pendingChanges s)
  (rebalances s) (events s) (outbox s).
Definition set_uniqueReplicators (u : list string) (s : Replicators) := MkReplicators (replicationIndex s) u (pendingMaturity s)
  (oldestOpenTime s) (isReplicating_ s) (isAdaptiveReplicating s) (latestReplicationInfoMessage s) (pendingChanges s)
  (rebalances s) (events s) (outbox s).
Definition set_pendingMaturity (p : list (string * list (string * PendingMaturity))) (s : Replicators) :=
  MkReplicators (replicationIndex s) (uniqueReplicators_ s) p (oldestOpenTime s) (isReplicating_ s)
    (isAdaptiveReplicating s) (latestReplicationInfoMessage s) (pendingChanges s) (rebalances s) (events s) (outbox s).
Definition set_oldestOpenTime (t : Z) (s : Replicators) := MkReplicators (replicationIndex s) (uniqueReplicators_ s)
  (pendingMaturity s) t (isReplicating_ s) (isAdaptiveReplicating s) (latestReplicationInfoMessage s) (pendingChanges s)
  (rebalances s) (events s) (outbox s).
Definition set_role (r a : option bool) (s : Replicators) := MkReplicators (replicationIndex s) (uniqueReplicators_ s)
  (pendingMaturity s) (oldestOpenTime s) r a (latestReplicationInfoMessage s) (pendingChanges s) (rebalances s)
  (events s) (outbox s).
Definition set_latest (m : list (string * Z)) (s : Replicators) := MkReplicators (replicationIndex s) (uniqueReplicators_ s)
  (pendingMaturity s) (oldestOpenTime s) (isReplicating_ s) (isAdaptiveReplicating s) m (pendingChanges s) (rebalances s)
  (events s) (outbox s).
Definition add_change (c : ReplicationChange) (s : Replicators) := MkReplicators (replicationIndex s) (uniqueReplicators_ s)
  (pendingMaturity s) (oldestOpenTime s) (isReplicating_ s) (isAdaptiveReplicating s) (latestReplicationInfoMessage s)
  (agg_add (pendingChanges s) c) (rebalances s) (events s) (outbox s).
Definition count_rebalance (s : Replicators) := MkReplicators (replicationIndex s) (uniqueReplicators_ s)
  (pendingMaturity s) (oldestOpenTime s) (isReplicating_ s) (isAdaptiveReplicating s) (latestReplicationInfoMessage s)
  (pendingChanges s) (S (rebalances s)) (events s) (outbox s).
Definition add_event (e : SharedLogEvent) (s : Replicators) := MkReplicators (replicationIndex s) (uniqueReplicators_ s)
  (pendingMaturity s) (oldestOpenTime s) (isReplicating_ s) (isAdaptiveReplicating s) (latestReplicationInfoMessage s)
  (pendingChanges s) (rebalances s) (events s ++ [e]) (outbox s).
Definition add_message (m : ReplicationMessage) (a : Audience) (s : Replicators) := MkReplicators (replicationIndex s)
  (uniqueReplicators_ s) (pendingMaturity s) (oldestOpenTime s) (isReplicating_ s) (isAdaptiveReplicating s)
  (latestReplicationInfoMessage s) (pendingChanges s) (rebalances s) (events s) (outbox s ++ [(m, a)]).

Definition dispatchEvent (e : SharedLogEvent) : M unit := modify (add_event e).
Definition send (m : ReplicationMessage) (a : Audience) : M unit := modify (add_message m a).
Definition rebalanceParticipationDebounced : M unit := modify count_rebalance.
Definition replicationChange (c : ReplicationChange) : M unit := modify (add_change c).

Context (o : Options).

Definition myHash : string := hashcode (publicKey_ o).

(** ** Queries on the index *)

(** [{ query: { hash } }] and [new StringMatch({ key: "hash", value })]. *)
Definition of_owner (hash : string) : Query := new_StringMatch "hash"%string hash None None.

Definition query_all (ql : QueryLike) : M (list Range) :=
  s ⇠ gets replicationIndex;; r ⇠ lift (it_all (idx_ops s) (idx_iterate s (MkIterateOptions ql None)));; ret (map ir_value r.1).

Definition delete_ranges (ql : QueryLike) : M unit :=
  s ⇠ gets replicationIndex;; r ⇠ lift (idx_del s ql);; modify (set_replicationIndex r.2).

Definition put_range (r : Range) : M unit :=
  s ⇠ gets replicationIndex;; i ⇠ lift (idx_put s r);; modify (set_replicationIndex i).

Definition getMyReplicationSegments : M (list Range) := query_all (QLOne (of_owner myHash)).
Definition getAllReplicationSegments : M (list Range) := query_all QLNone.
Definition countReplicationSegments : M nat :=
  s ⇠ gets replicationIndex;; lift (idx_count s (QLOne (of_owner myHash))).

Definition isReplicating : M bool :=
  s ⇠ gets isReplicating_;;
  if default false s then n ⇠ countReplicationSegments;; ret (0 <? n)%nat else ret false.

Definition getReplicators : M (list string) :=
  all ⇠ query_all QLNone;; ret (fold_left Set_add (map r_hash all) []).

Definition oldest_sort : list Sort := [new_Sort "timestamp"%string (Some (DirEnum ASC))].

Definition updateOldestTimestampFromIndex (now : Z) : M unit :=
  s ⇠ gets replicationIndex;;
  r ⇠ lift (it_next (idx_ops s) 1 (idx_iterate s (MkIterateOptions QLNone (Some oldest_sort))));;
  modify (set_oldestOpenTime (match head r.1 with
                              | Some x => Number_of_bigint (r_timestamp (ir_value x))
                              | None => now
                              end)).

(** The method always answers [timeUntilRoleMaturity]; [round_log] is
    [Math.round((timeUntilRoleMaturity * Math.log(subscribers + 1)) / 3)]. *)
Definition getDefaultMinRoleAge (round_log : Z -> nat -> Z) (subscribers : nat) (now : Z) : M Z :=
  r ⇠ gets isReplicating_;;
  if bool_decide (r = Some false) then ret 0
  else
    oldest ⇠ gets oldestOpenTime;;
    let diffToOldest := if (1 <? subscribers)%nat then now - oldest - 1 else 9007199254740991 in
    let T := timeUntilRoleMaturity o in
    ret (Z.min T (Z.min (Z.max diffToOldest T) (Z.max (round_log T subscribers) T))).

(** ** Removing *)

(** A key or the hash of one. *)
Inductive KeyOrHash := AKey (key : PublicSignKey) | AHash (hash : string).

Definition removed_change (timestamp : Z) (r : Range) : ReplicationChange := MkChange removed r timestamp.

Definition removeReplicator (key : KeyOrHash) (noEvent : bool) (now : Z) : M unit :=
  let keyHash := match key with AKey k => hashcode k | AHash h => h end in
  deleted ⇠ query_all (QLRecord (JObj [("hash"%string, JStr keyHash)]));;
  modify (fun s => set_uniqueReplicators (Set_delete (uniqueReplicators_ s) keyHash) s);;;
  delete_ranges (QLRecord (JObj [("hash"%string, JStr keyHash)]));;;
  updateOldestTimestampFromIndex now;;;
  let isMe := bool_decide (myHash = keyHash) in
  whenM isMe (send (AllReplicatingSegmentsMessage []) Everyone);;;
  (if noEvent then ret tt
   else match key with
        | AKey k => dispatchEvent (ReplicationChangeEvent k)
        | AHash _ => raise "Key was not a PublicSignKey"
        end);;;
  forM (fun x => replicationChange (removed_change now x)) deleted;;;
  modify (fun s => set_pendingMaturity (Map_delete (pendingMaturity s) keyHash) s);;;
  whenM (negb isMe) rebalanceParticipationDebounced.

Definition id_matches (ids : list (list Z)) : list Query := map (fun x => new_ByteMatchQuery "id"%string x) ids.

Definition resolveReplicationRangesFromIdsAndKey (ids : list (list Z)) (from : PublicSignKey) : M (list Range) :=
  idMatcher ⇠ lift (new_Or (id_matches ids));;
  query ⇠ lift (new_And [idMatcher; of_owner (hashcode from)]);;
  query_all (QLOne query).

(** [range_text] is [range.toString()], the text of its normalised ends, by
    which the timers are looked up here. *)
Definition clear_matured (range_text : Range -> string) (from : PublicSignKey) (ranges : list Range) (s : Replicators) : Replicators :=
  match Map_get (pendingMaturity s) (hashcode from) with
  | Some pending =>
      match fold_left (fun p r => Map_delete p (range_text r)) ranges pending with
      | [] => set_pendingMaturity (Map_delete (pendingMaturity s) (hashcode from)) s
      | pending' => set_pendingMaturity (Map_set (pendingMaturity s) (hashcode from) pending') s
      end
  | None => s
  end.

Definition removeReplicationRanges (range_text : Range -> string) (ranges : list Range) (from : PublicSignKey) (now : Z) : M unit :=
  modify (clear_matured range_text from ranges);;;
  (match ranges with [] => raise "???" | _ => ret tt end);;;
  ids ⇠ lift (new_Or (id_matches (map r_id ranges)));;
  delete_ranges (QLOne ids);;;
  s ⇠ gets replicationIndex;;
  others ⇠ lift (it_next (idx_ops s) 1
                   (idx_iterate s (MkIterateOptions (QLRecord (JObj [("hash"%string, JStr (hashcode from))])) None)));;
  whenM (match others.1 with [] => true | _ => false end)
    (modify (fun s => set_uniqueReplicators (Set_delete (uniqueReplicators_ s) (hashcode from)) s));;;
  updateOldestTimestampFromIndex now;;;
  dispatchEvent (ReplicationChangeEvent from);;;
  whenM (negb (equals from (publicKey_ o))) rebalanceParticipationDebounced.

(** ** Adding *)

(** Slices of a hundred. *)
Fixpoint batches (fuel : nat) (l : list Range) : list (list Range) :=
  match fuel, l with
  | S fuel, _ :: _ => take 100 l :: batches fuel (drop 100 l)
  | _, _ => []
  end.

(** The stored ranges looked for by their ids; a list of queries is their
    conjunction. *)
Definition existing_ranges (ranges : list Range) : M (list Range) :=
  fold_right (fun batch rest =>
      found ⇠ query_all (QLMany (id_matches (map r_id batch)));; more ⇠ rest;; ret (found ++ more))
    (ret []) (batches (length ranges) ranges).

Fixpoint deduplicate (ranges : list Range) : M (list Range) :=
  match ranges with
  | [] => ret []
  | range :: ranges =>
      s ⇠ gets replicationIndex;;
      covered ⇠ lift (countCoveringRangesSameOwner s (resolution_ o) range);;
      rest ⇠ deduplicate ranges;;
      ret (if covered : bool then rest else range :: rest)
  end.

Definition equalRange (r other : Range) : bool :=
  match r_type r with U32 => U32Range.equalRange r other | U64 => U64Range.equalRange r other end.

Definition changes_for (existingMap : list (string * Range)) (x : Range) : list ReplicationChange :=
  match Map_get existingMap (idString x) with
  | Some prev =>
      if equalRange prev x then []
      else [MkChange replaced prev (r_timestamp x - 1); MkChange (added false) x (r_timestamp x)]
  | None => [MkChange (added false) x (r_timestamp x)]
  end.

(** The changes, and whether [from] is new. *)
Definition diffs_reset (ranges : list Range) (from : PublicSignKey) (timestamp : Z) : M (list ReplicationChange * bool) :=
  let of_from := QLRecord (JObj [("hash"%string, JStr (hashcode from))]) in
  deleted ⇠ query_all of_from;;
  delete_ranges of_from;;;
  ret (map (removed_change timestamp) deleted ++ map (fun x => MkChange (added false) x timestamp) ranges,
       (length deleted =? 0)%nat && negb (length ranges =? 0)%nat).

Definition diffs_added (ranges : list Range) (from : PublicSignKey) (checkDuplicates : bool) : M (list ReplicationChange * bool) :=
  existing ⇠ existing_ranges ranges;;
  isNew ⇠ (match existing with
           | [] => s ⇠ gets replicationIndex;; n ⇠ lift (idx_count s (QLOne (of_owner (hashcode from))));; ret (n =? 0)%nat
           | _ => ret false
           end);;
  ranges ⇠ (if checkDuplicates then deduplicate ranges else ret ranges);;
  let existingMap := fold_left (fun m r => Map_set m (idString r) r) existing [] in
  ret (flat_map (changes_for existingMap) ranges, isNew).

(** The timer of a range that is not mature. *)
Definition setup_maturity (diff : ReplicationChange) (from : PublicSignKey) (rebalance : bool) (due : Z) (s : Replicators) : Replicators :=
  let hash := r_hash (ch_range diff) in
  let id := idString (ch_range diff) in
  let pendingRanges := default [] (Map_get (pendingMaturity s) hash) in
  let entry := match Map_get pendingRanges id with
               | Some prev => MkPendingMaturity (pm_range prev) diff from rebalance due
               | None => MkPendingMaturity diff diff from rebalance due
               end in
  set_pendingMaturity (Map_set (pendingMaturity s) hash (Map_set pendingRanges id entry)) s.

Definition cancel_maturity (r : Range) (s : Replicators) : Replicators :=
  match Map_get (pendingMaturity s) (r_hash r) with
  | Some pending =>
      match Map_delete pending (idString r) with
      | [] => set_pendingMaturity (Map_delete (pendingMaturity s) (r_hash r)) s
      | pending' => set_pendingMaturity (Map_set (pendingMaturity s) (r_hash r) pending') s
      end
  | None => s
  end.

(** One of [diffs]; the answer is whether it leaves [isAllMature] as it is. *)
Definition apply_diff (reset rebalance : bool) (from : PublicSignKey) (now minRoleAge : Z) (diff : ReplicationChange) : M bool :=
  let r := ch_range diff in
  match ch_type diff with
  | added _ =>
      put_range r;;;
      whenM (negb reset) (modify (fun s => set_oldestOpenTime (Z.min (Number_of_bigint (r_timestamp r)) (oldestOpenTime s)) s));;;
      if isMatured (r_timestamp r) now minRoleAge then ret true
      else
        let waitForMaturityTime := Z.max (minRoleAge - (now - Number_of_bigint (r_timestamp r))) 0 in
        modify (setup_maturity diff from rebalance (now + waitForMaturityTime));;; ret false
  | removed => modify (cancel_maturity r);;; ret true
  | replaced => ret true
  end.

Fixpoint apply_diffs (reset rebalance : bool) (from : PublicSignKey) (now minRoleAge : Z) (diffs : list ReplicationChange) : M bool :=
  match diffs with
  | [] => ret true
  | d :: diffs =>
      m ⇠ apply_diff reset rebalance from now minRoleAge d;;
      rest ⇠ apply_diffs reset rebalance from now minRoleAge diffs;; ret (m && rest)
  end.

Record AddOptions := MkAddOptions {
  ao_reset : bool;
  ao_checkDuplicates : bool;
  ao_timestamp : option Z;
  ao_rebalance : bool;
}.

(** [minRoleAge] is what [getDefaultMinRoleAge] answers. *)
Definition addReplicationRange (ranges : list Range) (from : PublicSignKey) (ao : AddOptions)
    (minRoleAge : M Z) (now : Z) : M (option (list ReplicationChange)) :=
  if match isTrustedReplicator o with Some f => negb (f from) | None => false end then ret None
  else
    let timestamp := default now (ao_timestamp ao) in
    d ⇠ (if ao_reset ao then diffs_reset ranges from timestamp else diffs_added ranges from (ao_checkDuplicates ao));;
    let '(diffs, isNewReplicator) := d in
    modify (fun s => set_uniqueReplicators (Set_add (uniqueReplicators_ s) (hashcode from)) s);;;
    age ⇠ minRoleAge;;
    isAllMature ⇠ apply_diffs (ao_reset ao) (ao_rebalance ao) from now age diffs;;
    whenM (ao_reset ao) (updateOldestTimestampFromIndex now);;;
    dispatchEvent (ReplicationChangeEvent from);;;
    whenM isNewReplicator
      (dispatchEvent (ReplicatorJoinEvent from);;; whenM isAllMature (dispatchEvent (ReplicatorMatureEvent from)));;;
    whenM (ao_rebalance ao) (forM replicationChange diffs);;;
    whenM (negb (equals from (publicKey_ o))) rebalanceParticipationDebounced;;;
    ret (Some diffs).

(** The timer of a pending range goes off. *)
Definition maturity_timer (hash id : string) : M unit :=
  pending ⇠ gets (fun s => Map_get (default [] (Map_get (pendingMaturity s) hash)) id);;
  match pending with
  | None => ret tt
  | Some p =>
      dispatchEvent (ReplicatorMatureEvent (pm_from p));;;
      whenM (pm_rebalance p && negb (bool_decide (r_mode (ch_range (pm_diff p)) = Strict)))
        (replicationChange (MkChange (added true) (ch_range (pm_diff p)) (ch_timestamp (pm_diff p))));;;
      modify (cancel_maturity (ch_range (pm_diff p)))
  end.

(** ** Announcing, and announcements *)

Definition not_removed (c : ReplicationChange) : bool := match ch_type c with removed => false | _ => true end.

(** The message, and whether [announce] takes it instead of [rpc.send]. *)
Definition startAnnounceReplicating (ranges : list Range) (ao : AddOptions) (minRoleAge : M Z) (announce : bool) (now : Z)
    : M (option ReplicationMessage) :=
  change ⇠ addReplicationRange ranges (publicKey_ o) ao minRoleAge now;;
  match change with
  | None => ret None
  | Some change =>
      match List.filter not_removed change with
      | [] => ret None
      | addedOrReplaced =>
          let segments := map (fun x => toReplicationRange (ch_range x)) addedOrReplaced in
          let message := if ao_reset ao then AllReplicatingSegmentsMessage segments
                         else AddedReplicationSegmentMessage segments in
          if announce then ret (Some message) else send message Everyone;;; ret None
      end
  end.

(** [segments.map((x) => x.toReplicationRangeIndexable(from))]. *)
Definition to_ranges (segments : list RangeMessage) (from : PublicSignKey) : outcome (list Range) :=
  mapM_out (fun m => toReplicationRangeIndexable m from) segments.

(** A message about ranges of another node, received at [timestamp]; for the
    first two kinds the part after the sender has been found online. *)
Definition on_segments (segments : list RangeMessage) (reset : bool) (from : PublicSignKey) (timestamp : Z) (closed_ : bool)
    (minRoleAge : M Z) (now : Z) : M unit :=
  prev ⇠ gets (fun s => Map_get (latestReplicationInfoMessage s) (hashcode from));;
  if match prev with Some p => negb (p =? 0) && (timestamp <? p) | None => false end then ret tt
  else
    modify (fun s => set_latest (Map_set (latestReplicationInfoMessage s) (hashcode from) timestamp) s);;;
    if closed_ then ret tt
    else
      ranges ⇠ lift (to_ranges segments from);;
      addReplicationRange ranges from (MkAddOptions reset true (Some (Number_of_bigint timestamp)) true) minRoleAge now;;; ret tt.

Definition on_stopped (range_text : Range -> string) (segmentIds : list (list Z)) (from : PublicSignKey) (now : Z) : M unit :=
  rangesToRemove ⇠ resolveReplicationRangesFromIdsAndKey segmentIds from;;
  removeReplicationRanges range_text rangesToRemove from now;;;
  forM (fun range => replicationChange (removed_change now range)) rangesToRemove.

Definition onReplicationMessage (range_text : Range -> string) (msg : ReplicationMessage) (from : PublicSignKey) (timestamp : Z)
    (closed_ : bool) (minRoleAge : M Z) (now : Z) : M unit :=
  if equals from (publicKey_ o) then ret tt
  else
    match msg with
    | RequestReplicationInfoMessage =>
        segments ⇠ getMyReplicationSegments;;
        send (AllReplicatingSegmentsMessage (map toReplicationRange segments)) (SilentTo (hashcode from))
    | AllReplicatingSegmentsMessage segments => on_segments segments true from timestamp closed_ minRoleAge now
    | AddedReplicationSegmentMessage segments => on_segments segments false from timestamp closed_ minRoleAge now
    | StoppedReplicating segmentIds => on_stopped range_text segmentIds from now
    end.

(** ** Replicating and not *)

(** What is to be unreplicated: everything, an entry at a coordinate, or ranges
    by their ids. *)
Inductive Unreplicate := UnreplicateAll | UnreplicateEntry (coordinate : Z) | UnreplicateIds (ids : list (list Z)).

Definition entry_record (offset : Z) : jsval :=
  JObj [("width", JNum 1); ("start1", coordinate_js (resolution_ o) offset)]%string.

Definition unreplicate (range_text : Range -> string) (what : Unreplicate) (now : Z) : M unit :=
  match what with
  | UnreplicateAll => modify (set_role (Some false) (Some false));;; removeReplicator (AKey (publicKey_ o)) false now
  | _ =>
      segmentIds ⇠ (match what with
                    | UnreplicateEntry offset => rs ⇠ query_all (QLRecord (entry_record offset));; ret (map r_id rs)
                    | UnreplicateIds ids => ret ids
                    | UnreplicateAll => ret []
                    end);;
      match segmentIds with
      | [] => ret tt
      | _ =>
          adaptive ⇠ gets isAdaptiveReplicating;;
          (if default false adaptive then raise "Unsupported when adaptive replicating" else ret tt);;;
          rangesToRemove ⇠ resolveReplicationRangesFromIdsAndKey segmentIds (publicKey_ o);;
          removeReplicationRanges range_text rangesToRemove (publicKey_ o) now;;;
          send (StoppedReplicating segmentIds) Everyone
      end
  end.

(** The state after [open] on an index that may hold ranges of an earlier session. *)
Definition opened (i : I) (now : Z) : Replicators := MkReplicators i [] [] now None None [] [] 0 [] [].

End Replicators.
