(* ===== verification/ReplicatorsFacts.v ===== *)
(** * What the ranges of a shared log are after each method

    The methods of Replicators on any index that meets its contract: which
    ranges are stored afterwards, that every owner of a stored range is counted
    as a replicator ([tracked]), who is told, and the cases in which the code
    loses something: ids that two owners share, a range that is replaced within
    one session, and the replicators of an earlier session. *)

From Stdlib Require Import ZArith Lia.
From stdpp Require Import base list strings relations.
From S2P Require Import Prelude JsMap JsVal Query IndexInterface IndexStore Integers Ranges RangeFacts RangeQueries RangeIterators Rebalance SimpleSync Effects Replicators.

Local Open Scope Z_scope.

(** ** The queries *)

Lemma sat_owner h r :
  sat_all [of_owner h] (range_js r) = bool_decide (r_hash r = h) /\ covered_all [of_owner h] (range_js r) = true.
Proof.
  unfold sat_all, covered_all. cbn [forallb of_owner new_StringMatch key_path sat covered default].
  unfold read_field. cbn. by rewrite andb_true_r.
Qed.

Lemma sat_id id r :
  sat (new_ByteMatchQuery "id"%string id) (range_js r) = bool_decide (r_id r = id) /\
  covered (new_ByteMatchQuery "id"%string id) (range_js r) = true.
Proof. done. Qed.

Lemma sat_ids_any ids r :
  sat (Or (id_matches ids)) (range_js r) = bool_decide (r_id r ∈ ids) /\ covered (Or (id_matches ids)) (range_js r) = true.
Proof.
  cbn [sat covered]. unfold id_matches. induction ids as [|id ids [IHs IHc]]; [done|]. cbn [map existsb forallb].
  rewrite (proj1 (sat_id id r)), (proj2 (sat_id id r)), IHs, IHc. split; [|done].
  destruct (decide (r_id r = id)) as [E|Hne].
  - rewrite (bool_decide_eq_true_2 (r_id r = id)) by done. symmetry. apply bool_decide_eq_true_2. rewrite E. by left.
  - rewrite (bool_decide_eq_false_2 (r_id r = id)) by done. simpl. apply bool_decide_ext. set_solver.
Qed.

Lemma sat_ids_all ids r :
  sat_all (id_matches ids) (range_js r) = forallb (fun id => bool_decide (r_id r = id)) ids /\
  covered_all (id_matches ids) (range_js r) = true.
Proof.
  unfold sat_all, covered_all, id_matches. induction ids as [|id ids [IHs IHc]]; [done|]. cbn [map forallb].
  by rewrite (proj1 (sat_id id r)), (proj2 (sat_id id r)), IHs, IHc.
Qed.

Lemma sat_single q r : sat_all [q] (range_js r) = sat q (range_js r).
Proof. unfold sat_all. cbn [forallb]. apply andb_true_r. Qed.
Lemma covered_single q r : covered_all [q] (range_js r) = covered q (range_js r).
Proof. unfold covered_all. cbn [forallb]. apply andb_true_r. Qed.

Section Facts.
Context {I St : Type} `{JsEnv, !JsEnvLaws, Hashing, Document Range, !RangeDocument, Index I St Range, !IndexLaws I St Range,
  !IndexStore I Range, !IndexStoreLaws I St Range}.
Context (o : Options).
Abbreviation State := (Replicators (I := I)).
Implicit Types (s : State) (idx : I).

Abbreviation owned s := (ranges (replicationIndex s)).

(** The index is one of ranges under their ids. *)
Record store_ok idx : Prop := {
  store_ranges : ranges_ok (resolution_ o) idx;
  store_ids r : doc_id idx r = Some (PStr (idString r));
}.

(** ** Queries and changes of the index *)

Lemma query_all_spec ql qs (P : Range -> bool) s :
  store_ok (replicationIndex s) -> toQuery ql = Val qs ->
  (forall r, sat_all qs (range_js r) = P r /\ covered_all qs (range_js r) = true) ->
  query_all ql s = (Val (List.filter P (owned s)), s).
Proof.
  intros [Hok _] Hql Hq. unfold query_all, bindM, gets, lift, ret.
  destruct (all_by (resolution_ o) (replicationIndex s) ql qs P Hok Hql Hq) as (st & ->). cbn [fst].
  unfold ranges. do 2 f_equal. generalize (idx_contents (replicationIndex s)). intros l.
  induction l as [|x l IH]; [done|]. simpl. destruct (P (ir_value x)); simpl; by rewrite IH.
Qed.

Lemma idx_del_spec idx ql qs (P : Range -> bool) :
  store_ok idx -> toQuery ql = Val qs ->
  (forall r, sat_all qs (range_js r) = P r /\ covered_all qs (range_js r) = true) ->
  exists ids idx', idx_del idx ql = Val (ids, idx') /\ store_ok idx' /\
    forall x, x ∈ ranges idx' <-> x ∈ ranges idx /\ P x = false.
Proof.
  intros [Hok Hid] Hql Hq.
  destruct (law_del idx ql qs Hql (ranges_idx _ _ Hok)) as (ids & idx' & E & Hok' & Hd & Hm).
  { apply supported_by. intros r. apply Hq. }
  assert (Hin : forall x, x ∈ ranges idx' <-> x ∈ ranges idx /\ P x = false).
  { intros x. change (ranges idx') with (documents idx'). change (ranges idx) with (documents idx).
    rewrite Hm, range_to_js. by rewrite (proj1 (Hq x)). }
  exists ids, idx'. split; [done|]. split; [|done]. split; [split; [done|]|].
  - pose proof (ranges_each _ _ Hok) as Ha. rewrite Forall_forall in Ha |- *. intros x [Hx _]%Hin. by apply Ha.
  - intros r. by rewrite Hd.
Qed.

Lemma idx_put_spec idx r :
  store_ok idx -> range_ok (resolution_ o) r ->
  exists idx', idx_put idx r = Val idx' /\ store_ok idx' /\
    forall x, x ∈ ranges idx' <-> x = r \/ x ∈ ranges idx /\ r_id x <> r_id r.
Proof.
  intros [Hok Hid] Hr. destruct (law_put idx r _ (ranges_idx _ _ Hok) (Hid r)) as (idx' & E & Hok' & Hd & Hm).
  assert (Hin : forall x, x ∈ ranges idx' <-> x = r \/ x ∈ ranges idx /\ r_id x <> r_id r).
  { intros x. change (ranges idx') with (documents idx'). change (ranges idx) with (documents idx).
    rewrite Hm, Hid. split; (intros [|[Hx Hne]]; [by left|right; split; [done|]]).
    - intros Ex. apply Hne. unfold idString. by rewrite Ex.
    - intros [= Ex]. by apply Hne, toBase64_inj. }
  exists idx'. split; [done|]. split; [|done]. split; [split; [done|]|].
  - pose proof (ranges_each _ _ Hok) as Ha. rewrite Forall_forall in Ha |- *.
    intros x [->|[Hx _]]%Hin; [done|by apply Ha].
  - intros x. by rewrite Hd.
Qed.

Lemma same_id_same idx x y : store_ok idx -> x ∈ ranges idx -> y ∈ ranges idx -> r_id x = r_id y -> x = y.
Proof.
  intros [Hok Hid] Hx Hy E. apply (law_ids idx x y (PStr (idString x)) (ranges_idx _ _ Hok) Hx Hy); [apply Hid|].
  rewrite Hid. unfold idString. by rewrite E.
Qed.

Lemma delete_ranges_spec ql qs (P : Range -> bool) s :
  store_ok (replicationIndex s) -> toQuery ql = Val qs ->
  (forall r, sat_all qs (range_js r) = P r /\ covered_all qs (range_js r) = true) ->
  exists i, delete_ranges ql s = (Val tt, set_replicationIndex i s) /\ store_ok i /\
    forall x, x ∈ ranges i <-> x ∈ owned s /\ P x = false.
Proof.
  intros Hok Hql Hq. destruct (idx_del_spec _ ql qs P Hok Hql Hq) as (ids & i & E & Hi & Hin).
  exists i. split; [|done]. unfold delete_ranges, bindM, gets, lift, modify. by rewrite E.
Qed.

Lemma put_range_spec r s :
  store_ok (replicationIndex s) -> range_ok (resolution_ o) r ->
  exists i, put_range r s = (Val tt, set_replicationIndex i s) /\ store_ok i /\
    forall x, x ∈ ranges i <-> x = r \/ x ∈ owned s /\ r_id x <> r_id r.
Proof.
  intros Hok Hr. destruct (idx_put_spec _ r Hok Hr) as (i & E & Hi & Hin).
  exists i. split; [|done]. unfold put_range, bindM, gets, lift, modify. by rewrite E.
Qed.

Lemma next_one_spec idx ql qs sorts (P : Range -> bool) :
  store_ok idx -> toQuery ql = Val qs ->
  (forall r, sat_all qs (range_js r) = P r /\ covered_all qs (range_js r) = true) ->
  (forall r, sortable (default [] sorts) (range_js r) = true) ->
  exists res st, it_next (idx_ops idx) 1 (idx_iterate idx (MkIterateOptions ql sorts)) = Val (res, st) /\
    (res = [] <-> forall x, x ∈ ranges idx -> P x = false).
Proof.
  intros [Hok _] Hql Hq Hs.
  destruct (law_iterate idx ql qs sorts Hql (ranges_idx _ _ Hok)) as (_ & Hn & _).
  { intros r _. unfold doc_of. rewrite range_to_js. split; [apply Hq|apply Hs]. }
  destruct (Hn 0%nat) as (st & E & _). eexists _, st. split; [exact E|].
  assert (Hm : forall r, r ∈ reference_results (idx_contents idx) qs sorts <-> r ∈ idx_contents idx /\ P (ir_value r) = true).
  { intros r. unfold reference_results, order_results.
    assert (Ef : r ∈ List.filter (fun r => sat_all qs (doc_of r)) (idx_contents idx) <-> r ∈ idx_contents idx /\ P (ir_value r) = true).
    { rewrite elem_of_List_filter. unfold doc_of. by rewrite range_to_js, (proj1 (Hq _)). }
    destruct sorts; [by rewrite js_sort_elem|done]. }
  split.
  - intros Et x (r & -> & Hr)%list_elem_of_fmap. apply not_true_iff_false. intros HP.
    assert (Hin : r ∈ reference_results (idx_contents idx) qs sorts) by (by apply Hm).
    destruct (reference_results _ qs sorts); [by apply not_elem_of_nil in Hin|done].
  - intros Hall. destruct (reference_results _ qs sorts) as [|r l]; [done|].
    destruct (proj1 (Hm r)) as [Hr HP]; [by left|].
    rewrite Hall in HP; [done|]. apply list_elem_of_fmap. by exists r.
Qed.

Lemma updateOldest_spec now s :
  store_ok (replicationIndex s) -> exists t, updateOldestTimestampFromIndex now s = (Val tt, set_oldestOpenTime t s).
Proof.
  intros Hok. destruct (next_one_spec (replicationIndex s) QLNone [] (Some oldest_sort) (fun _ => true) Hok eq_refl)
    as (res & st & E & _); [done|done|].
  unfold updateOldestTimestampFromIndex, bindM, gets, lift, modify. rewrite E. by eexists.
Qed.

(** ** Who counts as a replicator *)

(** Every owner of a stored range is in [uniqueReplicators]. *)
Definition tracked s : Prop := forall r, r ∈ owned s -> r_hash r ∈ uniqueReplicators_ s.

Definition rep_ok s : Prop := store_ok (replicationIndex s) /\ tracked s.

(** The index and [uniqueReplicators] of two states agree. *)
Definition same_ranges s s' : Prop := replicationIndex s' = replicationIndex s /\ uniqueReplicators_ s' = uniqueReplicators_ s.

Lemma same_ranges_ok s s' : same_ranges s s' -> rep_ok s -> rep_ok s'.
Proof. intros [E1 E2] [Hs Ht]. unfold rep_ok, tracked. rewrite E1, E2. by split. Qed.

(** A method that neither fails nor touches the ranges. *)
Definition silent {A} (m : Method State A) : Prop := forall s, exists a s', m s = (Val a, s') /\ same_ranges s s'.

Lemma silent_modify (f : State -> State) : (forall s, same_ranges s (f s)) -> silent (modify f).
Proof. intros Hf s. by eexists tt, (f s). Qed.
Lemma silent_ret {A} (a : A) : silent (ret a).
Proof. intros s. by exists a, s. Qed.
Lemma silent_gets {A} (f : State -> A) : silent (gets f).
Proof. intros s. by exists (f s), s. Qed.
Lemma silent_bind {A B} (m : Method State A) (k : A -> Method State B) : silent m -> (forall a, silent (k a)) -> silent (bindM m k).
Proof.
  intros Hm Hk s. destruct (Hm s) as (a & s1 & E1 & [I1 U1]). destruct (Hk a s1) as (b & s2 & E2 & [I2 U2]).
  exists b, s2. unfold bindM. rewrite E1, E2. split; [done|]. split; congruence.
Qed.
Lemma silent_when c (m : Method State unit) : silent m -> silent (whenM c m).
Proof. intros Hm. destruct c; [done|apply silent_ret]. Qed.
Lemma silent_forM {A} (f : A -> Method State unit) l : (forall x, silent (f x)) -> silent (forM f l).
Proof. intros Hf. induction l as [|x l IH]; [apply silent_ret|]. by apply silent_bind. Qed.
Lemma silent_event e : silent (dispatchEvent e).
Proof. by apply silent_modify. Qed.
Lemma silent_send m a : silent (send m a).
Proof. by apply silent_modify. Qed.
Lemma silent_change c : silent (replicationChange c).
Proof. by apply silent_modify. Qed.
Lemma silent_rebalance : silent rebalanceParticipationDebounced.
Proof. by apply silent_modify. Qed.


(** ** Removing *)

Definition hash_record (h : string) : QueryLike := QLRecord (JObj [("hash"%string, JStr h)]).

Lemma hash_record_query h : toQuery (hash_record h) = Val [of_owner h].
Proof. reflexivity. Qed.

Lemma owner_query_all h s : store_ok (replicationIndex s) ->
  query_all (hash_record h) s = (Val (List.filter (fun r => bool_decide (r_hash r = h)) (owned s)), s).
Proof. intros Hok. apply (query_all_spec _ [of_owner h]); [done|done|]. intros r. apply sat_owner. Qed.

Lemma owner_delete h s : store_ok (replicationIndex s) ->
  exists i, delete_ranges (hash_record h) s = (Val tt, set_replicationIndex i s) /\ store_ok i /\
    forall x, x ∈ ranges i <-> x ∈ owned s /\ r_hash x <> h.
Proof.
  intros Hok. destruct (delete_ranges_spec (hash_record h) [of_owner h] (fun r => bool_decide (r_hash r = h)) s Hok eq_refl)
    as (i & E & Hi & Hin); [apply sat_owner|]. exists i. split; [done|]. split; [done|]. intros x. by rewrite Hin, bool_decide_eq_false.
Qed.

Definition key_hash (k : KeyOrHash) : string := match k with AKey k => hashcode k | AHash h => h end.

Definition outcome_unit (noEvent : bool) (k : KeyOrHash) : outcome unit :=
  match k with AHash _ => if noEvent then Val tt else Exn "Key was not a PublicSignKey" | AKey _ => Val tt end.

Lemma removeReplicator_spec k noEvent now s :
  rep_ok s -> outcome_unit noEvent k = Val tt ->
  exists s', removeReplicator o k noEvent now s = (Val tt, s') /\ rep_ok s' /\
    (forall x, x ∈ owned s' <-> x ∈ owned s /\ r_hash x <> key_hash k) /\
    uniqueReplicators_ s' = Set_delete (uniqueReplicators_ s) (key_hash k).
Proof.
  intros [Hok Ht] Hk. unfold removeReplicator.
  change (QLRecord (JObj [("hash"%string, JStr match k with AKey k => hashcode k | AHash h => h end)])) with (hash_record (key_hash k)).
  change (match k with AKey k => hashcode k | AHash h => h end) with (key_hash k).
  unfold bindM at 1. rewrite (owner_query_all (key_hash k) s Hok).
  set (deleted := List.filter _ _). unfold bindM at 1, modify at 1.
  destruct (owner_delete (key_hash k) (set_uniqueReplicators (Set_delete (uniqueReplicators_ s) (key_hash k)) s) Hok) as (i & E & Hi & Hin).
  unfold bindM at 1. rewrite E.
  match goal with |- context [set_replicationIndex i ?s0] => set (s1 := set_replicationIndex i s0) end.
  destruct (updateOldest_spec now s1 Hi) as (t & E2). unfold bindM at 1. rewrite E2.
  assert (Hrest : silent (
    whenM (bool_decide (myHash o = key_hash k)) (send (AllReplicatingSegmentsMessage []) Everyone);;;
    (if noEvent then ret tt else match k with AKey k => dispatchEvent (ReplicationChangeEvent k) | AHash _ => raise "Key was not a PublicSignKey" end);;;
    forM (fun x => replicationChange (removed_change now x)) deleted;;;
    modify (fun s => set_pendingMaturity (Map_delete (pendingMaturity s) (key_hash k)) s);;;
    whenM (negb (bool_decide (myHash o = key_hash k))) rebalanceParticipationDebounced)%effects).
  { apply silent_bind; [apply silent_when, silent_send|intros _]. apply silent_bind; [|intros _].
    { destruct noEvent; [apply silent_ret|]. destruct k; [apply silent_event|done]. }
    apply silent_bind; [apply silent_forM; intros x; apply silent_change|intros _].
    apply silent_bind; [by apply silent_modify|intros _]. apply silent_when, silent_rebalance. }
  destruct (Hrest (set_oldestOpenTime t s1)) as ([] & s' & E3 & [Ei Eu]). exists s'. split; [exact E3|].
  cbn [replicationIndex uniqueReplicators_ set_oldestOpenTime set_replicationIndex set_uniqueReplicators s1] in Ei, Eu.
  assert (Hown : forall x, x ∈ owned s' <-> x ∈ owned s /\ r_hash x <> key_hash k) by (intros x; by rewrite Ei).
  split; [|done]. split; [by rewrite Ei|]. intros r [Hr Hne]%Hown. rewrite Eu. apply Set_delete_elem. split; [by apply Ht|done].
Qed.

Lemma removeReplicationRanges_empty text from now s :
  exists s', removeReplicationRanges o text [] from now s = (Exn "???", s') /\ same_ranges s s'.
Proof.
  unfold removeReplicationRanges, bindM, modify, raise. eexists. split; [done|].
  unfold clear_matured. destruct (Map_get _ _) as [p|]; [|done]. by destruct (fold_left _ _ p).
Qed.

Lemma clear_matured_same text from rs s : same_ranges s (clear_matured text from rs s).
Proof. unfold clear_matured. destruct (Map_get _ _) as [p|]; [|done]. by destruct (fold_left _ _ p). Qed.

Lemma removeReplicationRanges_spec text rs from now s :
  rep_ok s -> rs <> [] -> (forall r, r ∈ rs -> r ∈ owned s /\ r_hash r = hashcode from) ->
  exists s', removeReplicationRanges o text rs from now s = (Val tt, s') /\ rep_ok s' /\
    (forall x, x ∈ owned s' <-> x ∈ owned s /\ x ∉ rs) /\
    (forall h, h ∈ uniqueReplicators_ s' <->
       h ∈ uniqueReplicators_ s /\ (h = hashcode from -> exists x, x ∈ owned s' /\ r_hash x = h)).
Proof.
  intros Hok Hne Hrs. unfold removeReplicationRanges.
  destruct (clear_matured_same text from rs s) as [Ei0 Eu0]. unfold bindM at 1, modify at 1.
  set (s0 := clear_matured text from rs s) in *. destruct Hok as [Hok Ht].
  destruct rs as [|r0 rs]; [done|]. unfold bindM at 1, ret at 1. set (l := r0 :: rs) in *.
  unfold bindM at 1, lift at 1. change (new_Or (id_matches (map r_id l))) with (Val (Or (id_matches (map r_id l)))).
  destruct (delete_ranges_spec (QLOne (Or (id_matches (map r_id l)))) [Or (id_matches (map r_id l))]
              (fun r => bool_decide (r_id r ∈ map r_id l)) s0) as (i & E & Hi & Hin); [by rewrite Ei0|done| |].
  { intros r. rewrite sat_single, covered_single. apply sat_ids_any. }
  unfold bindM at 1. cbn [mbind]. rewrite E. set (s1 := set_replicationIndex i s0).
  assert (Hown : forall x, x ∈ ranges i <-> x ∈ owned s /\ x ∉ l).
  { intros x. rewrite Hin, Ei0, bool_decide_eq_false. split; intros [Hx Hn]; (split; [done|]).
    - intros Hl. apply Hn. apply list_elem_of_fmap. by exists x.
    - intros (y & Ey & Hy)%list_elem_of_fmap. apply Hn.
      by rewrite (same_id_same _ x y Hok Hx (proj1 (Hrs y Hy)) Ey). }
  destruct (next_one_spec i (hash_record (hashcode from)) [of_owner (hashcode from)] None
              (fun r => bool_decide (r_hash r = hashcode from)) Hi eq_refl) as (res & st & En & Hres); [apply sat_owner|done|].
  unfold bindM at 1, gets at 1, bindM at 1, lift at 1. cbn [replicationIndex s1 set_replicationIndex].
  change (QLRecord (JObj [("hash"%string, JStr (hashcode from))])) with (hash_record (hashcode from)). rewrite En. cbn [fst].
  set (gone := match res with [] => true | _ => false end).
  assert (Hgone : gone = true <-> forall x, x ∈ ranges i -> r_hash x <> hashcode from).
  { transitivity (res = []); [by destruct res|]. rewrite Hres. split; intros Hall x Hx.
    - apply Hall in Hx. by apply bool_decide_eq_false in Hx.
    - apply bool_decide_eq_false. by apply Hall. }
  set (s2 := if gone then set_uniqueReplicators (Set_delete (uniqueReplicators_ s1) (hashcode from)) s1 else s1).
  assert (E2 : whenM gone (modify (fun s => set_uniqueReplicators (Set_delete (uniqueReplicators_ s) (hashcode from)) s)) s1 = (Val tt, s2))
    by (by destruct gone). unfold bindM at 1. rewrite E2.
  assert (Hi2 : replicationIndex s2 = i) by (by unfold s2; destruct gone).
  destruct (updateOldest_spec now s2) as (t & E3); [by rewrite Hi2|]. unfold bindM at 1. rewrite E3.
  assert (Hq : silent (dispatchEvent (ReplicationChangeEvent from);;;
                 whenM (negb (equals from (publicKey_ o))) rebalanceParticipationDebounced)%effects).
  { apply silent_bind; [apply silent_event|intros _]. apply silent_when, silent_rebalance. }
  destruct (Hq (set_oldestOpenTime t s2)) as ([] & s' & E4 & [Ei Eu]). exists s'. split; [exact E4|].
  cbn [set_oldestOpenTime replicationIndex uniqueReplicators_] in Ei, Eu. rewrite Hi2 in Ei.
  assert (Hu : forall h, h ∈ uniqueReplicators_ s' <->
       h ∈ uniqueReplicators_ s /\ (h = hashcode from -> exists x, x ∈ owned s' /\ r_hash x = h)).
  { intros h. rewrite Eu, Ei. unfold s2. destruct gone eqn:Eg; cbn [set_uniqueReplicators uniqueReplicators_ s1 set_replicationIndex];
      rewrite ?Set_delete_elem, ?Eu0.
    - split; intros [Hh Hx]; (split; [done|]); [done|]. intros E'. destruct (Hx E') as (x & Hx' & Ex).
      apply (proj1 Hgone eq_refl x Hx'). congruence.
    - split; [|by intros []]. intros Hh. split; [done|]. intros E'.
      destruct (existsb (fun x => bool_decide (r_hash x = hashcode from)) (ranges i)) eqn:Ex.
      + apply existsb_exists in Ex as (x & Hx%list_elem_of_In & Exh%bool_decide_eq_true). exists x. split; [done|congruence].
      + exfalso. assert (false = true); [|done]. apply Hgone. intros x Hx Exh. apply not_true_iff_false in Ex. apply Ex.
        apply existsb_exists. exists x. split; [by apply list_elem_of_In|by apply bool_decide_eq_true]. }
  split; [split; [by rewrite Ei|]|split; [intros x; by rewrite Ei|done]].
  intros r Hr. apply Hu. rewrite Ei in Hr. split; [apply Ht; by apply Hown in Hr as []|].
  intros _. exists r. by rewrite Ei.
Qed.


(** ** Adding *)

Definition added_ranges (diffs : list ReplicationChange) : list Range := map ch_range (List.filter is_added diffs).

Lemma cancel_maturity_same r s : same_ranges s (cancel_maturity r s).
Proof. unfold cancel_maturity. destruct (Map_get _ _) as [p|]; [|done]. by destruct (Map_delete p _). Qed.

(** A method that ends and leaves the ranges alone, whatever else it does. *)
Lemma apply_diff_spec reset rebalance from now age d s :
  store_ok (replicationIndex s) -> (is_added d = true -> range_ok (resolution_ o) (ch_range d)) ->
  exists b s', apply_diff reset rebalance from now age d s = (Val b, s') /\ store_ok (replicationIndex s') /\
    uniqueReplicators_ s' = uniqueReplicators_ s /\
    forall x, x ∈ owned s' <->
      if is_added d then x = ch_range d \/ x ∈ owned s /\ r_id x <> r_id (ch_range d) else x ∈ owned s.
Proof.
  intros Hok Hr. unfold apply_diff, is_added in *. destruct (ch_type d) as [m| |].
  - destruct (put_range_spec (ch_range d) s Hok (Hr eq_refl)) as (i & E & Hi & Hin).
    unfold bindM at 1. rewrite E.
    assert (Hq : silent (whenM (negb reset) (modify (fun s : State => set_oldestOpenTime
      (Z.min (Number_of_bigint (r_timestamp (ch_range d))) (oldestOpenTime s)) s)))) by (by apply silent_when, silent_modify).
    destruct (Hq (set_replicationIndex i s)) as ([] & s1 & E1 & [Ei Eu]). unfold bindM at 1. rewrite E1.
    cbn [set_replicationIndex replicationIndex uniqueReplicators_] in Ei, Eu.
    destruct (isMatured _ _ _).
    + eexists _, s1. split; [done|]. rewrite Ei, Eu. by split_and!.
    + eexists _, _. split; [done|]. cbn [fst snd setup_maturity set_pendingMaturity replicationIndex uniqueReplicators_].
      rewrite Ei, Eu. by split_and!.
  - eexists _, _. split; [done|]. destruct (cancel_maturity_same (ch_range d) s) as [-> ->]. by split_and!.
  - eexists _, s. by split_and!.
Qed.

Lemma apply_diffs_spec reset rebalance from now age diffs s :
  store_ok (replicationIndex s) -> (forall r, r ∈ added_ranges diffs -> range_ok (resolution_ o) r) ->
  exists b s', apply_diffs reset rebalance from now age diffs s = (Val b, s') /\ store_ok (replicationIndex s') /\
    uniqueReplicators_ s' = uniqueReplicators_ s /\
    (forall x, x ∈ owned s' -> x ∈ added_ranges diffs \/ x ∈ owned s /\ r_id x ∉ map r_id (added_ranges diffs)) /\
    (forall x, x ∈ owned s -> r_id x ∉ map r_id (added_ranges diffs) -> x ∈ owned s') /\
    (NoDup (map r_id (added_ranges diffs)) -> forall x, x ∈ added_ranges diffs -> x ∈ owned s').
Proof.
  revert s. induction diffs as [|d diffs IH]; intros s Hok Hr; cbn [apply_diffs].
  { exists true, s. split; [done|]. split_and!; try done; [|by intros _ x []%not_elem_of_nil].
    intros x Hx. right. split; [done|]. apply not_elem_of_nil. }
  assert (Ea : added_ranges (d :: diffs) = (if is_added d then [ch_range d] else []) ++ added_ranges diffs).
  { unfold added_ranges. simpl. by destruct (is_added d). }
  destruct (apply_diff_spec reset rebalance from now age d s Hok) as (b & s1 & E & Hok1 & Eu & Hin).
  { intros Hd. apply Hr. rewrite Ea, Hd. by left. }
  unfold bindM at 1. rewrite E.
  destruct (IH s1 Hok1) as (b' & s2 & E2 & Hok2 & Eu2 & H1' & H2' & H3').
  { intros r Hin'. apply Hr. rewrite Ea. apply elem_of_app. by right. }
  unfold bindM at 1. rewrite E2. eexists _, s2. split; [done|]. split; [done|]. split; [by rewrite Eu2|].
  rewrite Ea. destruct (is_added d); cbn [app]; [|split_and!].
  - split_and!.
    + intros x Hx. destruct (H1' x Hx) as [|[Hx1 Hn]]; [left; by right|]. apply Hin in Hx1 as [->|[Hx1 Hne]]; [left; by left|].
      right. split; [done|]. simpl. by rewrite not_elem_of_cons.
    + intros x Hx. simpl. rewrite not_elem_of_cons. intros [Hne Hn]. apply H2'; [|done]. apply Hin. by right.
    + simpl. intros [Hn Hnd]%NoDup_cons x [->|Hx]%elem_of_cons; [|by apply H3']. apply H2'; [|done]. apply Hin. by left.
  - intros x Hx. destruct (H1' x Hx) as [|[Hx1 Hn]]; [by left|right]. by rewrite <- Hin.
  - intros x Hx Hn. apply H2'; [by apply Hin|done].
  - done.
Qed.

Lemma deduplicate_spec rs s :
  store_ok (replicationIndex s) -> (forall r, r ∈ rs -> range_ok (resolution_ o) r) ->
  exists rs', deduplicate o rs s = (Val rs', s) /\ sublist rs' rs /\
    forall r, r ∈ rs -> r ∈ rs' \/ exists x, x ∈ owned s /\ r_hash x = r_hash r /\ r_id x <> r_id r /\
                                     forall p, contains r p = true -> contains x p = true.
Proof.
  intros Hok. induction rs as [|r rs IH]; intros Hr; cbn [deduplicate].
  { exists []. split; [done|]. split; [constructor|]. by intros r []%not_elem_of_nil. }
  destruct IH as (rs' & E & Hs & Hc); [intros; apply Hr; by right|].
  destruct (Hr r) as [Ht _ Hsh]; [by left|].
  destruct (covering_same_owner (resolution_ o) (replicationIndex s) r (store_ranges _ Hok) Hsh Ht) as (b & Eb & _ & Hb).
  unfold bindM at 1, gets at 1, bindM at 1, lift at 1. rewrite Eb. unfold bindM at 1. rewrite E. eexists. split; [done|].
  destruct b.
  - split; [by constructor|]. intros x [->|Hx]%elem_of_cons; [right; by apply Hb|by apply Hc].
  - split; [by constructor|]. intros x [->|Hx]%elem_of_cons; [left; by left|].
    destruct (Hc x Hx) as [|]; [left; by right|by right].
Qed.

Lemma ids_all_query ids s :
  store_ok (replicationIndex s) ->
  query_all (QLMany (id_matches ids)) s = (Val (List.filter (fun r => forallb (fun id => bool_decide (r_id r = id)) ids) (owned s)), s).
Proof. intros Hok. apply (query_all_spec _ (id_matches ids)); [done|done|]. intros r. apply sat_ids_all. Qed.

Lemma existing_spec rs s :
  store_ok (replicationIndex s) -> exists found, existing_ranges rs s = (Val found, s) /\ forall r, r ∈ found -> r ∈ owned s.
Proof.
  intros Hok. unfold existing_ranges. induction (batches (length rs) rs) as [|batch l IH]; cbn [fold_right].
  { exists []. split; [done|]. by intros r []%not_elem_of_nil. }
  destruct IH as (more & E & Hm). unfold bindM at 1. rewrite ids_all_query by done. unfold bindM at 1. rewrite E.
  eexists. split; [done|]. intros r [Hr|Hr]%elem_of_app; [|by apply Hm]. by apply elem_of_List_filter in Hr as [Hr _].
Qed.

(** A batch of one looks its range up; a batch of several finds nothing. *)
Lemma existing_one r s :
  store_ok (replicationIndex s) ->
  existing_ranges [r] s = (Val (List.filter (fun x => bool_decide (r_id x = r_id r)) (owned s)), s).
Proof.
  intros Hok. unfold existing_ranges. cbn [length batches take drop fold_right map]. unfold bindM at 1.
  rewrite (ids_all_query [r_id r] s Hok). unfold bindM at 1, ret. rewrite app_nil_r. do 2 f_equal. apply List.filter_ext.
  intros x. cbn [forallb]. apply andb_true_r.
Qed.

Lemma added_changes existing rs x :
  x ∈ added_ranges (flat_map (changes_for existing) rs) -> x ∈ rs.
Proof.
  unfold added_ranges. intros (c & -> & [Hc Ha]%elem_of_List_filter)%list_elem_of_fmap.
  apply list_elem_of_In, in_flat_map in Hc as (r & Hr & Hc). apply list_elem_of_In.
  unfold changes_for in Hc. destruct (Map_get existing (idString r)) as [prev|].
  - destruct (equalRange prev r); [done|]. destruct Hc as [<-|[<-|[]]]; [done|exact Hr].
  - destruct Hc as [<-|[]]. exact Hr.
Qed.

Lemma diffs_added_spec rs from check s :
  store_ok (replicationIndex s) -> (forall r, r ∈ rs -> range_ok (resolution_ o) r) ->
  exists diffs isNew, diffs_added o rs from check s = (Val (diffs, isNew), s) /\
    (forall x, x ∈ added_ranges diffs -> x ∈ rs).
Proof.
  intros Hok Hr. unfold diffs_added. destruct (existing_spec rs s Hok) as (found & E & Hf).
  unfold bindM at 1. rewrite E.
  assert (Hn : exists b, (match found with
           | [] => (s ⇠ gets replicationIndex;; n ⇠ lift (idx_count s (QLOne (of_owner (hashcode from))));; ret (n =? 0)%nat)%effects
           | _ => ret false end) s = (Val b, s)).
  { destruct found; [|by exists false]. unfold bindM, gets, lift, ret.
    rewrite (count_by (resolution_ o) (replicationIndex s) (QLOne (of_owner (hashcode from))) [of_owner (hashcode from)] _ (store_ranges _ Hok) eq_refl
      (fun r => sat_owner (hashcode from) r)). by eexists. }
  destruct Hn as (b & En). unfold bindM at 1. rewrite En.
  assert (Hd : exists rs', (if check then deduplicate o rs else ret rs) s = (Val rs', s) /\ sublist rs' rs).
  { destruct check; [|by exists rs]. destruct (deduplicate_spec rs s Hok Hr) as (rs' & E' & Hs & _). by exists rs'. }
  destruct Hd as (rs' & Ed & Hs). unfold bindM at 1. rewrite Ed. eexists _, b. split; [done|].
  intros x Hx%added_changes. by eapply elem_of_sublist.
Qed.

Lemma diffs_reset_spec rs from ts s :
  store_ok (replicationIndex s) ->
  exists diffs isNew i, diffs_reset rs from ts s = (Val (diffs, isNew), set_replicationIndex i s) /\ store_ok i /\
    added_ranges diffs = rs /\ (forall x, x ∈ ranges i <-> x ∈ owned s /\ r_hash x <> hashcode from).
Proof.
  intros Hok. unfold diffs_reset.
  change (QLRecord (JObj [("hash"%string, JStr (hashcode from))])) with (hash_record (hashcode from)).
  unfold bindM at 1. rewrite owner_query_all by done. destruct (owner_delete (hashcode from) s Hok) as (i & E & Hi & Hin).
  unfold bindM at 1. rewrite E. eexists _, _, i. split; [done|]. split; [done|]. split; [|done].
  unfold added_ranges. rewrite List.filter_app.
  assert (E1 : forall l, List.filter is_added (map (removed_change ts) l) = []) by (intros l; induction l; simpl; done).
  assert (E2 : List.filter is_added (map (fun x => MkChange (added false) x ts) rs) = map (fun x => MkChange (added false) x ts) rs).
  { clear. induction rs as [|r rs IH]; [done|]. simpl. by rewrite IH. }
  rewrite E1, E2. simpl. rewrite map_map. apply map_id.
Qed.

Definition trusted (from : PublicSignKey) : bool := match isTrustedReplicator o with Some f => f from | None => true end.

(** A method that only reads, as [getDefaultMinRoleAge]. *)
Definition reads {A} (m : Method State A) : Prop := forall s, exists a, m s = (Val a, s).

Lemma role_age_reads log n now : reads (getDefaultMinRoleAge o log n now).
Proof. intros s. unfold getDefaultMinRoleAge, bindM, gets, ret. case_bool_decide; by eexists. Qed.

(** Ranges that [from] may announce. *)
Definition owned_by (from : PublicSignKey) (rs : list Range) : Prop :=
  forall r, r ∈ rs -> range_ok (resolution_ o) r /\ r_hash r = hashcode from.

Lemma untrusted_add rs from ao age now s : trusted from = false -> addReplicationRange o rs from ao age now s = (Val None, s).
Proof.
  unfold trusted, addReplicationRange. destruct (isTrustedReplicator o) as [f|]; [|done]. by intros ->.
Qed.

(** The ranges after [diffs] have been found in state [s1]. *)
Lemma apply_all rs from ao age now s s1 diffs isNew :
  trusted from = true -> reads age ->
  (if ao_reset ao then diffs_reset rs from (default now (ao_timestamp ao)) else diffs_added o rs from (ao_checkDuplicates ao)) s
    = (Val (diffs, isNew), s1) ->
  store_ok (replicationIndex s1) -> (forall r, r ∈ added_ranges diffs -> range_ok (resolution_ o) r) ->
  exists s', addReplicationRange o rs from ao age now s = (Val (Some diffs), s') /\ store_ok (replicationIndex s') /\
    uniqueReplicators_ s' = Set_add (uniqueReplicators_ s1) (hashcode from) /\
    (forall x, x ∈ owned s' -> x ∈ added_ranges diffs \/ x ∈ owned s1 /\ r_id x ∉ map r_id (added_ranges diffs)) /\
    (forall x, x ∈ owned s1 -> r_id x ∉ map r_id (added_ranges diffs) -> x ∈ owned s') /\
    (NoDup (map r_id (added_ranges diffs)) -> forall x, x ∈ added_ranges diffs -> x ∈ owned s').
Proof.
  intros Htr Hage Hd Hok Hr. unfold addReplicationRange. unfold trusted in Htr.
  assert (E0 : match isTrustedReplicator o with Some f => negb (f from) | None => false end = false)
    by (destruct (isTrustedReplicator o); [by apply negb_false_iff|done]). rewrite E0.
  unfold bindM at 1. rewrite Hd. unfold bindM at 1, modify at 1.
  set (s2 := set_uniqueReplicators _ s1). destruct (Hage s2) as (a & Ea). unfold bindM at 1. rewrite Ea.
  destruct (apply_diffs_spec (ao_reset ao) (ao_rebalance ao) from now a diffs s2 Hok Hr) as (b & s3 & E3 & Hok3 & Eu3 & H1' & H2' & H3').
  unfold bindM at 1. rewrite E3.
  assert (Hold : exists s4, whenM (ao_reset ao) (updateOldestTimestampFromIndex now) s3 = (Val tt, s4) /\ same_ranges s3 s4).
  { destruct (ao_reset ao); [|by exists s3]. destruct (updateOldest_spec now s3 Hok3) as (t & E). by eexists. }
  destruct Hold as (s4 & E4 & [Ei4 Eu4]). unfold bindM at 1. rewrite E4.
  assert (Hq : silent (
    dispatchEvent (ReplicationChangeEvent from);;;
    whenM isNew (dispatchEvent (ReplicatorJoinEvent from);;; whenM b (dispatchEvent (ReplicatorMatureEvent from)));;;
    whenM (ao_rebalance ao) (forM replicationChange diffs);;;
    whenM (negb (equals from (publicKey_ o))) rebalanceParticipationDebounced;;;
    ret (Some diffs))%effects).
  { apply silent_bind; [apply silent_event|intros _]. apply silent_bind.
    { apply silent_when, silent_bind; [apply silent_event|intros _; apply silent_when, silent_event]. }
    intros _. apply silent_bind; [apply silent_when, silent_forM; intros x; apply silent_change|intros _].
    apply silent_bind; [apply silent_when, silent_rebalance|intros _; apply silent_ret]. }
  destruct (Hq s4) as (r & s5 & E5 & [Ei5 Eu5]).
  assert (Er : r = Some diffs).
  { revert E5. unfold bindM, ret, dispatchEvent, modify, whenM. clear.
    repeat match goal with |- context [if ?c then _ else _] => destruct c end;
      repeat match goal with |- context [match ?m ?x with _ => _ end] => destruct (m x) as [[[]|?|] ?] end; congruence. }
  subst r. exists s5. split; [exact E5|]. rewrite Ei5, Ei4, Eu5, Eu4, Eu3. by split_and!.
Qed.

Lemma tracked_after s' s1 from rs diffs :
  (forall r, r ∈ added_ranges diffs -> r ∈ rs) -> owned_by from rs ->
  uniqueReplicators_ s' = Set_add (uniqueReplicators_ s1) (hashcode from) ->
  (forall x, x ∈ owned s' -> x ∈ added_ranges diffs \/ x ∈ owned s1 /\ r_id x ∉ map r_id (added_ranges diffs)) ->
  tracked s1 -> tracked s'.
Proof.
  intros Hd Ho Eu Hin Ht r Hr. rewrite Eu. apply Set_add_elem.
  destruct (Hin r Hr) as [Ha|[Hs _]]; [left; by apply Ho, Hd|right; by apply Ht].
Qed.

(** Without [reset]: the ranges that are put, given by the changes. *)
Lemma add_spec rs from ao age now s :
  rep_ok s -> owned_by from rs -> reads age -> trusted from = true -> ao_reset ao = false ->
  exists diffs s', addReplicationRange o rs from ao age now s = (Val (Some diffs), s') /\ rep_ok s' /\
    uniqueReplicators_ s' = Set_add (uniqueReplicators_ s) (hashcode from) /\
    (forall x, x ∈ added_ranges diffs -> x ∈ rs) /\
    (forall x, x ∈ owned s' -> x ∈ added_ranges diffs \/ x ∈ owned s /\ r_id x ∉ map r_id (added_ranges diffs)) /\
    (forall x, x ∈ owned s -> r_id x ∉ map r_id (added_ranges diffs) -> x ∈ owned s') /\
    (NoDup (map r_id (added_ranges diffs)) -> forall x, x ∈ added_ranges diffs -> x ∈ owned s').
Proof.
  intros [Hok Ht] Ho Hage Htr Hre.
  destruct (diffs_added_spec rs from (ao_checkDuplicates ao) s Hok) as (diffs & isNew & E & Hd); [intros r Hr; by apply Ho|].
  destruct (apply_all rs from ao age now s s diffs isNew Htr Hage) as (s' & E' & Hok' & Eu & H1' & H2' & H3');
    [by rewrite Hre|done|intros r Hr; by apply Ho, Hd|].
  exists diffs, s'. split; [done|]. split; [|by split_and!]. split; [done|]. by apply (tracked_after s' s from rs diffs).
Qed.

(** With [reset]: all the ranges given replace those of their owner. *)
Lemma reset_spec rs from ao age now s :
  rep_ok s -> owned_by from rs -> reads age -> trusted from = true -> ao_reset ao = true ->
  exists diffs s', addReplicationRange o rs from ao age now s = (Val (Some diffs), s') /\ rep_ok s' /\
    uniqueReplicators_ s' = Set_add (uniqueReplicators_ s) (hashcode from) /\
    (forall x, x ∈ owned s' -> x ∈ rs \/ x ∈ owned s /\ r_hash x <> hashcode from /\ r_id x ∉ map r_id rs) /\
    (forall x, x ∈ owned s -> r_hash x <> hashcode from -> r_id x ∉ map r_id rs -> x ∈ owned s') /\
    (NoDup (map r_id rs) -> forall x, x ∈ rs -> x ∈ owned s').
Proof.
  intros [Hok Ht] Ho Hage Htr Hre.
  destruct (diffs_reset_spec rs from (default now (ao_timestamp ao)) s Hok) as (diffs & isNew & i & E & Hi & Ea & Hin).
  destruct (apply_all rs from ao age now s (set_replicationIndex i s) diffs isNew Htr Hage) as (s' & E' & Hok' & Eu & H1' & H2' & H3');
    [by rewrite Hre|done|intros r; rewrite Ea; intros Hr; by apply Ho|].
  rewrite Ea in H1', H2', H3'. cbn [set_replicationIndex replicationIndex uniqueReplicators_] in H1', H2', Eu.
  exists diffs, s'. split; [done|]. split; [|split; [done|split_and!]].
  - split; [done|]. apply (tracked_after s' (set_replicationIndex i s) from rs diffs); [by rewrite Ea|done|done| |].
    + rewrite Ea. exact H1'.
    + intros r [Hr _]%Hin. by apply Ht.
  - intros x Hx. destruct (H1' x Hx) as [|[Hx1 Hn]]; [by left|right]. by apply Hin in Hx1 as [].
  - intros x Hx Hh Hn. apply H2'; [by apply Hin|done].
  - done.
Qed.

Lemma addReplicationRange_ok rs from ao age now s :
  rep_ok s -> owned_by from rs -> reads age -> rep_ok (addReplicationRange o rs from ao age now s).2.
Proof.
  intros Hok Ho Hage. destruct (trusted from) eqn:Htr; [|by rewrite untrusted_add].
  destruct (ao_reset ao) eqn:Er.
  - destruct (reset_spec rs from ao age now s Hok Ho Hage Htr Er) as (d & s' & -> & Hok' & _). done.
  - destruct (add_spec rs from ao age now s Hok Ho Hage Htr Er) as (d & s' & -> & Hok' & _). done.
Qed.

(** ** Messages *)

Lemma to_ranges_owner segments from rs : to_ranges segments from = Val rs -> forall r, r ∈ rs -> r_hash r = hashcode from.
Proof.
  unfold to_ranges. revert rs. induction segments as [|m segments IH]; intros rs E; cbn [mapM_out] in E.
  { injection E as <-. by intros r []%not_elem_of_nil. }
  outcome_inv. intros r [->|Hr]%elem_of_cons; [|by apply (IH a0)].
  unfold toReplicationRangeIndexable, U32Range.toReplicationRangeIndexable, U64Range.toReplicationRangeIndexable in Hstep.
  destruct (m_type m); unfold U32Range.new_Range, U64Range.new_Range in Hstep; cbn [p_owner owner_hash] in Hstep;
    outcome_inv; case_bool_decide; by outcome_inv.
Qed.

(** The segments of a message, where they are valid ranges, have the shape of
    constructed ones. *)
Definition valid_segments (msg : ReplicationMessage) (from : PublicSignKey) : Prop :=
  match msg with
  | AllReplicatingSegmentsMessage segments | AddedReplicationSegmentMessage segments =>
      forall rs, to_ranges segments from = Val rs -> forall r, r ∈ rs -> range_ok (resolution_ o) r
  | _ => True
  end.

Lemma on_segments_ok segments reset from ts closed_ age now s :
  rep_ok s -> (forall rs, to_ranges segments from = Val rs -> forall r, r ∈ rs -> range_ok (resolution_ o) r) -> reads age ->
  rep_ok (on_segments o segments reset from ts closed_ age now s).2.
Proof.
  intros Hok Hv Hage. unfold on_segments, bindM at 1, gets at 1. case_match; [done|].
  unfold bindM at 1, modify at 1. destruct closed_; [exact Hok|]. unfold bindM at 1, lift at 1.
  destruct (to_ranges segments from) as [rs|e|] eqn:E; [|exact Hok|exact Hok].
  match goal with |- context [addReplicationRange o rs from ?ao age now] => set (a := ao) end.
  match goal with |- context [set_latest ?m s] => set (s1 := set_latest m s) end.
  pose proof (addReplicationRange_ok rs from a age now s1) as Hadd. unfold bindM.
  destruct (addReplicationRange o rs from a age now s1) as [[r|e|] s']; cbn [snd] in *;
    (apply Hadd; [exact Hok| |exact Hage]); (intros r' Hr'; split; [by apply (Hv rs)|by apply (to_ranges_owner segments from rs)]).
Qed.

Lemma resolve_spec ids from s : store_ok (replicationIndex s) ->
  resolveReplicationRangesFromIdsAndKey ids from s =
    match ids with
    | [] => (Exn "Or query must have at least one query", s)
    | _ => (Val (List.filter (fun r => bool_decide (r_id r ∈ ids) && bool_decide (r_hash r = hashcode from)) (owned s)), s)
    end.
Proof.
  intros Hok. unfold resolveReplicationRangesFromIdsAndKey. destruct ids as [|id ids]; [done|].
  unfold bindM at 1, lift at 1. change (new_Or (id_matches (id :: ids))) with (Val (Or (id_matches (id :: ids)))).
  unfold bindM at 1, lift at 1. cbn [new_And length Nat.eqb throw_if mbind outcome_bind].
  set (q := And [Or (id_matches (id :: ids)); of_owner (hashcode from)]).
  apply (query_all_spec (QLOne q) [q]); [done|done|]. intros r. rewrite sat_single, covered_single. unfold q.
  cbn [sat covered forallb]. destruct (sat_ids_any (id :: ids) r) as [E1 C1]. cbn [sat covered] in E1, C1.
  rewrite E1, C1. destruct (sat_owner (hashcode from) r) as [E2 C2]. rewrite sat_single in E2. rewrite covered_single in C2.
  rewrite E2, C2. split; [by rewrite andb_true_r|done].
Qed.

Lemma remove_resolved text ids from now s :
  rep_ok s -> forall rs, resolveReplicationRangesFromIdsAndKey ids from s = (Val rs, s) ->
  rep_ok (removeReplicationRanges o text rs from now s).2.
Proof.
  intros Hok rs E. destruct rs as [|r rs].
  - destruct (removeReplicationRanges_empty text from now s) as (s' & -> & Hs). by apply (same_ranges_ok s).
  - destruct (removeReplicationRanges_spec text (r :: rs) from now s Hok) as (s' & -> & Hok' & _); [done| |done].
    intros x Hx. destruct Hok as [Hok _]. rewrite (resolve_spec ids from s Hok) in E. destruct ids as [|id ids]; [done|].
    injection E as E. rewrite <- E in Hx. apply elem_of_List_filter in Hx as [Hx [_ Hh%bool_decide_eq_true]%andb_true_iff]. done.
Qed.

Lemma silent_ok {A} (m : Method State A) s : silent m -> rep_ok s -> rep_ok (m s).2.
Proof. intros Hm Hok. destruct (Hm s) as (a & s' & -> & Hs). by apply (same_ranges_ok s). Qed.

Lemma onReplicationMessage_ok text msg from ts closed_ age now s :
  rep_ok s -> valid_segments msg from -> reads age ->
  rep_ok (onReplicationMessage o text msg from ts closed_ age now s).2.
Proof.
  intros Hok Hv Hage. unfold onReplicationMessage. destruct (equals from (publicKey_ o)); [done|].
  destruct msg as [|segments|segments|ids]; [|by apply on_segments_ok|by apply on_segments_ok|].
  - unfold bindM, getMyReplicationSegments. rewrite (query_all_spec (QLOne (of_owner (myHash o))) [of_owner (myHash o)]
      (fun r => bool_decide (r_hash r = myHash o))); [|apply Hok|done|intros; apply sat_owner].
    by apply (silent_ok _ s (silent_send _ _)).
  - unfold on_stopped. pose proof (resolve_spec ids from s (proj1 Hok)) as E. destruct ids as [|id ids].
    { unfold bindM. by rewrite E. }
    unfold bindM at 1. rewrite E. set (l := List.filter _ _) in *.
    pose proof (remove_resolved text (id :: ids) from now s Hok l E) as Hr. unfold bindM.
    destruct (removeReplicationRanges o text l from now s) as [[[]|e|] s2]; try exact Hr.
    apply (silent_ok _ s2); [|exact Hr]. apply silent_forM. intros x. apply silent_change.
Qed.
End Facts.

#[export] Hint Resolve silent_ret silent_gets silent_bind silent_when silent_forM silent_event silent_send silent_change silent_rebalance : peerbit.
