(* ===== verification/ReplicationSteps.v ===== *)
(** * What a shared log knows about replicators, over time

    The methods of Replicators as the steps of a node: its own announcements,
    the removal of a peer, messages about ranges, [unreplicate] and the timers of
    ranges that mature.  The theorems on the states that are reached, and on one
    announcement; with the cases in which the code loses a range or a change. *)

From Stdlib Require Import ZArith Lia.
From stdpp Require Import base list strings relations.
From S2P Require Import Prelude JsMap JsVal Query IndexInterface IndexStore Integers Ranges RangeFacts RangeQueries RangeIterators Rebalance SimpleSync Effects Replicators ReplicatorsFacts.

Local Open Scope Z_scope.

Section Steps.
Context {I St : Type} `{JsEnv, !JsEnvLaws, Hashing, Document Range, !RangeDocument, Index I St Range, !IndexLaws I St Range,
  !IndexStore I Range, !IndexStoreLaws I St Range}.
Context (o : Options).
Abbreviation State := (Replicators (I := I)).
Abbreviation owned s := (ranges (replicationIndex s)).
Implicit Types s : State.

Lemma silent_timer hash id : silent (I := I) (maturity_timer hash id).
Proof.
  unfold maturity_timer. apply silent_bind; [apply silent_gets|intros [p|]; [|apply silent_ret]].
  apply silent_bind; [apply silent_event|intros _]. apply silent_bind; [apply silent_when, silent_change|intros _].
  apply silent_modify. apply cancel_maturity_same.
Qed.

Lemma silent_role r a : silent (I := I) (modify (set_role r a)).
Proof. by apply silent_modify. Qed.

(** Removing what has been resolved, and telling or noting it. *)
Lemma resolved_removed text ids from now (rest : list Range -> Method State unit) s :
  rep_ok o s -> (forall l, silent (rest l)) ->
  rep_ok o (bindM (resolveReplicationRangesFromIdsAndKey ids from) (fun rs =>
              bindM (removeReplicationRanges o text rs from now) (fun _ => rest rs)) s).2.
Proof.
  intros Hok Hq. pose proof (resolve_spec o ids from s (proj1 Hok)) as E. destruct ids as [|id ids].
  { unfold bindM. by rewrite E. }
  unfold bindM at 1. rewrite E. set (l := List.filter _ _) in *.
  pose proof (remove_resolved o text (id :: ids) from now s Hok l E) as Hr. unfold bindM.
  destruct (removeReplicationRanges o text l from now s) as [[[]|e|] s2]; try exact Hr.
  by apply (silent_ok o (rest l) s2).
Qed.

Lemma query_all_keeps ql s : (query_all ql s).2 = s.
Proof. unfold query_all, bindM, gets, lift, ret. by destruct (it_all _ _) as [[]|?|]. Qed.

Lemma unreplicate_ok text what now s : rep_ok o s -> rep_ok o (unreplicate o text what now s).2.
Proof.
  intros Hok. unfold unreplicate.
  assert (Hids : forall ids, rep_ok o ((match ids with
      | [] => ret tt
      | _ => adaptive ⇠ gets isAdaptiveReplicating;;
             (if default false adaptive then raise "Unsupported when adaptive replicating" else ret tt);;;
             rangesToRemove ⇠ resolveReplicationRangesFromIdsAndKey ids (publicKey_ o);;
             removeReplicationRanges o text rangesToRemove (publicKey_ o) now;;;
             send (StoppedReplicating ids) Everyone
      end)%effects s).2).
  { intros [|id ids]; [done|]. unfold bindM at 1, gets at 1. unfold bindM at 1. destruct (default false _); [done|].
    unfold ret at 1. apply (resolved_removed text (id :: ids) (publicKey_ o) now (fun _ => send (StoppedReplicating (id :: ids)) Everyone)); [done|].
    intros _. apply silent_send. }
  destruct what as [|offset|ids]; [| |apply (Hids ids)].
  - unfold bindM at 1, modify at 1.
    destruct (removeReplicator_spec o (AKey (publicKey_ o)) false now (set_role (Some false) (Some false) s)) as (s' & -> & Hs & _); done.
  - apply bindM_spec.
    + apply bindM_spec; [by rewrite query_all_keeps|]. intros rs s1 E. pose proof (query_all_keeps (QLRecord (entry_record o offset)) s) as Es.
      rewrite E in Es. simpl in Es. by subst s1.
    + intros ids s1 E. unfold bindM, ret in E. pose proof (query_all_keeps (QLRecord (entry_record o offset)) s) as Es.
      destruct (query_all _ s) as [[rs|?|] s0]; try done. injection E as <- <-. simpl in Es. subst s0. apply Hids.
Qed.

(** ** The steps of a node *)

(** Ranges of the node itself, announced or only stored ([getDynamicRange]);
    messages whose segments are valid; peers that leave; the timers. *)
Inductive rep_step : State -> State -> Prop :=
| step_add rs ao age now s :
    owned_by o (publicKey_ o) rs -> reads age -> rep_step s (addReplicationRange o rs (publicKey_ o) ao age now s).2
| step_announce rs ao age announce now s :
    owned_by o (publicKey_ o) rs -> reads age -> rep_step s (startAnnounceReplicating o rs ao age announce now s).2
| step_removeReplicator key noEvent now s :
    rep_step s (removeReplicator o (AKey key) noEvent now s).2
| step_message text msg from ts closed_ age now s :
    valid_segments o msg from -> reads age -> rep_step s (onReplicationMessage o text msg from ts closed_ age now s).2
| step_unreplicate text what now s : rep_step s (unreplicate o text what now s).2
| step_role r a s : rep_step s (set_role r a s)
| step_timer hash id s : rep_step s (maturity_timer hash id s).2.

Lemma announce_ok rs ao age announce now s :
  rep_ok o s -> owned_by o (publicKey_ o) rs -> reads age -> rep_ok o (startAnnounceReplicating o rs ao age announce now s).2.
Proof.
  intros Hok Ho Hage. unfold startAnnounceReplicating. apply bindM_spec; [by apply addReplicationRange_ok|].
  intros change s1 E. pose proof (addReplicationRange_ok o rs (publicKey_ o) ao age now s Hok Ho Hage) as Hadd. rewrite E in Hadd.
  simpl in Hadd. apply silent_ok; [|done]. destruct change as [change|]; [|apply silent_ret].
  destruct (List.filter not_removed change); [apply silent_ret|]. destruct announce; [apply silent_ret|].
  apply silent_bind; [apply silent_send|intros _; apply silent_ret].
Qed.

Lemma rep_step_ok s s' : rep_step s s' -> rep_ok o s -> rep_ok o s'.
Proof.
  intros [] Hok.
  - by apply addReplicationRange_ok.
  - by apply announce_ok.
  - destruct (removeReplicator_spec o (AKey key) noEvent now s0 Hok) as (s1 & -> & Hs & _); [by destruct noEvent|done].
  - by apply onReplicationMessage_ok.
  - by apply unreplicate_ok.
  - exact Hok.
  - apply silent_ok; [apply silent_timer|done].
Qed.

Lemma opened_ok (i : I) now : store_ok o i -> ranges i = [] -> rep_ok o (opened i now).
Proof. intros Hi He. split; [exact Hi|]. intros r. cbn [opened replicationIndex]. rewrite He. by intros []%not_elem_of_nil. Qed.

Lemma rep_steps_ok s s' : rtc rep_step s s' -> rep_ok o s -> rep_ok o s'.
Proof. intros Hs. induction Hs as [|a b c Hab _ IH]; [done|]. intros Ha. by apply IH, (rep_step_ok a). Qed.

(** ** One announcement *)

Definition fresh (s : State) (from : PublicSignKey) (ts : Z) : Prop :=
  forall p, Map_get (latestReplicationInfoMessage s) (hashcode from) = Some p -> p = 0 \/ p <= ts.

Lemma on_segments_fresh segments reset from ts age now rs s :
  fresh s from ts -> to_ranges segments from = Val rs ->
  on_segments o segments reset from ts false age now s =
    bindM (addReplicationRange o rs from (MkAddOptions reset true (Some (Number_of_bigint ts)) true) age now) (fun _ => ret tt)
      (set_latest (Map_set (latestReplicationInfoMessage s) (hashcode from) ts) s).
Proof.
  intros Hf E. unfold on_segments, bindM at 1, gets at 1.
  assert (E0 : match Map_get (latestReplicationInfoMessage s) (hashcode from) with Some p => negb (p =? 0) && (ts <? p) | None => false end = false).
  { destruct (Map_get _ _) as [p|] eqn:Ep; [|done]. destruct (Hf p Ep) as [->|Hp]; [done|]. apply andb_false_iff. right. lia. }
  rewrite E0. unfold bindM at 1, modify at 1. unfold bindM at 1, lift at 1. by rewrite E.
Qed.

(** An announcement that is not newer than the last one changes nothing. *)
Lemma on_segments_stale segments reset from ts closed_ age now p s :
  Map_get (latestReplicationInfoMessage s) (hashcode from) = Some p -> p <> 0 -> ts < p ->
  on_segments o segments reset from ts closed_ age now s = (Val tt, s).
Proof.
  intros E H1' H2'. unfold on_segments, bindM at 1, gets at 1. rewrite E.
  replace (negb (p =? 0) && (ts <? p)) with true; [done|]. symmetry. apply andb_true_iff. split; [|lia]. apply negb_true_iff. lia.
Qed.

(** ** The changes that wait to be rebalanced *)

Definition same_pending (p : Aggregated) s : Prop := pendingChanges s = p.

Lemma keeps_query ql p : keeps (same_pending p) (query_all ql).
Proof. intros s Hs. by rewrite query_all_keeps. Qed.

Lemma keeps_updateOldest now p : keeps (same_pending p) (updateOldestTimestampFromIndex now).
Proof.
  unfold updateOldestTimestampFromIndex. apply keeps_bind; [apply keeps_gets|intros i].
  apply keeps_bind; [apply keeps_lift|intros r]. by apply keeps_modify.
Qed.

Lemma keeps_apply_diffs reset rebalance from now age diffs p : keeps (same_pending p) (apply_diffs reset rebalance from now age diffs).
Proof.
  induction diffs as [|d diffs IH]; cbn [apply_diffs]; [apply keeps_ret|].
  apply keeps_bind; [|intros b; apply keeps_bind; [done|intros b'; apply keeps_ret]].
  unfold apply_diff. destruct (ch_type d).
  - apply keeps_bind; [|intros _; apply keeps_bind; [by apply keeps_when, keeps_modify|intros _]].
    { unfold put_range. apply keeps_bind; [apply keeps_gets|intros i]. apply keeps_bind; [apply keeps_lift|intros r]. by apply keeps_modify. }
    destruct (isMatured _ _ _); [apply keeps_ret|]. apply keeps_bind; [by apply keeps_modify|intros _; apply keeps_ret].
  - apply keeps_bind; [|intros _; apply keeps_ret]. apply keeps_modify. intros s Hs. unfold cancel_maturity, same_pending.
    destruct (Map_get _ _) as [m|]; [|done]. by destruct (Map_delete m _).
  - apply keeps_ret.
Qed.

Lemma forM_changes diffs s :
  forM replicationChange diffs s = (Val tt, fold_left (fun s d => add_change d s) diffs s).
Proof. revert s. induction diffs as [|d diffs IH]; intros s; [done|]. cbn [forM fold_left]. unfold bindM at 1, replicationChange at 1, modify at 1. apply IH. Qed.

Lemma add_changes_pending diffs s : pendingChanges (fold_left (fun s d => add_change d s) diffs s) = fold_left agg_add diffs (pendingChanges s).
Proof. revert s. induction diffs as [|d diffs IH]; intros s; [done|]. simpl. by rewrite IH. Qed.

(** What an announcement of the node leaves to rebalance. *)
Lemma add_pending rs ao age now diffs isNew s1 s :
  trusted o (publicKey_ o) = true -> reads age -> store_ok o (replicationIndex s1) ->
  (forall r, r ∈ added_ranges diffs -> range_ok (resolution_ o) r) -> ao_rebalance ao = true ->
  (if ao_reset ao then diffs_reset rs (publicKey_ o) (default now (ao_timestamp ao)) else diffs_added o rs (publicKey_ o) (ao_checkDuplicates ao)) s
    = (Val (diffs, isNew), s1) ->
  exists s', addReplicationRange o rs (publicKey_ o) ao age now s = (Val (Some diffs), s') /\
    pendingChanges s' = fold_left agg_add diffs (pendingChanges s1).
Proof.
  intros Htr Hage Hok Hr Hre Hd. destruct (apply_all o rs (publicKey_ o) ao age now s s1 diffs isNew Htr Hage Hd Hok Hr) as (s' & E & _).
  exists s'. split; [done|]. revert E. unfold addReplicationRange.
  assert (E0 : match isTrustedReplicator o with Some f => negb (f (publicKey_ o)) | None => false end = false)
    by (unfold trusted in Htr; destruct (isTrustedReplicator o); [by apply negb_false_iff|done]). rewrite E0.
  unfold bindM at 1. rewrite Hd. unfold bindM at 1, modify at 1.
  set (s2 := set_uniqueReplicators _ s1). destruct (Hage s2) as (a & Ea). unfold bindM at 1. rewrite Ea.
  pose proof (keeps_apply_diffs (ao_reset ao) (ao_rebalance ao) (publicKey_ o) now a diffs (pendingChanges s1) s2 eq_refl) as K3.
  unfold bindM at 1. destruct (apply_diffs _ _ _ _ _ _ s2) as [[b|?|] s3]; try done. simpl in K3.
  pose proof (keeps_when _ (ao_reset ao) _ (keeps_updateOldest now (pendingChanges s1)) s3 K3) as K4.
  unfold bindM at 1. destruct (whenM (ao_reset ao) _ s3) as [[[]|?|] s4]; try done. simpl in K4.
  unfold bindM at 1, dispatchEvent at 1, modify at 1. set (s5 := add_event _ s4).
  assert (K5 : same_pending (pendingChanges s1) s5) by done. unfold bindM at 1.
  match goal with |- context [whenM isNew ?m s5] => assert (K6 : keeps (same_pending (pendingChanges s1)) (whenM isNew m)) end.
  { apply keeps_when, keeps_bind; [by apply keeps_modify|intros _; by apply keeps_when, keeps_modify]. }
  specialize (K6 s5 K5). destruct (whenM isNew _ s5) as [[[]|?|] s6]; try done. simpl in K6. rewrite Hre.
  unfold bindM at 1, whenM at 1. rewrite forM_changes. rewrite <- K6, <- add_changes_pending.
  unfold bindM, whenM, rebalanceParticipationDebounced, modify, ret. destruct (negb _); by intros [= <-].
Qed.

(** One range under an id that is stored. *)
Lemma diffs_one prev x s :
  store_ok o (replicationIndex s) -> prev ∈ owned s -> r_id x = r_id prev ->
  diffs_added o [x] (publicKey_ o) false s =
    (Val (if equalRange prev x then [] else [MkChange replaced prev (r_timestamp x - 1); MkChange (added false) x (r_timestamp x)], false), s).
Proof.
  intros Hok Hprev Hid.
  assert (Hall : forall y, y ∈ List.filter (fun y => bool_decide (r_id y = r_id x)) (owned s) -> y = prev).
  { intros y [Hy Ey%bool_decide_eq_true]%elem_of_List_filter. apply (same_id_same o _ y prev Hok Hy Hprev). congruence. }
  assert (Hfound : prev ∈ List.filter (fun y => bool_decide (r_id y = r_id x)) (owned s)).
  { apply elem_of_List_filter. split; [done|]. by apply bool_decide_eq_true. }
  unfold diffs_added. unfold bindM at 1. rewrite (existing_one o x s Hok).
  revert Hall Hfound. generalize (List.filter (fun y => bool_decide (r_id y = r_id x)) (owned s)). intros l Hall Hfound.
  assert (Hset : forall m, Map_get (Map_set m (idString prev) prev) (idString x) = Some prev).
  { intros m. unfold idString. rewrite Hid. by rewrite Map_get_set_eq. }
  assert (Hkeep : forall l m, (forall y, y ∈ l -> y = prev) -> Map_get m (idString x) = Some prev ->
            Map_get (fold_left (fun m r => Map_set m (idString r) r) l m) (idString x) = Some prev).
  { clear l Hall Hfound. intros l. induction l as [|y l IH]; intros m Hall Hm; [done|]. simpl. rewrite (Hall y) by (by left).
    apply IH; [intros z Hz; apply Hall; by right|apply Hset]. }
  destruct l as [|y l]; [by apply not_elem_of_nil in Hfound|].
  unfold bindM, ret. cbn [flat_map]. unfold changes_for. cbn [fold_left]. rewrite (Hall y) by (by left).
  rewrite Hkeep; [by destruct (equalRange prev x)|intros z Hz; apply Hall; by right|apply (Hset [])].
Qed.

End Steps.

(** Every owner of a stored range counts as a replicator, in every state that
    is reached from an empty index: through the node's own announcements, messages
    about ranges in any order and of any age (also ones that fail on the way),
    removed peers, [unreplicate] and the timers of ranges that mature. *)
Theorem replicators_tracked {I St : Type} `{JsEnv, !JsEnvLaws, Hashing, Document Range, !RangeDocument, Index I St Range,
    !IndexLaws I St Range, !IndexStore I Range, !IndexStoreLaws I St Range} (o : Options) (i : I) (now : Z) (s : Replicators (I := I))
    (Hi : store_ok o i) (He : ranges i = []) (Hs : rtc (rep_step o) (opened i now) s) :
  store_ok o (replicationIndex s) /\ forall r, r ∈ ranges (replicationIndex s) -> r_hash r ∈ uniqueReplicators_ s.
Proof. exact (rep_steps_ok o (opened i now) s Hs (opened_ok o i now Hi He)). Qed.

(** C21. An announcement of all its segments by a trusted peer other than this node, no
    older than the last one handled from that peer, handled while the log is open,
    makes the ranges of the peer exactly the announced ones; the ranges of the
    others stay, and the peer counts as a replicator. The announced ranges can be
    built, are well formed and have different ids, none of which another owner's
    stored range has. *)
Theorem announcement_replaces {I St : Type} `{JsEnv, !JsEnvLaws, Hashing, Document Range, !RangeDocument, Index I St Range,
    !IndexLaws I St Range, !IndexStore I Range, !IndexStoreLaws I St Range} (o : Options) (text : Range -> string)
    (from : PublicSignKey) (segments : list RangeMessage) (rs : list Range) (ts now : Z) (age : Method (Replicators (I := I)) Z)
    (s : Replicators (I := I)) (Hok : rep_ok o s) (Hage : reads age) (Htr : trusted o from = true)
    (Hother : equals from (publicKey_ o) = false) (Hfresh : fresh s from ts) (Hrs : to_ranges segments from = Val rs)
    (Hvalid : forall r, r ∈ rs -> range_ok (resolution_ o) r) (Hids : NoDup (map r_id rs))
    (Hown : forall x, x ∈ ranges (replicationIndex s) -> r_id x ∈ map r_id rs -> r_hash x = hashcode from) :
  exists s', onReplicationMessage o text (AllReplicatingSegmentsMessage segments) from ts false age now s = (Val tt, s') /\
    (forall x, x ∈ ranges (replicationIndex s') <-> x ∈ rs \/ x ∈ ranges (replicationIndex s) /\ r_hash x <> hashcode from) /\
    uniqueReplicators_ s' = Set_add (uniqueReplicators_ s) (hashcode from).
Proof.
  unfold onReplicationMessage. rewrite Hother, (on_segments_fresh o segments true from ts age now rs s Hfresh Hrs).
  destruct (reset_spec o rs from (MkAddOptions true true (Some (Number_of_bigint ts)) true) age now
    (set_latest (Map_set (latestReplicationInfoMessage s) (hashcode from) ts) s)) as (d & s' & E & _ & Eu & H1' & H2' & H3'); try done.
  { intros r Hr. split; [by apply Hvalid|]. by apply (to_ranges_owner segments from rs). }
  exists s'. unfold bindM. rewrite E. split; [done|]. split; [|done]. intros x. split.
  - intros [Hx|(Hx & Hh & _)]%H1'; [by left|by right].
  - intros [Hx|[Hx Hh]]; [by apply H3'|]. apply H2'; [done|done|]. intros Hin. by apply Hh, Hown.
Qed.

(** A range belongs to whoever announced its id last: when a peer announces a
    segment with the id of a range of another peer, that range is gone; its owner
    still counts as a replicator.  (Nothing ties an id to its owner; finding.) *)
Theorem foreign_id_takes_range {I St : Type} `{JsEnv, !JsEnvLaws, Hashing, Document Range, !RangeDocument, Index I St Range,
    !IndexLaws I St Range, !IndexStore I Range, !IndexStoreLaws I St Range} (o : Options) (text : Range -> string)
    (from : PublicSignKey) (segments : list RangeMessage) (rs : list Range) (ts now : Z) (age : Method (Replicators (I := I)) Z)
    (s : Replicators (I := I)) (victim : Range) (Hok : rep_ok o s) (Hage : reads age) (Htr : trusted o from = true)
    (Hother : equals from (publicKey_ o) = false) (Hfresh : fresh s from ts) (Hrs : to_ranges segments from = Val rs)
    (Hvalid : forall r, r ∈ rs -> range_ok (resolution_ o) r)
    (Hvictim : victim ∈ ranges (replicationIndex s)) (Hid : r_id victim ∈ map r_id rs) (Hh : r_hash victim <> hashcode from) :
  exists s', onReplicationMessage o text (AllReplicatingSegmentsMessage segments) from ts false age now s = (Val tt, s') /\
    (victim ∉ ranges (replicationIndex s')) /\ r_hash victim ∈ uniqueReplicators_ s'.
Proof.
  unfold onReplicationMessage. rewrite Hother, (on_segments_fresh o segments true from ts age now rs s Hfresh Hrs).
  pose proof (to_ranges_owner segments from rs Hrs) as Hmine.
  destruct (reset_spec o rs from (MkAddOptions true true (Some (Number_of_bigint ts)) true) age now
    (set_latest (Map_set (latestReplicationInfoMessage s) (hashcode from) ts) s)) as (d & s' & E & _ & Eu & H1' & _); try done.
  { intros r Hr. split; [by apply Hvalid|by apply Hmine]. }
  exists s'. unfold bindM. rewrite E. split; [done|]. split.
  - intros [Hx|(_ & _ & Hn)]%H1'; [by apply Hh, Hmine|done].
  - rewrite Eu. apply Set_add_elem. right. cbn [set_latest uniqueReplicators_]. by apply Hok.
Qed.

(** Growing a range without a new timestamp leaves the new part unbalanced:
    the dynamic range keeps its id and its timestamp when its width changes
    ([rebalanceParticipation]); of the two changes, the old range is replaced
    and the new one is added, only the first waits to be rebalanced, because the
    second is not newer (finding). *)
Theorem grown_range_dropped {I St : Type} `{JsEnv, !JsEnvLaws, Hashing, Document Range, !RangeDocument, Index I St Range,
    !IndexLaws I St Range, !IndexStore I Range, !IndexStoreLaws I St Range} (o : Options) (prev x : Range) (now : Z)
    (age : Method (Replicators (I := I)) Z) (s : Replicators (I := I)) (Hok : rep_ok o s) (Hage : reads age)
    (Htr : trusted o (publicKey_ o) = true) (Hprev : prev ∈ ranges (replicationIndex s)) (Hid : r_id x = r_id prev)
    (Hts : r_timestamp x = r_timestamp prev) (Hne : equalRange prev x = false) (Hx : range_ok (resolution_ o) x)
    (Hpending : pendingChanges s = []) :
  exists s' change, addReplicationRange o [x] (publicKey_ o) (MkAddOptions false false None true) age now s = (Val (Some change), s') /\
    change = [MkChange replaced prev (r_timestamp x - 1); MkChange (added false) x (r_timestamp x)] /\
    agg_flush (pendingChanges s') = Some [MkChange replaced prev (r_timestamp x - 1)].
Proof.
  pose proof (diffs_one o prev x s (proj1 Hok) Hprev Hid) as E. rewrite Hne in E.
  destruct (add_pending o [x] (MkAddOptions false false None true) age now
    [MkChange replaced prev (r_timestamp x - 1); MkChange (added false) x (r_timestamp x)] false s s Htr Hage (proj1 Hok)
    ltac:(intros r; unfold added_ranges; simpl; intros ->%list_elem_of_singleton; done) eq_refl E) as (s' & E' & Ep).
  exists s'. eexists. split; [exact E'|]. split; [done|]. rewrite Ep, Hpending. cbn [fold_left].
  assert (E1 : agg_add [] (MkChange replaced prev (r_timestamp x - 1)) = [(idString prev, MkChange replaced prev (r_timestamp x - 1))]) by done.
  rewrite E1. unfold agg_add. cbn [ch_range]. replace (idString x) with (idString prev) by (unfold idString; by rewrite Hid).
  cbn [Map_get]. destruct (decide (idString prev = idString prev)) as [_|[]]; [|done]. cbn [ch_range]. by rewrite Hts, Z.ltb_irrefl.
Qed.

(** "Not replicating any more" is announced as an empty list of segments, by
    [removeReplicator] of the node itself; whoever receives it keeps no range of
    the sender, but counts it among the replicators (finding). *)
Theorem stopped_still_counted {I St : Type} `{JsEnv, !JsEnvLaws, Hashing, Document Range, !RangeDocument, Index I St Range,
    !IndexLaws I St Range, !IndexStore I Range, !IndexStoreLaws I St Range} (o : Options) (text : Range -> string)
    (from : PublicSignKey) (ts now : Z) (age : Method (Replicators (I := I)) Z)
    (s : Replicators (I := I)) (Hok : rep_ok o s) (Hage : reads age) (Htr : trusted o from = true)
    (Hother : equals from (publicKey_ o) = false) (Hfresh : fresh s from ts) :
  exists s', onReplicationMessage o text (AllReplicatingSegmentsMessage []) from ts false age now s = (Val tt, s') /\
    (forall x, x ∈ ranges (replicationIndex s') <-> x ∈ ranges (replicationIndex s) /\ r_hash x <> hashcode from) /\
    hashcode from ∈ uniqueReplicators_ s'.
Proof.
  unfold onReplicationMessage. rewrite Hother, (on_segments_fresh o [] true from ts age now [] s Hfresh eq_refl).
  destruct (reset_spec o [] from (MkAddOptions true true (Some (Number_of_bigint ts)) true) age now
    (set_latest (Map_set (latestReplicationInfoMessage s) (hashcode from) ts) s)) as (d & s' & E & _ & Eu & H1' & H2' & _); try done.
  { by intros r []%not_elem_of_nil. }
  exists s'. unfold bindM. rewrite E. split; [done|]. split.
  - intros x. split; [intros [[]%not_elem_of_nil|(Hx & Hh & _)]%H1'; by split|]. intros [Hx Hh]. apply H2'; [done|done|].
    apply not_elem_of_nil.
  - rewrite Eu. apply Set_add_elem. by left.
Qed.

(** [getDefaultMinRoleAge] is constant: the minimum of [timeUntilRoleMaturity] and
    two numbers that are at least that. *)
Lemma role_age_constant {I St : Type} `{JsEnv, Hashing, Index I St Range, !IndexStore I Range} (o : Options)
    (round_log : Z -> nat -> Z) (n : nat) (now : Z) (s : Replicators (I := I)) :
  getDefaultMinRoleAge o round_log n now s =
    (Val (if bool_decide (isReplicating_ s = Some false) then 0 else timeUntilRoleMaturity o), s).
Proof.
  unfold getDefaultMinRoleAge, bindM, gets, ret. case_bool_decide; [done|]. do 2 f_equal.
  generalize (if (1 <? n)%nat then now - oldestOpenTime s - 1 else 9007199254740991). lia.
Qed.
