(* ===== verification/Replicate.v ===== *)
(** * Becoming a replicator (packages/programs/data/shared-log/src/index.ts, part 2)

    [replicate] turns its options into ranges, merges them with those the node
    has when asked to, and announces them; a dynamic replicator resizes its one
    range with the controller of Factors ([rebalanceParticipation]).  Random
    numbers and bytes are arguments, and so are the load of the processor and the
    use of memory that are measured. *)

From Stdlib Require Import ZArith Lia QArith_base SpecFloat.
From stdpp Require Import base list strings relations.
From S2P Require Import Prelude JsFloat JsMap JsVal Query IndexInterface IndexStore Integers Ranges RangeFacts RangeAlgebra RangeQueries RangeIterators Rebalance SimpleSync Effects Replicators ReplicatorsFacts ReplicationSteps Factors.

Local Open Scope Z_scope.
Local Open Scope effects_scope.

(** ** The options *)

(** A number or a bigint. *)
Inductive Amount := Num (n : number) | Big (z : Z).

Inductive FixedFactor := FactorAmount (a : Amount) | FactorAll | FactorRight.

Record FixedReplicationOptions := MkFixed {
  fo_id : option (list Z);
  fo_normalized : option bool;
  fo_factor : FixedFactor;
  fo_strict : bool;
  fo_offset : option Amount;
}.

Record DynamicReplicationOptions := MkDynamic {
  do_storage : option number;
  do_cpu : option number;
  do_offset : option Amount;
  do_normalized : option bool;
}.

Definition no_limits : DynamicReplicationOptions := MkDynamic None None None None.

(** What [replicate] is called with; a range message stands for the range itself. *)
Inductive ReplicationOptions :=
| OptUndefined | OptBool (b : bool) | OptNumber (n : number) | OptResume
| OptDynamic (d : DynamicReplicationOptions) (keys : nat)
| OptFixed (f : FixedReplicationOptions)
| OptRanges (l : list FixedReplicationOptions)
| OptMessage (m : RangeMessage).

(** [undefined] has no [factor] to look at. *)
Definition isAdaptiveReplicatorOption (options : ReplicationOptions) : outcome bool :=
  match options with
  | OptUndefined => Exn "TypeError"
  | OptNumber _ | OptBool _ | OptRanges _ | OptFixed _ | OptMessage _ => Val false
  | OptDynamic _ _ | OptResume => Val true
  end.

(** [factor === 0], not [0n]. *)
Definition isUnreplicationOptions (options : ReplicationOptions) : bool :=
  match options with
  | OptBool b => negb b
  | OptNumber n => eq_n n (of_Z 0)
  | OptFixed (MkFixed _ _ (FactorAmount (Num n)) _ None) => eq_n n (of_Z 0)
  | _ => false
  end.

Definition isReplicationOptionsDependentOnPreviousState (options : ReplicationOptions) : bool :=
  match options with
  | OptBool b => b
  | OptResume | OptUndefined => true
  | OptDynamic _ keys => (keys =? 0)%nat
  | OptRanges l => (length l =? 0)%nat
  | _ => false
  end.

(** ** Ranges from options *)

(** A coordinate that the constructor of a range is given as it is: [Math.round]
    of a number, [BigInt] of one; a bigint does not mix with numbers. *)
Definition raw_coordinate (R : resolution) (a : Amount) : outcome Z :=
  match R, a with
  | U32, Num n => BigInt (Math_round n)
  | U32, Big _ => Exn "TypeError"
  | U64, Num n => BigInt n
  | U64, Big z => Val z
  end.

(** [denormalize] multiplies by a number. *)
Definition denormalize_amount (R : resolution) (a : Amount) : outcome Z :=
  match a with Num n => denormalize R n | Big _ => Exn "TypeError" end.

(** What [Math.random()] and [randomBytes(32)] answer for one range. *)
Record Draw := MkDraw { draw_random : number; draw_bytes : list Z }.

Section Replicate.
Context {I St : Type} `{JsEnv, Hashing, Index I St Range, !IndexStore I Range}.
Context (o : Options).
Abbreviation State := (Replicators (I := I)).
Abbreviation M := (Method State).
Abbreviation R := (resolution_ o).
Abbreviation numbers_ := (createNumbers (resolution_ o)).

(** [replicationIndex.get(toId(id))]: the range under an id. *)
Definition index_get (id : list Z) : M (option Range) :=
  i ⇠ gets replicationIndex;; ret (List.find (fun r => bool_decide (r_id r = id)) (ranges i)).

(** The offset, the width and what goes wrong on the way.  A factor that is a
    text is denormalised too, to [NaN]; that has no [BigInt]. *)
Definition range_offset (arg : FixedReplicationOptions) (normalized : bool) (d : Draw) : outcome Z :=
  match fo_offset arg with
  | Some a => if normalized then denormalize_amount R a else raw_coordinate R a
  | None => denormalize R (draw_random d)
  end.

Definition range_width (arg : FixedReplicationOptions) (normalized : bool) (offset : Z) : outcome Z :=
  match fo_factor arg with
  | FactorAmount a => if normalized then denormalize_amount R a else raw_coordinate R a
  | f =>
      _ ← (if normalized then match R with U32 => Val tt | U64 => Exn "RangeError" end else Val tt);
      match R, normalized, fo_offset arg, f with
      | U64, false, Some (Num _), FactorRight => Exn "TypeError"
      | _, _, _, FactorRight => Val (maxValue numbers_ - offset)
      | _, _, _, _ => Val (maxValue numbers_)
      end
  end.

Definition range_of_option (arg : FixedReplicationOptions) (timestamp : option Z) (d : Draw) (now : Z) : outcome Range :=
  let normalized := default true (fo_normalized arg) in
  offset ← range_offset arg normalized d;
  width ← range_width arg normalized offset;
  new_Range R {| p_id := fo_id arg; p_random := draw_bytes d; p_offset := offset; p_width := width;
                 p_mode := Some (if fo_strict arg then Strict else NonStrict);
                 p_timestamp := Some (default now timestamp); p_owner := publicKeyHash (myHash o) |}.

(** One turn of the loop over [rangeArgs]. *)
Definition range_arg (arg : FixedReplicationOptions) (d : Draw) (now : Z) : M Range :=
  indexed ⇠ (match fo_id arg with Some id => index_get id | None => ret None end);;
  lift (range_of_option arg (r_timestamp <$> indexed) d now).

Fixpoint range_args (args : list FixedReplicationOptions) (draws : nat -> Draw) (i : nat) (now : Z) : M (list Range) :=
  match args with
  | [] => ret []
  | arg :: args =>
      r ⇠ range_arg arg (draws i) now;;
      rs ⇠ range_args args draws (S i) now;; ret (r :: rs)
  end.

(** [offsetWasProvided] is that of the last argument. *)
Definition offset_provided (args : list FixedReplicationOptions) : bool :=
  match last args with Some arg => bool_decide (is_Some (fo_offset arg)) | None => false end.

(** ** Merging *)

Definition range_argument (r : Range) : RangeArg := MkRangeArg (Some (idString r)) (arcs_of r) (r_hash r) (r_id r).

(** The range that replaces those given and those it can be merged with, and
    what of the index it replaces. *)
Definition merge_existing (canMerge : option (Range -> Range -> bool)) (range : Range) (random : list Z) : M (Range * list Range) :=
  match canMerge with
  | None => ret (range, [])
  | Some f =>
      i ⇠ gets replicationIndex;;
      candidates ⇠ lift (getAllMergeCandiates i R (range_argument range) numbers_);;
      let mergeableFiltered := List.filter (fun c => f c range) (map snd candidates) in
      let toKeep := map idString (List.filter (fun c => negb (f c range)) (map snd candidates)) in
      merged ⇠ (match mergeableFiltered with
                | [] => ret range
                | _ => lift (mergeRanges (mergeableFiltered ++ [range]) 0 (maxValue numbers_) random)
                end);;
      ret (merged, List.filter (fun c => negb (bool_decide (idString c = idString merged)) && negb (bool_decide (idString c ∈ toKeep)))
                     (map snd candidates))
  end.

Definition merge_segments (canMerge : option (Range -> Range -> bool)) (rs : list Range) (random1 random2 : list Z)
    : M (Range * list Range) :=
  range ⇠ lift (mergeRanges rs 0 (maxValue numbers_) random1);;
  merge_existing canMerge range random2.

(** ** The range of a dynamic replicator *)

(** [getIdForDynamicRange(publicKey)] is an argument: the hash of the key's bytes
    and the word "dynamic". *)
Definition getDynamicRangeOffset (options : DynamicReplicationOptions) : outcome Z :=
  match do_offset options with
  | Some a =>
      if default true (do_normalized options)
      then denormalize R (match a with Num n => n | Big z => of_Z (Number_of_bigint z) end)
      else raw_coordinate R a
  | None => bytesToNumber numbers_ (key_bytes (publicKey_ o))
  end.

Definition getDynamicRange (dynamicRangeId : list Z) (options : DynamicReplicationOptions) (minRoleAge : M Z) (now : Z)
    : M (option Range) :=
  found ⇠ query_all (QLMany [new_ByteMatchQuery "id"%string dynamicRangeId]);;
  match found with
  | range :: _ => ret (Some range)
  | [] =>
      offset ⇠ lift (getDynamicRangeOffset options);;
      range ⇠ lift (new_Range R {| p_id := Some dynamicRangeId; p_random := []; p_offset := offset; p_width := zero numbers_;
                                   p_mode := Some NonStrict; p_timestamp := Some now; p_owner := publicKeyHash (myHash o) |});;
      added ⇠ addReplicationRange o [range] (publicKey_ o) (MkAddOptions false false None true) minRoleAge now;;
      ret (match added with Some _ => Some range | None => None end)
  end.

(** ** [_replicate] *)

Record ReplicateOptions := MkReplicateOptions {
  reset_ : option bool;
  checkDuplicates_ : bool;
  announce_ : bool;
  mergeSegments_ : bool;
  rebalance_ : option bool;
}.

(** What stays the same between calls: the id of the dynamic range, its options
    given to [open], whether ranges may be merged, the age of a role, the text of
    a range. *)
Record Environment := MkEnvironment {
  dynamicRangeId_ : list Z;
  openOptions : DynamicReplicationOptions;
  canMerge_ : option (Range -> Range -> bool);
  minRoleAge_ : M Z;
  range_text_ : Range -> string;
}.
Context (env : Environment).

(** The adaptive replicator: the object with the methods above and its controller. *)
Record Participation := MkParticipation {
  log_ : State;
  replicationController : option PIDReplicationController;
}.
Abbreviation P := (Method Participation).

Definition on_log {A} (m : M A) : P A := fun s => let '(r, l) := m (log_ s) in (r, MkParticipation l (replicationController s)).
Definition set_controller (c : PIDReplicationController) (s : Participation) : Participation := MkParticipation (log_ s) (Some c).

Definition setupDebouncedRebalancing (d : DynamicReplicationOptions) : P unit :=
  modify (set_controller (new_PID (do_storage d) (do_cpu d) None None None)).

(** The oldest timestamp, the removal of what has been merged, the announcement. *)
Definition announce_ranges (opt : ReplicateOptions) (offsetWasProvided : bool) (rs rangesToUnreplicate : list Range) (now : Z)
    : M (list Range * option ReplicationMessage) :=
  forM (fun r => modify (fun s => set_oldestOpenTime (Z.min (Number_of_bigint (r_timestamp r)) (oldestOpenTime s)) s)) rs;;;
  let resetRanges := default false (reset_ opt) || negb offsetWasProvided in
  whenM (match rangesToUnreplicate with [] => false | _ => true end)
    (removeReplicationRanges o (range_text_ env) rangesToUnreplicate (publicKey_ o) now);;;
  msg ⇠ startAnnounceReplicating o rs (MkAddOptions resetRanges (checkDuplicates_ opt) None (default true (rebalance_ opt)))
          (minRoleAge_ env) (announce_ opt) now;;
  whenM (match rangesToUnreplicate with [] => false | _ => true end)
    (send (StoppedReplicating (map r_id rangesToUnreplicate)) Everyone);;;
  ret (rs, msg).

Definition replicate_fixed (opt : ReplicateOptions) (args : list FixedReplicationOptions) (draws : nat -> Draw) (now : Z)
    : M (list Range * option ReplicationMessage) :=
  match args with
  | [] => ret ([], None)
  | _ =>
      rs ⇠ range_args args draws 0 now;;
      merged ⇠ (if mergeSegments_ opt
                then m ⇠ merge_segments (canMerge_ env) rs (draw_bytes (draws (length args))) (draw_bytes (draws (S (length args))));;
                     ret ([m.1], m.2)
                else ret (rs, []));;
      announce_ranges opt (offset_provided args) merged.1 merged.2 now
  end.

(** The ranges that are replicated from now on, and the message [announce] is
    called with. *)
Definition _replicate (options : ReplicationOptions) (opt : ReplicateOptions) (draws : nat -> Draw) (now : Z)
    : P (list Range * option ReplicationMessage) :=
  if isUnreplicationOptions options then on_log (unreplicate o (range_text_ env) UnreplicateAll now);;; ret ([], None)
  else
    let become := on_log (modify (set_role (Some true) (Some false))) in
    let adaptive d :=
      become;;;
      on_log (modify (set_role (Some true) (Some true)));;;
      setupDebouncedRebalancing d;;;
      maybeRange ⇠ on_log (getDynamicRange (dynamicRangeId_ env) (openOptions env) (minRoleAge_ env) now);;
      match maybeRange with
      | None => ret ([], None)
      | Some r => on_log (announce_ranges opt true [r] [] now)
      end in
    match options with
    | OptResume => ret ([], None)
    | OptUndefined | OptBool _ => adaptive no_limits
    | OptDynamic d _ => adaptive d
    | OptMessage m =>
        become;;;
        r ⇠ lift (toReplicationRangeIndexable m (publicKey_ o));;
        on_log (announce_ranges opt true [r] [] now)
    | OptNumber n => become;;; on_log (replicate_fixed opt [MkFixed None None (FactorAmount (Num n)) false None] draws now)
    | OptFixed f => become;;; on_log (replicate_fixed opt [f] draws now)
    | OptRanges l => become;;; on_log (replicate_fixed opt l draws now)
    end.

(** [replicate]: an entry stands for the one coordinate the domain gives it;
    in a list it is strict. *)
Inductive Replicated := RMessage (m : RangeMessage) | REntry (coordinate : Amount) | REntries (l : list (Amount + FixedReplicationOptions)) | ROptions (options : ReplicationOptions).

Definition entry_options (strict : bool) (coordinate : Amount) : FixedReplicationOptions :=
  MkFixed None (Some false) (FactorAmount (Num (of_Z 1))) strict (Some coordinate).

Definition replicate_options (x : Replicated) : ReplicationOptions :=
  match x with
  | RMessage m => OptMessage m
  | REntry c => OptFixed (entry_options false c)
  | REntries l => OptRanges (map (fun e => match e with inl c => entry_options true c | inr f => f end) l)
  | ROptions OptUndefined => OptBool true
  | ROptions options => options
  end.

Definition replicate (x : Replicated) := _replicate (replicate_options x).

(** ** [rebalanceParticipation] *)

Definition widthNormalized (r : Range) : number :=
  match r_type r with
  | U32 => (of_Z (r_width r) / of_Z MAX_U32)%n
  | U64 => (of_Z (Number_of_bigint (r_width r)) / of_Z (Number_of_bigint MAX_U64))%n
  end.

(** A share of samples as a double. *)
Definition quotient_n (q : Q) : number := (of_Z (Qnum q) / of_Z (Zpos (Qden q)))%n.

Definition calculateTotalParticipation (sum : bool) : M number :=
  if sum then all ⇠ query_all QLNone;; ret (fold_left (fun acc r => (acc + widthNormalized r)%n) all (of_Z 0))
  else
    i ⇠ gets replicationIndex;; q ⇠ lift (appromixateCoverage i R 25 numbers_ false);; ret (quotient_n q).

Definition calculateMyTotalParticipation : M number :=
  mine ⇠ getMyReplicationSegments o;; ret (fold_left (fun acc r => (acc + widthNormalized r)%n) mine (of_Z 0)).

(** The range with another width. *)
Definition resized (r : Range) (width : Z) : outcome Range :=
  new_Range R {| p_id := Some (r_id r); p_random := []; p_offset := r_start1 r; p_width := width;
                 p_mode := Some (r_mode r); p_timestamp := Some (r_timestamp r); p_owner := publicKeyHash (r_hash r) |}.

(** [None] is [undefined]. *)
Definition rebalanceParticipation (closed_ : bool) (usedMemory : number) (cpu : option number) (now : Z) : P (option bool) :=
  if closed_ then ret (Some false)
  else
    role ⇠ gets (fun s => (isReplicating_ (log_ s), isAdaptiveReplicating (log_ s)));;
    if negb (default false role.1) || negb (default false role.2) then ret (Some false)
    else
      dynamicRange ⇠ on_log (getDynamicRange (dynamicRangeId_ env) (openOptions env) (minRoleAge_ env) now);;
      match dynamicRange with
      | None => ret None
      | Some range =>
          size ⇠ gets (fun s => length (ranges (replicationIndex (log_ s))));;
          let peersSize := if (size =? 0)%nat then 1%nat else size in
          totalParticipation ⇠ on_log (calculateTotalParticipation false);;
          c ⇠ gets replicationController;;
          match c with
          | None => raise "TypeError"
          | Some c =>
              let '(newFactor, c') := Factors.step c (MkMeasures usedMemory (widthNormalized range) totalParticipation (of_Z (Z.of_nat peersSize)) cpu) in
              modify (set_controller c');;;
              let relativeDifference := (Math_abs (widthNormalized range - newFactor) / widthNormalized range)%n in
              if lt_n (decimal 1 4) relativeDifference then
                width ⇠ lift (denormalize R newFactor);;
                range' ⇠ lift (resized range width);;
                if negb (trusted o (publicKey_ o)) then ret (Some false)
                else
                  on_log (startAnnounceReplicating o [range'] (MkAddOptions false false None true) (minRoleAge_ env) false now);;;
                  on_log rebalanceParticipationDebounced;;; ret (Some true)
              else on_log rebalanceParticipationDebounced;;; ret (Some false)
          end
      end.

End Replicate.
