(* ===== verification/ReplicateFacts.v ===== *)
(** * What a node replicates, over time

    The ranges [replicate] and [rebalanceParticipation] of Replicate build are
    ranges of the node ([proper]); the steps of a node with them
    ([participation_step]), and what each of the two does to the ranges, to the
    role and to what is announced. *)

From Stdlib Require Import ZArith Lia SpecFloat.
From stdpp Require Import base list strings relations.
From S2P Require Import Prelude JsFloat JsMap JsVal Query IndexInterface IndexStore Integers Ranges RangeFacts RangeAlgebra RangeQueries RangeIterators RangeIteratorsFacts Rebalance SimpleSync Effects Replicators ReplicatorsFacts ReplicationSteps Factors Replicate.

Local Open Scope Z_scope.

(** ** The ranges that are built *)

Section Built.
Context `{Hashing}.

(** A constructed range that starts inside the ring. *)
Definition proper (t : resolution) (h : string) (r : Range) : Prop :=
  range_ok t r /\ r_start1 r < ring t /\ r_hash r = h.

Lemma transform_bounds t offset width c :
  0 <= offset < ring t -> offset + width < 2 * ring t -> transform t offset width = Val c -> 0 <= width <= ring t.
Proof.
  intros Ho Hw. rewrite transformE. unfold getSegmentsFromOffsetAndRange, min. cbv zeta. cbn [fst snd].
  destruct (Z.ltb_spec (ring t) (offset + width)) as [Hl|Hl].
  - rewrite (proj2 (Z.ltb_ge (offset + width) (ring t))) by lia. cbn [fst snd].
    destruct (Z.eqb_spec width (ring t)) as [->|Hne]; [intros _; pose proof (ring_pos t); lia|]. cbn [negb].
    assert (Er : Z.rem (offset + width) (ring t) = offset + width - ring t).
    { rewrite Z.rem_mod_nonneg by lia. replace (offset + width) with (offset + width - ring t + 1 * ring t) by lia.
      rewrite Z.mod_add by lia. rewrite Z.mod_small; lia. }
    rewrite Er, (proj2 (Z.ltb_lt (offset + width - ring t) (ring t))) by lia. intros E.
    assert (~ ring t < width); [|lia]. intros Hgt. replace (_ || _) with true in E by lia. done.
  - assert (Hm : (if offset + width <? ring t then offset + width else ring t) = offset + width) by (case_if_in_goal; lia).
    rewrite Hm. cbn [fst snd]. rewrite Z.ltb_irrefl. intros E. assert (~ width < 0); [|lia]. intros Hneg.
    replace (_ || _) with true in E by lia. done.
Qed.

Lemma new_Range_proper t p h r :
  owner_hash (p_owner p) = Val h -> 0 <= p_offset p < ring t -> p_offset p + p_width p < 2 * ring t ->
  0 <= default 0 (p_timestamp p) <= MAX_U64 -> new_Range t p = Val r ->
  proper t h r /\ r_id r = default (p_random p) (p_id p) /\ r_start1 r = p_offset p /\ r_width r = p_width p /\
  r_timestamp r = default 0 (p_timestamp p) /\ r_mode r = default NonStrict (p_mode p).
Proof.
  intros Hh Ho Hw Ht E. assert (Hb : 0 <= p_width p <= ring t).
  { rewrite new_RangeE, Hh in E. cbn [mbind outcome_bind] in E.
    destruct (transform t (p_offset p) (p_width p)) as [c|?|] eqn:Ec; [|done|done]. by apply (transform_bounds t (p_offset p) _ c). }
  destruct (new_Range_shape t p h Hh Ho Hb) as (r' & E' & Hs & Et & E1 & E2 & Eh & Ei & Ets & Em).
  rewrite E in E'. injection E' as <-. split; [|by split_and!]. split; [split; [done|by rewrite Ets|done]|]. split; [lia|done].
Qed.

Lemma proper_bounds t h r : proper t h r -> 0 <= r_start1 r < ring t /\ 0 <= r_end2 r <= ring t /\ r_type r = t /\ r_hash r = h.
Proof. intros ([Et _ Hs] & Hlt & Eh). rewrite <- Et in *. destruct Hs; split_and!; lia || done. Qed.

(** Rounding to a double does not cross a power of two. *)
Lemma Number_le_pow z k : 53 <= k -> z <= 2 ^ k -> Number_of_bigint z <= 2 ^ k.
Proof.
  intros Hk Hz. unfold Number_of_bigint. destruct (Z.ltb_spec (Z.abs z) (2 ^ 53)) as [|Hbig]; [done|].
  destruct (Z_le_gt_dec z 0) as [Hneg|Hpos].
  { assert (0 <= (if (2 ^ (Z.log2 (Z.abs z) - 52 - 1) <? Z.abs z mod 2 ^ (Z.log2 (Z.abs z) - 52)) ||
      (Z.abs z mod 2 ^ (Z.log2 (Z.abs z) - 52) =? 2 ^ (Z.log2 (Z.abs z) - 52 - 1)) && Z.odd (Z.abs z / 2 ^ (Z.log2 (Z.abs z) - 52))
      then Z.abs z / 2 ^ (Z.log2 (Z.abs z) - 52) + 1 else Z.abs z / 2 ^ (Z.log2 (Z.abs z) - 52)) * 2 ^ (Z.log2 (Z.abs z) - 52)).
    { apply Z.mul_nonneg_nonneg; [|apply Z.pow_nonneg; lia].
      assert (0 <= Z.abs z / 2 ^ (Z.log2 (Z.abs z) - 52)); [|case_if_in_goal; lia].
      apply Z_div_nonneg_nonneg; [lia|]. apply Z.pow_nonneg. lia. }
    rewrite <- Z.mul_assoc. pose proof (Z.pow_nonneg 2 k ltac:(lia)). destruct (Z.sgn_spec z) as [[? E]|[[? E]|[? E]]]; rewrite E; lia. }
  rewrite Z.abs_eq in * by lia. rewrite Z.sgn_pos by lia. rewrite Z.mul_1_l. cbv zeta.
  assert (Hlog : 53 <= Z.log2 z) by (apply Z.log2_le_pow2; lia). set (e := Z.log2 z - 52) in *.
  pose proof (Z.log2_spec z ltac:(lia)) as [Hlo Hhi].
  assert (He : 2 ^ Z.log2 z = 2 ^ 52 * 2 ^ e) by (rewrite <- Z.pow_add_r by (unfold e; lia); f_equal; unfold e; lia).
  assert (Hp : 0 < 2 ^ e) by (apply Z.pow_pos_nonneg; unfold e; lia).
  pose proof (Z.div_mod z (2 ^ e) ltac:(lia)) as Hdm. pose proof (Z.mod_pos_bound z (2 ^ e) Hp) as Hr.
  destruct (Z.eq_dec z (2 ^ k)) as [Ez|Hne].
  - assert (Ek : Z.log2 z = k) by (rewrite Ez; apply Z.log2_pow2; lia).
    assert (Hq : z / 2 ^ e = 2 ^ 52) by (rewrite Ez, <- Ek, He; apply Z.div_mul; lia).
    assert (Hm : z mod 2 ^ e = 0) by (rewrite Ez, <- Ek, He; apply Z.mod_mul; lia).
    rewrite Hm, Hq. assert (0 < 2 ^ (e - 1)) by (apply Z.pow_pos_nonneg; unfold e; lia).
    replace (2 ^ (e - 1) <? 0) with false by lia. replace (0 =? 2 ^ (e - 1)) with false by lia. cbn [orb andb]. cbv iota.
    rewrite <- He, Ek. lia.
  - assert (Hlk : Z.log2 z < k) by (apply Z.log2_lt_pow2; lia).
    assert (Hk2 : 2 ^ Z.succ (Z.log2 z) <= 2 ^ k) by (apply Z.pow_le_mono_r; lia).
    assert (Hs : 2 ^ Z.succ (Z.log2 z) = 2 ^ 53 * 2 ^ e) by (rewrite <- Z.pow_add_r by (unfold e; lia); f_equal; unfold e; lia).
    assert (Hq : z / 2 ^ e < 2 ^ 53) by (apply Z.div_lt_upper_bound; lia).
    rewrite Hs in Hk2. case_if_in_goal; nia.
Qed.

Lemma coordinate_Number_fits t offset z : 0 <= offset < ring t -> offset + z <= ring t -> offset + coordinate_Number t z < 2 * ring t.
Proof.
  intros Ho Hz. destruct t; cbn [coordinate_Number]; [lia|]. change (ring U64) with (2 ^ 64 - 1) in *.
  destruct (Z_le_gt_dec z (2 ^ 63)) as [Hle|Hgt].
  - pose proof (Number_le_pow z 63 ltac:(lia) Hle). lia.
  - pose proof (Number_le_pow z 64 ltac:(lia) ltac:(lia)). lia.
Qed.

Lemma merge_step_proper t h acc cur acc' :
  h <> ""%string -> Forall (proper t h) acc -> proper t h cur -> merge_step t acc cur = Val acc' -> Forall (proper t h) acc'.
Proof.
  intros Hne Hacc Hcur. unfold merge_step. destruct (last acc) as [l|] eqn:El.
  - assert (Hl : proper t h l). { rewrite Forall_forall in Hacc. apply Hacc. by apply last_Some_elem_of. }
    destruct (proper_bounds _ _ _ Hl) as (B1 & B2 & _ & Eh). destruct (proper_bounds _ _ _ Hcur) as (C1 & C2 & _).
    destruct (r_start1 cur <=? r_end2 l); [|intros [= <-]; by apply Forall_app_2; [|constructor]].
    intros E. outcome_inv. apply Forall_app_2.
    + rewrite Forall_forall in Hacc |- *. intros x Hx. apply Hacc.
      destruct (exists_last (l := acc)) as (k0 & z0 & Ek); [by intros ->|]. rewrite Ek, removelast_last in Hx. rewrite Ek. apply elem_of_app. by left.
    + constructor; [|constructor]. eapply new_Range_proper in Hstep as [Hp _]; [exact Hp|..]; cbn [p_owner p_offset p_width p_timestamp owner_hash].
      * by rewrite bool_decide_false.
      * done.
      * apply coordinate_Number_fits; [done|]. destruct (r_end2 cur <? r_end2 l); lia.
      * simpl. unfold MAX_U64. lia.
  - intros [= <-]. by constructor.
Qed.

Lemma merged_proper t h l acc acc' :
  h <> ""%string -> Forall (proper t h) acc -> Forall (proper t h) l -> foldM (merge_step t) acc l = Val acc' -> Forall (proper t h) acc'.
Proof.
  intros Hne. revert acc. induction l as [|x l IH]; intros acc Hacc Hl E; cbn [foldM] in E; [by injection E as <-|].
  outcome_inv. apply Forall_cons in Hl as [Hx Hl]. by eapply IH; [eapply (merge_step_proper t h acc x)|..].
Qed.

Lemma largest_gap_bounds t h arr rest i acc :
  Forall (proper t h) arr -> Forall (proper t h) rest -> 0 <= acc.1 <= ring t ->
  0 <= (largest_gap_loop (ring t) 0 arr i rest acc).1 <= ring t.
Proof.
  intros Harr. revert i acc. induction rest as [|x rest IH]; intros i acc Hrest Hacc; cbn [largest_gap_loop]; [done|].
  apply Forall_cons in Hrest as [Hx Hrest]. apply IH; [done|]. cbv zeta.
  destruct (arr !! ((i + 1) mod length arr)%nat) as [y|] eqn:Ey; [|pose proof (ring_pos t); destruct (acc.1 <? 0); cbn [fst]; lia].
  pose proof (Forall_lookup_1 _ _ _ _ Harr Ey) as Hy.
  destruct (proper_bounds _ _ _ Hx) as (B1 & B2 & _). destruct (proper_bounds _ _ _ Hy) as (C1 & C2 & _).
  unfold gap_after. destruct (Z.ltb_spec (r_start1 y) (r_end2 x)); case_if_in_goal; cbn [fst]; lia.
Qed.

(** Merging ranges of one owner that start inside the ring gives such a range. *)
Lemma mergeRanges_proper t h rs random r :
  h <> ""%string -> Forall (proper t h) rs -> mergeRanges rs 0 (ring t) random = Val r -> proper t h r.
Proof.
  intros Hne Hrs. destruct rs as [|s0 [|s1 rs]]; [done|by intros [= <-]; apply Forall_cons in Hrs as []|].
  unfold mergeRanges. set (l := s0 :: s1 :: rs) in *. destruct (negb _); [done|].
  pose proof (Forall_inv Hrs) as ([Et _ _] & _ & Eh). rewrite Et, Eh. intros E. outcome_inv.
  assert (Hm : Forall (proper t h) a).
  { apply (merged_proper t h (js_sort range_cmp l) [] a Hne); [constructor| |done].
    rewrite Forall_forall in Hrs |- *. intros x Hx. apply Hrs. by apply js_sort_elem in Hx. }
  pose proof (largest_gap_bounds t h a a 0 (0, None) Hm Hm) as Hgap.
  destruct a as [|m [|m' a]]; [..|set (merged := m :: m' :: a) in *].
  - cbn [largest_gap_loop] in E. done.
  - injection E as <-. by apply Forall_cons in Hm as [].
  - destruct (largest_gap_loop (ring t) 0 merged 0 merged (0, None)) as [gap idx]. cbn [fst] in Hgap.
    destruct (idx ≫= (merged !!.)) as [arc|] eqn:Ea; [|done].
    assert (Harc : proper t h arc) by (destruct idx as [j|]; [by apply (Forall_lookup_1 _ _ j _ Hm)|done]).
    destruct (proper_bounds _ _ _ Harc) as (B1 & B2 & _). pose proof (ring_pos t).
    eapply new_Range_proper in E as [Hp _]; [exact Hp|..]; cbn [p_owner p_offset p_width p_timestamp owner_hash default from_option].
    + by rewrite bool_decide_false.
    + done.
    + lia.
    + unfold MAX_U64. lia.
Qed.

End Built.

(** A fraction gives a coordinate of the ring. *)
Lemma denormalize_le t v w : denormalize t v = Val w -> w <= ring t.
Proof.
  destruct t; cbn [denormalize].
  - unfold denormalizer_u32. cbv zeta. set (x := (v * of_Z MAX_U32)%n). change (ring U32) with MAX_U32.
    destruct (lt_n (of_Z MAX_U32) (Math_round x)) eqn:E; [intros [= <-]; vm_compute; discriminate|].
    destruct x as [s|s| |s m e]; cbn [Math_round] in *; [by intros [= <-]|done|done|].
    destruct (round_z s m e) as [|p|p] eqn:Ez; [by intros [= <-]|apply (BigInt_le MAX_U32 (Zpos p)); [done|done]|].
    apply (BigInt_le MAX_U32 (Zneg p)); done.
  - unfold denormalizer_u64. intros E. outcome_inv. change (ring U64) with MAX_U64. destruct (Z.ltb_spec MAX_U64 a); lia.
Qed.

(** A step that establishes what the next one needs. *)
Lemma keeps_bind_val {T A B} (P : T -> Prop) (Q : A -> Prop) (m : Method T A) (k : A -> Method T B) :
  keeps P m -> (forall s a s', P s -> m s = (Val a, s') -> Q a) -> (forall a, Q a -> keeps P (k a)) -> keeps P (bindM m k).
Proof.
  intros Hm HQ Hk s Hs. apply bindM_spec; [by apply Hm|]. intros a s' E. apply (Hk a); [by apply (HQ s a s')|].
  specialize (Hm s Hs). by rewrite E in Hm.
Qed.

(** ** What is known of the ranges after each operation *)

Section Facts.
Context {I St : Type} `{JsEnv, !JsEnvLaws, Hashing, Document Range, !RangeDocument, Index I St Range, !IndexLaws I St Range,
  !IndexStore I Range, !IndexStoreLaws I St Range}.
Context (o : Options) (env : Environment (I := I)).
Abbreviation State := (Replicators (I := I)).
Abbreviation t := (resolution_ o).
Implicit Types s : State.

(** Options that ask for coordinates of the ring. *)
Definition arg_valid (arg : FixedReplicationOptions) (d : Draw) : Prop :=
  let normalized := default true (fo_normalized arg) in
  forall offset, range_offset o arg normalized d = Val offset ->
    0 <= offset < ring t /\ forall width, range_width o arg normalized offset = Val width -> width <= ring t.

Definition clock_ok (now : Z) : Prop := 0 <= now <= MAX_U64.

Lemma owner_hash_val h h' : owner_hash (publicKeyHash h) = Val h' -> h' = h /\ h <> ""%string.
Proof. cbn [owner_hash]. case_bool_decide; [done|]. by intros [= <-]. Qed.

Lemma new_Range_owner p r : new_Range t p = Val r -> exists h, owner_hash (p_owner p) = Val h.
Proof. rewrite new_RangeE. destruct (owner_hash (p_owner p)) as [h|?|]; [by exists h|done|done]. Qed.

Lemma range_of_option_proper arg ts d now r :
  arg_valid arg d -> clock_ok now -> (forall x, ts = Some x -> clock_ok x) -> range_of_option o arg ts d now = Val r ->
  proper t (myHash o) r /\ myHash o <> ""%string /\ r_id r = default (draw_bytes d) (fo_id arg) /\ r_timestamp r = default now ts /\
  r_mode r = (if fo_strict arg then Strict else NonStrict).
Proof.
  intros Hv Hn Hts E. unfold range_of_option in E. cbv zeta in E.
  destruct (range_offset o arg (default true (fo_normalized arg)) d) as [offset|?|] eqn:Eo; [|done|done]. cbn [mbind outcome_bind] in E.
  destruct (range_width o arg (default true (fo_normalized arg)) offset) as [width|?|] eqn:Ew; [|done|done]. cbn [mbind outcome_bind] in E.
  destruct (Hv offset Eo) as [Ho Hw]. specialize (Hw width Ew).
  destruct (new_Range_owner _ _ E) as (h & Eh). cbn [p_owner] in Eh. pose proof (owner_hash_val _ _ Eh) as [-> Hne].
  match type of E with new_Range _ ?p = _ => destruct (new_Range_proper t p (myHash o) r Eh) as (Hp & Ei & _ & _ & Et & Em); [exact Ho| | |exact E|] end.
  - cbn [p_offset p_width]. lia.
  - cbn [p_timestamp default from_option]. destruct ts as [x|]; [by apply Hts|exact Hn].
  - by split_and!.
Qed.

Lemma index_get_spec id s : store_ok o (replicationIndex s) ->
  exists r, index_get id s = (Val r, s) /\
    match r with
    | Some x => x ∈ ranges (replicationIndex s) /\ r_id x = id
    | None => forall x, x ∈ ranges (replicationIndex s) -> r_id x <> id
    end.
Proof.
  intros Hok. eexists. split; [done|]. destruct (List.find _ _) as [x|] eqn:E.
  - apply find_some in E as [Hx%list_elem_of_In Ei%bool_decide_eq_true]. by split.
  - intros x Hx Ei. apply list_elem_of_In in Hx. pose proof (find_none _ _ E x Hx) as En. simpl in En.
    by apply bool_decide_eq_false in En.
Qed.

Lemma stored_clock s x : store_ok o (replicationIndex s) -> x ∈ ranges (replicationIndex s) -> clock_ok (r_timestamp x).
Proof.
  intros Hok Hx. pose proof (ranges_each _ _ (store_ranges _ _ Hok)) as Hall. rewrite Forall_forall in Hall. by apply (Hall x).
Qed.

Lemma range_args_spec args draws i now s :
  store_ok o (replicationIndex s) -> clock_ok now -> (forall j arg, args !! j = Some arg -> arg_valid arg (draws (i + j)%nat)) ->
  (range_args o args draws i now s).2 = s /\
  forall rs, (range_args o args draws i now s).1 = Val rs ->
    Forall (proper t (myHash o)) rs /\ (rs = [] \/ myHash o <> ""%string) /\ length rs = length args.
Proof.
  intros Hok Hn. revert i. induction args as [|arg args IH]; intros i Hv; cbn [range_args].
  { split; [done|]. intros rs [= <-]. split; [constructor|]. split; [by left|done]. }
  assert (Hget : exists ts, (match fo_id arg with Some id => index_get id | None => ret None end) s = (Val ts, s) /\
            (forall x, r_timestamp <$> ts = Some x -> clock_ok x)).
  { destruct (fo_id arg) as [id|]; [|by exists None]. destruct (index_get_spec id s Hok) as (r & E & Hr). exists r. split; [done|].
    intros x. destruct r as [r|]; [|done]. intros [= <-]. by apply (stored_clock s r), Hr. }
  destruct Hget as (ts & Ets & Hts).
  assert (E0 : range_arg o arg (draws i) now s = (range_of_option o arg (r_timestamp <$> ts) (draws i) now, s))
    by (unfold range_arg, bindM; by rewrite Ets).
  unfold bindM. rewrite !E0.
  pose proof (Hv 0%nat arg eq_refl) as Hv0. rewrite Nat.add_0_r in Hv0.
  destruct (range_of_option o arg (r_timestamp <$> ts) (draws i) now) as [r|?|] eqn:Er; [|by split..].
  destruct (range_of_option_proper arg _ (draws i) now r Hv0 Hn Hts Er) as (Hp & Hne & _).
  destruct (IH (S i)) as [Es Hrs]. { intros j a Ha. replace (S i + j)%nat with (i + S j)%nat by lia. by apply Hv. }
  destruct (range_args o args draws (S i) now s) as [[rs|?|] s'] eqn:E; cbn [fst snd] in *; try (by split).
  subst s'. split; [done|]. intros rs' [= <-]. destruct (Hrs rs eq_refl) as (H1' & H2' & H3').
  split; [by constructor|]. split; [by right|]. simpl. by rewrite H3'.
Qed.

Lemma keeps_silent {A} (m : Method State A) : silent m -> keeps (rep_ok o) m.
Proof. intros Hm s Hs. by apply silent_ok. Qed.

Lemma proper_owned rs : Forall (proper t (myHash o)) rs -> owned_by o (publicKey_ o) rs.
Proof. rewrite Forall_forall. intros Hrs r Hr. destruct (Hrs r Hr) as (Hok & _ & Eh). by split. Qed.

(** The options of the node that do not change, as they should be. *)
Record env_ok : Prop := { env_age : reads (minRoleAge_ env) }.
Context (Henv : env_ok).

(** The stored ranges of the node itself. *)
Definition own s (r : Range) : Prop := r ∈ ranges (replicationIndex s) /\ r_hash r = myHash o.

Lemma remove_own rs text now s : rep_ok o s -> (forall r, r ∈ rs -> own s r) -> rep_ok o (removeReplicationRanges o text rs (publicKey_ o) now s).2.
Proof.
  intros Hs Hrs. destruct rs as [|r rs].
  - destruct (removeReplicationRanges_empty o text (publicKey_ o) now s) as (s' & -> & Hs'). by apply (same_ranges_ok o s).
  - by destruct (removeReplicationRanges_spec o text (r :: rs) (publicKey_ o) now s Hs) as (s' & -> & Hok' & _).
Qed.

Lemma announce_ranges_ok opt provided rs gone now s :
  owned_by o (publicKey_ o) rs -> rep_ok o s -> (forall r, r ∈ gone -> own s r) -> rep_ok o (announce_ranges o env opt provided rs gone now s).2.
Proof.
  intros Ho Hs Hg. unfold announce_ranges, bindM at 1.
  destruct (silent_forM (fun r => modify (fun s => set_oldestOpenTime (Z.min (Number_of_bigint (r_timestamp r)) (oldestOpenTime s)) s)) rs)
    with (s := s) as (a & s1 & -> & Hs1); [intros r; by apply silent_modify|].
  assert (Hr : rep_ok o (whenM (match gone with [] => false | _ => true end) (removeReplicationRanges o (range_text_ env) gone (publicKey_ o) now) s1).2).
  { unfold whenM. case_match; [|by apply (same_ranges_ok o s)]. apply remove_own; [by apply (same_ranges_ok o s)|].
    intros r Hr. unfold own. destruct Hs1 as [-> _]. by apply Hg. }
  apply bindM_spec; [done|intros u s2 E2]. rewrite E2 in Hr. revert s2 E2 Hr. intros s2 _. revert s2.
  match goal with |- forall s2, _ -> rep_ok o (?m s2).2 => change (keeps (rep_ok o) m) end.
  apply keeps_bind; [|intros msg; apply keeps_bind; [by apply keeps_when, keeps_silent, silent_modify|intros _; apply keeps_ret]].
  intros s' Hs'. apply announce_ok; [done|done|apply Henv].
Qed.

Lemma announce_ranges_keeps opt provided rs now : owned_by o (publicKey_ o) rs -> keeps (rep_ok o) (announce_ranges o env opt provided rs [] now).
Proof. intros Ho s Hs. apply announce_ranges_ok; [done|done|by intros r ?%elem_of_nil]. Qed.

(** ** Merging with what is stored *)

(** The ranges of the node start inside the ring. *)
Definition own_inside s : Prop := forall r, r ∈ ranges (replicationIndex s) -> r_hash r = myHash o -> r_start1 r < ring t.

Lemma Map_set_only {V} (m : list (string * V)) k v x : x ∈ Map_set m k v -> x ∈ m \/ x.2 = v.
Proof.
  induction m as [|[k1 v1] m IH]; cbn [Map_set]; [intros ->%list_elem_of_singleton; by right|].
  case_decide; intros [->|Hx]%elem_of_cons; [by right|left; by right|left; left|]. destruct (IH Hx); [left; by right|by right].
Qed.

Lemma Map_set_option {V} (m : list (string * V)) (f : V -> string) (v : option V) k x :
  (k, x) ∈ match v with Some v => Map_set m (f v) v | None => m end -> (k, x) ∈ m \/ v = Some x.
Proof. destruct v as [v|]; [|by left]. intros [?|Hx]%Map_set_only; [by left|right]. by cbn in Hx; subst. Qed.

Lemma fold_Map_set_elem {A} (f : A -> string) (g : A -> Range) (l : list A) m k x :
  (k, x) ∈ fold_left (fun m a => Map_set m (f a) (g a)) l m -> (k, x) ∈ m \/ exists a, a ∈ l /\ x = g a.
Proof.
  revert m. induction l as [|a l IH]; intros m; cbn [fold_left]; [by left|]. intros [Hin|(b & Hb & ->)]%IH; [|right; exists b; split; [by right|done]].
  apply Map_set_only in Hin as [?|Hx]; [by left|right]. exists a. split; [left|done].
Qed.

(** What a range may be merged with is stored, and of the same owner. *)
Lemma merge_candidates_stored (i : I) range l :
  ranges_ok t i -> proper t (myHash o) range -> myHash o <> ""%string -> getAllMergeCandiates i t (range_argument range) (createNumbers t) = Val l ->
  forall k x, (k, x) ∈ l -> x ∈ ranges i /\ r_hash x = myHash o.
Proof.
  intros Hi Hp Hne. destruct (proper_bounds _ _ _ Hp) as (B1 & B2 & Et & Eh). unfold getAllMergeCandiates, getAdjecentSameOwner. cbn [range_argument ra_idString ra_arcs ra_hash ra_id].
  set (options := MkClosestOptions _ _).
  assert (Hadm : forall w, w ∈ idx_contents i -> closest_admits true options (ir_value w) = true -> ir_value w ∈ ranges i /\ r_hash (ir_value w) = myHash o).
  { intros w Hw Ha. split; [by apply list_elem_of_fmap_2|]. unfold closest_admits, options in Ha. cbn [co_hash] in Ha. apply andb_true_iff in Ha as [_ Ha].
    rewrite Eh in Ha. by rewrite bool_decide_false in Ha by done; apply bool_decide_eq_true in Ha. }
  destruct (getClosest_first t i false true (a_start1 (arcs_of range)) options) as (it1 & res1 & it1' & -> & E1 & H1'); [done|cbn; lia|done|]. cbn [mbind outcome_bind]. rewrite E1. cbn [mbind outcome_bind].
  destruct (getClosest_first t i true true (a_end2 (arcs_of range)) options) as (it2 & res2 & it2' & -> & E2 & H2'); [done|cbn; lia|done|]. cbn [mbind outcome_bind]. rewrite E2. cbn [mbind outcome_bind].
  assert (Hres : forall (res : option (IndexedResult Range)) x,
    match res with
    | None => True
    | Some w => w ∈ idx_contents i /\ closest_admits true options (ir_value w) = true
    end -> ir_value <$> head (option_list res) = Some x -> x ∈ ranges i /\ r_hash x = myHash o).
  { intros [w|] x Hw; [|done]. intros [= <-]. destruct Hw. by apply Hadm. }
  assert (Hb : forall x, ir_value <$> head (option_list res1) = Some x -> x ∈ ranges i /\ r_hash x = myHash o) by (intros x; apply Hres; destruct res1; [|done]; by destruct H1' as (? & ? & _)).
  assert (Ha : forall x, ir_value <$> head (option_list res2) = Some x -> x ∈ ranges i /\ r_hash x = myHash o) by (intros x; apply Hres; destruct res2; [|done]; by destruct H2' as (? & ? & _)).
  unfold getCoveringRangesSameOwner. rewrite same_owner_query_val by by apply shape_arcs_ok; [apply Hp|]. cbn [mbind outcome_bind].
  destruct (all_by t i (QLMany (same_owner_q t (arcs_of range) (r_hash range) (r_id range))) _
    (fun r => covers_arcs r (arcs_of range) && bool_decide (r_hash r = r_hash range) && negb (bool_decide (r_id r = r_id range))) Hi eq_refl) as (st & ->); [intros; apply sat_same_owner|].
  cbn [mbind outcome_bind]. intros [= <-] k x Hx. apply fold_Map_set_elem in Hx as [Hx|(w & Hw & ->)].
  - apply Map_set_option in Hx as [Hx|Hx]; [apply (Map_set_option [] idString) in Hx as [?%elem_of_nil|Hx]; [done|]|]; case_match; try done; auto.
  - apply elem_of_List_filter in Hw as [Hw Hc]. apply andb_true_iff in Hc as [[_ Hc%bool_decide_eq_true]%andb_true_iff _]. split; [by apply list_elem_of_fmap_2|congruence].
Qed.

Lemma merge_existing_ok canMerge range random s m s' :
  store_ok o (replicationIndex s) -> (canMerge <> None -> own_inside s) -> proper t (myHash o) range -> myHash o <> ""%string ->
  merge_existing o canMerge range random s = (Val m, s') -> proper t (myHash o) m.1 /\ forall x, x ∈ m.2 -> own s x.
Proof.
  intros Hok Hin Hp Hne. unfold merge_existing. destruct canMerge as [f|]; [|intros [= <- _]; split; [done|by intros x ?%elem_of_nil]].
  unfold bindM at 1, gets at 1. unfold bindM at 1, lift at 1. destruct (getAllMergeCandiates _ _ _ _) as [l|?|] eqn:El; [|done|done].
  pose proof (merge_candidates_stored _ _ _ (store_ranges _ _ Hok) Hp Hne El) as Hl.
  assert (Hsnd : forall x, x ∈ map snd l -> proper t (myHash o) x).
  { intros x ([k y] & -> & Hy)%list_elem_of_fmap. destruct (Hl k y Hy) as [Hs Hh]. split; [|split; [by apply Hin|done]].
    pose proof (ranges_each _ _ (store_ranges _ _ Hok)) as Hall. rewrite Forall_forall in Hall. by apply Hall. }
  assert (Hall : Forall (proper t (myHash o)) (List.filter (fun c => f c range) (map snd l) ++ [range])).
  { apply Forall_app. split; [|by constructor]. apply Forall_forall. intros x [Hx _]%elem_of_List_filter. by apply Hsnd. }
  unfold bindM. set (merged := match List.filter _ _ with [] => _ | _ => _ end).
  assert (Hm : forall r s2, merged s = (Val r, s2) -> proper t (myHash o) r).
  { intros r s2. unfold merged. destruct (List.filter (fun c => f c range) (map snd l)) as [|c cs]; [by intros [= <- _]|].
    unfold lift. destruct (mergeRanges _ 0 _ random) as [r'|?|] eqn:Em; [|done|done]. intros [= <- _]. change (maxValue (createNumbers t)) with (ring t) in Em. by eapply mergeRanges_proper. }
  destruct (merged s) as [[r|?|] s2]; [|done|done]. intros [= <- _]. split; [by eapply Hm|]. cbn. intros x [Hx _]%elem_of_List_filter. apply list_elem_of_fmap in Hx as ([k y] & -> & Hy). by apply (Hl k y).
Qed.

(** Where what is stored may be merged, it starts inside the ring. *)
Definition merge_inside (opt : ReplicateOptions) s : Prop := mergeSegments_ opt = true -> canMerge_ env <> None -> own_inside s.

Lemma merge_segments_same canMerge rs random1 random2 s : (merge_segments o canMerge rs random1 random2 s).2 = s.
Proof.
  unfold merge_segments, merge_existing, bindM, lift, gets, ret. destruct (mergeRanges rs 0 _ random1) as [r|?|]; [|done|done]. destruct canMerge as [f|]; [|done].
  destruct (getAllMergeCandiates _ _ _ _) as [l|?|]; [|done|done]. destruct (List.filter _ (map snd l)) as [|c cs]; [done|]. by destruct (mergeRanges _ 0 _ random2).
Qed.

Lemma replicate_fixed_ok opt args draws now s :
  clock_ok now -> (forall j arg, args !! j = Some arg -> arg_valid arg (draws j)) -> rep_ok o s -> merge_inside opt s ->
  rep_ok o (replicate_fixed o env opt args draws now s).2.
Proof.
  intros Hn Hv Hs Hin. unfold replicate_fixed. destruct args as [|arg args]; [done|]. set (l := arg :: args) in *.
  destruct (range_args_spec l draws 0 now s (proj1 Hs) Hn Hv) as [E Hrs]. unfold bindM at 1.
  destruct (range_args o l draws 0 now s) as [[rs|?|] s1]; cbn [fst snd] in E; subst s1; [|done|done]. destruct (Hrs rs eq_refl) as (H1' & H2' & H3').
  assert (Hne : myHash o <> ""%string) by (destruct H2' as [->|]; done). unfold bindM at 1.
  set (m := if mergeSegments_ opt then _ else _). assert (Hm : (m s).2 = s /\ forall x, (m s).1 = Val x -> Forall (proper t (myHash o)) x.1 /\ forall r, r ∈ x.2 -> own s r).
  { unfold m. destruct (mergeSegments_ opt) eqn:Eo; [|split; [done|]; intros x [= <-]; split; [done|by intros r ?%elem_of_nil]].
    unfold bindM. pose proof (merge_segments_same (canMerge_ env) rs (draw_bytes (draws (length l))) (draw_bytes (draws (S (length l)))) s) as Esame.
    destruct (merge_segments _ _ _ _ _ s) as [[x|?|] s1] eqn:Em; cbn [snd] in Esame; subst s1; [|done|done]. split; [done|]. intros y [= <-].
    unfold merge_segments, bindM, lift in Em. destruct (mergeRanges rs 0 _ _) as [r|?|] eqn:Er; [|done|done]. change (maxValue (createNumbers t)) with (ring t) in Er.
    destruct (merge_existing_ok _ r _ s x s (proj1 Hs) (Hin Eo) ltac:(by eapply mergeRanges_proper) Hne Em) as [Hx1 Hx2]. split; [by constructor|done]. }
  destruct (m s) as [[x|?|] s1]; destruct Hm as [Es Hm]; cbn [fst snd] in Es; subst s1; [|done|done]. destruct (Hm x eq_refl) as [Hx1 Hx2].
  by apply announce_ranges_ok; [apply proper_owned| |].
Qed.

(** The node's offset lies inside the ring. *)
Definition dynamic_valid (d : DynamicReplicationOptions) : Prop :=
  forall offset, getDynamicRangeOffset o d = Val offset -> 0 <= offset < ring t.

Lemma getDynamicRange_spec id d age now s res s' :
  rep_ok o s -> clock_ok now -> dynamic_valid d -> reads age -> getDynamicRange o id d age now s = (res, s') ->
  rep_ok o s' /\
  forall r, res = Val (Some r) ->
    r_id r = id /\
    (r ∈ ranges (replicationIndex s) /\ s' = s \/
     proper t (myHash o) r /\ r_width r = 0 /\ (forall x, x ∈ ranges (replicationIndex s) -> r_id x <> id)).
Proof.
  intros Hok Hn Hd Hage. unfold getDynamicRange, bindM at 1.
  rewrite (query_all_spec o (QLMany [new_ByteMatchQuery "id"%string id]) [new_ByteMatchQuery "id"%string id]
             (fun r => bool_decide (r_id r = id))); [|apply Hok|done|].
  2:{ intros r. rewrite sat_single, covered_single. apply sat_id. }
  assert (Hin : forall x, x ∈ List.filter (fun r => bool_decide (r_id r = id)) (ranges (replicationIndex s)) <->
                          x ∈ ranges (replicationIndex s) /\ r_id x = id).
  { intros x. by rewrite elem_of_List_filter, bool_decide_eq_true. }
  destruct (List.filter _ (ranges (replicationIndex s))) as [|x l] eqn:Ef.
  - unfold bindM at 1, lift at 1.
    destruct (getDynamicRangeOffset o d) as [offset|?|] eqn:Eo; [|by intros [= <- <-]..]. specialize (Hd offset Eo).
    unfold bindM at 1, lift at 1. match goal with |- context [new_Range t ?p] => set (props := p) end.
    destruct (new_Range t props) as [r|?|] eqn:Er; [|by intros [= <- <-]..].
    destruct (new_Range_owner _ _ Er) as (h & Eh). pose proof (owner_hash_val _ _ Eh) as [-> Hne].
    assert (Ez : zero (createNumbers t) = 0) by (by destruct t). pose proof (ring_pos t).
    destruct (new_Range_proper t props (myHash o) r Eh) as (Hp & Ei & _ & Ew & _); [exact Hd| |exact Hn|exact Er|].
    { cbn [props p_offset p_width]. lia. }
    assert (Ho : owned_by o (publicKey_ o) [r]) by (apply proper_owned; by constructor).
    pose proof (addReplicationRange_ok o [r] (publicKey_ o) (MkAddOptions false false None true) age now s Hok Ho Hage) as Hadd.
    unfold bindM. destruct (addReplicationRange _ _ _ _ _ _ s) as [[added|?|] s1]; intros [= <- <-]; (split; [exact Hadd|]); [|done..].
    intros r' Er'. destruct added; [|done]. injection Er' as <-. split; [exact Ei|]. right. split; [done|]. split; [by rewrite Ew|].
    intros x Hx Ex. by apply (not_elem_of_nil x), Hin.
  - intros [= <- <-]. split; [done|]. intros r [= <-]. destruct (proj1 (Hin x)) as [Hx Ex]; [by left|]. split; [done|by left].
Qed.
(** ** The node *)

(** The range under the dynamic id is the node's own. *)
Definition own_dynamic s : Prop :=
  forall r, r ∈ ranges (replicationIndex s) -> r_id r = dynamicRangeId_ env -> proper t (myHash o) r.

Abbreviation Node := (Participation (I := I)).
Definition node_ok (s : Node) : Prop := rep_ok o (log_ s).

Lemma keeps_on_log {A} (m : Method State A) : keeps (rep_ok o) m -> keeps node_ok (on_log m).
Proof. intros Hm s Hs. unfold on_log, node_ok in *. specialize (Hm (log_ s) Hs). by destruct (m (log_ s)). Qed.

Lemma keeps_role r a : keeps (rep_ok o) (modify (set_role (I := I) r a)).
Proof. intros s Hs. exact Hs. Qed.

(** Options whose coordinates lie on the ring. *)
Definition options_valid (options : ReplicationOptions) (draws : nat -> Draw) : Prop :=
  match options with
  | OptNumber n => arg_valid (MkFixed None None (FactorAmount (Num n)) false None) (draws 0%nat)
  | OptFixed f => arg_valid f (draws 0%nat)
  | OptRanges l => forall j arg, l !! j = Some arg -> arg_valid arg (draws j)
  | OptMessage m => forall r, toReplicationRangeIndexable m (publicKey_ o) = Val r -> range_ok t r
  | _ => True
  end.

Lemma single_valid arg (draws : nat -> Draw) : arg_valid arg (draws 0%nat) -> forall j a, [arg] !! j = Some a -> arg_valid a (draws j).
Proof. intros Hv [|[|j]] a; [by intros [= <-]|done|done]. Qed.

(** The range [getDynamicRange] answers may be announced again. *)
Lemma dynamic_owned age now s r s' :
  rep_ok o s -> own_dynamic s -> clock_ok now -> dynamic_valid (openOptions env) -> reads age ->
  getDynamicRange o (dynamicRangeId_ env) (openOptions env) age now s = (Val (Some r), s') ->
  rep_ok o s' /\ proper t (myHash o) r.
Proof.
  intros Hok Hown Hn Hd Hage E. destruct (getDynamicRange_spec _ _ _ _ _ _ _ Hok Hn Hd Hage E) as [Hok' Hr].
  split; [done|]. destruct (Hr r eq_refl) as [Ei [[Hin _]|[Hp _]]]; [by apply Hown|done].
Qed.

Lemma adaptive_ok opt d now (s : Node) :
  node_ok s -> own_dynamic (log_ s) -> clock_ok now -> dynamic_valid (openOptions env) ->
  node_ok ((on_log (modify (set_role (Some true) (Some false)));;;
            on_log (modify (set_role (Some true) (Some true)));;; setupDebouncedRebalancing d;;;
            maybeRange ⇠ on_log (getDynamicRange o (dynamicRangeId_ env) (openOptions env) (minRoleAge_ env) now);;
            match maybeRange with None => ret ([], None) | Some r => on_log (announce_ranges o env opt true [r] [] now) end)%effects s).2.
Proof.
  intros Hok Hown Hn Hd. unfold setupDebouncedRebalancing, bindM, on_log, modify. cbn [log_ set_controller].
  set (s1 := set_role (Some true) (Some true) _). assert (Hok1 : rep_ok o s1) by exact Hok. assert (Hown1 : own_dynamic s1) by exact Hown.
  destruct (getDynamicRange o _ _ _ now s1) as [res s2] eqn:E.
  destruct (getDynamicRange_spec _ _ _ _ _ _ _ Hok1 Hn Hd (env_age Henv) E) as [Hok2 _]. destruct res as [[r|]|?|]; [|exact Hok2..].
  destruct (dynamic_owned _ _ _ _ _ Hok1 Hown1 Hn Hd (env_age Henv) E) as [_ Hp].
  pose proof (announce_ranges_keeps opt true [r] now (proper_owned [r] ltac:(by constructor)) s2 Hok2) as Ha.
  cbn [log_]. by destruct (announce_ranges o env opt true [r] [] now s2).
Qed.

Lemma fixed_ok opt args draws now (s : Node) :
  clock_ok now -> (forall j arg, args !! j = Some arg -> arg_valid arg (draws j)) -> node_ok s -> merge_inside opt (log_ s) ->
  node_ok ((on_log (modify (set_role (Some true) (Some false)));;; on_log (replicate_fixed o env opt args draws now))%effects s).2.
Proof.
  intros Hn Hv Hok Hin. unfold bindM, on_log, modify. cbn [log_]. pose proof (replicate_fixed_ok opt args draws now (set_role (Some true) (Some false) (log_ s)) Hn Hv Hok Hin) as Hf.
  by destruct (replicate_fixed o env opt args draws now _).
Qed.

Lemma replicate_ok options opt draws now (s : Node) :
  node_ok s -> merge_inside opt (log_ s) -> own_dynamic (log_ s) -> clock_ok now -> dynamic_valid (openOptions env) -> options_valid options draws ->
  node_ok (_replicate o env options opt draws now s).2.
Proof.
  intros Hok Hin Hown Hn Hd Hv. unfold _replicate. destruct (isUnreplicationOptions options).
  { apply (keeps_bind node_ok); [apply keeps_on_log; intros s1 Hs1; by apply unreplicate_ok|intros _; apply keeps_ret|done]. }
  destruct options as [|b|n| |d keys|f|l|m]; try (by apply adaptive_ok); [|exact Hok|..].
  - apply fixed_ok; try done. by apply single_valid.
  - apply fixed_ok; try done. by apply single_valid.
  - by apply fixed_ok.
  - apply (keeps_bind node_ok); [apply keeps_on_log, keeps_role|intros _|exact Hok]. apply (keeps_bind_val node_ok (fun r => owned_by o (publicKey_ o) [r])); [apply keeps_lift| |].
    + intros s1 r s2 _ [= E <-]. intros x [->|[]%not_elem_of_nil]%elem_of_cons. split; [by apply Hv|].
      apply (to_ranges_owner [m] (publicKey_ o) [r]); [|by left]. unfold to_ranges. cbn [mapM_out]. by rewrite E.
    + intros r Hr. by apply keeps_on_log, announce_ranges_keeps.
Qed.

Lemma resized_proper r width r' : proper t (myHash o) r -> width <= ring t -> resized o r width = Val r' ->
  proper t (myHash o) r' /\ r_id r' = r_id r /\ r_start1 r' = r_start1 r /\ r_width r' = width /\ r_timestamp r' = r_timestamp r /\
  r_mode r' = r_mode r.
Proof.
  intros Hp Hw E. destruct (proper_bounds _ _ _ Hp) as (B1 & _ & _ & Eh). unfold resized in E.
  destruct (new_Range_owner _ _ E) as (h & Eh'). pose proof (owner_hash_val _ _ Eh') as [-> Hne]. rewrite Eh in *.
  match type of E with new_Range _ ?p = _ => apply (new_Range_proper t p (myHash o) r' Eh') in E; [exact E|exact B1|cbn [p_offset p_width]; lia|] end.
  cbn [p_timestamp default from_option]. apply Hp.
Qed.

Lemma rebalance_ok closed_ memory cpu now (s : Node) :
  node_ok s -> own_dynamic (log_ s) -> clock_ok now -> dynamic_valid (openOptions env) ->
  node_ok (rebalanceParticipation o env closed_ memory cpu now s).2.
Proof.
  intros Hok Hown Hn Hd. unfold rebalanceParticipation. destruct closed_; [done|]. unfold bindM at 1, gets at 1.
  destruct (_ || _); [done|].
  assert (Hdyn : forall res s2, getDynamicRange o (dynamicRangeId_ env) (openOptions env) (minRoleAge_ env) now (log_ s) = (res, s2) ->
            rep_ok o s2 /\ forall r, res = Val (Some r) -> proper t (myHash o) r).
  { intros res s2 E. split; [by eapply getDynamicRange_spec; [exact Hok|..|exact E]; try done; apply Henv|].
    intros r ->. by eapply dynamic_owned; [exact Hok|..|exact E]; try done; apply Henv. }
  unfold on_log at 1. apply bindM_spec; destruct (getDynamicRange _ _ _ _ _ (log_ s)) as [res s2]; destruct (Hdyn res s2 eq_refl) as [Hok2 Hp]; [exact Hok2|].
  intros [r|] s3 [= -> <-]; [|exact Hok2]. specialize (Hp r eq_refl).
  match goal with |- node_ok (?m ?x).2 => enough (K : keeps node_ok m) by (by apply K) end.
  apply keeps_bind; [apply keeps_gets|intros size]. apply keeps_bind; [|intros total].
  { apply keeps_on_log. unfold calculateTotalParticipation. keeps_auto. }
  apply keeps_bind; [apply keeps_gets|intros [c|]]; [|apply keeps_raise]. destruct (Factors.step c _) as [newFactor c'].
  apply keeps_bind; [by apply keeps_modify|intros _]. cbv zeta. destruct (lt_n _ _).
  - apply (keeps_bind_val node_ok (fun w => denormalize t newFactor = Val w)); [apply keeps_lift|by intros s3 w s4 _ [= E' <-]|].
    intros w Ew%denormalize_le. apply (keeps_bind_val node_ok (fun r' => resized o r w = Val r')); [apply keeps_lift|by intros s3 r' s4 _ [= E' <-]|].
    intros r' Er'. destruct (resized_proper _ _ _ Hp Ew Er') as [Hp' _]. destruct (negb _); [apply keeps_ret|].
    apply keeps_bind; [|intros _; apply keeps_bind; [apply keeps_on_log, keeps_silent, silent_rebalance|intros _; apply keeps_ret]].
    apply keeps_on_log. intros s3 Hs3. apply announce_ok; [done|apply proper_owned; by constructor|apply Henv].
  - apply keeps_bind; [apply keeps_on_log, keeps_silent, silent_rebalance|intros _; apply keeps_ret].
Qed.

(** ** What an announcement leaves as it is *)

(** The messages and the role are those given, and the calls of the rebalancing
    do not become fewer. *)
Definition front (l : list (ReplicationMessage * Audience)) (role : option bool * option bool) (n : nat) s : Prop :=
  outbox s = l /\ (isReplicating_ s, isAdaptiveReplicating s) = role /\ (n <= rebalances s)%nat.

Lemma front_query_all l role n ql : keeps (front l role n) (query_all ql).
Proof. unfold query_all. keeps_auto. Qed.

Lemma front_delete_ranges l role n ql : keeps (front l role n) (delete_ranges ql).
Proof. unfold delete_ranges. keeps_auto. by apply keeps_modify. Qed.

Lemma front_put_range l role n r : keeps (front l role n) (put_range r).
Proof. unfold put_range. keeps_auto. by apply keeps_modify. Qed.

Lemma front_oldest l role n now : keeps (front l role n) (updateOldestTimestampFromIndex now).
Proof. unfold updateOldestTimestampFromIndex. keeps_auto. by apply keeps_modify. Qed.

Lemma front_existing l role n rs : keeps (front l role n) (existing_ranges rs).
Proof.
  unfold existing_ranges. induction (batches (length rs) rs) as [|b bs IH]; cbn [fold_right]; [apply keeps_ret|].
  apply keeps_bind; [apply front_query_all|intros found]. apply keeps_bind; [exact IH|intros more; apply keeps_ret].
Qed.

Lemma front_deduplicate l role n rs : keeps (front l role n) (deduplicate o rs).
Proof.
  induction rs as [|r rs IH]; cbn [deduplicate]; [apply keeps_ret|]. apply keeps_bind; [apply keeps_gets|intros i].
  apply keeps_bind; [apply keeps_lift|intros c]. apply keeps_bind; [exact IH|intros rest; apply keeps_ret].
Qed.

Lemma front_apply_diffs l role n reset rebalance from now age diffs : keeps (front l role n) (apply_diffs reset rebalance from now age diffs).
Proof.
  induction diffs as [|d diffs IH]; cbn [apply_diffs]; [apply keeps_ret|].
  apply keeps_bind; [|intros b; apply keeps_bind; [done|intros b'; apply keeps_ret]].
  unfold apply_diff. destruct (ch_type d).
  - apply keeps_bind; [apply front_put_range|intros _]. apply keeps_bind; [by apply keeps_when, keeps_modify|intros _].
    destruct (isMatured _ _ _); [apply keeps_ret|]. apply keeps_bind; [by apply keeps_modify|intros _; apply keeps_ret].
  - apply keeps_bind; [|intros _; apply keeps_ret]. apply keeps_modify. intros s Hs. unfold cancel_maturity.
    destruct (Map_get _ _) as [m|]; [|done]. by destruct (Map_delete m _).
  - apply keeps_ret.
Qed.

Lemma front_add l role n rs from ao age now : reads age -> keeps (front l role n) (addReplicationRange o rs from ao age now).
Proof.
  intros Hage. unfold addReplicationRange. destruct (match isTrustedReplicator o with Some f => negb (f from) | None => false end); [apply keeps_ret|].
  apply keeps_bind; [|intros [diffs isNew]].
  { destruct (ao_reset ao).
    - unfold diffs_reset. apply keeps_bind; [apply front_query_all|intros d]. apply keeps_bind; [apply front_delete_ranges|intros _; apply keeps_ret].
    - unfold diffs_added. apply keeps_bind; [apply front_existing|intros found]. apply keeps_bind; [|intros b].
      { destruct found; [|apply keeps_ret]. apply keeps_bind; [apply keeps_gets|intros i]. apply keeps_bind; [apply keeps_lift|intros c; apply keeps_ret]. }
      apply keeps_bind; [destruct (ao_checkDuplicates ao); [apply front_deduplicate|apply keeps_ret]|intros rs'; apply keeps_ret]. }
  apply keeps_bind; [by apply keeps_modify|intros _].
  apply keeps_bind; [intros s Hs; destruct (Hage s) as (a & ->); exact Hs|intros a].
  apply keeps_bind; [apply front_apply_diffs|intros mature]. apply keeps_bind; [apply keeps_when, front_oldest|intros _].
  apply keeps_bind; [by apply keeps_modify|intros _].
  apply keeps_bind; [apply keeps_when, keeps_bind; [by apply keeps_modify|intros _; by apply keeps_when, keeps_modify]|intros _].
  apply keeps_bind; [apply keeps_when, keeps_forM; intros c; by apply keeps_modify|intros _].
  apply keeps_bind; [|intros _; apply keeps_ret]. apply keeps_when, keeps_modify.
  intros s (H1' & H2' & H3'). split; [done|]. split; [done|]. simpl. lia.
Qed.

(** ** One announcement of the node *)

Definition reset_changes (ts : Z) (deleted rs : list Range) : list ReplicationChange :=
  map (removed_change ts) deleted ++ map (fun x => MkChange (added false) x ts) rs.

Lemma reset_changes_added ts deleted rs :
  added_ranges (reset_changes ts deleted rs) = rs /\ map ch_range (List.filter not_removed (reset_changes ts deleted rs)) = rs.
Proof.
  unfold added_ranges, reset_changes. rewrite !List.filter_app.
  assert (E1 : forall l, List.filter is_added (map (removed_change ts) l) = []) by (intros l; induction l; simpl; done).
  assert (E2 : forall l, List.filter not_removed (map (removed_change ts) l) = []) by (intros l; induction l; simpl; done).
  assert (E3 : forall l, List.filter is_added (map (fun x => MkChange (added false) x ts) l) = map (fun x => MkChange (added false) x ts) l)
    by (intros l; induction l as [|x l IH]; simpl; congruence).
  assert (E4 : forall l, List.filter not_removed (map (fun x => MkChange (added false) x ts) l) = map (fun x => MkChange (added false) x ts) l)
    by (intros l; induction l as [|x l IH]; simpl; congruence).
  rewrite E1, E2, E3, E4. simpl. rewrite map_map. split; apply map_id.
Qed.

(** All the ranges of the node are replaced by [rs]; the message holds them. *)
Lemma announce_reset rs rebalance check announce now l role n s :
  rep_ok o s -> front l role n s -> Forall (proper t (myHash o)) rs -> rs <> [] -> NoDup (map r_id rs) ->
  (forall x, x ∈ ranges (replicationIndex s) -> r_id x ∈ map r_id rs -> r_hash x = myHash o) ->
  trusted o (publicKey_ o) = true ->
  let message := AllReplicatingSegmentsMessage (map toReplicationRange rs) in
  exists s', startAnnounceReplicating o rs (MkAddOptions true check None rebalance) (minRoleAge_ env) announce now s =
      (Val (if announce then Some message else None), s') /\
    rep_ok o s' /\ (forall x, x ∈ ranges (replicationIndex s') <-> x ∈ rs \/ x ∈ ranges (replicationIndex s) /\ r_hash x <> myHash o) /\
    front (if announce then l else l ++ [(message, Everyone)]) role n s'.
Proof.
  intros [Hok Ht] Hf Hrs Hne Hnd Hids Htr message. set (ao := MkAddOptions true check None rebalance).
  set (deleted := List.filter (fun r => bool_decide (r_hash r = myHash o)) (ranges (replicationIndex s))).
  destruct (owner_delete o (myHash o) s Hok) as (i & Ei & Hi & Hin).
  assert (Ed : exists isNew, diffs_reset rs (publicKey_ o) now s = (Val (reset_changes now deleted rs, isNew), set_replicationIndex i s)).
  { unfold diffs_reset. change (QLRecord (JObj [("hash"%string, JStr (hashcode (publicKey_ o)))])) with (hash_record (myHash o)).
    unfold bindM at 1. rewrite (owner_query_all o (myHash o) s Hok). unfold bindM at 1. rewrite Ei. by eexists. }
  destruct Ed as (isNew & Ed). destruct (reset_changes_added now deleted rs) as [Ea En].
  assert (Hprop : forall r, r ∈ rs -> range_ok t r) by (intros r Hr; rewrite Forall_forall in Hrs; by apply Hrs).
  destruct (apply_all o rs (publicKey_ o) ao (minRoleAge_ env) now s _ _ isNew Htr (env_age Henv) Ed Hi) as (s1 & E & Hok1 & Eu & P1 & P2 & P3);
    [intros r; rewrite Ea; apply Hprop|]. rewrite Ea in P1, P2, P3. cbn [set_replicationIndex replicationIndex uniqueReplicators_] in P1, P2, Eu.
  pose proof (front_add l role n rs (publicKey_ o) ao (minRoleAge_ env) now (env_age Henv) s Hf) as Hf1. rewrite E in Hf1. cbn [snd] in Hf1.
  assert (Hex : forall x, x ∈ ranges (replicationIndex s1) <-> x ∈ rs \/ x ∈ ranges (replicationIndex s) /\ r_hash x <> myHash o).
  { intros x. split.
    - intros [Hx|[Hx _]]%P1; [by left|right; by apply Hin].
    - intros [Hx|[Hx Hh]]; [by apply P3|]. apply P2; [by apply Hin|]. intros Hi'. by apply Hh, Hids. }
  assert (Hok1' : rep_ok o s1).
  { split; [done|]. intros r Hr. rewrite Eu. apply Set_add_elem. apply Hex in Hr as [Hr|[Hr _]]; [left|right; by apply Ht].
    rewrite Forall_forall in Hrs. by apply Hrs. }
  unfold startAnnounceReplicating, bindM. rewrite E. destruct (List.filter not_removed _) as [|c cs] eqn:Ef; [by rewrite <- En in Hne|].
  assert (Em : map (fun x => toReplicationRange (ch_range x)) (c :: cs) = map toReplicationRange rs) by (rewrite <- En; by rewrite map_map).
  rewrite Em. cbn [ao ao_reset]. destruct announce.
  - exists s1. by split_and!.
  - eexists. split; [done|]. split; [exact Hok1'|]. split; [exact Hex|]. destruct Hf1 as (F1 & F2 & F3). split; [|by split]. cbn. by rewrite F1.
Qed.

(** One stored range of the node gets new arcs. *)
Lemma announce_one prev x now l role n s :
  rep_ok o s -> front l role n s -> proper t (myHash o) x -> prev ∈ ranges (replicationIndex s) -> r_id x = r_id prev ->
  trusted o (publicKey_ o) = true ->
  let message := AddedReplicationSegmentMessage [toReplicationRange prev; toReplicationRange x] in
  exists s', startAnnounceReplicating o [x] (MkAddOptions false false None true) (minRoleAge_ env) false now s = (Val None, s') /\
    rep_ok o s' /\
    (forall y, y ∈ ranges (replicationIndex s') <-> y = (if equalRange prev x then prev else x) \/ y ∈ ranges (replicationIndex s) /\ r_id y <> r_id x) /\
    front (if equalRange prev x then l else l ++ [(message, Everyone)]) role n s'.
Proof.
  intros [Hok Ht] Hf Hx Hprev Hid Htr message. set (ao := MkAddOptions false false None true).
  pose proof (diffs_one o prev x s Hok Hprev Hid) as Ed. set (diffs := if equalRange prev x then _ else _) in Ed.
  assert (Ea : added_ranges diffs = if equalRange prev x then [] else [x]) by (unfold diffs; by destruct (equalRange prev x)).
  destruct (apply_all o [x] (publicKey_ o) ao (minRoleAge_ env) now s s diffs false Htr (env_age Henv) Ed Hok) as (s1 & E & Hok1 & Eu & P1 & P2 & P3).
  { rewrite Ea. intros r. destruct (equalRange prev x); [by intros []%not_elem_of_nil|]. intros ->%list_elem_of_singleton. apply Hx. }
  rewrite Ea in P1, P2, P3.
  pose proof (front_add l role n [x] (publicKey_ o) ao (minRoleAge_ env) now (env_age Henv) s Hf) as Hf1. rewrite E in Hf1. cbn [snd] in Hf1.
  assert (Hex : forall y, y ∈ ranges (replicationIndex s1) <->
            y = (if equalRange prev x then prev else x) \/ y ∈ ranges (replicationIndex s) /\ r_id y <> r_id x).
  { intros y. destruct (equalRange prev x).
    - transitivity (y ∈ ranges (replicationIndex s)).
      + split; [by intros [[]%not_elem_of_nil|[? _]]%P1|]. intros Hy. apply P2; [done|]. by intros ?%not_elem_of_nil.
      + split; [|by intros [->|[? _]]]. intros Hy. destruct (decide (r_id y = r_id x)) as [Ey|]; [left|by right].
        apply (same_id_same o _ y prev Hok Hy Hprev). congruence.
    - cbn [map] in P1, P2. split.
      + intros [->%list_elem_of_singleton|[Hy Hn]]%P1; [by left|right]. split; [done|]. intros Ey. apply Hn. rewrite Ey. by left.
      + intros [->|[Hy Hn]]; [apply P3; [apply NoDup_singleton|by left]|]. apply P2; [done|]. by intros ?%list_elem_of_singleton. }
  assert (Hok1' : rep_ok o s1).
  { split; [done|]. intros r Hr. rewrite Eu. apply Set_add_elem. apply Hex in Hr as [->|[Hr _]]; [|right; by apply Ht].
    destruct (equalRange prev x); [right; by apply Ht|left; apply Hx]. }
  unfold startAnnounceReplicating, bindM. rewrite E. unfold diffs in *. destruct (equalRange prev x); cbn [List.filter not_removed ch_type].
  - exists s1. by split_and!.
  - eexists. split; [done|]. split; [exact Hok1'|]. split; [exact Hex|]. destruct Hf1 as (F1 & F2 & F3). split; [|by split]. cbn. by rewrite F1.
Qed.

End Facts.

(** ** The steps of a participating node *)

Section Steps.
Context {I St : Type} `{JsEnv, !JsEnvLaws, Hashing, Document Range, !RangeDocument, Index I St Range, !IndexLaws I St Range,
  !IndexStore I Range, !IndexStoreLaws I St Range}.
Context (o : Options) (env : Environment (I := I)).
Abbreviation Node := (Participation (I := I)).
Implicit Types s : Node.

(** The steps of ReplicationSteps; [replicate] with options whose coordinates lie
    on the ring; the rebalancing of a dynamic range.  No one else has announced a
    range under the id of the node's dynamic range ([foreign_id_takes_range]); and
    where the domain merges new ranges with stored ones, those of the node
    start inside the ring. *)
Inductive participation_step : Node -> Node -> Prop :=
| step_log l s : rep_step o (log_ s) l -> participation_step s (MkParticipation l (replicationController s))
| step_replicate x opt draws now s :
    own_dynamic o env (log_ s) -> merge_inside o env opt (log_ s) -> clock_ok now -> options_valid o (replicate_options x) draws ->
    participation_step s (replicate o env x opt draws now s).2
| step_rebalance closed_ memory cpu now s :
    own_dynamic o env (log_ s) -> clock_ok now -> participation_step s (rebalanceParticipation o env closed_ memory cpu now s).2.

Lemma participation_step_ok s s' : env_ok env -> dynamic_valid o (openOptions env) -> participation_step s s' -> node_ok o s -> node_ok o s'.
Proof.
  intros Henv Hd Hs Hok. destruct Hs as [l s Hl|x opt draws now s Hown Hin Hn Hv|closed_ memory cpu now s Hown Hn].
  - by apply (rep_step_ok o (log_ s)).
  - by apply replicate_ok.
  - by apply rebalance_ok.
Qed.

Lemma participation_steps_ok s s' : env_ok env -> dynamic_valid o (openOptions env) -> rtc participation_step s s' -> node_ok o s -> node_ok o s'.
Proof. intros Henv Hd Hs. induction Hs as [|a b c Hab _ IH]; [done|]. intros Ha. apply IH. by apply (participation_step_ok a). Qed.
End Steps.

(** C18. Every owner of a stored range counts as a replicator, in every state that a
    node reaches from an empty index by replicating with options of any kind, in
    domains that merge ranges with stored ones (canMerge) as well as in those that
    do not, by resizing its dynamic range, and through messages about ranges in any
    order and of any age (also ones that fail on the way), removed peers,
    unreplicate and the timers of ranges that mature. Conditions: coordinates given,
    and the offset of a dynamic range, lie on the ring; times are 64 bit numbers;
    computing the role age changes nothing; a range stored under the id of the
    node's dynamic range is the node's own when it replicates or resizes; and when
    ranges are merged with stored ones, the stored ranges of the node start inside
    the ring. *)
Theorem participants_tracked {I St : Type} `{JsEnv, !JsEnvLaws, Hashing, Document Range, !RangeDocument, Index I St Range,
    !IndexLaws I St Range, !IndexStore I Range, !IndexStoreLaws I St Range} (o : Options) (env : Environment (I := I)) (i : I) (now : Z)
    (s : Participation (I := I)) (Henv : env_ok env) (Hd : dynamic_valid o (openOptions env)) (Hi : store_ok o i) (He : ranges i = [])
    (Hs : rtc (participation_step o env) (MkParticipation (opened i now) None) s) :
  store_ok o (replicationIndex (log_ s)) /\
  forall r, r ∈ ranges (replicationIndex (log_ s)) -> r_hash r ∈ uniqueReplicators_ (log_ s).
Proof. exact (participation_steps_ok o env _ s Henv Hd Hs (opened_ok o i now Hi He)). Qed.

(** C20. Replicating a share of the ring without an offset and without an id replaces
    what the node replicated before: its one range is then the new one, of the width
    asked for at a random place; the ranges of the others stay, the node is a fixed
    replicator, and all of it is announced (or the message returned, for a caller
    that announces it). Conditions: the factor is not zero and gives coordinates of
    the ring, merging is not asked for or the domain has no canMerge, the node is a
    trusted replicator, and the random id is new. *)
Theorem replicate_factor_replaces {I St : Type} `{JsEnv, !JsEnvLaws, Hashing, Document Range, !RangeDocument, Index I St Range,
    !IndexLaws I St Range, !IndexStore I Range, !IndexStoreLaws I St Range} (o : Options) (env : Environment (I := I))
    (arg : FixedReplicationOptions) (opt : ReplicateOptions) (draws : nat -> Draw) (now : Z) (r : Range)
    (s : Participation (I := I)) (Hok : node_ok o s) (Henv : env_ok env) (Hmerge : mergeSegments_ opt = true -> canMerge_ env = None) (Hn : clock_ok now) (Htr : trusted o (publicKey_ o) = true)
    (Hoff : fo_offset arg = None) (Hid : fo_id arg = None) (Hun : isUnreplicationOptions (OptFixed arg) = false)
    (Hv : arg_valid o arg (draws 0%nat)) (Hr : range_of_option o arg None (draws 0%nat) now = Val r)
    (Hfresh : forall x, x ∈ ranges (replicationIndex (log_ s)) -> r_id x <> draw_bytes (draws 0%nat)) :
  let message := AllReplicatingSegmentsMessage [toReplicationRange r] in
  exists s', _replicate o env (OptFixed arg) opt draws now s = (Val ([r], if announce_ opt then Some message else None), s') /\
    (forall x, x ∈ ranges (replicationIndex (log_ s')) <-> x = r \/ x ∈ ranges (replicationIndex (log_ s)) /\ r_hash x <> myHash o) /\
    (isReplicating_ (log_ s'), isAdaptiveReplicating (log_ s')) = (Some true, Some false) /\
    outbox (log_ s') = (if announce_ opt then outbox (log_ s) else outbox (log_ s) ++ [(message, Everyone)]) /\
    r_timestamp r = now /\ r_mode r = (if fo_strict arg then Strict else NonStrict) /\ proper (resolution_ o) (myHash o) r.
Proof.
  intros message. destruct (range_of_option_proper o arg None _ now r Hv Hn ltac:(done) Hr) as (Hp & Hne & Ei & Et & Em).
  unfold _replicate. rewrite Hun. unfold bindM at 1, on_log at 1, modify at 1.
  set (l1 := set_role (Some true) (Some false) (log_ s)).
  assert (Eargs : range_args o [arg] draws 0 now l1 = (Val [r], l1)).
  { cbn [range_args]. unfold range_arg. rewrite Hid. unfold bindM, ret, lift. cbn [fmap option_fmap option_map]. by rewrite Hr. }
  assert (Emerge : (if mergeSegments_ opt
            then bindM (merge_segments o (canMerge_ env) [r] (draw_bytes (draws (length [arg]))) (draw_bytes (draws (S (length [arg])))))
                   (fun m => ret ([m.1], m.2))
            else ret ([r], [])) l1 = (Val ([r], []), l1)).
  { destruct (mergeSegments_ opt); [|done]. unfold merge_segments, merge_existing. by rewrite Hmerge. }
  unfold replicate_fixed. unfold on_log at 1. unfold bindM at 1. cbn [log_]. rewrite Eargs. unfold bindM at 1. rewrite Emerge. cbn [fst snd].
  assert (Eoff : offset_provided [arg] = false) by (unfold offset_provided; cbn [last]; by rewrite Hoff).
  rewrite Eoff. unfold announce_ranges. cbn [forM]. unfold bindM at 1. unfold bindM at 1, modify at 1, ret at 1. cbv zeta.
  rewrite orb_true_r. unfold bindM at 1, whenM at 1, ret at 1.
  set (l2 := set_oldestOpenTime _ l1).
  destruct (announce_reset o env Henv [r] (default true (rebalance_ opt)) (checkDuplicates_ opt) (announce_ opt) now
    (outbox (log_ s)) (Some true, Some false) 0 l2) as (l3 & E & Hok3 & Hin & Hf); [exact Hok|by split; [|split; [|cbn; lia]]|by constructor|done|by apply NoDup_singleton| |done|].
  { intros x Hx [Ex|[]%not_elem_of_nil]%elem_of_cons. exfalso. apply (Hfresh x Hx). by rewrite Ex, Ei, Hid. }
  unfold bindM at 1. rewrite E. unfold bindM, whenM, ret. eexists. split; [done|]. cbn [log_]. split; [|split_and!; try done; apply Hf].
  intros x. rewrite Hin. by rewrite list_elem_of_singleton.
Qed.

(** C19. In an open log, a dynamic replicator that trusts itself to replicate, has a
    controller and stores a range of its own under its dynamic id follows the
    controller: when the factor it computes (from the memory and CPU use and the
    coverage given) differs from the width of the range by more than a ten
    thousandth of that width, the range keeps its id, its start, its timestamp and
    its mode and gets the width of that factor, no wider than the ring; a smaller
    difference leaves it. All other ranges stay, and the next rebalancing is
    scheduled either way. The factor is one that can be turned into a width. *)
Theorem rebalance_resizes {I St : Type} `{JsEnv, !JsEnvLaws, Hashing, Document Range, !RangeDocument, Index I St Range,
    !IndexLaws I St Range, !IndexStore I Range, !IndexStoreLaws I St Range} (o : Options) (env : Environment (I := I))
    (c : PIDReplicationController) (r : Range) (participation : QArith_base.Q) (memory : number) (cpu : option number) (now : Z)
    (s : Participation (I := I)) (Hok : node_ok o s) (Henv : env_ok env) (Htr : trusted o (publicKey_ o) = true)
    (Hrole : (isReplicating_ (log_ s), isAdaptiveReplicating (log_ s)) = (Some true, Some true)) (Hc : replicationController s = Some c)
    (Hr : r ∈ ranges (replicationIndex (log_ s))) (Hid : r_id r = dynamicRangeId_ env) (Hp : proper (resolution_ o) (myHash o) r)
    (Hq : appromixateCoverage (replicationIndex (log_ s)) (resolution_ o) 25 (createNumbers (resolution_ o)) false = Val participation)
    (width : Z) (r' : Range) :
  let peers := of_Z (Z.of_nat (length (ranges (replicationIndex (log_ s))))) in
  let '(factor, c') := Factors.step c (MkMeasures memory (widthNormalized r) (quotient_n participation) peers cpu) in
  let differs := lt_n (decimal 1 4) (Math_abs (widthNormalized r - factor) / widthNormalized r)%n in
  denormalize (resolution_ o) factor = Val width -> resized o r width = Val r' ->
  exists s', rebalanceParticipation o env false memory cpu now s = (Val (Some differs), s') /\
    replicationController s' = Some c' /\ (rebalances (log_ s) < rebalances (log_ s'))%nat /\
    (forall x, x ∈ ranges (replicationIndex (log_ s')) <->
       x = (if differs && negb (equalRange r r') then r' else r) \/ x ∈ ranges (replicationIndex (log_ s)) /\ r_id x <> r_id r) /\
    (r_id r' = r_id r /\ r_start1 r' = r_start1 r /\ r_timestamp r' = r_timestamp r /\ r_mode r' = r_mode r /\
     r_width r' = width /\ width <= ring (resolution_ o)).
Proof.
  intros peers. destruct (Factors.step c _) as [factor c'] eqn:Es. intros differs Hw Hr'.
  pose proof (denormalize_le _ _ _ Hw) as Hle. destruct (resized_proper o r width r' Hp Hle Hr') as (Hp' & Ei & E1 & Ew & Et & Em).
  unfold rebalanceParticipation. unfold bindM at 1, gets at 1. rewrite Hrole. cbn [fst snd default from_option orb negb id].
  assert (Edyn : getDynamicRange o (dynamicRangeId_ env) (openOptions env) (minRoleAge_ env) now (log_ s) = (Val (Some r), log_ s)).
  { unfold getDynamicRange, bindM at 1. destruct Hok as [Hst Ht].
    rewrite (query_all_spec o (QLMany [new_ByteMatchQuery "id"%string (dynamicRangeId_ env)]) [new_ByteMatchQuery "id"%string (dynamicRangeId_ env)]
               (fun r => bool_decide (r_id r = dynamicRangeId_ env))); [|exact Hst|done|].
    2:{ intros x. rewrite sat_single, covered_single. apply sat_id. }
    destruct (List.filter _ _) as [|x l] eqn:Ef.
    - assert (r ∈ List.filter (fun r => bool_decide (r_id r = dynamicRangeId_ env)) (ranges (replicationIndex (log_ s)))) as Hin
        by (apply elem_of_List_filter; split; [done|by apply bool_decide_eq_true]). rewrite Ef in Hin. by apply not_elem_of_nil in Hin.
    - unfold ret. assert (x ∈ List.filter (fun r => bool_decide (r_id r = dynamicRangeId_ env)) (ranges (replicationIndex (log_ s)))) as Hin by (rewrite Ef; by left).
      apply elem_of_List_filter in Hin as [Hx Ex%bool_decide_eq_true]. do 3 f_equal. apply (same_id_same o _ x r Hst Hx Hr). congruence. }
  unfold bindM at 1, on_log at 1. rewrite Edyn. unfold bindM at 1, gets at 1. cbn [log_].
  destruct (length (ranges (replicationIndex (log_ s)))) as [|n] eqn:El.
  { destruct (ranges (replicationIndex (log_ s))); [by apply not_elem_of_nil in Hr|done]. }
  cbn [Nat.eqb]. unfold bindM at 1, on_log at 1, calculateTotalParticipation. unfold bindM at 1, gets at 1. unfold bindM at 1, lift at 1.
  cbn [log_]. rewrite Hq. unfold ret at 1. unfold bindM at 1, gets at 1. cbn [replicationController]. rewrite Hc.
  fold peers. rewrite Es. unfold bindM at 1, modify at 1. cbv zeta. fold differs. cbn [set_controller log_].
  assert (Hf : front (outbox (log_ s)) (Some true, Some true) (rebalances (log_ s)) (log_ s)) by (split; [done|split; [done|lia]]).
  destruct differs.
  - unfold bindM at 1, lift at 1. rewrite Hw. unfold bindM at 1, lift at 1. rewrite Hr'. rewrite Htr. cbn [negb].
    destruct (announce_one o env Henv r r' now _ _ _ (log_ s) Hok Hf Hp' Hr Ei Htr) as (l & E & Hok' & Hin & Hf').
    unfold bindM at 1, on_log at 1. cbn [log_ set_controller]. rewrite E. unfold bindM, on_log, rebalanceParticipationDebounced, modify, ret.
    eexists. split; [done|]. cbn [log_ replicationController set_controller count_rebalance rebalances replicationIndex]. split; [done|]. destruct Hf' as (_ & _ & Hn). split; [lia|].
    split; [|by split_and!]. intros x. rewrite Hin, Ei. by destruct (equalRange r r').
  - unfold bindM, on_log, rebalanceParticipationDebounced, modify, ret. eexists. split; [done|].
    cbn [log_ replicationController set_controller count_rebalance rebalances replicationIndex]. split; [done|]. split; [lia|]. split; [|by split_and!].
    intros x. cbn [andb]. split; [|by intros [->|[? _]]]. intros Hx. destruct (decide (r_id x = r_id r)) as [Ex|]; [left|by right].
    destruct Hok as [Hst _]. by apply (same_id_same o _ x r Hst Hx Hr).
Qed.

(** "all" is not a number: on a ring of 64 bits a range of the whole ring cannot
    be asked for with [normalized], its default (finding). *)
Lemma factor_all_u64 `{Hashing} (o : Options) (arg : FixedReplicationOptions) (d : Draw) (offset : Z) :
  resolution_ o = U64 -> fo_factor arg = FactorAll -> range_width o arg true offset = Exn "RangeError".
Proof. intros E1 E2. unfold range_width. by rewrite E1, E2. Qed.
