(* ===== verification/Replication.v ===== *)
(** * How many replicas an entry wants
    (packages/programs/data/shared-log/src/replication.ts, utils.ts and index.ts)

    The replication degree is stored in the [data] field of an entry's metadata,
    as the serialisation of a [MinReplicas]; borsh's [serialize] and
    [deserialize] are [ReplicasCodec].  The degree of a group of entries
    ([maxReplicas]), the degree of a new entry ([getClampedReplicas]), the check
    that lets an entry in ([canAppend]), and the grouping of entries by gid. *)

From Stdlib Require Import ZArith Lia.
From stdpp Require Import base list strings.
From S2P Require Import Prelude JsMap Clock LogSorting EntryIndex Log ExchangeHeads.

Local Open Scope Z_scope.

(** The abstract class, whose [getValue] throws, and its one subclass. *)
Inductive MinReplicas := AbstractMinReplicas | AbsoluteReplicas (_value : Z).

#[export] Instance MinReplicas_eq_dec : EqDecision MinReplicas.
Proof. solve_decision. Defined.

Definition getValue (m : MinReplicas) : outcome Z :=
  match m with AbstractMinReplicas => Exn "Not implemented" | AbsoluteReplicas v => Val v end.

(** borsh: a [u32] behind the variant [0]; other bytes are refused with a
    [BorshError]. *)
Class ReplicasCodec := {
  serialize : MinReplicas -> outcome (list Z);
  deserialize : list Z -> outcome MinReplicas;
}.

Definition BorshError : string := "BorshError".
Definition ReplicationError : string := "ReplicationError".

Class ReplicasCodecLaws `{ReplicasCodec} : Prop := {
  law_serialize v : 0 <= v <= UINT32_MAX -> exists b, serialize (AbsoluteReplicas v) = Val b /\ deserialize b = Val (AbsoluteReplicas v);
  law_deserialize b : match deserialize b with
                      | Val m => exists v, m = AbsoluteReplicas v /\ 0 <= v <= UINT32_MAX
                      | Exn e => e = BorshError
                      | NoFuel => False
                      end;
}.

Record ReplicationLimits := MkReplicationLimits { limit_min : MinReplicas; limit_max : option MinReplicas }.

Section Replication.
Context `{ReplicasCodec}.

Definition encodeReplicas (minReplicas : MinReplicas) : outcome (list Z) := serialize minReplicas.

Definition decodeReplicas (data : option (list Z)) : outcome MinReplicas :=
  match data with None => Exn ReplicationError | Some d => deserialize d end.

(** [x || 1] and [x ?? MAX_SAFE_INTEGER]. *)
Definition or_one (z : Z) : Z := if z =? 0 then 1 else z.

Definition replicas_of (data : option (list Z)) : outcome Z := m ← decodeReplicas data; getValue m.

Definition maxReplicas (limits : ReplicationLimits) (datas : list (option (list Z))) : outcome Z :=
  max ← foldM (fun max d => v ← replicas_of d; Val (Z.max v max)) 0 datas;
  lower ← getValue (limit_min limits);
  higher ← (match limit_max limits with Some m => getValue m | None => Val MAX_SAFE_INTEGER end);
  Val (Z.max (Z.min higher max) (or_one lower)).

Definition getClampedReplicas (limits : ReplicationLimits) (customValue : option MinReplicas) : outcome MinReplicas :=
  match customValue with
  | None => Val (limit_min limits)
  | Some m =>
      min ← getValue m;
      lower ← getValue (limit_min limits);
      let maxValue := Z.max lower min in
      match limit_max limits with
      | Some h => higher ← getValue h; Val (AbsoluteReplicas (Z.min maxValue higher))
      | None => Val (AbsoluteReplicas maxValue)
      end
  end.

Definition checkMinReplicasLimit (minReplicas : Z) : outcome unit :=
  throw_if (100 <? minReplicas) "Higher replication degree than 100 is not recommended for performance reasons".

(** [try { ... } catch (error)]: the two kinds of error that are swallowed.
    [verified] is what [entry.verifySignatures()] answers. *)
Definition canAppend (createdLocally : bool) (verified : outcome bool) (m : Meta) : outcome bool :=
  match meta_data m with
  | None => Val false
  | Some _ =>
      match (replicas ← replicas_of (meta_data m); _ ← checkMinReplicasLimit replicas;
             if createdLocally then Val true else ok ← verified; Val (ok : bool)) with
      | Exn e => if bool_decide (e = BorshError) || bool_decide (e = ReplicationError) then Val false else Exn e
      | r => r
      end
  end.

End Replication.

(** ** Groups of entries *)

(** [value.push(head)] on the group of the gid. *)
Definition group_push {T} (gid_of : T -> string) (groups : list (string * list T)) (head : T) : list (string * list T) :=
  Map_set groups (gid_of head) (default [] (Map_get groups (gid_of head)) ++ [head]).

Definition groupByGid {T} (gid_of : T -> string) (entries : list T) : list (string * list T) :=
  fold_left (group_push gid_of) entries [].

Definition later (latest : option Entry) (e : Entry) : option Entry :=
  match latest with
  | None => Some e
  | Some l => if 0 <? compare (lc_timestamp (meta_clock (en_meta e))) (lc_timestamp (meta_clock (en_meta l))) then Some e else latest
  end.

Definition getLatestEntry (entries : list EntryWithRefs) : option Entry :=
  fold_left later (map ewr_entry entries) None.

(** ** Facts *)

Section Facts.
Context `{ReplicasCodec, !ReplicasCodecLaws}.

Lemma replicas_of_cases d : (exists v, replicas_of d = Val v /\ 0 <= v <= UINT32_MAX) \/ replicas_of d = Exn BorshError \/ replicas_of d = Exn ReplicationError.
Proof.
  unfold replicas_of, decodeReplicas. destruct d as [d|]; [|by right; right]. pose proof (law_deserialize d) as Hd.
  destruct (deserialize d) as [m|e|]; [|right; left; by rewrite Hd|done]. destruct Hd as (v & -> & Hv). left. by exists v.
Qed.

(** The highest degree of some entries. *)
Lemma max_of_replicas datas vs acc :
  Forall2 (fun d v => replicas_of d = Val v) datas vs ->
  foldM (fun max d => v ← replicas_of d; Val (Z.max v max)) acc datas = Val (fold_left (fun max v => Z.max v max) vs acc).
Proof.
  intros Hf. revert acc. induction Hf as [|d v datas vs E _ IH]; intros acc; [done|]. cbn [foldM fold_left].
  rewrite E. cbn [mbind outcome_bind]. apply IH.
Qed.

Lemma fold_max_spec vs acc : acc <= fold_left (fun max v => Z.max v max) vs acc /\
  Forall (fun v => v <= fold_left (fun max v => Z.max v max) vs acc) vs /\
  (fold_left (fun max v => Z.max v max) vs acc = acc \/ fold_left (fun max v => Z.max v max) vs acc ∈ vs).
Proof.
  revert acc. induction vs as [|v vs IH]; intros acc; cbn [fold_left].
  { split; [lia|]. split; [done|by left]. }
  destruct (IH (Z.max v acc)) as (H1 & H2 & H3). split; [lia|]. split; [constructor; [lia|done]|].
  destruct H3 as [E|E]; [|right; by right]. rewrite E. destruct (Z.max_spec v acc) as [[_ ->]|[_ ->]]; [by left|right; by left].
Qed.

End Facts.

(** The degree an entry is given is the degree it is read with: what
    [getClampedReplicas] makes of a requested degree lies within the limits and,
    encoded into an entry and decoded again, is what [maxReplicas] answers for that
    entry; of several entries it answers the highest degree within the limits,
    which is always at least the lower and at most the higher one. *)
Theorem degree_roundtrip `{ReplicasCodec, !ReplicasCodecLaws} (lower higher v : Z) (datas : list (option (list Z))) (vs : list Z)
    (Hl : 1 <= lower <= higher) (Hh : higher <= UINT32_MAX) (Hvs : Forall2 (fun d v => replicas_of d = Val v) datas vs) :
  let limits := MkReplicationLimits (AbsoluteReplicas lower) (Some (AbsoluteReplicas higher)) in
  let degree := Z.min (Z.max lower v) higher in
  getClampedReplicas limits (Some (AbsoluteReplicas v)) = Val (AbsoluteReplicas degree) /\ lower <= degree <= higher /\
  (exists data, encodeReplicas (AbsoluteReplicas degree) = Val data /\ maxReplicas limits [Some data] = Val degree) /\
  (exists max, maxReplicas limits datas = Val (Z.max (Z.min higher max) lower) /\
     Forall (fun v => v <= max) vs /\ (max = 0 \/ max ∈ vs)).
Proof.
  intros limits degree. assert (Hd : lower <= degree <= higher) by (unfold degree; lia). split; [done|]. split; [done|].
  assert (Hmax : forall datas vs, Forall2 (fun d v => replicas_of d = Val v) datas vs ->
     maxReplicas limits datas = Val (Z.max (Z.min higher (fold_left (fun max v => Z.max v max) vs 0)) lower)).
  { intros datas' vs' E. unfold maxReplicas. rewrite (max_of_replicas datas' vs' 0 E).
    cbn [mbind outcome_bind limits limit_min limit_max getValue or_one]. unfold or_one. by rewrite (proj2 (Z.eqb_neq lower 0)) by lia. }
  split.
  - destruct (law_serialize degree) as (data & E & Ed); [lia|]. exists data. split; [exact E|].
    rewrite (Hmax [Some data] [degree]); [cbn [fold_left]; f_equal; lia|].
    constructor; [|constructor]. unfold replicas_of, decodeReplicas. by rewrite Ed.
  - destruct (fold_max_spec vs 0) as (_ & Hall & Hin). eexists. split; [by apply Hmax|]. by split.
Qed.
