(* ===== verification/SharedLog.v ===== *)
(** * The state of a shared log, and who leads an entry
    (packages/programs/data/shared-log/src/index.ts, part 2)

    [SharedLog] puts the parts together: the replicators, the index of entries
    with their coordinates, the log, the synchroniser, the peers each gid has been
    sent to, and what is under way to prune entries.  An asynchronous wait for
    leaders is a [Waiter] with what runs after it as data ([Continuation]).  The
    methods of this file find the leaders of an entry and keep its coordinates. *)

From Stdlib Require Import ZArith Lia.
From stdpp Require Import base list strings.
From S2P Require Import Prelude JsMap Cache Clock JsVal Query IndexInterface IndexStore Integers LogSorting EntryIndex Trim Log ExchangeHeads Ranges RangeQueries RangeIterators Rebalance SimpleSync Effects Replicators Replication.

Local Open Scope Z_scope.
Local Open Scope effects_scope.

(** What these methods look at in an entry, full, shallow or replicated. *)
Record EntryRef := MkEntryRef { ref_hash : string; ref_meta : Meta }.

Definition meta_of_shallow (m : ShallowMeta) : Meta :=
  MkMeta (smeta_clock m) (smeta_gid m) (smeta_next m) (smeta_type m) (smeta_data m).

Definition ref_of_entry (e : Entry) : EntryRef := MkEntryRef (en_hash e) (en_meta e).
Definition ref_of_shallow (e : ShallowEntry) : EntryRef := MkEntryRef (se_hash e) (meta_of_shallow (se_meta e)).
Definition ref_of_replicated (e : EntryReplicated) : EntryRef := MkEntryRef (er_hash e) (er_meta e).

(** Leaders with their [intersecting] flags; [None] is [false]. *)
Abbreviation Leaders := (list (string * bool)).

(** ** The interface of synchronisers (sync/index.ts) *)

Class Syncronizer (Sy : Type) `{Hashing} := {
  sync_onMaybeMissingEntries : Sy -> list (string * EntryReplicated) -> list string -> Sy * list SyncSend;
  sync_onReceivedEntries : Sy -> list string -> PublicSignKey -> Sy;
  sync_onEntryAdded : Sy -> string -> Sy;
  sync_onEntryRemoved : Sy -> string -> Sy;
  sync_onPeerDisconnected : Sy -> PublicSignKey -> Sy;
}.

#[export] Instance simple_Syncronizer `{Hashing} : Syncronizer SimpleSyncronizer := {
  sync_onMaybeMissingEntries s entries targets := (s, [onMaybeMissingEntries entries targets]);
  sync_onReceivedEntries := onReceivedEntries;
  sync_onEntryAdded := SimpleSync.onEntryAdded;
  sync_onEntryRemoved := SimpleSync.onEntryRemoved;
  sync_onPeerDisconnected := onPeerDisconnected;
}.

Section SharedLog.
Context {I St J Jt Q Sy Hi : Type} `{JsEnv, Hashing, Index I St Range, !IndexStore I Range, Index J Jt EntryReplicated,
  !IndexStore J EntryReplicated, Document ShallowEntry, Queue Q string, LogEnv, ReplicasCodec, !Syncronizer Sy}.

(** An entry of [_pendingDeletes] with what its closures capture; [del_id] is the
    identity of the promise. *)
Record PendingDelete := MkPendingDelete {
  del_id : nat;
  del_entry : EntryRef;
  del_min : MinReplicas;
  del_due : Z;
}.

(** A removal that waits for [waitForPruneDelay]. *)
Record Removal := MkRemoval { rm_id : nat; rm_entry : EntryRef; rm_min : MinReplicas; rm_due : Z }.

(** An entry of [_pendingIHave]; its set of requesting peers is shared with the
    continuation of its callback, so it is a reference. *)
Record PendingIHave := MkPendingIHave {
  ih_requesting : nat;
  ih_due : option Z;
  ih_from : PublicSignKey;
}.

(** Heads with one gid that have been received, while their leaders are awaited. *)
Record ReceivedHeads := MkReceivedHeads {
  rh_gid : string;
  rh_entries : list EntryWithRefs;
  rh_from : PublicSignKey;
  rh_maxFromHead : Z;
  rh_maxFromNew : Z;
}.

(** What runs when a wait ends. *)
Inductive Continuation :=
| AnswerPrune (hash : string) (rest : list string) (hasAndIsLeader : list string) (from : PublicSignKey)
| AnswerPruneLater (hash : string) (requesting : nat)
| CountAnswer (pending : PendingDelete) (publicKeyHash : string) (minReplicasValue : Z)
| MergeHeads (received : ReceivedHeads).

(** A call of [_waitForReplicators]: the keys that have to lead or not to lead,
    and the keys [onLeader] has been called with so far. *)
Record Waiter := MkWaiter {
  w_cursors : list Z;
  w_entry : EntryRef;
  w_for : list (string * bool);
  w_roleAge : option Z;
  w_persist : bool;
  w_due : Z;
  w_seen : list string;
  w_then : Continuation;
}.

(** Messages of the log, besides those on ranges and of the synchroniser. *)
Inductive SharedMessage :=
| MsgExchangeHeads (m : ExchangeHeadsMessage)
| MsgRequestIPrune (m : RequestIPrune)
| MsgResponseIPrune (m : ResponseIPrune)
| MsgSync (m : SyncMessage).

Record SharedLog := MkSharedLog {
  sl_rep : Replicators (I := I);
  sl_coordinates : J;                                       (* [entryCoordinatesIndex] *)
  coordinateToHash : list (Z * string);                     (* what is added to the cache *)
  gidPeersHistory : list (string * list string);
  requestIPruneSent : list (string * list string);
  requestIPruneResponses : list (string * list string);     (* [_requestIPruneResponseReplicatorSet] *)
  pendingDeletes : list (string * PendingDelete);
  removals : list Removal;
  pendingIHave : list (string * PendingIHave);
  requestingSets : list (nat * list string);
  pruneDebounced : list (string * (EntryRef * option Leaders));
  responseToPruneDebounced : list (string * list string);
  settled : list (nat * outcome unit);                      (* promises of [prune] *)
  waiters : list (nat * Waiter);
  sl_log : Log (Q := Q);
  syncronizer : Sy;
  recentlyRebalanced : Hi;
  sl_closed : bool;
  sl_next : nat;                                            (* fresh identities *)
  sl_outbox : list (SharedMessage * list string);
}.
Abbreviation M := (Method SharedLog).

Definition set_rep (x : Replicators (I := I)) (s : SharedLog) := MkSharedLog x (sl_coordinates s) (coordinateToHash s)
  (gidPeersHistory s) (requestIPruneSent s) (requestIPruneResponses s) (pendingDeletes s) (removals s) (pendingIHave s)
  (requestingSets s) (pruneDebounced s) (responseToPruneDebounced s) (settled s) (waiters s) (sl_log s) (syncronizer s)
  (recentlyRebalanced s) (sl_closed s) (sl_next s) (sl_outbox s).
Definition set_coordinates (x : J) (c : list (Z * string)) (s : SharedLog) := MkSharedLog (sl_rep s) x c
  (gidPeersHistory s) (requestIPruneSent s) (requestIPruneResponses s) (pendingDeletes s) (removals s) (pendingIHave s)
  (requestingSets s) (pruneDebounced s) (responseToPruneDebounced s) (settled s) (waiters s) (sl_log s) (syncronizer s)
  (recentlyRebalanced s) (sl_closed s) (sl_next s) (sl_outbox s).
Definition set_gids (x : list (string * list string)) (s : SharedLog) := MkSharedLog (sl_rep s) (sl_coordinates s)
  (coordinateToHash s) x (requestIPruneSent s) (requestIPruneResponses s) (pendingDeletes s) (removals s) (pendingIHave s)
  (requestingSets s) (pruneDebounced s) (responseToPruneDebounced s) (settled s) (waiters s) (sl_log s) (syncronizer s)
  (recentlyRebalanced s) (sl_closed s) (sl_next s) (sl_outbox s).
Definition set_sent (x : list (string * list string)) (s : SharedLog) := MkSharedLog (sl_rep s) (sl_coordinates s)
  (coordinateToHash s) (gidPeersHistory s) x (requestIPruneResponses s) (pendingDeletes s) (removals s) (pendingIHave s)
  (requestingSets s) (pruneDebounced s) (responseToPruneDebounced s) (settled s) (waiters s) (sl_log s) (syncronizer s)
  (recentlyRebalanced s) (sl_closed s) (sl_next s) (sl_outbox s).
Definition set_responses (x : list (string * list string)) (s : SharedLog) := MkSharedLog (sl_rep s) (sl_coordinates s)
  (coordinateToHash s) (gidPeersHistory s) (requestIPruneSent s) x (pendingDeletes s) (removals s) (pendingIHave s)
  (requestingSets s) (pruneDebounced s) (responseToPruneDebounced s) (settled s) (waiters s) (sl_log s) (syncronizer s)
  (recentlyRebalanced s) (sl_closed s) (sl_next s) (sl_outbox s).
Definition set_deletes (x : list (string * PendingDelete)) (s : SharedLog) := MkSharedLog (sl_rep s) (sl_coordinates s)
  (coordinateToHash s) (gidPeersHistory s) (requestIPruneSent s) (requestIPruneResponses s) x (removals s) (pendingIHave s)
  (requestingSets s) (pruneDebounced s) (responseToPruneDebounced s) (settled s) (waiters s) (sl_log s) (syncronizer s)
  (recentlyRebalanced s) (sl_closed s) (sl_next s) (sl_outbox s).
Definition set_removals (x : list Removal) (s : SharedLog) := MkSharedLog (sl_rep s) (sl_coordinates s)
  (coordinateToHash s) (gidPeersHistory s) (requestIPruneSent s) (requestIPruneResponses s) (pendingDeletes s) x (pendingIHave s)
  (requestingSets s) (pruneDebounced s) (responseToPruneDebounced s) (settled s) (waiters s) (sl_log s) (syncronizer s)
  (recentlyRebalanced s) (sl_closed s) (sl_next s) (sl_outbox s).
Definition set_ihave (x : list (string * PendingIHave)) (r : list (nat * list string)) (s : SharedLog) := MkSharedLog (sl_rep s)
  (sl_coordinates s) (coordinateToHash s) (gidPeersHistory s) (requestIPruneSent s) (requestIPruneResponses s) (pendingDeletes s)
  (removals s) x r (pruneDebounced s) (responseToPruneDebounced s) (settled s) (waiters s) (sl_log s) (syncronizer s)
  (recentlyRebalanced s) (sl_closed s) (sl_next s) (sl_outbox s).
Definition set_pruneDebounced (x : list (string * (EntryRef * option Leaders))) (s : SharedLog) := MkSharedLog (sl_rep s)
  (sl_coordinates s) (coordinateToHash s) (gidPeersHistory s) (requestIPruneSent s) (requestIPruneResponses s) (pendingDeletes s)
  (removals s) (pendingIHave s) (requestingSets s) x (responseToPruneDebounced s) (settled s) (waiters s) (sl_log s)
  (syncronizer s) (recentlyRebalanced s) (sl_closed s) (sl_next s) (sl_outbox s).
Definition set_toRespond (x : list (string * list string)) (s : SharedLog) := MkSharedLog (sl_rep s)
  (sl_coordinates s) (coordinateToHash s) (gidPeersHistory s) (requestIPruneSent s) (requestIPruneResponses s) (pendingDeletes s)
  (removals s) (pendingIHave s) (requestingSets s) (pruneDebounced s) x (settled s) (waiters s) (sl_log s)
  (syncronizer s) (recentlyRebalanced s) (sl_closed s) (sl_next s) (sl_outbox s).
Definition set_settled (x : list (nat * outcome unit)) (s : SharedLog) := MkSharedLog (sl_rep s)
  (sl_coordinates s) (coordinateToHash s) (gidPeersHistory s) (requestIPruneSent s) (requestIPruneResponses s) (pendingDeletes s)
  (removals s) (pendingIHave s) (requestingSets s) (pruneDebounced s) (responseToPruneDebounced s) x (waiters s) (sl_log s)
  (syncronizer s) (recentlyRebalanced s) (sl_closed s) (sl_next s) (sl_outbox s).
Definition set_waiters (x : list (nat * Waiter)) (s : SharedLog) := MkSharedLog (sl_rep s)
  (sl_coordinates s) (coordinateToHash s) (gidPeersHistory s) (requestIPruneSent s) (requestIPruneResponses s) (pendingDeletes s)
  (removals s) (pendingIHave s) (requestingSets s) (pruneDebounced s) (responseToPruneDebounced s) (settled s) x (sl_log s)
  (syncronizer s) (recentlyRebalanced s) (sl_closed s) (sl_next s) (sl_outbox s).
Definition set_log (x : Log (Q := Q)) (s : SharedLog) := MkSharedLog (sl_rep s)
  (sl_coordinates s) (coordinateToHash s) (gidPeersHistory s) (requestIPruneSent s) (requestIPruneResponses s) (pendingDeletes s)
  (removals s) (pendingIHave s) (requestingSets s) (pruneDebounced s) (responseToPruneDebounced s) (settled s) (waiters s) x
  (syncronizer s) (recentlyRebalanced s) (sl_closed s) (sl_next s) (sl_outbox s).
Definition set_sync (x : Sy) (s : SharedLog) := MkSharedLog (sl_rep s)
  (sl_coordinates s) (coordinateToHash s) (gidPeersHistory s) (requestIPruneSent s) (requestIPruneResponses s) (pendingDeletes s)
  (removals s) (pendingIHave s) (requestingSets s) (pruneDebounced s) (responseToPruneDebounced s) (settled s) (waiters s)
  (sl_log s) x (recentlyRebalanced s) (sl_closed s) (sl_next s) (sl_outbox s).
Definition set_rebalanced (x : Hi) (s : SharedLog) := MkSharedLog (sl_rep s)
  (sl_coordinates s) (coordinateToHash s) (gidPeersHistory s) (requestIPruneSent s) (requestIPruneResponses s) (pendingDeletes s)
  (removals s) (pendingIHave s) (requestingSets s) (pruneDebounced s) (responseToPruneDebounced s) (settled s) (waiters s)
  (sl_log s) (syncronizer s) x (sl_closed s) (sl_next s) (sl_outbox s).
Definition bump (s : SharedLog) := MkSharedLog (sl_rep s)
  (sl_coordinates s) (coordinateToHash s) (gidPeersHistory s) (requestIPruneSent s) (requestIPruneResponses s) (pendingDeletes s)
  (removals s) (pendingIHave s) (requestingSets s) (pruneDebounced s) (responseToPruneDebounced s) (settled s) (waiters s)
  (sl_log s) (syncronizer s) (recentlyRebalanced s) (sl_closed s) (S (sl_next s)) (sl_outbox s).
Definition add_sent (m : SharedMessage) (to : list string) (s : SharedLog) := MkSharedLog (sl_rep s)
  (sl_coordinates s) (coordinateToHash s) (gidPeersHistory s) (requestIPruneSent s) (requestIPruneResponses s) (pendingDeletes s)
  (removals s) (pendingIHave s) (requestingSets s) (pruneDebounced s) (responseToPruneDebounced s) (settled s) (waiters s)
  (sl_log s) (syncronizer s) (recentlyRebalanced s) (sl_closed s) (sl_next s) (sl_outbox s ++ [(m, to)]).

Definition send_message (m : SharedMessage) (to : list string) : M unit := modify (add_sent m to).

(** A fresh identity. *)
Definition fresh_id : M nat := n ⇠ gets sl_next;; modify bump;;; ret n.

(** A method of the replicators, and of the log. *)
Definition on_rep {A} (m : Method (Replicators (I := I)) A) : M A := fun s =>
  let '(r, x) := m (sl_rep s) in (r, set_rep x s).

Definition on_log {A} (f : Log (Q := Q) -> outcome (A * Log (Q := Q))) : M A := fun s =>
  match f (sl_log s) with
  | Val (a, l) => (Val a, set_log l s)
  | Exn e => (Exn e, s)
  | NoFuel => (NoFuel, s)
  end.

(** What does not change while the log is open. *)
Record SharedOptions := MkSharedOptions {
  so_limits : ReplicationLimits;
  so_fromEntry : Meta -> outcome Z;                (* [domain.fromEntry] *)
  so_sync : option (EntryRef -> bool);
  waitForReplicatorTimeout : Z;
  waitForPruneDelay : Z;
  respondToIHaveTimeout : Z;
}.

Context (o : Options) (so : SharedOptions).
Context (round_log : Z -> nat -> Z) (subscribers : Z -> nat).
Abbreviation me := (hashcode (publicKey_ o)).

(** ** The peers of a gid *)

Definition addPeersToGidPeerHistory (gid : string) (publicKeys : list string) (reset : bool) (s : SharedLog) : SharedLog :=
  let set := match Map_get (gidPeersHistory s) gid with
             | None => []
             | Some set => if reset then [] else set
             end in
  set_gids (Map_set (gidPeersHistory s) gid (fold_left Set_add publicKeys set)) s.

Definition remove_peer_of (publicKeyHash : string) (history : list (string * list string)) (gid : string) :=
  match Map_get history gid with
  | Some gidMap =>
      match Set_delete gidMap publicKeyHash with
      | [] => Map_delete history gid
      | gidMap' => Map_set history gid gidMap'
      end
  | None => history
  end.

(** Without a gid, and with the empty one, the peer leaves them all. *)
Definition removePeerFromGidPeerHistory (publicKeyHash : string) (gid : option string) (s : SharedLog) : SharedLog :=
  let all := fold_left (remove_peer_of publicKeyHash) (Map_keys (gidPeersHistory s)) (gidPeersHistory s) in
  set_gids (match gid with
            | Some g => if bool_decide (g = ""%string) then all else remove_peer_of publicKeyHash (gidPeersHistory s) g
            | None => all
            end) s.

(** ** Coordinates *)

Definition createCoordinates (entry : EntryRef) (minReplicas : Z) : M (list Z) :=
  cursor ⇠ lift (so_fromEntry so (ref_meta entry));;
  ret (getGrid (createNumbers (resolution_ o)) cursor (Z.to_nat minReplicas)).

Definition hash_query (hash : string) : QueryLike := QLRecord (JObj [("hash"%string, JStr hash)]).

(** [result[0].value.coordinates]: an entry that is not indexed is a [TypeError]. *)
Definition getCoordinates (hash : string) : M (list Z) :=
  idx ⇠ gets sl_coordinates;;
  r ⇠ lift (it_all (idx_ops idx) (idx_iterate idx (MkIterateOptions (hash_query hash) None)));;
  match r.1 with
  | x :: _ => ret (er_coordinates (ir_value x))
  | [] => raise "TypeError"
  end.

Definition new_entry (coordinates : list Z) (entry : EntryRef) (assigned : bool) : EntryReplicated :=
  match resolution_ o with
  | U32 => new_EntryReplicatedU32 coordinates (ref_hash entry) (ref_meta entry) assigned
  | U64 => new_EntryReplicatedU64 coordinates (ref_hash entry) (ref_meta entry) assigned
  end.

Definition put_coordinates (e : EntryReplicated) : M unit :=
  idx ⇠ gets sl_coordinates;;
  idx ⇠ lift (idx_put idx e);;
  modify (fun s => set_coordinates idx (coordinateToHash s ++ map (fun c => (c, er_hash e)) (er_coordinates e)) s).

Definition del_coordinates (q : QueryLike) : M unit :=
  idx ⇠ gets sl_coordinates;;
  r ⇠ lift (idx_del idx q);;
  modify (fun s => set_coordinates r.2 (coordinateToHash s) s).

Definition persistCoordinate (coordinates : list Z) (entry : EntryRef) (leaders : option Leaders) (replicas : Z)
    (prev : option EntryReplicated) : M unit :=
  let assignedToRangeBoundary := shouldAssigneToRangeBoundary leaders replicas in
  if match prev with Some p => Bool.eqb (er_assignedToRangeBoundary p) assignedToRangeBoundary | None => false end then ret tt
  else
    put_coordinates (new_entry coordinates entry assignedToRangeBoundary);;;
    match meta_next (ref_meta entry) with
    | [] => ret tt
    | next =>
        q ⇠ lift (new_Or (map (fun x => new_StringMatch "hash"%string x None None) next));;
        del_coordinates (QLOne q)
    end.

Definition deleteCoordinates (hash : string) : M unit := del_coordinates (hash_query hash).

(** ** Leaders *)

(** [persist]: not given, [false], or given with the entry that is indexed. *)
Inductive Persist := PersistUndefined | PersistFalse | PersistGiven (prev : option EntryReplicated).

(** More steps than a search can take. *)
Definition sampling_fuel (idx : I) : nat := S (32 * S (length (idx_contents idx))).

Definition _findLeaders (cursors : list Z) (roleAge : option Z) (now : Z) : M Leaders :=
  age ⇠ match roleAge with
        | Some a => ret a
        | None => on_rep (getDefaultMinRoleAge o round_log (subscribers now) now)
        end;;
  r ⇠ gets sl_rep;;
  lift (getSamples (sampling_fuel (replicationIndex r)) cursors (replicationIndex r) (resolution_ o) age now
          (createNumbers (resolution_ o)) (MkSampleOptions false (Some (uniqueReplicators_ r)))).

(** [hasOnLeader]: whether [onLeader] is given; it is called with the keys of the
    answer. *)
Definition findLeaders (cursors : list Z) (entry : EntryRef) (roleAge : option Z) (hasOnLeader : bool) (persist : Persist)
    (now : Z) : M Leaders :=
  set ⇠ _findLeaders cursors roleAge now;;
  let isLeader := hasOnLeader && Map_has set me in
  closed_ ⇠ gets sl_closed;;
  whenM (match persist with PersistFalse => false | PersistGiven _ => true | PersistUndefined => isLeader end && negb closed_)
    (persistCoordinate cursors entry (Some set) (Z.of_nat (length cursors))
       (match persist with PersistGiven prev => prev | _ => None end));;;
  ret set.

Definition isLeader (entry : EntryRef) (replicas : Z) (roleAge : option Z) (hasOnLeader : bool) (persist : Persist) (now : Z) : M bool :=
  cursors ⇠ createCoordinates entry replicas;;
  leaders ⇠ findLeaders cursors entry roleAge hasOnLeader persist now;;
  ret (Map_has leaders me).

Definition findLeadersFromEntry (entry : EntryRef) (replicas : Z) (roleAge : option Z) (now : Z) : M Leaders :=
  coordinates ⇠ createCoordinates entry replicas;;
  _findLeaders coordinates roleAge now.

Definition isReplicator (entry : EntryRef) (roleAge : option Z) (now : Z) : M bool :=
  replicas ⇠ lift (maxReplicas (so_limits so) [meta_data (ref_meta entry)]);;
  isLeader entry replicas roleAge false PersistUndefined now.

(** ** Waiting for leaders *)

Definition _waitForReplicators (cursors : list Z) (entry : EntryRef) (waitFor : list (string * bool)) (timeout : option Z)
    (roleAge : option Z) (persist : bool) (continue : Continuation) (now : Z) : M unit :=
  id ⇠ fresh_id;;
  modify (fun s => set_waiters (waiters s ++ [(id, MkWaiter cursors entry waitFor roleAge persist
    (now + default (waitForReplicatorTimeout so) timeout) [] continue)]) s).

Definition waited_for (leaderKeys : list string) (waitFor : list (string * bool)) : bool :=
  forallb (fun w => Bool.eqb (Set_has leaderKeys w.1) w.2) waitFor.

(** [check]: the leaders when all of [waitFor] is as awaited; the keys that lead
    have been reported by then. *)
Definition check (id : nat) (w : Waiter) (now : Z) : M (option (Leaders * list string)) :=
  leaders ⇠ findLeaders (w_cursors w) (w_entry w) (w_roleAge w) true (if w_persist w then PersistUndefined else PersistFalse) now;;
  let keys := Map_keys leaders in
  let seen := fold_left Set_add keys (w_seen w) in
  if waited_for keys (w_for w) then
    modify (fun s => set_waiters (Map_delete (waiters s) id) s);;; ret (Some (leaders, seen))
  else
    modify (fun s => set_waiters (Map_set (waiters s) id (MkWaiter (w_cursors w) (w_entry w) (w_for w) (w_roleAge w)
      (w_persist w) (w_due w) seen (w_then w))) s);;; ret None.

End SharedLog.
