(* ===== verification/Pruning.v ===== *)
(** * Pruning (packages/programs/data/shared-log/src/index.ts, part 3)

    A replicator that does not lead an entry any more asks the leaders whether it
    may drop it ([prune]); it removes the entry some time after enough of them
    have answered, unless it leads again by then.  A promise of [prune] is a
    number that is settled once; the timers of the code are the [removals] and
    the due times, and whatever is awaited is a waiter (SharedLog). *)

From Stdlib Require Import ZArith Lia.
From stdpp Require Import base list strings.
From S2P Require Import Prelude JsMap Cache Clock JsVal Query IndexInterface IndexStore Integers LogSorting EntryIndex Trim Log ExchangeHeads Ranges RangeQueries RangeIterators Rebalance SimpleSync Effects Replicators Replication SharedLog.

Local Open Scope Z_scope.
Local Open Scope effects_scope.

Section Pruning.
Context {I St J Jt Q Sy Hi : Type} `{JsEnv, Hashing, Index I St Range, !IndexStore I Range, Index J Jt EntryReplicated,
  !IndexStore J EntryReplicated, Document ShallowEntry, Queue Q string, LogEnv, ReplicasCodec, !Syncronizer Sy}.
Abbreviation State := (SharedLog (I := I) (J := J) (Q := Q) (Sy := Sy) (Hi := Hi)).
Abbreviation M := (Method State).
Context (o : Options) (so : SharedOptions).
Context (round_log : Z -> nat -> Z) (subscribers : Z -> nat) (log_fuel : nat).
Abbreviation me := (hashcode (publicKey_ o)).

(** [set.delete(x)], and the set itself when that empties it. *)
Definition drop_from (m : list (string * list string)) (hash x : string) : list (string * list string) :=
  match Map_get m hash with
  | Some set => match Set_delete set x with [] => Map_delete m hash | set' => Map_set m hash set' end
  | None => m
  end.

Definition removePruneRequestSent (hash : string) (to : option string) (s : State) : State :=
  set_sent (match to with
            | None => Map_delete (requestIPruneSent s) hash
            | Some to => drop_from (requestIPruneSent s) hash to
            end) s.

(** The first settlement of a promise counts. *)
Definition settle (id : nat) (r : outcome unit) (s : State) : State :=
  if Map_has (settled s) id then s else set_settled (settled s ++ [(id, r)]) s.

(** [fn().catch(...)] of a promise nobody waits for. *)
Definition detached (m : M unit) : M unit := _ ⇠ attempt m;; ret tt.

(** ** What waits to be pruned and answered *)

(** [pruneDebouncedFn.add]: the leaders of an entry that waits already are kept
    and the new ones added; [false] cannot be iterated over. *)
Definition merge_leaders (into from : option Leaders) : outcome (option Leaders) :=
  match from, into with
  | None, _ => Exn "TypeError"
  | Some [], _ => Val into
  | Some _, None => Exn "TypeError"
  | Some from, Some into => Val (Some (fold_left (fun m e => if Map_has m e.1 then m else Map_set m e.1 e.2) from into))
  end.

Definition prune_later (hash : string) (entry : EntryRef) (leaders : option Leaders) : M unit :=
  m ⇠ gets pruneDebounced;;
  match Map_get m hash with
  | Some (prev, into) =>
      merged ⇠ lift (merge_leaders into leaders);; modify (set_pruneDebounced (Map_set m hash (prev, merged)))
  | None => modify (set_pruneDebounced (Map_set m hash (entry, leaders)))
  end.

Definition dont_prune (hash : string) (s : State) : State := set_pruneDebounced (Map_delete (pruneDebounced s) hash) s.

Definition respond_add (peers : list string) (m : list (string * list string)) (hash : string) :=
  Map_set m hash (fold_left Set_add peers (default [] (Map_get m hash))).

(** [responseToPruneDebouncedFn.add]. *)
Definition respond_later (hashes peers : list string) (s : State) : State :=
  set_toRespond (fold_left (respond_add peers) hashes (responseToPruneDebounced s)) s.

Definition dont_respond (hash : string) (s : State) : State := set_toRespond (Map_delete (responseToPruneDebounced s) hash) s.

(** One message with all the hashes, to all the peers that asked for one of them. *)
Definition flush_responses : M unit :=
  result ⇠ gets responseToPruneDebounced;;
  modify (set_toRespond []);;;
  match Map_keys result with
  | [] => ret tt
  | hashes => send_message (MsgResponseIPrune (MkResponseIPrune hashes)) (fold_left (fun all r => fold_left Set_add r.2 all) result [])
  end.

(** ** What happens in the log *)

Definition wait_to_lead (entry : EntryRef) (continue : Continuation) (now : Z) : M unit :=
  replicas ⇠ lift (replicas_of (meta_data (ref_meta entry)));;
  cursors ⇠ createCoordinates o so entry replicas;;
  _waitForReplicators so cursors entry [(me, true)] None None true continue now.

(** [callback] of an entry of [_pendingIHave]. *)
Definition ihave_callback (p : PendingIHave) (entry : EntryRef) (now : Z) : M unit :=
  modify (removePeerFromGidPeerHistory (hashcode (ih_from p)) (Some (meta_gid (ref_meta entry))));;;
  modify (removePruneRequestSent (ref_hash entry) (Some (hashcode (ih_from p))));;;
  wait_to_lead entry (AnswerPruneLater (ref_hash entry) (ih_requesting p)) now.

Definition onEntryAdded (entry : EntryRef) (now : Z) : M unit :=
  ih ⇠ gets (fun s => Map_get (pendingIHave s) (ref_hash entry));;
  match ih with
  | Some p =>
      modify (fun s => set_ihave (Map_set (pendingIHave s) (ref_hash entry) (MkPendingIHave (ih_requesting p) None (ih_from p))) (requestingSets s) s);;;
      detached (ihave_callback p entry now)
  | None => ret tt
  end;;;
  modify (fun s => set_sync (sync_onEntryAdded (syncronizer s) (ref_hash entry)) s).

Definition onEntryRemoved (hash : string) (s : State) : State := set_sync (sync_onEntryRemoved (syncronizer s) hash) s.

Definition onChange (change : Change) (now : Z) : M unit :=
  forM (fun a => onEntryAdded (ref_of_entry a.2) now) (Log.added change);;;
  forM (fun r => deleteCoordinates (any_hash r);;; modify (onEntryRemoved (any_hash r))) (Log.removed change).

(** A call of the log, and its changes reported to [onChange]. *)
Definition reported (l l' : Log (Q := Q)) : list Change :=
  omap (fun e => match e.1 with LogOnChange => Some e.2 | OptionsOnChange => None end) (drop (length (lg_changes l)) (lg_changes l')).

Definition call_log {A} (f : Log (Q := Q) -> outcome (A * Log (Q := Q))) (now : Z) : M A :=
  l ⇠ gets sl_log;;
  a ⇠ on_log f;;
  l' ⇠ gets sl_log;;
  forM (fun c => onChange c now) (reported l l');;;
  ret a.

Definition log_remove (entry : EntryRef) (now : Z) : M unit :=
  _ ⇠ call_log (fun l => Log.remove log_fuel l [MkNode (ref_hash entry) (meta_next (ref_meta entry))] true) now;; ret tt.

(** ** [prune] *)

(** What the three places forget that end the pruning of an entry. *)
Definition forget_requests (hash : string) (s : State) : State :=
  set_responses (Map_delete (requestIPruneResponses s) hash) (removePruneRequestSent hash None s).

Definition forget_entry (entry : EntryRef) (s : State) : State :=
  forget_requests (ref_hash entry) (set_gids (Map_delete (gidPeersHistory s) (meta_gid (ref_meta entry))) s).

(** [clear] of a pending delete; its timer goes with it. *)
Definition clear_pending (hash : string) (id : nat) (s : State) : State :=
  match Map_get (pendingDeletes s) hash with
  | Some p => if (del_id p =? id)%nat then set_deletes (Map_delete (pendingDeletes s) hash) s else s
  | None => s
  end.

Definition reject (p : PendingDelete) (e : string) (s : State) : State :=
  settle (del_id p) (Exn e) (forget_requests (ref_hash (del_entry p)) (clear_pending (ref_hash (del_entry p)) (del_id p) s)).

Definition prune_timeout (hash : string) : M unit :=
  p ⇠ gets (fun s => Map_get (pendingDeletes s) hash);;
  match p with Some p => modify (reject p "Timeout for checked pruning") | None => ret tt end.

Definition push_entry (hash : string) (m : list (string * list string)) (leader : string) :=
  Map_set m leader (default [] (Map_get m leader) ++ [hash]).

Definition prune_entry (timeout : option Z) (now : Z) (peerToEntries : list (string * list string)) (x : EntryRef * option Leaders)
    : M (list (string * list string)) :=
  let '(entry, leaders) := x in
  leaders ⇠ match leaders with Some l => ret l | None => raise "TypeError" end;;
  let peerToEntries := fold_left (push_entry (ref_hash entry)) (Map_keys leaders) peerToEntries in
  known ⇠ gets (fun s => Map_has (pendingDeletes s) (ref_hash entry));;
  if known : bool then ret peerToEntries
  else
    minReplicas ⇠ lift (decodeReplicas (meta_data (ref_meta entry)));;
    id ⇠ fresh_id;;
    modify (fun s => set_deletes (Map_set (pendingDeletes s) (ref_hash entry)
      (MkPendingDelete id entry minReplicas (now + default 10000 timeout))) s);;;
    ret peerToEntries.

Fixpoint prune_entries (timeout : option Z) (now : Z) (acc : list (string * list string)) (l : list (EntryRef * option Leaders))
    : M (list (string * list string)) :=
  match l with
  | [] => ret acc
  | x :: l => acc ⇠ prune_entry timeout now acc x;; prune_entries timeout now acc l
  end.

Definition emitMessages (x : string * list string) : M unit :=
  let '(to, entries) := x in
  modify (fun s => set_sent (fold_left (respond_add [to]) entries (requestIPruneSent s)) s);;;
  match entries with
  | [] => ret tt
  | _ => send_message (MsgRequestIPrune (MkRequestIPrune entries)) [to]
  end.

Definition prune_unchecked (x : EntryRef * option Leaders) (now : Z) : M unit :=
  modify (forget_entry x.1);;; detached (log_remove x.1 now).

Definition prune (entries : list (string * (EntryRef * option Leaders))) (timeout : option Z) (unchecked : bool) (now : Z) : M unit :=
  if unchecked then forM (fun x => prune_unchecked x now) (Map_values entries)
  else
    closed_ ⇠ gets sl_closed;;
    if closed_ : bool then ret tt
    else peerToEntries ⇠ prune_entries timeout now [] (Map_values entries);; forM emitMessages peerToEntries.

(** The debounced call. *)
Definition flush_prune (now : Z) : M unit :=
  m ⇠ gets pruneDebounced;; modify (set_pruneDebounced []);;; prune m None false now.

(** [resolve] of a pending delete: [publicKeyHash] has answered; the answer counts
    once the peer leads and this node does not. *)
Definition pending_resolve (p : PendingDelete) (publicKeyHash : string) (now : Z) : M unit :=
  minReplicasObj ⇠ lift (getClampedReplicas (so_limits so) (Some (del_min p)));;
  minReplicasValue ⇠ lift (getValue minReplicasObj);;
  cursor ⇠ createCoordinates o so (del_entry p) minReplicasValue;;
  _waitForReplicators so cursor (del_entry p) [(publicKeyHash, true); (me, false)] None None false
    (CountAnswer p publicKeyHash minReplicasValue) now.

Definition count_answer (p : PendingDelete) (publicKeyHash : string) (minReplicasValue now : Z) : M unit :=
  let hash := ref_hash (del_entry p) in
  modify (fun s => set_responses (Map_set (requestIPruneResponses s) hash
    (Set_add (default [] (Map_get (requestIPruneResponses s) hash)) publicKeyHash)) s);;;
  existCounter ⇠ gets (fun s => default [] (Map_get (requestIPruneResponses s) hash));;
  if minReplicasValue <=? Z.of_nat (length existCounter) then
    modify (clear_pending hash (del_id p));;;
    modify (fun s => set_removals (removals s ++ [MkRemoval (del_id p) (del_entry p) (del_min p) (now + waitForPruneDelay so)]) s)
  else ret tt.

(** The timer that [resolve] has started; its last check is only reported. *)
Definition run_removal (r : Removal) (now : Z) : M unit :=
  modify (forget_entry (rm_entry r));;;
  replicas ⇠ lift (getValue (rm_min r));;
  leader ⇠ isLeader o so round_log subscribers (rm_entry r) replicas None false PersistUndefined now;;
  if leader : bool then modify (settle (rm_id r) (Exn "Failed to delete, is leader again"))
  else
    res ⇠ attempt (log_remove (rm_entry r) now);;
    modify (settle (rm_id r) res);;;
    modify (forget_entry (rm_entry r)).

End Pruning.
