(* ===== verification/SharedLogMessages.v ===== *)
(** * Messages and changes of a shared log
    (packages/programs/data/shared-log/src/index.ts, part 4)

    What a node does with heads it receives, with requests to prune and their
    answers, what follows a wait for leaders ([resume]), what follows a change of
    the ranges ([onReplicationChange]), and what a peer leaves behind. *)

From Stdlib Require Import ZArith Lia.
From stdpp Require Import base list strings.
From S2P Require Import Prelude JsMap Cache Clock JsVal Query IndexInterface IndexStore Integers LogSorting EntryIndex Trim Log ExchangeHeads Ranges RangeQueries RangeIterators Rebalance SimpleSync Effects Replicators Replication SharedLog Pruning.

Local Open Scope Z_scope.
Local Open Scope effects_scope.

Section Messages.
Context {I St J Jt Q Sy Hi : Type} `{JsEnv, Hashing, Index I St Range, !IndexStore I Range, Index J Jt EntryReplicated,
  !IndexStore J EntryReplicated, Document ShallowEntry, Queue Q string, LogEnv, ReplicasCodec, !Syncronizer Sy, !History Hi}.
Abbreviation State := (SharedLog (I := I) (J := J) (Q := Q) (Sy := Sy) (Hi := Hi)).
Abbreviation M := (Method State).
Context (o : Options) (so : SharedOptions).
Context (round_log : Z -> nat -> Z) (subscribers : Z -> nat) (log_fuel : nat).
Abbreviation me := (hashcode (publicKey_ o)).

(** ** Requests to prune *)

(** The answer has to wait for the entry, or for leadership: a set of requesting
    peers, a timer, and the key of the first one. *)
Definition remember_request (hash : string) (from : PublicSignKey) (now : Z) : M unit :=
  prev ⇠ gets (fun s => Map_get (pendingIHave s) hash);;
  let due := Some (now + respondToIHaveTimeout so) in
  match prev with
  | Some p =>
      modify (fun s => set_ihave
        (Map_set (pendingIHave s) hash (MkPendingIHave (ih_requesting p) due (ih_from p)))
        (Map_set (requestingSets s) (ih_requesting p)
           (Set_add (default [] (Map_get (requestingSets s) (ih_requesting p))) (hashcode from))) s)
  | None =>
      ref ⇠ fresh_id;;
      modify (fun s => set_ihave (Map_set (pendingIHave s) hash (MkPendingIHave ref due from))
        (Map_set (requestingSets s) ref [hashcode from]) s)
  end.

(** The loop over the hashes of a request, up to where it has to wait. *)
Fixpoint answer_prune (hashes hasAndIsLeader : list string) (from : PublicSignKey) (now : Z) : M unit :=
  match hashes with
  | [] => ret tt
  | hash :: rest =>
      modify (removePruneRequestSent hash (Some (hashcode from)));;;
      modify (fun s => match Map_get (requestIPruneResponses s) hash with
                       | Some set => set_responses (Map_set (requestIPruneResponses s) hash (Set_delete set (hashcode from))) s
                       | None => s
                       end);;;
      indexed ⇠ gets (fun s => getShallow (lg_entryIndex (sl_log s)) hash);;
      match indexed with
      | Some e =>
          let entry := ref_of_shallow (ir_value e) in
          modify (removePeerFromGidPeerHistory (hashcode from) (Some (meta_gid (ref_meta entry))));;;
          wait_to_lead o so entry (AnswerPrune hash rest hasAndIsLeader from) now
      | None => remember_request hash from now;;; answer_prune rest hasAndIsLeader from now
      end
  end.

(** After the wait for one hash. *)
Definition answered_prune (leads : bool) (hash : string) (rest hasAndIsLeader : list string) (from : PublicSignKey) (now : Z) : M unit :=
  if leads then
    modify (respond_later (hasAndIsLeader ++ [hash]) [hashcode from]);;; answer_prune rest (hasAndIsLeader ++ [hash]) from now
  else remember_request hash from now;;; answer_prune rest hasAndIsLeader from now.

(** The end of the callback of [_pendingIHave]. *)
Definition answered_later (leads : bool) (hash : string) (requesting : nat) : M unit :=
  whenM leads
    (modify (fun s => respond_later [hash] (default [] (Map_get (requestingSets s) requesting)) s);;;
     modify (fun s => set_ihave (Map_delete (pendingIHave s) hash) (requestingSets s) s)).

(** The timer of an entry of [_pendingIHave]. *)
Definition ihave_timeout (hash : string) (s : State) : State := set_ihave (Map_delete (pendingIHave s) hash) (requestingSets s) s.

Definition on_response (hashes : list string) (from : PublicSignKey) (now : Z) : M unit :=
  forM (fun hash =>
    p ⇠ gets (fun s => Map_get (pendingDeletes s) hash);;
    match p with Some p => detached (pending_resolve o so p (hashcode from) now) | None => ret tt end) hashes.

(** ** Heads *)

Definition heads_of (gid : string) : M (list ShallowEntry) :=
  s ⇠ gets (fun s => lg_entryIndex (sl_log s));; lift (getHeads s (Some gid)).

Definition degree_of (heads : list ShallowEntry) : outcome Z :=
  maxReplicas (so_limits so) (map (fun e => smeta_data (se_meta e)) heads).

(** A received entry, when this node leads its gid. *)
Definition received_as_leader (gid : string) (fromIsLeader : bool) (from : PublicSignKey) (e : EntryWithRefs) (s : State) : State :=
  let hash := en_hash (ewr_entry e) in
  let s := set_responses (Map_delete (requestIPruneResponses s) hash) (removePruneRequestSent hash None (dont_prune hash s)) in
  if fromIsLeader then addPeersToGidPeerHistory gid [hashcode from] false s else s.

Fixpoint any_heads (refs : list string) : M bool :=
  match refs with
  | [] => ret false
  | ref :: refs => heads ⇠ heads_of ref;; match heads with [] => any_heads refs | _ => ret true end
  end.

(** What of the received entries is joined, and what of that is pruned afterwards. *)
Fixpoint sort_received (leads : bool) (entries : list EntryWithRefs) : M (list Entry * list Entry) :=
  match entries with
  | [] => ret ([], [])
  | e :: entries =>
      if leads || match so_sync so with Some f => f (ref_of_entry (ewr_entry e)) | None => false end then
        r ⇠ sort_received leads entries;; ret (ewr_entry e :: r.1, r.2)
      else
        b ⇠ any_heads (gidRefrences e);;
        r ⇠ sort_received leads entries;;
        ret (if b : bool then (ewr_entry e :: r.1, ewr_entry e :: r.2) else r)
  end.

Definition prune_all (entries : list Entry) (leaders : option Leaders) : M unit :=
  forM (fun x => prune_later (en_hash x) (ref_of_entry x) leaders) entries.

(** The rest of the handler for the heads of one gid, once their leaders are known. *)
Definition merge_heads (r : ReceivedHeads) (leaders : option Leaders) (seen : list string) (now : Z) : M unit :=
  closed_ ⇠ gets sl_closed;;
  if closed_ : bool then ret tt
  else
    let leads := Set_has seen me in
    let fromIsLeader := Set_has seen (hashcode (rh_from r)) in
    whenM leads (forM (fun e => modify (received_as_leader (rh_gid r) fromIsLeader (rh_from r) e)) (rh_entries r));;;
    m ⇠ sort_received leads (rh_entries r);;
    match m.1 with
    | [] => ret tt
    | toMerge =>
        call_log o so (fun l => l ← Log.join log_fuel l (JoinArray (map ItemEntry toMerge)) no_join_options; Val (tt, l)) now;;;
        prune_all m.2 leaders;;;
        on_rep rebalanceParticipationDebounced
    end;;;
    if leads && (rh_maxFromNew r <? rh_maxFromHead r) then
      headsWithGid ⇠ heads_of (rh_gid r);;
      match headsWithGid, rh_entries r with
      | _ :: _, first :: _ =>
          minReplicas ⇠ lift (degree_of headsWithGid);;
          leads ⇠ isLeader o so round_log subscribers (ref_of_entry (ewr_entry first)) minReplicas None false PersistUndefined now;;
          whenM (negb leads) (prune_all (map ewr_entry (rh_entries r)) leaders)
      | _, _ => ret tt
      end
    else ret tt.

Definition receive_group (from : PublicSignKey) (now : Z) (group : string * list EntryWithRefs) : M unit :=
  let '(gid, entries) := group in
  modify (fun s => set_sync (sync_onReceivedEntries (syncronizer s) (map (fun e => en_hash (ewr_entry e)) entries) from) s);;;
  headsWithGid ⇠ heads_of gid;;
  match getLatestEntry entries with
  | None => ret tt
  | Some latest =>
      fromHead ⇠ lift (match headsWithGid with [] => getValue (limit_min (so_limits so)) | _ => degree_of headsWithGid end);;
      fromNew ⇠ lift (maxReplicas (so_limits so) (map (fun e => meta_data (en_meta (ewr_entry e))) entries));;
      cursor ⇠ createCoordinates o so (ref_of_entry latest) (Z.max fromHead fromNew);;
      replicating ⇠ gets (fun s => default false (isReplicating_ (sl_rep s)));;
      let r := MkReceivedHeads gid entries from fromHead fromNew in
      if replicating : bool then
        _waitForReplicators so cursor (ref_of_entry latest) [(me, true)] (Some 20000) (Some 0) true (MergeHeads r) now
      else
        leaders ⇠ findLeaders o round_log subscribers cursor (ref_of_entry latest) None true PersistUndefined now;;
        merge_heads r (Some leaders) (Map_keys leaders) now
  end.

Fixpoint unknown_heads (heads : list EntryWithRefs) : M (list EntryWithRefs) :=
  match heads with
  | [] => ret []
  | h :: heads =>
      known ⇠ on_log (fun l => Log.log_has l (en_hash (ewr_entry h)));;
      rest ⇠ unknown_heads heads;;
      ret (if known : bool then rest else h :: rest)
  end.

Definition receive_heads (heads : list EntryWithRefs) (from : PublicSignKey) (now : Z) : M unit :=
  filteredHeads ⇠ unknown_heads heads;;
  forM (fun g => detached (receive_group from now g)) (groupByGid (fun e => meta_gid (en_meta (ewr_entry e))) filteredHeads).

(** ** Messages, and the ends of waits *)

(** [onMessage] for the messages of this file; its errors are logged. *)
Definition onMessage (msg : SharedMessage) (from : PublicSignKey) (now : Z) : M unit :=
  detached
    match msg with
    | MsgExchangeHeads m => receive_heads (exchanged_heads m) from now
    | MsgRequestIPrune m => answer_prune (request_hashes m) [] from now
    | MsgResponseIPrune m => on_response (response_hashes m) from now
    | MsgSync _ => ret tt
    end.

Definition resume (continue : Continuation) (leaders : option Leaders) (seen : list string) (now : Z) : M unit :=
  match continue with
  | AnswerPrune hash rest has from => answered_prune (Set_has seen me) hash rest has from now
  | AnswerPruneLater hash requesting => answered_later (Set_has seen me) hash requesting
  | CountAnswer p key n => match leaders with Some _ => count_answer so p key n now | None => ret tt end
  | MergeHeads r => merge_heads r leaders seen now
  end.

(** A check of a waiter, and its timeout. *)
Definition wake (id : nat) (now : Z) : M unit :=
  w ⇠ gets (fun s => Map_get (waiters s) id);;
  match w with
  | None => ret tt
  | Some w =>
      r ⇠ check o round_log subscribers id w now;;
      match r with Some (leaders, seen) => resume (w_then w) (Some leaders) seen now | None => ret tt end
  end.

Definition wait_timeout (id : nat) (now : Z) : M unit :=
  w ⇠ gets (fun s => Map_get (waiters s) id);;
  match w with
  | None => ret tt
  | Some w => modify (fun s => set_waiters (Map_delete (waiters s) id) s);;; resume (w_then w) None (w_seen w) now
  end.

(** ** Changes of the ranges *)

(** The entries a peer may miss. *)
Definition deliver (entry : EntryReplicated) (m : list (string * list (string * EntryReplicated))) (peer : string) :=
  let set := default [] (Map_get m peer) in
  Map_set m peer (if Map_has set (er_hash entry) then set else Map_set set (er_hash entry) entry).

Definition rebalance_entry (now : Z) (uncheckedDeliver : list (string * list (string * EntryReplicated))) (e : EntryReplicated)
    : M (list (string * list (string * EntryReplicated))) :=
  closed_ ⇠ gets sl_closed;;
  if closed_ : bool then ret uncheckedDeliver
  else
    oldPeersSet ⇠ gets (fun s => Map_get (gidPeersHistory s) (er_gid e));;
    currentPeers ⇠ findLeaders o round_log subscribers (er_coordinates e) (ref_of_replicated e) (Some 0) false PersistUndefined now;;
    let keys := Map_keys currentPeers in
    let missing := List.filter (fun p => negb (bool_decide (p = me)) && negb (Set_has (default [] oldPeersSet) p)) keys in
    let uncheckedDeliver := fold_left (deliver e) missing uncheckedDeliver in
    whenM (existsb (fun p => negb (Set_has keys p)) (default [] oldPeersSet)) (modify (removePruneRequestSent (er_hash e) None));;;
    modify (addPeersToGidPeerHistory (er_gid e) keys true);;;
    (if Set_has keys me then
       modify (dont_prune (er_hash e));;;
       modify (fun s => match Map_get (pendingDeletes s) (er_hash e) with
                        | Some p => reject p "Failed to delete, is leader again" s
                        | None => s
                        end);;;
       modify (removePruneRequestSent (er_hash e) None)
     else
       (if match so_sync so with Some f => negb (f (ref_of_replicated e)) | None => true end
        then prune_later (er_hash e) (ref_of_replicated e) (Some currentPeers) else ret tt);;;
       modify (dont_respond (er_hash e)));;;
    ret uncheckedDeliver.

Fixpoint rebalance_entries (now : Z) (acc : list (string * list (string * EntryReplicated))) (l : list EntryReplicated)
    : M (list (string * list (string * EntryReplicated))) :=
  match l with
  | [] => ret acc
  | e :: l => acc ⇠ rebalance_entry now acc e;; rebalance_entries now acc l
  end.

Definition tell_missing (x : string * list (string * EntryReplicated)) : M unit :=
  sy ⇠ gets syncronizer;;
  let '(sy, sends) := sync_onMaybeMissingEntries sy x.2 [x.1] in
  modify (set_sync sy);;; forM (fun m => send_message (MsgSync (SimpleSync.send_message m)) (send_to m)) sends.

Definition onReplicationChange (changes : ReplicationChanges) (now : Z) : M unit :=
  closed_ ⇠ gets sl_closed;;
  if closed_ : bool then ret tt
  else
    call_log o so (fun l => log_trim l None) now;;;
    idx ⇠ gets sl_coordinates;;
    history ⇠ gets recentlyRebalanced;;
    r ⇠ lift (toRebalance (S (length (idx_contents idx))) changes idx history);;
    modify (set_rebalanced r.2);;;
    uncheckedDeliver ⇠ rebalance_entries now [] r.1;;
    forM tell_missing uncheckedDeliver.

(** [added] for every range, from the start if asked for. *)
Definition rebalanceAll (clearCache : bool) (now : Z) : M unit :=
  modify (fun s => if clearCache then set_gids [] s else s);;;
  rs ⇠ on_rep (query_all QLNone);;
  onReplicationChange (Changes (map (fun x => MkChange (Rebalance.added false) x now) rs)) now.

(** ** A peer that (un)subscribes *)

Definition forget_answers (hash : string) (s : State) (e : string * list string) : State :=
  match Set_delete e.2 hash with
  | [] => set_sent (Map_delete (requestIPruneSent s) e.1) (set_responses (Map_set (requestIPruneResponses s) e.1 []) s)
  | set => set_responses (Map_set (requestIPruneResponses s) e.1 set) s
  end.

Definition forget_requested (hash : string) (s : State) (e : string * list string) : State :=
  set_sent (match Set_delete e.2 hash with
            | [] => Map_delete (requestIPruneSent s) e.1
            | set => Map_set (requestIPruneSent s) e.1 set
            end) s.

Definition handleSubscriptionChange (publicKey : PublicSignKey) (on_topic subscribed : bool) (now : Z) : M unit :=
  if negb on_topic then ret tt
  else if subscribed then
    replicationSegments ⇠ on_rep (getMyReplicationSegments o);;
    match replicationSegments with
    | [] => ret tt
    | segments => on_rep (send (AllReplicatingSegmentsMessage (map toReplicationRange segments)) (SeekTo (hashcode publicKey)))
    end
  else
    let hash := hashcode publicKey in
    modify (removePeerFromGidPeerHistory hash None);;;
    modify (fun s => fold_left (forget_requested hash) (requestIPruneSent s) s);;;
    modify (fun s => fold_left (forget_answers hash) (requestIPruneResponses s) s);;;
    modify (fun s => set_sync (sync_onPeerDisconnected (syncronizer s) publicKey) s);;;
    ranges_ ⇠ gets (fun s => replicationIndex (sl_rep s));;
    n ⇠ lift (idx_count ranges_ (hash_query hash));;
    whenM (0 <? n)%nat (on_rep (dispatchEvent (ReplicatorLeaveEvent publicKey)));;;
    on_rep (removeReplicator o (AKey publicKey) false now).

Definition _onUnsubscription (publicKey : PublicSignKey) (on_topic : bool) (now : Z) : M unit :=
  on_rep (modify (fun s => set_latest (Map_delete (latestReplicationInfoMessage s) (hashcode publicKey)) s));;;
  handleSubscriptionChange publicKey on_topic false now.

(** ** Closing *)

(** [_close]: the promises that are pending are resolved, though nothing has been
    pruned; waits end like on a timeout. *)
Definition _close (empty_sync : Sy) (empty_history : Hi) (s : State) : State :=
  let settled' := fold_left (fun s p => settle (del_id p.2) (Val tt) s) (pendingDeletes s) s in
  MkSharedLog (set_latest [] (set_uniqueReplicators [] (set_pendingMaturity [] (sl_rep s)))) (sl_coordinates s) [] [] [] [] []
    [] [] (requestingSets s) [] (responseToPruneDebounced s) (settled settled') (waiters s)
    (sl_log s) empty_sync empty_history true (sl_next s) (sl_outbox s).

End Messages.
