(* ===== verification/SharedLogFacts.v ===== *)
(** * The leaders of an entry and its coordinates

    [findLeaders] always answers, with owners of stored ranges; a node that is
    told that it leads stores the coordinates of the entry and forgets those of
    the entries it follows.  Searches that are given the set of replicators, as
    all of the shared log's are, may miss an owner. *)

From Stdlib Require Import ZArith Lia.
From stdpp Require Import base sets list strings.
From S2P Require Import Prelude JsMap Cache Clock JsVal Query IndexInterface SimpleIndex IndexStore Integers LogSorting EntryIndex Trim Log ExchangeHeads Ranges RangeFacts RangeQueries RangeIterators RangeSampling Rebalance RebalanceFacts SimpleSync Effects Replicators ReplicatorsFacts ReplicationSteps Replication SharedLog.

Local Open Scope Z_scope.

(** ** Queries on entries *)

Section Queries.
Context `{JsEnv, Hashing, Document EntryReplicated, !EntryDocument}.

Definition hash_match (h : string) : Query := new_StringMatch "hash"%string h None None.

Lemma sat_entry_hash h e :
  sat_all [hash_match h] (entry_js e) = bool_decide (er_hash e = h) /\ covered_all [hash_match h] (entry_js e) = true.
Proof.
  unfold sat_all, covered_all, hash_match. cbn [forallb new_StringMatch key_path sat covered default].
  unfold read_field. cbn. by rewrite andb_true_r.
Qed.

Lemma sat_entry_hashes hs e :
  sat_all [Or (map hash_match hs)] (entry_js e) = bool_decide (er_hash e ∈ hs) /\
  covered_all [Or (map hash_match hs)] (entry_js e) = true.
Proof.
  unfold sat_all, covered_all. cbn [forallb sat covered]. rewrite !andb_true_r.
  induction hs as [|h hs [IHs IHc]]; [done|]. cbn [map existsb forallb].
  pose proof (sat_entry_hash h e) as [Es Ec]. unfold sat_all, covered_all in Es, Ec. cbn [forallb] in Es, Ec.
  rewrite !andb_true_r in Es, Ec. rewrite Es, Ec, IHs, IHc. split; [|done].
  destruct (decide (er_hash e = h)) as [E|Hne].
  - rewrite (bool_decide_eq_true_2 (er_hash e = h)) by done. symmetry. apply bool_decide_eq_true_2. rewrite E. by left.
  - rewrite (bool_decide_eq_false_2 (er_hash e = h)) by done. simpl. apply bool_decide_ext. set_solver.
Qed.
End Queries.

Section Facts.
Context {I St J Jt Q Sy Hi : Type} `{JsEnv, !JsEnvLaws, Hashing, Document Range, !RangeDocument, Index I St Range, !IndexLaws I St Range,
  !IndexStore I Range, Document EntryReplicated, !EntryDocument, Index J Jt EntryReplicated, !IndexLaws J Jt EntryReplicated,
  !IndexStore J EntryReplicated, !IndexStoreLaws J Jt EntryReplicated, Document ShallowEntry, Queue Q string, LogEnv, ReplicasCodec,
  !Syncronizer Sy}.
Abbreviation State := (SharedLog (I := I) (J := J) (Q := Q) (Sy := Sy) (Hi := Hi)).
Context (o : Options) (so : SharedOptions) (round_log : Z -> nat -> Z) (subscribers : Z -> nat).
Abbreviation me := (hashcode (publicKey_ o)).
Implicit Types s : State.

(** An index of entries under their hashes. *)
Record coordinates_ok (idx : J) : Prop := {
  co_idx : idx_ok idx;
  co_ids e : doc_id idx e = Some (PStr (er_hash e));
}.

Lemma put_coordinates_spec e s :
  coordinates_ok (sl_coordinates s) ->
  exists idx, put_coordinates e s =
      (Val tt, set_coordinates idx (coordinateToHash s ++ map (fun c => (c, er_hash e)) (er_coordinates e)) s) /\
    coordinates_ok idx /\
    forall w, w ∈ documents idx <-> w = e \/ w ∈ documents (sl_coordinates s) /\ er_hash w <> er_hash e.
Proof.
  intros [Hok Hid]. destruct (law_put (sl_coordinates s) e _ Hok (Hid e)) as (idx & E & Hok' & Hd & Hm).
  exists idx. split; [|split].
  - unfold put_coordinates, bindM, gets, lift, modify. by rewrite E.
  - split; [done|]. intros w. by rewrite Hd.
  - intros w. rewrite Hm, Hid. split; (intros [|[Hw Hne]]; [by left|right; split; [done|]]); congruence.
Qed.

Lemma del_coordinates_spec ql qs (P : EntryReplicated -> bool) s :
  coordinates_ok (sl_coordinates s) -> toQuery ql = Val qs ->
  (forall e, sat_all qs (entry_js e) = P e /\ covered_all qs (entry_js e) = true) ->
  exists idx, del_coordinates ql s = (Val tt, set_coordinates idx (coordinateToHash s) s) /\ coordinates_ok idx /\
    forall w, w ∈ documents idx <-> w ∈ documents (sl_coordinates s) /\ P w = false.
Proof.
  intros [Hok Hid] Hql Hq. destruct (law_del (sl_coordinates s) ql qs Hql Hok) as (ids & idx & E & Hok' & Hd & Hm).
  { intros r Hr. unfold doc_of. rewrite entry_to_js. split; [apply Hq|done]. }
  exists idx. split; [|split].
  - unfold del_coordinates, bindM, gets, lift, modify. by rewrite E.
  - split; [done|]. intros w. by rewrite Hd.
  - intros w. by rewrite Hm, entry_to_js, (proj1 (Hq w)).
Qed.

Lemma deleteCoordinates_spec h s :
  coordinates_ok (sl_coordinates s) ->
  exists idx, deleteCoordinates h s = (Val tt, set_coordinates idx (coordinateToHash s) s) /\ coordinates_ok idx /\
    forall w, w ∈ documents idx <-> w ∈ documents (sl_coordinates s) /\ er_hash w <> h.
Proof.
  intros Hok. destruct (del_coordinates_spec (hash_query h) [hash_match h] (fun e => bool_decide (er_hash e = h)) s Hok eq_refl)
    as (idx & E & Hi' & Hm); [apply sat_entry_hash|].
  exists idx. split; [done|]. split; [done|]. intros w. by rewrite Hm, bool_decide_eq_false.
Qed.

Lemma new_entry_hash cs entry b : er_hash (new_entry o cs entry b) = ref_hash entry.
Proof. unfold new_entry. by destruct (resolution_ o). Qed.
Lemma new_entry_coordinates cs entry b : er_coordinates (new_entry o cs entry b) = cs.
Proof. unfold new_entry. by destruct (resolution_ o). Qed.

(** What is stored for an entry that this node leads. *)
Definition stores_entry (cs : list Z) (entry : EntryRef) (assigned : bool) (s s' : State) : Prop :=
  (forall w, w ∈ documents (sl_coordinates s') <->
     (w = new_entry o cs entry assigned \/ w ∈ documents (sl_coordinates s) /\ er_hash w <> ref_hash entry) /\
     er_hash w ∉ meta_next (ref_meta entry)) /\
  coordinateToHash s' = coordinateToHash s ++ map (fun c => (c, ref_hash entry)) cs.

Lemma persist_spec cs entry leaders replicas s :
  coordinates_ok (sl_coordinates s) ->
  exists idx c, persistCoordinate o cs entry leaders replicas None s = (Val tt, set_coordinates idx c s) /\ coordinates_ok idx /\
    stores_entry cs entry (shouldAssigneToRangeBoundary leaders replicas) s (set_coordinates idx c s).
Proof.
  intros Hok. unfold persistCoordinate, stores_entry. set (b := shouldAssigneToRangeBoundary leaders replicas).
  destruct (put_coordinates_spec (new_entry o cs entry b) s Hok) as (i1 & E1 & Hok1 & Hm1). unfold bindM at 1. rewrite E1.
  rewrite new_entry_coordinates, new_entry_hash in *.
  set (c := coordinateToHash s ++ map (fun c => (c, ref_hash entry)) cs).
  destruct (meta_next (ref_meta entry)) as [|n next] eqn:En.
  - exists i1, c. split; [done|]. split; [done|]. split; [|done]. cbn [sl_coordinates set_coordinates]. intros w. rewrite Hm1.
    split; [intros Hw; split; [exact Hw|apply not_elem_of_nil]|by intros [Hw _]].
  - unfold bindM at 1, lift at 1.
    change (new_Or (map (fun x => new_StringMatch "hash"%string x None None) (n :: next))) with (Val (Or (map hash_match (n :: next)))).
    destruct (del_coordinates_spec (QLOne (Or (map hash_match (n :: next)))) [Or (map hash_match (n :: next))]
                (fun e => bool_decide (er_hash e ∈ n :: next)) (set_coordinates i1 c s) Hok1 eq_refl) as (i2 & E2 & Hok2 & Hm2);
      [apply sat_entry_hashes|].
    exists i2, c. split; [exact E2|]. split; [done|]. split; [|done]. cbn [sl_coordinates set_coordinates] in Hm2 |- *. intros w.
    by rewrite Hm2, Hm1, bool_decide_eq_false.
Qed.

(** ** Leaders *)

Lemma set_rep_same s : set_rep (sl_rep s) s = s.
Proof. by destruct s. Qed.

Definition sound_leaders (cursors : list Z) (m : list (string * bool)) s : Prop :=
  forall h b, Map_get m h = Some b ->
    (exists r, r ∈ ranges (replicationIndex (sl_rep s)) /\ r_hash r = h) /\
    (b = true -> found_at (replicationIndex (sl_rep s)) cursors h).

Lemma _findLeaders_spec cursors roleAge now s :
  ranges_ok (resolution_ o) (replicationIndex (sl_rep s)) -> Forall (fun p => 0 <= p <= ring (resolution_ o)) cursors ->
  exists m, _findLeaders o round_log subscribers cursors roleAge now s = (Val m, s) /\ sound_leaders cursors m s.
Proof.
  intros Hr Hc. unfold _findLeaders.
  assert (Ha : exists age, (match roleAge with Some a => ret a
     | None => on_rep (getDefaultMinRoleAge o round_log (subscribers now) now) end) s = (Val age, s)).
  { destruct roleAge as [a|]; [by exists a|]. unfold on_rep. rewrite role_age_constant, set_rep_same. by eexists. }
  destruct Ha as (age & Ea). unfold bindM at 1. rewrite Ea. unfold bindM, gets, lift.
  destruct (getSamples_sound (resolution_ o) (replicationIndex (sl_rep s)) (sampling_fuel (replicationIndex (sl_rep s))) cursors age now
    (MkSampleOptions false (Some (uniqueReplicators_ (sl_rep s)))) Hr) as (m & E & Hm); [|done|].
  { unfold sampling_fuel, search_fuel. lia. }
  rewrite E. by exists m.
Qed.

Lemma grid_in_range cursor n : Forall (fun p => 0 <= p <= ring (resolution_ o)) (getGrid (createNumbers (resolution_ o)) cursor n).
Proof.
  apply Forall_forall. intros p Hp%numbers_grid_range. change (maxValue (createNumbers (resolution_ o))) with (ring (resolution_ o)) in Hp. lia.
Qed.

Lemma findLeaders_spec cursors entry roleAge hasOnLeader now s :
  ranges_ok (resolution_ o) (replicationIndex (sl_rep s)) -> coordinates_ok (sl_coordinates s) ->
  Forall (fun p => 0 <= p <= ring (resolution_ o)) cursors ->
  exists m s', findLeaders o round_log subscribers cursors entry roleAge hasOnLeader PersistUndefined now s = (Val m, s') /\
    _findLeaders o round_log subscribers cursors roleAge now s = (Val m, s) /\
    sound_leaders cursors m s /\ coordinates_ok (sl_coordinates s') /\
    (if hasOnLeader && Map_has m me && negb (sl_closed s)
     then exists idx c, s' = set_coordinates idx c s /\
            stores_entry cursors entry (shouldAssigneToRangeBoundary (Some m) (Z.of_nat (length cursors))) s s'
     else s' = s).
Proof.
  intros Hr Hco Hc. destruct (_findLeaders_spec cursors roleAge now s Hr Hc) as (m & E & Hm).
  unfold findLeaders. unfold bindM at 1. rewrite E. unfold bindM at 1, gets at 1.
  destruct (hasOnLeader && Map_has m me && negb (sl_closed s)) eqn:Ec.
  - destruct (persist_spec cursors entry (Some m) (Z.of_nat (length cursors)) s Hco) as (idx & c & Ep & Hi' & Hs).
    exists m, (set_coordinates idx c s). split; [|split; [done|split; [done|split; [done|rewrite Ec; by exists idx, c]]]].
    unfold bindM, whenM. by rewrite Ep.
  - exists m, s. rewrite Ec. split; [|by split_and!]. done.
Qed.

(** Leading an entry, with the coordinates computed from it. *)
Lemma isLeader_spec entry replicas roleAge now s c :
  ranges_ok (resolution_ o) (replicationIndex (sl_rep s)) -> coordinates_ok (sl_coordinates s) ->
  so_fromEntry so (ref_meta entry) = Val c ->
  exists m, isLeader o so round_log subscribers entry replicas roleAge false PersistUndefined now s = (Val (Map_has m me), s) /\
    sound_leaders (getGrid (createNumbers (resolution_ o)) c (Z.to_nat replicas)) m s.
Proof.
  intros Hr Hco Ec. unfold isLeader, createCoordinates. unfold bindM at 1. unfold bindM at 1, lift at 1. rewrite Ec. unfold ret at 1.
  destruct (findLeaders_spec _ entry roleAge false now s Hr Hco (grid_in_range c (Z.to_nat replicas))) as (m & s' & E & _ & Hm & _ & Hs).
  simpl in Hs. subst s'. exists m. split; [|done]. unfold bindM at 1. by rewrite E.
Qed.

End Facts.

(** C17. In an open shared log, and whenever a coordinate can be made from the entry,
    finding the leaders succeeds, and its answer is sound: every leader owns a
    stored range, and one that is marked as intersecting owns a range at one of the
    coordinates. When the caller listens for leaders, the option to persist is left
    undefined and this node is a leader, the coordinates are stored, with the
    boundary flag of shouldAssignToRangeBoundary, under the hash of the entry, and
    those of the entries it follows are forgotten; otherwise nothing changes: a
    leader whose caller does not listen stores nothing (finding: it should whenever
    it leads). *)
Theorem findLeaders_stores {I St J Jt Q Sy Hi : Type} `{JsEnv, !JsEnvLaws, Hashing, Document Range, !RangeDocument, Index I St Range,
    !IndexLaws I St Range, !IndexStore I Range, Document EntryReplicated, !EntryDocument, Index J Jt EntryReplicated,
    !IndexLaws J Jt EntryReplicated, !IndexStore J EntryReplicated, !IndexStoreLaws J Jt EntryReplicated, Document ShallowEntry,
    Queue Q string, LogEnv, ReplicasCodec, !Syncronizer Sy}
    (o : Options) (so : SharedOptions) (round_log : Z -> nat -> Z) (subscribers : Z -> nat) (entry : EntryRef) (replicas c : Z)
    (roleAge : option Z) (hasOnLeader : bool) (now : Z) (s : SharedLog (I := I) (J := J) (Q := Q) (Sy := Sy) (Hi := Hi))
    (Hranges : ranges_ok (resolution_ o) (replicationIndex (sl_rep s))) (Hco : coordinates_ok (sl_coordinates s))
    (Hfrom : so_fromEntry so (ref_meta entry) = Val c) (Hopen : sl_closed s = false) :
  let cursors := getGrid (createNumbers (resolution_ o)) c (Z.to_nat replicas) in
  createCoordinates o so entry replicas s = (Val cursors, s) /\
  exists m s', findLeaders o round_log subscribers cursors entry roleAge hasOnLeader PersistUndefined now s = (Val m, s') /\
    sound_leaders cursors m s /\
    (if hasOnLeader && Map_has m (hashcode (publicKey_ o))
     then stores_entry o cursors entry (shouldAssigneToRangeBoundary (Some m) (Z.of_nat (length cursors))) s s'
     else s' = s).
Proof.
  intros cursors. split; [unfold createCoordinates, bindM, lift; by rewrite Hfrom|].
  destruct (findLeaders_spec o round_log subscribers cursors entry roleAge hasOnLeader now s Hranges Hco (grid_in_range o c _))
    as (m & s' & E & _ & Hm & _ & Hs). exists m, s'. split; [done|]. split; [done|]. rewrite Hopen, andb_true_r in Hs.
  destruct (hasOnLeader && Map_has m (hashcode (publicKey_ o))); [|done]. by destruct Hs as (idx & c' & -> & Hs).
Qed.

(** After a restart the stored ranges are not known to belong to replicators:
    the set of replicators is empty though the index is not, and a search ends at
    once when no range contains the first coordinate: it answers that nobody
    leads, whatever other ranges there are (finding). *)
Theorem reopened_without_leaders {I St J Jt Q Sy Hi : Type} `{JsEnv, !JsEnvLaws, Hashing, Document Range, !RangeDocument, Index I St Range,
    !IndexLaws I St Range, !IndexStore I Range, Index J Jt EntryReplicated, Document ShallowEntry, Queue Q string, LogEnv, ReplicasCodec}
    (o : Options) (round_log : Z -> nat -> Z) (subscribers : Z -> nat) (cursor : Z) (cursors : list Z) (now opened_at : Z) (i : I)
    (s : SharedLog (I := I) (J := J) (Q := Q) (Sy := Sy) (Hi := Hi))
    (Hi' : ranges_ok (resolution_ o) i) (Hopened : sl_rep s = opened i opened_at)
    (Hc : 0 <= cursor <= ring (resolution_ o)) (Hgap : forall r, r ∈ ranges i -> contains r cursor = false) :
  _findLeaders o round_log subscribers (cursor :: cursors) None now s = (Val [], s).
Proof.
  unfold _findLeaders. unfold bindM at 1, on_rep at 1. rewrite role_age_constant, set_rep_same. unfold bindM, gets, lift.
  rewrite Hopened. cbn [opened replicationIndex uniqueReplicators_ isReplicating_]. do 2 f_equal.
  unfold getSamples, sampling_fuel. cbn [samples_loop].
  unfold allRangesContainingPoint. cbn [point_list foldM].
  pose proof (containing_one_val (resolution_ o) i cursor Hi' Hc) as E.
  pose proof (fun x => containing_one_elem (resolution_ o) i cursor _ x Hi' Hc E) as Hmem. rewrite E. cbn [mbind outcome_bind app].
  set (l := _ ++ _) in *.
  assert (El : l = []).
  { destruct l as [|x l0]; [done|]. destruct (proj1 (Hmem x)) as [Hx Hcx]; [by left|]. rewrite Hgap in Hcx; [done|].
    by apply list_elem_of_fmap_2. }
  by rewrite El.
Qed.
