(* ===== verification/PruningFacts.v ===== *)
(** * A checked prune removes only what enough leaders hold

    [prune_step] is what can happen to a node: messages, checks and timeouts of
    waits, the debounced calls, timers, changes of ranges, peers that come and go,
    in any order.  With the answers received so far beside the state, every
    removal that is scheduled has been answered for by as many other peers as the
    entry wants replicas.  Then: what the requests say and to whom, and what the
    code does not look at. *)

From Stdlib Require Import ZArith Lia.
From stdpp Require Import base sets list strings relations.
From S2P Require Import Prelude JsMap Cache Clock JsVal Query IndexInterface IndexStore Integers LogSorting EntryIndex Trim Log ExchangeHeads Ranges RangeQueries RangeIterators Rebalance SimpleSync Effects Replicators Replication SharedLog Pruning SharedLogMessages.

Local Open Scope Z_scope.

Lemma Map_set_elem_weak {K V} `{EqDecision K} (m : list (K * V)) k v e : e ∈ Map_set m k v -> e = (k, v) \/ e ∈ m.
Proof.
  induction m as [|[k' v'] m IH]; cbn [Map_set].
  { intros ->%list_elem_of_singleton. by left. }
  case_decide as Hk.
  - intros [->|He]%elem_of_cons; [left; by subst|right; by right].
  - intros [->|He]%elem_of_cons; [right; by left|]. destruct (IH He) as [->|Hm]; [by left|right; by right].
Qed.

Section Facts.
Context {I St J Jt Q Sy Hi : Type} `{JsEnv, Hashing, Index I St Range, !IndexStore I Range, Index J Jt EntryReplicated,
  !IndexStore J EntryReplicated, Document ShallowEntry, Queue Q string, LogEnv, ReplicasCodec, !Syncronizer Sy, !History Hi}.
Abbreviation State := (SharedLog (I := I) (J := J) (Q := Q) (Sy := Sy) (Hi := Hi)).
Context (o : Options) (so : SharedOptions).
Context (round_log : Z -> nat -> Z) (subscribers : Z -> nat) (log_fuel : nat).
Abbreviation me := (hashcode (publicKey_ o)).
Implicit Types s : State.

(** ** Steps that add no answer *)

(** The degree an entry is pruned with. *)
Definition quorum (m : MinReplicas) (n : Z) : Prop := (m' ← getClampedReplicas (so_limits so) (Some m); getValue m') = Val n.

Definition shrinks (m m' : list (string * list string)) : Prop :=
  forall hash set', (hash, set') ∈ m' -> exists set, (hash, set) ∈ m /\ set' ⊆ set /\ (NoDup set -> NoDup set').

Lemma shrinks_refl m : shrinks m m.
Proof. intros hash set E. by exists set. Qed.
Lemma shrinks_trans m1 m2 m3 : shrinks m1 m2 -> shrinks m2 m3 -> shrinks m1 m3.
Proof.
  intros H1' H2' hash set E. destruct (H2' hash set E) as (set2 & E2 & Hs2 & Hn2).
  destruct (H1' hash set2 E2) as (set1 & E1 & Hs1 & Hn1). exists set1. split; [done|]. split; [set_solver|auto].
Qed.
Lemma shrinks_delete m k : shrinks m (Map_delete m k).
Proof. intros hash set [E _]%Map_delete_elem. by exists set. Qed.
(** An answer is taken back. *)
Lemma shrinks_set m0 m k set0 x : shrinks m0 m -> (k, set0) ∈ m0 -> shrinks m0 (Map_set m k (Set_delete set0 x)).
Proof.
  intros Hm E0 hash set [E|E]%Map_set_elem_weak; [|by apply Hm]. injection E as -> ->.
  exists set0. split; [done|]. split; [intros y Hy; by apply Set_delete_elem in Hy as []|apply Set_delete_NoDup].
Qed.

(** Pending deletes are kept under the hash of their entry. *)
Definition well_placed (m m' : list (string * PendingDelete)) : Prop :=
  forall h p, Map_get m' h = Some p -> Map_get m h = Some p \/ ref_hash (del_entry p) = h.

(** Fewer answers, waits and removals. *)
Definition calms s s' : Prop :=
  shrinks (requestIPruneResponses s) (requestIPruneResponses s') /\ waiters s' ⊆ waiters s /\ removals s' ⊆ removals s /\
  well_placed (pendingDeletes s) (pendingDeletes s').

Lemma calms_refl s : calms s s.
Proof. split_and!; [apply shrinks_refl|done|done|]. intros h p E. by left. Qed.
Lemma calms_responses s s' :
  shrinks (requestIPruneResponses s) (requestIPruneResponses s') -> waiters s' = waiters s -> removals s' = removals s ->
  well_placed (pendingDeletes s) (pendingDeletes s') -> calms s s'.
Proof. intros Hs E2 E3 Hd. unfold calms. rewrite E2, E3. by split_and!. Qed.
Lemma calms_frame s s' :
  requestIPruneResponses s' = requestIPruneResponses s -> waiters s' = waiters s -> removals s' = removals s ->
  pendingDeletes s' = pendingDeletes s -> calms s s'.
Proof. intros E1 E2 E3 E4. unfold calms. rewrite E1, E2, E3, E4. apply calms_refl. Qed.
Lemma calms_trans s1 s2 s3 : calms s1 s2 -> calms s2 s3 -> calms s1 s3.
Proof.
  intros (? & ? & ? & Hd) (? & ? & ? & Hd'). split_and!; [by eapply shrinks_trans|set_solver|set_solver|].
  intros h p [E|E]%Hd'; [by apply Hd|by right].
Qed.
Lemma placed_same m : well_placed m m.
Proof. intros h p E. by left. Qed.
Lemma placed_delete m k : well_placed m (Map_delete m k).
Proof. intros h p E. rewrite Map_get_delete in E. case_decide; [done|by left]. Qed.
Lemma placed_clear hash id s : well_placed (pendingDeletes s) (pendingDeletes (clear_pending hash id s)).
Proof.
  unfold clear_pending. destruct (Map_get _ _) as [q|]; [|apply placed_same].
  destruct (del_id q =? id)%nat; [apply placed_delete|apply placed_same].
Qed.
Lemma calms_clear hash id s : calms s (clear_pending hash id s).
Proof.
  pose proof (placed_clear hash id s) as Hd. unfold clear_pending in *. destruct (Map_get _ _) as [q|]; [|apply calms_refl].
  destruct (del_id q =? id)%nat; [|apply calms_refl]. by apply calms_responses; [apply shrinks_refl| | |].
Qed.

(** A method whose every step does. *)
Definition calm {A} (m : Method State A) : Prop := forall s, calms s (m s).2.

Lemma calm_ret {A} (a : A) : calm (ret a).
Proof. intros s. apply calms_refl. Qed.
Lemma calm_raise {A} e : calm (raise (A := A) e).
Proof. intros s. apply calms_refl. Qed.
Lemma calm_lift {A} (r : outcome A) : calm (lift r).
Proof. intros s. apply calms_refl. Qed.
Lemma calm_gets {A} (f : State -> A) : calm (gets f).
Proof. intros s. apply calms_refl. Qed.
Lemma calm_modify (f : State -> State) : (forall s, calms s (f s)) -> calm (modify f).
Proof. done. Qed.
Lemma calm_bind {A B} (m : Method State A) (k : A -> Method State B) : calm m -> (forall a, calm (k a)) -> calm (bindM m k).
Proof.
  intros Hm Hk s. apply bindM_spec; [apply Hm|]. intros a s' E. apply (calms_trans s s'); [|apply Hk].
  specialize (Hm s). by rewrite E in Hm.
Qed.
Lemma calm_attempt {A} (m : Method State A) : calm m -> calm (attempt m).
Proof. intros Hm s. specialize (Hm s). unfold attempt. by destruct (m s). Qed.
Lemma calm_when c (m : Method State unit) : calm m -> calm (whenM c m).
Proof. intros Hm. destruct c; [done|apply calm_ret]. Qed.
Lemma calm_forM {A} (f : A -> Method State unit) l : (forall x, calm (f x)) -> calm (forM f l).
Proof. intros Hf. induction l as [|x l IH]; [apply calm_ret|]. by apply calm_bind. Qed.
Lemma calm_on_rep {A} (m : Method (Replicators (I := I)) A) : calm (on_rep m).
Proof. intros s. unfold on_rep. destruct (m (sl_rep s)) as [r x]. by apply calms_frame. Qed.
Lemma calm_on_log {A} (f : Log (Q := Q) -> outcome (A * Log (Q := Q))) : calm (on_log f).
Proof. intros s. unfold on_log. destruct (f (sl_log s)) as [[a l]|e|]; by apply calms_frame. Qed.
Lemma calm_detached (m : Method State unit) : calm m -> calm (detached m).
Proof. intros Hm. apply calm_bind; [by apply calm_attempt|intros r; apply calm_ret]. Qed.

Create HintDb calm discriminated.
Hint Resolve calm_ret calm_raise calm_lift calm_gets calm_attempt calm_when calm_forM calm_on_rep calm_on_log calm_detached : calm.

(** Changes of the other fields. *)
Ltac other_fields := intros ?; repeat match goal with |- context [match ?x with _ => _ end] => destruct x end; by apply calms_frame.

Ltac calm_auto :=
  repeat first
    [ solve [auto with calm]
    | apply calm_bind; [|intros ?]
    | apply calm_modify; solve [other_fields]
    | match goal with |- calm (match ?x with _ => _ end) => destruct x
                    | |- calm (if ?b then _ else _) => destruct b
                    | |- calm (let '(_, _) := ?x in _) => destruct x
                    | |- calm (forM _ _) => apply calm_forM; intros ?
                    | |- calm (whenM _ _) => apply calm_when
                    | |- calm (attempt _) => apply calm_attempt
                    | |- calm (detached _) => apply calm_detached end ].

Lemma calm_put e : calm (put_coordinates e).
Proof. unfold put_coordinates. calm_auto. Qed.
Lemma calm_del q : calm (del_coordinates q).
Proof. unfold del_coordinates. calm_auto. Qed.
Hint Resolve calm_put calm_del : calm.
Lemma calm_persist cs entry l n prev : calm (persistCoordinate o cs entry l n prev).
Proof. unfold persistCoordinate. calm_auto. Qed.
Lemma calm_create entry n : calm (createCoordinates o so entry n).
Proof. unfold createCoordinates. calm_auto. Qed.
Lemma calm__find cs age now : calm (_findLeaders o round_log subscribers cs age now).
Proof. unfold _findLeaders. calm_auto. Qed.
Hint Resolve calm_persist calm_create calm__find : calm.
Lemma calm_find cs entry age b p now : calm (findLeaders o round_log subscribers cs entry age b p now).
Proof. unfold findLeaders. calm_auto. Qed.
Hint Resolve calm_find : calm.
Lemma calm_isLeader entry n age b p now : calm (isLeader o so round_log subscribers entry n age b p now).
Proof. unfold isLeader. calm_auto. Qed.
Lemma calm_delete h : calm (deleteCoordinates h).
Proof. unfold deleteCoordinates. calm_auto. Qed.
Lemma calm_send m to : calm (send_message m to).
Proof. apply calm_modify. other_fields. Qed.
Lemma calm_fresh : calm fresh_id.
Proof. unfold fresh_id. calm_auto. Qed.
Hint Resolve calm_isLeader calm_delete calm_send calm_fresh : calm.

Lemma calm_forget_requests hash : calm (modify (forget_requests hash)).
Proof. intros s. apply calms_responses; [apply shrinks_delete|done|done|apply placed_same]. Qed.
Lemma calm_forget_entry entry : calm (modify (forget_entry entry)).
Proof. intros s. apply calms_responses; [apply shrinks_delete|done|done|apply placed_same]. Qed.
Lemma calm_reject p e : calm (modify (reject p e)).
Proof.
  intros s. apply (calms_trans s (clear_pending (ref_hash (del_entry p)) (del_id p) s)); [apply calms_clear|].
  eapply calms_trans; [apply (calm_forget_requests (ref_hash (del_entry p)))|]. unfold modify, reject, settle. cbn [snd].
  destruct (Map_has _ _); by apply calms_frame.
Qed.
Hint Resolve calm_forget_requests calm_forget_entry calm_reject : calm.
Lemma calm_prune_later h e l : calm (prune_later h e l).
Proof. unfold prune_later. calm_auto. Qed.
Hint Resolve calm_prune_later : calm.
Lemma calm_prune_timeout h : calm (prune_timeout h).
Proof. unfold prune_timeout. calm_auto. Qed.
Lemma calm_flush_responses : calm flush_responses.
Proof. unfold flush_responses. calm_auto. Qed.
Lemma calm_prune_entry t now acc x : calm (prune_entry t now acc x).
Proof.
  unfold prune_entry. destruct x as [entry leaders]. apply calm_bind; [calm_auto|intros l]. apply calm_bind; [calm_auto|intros [|]]; [calm_auto|].
  apply calm_bind; [calm_auto|intros m]. apply calm_bind; [calm_auto|intros id]. apply calm_bind; [|intros _; calm_auto].
  intros s. apply calms_responses; [apply shrinks_refl|done|done|]. intros h p. cbn [pendingDeletes set_deletes modify snd].
  rewrite Map_get_set. case_decide as Hh; [|by left]. intros [= <-]. by right.
Qed.
Hint Resolve calm_prune_entry : calm.
Lemma calm_prune_entries t now acc l : calm (prune_entries t now acc l).
Proof. revert acc. induction l as [|x l IH]; intros acc; cbn [prune_entries]; calm_auto. Qed.
Lemma calm_emit x : calm (emitMessages x).
Proof. unfold emitMessages. calm_auto. Qed.
Hint Resolve calm_prune_entries calm_emit : calm.
Lemma calm_remember hash from now : calm (remember_request so hash from now).
Proof. unfold remember_request. calm_auto. Qed.
Lemma calm_later leads hash r : calm (answered_later leads hash r).
Proof. unfold answered_later. calm_auto. Qed.
Hint Resolve calm_remember calm_later : calm.
Lemma calm_heads gid : calm (heads_of gid).
Proof. unfold heads_of. calm_auto. Qed.
Hint Resolve calm_heads : calm.
Lemma calm_any_heads refs : calm (any_heads refs).
Proof. induction refs as [|r refs IH]; cbn [any_heads]; calm_auto. Qed.
Hint Resolve calm_any_heads : calm.
Lemma calm_sort leads es : calm (sort_received so leads es).
Proof. induction es as [|e es IH]; cbn [sort_received]; calm_auto. Qed.
Lemma calm_prune_all es l : calm (prune_all es l).
Proof. unfold prune_all. calm_auto. Qed.
Lemma calm_unknown heads : calm (unknown_heads heads).
Proof. induction heads as [|h heads IH]; cbn [unknown_heads]; calm_auto. Qed.
Lemma calm_received_as_leader gid b from e : calm (modify (received_as_leader gid b from e)).
Proof. intros s. unfold modify, received_as_leader. cbn [snd]. destruct b; (apply calms_responses; [apply shrinks_delete|done|done|apply placed_same]). Qed.
Hint Resolve calm_sort calm_prune_all calm_unknown calm_received_as_leader : calm.

(** ** The invariant *)

Abbreviation Answers := (list (string * string)).
Implicit Types answers : Answers.

Record prune_ok answers s : Prop := {
  po_responses hash set : (hash, set) ∈ requestIPruneResponses s ->
    NoDup set /\ forall k, k ∈ set -> k <> me /\ (hash, k) ∈ answers;
  po_waiters id w p k n : (id, w) ∈ waiters s -> w_then w = CountAnswer p k n ->
    (ref_hash (del_entry p), k) ∈ answers /\ w_for w = [(k, true); (me, false)] /\ quorum (del_min p) n;
  po_pending h p : Map_get (pendingDeletes s) h = Some p -> ref_hash (del_entry p) = h;
  po_removals r : r ∈ removals s ->
    exists ks n, quorum (rm_min r) n /\ n <= Z.of_nat (length ks) /\ NoDup ks /\
      forall k, k ∈ ks -> k <> me /\ (ref_hash (rm_entry r), k) ∈ answers;
}.

Lemma prune_ok_calms answers s s' : calms s s' -> prune_ok answers s -> prune_ok answers s'.
Proof.
  intros (Hr & Hw & Hm & Hd) [H1' H2' H4' H3']. split.
  - intros hash set' E. destruct (Hr hash set' E) as (set & E0 & Hs & Hn). destruct (H1' hash set E0) as [Hnd Hk].
    split; [auto|]. intros k Hin. apply Hk. set_solver.
  - intros id w p k n Hin. apply (H2' id). by apply Hw.
  - intros h p [E|E]%Hd; [by apply H4'|done].
  - intros r Hin. apply H3'. by apply Hm.
Qed.

Lemma prune_ok_more answers more s : prune_ok answers s -> prune_ok (answers ++ more) s.
Proof.
  intros [H1' H2' H4' H3']. split.
  - intros hash set E. destruct (H1' hash set E) as [Hn Hk]. split; [done|]. intros k Hin. destruct (Hk k Hin). split; [done|set_solver].
  - intros id w p k n Hin E. destruct (H2' id w p k n Hin E) as (Ha & ? & ?). split_and!; [set_solver|done|done].
  - exact H4'.
  - intros r Hin. destruct (H3' r Hin) as (ks & n & ? & ? & ? & Hk). exists ks, n. split_and!; try done.
    intros k Hin'. destruct (Hk k Hin'). split; [done|set_solver].
Qed.

Lemma keeps_calm {A} answers (m : Method State A) : calm m -> keeps (prune_ok answers) m.
Proof. intros Hm s Hs. by apply (prune_ok_calms answers s). Qed.

(** A new wait. *)
Definition safe_cont answers (w : list (string * bool)) (c : Continuation) : Prop :=
  match c with
  | CountAnswer p k n => (ref_hash (del_entry p), k) ∈ answers /\ w = [(k, true); (me, false)] /\ quorum (del_min p) n
  | _ => True
  end.

Lemma keeps_wait answers cs entry w t age p c now :
  safe_cont answers w c -> keeps (prune_ok answers) (_waitForReplicators so cs entry w t age p c now).
Proof.
  intros Hc. unfold _waitForReplicators. apply keeps_bind; [apply keeps_calm, calm_fresh|intros id].
  apply keeps_modify. intros s [H1' H2' H4' H3']. split; [done| |done|done]. cbn [waiters set_waiters].
  intros id' w' p' k n [Hin|Hin]%elem_of_app E; [by apply (H2' id')|].
  apply list_elem_of_singleton in Hin. injection Hin as -> ->. cbn [w_then w_for] in *. by rewrite E in Hc.
Qed.

Lemma keeps_wait_to_lead answers entry c now :
  match c with CountAnswer _ _ _ => False | _ => True end -> keeps (prune_ok answers) (wait_to_lead o so entry c now).
Proof.
  intros Hc. unfold wait_to_lead. apply keeps_bind; [apply keeps_lift|intros n].
  apply keeps_bind; [apply keeps_calm; auto with calm|intros cs]. apply keeps_wait. by destruct c.
Qed.

Lemma keeps_detached answers (m : Method State unit) : keeps (prune_ok answers) m -> keeps (prune_ok answers) (detached m).
Proof. intros Hm. apply keeps_bind; [by apply keeps_attempt|intros r; apply keeps_ret]. Qed.

Ltac calm_step := apply keeps_calm; solve [calm_auto].

Lemma keeps_onEntryAdded answers entry now : keeps (prune_ok answers) (onEntryAdded o so entry now).
Proof.
  unfold onEntryAdded. apply keeps_bind; [apply keeps_gets|intros [p|]].
  - apply keeps_bind; [|intros _; calm_step]. apply keeps_bind; [calm_step|intros _]. apply keeps_detached.
    unfold ihave_callback. apply keeps_bind; [calm_step|intros _]. apply keeps_bind; [calm_step|intros _].
    by apply keeps_wait_to_lead.
  - apply keeps_bind; [apply keeps_ret|intros _; calm_step].
Qed.

Lemma keeps_onChange answers change now : keeps (prune_ok answers) (onChange o so change now).
Proof.
  unfold onChange. apply keeps_bind; [apply keeps_forM; intros x; apply keeps_onEntryAdded|intros _]. calm_step.
Qed.

Lemma keeps_call_log {A} answers (f : Log (Q := Q) -> outcome (A * Log (Q := Q))) now : keeps (prune_ok answers) (call_log o so f now).
Proof.
  unfold call_log. apply keeps_bind; [apply keeps_gets|intros l]. apply keeps_bind; [calm_step|intros a].
  apply keeps_bind; [apply keeps_gets|intros l']. apply keeps_bind; [|intros _; apply keeps_ret].
  apply keeps_forM. intros c. apply keeps_onChange.
Qed.

Lemma keeps_remove answers entry now : keeps (prune_ok answers) (log_remove o so log_fuel entry now).
Proof. unfold log_remove. apply keeps_bind; [apply keeps_call_log|intros _; apply keeps_ret]. Qed.

Lemma keeps_prune answers entries t b now : keeps (prune_ok answers) (prune o so log_fuel entries t b now).
Proof.
  unfold prune. destruct b; [|calm_step]. apply keeps_forM. intros x. unfold prune_unchecked.
  apply keeps_bind; [calm_step|intros _; apply keeps_detached, keeps_remove].
Qed.

Lemma keeps_flush_prune answers now : keeps (prune_ok answers) (flush_prune o so log_fuel now).
Proof.
  unfold flush_prune. apply keeps_bind; [apply keeps_gets|intros m]. apply keeps_bind; [calm_step|intros _]. apply keeps_prune.
Qed.

Lemma keeps_answer_prune answers hashes has from now : keeps (prune_ok answers) (answer_prune o so hashes has from now).
Proof.
  revert has. induction hashes as [|hash rest IH]; intros has; cbn [answer_prune]; [apply keeps_ret|].
  apply keeps_bind; [calm_step|intros _]. apply keeps_bind; [|intros _].
  { apply keeps_calm. intros s. unfold modify. cbn [snd]. destruct (Map_get _ hash) as [set|] eqn:E; [|apply calms_refl].
    apply Map_get_Some_elem in E. apply calms_responses; [by apply shrinks_set; [apply shrinks_refl|]|done|done|apply placed_same]. }
  apply keeps_bind; [apply keeps_gets|intros [e|]].
  - apply keeps_bind; [calm_step|intros _]. by apply keeps_wait_to_lead.
  - apply keeps_bind; [calm_step|intros _; apply IH].
Qed.

Lemma keeps_merge answers r leaders seen now : keeps (prune_ok answers) (merge_heads o so round_log subscribers log_fuel r leaders seen now).
Proof.
  unfold merge_heads. apply keeps_bind; [apply keeps_gets|intros [|]]; [apply keeps_ret|].
  apply keeps_bind; [calm_step|intros _]. apply keeps_bind; [calm_step|intros m]. apply keeps_bind.
  - destruct m.1; [apply keeps_ret|]. apply keeps_bind; [apply keeps_call_log|intros _; calm_step].
  - intros _. calm_step.
Qed.

Lemma keeps_receive answers heads from now : keeps (prune_ok answers) (receive_heads o so round_log subscribers log_fuel heads from now).
Proof.
  unfold receive_heads. apply keeps_bind; [calm_step|intros f]. apply keeps_forM. intros [gid entries]. apply keeps_detached.
  unfold receive_group. apply keeps_bind; [calm_step|intros _]. apply keeps_bind; [calm_step|intros heads'].
  destruct (getLatestEntry entries); [|apply keeps_ret].
  apply keeps_bind; [apply keeps_lift|intros n1]. apply keeps_bind; [apply keeps_lift|intros n2].
  apply keeps_bind; [calm_step|intros cs]. apply keeps_bind; [apply keeps_gets|intros [|]]; [by apply keeps_wait|].
  apply keeps_bind; [calm_step|intros l]. apply keeps_merge.
Qed.

Lemma keeps_resolve answers p k now :
  (ref_hash (del_entry p), k) ∈ answers -> keeps (prune_ok answers) (pending_resolve o so p k now).
Proof.
  intros Hk. unfold pending_resolve. intros s Hs. unfold bindM at 1, lift at 1.
  destruct (getClampedReplicas (so_limits so) (Some (del_min p))) as [m|e|] eqn:E; [|done|done].
  unfold bindM at 1, lift at 1. destruct (getValue m) as [n|e|] eqn:En; [|done|done].
  revert s Hs. change (keeps (prune_ok answers) (bindM (createCoordinates o so (del_entry p) n) (fun cursor =>
    _waitForReplicators so cursor (del_entry p) [(k, true); (me, false)] None None false (CountAnswer p k n) now))).
  apply keeps_bind; [calm_step|intros cs]. apply keeps_wait. split_and!; [done|done|]. unfold quorum. rewrite E. cbn. exact En.
Qed.

(** The answers that a message carries. *)
Definition answers_of (msg : SharedMessage) (from : PublicSignKey) : Answers :=
  match msg with
  | MsgResponseIPrune m => map (fun h => (h, hashcode from)) (response_hashes m)
  | _ => []
  end.

Lemma keeps_response answers hashes from now :
  (forall h, h ∈ hashes -> (h, hashcode from) ∈ answers) -> keeps (prune_ok answers) (on_response o so hashes from now).
Proof.
  intros Ha. unfold on_response. induction hashes as [|h hashes IH]; cbn [forM]; [apply keeps_ret|].
  apply keeps_bind; [|intros _; apply IH; intros h' Hh'; apply Ha; by right].
  intros s Hs. unfold bindM at 1, gets at 1. destruct (Map_get (pendingDeletes s) h) as [p|] eqn:E; [|done].
  apply keeps_detached; [|done]. apply keeps_resolve. rewrite (po_pending _ _ Hs h p E). apply Ha. by left.
Qed.

Lemma keeps_onMessage answers msg from now :
  (forall a, a ∈ answers_of msg from -> a ∈ answers) ->
  keeps (prune_ok answers) (onMessage o so round_log subscribers log_fuel msg from now).
Proof.
  intros Ha. unfold onMessage. apply keeps_detached. destruct msg; [apply keeps_receive|apply keeps_answer_prune| |apply keeps_ret].
  apply keeps_response. intros h Hh. apply Ha. apply list_elem_of_fmap. by exists h.
Qed.

(** ** Waits that end *)

Lemma check_found id w now s l seen s' :
  check o round_log subscribers id w now s = (Val (Some (l, seen)), s') -> waited_for (Map_keys l) (w_for w) = true.
Proof.
  unfold check. unfold bindM at 1. destruct (findLeaders _ _ _ _ _ _ _ _ _ s) as [[l'|e|] s1]; [|done|done].
  destruct (waited_for (Map_keys l') (w_for w)) eqn:E; unfold bindM, modify, ret; [|done]. by intros [= <- _ _].
Qed.

Lemma keeps_check answers id w now s :
  prune_ok answers s -> (id, w) ∈ waiters s -> prune_ok answers (check o round_log subscribers id w now s).2.
Proof.
  intros Hs Hw. unfold check. set (m := findLeaders _ _ _ _ _ _ _ _ _).
  assert (Hm : calm m) by apply calm_find. unfold bindM at 1. pose proof (Hm s) as Hc. destruct (m s) as [[l|e|] s1] eqn:E; cbn [snd] in *.
  2,3: by apply (prune_ok_calms answers s).
  assert (Hs1 : prune_ok answers s1) by (by apply (prune_ok_calms answers s)).
  destruct (waited_for (Map_keys l) (w_for w)).
  - apply (keeps_calm answers (modify (fun s => set_waiters (Map_delete (waiters s) id) s);;; ret (Some (l, fold_left Set_add (Map_keys l) (w_seen w))))%effects); [|done].
    apply calm_bind; [|intros _; calm_auto]. intros s2. split_and!; [apply shrinks_refl| |done|apply placed_same].
    intros x Hx. by apply Map_delete_elem in Hx as [].
  - unfold bindM, modify, ret. cbn [snd]. destruct Hs1 as [H1' H2' H4' H3']. split; [exact H1'| |exact H4'|exact H3'].
    cbn [waiters set_waiters]. intros id' w' p k n [Ee|Hin]%Map_set_elem_weak Et; [|by apply (H2' id')].
    injection Ee as -> ->. cbn [w_then w_for] in *. by apply (po_waiters _ _ Hs id w).
Qed.

Lemma keeps_count answers p k n now :
  (ref_hash (del_entry p), k) ∈ answers -> k <> me -> quorum (del_min p) n -> keeps (prune_ok answers) (count_answer so p k n now).
Proof.
  intros Ha Hk Hq s Hs. unfold count_answer. set (hash := ref_hash (del_entry p)) in *.
  set (set' := Set_add (default [] (Map_get (requestIPruneResponses s) hash)) k).
  set (s1 := set_responses (Map_set (requestIPruneResponses s) hash set') s).
  assert (Hset : NoDup set' /\ forall k', k' ∈ set' -> k' <> me /\ (hash, k') ∈ answers).
  { unfold set'. destruct (Map_get (requestIPruneResponses s) hash) as [set|] eqn:E; cbn [default].
    - apply Map_get_Some_elem in E. destruct (po_responses _ _ Hs hash set E) as [Hn Hall]. split; [by apply Set_add_NoDup|].
      intros k' [->|Hk']%Set_add_elem; [done|by apply Hall].
    - split; [apply Set_add_NoDup; constructor|]. intros k' [->|[]%not_elem_of_nil]%Set_add_elem. done. }
  assert (Hs1 : prune_ok answers s1).
  { destruct Hs as [H1' H2' H4' H3']. split; [|exact H2'|exact H4'|exact H3']. cbn [s1 set_responses requestIPruneResponses].
    intros h set [E|E]%Map_set_elem_weak; [|by apply H1']. by injection E as -> ->. }
  unfold bindM at 1, modify at 1. fold set'. fold s1. unfold bindM at 1, gets at 1.
  assert (E1 : default [] (Map_get (requestIPruneResponses s1) hash) = set').
  { cbn [s1 set_responses requestIPruneResponses]. by rewrite Map_get_set_eq. }
  rewrite E1. destruct (Z.leb_spec n (Z.of_nat (length set'))) as [Hle|]; [|exact Hs1].
  unfold bindM, modify. cbn [snd].
  assert (Hs2 : prune_ok answers (clear_pending hash (del_id p) s1)).
  { by apply (prune_ok_calms answers s1); [apply calms_clear|]. }
  destruct Hs2 as [H1' H2' H4' H3']. split; [exact H1'|exact H2'|exact H4'|]. cbn [removals set_removals].
  intros r [Hr|Hr]%elem_of_app; [by apply H3'|]. apply list_elem_of_singleton in Hr as ->. cbn [rm_min rm_entry].
  exists set', n. destruct Hset. by split_and!.
Qed.

(** What runs after a wait that has ended as awaited. *)
Lemma keeps_resume answers c leaders seen now :
  match c with CountAnswer p k n => leaders = None \/ (ref_hash (del_entry p), k) ∈ answers /\ k <> me /\ quorum (del_min p) n | _ => True end ->
  keeps (prune_ok answers) (resume o so round_log subscribers log_fuel c leaders seen now).
Proof.
  intros Hc. destruct c as [hash rest has from|hash r|p k n|r]; cbn [resume].
  - unfold answered_prune. destruct (Set_has seen me).
    + apply keeps_bind; [apply keeps_calm, calm_modify; other_fields|intros _; apply keeps_answer_prune].
    + apply keeps_bind; [apply keeps_calm; auto with calm|intros _; apply keeps_answer_prune].
  - apply keeps_calm. auto with calm.
  - destruct leaders as [l|]; [|apply keeps_ret]. destruct Hc as [|(? & ? & ?)]; [done|]. by apply keeps_count.
  - apply keeps_merge.
Qed.

Lemma keeps_wake answers id now : keeps (prune_ok answers) (wake o so round_log subscribers log_fuel id now).
Proof.
  intros s Hs. unfold wake. unfold bindM at 1, gets at 1. destruct (Map_get (waiters s) id) as [w|] eqn:Ew; [|done].
  apply Map_get_Some_elem in Ew. pose proof (keeps_check answers id w now s Hs Ew) as Hc.
  unfold bindM at 1. destruct (check o round_log subscribers id w now s) as [[[[l seen]|]|e|] s1] eqn:E; try exact Hc.
  apply keeps_resume; [|exact Hc]. destruct (w_then w) as [| |p k n|] eqn:Et; try done. right.
  destruct (po_waiters _ _ Hs id w p k n Ew Et) as (Ha & Hf & Hq). split_and!; [done| |done].
  apply check_found in E. rewrite Hf in E. unfold waited_for in E. cbn [forallb fst snd] in E.
  apply andb_true_iff in E as [E1 E2]. rewrite andb_true_r in E2. intros ->.
  apply eqb_prop in E1. apply eqb_prop in E2. congruence.
Qed.

Lemma keeps_wait_timeout answers id now : keeps (prune_ok answers) (wait_timeout o so round_log subscribers log_fuel id now).
Proof.
  unfold wait_timeout. apply keeps_bind; [apply keeps_gets|intros [w|]; [|apply keeps_ret]]. apply keeps_bind.
  - apply keeps_calm. intros s. split_and!; [apply shrinks_refl| |done|apply placed_same]. intros x Hx. by apply Map_delete_elem in Hx as [].
  - intros _. apply keeps_resume. destruct (w_then w); try done. by left.
Qed.

(** ** The rest of what happens to a node *)

Lemma keeps_rebalance answers acc l now : keeps (prune_ok answers) (rebalance_entries o so round_log subscribers now acc l).
Proof.
  apply keeps_calm. revert acc. induction l as [|e l IH]; intros acc; cbn [rebalance_entries]; [calm_auto|].
  apply calm_bind; [|intros acc'; apply IH]. unfold rebalance_entry. apply calm_bind; [calm_auto|intros [|]]; [calm_auto|].
  apply calm_bind; [calm_auto|intros old]. apply calm_bind; [calm_auto|intros peers]. apply calm_bind; [calm_auto|intros _].
  apply calm_bind; [calm_auto|intros _]. apply calm_bind; [|intros _; calm_auto]. destruct (Set_has _ _).
  - apply calm_bind; [calm_auto|intros _]. apply calm_bind; [|intros _; calm_auto].
    intros s. unfold modify. cbn [snd]. destruct (Map_get _ _) as [p|]; [|apply calms_refl]. apply (calm_reject p _ s).
  - apply calm_bind; [|intros _; calm_auto]. destruct (match so_sync so with Some f => _ | None => _ end); calm_auto.
Qed.

Lemma keeps_onReplicationChange answers changes now :
  keeps (prune_ok answers) (onReplicationChange o so round_log subscribers changes now).
Proof.
  unfold onReplicationChange. apply keeps_bind; [apply keeps_gets|intros [|]]; [apply keeps_ret|].
  apply keeps_bind; [apply keeps_call_log|intros _]. apply keeps_bind; [apply keeps_gets|intros idx].
  apply keeps_bind; [apply keeps_gets|intros h]. apply keeps_bind; [apply keeps_lift|intros r].
  apply keeps_bind; [calm_step|intros _]. apply keeps_bind; [apply keeps_rebalance|intros m].
  apply keeps_forM. intros x. unfold tell_missing. apply keeps_bind; [apply keeps_gets|intros sy].
  destruct (sync_onMaybeMissingEntries sy x.2 [x.1]) as [sy' sends]. calm_step.
Qed.

Lemma calm_forget_answers hash : calm (modify (fun s => fold_left (forget_answers hash) (requestIPruneResponses s) s)).
Proof.
  intros s. cbn [modify snd]. set (m0 := requestIPruneResponses s).
  assert (Hl : forall l s1, l ⊆ m0 -> shrinks m0 (requestIPruneResponses s1) /\ waiters s1 = waiters s /\ removals s1 = removals s /\
            pendingDeletes s1 = pendingDeletes s ->
            calms s (fold_left (forget_answers hash) l s1)).
  { induction l as [|[k set] l IH]; intros s1 Hsub (Hm & E2 & E3 & E4); cbn [fold_left].
    - apply calms_responses; try done. rewrite E4. apply placed_same.
    - apply IH; [set_solver|]. assert (Hin : (k, set) ∈ m0) by set_solver. unfold forget_answers. cbn [fst snd].
      pose proof (shrinks_set m0 _ k set hash Hm Hin) as Hsh.
      destruct (Set_delete set hash) as [|x set'] eqn:Ed; by split_and!. }
  apply Hl; [done|]. split_and!; try done. apply shrinks_refl.
Qed.
Lemma calm_forget_requested hash : calm (modify (fun s => fold_left (forget_requested hash) (requestIPruneSent s) s)).
Proof.
  intros s. cbn [modify snd]. generalize (requestIPruneSent s). intros l. revert s.
  induction l as [|e l IH]; intros s; cbn [fold_left]; [apply calms_refl|]. eapply calms_trans; [|apply IH]. by apply calms_frame.
Qed.
Hint Resolve calm_forget_answers calm_forget_requested : calm.

Lemma keeps_handleSubscription answers pk on_topic sub now : keeps (prune_ok answers) (handleSubscriptionChange o pk on_topic sub now).
Proof.
  apply keeps_calm. unfold handleSubscriptionChange. destruct on_topic; cbn [negb]; [|calm_auto].
  destruct sub; [apply calm_bind; [calm_auto|intros [|]]; calm_auto|].
  apply calm_bind; [calm_auto|intros _]. apply calm_bind; [calm_auto|intros _]. apply calm_bind; [calm_auto|intros _].
  calm_auto.
Qed.

Lemma calm_close sy hi : calm (modify (_close sy hi)).
Proof. intros s. split_and!; [by intros h set Hs%not_elem_of_nil|done|apply list_subseteq_nil|by intros h p]. Qed.

(** ** Steps *)

Inductive prune_step : State * Answers -> State * Answers -> Prop :=
| step_message msg from now s answers :
    prune_step (s, answers) ((onMessage o so round_log subscribers log_fuel msg from now s).2, answers ++ answers_of msg from)
| step_wake id now s answers : prune_step (s, answers) ((wake o so round_log subscribers log_fuel id now s).2, answers)
| step_wait_timeout id now s answers : prune_step (s, answers) ((wait_timeout o so round_log subscribers log_fuel id now s).2, answers)
| step_prune entries t unchecked now s answers : prune_step (s, answers) ((prune o so log_fuel entries t unchecked now s).2, answers)
| step_flush_prune now s answers : prune_step (s, answers) ((flush_prune o so log_fuel now s).2, answers)
| step_flush_responses s answers : prune_step (s, answers) ((flush_responses s).2, answers)
| step_prune_timeout hash s answers : prune_step (s, answers) ((prune_timeout hash s).2, answers)
| step_ihave_timeout hash s answers : prune_step (s, answers) (ihave_timeout hash s, answers)
| step_removal r l1 l2 now s answers :
    removals s = l1 ++ r :: l2 ->
    prune_step (s, answers) ((run_removal o so round_log subscribers log_fuel r now (set_removals (l1 ++ l2) s)).2, answers)
| step_cancel r l1 l2 s answers : removals s = l1 ++ r :: l2 -> prune_step (s, answers) (set_removals (l1 ++ l2) s, answers)
| step_change changes now s answers :
    prune_step (s, answers) ((onReplicationChange o so round_log subscribers changes now s).2, answers)
| step_subscription pk on_topic subscribed now s answers :
    prune_step (s, answers) ((handleSubscriptionChange o pk on_topic subscribed now s).2, answers)
| step_replicators {A} (m : Method (Replicators (I := I)) A) s answers : prune_step (s, answers) ((on_rep m s).2, answers)
| step_log {A} (f : Log (Q := Q) -> outcome (A * Log (Q := Q))) now s answers :
    prune_step (s, answers) ((call_log o so f now s).2, answers)
| step_close sy hi s answers : prune_step (s, answers) (_close sy hi s, answers).

Lemma calm_fewer_removals l1 r l2 s : removals s = l1 ++ r :: l2 -> calms s (set_removals (l1 ++ l2) s).
Proof. intros E. split_and!; [apply shrinks_refl|done| |apply placed_same]. cbn [removals set_removals]. rewrite E. set_solver. Qed.

Lemma keeps_removal answers r now : keeps (prune_ok answers) (run_removal o so round_log subscribers log_fuel r now).
Proof.
  unfold run_removal. apply keeps_bind; [calm_step|intros _]. apply keeps_bind; [apply keeps_lift|intros n].
  apply keeps_bind; [calm_step|intros [|]].
  - apply keeps_calm, calm_modify. unfold settle. other_fields.
  - apply keeps_bind; [apply keeps_attempt, keeps_remove|intros res]. apply keeps_bind; [|intros _; calm_step].
    apply keeps_calm, calm_modify. unfold settle. other_fields.
Qed.

Lemma prune_step_ok s answers s' answers' : prune_step (s, answers) (s', answers') -> prune_ok answers s -> prune_ok answers' s'.
Proof.
  intros Hstep Hs. inversion Hstep; subst.
  - apply keeps_onMessage; [set_solver|by apply prune_ok_more].
  - by apply keeps_wake.
  - by apply keeps_wait_timeout.
  - by apply keeps_prune.
  - by apply keeps_flush_prune.
  - by apply (keeps_calm answers' flush_responses); [apply calm_flush_responses|].
  - by apply (keeps_calm answers' (prune_timeout hash)); [apply calm_prune_timeout|].
  - apply (prune_ok_calms answers' s); [by apply calms_frame|done].
  - apply keeps_removal. by apply (prune_ok_calms answers' s); [eapply calm_fewer_removals|].
  - by apply (prune_ok_calms answers' s); [eapply calm_fewer_removals|].
  - by apply keeps_onReplicationChange.
  - by apply keeps_handleSubscription.
  - by apply (keeps_calm answers' (on_rep m)); [apply calm_on_rep|].
  - by apply keeps_call_log.
  - by apply (keeps_calm answers' (modify (_close sy hi))); [apply calm_close|].
Qed.

Lemma prune_steps_ok x y : rtc prune_step x y -> prune_ok x.2 x.1 -> prune_ok y.2 y.1.
Proof. intros Hs. induction Hs as [x|[s a] [s1 a1] z Hxy _ IH]; [done|]. intros Hx. apply IH. by eapply prune_step_ok. Qed.

End Facts.

(** * What pruning promises, and what it does not look at

    The theorems on pruning: the peers that have answered for a removal, the
    messages a prune sends, what a change of the ranges does to an entry, and
    three cases the code does not handle: an answer that is taken back late, an
    answer that arrives after the prune has been given up, and entries whose
    leaders could not be found. *)

Section Facts.
Context {I St J Jt Q Sy Hi : Type} `{JsEnv, Hashing, Index I St Range, !IndexStore I Range, Index J Jt EntryReplicated,
  !IndexStore J EntryReplicated, Document ShallowEntry, Queue Q string, LogEnv, ReplicasCodec, !Syncronizer Sy, !History Hi}.
Abbreviation State := (SharedLog (I := I) (J := J) (Q := Q) (Sy := Sy) (Hi := Hi)).
Context (o : Options) (so : SharedOptions).
Context (round_log : Z -> nat -> Z) (subscribers : Z -> nat) (log_fuel : nat).
Implicit Types s : State.

(** ** A search changes neither the log nor what is pending *)

Definition same_pruning (s0 : State) s : Prop :=
  sl_log s = sl_log s0 /\ removals s = removals s0 /\ settled s = settled s0 /\ gidPeersHistory s = gidPeersHistory s0 /\
  pruneDebounced s = pruneDebounced s0 /\ pendingDeletes s = pendingDeletes s0 /\ sl_closed s = sl_closed s0 /\
  requestIPruneSent s = requestIPruneSent s0 /\ requestIPruneResponses s = requestIPruneResponses s0 /\
  responseToPruneDebounced s = responseToPruneDebounced s0 /\ sl_outbox s = sl_outbox s0.

Lemma keeps_find s0 cs entry age b p now : keeps (same_pruning s0) (findLeaders o round_log subscribers cs entry age b p now).
Proof.
  assert (Hrep : forall A (m : Method (Replicators (I := I)) A), keeps (same_pruning s0) (on_rep m)).
  { intros A m s Hs. unfold on_rep. by destruct (m (sl_rep s)). }
  assert (Hput : forall e, keeps (same_pruning s0) (put_coordinates e)) by (intros e; unfold put_coordinates; keeps_auto; by apply keeps_modify).
  assert (Hdel : forall q, keeps (same_pruning s0) (del_coordinates q)) by (intros q; unfold del_coordinates; keeps_auto; by apply keeps_modify).
  unfold findLeaders, _findLeaders, persistCoordinate. keeps_auto; auto. apply keeps_when. keeps_auto; auto; by apply keeps_modify.
Qed.

Lemma keeps_leads s0 entry n age b p now : keeps (same_pruning s0) (isLeader o so round_log subscribers entry n age b p now).
Proof.
  unfold isLeader, createCoordinates. apply keeps_bind; [keeps_auto|intros cs].
  apply keeps_bind; [apply keeps_find|intros l; apply keeps_ret].
Qed.

Lemma detached_state (m : Method State unit) s : (detached m s).2 = (m s).2.
Proof. unfold detached, bindM, attempt. by destruct (m s). Qed.

(** ** The requests of a prune *)

Lemma push_entry_get hash keys P k :
  NoDup keys -> default [] (Map_get (fold_left (push_entry hash) keys P) k) =
    default [] (Map_get P k) ++ (if Set_has keys k then [hash] else []).
Proof.
  revert P. induction keys as [|k0 keys IH]; intros P Hnd; cbn [fold_left].
  { by rewrite app_nil_r. }
  apply NoDup_cons in Hnd as [Hk0 Hnd]. rewrite (IH _ Hnd). unfold push_entry. rewrite Map_get_set. case_decide as Hk.
  - subst k0. cbn [default from_option id]. rewrite <- app_assoc. f_equal. unfold Set_has.
    rewrite (bool_decide_eq_false_2 (k ∈ keys)) by done. by rewrite bool_decide_eq_true_2 by (by left).
  - do 2 f_equal. unfold Set_has. destruct (bool_decide (k ∈ keys)) eqn:E.
    + apply bool_decide_eq_true in E. symmetry. by rewrite bool_decide_eq_true_2 by (by right).
    + apply bool_decide_eq_false in E. rewrite bool_decide_eq_false_2; [done|]. by rewrite elem_of_cons; intros [|].
Qed.

(** The hashes that [k] is asked for. *)
Definition asked (entries : list (EntryRef * option Leaders)) (k : string) : list string :=
  flat_map (fun x => if Set_has (Map_keys (default [] x.2)) k then [ref_hash x.1] else []) entries.

(** An entry that [prune] can handle: its leaders are known and its degree can be read. *)
Definition prunable (x : EntryRef * option Leaders) : Prop :=
  exists l m, x.2 = Some l /\ Map_wf l /\ decodeReplicas (meta_data (ref_meta x.1)) = Val m.

Definition pending_more s s' (entries : list (EntryRef * option Leaders)) : Prop :=
  forall h, Map_has (pendingDeletes s') h = true <-> Map_has (pendingDeletes s) h = true \/ h ∈ map (fun x => ref_hash x.1) entries.

(** What registering pending deletes leaves alone. *)
Definition registered s s' : Prop :=
  sl_outbox s' = sl_outbox s /\ removals s' = removals s /\ requestIPruneSent s' = requestIPruneSent s /\ sl_log s' = sl_log s.

Lemma prune_entry_spec t now P x s :
  prunable x ->
  exists s', prune_entry t now P x s = (Val (fold_left (push_entry (ref_hash x.1)) (Map_keys (default [] x.2)) P), s') /\
    registered s s' /\ pending_more s s' [x].
Proof.
  destruct x as [e l0]. intros (l & m & El & _ & Em). cbn [snd fst] in *. subst l0. unfold prune_entry. unfold bindM at 1, ret at 1.
  unfold bindM at 1, gets at 1. destruct (Map_has (pendingDeletes s) (ref_hash e)) eqn:Eh.
  - eexists. split; [done|]. split; [done|]. intros h. cbn [map]. rewrite elem_of_cons. split; [by left|].
    intros [|[->|[]%not_elem_of_nil]]; done.
  - unfold bindM at 1, lift at 1. rewrite Em. unfold fresh_id. unfold bindM, gets, modify, ret. eexists. split; [done|]. split; [done|].
    intros h. cbn [map pendingDeletes set_deletes bump]. unfold Map_has. rewrite Map_get_set, elem_of_cons.
    case_decide as Hk; [subst h; split; [by intros _; right; left|done]|].
    split; [by left|]. by intros [|[->|[]%not_elem_of_nil]].
Qed.

Lemma prune_entries_spec t now entries P s :
  Forall prunable entries -> Map_wf P ->
  exists P' s', prune_entries t now P entries s = (Val P', s') /\ registered s s' /\ pending_more s s' entries /\
    Map_wf P' /\ forall k, default [] (Map_get P' k) = default [] (Map_get P k) ++ asked entries k.
Proof.
  intros Hp. revert P s. induction Hp as [|x entries Hx _ IH]; intros P s HP; cbn [prune_entries].
  { exists P, s. split; [done|]. split; [done|]. split; [|split; [done|intros k; by rewrite app_nil_r]].
    intros h. cbn [map]. split; [by left|by intros [|[]%not_elem_of_nil]]. }
  destruct (prune_entry_spec t now P x s Hx) as (s1 & E & Hr & Hm). unfold bindM at 1. rewrite E.
  set (P1 := fold_left _ _ P) in *.
  assert (HP1 : Map_wf P1).
  { unfold P1. apply (fold_left_keeps Map_wf); [|done]. intros m k _ Hmwf. by apply Map_set_wf. }
  destruct (IH P1 s1 HP1) as (P2 & s2 & E2 & Hr2 & Hm2 & HP2 & Hk2). exists P2, s2. split; [done|].
  split; [destruct Hr as (?&?&?&?), Hr2 as (?&?&?&?); split_and!; congruence|]. split; [|split; [done|]].
  - intros h. rewrite (Hm2 h), (Hm h). cbn [map]. rewrite !elem_of_cons. split.
    + intros [[|[|[]%not_elem_of_nil]]|]; auto.
    + intros [|[|]]; auto.
  - intros k. rewrite Hk2. destruct Hx as (l & m & El & Hwf & _). unfold P1. rewrite El. cbn [default from_option id].
    rewrite push_entry_get by exact Hwf. unfold asked. cbn [flat_map]. rewrite El. cbn [default from_option id]. by rewrite <- app_assoc.
Qed.

Definition request_to (x : string * list string) : SharedMessage * list string := (MsgRequestIPrune (MkRequestIPrune x.2), [x.1]).

Lemma emit_spec P s :
  exists s', forM emitMessages P s = (Val tt, s') /\ pendingDeletes s' = pendingDeletes s /\ removals s' = removals s /\ sl_log s' = sl_log s /\
    sl_outbox s' = sl_outbox s ++ map request_to (List.filter (fun x => negb (bool_decide (x.2 = []))) P).
Proof.
  revert s. induction P as [|[k l] P IH]; intros s; cbn [forM].
  { exists s. split; [done|]. by rewrite app_nil_r. }
  unfold emitMessages at 1. destruct l as [|h l]; cbn [List.filter snd].
  - unfold bindM at 1. unfold bindM at 1, modify at 1. unfold ret at 1. destruct (IH (set_sent (fold_left (respond_add [k]) [] (requestIPruneSent s)) s)) as (s' & -> & Hs). by exists s'.
  - unfold bindM at 1. unfold bindM at 1, modify at 1. unfold send_message, modify at 1.
    match goal with |- context [forM emitMessages P ?s0] => destruct (IH s0) as (s' & -> & E1 & E2 & E3 & E4) end.
    exists s'. split; [done|]. split; [done|]. split; [done|]. split; [done|]. rewrite E4. cbn [sl_outbox add_sent set_sent negb].
    rewrite bool_decide_eq_false_2 by done. cbn [negb map]. by rewrite <- app_assoc.
Qed.

End Facts.


(** A prune asks every leader, in one message, for exactly the entries it
    leads, in their order, and every entry is pending afterwards; nothing is
    removed yet. *)
Theorem prune_asks_leaders {I St J Jt Q Sy Hi : Type} `{JsEnv, Hashing, Index I St Range, !IndexStore I Range, Index J Jt EntryReplicated,
    !IndexStore J EntryReplicated, Document ShallowEntry, Queue Q string, LogEnv, ReplicasCodec, !Syncronizer Sy, !History Hi}
    (o : Options) (so : SharedOptions) (log_fuel : nat) (entries : list (string * (EntryRef * option (list (string * bool)))))
    (timeout : option Z) (now : Z) (s : SharedLog (I := I) (J := J) (Q := Q) (Sy := Sy) (Hi := Hi))
    (Hp : Forall prunable (Map_values entries)) (Hopen : sl_closed s = false) :
  exists requests s', prune o so log_fuel entries timeout false now s = (Val tt, s') /\
    sl_outbox s' = sl_outbox s ++ map request_to requests /\ NoDup (map fst requests) /\
    (forall k hashes, (k, hashes) ∈ requests -> hashes = asked (Map_values entries) k) /\
    (forall k, asked (Map_values entries) k <> [] -> k ∈ map fst requests) /\
    pending_more s s' (Map_values entries) /\ removals s' = removals s /\ sl_log s' = sl_log s.
Proof.
  unfold prune. unfold bindM at 1, gets at 1. rewrite Hopen.
  destruct (prune_entries_spec timeout now (Map_values entries) [] s Hp) as (P & s1 & E & (Er1 & Er2 & _ & Er4) & Hm & HP & Hk); [apply Map_empty_wf|].
  unfold bindM at 1. rewrite E. destruct (emit_spec P s1) as (s2 & E2 & Ed & Erm & Elog & Eout).
  set (R := List.filter (fun x => negb (bool_decide (x.2 = []))) P) in *.
  assert (HR : forall k l, (k, l) ∈ R <-> (k, l) ∈ P /\ l <> []).
  { intros k l. unfold R. rewrite elem_of_List_filter, negb_true_iff, bool_decide_eq_false. done. }
  assert (HRP : forall k l, (k, l) ∈ R -> l = asked (Map_values entries) k).
  { intros k l [Hin _]%HR. apply (Map_elem_get P k l HP) in Hin. specialize (Hk k). rewrite Hin in Hk. exact Hk. }
  exists R, s2. split; [done|]. split; [by rewrite Eout, Er1|]. split; [|split; [done|split; [|split; [|split; congruence]]]].
  - unfold R. by apply NoDup_map_filter.
  - intros k Hne. specialize (Hk k). cbn [Map_get default from_option id app] in Hk. destruct (Map_get P k) as [l|] eqn:El.
    + cbn [default from_option id] in Hk. subst l. apply list_elem_of_fmap. exists (k, asked (Map_values entries) k). split; [done|].
      apply HR. split; [by apply Map_get_Some_elem|done].
    + by cbn in Hk.
  - intros h. rewrite Ed. apply Hm.
Qed.

(** A leader that changes its mind is heard too late: a request to prune an
    entry takes back the sender's own answer, but only from the answers that are
    still being counted; a removal that waits for its timer is neither undone nor
    counted again (finding). *)
Theorem late_retraction_ignored {I St J Jt Q Sy Hi : Type} `{JsEnv, Hashing, Index I St Range, !IndexStore I Range, Index J Jt EntryReplicated,
    !IndexStore J EntryReplicated, Document ShallowEntry, Queue Q string, LogEnv, ReplicasCodec, !Syncronizer Sy, !History Hi}
    (o : Options) (so : SharedOptions) (round_log : Z -> nat -> Z) (subscribers : Z -> nat) (log_fuel : nat)
    (hash : string) (from : PublicSignKey) (now : Z) (s : SharedLog (I := I) (J := J) (Q := Q) (Sy := Sy) (Hi := Hi)) :
  let s' := (onMessage o so round_log subscribers log_fuel (MsgRequestIPrune (MkRequestIPrune [hash])) from now s).2 in
  removals s' = removals s /\
  forall set, Map_get (requestIPruneResponses s') hash = Some set -> hashcode from ∉ set.
Proof.
  intros s'.
  set (s1 := match Map_get (requestIPruneResponses s) hash with
             | Some set => set_responses (Map_set (requestIPruneResponses s) hash (Set_delete set (hashcode from)))
                             (removePruneRequestSent hash (Some (hashcode from)) s)
             | None => removePruneRequestSent hash (Some (hashcode from)) s
             end).
  assert (Hs1 : removals s1 = removals s /\ forall set, Map_get (requestIPruneResponses s1) hash = Some set -> hashcode from ∉ set).
  { unfold s1. destruct (Map_get (requestIPruneResponses s) hash) as [set0|] eqn:E.
    - split; [done|]. intros set. cbn [requestIPruneResponses set_responses]. rewrite Map_get_set_eq. intros [= <-] [_ Hne]%Set_delete_elem. done.
    - split; [done|]. intros set. cbn [requestIPruneResponses removePruneRequestSent set_sent]. by rewrite E. }
  assert (Hk : forall (m : Method (SharedLog (I := I) (J := J) (Q := Q) (Sy := Sy) (Hi := Hi)) unit),
     keeps (fun s2 => removals s2 = removals s1 /\ requestIPruneResponses s2 = requestIPruneResponses s1) m ->
     removals (m s1).2 = removals s /\ forall set, Map_get (requestIPruneResponses (m s1).2) hash = Some set -> hashcode from ∉ set).
  { intros m Hm. destruct (Hm s1) as [E1 E2]; [done|]. rewrite E1, E2. exact Hs1. }
  assert (E : exists m : Method _ unit, s' = (m s1).2 /\ keeps (fun s2 => removals s2 = removals s1 /\ requestIPruneResponses s2 = requestIPruneResponses s1) m).
  { subst s'. unfold onMessage. rewrite detached_state. cbn [answer_prune request_hashes].
    unfold bindM at 1, modify at 1. unfold bindM at 1, modify at 1.
    eexists. split; [reflexivity|]. unfold wait_to_lead, _waitForReplicators, createCoordinates, fresh_id, remember_request.
    keeps_auto; by apply keeps_modify. }
  destruct E as (m & -> & Hm). by apply Hk.
Qed.

(** Giving up does not stop a prune that waits for an answer to be confirmed:
    after a pending delete has been rejected, because the node leads again or time
    is up, a wait of one of its answers that ends schedules the removal all the
    same when one answer is enough; the caller has been told that it failed
    (finding). *)
Theorem given_up_still_removes {I St J Jt Q Sy Hi : Type} `{JsEnv, Hashing, Index I St Range, !IndexStore I Range, Index J Jt EntryReplicated,
    !IndexStore J EntryReplicated, Document ShallowEntry, Queue Q string, LogEnv, ReplicasCodec, !Syncronizer Sy, !History Hi}
    (o : Options) (so : SharedOptions) (p : PendingDelete) (k e : string) (n now : Z)
    (s : SharedLog (I := I) (J := J) (Q := Q) (Sy := Sy) (Hi := Hi)) (Hn : n <= 1) (Hfresh : Map_has (settled s) (del_id p) = false) :
  let s1 := reject p e s in
  let s2 := (count_answer so p k n now s1).2 in
  Map_get (settled s1) (del_id p) = Some (Exn e) /\ Map_get (settled s2) (del_id p) = Some (Exn e) /\
  removals s2 = removals s ++ [MkRemoval (del_id p) (del_entry p) (del_min p) (now + waitForPruneDelay so)].
Proof.
  intros s1 s2. set (hash := ref_hash (del_entry p)) in *.
  assert (Hs1 : settled s1 = settled s ++ [(del_id p, Exn e)] /\ removals s1 = removals s /\ Map_get (requestIPruneResponses s1) hash = None).
  { unfold s1, reject, settle. fold hash.
    assert (Es : settled (forget_requests hash (clear_pending hash (del_id p) s)) = settled s /\
                 removals (forget_requests hash (clear_pending hash (del_id p) s)) = removals s /\
                 Map_get (requestIPruneResponses (forget_requests hash (clear_pending hash (del_id p) s))) hash = None).
    { unfold forget_requests, clear_pending. destruct (Map_get (pendingDeletes s) hash) as [q|]; [destruct (del_id q =? del_id p)%nat|];
        (split; [done|split; [done|]]); cbn [requestIPruneResponses set_responses]; rewrite Map_get_delete; by rewrite decide_True. }
    destruct Es as (Es & Er & En). rewrite Es, Hfresh. cbn [settled removals requestIPruneResponses set_settled]. by rewrite Er. }
  destruct Hs1 as (E1 & E2 & E3).
  assert (Eget : Map_get (settled s ++ [(del_id p, Exn e)]) (del_id p) = Some (Exn e)).
  { assert (Hnone : Map_get (settled s) (del_id p) = None) by (unfold Map_has in Hfresh; by destruct (Map_get (settled s) (del_id p))).
    rewrite <- Map_set_new by exact Hnone. apply Map_get_set_eq. }
  set (s1' := clear_pending hash (del_id p) (set_responses (Map_set (requestIPruneResponses s1) hash [k]) s1)).
  set (r := MkRemoval (del_id p) (del_entry p) (del_min p) (now + waitForPruneDelay so)).
  assert (Ec : count_answer so p k n now s1 = (Val tt, set_removals (removals s1' ++ [r]) s1')).
  { unfold count_answer. fold hash. unfold bindM at 1, modify at 1. rewrite E3. cbn [default from_option id].
    unfold bindM at 1, gets at 1. cbn [requestIPruneResponses set_responses].
    rewrite Map_get_set_eq. cbn [default from_option id]. change (Set_add [] k) with [k]. cbn [length].
    assert (E6 : (n <=? Z.of_nat 1) = true) by (apply Z.leb_le; exact Hn). by rewrite E6. }
  assert (Hs2 : settled s2 = settled s1 /\ removals s2 = removals s1 ++ [r]).
  { unfold s2. rewrite Ec. unfold s1', clear_pending. cbn [snd settled removals set_removals].
    cbn [pendingDeletes set_responses].
    destruct (Map_get (pendingDeletes s1) hash) as [q|]; [destruct (del_id q =? del_id p)%nat|]; done. }
  destruct Hs2 as [E4 E5]. rewrite E4, E1, E5, E2. done.
Qed.

(** Entries whose leaders could not be found in time spoil the whole batch: a
    wait for leaders that ends without them leaves [false] in the place of the
    leaders, which is kept among the entries to prune; the debounced prune then
    fails with a [TypeError] before it has asked anyone, and everything that
    waited to be pruned is forgotten (finding). *)
Theorem prune_without_leaders {I St J Jt Q Sy Hi : Type} `{JsEnv, Hashing, Index I St Range, !IndexStore I Range, Index J Jt EntryReplicated,
    !IndexStore J EntryReplicated, Document ShallowEntry, Queue Q string, LogEnv, ReplicasCodec, !Syncronizer Sy, !History Hi}
    (o : Options) (so : SharedOptions) (log_fuel : nat) (entry : EntryRef) (now : Z)
    (s : SharedLog (I := I) (J := J) (Q := Q) (Sy := Sy) (Hi := Hi))
    (Hnew : Map_get (pruneDebounced s) (ref_hash entry) = None) (Hopen : sl_closed s = false)
    (Hothers : Forall prunable (Map_values (pruneDebounced s))) :
  exists s1 s2, prune_later (ref_hash entry) entry None s = (Val tt, s1) /\
    flush_prune o so log_fuel now s1 = (Exn "TypeError", s2) /\ pruneDebounced s2 = [] /\ sl_outbox s2 = sl_outbox s.
Proof.
  eexists. unfold prune_later. unfold bindM at 1, gets at 1. rewrite Hnew. unfold modify at 1.
  set (s1 := set_pruneDebounced _ s).
  assert (Ep : pruneDebounced s1 = pruneDebounced s ++ [(ref_hash entry, (entry, None))]).
  { unfold s1. cbn [pruneDebounced set_pruneDebounced]. by rewrite Map_set_new. }
  unfold flush_prune. unfold bindM at 1, gets at 1. rewrite Ep. unfold bindM at 1, modify at 1.
  unfold prune. unfold bindM at 1, gets at 1. cbn [sl_closed set_pruneDebounced]. unfold s1 at 1. cbn [sl_closed set_pruneDebounced]. rewrite Hopen.
  set (s1' := set_pruneDebounced [] _). unfold Map_values. rewrite map_app. cbn [map snd].
  assert (Hall : forall l P (s0 : SharedLog (I := I) (J := J) (Q := Q) (Sy := Sy) (Hi := Hi)), Forall prunable l -> pruneDebounced s0 = [] ->
     exists s2, prune_entries None now P (l ++ [(entry, None)]) s0 = (Exn "TypeError", s2) /\ pruneDebounced s2 = [] /\ sl_outbox s2 = sl_outbox s0).
  { intros l P s0 Hl. revert P s0. induction Hl as [|x l Hx _ IH]; intros P s0 Es; cbn [app prune_entries].
    - eexists. split; [|by split]. done.
    - destruct x as [e0 l0]. destruct Hx as (l1 & m & El & _ & Em). cbn [snd fst] in El, Em. subst l0.
      assert (Hone : exists s3, prune_entry None now P (e0, Some l1) s0 = (Val (fold_left (push_entry (ref_hash e0)) (Map_keys l1) P), s3) /\
                pruneDebounced s3 = pruneDebounced s0 /\ sl_outbox s3 = sl_outbox s0).
      { unfold prune_entry. unfold bindM at 1, ret at 1. unfold bindM at 1, gets at 1. destruct (Map_has _ _); [by eexists|].
        unfold bindM at 1, lift at 1. rewrite Em. by eexists. }
      destruct Hone as (s3 & E3 & Epd & Eo). unfold bindM at 1. rewrite E3.
      destruct (IH (fold_left (push_entry (ref_hash e0)) (Map_keys l1) P) s3) as (s4 & E4 & Ep4 & Eo4); [by rewrite Epd|].
      exists s4. split; [exact E4|]. split; [done|]. by rewrite Eo4. }
  destruct (Hall (map snd (pruneDebounced s)) [] s1' Hothers eq_refl) as (s2 & E2 & Ep2 & Eo2).
  exists s2. split; [done|]. split; [|split; [done|by rewrite Eo2]]. unfold bindM at 1. by rewrite E2.
Qed.
