(* ===== verification/RebalanceLog.v ===== *)
(** * What a change of the ranges does to an entry

    [onReplicationChange] handles the entries one by one: who leads now, who has
    to be told, what is pruned and what is kept.  The theorem on one entry, on
    any indexes that meet their contracts; and the entries that are trimmed first,
    which nobody is told of. *)

From Stdlib Require Import ZArith Lia.
From stdpp Require Import base sets list strings.
From S2P Require Import Prelude JsMap Cache Clock JsVal Query IndexInterface IndexStore Integers LogSorting EntryIndex Trim Log ExchangeHeads Ranges RangeFacts RangeQueries RangeIterators RangeSampling Rebalance RebalanceFacts SimpleSync Effects Replicators Replication SharedLog Pruning SharedLogMessages SharedLogFacts PruningFacts.

Local Open Scope Z_scope.

(** ** Entries to deliver *)

Definition delivered (D : list (string * list (string * EntryReplicated))) (peer hash : string) : Prop :=
  Map_has (default [] (Map_get D peer)) hash = true.

Lemma deliver_spec e D peer p h :
  delivered (deliver e D peer) p h <-> delivered D p h \/ p = peer /\ h = er_hash e.
Proof.
  unfold delivered, deliver. rewrite Map_get_set. case_decide as Hp.
  - subst p. cbn [default from_option id]. set (m := default [] (Map_get D peer)).
    destruct (Map_has m (er_hash e)) eqn:E.
    + split; [by left|]. intros [?|[_ ->]]; done.
    + unfold Map_has at 1. rewrite Map_get_set. case_decide as Hh.
      * subst h. split; [by right|done].
      * split; [by left|]. intros [?|[_ ?]]; [done|congruence].
  - split; [by left|]. intros [?|[? _]]; [done|congruence].
Qed.

Lemma deliver_all_spec e peers D p h :
  delivered (fold_left (deliver e) peers D) p h <-> delivered D p h \/ p ∈ peers /\ h = er_hash e.
Proof.
  revert D. induction peers as [|q peers IH]; intros D; cbn [fold_left].
  { rewrite elem_of_nil. tauto. }
  rewrite IH, deliver_spec, elem_of_cons. tauto.
Qed.

Lemma history_set {I J Q Sy Hi : Type} `{JsEnv, Hashing} gid keys (s : SharedLog (I := I) (J := J) (Q := Q) (Sy := Sy) (Hi := Hi)) :
  exists set, Map_get (gidPeersHistory (addPeersToGidPeerHistory gid keys true s)) gid = Some set /\ forall k, k ∈ set <-> k ∈ keys.
Proof.
  unfold addPeersToGidPeerHistory. cbn [gidPeersHistory set_gids]. rewrite Map_get_set_eq. eexists. split; [done|].
  intros k. rewrite Set_add_all_elem. destruct (Map_get _ gid); set_solver.
Qed.

Lemma reject_frame {I J Q Sy Hi : Type} `{JsEnv, Hashing} p e (s : SharedLog (I := I) (J := J) (Q := Q) (Sy := Sy) (Hi := Hi)) :
  gidPeersHistory (reject p e s) = gidPeersHistory s /\ pruneDebounced (reject p e s) = pruneDebounced s /\
  pendingDeletes (reject p e s) = pendingDeletes (clear_pending (ref_hash (del_entry p)) (del_id p) s).
Proof.
  assert (Hc : forall h id, gidPeersHistory (clear_pending h id s) = gidPeersHistory s /\ pruneDebounced (clear_pending h id s) = pruneDebounced s).
  { intros h id. unfold clear_pending. destruct (Map_get (pendingDeletes s) h) as [q|]; [|done]. by destruct (del_id q =? id)%nat. }
  destruct (Hc (ref_hash (del_entry p)) (del_id p)) as [E1 E2].
  unfold reject, settle. by destruct (Map_has _ _).
Qed.

