(* ===== verification/Debounce.v ===== *)
(** * Debouncing (packages/programs/data/shared-log/src/debounce.ts)

    [debounceFixedInterval] runs a function some time after it is called, with
    the arguments of the last call, and once more after the run if it has been
    called meanwhile.  [debounceAccumulator] collects values between the runs.
    The timer and the run are the steps of a machine; what is called is recorded
    in the order of the calls. *)

From Stdlib Require Import ZArith Lia.
From stdpp Require Import base list strings relations.
From S2P Require Import Prelude JsMap.

Local Open Scope Z_scope.

(** The variable [timeout]: [null], a timer that has not gone off, or the handle
    of one that has, which stays while the function runs. *)
Inductive Timeout := NoTimeout | Armed (due : Z) | Fired.

Section Interval.
Context {A : Type}.

Record Debounce := MkDebounce {
  timeout : Timeout;
  lastArgs : option A;
  pendingCall : bool;
  isRunning : bool;
  started : list A;        (* the calls of [fn] *)
}.

Definition new_Debounce : Debounce := MkDebounce NoTimeout None false false [].

(** [debounced(...args)]; [delay] is what [delayFn()] answers. *)
Definition debounced (args : A) (now delay : Z) (d : Debounce) : Debounce :=
  let busy := isRunning d || match timeout d with NoTimeout => false | _ => true end in
  MkDebounce (if busy then timeout d else Armed (now + delay)) (Some args) true (isRunning d) (started d).

(** [invoke] up to the [await]. *)
Definition invoke (d : Debounce) : Debounce :=
  match lastArgs d with
  | None => MkDebounce NoTimeout None (pendingCall d) (isRunning d) (started d)
  | Some args => MkDebounce Fired None false true (started d ++ [args])
  end.

(** The [finally] of [invoke]; an error has gone to [onError] before. *)
Definition finish (now delay : Z) (d : Debounce) : Debounce :=
  MkDebounce (if pendingCall d then Armed (now + delay) else NoTimeout) (lastArgs d) (pendingCall d) false (started d).

(** What can happen: a call, the timer, the end of a run.  The calls so far are
    kept beside the state. *)
Inductive debounce_step : Debounce * list A -> Debounce * list A -> Prop :=
| step_call args now delay d calls : debounce_step (d, calls) (debounced args now delay d, calls ++ [args])
| step_timer due d calls : timeout d = Armed due -> debounce_step (d, calls) (invoke d, calls)
| step_finish now delay d calls : isRunning d = true -> debounce_step (d, calls) (finish now delay d, calls).

(** ** The invariant *)

Record debounce_ok (d : Debounce) (calls : list A) : Prop := {
  db_pending : pendingCall d = true <-> is_Some (lastArgs d);
  db_running : isRunning d = true <-> timeout d = Fired;
  db_timer : pendingCall d = true -> timeout d <> NoTimeout;
  db_last : lastArgs d = last calls \/ lastArgs d = None /\ last (started d) = last calls;
  db_started : sublist (started d) calls;
  db_new : lastArgs d <> None -> sublist (started d) (removelast calls);
}.

Lemma sublist_removelast_app (l calls : list A) x : sublist l calls -> sublist l (removelast (calls ++ [x])).
Proof. intros Hl. by rewrite removelast_last. Qed.

Lemma debounce_step_ok x y : debounce_step x y -> debounce_ok x.1 x.2 -> debounce_ok y.1 y.2.
Proof.
  intros Hstep [Hp Hr Ht Hl Hs Hn]. destruct Hstep as [args now delay d calls|due d calls E|now delay d calls E]; cbn [fst snd] in *.
  - split; cbn [debounced pendingCall lastArgs isRunning timeout started].
    + split; [by eexists|done].
    + destruct (isRunning d) eqn:Er; cbn [orb]; [exact Hr|]. destruct (timeout d); [by split|exact Hr|exact Hr].
    + intros _. destruct (isRunning d) eqn:Er; cbn [orb]; [by rewrite (proj1 Hr eq_refl)|]. by destruct (timeout d).
    + left. by rewrite last_snoc.
    + by apply sublist_inserts_r.
    + intros _. by apply sublist_removelast_app.
  - destruct (lastArgs d) as [args|] eqn:Ea; unfold invoke; rewrite Ea.
    + destruct Hl as [Hl|[? _]]; [|done]. split; cbn [pendingCall lastArgs isRunning timeout started].
      * split; [done|by intros []].
      * done.
      * done.
      * right. by rewrite last_snoc.
      * destruct calls as [|c calls' _] using rev_ind; [done|]. rewrite last_snoc in Hl. injection Hl as ->.
        specialize (Hn ltac:(done)). rewrite removelast_last in Hn. by apply sublist_app.
      * done.
    + assert (Ef : pendingCall d = false).
      { apply not_true_iff_false. intros E0. apply Hp in E0 as [? E0]. congruence. }
      assert (Er : isRunning d = false).
      { apply not_true_iff_false. intros E0. apply Hr in E0. congruence. }
      split; cbn [pendingCall lastArgs isRunning timeout started]; rewrite ?Ef, ?Er; try done.
  - split; cbn [finish pendingCall lastArgs isRunning timeout started]; try done.
    + by destruct (pendingCall d).
    + by destruct (pendingCall d).
Qed.

Lemma debounce_reachable d calls : rtc debounce_step (new_Debounce, []) (d, calls) -> debounce_ok d calls.
Proof.
  intros Hs. assert (Hgen : forall x y, rtc debounce_step x y -> debounce_ok x.1 x.2 -> debounce_ok y.1 y.2).
  { intros x y Hxy. induction Hxy as [|a b c H12 _ IH]; [done|]. intros Ha. apply IH. by apply (debounce_step_ok a). }
  apply (Hgen _ _ Hs). split; cbn; try done; try (by left).
Qed.

End Interval.

(** ** Accumulators *)

(** What [create] returns: an object over a value; [acc_size] is what [size()] of
    that object answers. *)
Class Accumulator (K T V : Type) := {
  acc_create : V;
  acc_add : V -> T -> V;
  acc_delete : V -> K -> V;
  acc_size : V -> nat;
}.

(** [debouncedAccumulatorMap]: a value under its key, merged into the one that is
    there if the caller says how. *)
Definition map_Accumulator {T} (merge : option (T -> T -> T)) : Accumulator string (string * T) (list (string * T)) := {|
  acc_create := [];
  acc_add m x := Map_set m x.1 (match Map_get m x.1, merge with Some prev, Some f => f prev x.2 | _, _ => x.2 end);
  acc_delete := Map_delete;
  acc_size := length;
|}.

Section Accumulate.
Context {K T V : Type} `{Accumulator K T V}.

Record Accumulating := MkAccumulating {
  accumulator : V;
  debounce : Debounce (A := unit);
  sent : list V;               (* what [fn] is called with *)
}.

Definition new_Accumulating : Accumulating := MkAccumulating acc_create new_Debounce [].

Definition add (value : T) (now delay : Z) (s : Accumulating) : Accumulating :=
  MkAccumulating (acc_add (accumulator s) value) (debounced tt now delay (debounce s)) (sent s).

Definition delete (key : K) (s : Accumulating) : Accumulating :=
  MkAccumulating (acc_delete (accumulator s) key) (debounce s) (sent s).

(** [invoke] of the accumulator. *)
Definition flush (s : Accumulating) : Accumulating := MkAccumulating acc_create (debounce s) (sent s ++ [accumulator s]).

(** The timer of the debounce: a run of its function is a [flush]. *)
Definition fire (s : Accumulating) : Accumulating :=
  let s' := match lastArgs (debounce s) with Some _ => flush s | None => s end in
  MkAccumulating (accumulator s') (invoke (debounce s)) (sent s').

(** The reference: the values between two flushes, in their order. *)
Inductive Op := Add (value : T) | Delete (key : K).

Definition apply_op (v : V) (op : Op) : V := match op with Add x => acc_add v x | Delete k => acc_delete v k end.
Definition accumulate (ops : list Op) : V := fold_left apply_op ops acc_create.

Inductive accumulate_step : Accumulating * list (list Op) * list Op -> Accumulating * list (list Op) * list Op -> Prop :=
| acc_step_add value now delay s past ops :
    accumulate_step (s, past, ops) (add value now delay s, past, ops ++ [Add value])
| acc_step_delete key s past ops : accumulate_step (s, past, ops) (delete key s, past, ops ++ [Delete key])
| acc_step_fire due s past ops :
    timeout (debounce s) = Armed due ->
    accumulate_step (s, past, ops)
      (fire s, match lastArgs (debounce s) with Some _ => past ++ [ops] | None => past end,
               match lastArgs (debounce s) with Some _ => [] | None => ops end)
| acc_step_finish now delay s past ops :
    isRunning (debounce s) = true ->
    accumulate_step (s, past, ops) (MkAccumulating (accumulator s) (finish now delay (debounce s)) (sent s), past, ops)
| acc_step_invoke s past ops : accumulate_step (s, past, ops) (flush s, past ++ [ops], []).

Record accumulate_ok (s : Accumulating) (past : list (list Op)) (ops : list Op) : Prop := {
  ac_value : accumulator s = accumulate ops;
  ac_sent : sent s = map accumulate past;
  ac_debounce : exists calls, debounce_ok (debounce s) calls;
  ac_pending x : Add x ∈ ops -> pendingCall (debounce s) = true;
}.

Lemma accumulate_snoc ops op : accumulate (ops ++ [op]) = apply_op (accumulate ops) op.
Proof. unfold accumulate. by rewrite fold_left_app. Qed.

Lemma accumulate_step_ok x y : accumulate_step x y -> accumulate_ok x.1.1 x.1.2 x.2 -> accumulate_ok y.1.1 y.1.2 y.2.
Proof.
  intros Hstep [Hv Hs [calls Hd] Hp]. destruct Hstep as [value now delay s past ops|key s past ops|due s past ops E|now delay s past ops E|s past ops]; cbn [fst snd] in *.
  - split; cbn [add accumulator sent debounce]; [by rewrite accumulate_snoc, Hv|done| |done].
    exists (calls ++ [tt]). by apply (debounce_step_ok (debounce s, calls) (debounced tt now delay (debounce s), calls ++ [tt])); [constructor|].
  - split; cbn [delete accumulator sent debounce]; [by rewrite accumulate_snoc, Hv|done|by exists calls|].
    intros x [Hx|Hx]%elem_of_app; [by apply (Hp x)|]. by apply list_elem_of_singleton in Hx.
  - assert (Hd' : debounce_ok (invoke (debounce s)) calls) by (by apply (debounce_step_ok (debounce s, calls) (invoke (debounce s), calls)); [eapply step_timer|]).
    unfold fire. destruct (lastArgs (debounce s)) as [u|] eqn:Ea; split; cbn [flush accumulator sent debounce]; try done; try by exists calls.
    + by rewrite map_app, Hs, Hv.
    + by intros x []%not_elem_of_nil.
    + intros x Hx. unfold invoke. rewrite Ea. cbn [pendingCall]. by apply (Hp x).
  - split; cbn [accumulator sent debounce]; [done|done| |].
    + exists calls. by apply (debounce_step_ok (debounce s, calls) (finish now delay (debounce s), calls)); [constructor|].
    + intros x Hx. cbn [finish pendingCall]. by apply (Hp x).
  - split; cbn [flush accumulator sent debounce]; [done|by rewrite map_app, Hs, Hv|by exists calls|by intros x []%not_elem_of_nil].
Qed.

Lemma accumulate_reachable x : rtc accumulate_step (new_Accumulating, [], []) x -> accumulate_ok x.1.1 x.1.2 x.2.
Proof.
  intros Hs. assert (Hgen : forall x y, rtc accumulate_step x y -> accumulate_ok x.1.1 x.1.2 x.2 -> accumulate_ok y.1.1 y.1.2 y.2).
  { intros a b Hab. induction Hab as [|a b c H12 _ IH]; [done|]. intros Ha. apply IH. by apply (accumulate_step_ok a). }
  apply (Hgen _ _ Hs). split; cbn; [done|done| |by intros y []%not_elem_of_nil].
  exists []. by apply debounce_reachable.
Qed.

End Accumulate.

(** ** Theorems *)

(** A debounced call is never lost and never runs twice at once: in every state
    that calls, timers and ends of runs lead to, the function has been run with
    some of the calls' arguments, in their order; the last call has either been
    run, or its arguments are kept and a timer or the end of the present run will
    run it; and a timer is never set while the function runs. *)
Theorem debounce_keeps_last {A : Type} (d : Debounce (A := A)) (calls : list A)
    (Hsteps : rtc debounce_step (new_Debounce, []) (d, calls)) :
  sublist (started d) calls /\
  (isRunning d = true -> timeout d = Fired) /\
  (last (started d) = last calls \/ lastArgs d = last calls /\ timeout d <> NoTimeout) /\
  (forall due, timeout d = Armed due -> lastArgs d <> None -> started (invoke d) = started d ++ option_list (last calls)).
Proof.
  destruct (debounce_reachable d calls Hsteps) as [Hp Hr Ht Hl Hs Hn]. split; [done|]. split; [apply Hr|]. split.
  - destruct (lastArgs d) as [a|] eqn:Ea; [right|left].
    + destruct Hl as [Hl|[? _]]; [|done]. split; [done|]. apply Ht, Hp. by eexists.
    + destruct Hl as [Hl|[_ Hl]]; [|done]. symmetry in Hl. apply last_None in Hl as ->. by apply sublist_nil_r in Hs as ->.
  - intros due _ Ha. unfold invoke. destruct (lastArgs d) as [a|] eqn:Ea; [|done]. destruct Hl as [<-|[? _]]; [|done]. done.
Qed.

(** Debounced accumulation loses and repeats nothing: what has been sent and
    what is still collected is, run by run, the accumulation of the operations in
    their order, each in exactly one run; and as long as an added value has not
    been sent, a call is pending, so that a timer or the end of the present run
    will send it. *)
Theorem accumulator_correct {K T V : Type} `{Accumulator K T V} (s : Accumulating (V := V)) (past : list (list Op)) (ops : list Op)
    (Hsteps : rtc accumulate_step (new_Accumulating, [], []) (s, past, ops)) :
  sent s = map accumulate past /\ accumulator s = accumulate ops /\
  (forall x, Add x ∈ ops -> timeout (debounce s) <> NoTimeout /\ sent (fire s) = map accumulate (past ++ [ops]) /\
     accumulator (fire s) = acc_create).
Proof.
  destruct (accumulate_reachable _ Hsteps) as [Hv Hs [calls Hd] Hp]. cbn [fst snd] in *. split; [done|]. split; [done|].
  intros x Hx%Hp. split; [by apply (db_timer _ _ Hd)|]. apply (db_pending _ _ Hd) in Hx as [a Ea].
  unfold fire. rewrite Ea. cbn [flush accumulator sent]. split; [by rewrite map_app, Hs, Hv|done].
Qed.

(** The map accumulator without a merge keeps the last value of a key. *)
Lemma map_accumulator_last {T} (k : string) (v : T) m :
  Map_get (@acc_add _ _ _ (map_Accumulator None) m (k, v)) k = Some v.
Proof. cbn. rewrite Map_get_set_eq. by destruct (Map_get m k). Qed.
