(* ===== verification/DocumentIndex.v ===== *)
(** * The index of a document store
    (packages/programs/data/document/document/src: operation.ts, search.ts,
    resumable-iterator.ts; packages/programs/data/document/interface/src)

    The operations that entries carry, what a store knows of its documents, and
    the index over them: putting and deleting, queries answered page by page to
    other peers with results that are queued for later requests, and the lookup
    of one document by its id.  [DocumentLog] is what the store asks of the log
    it is kept in.  The answers of other peers to a query are arguments. *)

From Stdlib Require Import ZArith Lia.
From stdpp Require Import base list strings.
From S2P Require Import Prelude JsMap Cache Clock JsVal Query IndexInterface IndexStore Integers LogSorting EntryIndex Log Effects.

Local Open Scope Z_scope.
Local Open Scope effects_scope.

(** ** Operations (operation.ts) *)

Inductive Operation :=
| PutWithKeyOperation (key : string) (data : list Z)
| DeleteByStringKeyOperation (key : string)
| PutOperation (data : list Z)
| DeleteOperation (key : IdKey).

#[export] Instance Operation_eq_dec : EqDecision Operation.
Proof. solve_decision. Defined.

(** [toDeleteOperation] and [coerceDeleteOperation]. *)
Definition coerceDeleteOperation (operation : Operation) : Operation :=
  match operation with
  | DeleteByStringKeyOperation key => DeleteOperation (StringKey key)
  | _ => operation
  end.

(** The data of a put. *)
Definition isPutOperation (operation : Operation) : option (list Z) :=
  match operation with
  | PutOperation data | PutWithKeyOperation _ data => Some data
  | _ => None
  end.

(** The key of a delete, once coerced. *)
Definition isDeleteOperation (operation : Operation) : option IdKey :=
  match coerceDeleteOperation operation with DeleteOperation key => Some key | _ => None end.

Definition MAX_BATCH_SIZE : Z := 5000000.

(** ** Documents in their context (search.ts 216-257) *)

Record IndexableContext := MkContext {
  ctx_created : Z;
  ctx_modified : Z;
  ctx_head : string;
  ctx_gid : string;
  ctx_size : Z;
}.

(** The class [Context] of results, without the size. *)
Record ResultContext := MkResultContext { rc_created : Z; rc_modified : Z; rc_head : string; rc_gid : string }.
Definition toContext (c : IndexableContext) : ResultContext :=
  MkResultContext (ctx_created c) (ctx_modified c) (ctx_head c) (ctx_gid c).

Definition context_js (c : IndexableContext) : jsval :=
  JObj [("created"%string, JBig (ctx_created c)); ("modified"%string, JBig (ctx_modified c)); ("head"%string, JStr (ctx_head c));
        ("gid"%string, JStr (ctx_gid c)); ("size"%string, JNum (ctx_size c))].

(** [IndexedClassWithContext]: the fields of the indexed value and [__context]. *)
Record WithContext (I : Type) := MkWithContext { wc_value : I; __context : IndexableContext }.
Arguments MkWithContext {I}.
Arguments wc_value {I}.
Arguments __context {I}.

Definition js_fields (v : jsval) : list (string * jsval) := match v with JObj fs => fs | _ => [] end.

#[export] Instance WithContext_Document {I} `{Document I} : Document (WithContext I) := {
  to_js w := JObj (Map_set (js_fields (to_js (wc_value w))) "__context"%string (context_js (__context w)));
  schema_clone w := MkWithContext (schema_clone (wc_value w)) (__context w);
}.

(** ** What the store asks of others *)

(** Entries as a check sees them: one that is being made has no hash yet. *)
Record EntryView := MkView {
  ev_hash : option string;
  ev_meta : Meta;
  ev_size : Z;
  ev_payload : outcome Operation;
}.

Inductive CanPerformOperations (T : Type) :=
| CanPut (value : T) (operation : Operation) (entry : EntryView)
| CanDelete (operation : Operation) (entry : EntryView).
Arguments CanPut {T}.
Arguments CanDelete {T}.

(** The document type with its borsh encoding, the function to the indexed type,
    and the options of [open].  [cast] is the conversion of an indexed value to a
    document, where the indexed type is the document type. *)
Class DocumentSetup (T I : Type) := {
  serialize : T -> list Z;
  decoder : list Z -> outcome T;
  transformer : T -> ResultContext -> outcome I;
  cast : option (I -> T);
  idResolver : T -> outcome jsval;
  getPayloadValue : Entry -> outcome Operation;
  indexBy : list string;
  immutable : bool;
  compatibility : option Z;
  optionCanPerform : option (CanPerformOperations T -> outcome bool);
  self : string;
  random_id : nat -> string;
}.

(** The shared log under the store.  An append reports its change in the middle,
    so it comes in two parts. *)
Class DocumentLog (L : Type) := {
  dl_get : string -> Method L (option Entry);
  dl_entry : string -> Method L (option Entry);
  dl_fetch : L -> string -> outcome Entry;
  dl_addPeersToGidPeerHistory : string -> list string -> L -> L;
  dl_pending : Type;
  dl_options : Type;
  dl_append : (option string -> Meta -> Z -> outcome bool) -> Operation -> option EntryType -> list Entry -> dl_options ->
    Method L (Entry * Change * dl_pending);
  dl_appended : dl_pending -> Method L unit;
}.

(** ** Requests and results (interface/src/request.ts, query.ts) *)

Record Search := MkSearch { sr_id : string; sr_query : list Query; sr_sort : list Sort; sr_fetch : nat }.

Inductive SearchRequests :=
| SearchRequest (s : Search)
| SearchRequestIndexed (s : Search) (replicate : bool)
| CollectNextRequest (id : string) (amount : nat)
| CloseIteratorRequest (id : string).

Definition idString (q : SearchRequests) : string :=
  match q with
  | SearchRequest s | SearchRequestIndexed s _ => sr_id s
  | CollectNextRequest id _ | CloseIteratorRequest id => id
  end.

(** The source of a value, from which a receiver decodes it, is left out.  What is
    indexed still has its [__context] where it has not been sent. *)
Inductive Result (T I : Type) :=
| ResultValue (context : ResultContext) (value : T) (indexed : option (WithContext I))
| ResultIndexedValue (context : ResultContext) (indexed : WithContext I + I) (entries : list Entry).
Arguments ResultValue {T I}.
Arguments ResultIndexedValue {T I}.

Definition result_context {T I} (r : Result T I) : ResultContext :=
  match r with ResultValue c _ _ | ResultIndexedValue c _ _ => c end.

Record Results (T I : Type) := MkResults { rs_results : list (Result T I); rs_kept : Z }.
Arguments MkResults {T I}.
Arguments rs_results {T I}.
Arguments rs_kept {T I}.

Inductive AbstractSearchResult (T I : Type) := ResultsResponse (r : Results T I) | NoAccess.
Arguments ResultsResponse {T I}.
Arguments NoAccess {T I}.

(** [dedup]: the first of several results with one id. *)
Fixpoint dedup `{JsEnv} {A} (dedupBy : A -> outcome jsval) (unique : list IdPrimitive) (allResult : list A) : outcome (list A) :=
  match allResult with
  | [] => Val []
  | result :: rest =>
      idv ← dedupBy result;
      key ← toId idv;
      if Set_has unique (primitive key) then dedup dedupBy unique rest
      else l ← dedup dedupBy (Set_add unique (primitive key)) rest; Val (result :: l)
  end.

(** The calls on a cache: [get] and [add] with the size 1. *)
Definition Cache_lookup `{EqDecision K} {V P} `{Queue P K} (now : Z) (k : K) (c : Cache K V P) : outcome (option V * Cache K V P) :=
  '(v, c) ← Cache.get now c k; Val (match v with Some (Some v) => Some v | _ => None end, c).
Definition Cache_put `{EqDecision K} {V P} `{Queue P K} (now : Z) (k : K) (v : V) (c : Cache K V P) : outcome (unit * Cache K V P) :=
  c ← Cache.add now c k (Some v) 1; Val (tt, c).

(** The iterator in the table is the object that was fetched from. *)
Definition Cache_update `{EqDecision K} {V P} (c : Cache K V P) (k : K) (v : V) : Cache K V P :=
  match Map_get (cache_map c) k with
  | None => c
  | Some d => MkCache (Map_set (cache_map c) k (MkCacheData (Some v) (cd_time d) (cd_size d)))
                (cache_deleted c) (cache_list c) (currentSize c) (cache_max c) (cache_ttl c)
  end.

Section DocumentIndex.
Context {Ix St L T I Q Qk : Type} `{JsEnv, Document I, !DocumentSetup T I, Index Ix St (WithContext I), !IndexStore Ix (WithContext I),
  Queue Q string, Queue Qk IdPrimitive, !DocumentLog L}.

(** An iterator that is kept for later requests. *)
Record CachedIterator := MkCachedIterator { ci_iterator : St; ci_request : SearchRequests }.

Record QueuedResults := MkQueued {
  rq_from : string;
  rq_keptInIndex : nat;
  rq_queue : list (IndexedResult (WithContext I));
}.

Record DocumentsChange := MkDocumentsChange { dc_added : list T; dc_removed : list T }.

(** The state of a store: its log, the index, [_resumableIterators.queues],
    [_resolverCache], [_resultQueue], the request ids drawn, and the events.  An
    entry of [_resultQueue] is there exactly as long as its timer runs. *)
Record Documents := MkDocuments {
  d_log : L;
  d_index : Ix;
  d_iterators : Cache string CachedIterator Q;
  d_resolverCache : Cache IdPrimitive T Qk;
  d_resultQueue : list (string * QueuedResults);
  d_requests : nat;
  d_events : list DocumentsChange;
}.

Definition set_log (s : Documents) (l : L) : Documents :=
  MkDocuments l (d_index s) (d_iterators s) (d_resolverCache s) (d_resultQueue s) (d_requests s) (d_events s).
Definition set_docs (s : Documents) (i : Ix) : Documents :=
  MkDocuments (d_log s) i (d_iterators s) (d_resolverCache s) (d_resultQueue s) (d_requests s) (d_events s).
Definition set_iterators (s : Documents) (c : Cache string CachedIterator Q) : Documents :=
  MkDocuments (d_log s) (d_index s) c (d_resolverCache s) (d_resultQueue s) (d_requests s) (d_events s).
Definition set_resolver (s : Documents) (c : Cache IdPrimitive T Qk) : Documents :=
  MkDocuments (d_log s) (d_index s) (d_iterators s) c (d_resultQueue s) (d_requests s) (d_events s).
Definition set_queues (s : Documents) (q : list (string * QueuedResults)) : Documents :=
  MkDocuments (d_log s) (d_index s) (d_iterators s) (d_resolverCache s) q (d_requests s) (d_events s).

(** A method of the log, run on the log of the store. *)
Definition onLog {A} (m : Method L A) : Method Documents A := fun s =>
  let '(r, l) := m (d_log s) in (r, set_log s l).

(** A call on a cache, which may throw. *)
Definition onIterators {A} (f : Cache string CachedIterator Q -> outcome (A * Cache string CachedIterator Q)) : Method Documents A := fun s =>
  match f (d_iterators s) with
  | Val (a, c) => (Val a, set_iterators s c)
  | Exn e => (Exn e, s)
  | NoFuel => (NoFuel, s)
  end.
Definition onResolver {A} (f : Cache IdPrimitive T Qk -> outcome (A * Cache IdPrimitive T Qk)) : Method Documents A := fun s =>
  match f (d_resolverCache s) with
  | Val (a, c) => (Val a, set_resolver s c)
  | Exn e => (Exn e, s)
  | NoFuel => (NoFuel, s)
  end.

(** The id of a new request. *)
Definition new_id : Method Documents string := fun s =>
  (Val (random_id (d_requests s)),
   MkDocuments (d_log s) (d_index s) (d_iterators s) (d_resolverCache s) (d_resultQueue s) (S (d_requests s)) (d_events s)).

(** ** Iterators that are resumed (resumable-iterator.ts) *)

Definition iterators_clear (id : string) : Method Documents unit := onIterators (fun c => Val (tt, (Cache.del c id).2)).

(** [queues.get(id)]. *)
Definition iterators_get (now : Z) (id : string) : Method Documents (option CachedIterator) :=
  onIterators (Cache_lookup now id).

(** The second half of [next], with the iterator found. *)
Definition fetch_from (id : string) (amount : nat) (it : CachedIterator) : Method Documents (list (IndexedResult (WithContext I))) :=
  idx ⇠ gets d_index;;
  x ⇠ lift (it_next (idx_ops idx) amount (ci_iterator it));;
  onIterators (fun c => Val (tt, Cache_update c id (MkCachedIterator x.2 (ci_request it))));;;
  whenM (negb (not_done (it_done (idx_ops idx) x.2))) (iterators_clear id);;;
  ret x.1.

Definition iterators_next (now : Z) (id : string) (amount : nat) : Method Documents (list (IndexedResult (WithContext I))) :=
  it ⇠ iterators_get now id;;
  match it with
  | None => raise ("Missing iterator for request with id: " ++ id)
  | Some it => fetch_from id amount it
  end.

Definition iterateAndFetch (now : Z) (request : SearchRequests) (s : Search) : Method Documents (list (IndexedResult (WithContext I))) :=
  idx ⇠ gets d_index;;
  let it := MkCachedIterator (idx_iterate idx (MkIterateOptions (QLMany (sr_query s)) (Some (sr_sort s)))) request in
  onIterators (Cache_put now (sr_id s) it);;;
  fetch_from (sr_id s) (sr_fetch s) it.

Definition iterators_getPending (now : Z) (id : string) : Method Documents (option nat) :=
  it ⇠ iterators_get now id;;
  match it with
  | None => ret None
  | Some it =>
      idx ⇠ gets d_index;;
      x ⇠ lift (it_pending (idx_ops idx) (ci_iterator it));;
      onIterators (fun c => Val (tt, Cache_update c id (MkCachedIterator x.2 (ci_request it))));;;
      ret (Some x.1)
  end.

(** ** Putting and deleting *)

Definition index_put (now : Z) (value : T) (entry : Entry) (id : IdKey) : Method Documents unit :=
  onResolver (Cache_put now (primitive id) value);;;
  idx ⇠ gets d_index;;
  let wallTime := wallTime (lc_timestamp (meta_clock (en_meta entry))) in
  let created := match idx_get idx id with
                 | Some existing => if ctx_created (__context (ir_value existing)) =? 0 then wallTime else ctx_created (__context (ir_value existing))
                 | None => wallTime
                 end in
  let context := MkContext created wallTime (en_hash entry) (meta_gid (en_meta entry)) (en_payloadSize entry) in
  valueToIndex ⇠ lift (transformer value (toContext context));;
  idx ⇠ lift (idx_put idx (MkWithContext valueToIndex context));;
  modify (fun s => set_docs s idx).

Definition index_del (key : IdKey) : Method Documents (list IdKey) :=
  onResolver (fun c => Val (tt, (Cache.del c (primitive key)).2));;;
  q ⇠ lift (getMatcher indexBy (toIdeable key));;
  idx ⇠ gets d_index;;
  x ⇠ lift (idx_del idx (QLMany [q]));;
  modify (fun s => set_docs s x.2);;;
  ret x.1.

(** [getFromGid]. *)
Definition getFromGid (gid : string) : Method Documents (option (IndexedResult (WithContext I))) :=
  idx ⇠ gets d_index;;
  x ⇠ lift (it_next (idx_ops idx) 1 (idx_iterate idx (MkIterateOptions (QLRecord (JObj [("gid"%string, JStr gid)])) None)));;
  ret (head x.1).

(** ** Queries *)

(** [resolveDocument({ indexed, head })]. *)
Definition resolveDocument (now : Z) (indexed : jsval) (value : I) (head : string) : Method Documents (option T) :=
  idv ⇠ lift (extractFieldValue indexed indexBy None);;
  id ⇠ lift (toId idv);;
  cached ⇠ onResolver (Cache_lookup now (primitive id));;
  match cached with
  | Some v => ret (Some v)
  | None =>
      match cast with
      | Some f => ret (Some (f value))
      | None =>
          entry ⇠ onLog (dl_get head);;
          match entry with
          | None => ret None
          | Some entry =>
              payload ⇠ lift (getPayloadValue entry);;
              match isPutOperation payload with
              | Some data => v ⇠ lift (decoder data);; ret (Some v)
              | None => raise "Unexpected value type when getting document: "
              end
          end
      end
  end.

Definition set_queue (id : string) (q : QueuedResults) : Method Documents unit :=
  modify (fun s => set_queues s (Map_set (d_resultQueue s) id q)).
Definition delete_queue (id : string) : Method Documents unit :=
  modify (fun s => set_queues s (Map_delete (d_resultQueue s) id)).

(** [prevQueued!.queue.push(result)] on the object in [_resultQueue]. *)
Definition queue_push (id : string) (r : IndexedResult (WithContext I)) : Method Documents unit :=
  modify (fun s => match Map_get (d_resultQueue s) id with
                   | Some q => set_queues s (Map_set (d_resultQueue s) id (MkQueued (rq_from q) (rq_keptInIndex q) (rq_queue q ++ [r])))
                   | None => s
                   end).

(** One result that is not queued, as what was asked for. *)
Definition answer_result (now : Z) (fromQuery : option SearchRequests) (from : string) (result : IndexedResult (WithContext I))
    : Method Documents (list (Result T I)) :=
  let w := ir_value result in
  match fromQuery with
  | Some (SearchRequest _) =>
      value ⇠ resolveDocument now (to_js w) (wc_value w) (ctx_head (__context w));;
      ret (match value with None => [] | Some v => [ResultValue (toContext (__context w)) v (Some w)] end)
  | Some (SearchRequestIndexed _ replicate) =>
      head ⇠ onLog (dl_get (ctx_head (__context w)));;
      whenM replicate (modify (fun s => set_log s (dl_addPeersToGidPeerHistory (ctx_gid (__context w)) [from] (d_log s))));;;
      ret [ResultIndexedValue (toContext (__context w)) (inl w) (match head with Some e => [e] | None => [] end)]
  | _ => ret []
  end.

(** The loop over [toIterate]. *)
Fixpoint answer_results (now : Z) (fromQuery : option SearchRequests) (id from : string) (isLocal : bool)
    (canRead : option (I -> string -> outcome bool)) (resultSize : Z) (toIterate : list (IndexedResult (WithContext I)))
    : Method Documents (list (Result T I)) :=
  match toIterate with
  | [] => ret []
  | result :: rest =>
      let resultSize := if isLocal then resultSize else resultSize + ctx_size (__context (ir_value result)) in
      if negb isLocal && (MAX_BATCH_SIZE <? resultSize) then
        queue_push id result;;;
        answer_results now fromQuery id from isLocal canRead resultSize rest
      else
        readable ⇠ lift (match canRead with Some f => f (wc_value (ir_value result)) from | None => Val true end);;
        out ⇠ (if readable : bool then answer_result now fromQuery from result else ret []);;
        outs ⇠ answer_results now fromQuery id from isLocal canRead resultSize rest;;
        ret (out ++ outs)
  end.

Definition clearResultsQueue (id : string) : Method Documents unit := delete_queue id.

Definition processQuery (now : Z) (query : SearchRequests) (from : string) (isLocal : bool) (canRead : option (I -> string -> outcome bool))
    : Method Documents (Results T I) :=
  let id := idString query in
  prevQueued ⇠ gets (fun s => if isLocal then None else Map_get (d_resultQueue s) id);;
  whenM (match prevQueued with Some p => negb (bool_decide (from = rq_from p)) | None => false end)
    (raise "Different from in queued results");;;
  fetched ⇠ match query with
            | SearchRequest s | SearchRequestIndexed s _ => rs ⇠ iterateAndFetch now query s;; ret (Some query, rs)
            | CollectNextRequest id amount =>
                it ⇠ iterators_get now id;;
                rs ⇠ (if match prevQueued with Some p => (rq_keptInIndex p =? 0)%nat | None => false end then ret []
                      else iterators_next now id amount);;
                ret (ci_request <$> it, rs)
            | CloseIteratorRequest _ => raise "Unsupported"
            end;;
  let toIterate := match prevQueued with Some p => rq_queue p ++ fetched.2 | None => fetched.2 end in
  whenM (match prevQueued with Some _ => true | None => false end) (delete_queue id);;;
  pending ⇠ iterators_getPending now id;;
  let kept := default 0%nat pending in
  whenM (negb isLocal) (set_queue id (MkQueued from kept []));;;
  filteredResults ⇠ answer_results now fetched.1 id from isLocal canRead 0 toIterate;;
  queued ⇠ gets (fun s => if isLocal then 0%nat else from_option (fun q => length (rq_queue q)) 0%nat (Map_get (d_resultQueue s) id));;
  let results := MkResults filteredResults (Z.of_nat (kept + queued)) in
  whenM (negb isLocal && (rs_kept results =? 0)) (clearResultsQueue id);;;
  ret results.

(** The timer of a queue. *)
Definition queue_timeout (id : string) : Method Documents unit := delete_queue id.

Definition processCloseIteratorRequest (id : string) (publicKey : string) : Method Documents unit :=
  queueData ⇠ gets (fun s => Map_get (d_resultQueue s) id);;
  if match queueData with Some q => negb (bool_decide (rq_from q = publicKey)) | None => false end then ret tt
  else clearResultsQueue id;;; iterators_clear id.

Definition clearAllResultQueues : Method Documents unit :=
  queues ⇠ gets (fun s => Map_keys (d_resultQueue s));;
  forM (fun key => delete_queue key;;; iterators_clear key) queues.

Definition getPending (now : Z) (cursorId : string) : Method Documents (option nat) :=
  queue ⇠ gets (fun s => Map_get (d_resultQueue s) cursorId);;
  match queue with
  | Some q => ret (Some (length (rq_queue q) + rq_keptInIndex q)%nat)
  | None => iterators_getPending now cursorId
  end.

(** The handler of queries, with the callbacks of [open]: [None] is no answer. *)
Definition responseHandler (now : Z) (canSearch : option (SearchRequests -> string -> outcome bool))
    (canRead : option (I -> string -> outcome bool)) (query : SearchRequests) (from : option string)
    : Method Documents (option (AbstractSearchResult T I)) :=
  match from with
  | None => ret None
  | Some from =>
      allowed ⇠ lift (match canSearch, query with
                      | Some f, (SearchRequest _ | CollectNextRequest _ _) => f query from
                      | _, _ => Val true
                      end);;
      if negb allowed then ret (Some NoAccess)
      else match query with
           | CloseIteratorRequest id => attempt (processCloseIteratorRequest id from);;; ret None
           | _ => results ⇠ processQuery now query from false canRead;; ret (Some (ResultsResponse results))
           end
  end.

(** ** Looking up one document *)

(** [queryCommence]; [remote] are the answers of the peers asked, if any are. *)
Definition queryCommence (now : Z) (queryRequest : SearchRequests) (isLocal : bool) (remote : option (list (Results T I)))
    : Method Documents (list (Results T I)) :=
  whenM (negb isLocal && match remote with None => true | Some _ => false end)
    (raise "Expecting either 'options.remote' or 'options.local' to be true");;;
  allResults ⇠ (if isLocal then
                  results ⇠ processQuery now queryRequest self true None;;
                  ret (match rs_results results with [] => [] | _ => [results] end)
                else ret []);;
  ret (allResults ++ default [] remote).

(** The query for an id; [None] where the code makes no query. *)
Definition id_query (key : jsval) : outcome (option Query) :=
  match key with
  | JBytes b => Val (Some (new_ByteMatchQuery indexBy b))
  | JNum z => q ← new_IntegerCompare indexBy (CmpEnum Equal) (INum z); Val (Some q)
  | JBig z => q ← new_IntegerCompare indexBy (CmpEnum Equal) (IBig z); Val (Some q)
  | JStr k => Val (Some (new_StringMatch indexBy k None None))
  | _ => Val None
  end.

Definition getDetailed (now : Z) (key : jsval) (resolve : bool) (remote : option (list (Results T I)))
    : Method Documents (option (list (Results T I))) :=
  q ⇠ lift (id_query key);;
  match q with
  | None => ret None
  | Some q =>
      id ⇠ new_id;;
      let s := MkSearch id [q] [] 10 in
      results ⇠ queryCommence now (if resolve then SearchRequest s else SearchRequestIndexed s false) true remote;;
      ret (Some results)
  end.

(** [?.[0]?.results[0]]. *)
Definition first_result (results : option (list (Results T I))) : option (Result T I) :=
  results ← results; r ← head results; head (rs_results r).

(** [get], with the result around the value. *)
Definition index_get (now : Z) (key : jsval) (resolve : bool) (remote : option (list (Results T I)))
    : Method Documents (option (Result T I)) :=
  results ⇠ getDetailed now key resolve remote;;
  ret (first_result results).

End DocumentIndex.

Arguments Documents : clear implicits.
Arguments CachedIterator : clear implicits.
