(* ===== verification/Documents.v ===== *)
(** * The document store
    (packages/programs/data/document/document/src/program.ts)

    Documents are kept as chains of entries in a shared log: an edit follows the
    head of its document and a deletion is a [CUT] that follows it.  The file
    holds the checks on entries, [put] and [del], and [handleChanges], which
    carries a change of the log over to the index.  Documents that are programs
    themselves, and are opened when they are put, are left out. *)

From Stdlib Require Import ZArith Lia.
From stdpp Require Import base list strings.
From S2P Require Import Prelude JsMap Cache Clock JsVal Query IndexInterface IndexStore Integers LogSorting EntryIndex Log Effects DocumentIndex.

Local Open Scope Z_scope.
Local Open Scope effects_scope.

Definition AccessError : string := "AccessError".
Definition BorshError : string := "BorshError".

(** A method on the first of two states. *)
Definition inFirst {S X A} (m : Method S A) : Method (S * X) A := fun s =>
  let '(r, s1) := m s.1 in (r, (s1, s.2)).

Fixpoint mapMethod {S A B} (f : A -> Method S B) (l : list A) : Method S (list B) :=
  match l with
  | [] => ret []
  | x :: l => y ⇠ f x;; ys ⇠ mapMethod f l;; ret (y :: ys)
  end.

Definition view_of (payload : outcome Operation) (e : Entry) : EntryView :=
  MkView (Some (en_hash e)) (en_meta e) (en_payloadSize e) payload.

(** The options of [put] that it looks at itself; [po_remote] are the answers
    that [checkRemote] brings. *)
Record PutOptions (T I O : Type) := MkPutOptions {
  po_unique : bool;
  po_remote : option (list (Results T I));
  po_next : option (list Entry);
  po_type : option EntryType;
  po_options : O;
}.
Arguments MkPutOptions {T I O}.
Arguments po_unique {T I O}.
Arguments po_remote {T I O}.
Arguments po_next {T I O}.
Arguments po_type {T I O}.
Arguments po_options {T I O}.

Section Documents.
Context {Ix St L T I Q Qk : Type} `{JsEnv, Document I, !DocumentSetup T I, Index Ix St (WithContext I), !IndexStore Ix (WithContext I),
  Queue Q string, Queue Qk IdPrimitive, !DocumentLog L}.
Abbreviation Store := (Documents Ix St L T I Q Qk).
Abbreviation Found := (list (Results T I)).

Definition _resolveEntry (history : string) : Method Store Entry :=
  entry ⇠ onLog (dl_get history);;
  match entry with
  | Some e => ret e
  | None => l ⇠ gets d_log;; lift (dl_fetch l history)
  end.

(** ** Which entries are accepted *)

(** [pointsToHistory(history)] for an entry that follows [next]: the walk along
    the first of what an entry follows; [fuel] bounds its length. *)
Fixpoint pointsToHistory (fuel : nat) (next : string) (current : option Entry) : Method Store bool :=
  match current with
  | None => ret false
  | Some e =>
      match meta_next (en_meta e) with
      | parent :: _ =>
          if negb (bool_decide (en_hash e = ""%string)) && negb (bool_decide (next = en_hash e)) then
            match fuel with
            | O => lift NoFuel
            | S fuel => current ⇠ onLog (dl_get parent);; pointsToHistory fuel next current
            end
          else ret (bool_decide (en_hash e = next))
      | [] => ret (bool_decide (en_hash e = next))
      end
  end.

(** What an entry does to a document that exists, with the answers of other
    peers where the store is immutable. *)
Definition existing_at (now : Z) (key : jsval) (remote : Found) : Method Store (option (Result T I)) :=
  results ⇠ getDetailed now key false (if immutable then Some remote else None);;
  ret (first_result results).

Definition first_next (m : Meta) : string := default ""%string (head (meta_next m)).

Definition is_single {A} (l : list A) : bool := match l with [_] => true | _ => false end.

Definition check_put (fuel : nat) (now : Z) (remote : Found) (entry : EntryView) (putOperation : Operation) (value : T)
    : Method Store (option Operation) :=
  keyValue ⇠ lift (idResolver value);;
  key ⇠ lift (toId keyValue);;
  existingDocument ⇠ existing_at now (toIdeable key) remote;;
  match existingDocument with
  | Some existing =>
      if negb (bool_decide (Some (rc_head (result_context existing)) = ev_hash entry)) then
        if immutable then
          if rc_created (result_context existing) <? wallTime (lc_timestamp (meta_clock (ev_meta entry))) then ret None
          else if (0 <? length (meta_next (ev_meta entry)))%nat then ret None
          else ret (Some putOperation)
        else if negb (is_single (meta_next (ev_meta entry))) then ret None
        else
          prevEntry ⇠ onLog (dl_entry (rc_head (result_context existing)));;
          match prevEntry with
          | None => ret None
          | Some prevEntry =>
              referenceHistoryCorrectly ⇠ pointsToHistory fuel (first_next (ev_meta entry)) (Some prevEntry);;
              ret (if referenceHistoryCorrectly : bool then Some putOperation else None)
          end
      else ret (match meta_next (ev_meta entry) with [] => Some putOperation | _ => None end)
  | None => ret (match meta_next (ev_meta entry) with [] => Some putOperation | _ => None end)
  end.

Definition check_delete (fuel : nat) (now : Z) (remote : Found) (entry : EntryView) (operation : Operation) (key : IdKey)
    : Method Store (option Operation) :=
  if negb (is_single (meta_next (ev_meta entry))) then ret None
  else
    existingDocument ⇠ existing_at now (toIdeable key) remote;;
    match existingDocument with
    | None => ret (Some (coerceDeleteOperation operation))
    | Some existing =>
        doc ⇠ onLog (dl_get (rc_head (result_context existing)));;
        match doc with
        | None => ret None
        | Some doc =>
            b ⇠ pointsToHistory fuel (first_next (ev_meta entry)) (Some doc);;
            ret (if b : bool then Some (coerceDeleteOperation operation) else None)
        end
    end.

(** The errors that make a check say no. *)
Definition caught (errors : list string) {A} (m : Method Store (option A)) : Method Store (option A) :=
  r ⇠ attempt m;;
  match r with
  | Exn e => if bool_decide (e ∈ errors) then ret None else raise e
  | r => lift r
  end.

Definition _canAppend (fuel : nat) (now : Z) (remote : Found) (entry : EntryView) (reference : option (T * Operation))
    : Method Store (option Operation) :=
  caught [AccessError; BorshError]
    (operation ⇠ lift (match reference with Some (_, op) => Val op | None => ev_payload entry end);;
     match isPutOperation operation, isDeleteOperation operation with
     | Some data, _ =>
         value ⇠ lift (match reference with Some (doc, _) => Val doc | None => decoder data end);;
         check_put fuel now remote entry operation value
     | None, Some key => check_delete fuel now remote entry operation key
     | None, None => raise "Unsupported operation"
     end).

Definition canAppend (fuel : nat) (now : Z) (remote : Found) (entry : EntryView) (reference : option (T * Operation)) : Method Store bool :=
  l0 ⇠ _canAppend fuel now remote entry reference;;
  match l0 with
  | None => ret false
  | Some operation =>
      r ⇠ caught [BorshError]
        (performed ⇠ lift (match isPutOperation operation with
                           | Some data => document ← (match reference with Some (doc, _) => Val doc | None => decoder data end);
                                          Val (CanPut document operation entry)
                           | None => Val (CanDelete operation entry)
                           end);;
         b ⇠ lift (match optionCanPerform with Some f => f performed | None => Val true end);;
         ret (if b : bool then Some tt else None));;
      ret (match r with Some _ => true | None => false end)
  end.

(** ** Changes of the log *)

(** What [handleChanges] gathers: the documents that changed, and [modified]. *)
Record Handled := MkHandled { hd_added : list T; hd_removed : list T; hd_modified : list IdPrimitive }.

Definition gather {A} (f : Handled -> Handled) (k : Method (Store * Handled) A) : Method (Store * Handled) A :=
  modify (fun s => (s.1, f s.2));;; k.
Definition push_added (v : T) (h : Handled) : Handled := MkHandled (hd_added h ++ [v]) (hd_removed h) (hd_modified h).
Definition push_removed (v : T) (h : Handled) : Handled := MkHandled (hd_added h) (hd_removed h ++ [v]) (hd_modified h).
Definition add_modified (p : IdPrimitive) (h : Handled) : Handled := MkHandled (hd_added h) (hd_removed h) (Set_add (hd_modified h) p).

Definition already (p : IdPrimitive) : Method (Store * Handled) bool := gets (fun s => Set_has (hd_modified s.2) p).

(** A put that is not taken back by the same change. *)
Definition change_put (now : Z) (item : Entry) (value : T) : Method (Store * Handled) unit :=
  keyObject ⇠ lift (idResolver value);;
  key ⇠ lift (toId keyObject);;
  done ⇠ already (primitive key);;
  if done : bool then ret tt
  else gather (push_added value) (inFirst (index_put now value item key);;; gather (add_modified (primitive key)) (ret tt)).

(** The end of a removal. *)
Definition change_removed (value : T) (key : IdKey) : Method (Store * Handled) unit :=
  gather (push_removed value) (inFirst (index_del key);;; gather (add_modified (primitive key)) (ret tt)).

Definition change_remove (now : Z) (payload : Operation) : Method (Store * Handled) unit :=
  match isPutOperation payload, isDeleteOperation payload with
  | Some data, _ =>
      value ⇠ lift (decoder data);;
      keyObject ⇠ lift (idResolver value);;
      key ⇠ lift (toId keyObject);;
      done ⇠ already (primitive key);;
      if done : bool then ret tt else change_removed value key
  | None, Some key =>
      done ⇠ already (primitive key);;
      if done : bool then ret tt
      else
        document ⇠ inFirst (index_get now (toIdeable key) true None);;
        match document with
        | Some (ResultValue _ value _) => change_removed value key
        | _ => ret tt
        end
  | None, None => raise "Unexpected"
  end.

Definition handle_item (now : Z) (isAppendOperation : bool) (reference : option (T * Operation)) (removedSet : list string) (item : Entry)
    : Method (Store * Handled) unit :=
  payload ⇠ lift (getPayloadValue item);;
  match isPutOperation payload with
  | Some data =>
      if negb (Set_has removedSet (en_hash item)) then
        value ⇠ lift (match reference with
                      | Some (doc, op) => if isAppendOperation && bool_decide (op = payload) then Val doc else decoder data
                      | None => decoder data
                      end);;
        change_put now item value
      else change_remove now payload
  | None => change_remove now payload
  end.

(** An [AccessError] skips the item. *)
Definition skip_access (m : Method (Store * Handled) unit) : Method (Store * Handled) unit :=
  r ⇠ attempt m;;
  match r with
  | Exn e => if bool_decide (e = AccessError) then ret tt else raise e
  | r => lift r
  end.

Definition change_items (change : Change) : Method Store (list (option Entry)) :=
  removed ⇠ mapMethod (fun x => match x with Full e => ret (Some e) | Shallow x => onLog (dl_entry (se_hash x)) end) (removed change);;
  ret (map (fun x => Some x.2) (added change) ++ removed).

Definition handleChanges (now : Z) (change : Change) (reference : option (T * Operation)) : Method Store unit :=
  let isAppendOperation := (length (added change) =? 1)%nat in
  let removedSet := fold_left (fun set r => Set_add set (any_hash r)) (removed change) [] in
  sortedEntries ⇠ change_items change;;
  documentsChanged ⇠ (fun s =>
    let '(r, (s, h)) := forM (fun item => match item with
                                          | None => ret tt
                                          | Some item => skip_access (handle_item now isAppendOperation reference removedSet item)
                                          end) sortedEntries (s, MkHandled [] [] []) in
    (_ ← r; Val (MkDocumentsChange (hd_added h) (hd_removed h)), s));;
  modify (fun s => MkDocuments (d_log s) (d_index s) (d_iterators s) (d_resolverCache s) (d_resultQueue s) (d_requests s)
                     (d_events s ++ [documentsChanged])).

(** ** Putting and deleting *)

(** Appends and carries the change over; the check sees the store as it is. *)
Definition append_operation (now : Z) (check : option string -> Meta -> Z -> outcome bool) (operation : Operation) (type : option EntryType)
    (next : list Entry) (options : dl_options) (reference : option (T * Operation)) : Method Store (Entry * list ShallowOrFullEntry) :=
  appended ⇠ onLog (dl_append check operation type next options);;
  let '(entry, change, pending) := appended in
  handleChanges now change reference;;;
  onLog (dl_appended pending);;;
  ret (entry, removed change).

Definition put_operation (keyValue : jsval) (ser : list Z) : outcome Operation :=
  if bool_decide (compatibility = Some 6) then
    match keyValue with
    | JStr k => Val (PutWithKeyOperation k ser)
    | _ => Exn "Key must be a string in compatibility mode v6"
    end
  else Val (PutOperation ser).

Definition put (fuel : nat) (now : Z) (doc : T) (options : PutOptions T I dl_options) (remote : Found)
    : Method Store (Entry * list ShallowOrFullEntry) :=
  keyValue ⇠ lift (idResolver doc);;
  lift (checkId keyValue);;;
  let ser := serialize doc in
  whenM (MAX_BATCH_SIZE <? Z.of_nat (length ser)) (raise "Document is too large");;;
  existingDocument ⇠ (if po_unique options then ret None
                      else results ⇠ getDetailed now keyValue false (po_remote options);; ret (first_result results));;
  operation ⇠ lift (put_operation keyValue ser);;
  next ⇠ match existingDocument with
         | Some existing => e ⇠ _resolveEntry (rc_head (result_context existing));; ret [e]
         | None => ret []
         end;;
  s ⇠ gets (fun s => s);;
  append_operation now
    (fun hash m size => (canAppend fuel now remote (MkView hash m size (Val operation)) (Some (doc, operation)) s).1)
    operation (po_type options) (default next (po_next options)) (po_options options) (Some (doc, operation)).

(** [remote] are the answers of other peers, who are always asked. *)
Definition del (fuel : nat) (now : Z) (key : IdKey) (options : PutOptions T I dl_options) (remote : Found)
    : Method Store (Entry * list ShallowOrFullEntry) :=
  results ⇠ getDetailed now (toIdeable key) false (Some remote);;
  match first_result results with
  | None => raise "No entry with key"
  | Some existing =>
      entry ⇠ _resolveEntry (rc_head (result_context existing));;
      s ⇠ gets (fun s => s);;
      let operation := DeleteOperation key in
      append_operation now
        (fun hash m size => (canAppend fuel now remote (MkView hash m size (Val operation)) None s).1)
        operation (Some (default CUT (po_type options))) (default [entry] (po_next options)) (po_options options) None
  end.

(** What a query that replicates asks the log to join: the entries that came with
    the results, or the heads of the documents. *)
Definition to_replicate (results : Results T I) : list (Entry + string) :=
  map (fun x => match x with
                | ResultIndexedValue _ _ (e :: _) => inl e
                | x => inr (rc_head (result_context x))
                end) (rs_results results).

End Documents.
