(* ===== verification/DocumentsFacts.v ===== *)
(** * What a document store promises
    (packages/programs/data/document/document/src)

    [DocumentSetupLaws] is what is assumed of a document type and its encoding,
    [DocumentLogLaws] what the store relies on in its log.  [store_ok m s] says
    that the store [s] holds the documents [m]: every document of the index is
    what the entry at its head puts, chains of entries stay with one document, and
    the cache of resolved documents agrees. *)

From Stdlib Require Import ZArith Lia.
From stdpp Require Import base list strings relations.
From S2P Require Import Prelude JsMap Cache Clock JsVal Query IndexInterface IndexStore Integers LogSorting EntryIndex Log Effects DocumentIndex Documents.

Local Open Scope Z_scope.
Local Open Scope effects_scope.

(** ** Ids *)

Definition same_type (a b : IdKey) : bool :=
  match a, b with
  | StringKey _, StringKey _ | Uint8ArrayKey _, Uint8ArrayKey _ | IntegerKey _, IntegerKey _ | LargeIntegerKey _, LargeIntegerKey _ => true
  | _, _ => false
  end.

(** The numbers a query can be made for. *)
Definition key_fits (k : IdKey) : bool :=
  match k with
  | IntegerKey z => (0 <=? z) && (z <=? 4294967295)
  | LargeIntegerKey z => (0 <=? z) && (z <=? 18446744073709551615)
  | _ => true
  end.

Lemma toId_toIdeable x k : toId x = Val k -> x = toIdeable k.
Proof. destruct x; simpl; try done; [by intros [= <-]| |by intros [= <-]|by intros [= <-]]. by destruct (_ && _); intros [= <-]. Qed.

Lemma primitive_same `{JsEnv, !JsEnvLaws} k k' : same_type k k' = true -> primitive k = primitive k' -> k = k'.
Proof. destruct k, k'; simpl; try done; intros _ [= E]; try congruence. apply toBase64_inj in E. congruence. Qed.

Lemma same_type_trans a b c : same_type a c = true -> same_type b c = true -> same_type a b = true.
Proof. by destruct a, b, c. Qed.

(** ** What is assumed *)

Class DocumentSetupLaws (T I : Type) `{JsEnv, Document I, !DocumentSetup T I} := {
  id_field : string;
  id_sample : IdKey;
  law_indexBy : indexBy = [id_field];
  law_decode v : decoder (serialize v) = Val v;
  law_transformer v c : exists i, transformer v c = Val i;
  law_transformed v c i : transformer v (toContext c) = Val i ->
    exists k, idResolver v = Val (toIdeable k) /\ same_type k id_sample = true /\ key_fits k = true /\
      extractFieldValue (to_js (MkWithContext i c)) [id_field] None = Val (toIdeable k);
  law_cast f v c i : cast = Some f -> transformer v c = Val i -> f i = v;
}.

(** [dl_full]: the entries stored, [dl_time]: the next reading of the clock.  A
    [settled] log has changed in nothing but its caches. *)
Class DocumentLogLaws (L T I : Type) `{DocumentLog L, !DocumentSetup T I} := {
  dl_ok : L -> Prop;
  dl_full : L -> string -> option Entry;
  dl_time : L -> outcome Timestamp;
  dl_fuel : nat -> dl_options -> dl_options;
  dl_settled (l l' : L) : Prop := dl_ok l' /\ (forall k, dl_full l' k = dl_full l k) /\ dl_time l' = dl_time l;
  law_dl_get l h : dl_ok l -> wp (dl_get h) (fun r l' => r = dl_full l h /\ dl_settled l l') l;
  law_dl_entry l h e : dl_ok l -> dl_full l h = Some e -> wp (dl_entry h) (fun r l' => r = Some e /\ dl_settled l l') l;
  law_dl_hash l h e : dl_ok l -> dl_full l h = Some e -> en_hash e = h /\ h <> ""%string;
  law_dl_acyclic l : dl_ok l -> exists rank : string -> nat, forall h e a, dl_full l h = Some e -> a ∈ meta_next (en_meta e) -> (rank a < rank h)%nat;
  law_dl_peers gid peers l : dl_ok l -> dl_settled l (dl_addPeersToGidPeerHistory gid peers l);
  law_dl_append l check op type next options t :
    dl_ok l -> dl_time l = Val t -> (forall n, n ∈ next -> dl_full l (en_hash n) = Some n) ->
    (forall m size, meta_next m = map en_hash next -> lc_timestamp (meta_clock m) = t -> check None m size = Val true) ->
    exists fuel0, forall fuel, (fuel0 <= fuel)%nat ->
      wp (dl_append check op type next (dl_fuel fuel options)) (fun r l1 =>
        let '(e, change, pending) := r in
        meta_next (en_meta e) = map en_hash next /\ meta_type (en_meta e) = default APPEND type /\
        lc_timestamp (meta_clock (en_meta e)) = t /\ getPayloadValue e = Val op /\ dl_full l (en_hash e) = None /\
        (forall h x, dl_full l h = Some x -> en_hash e ∉ meta_next (en_meta x)) /\
        dl_ok l1 /\ (forall k, dl_full l1 k = if decide (en_hash e = k) then Some e else dl_full l k) /\
        (exists b, added change = [(b, e)]) /\
        (forall r, r ∈ removed change -> exists x, dl_full l1 (any_hash r) = Some x /\ (forall x', r = Full x' -> x' = x) /\
           exists n, n ∈ map en_hash next /\ rtc (fun a b => exists y, dl_full l1 a = Some y /\ b ∈ meta_next (en_meta y)) n (any_hash r)) /\
        (default APPEND type = APPEND -> removed change = []) /\
        forall l2, dl_settled l1 l2 -> wp (dl_appended pending) (fun _ l3 => dl_ok l3 /\
          forall k, dl_full l3 k = if decide (k ∈ map any_hash (removed change)) then None else dl_full l1 k) l2) l;
}.

(** ** Calls on caches *)

Section Caches.
Context {K V P : Type} `{EqDecision K, Queue P K, !QueueLaws P K}.
Implicit Types (c : Cache K V P).

Lemma Cache_put_ok now k v c : Inv c -> exists c', Cache_put now k v c = Val (tt, c') /\ Inv c'.
Proof.
  intros Hc. unfold Cache_put, Cache.add.
  destruct (trim_spec (fun _ => True) now (insert_entry now c k (Some v) 1)) as (c' & -> & Hc' & _); [done|by apply insert_entry_Inv|done|by exists c'].
Qed.

Lemma Cache_put_agrees now k v m c :
  Inv c -> cache_agrees m c -> exists c', Cache_put now k v c = Val (tt, c') /\ Inv c' /\ cache_agrees (fun x => if decide (x = k) then Some v else m x) c'.
Proof.
  intros Hc Ha. destruct (add_other m (fun x => if decide (x = k) then Some v else m x) now c k Hc Ha) as (c' & E & Hc' & Ha').
  { intros x Hx. by rewrite decide_False. }
  rewrite decide_True in E by done. exists c'. unfold Cache_put. by rewrite E.
Qed.

Lemma Cache_update_Inv k v c : Inv c -> Inv (Cache_update c k v).
Proof.
  intros [Hm Hl Hd Hin]. unfold Cache_update. destruct (Map_get (cache_map c) k) as [d|] eqn:E; [|done].
  assert (Hk : Map_keys (Map_set (cache_map c) k (MkCacheData (Some v) (cd_time d) (cd_size d))) = Map_keys (cache_map c)).
  { rewrite Map_keys_set. unfold Map_has. by rewrite E. }
  split; cbn [cache_map cache_list cache_deleted]; [by apply Map_set_wf|by rewrite Hk|done|]. intros k' Hk'. rewrite Hk. by apply Hin.
Qed.

Lemma Cache_lookup_agrees now k m c :
  Inv c -> cache_agrees m c -> exists r c', Cache_lookup now k c = Val (r, c') /\ Inv c' /\ cache_agrees m c' /\ (r = None \/ r = m k).
Proof.
  intros Hc Ha. destruct (get_agrees m now c k Hc Ha) as (mem & c' & E & Hc' & Ha' & Hmem). unfold Cache_lookup. rewrite E. cbn [mbind outcome_bind].
  eexists _, c'. split; [done|]. split; [done|]. split; [done|]. destruct Hmem as [->| ->]; [by left|]. destruct (m k); [by right|by left].
Qed.

Lemma Cache_lookup_dead now k c : Inv c -> ~ live c k -> exists c', Cache_lookup now k c = Val (None, c') /\ Inv c'.
Proof.
  intros Hc Hl. destruct (trim_spec (fun c => ~ live c k) now c) as (c' & E & Hc' & Hl' & _); [intros; by apply evict_not_live|done|done|].
  unfold Cache_lookup, Cache.get. rewrite E. cbn [mbind outcome_bind]. exists c'. split; [|done].
  destruct (Set_has (cache_deleted c') k) eqn:Ed; [done|]. destruct (Map_get (cache_map c') k) as [v|] eqn:Em; [|done]. exfalso. apply Hl'. split.
  - apply Map_has_spec. unfold Map_has. by rewrite Em.
  - intros Hd%Set_has_spec. congruence.
Qed.

End Caches.

Section Facts.
Context {Ix St L T I Q Qk : Type} `{JsEnv, !JsEnvLaws, Document I, !DocumentSetup T I, Index Ix St (WithContext I), !IndexLaws Ix St (WithContext I),
  !IndexStore Ix (WithContext I), !IndexStoreLaws Ix St (WithContext I), Queue Q string, !QueueLaws Q string,
  Queue Qk IdPrimitive, !QueueLaws Qk IdPrimitive, !DocumentLog L, !DocumentSetupLaws T I, !DocumentLogLaws L T I}.
Abbreviation Store := (Documents Ix St L T I Q Qk).
Implicit Types (s : Store) (k : IdKey) (p : IdPrimitive) (m : IdPrimitive -> option T) (w : WithContext I) (e : Entry).

Lemma wp_onLog {A} (f : Method L A) (Φ : A -> Store -> Prop) s : wp f (fun a l => Φ a (set_log s l)) (d_log s) -> wp (onLog f) Φ s.
Proof. unfold wp, onLog. by destruct (f (d_log s)) as [[a|?|] l]. Qed.

(** ** Entries and the documents they are about *)

Definition id_of (v : T) : option IdPrimitive :=
  match idResolver v with Val x => match toId x with Val k => Some (primitive k) | _ => None end | _ => None end.

(** What an entry puts, and the id it is about. *)
Definition put_of e : option T :=
  match getPayloadValue e with
  | Val op => match isPutOperation op with
              | Some data => match decoder data with Val v => Some v | _ => None end
              | None => None
              end
  | _ => None
  end.
Definition about e : option IdPrimitive :=
  match getPayloadValue e with
  | Val op => match isPutOperation op with
              | Some data => match decoder data with Val v => id_of v | _ => None end
              | None => primitive <$> isDeleteOperation op
              end
  | _ => None
  end.

(** An entry whose operation can be read, about an id of the type of the documents. *)
Definition readable e : Prop := exists op, getPayloadValue e = Val op /\
  match isPutOperation op, isDeleteOperation op with
  | Some data, _ => exists v, decoder data = Val v
  | None, Some k => same_type k id_sample = true /\ key_fits k = true
  | None, None => False
  end.

Lemma about_put e v : put_of e = Some v -> about e = id_of v.
Proof.
  unfold put_of, about. destruct (getPayloadValue e) as [op|?|]; [|done|done]. destruct (isPutOperation op) as [d|]; [|done].
  destruct (decoder d) as [v'|?|]; [|done|done]. by intros [= ->].
Qed.

Definition js_id (x : jsval) : option IdPrimitive :=
  match extractFieldValue x indexBy None with
  | Val x => match toId x with Val k => Some (primitive k) | _ => None end
  | _ => None
  end.

Record store_ok m s : Prop := {
  so_log : dl_ok (d_log s);
  so_index : idx_ok (d_index s);
  so_keyed w : doc_id (d_index s) w = js_id (to_js w);
  so_iterators : Inv (d_iterators s);
  so_resolver : Inv (d_resolverCache s);
  so_cached : cache_agrees m (d_resolverCache s);
  so_docs w : w ∈ documents (d_index s) -> exists v e, transformer v (toContext (__context w)) = Val (wc_value w) /\
    dl_full (d_log s) (ctx_head (__context w)) = Some e /\ put_of e = Some v /\ (exists p, id_of v = Some p /\ m p = Some v);
  so_map p v : m p = Some v -> exists w, w ∈ documents (d_index s) /\ doc_id (d_index s) w = Some p;
  so_entries h e : dl_full (d_log s) h = Some e -> readable e;
  so_chain h e a e' : dl_full (d_log s) h = Some e -> a ∈ meta_next (en_meta e) -> dl_full (d_log s) a = Some e' -> about e' = about e;
}.

(** What a lookup leaves as it is. *)
Definition looked s s' : Prop :=
  d_index s' = d_index s /\ d_resultQueue s' = d_resultQueue s /\ d_events s' = d_events s /\ dl_settled (d_log s) (d_log s').

Lemma settled_refl (l : L) : dl_ok l -> dl_settled l l.
Proof. done. Qed.
Lemma settled_trans (l1 l2 l3 : L) : dl_settled l1 l2 -> dl_settled l2 l3 -> dl_settled l1 l3.
Proof. intros (? & E1 & F1) (? & E2 & F2). split; [done|]. split; [intros k; by rewrite E2|congruence]. Qed.
Lemma looked_refl s : dl_ok (d_log s) -> looked s s.
Proof. intros Hl. by do 3 (split; [done|]). Qed.
Lemma looked_trans s1 s2 s3 : looked s1 s2 -> looked s2 s3 -> looked s1 s3.
Proof. intros (? & ? & ? & ?) (? & ? & ? & ?). do 3 (split; [congruence|]). by eapply settled_trans. Qed.

(** The parts a lookup may change: the caches, the ids drawn and the caches of the log. *)
Lemma store_ok_looked m s s' :
  store_ok m s -> looked s s' -> Inv (d_iterators s') -> Inv (d_resolverCache s') -> cache_agrees m (d_resolverCache s') -> store_ok m s'.
Proof.
  intros [H1' H2' H3' H4' H5' H6' H7' H8' H9' H10'] (Ei & _ & _ & Hl & Ef & _) Hit Hr Hc. split; rewrite ?Ei; try done.
  - intros w Hw. destruct (H7' w Hw) as (v & e & ? & ? & ?). exists v, e. by rewrite Ef.
  - intros h e. rewrite Ef. apply H9'.
  - intros h e a e'. rewrite !Ef. apply H10'.
Qed.

(** ** The query for one id *)

Lemma id_query_ok k : key_fits k = true -> exists q, id_query (toIdeable k) = Val (Some q) /\ getMatcher indexBy (toIdeable k) = Val q /\
  forall doc k', extractFieldValue doc [id_field] None = Val (toIdeable k') -> same_type k' k = true ->
    covered q doc = true /\ sat q doc = bool_decide (k' = k).
Proof.
  intros Hf. unfold id_query, getMatcher. rewrite law_indexBy. destruct k as [x|b|z|z]; cbn [toIdeable] in *.
  - eexists. split; [done|]. split; [done|]. intros doc [x'| | |] E Ht; [|done..]. cbn. unfold read_field. rewrite E. split; [done|].
    apply bool_decide_ext. split; congruence.
  - eexists. split; [done|]. split; [done|]. intros doc [|b'| |] E Ht; [done| |done..]. cbn. unfold read_field. rewrite E. split; [done|].
    apply bool_decide_ext. split; congruence.
  - simpl in Hf. rewrite (new_IntegerCompare_u32 [id_field] Equal z) by lia. cbn [mbind outcome_bind]. eexists. split; [done|]. split; [done|].
    intros doc [| |z'|] E Ht; [done..| |done]. cbn. unfold read_field. rewrite E. split; [done|].
    case_bool_decide as Hz; [injection Hz as ->; apply Z.eqb_refl|apply Z.eqb_neq; congruence].
  - simpl in Hf. rewrite (new_IntegerCompare_u64 [id_field] Equal z) by lia. cbn [mbind outcome_bind]. eexists. split; [done|]. split; [done|].
    intros doc [| | |z'] E Ht; [done..|]. cbn. unfold read_field. rewrite E. split; [done|].
    case_bool_decide as Hz; [injection Hz as ->; apply Z.eqb_refl|apply Z.eqb_neq; congruence].
Qed.

Lemma toId_ideable k : key_fits k = true -> toId (toIdeable k) = Val k.
Proof. destruct k as [?|?|?|z]; simpl; try done. intros Hf. by replace ((z <=? _) && _) with true by lia. Qed.

Lemma doc_key m s w : store_ok m s -> w ∈ documents (d_index s) -> exists v e k,
  transformer v (toContext (__context w)) = Val (wc_value w) /\ dl_full (d_log s) (ctx_head (__context w)) = Some e /\ put_of e = Some v /\
  idResolver v = Val (toIdeable k) /\ same_type k id_sample = true /\ key_fits k = true /\
  extractFieldValue (to_js w) [id_field] None = Val (toIdeable k) /\ id_of v = Some (primitive k) /\
  doc_id (d_index s) w = Some (primitive k) /\ m (primitive k) = Some v.
Proof.
  intros Hs Hw. destruct (so_docs _ _ Hs w Hw) as (v & e & Ht & Hf & Hp & p & Hid & Hm).
  destruct (law_transformed _ _ _ Ht) as (k & Er & Hty & Hfit & Ex). replace (MkWithContext (wc_value w) (__context w)) with w in Ex by by destruct w.
  assert (E : id_of v = Some (primitive k)) by (unfold id_of; by rewrite Er, toId_ideable).
  exists v, e, k. split_and!; try done.
  - rewrite (so_keyed _ _ Hs). unfold js_id. by rewrite law_indexBy, Ex, toId_ideable.
  - congruence.
Qed.

Lemma NoDup_singleton {A B} (f : A -> B) (l : list A) :
  NoDup (map f l) -> (forall x y, x ∈ l -> y ∈ l -> f x = f y) -> l = [] \/ exists x, l = [x].
Proof.
  destruct l as [|x [|y l]]; [by left|by right; exists x|]. intros Hnd Hf. exfalso. cbn in Hnd. apply NoDup_cons in Hnd as [Hn _]. apply Hn.
  rewrite (Hf x y) by (try left; right; left). left.
Qed.

(** The index answers the query for an id with the one document that has it. *)
Lemma id_results m s k q :
  store_ok m s -> same_type k id_sample = true -> id_query (toIdeable k) = Val (Some q) -> key_fits k = true ->
  supported (idx_contents (d_index s)) [q] (Some []) /\
  match m (primitive k) with
  | Some v => exists r, reference_results (idx_contents (d_index s)) [q] (Some []) = [r] /\
                ir_value r ∈ documents (d_index s) /\ doc_id (d_index s) (ir_value r) = Some (primitive k)
  | None => reference_results (idx_contents (d_index s)) [q] (Some []) = []
  end.
Proof.
  intros Hs Hty Hq Hfit. destruct (id_query_ok k Hfit) as (q' & E & _ & Hsat). rewrite Hq in E. injection E as <-.
  assert (Hdoc : forall r, r ∈ idx_contents (d_index s) -> covered q (doc_of r) = true /\
            (sat q (doc_of r) = true <-> doc_id (d_index s) (ir_value r) = Some (primitive k))).
  { intros r Hr. destruct (doc_key m s (ir_value r) Hs) as (v & e & k' & _ & _ & _ & _ & Hty' & _ & Ex & _ & Ed & _); [by apply list_elem_of_fmap_2|].
    destruct (Hsat _ k' Ex) as [Hc Hv]; [by eapply same_type_trans|]. split; [done|]. rewrite Ed. unfold doc_of. rewrite Hv, bool_decide_eq_true.
    split; [by intros ->|]. intros [= E]. apply primitive_same; [by eapply same_type_trans|done]. }
  split.
  { intros r Hr. split; [|done]. unfold covered_all. cbn [forallb]. by rewrite (proj1 (Hdoc r Hr)). }
  unfold reference_results, order_results. set (l := List.filter _ _).
  assert (Hl : forall r, r ∈ l <-> r ∈ idx_contents (d_index s) /\ doc_id (d_index s) (ir_value r) = Some (primitive k)).
  { intros r. unfold l. rewrite list_elem_of_In, filter_In, <- list_elem_of_In. unfold sat_all. cbn [forallb]. rewrite andb_true_r.
    split; intros [Hr Hx]; (split; [done|]); by apply (Hdoc r Hr). }
  destruct (NoDup_singleton ir_value l) as [E|[r E]].
  - apply NoDup_map_filter, (law_nodup _ (so_index _ _ Hs)).
  - intros x y [Hx Ex]%Hl [Hy Ey]%Hl. apply (law_ids (d_index s) _ _ (primitive k) (so_index _ _ Hs)); [by apply list_elem_of_fmap_2|by apply list_elem_of_fmap_2|done|done].
  - rewrite E. destruct (m (primitive k)) as [v|] eqn:Em; [|done]. destruct (so_map _ _ Hs _ _ Em) as (w & Hw & Hid).
    apply list_elem_of_fmap in Hw as (r & -> & Hr). assert (Hin : r ∈ l) by by apply Hl. rewrite E in Hin. by apply not_elem_of_nil in Hin.
  - assert (Hin : r ∈ l) by (rewrite E; left). apply Hl in Hin as [Hr Hid]. assert (Hr' : ir_value r ∈ documents (d_index s)) by by apply list_elem_of_fmap_2.
    rewrite E. cbn [js_sort js_insert]. destruct (doc_key m s _ Hs Hr') as (v & e & k' & _ & _ & _ & _ & _ & _ & _ & _ & Ed & Em).
    assert (primitive k = primitive k') as -> by congruence. rewrite Em. by exists r.
Qed.

(** ** Looking up a document *)

Lemma wp_onIterators {A} (f : Cache string (CachedIterator St) Q -> outcome (A * Cache string (CachedIterator St) Q)) a c (Φ : A -> Store -> Prop) s :
  f (d_iterators s) = Val (a, c) -> Φ a (set_iterators s c) -> wp (onIterators f) Φ s.
Proof. intros E HΦ. unfold wp, onIterators. by rewrite E. Qed.
Lemma wp_onResolver {A} (f : Cache IdPrimitive T Qk -> outcome (A * Cache IdPrimitive T Qk)) a c (Φ : A -> Store -> Prop) s :
  f (d_resolverCache s) = Val (a, c) -> Φ a (set_resolver s c) -> wp (onResolver f) Φ s.
Proof. intros E HΦ. unfold wp, onResolver. by rewrite E. Qed.

(** A step that leaves the store as a lookup does. *)
Definition kept m s s' : Prop := store_ok m s' /\ looked s s'.

Lemma kept_trans m s1 s2 s3 : kept m s1 s2 -> kept m s2 s3 -> kept m s1 s3.
Proof. intros [_ H12] [Hs H23]. split; [done|]. by eapply looked_trans. Qed.
Lemma kept_refl m s : store_ok m s -> kept m s s.
Proof. intros Hs. split; [done|]. apply looked_refl, Hs. Qed.
Lemma kept_iterators m s c : store_ok m s -> Inv c -> kept m s (set_iterators s c).
Proof.
  intros Hs Hc. assert (Hl : looked s (set_iterators s c)) by (do 3 (split; [done|]); apply settled_refl, Hs).
  split; [|done]. apply (store_ok_looked m s); [done|done|done|apply Hs|apply Hs].
Qed.
Lemma kept_resolver m s c : store_ok m s -> Inv c -> cache_agrees m c -> kept m s (set_resolver s c).
Proof.
  intros Hs Hc Ha. assert (Hl : looked s (set_resolver s c)) by (do 3 (split; [done|]); apply settled_refl, Hs).
  split; [|done]. apply (store_ok_looked m s); [done|done|apply Hs|done|done].
Qed.
Lemma kept_log m s l : store_ok m s -> dl_settled (d_log s) l -> kept m s (set_log s l).
Proof.
  intros Hs Hd. assert (Hl : looked s (set_log s l)) by (by do 3 (split; [done|])).
  split; [|done]. apply (store_ok_looked m s); [done|done|apply Hs..].
Qed.

Lemma id_fetch now m s k q id request :
  store_ok m s -> same_type k id_sample = true -> id_query (toIdeable k) = Val (Some q) -> key_fits k = true ->
  wp (iterateAndFetch now request (MkSearch id [q] [] 10)) (fun rs s' => rs = reference_results (idx_contents (d_index s)) [q] (Some []) /\
    kept m s s' /\ ~ live (d_iterators s') id) s.
Proof.
  intros Hs Hty Hq Hfit. destruct (id_results m s k q Hs Hty Hq Hfit) as [Hsup Hres].
  set (rs := reference_results _ _ _) in *. assert (Hlen : (length rs <= 1)%nat) by (destruct (m (primitive k)); [destruct Hres as (r & -> & _)|rewrite Hres]; simpl; lia).
  unfold iterateAndFetch, fetch_from. wp_steps. cbn [sr_id sr_query sr_sort sr_fetch].
  destruct (Cache_put_ok now id (MkCachedIterator (idx_iterate (d_index s) (MkIterateOptions (QLMany [q]) (Some []))) request) _ (so_iterators _ _ Hs)) as (c1 & E1 & Hc1).
  eapply wp_onIterators; [exact E1|]. wp_steps. cbn [set_iterators d_index d_iterators].
  destruct (law_iterate (d_index s) (QLMany [q]) [q] (Some []) eq_refl (so_index _ _ Hs) Hsup) as (_ & Hnext & _).
  destruct (Hnext 9%nat) as (st' & E2 & _ & _ & Hdone). fold rs in E2, Hdone.
  eapply wp_lift; [exact E2|]. cbn [fst snd ci_iterator ci_request]. wp_steps.
  eapply wp_onIterators; [done|]. cbn [set_iterators d_index d_iterators]. rewrite Hdone, (proj2 (Nat.leb_le _ _)) by lia. cbn [negb not_done]. wp_steps.
  eapply wp_onIterators; [done|]. wp_steps. cbn [set_iterators d_index d_iterators]. split; [apply take_ge; lia|]. split; [|apply del_not_live].
  apply (kept_iterators m s); [done|]. by apply del_Inv, Cache_update_Inv.
Qed.

Lemma resolve_ok now m s w :
  store_ok m s -> w ∈ documents (d_index s) ->
  wp (resolveDocument now (to_js w) (wc_value w) (ctx_head (__context w)))
    (fun r s' => kept m s s' /\ exists p v, doc_id (d_index s) w = Some p /\ m p = Some v /\ r = Some v) s.
Proof.
  intros Hs Hw. destruct (doc_key m s w Hs Hw) as (v & e & k & Ht & Hf & Hp & _ & _ & Hfit & Ex & _ & Hid & Hm).
  unfold resolveDocument. wp_steps. eapply wp_lift; [by rewrite law_indexBy|]. wp_steps. eapply wp_lift; [by apply toId_ideable|]. wp_steps.
  destruct (Cache_lookup_agrees now (primitive k) m _ (so_resolver _ _ Hs) (so_cached _ _ Hs)) as (r & c & Ec & Hc & Ha & Hr).
  eapply wp_onResolver; [exact Ec|]. assert (Hk : kept m s (set_resolver s c)) by by apply kept_resolver.
  destruct r as [v'|].
  { destruct Hr as [?|Hr]; [done|]. wp_steps. split; [done|]. exists (primitive k), v. split_and!; [done|done|congruence]. }
  destruct cast as [f|] eqn:Ecast.
  { wp_steps. split; [done|]. exists (primitive k), v. split_and!; [done|done|]. by rewrite (law_cast f v _ _ Ecast Ht). }
  wp_steps. apply wp_onLog. eapply wp_mono; [apply law_dl_get, Hs|]. intros r l [-> Hl]. cbn beta.
  cbn [set_resolver d_log] in *. rewrite Hf. unfold put_of in Hp. destruct (getPayloadValue e) as [op|?|] eqn:Ee; [|done|done].
  wp_steps. destruct (isPutOperation op) as [data|]; [|done]. wp_steps. destruct (decoder data) as [v0|?|] eqn:Ed; [|done|done].
  injection Hp as ->. wp_steps. split; [|by exists (primitive k), v].
  eapply kept_trans; [exact Hk|]. apply kept_log; [apply Hk|done].
Qed.

(** What is found first, looking for an id: the document that the store holds. *)
Definition finds m s (resolve : bool) k (found : option (Result T I)) : Prop :=
  match m (primitive k) with
  | None => found = None
  | Some v => exists w, w ∈ documents (d_index s) /\ doc_id (d_index s) w = Some (primitive k) /\
      match found with
      | Some (ResultValue c v' i) => resolve = true /\ c = toContext (__context w) /\ v' = v /\ i = Some w
      | Some (ResultIndexedValue c i _) => resolve = false /\ c = toContext (__context w) /\ i = inl w
      | None => False
      end
  end.

Lemma answer_ok now m s w id from (resolve : bool) sr r :
  store_ok m s -> w ∈ documents (d_index s) -> ir_value r = w ->
  wp (answer_results now (Some (if resolve then SearchRequest sr else SearchRequestIndexed sr false)) id from true None 0 [r])
    (fun rs s' => kept m s s' /\ exists p v, doc_id (d_index s) w = Some p /\ m p = Some v /\
       if resolve then rs = [ResultValue (toContext (__context w)) v (Some w)]
       else exists es, rs = [ResultIndexedValue (toContext (__context w)) (inl w) es]) s.
Proof.
  intros Hs Hw Er. subst w. cbn [answer_results negb andb]. wp_steps. destruct resolve; cbn [answer_result]; wp_steps.
  - eapply wp_mono; [by apply (resolve_ok now m)|]. intros r' s' [Hk (p & v & Hid & Hm & ->)]. wp_steps. split; [done|]. by exists p, v.
  - apply wp_onLog. eapply wp_mono; [apply law_dl_get, Hs|]. intros r' l [-> Hl]. cbn beta. wp_steps. split; [by apply kept_log|].
    destruct (doc_key m s _ Hs Hw) as (v & e & k & Ht & Hf & Hp & _ & _ & Hfit & Ex & _ & Hid & Hm). exists (primitive k), v.
    split_and!; [done|done|]. by eexists.
Qed.

Lemma local_query now m s k q id (resolve : bool) :
  store_ok m s -> same_type k id_sample = true -> id_query (toIdeable k) = Val (Some q) -> key_fits k = true ->
  wp (processQuery now (if resolve then SearchRequest (MkSearch id [q] [] 10) else SearchRequestIndexed (MkSearch id [q] [] 10) false) self true None)
    (fun rs s' => kept m s s' /\ finds m s resolve k (head (rs_results rs)) /\ (m (primitive k) = None -> rs_results rs = [])) s.
Proof.
  intros Hs Hty Hq Hfit. set (sr := MkSearch id [q] [] 10). set (req := if resolve then _ else _).
  assert (Eid : idString req = id) by by destruct resolve.
  assert (Ef : forall B (f : SearchRequests -> Search -> Method Store B) g h, match req with SearchRequest x0 => f req x0 | SearchRequestIndexed x0 _ => f req x0
             | CollectNextRequest i a => g i a | CloseIteratorRequest i => h i end = f req sr) by by destruct resolve.
  unfold processQuery. rewrite Eid. wp_steps. rewrite (Ef _ (fun (q : SearchRequests) (x0 : Search) => bindM (iterateAndFetch now q x0) (fun rs => ret (Some q, rs)))). wp_steps.
  eapply wp_mono; [by apply (id_fetch now m s k q id)|]. intros rs s1 (-> & Hk1 & Hdead). wp_steps. unfold iterators_getPending, iterators_get. wp_steps.
  destruct (Cache_lookup_dead now id (d_iterators s1)) as (c & Ec & Hc); [apply Hk1|done|]. eapply wp_onIterators; [exact Ec|]. wp_steps. cbn [negb]. wp_steps.
  assert (Hk2 : kept m s (set_iterators s1 c)) by (eapply kept_trans; [exact Hk1|apply kept_iterators; [apply Hk1|done]]).
  destruct (id_results m s k q Hs Hty Hq Hfit) as [_ Hres]. unfold finds. destruct (m (primitive k)) as [v|] eqn:Em.
  - destruct Hres as (r & -> & Hr & Hid).
    assert (Hr' : ir_value r ∈ documents (d_index (set_iterators s1 c))) by (destruct Hk2 as [_ (-> & _)]; done).
    eapply wp_mono; [apply (answer_ok now m _ (ir_value r) id self resolve sr); [apply Hk2|exact Hr'|done]|].
    intros out s2 (Hk3 & p & v' & Hid' & Hm' & Hout). wp_steps. cbn [negb andb]. wp_steps. split; [by eapply kept_trans|]. split; [|done].
    exists (ir_value r). split; [done|]. split; [done|]. cbn [rs_results]. assert (p = primitive k) as ->.
    { destruct Hk2 as [_ (Ei & _)]. rewrite Ei, Hid in Hid'. congruence. }
    rewrite Em in Hm'. injection Hm' as <-. destruct resolve; [by rewrite Hout|destruct Hout as (es & ->); done].
  - rewrite Hres. cbn [answer_results]. wp_steps. cbn [negb andb]. wp_steps. by split; [|split].
Qed.

Definition drawn s : Store :=
  MkDocuments (d_log s) (d_index s) (d_iterators s) (d_resolverCache s) (d_resultQueue s) (S (d_requests s)) (d_events s).
Lemma wp_new_id (Φ : string -> Store -> Prop) s : Φ (random_id (d_requests s)) (drawn s) -> wp new_id Φ s.
Proof. done. Qed.

(** Looking up an id; [remote] are the answers of other peers. *)
Lemma getDetailed_ok now m s k (resolve : bool) remote :
  store_ok m s -> same_type k id_sample = true -> key_fits k = true ->
  wp (getDetailed now (toIdeable k) resolve remote)
    (fun rs s' => kept m s s' /\ exists found, finds m s resolve k found /\
       first_result rs = match found with Some r => Some r | None => first_result remote end) s.
Proof.
  intros Hs Hty Hfit. destruct (id_query_ok k Hfit) as (q & Hq & _). unfold getDetailed. wp_steps. eapply wp_lift; [exact Hq|]. wp_steps.
  apply wp_new_id. set (s1 := drawn s). set (id := random_id (d_requests s)).
  assert (Hk1 : kept m s s1).
  { assert (Hl : looked s s1) by (do 3 (split; [done|]); apply settled_refl, Hs). split; [|done]. apply (store_ok_looked m s); [done|done|apply Hs..]. }
  assert (Hf1 : forall r f, finds m s1 r k f -> finds m s r k f) by done.
  wp_steps. unfold queryCommence. wp_steps. cbn [negb andb]. wp_steps.
  eapply wp_mono; [by apply (local_query now m s1 k q id resolve); [apply Hk1| | |]|]. intros rs s2 (Hk2 & Hfind & Hnone). wp_steps.
  split; [eapply kept_trans; [exact Hk1|exact Hk2]|]. exists (head (rs_results rs)). split; [by apply Hf1|].
  destruct (rs_results rs) as [|r l] eqn:Er; cbn; [by destruct remote as [[|r l]|]|by rewrite Er].
Qed.

(** ** What changes of the index do to the documents *)

Definition mset m p v : IdPrimitive -> option T := fun x => if decide (x = p) then Some v else m x.
Definition mdel m p : IdPrimitive -> option T := fun x => if decide (x = p) then None else m x.

Lemma store_ok_ext m m' s : (forall p, m p = m' p) -> store_ok m s -> store_ok m' s.
Proof.
  intros E [H1' H2' H3' H4' H5' H6' H7' H8' H9' H10']. split; try done.
  - intros k v Hg Hd. rewrite <- E. by apply H6'.
  - intros w Hw. destruct (H7' w Hw) as (v & e & ? & ? & ? & p & ? & ?). exists v, e. split_and!; try done. exists p. by rewrite <- E.
  - intros p v. rewrite <- E. apply H8'.
Qed.

(** Every document has an id of the right type. *)
Lemma typed_id (v : T) : exists k, idResolver v = Val (toIdeable k) /\ same_type k id_sample = true /\ key_fits k = true /\ id_of v = Some (primitive k).
Proof.
  destruct (law_transformer v (toContext (MkContext 0 0 "" "" 0))) as [i Hi]. destruct (law_transformed _ _ _ Hi) as (k & E & Ht & Hf & _).
  exists k. split_and!; try done. unfold id_of. by rewrite E, toId_ideable.
Qed.

(** The document an index holds under an id, before [e] is put. *)
Definition created_from s p e : Z :=
  match List.find (fun w => bool_decide (doc_id (d_index s) w = Some p)) (documents (d_index s)) with
  | Some w => if ctx_created (__context w) =? 0 then wallTime (lc_timestamp (meta_clock (en_meta e))) else ctx_created (__context w)
  | None => wallTime (lc_timestamp (meta_clock (en_meta e)))
  end.

Definition same_but_index s s' : Prop :=
  d_log s' = d_log s /\ d_resultQueue s' = d_resultQueue s /\ d_events s' = d_events s.

Lemma index_put_ok now m s v e k :
  store_ok m s -> idResolver v = Val (toIdeable k) -> key_fits k = true -> dl_full (d_log s) (en_hash e) = Some e -> put_of e = Some v ->
  wp (index_put now v e k) (fun _ s' => store_ok (mset m (primitive k) v) s' /\ same_but_index s s' /\
    exists w, w ∈ documents (d_index s') /\ doc_id (d_index s') w = Some (primitive k) /\ ctx_head (__context w) = en_hash e /\
      ctx_modified (__context w) = wallTime (lc_timestamp (meta_clock (en_meta e))) /\ ctx_created (__context w) = created_from s (primitive k) e) s.
Proof.
  intros Hs Hk Hfit He Hp. assert (Hid : id_of v = Some (primitive k)) by (unfold id_of; by rewrite Hk, toId_ideable).
  unfold index_put. wp_steps.
  destruct (Cache_put_agrees now (primitive k) v m _ (so_resolver _ _ Hs) (so_cached _ _ Hs)) as (c & Ec & Hc & Ha).
  eapply wp_onResolver; [exact Ec|]. wp_steps. cbn [set_resolver d_index]. set (created := match idx_get _ _ with Some _ => _ | None => _ end).
  set (ctx := MkContext created _ _ _ _). destruct (law_transformer v (toContext ctx)) as [i Hi]. eapply wp_lift; [exact Hi|]. wp_steps.
  destruct (law_transformed _ _ _ Hi) as (k' & Ek' & _ & _ & Ex). assert (Ekk : toIdeable k' = toIdeable k) by congruence.
  assert (Hw0 : doc_id (d_index s) (MkWithContext i ctx) = Some (primitive k)).
  { rewrite (so_keyed _ _ Hs). unfold js_id. by rewrite law_indexBy, Ex, Ekk, toId_ideable. }
  destruct (law_put (d_index s) (MkWithContext i ctx) (primitive k) (so_index _ _ Hs) Hw0) as (idx' & Ep & Hok & Hdid & Hdocs).
  eapply wp_lift; [exact Ep|]. wp_steps. cbn [set_docs set_resolver d_log d_index d_iterators d_resolverCache d_resultQueue d_events].
  assert (Ecr : created = created_from s (primitive k) e).
  { unfold created, created_from. pose proof (law_get (d_index s) k (so_index _ _ Hs)) as Hg.
    destruct (idx_get (d_index s) k) as [r|].
    - destruct Hg as [Hr Hrid]. destruct (List.find _ _) as [w|] eqn:Ef.
      + apply find_some in Ef as [Hw%list_elem_of_In Hwid%bool_decide_eq_true]. by rewrite (law_ids _ _ _ _ (so_index _ _ Hs) Hr Hw Hrid Hwid).
      + exfalso. pose proof (find_none _ _ Ef (ir_value r)) as Hn. rewrite list_elem_of_In in Hr. specialize (Hn Hr). cbn in Hn.
        apply bool_decide_eq_false in Hn. done.
    - destruct (List.find _ _) as [w|] eqn:Ef; [|done]. apply find_some in Ef as [Hw%list_elem_of_In Hwid%bool_decide_eq_true]. by destruct (Hg w Hw). }
  split; [|split; [done|]].
  - split; cbn; try apply Hs; try done.
    + intros w. rewrite Hdid. apply Hs.
    + intros w [->|[Hw Hne]]%Hdocs.
      * exists v, e. split_and!; try done. exists (primitive k). split; [done|]. unfold mset. by rewrite decide_True.
      * destruct (so_docs _ _ Hs w Hw) as (v' & e' & ? & ? & ? & p & Hp' & Hm). exists v', e'. split_and!; try done. exists p. split; [done|].
        unfold mset. rewrite decide_False; [done|]. intros ->. apply Hne. destruct (doc_key m s w Hs Hw) as (v2 & e2 & k2 & ? & ? & ? & _ & _ & _ & _ & Ei & Ed & _).
        rewrite Ed. congruence.
    + intros p v'. unfold mset. rewrite Hdid. case_decide as Hp'; [intros [= <-]; subst p|].
      * exists (MkWithContext i ctx). split; [|done]. apply Hdocs. by left.
      * intros Hm. destruct (so_map _ _ Hs _ _ Hm) as (w & Hw & Hwid). exists w. split; [|done]. apply Hdocs. right. split; [done|]. congruence.
  - exists (MkWithContext i ctx). cbn [__context ctx]. rewrite Hdid. split_and!; try done. apply Hdocs. by left.
Qed.

Lemma index_del_ok m s k :
  store_ok m s -> same_type k id_sample = true -> key_fits k = true ->
  wp (index_del k) (fun _ s' => store_ok (mdel m (primitive k)) s' /\ same_but_index s s' /\
    forall w, w ∈ documents (d_index s') <-> w ∈ documents (d_index s) /\ doc_id (d_index s) w <> Some (primitive k)) s.
Proof.
  intros Hs Hty Hfit. destruct (id_query_ok k Hfit) as (q & Hq & Hg & Hsat). unfold index_del. wp_steps.
  eapply wp_onResolver; [done|]. wp_steps. eapply wp_lift; [exact Hg|]. wp_steps. cbn [set_resolver d_index].
  destruct (id_results m s k q Hs Hty Hq Hfit) as [Hsup _].
  destruct (law_del (d_index s) (QLMany [q]) [q] eq_refl (so_index _ _ Hs) Hsup) as (ids & idx' & Ed & Hok & Hdid & Hdocs).
  eapply wp_lift; [exact Ed|]. wp_steps. cbn [set_docs set_resolver d_log d_index d_iterators d_resolverCache d_resultQueue d_events fst snd].
  assert (Hdocs' : forall w, w ∈ documents idx' <-> w ∈ documents (d_index s) /\ doc_id (d_index s) w <> Some (primitive k)).
  { intros w. rewrite Hdocs. split; intros [Hw Hx]; (split; [done|]).
    all: destruct (doc_key m s w Hs Hw) as (v2 & e2 & k2 & _ & _ & _ & _ & Ht2 & _ & Ex & _ & Ed2 & _).
    all: destruct (Hsat _ _ Ex) as [_ Hsat']; [by eapply same_type_trans|]; unfold sat_all in *; cbn [forallb] in *; rewrite andb_true_r, Hsat', ?Ed2 in *.
    - intros [= E]. apply bool_decide_eq_false in Hx. apply Hx. apply primitive_same; [by eapply same_type_trans|done].
    - apply bool_decide_eq_false. intros ->. done. }
  split; [|split; [done|done]]. split; cbn; try apply Hs; try done.
  - intros w. rewrite Hdid. apply Hs.
  - apply del_Inv, Hs.
  - apply (del_agrees m); [apply Hs|]. intros p Hp. unfold mdel. by rewrite decide_False.
  - intros w [Hw Hne]%Hdocs'. destruct (so_docs _ _ Hs w Hw) as (v' & e' & ? & ? & ? & p & Hp' & Hmp). exists v', e'. split_and!; try done. exists p. split; [done|].
    unfold mdel. rewrite decide_False; [done|]. intros ->. apply Hne. destruct (doc_key m s w Hs Hw) as (v2 & e2 & k2 & ? & ? & ? & _ & _ & _ & _ & Ei & Ed2 & _).
    rewrite Ed2. congruence.
  - intros p v'. unfold mdel. rewrite Hdid. case_decide as Hp'; [done|]. intros Hmp. destruct (so_map _ _ Hs _ _ Hmp) as (w & Hw & Hwid).
    exists w. split; [|done]. apply Hdocs'. split; [done|]. congruence.
Qed.

(** ** One item of a change, and all of them *)

Definition HandledT := (Handled (T := T)).
Implicit Types (h : Handled (T := T)).

(** What an item does to the documents, and to what has been gathered. *)
Definition item_step (removedSet : list string) (st : (IdPrimitive -> option T) * Handled (T := T)) e : (IdPrimitive -> option T) * Handled (T := T) :=
  let '(m, h) := st in
  match about e with
  | None => st
  | Some p =>
      if Set_has (hd_modified h) p then st
      else match put_of e with
           | Some v => if Set_has removedSet (en_hash e) then (mdel m p, add_modified p (push_removed v h))
                       else (mset m p v, add_modified p (push_added v h))
           | None => match m p with
                     | Some v => (mdel m p, add_modified p (push_removed v h))
                     | None => st
                     end
           end
  end.

Lemma wp_inFirst {S X A} (f : Method S A) (Φ : A -> S * X -> Prop) (sx : S * X) : wp f (fun a x => Φ a (x, sx.2)) sx.1 -> wp (inFirst f) Φ sx.
Proof. unfold wp, inFirst. by destruct (f sx.1) as [[a|?|] x]. Qed.

(** What an item leaves: the documents of [item_step]; nothing but the index has
    changed, and the caches of the log. *)
Definition handled (st : (IdPrimitive -> option T) * Handled (T := T)) (s0 : Store) (sh : Store * Handled (T := T)) : Prop :=
  store_ok st.1 sh.1 /\ sh.2 = st.2 /\ d_resultQueue sh.1 = d_resultQueue s0 /\ d_events sh.1 = d_events s0 /\ dl_settled (d_log s0) (d_log sh.1).

(** The reference says what the entry says. *)
Definition ref_ok (reference : option (T * Operation)) : Prop :=
  match reference with Some (doc, op) => exists data, isPutOperation op = Some data /\ decoder data = Val doc | None => True end.

Lemma isDelete_put op data : isPutOperation op = Some data -> isDeleteOperation op = None.
Proof. by destruct op. Qed.

Lemma change_removed_ok m s h v k s0 :
  handled (m, h) s0 (s, h) -> same_type k id_sample = true -> key_fits k = true ->
  wp (change_removed v k) (fun _ sh => handled (mdel m (primitive k), add_modified (primitive k) (push_removed v h)) s0 sh) (s, h).
Proof.
  intros (Hs & _ & Hq & He & Hd) Hty Hfit. cbn [fst snd] in *. unfold change_removed, gather. wp_steps. cbn [fst snd].
  apply wp_inFirst. cbn [fst snd]. eapply wp_mono; [by eapply index_del_ok|]. intros _ s' (Hs' & (El & Eq & Ee) & _). cbn beta. wp_steps.
  cbn [fst snd]. split_and!; try done; cbn [fst snd]; try congruence.
Qed.

Lemma handle_item_ok now m h s s0 isAppend reference removedSet e :
  handled (m, h) s0 (s, h) -> ref_ok reference -> readable e ->
  (Set_has removedSet (en_hash e) = false -> is_Some (put_of e) -> dl_full (d_log s0) (en_hash e) = Some e) ->
  wp (handle_item now isAppend reference removedSet e) (fun _ sh => handled (item_step removedSet (m, h) e) s0 sh) (s, h).
Proof.
  intros Hh Href (op & Ep & Hop) Hfull. unfold handle_item. wp_steps. eapply wp_lift; [exact Ep|]. wp_steps.
  unfold item_step, about, put_of. rewrite Ep. unfold put_of in Hfull. rewrite Ep in Hfull. destruct (isPutOperation op) as [data|] eqn:Eput.
  - destruct Hop as (v & Ev). rewrite Ev in *. destruct (typed_id v) as (k & Ek & Hty & Hfit & Hid). rewrite Hid.
    destruct (Set_has removedSet (en_hash e)) eqn:Er; cbn [negb].
    + unfold change_remove. rewrite Eput. wp_steps. eapply wp_lift; [exact Ev|]. wp_steps. eapply wp_lift; [exact Ek|]. wp_steps.
      eapply wp_lift; [by apply toId_ideable|]. unfold already. wp_steps. cbn [fst snd].
      destruct (Set_has (hd_modified h) (primitive k)); [by wp_steps|]. by apply change_removed_ok.
    + assert (Eval : match reference with Some (doc, op0) => if isAppend && bool_decide (op0 = op) then Val doc else decoder data | None => decoder data end = Val v).
      { destruct reference as [[doc op0]|]; [|done]. destruct (isAppend && bool_decide (op0 = op)) eqn:Eb; [|done].
        apply andb_true_iff in Eb as [_ ->%bool_decide_eq_true]. destruct Href as (data' & E & Hd). congruence. }
      rewrite Ev in Eval. wp_steps. eapply wp_lift; [exact Eval|]. unfold change_put. wp_steps. eapply wp_lift; [exact Ek|]. wp_steps.
      eapply wp_lift; [by apply toId_ideable|]. unfold already. wp_steps. cbn [fst snd].
      destruct (Set_has (hd_modified h) (primitive k)); [by wp_steps|]. unfold gather. wp_steps. cbn [fst snd].
      destruct Hh as (Hs & _ & Hq & He & Hd). cbn [fst snd] in *. apply wp_inFirst. cbn [fst snd].
      eapply wp_mono; [apply (index_put_ok now m); [done|done|done| |]|].
      * destruct Hd as (_ & -> & _). by apply Hfull.
      * unfold put_of. by rewrite Ep, Eput, Ev.
      * intros _ s' (Hs' & (El & Eq & Ee) & _). cbn beta. wp_steps. cbn [fst snd]. split_and!; try done; cbn [fst snd]; congruence.
  - unfold change_remove. rewrite Eput. destruct (isDeleteOperation op) as [k|]; [|done]. destruct Hop as [Hty Hfit]. cbn [fmap option_fmap option_map].
    unfold already. wp_steps. cbn [fst snd]. destruct (Set_has (hd_modified h) (primitive k)); [by wp_steps|]. wp_steps.
    destruct Hh as (Hs & _ & Hq & He & Hd). cbn [fst snd] in *. apply wp_inFirst. cbn [fst snd]. unfold index_get. wp_steps.
    eapply wp_mono; [by apply (getDetailed_ok now m s k true None)|]. intros rs s' ((Hs' & Ei & Eq & Ee & Hd') & found & Hfind & Hfirst). cbn beta. wp_steps.
    assert (Hh' : forall h, handled (m, h) s0 (s', h)).
    { intros h'. split; [done|]. split; [done|]. split; [cbn; congruence|]. split; [cbn; congruence|]. by eapply settled_trans. }
    rewrite Hfirst. unfold finds in Hfind. destruct (m (primitive k)) as [v|].
    + destruct Hfind as (w & Hw & Hwid & Hf). destruct found as [[c v' i|c i es]|]; [|by destruct Hf|done]. destruct Hf as (_ & _ & -> & _).
      by apply change_removed_ok.
    + subst found. wp_steps. by apply Hh'.
Qed.

Lemma handle_items_ok now s0 isAppend reference removedSet items : forall m h s,
  handled (m, h) s0 (s, h) -> ref_ok reference ->
  (forall e, Some e ∈ items -> readable e) ->
  (forall e, Some e ∈ items -> Set_has removedSet (en_hash e) = false -> is_Some (put_of e) -> dl_full (d_log s0) (en_hash e) = Some e) ->
  wp (forM (fun item => match item with
                        | None => ret tt
                        | Some item => skip_access (handle_item now isAppend reference removedSet item)
                        end) items)
    (fun _ sh => handled (fold_left (item_step removedSet) (omap (fun x => x) items) (m, h)) s0 sh) (s, h).
Proof.
  induction items as [|[e|] items IH]; intros m h s Hh Href Hread Hfull; cbn [forM omap list_omap fold_left]; wp_steps; [exact Hh| |].
  - unfold skip_access. wp_steps. eapply wp_mono; [apply (handle_item_ok now m h s s0); [done|done|apply Hread; left|apply Hfull; left]|].
    intros [] [s' h'] Hh'. cbn beta in Hh'. wp_steps. destruct (item_step removedSet (m, h) e) as [m1 h1] eqn:E1. cbn [omap option_bind].
    assert (E2 : h' = h1) by (by destruct Hh' as (_ & ? & _)). rewrite E2 in *. cbn beta iota zeta. apply IH; [done|done| |].
    + intros x Hx. apply Hread. by right.
    + intros x Hx. apply Hfull. by right.
  - apply IH; [done|done| |].
    + intros x Hx. apply Hread. by right.
    + intros x Hx. apply Hfull. by right.
Qed.

(** ** A change as a whole *)

(** The entries of a change, in the order in which they are handled. *)
Definition changed_entries s (change : Change) : list Entry :=
  map snd (added change) ++ omap (fun r => dl_full (d_log s) (any_hash r)) (removed change).

Definition removed_set (change : Change) : list string := fold_left (fun set r => Set_add set (any_hash r)) (removed change) [].

Lemma removed_set_elem change x : Set_has (removed_set change) x = true <-> x ∈ map any_hash (removed change).
Proof.
  unfold removed_set. assert (H' : forall l acc, Set_has (fold_left (fun set r => Set_add set (any_hash r)) l acc) x = true <-> x ∈ acc \/ x ∈ map any_hash l).
  { induction l as [|r l IH]; intros acc; cbn [fold_left map].
    - rewrite Set_has_spec. split; [by left|]. by intros [?|?%not_elem_of_nil].
    - rewrite IH, Set_add_elem, elem_of_cons. tauto. }
  rewrite H'. split; [by intros [?%not_elem_of_nil|?]|by right].
Qed.

(** A change whose entries are in the log. *)
Record change_stored s (change : Change) : Prop := {
  cs_added x : x ∈ added change -> dl_full (d_log s) (en_hash x.2) = Some x.2;
  cs_removed r : r ∈ removed change -> exists x, dl_full (d_log s) (any_hash r) = Some x /\ forall x', r = Full x' -> x' = x;
}.

Lemma change_items_ok m s change :
  store_ok m s -> change_stored s change ->
  wp (change_items change) (fun items s' => kept m s s' /\ omap (fun x => x) items = changed_entries s change /\
    forall e, Some e ∈ items -> e ∈ changed_entries s change) s.
Proof.
  intros Hs [Hadd Hrem]. unfold change_items, changed_entries. apply wp_bind.
  enough (Hw : wp (mapMethod (fun x => match x with Full e => ret (Some e) | Shallow x => onLog (dl_entry (se_hash x)) end) (removed change))
            (fun items s' => kept m s s' /\ items = map (fun r => dl_full (d_log s) (any_hash r)) (removed change)) s).
  { eapply wp_mono; [exact Hw|]. intros items s' [Hk ->]. wp_steps. split; [done|].
    assert (E : omap (fun x : option Entry => x) (map (fun x : bool * Entry => Some x.2) (added change) ++ map (fun r => dl_full (d_log s) (any_hash r)) (removed change))
           = map snd (added change) ++ omap (fun r => dl_full (d_log s) (any_hash r)) (removed change)).
    { clear -DocumentLogLaws0. rewrite omap_app. f_equal; [induction (added change) as [|x l IH]|induction (removed change) as [|x l IH]]; cbn; [done| |done|].
      - f_equal. exact IH.
      - destruct (dl_full (d_log s) (any_hash x)); cbn; [f_equal|]; exact IH. }
    split; [exact E|]. intros e He. rewrite <- E. apply list_elem_of_omap. by exists (Some e). }
  clear Hadd. induction (removed change) as [|r l IH] in s, Hs, Hrem |- *; cbn [mapMethod]; wp_steps; [by split; [apply kept_refl|]|].
  destruct (Hrem r) as (x & Hx & Hfull); [left|].
  assert (Hr : wp (match r with Full e => ret (Some e) | Shallow x => onLog (dl_entry (se_hash x)) end) (fun o s' => o = Some x /\ kept m s s') s).
  { destruct r as [sh|e].
    - apply wp_onLog. eapply wp_mono; [by apply law_dl_entry; [apply Hs|]|]. intros o l' [-> Hl]. split; [done|]. by apply kept_log.
    - wp_steps. rewrite (Hfull e eq_refl). split; [done|]. by apply kept_refl. }
  eapply wp_mono; [exact Hr|]. intros o s1 [-> Hk]. cbn beta. assert (Ef : forall a, dl_full (d_log s1) a = dl_full (d_log s) a) by apply Hk.
  wp_steps. eapply wp_mono; [apply (IH s1); [apply Hk|]|].
  { intros r' Hr'. rewrite Ef. apply Hrem. by right. }
  intros items s' [Hk' ->]. wp_steps. split; [by eapply kept_trans|]. cbn [map]. rewrite Hx. f_equal. apply map_ext. intros r'. apply Ef.
Qed.

Lemma handleChanges_ok now m s change reference :
  store_ok m s -> change_stored s change -> ref_ok reference ->
  let st := fold_left (item_step (removed_set change)) (changed_entries s change) (m, MkHandled [] [] []) in
  wp (handleChanges now change reference) (fun _ s' => store_ok st.1 s' /\ d_resultQueue s' = d_resultQueue s /\
    d_events s' = d_events s ++ [MkDocumentsChange (hd_added st.2) (hd_removed st.2)] /\ dl_settled (d_log s) (d_log s')) s.
Proof.
  intros Hs Hc Href st. unfold handleChanges. wp_steps. eapply wp_mono; [by apply change_items_ok|].
  intros items s1 (Hk & Eitems & Hitems). wp_steps. fold (removed_set change).
  assert (Hf1 : forall a, dl_full (d_log s1) a = dl_full (d_log s) a) by apply Hk.
  assert (Hstored : forall e, e ∈ changed_entries s change -> dl_full (d_log s1) (en_hash e) = Some e).
  { intros e He. rewrite Hf1. apply elem_of_app in He as [(x & -> & Hx)%list_elem_of_fmap|(r & Hr & Er)%list_elem_of_omap]; [by apply (cs_added _ _ Hc)|].
    destruct (law_dl_hash _ _ _ (so_log _ _ Hs) Er) as [-> _]. exact Er. }
  assert (Hh : handled (m, MkHandled [] [] []) s1 (s1, MkHandled [] [] [])).
  { split; [apply Hk|]. do 3 (split; [done|]). apply settled_refl, Hk. }
  assert (Hread : forall e, Some e ∈ items -> readable e).
  { intros e He%Hitems. apply (so_entries _ _ (proj1 Hk) (en_hash e)). by apply Hstored. }
  pose proof (handle_items_ok now s1 (length (added change) =? 1)%nat reference (removed_set change) items m (MkHandled [] [] []) s1 Hh Href Hread) as Hw.
  rewrite Eitems in Hw. fold st in Hw. specialize (Hw ltac:(intros e He%Hitems _ _; by apply Hstored)).
  unfold wp in Hw |- *. destruct (forM _ items _) as [[[]|?|] [s2 h2]]; [|done|done]. cbn [mbind outcome_bind].
  destruct Hw as (Hs2 & Eh & Eq & Ee & Hd). cbn [fst snd] in *. subst h2. cbn [modify d_events d_resultQueue d_log].
  destruct Hk as [_ (_ & Eq1 & Ee1 & Hd1)]. split; [split; cbn; apply Hs2|]. split; [congruence|]. split; [by rewrite Ee, Ee1|]. by apply (settled_trans _ (d_log s1)).
Qed.

End Facts.
