(* ===== verification/DocumentStore.v ===== *)
(** * The document store is a map from ids to documents
    (packages/programs/data/document/document/src/program.ts)

    [put], [del] and [get] implement a map ([store_refines_map]); in a change
    that mentions a document several times its first mention decides
    ([first_mention_wins]); an edit is accepted exactly when it follows an entry
    of the history of its document ([edits_accepted]). *)

From Stdlib Require Import ZArith Lia.
From stdpp Require Import base list strings relations.
From S2P Require Import Prelude JsMap Cache Clock JsVal Query IndexInterface SimpleIndex SimpleIndexFacts IndexStore Integers LogSorting EntryIndex EntryIndexFacts Trim Log LogState LogDelete LogReady ExchangeHeads Effects DocumentIndex Documents DocumentsFacts.

Local Open Scope Z_scope.
Local Open Scope effects_scope.

Section Store.
Context {Ix St L T I Q Qk : Type} `{JsEnv, !JsEnvLaws, Document I, !DocumentSetup T I, Index Ix St (WithContext I), !IndexLaws Ix St (WithContext I),
  !IndexStore Ix (WithContext I), !IndexStoreLaws Ix St (WithContext I), Queue Q string, !QueueLaws Q string,
  Queue Qk IdPrimitive, !QueueLaws Qk IdPrimitive, !DocumentLog L, !DocumentSetupLaws T I, !DocumentLogLaws L T I}.
Abbreviation Store := (Documents Ix St L T I Q Qk).
Implicit Types (s : Store) (k : IdKey) (p : IdPrimitive) (m : IdPrimitive -> option T) (w : WithContext I) (e : Entry).

(** ** The first mention of a document decides *)

(** What an entry says of a document, where [m] are the documents before. *)
Definition mention (removedSet : list string) m e : option (IdPrimitive * option T) :=
  p ← about e;
  match put_of e with
  | Some v => Some (p, if Set_has removedSet (en_hash e) then None else Some v)
  | None => _ ← m p; Some (p, None)
  end.

Fixpoint first_mention (removedSet : list string) m (entries : list Entry) p : option T :=
  match entries with
  | [] => m p
  | e :: entries =>
      match mention removedSet m e with
      | Some (q, r) => if decide (q = p) then r else first_mention removedSet m entries p
      | None => first_mention removedSet m entries p
      end
  end.

Lemma item_steps_mention removedSet m entries : forall m0 h0,
  (forall p, p ∉ hd_modified h0 -> m0 p = m p) ->
  forall p, (fold_left (item_step removedSet) entries (m0, h0)).1 p =
    if decide (p ∈ hd_modified h0) then m0 p else first_mention removedSet m entries p.
Proof.
  induction entries as [|e entries IH]; intros m0 h0 Hm p; cbn [fold_left first_mention].
  { case_decide; [done|]. by apply Hm. }
  unfold item_step at 2, mention. destruct (about e) as [q|] eqn:Ea; cbn [mbind option_bind]; [|by apply IH].
  destruct (Set_has (hd_modified h0) q) eqn:Eq.
  { apply Set_has_spec in Eq. rewrite (IH _ _ Hm p). case_decide as Hp; [done|]. destruct (put_of e) as [v|].
    - by rewrite decide_False by congruence.
    - destruct (m q); cbn [mbind option_bind]; [|done]. by rewrite decide_False by congruence. }
  assert (Hq : q ∉ hd_modified h0) by (intros Hin%Set_has_spec; congruence).
  assert (Hstep : forall m1 h1 r, (forall x, m1 x = if decide (x = q) then r else m0 x) -> (forall x, x ∈ hd_modified h1 <-> x = q \/ x ∈ hd_modified h0) ->
            (fold_left (item_step removedSet) entries (m1, h1)).1 p =
              if decide (p ∈ hd_modified h0) then m0 p else if decide (q = p) then r else first_mention removedSet m entries p).
  { intros m1 h1 r Hm1 Hh1. rewrite IH.
    - destruct (decide (p ∈ hd_modified h1)) as [Hp|Hp]; rewrite Hh1 in Hp.
      + rewrite Hm1. destruct Hp as [->|Hp]; [by rewrite decide_True, decide_False, decide_True by done|].
        rewrite (decide_True (P := p ∈ hd_modified h0)) by done. rewrite decide_False; [done|congruence].
      + rewrite (decide_False (P := p ∈ hd_modified h0)) by tauto. rewrite decide_False; [done|]. intros ->. tauto.
    - intros x Hx. rewrite Hh1 in Hx. rewrite Hm1, decide_False by tauto. apply Hm. tauto. }
  destruct (put_of e) as [v|].
  - destruct (Set_has removedSet (en_hash e)); apply Hstep; try done; intros x; apply Set_add_elem.
  - rewrite <- (Hm q Hq). destruct (m0 q); cbn [mbind option_bind].
    + apply Hstep; [done|]. intros x; apply Set_add_elem.
    + by apply IH.
Qed.

(** C6. For a change whose entries are in the store of the log, and whatever it
    mentions, and however often: each document ends as its first mention says - put
    unless the same change takes the entry back, otherwise gone; a deletion of a
    document that is not there counts for nothing. Documents that are not mentioned
    stay, and one event tells of the change. When the caller hands over a document
    with its operation (the reference), the operation is a put of that document. *)
Theorem first_mention_wins now m s change reference :
  store_ok m s -> change_stored s change -> ref_ok reference ->
  wp (handleChanges now change reference) (fun _ s' =>
    store_ok (first_mention (removed_set change) m (changed_entries s change)) s' /\
    (exists ev, d_events s' = d_events s ++ [ev]) /\ d_resultQueue s' = d_resultQueue s /\ dl_settled (d_log s) (d_log s')) s.
Proof.
  intros Hs Hc Href. eapply wp_mono; [by apply handleChanges_ok|]. intros _ s' (Hs' & Eq & Ee & Hd). split; [|split; [by eexists|done]].
  eapply store_ok_ext; [|exact Hs']. intros p. by rewrite (item_steps_mention _ m).
Qed.

(** ** The log grows and shrinks *)

Lemma grown_ok m s (l1 : L) e :
  store_ok m s -> dl_ok l1 -> (forall a, dl_full l1 a = if decide (en_hash e = a) then Some e else dl_full (d_log s) a) ->
  dl_full (d_log s) (en_hash e) = None -> (forall h x, dl_full (d_log s) h = Some x -> en_hash e ∉ meta_next (en_meta x)) ->
  readable e -> (forall a x, a ∈ meta_next (en_meta e) -> dl_full (d_log s) a = Some x -> about x = about e) ->
  store_ok m (set_log s l1).
Proof.
  intros [H1' H2' H3' H4' H5' H6' H7' H8' H9' H10'] Hl1 Hg Hfresh Hnone Hread Habout. split; cbn; try done.
  - intros w Hw. destruct (H7' w Hw) as (v & e' & ? & Hf & ? & ?). exists v, e'. split; [done|]. split; [|done].
    rewrite Hg, decide_False; [done|]. intros E. rewrite <- E in Hf. congruence.
  - intros h x. rewrite Hg. case_decide; [by intros [= <-]|apply H9'].
  - intros h x a y. rewrite !Hg. case_decide as E1; case_decide as E2.
    + intros [= <-] Ha [= <-]. done.
    + intros [= <-] Ha Hy. by apply (Habout a).
    + intros Hx Ha [= <-]. exfalso. apply (Hnone h x Hx). by rewrite E2.
    + apply H10'.
Qed.

Lemma shrunk_ok m s (l1 : L) (gone : list string) :
  store_ok m s -> dl_ok l1 -> (forall a, dl_full l1 a = if decide (a ∈ gone) then None else dl_full (d_log s) a) ->
  (forall w, w ∈ documents (d_index s) -> ctx_head (__context w) ∉ gone) -> store_ok m (set_log s l1).
Proof.
  intros [H1' H2' H3' H4' H5' H6' H7' H8' H9' H10'] Hl1 Hg Hheads. split; cbn; try done.
  - intros w Hw. destruct (H7' w Hw) as (v & e' & ? & Hf & ? & ?). exists v, e'. split; [done|]. split; [|done].
    rewrite Hg, decide_False; [done|]. by apply Hheads.
  - intros h x. rewrite Hg. case_decide; [done|apply H9'].
  - intros h x a y. rewrite !Hg. case_decide; [done|]. case_decide; [done|]. apply H10'.
Qed.

(** The entries behind an entry are about the same document. *)
Lemma behind_about m s n x a :
  store_ok m s -> rtc (fun a b => exists y, dl_full (d_log s) a = Some y /\ b ∈ meta_next (en_meta y)) n a ->
  dl_full (d_log s) a = Some x -> forall y, dl_full (d_log s) n = Some y -> about x = about y.
Proof.
  intros Hs Hr Ha. induction Hr as [n|n b a (z & Hz & Hb) Hr IH]; intros y Hy; [congruence|].
  assert (z = y) as -> by congruence. inversion Hr as [|? c ? (z' & Hz' & Hc) ?]; subst.
  - by eapply (so_chain _ _ Hs n y a).
  - rewrite (IH Ha z' Hz'). by eapply (so_chain _ _ Hs n y b).
Qed.

(** ** Which entries are accepted *)

(** The first entry that an entry follows. *)
Definition first_parent (l : L) (a b : string) : Prop := exists y, dl_full l a = Some y /\ head (meta_next (en_meta y)) = Some b.

(** [n] is stored and lies on the history of [h] along first parents. *)
Definition on_history (l : L) (h n : string) : Prop := rtc (first_parent l) h n /\ is_Some (dl_full l n).

Lemma on_history_settled (l l' : L) h n : dl_settled l l' -> on_history l' h n <-> on_history l h n.
Proof.
  intros (_ & E & _). unfold on_history. rewrite E. assert (Hf : forall a b, first_parent l' a b <-> first_parent l a b) by (intros; unfold first_parent; by setoid_rewrite E).
  split; intros [Hr Hn]; (split; [|done]); (eapply rtc_subrel; [|exact Hr]); intros a b; apply Hf.
Qed.

Lemma pointsToHistory_ok m (rank : string -> nat) next fuel : forall s e,
  store_ok m s -> (forall h x a, dl_full (d_log s) h = Some x -> a ∈ meta_next (en_meta x) -> (rank a < rank h)%nat) ->
  dl_full (d_log s) (en_hash e) = Some e -> (rank (en_hash e) < fuel)%nat ->
  wp (pointsToHistory fuel next (Some e)) (fun b s' => kept m s s' /\ (b = true <-> on_history (d_log s) (en_hash e) next)) s.
Proof.
  induction fuel as [|fuel IH]; intros s e Hs Hrank He Hf; [lia|]. cbn [pointsToHistory].
  destruct (law_dl_hash _ _ _ (so_log _ _ Hs) He) as [_ Hne].
  destruct (meta_next (en_meta e)) as [|parent l] eqn:En.
  { wp_steps. split; [by apply kept_refl|]. rewrite bool_decide_eq_true. split.
    - intros <-. split; [done|by rewrite He].
    - intros [Hr _]. inversion Hr as [|? c ? (y & Hy & Hc) ?]; subst; [done|]. assert (y = e) as -> by congruence. by rewrite En in Hc. }
  rewrite (bool_decide_false (en_hash e = ""%string)) by done. cbn [negb andb]. destruct (bool_decide (next = en_hash e)) eqn:Enx; cbn [negb].
  { apply bool_decide_eq_true in Enx as ->. wp_steps. split; [by apply kept_refl|]. rewrite bool_decide_eq_true. split; [|done]. intros _. split; [done|by rewrite He]. }
  apply bool_decide_eq_false in Enx. wp_steps. apply wp_onLog. eapply wp_mono; [apply law_dl_get, Hs|]. intros o l1 [-> Hl1]. cbn beta.
  assert (Hk1 : kept m s (set_log s l1)) by by apply kept_log.
  assert (Hon : on_history (d_log s) (en_hash e) next <-> on_history (d_log s) parent next).
  { split; intros [Hr Hn]; (split; [|done]).
    - inversion Hr as [|? c ? (y & Hy & Hc) Hr']; subst; [done|]. assert (y = e) as -> by congruence. rewrite En in Hc. by injection Hc as <-.
    - eapply rtc_l; [|exact Hr]. exists e. split; [done|]. by rewrite En. }
  destruct (dl_full (d_log s) parent) as [y|] eqn:Ey.
  - destruct (law_dl_hash _ _ _ (so_log _ _ Hs) Ey) as [Eh _]. assert (Ef : forall a, dl_full (d_log (set_log s l1)) a = dl_full (d_log s) a) by apply Hl1.
    eapply wp_mono; [apply (IH (set_log s l1) y)|].
    + apply Hk1.
    + intros h x a. rewrite Ef. apply Hrank.
    + by rewrite Ef, Eh.
    + rewrite Eh. pose proof (Hrank (en_hash e) e parent He ltac:(rewrite En; left)). lia.
    + intros b s' [Hk Hb]. split; [by eapply kept_trans|]. rewrite Hb, Hon, Eh. by apply on_history_settled.
  - destruct fuel as [|fuel]; cbn [pointsToHistory]; wp_steps; (split; [done|]); rewrite Hon; (split; [done|]); intros [Hr Hn].
    all: exfalso; inversion Hr as [|? c ? (y & Hy & Hc) ?]; subst; [by rewrite Ey in Hn; destruct Hn|congruence].
Qed.

(** The check of [open], if there is one, says yes or no. *)
Definition performs (x : CanPerformOperations T) (b : bool) : Prop :=
  match optionCanPerform with Some f => f x = Val b | None => b = true end.

(** An entry that may become the next version of a document with the id [p]. *)
Definition may_follow m s p (hash : option string) (next : list string) : Prop :=
  match m p with
  | None => next = []
  | Some _ => exists w, w ∈ documents (d_index s) /\ doc_id (d_index s) w = Some p /\
      if bool_decide (Some (ctx_head (__context w)) = hash) then next = []
      else exists n, next = [n] /\ on_history (d_log s) (ctx_head (__context w)) n
  end.

Lemma caught_ok {A} errors (f : Method Store (option A)) (Φ : option A -> Store -> Prop) s : wp f Φ s -> wp (caught errors f) Φ s.
Proof. intros Hw. unfold caught. wp_steps. eapply wp_mono; [exact Hw|]. intros a s' Ha. by wp_steps. Qed.

Lemma finds_indexed m s k v found : finds m s false k found -> m (primitive k) = Some v ->
  exists w i es, w ∈ documents (d_index s) /\ doc_id (d_index s) w = Some (primitive k) /\ found = Some (ResultIndexedValue (toContext (__context w)) i es).
Proof.
  unfold finds. intros Hf Hm. rewrite Hm in Hf. destruct Hf as (w & Hw & Hid & Hf). destruct found as [[c v' i|c i es]|]; [by destruct Hf| |done].
  destruct Hf as (_ & -> & ->). by exists w, (inl w), es.
Qed.

Lemma check_put_ok m s now k :
  store_ok m s -> immutable = false -> same_type k id_sample = true -> key_fits k = true ->
  exists fuel0, forall remote entry op v fuel, idResolver v = Val (toIdeable k) -> (fuel0 <= fuel)%nat ->
    wp (check_put fuel now remote entry op v) (fun r s' => kept m s s' /\
      ((r = Some op /\ may_follow m s (primitive k) (ev_hash entry) (meta_next (ev_meta entry))) \/
       (r = None /\ ~ may_follow m s (primitive k) (ev_hash entry) (meta_next (ev_meta entry))))) s.
Proof.
  intros Hs Him Hty Hfit. destruct (law_dl_acyclic _ (so_log _ _ Hs)) as [rank Hrank].
  exists (S (match m (primitive k) with Some _ => foldr (fun w n => Nat.max (rank (ctx_head (__context w))) n) 0%nat (documents (d_index s)) | None => 0 end)).
  intros remote entry op v fuel Hid Hfuel. unfold check_put. wp_steps. eapply wp_lift; [exact Hid|]. wp_steps. eapply wp_lift; [by apply toId_ideable|].
  unfold existing_at. wp_steps. rewrite Him. eapply wp_mono; [by apply (getDetailed_ok now m s k false None)|].
  intros rs s1 (Hk1 & found & Hfind & ->). wp_steps. unfold may_follow.
  assert (Hnil : forall s', kept m s s' -> wp (ret (match meta_next (ev_meta entry) with [] => Some op | _ => None end))
             (fun r s' => kept m s s' /\ (r = Some op /\ meta_next (ev_meta entry) = [] \/ r = None /\ meta_next (ev_meta entry) <> [])) s').
  { intros s' Hk'. wp_steps. split; [done|]. destruct (meta_next (ev_meta entry)); [by left|by right]. }
  destruct (m (primitive k)) as [v0|] eqn:Em.
  2: { unfold finds in Hfind. rewrite Em in Hfind. subst found. cbn. by apply Hnil. }
  destruct (finds_indexed m s k v0 found Hfind Em) as (w & i & es & Hw & Hwid & ->). cbn [result_context toContext rc_head].
  assert (Huniq : forall w', w' ∈ documents (d_index s) -> doc_id (d_index s) w' = Some (primitive k) -> w' = w).
  { intros w' Hw' Hid'. by apply (law_ids (d_index s) _ _ (primitive k) (so_index _ _ Hs)). }
  destruct (bool_decide (Some (ctx_head (__context w)) = ev_hash entry)) eqn:Eb; cbn [negb].
  { eapply wp_mono; [by apply Hnil|]. intros r s' [Hk' Hr]. split; [done|]. destruct Hr as [[-> Hn]|[-> Hn]]; [left|right]; (split; [done|]).
    - exists w. by rewrite Eb.
    - intros (w' & Hw' & Hid' & Hif). rewrite (Huniq w' Hw' Hid'), Eb in Hif. done. }
  assert (Hno : (forall n, meta_next (ev_meta entry) <> [n]) -> ~ exists w, w ∈ documents (d_index s) /\ doc_id (d_index s) w = Some (primitive k) /\
            (if bool_decide (Some (ctx_head (__context w)) = ev_hash entry) then meta_next (ev_meta entry) = []
             else exists n, meta_next (ev_meta entry) = [n] /\ on_history (d_log s) (ctx_head (__context w)) n)).
  { intros Hn (w' & Hw' & Hid' & Hif). rewrite (Huniq w' Hw' Hid'), Eb in Hif. destruct Hif as (n & E & _). by apply (Hn n). }
  destruct (meta_next (ev_meta entry)) as [|n [|n2 l]] eqn:En; cbn [is_single negb].
  1, 3: wp_steps; split; [done|]; right; split; [done|]; by apply Hno.
  destruct (doc_key m s w Hs Hw) as (v' & e & k' & _ & Hf & _).
  destruct (law_dl_hash _ _ _ (so_log _ _ Hs) Hf) as [Eh _].
  wp_steps. apply wp_onLog. eapply wp_mono; [apply (law_dl_entry _ _ e); [apply Hk1|by destruct Hk1 as [_ (_ & _ & _ & _ & -> & _)]]|].
  intros o l1 [-> Hl1]. wp_steps. assert (Hk2 : kept m s (set_log s1 l1)) by (eapply kept_trans; [exact Hk1|apply kept_log; [apply Hk1|done]]).
  assert (Ef : forall a, dl_full (d_log (set_log s1 l1)) a = dl_full (d_log s) a) by apply Hk2.
  eapply wp_mono; [apply (pointsToHistory_ok m rank _ fuel _ e)|].
  - apply Hk2.
  - intros h x a. rewrite Ef. apply Hrank.
  - by rewrite Ef, Eh.
  - rewrite Eh. eapply Nat.lt_le_trans; [|exact Hfuel]. apply Nat.lt_succ_r. clear -Hw. induction (documents (d_index s)) as [|x l IH]; [by apply not_elem_of_nil in Hw|].
    cbn [foldr]. apply elem_of_cons in Hw as [->|Hw]; [lia|]. specialize (IH Hw). lia.
  - intros b s' [Hk' Hb]. wp_steps. split; [by eapply kept_trans|]. rewrite Eh in Hb. unfold first_next in Hb. rewrite En in Hb. cbn [head default from_option id] in Hb.
    rewrite (on_history_settled (d_log s)) in Hb by apply Hk2. destruct b.
    + left. split; [done|]. exists w. split; [done|]. split; [done|]. rewrite Eb. exists n. split; [done|]. by apply Hb.
    + right. split; [done|]. intros (w' & Hw' & Hid' & Hif). rewrite (Huniq w' Hw' Hid'), Eb in Hif. destruct Hif as (n' & [= <-] & Ho).
      apply Hb in Ho. done.
Qed.

(** An entry that may delete the document with the id [p]. *)
Definition may_cut m s p (next : list string) : Prop :=
  exists n, next = [n] /\ match m p with
    | None => True
    | Some _ => exists w, w ∈ documents (d_index s) /\ doc_id (d_index s) w = Some p /\ on_history (d_log s) (ctx_head (__context w)) n
    end.

Lemma check_delete_ok m s now k :
  store_ok m s -> immutable = false -> same_type k id_sample = true -> key_fits k = true ->
  exists fuel0, forall remote entry op fuel, (fuel0 <= fuel)%nat ->
    wp (check_delete fuel now remote entry op k) (fun r s' => kept m s s' /\
      ((r = Some (coerceDeleteOperation op) /\ may_cut m s (primitive k) (meta_next (ev_meta entry))) \/
       (r = None /\ ~ may_cut m s (primitive k) (meta_next (ev_meta entry))))) s.
Proof.
  intros Hs Him Hty Hfit. destruct (law_dl_acyclic _ (so_log _ _ Hs)) as [rank Hrank].
  exists (S (foldr (fun w n => Nat.max (rank (ctx_head (__context w))) n) 0%nat (documents (d_index s)))).
  intros remote entry op fuel Hfuel. unfold check_delete, may_cut. destruct (meta_next (ev_meta entry)) as [|n [|n2 l]] eqn:En; cbn [is_single negb].
  1, 3: wp_steps; split; [by apply kept_refl|]; right; split; [done|]; by intros (? & ? & _).
  unfold existing_at. rewrite Him. wp_steps. eapply wp_mono; [by apply (getDetailed_ok now m s k false None)|].
  intros rs s1 (Hk1 & found & Hfind & ->). wp_steps. destruct (m (primitive k)) as [v0|] eqn:Em.
  2: { unfold finds in Hfind. rewrite Em in Hfind. subst found. cbn. wp_steps. split; [done|]. left. split; [done|]. by exists n. }
  destruct (finds_indexed m s k v0 found Hfind Em) as (w & i & es & Hw & Hwid & ->). cbn [result_context toContext rc_head].
  assert (Huniq : forall w', w' ∈ documents (d_index s) -> doc_id (d_index s) w' = Some (primitive k) -> w' = w).
  { intros w' Hw' Hid'. by apply (law_ids (d_index s) _ _ (primitive k) (so_index _ _ Hs)). }
  destruct (doc_key m s w Hs Hw) as (v' & e & k' & _ & Hf & _). destruct (law_dl_hash _ _ _ (so_log _ _ Hs) Hf) as [Eh _].
  wp_steps. apply wp_onLog. eapply wp_mono; [apply law_dl_get, Hk1|]. intros o l1 [-> Hl1]. cbn beta.
  assert (Ef1 : dl_full (d_log s1) (ctx_head (__context w)) = Some e) by by destruct Hk1 as [_ (_ & _ & _ & _ & -> & _)]. rewrite Ef1. wp_steps.
  assert (Hk2 : kept m s (set_log s1 l1)) by (eapply kept_trans; [exact Hk1|apply kept_log; [apply Hk1|done]]).
  assert (Ef : forall a, dl_full (d_log (set_log s1 l1)) a = dl_full (d_log s) a) by apply Hk2.
  eapply wp_mono; [apply (pointsToHistory_ok m rank _ fuel _ e)|].
  - apply Hk2.
  - intros h x a. rewrite Ef. apply Hrank.
  - by rewrite Ef, Eh.
  - rewrite Eh. eapply Nat.lt_le_trans; [|exact Hfuel]. apply Nat.lt_succ_r. clear -Hw. induction (documents (d_index s)) as [|x l IH]; [by apply not_elem_of_nil in Hw|].
    cbn [foldr]. apply elem_of_cons in Hw as [->|Hw]; [lia|]. specialize (IH Hw). lia.
  - intros b s' [Hk' Hb]. wp_steps. split; [by eapply kept_trans|]. rewrite Eh in Hb. unfold first_next in Hb. rewrite En in Hb. cbn [head default from_option id] in Hb.
    rewrite (on_history_settled (d_log s)) in Hb by apply Hk2. destruct b.
    + left. split; [done|]. exists n. split; [done|]. exists w. split; [done|]. split; [done|]. by apply Hb.
    + right. split; [done|]. intros (n' & [= <-] & w' & Hw' & Hid' & Ho). rewrite (Huniq w' Hw' Hid') in Ho. by apply Hb in Ho.
Qed.

(** What the check says of an operation on an entry. *)
Definition acceptable m s (op : Operation) (entry : EntryView) : Prop :=
  match isPutOperation op with
  | Some data => exists v p, decoder data = Val v /\ id_of v = Some p /\ may_follow m s p (ev_hash entry) (meta_next (ev_meta entry))
  | None => exists k, isDeleteOperation op = Some k /\ may_cut m s (primitive k) (meta_next (ev_meta entry))
  end.

(** What [canPerform] is asked. *)
Definition asked (op : Operation) (entry : EntryView) : option (CanPerformOperations T) :=
  match isPutOperation op with
  | Some data => match decoder data with Val v => Some (CanPut v op entry) | _ => None end
  | None => Some (CanDelete (coerceDeleteOperation op) entry)
  end.

Lemma performed_ok x s (Φ : bool -> Store -> Prop) (o : outcome (CanPerformOperations T)) b :
  o = Val x -> performs x b -> Φ b s ->
  wp (r ⇠ caught [BorshError] (performed ⇠ lift o;; b ⇠ lift (match optionCanPerform with Some f => f performed | None => Val true end);;
        ret (if b : bool then Some tt else None));; ret (match r with Some _ => true | None => false end)) Φ s.
Proof.
  intros -> Hx HΦ. wp_steps. apply caught_ok. wp_steps. unfold performs in Hx. destruct optionCanPerform as [f|].
  - eapply wp_lift; [exact Hx|]. wp_steps. by destruct b.
  - subst b. by wp_steps.
Qed.

Lemma canAppend_put_ok m s now k :
  store_ok m s -> immutable = false -> same_type k id_sample = true -> key_fits k = true ->
  exists fuel0, forall remote entry op data v reference b0 fuel, (fuel0 <= fuel)%nat ->
    isPutOperation op = Some data -> decoder data = Val v -> idResolver v = Val (toIdeable k) -> performs (CanPut v op entry) b0 ->
    match reference with Some (doc, op') => doc = v /\ op' = op | None => ev_payload entry = Val op end ->
    wp (canAppend fuel now remote entry reference) (fun b s' => kept m s s' /\
      (b = true <-> may_follow m s (primitive k) (ev_hash entry) (meta_next (ev_meta entry)) /\ b0 = true)) s.
Proof.
  intros Hs Him Hty Hfit. destruct (check_put_ok m s now k Hs Him Hty Hfit) as [fuel0 Hcheck].
  exists fuel0. intros remote entry op data v reference b0 fuel Hfuel Hop Hdec Hid Hperf Href. unfold canAppend, _canAppend. wp_steps. apply caught_ok. wp_steps. eapply wp_lift with (a := op).
  { destruct reference as [[doc op']|]; [by destruct Href as [_ ->]|done]. }
  rewrite Hop. wp_steps. eapply wp_lift with (a := v). { destruct reference as [[doc op']|]; [by destruct Href as [-> _]|done]. }
  cbn beta. eapply wp_mono; [by apply Hcheck|]. intros r s' [Hk [[-> Hmay]|[-> Hmay]]]; cbn beta iota.
  - rewrite Hop. eapply performed_ok; [|exact Hperf|split; [done|tauto]].
    destruct reference as [[doc op']|]; [by destruct Href as [-> _]|by rewrite Hdec].
  - wp_steps. split; [done|]. split; [done|tauto].
Qed.

Lemma canAppend_delete_ok m s now k :
  store_ok m s -> immutable = false -> same_type k id_sample = true -> key_fits k = true ->
  exists fuel0, forall remote entry op b0 fuel, (fuel0 <= fuel)%nat ->
    isPutOperation op = None -> isDeleteOperation op = Some k -> performs (CanDelete (coerceDeleteOperation op) entry) b0 -> ev_payload entry = Val op ->
    wp (canAppend fuel now remote entry None) (fun b s' => kept m s s' /\
      (b = true <-> may_cut m s (primitive k) (meta_next (ev_meta entry)) /\ b0 = true)) s.
Proof.
  intros Hs Him Hty Hfit. destruct (check_delete_ok m s now k Hs Him Hty Hfit) as [fuel0 Hcheck].
  exists fuel0. intros remote entry op b0 fuel Hfuel Hop Hdel Hperf Hpay. unfold canAppend, _canAppend. wp_steps. apply caught_ok. wp_steps. eapply wp_lift; [exact Hpay|].
  rewrite Hop, Hdel. cbn beta iota. eapply wp_mono; [by apply Hcheck|]. intros r s' [Hk [[-> Hmay]|[-> Hmay]]]; cbn beta iota.
  - assert (isPutOperation (coerceDeleteOperation op) = None) as -> by by destruct op.
    eapply performed_ok; [done|exact Hperf|split; [done|tauto]].
  - wp_steps. split; [done|]. split; [done|tauto].
Qed.

(** C5. In a store that is not immutable, an entry whose payload can be read is accepted
    exactly when its operation fits the store and canPerform agrees: the first
    version of a document follows nothing (and so does the entry that already is its
    head, when it comes again), another edit follows one entry of the history of its
    document, a deletion follows one entry, of that history while the document is
    there. The document of a put can be decoded, the id of a deletion is of the type
    of the ids, and canPerform does not throw. The walk through the history ends. *)
Theorem edits_accepted now m s remote entry op b x :
  store_ok m s -> immutable = false -> ev_payload entry = Val op ->
  match isPutOperation op, isDeleteOperation op with
  | Some data, _ => exists v, decoder data = Val v
  | None, Some k => same_type k id_sample = true /\ key_fits k = true
  | None, None => False
  end -> asked op entry = Some x -> performs x b ->
  exists fuel0, forall fuel, (fuel0 <= fuel)%nat -> wp (canAppend fuel now remote entry None) (fun r s' => kept m s s' /\
    (r = true <-> acceptable m s op entry /\ b = true)) s.
Proof.
  intros Hs Him Hpay Hread Hask Hperf. unfold asked, acceptable in *. destruct (isPutOperation op) as [data|] eqn:Hop.
  - destruct Hread as (v & Hdec). rewrite Hdec in *. injection Hask as <-. destruct (typed_id v) as (k & Hid & Hty & Hfit & Eid).
    destruct (canAppend_put_ok m s now k Hs Him Hty Hfit) as [fuel0 Hc].
    exists fuel0. intros fuel Hfuel. eapply wp_mono; [by eapply Hc|]. intros r s' [Hk Hr]. split; [done|]. rewrite Hr. split.
    + intros [Hm Hb]. split; [|done]. by exists v, (primitive k).
    + intros [(v' & p & [= <-] & Eid' & Hm) Hb]. split; [|done]. assert (p = primitive k) as -> by congruence. done.
  - destruct (isDeleteOperation op) as [k|] eqn:Hdel; [|done]. destruct Hread as [Hty Hfit]. injection Hask as <-.
    destruct (canAppend_delete_ok m s now k Hs Him Hty Hfit) as [fuel0 Hc].
    exists fuel0. intros fuel Hfuel. eapply wp_mono; [by eapply Hc|]. intros r s' [Hk Hr]. split; [done|]. rewrite Hr. split.
    + intros [Hm Hb]. split; [|done]. by exists k.
    + intros [(k' & [= <-] & Hm) Hb]. done.
Qed.

(** ** Appending an operation *)

Lemma skipped_items removedSet rest m h p :
  p ∈ hd_modified h -> (forall x, x ∈ rest -> about x = Some p) -> fold_left (item_step removedSet) rest (m, h) = (m, h).
Proof.
  intros Hp. induction rest as [|x rest IH]; intros Hx; [done|]. cbn [fold_left]. unfold item_step at 2.
  rewrite (Hx x) by left. rewrite (proj2 (Set_has_spec _ _) Hp). apply IH. intros y Hy. apply Hx. by right.
Qed.

(** The documents after an operation on [p] is appended; [item_step] says what it does. *)
Lemma append_operation_ok now m s check op type next options t reference p m' h' :
  store_ok m s -> dl_time (d_log s) = Val t -> (forall n, n ∈ next -> dl_full (d_log s) (en_hash n) = Some n /\ about n = Some p) ->
  (forall mm size, meta_next mm = map en_hash next -> lc_timestamp (meta_clock mm) = t -> check None mm size = Val true) ->
  (forall e, getPayloadValue e = Val op -> readable e /\ about e = Some p) -> ref_ok reference ->
  (forall e rs, getPayloadValue e = Val op -> (default APPEND type = APPEND -> rs = []) -> en_hash e ∉ rs ->
     item_step rs (m, MkHandled [] [] []) e = (m', h') /\ p ∈ hd_modified h') ->
  (default APPEND type = CUT -> m' p = None) ->
  exists fuel0, forall fuel, (fuel0 <= fuel)%nat -> wp (append_operation now check op type next (dl_fuel fuel options) reference)
    (fun r s' => store_ok m' s' /\ getPayloadValue r.1 = Val op /\ meta_next (en_meta r.1) = map en_hash next /\
       (default APPEND type = APPEND -> r.2 = [] /\ dl_full (d_log s') (en_hash r.1) = Some r.1)) s.
Proof.
  intros Hs Ht Hnext Hcheck Hop Href Hstep Hcut.
  destruct (law_dl_append (d_log s) check op type next options t (so_log _ _ Hs) Ht (fun n Hn => proj1 (Hnext n Hn)) Hcheck) as [fuel0 Hlaw].
  exists fuel0. intros fuel Hfuel. unfold append_operation. wp_steps. apply wp_onLog. eapply wp_mono; [by apply Hlaw|].
  intros [[e change] pending] l1 (En & Ety & _ & Ep & Hfresh & Hnone & Hl1 & Hg & (b & Eadd) & Hrem & Happ & Hdone). wp_steps.
  destruct (Hop e Ep) as [Hread Habout].
  assert (Hs1 : store_ok m (set_log s l1)).
  { apply (grown_ok m s l1 e); try done. intros a x Ha Hx. rewrite En in Ha. apply list_elem_of_fmap in Ha as (n & -> & Hn).
    destruct (Hnext n Hn) as [Hfn Han]. congruence. }
  assert (Hfe : dl_full l1 (en_hash e) = Some e) by by rewrite Hg, decide_True.
  assert (Hcs : change_stored (set_log s l1) change).
  { split; [|intros r Hr; cbn; destruct (Hrem r Hr) as (x & Hx & Hfx & _); by exists x].
    rewrite Eadd. by intros x ->%list_elem_of_singleton. }
  set (rest := omap (fun r => dl_full l1 (any_hash r)) (removed change)).
  assert (Eent : changed_entries (set_log s l1) change = e :: rest) by (unfold changed_entries; by rewrite Eadd).
  assert (Hbehind : forall r x, r ∈ removed change -> dl_full l1 (any_hash r) = Some x -> about x = Some p).
  { intros r x Hr Hx. destruct (Hrem r Hr) as (x' & _ & _ & n & Hn & Hrtc). apply list_elem_of_fmap in Hn as (n' & -> & Hn).
    destruct (Hnext n' Hn) as [Hfn Han]. rewrite <- Han. apply (behind_about m (set_log s l1) (en_hash n') x (any_hash r)); [done|done|done|].
    cbn. rewrite Hg, decide_False; [done|]. intros E. rewrite E in Hfresh. congruence. }
  assert (Hrest : forall x, x ∈ rest -> about x = Some p) by (intros x (r & Hr & Hx)%list_elem_of_omap; by eapply Hbehind).
  assert (Hnot : en_hash e ∉ removed_set change).
  { intros Hin%Set_has_spec%removed_set_elem%list_elem_of_fmap. destruct Hin as (r & E & Hr). destruct (Hrem r Hr) as (x & Hx & _ & n & Hn & Hrtc).
    assert (Hlast : exists y, (exists z, dl_full l1 y = Some z /\ en_hash e ∈ meta_next (en_meta z)) \/ n = en_hash e).
    { rewrite <- E in Hrtc. clear -Hrtc. induction Hrtc as [|a b c (z & Hz & Hb) Hr IH]; [exists ""%string; by right|].
      destruct IH as (y & [Hy| ->]); [exists y; by left|]. exists a. left. by exists z. }
    destruct Hlast as (y & [(z & Hz & Hin)| ->]).
    - rewrite Hg in Hz. case_decide as Hy; [|by apply (Hnone y z)]. injection Hz as <-. rewrite En in Hin.
      apply list_elem_of_fmap in Hin as (n' & Ex & Hn'). destruct (Hnext n' Hn') as [Hf _]. rewrite <- Ex in Hf. congruence.
    - apply list_elem_of_fmap in Hn as (n' & Ex & Hn'). destruct (Hnext n' Hn') as [Hf _]. rewrite <- Ex in Hf. congruence. }
  destruct (Hstep e (removed_set change) Ep) as [Est Hmod]; [|done|].
  { intros Ha. unfold removed_set. by rewrite (Happ Ha). }
  pose proof (handleChanges_ok now m (set_log s l1) change reference Hs1 Hcs Href) as Hh. rewrite Eent in Hh. cbn [fold_left] in Hh.
  rewrite Est, (skipped_items _ rest m' h' p Hmod Hrest) in Hh. cbn [fst snd] in Hh.
  eapply wp_mono; [exact Hh|]. intros _ s2 (Hs2 & _ & _ & Hd2). cbn [set_log d_log] in Hd2. wp_steps. apply wp_onLog.
  eapply wp_mono; [by apply Hdone|]. intros _ l3 [Hl3 Hf3]. wp_steps. cbn [fst snd]. split; [|split; [done|split; [done|]]].
  - apply (shrunk_ok m' s2 l3 (map any_hash (removed change))); [done|done| |].
    + intros a. rewrite Hf3. case_decide; [done|]. by destruct Hd2 as (_ & -> & _).
    + intros w Hw (r & E & Hr)%list_elem_of_fmap. destruct (Hrem r Hr) as (x & Hx & _). pose proof (Hbehind r x Hr Hx) as Hab.
      destruct (doc_key m' s2 w Hs2 Hw) as (v & e2 & k2 & _ & Hf2 & Hp2 & _ & _ & _ & _ & Eid & _ & Hm2).
      rewrite E in Hf2. destruct Hd2 as (_ & Ef & _). rewrite Ef, Hx in Hf2. injection Hf2 as <-. rewrite (about_put _ _ Hp2), Eid in Hab. injection Hab as Hab.
      destruct (default APPEND type) eqn:Ed; [by rewrite (Happ eq_refl) in Hr; apply not_elem_of_nil in Hr|]. rewrite Hab, (Hcut eq_refl) in Hm2. done.
  - intros Ha. split; [by apply Happ|]. cbn. rewrite Hf3, (Happ Ha). cbn. by rewrite decide_False by apply not_elem_of_nil.
Qed.

Lemma resolveEntry_ok m s h e : store_ok m s -> dl_full (d_log s) h = Some e -> wp (_resolveEntry h) (fun r s' => r = e /\ kept m s s') s.
Proof.
  intros Hs He. unfold _resolveEntry. wp_steps. apply wp_onLog. eapply wp_mono; [apply law_dl_get, Hs|]. intros o l [-> Hl]. cbn beta. rewrite He.
  wp_steps. split; [done|]. by apply kept_log.
Qed.

Definition plain_options (options : dl_options) : PutOptions T I dl_options := MkPutOptions false None None None options.

Lemma payload_put op data v e : isPutOperation op = Some data -> decoder data = Val v -> getPayloadValue e = Val op ->
  put_of e = Some v /\ about e = id_of v /\ readable e.
Proof.
  intros Hop Hdec Ep. split; [unfold put_of; by rewrite Ep, Hop, Hdec|]. split; [unfold about; by rewrite Ep, Hop, Hdec|].
  exists op. split; [done|]. rewrite Hop. by exists v.
Qed.

Lemma payload_delete k e : same_type k id_sample = true -> key_fits k = true -> getPayloadValue e = Val (DeleteOperation k) ->
  put_of e = None /\ about e = Some (primitive k) /\ readable e.
Proof.
  intros Hty Hfit Ep. split; [unfold put_of; by rewrite Ep|]. split; [unfold about; by rewrite Ep|]. by exists (DeleteOperation k).
Qed.

Lemma wp_result {A} (f : Method Store A) (P : A -> Store -> Prop) a s : wp f (fun r s' => P r s' /\ r = a) s -> (f s).1 = Val a.
Proof. unfold wp. destruct (f s) as [[r|?|] s']; [by intros [_ ->]|done|done]. Qed.

(** Appending a put that the check lets through. *)
Lemma append_put_ok now m s v op options t k next :
  store_ok m s -> immutable = false -> dl_time (d_log s) = Val t -> isPutOperation op = Some (serialize v) ->
  idResolver v = Val (toIdeable k) -> same_type k id_sample = true -> key_fits k = true -> (forall entry, performs (CanPut v op entry) true) ->
  (forall n, n ∈ next -> dl_full (d_log s) (en_hash n) = Some n /\ about n = Some (primitive k)) -> may_follow m s (primitive k) None (map en_hash next) ->
  exists fuel0, forall fuel, (fuel0 <= fuel)%nat -> exists fuel1, forall fuel', (fuel1 <= fuel')%nat ->
    wp (append_operation now (fun hash mm size => (canAppend fuel now [] (MkView hash mm size (Val op)) (Some (v, op)) s).1) op None next
          (dl_fuel fuel' options) (Some (v, op)))
      (fun r s' => store_ok (mset m (primitive k) v) s' /\ getPayloadValue r.1 = Val op /\ meta_next (en_meta r.1) = map en_hash next /\
         r.2 = [] /\ dl_full (d_log s') (en_hash r.1) = Some r.1) s.
Proof.
  intros Hs Him Ht Hop Hid Hty Hfit Hperf Hnext Hmay. pose proof (law_decode v) as Hdec.
  destruct (canAppend_put_ok m s now k Hs Him Hty Hfit) as [f1 Hcan]. exists f1. intros fuel Hfuel.
  destruct (append_operation_ok now m s (fun hash mm size => (canAppend fuel now [] (MkView hash mm size (Val op)) (Some (v, op)) s).1)
    op None next options t (Some (v, op)) (primitive k) (mset m (primitive k) v) (add_modified (primitive k) (push_added v (MkHandled [] [] [])))) as [f2 Happ];
    [done|done|done| | | | |done|].
  - intros mm size En Et. apply (wp_result _ (fun b s' => kept m s s')).
    eapply wp_mono; [by apply (Hcan [] (MkView None mm size (Val op)) op (serialize v) v (Some (v, op)) true fuel)|].
    intros b s' [Hk Hb]. split; [done|]. apply Hb. split; [|done]. cbn [ev_meta ev_hash]. by rewrite En.
  - intros e Ep. destruct (payload_put op _ v e Hop Hdec Ep) as (_ & Ha & Hr). split; [done|]. rewrite Ha. unfold id_of. by rewrite Hid, toId_ideable.
  - by exists (serialize v).
  - intros e rs Ep Hrs _. rewrite (Hrs eq_refl). destruct (payload_put op _ v e Hop Hdec Ep) as (Hpe & Ha & _). unfold item_step. rewrite Ha.
    replace (id_of v) with (Some (primitive k)) by (unfold id_of; by rewrite Hid, toId_ideable). cbn [hd_modified Set_has]. rewrite Hpe. split; [done|].
    cbn. by left.
  - exists f2. intros fuel' Hfuel'. eapply wp_mono; [by apply Happ|]. intros r s' (H1' & H2' & H3' & H4'). destruct (H4' eq_refl). by split_and!.
Qed.

(** Putting a document: stored under its id, after the head of its former version. *)
Lemma put_document_ok now m s v op options t :
  store_ok m s -> immutable = false -> dl_time (d_log s) = Val t -> Z.of_nat (length (serialize v)) <= MAX_BATCH_SIZE ->
  (forall x, idResolver v = Val x -> put_operation x (serialize v) = Val op) -> (forall entry, performs (CanPut v op entry) true) ->
  exists fuel0, forall fuel, (fuel0 <= fuel)%nat -> exists fuel1, forall fuel', (fuel1 <= fuel')%nat ->
    wp (put fuel now v (plain_options (dl_fuel fuel' options)) [])
      (fun r s' => exists p, id_of v = Some p /\ store_ok (mset m p v) s' /\ put_of r.1 = Some v /\ r.2 = [] /\
         dl_full (d_log s') (en_hash r.1) = Some r.1 /\
         match m p with
         | None => meta_next (en_meta r.1) = []
         | Some _ => exists w, w ∈ documents (d_index s) /\ doc_id (d_index s) w = Some p /\ meta_next (en_meta r.1) = [ctx_head (__context w)]
         end) s.
Proof.
  intros Hs Him Ht Hsize Hput Hperf. destruct (typed_id v) as (k & Hid & Hty & Hfit & Eid). specialize (Hput _ Hid).
  assert (Hop : isPutOperation op = Some (serialize v)).
  { unfold put_operation in Hput. destruct (bool_decide _); [destruct (toIdeable k); try done|]; by injection Hput as <-. }
  assert (Hstart : wp (r ⇠ getDetailed now (toIdeable k) false None;; ret (first_result r)) (fun found s1 => kept m s s1 /\ finds m s false k found) s).
  { wp_steps. eapply wp_mono; [by apply (getDetailed_ok now m s k false None)|]. intros rs s1 (Hk1 & found & Hfind & ->). wp_steps.
    split; [done|]. by destruct found. }
  destruct (wp_returns _ _ _ Hstart) as (found & s1 & E1 & Hk1 & Hfind).
  assert (Hnext : wp (match found with Some existing => e ⇠ _resolveEntry (rc_head (result_context existing));; ret [e] | None => ret [] end)
     (fun next s2 => kept m s s2 /\ match m (primitive k) with
        | None => next = []
        | Some _ => exists w e, w ∈ documents (d_index s) /\ doc_id (d_index s) w = Some (primitive k) /\ dl_full (d_log s) (ctx_head (__context w)) = Some e /\
                      about e = Some (primitive k) /\ next = [e]
        end) s1).
  { destruct (m (primitive k)) as [v0|] eqn:Em; [|unfold finds in Hfind; rewrite Em in Hfind; subst found; by wp_steps].
    destruct (finds_indexed m s k v0 found Hfind Em) as (w & i & es & Hw & Hwid & ->). wp_steps. cbn [result_context toContext rc_head].
    destruct (doc_key m s w Hs Hw) as (v' & e & k' & _ & Hf & Hpo & _ & _ & _ & _ & Ei & Ed & _).
    eapply wp_mono; [apply (resolveEntry_ok m s1 _ e); [apply Hk1|]|].
    - destruct Hk1 as [_ (_ & _ & _ & _ & Ef & _)]. by rewrite Ef.
    - intros r s2 [-> Hk2]. wp_steps. split; [by eapply kept_trans|]. exists w, e. split_and!; try done. rewrite (about_put _ _ Hpo), Ei. congruence. }
  destruct (wp_returns _ _ _ Hnext) as (next & s2 & E2 & Hk2 & Hn).
  assert (Hf2 : forall a, dl_full (d_log s2) a = dl_full (d_log s) a) by apply Hk2.
  destruct (append_put_ok now m s2 v op options t k next (proj1 Hk2) Him) as [f1 Happ]; try done.
  - rewrite <- Ht. apply Hk2.
  - intros n Hin. destruct (m (primitive k)); [|subst next; by apply not_elem_of_nil in Hin]. destruct Hn as (w & e & Hw & Hwid & Hf & Ha & ->).
    apply list_elem_of_singleton in Hin as ->. rewrite Hf2. split; [|done]. by destruct (law_dl_hash _ _ _ (so_log _ _ Hs) Hf) as [-> _].
  - unfold may_follow. destruct (m (primitive k)); [|by subst next]. destruct Hn as (w & e & Hw & Hwid & Hf & Ha & ->). exists w.
    assert (Ei : d_index s2 = d_index s) by apply Hk2. rewrite Ei. split; [done|]. split; [done|]. cbn [bool_decide]. rewrite bool_decide_false by done.
    destruct (law_dl_hash _ _ _ (so_log _ _ Hs) Hf) as [Eh _]. exists (en_hash e). split; [done|]. rewrite Eh. split; [done|]. by rewrite Hf2, Hf.
  - exists f1. intros fuel Hfuel. destruct (Happ fuel Hfuel) as [f2 Happ']. exists f2. intros fuel' Hfuel'. unfold put. wp_steps.
    eapply wp_lift; [exact Hid|]. wp_steps. eapply wp_lift with (a := tt); [by destruct k|]. wp_steps. rewrite (proj2 (Z.ltb_ge _ _)) by done. wp_steps.
    cbn [plain_options po_unique po_remote po_next po_type po_options default from_option id]. unfold wp at 1. rewrite E1.
    wp_steps. eapply wp_lift; [exact Hput|]. wp_steps. unfold wp at 1. rewrite E2. wp_steps.
    eapply wp_mono; [by apply Happ'|]. intros r s' (Hs' & Ep & En & Er & Hfull). exists (primitive k). split; [done|]. split; [done|].
    split; [by apply (payload_put op _ v _ Hop (law_decode v) Ep)|]. split; [done|]. split; [done|].
    destruct (m (primitive k)); [|by subst next]. destruct Hn as (w & e & Hw & Hwid & Hf & Ha & ->). exists w. split; [done|]. split; [done|].
    rewrite En. cbn [map]. by destruct (law_dl_hash _ _ _ (so_log _ _ Hs) Hf) as [-> _].
Qed.

(** Deleting a document that is there. *)
Lemma del_ok now m s k v options t remote :
  store_ok m s -> immutable = false -> dl_time (d_log s) = Val t -> same_type k id_sample = true -> key_fits k = true ->
  m (primitive k) = Some v -> (forall entry, performs (CanDelete (DeleteOperation k) entry) true) ->
  exists fuel0, forall fuel, (fuel0 <= fuel)%nat -> exists fuel1, forall fuel', (fuel1 <= fuel')%nat ->
    wp (del fuel now k (plain_options (dl_fuel fuel' options)) remote) (fun r s' => store_ok (mdel m (primitive k)) s' /\
      getPayloadValue r.1 = Val (DeleteOperation k)) s.
Proof.
  intros Hs Him Ht Hty Hfit Hm Hperf.
  destruct (wp_returns _ _ _ (getDetailed_ok now m s k false (Some remote) Hs Hty Hfit)) as (rs & s1 & E1 & Hk1 & found & Hfind & Hfirst).
  destruct (finds_indexed m s k v found Hfind Hm) as (w & i & es & Hw & Hwid & ->).
  destruct (doc_key m s w Hs Hw) as (v' & e & k' & _ & Hf & Hpo & _ & _ & _ & _ & Ei & Ed & _).
  destruct (law_dl_hash _ _ _ (so_log _ _ Hs) Hf) as [Eh _].
  assert (Hf1 : dl_full (d_log s1) (ctx_head (__context w)) = Some e) by (destruct Hk1 as [_ (_ & _ & _ & _ & Ef & _)]; by rewrite Ef).
  destruct (wp_returns _ _ _ (resolveEntry_ok m s1 _ e (proj1 Hk1) Hf1)) as (e' & s2 & E2 & -> & Hk2).
  assert (Hks : kept m s s2) by by eapply kept_trans.
  assert (Hfs : forall a, dl_full (d_log s2) a = dl_full (d_log s) a) by apply Hks.
  assert (Eidx : d_index s2 = d_index s) by apply Hks.
  assert (Hdel : isDeleteOperation (DeleteOperation k) = Some k) by done.
  destruct (canAppend_delete_ok m s2 now k (proj1 Hks) Him Hty Hfit) as [f1 Hcan]. exists f1. intros fuel Hfuel.
  destruct (append_operation_ok now m s2 (fun hash mm size => (canAppend fuel now remote (MkView hash mm size (Val (DeleteOperation k))) None s2).1)
    (DeleteOperation k) (Some CUT) [e] options t None (primitive k) (mdel m (primitive k)) (add_modified (primitive k) (push_removed v (MkHandled [] [] []))))
    as [f2 Happ].
  - apply Hks.
  - rewrite <- Ht. apply Hks.
  - intros n ->%list_elem_of_singleton. rewrite Hfs, Eh. split; [done|]. rewrite (about_put _ _ Hpo), Ei. congruence.
  - intros mm size En Et. apply (wp_result _ (fun b s' => kept m s2 s')).
    eapply wp_mono; [by apply (Hcan remote (MkView None mm size (Val (DeleteOperation k))) (DeleteOperation k) true fuel)|].
    intros b s' [Hk Hb]. split; [done|]. apply Hb. split; [|done]. cbn [ev_meta]. exists (en_hash e). split; [done|]. rewrite Hm.
    exists w. rewrite Eidx. split; [done|]. split; [done|]. rewrite Eh. split; [done|]. by rewrite Hfs, Hf.
  - intros x Ep. destruct (payload_delete k x Hty Hfit Ep) as (_ & Ha & Hr). done.
  - done.
  - intros x rs' Ep _ _. destruct (payload_delete k x Hty Hfit Ep) as (Hpx & Ha & _). unfold item_step. rewrite Ha. cbn [hd_modified Set_has].
    rewrite Hpx, Hm. split; [done|]. cbn. by left.
  - intros _. unfold mdel. by rewrite decide_True.
  - exists f2. intros fuel' Hfuel'. unfold del. wp_steps. unfold wp at 1. rewrite E1, Hfirst. cbn [result_context toContext rc_head].
    wp_steps. unfold wp at 1. rewrite E2. wp_steps. cbn [plain_options po_type po_next po_options default from_option id].
    eapply wp_mono; [by apply Happ|]. intros r s' (Hs' & Ep & _). done.
Qed.

(** ** The map *)

Inductive Command := Put (v : T) | Del (k : IdKey) | Get (k : IdKey).
Inductive Answer := Done | Failed | Found (v : option T).

(** A command as the store runs it; of a failure only that it happened. *)
Definition perform (fuel : nat) (now : Z) (options : dl_options) (c : Command) : Method Store Answer :=
  match c with
  | Put v => put fuel now v (plain_options options) [];;; ret Done
  | Del k =>
      r ⇠ attempt (del fuel now k (plain_options options) []);;
      match r with Val _ => ret Done | Exn _ => ret Failed | NoFuel => lift NoFuel end
  | Get k =>
      r ⇠ index_get now (toIdeable k) true None;;
      ret (Found (match r with Some (ResultValue _ v _) => Some v | _ => None end))
  end.

(** The command on the map. *)
Definition map_step m (c : Command) : (IdPrimitive -> option T) * Answer :=
  match c with
  | Put v => (match id_of v with Some p => mset m p v | None => m end, Done)
  | Del k => match m (primitive k) with
             | Some _ => (mdel m (primitive k), Done)
             | None => (m, Failed)
             end
  | Get k => (m, Found (m (primitive k)))
  end.

(** The clock can be read, the document is not too large, ids are of the type of
    the documents, and nobody forbids the command. *)
Definition admissible s (c : Command) : Prop :=
  match c with
  | Put v => (exists t, dl_time (d_log s) = Val t) /\ Z.of_nat (length (serialize v)) <= MAX_BATCH_SIZE /\
             exists op, (forall x, idResolver v = Val x -> put_operation x (serialize v) = Val op) /\ forall entry, performs (CanPut v op entry) true
  | Del k => (exists t, dl_time (d_log s) = Val t) /\ same_type k id_sample = true /\ key_fits k = true /\
             forall entry, performs (CanDelete (DeleteOperation k) entry) true
  | Get k => same_type k id_sample = true /\ key_fits k = true
  end.


End Store.

(** * A log as the log of a document store
    (packages/log/src/log.ts under packages/programs/data/document)

    The instance of [DocumentLog] by a log, and its laws: what [LogReady] proves
    of appending and deleting is what a document store relies on. *)

(** The data of a log of operations, and the operation that an entry holds. *)
Class OperationData `{LogEnv} := op_data : Operation -> Data.
Class OperationLog (T I : Type) `{OperationData, !DocumentSetup T I} : Prop := {
  law_payload e m op : en_hash e = multihash m (op_data op) -> getPayloadValue e = Val op;
}.

(** What else an append needs: fuel, the gid of an entry without parents, and
    the data of the metadata. *)
Record LogOptions := MkLogOptions { lo_fuel : nat; lo_gid : string; lo_data : option (list Z) }.

Section Instance.
Context `{JsEnv, Document ShallowEntry, !DocumentLaws ShallowEntry, !ShallowDocument}.
Context {T I Q : Type} `{Queue Q string, !QueueLaws Q string, E : LogEnv, !LogEnvLaws, !OperationData, !DocumentSetup T I, !OperationLog T I}.
Implicit Types (l : Log (Q := Q)).

(** A call on a log that throws leaves it as it was. *)
Definition called {A} (f : Log (Q := Q) -> outcome (A * Log (Q := Q))) : Method (Log (Q := Q)) A := fun l =>
  match f l with
  | Val (a, l') => (Val a, l')
  | Exn e => (Exn e, l)
  | NoFuel => (NoFuel, l)
  end.

Lemma wp_called {A} (f : Log (Q := Q) -> outcome (A * Log (Q := Q))) a l' (Φ : A -> Log (Q := Q) -> Prop) l :
  f l = Val (a, l') -> Φ a l' -> wp (called f) Φ l.
Proof. intros Ef HΦ. unfold wp, called. by rewrite Ef. Qed.

(** Nobody else replicates a plain log: it keeps no peers. *)
#[export] Instance log_DocumentLog : DocumentLog (Log (Q := Q)) := {
  dl_get h := called (fun l => log_get l h);
  dl_entry h := called (fun l => entryIndex_get l h);
  dl_fetch := fromMultihash;
  dl_addPeersToGidPeerHistory _ _ l := l;
  dl_pending := list PendingDelete;
  dl_options := LogOptions;
  dl_append check op type next options := called (fun l =>
    '(entry, removed, pending, l) ← append_begin (H2 := with_canAppend E check) (lo_fuel options) l (@op_data E _ op) (lo_gid options)
       (append_with type (lo_data options) next true);
    Val (entry, MkChange [(true, entry)] removed, pending, l));
  dl_appended pending := called (fun l => l ← run_deletes l pending; Val (tt, l));
}.

(** What is proved of a log does not depend on the check. *)
#[export] Instance with_canAppend_laws check : @LogEnvLaws (with_canAppend E check).
Proof. destruct H3 as [Hinj Hne]. by split. Qed.

Lemma log_ready_env check l : log_ready (H3 := with_canAppend E check) l <-> log_ready (H3 := E) l.
Proof. split; intros []; by split. Qed.

Definition log_clock l : outcome Timestamp := '(t, _) ← Clock.now (lg_hlc l) (wall_time (lg_tick l)); Val t.

(** A log whose caches alone have changed. *)
Lemma recached_ready l l' : recached l l' -> log_ready l -> log_ready l' /\ (forall k, full_of l' k = full_of l k) /\ log_clock l' = log_clock l.
Proof. intros (c & -> & Hr) []. split; [by split|done]. Qed.

Lemma nobody_follows l l' e : log_ready l -> log_ready l' -> grown l l' e -> full_of l (en_hash e) = None -> Timestamp_lt (last (lg_hlc l)) (time_of e) ->
  forall h x, full_of l h = Some x -> en_hash e ∉ meta_next (en_meta x).
Proof.
  intros Hl Hl' Hg Hfresh Hlt h x Hx Hin.
  assert (Hx' : full_of l' h = Some x) by (rewrite Hg, decide_False; [done|intros Eh; rewrite Eh in Hfresh; congruence]).
  assert (Hlate : Timestamp_lt (time_of e) (time_of x)).
  { apply (next_earlier l' h x (en_hash e) e Hl' Hx' Hin). by rewrite Hg, decide_True. }
  destruct (lr_past _ Hl h x Hx) as [Et|Et].
  - rewrite Et in Hlate. apply (irreflexivity Timestamp_lt (last (lg_hlc l))). by etransitivity.
  - apply (irreflexivity Timestamp_lt (last (lg_hlc l))). etransitivity; [exact Hlt|]. by etransitivity.
Qed.

Lemma log_append_law l check op type next options t :
  log_ready l -> log_clock l = Val t -> (forall n, n ∈ next -> full_of l (en_hash n) = Some n) ->
  (forall m size, meta_next m = map en_hash next -> lc_timestamp (meta_clock m) = t -> check None m size = Val true) ->
  exists fuel0, forall fuel, (fuel0 <= fuel)%nat -> exists e pending l1,
    append_begin (H2 := with_canAppend E check) fuel l (@op_data E _ op) (lo_gid options) (append_with type (lo_data options) next true) =
      Val (e, map (fun d => Shallow (pd_entry d)) pending, pending, l1) /\
    meta_next (en_meta e) = map en_hash next /\ meta_type (en_meta e) = default APPEND type /\ lc_timestamp (meta_clock (en_meta e)) = t /\
    (exists m, en_hash e = multihash m (op_data op)) /\ full_of l (en_hash e) = None /\
    (forall h x, full_of l h = Some x -> en_hash e ∉ meta_next (en_meta x)) /\ log_ready l1 /\ grown l l1 e /\
    (forall d, d ∈ pending -> se_hash (pd_entry d) = pd_hash d /\ is_Some (full_of l1 (pd_hash d)) /\ behind l1 (map en_hash next) (pd_hash d)) /\
    (default APPEND type = APPEND -> pending = []).
Proof.
  intros Hl Hclock Hnext Hcheck. unfold log_clock in Hclock. destruct (Clock.now (lg_hlc l) (wall_time (lg_tick l))) as [[t' h]|?|] eqn:Enow; [|done|done].
  injection Hclock as ->. set (F := with_canAppend E check).
  assert (HlF : log_ready (H3 := F) l) by by apply log_ready_env.
  destruct (append_begin_ready (H3 := F) l (@op_data E _ op) (lo_gid options) type (lo_data options) true next t h HlF Enow Hnext) as [fuel0 Happ].
  { apply Hcheck; done. }
  exists fuel0. intros fuel Hfuel. destruct (Happ fuel Hfuel) as (pending & l1 & Eb & Hl1 & Hg & Hfresh & Hlt & Hst & Hbeh & Hnil).
  pose proof (proj1 (log_ready_env check l1) Hl1) as Hl1'.
  eexists _, pending, l1. split; [exact Eb|]. do 3 (split; [done|]). split; [by eexists|]. split; [done|].
  split; [by apply (nobody_follows l l1)|]. split; [done|]. split; [done|]. split; [|done]. intros d Hd. pose proof (Hst d Hd) as Hs.
  split; [by apply (stored_hash (table l1)); [apply (rd_index _ (lr_ready _ Hl1'))|]|]. split.
  - apply (lr_meta _ Hl1'). apply in_log_stored. by rewrite Hs.
  - apply Hbeh, list_elem_of_fmap_2, Hd.
Qed.

#[export, refine] Instance log_DocumentLogLaws : DocumentLogLaws (Log (Q := Q)) T I := {
  dl_ok := log_ready;
  dl_full := full_of;
  dl_time := log_clock;
  dl_fuel fuel options := MkLogOptions fuel (lo_gid options) (lo_data options);
}.
Proof.
  - intros l h Hl. destruct (log_get_full l h (lr_ready _ Hl)) as (l' & Eg & Hr). eapply wp_called; [exact Eg|]. split; [done|]. by apply recached_ready.
  - intros l h e Hl He. destruct (entryIndex_get_ok l h e (lr_ready _ Hl) He) as (l' & Eg & Hr). eapply wp_called; [exact Eg|]. split; [done|]. by apply recached_ready.
  - intros l h e Hl He. split; [by apply full_of_hash in He|]. by destruct (lr_full _ Hl _ _ He).
  - intros l Hl. exists (rank_of l). intros h e a He Ha. apply (ready_acyclic l Hl h e a He Ha).
  - done.
  - intros l check op type next options t Hl Ht Hnext Hcheck. destruct (log_append_law l check op type next options t Hl Ht Hnext Hcheck) as [fuel0 Happ].
    exists fuel0. intros fuel Hfuel. destruct (Happ fuel Hfuel) as (e & pending & l1 & Eb & En & Ety & Et & (m & Em) & Hfresh & Hnone & Hl1 & Hg & Hp & Hnil).
    eapply wp_called; [cbn [lo_fuel lo_gid lo_data]; rewrite Eb; done|]. cbn [added removed]. do 3 (split; [done|]).
    split; [by apply (law_payload e m op)|]. split; [done|]. split; [done|]. split; [done|]. split; [done|]. split; [by exists true|]. split; [|split].
    + intros r (d & -> & Hd)%list_elem_of_fmap. destruct (Hp d Hd) as (Eh & (x & Hx) & Hb). cbn [any_hash]. rewrite Eh. by exists x.
    + intros Ha. by rewrite (Hnil Ha).
    + intros l2 (Hl2 & Hf2 & _). destruct (run_deletes_ready pending l2 Hl2) as (l3 & Ed & Hl3 & _ & Hf3); [intros d Hd; by apply Hp|].
      eapply wp_called; [rewrite Ed; done|]. split; [done|]. intros k. rewrite Hf3, Hf2. rewrite map_map. cbn [any_hash].
      assert (Emap : map (fun d => se_hash (pd_entry d)) pending = map pd_hash pending).
      { apply map_ext_in. intros d Hd. by apply Hp, list_elem_of_In. }
      by rewrite Emap.
Defined.

End Instance.
