(* ===== verification/DocumentSearch.v ===== *)
(** * Searching a document store and its peers
    (packages/programs/data/document/document/src/search.ts: [coerceQuery],
    [introduceEntries], [queryCommence], [iterate] and [search];
    packages/programs/rpc/src/utils.ts)

    An iterator asks the own index and the peers that cover the store for pages of
    results, keeps what they answer in a buffer for each of them, and hands out the
    first of all the buffers in the order asked for.  [SearchPeers] are the
    peers and the network in between.  Answers to one call are dealt with one after
    the other, and one method of an iterator runs at a time. *)

From Stdlib Require Import ZArith Lia.
From stdpp Require Import base list strings sets.
From S2P Require Import Prelude JsMap Cache Clock JsVal Query IndexInterface IndexStore Integers LogSorting EntryIndex Log Effects DocumentIndex Documents DocumentsFacts.

Local Open Scope Z_scope.
Local Open Scope effects_scope.

(** ** Asking one of every group (rpc/src/utils.ts) *)

Definition MissingResponsesError : string := "MissingResponsesError".

Section QueryAll.
Context {S R : Type} (request : list (option string) -> Method S (list (option string * R)))
  (responseHandler : list (option string * R) -> Method S unit).

(** [peersToQuery], and [peerToGroupIndex], where a peer that is asked for several
    groups stands for the last of them. *)
Definition peersToQuery (rng : nat) (groups : list (list string)) : list (option string) :=
  map (fun group => group !! (rng mod length group)%nat) groups.
Definition peerToGroupIndex (asked : list (option string)) : list (option string * nat) :=
  fold_left (fun m x => Map_set m x.2 x.1) (imap pair asked) [].

Definition answered (indices : list (option string * nat)) (results : list (option string * R)) : outcome (list (option string * nat)) :=
  if existsb (fun r => match r.1 with None => true | Some _ => false end) results then Exn "Unexpected, missing from"
  else Val (fold_left (fun m r => Map_delete m r.1) results indices).

(** A group that has not answered is asked again, unless all its members have
    been asked. *)
Definition asked_all (rng startRng : nat) (group : list string) : bool :=
  (rng =? startRng)%nat || (0 <? length group)%nat && (rng mod length group =? startRng mod length group)%nat.

Definition left_over (rng startRng : nat) (indicesLeft : list nat) (groups : list (list string)) : list (list string) * list (list string) :=
  let left := map snd (List.filter (fun x => bool_decide (x.1 ∈ indicesLeft)) (imap pair groups)) in
  (List.filter (fun v => negb (asked_all rng startRng v)) left, List.filter (asked_all rng startRng) left).

Fixpoint query_rounds (fuel rng startRng : nat) (groups missing : list (list string)) : Method S unit :=
  match groups, fuel with
  | [], _ => match missing with [] => ret tt | _ => raise MissingResponsesError end
  | _, O => lift NoFuel
  | _, Datatypes.S fuel =>
      let asked := peersToQuery rng groups in
      results ⇠ request asked;;
      left ⇠ lift (answered (peerToGroupIndex asked) results);;
      responseHandler results;;;
      let '(groups, more) := left_over (Datatypes.S rng) startRng (map snd left) groups in
      query_rounds fuel (Datatypes.S rng) startRng groups (missing ++ more)
  end.

(** [rng] is the number drawn. *)
Definition queryAll (fuel rng : nat) (me : string) (groups : list (list string)) : Method S unit :=
  query_rounds fuel rng rng (List.filter (fun x => negb (existsb (fun y => bool_decide (y = me)) x)) groups) [].

End QueryAll.

(** ** Requests *)

Record SearchOptions := MkSearchOptions {
  so_local : bool;
  so_remote : bool;
  so_replicate : bool;
  so_resolve : option bool;
  so_throwOnMissing : bool;
}.

(** What [iterate] and [search] take: a request, or a query with a sort. *)
Inductive SearchArg :=
| ArgRequest (s : Search)
| ArgRequestIndexed (s : Search) (replicate : bool)
| ArgQuery (query : QueryLike) (sort : SortArg).

Definition wants_values (o : SearchOptions) : bool := default true (so_resolve o).

(** The peers and the network: the cover of the store, a request that waits for
    answers, and a message that does not. *)
Class SearchPeers (R T I : Type) := {
  sp_cover : R -> option (list string);
  sp_random : R -> nat;
  sp_request : SearchRequests -> list (option string) -> Method R (list (option string * AbstractSearchResult T I));
  sp_send : SearchRequests -> string -> Method R unit;
}.

(** ** Iterators *)

(** A result with the peer it came from, its id, and what it is sorted by. *)
Record BufferedResult (T I : Type) := MkBuffered {
  br_result : Result T I;
  br_from : string;
  br_id : IdPrimitive;
  br_indexed : jsval;
}.
Arguments MkBuffered {T I}.
Arguments br_result {T I}.
Arguments br_from {T I}.
Arguments br_id {T I}.
Arguments br_indexed {T I}.

Record PeerBuffer (T I : Type) := MkPeerBuffer { pb_kept : Z; pb_buffer : list (BufferedResult T I) }.
Arguments MkPeerBuffer {T I}.
Arguments pb_kept {T I}.
Arguments pb_buffer {T I}.

(** The variables of [iterate].  [done] can be undefined; [it_failed] is a
    [fetchPromise] that was rejected. *)
Record Iteration (T I : Type) := MkIteration {
  it_request : SearchRequests;
  it_options : SearchOptions;
  it_resolve : bool;
  it_peerBufferMap : list (string * PeerBuffer T I);
  it_visited : list IdPrimitive;
  it_isDone : option bool;
  it_first : bool;
  it_failed : option string;
}.
Arguments MkIteration {T I}.
Arguments it_request {T I}.
Arguments it_options {T I}.
Arguments it_resolve {T I}.
Arguments it_peerBufferMap {T I}.
Arguments it_visited {T I}.
Arguments it_isDone {T I}.
Arguments it_first {T I}.
Arguments it_failed {T I}.

Definition with_fetch (n : nat) (q : SearchRequests) : SearchRequests :=
  match q with
  | SearchRequest s => SearchRequest (MkSearch (sr_id s) (sr_query s) (sr_sort s) n)
  | SearchRequestIndexed s r => SearchRequestIndexed (MkSearch (sr_id s) (sr_query s) (sr_sort s) n) r
  | q => q
  end.

Definition request_sort (q : SearchRequests) : list Sort :=
  match q with SearchRequest s | SearchRequestIndexed s _ => sr_sort s | _ => [] end.

Section DocumentSearch.
Context {Ix St L T I Q Qk R : Type} `{JsEnv, Document T, Document I, !DocumentSetup T I, Index Ix St (WithContext I), !IndexStore Ix (WithContext I),
  Queue Q string, Queue Qk IdPrimitive, !DocumentLog L, !SearchPeers R T I}.
Abbreviation Store := (Documents Ix St L T I Q Qk).

(** A store that searches, what it knows of its peers, one of its iterators,
    and what it has asked the log to join. *)
Record Searching := MkSearching {
  se_store : Store;
  se_peers : R;
  se_it : Iteration T I;
  se_joins : list (list (Entry + string));
}.

Definition onStore {A} (m : Method Store A) : Method Searching A := fun s =>
  let '(r, d) := m (se_store s) in (r, MkSearching d (se_peers s) (se_it s) (se_joins s)).
Definition onPeers {A} (m : Method R A) : Method Searching A := fun s =>
  let '(r, p) := m (se_peers s) in (r, MkSearching (se_store s) p (se_it s) (se_joins s)).
Definition changeIt (f : Iteration T I -> Iteration T I) : Method Searching unit :=
  modify (fun s => MkSearching (se_store s) (se_peers s) (f (se_it s)) (se_joins s)).

Definition set_request (q : SearchRequests) (i : Iteration T I) : Iteration T I :=
  MkIteration q (it_options i) (it_resolve i) (it_peerBufferMap i) (it_visited i) (it_isDone i) (it_first i) (it_failed i).
Definition set_buffers (m : list (string * PeerBuffer T I)) (i : Iteration T I) : Iteration T I :=
  MkIteration (it_request i) (it_options i) (it_resolve i) m (it_visited i) (it_isDone i) (it_first i) (it_failed i).
Definition set_visited (v : list IdPrimitive) (i : Iteration T I) : Iteration T I :=
  MkIteration (it_request i) (it_options i) (it_resolve i) (it_peerBufferMap i) v (it_isDone i) (it_first i) (it_failed i).
Definition set_done (d : option bool) (i : Iteration T I) : Iteration T I :=
  MkIteration (it_request i) (it_options i) (it_resolve i) (it_peerBufferMap i) (it_visited i) d (it_first i) (it_failed i).
Definition set_first (i : Iteration T I) : Iteration T I :=
  MkIteration (it_request i) (it_options i) (it_resolve i) (it_peerBufferMap i) (it_visited i) (it_isDone i) true (it_failed i).
Definition set_failed (e : string) (i : Iteration T I) : Iteration T I :=
  MkIteration (it_request i) (it_options i) (it_resolve i) (it_peerBufferMap i) (it_visited i) (it_isDone i) (it_first i) (Some e).

(** [coerceQuery]; a new request asks for ten documents. *)
Definition coerceQuery (query : SearchArg) (options : SearchOptions) : Method Store SearchRequests :=
  let fresh (query : list Query) (sort : list Sort) :=
    id ⇠ new_id;;
    ret (if wants_values options then SearchRequest (MkSearch id query sort 10)
         else SearchRequestIndexed (MkSearch id query sort 10) (so_replicate options)) in
  match query with
  | ArgRequestIndexed s replicate =>
      if negb replicate && so_replicate options then ret (SearchRequestIndexed s true) else fresh (sr_query s) (sr_sort s)
  | ArgRequest s => ret (SearchRequest s)
  | ArgQuery query sort => qs ⇠ lift (toQuery query);; fresh qs (toSort sort)
  end.

(** What a result is taken as: a document, or what is indexed of it. *)
Definition value_js (r : Result T I) : jsval :=
  match r with
  | ResultValue _ v _ => to_js v
  | ResultIndexedValue _ (inl w) _ => to_js w
  | ResultIndexedValue _ (inr i) _ => to_js i
  end.

Definition result_id (r : Result T I) : outcome IdPrimitive :=
  idv ← extractFieldValue (value_js r) indexBy None; id ← toId idv; Val (primitive id).

(** What a result is sorted by; what came with a value counts unless the value
    was asked for with [collect] from a peer. *)
Definition result_indexed (use_indexed : bool) (r : Result T I) : outcome jsval :=
  match r with
  | ResultValue context v indexed =>
      match (if use_indexed then indexed else None) with
      | Some w => Val (to_js w)
      | None => i ← transformer v context; Val (to_js i)
      end
  | ResultIndexedValue _ _ _ => Val (value_js r)
  end.

(** The loop over the results of one answer: those that are new. *)
Fixpoint buffer_results (use_indexed : bool) (from : string) (results : list (Result T I)) : Method Searching (list (BufferedResult T I)) :=
  match results with
  | [] => ret []
  | result :: rest =>
      indexKey ⇠ lift (result_id result);;
      visited ⇠ gets (fun s => Set_has (it_visited (se_it s)) indexKey);;
      if visited : bool then buffer_results use_indexed from rest
      else
        changeIt (fun i => set_visited (Set_add (it_visited i) indexKey) i);;;
        indexed ⇠ lift (result_indexed use_indexed result);;
        l ⇠ buffer_results use_indexed from rest;;
        ret (MkBuffered result from indexKey indexed :: l)
  end.

(** ** The first page of everybody *)

(** [introduceEntries], which joins what is to be replicated. *)
Fixpoint introduceEntries (onResponse : Results T I -> option string -> Method Searching unit)
    (responses : list (option string * AbstractSearchResult T I)) : Method Searching (list (option string * Results T I)) :=
  match responses with
  | [] => ret []
  | (from, NoAccess) :: rest => introduceEntries onResponse rest
  | (from, ResultsResponse results) :: rest =>
      replicate ⇠ gets (fun s => so_replicate (it_options (se_it s)));;
      whenM replicate (modify (fun s => MkSearching (se_store s) (se_peers s) (se_it s) (se_joins s ++ [to_replicate results])));;;
      onResponse results from;;;
      l ⇠ introduceEntries onResponse rest;;
      ret ((from, results) :: l)
  end.

(** [queryCommence] with a callback for every answer; an iterator does not look
    at the list it returns. *)
Definition search_commence (now : Z) (queryRequest : SearchRequests) (onResponse : Results T I -> option string -> Method Searching unit)
    : Method Searching unit :=
  options ⇠ gets (fun s => it_options (se_it s));;
  whenM (negb (so_local options) && negb (so_remote options)) (raise "Expecting either 'options.remote' or 'options.local' to be true");;;
  whenM (so_local options)
    (results ⇠ onStore (processQuery now queryRequest self true None);;
     match rs_results results with
     | [] => ret tt
     | _ => onResponse results (Some self)
     end);;;
  replicatorGroups ⇠ gets (fun s => if so_remote options then sp_cover (se_peers s) else None);;
  match replicatorGroups with
  | None => ret tt
  | Some groups =>
      rng ⇠ gets (fun s => sp_random (se_peers s));;
      r ⇠ attempt (queryAll (fun peers => onPeers (sp_request queryRequest peers))
                     (fun results => introduceEntries onResponse results;;; ret tt) (S (length groups)) rng self (map (fun x => [x]) groups));;
      match r with
      | Exn e => whenM (negb (bool_decide (e = MissingResponsesError)) || so_throwOnMissing options) (raise e)
      | r => lift r
      end
  end.

Definition first_response (response : Results T I) (from : option string) : Method Searching unit :=
  match from with
  | None => ret tt
  | Some from =>
      if (rs_kept response =? 0) && match rs_results response with [] => true | _ => false end then ret tt
      else
        whenM (0 <? rs_kept response) (changeIt (set_done (Some false)));;;
        buffer ⇠ buffer_results true from (rs_results response);;
        changeIt (fun i => set_buffers (Map_set (it_peerBufferMap i) from (MkPeerBuffer (rs_kept response) buffer)) i)
  end.

Definition fetchFirst (now : Z) (n : nat) : Method Searching (option bool) :=
  changeIt (set_done (Some true));;;
  changeIt (fun i => set_request (with_fetch n (it_request i)) i);;;
  request ⇠ gets (fun s => it_request (se_it s));;
  search_commence now request first_response;;;
  done ⇠ gets (fun s => it_isDone (se_it s));;
  whenM (negb (not_done done)) (onStore (clearResultsQueue (idString request)));;;
  ret done.

(** ** Further pages *)

Definition buffer_of (peer : string) (s : Searching) : option (PeerBuffer T I) := Map_get (it_peerBufferMap (se_it s)) peer.
Definition delete_buffer (peer : string) : Method Searching unit :=
  changeIt (fun i => set_buffers (Map_delete (it_peerBufferMap i) peer) i).
Definition delete_if_empty (peer : string) : Method Searching unit :=
  b ⇠ gets (buffer_of peer);;
  whenM (match b with Some b => match pb_buffer b with [] => true | _ => false end | None => false end) (delete_buffer peer).

(** What is done with one page of a peer. *)
Definition take_page (use_indexed : bool) (peer from : string) (results : Results T I) : Method Searching unit :=
  match rs_results results with
  | [] => delete_if_empty peer
  | _ =>
      peerBuffer ⇠ gets (buffer_of peer);;
      match peerBuffer with
      | None => ret tt
      | Some b =>
          changeIt (fun i => set_buffers (Map_set (it_peerBufferMap i) peer (MkPeerBuffer (rs_kept results) (pb_buffer b))) i);;;
          l ⇠ buffer_results use_indexed from (rs_results results);;
          changeIt (fun i => set_buffers (Map_set (it_peerBufferMap i) peer (MkPeerBuffer (rs_kept results) (pb_buffer b ++ l))) i)
      end
  end.

(** [.catch(...)]: the buffer of the peer is given up. *)
Definition or_give_up (peer : string) (m : Method Searching unit) : Method Searching unit :=
  r ⇠ attempt m;;
  match r with
  | Exn _ => delete_buffer peer
  | r => lift r
  end.

(** A page of the own index; the answer is what its peer has left. *)
Definition collect_own (now : Z) (request : SearchRequests) (peer : string) : Method Searching Z :=
  r ⇠ attempt (onStore (processQuery now request self true None));;
  match r with
  | Val results => or_give_up peer (take_page true peer self results);;; ret (rs_kept results)
  | Exn _ => delete_buffer peer;;; ret 0
  | NoFuel => lift NoFuel
  end.

(** A page of another peer; a request that fails fails the call. *)
Definition collect_remote (request : SearchRequests) (peer : string) : Method Searching Z :=
  response ⇠ onPeers (sp_request request [Some peer]);;
  responses ⇠ introduceEntries (fun _ _ => ret tt) response;;
  or_give_up peer
    (allM (fun x => match x.1 with None => ret tt | Some from => take_page false peer from x.2 end) responses);;;
  ret (foldr (fun x left => rs_kept x.2 + left) 0 responses).

Definition collect_peer (now : Z) (n : nat) (peer : string) : Method Searching Z :=
  b ⇠ gets (buffer_of peer);;
  id ⇠ gets (fun s => idString (it_request (se_it s)));;
  match b with
  | None => ret 0
  | Some b =>
      if (length (pb_buffer b) <? n)%nat then
        if pb_kept b =? 0 then delete_if_empty peer;;; ret 0
        else
          let request := CollectNextRequest id (n - length (pb_buffer b)) in
          if bool_decide (peer = self) then collect_own now request peer else collect_remote request peer
      else ret (pb_kept b)
  end.

(** [Promise.all] over the peers, with the sum of what they have left. *)
Fixpoint collect_peers (now : Z) (n : nat) (peers : list string) : Method Searching Z :=
  match peers with
  | [] => ret 0
  | peer :: peers =>
      r ⇠ attempt (collect_peer now n peer);;
      rs ⇠ attempt (collect_peers now n peers);;
      lift (a ← r; b ← rs; Val (a + b))
  end.

(** The promise in [fetchPromise]: its rejection stays. *)
Definition fetching {A} (m : Method Searching A) : Method Searching A :=
  r ⇠ attempt m;;
  match r with
  | Exn e => changeIt (set_failed e);;; raise e
  | r => lift r
  end.

Definition fetchAtLeast (now : Z) (n : nat) : Method Searching (option bool) :=
  i ⇠ gets se_it;;
  if negb (not_done (it_isDone i)) && it_first i then ret None
  else
    match it_failed i with
    | Some e => raise e
    | None =>
        if negb (it_first i) then changeIt set_first;;; fetching (fetchFirst now n)
        else
          resultsLeft ⇠ fetching (collect_peers now n (Map_keys (it_peerBufferMap i)));;
          ret (Some (resultsLeft =? 0))
    end.

(** ** Handing out results *)

Definition peerBuffers (i : Iteration T I) : list (BufferedResult T I) :=
  concat (map pb_buffer (Map_values (it_peerBufferMap i))).

Fixpoint remove_result (id : IdPrimitive) (l : list (BufferedResult T I)) : list (BufferedResult T I) :=
  match l with
  | [] => []
  | x :: l => if bool_decide (br_id x = id) then l else x :: remove_result id l
  end.

(** Takes a result out of the buffer of its peer.  The values of one buffer are
    different objects, and have different ids. *)
Definition take_out (i : Iteration T I) (result : BufferedResult T I) : Iteration T I :=
  match Map_get (it_peerBufferMap i) (br_from result) with
  | None => i
  | Some arr => set_buffers (Map_set (it_peerBufferMap i) (br_from result) (MkPeerBuffer (pb_kept arr) (remove_result (br_id result) (pb_buffer arr)))) i
  end.

(** With [resolve], the document behind what is indexed. *)
Definition coerce_result (now : Z) (x : BufferedResult T I) : Method Searching (list (Result T I)) :=
  match br_result x with
  | ResultValue _ _ _ => ret [br_result x]
  | ResultIndexedValue c ind _ =>
      let i := match ind with inl w => wc_value w | inr i => i end in
      match cast with
      | Some f => ret [ResultValue c (f i) None]
      | None =>
          v ⇠ onStore (resolveDocument now (br_indexed x) i (rc_head c));;
          ret (match v with Some v => [ResultValue c v None] | None => [] end)
      end
  end.

Definition result_key (r : Result T I) : outcome jsval := extractFieldValue (value_js r) indexBy None.

Definition next (now n : Z) : Method Searching (list (Result T I)) :=
  if n <? 0 then raise "Expecting to fetch a positive amount of element"
  else if n =? 0 then ret []
  else
    let n := Z.to_nat n in
    fetchedAll ⇠ fetchAtLeast now n;;
    i ⇠ gets se_it;;
    results ⇠ lift (sortM (fun a b => extractSortCompare (br_indexed a) (br_indexed b) (request_sort (it_request i)) None) (peerBuffers i));;
    let pendingMoreResults := (n <? length results)%nat in
    let batch := take n results in
    changeIt (fun i => fold_left take_out batch i);;;
    changeIt (set_done (match fetchedAll with Some b => Some (b && negb pendingMoreResults) | None => None end));;;
    coercedBatch ⇠ (if it_resolve i then l ⇠ mapMethod (coerce_result now) batch;; ret (concat l) else ret (map br_result batch));;
    lift (dedup result_key [] coercedBatch).

Definition close_peer (peer : string) : Method Searching unit :=
  b ⇠ gets (buffer_of peer);;
  id ⇠ gets (fun s => idString (it_request (se_it s)));;
  match b with
  | None => ret tt
  | Some b =>
      if pb_kept b =? 0 then delete_buffer peer
      else if bool_decide (peer = self) then onStore (processCloseIteratorRequest id self)
      else onPeers (sp_send (CloseIteratorRequest id) peer)
  end.

Definition close : Method Searching unit :=
  peers ⇠ gets (fun s => Map_keys (it_peerBufferMap (se_it s)));;
  allM close_peer peers.

Fixpoint all (fuel : nat) (now : Z) : Method Searching (list (Result T I)) :=
  done ⇠ gets (fun s => it_isDone (se_it s));;
  if negb (not_done done) then ret []
  else
    match fuel with
    | O => lift NoFuel
    | S fuel => batch ⇠ next now 100;; rest ⇠ all fuel now;; ret (batch ++ rest)
    end.

(** ** Starting *)

(** A new iterator; what is to be replicated is asked for in its indexed form. *)
Definition iterate (queryRequest : SearchArg) (options : SearchOptions) : Method Store (Iteration T I) :=
  queryRequestCoerced ⇠ coerceQuery queryRequest options;;
  let indexed := match queryRequest with ArgRequestIndexed _ _ => true | _ => false end in
  let resolve := so_replicate options && wants_values options &&
    (negb indexed && bool_decide (compatibility = None) || match compatibility with Some c => 8 <? c | None => false end) in
  request ⇠ (match resolve, queryRequestCoerced with
             | true, (SearchRequest s | SearchRequestIndexed s _) =>
                 id ⇠ new_id;; ret (SearchRequestIndexed (MkSearch id (sr_query s) (sr_sort s) (sr_fetch s)) false)
             | _, q => ret q
             end);;
  let request := match request with SearchRequestIndexed s r => SearchRequestIndexed s (so_replicate options || r) | q => q end in
  ret (MkIteration request options resolve [] [] (Some false) false None).

(** The loop of [search]. *)
Fixpoint search_loop (fuel : nat) (now : Z) (fetch : nat) (allResults : list (Result T I)) : Method Searching (list (Result T I)) :=
  done ⇠ gets (fun s => it_isDone (se_it s));;
  if not_done done && (length allResults <? fetch)%nat then
    match fuel with
    | O => lift NoFuel
    | S fuel => batch ⇠ next now (Z.of_nat (fetch - length allResults));; search_loop fuel now fetch (allResults ++ batch)
    end
  else ret allResults.

(** [search] on the request that [coerceQuery] makes, with the iterator over it. *)
Definition search_all (fuel : nat) (now : Z) (fetch : nat) : Method Searching (list (Result T I)) :=
  allResults ⇠ search_loop fuel now fetch [];;
  close;;;
  lift (dedup result_key [] allResults).

Definition search_arg (q : SearchRequests) : SearchArg :=
  match q with
  | SearchRequestIndexed s r => ArgRequestIndexed s r
  | SearchRequest s => ArgRequest s
  | _ => ArgQuery QLNone SANone
  end.

Definition search (fuel : nat) (now : Z) (queryRequest : SearchArg) (options : SearchOptions) (peers : R) : Method Store (list (Result T I)) :=
  coercedRequest ⇠ coerceQuery queryRequest options;;
  it ⇠ iterate (search_arg coercedRequest) options;;
  let fetch := match coercedRequest with SearchRequest s | SearchRequestIndexed s _ => sr_fetch s | _ => 0%nat end in
  fun s => let '(r, s') := search_all fuel now fetch (MkSearching s peers it []) in (r, se_store s').

End DocumentSearch.

(** * What a search hands out
    (packages/programs/data/document/document/src/search.ts)

    Whatever the peers answer, an iterator hands out no document twice
    ([no_document_twice]). *)

(** What RPC promises: an answer comes from a peer that was asked, where some were. *)
Class SearchPeersLaws (R T I : Type) `{!SearchPeers R T I} : Prop := {
  law_from (q : SearchRequests) (p : string) (ps : list string) (r r' : R) rs x :
    sp_request q (map Some (p :: ps)) r = (Val rs, r') -> x ∈ rs -> x.1 ∈ map Some (p :: ps);
}.

Section Distinct.
Context {Ix St L T I Q Qk R : Type} `{JsEnv, Document T, Document I, !DocumentSetup T I, Index Ix St (WithContext I), !IndexStore Ix (WithContext I),
  Queue Q string, Queue Qk IdPrimitive, !DocumentLog L, !SearchPeers R T I, !SearchPeersLaws R T I}.
Abbreviation Searching := (Searching (Ix := Ix) (St := St) (L := L) (T := T) (I := I) (Q := Q) (Qk := Qk) (R := R)).
Implicit Types (s : Searching) (it : Iteration T I).

(** ** The buffers and what was handed out have different ids *)

Definition good_result (peer : string) (x : BufferedResult T I) : Prop := br_from x = peer /\ result_id (br_result x) = Val (br_id x).

(** [out]: the ids handed out by an iterator that does not resolve what is indexed. *)
Record distinct (out : list IdPrimitive) it : Prop := {
  di_wf : Map_wf (it_peerBufferMap it);
  di_good p b : (p, b) ∈ it_peerBufferMap it -> Forall (good_result p) (pb_buffer b);
  di_nodup : NoDup (map br_id (peerBuffers it) ++ out);
  di_visited p : p ∈ map br_id (peerBuffers it) ++ out -> p ∈ it_visited it;
  di_values : it_resolve it = false;
}.

Definition Inv_search (out : list IdPrimitive) s : Prop := distinct out (se_it s).

(** The ids of the buffers of a table. *)
Definition ids_of (m : list (string * PeerBuffer T I)) : list IdPrimitive := map br_id (concat (map pb_buffer (Map_values m))).

Lemma ids_cons p b m : ids_of ((p, b) :: m) = map br_id (pb_buffer b) ++ ids_of m.
Proof. unfold ids_of. cbn. by rewrite map_app. Qed.

(** Replacing a buffer replaces its ids. *)
Lemma ids_set (m : list (string * PeerBuffer T I)) p b : Map_wf m ->
  exists rest, ids_of (Map_set m p b) ≡ₚ map br_id (pb_buffer b) ++ rest /\
    ids_of m ≡ₚ match Map_get m p with Some b' => map br_id (pb_buffer b') | None => [] end ++ rest.
Proof.
  unfold Map_wf. induction m as [|[q b'] m IH]; intros Hwf.
  - exists []. cbn. by rewrite !app_nil_r.
  - apply NoDup_cons in Hwf as [Hq Hwf]. cbn [Map_set Map_get]. case_decide as Hp; [subst|].
    + exists (ids_of m). rewrite !ids_cons. by split.
    + destruct (IH Hwf) as (rest & E1 & E2). exists (map br_id (pb_buffer b') ++ rest). rewrite !ids_cons, E1, E2. split; solve_Permutation.
Qed.

(** More ids are seen, and the buffer of [p] becomes [b]: it may keep what it had
    and get what has not been seen. *)
Lemma distinct_set out it v p b :
  distinct out it -> it_visited it ⊆ v -> Forall (good_result p) (pb_buffer b) -> NoDup (map br_id (pb_buffer b)) ->
  (forall x, x ∈ map br_id (pb_buffer b) -> x ∈ v /\
     (x ∈ from_option (fun b' => map br_id (pb_buffer b')) [] (Map_get (it_peerBufferMap it) p) \/ x ∉ it_visited it)) ->
  distinct out (set_buffers (Map_set (it_peerBufferMap it) p b) (set_visited v it)).
Proof.
  intros [Hwf Hg Hnd Hv Hr0] Hsub Hb Hbn Hx. change (peerBuffers it) with (concat (map pb_buffer (Map_values (it_peerBufferMap it)))) in *.
  fold (ids_of (it_peerBufferMap it)) in Hnd, Hv. destruct (ids_set (it_peerBufferMap it) p b Hwf) as (rest & E1 & E2).
  assert (E0 : match Map_get (it_peerBufferMap it) p with Some b' => map br_id (pb_buffer b') | None => [] end =
               from_option (fun b' => map br_id (pb_buffer b')) [] (Map_get (it_peerBufferMap it) p)) by by destruct (Map_get _ p).
  rewrite E0 in E2. set (old := from_option _ _ _) in *. rewrite E2 in Hnd. setoid_rewrite E2 in Hv.
  split; cbn [set_buffers set_visited it_peerBufferMap it_visited].
  - by apply Map_set_wf.
  - intros q b' [[= -> ->]|[Hin _]]%Map_set_elem; [done|by eapply Hg|done].
  - change (NoDup (ids_of (Map_set (it_peerBufferMap it) p b) ++ out)). rewrite E1, <- app_assoc. rewrite <- app_assoc in Hnd.
    apply NoDup_app in Hnd as (_ & Hd & Hr). apply NoDup_app. split; [done|]. split; [|done].
    intros x [_ Ho]%Hx Hin. destruct Ho as [Ho|Ho]; [by apply (Hd x)|]. apply Ho, Hv. rewrite <- app_assoc. set_solver.
  - intros x. change (x ∈ ids_of (Map_set (it_peerBufferMap it) p b) ++ out -> x ∈ v). rewrite E1, <- app_assoc. rewrite elem_of_app.
    intros [[? _]%Hx|Hr]; [done|]. apply Hsub, Hv. rewrite <- app_assoc. set_solver.
  - done.
Qed.

(** Taking buffers away, or parts of them. *)
Lemma distinct_sub out out' it m :
  distinct out it -> Map_wf m -> (forall p b, (p, b) ∈ m -> Forall (good_result p) (pb_buffer b)) ->
  ids_of m ++ out' ⊆+ ids_of (it_peerBufferMap it) ++ out -> distinct out' (set_buffers m it).
Proof.
  intros [Hwf Hg Hnd Hv Hr0] Hm Hgm Hsub. split; cbn [set_buffers it_peerBufferMap it_visited]; [done|done| | |done].
  - apply submseteq_Permutation in Hsub as [k E]. rewrite E in Hnd. by apply NoDup_app in Hnd as (? & _).
  - intros x Hin. apply Hv. by eapply elem_of_submseteq.
Qed.

Lemma ids_delete m p : ids_of (Map_delete m p) ⊆+ ids_of m.
Proof.
  unfold Map_delete. induction m as [|[q b] m IH]; [done|]. cbn [List.filter]. destruct (negb _); rewrite !ids_cons; [by apply submseteq_skips_l|by apply submseteq_inserts_l].
Qed.

Lemma distinct_delete out it p : distinct out it -> distinct out (set_buffers (Map_delete (it_peerBufferMap it) p) it).
Proof.
  intros Hd. apply (distinct_sub out out it); [done|apply Map_delete_wf, Hd| |apply submseteq_app; [apply ids_delete|done]].
  intros q b [Hin _]%Map_delete_elem. by eapply (di_good out it).
Qed.

(** ** Every method keeps it *)

Abbreviation keeps_inv m := (forall out, keeps (Inv_search out) m).

Lemma keeps_onStore {A} (m : Method (Documents Ix St L T I Q Qk) A) : keeps_inv (onStore m : Method Searching A).
Proof. intros out s Hs. unfold onStore. by destruct (m (se_store s)). Qed.
Lemma keeps_onPeers {A} (m : Method R A) : keeps_inv (onPeers m : Method Searching A).
Proof. intros out s Hs. unfold onPeers. by destruct (m (se_peers s)). Qed.

(** The loop over an answer changes what has been seen. *)
Lemma buffer_results_spec use from rs s r s' :
  buffer_results use from rs s = (r, s') -> exists v, se_it s' = set_visited v (se_it s) /\ it_visited (se_it s) ⊆ v /\
    (forall l, r = Val l -> Forall (good_result from) l /\ NoDup (map br_id l) /\ forall x, x ∈ map br_id l -> x ∈ v /\ x ∉ it_visited (se_it s)).
Proof.
  revert s r s'. induction rs as [|x rs IH]; intros s r s'; cbn [buffer_results].
  - intros [= <- <-]. exists (it_visited (se_it s)). split; [by destruct (se_it s)|]. split; [done|]. intros l [= <-]. split_and!; [by constructor|constructor|set_solver].
  - unfold lift at 1, bindM at 1. destruct (result_id x) as [k|e|] eqn:Ek.
    2,3: intros [= <- <-]; exists (it_visited (se_it s)); split; [by destruct (se_it s)|]; split; [done|discriminate].
    unfold gets at 1, bindM at 1. cbn beta iota. destruct (Set_has _ k) eqn:Ev; [intros Hb; by apply IH in Hb|].
    assert (Hk : k ∉ it_visited (se_it s)) by (intros Hk%Set_has_spec; congruence).
    unfold changeIt, modify at 1, bindM at 1. cbn beta iota. set (s1 := MkSearching _ _ _ _).
    assert (Hsub : it_visited (se_it s) ⊆ Set_add (it_visited (se_it s)) k) by (intros y Hy; apply Set_add_elem; by right).
    unfold lift at 1, bindM at 1. destruct (result_indexed use x) as [j|e|].
    2,3: intros [= <- <-]; exists (Set_add (it_visited (se_it s)) k); by split_and!.
    unfold bindM. destruct (buffer_results use from rs s1) as [r1 s2] eqn:E. destruct (IH _ _ _ E) as (v & E1 & Hv & Hl).
    assert (E2 : se_it s2 = set_visited v (se_it s)) by (rewrite E1; done).
    assert (Hv' : it_visited (se_it s) ⊆ v) by (etrans; [exact Hsub|exact Hv]).
    destruct r1 as [l|e|]; intros [= <- <-]; exists v; split_and!; try done.
    intros l' [= <-]. destruct (Hl l eq_refl) as (Hg & Hn & Hx). split_and!.
    + constructor; [done|done].
    + cbn. constructor; [|done]. intros [_ Hin]%Hx. apply Hin. apply Set_add_elem. by left.
    + cbn. intros y [->|Hy]%elem_of_cons; [split; [apply Hv, Set_add_elem; by left|done]|].
      destruct (Hx y Hy) as [? Hy']. split; [done|]. intros ?. by apply Hy', Hsub.
Qed.

Lemma keeps_changeIt out f : (forall it, distinct out it -> distinct out (f it)) -> keeps (Inv_search out) (changeIt f : Method Searching unit).
Proof. intros Hf. apply keeps_modify. intros s Hs. by apply Hf. Qed.

Lemma keeps_delete_buffer p : keeps_inv (delete_buffer p : Method Searching unit).
Proof. intros out. apply keeps_changeIt. intros it. apply distinct_delete. Qed.

Lemma keeps_first_response response from : keeps_inv (first_response response from : Method Searching unit).
Proof.
  intros out. unfold first_response. destruct from as [p|]; [|apply keeps_ret]. destruct (_ && _); [apply keeps_ret|].
  apply keeps_bind; [apply keeps_when, keeps_changeIt; intros it []; by split|]. intros _ s Hs. apply bindM_spec.
  - destruct (buffer_results _ _ _ s) as [r s'] eqn:E. destruct (buffer_results_spec _ _ _ _ _ _ E) as (v & Ei & Hv & _). cbn. red. rewrite Ei.
    destruct Hs as [? ? ? Hvis ?]. split; try done. intros q Hq. by apply Hv, Hvis.
  - intros l s' E. destruct (buffer_results_spec _ _ _ _ _ _ E) as (v & Ei & Hv & Hl). destruct (Hl l eq_refl) as (Hg & Hn & Hx).
    unfold changeIt, modify, Inv_search. cbn. rewrite Ei. cbn. change (set_buffers ?m (set_visited v ?i)) with (set_buffers m (set_visited v i)).
    apply distinct_set; [done|done|done|done|]. intros x Hxl. destruct (Hx x Hxl). naive_solver.
Qed.

Lemma keeps_introduceEntries onResponse responses : (forall r f, keeps_inv (onResponse r f)) ->
  keeps_inv (introduceEntries onResponse responses : Method Searching _).
Proof.
  intros Hr out. induction responses as [|[from [results|]] rest IH]; cbn [introduceEntries]; [apply keeps_ret| |done].
  apply keeps_bind; [apply keeps_gets|]. intros replicate. apply keeps_bind; [by apply keeps_when, keeps_modify|]. intros _.
  apply keeps_bind; [apply Hr|]. intros _. apply keeps_bind; [apply IH|]. intros l. apply keeps_ret.
Qed.

Lemma keeps_query_rounds {X} request handler fuel rng start groups missing :
  (forall l, keeps_inv (request l : Method Searching (list (option string * X)))) -> (forall l, keeps_inv (handler l)) ->
  keeps_inv (query_rounds request handler fuel rng start groups missing).
Proof.
  intros Hq Hh out. revert rng groups missing. induction fuel as [|fuel IH]; intros rng [|g groups] missing; cbn [query_rounds].
  1,3: destruct missing; [apply keeps_ret|apply keeps_raise].
  { apply keeps_lift. }
  apply keeps_bind; [apply Hq|]. intros results. apply keeps_bind; [apply keeps_lift|]. intros left.
  apply keeps_bind; [apply Hh|]. intros _. destruct (left_over _ _ _ _). apply IH.
Qed.

Lemma keeps_search_commence now q onResponse : (forall r f, keeps_inv (onResponse r f)) ->
  keeps_inv (search_commence now q onResponse : Method Searching unit).
Proof.
  intros Hr out. unfold search_commence. apply keeps_bind; [apply keeps_gets|]. intros options.
  apply keeps_bind; [apply keeps_when, keeps_raise|]. intros _. apply keeps_bind.
  { apply keeps_when, keeps_bind; [apply keeps_onStore|]. intros results. destruct (rs_results results); [apply keeps_ret|apply Hr]. }
  intros _. apply keeps_bind; [apply keeps_gets|]. intros [groups|]; [|apply keeps_ret].
  apply keeps_bind; [apply keeps_gets|]. intros rng. apply keeps_bind.
  - apply keeps_attempt. apply keeps_query_rounds; intros l out'; [apply keeps_onPeers|].
    apply keeps_bind; [by apply keeps_introduceEntries|]. intros ?. apply keeps_ret.
  - intros [|e|]; [apply keeps_lift|apply keeps_when, keeps_raise|apply keeps_lift].
Qed.

Lemma keeps_fetchFirst now n : keeps_inv (fetchFirst now n : Method Searching _).
Proof.
  intros out. unfold fetchFirst. apply keeps_bind; [apply keeps_changeIt; intros it []; by split|]. intros _.
  apply keeps_bind; [apply keeps_changeIt; intros it []; by split|]. intros _. apply keeps_bind; [apply keeps_gets|]. intros q.
  apply keeps_bind; [apply keeps_search_commence, keeps_first_response|]. intros _. apply keeps_bind; [apply keeps_gets|]. intros d.
  apply keeps_bind; [apply keeps_when, keeps_onStore|]. intros _. apply keeps_ret.
Qed.

Lemma keeps_delete_if_empty p : keeps_inv (delete_if_empty p : Method Searching unit).
Proof. intros out. unfold delete_if_empty. apply keeps_bind; [apply keeps_gets|]. intros b. apply keeps_when, keeps_delete_buffer. Qed.

Lemma keeps_take_page use p results : keeps_inv (take_page use p p results : Method Searching unit).
Proof.
  intros out. unfold take_page. destruct (rs_results results) as [|r0 rs0] eqn:Ers; [apply keeps_delete_if_empty|]. rewrite <- Ers. clear r0 rs0 Ers.
  intros s Hs. unfold gets at 1, bindM at 1. cbn beta iota. unfold buffer_of. destruct (Map_get _ p) as [b|] eqn:Eb; [|done].
  unfold changeIt at 1, modify at 1, bindM at 1. cbn beta iota. set (s1 := MkSearching _ _ _ _).
  assert (Hb : (p, b) ∈ it_peerBufferMap (se_it s)) by by apply Map_get_Some_elem.
  destruct (ids_set (it_peerBufferMap (se_it s)) p b (di_wf _ _ Hs)) as (rest & _ & E2). rewrite Eb in E2.
  assert (Hold : NoDup (map br_id (pb_buffer b)) /\ map br_id (pb_buffer b) ⊆ it_visited (se_it s)).
  { destruct Hs as [_ _ Hnd Hv _]. change (peerBuffers (se_it s)) with (concat (map pb_buffer (Map_values (it_peerBufferMap (se_it s))))) in *.
    fold (ids_of (it_peerBufferMap (se_it s))) in *. rewrite E2 in Hnd. rewrite <- app_assoc in Hnd. apply NoDup_app in Hnd as (? & _). split; [done|].
    intros x Hx. apply Hv. rewrite E2. set_solver. }
  assert (Hs1 : distinct out (se_it s1)).
  { cbn. replace (se_it s) with (set_visited (it_visited (se_it s)) (se_it s)) at 2 by by destruct (se_it s).
    apply distinct_set; [done|done|exact (di_good _ _ Hs _ _ Hb)|apply Hold|]. intros x Hx. split; [by apply Hold|]. left. by rewrite Eb. }
  apply bindM_spec.
  - destruct (buffer_results _ _ _ s1) as [r s'] eqn:E. destruct (buffer_results_spec _ _ _ _ _ _ E) as (v & Ei & Hv & _). cbn. red. rewrite Ei.
    destruct Hs1 as [? ? ? Hvis ?]. split; try done. intros q Hq. by apply Hv, Hvis.
  - intros l s' E. destruct (buffer_results_spec _ _ _ _ _ _ E) as (v & Ei & Hv & Hl). destruct (Hl l eq_refl) as (Hg & Hn & Hx).
    unfold changeIt, modify, Inv_search. cbn [snd se_it]. rewrite Ei.
    change (distinct out (set_buffers (Map_set (it_peerBufferMap (se_it s1)) p (MkPeerBuffer (rs_kept results) (pb_buffer b ++ l))) (set_visited v (se_it s1)))).
    apply distinct_set; [done|done|cbn|cbn|cbn].
    + apply Forall_app. split; [exact (di_good _ _ Hs _ _ Hb)|done].
    + rewrite map_app. apply NoDup_app. split; [apply Hold|]. split; [|done]. intros x Hxb Hxl. destruct (Hx x Hxl) as [_ Hnv]. by apply Hnv, Hold.
    + rewrite map_app. intros x [Hxb|Hxl]%elem_of_app.
      * split; [by apply Hv, Hold|]. left. cbn. by rewrite Map_get_set_eq.
      * destruct (Hx x Hxl). naive_solver.
Qed.

Lemma keeps_or_give_up p (m : Method Searching unit) : keeps_inv m -> keeps_inv (or_give_up p m).
Proof.
  intros Hm out. unfold or_give_up. apply keeps_bind; [by apply keeps_attempt|]. intros [|e|]; [apply keeps_lift|apply keeps_delete_buffer|apply keeps_lift].
Qed.

(** Who answers to one request for a page is the peer that was asked. *)
Lemma keeps_collect_remote q p : keeps_inv (collect_remote q p : Method Searching Z).
Proof.
  intros out s Hs. unfold collect_remote. apply bindM_spec; [by apply keeps_onPeers|]. intros response s1 E1.
  assert (Hs1 : Inv_search out s1) by (change s1 with (Val response, s1).2; rewrite <- E1; by apply keeps_onPeers).
  assert (Hfrom : forall x, x ∈ response -> x.1 = Some p).
  { unfold onPeers in E1. destruct (sp_request q [Some p] (se_peers s)) as [r p'] eqn:E. injection E1 as -> <-. intros x Hx.
    pose proof (law_from q p [] _ _ _ _ E Hx) as Hin. set_solver. }
  clear E1 Hs s. revert s1 Hs1 Hfrom. intros s Hs Hfrom.
  assert (Hall : forall responses, (forall x, x ∈ responses -> x.1 = Some p) -> forall use,
    keeps (Inv_search out) (or_give_up p (allM (fun x : option string * Results T I => match x.1 with None => ret tt | Some from => take_page use p from x.2 end) responses) : Method Searching unit)).
  { intros responses Hr use. apply keeps_or_give_up. intros out'. induction responses as [|x responses IH]; cbn [allM]; [apply keeps_ret|].
    rewrite (Hr x) by by left. apply keeps_bind; [apply keeps_attempt, keeps_take_page|]. intros r.
    apply keeps_bind; [apply keeps_attempt, IH; intros y Hy; apply Hr; by right|]. intros rs. apply keeps_lift. }
  assert (Hin : forall responses s', introduceEntries (fun _ _ => ret tt) response s = (Val responses, s') -> forall x, x ∈ responses -> x.1 = Some p).
  { clear Hs Hall. revert s Hfrom. induction response as [|[from [results|]] rest IH]; intros s Hfrom responses s'; cbn [introduceEntries].
    - intros [= <- <-]. set_solver.
    - unfold gets, bindM, ret. cbn beta iota. destruct (whenM _ _ s) as [[u|e|] s1]; [|done|done]. destruct (introduceEntries _ rest s1) as [[l|e|] s2] eqn:E; [|done|done].
      intros [= <- <-] x [->|Hx]%elem_of_cons; [apply (Hfrom (from, ResultsResponse results)); by left|].
      eapply IH; [|exact E|done]. intros y Hy. apply Hfrom. by right.
    - intros E. eapply IH; [|exact E]. intros y Hy. apply Hfrom. by right. }
  apply bindM_spec; [apply keeps_introduceEntries; [|done]; intros ? ? ?; apply keeps_ret|]. intros responses s2 E2.
  assert (Hs2 : Inv_search out s2).
  { change s2 with (Val responses, s2).2. rewrite <- E2. apply keeps_introduceEntries; [|done]. intros ? ? ?; apply keeps_ret. }
  assert (Hk := Hall responses (Hin _ _ E2) false s2 Hs2). apply bindM_spec; [done|]. intros u s3 E3. by rewrite E3 in Hk.
Qed.

Lemma keeps_collect_own now q : keeps_inv (collect_own now q self : Method Searching Z).
Proof.
  intros out. unfold collect_own. apply keeps_bind; [apply keeps_attempt, keeps_onStore|]. intros [results|e|]; [| |apply keeps_lift].
  - apply keeps_bind; [|intros ?; apply keeps_ret]. apply keeps_or_give_up, keeps_take_page.
  - apply keeps_bind; [apply keeps_delete_buffer|]. intros _. apply keeps_ret.
Qed.

Lemma keeps_collect_peer now n p : keeps_inv (collect_peer now n p : Method Searching Z).
Proof.
  intros out. unfold collect_peer. apply keeps_bind; [apply keeps_gets|]. intros b. apply keeps_bind; [apply keeps_gets|]. intros id.
  destruct b as [b|]; [|apply keeps_ret]. destruct (_ <? n)%nat; [|apply keeps_ret]. destruct (pb_kept b =? 0).
  - apply keeps_bind; [apply keeps_delete_if_empty|]. intros _. apply keeps_ret.
  - case_bool_decide as Hp; [subst; apply keeps_collect_own|apply keeps_collect_remote].
Qed.

Lemma keeps_collect_peers now n ps : keeps_inv (collect_peers now n ps : Method Searching Z).
Proof.
  intros out. induction ps as [|p ps IH]; cbn [collect_peers]; [apply keeps_ret|]. apply keeps_bind; [apply keeps_attempt, keeps_collect_peer|]. intros r.
  apply keeps_bind; [by apply keeps_attempt|]. intros rs. apply keeps_lift.
Qed.

Lemma keeps_fetching {A} (m : Method Searching A) : keeps_inv m -> keeps_inv (fetching m).
Proof.
  intros Hm out. unfold fetching. apply keeps_bind; [by apply keeps_attempt|]. intros [|e|]; [apply keeps_lift| |apply keeps_lift].
  apply keeps_bind; [apply keeps_changeIt; intros it []; by split|]. intros _. apply keeps_raise.
Qed.

Lemma keeps_fetchAtLeast now n : keeps_inv (fetchAtLeast now n : Method Searching _).
Proof.
  intros out. unfold fetchAtLeast. apply keeps_bind; [apply keeps_gets|]. intros i. destruct (_ && _); [apply keeps_ret|].
  destruct (it_failed i); [apply keeps_raise|]. destruct (negb _).
  - apply keeps_bind; [apply keeps_changeIt; intros it []; by split|]. intros _. apply keeps_fetching, keeps_fetchFirst.
  - apply keeps_bind; [apply keeps_fetching, keeps_collect_peers|]. intros z. apply keeps_ret.
Qed.

Lemma keeps_close : keeps_inv (close : Method Searching unit).
Proof.
  intros out. unfold close. apply keeps_bind; [apply keeps_gets|]. intros ps. apply keeps_allM. intros p. unfold close_peer.
  apply keeps_bind; [apply keeps_gets|]. intros b. apply keeps_bind; [apply keeps_gets|]. intros id. destruct b as [b|]; [|apply keeps_ret].
  destruct (_ =? 0); [apply keeps_delete_buffer|]. case_bool_decide; [apply keeps_onStore|apply keeps_onPeers].
Qed.

(** ** Taking results out of the buffers *)

Lemma remove_result_perm id (l : list (BufferedResult T I)) x : x ∈ l -> br_id x = id -> map br_id l ≡ₚ id :: map br_id (remove_result id l).
Proof.
  induction l as [|y l IH]; intros Hx Hid; [by apply elem_of_nil in Hx|]. cbn [remove_result]. case_bool_decide as Hy; cbn [map]; [by rewrite Hy|].
  apply elem_of_cons in Hx as [->|Hx]; [done|]. rewrite (IH Hx Hid). apply Permutation_swap.
Qed.

Lemma remove_result_sub id (l : list (BufferedResult T I)) : remove_result id l ⊆ l.
Proof. induction l as [|y l IH]; [done|]. cbn [remove_result]. case_bool_decide; set_solver. Qed.

(** What one result is taken out of. *)
Lemma in_buffer it x out : distinct out it -> x ∈ peerBuffers it ->
  exists b, Map_get (it_peerBufferMap it) (br_from x) = Some b /\ x ∈ pb_buffer b.
Proof.
  intros Hd Hx. unfold peerBuffers in Hx. apply list_elem_of_In, in_concat in Hx as (l & Hl & Hx%list_elem_of_In).
  apply list_elem_of_In, list_elem_of_fmap in Hl as (b & -> & Hb). unfold Map_values in Hb. apply list_elem_of_fmap in Hb as ([p b'] & -> & Hb).
  cbn in *. pose proof (di_good _ _ Hd _ _ Hb) as Hg. rewrite Forall_forall in Hg. destruct (Hg x Hx) as [-> _].
  exists b'. split; [|done]. apply Map_elem_get; [apply Hd|done].
Qed.

Lemma take_out_distinct out it x : distinct out it -> x ∈ peerBuffers it -> distinct (out ++ [br_id x]) (take_out it x) /\
  map br_id (peerBuffers it) ≡ₚ br_id x :: map br_id (peerBuffers (take_out it x)).
Proof.
  intros Hd Hx. destruct (in_buffer _ _ _ Hd Hx) as (b & Eb & Hxb). unfold take_out. rewrite Eb.
  set (b' := MkPeerBuffer _ _). destruct (ids_set (it_peerBufferMap it) (br_from x) b' (di_wf _ _ Hd)) as (rest & E1 & E2). rewrite Eb in E2.
  pose proof (remove_result_perm (br_id x) _ x Hxb eq_refl) as E3.
  assert (E : ids_of (it_peerBufferMap it) ≡ₚ br_id x :: ids_of (Map_set (it_peerBufferMap it) (br_from x) b')) by (rewrite E2, E1, E3; done).
  split; [|exact E]. assert (Hb : (br_from x, b) ∈ it_peerBufferMap it) by by apply Map_get_Some_elem.
  apply (distinct_sub out); [done|apply Map_set_wf, Hd| |].
  - intros p b2 [[= -> ->]|[Hin _]]%Map_set_elem; [|by apply (di_good _ _ Hd)|apply Hd]. cbn. pose proof (di_good _ _ Hd _ _ Hb) as Hg.
    rewrite Forall_forall in Hg |- *. intros y Hy. apply Hg. by eapply remove_result_sub.
  - apply Permutation_submseteq. rewrite E. solve_Permutation.
Qed.

Lemma in_peerBuffers it x : x ∈ peerBuffers it <-> exists p b, (p, b) ∈ it_peerBufferMap it /\ x ∈ pb_buffer b.
Proof.
  unfold peerBuffers, Map_values. rewrite map_map, list_elem_of_In, in_concat. setoid_rewrite <- list_elem_of_In. split.
  - intros (l & (e & -> & He)%list_elem_of_fmap & Hx). destruct e as [p b]. by exists p, b.
  - intros (p & b & Hin & Hx). exists (pb_buffer b). split; [|done]. apply list_elem_of_fmap. by exists (p, b).
Qed.

Lemma remove_result_other id (l : list (BufferedResult T I)) y : y ∈ l -> br_id y <> id -> y ∈ remove_result id l.
Proof.
  induction l as [|z l IH]; [done|]. cbn [remove_result]. intros [->|Hy]%elem_of_cons Hne; case_bool_decide; try done; set_solver.
Qed.

Lemma take_out_other it out x y : distinct out it -> y ∈ peerBuffers it -> br_id y <> br_id x -> y ∈ peerBuffers (take_out it x).
Proof.
  intros Hd (p & b & Hin & Hy)%in_peerBuffers Hne. unfold take_out. destruct (Map_get _ (br_from x)) as [arr|] eqn:E.
  - apply in_peerBuffers. cbn [set_buffers it_peerBufferMap]. destruct (decide (p = br_from x)) as [->|Hp].
    + rewrite (Map_elem_get _ _ _ (di_wf _ _ Hd) Hin) in E. injection E as <-. eexists _, _. split; [apply Map_set_elem; [apply Hd|by left]|].
      by apply remove_result_other.
    + exists p, b. split; [|done]. apply Map_set_elem; [apply Hd|by right].
  - apply in_peerBuffers. by exists p, b.
Qed.

Lemma take_all_distinct batch out it : distinct out it -> (forall x, x ∈ batch -> x ∈ peerBuffers it) -> NoDup (map br_id batch) ->
  distinct (out ++ map br_id batch) (fold_left take_out batch it).
Proof.
  revert out it. induction batch as [|x batch IH]; intros out it Hd Hin Hn; cbn [map fold_left]; [by rewrite app_nil_r|].
  apply NoDup_cons in Hn as [Hx Hn]. replace (out ++ br_id x :: map br_id batch) with ((out ++ [br_id x]) ++ map br_id batch) by by rewrite <- app_assoc.
  apply IH; [apply take_out_distinct; [done|apply Hin; by left]| |done]. intros y Hy. apply (take_out_other _ out); [done|apply Hin; by right|].
  intros E. apply Hx. rewrite <- E. by apply list_elem_of_fmap_2.
Qed.

(** ** Runs of an iterator *)

(** What the results of a call have as ids. *)
Definition result_ids (rs : list (Result T I)) : list (outcome IdPrimitive) := map result_id rs.

(** Calls of an iterator, with what they hand out; in between, the store and the
    peers change in any way. *)
Inductive run : Searching -> list (Result T I) -> Searching -> Prop :=
| run_start s : run s [] s
| run_next s out s1 now n rs s2 : run s out s1 -> next now n s1 = (Val rs, s2) -> run s (out ++ rs) s2
| run_fail s out s1 now n e s2 : run s out s1 -> next now n s1 = (Exn e, s2) -> run s out s2
| run_close s out s1 : run s out s1 -> run s out (close s1).2
| run_others s out s1 store peers : run s out s1 -> run s out (MkSearching store peers (se_it s1) (se_joins s1)).

Lemma dedup_sublist {A} (f : A -> outcome jsval) l unique l' : dedup f unique l = Val l' -> sublist l' l.
Proof.
  revert unique l'. induction l as [|x l IH]; intros unique l'; cbn [dedup]; [by intros [= <-]|].
  destruct (f x) as [v|?|]; [|done|done]. cbn [mbind outcome_bind]. destruct (toId v) as [k|?|]; [|done|done]. cbn [mbind outcome_bind].
  destruct (Set_has _ _); [intros E%IH; by constructor|]. destruct (dedup f _ l) as [l1|?|] eqn:E; [|done|done]. intros [= <-]. constructor. by eapply IH.
Qed.

Lemma sortM_perm {A} (cmp : A -> A -> outcome Z) l l' : sortM cmp l = Val l' -> l' ≡ₚ l.
Proof.
  assert (Hins : forall x l l', insertM cmp x l = Val l' -> l' ≡ₚ x :: l).
  { intros x l0. induction l0 as [|y l0 IH]; intros l1; cbn [insertM]; [by intros [= <-]|]. destruct (cmp x y) as [c|?|]; [|done|done]. cbn [mbind outcome_bind].
    destruct (c <=? 0); [by intros [= <-]|]. destruct (insertM cmp x l0) as [l2|?|] eqn:E; [|done|done]. intros [= <-]. rewrite (IH _ eq_refl). apply Permutation_swap. }
  revert l'. induction l as [|x l IH]; intros l'; cbn [sortM]; [by intros [= <-]|]. destruct (sortM cmp l) as [l1|?|] eqn:E; [|done|done].
  intros E2%Hins. rewrite E2. by rewrite (IH _ eq_refl).
Qed.

Lemma next_distinct out now n s r s' : Inv_search out s -> next now n s = (r, s') ->
  exists ids, Inv_search (out ++ ids) s' /\ forall rs, r = Val rs -> sublist (result_ids rs) (map Val ids).
Proof.
  intros Hs. unfold next. destruct (n <? 0); [intros [= <- <-]; exists []; by rewrite app_nil_r|].
  destruct (n =? 0). { intros [= <- <-]. exists []. rewrite app_nil_r. split; [done|]. intros rs [= <-]. constructor. }
  unfold bindM at 1. destruct (fetchAtLeast now (Z.to_nat n) s) as [r1 s1] eqn:E1.
  assert (Hs1 : Inv_search out s1) by (change s1 with (r1, s1).2; rewrite <- E1; by apply keeps_fetchAtLeast).
  destruct r1 as [fetchedAll|e|]; [|intros [= <- <-]; exists []; by rewrite app_nil_r..].
  unfold gets at 1, bindM at 1. cbn beta iota. unfold lift at 1, bindM at 1.
  destruct (sortM _ _) as [results|e|] eqn:Es; [|intros [= <- <-]; exists []; by rewrite app_nil_r..].
  unfold changeIt, modify, bindM at 1. cbn beta iota. set (batch := take (Z.to_nat n) results).
  pose proof (sortM_perm _ _ _ Es) as Hperm.
  assert (Hin : forall x, x ∈ batch -> x ∈ peerBuffers (se_it s1)).
  { intros x Hx. rewrite <- Hperm. by eapply subseteq_take. }
  assert (Hnd : NoDup (map br_id batch)).
  { unfold batch. rewrite <- firstn_map. eapply sublist_NoDup; [|apply sublist_take]. rewrite Hperm. destruct Hs1 as [_ _ Hn _ _]. by apply NoDup_app in Hn as (? & _). }
  pose proof (take_all_distinct batch out (se_it s1) Hs1 Hin Hnd) as Hd. set (it2 := fold_left take_out batch (se_it s1)) in *.
  set (dn := match fetchedAll with Some _ => _ | None => _ end).
  assert (Hres : it_resolve (se_it s1) = false) by apply Hs1.
  unfold bindM. cbn beta iota zeta. rewrite Hres. unfold ret, lift. cbn beta iota zeta. intros [= <- <-]. exists (map br_id batch).
  split; [red; cbn; by destruct Hd|]. intros rs Hrs%dedup_sublist. unfold result_ids. rewrite map_map.
  assert (E : map (fun x => Val (br_id x)) batch = map result_id (map br_result batch)).
  { rewrite map_map. apply map_ext_in. intros x Hx%list_elem_of_In. destruct (in_buffer _ x out Hs1 (Hin x Hx)) as (b & Eb & Hxb).
    pose proof (di_good _ _ Hs1 _ _ (Map_get_Some_elem _ _ _ Eb)) as Hg. rewrite Forall_forall in Hg. by destruct (Hg x Hxb) as [_ ->]. }
  rewrite E. by apply (fmap_sublist result_id).
Qed.

(** C4. Whatever the peers answer, however the store and the peers change in between,
    and also when calls fail or the iterator is closed, a new iterator over the
    documents themselves (not what is indexed of them) hands out no document twice:
    the results of all the calls of next have different ids. *)
Theorem no_document_twice (s s' : Searching) request options out :
  se_it s = MkIteration request options false [] [] (Some false) false None -> run s out s' -> NoDup (map result_id out).
Proof.
  intros E Hr. assert (Hinv : exists ids, Inv_search ids s' /\ sublist (result_ids out) (map Val ids)).
  { induction Hr as [s|s out s1 now n rs s2 Hr IH En|s out s1 now n e s2 Hr IH En|s out s1 Hr IH|s out s1 store peers Hr IH].
    - exists []. split; [|constructor]. red. rewrite E. split; cbn; [constructor|by intros ? ? ?%elem_of_nil|constructor|by intros ? ?%elem_of_nil|done].
    - destruct (IH E) as (ids & Hi & Hsub). destruct (next_distinct _ _ _ _ _ _ Hi En) as (ids' & Hi' & Hrs). exists (ids ++ ids'). split; [done|].
      unfold result_ids. rewrite !map_app. apply sublist_app; [done|by apply Hrs].
    - destruct (IH E) as (ids & Hi & Hsub). destruct (next_distinct _ _ _ _ _ _ Hi En) as (ids' & Hi' & _). exists (ids ++ ids'). split; [done|].
      rewrite map_app. by apply sublist_inserts_r.
    - destruct (IH E) as (ids & Hi & Hsub). exists ids. split; [by apply keeps_close|done].
    - destruct (IH E) as (ids & Hi & Hsub). by exists ids. }
  destruct Hinv as (ids & [_ _ Hn _ _] & Hsub). eapply sublist_NoDup; [|exact Hsub]. apply NoDup_app in Hn as (_ & _ & Hn).
  apply NoDup_fmap_2; [|done]. by intros ? ? [=].
Qed.

End Distinct.
