(* ===== verification/DocumentMerge.v ===== *)
(** * Pages of several peers are one sorted list
    (packages/programs/data/document/document/src/search.ts)

    Where the peers answer requests for pages in full, what an iterator hands out
    page by page is what sorting all their results would give, and it ends
    ([search_merges]).  Before it: stable sorting, and the pages of the own index. *)

From Stdlib Require Import ZArith Lia.
From stdpp Require Import base sets list strings sorting.
From S2P Require Import Prelude JsMap Cache Clock JsVal Query IndexInterface IndexStore Integers LogSorting EntryIndex Log Effects DocumentIndex Documents DocumentsFacts DocumentSearch.

Local Open Scope Z_scope.
Local Open Scope effects_scope.

(** ** Sorting some elements *)

Section Sorting.
Context {A : Type} (cmp : A -> A -> Z) (P : A -> Prop).
Abbreviation le := (fun a b => cmp a b <= 0).
Abbreviation ins := (js_insert cmp).

(** The comparator orders the elements [P]. *)
Record orders : Prop := {
  ord_total x y : P x -> P y -> le x y \/ le y x;
  ord_trans x y z : P x -> P y -> P z -> le x y -> le y z -> le x z;
}.
Context (Hord : orders).

Lemma insert_all x l : P x -> Forall P l -> Forall P (ins x l).
Proof. intros. rewrite js_insert_perm. by constructor. Qed.

Lemma insert_sorted x l : P x -> Forall P l -> StronglySorted le l -> StronglySorted le (ins x l).
Proof.
  intros Hx. induction l as [|y l IH]; intros Hl Hs; cbn [js_insert]; [by repeat constructor|].
  apply Forall_cons in Hl as [Hy Hl]. apply StronglySorted_inv in Hs as [Hs Hys]. case_if_in_goal.
  - constructor; [by constructor|]. constructor; [lia|]. apply Forall_forall. intros z Hz. rewrite Forall_forall in Hl, Hys.
    apply (ord_trans Hord x y z); [done|done|by apply Hl|lia|by apply Hys].
  - constructor; [by apply IH|]. rewrite js_insert_perm. constructor; [|done]. destruct (ord_total Hord x y Hx Hy); [lia|done].
Qed.

Lemma sort_all l : Forall P l -> Forall P (js_sort cmp l).
Proof. intros. by rewrite js_sort_perm. Qed.

Lemma sort_sorted l : Forall P l -> StronglySorted le (js_sort cmp l).
Proof. induction 1 as [|x l Hx Hl IH]; [constructor|]. cbn [js_sort]. apply insert_sorted; [done|by apply sort_all|done]. Qed.

End Sorting.

(** ** Pages of the own index *)

Section CacheRoom.
Context {K V P : Type} `{EqDecision K, Queue P K, !QueueLaws P K}.
Implicit Types (c : Cache K V P).

(** A cache that evicts nothing. *)
Definition roomy c : Prop := cache_ttl c = None /\ currentSize c <= cache_max c.
Definition cached c k v : Prop := exists d, Map_get (cache_map c) k = Some d /\ cd_value d = Some v /\ (k ∉ cache_deleted c) /\ 0 <= cd_size d.

Lemma roomy_trim now c : Inv c -> roomy c -> trim now c = Val c.
Proof.
  intros Hc [Ht Hm]. unfold trim. cbn [trim_loop]. destruct (queue_head (cache_list c)) as [k|] eqn:Eh; [|done].
  destruct (Inv_head c k Hc Eh) as (v & m & -> & _). cbn. rewrite decide_True by done. unfold outOfDate. rewrite Ht.
  by rewrite (proj2 (Z.ltb_ge _ _)).
Qed.

Lemma lookup_cached now c k v : Inv c -> roomy c -> cached c k v -> Cache_lookup now k c = Val (Some v, c).
Proof.
  intros Hc Hr (d & E & Ev & Hd & _). unfold Cache_lookup, Cache.get. rewrite roomy_trim by done. cbn [mbind outcome_bind].
  destruct (Set_has _ k) eqn:Es; [by apply Set_has_spec in Es|]. rewrite E. cbn. by rewrite Ev.
Qed.

Lemma lookup_gone now c k : Inv c -> roomy c -> ~ live c k -> Cache_lookup now k c = Val (None, c).
Proof.
  intros Hc Hr Hl. unfold Cache_lookup, Cache.get. rewrite roomy_trim by done. cbn [mbind outcome_bind].
  destruct (Set_has _ k) eqn:Es; [done|]. destruct (Map_get (cache_map c) k) as [d|] eqn:E; [|done]. destruct Hl. split.
  - apply Map_has_spec. unfold Map_has. by rewrite E.
  - intros Hd%Set_has_spec. congruence.
Qed.

Lemma put_cached now c k v : Inv c -> cache_ttl c = None -> currentSize c + 1 <= cache_max c ->
  exists c', Cache_put now k v c = Val (tt, c') /\ Inv c' /\ roomy c' /\ cached c' k v.
Proof.
  intros Hc Ht Hm. unfold Cache_put, Cache.add. set (c1 := insert_entry now c k (Some v) 1).
  assert (Hi : Inv c1) by by apply insert_entry_Inv. assert (Hr : roomy c1).
  { split; [done|]. unfold c1. cbn [insert_entry currentSize cache_max]. destruct (Map_has _ _); lia. }
  rewrite roomy_trim by done. exists c1. split_and!; [done|done|done|]. exists (MkCacheData (Some v) now 1). split_and!; [|done| |done].
  - unfold c1. cbn [insert_entry cache_map]. apply Map_get_set_eq.
  - unfold c1. cbn [insert_entry cache_deleted]. rewrite Set_delete_elem. naive_solver.
Qed.

Lemma update_cached c k v v' : cached c k v -> cached (Cache_update c k v') k v'.
Proof.
  intros (d & E & _ & Hd & Hz). unfold Cache_update. rewrite E. eexists. split; [apply Map_get_set_eq|]. by split_and!.
Qed.
Lemma update_roomy c k v : roomy c -> roomy (Cache_update c k v).
Proof. intros [? ?]. unfold Cache_update. by destruct (Map_get _ _). Qed.
Lemma del_roomy c k v : roomy c -> cached c k v -> roomy (Cache.del c k).2.
Proof.
  intros [? ?] (d & E & _ & Hd & Hz). unfold Cache.del. rewrite E. destruct (Set_has _ _) eqn:Es; [by apply Set_has_spec in Es|].
  split; [done|]. cbn. lia.
Qed.

End CacheRoom.

Section Own.
Context {Ix St L T I Q Qk : Type} `{JsEnv, !JsEnvLaws, Document I, !DocumentSetup T I, Index Ix St (WithContext I), !IndexLaws Ix St (WithContext I),
  !IndexStore Ix (WithContext I), !IndexStoreLaws Ix St (WithContext I), Queue Q string, !QueueLaws Q string,
  Queue Qk IdPrimitive, !QueueLaws Qk IdPrimitive, !DocumentLog L, !DocumentSetupLaws T I, !DocumentLogLaws L T I}.
Abbreviation Store := (Documents Ix St L T I Q Qk).
Implicit Types (s : Store) (m : IdPrimitive -> option T) (w : WithContext I) (docs : list (IndexedResult (WithContext I))) (rs : list (Result T I)).

(** The answer to a search for values: the documents of the store. *)
Definition value_of m s (r : IndexedResult (WithContext I)) (x : Result T I) : Prop :=
  ir_value r ∈ documents (d_index s) /\ exists p v, doc_id (d_index s) (ir_value r) = Some p /\ m p = Some v /\
    x = ResultValue (toContext (__context (ir_value r))) v (Some (ir_value r)).

Lemma value_looked m s s' r x : looked s s' -> value_of m s r x -> value_of m s' r x.
Proof. intros (E & _). unfold value_of. by rewrite E. Qed.

(** Resolving a document does not touch the iterators. *)
Lemma keeps_iterators_answer now fromQuery id from isLocal canRead size docs c :
  keeps (fun s => d_iterators s = c) (answer_results now fromQuery id from isLocal canRead size docs : Method Store _).
Proof.
  assert (Hlog : forall A (f : Method L A), keeps (fun s => d_iterators s = c) (onLog f : Method Store A)).
  { intros A f s Hs. unfold onLog. by destruct (f (d_log s)). }
  assert (Hres : forall A f, keeps (fun s => d_iterators s = c) (onResolver f : Method Store A)).
  { intros A f s Hs. unfold onResolver. by destruct (f (d_resolverCache s)) as [[? ?]|?|]. }
  revert size. induction docs as [|r docs IH]; intros size; cbn [answer_results]; [apply keeps_ret|]. destruct (_ && _).
  - apply keeps_bind; [|intros _; apply IH]. apply keeps_modify. intros s Hs. by destruct (Map_get _ _).
  - apply keeps_bind; [apply keeps_lift|]. intros readable. apply keeps_bind.
    + destruct readable; [|apply keeps_ret]. unfold answer_result. destruct fromQuery as [[]|]; try apply keeps_ret.
      * apply keeps_bind; [|intros ?; apply keeps_ret]. unfold resolveDocument. apply keeps_bind; [apply keeps_lift|]. intros ?.
        apply keeps_bind; [apply keeps_lift|]. intros ?. apply keeps_bind; [apply Hres|]. intros [v|]; [apply keeps_ret|].
        destruct cast; [apply keeps_ret|]. apply keeps_bind; [apply Hlog|]. intros [e|]; [|apply keeps_ret].
        apply keeps_bind; [apply keeps_lift|]. intros op. destruct (isPutOperation op); [|apply keeps_raise].
        apply keeps_bind; [apply keeps_lift|]. intros ?. apply keeps_ret.
      * apply keeps_bind; [apply Hlog|]. intros h. apply keeps_bind; [|intros _; apply keeps_ret]. by apply keeps_when, keeps_modify.
    + intros out. apply keeps_bind; [apply IH|]. intros outs. apply keeps_ret.
Qed.

Lemma answer_values now m s sr id docs :
  store_ok m s -> (forall r, r ∈ docs -> ir_value r ∈ documents (d_index s)) ->
  wp (answer_results now (Some (SearchRequest sr)) id self true None 0 docs)
    (fun rs s' => kept m s s' /\ d_iterators s' = d_iterators s /\ Forall2 (value_of m s) docs rs) s.
Proof.
  intros Hs Hin. assert (Hw : wp (answer_results now (Some (SearchRequest sr)) id self true None 0 docs)
    (fun rs s' => kept m s s' /\ Forall2 (value_of m s) docs rs) s).
  { revert s Hs Hin. induction docs as [|r docs IH]; intros s Hs Hin; cbn [answer_results negb andb]; wp_steps; [by split; [apply kept_refl|]|].
    cbn [answer_result]. wp_steps. eapply wp_mono; [apply (resolve_ok now m); [done|apply Hin; by left]|].
    intros r' s1 [Hk (p & v & Hid & Hm & ->)]. wp_steps. eapply wp_mono; [apply (IH s1); [apply Hk|]|].
    - intros r1 Hr1. destruct Hk as [_ (-> & _)]. apply Hin. by right.
    - intros rs s2 [Hk2 Hf]. wp_steps. split; [by eapply kept_trans|]. constructor.
      + split; [apply Hin; by left|]. by exists p, v.
      + destruct Hk as [_ (Ei & _)]. eapply Forall2_impl; [exact Hf|]. intros r1 x. unfold value_of. by rewrite Ei. }
  unfold wp in *. pose proof (keeps_iterators_answer now (Some (SearchRequest sr)) id self true None 0 docs (d_iterators s) s eq_refl) as Hk.
  destruct (answer_results _ _ _ _ _ _ _ _ s) as [[rs|e|] s']; naive_solver.
Qed.

(** What the iterator of a request has left. *)
Record own_left m s (id : string) docs : Prop := {
  ol_store : store_ok m s;
  ol_roomy : roomy (d_iterators s);
  ol_docs r : r ∈ docs -> ir_value r ∈ documents (d_index s);
  ol_iterator : match docs with
                | [] => ~ live (d_iterators s) id
                | _ => exists st sr, cached (d_iterators s) id (MkCachedIterator st (SearchRequest sr)) /\ started st /\
                         it_done (idx_ops (d_index s)) st = Some false /\ remaining (d_index s) st = docs
                end;
}.

Lemma own_pending now m s id left : own_left m s id left ->
  wp (iterators_getPending now id) (fun x s1 => default 0%nat x = length left /\ kept m s s1 /\ own_left m s1 id left) s.
Proof.
  intros [Hs Hr Hd Hi]. unfold iterators_getPending, iterators_get. wp_steps. destruct left as [|r0 left].
  - eapply wp_onIterators; [apply lookup_gone; [apply Hs|done|done]|]. wp_steps. split; [done|].
    assert (Hk : kept m s (set_iterators s (d_iterators s))) by (apply kept_iterators; [done|apply Hs]). split; [done|]. split; [apply Hk|done|done|done].
  - destruct Hi as (st & sr & Hc & Hst & Hdn & Hrem). eapply wp_onIterators; [apply lookup_cached; [apply Hs|done|done]|]. wp_steps.
    cbn [set_iterators d_index ci_iterator ci_request]. eapply wp_lift; [by apply law_pending|]. wp_steps. cbn [fst snd].
    eapply wp_onIterators; [done|]. wp_steps. cbn [set_iterators d_iterators default]. rewrite Hrem. split; [done|].
    set (s1 := set_iterators _ _). assert (Hk : kept m s s1) by (apply (kept_iterators m s); [done|]; apply Cache_update_Inv, Hs).
    split; [done|]. split; [apply Hk|by apply update_roomy|done|]. exists st, sr. split_and!; [|done|done|done]. by eapply update_cached.
Qed.

(** The end of a request: what is pending, and the answers. *)
Lemma own_page now m s0 s sr id docs left (Φ : Results T I -> Store -> Prop) :
  kept m s0 s -> own_left m s id left -> (forall r, r ∈ docs -> ir_value r ∈ documents (d_index s)) ->
  (forall s' rs, kept m s0 s' -> own_left m s' id left -> Forall2 (value_of m s') docs rs -> Φ (MkResults rs (Z.of_nat (length left))) s') ->
  wp (iterators_getPending now id) (fun pending => wp
     (whenM false (set_queue id (MkQueued self (default 0%nat pending) []));;;
      filteredResults ⇠ answer_results now (Some (SearchRequest sr)) id self true None 0 docs;;
      queued ⇠ gets (fun s : Store => 0%nat);;
      whenM false (clearResultsQueue id);;;
      ret (MkResults filteredResults (Z.of_nat (default 0%nat pending + queued)))) Φ) s.
Proof.
  intros Hk0 Hl Hin HΦ. eapply wp_mono; [by apply (own_pending now m)|]. intros x s1 (E & Hk1 & Hl1). wp_steps. rewrite E.
  eapply wp_mono; [apply (answer_values now m); [apply Hk1|]|].
  { intros r Hr. destruct Hk1 as [_ (-> & _)]. by apply Hin. }
  intros rs s2 (Hk2 & Eit & Hf). wp_steps. rewrite Nat.add_0_r. pose proof Hk2 as [Hs2 (Ei & _)]. destruct Hl1 as [_ Hr1 Hd1 Hi1]. apply HΦ.
  - eapply kept_trans; [exact Hk0|]. by eapply kept_trans.
  - split; [done|by rewrite Eit|by rewrite Ei|]. destruct left; rewrite ?Eit, ?Ei; done.
  - eapply Forall2_impl; [exact Hf|]. intros r y. unfold value_of. by rewrite Ei.
Qed.

(** One call of [next] on the iterator of a request. *)
Lemma own_fetch m s id st sr n docs :
  store_ok m s -> roomy (d_iterators s) -> cached (d_iterators s) id (MkCachedIterator st (SearchRequest sr)) ->
  (forall r, r ∈ docs -> ir_value r ∈ documents (d_index s)) ->
  (exists st', it_next (idx_ops (d_index s)) (S n) st = Val (take (S n) docs, st') /\ started st' /\
     remaining (d_index s) st' = drop (S n) docs /\ it_done (idx_ops (d_index s)) st' = Some (length docs <=? S n)%nat) ->
  wp (fetch_from id (S n) (MkCachedIterator st (SearchRequest sr)))
    (fun l s' => l = take (S n) docs /\ kept m s s' /\ own_left m s' id (drop (S n) docs)) s.
Proof.
  intros Hs Hr Hc Hd (st' & En & Hst & Hrem & Hdn). unfold fetch_from. wp_steps. cbn [ci_iterator ci_request]. eapply wp_lift; [exact En|]. wp_steps. cbn [fst snd].
  eapply wp_onIterators; [done|]. wp_steps. cbn [set_iterators d_iterators d_index]. set (c1 := Cache_update _ _ _).
  assert (Hk1 : kept m s (set_iterators s c1)) by by apply kept_iterators, Cache_update_Inv, Hs.
  assert (Hc1 : cached c1 id (MkCachedIterator st' (SearchRequest sr))) by by eapply update_cached.
  assert (Hdrop : forall r, r ∈ drop (S n) docs -> ir_value r ∈ documents (d_index s)) by (intros r Hr'; apply Hd; by eapply subseteq_drop).
  rewrite Hdn. destruct (Nat.leb_spec (length docs) (S n)) as [Hlen|Hlen]; cbn [not_done negb].
  - unfold iterators_clear. eapply wp_onIterators; [done|]. wp_steps. cbn [set_iterators d_iterators]. split; [done|]. split.
    + eapply kept_trans; [exact Hk1|]. apply kept_iterators; [apply Hk1|]. apply del_Inv, Hk1.
    + rewrite drop_ge by lia. split; [apply (kept_iterators m s); [done|]; apply del_Inv, Hk1| |by intros ? ?%elem_of_nil|apply del_not_live].
      cbn. eapply del_roomy; [by apply update_roomy|exact Hc1].
  - wp_steps. split; [done|]. split; [done|]. split; [apply Hk1|by apply update_roomy|done|].
    destruct (drop (S n) docs) as [|r l] eqn:E; [apply (f_equal length) in E; rewrite length_drop in E; simpl in E; lia|].
    exists st', sr. by split_and!.
Qed.

(** The first page of the own index. *)
Lemma own_first now m s id qs sorts n :
  let docs := reference_results (idx_contents (d_index s)) qs (Some sorts) in
  store_ok m s -> cache_ttl (d_iterators s) = None -> currentSize (d_iterators s) + 1 <= cache_max (d_iterators s) ->
  supported (idx_contents (d_index s)) qs (Some sorts) ->
  wp (processQuery now (SearchRequest (MkSearch id qs sorts (S n))) self true None)
    (fun x s' => kept m s s' /\ own_left m s' id (drop (S n) docs) /\ exists rs, Forall2 (value_of m s') (take (S n) docs) rs /\
       x = MkResults rs (Z.of_nat (length (drop (S n) docs)))) s.
Proof.
  intros docs Hs Ht Hm Hsup. set (sr := MkSearch id qs sorts (S n)).
  assert (Hdocs : forall r, r ∈ docs -> ir_value r ∈ documents (d_index s)).
  { intros r Hr. apply list_elem_of_fmap_2. unfold docs, reference_results, order_results in Hr. rewrite js_sort_elem in Hr. by apply elem_of_List_filter in Hr as [Hr _]. }
  unfold processQuery, iterateAndFetch. cbn [idString sr_id sr_query sr_sort sr_fetch]. wp_steps.
  destruct (put_cached now (d_iterators s) id (MkCachedIterator (idx_iterate (d_index s) (MkIterateOptions (QLMany qs) (Some sorts))) (SearchRequest sr))) as (c & Ec & Hc & Hr & Hcc); [apply Hs|done|done|].
  eapply wp_onIterators; [exact Ec|]. wp_steps. assert (Hk1 : kept m s (set_iterators s c)) by by apply kept_iterators.
  destruct (law_iterate (d_index s) (QLMany qs) qs (Some sorts) eq_refl (so_index _ _ Hs) Hsup) as (_ & Hn & _).
  eapply wp_mono; [apply (own_fetch m (set_iterators s c) id _ sr n docs); [apply Hk1|done|done|done|exact (Hn n)]|].
  intros rs s2 (-> & Hk2 & Hl). wp_steps. cbn [negb andb fst snd].
  eapply (own_page now m s s2 sr id (take (S n) docs)); [exact (kept_trans _ _ _ _ Hk1 Hk2)|exact Hl| |].
  - intros r Hr'. destruct Hk2 as [_ (-> & _)]. apply Hdocs. by eapply subseteq_take.
  - intros s' rs Hk' Hl' Hf. split; [done|]. split; [done|]. by exists rs.
Qed.

(** The pages after it. *)
Lemma own_next now m s id n docs :
  own_left m s id docs -> docs <> [] ->
  wp (processQuery now (CollectNextRequest id (S n)) self true None)
    (fun x s' => kept m s s' /\ own_left m s' id (drop (S n) docs) /\ exists rs, Forall2 (value_of m s') (take (S n) docs) rs /\
       x = MkResults rs (Z.of_nat (length (drop (S n) docs)))) s.
Proof.
  intros [Hs Hr Hd Hi] Hne. assert (Hit : exists st sr, cached (d_iterators s) id (MkCachedIterator st (SearchRequest sr)) /\ started st /\
    it_done (idx_ops (d_index s)) st = Some false /\ remaining (d_index s) st = docs) by by destruct docs.
  destruct Hit as (st & sr & Hc & Hst & Hdn & Hrem). unfold processQuery. cbn [idString]. wp_steps.
  pose proof (lookup_cached now _ _ _ (so_iterators _ _ Hs) Hr Hc) as El.
  unfold iterators_get. eapply wp_onIterators; [exact El|]. wp_steps. unfold iterators_next, iterators_get. wp_steps. eapply wp_onIterators; [exact El|]. wp_steps.
  set (s1 := set_iterators _ _). assert (Hk1 : kept m s s1) by (apply (kept_iterators m s); [done|apply Hs]).
  eapply wp_mono; [apply (own_fetch m s1 id st sr n docs); [apply Hk1|done|done|done|]|].
  { destruct (law_next (d_index s) st n Hst Hdn) as (st' & En & Hst' & Hr' & Hdn'). rewrite Hrem in *. by exists st'. }
  intros rs s2 (-> & Hk2 & Hl). wp_steps. cbn [negb andb fst snd fmap option_fmap option_map ci_request].
  eapply (own_page now m s s2 sr id (take (S n) docs)); [exact (kept_trans _ _ _ _ Hk1 Hk2)|exact Hl| |].
  - intros r Hr'. destruct Hk2 as [_ (-> & _)]. apply Hd. by eapply subseteq_take.
  - intros s' rs Hk' Hl' Hf. split; [done|]. split; [done|]. by exists rs.
Qed.

End Own.

(** ** Asking the cover of a store *)

Section Cover.
Context {S A : Type} (request : list (option string) -> Method S (list (option string * A))) (handler : list (option string * A) -> Method S unit).

Lemma index_keys (asked : list (option string)) x : x ∈ peerToGroupIndex asked -> x.1 ∈ asked.
Proof.
  assert (Hset : forall (l : list (option string * nat)) k v, x ∈ Map_set l k v -> x ∈ l \/ x.1 = k).
  { induction l as [|[k' v'] l IH]; intros k v; cbn; [intros ->%list_elem_of_singleton; by right|]. case_decide as Hk.
    - intros [->|Hx]%elem_of_cons; [by right|left; by right].
    - intros [->|Hx]%elem_of_cons; [left; left|]. destruct (IH _ _ Hx); [left; by right|by right]. }
  assert (Hi : forall (l : list (nat * option string)) acc, x ∈ fold_left (fun m x => Map_set m x.2 x.1) l acc -> x ∈ acc \/ x.1 ∈ map snd l).
  { induction l as [|y l IH]; intros acc; cbn [fold_left map]; [by left|]. intros [Hx|Hx]%IH; [|right; by right].
    apply Hset in Hx as [Hx|Hx]; [by left|right]. rewrite Hx. left. }
  intros [Hx|Hx]%Hi; [by apply elem_of_nil in Hx|]. apply list_elem_of_fmap in Hx as (y & E & (j & z & -> & Hz)%elem_of_lookup_imap).
  rewrite E. cbn. by eapply list_elem_of_lookup_2.
Qed.

(** Nobody is left to be asked when all have answered. *)
Lemma answered_all (asked : list (option string)) (rs : list (option string * A)) :
  None ∉ asked -> map fst rs ≡ₚ asked -> answered (peerToGroupIndex asked) rs = Val [].
Proof.
  intros Hn Hrs. unfold answered. replace (existsb _ rs) with false.
  - f_equal. assert (Hidx : forall x, x ∈ peerToGroupIndex asked -> x.1 ∈ map fst rs) by (intros x Hx; rewrite Hrs; by apply index_keys).
    clear Hn Hrs. generalize dependent (peerToGroupIndex asked). induction rs as [|r rs IH]; intros idx Hidx; cbn [fold_left].
    + destruct idx as [|x idx]; [done|]. specialize (Hidx x ltac:(left)). by apply elem_of_nil in Hidx.
    + apply IH. intros x [Hx Hne]%Map_delete_elem. specialize (Hidx x Hx). cbn in Hidx. by apply elem_of_cons in Hidx as [?|?].
  - symmetry. apply not_true_iff_false. intros (r & Hr & E)%existsb_exists. apply Hn. rewrite <- Hrs. apply list_elem_of_fmap. exists r.
    split; [by destruct r.1|by apply list_elem_of_In].
Qed.

(** Where all of them answer, the peers of a cover are asked in one round. *)
Lemma queryAll_once fuel rng me groups (Φ : unit -> S -> Prop) s :
  let ps := List.filter (fun x => negb (bool_decide (x = me))) groups in
  (ps = [] -> Φ tt s) ->
  (ps <> [] -> wp (request (map Some ps)) (fun rs s1 => map fst rs ≡ₚ map Some ps /\ wp (handler rs) Φ s1) s) ->
  wp (queryAll request handler (Datatypes.S fuel) rng me (map (fun x => [x]) groups)) Φ s.
Proof.
  intros ps Hnil Hcons. unfold queryAll.
  assert (Eg : List.filter (fun x => negb (existsb (fun y => bool_decide (y = me)) x)) (map (fun x => [x]) groups) = map (fun x => [x]) ps).
  { unfold ps. clear. induction groups as [|g groups IH]; [done|]. cbn. rewrite orb_false_r. destruct (bool_decide (g = me)); cbn; [done|by f_equal]. }
  rewrite Eg. clear Eg. clearbody ps. destruct ps as [|p0 ps0]; [by apply Hnil|]. specialize (Hcons ltac:(done)). set (ps := p0 :: ps0) in *.
  change (map (fun x => [x]) ps) with ([p0] :: map (fun x => [x]) ps0). cbn [query_rounds]. change ([p0] :: map (fun x => [x]) ps0) with (map (fun x => [x]) ps).
  assert (Hask : peersToQuery rng (map (fun x => [x]) ps) = map Some ps).
  { unfold peersToQuery. rewrite map_map. apply map_ext. intros x. cbn [length]. by rewrite Nat.mod_1_r. }
  rewrite Hask. wp_steps. eapply wp_mono; [exact Hcons|]. intros rs s1 [Hrs Hh]. wp_steps. eapply wp_lift.
  { apply answered_all; [|exact Hrs]. by intros (x & ? & _)%list_elem_of_fmap. }
  wp_steps. eapply wp_mono; [exact Hh|]. intros [] s2 HΦ. cbn [map].
  assert (El : left_over (Datatypes.S rng) rng [] (map (fun x => [x]) ps) = ([], [])).
  { unfold left_over. replace (List.filter (fun x => bool_decide (x.1 ∈ [])) (imap pair (map (fun x => [x]) ps))) with (@nil (nat * list string)); [done|].
    symmetry. apply elem_of_nil_inv. intros x [_ Hx]%elem_of_List_filter. apply bool_decide_eq_true in Hx. by apply elem_of_nil in Hx. }
  rewrite El. destruct fuel; cbn [query_rounds app]; by wp_steps.
Qed.

End Cover.

(** ** Peers that answer in full *)

Definition page {T I} (n : nat) (l : list (Result T I)) : Results T I := MkResults (take n l) (Z.of_nat (length (drop n l))).

(** [hp_all]: what a peer finds for a query; [hp_left]: what it has left of the
    request with an id.  All peers asked answer, in some order. *)
Class HonestPeers (R T I : Type) `{!SearchPeers R T I} := {
  hp_all : R -> list Query -> list Sort -> string -> list (Result T I);
  hp_left : R -> string -> string -> list (Result T I);
  law_first (q : Search) n peers r : sr_fetch q = S n -> NoDup peers ->
    exists order r', order ≡ₚ peers /\
      sp_request (SearchRequest q) (map Some peers) r =
        (Val (map (fun p => (Some p, ResultsResponse (page (S n) (hp_all r (sr_query q) (sr_sort q) p)))) order), r') /\
      forall p, p ∈ peers -> hp_left r' (sr_id q) p = drop (S n) (hp_all r (sr_query q) (sr_sort q) p);
  law_page id n p r : hp_left r id p <> [] ->
    exists r', sp_request (CollectNextRequest id (S n)) [Some p] r = (Val [(Some p, ResultsResponse (page (S n) (hp_left r id p)))], r') /\
      forall p', hp_left r' id p' = if decide (p' = p) then drop (S n) (hp_left r id p) else hp_left r id p';
}.

Section Merge.
Context {Ix St L T I Q Qk R : Type} `{JsEnv, !JsEnvLaws, Document T, Document I, !DocumentSetup T I, Index Ix St (WithContext I), !IndexLaws Ix St (WithContext I),
  !IndexStore Ix (WithContext I), !IndexStoreLaws Ix St (WithContext I), Queue Q string, !QueueLaws Q string,
  Queue Qk IdPrimitive, !QueueLaws Qk IdPrimitive, !DocumentLog L, !DocumentSetupLaws T I, !DocumentLogLaws L T I,
  !SearchPeers R T I, !HonestPeers R T I}.
Abbreviation Searching := (Searching (Ix := Ix) (St := St) (L := L) (T := T) (I := I) (Q := Q) (Qk := Qk) (R := R)).
Abbreviation Buffered := (BufferedResult T I).
Context (m : IdPrimitive -> option T) (id : string) (qs : list Query) (sorts : list Sort) (K : jsval -> Prop).
Context (Hord : orders (sort_order sorts) K).
Context (X : string -> list (Result T I)).
Abbreviation Left := (string * (list Buffered * list (Result T I)))%type.
Implicit Types (s : Searching) (it : Iteration T I) (e : Left) (bs d t : list Left) (out : list IdPrimitive).

(** ** Results in buffers *)

Definition id_key (x : Result T I) : IdPrimitive := match result_id x with Val i => i | _ => PStr "" end.
Definition key_of (x : Result T I) : jsval := match result_indexed true x with Val j => j | _ => JUndef end.
Definition buffered (from : string) (x : Result T I) : Buffered := MkBuffered x from (id_key x) (key_of x).

(** A result that has an id and can be sorted. *)
Definition usable (use : bool) (x : Result T I) : Prop :=
  result_id x = Val (id_key x) /\ result_indexed use x = Val (key_of x) /\ IndexInterface.sortable sorts (key_of x) = true /\ K (key_of x).

(** [X]: what each peer has found; what peers send comes without what is indexed. *)
Context (HX : forall p y, y ∈ X p -> usable true y /\ (p <> self -> usable false y)).

Definition unseen (v : list IdPrimitive) (xs : list (Result T I)) : list (Result T I) :=
  List.filter (fun x => negb (Set_has v (id_key x))) xs.

Lemma unseen_elem v xs x : x ∈ unseen v xs <-> x ∈ xs /\ id_key x ∉ v.
Proof. unfold unseen. rewrite elem_of_List_filter, negb_true_iff, <- not_true_iff_false. by rewrite Set_has_spec. Qed.

Lemma unseen_add v i xs : i ∉ map id_key xs -> unseen (v ++ [i]) xs = unseen v xs.
Proof.
  unfold unseen. induction xs as [|x xs IH]; cbn; [done|]. intros [Hne Hi]%not_elem_of_cons. rewrite IH by done.
  replace (Set_has (v ++ [i]) (id_key x)) with (Set_has v (id_key x)); [done|]. apply bool_decide_ext. set_solver.
Qed.

(** The results of an answer that are new, and what has been seen afterwards. *)
Lemma buffer_unseen use from xs s :
  Forall (usable use) xs -> NoDup (map id_key xs) ->
  wp (buffer_results use from xs) (fun l s' => l = map (buffered from) (unseen (it_visited (se_it s)) xs) /\ exists v,
    s' = MkSearching (se_store s) (se_peers s) (set_visited v (se_it s)) (se_joins s) /\
    forall i, i ∈ v <-> i ∈ it_visited (se_it s) \/ i ∈ map id_key xs) s.
Proof.
  revert s. induction xs as [|x xs IH]; intros s Hc Hn; cbn [buffer_results map].
  - wp_steps. split; [done|]. exists (it_visited (se_it s)). split; [by destruct s as [? ? [] ?]|set_solver].
  - apply Forall_cons in Hc as [(Ei & Ej & _) Hc]. apply NoDup_cons in Hn as [Hx Hn]. wp_steps. eapply wp_lift; [exact Ei|]. wp_steps.
    unfold unseen. cbn [List.filter]. destruct (Set_has _ _) eqn:E; cbn [negb].
    + eapply wp_mono; [by apply IH|]. intros l s' (-> & v & -> & Hv). split; [done|]. exists v. split; [done|]. intros i. rewrite Hv.
      apply Set_has_spec in E. set_solver.
    + unfold changeIt. wp_steps. eapply wp_lift; [exact Ej|]. wp_steps. eapply wp_mono; [by apply IH|]. intros l s' (-> & v & -> & Hv). wp_steps.
      cbn [se_it it_visited set_visited] in *. unfold Set_add in *. rewrite E in *. split.
      * cbn [map]. f_equal. by rewrite unseen_add.
      * exists v. split; [done|]. intros i. rewrite Hv. set_solver.
Qed.

(** ** What the peers have left *)

(** Each peer with its buffer and what it has not sent yet. *)
Definition table (e : Left) : string * PeerBuffer T I := (e.1, MkPeerBuffer (Z.of_nat (length e.2.2)) e.2.1).
Definition buffers bs : list Buffered := concat (map (fun e => e.2.1) bs).
Definition unsent bs : list (Result T I) := concat (map (fun e => e.2.2) bs).

Definition source (store : Documents Ix St L T I Q Qk) (peers : R) (p : string) (l : list (Result T I)) : Prop :=
  if decide (p = self) then exists docs, own_left m store id docs /\ Forall2 (value_of m store) docs l else hp_left peers id p = l.

Record entry_ok (s : Searching) e : Prop := {
  eo_source : source (se_store s) (se_peers s) e.1 e.2.2;
  eo_buffer x : x ∈ e.2.1 -> exists y, y ∈ X e.1 /\ x = buffered e.1 y;
  eo_unsent y : y ∈ e.2.2 -> y ∈ X e.1;
  eo_nodup : NoDup (map br_id e.2.1 ++ map id_key e.2.2);
}.

(** [out]: the ids handed out. *)
Record merging s out bs : Prop := {
  mg_request : exists n, it_request (se_it s) = SearchRequest (MkSearch id qs sorts n);
  mg_plain : it_resolve (se_it s) = false;
  mg_failed : it_failed (se_it s) = None;
  mg_first : it_first (se_it s) = true;
  mg_table : it_peerBufferMap (se_it s) = map table bs;
  mg_peers : NoDup (map fst bs);
  mg_entries : Forall (entry_ok s) bs;
  mg_ids : NoDup (map br_id (buffers bs) ++ out);
  mg_visited i : i ∈ it_visited (se_it s) <-> i ∈ map br_id (buffers bs) ++ out;
}.

Lemma buffers_app d t : buffers (d ++ t) = buffers d ++ buffers t.
Proof. unfold buffers. by rewrite map_app, concat_app. Qed.
Lemma unsent_app d t : unsent (d ++ t) = unsent d ++ unsent t.
Proof. unfold unsent. by rewrite map_app, concat_app. Qed.

(** ** Tables with an entry in the middle *)

Lemma Map_get_mid {V} (d0 t0 : list (string * V)) k v : k ∉ map fst d0 -> Map_get (d0 ++ (k, v) :: t0) k = Some v.
Proof.
  induction d0 as [|[k' v'] d0 IH]; cbn; [by rewrite decide_True|]. intros [Hne Hk]%not_elem_of_cons. rewrite decide_False by congruence. by apply IH.
Qed.
Lemma Map_set_mid {V} (d0 t0 : list (string * V)) k v v' : k ∉ map fst d0 -> Map_set (d0 ++ (k, v) :: t0) k v' = d0 ++ (k, v') :: t0.
Proof.
  induction d0 as [|[k' v1] d0 IH]; cbn; [by rewrite decide_True|]. intros [Hne Hk]%not_elem_of_cons. rewrite decide_False by congruence. by rewrite IH.
Qed.
Lemma Map_delete_mid {V} (d0 t0 : list (string * V)) k v : k ∉ map fst d0 -> k ∉ map fst t0 -> Map_delete (d0 ++ (k, v) :: t0) k = d0 ++ t0.
Proof.
  intros Hd Ht. unfold Map_delete. rewrite List.filter_app. cbn. rewrite bool_decide_true by done. cbn. f_equal; by apply Map_delete_id, Map_get_None.
Qed.

Lemma keys_table bs : map fst (map table bs) = map fst bs.
Proof. rewrite map_map. by apply map_ext. Qed.

Lemma peers_mid d e t : NoDup (map fst (d ++ e :: t)) -> (e.1 ∉ map fst d) /\ (e.1 ∉ map fst t).
Proof.
  rewrite map_app. cbn. intros (_ & Hd & [Ht _]%NoDup_cons)%NoDup_app. split; [|done]. intros Hin. apply (Hd e.1 Hin). left.
Qed.

Lemma wp_onStore {A} (f : Method (Documents Ix St L T I Q Qk) A) (Φ : A -> Searching -> Prop) s :
  wp f (fun a store => Φ a (MkSearching store (se_peers s) (se_it s) (se_joins s))) (se_store s) -> wp (onStore f) Φ s.
Proof. unfold wp, onStore. by destruct (f (se_store s)) as [[a|?|] ?]. Qed.
Lemma wp_onPeers {A} (f : Method R A) a r' (Φ : A -> Searching -> Prop) s :
  f (se_peers s) = (Val a, r') -> Φ a (MkSearching (se_store s) r' (se_it s) (se_joins s)) -> wp (onPeers f) Φ s.
Proof. intros E HΦ. unfold wp, onPeers. by rewrite E. Qed.

Lemma ids_buffered p xs : map br_id (map (buffered p) xs) = map id_key xs.
Proof. rewrite map_map. by apply map_ext. Qed.

Lemma entry_kept s s' e : entry_ok s e -> (forall l, source (se_store s) (se_peers s) e.1 l -> source (se_store s') (se_peers s') e.1 l) -> entry_ok s' e.
Proof. intros [H1' H2' H3' H4'] Hs. split; auto. Qed.

Lemma merging_state s s' out bs : merging s out bs -> se_store s' = se_store s -> se_peers s' = se_peers s -> se_it s' = se_it s -> merging s' out bs.
Proof.
  intros [H1' H2' H3' H4' H5' H6' H7' H8' H9'] Es Ep Ei. split; rewrite ?Ei; try done. eapply Forall_impl; [exact H7'|]. intros e He.
  apply (entry_kept s); [done|]. by rewrite Es, Ep.
Qed.

(** ** A page comes in *)

(** The new results of a page go to the buffer of [p]. *)
Lemma merging_page s s' out d p b pg l t v :
  merging s out (d ++ (p, (b, pg ++ l)) :: t) ->
  se_it s' = set_buffers (map table (d ++ (p, (b ++ map (buffered p) (unseen (it_visited (se_it s)) pg), l)) :: t)) (set_visited v (se_it s)) ->
  (forall i, i ∈ v <-> i ∈ it_visited (se_it s) \/ i ∈ map id_key pg) ->
  (forall q l', q <> p -> source (se_store s) (se_peers s) q l' -> source (se_store s') (se_peers s') q l') ->
  source (se_store s') (se_peers s') p l ->
  merging s' out (d ++ (p, (b ++ map (buffered p) (unseen (it_visited (se_it s)) pg), l)) :: t).
Proof.
  intros [H1' H2' H3' H4' H5' H6' H7' H8' H9'] Eit Hv Hoth Hsrc. set (new := unseen _ pg) in *. destruct (peers_mid _ _ _ H6') as [Hpd Hpt]. cbn [fst] in *.
  rewrite Forall_app, Forall_cons in H7'. destruct H7' as (Hed & [Es Eb Eu En] & Het). cbn [fst snd] in *.
  assert (Hnew : NoDup (map id_key new) /\ forall i, i ∈ map id_key new -> i ∉ it_visited (se_it s)).
  { rewrite map_app in En. apply NoDup_app in En as (_ & _ & (En & _)%NoDup_app). split; [by apply NoDup_map_filter|].
    intros i (y & -> & [_ Hy]%unseen_elem)%list_elem_of_fmap. done. }
  split; rewrite ?Eit; try done.
  - by rewrite map_app in *.
  - rewrite Forall_app, Forall_cons. split_and!.
    + rewrite Forall_forall in Hed |- *. intros e He. apply (entry_kept s); [by apply Hed|]. intros l'. apply Hoth. intros E. apply Hpd. rewrite <- E. by apply list_elem_of_fmap_2.
    + split; cbn [fst snd]; [done| |set_solver|].
      * intros x [Hx|(y & -> & [Hy _]%unseen_elem)%list_elem_of_fmap]%elem_of_app; [by apply Eb|]. exists y. split; [|done]. apply Eu. set_solver.
      * rewrite map_app, ids_buffered. rewrite map_app in En. apply NoDup_app in En as (En1 & En2 & (En3 & En4 & En5)%NoDup_app).
        assert (Hsub : forall i, i ∈ map id_key new -> i ∈ map id_key pg) by (intros i (y & -> & [Hy _]%unseen_elem)%list_elem_of_fmap; by apply list_elem_of_fmap_2).
        apply NoDup_app. split; [apply NoDup_app; split; [done|]; split; [|apply Hnew]|].
        -- intros i Hi Hi'. apply (En2 i Hi). apply elem_of_app. left. by apply Hsub.
        -- split; [|done]. intros i [Hi|Hi]%elem_of_app Hl; [apply (En2 i Hi); set_solver|]. by apply (En4 i); [apply Hsub|].
    + rewrite Forall_forall in Het |- *. intros e He. apply (entry_kept s); [by apply Het|]. intros l'. apply Hoth. intros E. apply Hpt. rewrite <- E. by apply list_elem_of_fmap_2.
  - assert (E : map br_id (buffers (d ++ (p, (b ++ map (buffered p) new, l)) :: t)) ++ out ≡ₚ map id_key new ++ map br_id (buffers (d ++ (p, (b, pg ++ l)) :: t)) ++ out).
    { rewrite !buffers_app. unfold buffers at 2 4. cbn. rewrite !map_app, ids_buffered. solve_Permutation. }
    rewrite E. apply NoDup_app. split; [apply Hnew|]. split; [|done]. intros i Hi Hi'. apply (proj2 Hnew i Hi). by apply H9'.
  - intros i. assert (E : map br_id (buffers (d ++ (p, (b ++ map (buffered p) new, l)) :: t)) ++ out ≡ₚ map id_key new ++ map br_id (buffers (d ++ (p, (b, pg ++ l)) :: t)) ++ out).
    { rewrite !buffers_app. unfold buffers at 2 4. cbn. rewrite !map_app, ids_buffered. solve_Permutation. }
    rewrite E, elem_of_app, <- H9'. cbn. rewrite Hv. split.
    + intros [Hi|Hi]; [by right|]. apply list_elem_of_fmap in Hi as (y & -> & Hy). destruct (decide (id_key y ∈ it_visited (se_it s))); [by right|].
      left. apply list_elem_of_fmap_2. by apply unseen_elem.
    + intros [(y & -> & [Hy _]%unseen_elem)%list_elem_of_fmap|Hi]; [right; by apply list_elem_of_fmap_2|by left].
Qed.

(** ** Fetching from one peer *)

(** What a request for [n] results does to an entry; [v] has been seen after it. *)
Record advanced (n : nat) (v : list IdPrimitive) e e' (pg : list (Result T I)) (new : list Buffered) : Prop := {
  ad_peer : e'.1 = e.1;
  ad_page : e.2.2 = pg ++ e'.2.2;
  ad_buffer : e'.2.1 = e.2.1 ++ new;
  ad_new : (length new <= length pg)%nat;
  ad_seen y : y ∈ pg -> id_key y ∈ v;
  ad_enough : e'.2.2 = [] \/ (n <= length e.2.1 + length pg)%nat;
  ad_some : e.2.2 = [] \/ (n <= length e.2.1)%nat \/ pg <> [];
  ad_from x : x ∈ new -> exists y, y ∈ pg /\ x = buffered e.1 y;
}.

(** What a round of requests does to all entries: a peer that has nothing any
    more may be forgotten. *)
Inductive fetches (n : nat) (v : list IdPrimitive) : list Left -> list Left -> Prop :=
| fetches_nil : fetches n v [] []
| fetches_gone p t t' : fetches n v t t' -> fetches n v ((p, ([], [])) :: t) t'
| fetches_cons e e' t t' pg new : advanced n v e e' pg new -> fetches n v t t' -> fetches n v (e :: t) (e' :: t').

Lemma advanced_mono n v v' e e' pg new : v ⊆ v' -> advanced n v e e' pg new -> advanced n v' e e' pg new.
Proof. intros Hv [? ? ? ? Hs ? ? ?]. split; auto. Qed.
Lemma fetches_mono n v v' t t' : v ⊆ v' -> fetches n v t t' -> fetches n v' t t'.
Proof. intros Hv. induction 1; econstructor; [done|by eapply advanced_mono|done]. Qed.
Lemma fetches_app n v t1 t1' t2 t2' : fetches n v t1 t1' -> fetches n v t2 t2' -> fetches n v (t1 ++ t2) (t1' ++ t2').
Proof. induction 1; intros H'; cbn; [done|constructor; auto|econstructor; [done|auto]]. Qed.

Lemma advanced_same n v e : e.2.2 = [] \/ (n <= length e.2.1)%nat -> advanced n v e e [] [].
Proof. intros He. split; cbn; rewrite ?app_nil_r; try done; [by intros y ?%elem_of_nil|destruct He; [by left|right; lia]|destruct He; auto|by intros x ?%elem_of_nil]. Qed.

(** The new ones of a page come from it. *)
Lemma unseen_from p v pg x : x ∈ map (buffered p) (unseen v pg) -> exists y, y ∈ pg /\ x = buffered p y.
Proof. intros (y & -> & [Hy _]%unseen_elem)%list_elem_of_fmap. by exists y. Qed.

Lemma take_page_ok use s out d p b l t n :
  it_peerBufferMap (se_it s) = map table (d ++ (p, (b, l)) :: t) -> p ∉ map fst d -> l <> [] ->
  Forall (usable use) (take (S n) l) -> NoDup (map id_key (take (S n) l)) ->
  (forall s' v, se_store s' = se_store s -> se_peers s' = se_peers s ->
     se_it s' = set_buffers (map table (d ++ (p, (b ++ map (buffered p) (unseen (it_visited (se_it s)) (take (S n) l)), drop (S n) l)) :: t)) (set_visited v (se_it s)) ->
     (forall i, i ∈ v <-> i ∈ it_visited (se_it s) \/ i ∈ map id_key (take (S n) l)) ->
     merging s' out (d ++ (p, (b ++ map (buffered p) (unseen (it_visited (se_it s)) (take (S n) l)), drop (S n) l)) :: t)) ->
  wp (take_page use p p (page (S n) l)) (fun _ s' => exists e' new, advanced (S n + length b) (it_visited (se_it s')) (p, (b, l)) e' (take (S n) l) new /\
    merging s' out (d ++ e' :: t) /\ it_visited (se_it s) ⊆ it_visited (se_it s') /\ it_options (se_it s') = it_options (se_it s)) s.
Proof.
  intros Htab Hp Hne Hc Hn Hmg. unfold take_page. cbn [rs_results page rs_kept].
  assert (Hd : p ∉ map fst (map table d)) by by rewrite keys_table.
  assert (Hget : forall y t', Map_get (map table (d ++ (p, y) :: t')) p = Some (table (p, y)).2).
  { intros y t'. rewrite map_app. cbn [map]. change (table (p, y)) with (p, (table (p, y)).2) at 1. by apply Map_get_mid. }
  assert (Hset : forall y z t', Map_set (map table (d ++ (p, y) :: t')) p (table (p, z)).2 = map table (d ++ (p, z) :: t')).
  { intros y z t'. rewrite !map_app. cbn [map]. change (table (p, y)) with (p, (table (p, y)).2) at 1. by apply Map_set_mid. }
  destruct (take (S n) l) as [|y0 ys0] eqn:Et; [by destruct l|]. rewrite <- Et in *.
  wp_steps. unfold buffer_of. rewrite Htab, Hget. cbn [table fst snd pb_buffer].
  unfold changeIt. wp_steps. cbn [se_it it_peerBufferMap set_buffers se_store se_peers se_joins]. rewrite Htab.
  assert (Ekept : forall c, MkPeerBuffer (Z.of_nat (length (drop (S n) l))) c = (table (p, (c, drop (S n) l))).2) by done.
  eapply wp_mono; [apply buffer_unseen; [exact Hc|exact Hn]|]. intros l1 s1 (-> & v & -> & Hv). wp_steps. cbn [se_it it_peerBufferMap it_visited set_buffers set_visited se_store se_peers se_joins] in *.
  rewrite !Ekept, !Hset. eexists (p, (b ++ map (buffered p) (unseen (it_visited (se_it s)) (take (S n) l)), drop (S n) l)), _. split_and!.
  - split; cbn [fst snd]; [done|by rewrite take_drop|done| | | | |exact (unseen_from _ _ _)].
    + rewrite length_map. apply filter_length_le.
    + intros y Hy. apply Hv. right. by apply list_elem_of_fmap_2.
    + destruct (decide (S n < length l)%nat); [right; rewrite length_take; lia|left; apply drop_ge; lia].
    + right. right. rewrite Et. done.
  - eapply Hmg; [done|done|done|exact Hv].
  - intros i Hi. apply Hv. by left.
  - done.
Qed.

Lemma entry_mid s out d e t : merging s out (d ++ e :: t) -> entry_ok s e /\ (e.1 ∉ map fst d) /\ (e.1 ∉ map fst t).
Proof.
  intros Hm. pose proof (mg_entries _ _ _ Hm) as He. rewrite Forall_app, Forall_cons in He. split; [apply He|]. apply peers_mid, (mg_peers _ _ _ Hm).
Qed.

Lemma usable_left s e use : entry_ok s e -> use = bool_decide (e.1 = self) -> Forall (usable use) e.2.2.
Proof.
  intros He ->. apply Forall_forall. intros y Hy. destruct (HX e.1 y) as [H1' H2']; [by apply (eo_unsent _ _ He)|]. case_bool_decide; auto.
Qed.

Lemma left_ids s e k : entry_ok s e -> NoDup (map id_key (take k e.2.2)).
Proof. intros He. rewrite <- firstn_map. eapply sublist_NoDup; [|apply sublist_take]. pose proof (eo_nodup _ _ He) as Hn. by apply NoDup_app in Hn as (_ & _ & ?). Qed.

(** A page that has come in full from [p]. *)
Lemma page_taken s0 s out d p b l t n :
  merging s0 out (d ++ (p, (b, l)) :: t) -> se_it s = se_it s0 -> l <> [] ->
  (forall q l', q <> p -> source (se_store s0) (se_peers s0) q l' -> source (se_store s) (se_peers s) q l') ->
  source (se_store s) (se_peers s) p (drop (S n) l) ->
  wp (take_page (bool_decide (p = self)) p p (page (S n) l)) (fun _ s' => exists e' new,
    advanced (S n + length b) (it_visited (se_it s')) (p, (b, l)) e' (take (S n) l) new /\
    merging s' out (d ++ e' :: t) /\ it_visited (se_it s0) ⊆ it_visited (se_it s') /\ it_options (se_it s') = it_options (se_it s0)) s.
Proof.
  intros Hm Eit Hne Hoth Hsrc. destruct (entry_mid _ _ _ _ _ Hm) as (He & Hpd & _). cbn [fst] in Hpd. rewrite <- Eit. apply take_page_ok.
  - rewrite Eit. apply (mg_table _ _ _ Hm).
  - done.
  - done.
  - apply Forall_take. by apply (usable_left s0 (p, (b, l))).
  - by apply (left_ids s0 (p, (b, l))).
  - intros s' v Es Ep Ei Hv. rewrite Eit in *. apply (merging_page s0 s' out d p b (take (S n) l) (drop (S n) l) t v); try done.
    + by rewrite take_drop.
    + by rewrite Es, Ep.
    + by rewrite Es, Ep.
Qed.

Lemma value_det (store : Documents Ix St L T I Q Qk) docs xs ys :
  Forall2 (value_of m store) docs xs -> Forall2 (value_of m store) docs ys -> xs = ys.
Proof.
  intros Hx. revert ys. induction Hx as [|r x docs xs Hr Hx IH]; intros ys Hy; inversion Hy as [|? y ? ys' Hr' Hy' E1 E2]; [done|subst]. f_equal; [|by apply IH].
  destruct Hr as (_ & p & v & Hp & Hv & ->), Hr' as (_ & p' & v' & Hp' & Hv' & ->). congruence.
Qed.

Definition collected s out d p b l t n z s' : Prop := exists e' new,
  advanced (S n + length b) (it_visited (se_it s')) (p, (b, l)) e' (take (S n) l) new /\ z = Z.of_nat (length e'.2.2) /\
  merging s' out (d ++ e' :: t) /\ it_visited (se_it s) ⊆ it_visited (se_it s').

(** What the own index has sent, and what it has left. *)
Lemma own_source (store store' : Documents Ix St L T I Q Qk) docs l n rs :
  kept m store store' -> Forall2 (value_of m store) docs l -> Forall2 (value_of m store') (take (S n) docs) rs ->
  MkResults rs (Z.of_nat (length (drop (S n) docs))) = page (S n) l /\ Forall2 (value_of m store') (drop (S n) docs) (drop (S n) l).
Proof.
  intros [_ Hk] Hf Hrs. assert (Hf' : Forall2 (value_of m store') docs l) by (eapply Forall2_impl; [exact Hf|]; intros r x; by apply value_looked).
  split; [|by apply Forall2_drop]. rewrite (value_det store' _ _ _ Hrs (Forall2_take _ _ _ (S n) Hf')). unfold page. repeat f_equal.
  rewrite !length_drop. by rewrite (Forall2_length _ _ _ Hf).
Qed.

Lemma collect_own_ok now s out d b l t n :
  merging s out (d ++ (self, (b, l)) :: t) -> l <> [] ->
  wp (collect_own now (CollectNextRequest id (S n)) self) (collected s out d self b l t n) s.
Proof.
  intros Hm Hne. destruct (entry_mid _ _ _ _ _ Hm) as (He & _ & _). pose proof (eo_source _ _ He) as Hsrc. cbn [fst snd] in Hsrc.
  unfold source in Hsrc. rewrite decide_True in Hsrc by done. destruct Hsrc as (docs & Hown & Hf). pose proof (Forall2_length _ _ _ Hf) as Elen.
  assert (Hdocs : docs <> []) by (intros E; rewrite E in Elen; by destruct l). unfold collect_own. wp_steps. apply wp_onStore.
  eapply wp_mono; [apply (own_next now m); [exact Hown|done]|]. intros x d' (Hk & Hown' & rs & Hrs & ->). cbn beta. wp_steps.
  destruct (own_source _ _ _ _ _ _ Hk Hf Hrs) as [-> Hf']. unfold or_give_up. wp_steps.
  replace true with (bool_decide (self = self)) by by rewrite bool_decide_true.
  eapply wp_mono; [apply (page_taken s _ out d self b l t n); [done|done|done| |]|].
  - intros q l' Hq Hs. unfold source in *. cbn. by rewrite decide_False in * by done.
  - unfold source. cbn. rewrite decide_True by done. by exists (drop (S n) docs).
  - intros u s' (e' & new & Ha & Hm' & Hv & _). wp_steps. exists e', new. split; [done|]. split; [|done]. cbn [rs_kept page]. repeat f_equal.
    pose proof (ad_page _ _ _ _ _ _ Ha) as Ep. cbn [fst snd] in Ep. rewrite <- (take_drop (S n) l) in Ep at 1. by apply app_inv_head in Ep.
Qed.

Lemma collect_remote_ok s out d p b l t n :
  merging s out (d ++ (p, (b, l)) :: t) -> l <> [] -> p <> self ->
  wp (collect_remote (CollectNextRequest id (S n)) p) (collected s out d p b l t n) s.
Proof.
  intros Hm Hne Hp. destruct (entry_mid _ _ _ _ _ Hm) as (He & _ & _). pose proof (eo_source _ _ He) as Hsrc. cbn [fst snd] in Hsrc.
  unfold source in Hsrc. rewrite decide_False in Hsrc by done.
  destruct (law_page id n p (se_peers s)) as (r' & Er & Hr'); [by rewrite Hsrc|]. rewrite Hsrc in *. unfold collect_remote. wp_steps. eapply wp_onPeers; [exact Er|]. wp_steps.
  cbn [introduceEntries]. wp_steps. set (s1 := MkSearching _ _ _ _).
  assert (Hmain : forall s2, se_store s2 = se_store s1 -> se_peers s2 = se_peers s1 -> se_it s2 = se_it s1 ->
    wp (take_page false p p (page (S n) l)) (fun _ s' => collected s out d p b l t n (rs_kept (page (S n) l) + 0) s') s2).
  { intros s2 Es Ep Ei. replace false with (bool_decide (p = self)) by by rewrite bool_decide_false.
    eapply wp_mono; [eapply (page_taken s s2 out d p b l t n); [done|by rewrite Ei|done| |]|].
    - intros q l' Hq Hs. unfold source in *. rewrite Es, Ep. cbn. case_decide; [done|]. rewrite Hr'. by rewrite decide_False.
    - unfold source. rewrite Es, Ep. cbn. by rewrite decide_False, Hr', decide_True by done.
    - intros u s' (e' & new & Ha & Hm' & Hv & _). exists e', new. split; [done|]. split; [|done]. cbn [rs_kept page]. rewrite Z.add_0_r. repeat f_equal.
      pose proof (ad_page _ _ _ _ _ _ Ha) as Epg. cbn [fst snd] in Epg. rewrite <- (take_drop (S n) l) in Epg at 1. by apply app_inv_head in Epg. }
  destruct (so_replicate _); wp_steps; unfold or_give_up; cbn [allM fst snd]; wp_steps;
    (eapply wp_mono; [by apply Hmain|]; intros u s' Hs'; wp_steps; cbn [foldr fst snd]; exact Hs').
Qed.

Lemma buffer_mid s out d p b l t : merging s out (d ++ (p, (b, l)) :: t) -> buffer_of p s = Some (MkPeerBuffer (Z.of_nat (length l)) b).
Proof.
  intros Hm. unfold buffer_of. rewrite (mg_table _ _ _ Hm), map_app. cbn [map]. unfold table at 2. cbn [fst snd].
  apply Map_get_mid. rewrite keys_table. apply (entry_mid _ _ _ _ _ Hm).
Qed.

(** A peer that has nothing any more is forgotten. *)
Lemma delete_mid s out d p t : merging s out (d ++ (p, ([], [])) :: t) ->
  wp (delete_if_empty p) (fun _ s' => merging s' out (d ++ t) /\ it_visited (se_it s') = it_visited (se_it s)) s.
Proof.
  intros Hm. unfold delete_if_empty. wp_steps. rewrite (buffer_mid _ _ _ _ _ _ _ Hm). cbn [pb_buffer]. unfold delete_buffer, changeIt. wp_steps.
  destruct (entry_mid _ _ _ _ _ Hm) as (_ & Hd & Ht). cbn [fst] in *. split; [|done]. destruct Hm as [H1' H2' H3' H4' H5' H6' H7' H8' H9'].
  assert (Eb : buffers (d ++ (p, ([], [])) :: t) = buffers (d ++ t)) by (rewrite !buffers_app; done).
  split; cbn [se_it set_buffers it_request it_resolve it_failed it_first it_peerBufferMap it_visited]; try done.
  - rewrite H5', map_app. cbn [map]. change (table (p, ([], []))) with (p, (table (p, ([], []))).2). rewrite (Map_delete_mid (map table d) (map table t)) by by rewrite keys_table.
    by rewrite map_app.
  - rewrite map_app in *. cbn in H6'. apply NoDup_app in H6' as (? & Hx & [_ ?]%NoDup_cons). apply NoDup_app. split; [done|]. split; [|done].
    intros q Hq Hq'. apply (Hx q Hq). by right.
  - rewrite Forall_app, Forall_cons in H7'. destruct H7' as (Hed & _ & Het). apply Forall_app. split; (eapply Forall_impl; [eassumption|]; intros e He; by apply (entry_kept s)).
  - by rewrite <- Eb.
  - by rewrite <- Eb.
Qed.

Lemma collect_peer_ok now n s out d p b l t : merging s out (d ++ (p, (b, l)) :: t) ->
  wp (collect_peer now n p) (fun z s' => exists es, fetches n (it_visited (se_it s')) [(p, (b, l))] es /\ z = Z.of_nat (length (unsent es)) /\
    merging s' out (d ++ es ++ t) /\ it_visited (se_it s) ⊆ it_visited (se_it s')) s.
Proof.
  intros Hm. unfold collect_peer. wp_steps. rewrite (buffer_mid _ _ _ _ _ _ _ Hm). cbn [pb_buffer pb_kept].
  destruct (mg_request _ _ _ Hm) as [f Ereq]. rewrite Ereq. cbn [idString sr_id].
  assert (Hsame : l = [] \/ (n <= length b)%nat -> exists es, fetches n (it_visited (se_it s)) [(p, (b, l))] es /\ Z.of_nat (length l) = Z.of_nat (length (unsent es)) /\
    merging s out (d ++ es ++ t) /\ it_visited (se_it s) ⊆ it_visited (se_it s)).
  { intros Hn. exists [(p, (b, l))]. split; [econstructor; [by apply advanced_same|constructor]|]. split; [|done]. unfold unsent. cbn. by rewrite app_nil_r. }
  destruct (Nat.ltb_spec (length b) n) as [Hlt|Hge]; [|wp_steps; apply Hsame; by right].
  destruct l as [|x l].
  - replace (Z.of_nat (length (@nil (Result T I))) =? 0) with true by done. wp_steps. destruct b as [|y b].
    + eapply wp_mono; [by apply delete_mid|]. intros u s' [Hs' Ev]. wp_steps. exists []. rewrite Ev. split; [repeat constructor|done].
    + unfold delete_if_empty. wp_steps. rewrite (buffer_mid _ _ _ _ _ _ _ Hm). cbn [pb_buffer]. wp_steps. apply Hsame. by left.
  - rewrite (proj2 (Z.eqb_neq _ 0)) by (cbn; lia). set (l0 := x :: l) in *. replace (n - length b)%nat with (S (n - length b - 1)) by lia.
    assert (Hc : forall z s', collected s out d p b l0 t (n - length b - 1) z s' -> exists es, fetches n (it_visited (se_it s')) [(p, (b, l0))] es /\
      z = Z.of_nat (length (unsent es)) /\ merging s' out (d ++ es ++ t) /\ it_visited (se_it s) ⊆ it_visited (se_it s')).
    { intros z s' (e' & new & Ha & -> & Hm' & Hv). replace (S (n - length b - 1) + length b)%nat with n in Ha by lia. exists [e'].
      split; [econstructor; [exact Ha|constructor]|]. split; [|done]. unfold unsent. cbn. by rewrite app_nil_r. }
    case_bool_decide as Hp.
    + subst p. eapply wp_mono; [by apply (collect_own_ok now s out d b l0 t)|]. exact Hc.
    + eapply wp_mono; [by apply (collect_remote_ok s out d p b l0 t)|]. exact Hc.
Qed.

Lemma collect_peers_ok now n s out d t : merging s out (d ++ t) ->
  wp (collect_peers now n (map fst t)) (fun z s' => exists t', fetches n (it_visited (se_it s')) t t' /\ z = Z.of_nat (length (unsent t')) /\
    merging s' out (d ++ t') /\ it_visited (se_it s) ⊆ it_visited (se_it s')) s.
Proof.
  revert s d. induction t as [|[p [b l]] t IH]; intros s d Hm; cbn [map collect_peers]; wp_steps; [exists []; by split_and!; [apply fetches_nil| | |]|].
  eapply wp_mono; [by apply collect_peer_ok|]. intros z s1 (es & Hf & -> & Hm1 & Hv1). wp_steps. rewrite app_assoc in Hm1.
  eapply wp_mono; [by apply IH|]. intros z s2 (t' & Hf2 & -> & Hm2 & Hv2). wp_steps. eapply wp_lift; [done|]. rewrite <- app_assoc in Hm2.
  exists (es ++ t'). split_and!; [|rewrite unsent_app, length_app; lia|done|by etrans].
  change ((p, (b, l)) :: t) with ([(p, (b, l))] ++ t). apply fetches_app; [by eapply fetches_mono|done].
Qed.

(** ** The first page of everybody *)

Context (HXn : forall p, NoDup (map id_key (X p))).

(** What a peer has before it is asked. *)
Definition unasked (p : string) : Left := (p, ([], X p)).

(** The first page of [p] gives it a buffer. *)
Lemma merging_add s s' out bs p n v :
  merging s out bs -> p ∉ map fst bs ->
  se_it s' = set_buffers (map table (bs ++ [(p, (map (buffered p) (unseen (it_visited (se_it s)) (take n (X p))), drop n (X p)))])) (set_visited v (se_it s)) ->
  (forall i, i ∈ v <-> i ∈ it_visited (se_it s) \/ i ∈ map id_key (take n (X p))) ->
  se_store s' = se_store s -> se_peers s' = se_peers s -> source (se_store s) (se_peers s) p (drop n (X p)) ->
  merging s' out (bs ++ [(p, (map (buffered p) (unseen (it_visited (se_it s)) (take n (X p))), drop n (X p)))]).
Proof.
  intros [H1' H2' H3' H4' H5' H6' H7' H8' H9'] Hp Eit Hv Est Epe Hsrc. set (new := unseen _ _) in *.
  pose proof (HXn p) as Hn. rewrite <- (take_drop n (X p)), map_app in Hn. apply NoDup_app in Hn as (Hn1 & Hn2 & Hn3).
  assert (E : map br_id (buffers (bs ++ [(p, (map (buffered p) new, drop n (X p)))])) ++ out ≡ₚ map id_key new ++ map br_id (buffers bs) ++ out).
  { rewrite buffers_app. unfold buffers at 2. cbn. rewrite app_nil_r, map_app, ids_buffered. solve_Permutation. }
  assert (Hnew : NoDup (map id_key new) /\ forall i, i ∈ map id_key new -> (i ∉ it_visited (se_it s)) /\ i ∈ map id_key (take n (X p))).
  { split; [by apply NoDup_map_filter|]. intros i (y & -> & [Hy Hy']%unseen_elem)%list_elem_of_fmap. split; [done|by apply list_elem_of_fmap_2]. }
  split; rewrite ?Eit; try done.
  - rewrite map_app. apply NoDup_app. split; [done|]. split; [|cbn; constructor; [by apply not_elem_of_nil|constructor]]. intros q Hq ->%list_elem_of_singleton. done.
  - apply Forall_app. split; [eapply Forall_impl; [exact H7'|]; intros e He; by apply (entry_kept s); [|rewrite Est, Epe]|constructor; [|done]].
    split; cbn [fst snd].
    + by rewrite Est, Epe.
    + intros x (y & -> & [Hy _]%unseen_elem)%list_elem_of_fmap. exists y. split; [|done]. by eapply subseteq_take.
    + intros y Hy. by eapply subseteq_drop.
    + rewrite ids_buffered. apply NoDup_app. split; [apply Hnew|]. split; [|done]. intros i Hi Hi'. apply (Hn2 i); [by apply Hnew|done].
  - rewrite E. apply NoDup_app. split; [apply Hnew|]. split; [|done]. intros i Hi Hi'. apply (proj1 (proj2 Hnew i Hi)). by apply H9'.
  - intros i. rewrite E, elem_of_app, <- H9'. cbn. rewrite Hv. split.
    + intros [Hi|Hi]; [by right|]. destruct (decide (i ∈ it_visited (se_it s))); [by right|].
      left. apply list_elem_of_fmap in Hi as (y & -> & Hy). apply list_elem_of_fmap_2. by apply unseen_elem.
    + intros [Hi|Hi]; [right; by apply Hnew|by left].
Qed.

(** [done] tells whether everything has been sent. *)
Definition starting s bs : Prop := merging s [] bs /\ it_isDone (se_it s) = Some (bool_decide (unsent bs = [])).

(** What a step of the first round leaves as it is. *)
Definition same_peers s s' : Prop := se_store s' = se_store s /\ se_peers s' = se_peers s /\ it_options (se_it s') = it_options (se_it s).

Lemma first_response_ok s bs p n :
  starting s bs -> p ∉ map fst bs -> source (se_store s) (se_peers s) p (drop (S n) (X p)) ->
  wp (first_response (page (S n) (X p)) (Some p)) (fun _ s' => exists es, fetches (S n) (it_visited (se_it s')) [unasked p] es /\
    starting s' (bs ++ es) /\ (forall q, q ∈ map fst es -> q = p) /\ it_visited (se_it s) ⊆ it_visited (se_it s') /\ same_peers s s') s.
Proof.
  intros (Hm & Hdone) Hp Hsrc. unfold first_response. cbn [rs_kept rs_results page]. unfold unasked.
  destruct (X p) as [|x0 xs0] eqn:Ex.
  { cbn. wp_steps. exists []. rewrite app_nil_r. by split_and!; [repeat constructor| |intros q ?%elem_of_nil| |]. }
  destruct (take (S n) (x0 :: xs0)) as [|y0 ys0] eqn:Et; [done|]. rewrite andb_false_r, <- Et. rewrite <- Ex in *.
  set (s1 := if 0 <? Z.of_nat (length (drop (S n) (X p))) then MkSearching (se_store s) (se_peers s) (set_done (Some false) (se_it s)) (se_joins s) else s).
  set (es := [(p, (map (buffered p) (unseen (it_visited (se_it s)) (take (S n) (X p))), drop (S n) (X p)))]).
  assert (Hs1 : merging s1 [] bs /\ it_visited (se_it s1) = it_visited (se_it s) /\ same_peers s s1 /\ it_peerBufferMap (se_it s1) = map table bs /\
    it_isDone (se_it s1) = Some (bool_decide (unsent (bs ++ es) = []))).
  { assert (Eu : unsent (bs ++ es) = unsent bs ++ drop (S n) (X p)) by (rewrite unsent_app; unfold unsent at 2; cbn; by rewrite app_nil_r).
    rewrite Eu. unfold s1. destruct (Z.ltb_spec 0 (Z.of_nat (length (drop (S n) (X p))))) as [Hlt|Hge].
    - split_and!; try done.
      + destruct Hm as [H1' H2' H3' H4' H5' H6' H7' H8' H9']. split; try done. eapply Forall_impl; [exact H7'|]. intros e He. by apply (entry_kept s).
      + apply (mg_table _ _ _ Hm).
      + cbn. rewrite bool_decide_eq_false_2; [done|]. intros [_ E]%app_eq_nil. rewrite E in Hlt. cbn in Hlt. lia.
    - split_and!; try done; [apply (mg_table _ _ _ Hm)|]. destruct (drop (S n) (X p)) as [|y l]; [by rewrite app_nil_r|cbn [length] in Hge; lia]. }
  assert (Hwhen : forall (Φ : unit -> Searching -> Prop), Φ tt s1 -> wp (whenM (0 <? Z.of_nat (length (drop (S n) (X p)))) (changeIt (set_done (Some false)))) Φ s).
  { intros Φ HΦ. unfold s1 in HΦ. by destruct (0 <? _). }
  clearbody s1. destruct Hs1 as (Hm1 & Ev & Hsame & Etab & Edone). wp_step. apply Hwhen. wp_steps. pose proof Hsame as (Est & Epe & Eop).
  eapply wp_mono; [apply buffer_unseen|].
  { apply Forall_take, Forall_forall. intros y Hy. by apply (HX p). }
  { rewrite <- firstn_map. eapply sublist_NoDup; [apply HXn|apply sublist_take]. }
  intros l s2 (-> & v & -> & Hv). rewrite Ev in *. unfold changeIt. wp_steps. exists es.
  assert (Etab2 : map table (bs ++ es) = Map_set (it_peerBufferMap (se_it s1)) p (table (p, (map (buffered p) (unseen (it_visited (se_it s)) (take (S n) (X p))), drop (S n) (X p)))).2).
  { rewrite Etab, map_app, Map_set_new; [done|]. apply Map_get_None. unfold Map_keys. by rewrite keys_table. }
  split_and!.
  - apply (fetches_cons _ _ _ _ [] [] (take (S n) (X p)) (map (buffered p) (unseen (it_visited (se_it s)) (take (S n) (X p))))); [|constructor].
    split; cbn [fst snd]; [done|by rewrite take_drop|done| | | | |exact (unseen_from _ _ _)].
    + rewrite length_map. apply filter_length_le.
    + intros y Hy. cbn. apply Hv. right. by apply list_elem_of_fmap_2.
    + destruct (decide (S n < length (X p))%nat); [right; cbn [length]; rewrite length_take; lia|left; apply drop_ge; lia].
    + right. right. rewrite Ex. by rewrite <- Ex, Et.
  - split; [|exact Edone]. unfold es. rewrite <- Ev. apply (merging_add s1 _ [] bs p (S n) v); cbn [se_it se_store se_peers]; rewrite ?Ev, ?Est, ?Epe; try done.
    cbn. fold es. by rewrite Etab2.
  - unfold es. cbn. intros q ->%list_elem_of_singleton. done.
  - cbn. intros i Hi. apply Hv. by left.
  - split_and!; [exact Est|exact Epe|exact Eop].
Qed.

Lemma same_peers_trans s1 s2 s3 : same_peers s1 s2 -> same_peers s2 s3 -> same_peers s1 s3.
Proof. intros (? & ? & ?) (? & ? & ?). split_and!; congruence. Qed.

Lemma starting_state s s' bs : starting s bs -> se_store s' = se_store s -> se_peers s' = se_peers s -> se_it s' = se_it s -> starting s' bs.
Proof. intros [Hm Hd] Es Ep Ei. split; [by apply (merging_state s)|by rewrite Ei]. Qed.

Lemma introduce_ok s bs order n :
  starting s bs -> NoDup order -> (forall p, p ∈ order -> p ∉ map fst bs) ->
  (forall p, p ∈ order -> source (se_store s) (se_peers s) p (drop (S n) (X p))) ->
  wp (introduceEntries first_response (map (fun p => (Some p, ResultsResponse (page (S n) (X p)))) order))
    (fun _ s' => exists es, fetches (S n) (it_visited (se_it s')) (map unasked order) es /\ starting s' (bs ++ es) /\
       it_visited (se_it s) ⊆ it_visited (se_it s') /\ same_peers s s') s.
Proof.
  revert s bs. induction order as [|p order IH]; intros s bs Hs Hn Hp Hsrc; cbn [map introduceEntries]; wp_steps.
  { exists []. rewrite app_nil_r. by split_and!; [constructor| | |]. }
  apply NoDup_cons in Hn as [Hpo Hn].
  assert (Hmain : forall s1, se_store s1 = se_store s -> se_peers s1 = se_peers s -> se_it s1 = se_it s ->
    wp (first_response (page (S n) (X p)) (Some p)) (fun _ s2 => wp (introduceEntries first_response (map (fun p => (Some p, ResultsResponse (page (S n) (X p)))) order))
      (fun _ s' => exists es, fetches (S n) (it_visited (se_it s')) (map unasked (p :: order)) es /\ starting s' (bs ++ es) /\
       it_visited (se_it s) ⊆ it_visited (se_it s') /\ same_peers s s') s2) s1).
  { intros s1 Es Ep Ei. eapply wp_mono; [apply (first_response_ok s1 bs p n)|].
    - by apply (starting_state s).
    - apply Hp. left.
    - rewrite Es, Ep. apply Hsrc. left.
    - intros u s2 (es & Hf & Hst & Hk & Hv & Hsm). rewrite Ei in Hv. assert (Hsm' : same_peers s s2) by (destruct Hsm as (? & ? & ?); split_and!; congruence).
      eapply wp_mono; [apply (IH s2 (bs ++ es)); [done|done| |]|].
      + intros q Hq. rewrite map_app, not_elem_of_app. split; [apply Hp; by right|]. intros ->%Hk. done.
      + intros q Hq. destruct Hsm' as (-> & -> & _). apply Hsrc. by right.
      + intros l s3 (es' & Hf' & Hst' & Hv' & Hsm2). exists (es ++ es'). rewrite app_assoc. split_and!; [|done|by etrans|by eapply same_peers_trans].
        change (map unasked (p :: order)) with ([unasked p] ++ map unasked order). apply fetches_app; [by eapply fetches_mono|done]. }
  destruct (so_replicate _); wp_steps; (eapply wp_mono; [by apply Hmain|]; intros u s2 H'; cbn beta in *; wp_steps; eapply wp_mono; [exact H'|]; intros l s3 H''; by wp_steps).
Qed.

(** ** A fresh iterator *)

Definition remote_peers s : list string :=
  if so_remote (it_options (se_it s)) then
    match sp_cover (se_peers s) with Some groups => List.filter (fun x => negb (bool_decide (x = self))) groups | None => [] end
  else [].

(** The own store can be searched, and has found [X self]. *)
Record own_ready (store : Documents Ix St L T I Q Qk) : Prop := {
  or_store : store_ok m store;
  or_ttl : cache_ttl (d_iterators store) = None;
  or_room : currentSize (d_iterators store) + 1 <= cache_max (d_iterators store);
  or_supported : supported (idx_contents (d_index store)) qs (Some sorts);
  or_found : Forall2 (value_of m store) (reference_results (idx_contents (d_index store)) qs (Some sorts)) (X self);
}.

Record fresh s : Prop := {
  fr_request : exists n, it_request (se_it s) = SearchRequest (MkSearch id qs sorts n);
  fr_plain : it_resolve (se_it s) = false;
  fr_failed : it_failed (se_it s) = None;
  fr_table : it_peerBufferMap (se_it s) = [];
  fr_visited : it_visited (se_it s) = [];
  fr_some : so_local (it_options (se_it s)) = true \/ so_remote (it_options (se_it s)) = true;
  fr_own : so_local (it_options (se_it s)) = true -> own_ready (se_store s);
  fr_cover groups : sp_cover (se_peers s) = Some groups -> NoDup groups;
  fr_remote p : p ∈ remote_peers s -> X p = hp_all (se_peers s) qs sorts p;
}.

(** Everybody that is asked. *)
Definition asked s (order : list string) : list string := (if so_local (it_options (se_it s)) then [self] else []) ++ order.

Lemma starting_nil s : fresh s -> it_first (se_it s) = true -> it_isDone (se_it s) = Some true -> starting s [].
Proof. intros [? ? ? ? Hv ? ? ? ?] Hf Hd. split; [|done]. split; rewrite ?Hv; try done; constructor. Qed.

(** Answers of the own store before the others are asked. *)
Lemma commence_own now s n :
  fresh s -> starting s [] -> so_local (it_options (se_it s)) = true ->
  it_request (se_it s) = SearchRequest (MkSearch id qs sorts (S n)) ->
  wp (results ⇠ onStore (processQuery now (it_request (se_it s)) self true None);;
      match rs_results results with [] => ret tt | _ => first_response results (Some self) end)
    (fun _ s' => exists es, fetches (S n) (it_visited (se_it s')) [unasked self] es /\ starting s' es /\
       (forall q, q ∈ map fst es -> q = self) /\ se_peers s' = se_peers s /\ it_options (se_it s') = it_options (se_it s)) s.
Proof.
  intros Hfr [Hm Hd] Hloc Hreq. destruct (fr_own _ Hfr Hloc) as [Hs Ht Hr Hsup Hf]. rewrite Hreq. wp_steps. apply wp_onStore.
  eapply wp_mono; [by apply (own_first now m)|]. intros x st' (Hk & Hown & rs & Hrs & ->). cbn beta.
  destruct (own_source _ _ _ _ _ _ Hk Hf Hrs) as [-> Hf']. set (s1 := MkSearching st' _ _ _).
  assert (Hst : starting s1 []).
  { split; [|done]. destruct Hm as [H1' H2' H3' H4' H5' H6' H7' H8' H9']. by split. }
  assert (Hsrc : source (se_store s1) (se_peers s1) self (drop (S n) (X self))).
  { unfold source. rewrite decide_True by done. by exists (drop (S n) (reference_results (idx_contents (d_index (se_store s))) qs (Some sorts))). }
  cbn [rs_results page]. destruct (take (S n) (X self)) as [|y0 ys0] eqn:Et.
  - wp_steps. exists []. assert (Ex : X self = []) by by destruct (X self). split_and!; [|done|by intros q ?%elem_of_nil|done|done].
    unfold unasked. rewrite Ex. repeat constructor.
  - eapply wp_mono; [apply (first_response_ok s1 [] self n Hst); [by apply not_elem_of_nil|done]|].
    intros u s2 (es & Hfe & Hst2 & Hq & _ & (_ & Ep & Eo)). exists es. split_and!; [done|done|done|by rewrite Ep|by rewrite Eo].
Qed.

Lemma own_left_queues (store : Documents Ix St L T I Q Qk) q docs : own_left m store id docs -> own_left m (set_queues store q) id docs.
Proof. intros [Hs Hr Hd Hi]. split; [by destruct Hs|done|done|done]. Qed.

Lemma merging_queue s out bs i :
  merging s out bs -> wp (onStore (clearResultsQueue i)) (fun _ s' => merging s' out bs /\ it_visited (se_it s') = it_visited (se_it s) /\
    it_isDone (se_it s') = it_isDone (se_it s)) s.
Proof.
  intros [H1' H2' H3' H4' H5' H6' H7' H8' H9']. apply wp_onStore. unfold clearResultsQueue, delete_queue. wp_steps. split; [|done].
  split; try done. eapply Forall_impl; [exact H7'|]. intros e He. apply (entry_kept s); [done|]. intros l Hl. unfold source in *. cbn.
  case_decide; [|done]. destruct Hl as (docs & Ho & Hv). exists docs. split; [by apply own_left_queues|done].
Qed.

(** Everybody is asked for a first page. *)
Lemma commence_ok now s n :
  fresh s -> starting s [] -> it_request (se_it s) = SearchRequest (MkSearch id qs sorts (S n)) ->
  wp (search_commence now (it_request (se_it s)) first_response) (fun _ s' => exists order bs, order ≡ₚ remote_peers s /\
    fetches (S n) (it_visited (se_it s')) (map unasked (asked s order)) bs /\ starting s' bs) s.
Proof.
  intros Hfr Hst1 Ereq. unfold search_commence. apply wp_bind, wp_gets. cbn beta. set (options := it_options (se_it s)) in *.
  assert (Esome : negb (so_local options) && negb (so_remote options) = false) by (destruct (fr_some _ Hfr) as [E|E]; unfold options; rewrite E; by rewrite ?andb_false_r). rewrite Esome.
  apply wp_bind, wp_when. cbn beta iota. apply wp_bind.
  assert (Hown : wp (whenM (so_local options) (results ⇠ onStore (processQuery now (it_request (se_it s)) self true None);;
      match rs_results results with [] => ret tt | _ => first_response results (Some self) end))
    (fun _ s' => exists es, fetches (S n) (it_visited (se_it s')) (map unasked (if so_local options then [self] else [])) es /\ starting s' es /\
       (forall q, q ∈ map fst es -> q = self) /\ se_peers s' = se_peers s /\ it_options (se_it s') = options) s).
  { destruct (so_local options) eqn:El; [by apply commence_own|]. wp_steps. exists []. split_and!; [constructor|done|by intros q ?%elem_of_nil|done|done]. }
  eapply wp_mono; [exact Hown|]. clear Hown.
  intros u s2 (es & Hf & Hst & Hq & Ep & Eo). wp_steps. rewrite Ep.
  assert (Hnone : remote_peers s = [] -> exists order bs, order ≡ₚ remote_peers s /\ fetches (S n) (it_visited (se_it s2)) (map unasked (asked s order)) bs /\ starting s2 bs).
  { intros Er. exists [], es. unfold asked. fold options. by rewrite Er, app_nil_r. }
  destruct (so_remote options) eqn:Erem; [|wp_steps; apply Hnone; unfold remote_peers; fold options; by rewrite Erem].
  destruct (sp_cover (se_peers s)) as [groups|] eqn:Ec; [|wp_steps; apply Hnone; unfold remote_peers; fold options; by rewrite Erem, Ec].
  assert (Ers : remote_peers s = List.filter (fun x => negb (bool_decide (x = self))) groups) by (unfold remote_peers; fold options; by rewrite Erem, Ec).
  wp_steps. apply queryAll_once; rewrite <- Ers; [intros Er; wp_steps; by apply Hnone|]. intros Hne.
  destruct (law_first (MkSearch id qs sorts (S n)) n (remote_peers s) (se_peers s2)) as (order & r' & Ho & Er & Hl); [done|rewrite Ers; apply NoDup_List_filter; by apply (fr_cover _ Hfr)|].
  cbn [sr_id sr_query sr_sort] in *. rewrite Ep in Er, Hl. rewrite Ereq. eapply wp_onPeers; [rewrite Ep; exact Er|].
  assert (EX : map (fun p => (Some p, ResultsResponse (page (S n) (hp_all (se_peers s) qs sorts p)))) order = map (fun p => (Some p, ResultsResponse (page (S n) (X p)))) order).
  { apply map_ext_in. intros p Hp%list_elem_of_In. rewrite Ho in Hp. by rewrite (fr_remote _ Hfr p Hp). }
  rewrite EX. set (s3 := MkSearching _ r' _ _). split.
  { rewrite map_map. cbn. by rewrite Ho. }
  assert (Hself : forall p, p ∈ order -> p <> self).
  { intros p Hp ->. rewrite Ho, Ers in Hp. apply elem_of_List_filter in Hp as [_ Hp]. by rewrite bool_decide_true in Hp. }
  assert (Hst3 : starting s3 es).
  { destruct Hst as [Hm Hd]. split; [|done]. destruct Hm as [H1' H2' H3' H4' H5' H6' H7' H8' H9']. split; try done. rewrite Forall_forall in H7' |- *.
    intros e He. apply (entry_kept s2); [by apply H7'|]. intros l. unfold source. rewrite decide_True by (by apply Hq, list_elem_of_fmap_2). by rewrite decide_True by (by apply Hq, list_elem_of_fmap_2). }
  wp_steps. eapply wp_mono; [apply (introduce_ok s3 es order n)|].
  - done.
  - rewrite Ho, Ers. apply NoDup_List_filter. by apply (fr_cover _ Hfr).
  - intros p Hp Hin. by apply (Hself p Hp), Hq.
  - intros p Hp. unfold source. rewrite decide_False by by apply Hself. cbn. rewrite Ho in Hp. rewrite Hl by done. by rewrite (fr_remote _ Hfr p Hp).
  - intros rs s4 (es' & Hf' & Hst' & Hv & _). wp_steps. exists order, (es ++ es'). split; [done|]. split; [|done].
    unfold asked. rewrite map_app. apply fetches_app; [by eapply fetches_mono|done].
Qed.

Lemma fetchFirst_ok now s n :
  fresh s -> it_first (se_it s) = true ->
  wp (fetchFirst now (S n)) (fun r s' => exists order bs, order ≡ₚ remote_peers s /\
    fetches (S n) (it_visited (se_it s')) (map unasked (asked s order)) bs /\ merging s' [] bs /\ r = Some (bool_decide (unsent bs = []))) s.
Proof.
  intros Hfr Hfirst. unfold fetchFirst, changeIt. wp_steps. cbn [se_it se_store se_peers se_joins set_done set_request it_request].
  destruct (fr_request _ Hfr) as [f Ereq]. rewrite Ereq. cbn [with_fetch sr_id sr_query sr_sort idString]. set (s1 := MkSearching _ _ _ _).
  assert (Hfr1 : fresh s1) by (destruct Hfr; split; try done; by exists (S n)).
  assert (Hst1 : starting s1 []) by by apply starting_nil.
  assert (Ereq1 : it_request (se_it s1) = SearchRequest (MkSearch id qs sorts (S n))) by done. rewrite <- Ereq1.
  eapply wp_mono; [by apply (commence_ok now s1 n)|]. intros u s2 (order & bs & Ho & Hf & Hm & Hd). wp_steps. rewrite Hd.
  case_bool_decide as Hu; cbn [not_done negb].
  - wp_steps. eapply wp_mono; [by apply merging_queue|]. intros u' s' (Hm' & Ev & _). wp_steps. exists order, bs. rewrite Ev. split_and!; [done|done|done|]. by rewrite bool_decide_true.
  - wp_steps. exists order, bs. split_and!; [done|done|done|]. by rewrite bool_decide_false.
Qed.

(** ** What is handed out, what is in buffers, and what is still to come *)

Implicit Types (hs : list (Result T I)) (ps : list string).

Definition kle (x y : Result T I) : Prop := sort_order sorts (key_of x) (key_of y) <= 0.
Definition found ps (x : Result T I) : Prop := exists p, p ∈ ps /\ x ∈ X p.

(** The peers agree on what documents are sorted by, which leaves no ties, and send
    them sorted. *)
Record agreeing : Prop := {
  ag_same ps x y : found ps x -> found ps y -> id_key x = id_key y -> key_of x = key_of y;
  ag_strict ps x y : found ps x -> found ps y -> kle x y -> kle y x -> id_key x = id_key y;
  ag_sorted p : StronglySorted kle (X p);
}.

#[local] Instance found_Proper : Proper ((≡ₚ) ==> (=) ==> iff) found.
Proof. intros l l' E x ? <-. unfold found. by setoid_rewrite E. Qed.

Lemma found_key ps x : found ps x -> K (key_of x) /\ IndexInterface.sortable sorts (key_of x) = true /\ result_id x = Val (id_key x).
Proof. intros (p & _ & Hx). destruct (HX p x Hx) as [(? & _ & ? & ?) _]. done. Qed.

Lemma kle_trans ps x y z : found ps x -> found ps y -> found ps z -> kle x y -> kle y z -> kle x z.
Proof. intros Hx%found_key Hy%found_key Hz%found_key. apply (ord_trans _ _ Hord); naive_solver. Qed.

Record entry_fine e : Prop := {
  ef_buffer x : x ∈ e.2.1 -> exists y, y ∈ X e.1 /\ x = buffered e.1 y;
  ef_unsent y : y ∈ e.2.2 -> y ∈ X e.1;
  ef_nodup : NoDup (map br_id e.2.1 ++ map id_key e.2.2);
}.

(** What is handed out is sorted, comes before the rest, and is not sent again. *)
Record ordered hs bs : Prop := {
  od_sorted : StronglySorted kle hs;
  od_after x y : x ∈ hs -> y ∈ map br_result (buffers bs) ++ unsent bs -> kle x y;
  od_new y : y ∈ unsent bs -> id_key y ∉ map id_key hs;
  od_left e : e ∈ bs -> StronglySorted kle e.2.2;
  od_entry e b y : e ∈ bs -> b ∈ e.2.1 -> y ∈ e.2.2 -> kle (br_result b) y;
}.

Record stage ps hs bs : Prop := {
  sg_peers : map fst bs ⊆ ps;
  sg_fine e : e ∈ bs -> entry_fine e;
  sg_from x : x ∈ hs -> found ps x;
  sg_all x : found ps x -> id_key x ∈ map id_key hs ++ map br_id (buffers bs) ++ map id_key (unsent bs);
  sg_ordered : agreeing -> ordered hs bs;
}.

Lemma in_buffers bs x : x ∈ buffers bs <-> exists e, e ∈ bs /\ x ∈ e.2.1.
Proof.
  unfold buffers. rewrite list_elem_of_In, in_concat. setoid_rewrite <- list_elem_of_In. setoid_rewrite list_elem_of_fmap. naive_solver.
Qed.
Lemma in_unsent bs y : y ∈ unsent bs <-> exists e, e ∈ bs /\ y ∈ e.2.2.
Proof.
  unfold unsent. rewrite list_elem_of_In, in_concat. setoid_rewrite <- list_elem_of_In. setoid_rewrite list_elem_of_fmap. naive_solver.
Qed.

Lemma stage_peer ps hs bs e : stage ps hs bs -> e ∈ bs -> e.1 ∈ ps.
Proof. intros Hs He. apply (sg_peers _ _ _ Hs). by apply list_elem_of_fmap_2. Qed.

Lemma stage_buffer ps hs bs x : stage ps hs bs -> x ∈ buffers bs ->
  found ps (br_result x) /\ br_id x = id_key (br_result x) /\ br_indexed x = key_of (br_result x).
Proof.
  intros Hs (e & He & Hx)%in_buffers. destruct (ef_buffer _ (sg_fine _ _ _ Hs e He) x Hx) as (y & Hy & ->). split; [|done].
  exists e.1. split; [by eapply stage_peer|done].
Qed.

Lemma stage_unsent ps hs bs y : stage ps hs bs -> y ∈ unsent bs -> found ps y.
Proof. intros Hs (e & He & Hy)%in_unsent. exists e.1. split; [by eapply stage_peer|]. by apply (ef_unsent _ (sg_fine _ _ _ Hs e He)). Qed.

Lemma stage_start ps : stage ps [] (map unasked ps).
Proof.
  split.
  - intros p (e & -> & (q & -> & Hq)%list_elem_of_fmap)%list_elem_of_fmap. done.
  - intros e (p & -> & Hp)%list_elem_of_fmap. split; cbn; [by intros x ?%elem_of_nil|done|apply HXn].
  - by intros x ?%elem_of_nil.
  - intros x (p & Hp & Hx). cbn. apply elem_of_app. right. apply list_elem_of_fmap_2, in_unsent. exists (unasked p). split; [by apply list_elem_of_fmap_2|done].
  - intros Hag. split; [constructor|by intros ? ? ?%elem_of_nil|intros ? _; apply not_elem_of_nil| |].
    + intros e (p & -> & Hp)%list_elem_of_fmap. apply (ag_sorted Hag).
    + intros e b y (p & -> & Hp)%list_elem_of_fmap. by intros ?%elem_of_nil.
Qed.

Lemma fetches_from n v bs bs' e' : fetches n v bs bs' -> e' ∈ bs' -> exists e pg new, e ∈ bs /\ advanced n v e e' pg new.
Proof.
  induction 1 as [|p t t' Hf IH|e e1 t t' pg new Ha Hf IH]; [by intros ?%elem_of_nil| |].
  - intros (e & pg & new & He & Ha)%IH. exists e, pg, new. split; [by right|done].
  - intros [->|He]%elem_of_cons; [exists e, pg, new; split; [left|done]|]. destruct (IH He) as (e2 & pg' & new' & He2 & Ha2). exists e2, pg', new'. split; [by right|done].
Qed.

Lemma fetches_to n v bs bs' e : fetches n v bs bs' -> e ∈ bs -> e.2 = ([], []) \/ exists e' pg new, e' ∈ bs' /\ advanced n v e e' pg new.
Proof.
  induction 1 as [|p t t' Hf IH|e1 e' t t' pg new Ha Hf IH]; [by intros ?%elem_of_nil| |].
  - intros [->|He]%elem_of_cons; [by left|by apply IH].
  - intros [->|He]%elem_of_cons; [right; exists e', pg, new; split; [left|done]|].
    destruct (IH He) as [|(e2 & pg' & new' & He2 & Ha2)]; [by left|right]. exists e2, pg', new'. split; [by right|done].
Qed.

Lemma advanced_buffer n v e e' pg new x : advanced n v e e' pg new -> x ∈ e'.2.1 -> x ∈ e.2.1 \/ exists y, y ∈ pg /\ x = buffered e.1 y.
Proof. intros Ha. rewrite (ad_buffer _ _ _ _ _ _ Ha). intros [Hx|Hx]%elem_of_app; [by left|right]. by apply (ad_from _ _ _ _ _ _ Ha). Qed.

Lemma fetches_unsent n v bs bs' y : fetches n v bs bs' -> y ∈ unsent bs' -> y ∈ unsent bs.
Proof.
  intros Hf (e' & He' & Hy)%in_unsent. destruct (fetches_from _ _ _ _ _ Hf He') as (e & pg & new & He & Ha). apply in_unsent. exists e. split; [done|].
  rewrite (ad_page _ _ _ _ _ _ Ha). apply elem_of_app. by right.
Qed.

Lemma fetches_result n v bs bs' z : fetches n v bs bs' -> z ∈ map br_result (buffers bs') ++ unsent bs' -> z ∈ map br_result (buffers bs) ++ unsent bs.
Proof.
  intros Hf [(x & -> & (e' & He' & Hx)%in_buffers)%list_elem_of_fmap|Hz]%elem_of_app; apply elem_of_app; [|right; by eapply fetches_unsent].
  destruct (fetches_from _ _ _ _ _ Hf He') as (e & pg & new & He & Ha). destruct (advanced_buffer _ _ _ _ _ _ _ Ha Hx) as [Hx'|(y & Hy & ->)].
  - left. apply list_elem_of_fmap_2, in_buffers. by exists e.
  - right. apply in_unsent. exists e. split; [done|]. rewrite (ad_page _ _ _ _ _ _ Ha). apply elem_of_app. by left.
Qed.

Lemma StronglySorted_parts {A} (Rl : A -> A -> Prop) (l1 l2 : list A) :
  StronglySorted Rl (l1 ++ l2) <-> StronglySorted Rl l1 /\ StronglySorted Rl l2 /\ forall x y, x ∈ l1 -> y ∈ l2 -> Rl x y.
Proof.
  induction l1 as [|z l1 IH]; cbn.
  - split; [|by intros (_ & ? & _)]. intros H'. split_and!; [constructor|done|by intros ? ? ?%elem_of_nil].
  - split.
    + intros [Hs Hz]%StronglySorted_inv. apply IH in Hs as (H1' & H2' & H3'). rewrite Forall_app in Hz. destruct Hz as [Hz1 Hz]. split_and!; [by constructor|done|].
      intros x y [->|Hx]%elem_of_cons Hy; [|by apply H3']. rewrite Forall_forall in Hz. by apply Hz.
    + intros ([H1' Hz]%StronglySorted_inv & H2' & H3'). constructor; [apply IH; split_and!; [done|done|]; intros; apply H3'; [by right|done]|].
      apply Forall_app. split; [done|]. apply Forall_forall. intros y Hy. apply H3'; [left|done].
Qed.

(** A round keeps it, where all that was asked for has been seen. *)
Lemma fetches_stage n ps hs bs bs' s :
  stage ps hs bs -> fetches n (it_visited (se_it s)) bs bs' -> merging s (map id_key hs) bs' -> stage ps hs bs'.
Proof.
  intros Hs Hf Hm. split.
  - intros p (e' & -> & He')%list_elem_of_fmap. destruct (fetches_from _ _ _ _ _ Hf He') as (e & pg & new & He & Ha). rewrite (ad_peer _ _ _ _ _ _ Ha). by eapply stage_peer.
  - intros e' He'. pose proof (mg_entries _ _ _ Hm) as H'. rewrite Forall_forall in H'. destruct (H' e' He') as [_ ? ? ?]. by split.
  - apply Hs.
  - intros x Hx. pose proof (sg_all _ _ _ Hs x Hx) as Hin. rewrite !elem_of_app in Hin |- *. destruct Hin as [Hin|[Hin|Hin]]; [by left| |].
    + apply list_elem_of_fmap in Hin as (b & -> & (e & He & Hb)%in_buffers). destruct (fetches_to _ _ _ _ _ Hf He) as [E|(e' & pg & new & He' & Ha)]; [rewrite E in Hb; by apply elem_of_nil in Hb|].
      right. left. apply list_elem_of_fmap_2, in_buffers. exists e'. split; [done|]. rewrite (ad_buffer _ _ _ _ _ _ Ha). apply elem_of_app. by left.
    + apply list_elem_of_fmap in Hin as (y & Ey & (e & He & Hy)%in_unsent). rewrite Ey in *. destruct (fetches_to _ _ _ _ _ Hf He) as [E|(e' & pg & new & He' & Ha)]; [rewrite E in Hy; by apply elem_of_nil in Hy|].
      rewrite (ad_page _ _ _ _ _ _ Ha) in Hy. apply elem_of_app in Hy as [Hy|Hy].
      * pose proof (ad_seen _ _ _ _ _ _ Ha y Hy) as Hv. apply (mg_visited _ _ _ Hm) in Hv. rewrite elem_of_app in Hv. destruct Hv; [right; by left|by left].
      * right. right. apply list_elem_of_fmap_2, in_unsent. by exists e'.
  - intros Hag. destruct (sg_ordered _ _ _ Hs Hag) as [Ho1 Ho2 Ho3 Ho4 Ho5]. split.
    + done.
    + intros x y Hx Hy. apply Ho2; [done|]. by eapply fetches_result.
    + intros y Hy. apply Ho3. by eapply fetches_unsent.
    + intros e' He'. destruct (fetches_from _ _ _ _ _ Hf He') as (e & pg & new & He & Ha). specialize (Ho4 e He). rewrite (ad_page _ _ _ _ _ _ Ha) in Ho4.
      apply StronglySorted_parts in Ho4. apply Ho4.
    + intros e' b y He' Hb Hy. destruct (fetches_from _ _ _ _ _ Hf He') as (e & pg & new & He & Ha).
      assert (Hye : y ∈ e.2.2) by (rewrite (ad_page _ _ _ _ _ _ Ha); apply elem_of_app; by right).
      destruct (advanced_buffer _ _ _ _ _ _ _ Ha Hb) as [Hb'|(y' & Hy' & ->)]; [by eapply Ho5|]. specialize (Ho4 e He). rewrite (ad_page _ _ _ _ _ _ Ha) in Ho4.
      apply StronglySorted_parts in Ho4 as (_ & _ & Ho4). by apply Ho4.
Qed.

(** Where a peer has more to send, [n] results that come before it are in buffers. *)
Definition ahead (n : nat) bs : Prop := forall y, y ∈ unsent bs ->
  exists zs, NoDup (map br_id zs) /\ zs ⊆ buffers bs /\ (n <= length zs)%nat /\ (forall z, z ∈ zs -> kle (br_result z) y) /\ id_key y ∉ map br_id zs.

Lemma pick {A B} (f : A -> B) (l : list A) ks : ks ⊆ map f l -> exists zs, zs ⊆ l /\ map f zs = ks.
Proof.
  induction ks as [|k ks IH]; intros Hk; [exists []; split; [by intros ? ?%elem_of_nil|done]|]. destruct IH as (zs & Hz & E); [intros k' Hk'; apply Hk; by right|].
  assert (Hin : k ∈ map f l) by (apply Hk; left). apply list_elem_of_fmap in Hin as (z & -> & Hzl). exists (z :: zs). split; [|cbn; by rewrite E].
  intros z' [->|Hz']%elem_of_cons; [done|by apply Hz].
Qed.

Lemma same_key_l ps x y z : agreeing -> found ps x -> found ps y -> id_key x = id_key y -> kle x z -> kle y z.
Proof. intros Hag Hx Hy E. unfold kle. by rewrite (ag_same Hag ps x y). Qed.
Lemma same_key_r ps x y z : agreeing -> found ps x -> found ps y -> id_key x = id_key y -> kle z x -> kle z y.
Proof. intros Hag Hx Hy E. unfold kle. by rewrite (ag_same Hag ps x y). Qed.

Lemma fetches_ahead n ps hs bs bs' s : agreeing ->
  stage ps hs bs -> fetches n (it_visited (se_it s)) bs bs' -> merging s (map id_key hs) bs' -> ahead n bs'.
Proof.
  intros Hag Hs Hf Hm y (e' & He' & Hy)%in_unsent. pose proof (fetches_stage _ _ _ _ _ _ Hs Hf Hm) as Hs'.
  destruct (fetches_from _ _ _ _ _ Hf He') as (e & pg & new & He & Ha). destruct (sg_ordered _ _ _ Hs Hag) as [_ _ Ho3 Ho4 Ho5].
  pose proof (ef_nodup _ (sg_fine _ _ _ Hs e He)) as Hn. pose proof (ad_page _ _ _ _ _ _ Ha) as Epg. rewrite Epg, map_app, app_assoc in Hn.
  apply NoDup_app in Hn as (Hn1 & Hn2 & _). destruct (pick br_id (buffers bs') (map br_id e.2.1 ++ map id_key pg)) as (zs & Hz & Ez).
  { intros i [(b & -> & Hb)%list_elem_of_fmap|(w & -> & Hw)%list_elem_of_fmap]%elem_of_app.
    - apply list_elem_of_fmap_2, in_buffers. exists e'. split; [done|]. rewrite (ad_buffer _ _ _ _ _ _ Ha). apply elem_of_app. by left.
    - pose proof (ad_seen _ _ _ _ _ _ Ha w Hw) as Hv. apply (mg_visited _ _ _ Hm) in Hv. apply elem_of_app in Hv as [Hv|Hv]; [done|]. destruct (Ho3 w); [|done].
      apply in_unsent. exists e. split; [done|]. rewrite Epg. apply elem_of_app. by left. }
  exists zs. rewrite Ez. split_and!; [done|done| | |].
  - rewrite <- (length_map br_id), Ez, length_app, !length_map. destruct (ad_enough _ _ _ _ _ _ Ha) as [E|?]; [|lia]. rewrite E in Hy. by apply elem_of_nil in Hy.
  - intros z Hz'. destruct (stage_buffer _ _ _ z Hs' (Hz z Hz')) as (Hfz & Eid & _).
    assert (Hin : br_id z ∈ map br_id e.2.1 ++ map id_key pg) by (rewrite <- Ez; by apply list_elem_of_fmap_2).
    assert (Hye : y ∈ e.2.2) by (rewrite Epg; apply elem_of_app; by right).
    apply elem_of_app in Hin as [(b & E & Hb)%list_elem_of_fmap|(w & E & Hw)%list_elem_of_fmap].
    + assert (Hbb : b ∈ buffers bs) by (apply in_buffers; by exists e). destruct (stage_buffer _ _ _ b Hs Hbb) as (Hfb & Eb & _).
      apply (same_key_l ps (br_result b)); [done|done|done|congruence|by eapply Ho5].
    + assert (Hww : w ∈ e.2.2) by (rewrite Epg; apply elem_of_app; by left).
      apply (same_key_l ps w); [done|apply (stage_unsent ps hs bs); [done|apply in_unsent; by exists e]|done|congruence|].
      specialize (Ho4 e He). rewrite Epg in Ho4. apply StronglySorted_parts in Ho4 as (_ & _ & Ho4). by apply Ho4.
  - intros Hin. apply (Hn2 _ Hin). by apply list_elem_of_fmap_2.
Qed.

(** ** Taking the first of the buffers *)

Definition by_key (a b : Buffered) : Z := sort_order sorts (br_indexed a) (br_indexed b).
Definition sorted_buffers bs : list Buffered := js_sort by_key (buffers bs).

Lemma in_sorted bs x : x ∈ sorted_buffers bs <-> x ∈ buffers bs.
Proof. apply js_sort_elem. Qed.

Lemma sorted_kle ps hs bs : stage ps hs bs -> StronglySorted (fun a b => kle (br_result a) (br_result b)) (sorted_buffers bs).
Proof.
  intros Hs. set (P b := found ps (br_result b) /\ br_indexed b = key_of (br_result b)).
  assert (HP : Forall P (buffers bs)) by (apply Forall_forall; intros b Hb; unfold P; by destruct (stage_buffer _ _ _ b Hs Hb) as (? & _ & ?)).
  assert (Ho : orders by_key P).
  { split; unfold by_key, P.
    - intros x y [Hx ->] [Hy ->]. apply found_key in Hx, Hy. apply (ord_total _ _ Hord); naive_solver.
    - intros x y z [Hx ->] [Hy ->] [Hz ->]. by apply (kle_trans ps). }
  pose proof (sort_sorted by_key P Ho (buffers bs) HP) as Hss. fold (sorted_buffers bs) in Hss.
  assert (HP' : Forall P (sorted_buffers bs)) by by apply sort_all.
  induction Hss as [|x l Hl IH Hx]; [constructor|]. apply Forall_cons in HP' as [Hpx Hpl]. constructor; [by apply IH|].
  rewrite Forall_forall in Hx, Hpl |- *. intros y Hy. specialize (Hx y Hy). destruct Hpx as [_ E1], (Hpl y Hy) as [_ E2]. unfold by_key in Hx. by rewrite E1, E2 in Hx.
Qed.

Lemma ahead_before n ps hs bs x y : agreeing ->
  stage ps hs bs -> ahead n bs -> NoDup (map br_id (buffers bs)) -> x ∈ take n (sorted_buffers bs) -> y ∈ unsent bs ->
  kle (br_result x) y /\ id_key (br_result x) <> id_key y.
Proof.
  intros Hag Hs Hah Hn Hx Hy. destruct (Hah y Hy) as (zs & Hzn & Hzb & Hlen & Hzy & Hyz).
  assert (Hxb : x ∈ buffers bs) by (apply in_sorted; by eapply subseteq_take). destruct (stage_buffer _ _ _ x Hs Hxb) as (Hfx & Ex & _).
  pose proof (stage_unsent _ _ _ y Hs Hy) as Hfy. destruct (decide (br_id x ∈ map br_id zs)) as [(z & Ez & Hz)%list_elem_of_fmap|Hnot].
  - destruct (stage_buffer _ _ _ z Hs (Hzb z Hz)) as (Hfz & Eiz & _). split.
    + apply (same_key_l ps (br_result z)); [done|done|done|congruence|by apply Hzy].
    + intros E. apply Hyz. rewrite <- E, <- Ex, Ez. by apply list_elem_of_fmap_2.
  - assert (Hz : exists z, z ∈ zs /\ z ∈ drop n (sorted_buffers bs)).
    { destruct (decide (Forall (fun z => br_id z ∈ map br_id (take n (sorted_buffers bs))) zs)) as [Hall|Hall].
      - assert (Hsub : br_id x :: map br_id zs ⊆+ map br_id (take n (sorted_buffers bs))).
        { apply NoDup_submseteq; [by constructor|]. intros i [->|(z & -> & Hz)%list_elem_of_fmap]%elem_of_cons; [by apply list_elem_of_fmap_2|].
          rewrite Forall_forall in Hall. by apply Hall. }
        apply submseteq_length in Hsub. cbn in Hsub. rewrite !length_map, length_take in Hsub. lia.
      - apply not_Forall_Exists in Hall; [|intros z; apply _]. apply Exists_exists in Hall as (z & Hz & Hzt). exists z. split; [done|]. assert (Hzs : z ∈ sorted_buffers bs) by by apply in_sorted, Hzb.
        rewrite <- (take_drop n (sorted_buffers bs)) in Hzs. apply elem_of_app in Hzs as [Hzs|?]; [|done]. destruct Hzt. by apply list_elem_of_fmap_2. }
    destruct Hz as (z & Hz & Hzd). destruct (stage_buffer _ _ _ z Hs (Hzb z Hz)) as (Hfz & Eiz & _).
    pose proof (sorted_kle _ _ _ Hs) as Hss. rewrite <- (take_drop n (sorted_buffers bs)) in Hss. apply StronglySorted_parts in Hss as (_ & _ & Hss).
    pose proof (Hss x z Hx Hzd) as Hxz. split; [by apply (kle_trans ps _ (br_result z)); auto|].
    intros E. apply Hyz. rewrite <- E. rewrite (ag_strict Hag ps (br_result x) (br_result z)); [rewrite <- Eiz; by apply list_elem_of_fmap_2|done|done|done|].
    apply (same_key_r ps y); [done|done|done|done|by apply Hzy].
Qed.

Lemma sorted_map (l : list Buffered) : StronglySorted (fun a b => kle (br_result a) (br_result b)) l -> StronglySorted kle (map br_result l).
Proof.
  induction 1 as [|x l Hl IH Hx]; cbn; constructor; [done|]. apply Forall_forall. rewrite Forall_forall in Hx. intros y (b & -> & Hb)%list_elem_of_fmap. by apply Hx.
Qed.

(** [batch] is taken out of the buffers. *)
Record taken bs bs' (batch : list Buffered) : Prop := {
  tk_buffers : buffers bs ≡ₚ batch ++ buffers bs';
  tk_entries : Forall2 (fun e e' => e'.1 = e.1 /\ e'.2.2 = e.2.2 /\ sublist e'.2.1 e.2.1) bs bs';
}.

Lemma taken_unsent bs bs' batch : taken bs bs' batch -> unsent bs' = unsent bs /\ map fst bs' = map fst bs.
Proof. intros [_ Hf]. unfold unsent. induction Hf as [|e e' l l' (E1 & E2 & _) Hf [IH1 IH2]]; [done|]. cbn. by rewrite E1, E2, IH1, IH2. Qed.

Lemma taken_from bs bs' batch e' : taken bs bs' batch -> e' ∈ bs' -> exists e, e ∈ bs /\ e'.1 = e.1 /\ e'.2.2 = e.2.2 /\ sublist e'.2.1 e.2.1.
Proof. intros [_ Hf] (i & Hi)%list_elem_of_lookup. destruct (Forall2_lookup_r _ _ _ _ _ Hf Hi) as (e & He & ?). exists e. split; [by eapply list_elem_of_lookup_2|done]. Qed.

Lemma sublist_elem {A} (l1 l2 : list A) x : sublist l1 l2 -> x ∈ l1 -> x ∈ l2.
Proof. intros Hs Hx. eapply elem_of_submseteq; [exact Hx|]. by apply sublist_submseteq. Qed.

Lemma taken_stage n ps hs bs bs' : stage ps hs bs -> NoDup (map br_id (buffers bs)) -> (agreeing -> ahead n bs) ->
  taken bs bs' (take n (sorted_buffers bs)) -> stage ps (hs ++ map br_result (take n (sorted_buffers bs))) bs'.
Proof.
  intros Hs Hn Hah Ht. set (batch := take n (sorted_buffers bs)) in *. destruct (taken_unsent _ _ _ Ht) as [Eu Ek].
  assert (Hbatch : forall b, b ∈ batch -> b ∈ buffers bs) by (intros b Hb; apply in_sorted; by eapply subseteq_take).
  assert (Hrest : forall b, b ∈ buffers bs' -> b ∈ buffers bs) by (intros b Hb; rewrite (tk_buffers _ _ _ Ht); apply elem_of_app; by right).
  split.
  - rewrite Ek. apply Hs.
  - intros e' He'. destruct (taken_from _ _ _ _ Ht He') as (e & He & E1 & E2 & Hsub). destruct (sg_fine _ _ _ Hs e He) as [Hb Hu Hnd]. split; rewrite ?E1, ?E2.
    + intros x Hx. apply Hb. by eapply sublist_elem.
    + done.
    + eapply sublist_NoDup; [exact Hnd|]. apply sublist_app; [by apply (fmap_sublist br_id)|done].
  - intros x [Hx|(b & -> & Hb)%list_elem_of_fmap]%elem_of_app; [by apply (sg_from _ _ _ Hs)|]. apply (stage_buffer _ _ _ b Hs). by apply Hbatch.
  - intros x Hx. pose proof (sg_all _ _ _ Hs x Hx) as Hin. rewrite (tk_buffers _ _ _ Ht), map_app in Hin. rewrite map_app, map_map, Eu.
    rewrite (map_ext_in (fun b => id_key (br_result b)) br_id).
    { rewrite !elem_of_app in *. naive_solver. }
    intros b Hb%list_elem_of_In. symmetry. apply (stage_buffer _ _ _ b Hs). by apply Hbatch.
  - intros Hag. specialize (Hah Hag). destruct (sg_ordered _ _ _ Hs Hag) as [Ho1 Ho2 Ho3 Ho4 Ho5]. pose proof (sorted_kle _ _ _ Hs) as Hss.
    rewrite <- (take_drop n (sorted_buffers bs)) in Hss. fold batch in Hss. apply StronglySorted_parts in Hss as (Hs1 & _ & Hs3). split.
    + apply StronglySorted_parts. split_and!; [done| |].
      * by apply sorted_map.
      * intros x y Hx (b & -> & Hb)%list_elem_of_fmap. apply Ho2; [done|]. apply elem_of_app. left. by apply list_elem_of_fmap_2, Hbatch.
    + intros x y [Hx|(b & -> & Hb)%list_elem_of_fmap]%elem_of_app; rewrite Eu; intros Hy.
      * apply Ho2; [done|]. apply elem_of_app in Hy as [(b & -> & Hb)%list_elem_of_fmap|Hy]; apply elem_of_app; [left; by apply list_elem_of_fmap_2, Hrest|by right].
      * apply elem_of_app in Hy as [(b' & -> & Hb')%list_elem_of_fmap|Hy]; [|by apply (ahead_before n ps hs bs b y)].
        apply Hs3; [done|]. assert (E : drop n (sorted_buffers bs) ≡ₚ buffers bs'); [|by rewrite E]. apply (Permutation_app_inv_l batch). rewrite <- (tk_buffers _ _ _ Ht).
        unfold batch. rewrite take_drop. apply js_sort_perm.
    + intros y Hy. rewrite Eu in Hy. rewrite map_app, not_elem_of_app. split; [by apply Ho3|]. rewrite map_map. intros (b & E & Hb)%list_elem_of_fmap.
      by apply (ahead_before n ps hs bs b y).
    + intros e' He'. destruct (taken_from _ _ _ _ Ht He') as (e & He & E1 & E2 & Hsub). rewrite E2. by apply Ho4.
    + intros e' b y He' Hb Hy. destruct (taken_from _ _ _ _ Ht He') as (e & He & E1 & E2 & Hsub). rewrite E2 in Hy. apply (Ho5 e); [done|by eapply sublist_elem|done].
Qed.

Lemma remove_perm x (l : list Buffered) : x ∈ l -> NoDup (map br_id l) ->
  l ≡ₚ x :: remove_result (br_id x) l /\ sublist (remove_result (br_id x) l) l.
Proof.
  induction l as [|y l IH]; [by intros ?%elem_of_nil|]. cbn [remove_result map]. intros Hx [Hy Hn]%NoDup_cons. case_bool_decide as E.
  - apply elem_of_cons in Hx as [->|Hx]; [split; [done|by constructor]|]. destruct Hy. rewrite E. by apply list_elem_of_fmap_2.
  - apply elem_of_cons in Hx as [->|Hx]; [done|]. destruct (IH Hx Hn) as [E1 E2]. split; [|by constructor]. rewrite E1 at 1. apply Permutation_swap.
Qed.

Lemma taken_nil bs : taken bs bs [].
Proof. split; [done|]. induction bs; by constructor. Qed.

Lemma taken_cons bs bs1 bs2 x batch : taken bs bs1 [x] -> taken bs1 bs2 batch -> taken bs bs2 (x :: batch).
Proof.
  intros [E1 F1] [E2 F2]. split; [by rewrite E1, E2|]. clear E1 E2. revert bs2 F2.
  induction F1 as [|e1 e2 l1 l2 (A1 & A2 & A3) F1 IH]; intros bs2 F2; inversion F2 as [|? e3 ? l3 (B1 & B2 & B3) F2' E1 E2]; constructor; [|by apply IH].
  split_and!; [congruence|congruence|by etrans].
Qed.

(** The buffers belong to different peers, and hold different results of theirs. *)
Definition tidy bs : Prop := NoDup (map fst bs) /\ NoDup (map br_id (buffers bs)) /\ forall e b, e ∈ bs -> b ∈ e.2.1 -> br_from b = e.1.

Lemma merging_tidy s out bs : merging s out bs -> tidy bs.
Proof.
  intros Hm. split; [apply (mg_peers _ _ _ Hm)|]. split; [pose proof (mg_ids _ _ _ Hm) as Hn; by apply NoDup_app in Hn as (? & _)|].
  intros e b He Hb. pose proof (mg_entries _ _ _ Hm) as Hall. rewrite Forall_forall in Hall. by destruct (eo_buffer _ _ (Hall e He) b Hb) as (y & _ & ->).
Qed.

Lemma taken_tidy bs bs' batch : tidy bs -> taken bs bs' batch -> tidy bs'.
Proof.
  intros (H1' & H2' & H3') Ht. destruct (taken_unsent _ _ _ Ht) as [_ Ek]. split; [by rewrite Ek|]. split.
  - rewrite (tk_buffers _ _ _ Ht), map_app in H2'. by apply NoDup_app in H2' as (_ & _ & ?).
  - intros e' b He' Hb. destruct (taken_from _ _ _ _ Ht He') as (e & He & -> & _ & Hsub). apply H3'; [done|by eapply sublist_elem].
Qed.

Lemma take_out_taken it bs x : it_peerBufferMap it = map table bs -> tidy bs -> x ∈ buffers bs ->
  exists bs', take_out it x = set_buffers (map table bs') it /\ taken bs bs' [x].
Proof.
  intros Et (Hp & Hn & Hfr) (e & He & Hx)%in_buffers. assert (E : br_from x = e.1) by by apply Hfr.
  apply list_elem_of_split in He as (d & t & ->). destruct e as [p [b l]]. cbn [fst snd] in *. destruct (peers_mid _ _ _ Hp) as [Hd _]. cbn [fst] in Hd.
  assert (Hnb : NoDup (map br_id b)).
  { rewrite buffers_app, map_app in Hn. apply NoDup_app in Hn as (_ & _ & Hn). unfold buffers in Hn. cbn in Hn. rewrite map_app in Hn. by apply NoDup_app in Hn as (? & _). }
  destruct (remove_perm x b Hx Hnb) as [Eb Hsub]. unfold take_out. rewrite E, Et, map_app. cbn [map]. unfold table at 2. cbn [fst snd].
  rewrite Map_get_mid by by rewrite keys_table. cbn [pb_kept pb_buffer]. exists (d ++ (p, (remove_result (br_id x) b, l)) :: t). split.
  - rewrite map_app. cbn [map]. change (table (p, (b, l))) with (p, (table (p, (b, l))).2). by rewrite Map_set_mid by by rewrite keys_table.
  - split.
    + rewrite !buffers_app. unfold buffers at 2 4. cbn. rewrite Eb at 1. solve_Permutation.
    + apply Forall2_app; [apply (taken_nil d)|]. constructor; [done|apply (taken_nil t)].
Qed.

Lemma take_all_taken it bs batch : it_peerBufferMap it = map table bs -> tidy bs -> NoDup (map br_id batch) -> batch ⊆ buffers bs ->
  exists bs', fold_left take_out batch it = set_buffers (map table bs') it /\ taken bs bs' batch.
Proof.
  revert it bs. induction batch as [|x batch IH]; intros it bs Et Htidy Hn Hsub; cbn [fold_left map] in *.
  { exists bs. split; [rewrite <- Et; by destruct it|apply taken_nil]. }
  apply NoDup_cons in Hn as [Hx Hn]. destruct (take_out_taken it bs x Et Htidy) as (bs1 & E1 & T1); [apply Hsub; left|]. rewrite E1.
  destruct (IH (set_buffers (map table bs1) it) bs1) as (bs2 & E2 & T2); [done|by eapply taken_tidy|done| |].
  - intros y Hy. assert (Hyb : y ∈ buffers bs) by (apply Hsub; by right). rewrite (tk_buffers _ _ _ T1) in Hyb. apply elem_of_cons in Hyb as [->|?]; [|done].
    destruct Hx. by apply list_elem_of_fmap_2.
  - exists bs2. rewrite E2. split; [done|by eapply taken_cons].
Qed.

Lemma merging_taken s s' out bs bs' batch : merging s out bs -> taken bs bs' batch -> se_store s' = se_store s -> se_peers s' = se_peers s ->
  (exists o, se_it s' = set_done o (set_buffers (map table bs') (se_it s))) -> merging s' (out ++ map br_id batch) bs'.
Proof.
  intros [H1' H2' H3' H4' H5' H6' H7' H8' H9'] Ht Es Ep [o Ei]. destruct (taken_unsent _ _ _ Ht) as [_ Ek].
  assert (E : map br_id (buffers bs') ++ out ++ map br_id batch ≡ₚ map br_id (buffers bs) ++ out) by (rewrite (tk_buffers _ _ _ Ht), map_app; solve_Permutation).
  split; rewrite ?Ei; try done.
  - by rewrite Ek.
  - apply Forall_forall. intros e' He'. destruct (taken_from _ _ _ _ Ht He') as (e & He & E1 & E2 & Hsub). rewrite Forall_forall in H7'.
    destruct (H7' e He) as [Hso Hb Hu Hnd]. split; rewrite ?E1, ?E2, ?Es, ?Ep; [done| |done|].
    + intros x Hx. apply Hb. by eapply sublist_elem.
    + eapply sublist_NoDup; [exact Hnd|]. apply sublist_app; [by apply (fmap_sublist br_id)|done].
  - by rewrite E.
  - intros i. rewrite E. apply H9'.
Qed.

Lemma dedup_distinct (l : list (Result T I)) unique :
  (forall x, x ∈ l -> result_id x = Val (id_key x)) -> NoDup (map id_key l) -> (forall i, i ∈ unique -> i ∉ map id_key l) -> dedup result_key unique l = Val l.
Proof.
  revert unique. induction l as [|x l IH]; intros unique Hid Hn Hu; cbn [dedup map] in *; [done|]. apply NoDup_cons in Hn as [Hx Hn].
  assert (E : result_id x = Val (id_key x)) by (apply Hid; left). unfold result_id in E. unfold result_key.
  destruct (extractFieldValue (value_js x) indexBy None) as [idv|?|]; [|done|done]. cbn [mbind outcome_bind] in *.
  destruct (toId idv) as [k|?|]; [|done|done]. cbn [mbind outcome_bind] in *. injection E as ->.
  destruct (Set_has unique (id_key x)) eqn:Eh; [apply Set_has_spec, Hu in Eh; destruct Eh; left|].
  rewrite IH; [done|intros y Hy; apply Hid; by right|done|]. intros i [Hi|Hi]%Set_add_elem; [by rewrite Hi|]. intros Hil. apply (Hu i Hi). by right.
Qed.

Lemma peerBuffers_table it bs : it_peerBufferMap it = map table bs -> peerBuffers it = buffers bs.
Proof. intros E. unfold peerBuffers, Map_values, buffers. by rewrite E, !map_map. Qed.

(** What is buffered, and twice what has not been sent. *)
Definition weight bs : nat := (length (buffers bs) + 2 * length (unsent bs))%nat.

Lemma weight_cons e t : weight (e :: t) = (length e.2.1 + 2 * length e.2.2 + weight t)%nat.
Proof. unfold weight, buffers, unsent. cbn. rewrite !length_app. lia. Qed.

Lemma fetches_weight n v t t' : (0 < n)%nat -> fetches n v t t' ->
  (weight t' <= weight t)%nat /\ (buffers t' = [] -> weight t = 0%nat \/ (weight t' < weight t)%nat).
Proof.
  intros Hn. induction 1 as [|p t t' Hf [IH1 IH2]|e e' t t' pg new [E1 E2 E3 Hnew _ _ Hsome _] Hf [IH1 IH2]]; [by split; [|left]| |].
  - rewrite weight_cons. cbn. by split.
  - rewrite !weight_cons, E2, E3, !length_app. split; [lia|]. unfold buffers at 1. cbn [map concat]. fold (buffers t'). rewrite E3.
    intros [[Ea ->]%app_eq_nil Et]%app_eq_nil. specialize (IH2 Et). rewrite Ea. cbn [length]. rewrite Ea in Hsome. cbn in Hsome.
    destruct Hsome as [Eu|[?|Hpg]]; [|lia|destruct pg; [done|right; cbn; lia]]. rewrite E2 in Eu. apply app_eq_nil in Eu as [-> ->]. cbn. lia.
Qed.

(** ** Calls of [next] *)

Definition handed ps hs bs (rs : list (Result T I)) s' : Prop := exists bs', stage ps (hs ++ rs) bs' /\ merging s' (map id_key (hs ++ rs)) bs' /\
  it_isDone (se_it s') = Some (bool_decide (weight bs' = 0%nat)) /\ (weight bs' <= weight bs - 1)%nat.

Lemma next_ok now n s (Φ : list (Result T I) -> Searching -> Prop) :
  wp (fetchAtLeast now (S n)) (fun r s1 => exists ps hs bs0 bs, stage ps hs bs0 /\ fetches (S n) (it_visited (se_it s1)) bs0 bs /\
     merging s1 (map id_key hs) bs /\ r = Some (bool_decide (unsent bs = [])) /\ (forall rs s', handed ps hs bs0 rs s' -> Φ rs s')) s ->
  wp (next now (Z.of_nat (S n))) Φ s.
Proof.
  intros Hw. unfold next. rewrite (proj2 (Z.ltb_ge _ _)) by lia. rewrite (proj2 (Z.eqb_neq _ _)) by lia. rewrite Nat2Z.id. wp_steps.
  eapply wp_mono; [exact Hw|]. clear Hw s. intros r s (ps & hs & bs0 & bs & Hs0 & Hf & Hm & -> & HΦ). wp_steps.
  pose proof (fetches_stage _ _ _ _ _ _ Hs0 Hf Hm) as Hs. destruct (mg_request _ _ _ Hm) as [f Ereq].
  pose proof (merging_tidy _ _ _ Hm) as Htidy. rewrite (peerBuffers_table _ _ (mg_table _ _ _ Hm)), Ereq. cbn [request_sort sr_sort].
  assert (Hkey : forall b, b ∈ buffers bs -> IndexInterface.sortable sorts (br_indexed b) = true).
  { intros b Hb. destruct (stage_buffer _ _ _ b Hs Hb) as (Hfb & _ & ->). by apply (found_key ps). }
  eapply wp_lift; [apply (sortM_val _ by_key); intros a b Ha Hb; apply extractSortCompare_sortable; by apply Hkey|].
  fold (sorted_buffers bs). set (batch := take (S n) (sorted_buffers bs)). unfold changeIt. wp_steps. cbn [se_it se_store se_peers se_joins].
  assert (Hsub : batch ⊆ buffers bs) by (intros b Hb; apply in_sorted; by eapply subseteq_take).
  assert (Hnb : NoDup (map br_id batch)).
  { unfold batch. rewrite <- firstn_map. eapply sublist_NoDup; [|apply sublist_take]. unfold sorted_buffers. rewrite js_sort_perm. apply Htidy. }
  destruct (take_all_taken (se_it s) bs batch (mg_table _ _ _ Hm) Htidy Hnb Hsub) as (bs' & Eit & Ht). rewrite Eit.
  cbn [it_resolve set_done set_buffers]. rewrite (mg_plain _ _ _ Hm). wp_steps.
  assert (Eids : map id_key (map br_result batch) = map br_id batch).
  { rewrite map_map. apply map_ext_in. intros b Hb%list_elem_of_In. symmetry. apply (stage_buffer _ _ _ b Hs). by apply Hsub. }
  eapply wp_lift.
  { apply dedup_distinct; [|by rewrite Eids|by intros i ?%elem_of_nil]. intros x (b & -> & Hb)%list_elem_of_fmap. apply (found_key ps). by apply (stage_buffer _ _ _ b Hs), Hsub. }
  apply HΦ. exists bs'. destruct (taken_unsent _ _ _ Ht) as [Eu _]. split; [|split; [|split]].
  - apply (taken_stage (S n) ps hs bs bs'); [done|apply Htidy| |done]. intros Hag. exact (fetches_ahead (S n) ps hs bs0 bs s Hag Hs0 Hf Hm).
  - rewrite map_app, Eids. eapply (merging_taken s); [done|done|done|done|by eexists].
  - cbn [se_it it_isDone set_done]. f_equal. assert (El : length (sorted_buffers bs) = length (buffers bs)) by (unfold sorted_buffers; by rewrite js_sort_perm). rewrite El.
    pose proof (Permutation_length (tk_buffers _ _ _ Ht)) as Hl. rewrite length_app in Hl. unfold batch in Hl. rewrite length_take, El in Hl.
    unfold weight. rewrite Eu. destruct (unsent bs) as [|y u]; [|rewrite (bool_decide_false (y :: u = [])) by done; rewrite bool_decide_false by (cbn; lia); done]. rewrite (bool_decide_true (@nil (Result T I) = [])) by done. cbn [andb length].
    destruct (Nat.ltb_spec (S n) (length (buffers bs))); cbn [negb]; [by rewrite bool_decide_false by lia|by rewrite bool_decide_true by lia].
  - destruct (fetches_weight (S n) _ _ _ ltac:(lia) Hf) as [W1 W2]. pose proof (Permutation_length (tk_buffers _ _ _ Ht)) as Hl. rewrite length_app in Hl.
    assert (Hw : weight bs = (length batch + weight bs')%nat) by (unfold weight; rewrite Eu; lia).
    destruct (decide (buffers bs = [])) as [Eb|Hb]; [destruct (W2 Eb); lia|].
    assert (Hlb : (0 < length batch)%nat); [|lia]. unfold batch. rewrite length_take. assert (El : length (sorted_buffers bs) = length (buffers bs)) by (unfold sorted_buffers; by rewrite js_sort_perm).
    rewrite El. destruct (buffers bs); [done|cbn; lia].
Qed.

Lemma fetch_first_ok now s n : fresh s -> it_first (se_it s) = false -> it_isDone (se_it s) = Some false ->
  wp (fetchAtLeast now (S n)) (fun r s' => exists order bs, order ≡ₚ remote_peers s /\
    fetches (S n) (it_visited (se_it s')) (map unasked (asked s order)) bs /\ merging s' [] bs /\ r = Some (bool_decide (unsent bs = []))) s.
Proof.
  intros Hfr Hf Hd. unfold fetchAtLeast, changeIt, fetching. wp_steps. rewrite Hf, Hd. cbn [not_done negb andb]. rewrite (fr_failed _ Hfr). wp_steps.
  set (s1 := MkSearching _ _ _ _). assert (Hfr1 : fresh s1) by by destruct Hfr.
  eapply wp_mono; [by apply (fetchFirst_ok now s1 n)|]. intros r s' Hr. wp_steps. exact Hr.
Qed.

Lemma fetch_next_ok now s n out bs : merging s out bs -> it_isDone (se_it s) = Some false ->
  wp (fetchAtLeast now n) (fun r s' => exists bs', fetches n (it_visited (se_it s')) bs bs' /\ merging s' out bs' /\ r = Some (bool_decide (unsent bs' = []))) s.
Proof.
  intros Hm Hd. unfold fetchAtLeast, fetching. wp_steps. rewrite Hd, (mg_failed _ _ _ Hm), (mg_first _ _ _ Hm). cbn [not_done negb andb]. wp_steps.
  rewrite (mg_table _ _ _ Hm). unfold Map_keys. rewrite keys_table. eapply wp_mono; [by apply (collect_peers_ok now n s out [] bs)|].
  intros z s' (bs' & Hf & -> & Hm' & _). wp_steps. exists bs'. split; [done|]. split; [done|]. f_equal.
  destruct (unsent bs'); [by rewrite bool_decide_true|by rewrite bool_decide_false].
Qed.

(** What a search through [ps] should hand out. *)
Record complete ps hs : Prop := {
  cp_ids : NoDup (map id_key hs);
  cp_from x : x ∈ hs -> found ps x;
  cp_all x : found ps x -> id_key x ∈ map id_key hs;
  cp_sorted : agreeing -> StronglySorted kle hs;
}.

Lemma stage_complete ps hs bs s : stage ps hs bs -> merging s (map id_key hs) bs -> weight bs = 0%nat -> complete ps hs.
Proof.
  intros Hs Hm Hw. unfold weight in Hw. assert (Eb : buffers bs = []) by (destruct (buffers bs); [done|cbn in Hw; lia]).
  assert (Eu : unsent bs = []) by (destruct (unsent bs); [done|cbn in Hw; lia]). split.
  - pose proof (mg_ids _ _ _ Hm) as Hn. by rewrite Eb in Hn.
  - apply Hs.
  - intros x Hx. pose proof (sg_all _ _ _ Hs x Hx) as Hin. by rewrite Eb, Eu, app_nil_r in Hin.
  - intros Hag. apply (od_sorted _ _ (sg_ordered _ _ _ Hs Hag)).
Qed.

Lemma all_ok fuel now ps s hs bs :
  stage ps hs bs -> merging s (map id_key hs) bs -> it_isDone (se_it s) = Some (bool_decide (weight bs = 0%nat)) -> (weight bs <= fuel)%nat ->
  wp (all fuel now) (fun rs s' => complete ps (hs ++ rs) /\ it_isDone (se_it s') = Some true) s.
Proof.
  revert s hs bs. induction fuel as [|fuel IH]; intros s hs bs Hs Hm Hd Hw; cbn [all]; wp_steps; rewrite Hd; case_bool_decide as E; cbn [not_done negb].
  1,3: wp_steps; rewrite app_nil_r, Hd; split; [by eapply stage_complete|done].
  { lia. }
  wp_steps. change 100 with (Z.of_nat (S 99)). apply (next_ok now 99). eapply wp_mono; [by apply (fetch_next_ok now s (S 99) (map id_key hs) bs)|].
  intros r s1 (bs1 & Hf & Hm1 & ->). exists ps, hs, bs, bs1. split_and!; [done|done|done|done|]. intros rs s2 (bs2 & Hs2 & Hm2 & Hd2 & Hw2). wp_steps.
  eapply wp_mono; [apply (IH s2 (hs ++ rs) bs2); [done|done|done|lia]|]. intros rs' s3 [Hc Hd3]. wp_steps. by rewrite app_assoc.
Qed.

Lemma complete_perm ps ps' hs : ps ≡ₚ ps' -> complete ps hs -> complete ps' hs.
Proof. intros E [H1' H2' H3' H4']. split; [done| | |done]; intros x; rewrite <- E; auto. Qed.

Lemma weight_start ps : weight (map unasked ps) = (2 * length (concat (map X ps)))%nat.
Proof. induction ps as [|p ps IH]; [done|]. cbn [map concat]. rewrite weight_cons, IH, length_app. cbn. lia. Qed.


End Merge.
