(* ===== verification/Rpc.v ===== *)
(** * Requests and responses over a topic
    (packages/programs/rpc/src/controller.ts, encoding.ts, io.ts)

    A node asks the peers on a topic and waits for their responses.  A request is
    an object of the node: its handler may still run when the request has ended, and then
    adds to the array that the caller holds.  [rpc_step] are the events of a node; what
    it publishes is logged.  Cryptography and serialization are classes.  A response that
    is listed came from a peer that was asked ([answers_genuine]), a request ends as soon as all
    have answered ([request_settles]), and an answer arrives as it was given
    ([exchange_roundtrip]).  RPC is what a search asks of its peers. *)

From Stdlib Require Import ZArith Lia.
From stdpp Require Import base list strings.
From S2P Require Import Prelude JsMap IndexInterface Effects DocumentIndex DocumentSearch StreamMessages.

Local Open Scope Z_scope.

(** ** Parameters *)

(** [DecryptedThing], [EncryptedThing]: what is sealed for some keys is opened with
    the secret of one of them. *)
Class Sealing (Key Sealed D : Type) := {
  plain : D -> Sealed;
  encrypt : Key -> list Key -> D -> Sealed;
  decrypt : list Key -> Sealed -> outcome D;
}.
Class SealingLaws (Key Sealed D : Type) `{Sealing Key Sealed D} : Prop := {
  law_plain ks (d : D) : decrypt ks (plain d) = Val d;
  law_sealed (k k' : Key) ks ks' (d : D) : k' ∈ ks -> k' ∈ ks' -> decrypt ks' (encrypt k ks d) = Val d;
}.

(** Values as bytes. *)
Class Codec (A D : Type) := { encode_value : A -> D; decode_value : D -> outcome A }.
Class CodecLaws (A D : Type) `{Codec A D} : Prop := { law_decoded (a : A) : decode_value (encode_value a) = Val a }.

Definition Closed : string := "Closed".
Definition Dropped : string := "Dropped".
Definition TimeoutError : string := "TimeoutError".
(** Errors that mean that a message is for somebody else. *)
Definition not_for_me (e : string) : bool := bool_decide (e = "AccessError"%string) || bool_decide (e = "BorshError"%string).

(** ** Data *)

Section Rpc.
Context {Key Sealed D Q R : Type} `{Sealing Key Sealed D, !Codec Q D, !Codec R D}.

Inductive RPCMessage :=
| RequestV0 (respondTo : option Key) (request : Sealed)
| ResponseV0 (requestId : string) (response : Sealed).

(** What is used of a message of the network. *)
Record Message := MkMessage { me_id : string; me_from : string; me_timestamp : Z; me_priority : option Z }.

Record RequestOptions := MkRequestOptions {
  ro_mode : option DeliveryMode;
  ro_priority : option Z;
  ro_encryption : option (Key * list Key);
  ro_amount : option nat;
  ro_isTrusted : option (string -> outcome bool);
  ro_onResponse : option (R -> string -> outcome unit);
}.

Inductive Deferred := Pending | Resolved | Rejected (e : string).
(** A request publishes, waits for its promise, and ends. *)
Inductive Stage := Publishing | Waiting | Ended (r : outcome unit).

(** A call of [request]; [rq_running] are the responses its handler is awaiting something for. *)
Record Request := MkRequest {
  rq_id : string;
  rq_key : Key;
  rq_options : RequestOptions;
  rq_expected : option (list string);
  rq_results : list (R * string);
  rq_responders : list string;
  rq_promise : Deferred;
  rq_running : list (Sealed * string);
  rq_stage : Stage;
}.

Record Publication := MkPublication {
  pu_id : option string;
  pu_topics : list string;
  pu_mode : option DeliveryMode;
  pu_priority : option Z;
  pu_message : RPCMessage;
}.

Record Rpc := MkRpc {
  rpc_topic : string;
  rpc_handler : option (Q -> string -> Z -> outcome (option R));
  rpc_keypair : Key;
  rpc_keychain : list Key;
  rpc_subscribed : bool;
  rpc_closed : bool;
  rpc_requests : list Request;
  rpc_resolvers : list (string * nat);
  rpc_published : list Publication;
}.

Definition set_requests (l : list Request) (s : Rpc) : Rpc :=
  MkRpc (rpc_topic s) (rpc_handler s) (rpc_keypair s) (rpc_keychain s) (rpc_subscribed s) (rpc_closed s) l (rpc_resolvers s) (rpc_published s).
Definition set_resolvers (l : list (string * nat)) (s : Rpc) : Rpc :=
  MkRpc (rpc_topic s) (rpc_handler s) (rpc_keypair s) (rpc_keychain s) (rpc_subscribed s) (rpc_closed s) (rpc_requests s) l (rpc_published s).
Definition set_status (subscribed closed : bool) (s : Rpc) : Rpc :=
  MkRpc (rpc_topic s) (rpc_handler s) (rpc_keypair s) (rpc_keychain s) subscribed closed (rpc_requests s) (rpc_resolvers s) (rpc_published s).
Definition publish (p : Publication) (s : Rpc) : Rpc :=
  MkRpc (rpc_topic s) (rpc_handler s) (rpc_keypair s) (rpc_keychain s) (rpc_subscribed s) (rpc_closed s) (rpc_requests s) (rpc_resolvers s) (rpc_published s ++ [p]).

Definition change (i : nat) (f : Request -> Request) (s : Rpc) : Rpc := set_requests (alter f i (rpc_requests s)) s.
Definition set_promise (p : Deferred) (r : Request) : Request :=
  MkRequest (rq_id r) (rq_key r) (rq_options r) (rq_expected r) (rq_results r) (rq_responders r) p (rq_running r) (rq_stage r).
Definition set_running (l : list (Sealed * string)) (r : Request) : Request :=
  MkRequest (rq_id r) (rq_key r) (rq_options r) (rq_expected r) (rq_results r) (rq_responders r) (rq_promise r) l (rq_stage r).
Definition set_stage (st : Stage) (r : Request) : Request :=
  MkRequest (rq_id r) (rq_key r) (rq_options r) (rq_expected r) (rq_results r) (rq_responders r) (rq_promise r) (rq_running r) st.
Definition set_results (l : list (R * string)) (responders : list string) (r : Request) : Request :=
  MkRequest (rq_id r) (rq_key r) (rq_options r) (rq_expected r) l responders (rq_promise r) (rq_running r) (rq_stage r).

(** The first to settle a promise wins. *)
Definition settle (p : Deferred) (r : Request) : Request :=
  match rq_promise r with Pending => set_promise p r | _ => r end.

(** ** Asking *)

Definition seal (request : Q) (respondTo : option Key) (encryption : option (Key * list Key)) : RPCMessage :=
  let requestData := encode_value request in
  RequestV0 respondTo (match encryption with
                       | Some (key, responder :: responders) => encrypt key (responder :: responders) requestData
                       | _ => plain requestData
                       end).

Definition getPublishOptions (id : option string) (o : RequestOptions) (message : RPCMessage) (s : Rpc) : Publication :=
  MkPublication id [rpc_topic s] (ro_mode o) (ro_priority o) message.

Definition send (message : Q) (o : RequestOptions) (s : Rpc) : Rpc :=
  publish (getPublishOptions None o (seal message None (ro_encryption o)) s) s.

Definition receivers (mode : DeliveryMode) : list string :=
  match mode with SilentDelivery to _ | AcknowledgeDelivery to _ => to | SeekDelivery to _ => default [] to | _ => [] end.

Definition expectedResponders (o : RequestOptions) : option (list string) :=
  mode ← ro_mode o; if deliveryModeHasReceiver mode then Some (fold_left Set_add (receivers mode) []) else None.

(** The start of [request], up to publishing; [key] and [id] are drawn. *)
Definition request_start (request : Q) (o : RequestOptions) (id : string) (key : Key) (s : Rpc) : outcome nat * Rpc :=
  if rpc_closed s then (Exn Closed, s)
  else
    let i := length (rpc_requests s) in
    let r := MkRequest id key o (expectedResponders o) [] [] Pending [] Publishing in
    (Val i, publish (getPublishOptions (Some id) o (seal request (Some key) (ro_encryption o)) s)
              (set_resolvers (Map_set (rpc_resolvers s) id i) (set_requests (rpc_requests s ++ [r]) s))).

(** ** Responses *)

(** What the handler of a request finds in a response. *)
Definition read_response (r : Request) (response : Sealed) (from : string) : outcome (option R) :=
  trusted ← match ro_isTrusted (rq_options r) with Some f => f from | None => Val true end;
  if negb trusted then Val None
  else d ← decrypt [rq_key r] response; v ← decode_value d; Val (Some v).

Definition onResponse (r : Request) (v : R) (from : string) : outcome unit :=
  match ro_onResponse (rq_options r) with Some f => f v from | None => Val tt end.

(** A result of an expected peer, or of anybody. *)
Definition add_result (r : Request) (v : R) (from : string) : outcome Request :=
  match rq_expected r with
  | Some expected =>
      if bool_decide (from ∈ expected) then
        _ ← onResponse r v from;
        let responders := Set_add (rq_responders r) from in
        let r := set_results (rq_results r ++ [(v, from)]) responders r in
        Val (if (length responders =? length expected)%nat then settle Resolved r else r)
      else Val r
  | None =>
      _ ← onResponse r v from;
      let r := set_results (rq_results r ++ [(v, from)]) (rq_responders r) r in
      Val (match ro_amount (rq_options r) with
           | Some amount => if (amount <=? length (rq_results r))%nat then settle Resolved r else r
           | None => r
           end)
  end.

Definition handle_response (response : Sealed) (from : string) (r : Request) : Request :=
  match (v ← read_response r response from; match v with Some v => add_result r v from | None => Val r end) with
  | Val r => r
  | Exn e => if not_for_me e then r else settle (Rejected e) r
  | NoFuel => r
  end.

(** ** Messages *)

(** The answer to a request. *)
Definition respond (message : Message) (respondTo : option Key) (request : Sealed) (s : Rpc) : outcome (option Publication) :=
  match rpc_handler s with
  | None => Val None
  | Some handler =>
      d ← decrypt (rpc_keychain s) request;
      q ← decode_value d;
      response ← handler q (me_from message) (me_timestamp message);
      Val (match response, respondTo with
           | Some response, Some key =>
               Some (MkPublication None [rpc_topic s] (Some (SilentDelivery [me_from message] 1)) (me_priority message)
                       (ResponseV0 (me_id message) (encrypt (rpc_keypair s) [key] (encode_value response))))
           | _, _ => None
           end)
  end.

(** [_onMessage]; [data] is what deserializing gives.  Errors are logged. *)
Definition onMessage (topics : list string) (message : Message) (data : outcome RPCMessage) (s : Rpc) : Rpc :=
  if bool_decide (rpc_topic s ∈ topics) then
    match data with
    | Val (RequestV0 respondTo request) =>
        match respond message respondTo request s with Val (Some p) => publish p s | _ => s end
    | Val (ResponseV0 requestId response) =>
        match Map_get (rpc_resolvers s) requestId with
        | Some i => change i (fun r => set_running (rq_running r ++ [(response, me_from message)]) r) s
        | None => s
        end
    | _ => s
    end
  else s.

(** ** Events *)

Inductive Event :=
| Start (request : Q) (o : RequestOptions) (id : string) (key : Key)
| PublishDone (i : nat) (r : outcome unit)
| Receive (topics : list string) (message : Message) (data : outcome RPCMessage)
| HandlerDone (i j : nat)
| Timeout (i : nat)
| Aborted (i : nat) (reason : string)
| Return (i : nat)
| Close
| Drop.

Definition live (r : Request) : bool := match rq_stage r with Ended _ => false | _ => true end.

(** The [finally] of [request]: timers and listeners are cleared with the resolver. *)
Definition finish (i : nat) (r : outcome unit) (s : Rpc) : Rpc :=
  let r := match r with Exn e => if bool_decide (e = TimeoutError) then Val tt else Exn e | r => r end in
  match rpc_requests s !! i with
  | Some rq => set_resolvers (Map_delete (rpc_resolvers s) (rq_id rq)) (change i (set_stage (Ended r)) s)
  | None => s
  end.

Definition reject_all (e : string) (s : Rpc) : Rpc :=
  set_requests (map (fun r => if live r then settle (Rejected e) r else r) (rpc_requests s)) s.

Definition rpc_step (e : Event) (s : Rpc) : option Rpc :=
  match e with
  | Start request o id key => Some (request_start request o id key s).2
  | PublishDone i r =>
      rq ← rpc_requests s !! i;
      match rq_stage rq with
      | Publishing => Some (match r with Val _ => change i (set_stage Waiting) s | r => finish i r s end)
      | _ => None
      end
  | Receive topics message data => if rpc_subscribed s then Some (onMessage topics message data s) else None
  | HandlerDone i j =>
      rq ← rpc_requests s !! i;
      x ← rq_running rq !! j;
      Some (change i (fun r => handle_response x.1 x.2 (set_running (delete j (rq_running r)) r)) s)
  | Timeout i => rq ← rpc_requests s !! i; if live rq then Some (change i (settle Resolved) s) else None
  | Aborted i e => rq ← rpc_requests s !! i; if live rq then Some (change i (settle (Rejected e)) s) else None
  | Return i =>
      rq ← rpc_requests s !! i;
      match rq_stage rq, rq_promise rq with
      | Waiting, Resolved => Some (finish i (Val tt) s)
      | Waiting, Rejected e => Some (finish i (Exn e) s)
      | _, _ => None
      end
  | Close => if rpc_closed s then None else Some (set_status false true (reject_all Closed s))
  | Drop => if rpc_closed s then None else Some (set_status false true (reject_all Dropped s))
  end.

(** ** Reachable states *)

Inductive rpc_run : Rpc -> list Event -> Rpc -> Prop :=
| rpc_run_nil s : rpc_run s [] s
| rpc_run_snoc s es s1 e s2 : rpc_run s es s1 -> rpc_step e s1 = Some s2 -> rpc_run s (es ++ [e]) s2.

(** A node as [open] leaves it. *)
Definition opened (s : Rpc) : Prop := rpc_requests s = [] /\ rpc_resolvers s = [] /\ rpc_subscribed s = true /\ rpc_closed s = false.

Implicit Types (s : Rpc) (rq : Request).

(** What an event does to the request [i]. *)
Inductive evolves (e : Event) (s : Rpc) (i : nat) : Request -> Request -> Prop :=
| ev_same rq : evolves e s i rq rq
| ev_promise rq p : p <> Pending -> evolves e s i rq (settle p rq)
| ev_stage rq st : evolves e s i rq (set_stage st rq)
| ev_receive rq topics message id response :
    e = Receive topics message (Val (ResponseV0 id response)) -> rpc_topic s ∈ topics -> Map_get (rpc_resolvers s) id = Some i ->
    evolves e s i rq (set_running (rq_running rq ++ [(response, me_from message)]) rq)
| ev_handle rq j x : rq_running rq !! j = Some x -> evolves e s i rq (handle_response x.1 x.2 (set_running (delete j (rq_running rq)) rq)).

Lemma settle_same p rq : rq_id (settle p rq) = rq_id rq /\ rq_key (settle p rq) = rq_key rq /\ rq_options (settle p rq) = rq_options rq /\
  rq_expected (settle p rq) = rq_expected rq /\ rq_results (settle p rq) = rq_results rq /\ rq_responders (settle p rq) = rq_responders rq /\
  rq_running (settle p rq) = rq_running rq /\ rq_stage (settle p rq) = rq_stage rq.
Proof. unfold settle. by destruct (rq_promise rq). Qed.

Lemma settle_promise p rq : p <> Pending -> rq_promise (settle p rq) <> Pending.
Proof. unfold settle. destruct (rq_promise rq) eqn:E; [done|congruence..]. Qed.

Lemma add_result_adds rq v from rq' : add_result rq v from = Val rq' ->
  rq' = rq \/ (forall ex, rq_expected rq = Some ex -> from ∈ ex) /\ onResponse rq v from = Val tt.
Proof.
  unfold add_result. destruct (rq_expected rq) as [ex|]; [case_bool_decide as Hin; [|intros [= <-]; by left]|];
    (destruct (onResponse rq v from) as [[]|e|]; [|done|done]); intros _; right; (split; [|done]); by intros ex' [= <-].
Qed.

(** A response adds at most one result. *)
Lemma handle_cases response from rq :
  handle_response response from rq = rq \/ (exists e, handle_response response from rq = settle (Rejected e) rq) \/
  exists v, read_response rq response from = Val (Some v) /\ (forall ex, rq_expected rq = Some ex -> from ∈ ex) /\
    add_result rq v from = Val (handle_response response from rq) /\ onResponse rq v from = Val tt.
Proof.
  unfold handle_response. destruct (read_response rq response from) as [[v|]|e|] eqn:E; cbn [mbind outcome_bind]; [|by left| |by left].
  - destruct (add_result rq v from) as [rq'|e|] eqn:Ea; [|destruct (not_for_me e); [by left|right; left; by exists e]|by left].
    destruct (add_result_adds _ _ _ _ Ea) as [->|[Hex Ho]]; [by left|]. right. right. by exists v.
  - destruct (not_for_me e); [by left|right; left; by exists e].
Qed.

Lemma add_result_same rq v from rq' : add_result rq v from = Val rq' ->
  rq_id rq' = rq_id rq /\ rq_key rq' = rq_key rq /\ rq_options rq' = rq_options rq /\ rq_expected rq' = rq_expected rq /\
  rq_running rq' = rq_running rq /\ rq_stage rq' = rq_stage rq /\ (rq_results rq' = rq_results rq ++ [(v, from)] \/ rq_results rq' = rq_results rq).
Proof.
  unfold add_result, settle. destruct (rq_expected rq) as [ex|] eqn:Ee.
  - case_bool_decide; [|intros [= <-]; do 6 (split; [done|]); by right]. destruct (onResponse rq v from) as [[]|?|]; [|done|done]. cbn [mbind outcome_bind].
    intros [= <-]. destruct (_ =? _)%nat; cbn; [destruct (rq_promise rq)|]; cbn; do 6 (split; [done|]); by left.
  - destruct (onResponse rq v from) as [[]|?|]; [|done|done]. cbn [mbind outcome_bind].
    intros [= <-]. destruct (ro_amount _); [destruct (_ <=? _)%nat|]; cbn; [destruct (rq_promise rq)|..]; cbn; do 6 (split; [done|]); by left.
Qed.

Lemma handle_same response from rq : let rq' := handle_response response from rq in
  rq_id rq' = rq_id rq /\ rq_key rq' = rq_key rq /\ rq_options rq' = rq_options rq /\ rq_expected rq' = rq_expected rq /\
  rq_running rq' = rq_running rq /\ rq_stage rq' = rq_stage rq.
Proof.
  intros rq'. unfold rq'. destruct (handle_cases response from rq) as [->|[[e ->]|(v & _ & _ & Ha & _)]]; [done| |].
  - destruct (settle_same (Rejected e) rq) as (? & ? & ? & ? & _ & _ & ? & ?). by split_and!.
  - apply add_result_same in Ha as (? & ? & ? & ? & ? & ? & _). by split_and!.
Qed.

Lemma evolves_fixed e s i rq rq' : evolves e s i rq rq' ->
  rq_id rq' = rq_id rq /\ rq_key rq' = rq_key rq /\ rq_options rq' = rq_options rq /\ rq_expected rq' = rq_expected rq.
Proof.
  destruct 1 as [rq|rq p Hp|rq st|rq topics message id response|rq j x Hj]; [done| |done|done|].
  - destruct (settle_same p rq) as (? & ? & ? & ? & _). by split_and!.
  - by destruct (handle_same x.1 x.2 (set_running (delete j (rq_running rq)) rq)) as (? & ? & ? & ? & _).
Qed.

Lemma change_requests i f s k rq' : rpc_requests (change i f s) !! k = Some rq' ->
  exists rq, rpc_requests s !! k = Some rq /\ (k = i /\ rq' = f rq \/ k <> i /\ rq' = rq).
Proof.
  unfold change. cbn. destruct (decide (k = i)) as [->|Hk].
  - rewrite list_lookup_alter_eq. destruct (rpc_requests s !! i) as [rq|]; [|done]. intros [= <-]. exists rq. auto.
  - rewrite list_lookup_alter_ne by done. intros E. exists rq'. auto.
Qed.

(** Every request of the next state was there before, or was just made. *)
Lemma step_requests e s s' k rq' : rpc_step e s = Some s' -> rpc_requests s' !! k = Some rq' ->
  (exists rq, rpc_requests s !! k = Some rq /\ evolves e s k rq rq') \/
  rpc_requests s !! k = None /\ (exists id o key, rq' = MkRequest id key o (expectedResponders o) [] [] Pending [] Publishing).
Proof.
  assert (Hchange : forall i f, (forall rq, rpc_requests s !! i = Some rq -> evolves e s i rq (f rq)) -> rpc_requests (change i f s) !! k = Some rq' ->
    exists rq, rpc_requests s !! k = Some rq /\ evolves e s k rq rq').
  { intros i f Hf (rq & Hrq & [[-> ->]|[_ ->]])%change_requests; exists rq; (split; [done|]); [by apply Hf|constructor]. }
  assert (Hfinish : forall i r, rpc_requests (finish i r s) !! k = Some rq' -> exists rq, rpc_requests s !! k = Some rq /\ evolves e s k rq rq').
  { intros i r. unfold finish. destruct (rpc_requests s !! i) as [rq|]; [|intros E; exists rq'; split; [done|constructor]].
    intros E. eapply Hchange; [|exact E]. intros. apply ev_stage. }
  assert (Hreject : forall x, rpc_requests (reject_all x s) !! k = Some rq' -> exists rq, rpc_requests s !! k = Some rq /\ evolves e s k rq rq').
  { intros x. cbn. rewrite list_lookup_fmap. destruct (rpc_requests s !! k) as [rq|]; [|done]. intros [= <-]. exists rq. split; [done|].
    destruct (live rq); [by apply ev_promise|constructor]. }
  destruct e as [request o id key|i r|topics message data|i j|i|i x|i| |]; cbn [rpc_step].
  - intros [= <-] E. unfold request_start in E. destruct (rpc_closed s); cbn in E; [left; exists rq'; split; [done|constructor]|].
    apply lookup_app_Some in E as [E|[Hk E]]; [left; exists rq'; split; [done|constructor]|right].
    apply list_lookup_singleton_Some in E as [_ <-]. split; [by apply lookup_ge_None|]. by exists id, o, key.
  - destruct (rpc_requests s !! i) as [rq|]; [|done]. cbn. destruct (rq_stage rq); [|done..].
    intros [= <-] E. left. destruct r; [|by eapply Hfinish..]. eapply Hchange; [|exact E]. intros. apply ev_stage.
  - destruct (rpc_subscribed s); [|done]. intros [= <-] E. left. unfold onMessage in E.
    assert (Hs : rpc_requests s !! k = Some rq' -> exists rq, rpc_requests s !! k = Some rq /\ evolves (Receive topics message data) s k rq rq') by (intros E'; exists rq'; split; [done|constructor]).
    case_bool_decide as Ht; [|by apply Hs]. destruct data as [[respondTo request|id response]|e|]; [| |by apply Hs..].
    + destruct (respond _ _ _ _) as [[p|]| |]; by apply Hs.
    + destruct (Map_get (rpc_resolvers s) id) as [i|] eqn:Em; [|by apply Hs]. eapply Hchange; [|exact E]. intros rq _. by eapply ev_receive.
  - destruct (rpc_requests s !! i) as [rq|] eqn:Ei; [|done]. cbn. destruct (rq_running rq !! j) as [x|] eqn:Ej; [|done]. cbn. intros [= <-] E. left.
    eapply Hchange; [|exact E]. intros rq2 E2. rewrite Ei in E2. injection E2 as <-. by apply ev_handle.
  - destruct (rpc_requests s !! i) as [rq|]; [|done]. cbn. destruct (live rq); [|done]. intros [= <-] E. left. eapply Hchange; [|exact E]. intros. by apply ev_promise.
  - destruct (rpc_requests s !! i) as [rq|]; [|done]. cbn. destruct (live rq); [|done]. intros [= <-] E. left. eapply Hchange; [|exact E]. intros. by apply ev_promise.
  - destruct (rpc_requests s !! i) as [rq|]; [|done]. cbn. destruct (rq_stage rq), (rq_promise rq); try done; intros [= <-] E; left; by eapply Hfinish.
  - destruct (rpc_closed s); [done|]. intros [= <-] E. left. exact (Hreject Closed E).
  - destruct (rpc_closed s); [done|]. intros [= <-] E. left. exact (Hreject Dropped E).
Qed.

(** A property of requests that starts true and stays true. *)
Lemma run_requests (P : Request -> Prop) s0 es s :
  (forall id o key, P (MkRequest id key o (expectedResponders o) [] [] Pending [] Publishing)) ->
  (forall e s i rq rq', P rq -> evolves e s i rq rq' -> P rq') ->
  opened s0 -> rpc_run s0 es s -> forall i rq, rpc_requests s !! i = Some rq -> P rq.
Proof.
  intros Hnew Hev (Ho & _) Hrun. induction Hrun as [s|s es s1 e s2 Hrun IH Hstep]; intros i rq Hi; [by rewrite Ho in Hi|].
  destruct (step_requests _ _ _ _ _ Hstep Hi) as [(rq1 & H1' & He)|(_ & id & o & key & ->)]; [|apply Hnew]. eapply Hev; [|exact He]. by eapply IH.
Qed.

(** ** A request ends when all have answered *)

Record answered_ok rq : Prop := {
  an_expected ex : rq_expected rq = Some ex -> NoDup ex /\ ex <> [] /\ NoDup (rq_responders rq) /\ rq_responders rq ⊆ ex /\
    (forall p, p ∈ rq_responders rq <-> p ∈ map snd (rq_results rq)) /\ (rq_promise rq = Pending -> (length (rq_responders rq) < length ex)%nat);
  an_amount a : rq_expected rq = None -> ro_amount (rq_options rq) = Some a -> rq_promise rq = Pending -> rq_results rq = [] \/ (length (rq_results rq) < a)%nat;
}.

Lemma expected_some o ex : expectedResponders o = Some ex -> NoDup ex /\ ex <> [].
Proof.
  unfold expectedResponders. destruct (ro_mode o) as [mode|]; [|done]. cbn. destruct (deliveryModeHasReceiver mode) eqn:Em; [|done]. intros [= <-]. split.
  - assert (Hn : forall (l acc : list string), NoDup acc -> NoDup (fold_left Set_add l acc)); [|apply Hn; constructor].
    induction l as [|x l IH]; intros acc Ha; [done|]. cbn. by apply IH, Set_add_NoDup.
  - intros E. assert (Hr : receivers mode = []).
    { destruct (receivers mode) as [|x l] eqn:Er; [done|]. assert (Hin : x ∈ fold_left Set_add (x :: l) []) by (apply Set_add_all_elem; right; left).
      rewrite E in Hin. by apply elem_of_nil in Hin. }
    destruct mode as [to ?|to ?|[to|] ?|?|]; cbn in Hr, Em; subst; done.
Qed.

Lemma answered_new id o key : answered_ok (MkRequest id key o (expectedResponders o) [] [] Pending [] Publishing).
Proof.
  split; cbn; [|by left]. intros ex [Hn Hne]%expected_some. split_and!; [done|done|constructor|by intros ? ?%elem_of_nil|done|]. intros _. destruct ex; [done|cbn; lia].
Qed.

Lemma answered_evolves e s i rq rq' : answered_ok rq -> evolves e s i rq rq' -> answered_ok rq'.
Proof.
  assert (Hset : forall rq p, p <> Pending -> answered_ok rq -> answered_ok (settle p rq)).
  { intros q p Hp [He Ha]. destruct (settle_same p q) as (_ & _ & E2 & E3 & E4 & E5 & _). pose proof (settle_promise p q Hp) as Hs. split.
    - intros ex. rewrite E3, E4, E5. intros Hex. destruct (He ex Hex) as (? & ? & ? & ? & ? & _). by split_and!.
    - intros a _ _ Hpe. by destruct Hs. }
  intros Hok Hev. destruct Hev as [rq|rq p Hp|rq st|rq topics message id response|rq j x Hj]; [done|by apply Hset|destruct Hok; by split|destruct Hok; by split|].
  set (q := set_running (delete j (rq_running rq)) rq). assert (Hq : answered_ok q) by (destruct Hok; by split). clearbody q. clear Hok Hj rq.
  destruct (handle_cases x.1 x.2 q) as [->|[[er ->]|(v & _ & _ & Ha & Ho)]]; [done|by apply Hset|]. destruct Hq as [He Ham].
  unfold add_result in Ha. rewrite Ho in Ha. destruct (rq_expected q) as [ex|] eqn:Eex.
  - case_bool_decide as Hin; cbn in Ha; injection Ha as <-.
    + destruct (He ex eq_refl) as (Hn & Hne & Hnr & Hsub & Hiff & _).
      assert (Hr : answered_ok (set_promise Resolved (set_results (rq_results q ++ [(v, x.2)]) (Set_add (rq_responders q) x.2) q)) /\
        ((length (Set_add (rq_responders q) x.2) < length ex)%nat -> answered_ok (set_results (rq_results q ++ [(v, x.2)]) (Set_add (rq_responders q) x.2) q))).
      { assert (Hcommon : NoDup (Set_add (rq_responders q) x.2) /\ Set_add (rq_responders q) x.2 ⊆ ex /\
          forall p, p ∈ Set_add (rq_responders q) x.2 <-> p ∈ map snd (rq_results q ++ [(v, x.2)])).
        { split; [by apply Set_add_NoDup|]. split; [intros p [->|Hp]%Set_add_elem; [done|by apply Hsub]|].
          intros p. rewrite Set_add_elem, map_app, elem_of_app, Hiff. cbn. rewrite list_elem_of_singleton. naive_solver. }
        destruct Hcommon as (? & ? & ?). split; [|intros Hlt]; split; cbn; rewrite ?Eex; try done; intros ex' [= <-]; by split_and!. }
      destruct Hr as [Hr1 Hr2]. destruct (Nat.eqb_spec (length (Set_add (rq_responders q) x.2)) (length ex)) as [El|El].
      * unfold settle. cbn. destruct (rq_promise q) eqn:Ep; [exact Hr1| |]; (split; cbn; rewrite ?Eex, ?Ep; try done; intros ex' [= <-];
          destruct (an_expected _ Hr1 ex Eex) as (? & ? & ? & ? & ? & _); by split_and!).
      * apply Hr2. assert (Hle : (length (Set_add (rq_responders q) x.2) <= length ex)%nat).
        { apply submseteq_length, NoDup_submseteq; [by apply Set_add_NoDup|]. intros p [->|Hp]%Set_add_elem; [done|by apply Hsub]. }
        lia.
    + split; [|by rewrite Eex]. intros ex' E'. rewrite Eex in E'. injection E' as <-. by apply He.
  - cbn in Ha. injection Ha as <-. set (q' := set_results _ _ q). destruct (ro_amount (rq_options q)) as [a|] eqn:Ea.
    + destruct (Nat.leb_spec a (length (rq_results q ++ [(v, x.2)]))) as [Hl|Hl].
      * split; [|intros ? _ _ Hp; exfalso; exact (settle_promise Resolved q' ltac:(done) Hp)]. intros ex. destruct (settle_same Resolved q') as (_ & _ & _ & -> & _). cbn. by rewrite Eex.
      * split; cbn; rewrite ?Eex; [done|]. intros a' _ E' _. cbn in Ea. rewrite Ea in E'. injection E' as <-. by right.
    + split; cbn; rewrite ?Eex; [done|]. intros a' _ E'. cbn in Ea. congruence.
Qed.

(** ** Where results come from *)

(** A message with a response to [id] has come. *)
Definition came (topic : string) (es : list Event) (id : string) (response : Sealed) (from : string) : Prop :=
  exists topics message, Receive topics message (Val (ResponseV0 id response)) ∈ es /\ topic ∈ topics /\ me_from message = from.

Definition result_of topic es rq (y : R * string) : Prop :=
  exists response, came topic es (rq_id rq) response y.2 /\ read_response rq response y.2 = Val (Some y.1) /\ (forall ex, rq_expected rq = Some ex -> y.2 ∈ ex).

Record genuine (es : list Event) s : Prop := {
  ge_resolvers id i : Map_get (rpc_resolvers s) id = Some i -> exists rq, rpc_requests s !! i = Some rq /\ rq_id rq = id;
  ge_running i rq x : rpc_requests s !! i = Some rq -> x ∈ rq_running rq -> came (rpc_topic s) es (rq_id rq) x.1 x.2;
  ge_results i rq y : rpc_requests s !! i = Some rq -> y ∈ rq_results rq -> result_of (rpc_topic s) es rq y;
}.

Lemma came_later topic es e id response from : came topic es id response from -> came topic (es ++ [e]) id response from.
Proof. intros (topics & m & Hin & ?). exists topics, m. split; [|done]. apply elem_of_app. by left. Qed.

Lemma read_fixed rq rq' response from : rq_key rq' = rq_key rq -> rq_options rq' = rq_options rq -> read_response rq' response from = read_response rq response from.
Proof. intros Ek Eo. unfold read_response. by rewrite Ek, Eo. Qed.

Lemma finish_rest i r s : rpc_topic (finish i r s) = rpc_topic s /\
  (forall id k, Map_get (rpc_resolvers (finish i r s)) id = Some k -> Map_get (rpc_resolvers s) id = Some k) /\
  length (rpc_requests (finish i r s)) = length (rpc_requests s).
Proof.
  unfold finish. destruct (rpc_requests s !! i); [|done]. cbn. rewrite length_alter. split_and!; [done| |done].
  intros id k. rewrite Map_get_delete. by case_decide.
Qed.

Lemma step_rest e s s' : rpc_step e s = Some s' -> rpc_topic s' = rpc_topic s /\ (length (rpc_requests s) <= length (rpc_requests s'))%nat /\
  forall id i, Map_get (rpc_resolvers s') id = Some i -> Map_get (rpc_resolvers s) id = Some i \/ exists rq, rpc_requests s' !! i = Some rq /\ rq_id rq = id.
Proof.
  assert (Hf : forall i r, rpc_topic (finish i r s) = rpc_topic s /\ (length (rpc_requests s) <= length (rpc_requests (finish i r s)))%nat /\
    forall id k, Map_get (rpc_resolvers (finish i r s)) id = Some k -> Map_get (rpc_resolvers s) id = Some k \/ exists rq, rpc_requests (finish i r s) !! k = Some rq /\ rq_id rq = id).
  { intros i r. destruct (finish_rest i r s) as (E1 & E2 & E3). split_and!; [done|lia|]. intros id k Hk. left. by apply E2. }
  destruct e as [request o id key|i r|topics message data|i j|i|i x|i| |]; cbn [rpc_step].
  - intros [= <-]. unfold request_start. destruct (rpc_closed s); cbn; [split_and!; auto|]. rewrite length_app. split_and!; [done|lia|].
    intros id' i. rewrite Map_get_set. case_decide as Hid; [intros [= <-]; right|by left]. eexists. rewrite lookup_app_r, Nat.sub_diag by lia. by split.
  - destruct (rpc_requests s !! i) as [rq|]; [|done]. cbn. destruct (rq_stage rq); [|done..]. intros [= <-]. destruct r; [|apply Hf..]. cbn. rewrite length_alter. split_and!; auto.
  - destruct (rpc_subscribed s); [|done]. intros [= <-]. unfold onMessage. case_bool_decide; [|split_and!; auto]. destruct data as [[respondTo request|id response]|e|]; [| |split_and!; auto..].
    + destruct (respond _ _ _ _) as [[p|]| |]; split_and!; auto.
    + destruct (Map_get (rpc_resolvers s) id); cbn; rewrite ?length_alter; split_and!; auto.
  - destruct (rpc_requests s !! i) as [rq|]; [|done]. cbn. destruct (rq_running rq !! j); [|done]. cbn. intros [= <-]. cbn. rewrite length_alter. split_and!; auto.
  - destruct (rpc_requests s !! i) as [rq|]; [|done]. cbn. destruct (live rq); [|done]. intros [= <-]. cbn. rewrite length_alter. split_and!; auto.
  - destruct (rpc_requests s !! i) as [rq|]; [|done]. cbn. destruct (live rq); [|done]. intros [= <-]. cbn. rewrite length_alter. split_and!; auto.
  - destruct (rpc_requests s !! i) as [rq|]; [|done]. cbn. destruct (rq_stage rq), (rq_promise rq); try done; intros [= <-]; apply Hf.
  - destruct (rpc_closed s); [done|]. intros [= <-]. cbn. rewrite length_map. split_and!; auto.
  - destruct (rpc_closed s); [done|]. intros [= <-]. cbn. rewrite length_map. split_and!; auto.
Qed.

Lemma result_evolves topic es e s i rq rq' : evolves e s i rq rq' ->
  (forall x, x ∈ rq_running rq -> came topic es (rq_id rq) x.1 x.2) -> (forall y, y ∈ rq_results rq -> result_of topic es rq y) ->
  forall y, y ∈ rq_results rq' -> result_of topic es rq' y.
Proof.
  intros Hev Hrun Hres y Hy. destruct (evolves_fixed _ _ _ _ _ Hev) as (Ei & Ek & Eo & Ee).
  assert (Hold : y ∈ rq_results rq -> result_of topic es rq' y).
  { intros Hy'. destruct (Hres y Hy') as (response & Hc & Hr & Hex). exists response. rewrite Ei, Ee. split_and!; [done| |done]. by rewrite (read_fixed rq rq'). }
  destruct Hev as [rq|rq p Hp|rq st|rq topics message id response|rq j x Hj]; [by apply Hold| |by apply Hold|by apply Hold|].
  { apply Hold. by destruct (settle_same p rq) as (_ & _ & _ & _ & <- & _). }
  set (q := set_running (delete j (rq_running rq)) rq) in *. destruct (handle_cases x.1 x.2 q) as [E|[[er E]|(v & Hr & Hex & Ha & _)]].
  - rewrite E in *. by apply Hold.
  - apply Hold. rewrite E in Hy. by destruct (settle_same (Rejected er) q) as (_ & _ & _ & _ & E' & _); rewrite E' in Hy.
  - destruct (add_result_same _ _ _ _ Ha) as (_ & _ & _ & _ & _ & _ & [E|E]); rewrite E in Hy; [|by apply Hold].
    apply elem_of_app in Hy as [Hy| ->%list_elem_of_singleton]; [by apply Hold|]. exists x.1. rewrite Ei, Ee. cbn [fst snd]. split_and!; [|by rewrite (read_fixed q)|done].
    apply Hrun. by eapply list_elem_of_lookup_2.
Qed.

Lemma genuine_step es e s s' : genuine es s -> rpc_step e s = Some s' -> genuine (es ++ [e]) s'.
Proof.
  intros [Hres Hrun Hret] Hstep. destruct (step_rest _ _ _ Hstep) as (Et & Hlen & Hmap). split; rewrite ?Et.
  - intros id i Hi. destruct (Hmap id i Hi) as [Hi'|?]; [|done]. destruct (Hres id i Hi') as (rq & Hrq & Hid).
    destruct (lookup_lt_is_Some_2 (rpc_requests s') i) as [rq' Hrq']; [pose proof (lookup_lt_Some _ _ _ Hrq); lia|].
    exists rq'. split; [done|]. destruct (step_requests _ _ _ _ _ Hstep Hrq') as [(rq2 & Hrq2 & Hev)|(Hn & _)]; [|congruence].
    destruct (evolves_fixed _ _ _ _ _ Hev) as (-> & _). congruence.
  - intros i rq' x Hrq' Hx. destruct (step_requests _ _ _ _ _ Hstep Hrq') as [(rq & Hrq & Hev)|(_ & id & o & key & ->)]; [|by apply elem_of_nil in Hx].
    destruct (evolves_fixed _ _ _ _ _ Hev) as (Ei & _). rewrite Ei.
    assert (Hold : x ∈ rq_running rq -> came (rpc_topic s) (es ++ [e]) (rq_id rq) x.1 x.2) by (intros Hx'; by eapply came_later, Hrun).
    destruct Hev as [rq|rq p Hp|rq st|rq topics message id response He Ht Hid|rq j z Hj]; [by apply Hold| |by apply Hold| |].
    + apply Hold. by destruct (settle_same p rq) as (_ & _ & _ & _ & _ & _ & <- & _).
    + cbn in Hx. apply elem_of_app in Hx as [Hx| ->%list_elem_of_singleton]; [by apply Hold|]. destruct (Hres id i Hid) as (rq2 & Hrq2 & <-).
      assert (rq2 = rq) as -> by congruence. exists topics, message. split; [|done]. rewrite He. apply elem_of_app. right. by apply list_elem_of_singleton.
    + apply Hold. destruct (handle_same z.1 z.2 (set_running (delete j (rq_running rq)) rq)) as (_ & _ & _ & _ & E & _). rewrite E in Hx. cbn in Hx.
      rewrite list_elem_of_lookup in Hx |- *. destruct Hx as [l Hl]. destruct (decide (l < j)%nat); [rewrite list_lookup_delete_lt in Hl by done|rewrite list_lookup_delete_ge in Hl by lia]; by eexists.
  - intros i rq' y Hrq' Hy. destruct (step_requests _ _ _ _ _ Hstep Hrq') as [(rq & Hrq & Hev)|(_ & id & o & key & ->)]; [|by apply elem_of_nil in Hy].
    eapply (result_evolves _ _ _ _ _ rq rq' Hev); [|  |exact Hy].
    + intros x Hx. by eapply came_later, Hrun.
    + intros z Hz. destruct (Hret i rq z Hrq Hz) as (response & Hc & ?). exists response. split; [by apply came_later|done].
Qed.

Lemma run_genuine s0 es s : opened s0 -> rpc_run s0 es s -> genuine es s.
Proof.
  intros (H1' & H2' & _) Hrun. induction Hrun as [s|s es s1 e s2 Hrun IH Hstep]; [|by eapply genuine_step; [apply IH|]].
  split; rewrite ?H1', ?H2'; done.
Qed.

(** ** The guarantees *)

(** C9. From a node as open leaves it, and whatever comes over the network, a result of
    a request is what its own key opens of a response to its id that came on the
    topic, from a peer that isTrusted (if given) approves, and from one of those it
    asked if it named some. *)
Theorem answers_genuine s0 es s i rq v from :
  opened s0 -> rpc_run s0 es s -> rpc_requests s !! i = Some rq -> (v, from) ∈ rq_results rq ->
  exists topics message response d,
    Receive topics message (Val (ResponseV0 (rq_id rq) response)) ∈ es /\ rpc_topic s ∈ topics /\ me_from message = from /\
    decrypt [rq_key rq] response = Val d /\ decode_value d = Val v /\
    (forall f, ro_isTrusted (rq_options rq) = Some f -> f from = Val true) /\
    (forall ex, rq_expected rq = Some ex -> from ∈ ex).
Proof.
  intros Ho Hrun Hi Hv. destruct (ge_results _ _ (run_genuine _ _ _ Ho Hrun) i rq (v, from) Hi Hv) as (response & (topics & message & Hin & Ht & Hf) & Hr & Hex).
  cbn [fst snd] in *. unfold read_response in Hr. exists topics, message, response.
  destruct (match ro_isTrusted (rq_options rq) with Some f => f from | None => Val true end) as [trusted|e|] eqn:Et; [|done|done]. cbn [mbind outcome_bind] in Hr.
  destruct trusted; [|done]. cbn in Hr. destruct (decrypt [rq_key rq] response) as [d|e|]; [|done|done]. cbn in Hr.
  destruct (decode_value d) as [v'|e|] eqn:Ed; [|done|done]. cbn in Hr. injection Hr as <-. exists d. split_and!; try done.
  intros f E. by rewrite E in Et.
Qed.

(** The request [i] has ended in [s]. *)
Definition ended i s : Prop := exists rq r, rpc_requests s !! i = Some rq /\ rq_stage rq = Ended r.

Lemma finish_ended i r s rq : rpc_requests s !! i = Some rq -> ended i (finish i r s).
Proof. intros E. unfold finish, ended. rewrite E. cbn. rewrite list_lookup_alter_eq, E. cbn. eexists _, _. by split. Qed.

Lemma return_ends s i rq : rpc_requests s !! i = Some rq -> rq_stage rq = Waiting -> rq_promise rq <> Pending ->
  exists s', rpc_step (Return i) s = Some s' /\ ended i s'.
Proof.
  intros Hi Hw Hp. cbn. rewrite Hi. cbn. rewrite Hw. destruct (rq_promise rq) as [| |e]; [done|..]; (eexists; split; [done|by eapply finish_ended]).
Qed.

(** C10. In every state that a node reaches from open, a request that has been published
    and waits can end at once when the peers it named have all answered, or, when it
    named none, when it has as many results as it wants and at least one; and its
    timer makes any other waiting request end. *)
Theorem request_settles s0 es s i rq :
  opened s0 -> rpc_run s0 es s -> rpc_requests s !! i = Some rq -> rq_stage rq = Waiting ->
  (((exists ex, rq_expected rq = Some ex /\ forall p, p ∈ ex -> p ∈ map snd (rq_results rq)) \/
    (exists a, rq_expected rq = None /\ ro_amount (rq_options rq) = Some a /\ (0 < length (rq_results rq))%nat /\ (a <= length (rq_results rq))%nat)) ->
   exists s', rpc_step (Return i) s = Some s' /\ ended i s') /\
  (exists s1 s2, rpc_step (Timeout i) s = Some s1 /\ rpc_step (Return i) s1 = Some s2 /\ ended i s2).
Proof.
  intros Ho Hrun Hi Hw. pose proof (run_requests answered_ok s0 es s answered_new answered_evolves Ho Hrun i rq Hi) as [Hex Ham]. split.
  - intros Hall. apply (return_ends s i rq Hi Hw). intros Hp. destruct Hall as [(ex & E & Hall)|(a & E & Ea & H0' & Hle)].
    + destruct (Hex ex E) as (Hn & _ & Hnr & Hsub & Hiff & Hlt). specialize (Hlt Hp).
      assert (Hsub' : ex ⊆+ rq_responders rq) by (apply NoDup_submseteq; [done|]; intros p Hp'; by apply Hiff, Hall). apply submseteq_length in Hsub'. lia.
    + destruct (Ham a E Ea Hp) as [E0|?]; [|lia]. rewrite E0 in H0'. cbn in H0'. lia.
  - exists (change i (settle Resolved) s). assert (Hi' : rpc_requests (change i (settle Resolved) s) !! i = Some (settle Resolved rq)) by (cbn; by rewrite list_lookup_alter_eq, Hi).
    destruct (return_ends _ i _ Hi') as (s2 & E & He).
    { destruct (settle_same Resolved rq) as (_ & _ & _ & _ & _ & _ & _ & ->). done. }
    { by apply settle_promise. }
    exists s2. split; [|done]. cbn. rewrite Hi. cbn. unfold live. by rewrite Hw.
Qed.

(** ** A request and its answer *)

Context `{!SealingLaws Key Sealed D, !CodecLaws Q D, !CodecLaws R D}.

(** The peer [t] named [peer] answers [h]; the asking node [s] is called [me]. *)
Record exchange (s t : Rpc) (me peer : string) (o : RequestOptions) (h : Q -> string -> Z -> outcome (option R)) : Prop := {
  ex_open : rpc_closed s = false /\ rpc_subscribed s = true;
  ex_topic : rpc_topic t = rpc_topic s;
  ex_handler : rpc_handler t = Some h;
  ex_keys k ks : ro_encryption o = Some (k, ks) -> ks <> [] -> exists k', k' ∈ ks /\ k' ∈ rpc_keychain t;
  ex_trusted f : ro_isTrusted o = Some f -> f peer = Val true;
  ex_callback f v : ro_onResponse o = Some f -> f v peer = Val tt;
  ex_expected ex : expectedResponders o = Some ex -> peer ∈ ex;
}.

Lemma sealed_opens t (request : Q) respondTo encryption :
  (forall k ks, encryption = Some (k, ks) -> ks <> [] -> exists k', k' ∈ ks /\ k' ∈ rpc_keychain t) ->
  exists sealed, seal request respondTo encryption = RequestV0 respondTo sealed /\ decrypt (rpc_keychain t) sealed = Val (encode_value request).
Proof.
  intros Hk. unfold seal. eexists. split; [done|]. destruct encryption as [[k [|k1 ks]]|]; [apply law_plain| |apply law_plain].
  destruct (Hk k (k1 :: ks) eq_refl) as (k' & H1' & H2'); [done|]. by eapply law_sealed.
Qed.

(** C11. A request travels to a peer, and what the handler of the peer returns for it
    becomes the one result of the request, sealed for the key of this request and
    sent to the node that asked. Conditions: the asking node is open and subscribed;
    both nodes use one topic; the peer holds one of the keys that the request is
    encrypted for, if any; it is trusted and, if the request names peers, among
    them; the callback onResponse does not throw; and each message arrives under the
    id and from the node it was published with. *)
Theorem exchange_roundtrip s t me peer o h (request : Q) (response : R) id key i s1 m m' :
  exchange s t me peer o h -> request_start request o id key s = (Val i, s1) ->
  me_id m = id -> me_from m = me -> me_from m' = peer -> h request me (me_timestamp m) = Val (Some response) ->
  exists p p' s2 s3 rq, rpc_published s1 = rpc_published s ++ [p] /\ pu_id p = Some id /\
    rpc_published (onMessage (pu_topics p) m (Val (pu_message p)) t) = rpc_published t ++ [p'] /\ pu_mode p' = Some (SilentDelivery [me] 1) /\
    rpc_step (Receive (pu_topics p') m' (Val (pu_message p'))) s1 = Some s2 /\ rpc_step (HandlerDone i 0) s2 = Some s3 /\
    rpc_requests s3 !! i = Some rq /\ rq_results rq = [(response, peer)].
Proof.
  intros [[Hcl Hsub] Htop Hh Hk Htr Hcb Hex] Hstart Hmid Hme Hpeer Hhr. unfold request_start in Hstart. rewrite Hcl in Hstart.
  injection Hstart as <- <-. destruct (sealed_opens t request (Some key) (ro_encryption o) Hk) as (sealed & Es & Ed).
  eexists. exists (MkPublication None [rpc_topic t] (Some (SilentDelivery [me] 1)) (me_priority m) (ResponseV0 id (encrypt (rpc_keypair t) [key] (encode_value response)))).
  set (i := length (rpc_requests s)). set (r0 := MkRequest id key o (expectedResponders o) [] [] Pending [] Publishing).
  set (x := (encrypt (rpc_keypair t) [key] (encode_value response), peer)).
  assert (Hhandled : rq_results (handle_response x.1 x.2 r0) = [(response, peer)]).
  { unfold handle_response, read_response. cbn [rq_options r0 x fst snd rq_key].
    replace (match ro_isTrusted o with Some f => f peer | None => Val true end) with (Val true) by (destruct (ro_isTrusted o) as [f|] eqn:E; [symmetry; by apply Htr|done]).
    cbn [mbind outcome_bind negb]. rewrite (law_sealed (rpc_keypair t) key [key] [key]) by by left. cbn [mbind outcome_bind]. rewrite law_decoded. cbn [mbind outcome_bind].
    unfold add_result, onResponse. cbn [rq_options rq_expected r0 rq_results rq_responders].
    replace (match ro_onResponse o with Some f => f response peer | None => Val tt end) with (Val tt) by (destruct (ro_onResponse o) as [f|] eqn:E; [symmetry; by apply Hcb|done]).
    destruct (expectedResponders o) as [ex|] eqn:E.
    - rewrite bool_decide_true by by apply Hex. cbn [mbind outcome_bind]. by destruct (_ =? _)%nat.
    - cbn [mbind outcome_bind]. cbn. destruct (ro_amount o); [|done]. by destruct (_ <=? _)%nat. }
  assert (Hres : rpc_requests (change i (fun r => set_running (rq_running r ++ [x]) r) (set_requests (rpc_requests s ++ [r0]) s)) !! i = Some (set_running [x] r0)).
  { cbn. rewrite list_lookup_alter_eq. unfold i. by rewrite lookup_app_r, Nat.sub_diag by lia. }
  eexists _, _, (handle_response x.1 x.2 r0). split_and!.
  - done.
  - done.
  - unfold onMessage. cbn [getPublishOptions pu_topics pu_message]. rewrite bool_decide_true by (rewrite Htop; by left). rewrite Es. unfold respond. rewrite Hh, Ed. cbn [mbind outcome_bind]. rewrite law_decoded. cbn [mbind outcome_bind].
    rewrite Hme, Hhr, Hmid. cbn [mbind outcome_bind]. done.
  - done.
  - cbn. rewrite Hsub. unfold onMessage. cbn. rewrite bool_decide_true by (rewrite Htop; by left). by rewrite Map_get_set_eq.
  - cbn -[change]. fold i r0. rewrite Hpeer. fold x. change (rpc_requests (change i ?f ?s0)) with (alter f i (rpc_requests s0)).
    cbn. rewrite list_lookup_alter_eq, lookup_app_r, Nat.sub_diag by lia. cbn. done.
  - cbn. unfold change. cbn. rewrite list_lookup_alter_eq. fold i r0. rewrite list_lookup_alter_eq. unfold i. rewrite lookup_app_r, Nat.sub_diag by lia. cbn. done.
  - exact Hhandled.
Qed.

(** The array that a request has returned still grows when a response was being
    opened as it ended. *)
Theorem ended_still_grows s i rq r x v :
  rpc_requests s !! i = Some rq -> rq_stage rq = Ended r -> rq_running rq !! 0%nat = Some x ->
  read_response rq x.1 x.2 = Val (Some v) -> onResponse rq v x.2 = Val tt -> (forall ex, rq_expected rq = Some ex -> x.2 ∈ ex) ->
  exists s' rq', rpc_step (HandlerDone i 0) s = Some s' /\ rpc_requests s' !! i = Some rq' /\ rq_stage rq' = Ended r /\ rq_results rq' = rq_results rq ++ [(v, x.2)].
Proof.
  intros Hi Hst Hx Hr Ho Hex. cbn. rewrite Hi. cbn. rewrite Hx. cbn. set (q := set_running (delete 0%nat (rq_running rq)) rq).
  exists (change i (fun r => handle_response x.1 x.2 (set_running (delete 0%nat (rq_running r)) r)) s), (handle_response x.1 x.2 q). split; [done|].
  split; [cbn; by rewrite list_lookup_alter_eq, Hi|]. destruct (handle_same x.1 x.2 q) as (_ & _ & _ & _ & _ & ->). split; [done|].
  unfold handle_response. rewrite (read_fixed rq q) by done. rewrite Hr. cbn [mbind outcome_bind]. unfold add_result. change (onResponse q v x.2) with (onResponse rq v x.2). rewrite Ho.
  change (rq_expected q) with (rq_expected rq). destruct (rq_expected rq) as [ex|] eqn:E.
  - rewrite bool_decide_true by by apply Hex. cbn [mbind outcome_bind]. unfold settle. destruct (_ =? _)%nat; [|done]. by destruct (rq_promise _).
  - cbn [mbind outcome_bind]. unfold settle. destruct (ro_amount _); [|done]. destruct (_ <=? _)%nat; [|done]. by destruct (rq_promise _).
Qed.

End Rpc.

(** ** The peers of a search *)

Section Peers.
Context {Key Sealed D T I : Type} `{Sealing Key Sealed D, !Codec SearchRequests D, !Codec (AbstractSearchResult T I) D}.
Abbreviation Node := (Rpc (Key := Key) (Sealed := Sealed) (Q := SearchRequests) (R := AbstractSearchResult T I)).
Abbreviation NodeEvent := (Event (Key := Key) (Sealed := Sealed) (Q := SearchRequests) (R := AbstractSearchResult T I)).

(** A node with RPC, the peers that cover its store, and what will happen: the events
    until each of its requests has timed out, and what it will draw. *)
Record RpcPeers := MkRpcPeers {
  rp_node : Node;
  rp_cover : option (list string);
  rp_random : nat;
  rp_fresh : nat -> string * Key;
  rp_events : list (list NodeEvent);
}.

(** What cannot happen does not. *)
Fixpoint happens (es : list NodeEvent) (s : Node) : Node :=
  match es with [] => s | e :: es => happens es (default s (rpc_step e s)) end.

Definition search_options (peers : list (option string)) : RequestOptions (Key := Key) (R := AbstractSearchResult T I) :=
  MkRequestOptions (Some (SilentDelivery (omap Datatypes.id peers) 1)) (Some 1) None None None None.

Definition rpc_search (q : SearchRequests) (peers : list (option string)) (r : RpcPeers) :
    outcome (list (option string * AbstractSearchResult T I)) * RpcPeers :=
  let '(id, key) := rp_fresh r (length (rpc_requests (rp_node r))) in
  match request_start q (search_options peers) id key (rp_node r) with
  | (Val i, s) =>
      let s := happens (PublishDone i (Val tt) :: default [] (head (rp_events r)) ++ [Timeout i; Return i]) s in
      (match rpc_requests s !! i with
       | Some rq =>
           match rq_stage rq with
           | Ended (Val _) => Val (map (fun y => (Some y.2, y.1)) (rq_results rq))
           | Ended (Exn e) => Exn e
           | _ => NoFuel
           end
       | None => NoFuel
       end, MkRpcPeers s (rp_cover r) (rp_random r) (rp_fresh r) (tail (rp_events r)))
  | (Exn e, s) => (Exn e, MkRpcPeers s (rp_cover r) (rp_random r) (rp_fresh r) (rp_events r))
  | (NoFuel, s) => (NoFuel, r)
  end.

#[export] Instance rpc_peers : SearchPeers RpcPeers T I := {
  sp_cover := rp_cover;
  sp_random := rp_random;
  sp_request := rpc_search;
  sp_send q p r := (Val tt, MkRpcPeers (send q (search_options [Some p]) (rp_node r)) (rp_cover r) (rp_random r) (rp_fresh r) (rp_events r));
}.

(** A request with its answers: they come from expected peers. *)
Definition expects (ex : list string) (rq : Request (Key := Key) (Sealed := Sealed) (R := AbstractSearchResult T I)) : Prop :=
  rq_expected rq = Some ex /\ forall y, y ∈ rq_results rq -> y.2 ∈ ex.

Lemma expects_evolves ex e (s : Node) i rq rq' : expects ex rq -> evolves e s i rq rq' -> expects ex rq'.
Proof.
  intros [He Hr] Hev. destruct (evolves_fixed _ _ _ _ _ Hev) as (_ & _ & _ & Ee). split; [by rewrite Ee|].
  destruct Hev as [rq|rq p Hp|rq st|rq topics message id response|rq j x Hj]; [done| |done|done|].
  { by destruct (settle_same p rq) as (_ & _ & _ & _ & -> & _). }
  set (q := set_running (delete j (rq_running rq)) rq) in *. destruct (handle_cases x.1 x.2 q) as [->|[[er ->]|(v & _ & Hex & Ha & _)]]; [done| |].
  - by destruct (settle_same (Rejected er) q) as (_ & _ & _ & _ & -> & _).
  - destruct (add_result_same _ _ _ _ Ha) as (_ & _ & _ & _ & _ & _ & [->| ->]); [|done]. intros y [Hy| ->%list_elem_of_singleton]%elem_of_app; [by apply Hr|].
    by apply Hex.
Qed.

Lemma happens_expects ex es (s : Node) i :
  (exists rq, rpc_requests s !! i = Some rq /\ expects ex rq) -> exists rq, rpc_requests (happens es s) !! i = Some rq /\ expects ex rq.
Proof.
  revert s. induction es as [|e es IH]; intros s Hs; cbn [happens]; [done|]. apply IH. destruct (rpc_step e s) as [s'|] eqn:E; [|done]. cbn.
  destruct Hs as (rq & Hi & Hex). destruct (step_rest _ _ _ E) as (_ & Hlen & _). destruct (lookup_lt_is_Some_2 (rpc_requests s') i) as [rq' Hi'].
  { pose proof (lookup_lt_Some _ _ _ Hi). lia. }
  exists rq'. split; [done|]. destruct (step_requests _ _ _ _ _ E Hi') as [(rq2 & Hi2 & Hev)|[? _]]; [|congruence].
  assert (rq2 = rq) as -> by congruence. by eapply expects_evolves.
Qed.

Lemma omap_asked (ps : list string) : omap Datatypes.id (map Some ps) = ps.
Proof. induction ps as [|p ps IH]; [done|]. cbn. by f_equal. Qed.

(** RPC keeps its promise to a search. *)
#[export] Instance rpc_peers_laws : SearchPeersLaws RpcPeers T I.
Proof.
  split. intros q p ps r r' rs x. cbn [sp_request rpc_peers]. unfold rpc_search. destruct (rp_fresh r _) as [id key].
  destruct (request_start q _ id key (rp_node r)) as [[i|e|] s] eqn:Es; [|done|done]. set (es := PublishDone i (Val tt) :: _).
  destruct (happens_expects (fold_left Set_add (p :: ps) []) es s i) as (rq & Hi & _ & Hr).
  { unfold request_start in Es. destruct (rpc_closed _); [done|]. injection Es as <- <-. eexists. split.
    - cbn. by rewrite lookup_app_r, Nat.sub_diag by lia.
    - split; [cbn; by rewrite omap_asked|by intros y ?%elem_of_nil]. }
  rewrite Hi. cbn. destruct (rq_stage rq) as [| |[[]|e|]]; cbn; [done|done| |done|done]. intros [= <- _] (y & -> & Hy)%list_elem_of_fmap.
  apply Hr in Hy. apply Set_add_all_elem in Hy as [Hy|Hy]; [by apply elem_of_nil in Hy|]. exact (list_elem_of_fmap_2 Some _ _ Hy).
Qed.

End Peers.
