(* ===== verification/DirectStream.v ===== *)
(** * A node of the network: its state and how it sends
    (packages/transport/stream/src/index.ts, class DirectStream)

    The state of a node with the streams to its neighbours, its routes, the
    messages seen and the deliveries it waits for.  The closure that
    [createDeliveryPromise] builds is the record [AckWait]; promises are
    numbered; a timer is pending while its entry is in the table.  The clock, the
    random ids and the log of what leaves the node are part of the state.

    The class is abstract: a subclass adds fields of its own ([st_ext]) and
    overrides methods, see StreamReceive. *)

From Stdlib Require Import ZArith Lia.
From stdpp Require Import base list strings pretty.
From S2P Require Import Prelude JsMap Cache JsVal Integers Ranges PushableLanes Routes StreamMessages PeerStreams Effects.

Local Open Scope Z_scope.
Local Open Scope effects_scope.

Definition DEFAULT_SEEK_MESSAGE_REDUDANCY : Z := 2.
Definition DEFAULT_SILENT_MESSAGE_REDUDANCY : Z := 1.

(** A promise made with [pDefer]. *)
Inductive Deferred := Pending | Resolved | RejectedWith (error : string).

(** Error messages, by the class of the error. *)
Definition NotStartedError : string := "Not started".
Definition DeliveryError : string := "DeliveryError".

Section Stream.
Context `{Hashing} `{!EqDecision PublicSignKey} `{!JsEnv} `{!Wire, !Signing}.
Context {Qs Qm X : Type} `{Queue Qs string} `{Queue Qm (Next (list Z) string)}.

Abbreviation Peer := (PeerStreams Qm).
Abbreviation Seen := (Cache.Cache string Z Qs).
Abbreviation Pruned := (Cache.Cache string string Qs).

(** ** State *)

(** The options of the connection manager that matter here. *)
Record Pruner := MkPruner { pruner_bandwidth : option Z; pruner_maxBuffer : option Z }.

Record Config := MkConfig {
  cf_keypair : Keypair;
  canRelayMessage : bool;
  routeSeekInterval : Z;
  cf_routeMaxRetentionPeriod : Z;
  minConnections : Z;
  dialer : bool;
  pruner : option Pruner;
  (** the addresses of the node, and what [randomBytes] returns *)
  getAddresses : list string;
  random_id : nat -> list Z;
}.

(** The variables of one call of [createDeliveryPromise]. *)
Record AckWait := MkAckWait {
  aw_promise : nat;
  messageToSet : list string;
  haveReceivers : bool;
  aw_relayed : bool;
  filterMessageForSeenCounter : option Z;
  aw_seek : bool;
  aw_session : Z;
  fastestNodesReached : list (string * list Z);
  uniqueAcks : list string;
}.

(** What leaves the node and what its listeners are told. *)
Inductive Effect :=
| Sent (to : string) (m : Message)
| PeerReachable (key : PublicSignKey)
| PeerUnreachable (key : option PublicSignKey)
| PeerSession (key : PublicSignKey)
| DataEvent (m : Message)
| MessageEvent (m : Message)
| ListenerTypeError
| OpenConnection (address : string)
| CloseConnections (hash : string)
| OutboundInflight (hash : string).

Record Stream := MkStream {
  st_config : Config;
  st_ext : X;
  started : bool;
  stopping : bool;
  session : Z;
  peers : list (string * (PublicSignKey * Peer));
  peerKeyHashToPublicKey : list (string * PublicSignKey);
  st_routes : Routes;
  seenCache : Seen;
  healthChecks : list (string * bool);
  ackCallbacks : list (string * AckWait);
  promises : list Deferred;
  prunedConnectionsCache : option Pruned;
  recentDials : option Pruned;
  clock : Z;
  drawn : nat;
  st_log : list Effect;
}.

Definition set_st_ext (v : X) (s : Stream) : Stream :=
  MkStream (st_config s) v (started s) (stopping s) (session s) (peers s) (peerKeyHashToPublicKey s)
    (st_routes s) (seenCache s) (healthChecks s) (ackCallbacks s) (promises s) (prunedConnectionsCache s)
    (recentDials s) (clock s) (drawn s) (st_log s).
Definition set_started (v : bool) (s : Stream) : Stream :=
  MkStream (st_config s) (st_ext s) v (stopping s) (session s) (peers s) (peerKeyHashToPublicKey s) (st_routes
    s) (seenCache s) (healthChecks s) (ackCallbacks s) (promises s) (prunedConnectionsCache s) (recentDials s)
    (clock s) (drawn s) (st_log s).
Definition set_stopping (v : bool) (s : Stream) : Stream :=
  MkStream (st_config s) (st_ext s) (started s) v (session s) (peers s) (peerKeyHashToPublicKey s) (st_routes
    s) (seenCache s) (healthChecks s) (ackCallbacks s) (promises s) (prunedConnectionsCache s) (recentDials s)
    (clock s) (drawn s) (st_log s).
Definition set_session (v : Z) (s : Stream) : Stream :=
  MkStream (st_config s) (st_ext s) (started s) (stopping s) v (peers s) (peerKeyHashToPublicKey s) (st_routes
    s) (seenCache s) (healthChecks s) (ackCallbacks s) (promises s) (prunedConnectionsCache s) (recentDials s)
    (clock s) (drawn s) (st_log s).
Definition set_peers (v : list (string * (PublicSignKey * Peer))) (s : Stream) : Stream :=
  MkStream (st_config s) (st_ext s) (started s) (stopping s) (session s) v (peerKeyHashToPublicKey s)
    (st_routes s) (seenCache s) (healthChecks s) (ackCallbacks s) (promises s) (prunedConnectionsCache s)
    (recentDials s) (clock s) (drawn s) (st_log s).
Definition set_peerKeyHashToPublicKey (v : list (string * PublicSignKey)) (s : Stream) : Stream :=
  MkStream (st_config s) (st_ext s) (started s) (stopping s) (session s) (peers s) v (st_routes s) (seenCache
    s) (healthChecks s) (ackCallbacks s) (promises s) (prunedConnectionsCache s) (recentDials s) (clock s)
    (drawn s) (st_log s).
Definition set_st_routes (v : Routes) (s : Stream) : Stream :=
  MkStream (st_config s) (st_ext s) (started s) (stopping s) (session s) (peers s) (peerKeyHashToPublicKey s)
    v (seenCache s) (healthChecks s) (ackCallbacks s) (promises s) (prunedConnectionsCache s) (recentDials s)
    (clock s) (drawn s) (st_log s).
Definition set_seenCache (v : Seen) (s : Stream) : Stream :=
  MkStream (st_config s) (st_ext s) (started s) (stopping s) (session s) (peers s) (peerKeyHashToPublicKey s)
    (st_routes s) v (healthChecks s) (ackCallbacks s) (promises s) (prunedConnectionsCache s) (recentDials s)
    (clock s) (drawn s) (st_log s).
Definition set_healthChecks (v : list (string * bool)) (s : Stream) : Stream :=
  MkStream (st_config s) (st_ext s) (started s) (stopping s) (session s) (peers s) (peerKeyHashToPublicKey s)
    (st_routes s) (seenCache s) v (ackCallbacks s) (promises s) (prunedConnectionsCache s) (recentDials s)
    (clock s) (drawn s) (st_log s).
Definition set_ackCallbacks (v : list (string * AckWait)) (s : Stream) : Stream :=
  MkStream (st_config s) (st_ext s) (started s) (stopping s) (session s) (peers s) (peerKeyHashToPublicKey s)
    (st_routes s) (seenCache s) (healthChecks s) v (promises s) (prunedConnectionsCache s) (recentDials s)
    (clock s) (drawn s) (st_log s).
Definition set_promises (v : list Deferred) (s : Stream) : Stream :=
  MkStream (st_config s) (st_ext s) (started s) (stopping s) (session s) (peers s) (peerKeyHashToPublicKey s)
    (st_routes s) (seenCache s) (healthChecks s) (ackCallbacks s) v (prunedConnectionsCache s) (recentDials s)
    (clock s) (drawn s) (st_log s).
Definition set_prunedConnectionsCache (v : option Pruned) (s : Stream) : Stream :=
  MkStream (st_config s) (st_ext s) (started s) (stopping s) (session s) (peers s) (peerKeyHashToPublicKey s)
    (st_routes s) (seenCache s) (healthChecks s) (ackCallbacks s) (promises s) v (recentDials s) (clock s)
    (drawn s) (st_log s).
Definition set_recentDials (v : option Pruned) (s : Stream) : Stream :=
  MkStream (st_config s) (st_ext s) (started s) (stopping s) (session s) (peers s) (peerKeyHashToPublicKey s)
    (st_routes s) (seenCache s) (healthChecks s) (ackCallbacks s) (promises s) (prunedConnectionsCache s) v
    (clock s) (drawn s) (st_log s).
Definition set_drawn (v : nat) (s : Stream) : Stream :=
  MkStream (st_config s) (st_ext s) (started s) (stopping s) (session s) (peers s) (peerKeyHashToPublicKey s)
    (st_routes s) (seenCache s) (healthChecks s) (ackCallbacks s) (promises s) (prunedConnectionsCache s)
    (recentDials s) (clock s) v (st_log s).
Definition set_st_log (v : list Effect) (s : Stream) : Stream :=
  MkStream (st_config s) (st_ext s) (started s) (stopping s) (session s) (peers s) (peerKeyHashToPublicKey s)
    (st_routes s) (seenCache s) (healthChecks s) (ackCallbacks s) (promises s) (prunedConnectionsCache s)
    (recentDials s) (clock s) (drawn s) v.


Definition me (s : Stream) : PublicSignKey := key_of (cf_keypair (st_config s)).
Definition publicKeyHash (s : Stream) : string := hashcode (me s).

Abbreviation M := (Method Stream).

Definition emit (e : Effect) : M unit := modify (fun s => set_st_log (st_log s ++ [e]) s).
Definition fresh_id : M (list Z) := fun s => (Val (random_id (st_config s) (drawn s)), set_drawn (S (drawn s)) s).

(** [new MessageHeader({mode, session: this.session, ...})]. *)
Definition new_header (mode : DeliveryMode) (priority : option Z) (id : option (list Z)) (origin : option (list string)) : M MessageHeader :=
  random ⇠ fresh_id;;
  gets (fun s => new_MessageHeader (MkHeaderOptions origin None (session s) id mode priority) (clock s) random).

Definition sign_message (m : Message) : M Message := gets (fun s => sign m (cf_keypair (st_config s))).

(** ** The messages seen *)

(** How often the message was seen before; a count of zero is falsy. *)
Definition modifySeenCache (msgId : string) : M Z := fun s =>
  match Cache.get (clock s) (seenCache s) msgId with
  | Val (found, c) =>
      let seen := default 0 (default None found) in
      match Cache.add (clock s) c msgId (Some (if seen =? 0 then 1 else seen + 1)) 1 with
      | Val c => (Val seen, set_seenCache c s)
      | Exn e => (Exn e, s)
      | NoFuel => (NoFuel, s)
      end
  | Exn e => (Exn e, s)
  | NoFuel => (NoFuel, s)
  end.

Definition pruned_has (hash : string) : M bool := fun s =>
  match prunedConnectionsCache s with
  | None => (Val false, s)
  | Some c => match Cache.has (clock s) c hash with
              | Val (b, c) => (Val b, set_prunedConnectionsCache (Some c) s)
              | Exn e => (Exn e, s)
              | NoFuel => (NoFuel, s)
              end
  end.

(** [keys.find((x) => this.prunedConnectionsCache?.has(x.hashcode()))]. *)
Fixpoint any_pruned (keys : list PublicSignKey) : M bool :=
  match keys with
  | [] => ret false
  | k :: keys => b ⇠ pruned_has (hashcode k);; if b : bool then ret true else any_pruned keys
  end.

(** ** Waiting for acknowledgements *)

Definition clearHealthcheckTimer (to : string) : M unit := modify (fun s => set_healthChecks (Map_delete (healthChecks s) to) s).

(** Only the first settling of a promise counts. *)
Definition settle (n : nat) (d : Deferred) : M unit :=
  modify (fun s => set_promises (match promises s !! n with Some Pending => <[n := d]> (promises s) | _ => promises s end) s).

Definition new_promise (d : Deferred) : M nat := fun s => (Val (length (promises s)), set_promises (promises s ++ [d]) s).

Definition ack_clear (idString : string) : M unit := modify (fun s => set_ackCallbacks (Map_delete (ackCallbacks s) idString) s).

(** The loop over [mode.to]: the receivers, and the health checks begun. *)
Definition delivery_receivers (from : PublicSignKey) (relayed : bool) (to : list string) : M (list string) :=
  let others := List.filter (fun x => negb (bool_decide (x = hashcode from))) to in
  whenM (negb relayed) (modify (fun s =>
    set_healthChecks (fold_left (fun h x => if Map_has h x then h else Map_set h x true) others (healthChecks s)) s));;;
  ret (fold_left Set_add others []).

Definition message_id (m : Message) : string := toBase64 (h_id (m_header m)).

Definition createDeliveryPromise (from : PublicSignKey) (m : Message) (relayed : bool) : M (option nat) :=
  if is_AnyWhere (msg_mode m) then ret None
  else
    let idString := message_id m in
    existing ⇠ gets (fun s => Map_get (ackCallbacks s) idString);;
    match existing with
    | Some aw => ret (Some (aw_promise aw))
    | None =>
        mode ⇠ lift (match msg_mode m with Some mode => Val mode | None => Exn "TypeError" end);;
        messageToSet ⇠ delivery_receivers from relayed (default [] (mode_to mode));;
        let haveReceivers := (0 <? length messageToSet)%nat in
        peerCount ⇠ gets (fun s => Z.of_nat (length (peers s)));;
        if haveReceivers && (peerCount =? 0) then n ⇠ new_promise (RejectedWith DeliveryError);; ret (Some n)
        else
          n ⇠ new_promise (if haveReceivers then Pending else Resolved);;
          let filter :=
            if relayed then None
            else match mode with SeekDelivery _ redundancy => Some (Z.min peerCount redundancy) | _ => Some 1 end in
          modify (fun s => set_ackCallbacks (Map_set (ackCallbacks s) idString
            (MkAckWait n messageToSet haveReceivers relayed filter (is_Seek (Some mode)) (clock s) [] [])) s);;;
          ret (Some n)
    end.

Definition with_acks (aw : AckWait) (fastest : list (string * list Z)) (unique : list string) : AckWait :=
  MkAckWait (aw_promise aw) (messageToSet aw) (haveReceivers aw) (aw_relayed aw) (filterMessageForSeenCounter aw)
    (aw_seek aw) (aw_session aw) fastest unique.

(** The part of the callback that counts the acknowledgement. *)
Definition count_ack (aw : AckWait) (target : string) (seenCounter : Z) : AckWait :=
  if bool_decide (target ∈ messageToSet aw) &&
     match filterMessageForSeenCounter aw with None => true | Some f => seenCounter <? f end &&
     (seenCounter <? MAX_ROUTE_DISTANCE)
  then with_acks aw
         (Map_set (fastestNodesReached aw) target (default [] (Map_get (fastestNodesReached aw) target) ++ [seenCounter]))
         (Set_add (uniqueAcks aw) (target +:+ pretty seenCounter))
  else aw.

Definition acks_complete (aw : AckWait) : bool :=
  match filterMessageForSeenCounter aw with
  | Some f => Z.of_nat (length (messageToSet aw)) * f <=? Z.of_nat (length (uniqueAcks aw))
  | None => false
  end.

Definition checkDone (idString : string) (aw : AckWait) : M unit :=
  whenM (acks_complete aw) (whenM (haveReceivers aw) (ack_clear idString);;; settle (aw_promise aw) Resolved).

(** The timeout: the loop over the receivers stops at the first one, if that
    one has answered. *)
Fixpoint hasAll_loop (relayed : bool) (fastest : list (string * list Z)) (tos : list string) (hasAll : bool) : bool :=
  match tos with
  | [] => hasAll
  | to :: tos => if Map_has fastest to then hasAll else hasAll_loop relayed fastest tos (if relayed then hasAll else false)
  end.

Definition ack_timeout (idString : string) : M unit :=
  found ⇠ gets (fun s => Map_get (ackCallbacks s) idString);;
  match found with
  | None => ret tt
  | Some aw =>
      ack_clear idString;;;
      settle (aw_promise aw)
        (if negb (hasAll_loop (aw_relayed aw) (fastestNodesReached aw) (messageToSet aw) true) && negb (aw_relayed aw)
         then RejectedWith DeliveryError else Resolved)
  end.

(** The listener for "peer:unreachable" of one delivery. *)
Definition onUnreachable (detail : option PublicSignKey) (entry : string * AckWait) : M unit :=
  let '(idString, aw) := entry in
  if aw_relayed aw then ret tt
  else match detail with
       | None => emit ListenerTypeError
       | Some key =>
           whenM (bool_decide (hashcode key ∈ messageToSet aw))
             (ack_clear idString;;; settle (aw_promise aw) (RejectedWith DeliveryError))
       end.

Definition dispatch_unreachable (detail : option PublicSignKey) : M unit :=
  emit (PeerUnreachable detail);;;
  waits ⇠ gets ackCallbacks;;
  forM (onUnreachable detail) waits.

(** ** Sending *)

(** [stream.waitForWrite(bytes, message.header.priority)] on the streams of a peer. *)
Definition write_to (m : Message) (hash : string) : M unit := fun s =>
  match Map_get (peers s) hash with
  | None => (Val tt, s)
  | Some (key, p) =>
      match waitForWrite p (bytes m) (default 0 (h_priority (m_header m))) with
      | Val (p', _) => (Val tt, set_st_log (st_log s ++ [Sent hash m]) (set_peers (Map_set (peers s) hash (key, p')) s))
      | Exn e => (Exn e, s)
      | NoFuel => (NoFuel, s)
      end
  end.

(** Those of the peers that the flood reaches: not the sender, not a signer. *)
Definition flood_peers (s : Stream) (from : PublicSignKey) (m : Message) (to : list string) : list string :=
  List.filter (fun hash =>
    match Map_get (peers s) hash with
    | Some (key, _) => negb (bool_decide (key = from)) && negb (bool_decide (key ∈ publicKeys m))
    | None => false
    end) to.

Definition publish_flood (from : PublicSignKey) (m : Message) (to : option (list string)) (relayed : bool) (delivery : option nat) : M (option nat) :=
  targets ⇠ gets (fun s => match to with Some to => to | None => Map_keys (peers s) end);;
  if (length targets =? 0)%nat then ret delivery
  else
    chosen ⇠ gets (fun s => flood_peers s from m targets);;
    allM (write_to m) chosen;;;
    if (length chosen =? 0)%nat && negb relayed then raise "Message did not have any valid receivers"
    else ret delivery.

(** The streams the message is written to when its mode does not say: the
    mode's [to] decides the route, [to] the neighbours. *)
Definition publish_targets (s : Stream) (m : Message) (to : option (list string)) (relayed : bool) : option (list string) :=
  if is_Acknowledge (msg_mode m) then None
  else if is_DataMessage m && is_Seek (msg_mode m) && negb relayed then Some (Map_keys (peers s))
  else to.

Definition expects_acks (m : Message) : bool :=
  match m_content m with DataContent _ | GoodbyeContent _ => is_Seek (msg_mode m) || is_Acknowledge (msg_mode m) | _ => false end.

(** The receivers and the redundancy, where routing is used. *)
Definition routed (m : Message) (to : option (list string)) : option (list string * Z) :=
  match m_content m, msg_mode m, to with
  | DataContent _, Some (AcknowledgeDelivery tos r), None | DataContent _, Some (SilentDelivery tos r), None =>
      if (0 <? length tos)%nat then Some (tos, r) else None
  | _, _, _ => None
  end.

Definition publishMessage (from : PublicSignKey) (m : Message) (to : option (list string)) (relayed : bool) : M (option nat) :=
  running ⇠ gets (fun s => started s && negb (stopping s));;
  if negb running then raise NotStartedError
  else if bool_decide (publicKeys m = []) && is_DataMessage m && negb (is_Silent (msg_mode m)) then raise "Missing signature"
  else
    to ⇠ gets (fun s => publish_targets s m to relayed);;
    delivery ⇠ (if expects_acks m then createDeliveryPromise from m relayed else ret None);;
    whenM (negb relayed) (modifySeenCache (getMsgId (bytes m));;; ret tt);;;
    match routed m to with
    | Some (tos, redundancy) =>
        fanout ⇠ gets (fun s => getFanout (st_routes s) (hashcode from) tos redundancy);;
        match fanout with
        | Some [] => ret None
        | Some fanout => allM (write_to m) (Map_keys fanout);;; ret delivery
        | None => if relayed then ret None else publish_flood from m to relayed delivery
        end
    | None => publish_flood from m to relayed delivery
    end.

Definition relayMessage (from : PublicSignKey) (m : Message) (to : option (list string)) : M (option nat) :=
  relays ⇠ gets (fun s => canRelayMessage (st_config s));;
  if negb relays then ret None
  else
    m ⇠ (if is_DataMessage m && (is_Acknowledge (msg_mode m) || is_Seek (msg_mode m)) then sign_message m else ret m);;
    my ⇠ gets publicKeyHash;;
    match msg_mode m with
    | Some mode =>
        if deliveryModeHasReceiver mode then
          let tos := List.filter (fun x => negb (bool_decide (x = my))) (default [] (mode_to mode)) in
          if (length tos =? 0)%nat then ret None else publishMessage from (with_mode m (set_mode_to mode tos)) to true
        else publishMessage from m to true
    | None => publishMessage from m to true
    end.

(** Whether this node answers a message that it is the n-th to see. *)
Definition shouldAcknowledge (s : Stream) (mode : option DeliveryMode) (seenBefore : Z) : bool :=
  match mode with
  | Some (SeekDelivery to r) => (seenBefore <? r) && match to with None => true | Some to => bool_decide (publicKeyHash s ∈ to) end
  | Some (AcknowledgeDelivery to r) => (seenBefore <? r) && bool_decide (publicKeyHash s ∈ to)
  | _ => false
  end.

Definition maybeAcknowledgeMessage (peerStream : string) (m : Message) (seenBefore : Z) : M unit :=
  answer ⇠ gets (fun s => shouldAcknowledge s (msg_mode m) seenBefore);;
  if negb answer then ret tt
  else
    pruned ⇠ (if is_Seek (msg_mode m) then any_pruned (publicKeys m) else ret true);;
    origin ⇠ gets (fun s => if negb pruned then Some (getAddresses (st_config s)) else None);;
    h ⇠ new_header (TracedDelivery (map hashcode (publicKeys m))) None None origin;;
    ack ⇠ sign_message (new_ACK h (h_id (m_header m)) seenBefore);;
    my ⇠ gets me;;
    publishMessage my ack (Some [peerStream]) false;;; ret tt.

(** ** Publishing *)

Record PublishOptions := MkPublishOptions {
  po_mode : option DeliveryMode;
  po_to : option (list (string + PublicSignKey));
  po_priority : option Z;
  po_id : option (list Z);
}.

(** Whether the route to a receiver is missing, old, or of an earlier session. *)
Definition route_stale (s : Stream) (hash : string) : bool :=
  match findNeighbor (st_routes s) (publicKeyHash s) hash with
  | None => true
  | Some route =>
      (Z.of_nat (length (route_list route)) * routeSeekInterval (st_config s) <? clock s - route_session route) ||
      negb (isUpToDate (st_routes s) hash route)
  end.

(** The mode a message is sent with: without this node, and seeking when some
    route has to be found first. *)
Definition choose_mode (s : Stream) (mode : DeliveryMode) : DeliveryMode :=
  let mode := match mode_to mode with
              | Some to => set_mode_to mode (List.filter (fun x => negb (bool_decide (x = publicKeyHash s))) to)
              | None => mode end in
  match mode with
  | AcknowledgeDelivery to _ | SilentDelivery to _ =>
      if existsb (route_stale s) to then SeekDelivery (Some to) DEFAULT_SEEK_MESSAGE_REDUDANCY else mode
  | _ => mode
  end.

Definition createMessage (data : option (list Z)) (o : PublishOptions) : M Message :=
  mode ⇠ lift (match po_mode o, po_to o with
    | Some mode, _ => Val mode
    | None, Some to => Val (new_SilentDelivery to DEFAULT_SILENT_MESSAGE_REDUDANCY)
    | None, None => Exn "TypeError"
    end);;
  mode ⇠ gets (fun s => choose_mode s mode);;
  h ⇠ new_header mode (po_priority o) (po_id o) None;;
  sign_message (new_DataMessage h data).

(** The neighbours named beside a mode; one that is not a peer voids them. *)
Fixpoint named_neighbours (s : Stream) (to : list string) : option (list string) :=
  match to with
  | [] => Some []
  | hash :: to => if Map_has (peers s) hash then cons hash <$> named_neighbours s to else None
  end.

(** The id of the message, and the promise of its delivery. *)
Definition base_publish (data : option (list Z)) (o : PublishOptions) : M (list Z * option nat) :=
  on ⇠ gets started;;
  if negb on then raise NotStartedError
  else
    m ⇠ createMessage data o;;
    to ⇠ gets (fun s => match po_to o, po_mode o with
                        | Some to, Some _ => named_neighbours s (coerceTo to)
                        | _, _ => None end);;
    my ⇠ gets me;;
    delivery ⇠ publishMessage my m to false;;
    ret (h_id (m_header m), delivery).

End Stream.

