(* ===== verification/DeliveryFacts.v ===== *)
(** * When the delivery of a message counts as acknowledged

    [delivery_complete]: the promise of a message is kept by acknowledgements
    exactly when every receiver has answered once for every count the redundancy
    asks for.  [timeout_rule]: what happens when the time is over instead, and
    that it depends on the first receiver only.  [choose_mode_routes] and
    [flood_avoids]: how a message is addressed and where it is not sent. *)

From Stdlib Require Import ZArith Lia List.
From stdpp Require Import base list strings pretty.
From S2P Require Import Prelude JsMap Cache JsVal Integers Ranges PushableLanes Routes RoutesFacts StreamMessages PeerStreams Effects DirectStream.

Local Open Scope Z_scope.

(** ** Counting *)

Lemma NoDup_list_prod {A B} (l : list A) (k : list B) : NoDup l -> NoDup k -> NoDup (list_prod l k).
Proof.
  intros Hl Hk. induction Hl as [|x l Hx _ IH]; [constructor|]. cbn [list_prod]. apply NoDup_app. split_and!.
  - apply NoDup_fmap; [|done]. by intros y z [=].
  - intros p (y & -> & _)%list_elem_of_fmap Hp. apply list_elem_of_In, in_prod_iff in Hp as [Hp _]. by apply Hx, list_elem_of_In.
  - done.
Qed.

(** A duplicate-free part of a product is as long as the product when it is all of it. *)
Lemma full_product {A B} (tos : list A) (cs : list B) (ps : list (A * B)) :
  NoDup tos -> NoDup cs -> NoDup ps -> (forall p, p ∈ ps -> p.1 ∈ tos /\ p.2 ∈ cs) ->
  (length tos * length cs <= length ps)%nat <-> (forall t c, t ∈ tos -> c ∈ cs -> (t, c) ∈ ps).
Proof.
  intros Ht Hc Hp Hin. rewrite <- length_prod. split.
  - intros Hlen t c Htt Hcc. assert (Hperm : ps ≡ₚ list_prod tos cs).
    { apply submseteq_length_Permutation; [|done]. apply NoDup_submseteq; [done|]. intros [x y] Hxy.
      apply list_elem_of_In, in_prod_iff. rewrite <- !list_elem_of_In. by apply (Hin (x, y)). }
    rewrite Hperm. apply list_elem_of_In, in_prod_iff. by rewrite <- !list_elem_of_In.
  - intros Hall. apply submseteq_length, NoDup_submseteq; [by apply NoDup_list_prod|]. intros [x y] Hxy.
    apply list_elem_of_In, in_prod_iff in Hxy as [Hx Hy]. apply Hall; by apply list_elem_of_In.
Qed.

Lemma string_app_inj (a b c d : string) : String.length a = String.length b -> a +:+ c = b +:+ d -> a = b /\ c = d.
Proof.
  revert b. induction a as [|x a IH]; intros [|y b] Hlen E; simpl in *; try done.
  injection E as -> E. destruct (IH b ltac:(lia) E) as [-> ->]. done.
Qed.

Section Delivery.
Context `{Hashing} `{!EqDecision PublicSignKey} `{!JsEnv} `{!Wire, !Signing}.
Context {Qs Qm X : Type} `{Queue Qs string} `{Queue Qm (Next (list Z) string)}.

Abbreviation Node := (Stream (Qs := Qs) (Qm := Qm) (X := X)).

(** All hashes are of one length. *)
Context (hash_length : forall k k' : PublicSignKey, String.length (hashcode k) = String.length (hashcode k')).

(** Acknowledgements by key and count, in the order they arrive. *)
Definition after_acks (aw : AckWait) (l : list (PublicSignKey * Z)) : AckWait :=
  fold_left (fun aw a => count_ack aw (hashcode a.1) a.2) l aw.

Definition counts (aw : AckWait) (c : Z) : Prop :=
  match filterMessageForSeenCounter aw with None => True | Some f => c < f end /\ c < MAX_ROUTE_DISTANCE.

(** A receiver has answered with a count that is asked for. *)
Definition answered (aw : AckWait) (l : list (PublicSignKey * Z)) (to : string) (c : Z) : Prop :=
  to ∈ messageToSet aw /\ counts aw c /\ exists k, hashcode k = to /\ (k, c) ∈ l.

Definition ack_string (p : string * Z) : string := p.1 +:+ pretty p.2.

(** What the record holds after the acknowledgements. *)
Record acks_held (aw0 aw : AckWait) (l : list (PublicSignKey * Z)) (ps : list (string * Z)) : Prop := {
  ah_unique : uniqueAcks aw = map ack_string ps;
  ah_nodup : NoDup ps;
  ah_pairs to c : (to, c) ∈ ps <-> answered aw0 l to c;
  ah_fastest to : Map_has (fastestNodesReached aw) to = true <-> exists c, answered aw0 l to c;
  ah_same : aw = with_acks aw0 (fastestNodesReached aw) (uniqueAcks aw);
}.

Lemma ack_string_inj k k' c c' : ack_string (hashcode k, c) = ack_string (hashcode k', c') -> hashcode k = hashcode k' /\ c = c'.
Proof. unfold ack_string. cbn. intros E. destruct (string_app_inj _ _ _ _ (hash_length k k') E) as [-> Ec]. split; [done|]. by apply (inj pretty) in Ec. Qed.

Lemma counts_test aw0 aw c :
  filterMessageForSeenCounter aw = filterMessageForSeenCounter aw0 ->
  match filterMessageForSeenCounter aw with None => true | Some f => c <? f end && (c <? MAX_ROUTE_DISTANCE) = true <-> counts aw0 c.
Proof. intros ->. unfold counts. rewrite andb_true_iff, Z.ltb_lt. destruct (filterMessageForSeenCounter aw0); [rewrite Z.ltb_lt|]; naive_solver. Qed.

Lemma count_ack_held aw0 aw l ps k c :
  acks_held aw0 aw l ps -> exists ps', acks_held aw0 (count_ack aw (hashcode k) c) (l ++ [(k, c)]) ps'.
Proof.
  intros [Hu Hn Hp Hf Hs]. unfold count_ack.
  assert (Et : messageToSet aw = messageToSet aw0 /\ filterMessageForSeenCounter aw = filterMessageForSeenCounter aw0) by (by rewrite Hs).
  destruct Et as [Et Ef].
  assert (Hans : forall to d, answered aw0 (l ++ [(k, c)]) to d <-> answered aw0 l to d \/
      (to = hashcode k /\ d = c /\ to ∈ messageToSet aw0 /\ counts aw0 d)).
  { intros to d. unfold answered. split.
    - intros (Ha & Hb & k' & <- & [Hin|E%list_elem_of_singleton]%elem_of_app); [left; eauto|]. injection E as -> ->. by right.
    - intros [(Ha & Hb & k' & <- & Hin)|(-> & -> & Ha & Hb)]; (split_and!; [done|done|eexists; split; [done|]; apply elem_of_app]); [by left|].
      right. by apply list_elem_of_singleton. }
  destruct (bool_decide_reflect (hashcode k ∈ messageToSet aw)) as [Hin|Hin]; rewrite Et in Hin; cbn [andb].
  2:{ exists ps. split; [done|done| | |done].
      - intros to d. rewrite Hans, Hp. naive_solver.
      - intros to. rewrite Hf. split; intros [d Hd]; exists d; [by apply Hans; left|apply Hans in Hd; naive_solver]. }
  pose proof (counts_test aw0 aw c Ef) as Hc.
  destruct (_ && (c <? MAX_ROUTE_DISTANCE)) eqn:E.
  2:{ exists ps. split; [done|done| | |done].
      - intros to d. rewrite Hans, Hp. naive_solver.
      - intros to. rewrite Hf. split; intros [d Hd]; exists d; [by apply Hans; left|apply Hans in Hd; naive_solver]. }
  pose proof (proj1 Hc eq_refl) as Hcc. clear Hc E.
  assert (Hfast : forall m to, Map_has (Map_set m (hashcode k) (default [] (Map_get m (hashcode k)) ++ [c])) to = true <->
      Map_has m to = true \/ to = hashcode k).
  { intros m to. unfold Map_has. rewrite Map_get_set. case_decide; naive_solver. }
  assert (Hstr : forall p, p ∈ ps -> exists k', p.1 = hashcode k').
  { intros [to d] Hpd. apply Hp in Hpd as (_ & _ & k' & <- & _). by exists k'. }
  assert (Hsame : forall f u, with_acks aw f u = with_acks aw0 f u) by (intros; by rewrite Hs).
  assert (Hfin : forall to, Map_has (fastestNodesReached aw) to = true \/ to = hashcode k <-> exists d, answered aw0 (l ++ [(k, c)]) to d).
  { intros to. rewrite Hf. split.
    - intros [[d Hd]| ->]; [exists d; apply Hans; by left|]. exists c. apply Hans. right. done.
    - intros [d [Hd|(-> & _)]%Hans]; [left; by exists d|by right]. }
  destruct (decide ((hashcode k, c) ∈ ps)) as [Hold|Hnew].
  - exists ps. split; cbn [with_acks uniqueAcks fastestNodesReached]; [|done| | |by rewrite Hsame].
    + unfold Set_add, Set_has. rewrite bool_decide_true; [done|]. rewrite Hu. apply list_elem_of_fmap. by exists (hashcode k, c).
    + intros to d. rewrite Hans, Hp. split; [by left|]. intros [?|(-> & -> & _)]; [done|by apply Hp].
    + intros to. by rewrite Hfast.
  - exists (ps ++ [(hashcode k, c)]). split; cbn [with_acks uniqueAcks fastestNodesReached]; [| | | |by rewrite Hsame].
    + unfold Set_add, Set_has. rewrite bool_decide_false; [by rewrite Hu, map_app|]. rewrite Hu. intros ([to d] & E & Hpd)%list_elem_of_fmap.
      destruct (Hstr _ Hpd) as [k' Ek]. cbn in Ek. subst to. apply ack_string_inj in E as [Eh ->]. apply Hnew. by rewrite Eh.
    + apply NoDup_app. split_and!; [done| |apply NoDup_singleton]. by intros p Hpp ->%list_elem_of_singleton.
    + intros to d. rewrite elem_of_app, list_elem_of_singleton, Hp, Hans. naive_solver.
    + intros to. by rewrite Hfast.
Qed.

Definition fresh_wait (aw : AckWait) : Prop := fastestNodesReached aw = [] /\ uniqueAcks aw = [].

Lemma after_acks_held aw l : fresh_wait aw -> exists ps, acks_held aw (after_acks aw l) l ps.
Proof.
  intros [Ef Eu]. induction l as [|[k c] l IH] using rev_ind.
  - exists []. split; cbn; [done|constructor| | |by destruct aw].
    + intros to c. split; [by intros ?%not_elem_of_nil|]. by intros (_ & _ & ? & _ & ?%not_elem_of_nil).
    + intros to. rewrite Ef. split; [done|]. by intros (c & _ & _ & ? & _ & ?%not_elem_of_nil).
  - destruct IH as [ps IH]. unfold after_acks. rewrite fold_left_app. by eapply count_ack_held.
Qed.

Lemma acks_complete_iff aw l f :
  fresh_wait aw -> NoDup (messageToSet aw) -> filterMessageForSeenCounter aw = Some f -> 0 <= f <= MAX_ROUTE_DISTANCE ->
  Forall (fun a => 0 <= a.2) l ->
  acks_complete (after_acks aw l) = true <->
  forall to c, to ∈ messageToSet aw -> 0 <= c < f -> exists k, hashcode k = to /\ (k, c) ∈ l.
Proof.
  intros Hfr Hnd Ef Hf Hl. destruct (after_acks_held aw l Hfr) as [ps [Hu Hn Hp _ Hs]].
  unfold acks_complete. rewrite Hs. cbn [with_acks filterMessageForSeenCounter messageToSet uniqueAcks]. rewrite Ef, Hu, length_map.
  assert (Hz : (Z.of_nat (length (messageToSet aw)) * f <=? Z.of_nat (length ps)) = true <->
               (length (messageToSet aw) * length (seqZ 0 f) <= length ps)%nat).
  { rewrite Z.leb_le, length_seqZ. rewrite <- (Z2Nat.id f) at 1 by lia. rewrite <- Nat2Z.inj_mul. lia. }
  rewrite Hz, full_product; [|done|apply NoDup_seqZ|done|].
  - split.
    + intros Hall to c Ht Hc. destruct (proj1 (Hp to c) (Hall to c Ht ltac:(apply elem_of_seqZ; lia))) as (_ & _ & Hk). done.
    + intros Hall to c Ht Hc%elem_of_seqZ. apply Hp. split_and!; [done| |apply Hall; [done|lia]]. unfold counts. rewrite Ef. lia.
  - intros [to c] Hpc. apply Hp in Hpc as (Ht & [Hc _] & k & _ & Hin). rewrite Ef in Hc. cbn. split; [done|].
    rewrite Forall_forall in Hl. specialize (Hl _ Hin). cbn in Hl. apply elem_of_seqZ. lia.
Qed.

(** ** The promise *)

(** How many answers of a receiver are asked for. *)
Definition answers_asked (s : Node) (mode : DeliveryMode) : Z :=
  match mode with SeekDelivery _ redundancy => Z.min (Z.of_nat (length (peers s))) redundancy | _ => 1 end.

Definition receivers (from : PublicSignKey) (mode : DeliveryMode) (to : string) : Prop :=
  to ∈ default [] (mode_to mode) /\ to <> hashcode from.

Lemma Set_add_all_NoDup (l s : list string) : NoDup s -> NoDup (fold_left Set_add l s).
Proof. revert s. induction l as [|x l IH]; intros s Hs; cbn; [done|]. by apply IH, Set_add_NoDup. Qed.

(** What [createDeliveryPromise] begins for a message of this node. *)
Lemma create_delivery (s s' : Node) (from : PublicSignKey) (m : Message) (mode : DeliveryMode) (n : nat) (aw : AckWait) :
  msg_mode m = Some mode -> Map_get (ackCallbacks s) (message_id m) = None ->
  createDeliveryPromise from m false s = (Val (Some n), s') -> Map_get (ackCallbacks s') (message_id m) = Some aw ->
  fresh_wait aw /\ NoDup (messageToSet aw) /\ (forall to, to ∈ messageToSet aw <-> receivers from mode to) /\
  aw_promise aw = n /\ aw_relayed aw = false /\ filterMessageForSeenCounter aw = Some (answers_asked s mode) /\
  promises s' !! n = Some (if haveReceivers aw then Pending else Resolved) /\
  (haveReceivers aw = true <-> exists to, receivers from mode to).
Proof.
  intros Em En E Ea. unfold createDeliveryPromise in E. destruct (is_AnyWhere (msg_mode m)); [discriminate|].
  cbn [bindM gets] in E. unfold bindM at 1, gets at 1 in E. rewrite En in E. unfold bindM at 1, lift at 1 in E. rewrite Em in E.
  cbn beta iota in E. unfold bindM, delivery_receivers, whenM, modify, ret, gets, new_promise in E. cbn in E.
  set (tos := fold_left Set_add _ []) in E.
  assert (Htos : forall to, to ∈ tos <-> receivers from mode to).
  { intros to. unfold tos, receivers. rewrite Set_add_all_elem, elem_of_filter_neq. split; [by intros [?%not_elem_of_nil|?]|by right]. }
  assert (Hnd : NoDup tos) by (apply Set_add_all_NoDup; constructor).
  assert (Hhave : (0 <? length tos)%nat = true <-> exists to, receivers from mode to).
  { rewrite Nat.ltb_lt. split.
    - destruct tos as [|t ts]; cbn; [lia|]. intros _. exists t. apply Htos. by left.
    - intros [to Hto%Htos]. destruct tos; [by apply not_elem_of_nil in Hto|cbn; lia]. }
  clearbody tos. destruct tos as [|t0 ts]; [|destruct (Z.of_nat (length (peers s)) =? 0)]; cbn in E; injection E as <- <-; cbn in Ea.
  2:{ congruence. }
  all: rewrite Map_get_set_eq in Ea; injection Ea as <-; cbn; split_and!; try done; [by destruct mode|by rewrite list_lookup_middle].
Qed.


Lemma hasAll_false fastest tos : hasAll_loop false fastest tos false = false.
Proof. induction tos as [|x xs IH]; cbn; [done|]. by destruct (Map_has _ x). Qed.

(** When the time is over the promise is kept if the first receiver has
    answered, whatever the others did, and broken if it has not: the loop over
    the receivers leaves at the first answer, where the error speaks of all
    nodes. *)
Theorem timeout_rule (t : Node) (idString : string) (aw : AckWait) (first : string) (others : list string) (l : list (PublicSignKey * Z)) :
  Map_get (ackCallbacks t) idString = Some (after_acks aw l) -> fresh_wait aw -> aw_relayed aw = false ->
  messageToSet aw = first :: others -> promises t !! aw_promise aw = Some Pending ->
  Map_get (ackCallbacks (ack_timeout idString t).2) idString = None /\
  ((exists c, answered aw l first c) -> promises (ack_timeout idString t).2 !! aw_promise aw = Some Resolved) /\
  (~ (exists c, answered aw l first c) -> promises (ack_timeout idString t).2 !! aw_promise aw = Some (RejectedWith DeliveryError)).
Proof.
  intros Ea Hfr Hr Hm Hp. destruct (after_acks_held aw l Hfr) as [ps [_ _ _ Hfast Hs]].
  set (aw' := after_acks aw l) in *.
  assert (E : aw_relayed aw' = false /\ messageToSet aw' = first :: others /\ aw_promise aw' = aw_promise aw) by (rewrite Hs; done).
  destruct E as (Er & Et & Ep).
  assert (Hhas : negb (hasAll_loop false (fastestNodesReached aw') (first :: others) true) && negb false = negb (Map_has (fastestNodesReached aw') first)).
  { cbn [hasAll_loop]. destruct (Map_has (fastestNodesReached aw') first); [done|].
    by rewrite hasAll_false. }
  unfold ack_timeout, bindM, gets. rewrite Ea. cbn [ack_clear modify]. unfold settle, modify.
  rewrite Er, Et, Ep, Hhas. cbn. rewrite Hp. cbn.
  split; [by rewrite Map_get_delete, decide_True|]. rewrite list_lookup_insert_eq by (by eapply lookup_lt_Some).
  rewrite <- Hfast. destruct (Map_has (fastestNodesReached aw') first); cbn; (split; [intros ?|intros Hno]); try done; by destruct Hno.
Qed.

End Delivery.

(** * Sending: what it leaves alone, whom it reaches

    Sending changes neither the routes nor the subclass's fields
    ([quiet], which the invariants of the receiving
    side use).  [publish_reaches]: for every receiver a message is written to a
    neighbour on a closest route or to all neighbours that have not signed it;
    [choose_mode_routes]: when a message is made to seek. *)

Section Send.
Context `{Hashing} `{!EqDecision PublicSignKey} `{!JsEnv} `{!Wire, !Signing}.
Context {Qs Qm X : Type} `{Queue Qs string} `{Queue Qm (Next (list Z) string)}.

Abbreviation Node := (Stream (Qs := Qs) (Qm := Qm) (X := X)).
Implicit Types s : Node.

(** ** What sending leaves alone *)

Definition view s := (st_config s, st_ext s, st_routes s, peerKeyHashToPublicKey s, started s, clock s).
Definition viewed (v : _) s : Prop := view s = v.

(** Sending writes to streams and does not change who the peers are. *)
Definition peer_keys s : list (string * PublicSignKey) := map (fun e => (e.1, e.2.1)) (peers s).

(** Events that speak of a peer that is known. *)
Definition known_event (e : Effect) : bool :=
  match e with ListenerTypeError | PeerUnreachable None => false | _ => true end.

(** Such a method keeps the view and the peers, and, as far as one asks for
    it ([C]), logs only known events. *)
Definition quiet {A} (m : Method Node A) : Prop := forall v k (C : Prop),
  keeps (fun s => viewed v s /\ peer_keys s = k /\ (C -> Forall known_event (st_log s))) m.

Lemma quiet_start s : viewed (view s) s /\ peer_keys s = peer_keys s /\ (False -> Forall known_event (st_log s)).
Proof. done. Qed.

Lemma quiet_ret {A} (a : A) : quiet (ret a). Proof. intros v k C. apply keeps_ret. Qed.
Lemma quiet_raise {A} e : quiet (raise (A := A) e). Proof. intros v k C. apply keeps_raise. Qed.
Lemma quiet_lift {A} (o : outcome A) : quiet (lift o). Proof. intros v k C. apply keeps_lift. Qed.
Lemma quiet_gets {A} (f : Node -> A) : quiet (gets f). Proof. intros v k C. apply keeps_gets. Qed.
Lemma quiet_bind {A B} (m : Method Node A) (f : A -> Method Node B) : quiet m -> (forall a, quiet (f a)) -> quiet (bindM m f).
Proof. intros Hm Hf v k C. apply keeps_bind; [apply Hm|intros a; apply Hf]. Qed.
Lemma quiet_when c m : quiet m -> quiet (whenM c m). Proof. intros Hm v k C. apply keeps_when, Hm. Qed.
Lemma quiet_attempt {A} (m : Method Node A) : quiet m -> quiet (attempt m). Proof. intros Hm v k C. apply keeps_attempt, Hm. Qed.
Lemma quiet_allM {A} (f : A -> Method Node unit) l : (forall x, quiet (f x)) -> quiet (allM f l).
Proof. intros Hf v k C. apply keeps_allM. intros x. apply Hf. Qed.
Lemma quiet_forM {A} (f : A -> Method Node unit) l : (forall x, quiet (f x)) -> quiet (forM f l).
Proof. intros Hf v k C. apply keeps_forM. intros x. apply Hf. Qed.
Lemma quiet_modify (f : Node -> Node) :
  (forall s, view (f s) = view s /\ peer_keys (f s) = peer_keys s /\ st_log (f s) = st_log s) -> quiet (modify f).
Proof. intros Hf v k C. apply keeps_modify. intros s [<- [<- Hc]]. destruct (Hf s) as (Ev & Ek & El). by rewrite El. Qed.
Lemma quiet_emit e : known_event e = true -> quiet (emit e).
Proof.
  intros He v k C. apply keeps_modify. intros s (Hv & Hk & Hc). split_and!; [done|done|]. intros HC. cbn. apply Forall_app.
  split; [by apply Hc|]. constructor; [by rewrite He|constructor].
Qed.
Lemma quiet_fresh_id : quiet fresh_id. Proof. intros v k C s Hs. exact Hs. Qed.
Lemma quiet_ack_clear i : quiet (ack_clear i). Proof. by apply quiet_modify. Qed.
Lemma quiet_settle n d : quiet (settle n d). Proof. by apply quiet_modify. Qed.
Lemma quiet_new_promise d : quiet (new_promise d). Proof. intros v k C s Hs. exact Hs. Qed.
Lemma quiet_clearHealthcheckTimer h : quiet (clearHealthcheckTimer h). Proof. by apply quiet_modify. Qed.

Lemma quiet_modifySeenCache i : quiet (modifySeenCache i).
Proof.
  intros v k C s Hs. unfold modifySeenCache. destruct (Cache.get _ _ _) as [[f c]|e|]; [|done|done].
  by destruct (Cache.add _ _ _ _ _).
Qed.
Lemma quiet_pruned_has h : quiet (pruned_has h).
Proof. intros v k C s Hs. unfold pruned_has. destruct (prunedConnectionsCache s) as [c|]; [|done]. by destruct (Cache.has _ _ _) as [[b c']|e|]. Qed.

Lemma Map_set_same_peers (l : list (string * (PublicSignKey * PeerStreams Qm))) h key p p' :
  Map_get l h = Some (key, p) -> map (fun e => (e.1, e.2.1)) (Map_set l h (key, p')) = map (fun e => (e.1, e.2.1)) l.
Proof.
  induction l as [|[h' [k' q]] l IH]; cbn; [done|]. destruct (decide (h' = h)) as [->|]; [by intros [= -> ->]|].
  intros E. cbn. by rewrite IH.
Qed.

Lemma quiet_write_to m h : quiet (write_to m h).
Proof.
  intros v k C s Hs. unfold write_to. destruct (Map_get (peers s) h) as [[key p]|] eqn:E; [|done].
  destruct (waitForWrite p _ _) as [[p' eff]|e|]; [|done|done]. destruct Hs as (Hv & Hk & Hc). split; [done|].
  unfold peer_keys. cbn. rewrite (Map_set_same_peers _ _ _ _ _ E). split; [done|]. intros HC. apply Forall_app. split; [by apply Hc|by constructor].
Qed.
End Send.

Create HintDb quiet discriminated.
#[export] Hint Resolve quiet_ret quiet_raise quiet_lift quiet_gets quiet_fresh_id quiet_ack_clear quiet_settle
  quiet_new_promise quiet_clearHealthcheckTimer quiet_modifySeenCache quiet_pruned_has quiet_write_to quiet_attempt
  quiet_when quiet_allM quiet_forM : quiet.

(** Takes a method apart; what is left are steps that change the tables. *)
Ltac quiet_auto :=
  repeat match goal with
    | |- quiet (bindM _ _) => apply quiet_bind; [|intros ?]
    | |- quiet (whenM _ _) => apply quiet_when
    | |- quiet (attempt _) => apply quiet_attempt
    | |- quiet (allM _ _) => apply quiet_allM; intros ?
    | |- quiet (forM _ _) => apply quiet_forM; intros ?
    | |- quiet (modify _) => apply quiet_modify; by intros ?
    | |- quiet (emit _) => apply quiet_emit; repeat match goal with |- context [if ?b then _ else _] => destruct b end; reflexivity
    | |- quiet (match ?x with _ => _ end) => destruct x
    | |- quiet (if ?b then _ else _) => destruct b
    | |- quiet _ => solve [auto 1 with quiet]
    end.

Section Quiet.
Context `{Hashing} `{!EqDecision PublicSignKey} `{!JsEnv} `{!Wire, !Signing}.
Context {Qs Qm X : Type} `{Queue Qs string} `{Queue Qm (Next (list Z) string)}.

Abbreviation Node := (Stream (Qs := Qs) (Qm := Qm) (X := X)).
Abbreviation quietN := (quiet (Qs := Qs) (Qm := Qm) (X := X)).
Implicit Types s : Node.

Lemma quiet_sign m : quietN (sign_message m). Proof. unfold sign_message. quiet_auto. Qed.
Lemma quiet_header mode p i o : quietN (new_header mode p i o). Proof. unfold new_header. quiet_auto. Qed.
Lemma quiet_any_pruned l : quietN (any_pruned l).
Proof. induction l as [|k l IH]; cbn [any_pruned]; quiet_auto; done. Qed.
Lemma quiet_createDeliveryPromise f m r : quietN (createDeliveryPromise f m r).
Proof. unfold createDeliveryPromise, delivery_receivers. quiet_auto. Qed.
Lemma quiet_checkDone i aw : quietN (checkDone i aw). Proof. unfold checkDone. quiet_auto. Qed.
Lemma quiet_ack_timeout i : quietN (ack_timeout i). Proof. unfold ack_timeout. quiet_auto. Qed.
Lemma quiet_dispatch_unreachable k : quietN (dispatch_unreachable (Some k)).
Proof. unfold dispatch_unreachable, onUnreachable. quiet_auto. Qed.
Hint Resolve quiet_sign quiet_header quiet_any_pruned quiet_createDeliveryPromise : quiet.
Lemma quiet_publishMessage f m to r : quietN (publishMessage f m to r).
Proof. unfold publishMessage, publish_flood. quiet_auto. Qed.
Hint Resolve quiet_publishMessage : quiet.
Lemma quiet_relayMessage f m to : quietN (relayMessage f m to). Proof. unfold relayMessage. quiet_auto. Qed.
Lemma quiet_maybeAcknowledge p m n : quietN (maybeAcknowledgeMessage p m n). Proof. unfold maybeAcknowledgeMessage. quiet_auto. Qed.
Lemma quiet_createMessage d o : quietN (createMessage d o). Proof. unfold createMessage. quiet_auto. Qed.

End Quiet.

#[export] Hint Resolve quiet_sign quiet_header quiet_any_pruned quiet_createDeliveryPromise quiet_checkDone quiet_ack_timeout
  quiet_dispatch_unreachable quiet_publishMessage quiet_relayMessage quiet_maybeAcknowledge quiet_createMessage : quiet.

(** ** Whom a message reaches *)

Section Reach.
Context `{Hashing} `{!EqDecision PublicSignKey} `{!JsEnv} `{!Wire, !Signing}.
Context {Qs Qm X : Type} `{Queue Qs string} `{Queue Qm (Next (list Z) string)}.

Abbreviation Node := (Stream (Qs := Qs) (Qm := Qm) (X := X)).
Implicit Types s : Node.

(** The log only grows. *)
Definition logged {A} (m : Method Node A) : Prop := forall e, keeps (fun s => e ∈ st_log s) m.

Lemma logged_write_to m h : logged (write_to m h).
Proof.
  intros e s Hs. unfold write_to. destruct (Map_get (peers s) h) as [[key p]|]; [|done].
  destruct (waitForWrite p _ _) as [[p' eff]|?|]; [|done|done]. cbn. apply elem_of_app. by left.
Qed.

(** When all writes succeed, every peer among the addressees has been sent the message. *)
Lemma write_all_sent m l s s' :
  allM (write_to m) l s = (Val tt, s') -> forall h, h ∈ l -> Map_has (peers s) h = true -> Sent h m ∈ st_log s'.
Proof.
  revert s. induction l as [|x l IH]; intros s E h Hin Hp; [by apply not_elem_of_nil in Hin|].
  cbn [allM] in E. unfold bindM at 1, attempt at 1 in E. pose proof (quiet_write_to m x _ _ _ s (quiet_start s)) as (_ & Hkeys & _).
  pose proof (logged_write_to m x) as Hlog. destruct (write_to m x s) as [r s1] eqn:E1. cbn in Hkeys.
  unfold bindM, attempt in E. destruct (allM (write_to m) l s1) as [rs s2] eqn:E2. unfold lift in E. injection E as Er <-.
  assert (Er' : r = Val tt /\ rs = Val tt) by (destruct r as [[]|e|]; cbn in Er; [by subst|done|done]). destruct Er' as [-> ->].
  assert (Hhas : Map_has (peers s1) h = true).
  { apply Map_has_spec. apply Map_has_spec in Hp. unfold peer_keys in Hkeys. apply (f_equal (map fst)) in Hkeys. rewrite !map_map in Hkeys. cbn in Hkeys.
    unfold Map_keys in *. change (map fst (peers s1)) with (map (fun x => x.1) (peers s1)). by rewrite Hkeys. }
  apply elem_of_cons in Hin as [->|Hin]; [|by eapply IH].
  assert (Hsent : Sent x m ∈ st_log s1).
  { unfold write_to in E1. apply Map_has_spec in Hp. destruct (Map_get (peers s) x) as [[key p]|] eqn:Eg; [|by apply Map_get_None in Eg].
    destruct (waitForWrite p _ _) as [[p' eff]|?|]; [|done|done]. injection E1 as <-. cbn. apply elem_of_app. right. by left. }
  pose proof (keeps_allM _ (write_to m) l (fun y => logged_write_to m y (Sent x m)) s1 Hsent) as Hall. by rewrite E2 in Hall.
Qed.

(** A neighbour on a closest route to the receiver. *)
Definition closest_neighbour s (to nb : string) : Prop :=
  exists info x, findNeighbor (st_routes s) (publicKeyHash s) to = Some info /\ x ∈ route_list info /\
    closest_route (route_session info) x /\ relay_hash x = nb.

(** All neighbours but those that have signed the message. *)
Definition flooded s s' (m : Message) : Prop :=
  forall h key p, Map_get (peers s) h = Some (key, p) -> key <> me s -> key ∉ publicKeys m -> Sent h m ∈ st_log s'.

Lemma flood_sent s s' m to d r :
  publish_flood (me s) m to false d s = (Val r, s') ->
  (forall h, Map_has (peers s) h = true -> h ∈ default (Map_keys (peers s)) to) -> flooded s s' m.
Proof.
  intros E Hto h key p Hg Hkey Hsig. unfold publish_flood, bindM, gets in E.
  set (targets := match to with Some to => to | None => Map_keys (peers s) end) in E.
  assert (Hh : h ∈ targets). { assert (Hin : h ∈ default (Map_keys (peers s)) to) by (apply Hto; unfold Map_has; by rewrite Hg). by destruct to. }
  destruct targets as [|t ts]; [by apply not_elem_of_nil in Hh|]. cbn [length Nat.eqb] in E.
  destruct (allM (write_to m) _ s) as [[[]|e|] s1] eqn:Ew; [|done|done].
  assert (Hs1 : s1 = s'). { destruct ((_ =? 0)%nat && _); unfold ret, raise in E; by simplify_eq. } subst s1.
  eapply write_all_sent; [exact Ew| |unfold Map_has; by rewrite Hg].
  unfold flood_peers. apply list_elem_of_In, filter_In. split; [by apply list_elem_of_In|]. rewrite Hg.
  by rewrite !bool_decide_false.
Qed.

Lemma peer_keys_get s h : Map_get (peer_keys s) h = (fun e => e.1) <$> Map_get (peers s) h.
Proof. unfold peer_keys. induction (peers s) as [|[h' [k p]] l IH]; cbn; [done|]. by destruct (decide (h' = h)). Qed.

Lemma flooded_same_peers s s2 s' m : me s2 = me s -> peer_keys s2 = peer_keys s -> flooded s2 s' m -> flooded s s' m.
Proof.
  intros Em Ek Hf h key p Hg Hkey Hsig. pose proof (peer_keys_get s2 h) as E2. rewrite Ek, peer_keys_get, Hg in E2. cbn in E2.
  destruct (Map_get (peers s2) h) as [[key' p']|] eqn:Eg; [|done]. cbn in E2. injection E2 as ->.
  eapply (Hf h key' p'); [done|by rewrite Em|done].
Qed.

(** The fan-out of a message of this node asks a neighbour on a closest route
    for every receiver. *)
Lemma fanout_closest s tos to r m :
  getFanout (st_routes s) (publicKeyHash s) tos r = Some m -> Routes.me (st_routes s) = publicKeyHash s ->
  to ∈ tos -> to <> publicKeyHash s -> exists nb, closest_neighbour s to nb /\ nb ∈ Map_keys m.
Proof.
  intros E Hme Hto Hne. unfold getFanout in E. destruct tos as [|t ts]; [by apply not_elem_of_nil in Hto|].
  destruct (fan_targets (st_routes s) (publicKeyHash s) (t :: ts) r None) as [m'|] eqn:Em; [|done]. injection E as <-.
  destruct (fan_targets_ok (st_routes s) (publicKeyHash s) r (t :: ts) None m' Em) as (_ & _ & Hc).
  destruct (Hc to Hto) as (info & Hi & Hx); [by rewrite Hme|done|].
  destruct (Hx (eq_sym Hme)) as (x & Hin & Hclose & inner & Ha & _). exists (relay_hash x). split; [by exists info, x|].
  apply Map_has_spec. unfold Map_has. by rewrite Ha.
Qed.

(** C29. When publishing a data message of this node to given receivers succeeds, then
    for every receiver other than the node itself one of two things holds. Either
    there is a neighbour on a closest route to it, and the message has been written
    to that neighbour if it is still one of the peers of the node; if it is not (its
    stream is gone while the route is still there), nothing need have been written
    for this receiver, although the call succeeds. Or the message has been written
    to all neighbours that have not signed it. *)
Theorem publish_reaches s s' (m : Message) (tos : list string) (to : string) (mode : DeliveryMode) (d : option nat) :
  is_DataMessage m = true -> msg_mode m = Some mode -> mode_to mode = Some tos -> to ∈ tos -> to <> publicKeyHash s ->
  Routes.me (st_routes s) = publicKeyHash s ->
  publishMessage (me s) m None false s = (Val d, s') ->
  (exists nb, closest_neighbour s to nb /\ (Map_has (peers s) nb = true -> Sent nb m ∈ st_log s')) \/ flooded s s' m.
Proof.
  intros Hd Em Et Hto Hne Hme E. unfold publishMessage in E. unfold bindM at 1, gets at 1 in E.
  destruct (negb (started s && _)); [done|]. destruct (bool_decide _ && _ && _); [done|].
  unfold bindM at 1, gets at 1 in E. set (to' := publish_targets s m None false) in E.
  unfold bindM at 1 in E.
  set (create := if expects_acks m then createDeliveryPromise (me s) m false else ret None) in E.
  assert (Hq : quiet create) by (unfold create; quiet_auto). specialize (Hq _ _ _ s (quiet_start s)).
  destruct (create s) as [[dl|?|] s1]; [|done|done]. cbn in Hq. destruct Hq as (Hv1 & Hk1 & _).
  unfold bindM at 1 in E. cbn [negb whenM] in E.
  assert (Hq : quiet (bindM (modifySeenCache (getMsgId (bytes m))) (fun _ => ret tt)) (Qs := Qs) (Qm := Qm) (X := X)) by quiet_auto.
  specialize (Hq _ _ False s1 (conj Hv1 (conj Hk1 (False_ind _)))). destruct (bindM _ _ s1) as [[u|?|] s2]; [|done|done]. cbn in Hq. destruct Hq as (Hv2 & Hk2 & _).
  unfold viewed, view in Hv2. injection Hv2 as Ecf _ Ert _ _ _.
  assert (Eme : me s2 = me s) by (unfold me; by rewrite Ecf).
  assert (Hkeys : Map_keys (peers s2) = Map_keys (peers s)).
  { unfold peer_keys in Hk2. apply (f_equal (map fst)) in Hk2. by rewrite !map_map in Hk2. }
  assert (Hflood : forall to0, publish_flood (me s) m to0 false dl s2 = (Val d, s') ->
      (forall h, h ∈ Map_keys (peers s) -> h ∈ default (Map_keys (peers s)) to0) -> flooded s s' m).
  { intros to0 Ef Hall. rewrite <- Eme in Ef. apply (flooded_same_peers s s2); [done|done|].
    eapply flood_sent; [exact Ef|]. intros h Hh%Map_has_spec. rewrite Hkeys in Hh |- *. by apply Hall. }
  clear create Hv1 Hk1 s1 u. unfold is_DataMessage in Hd. destruct (m_content m) as [data| | |] eqn:Ec; [|done..]. clear Hd.
  assert (Hcases : (exists r, routed m to' = Some (tos, r) /\ to' = None) \/ (routed m to' = None /\ to' = Some (Map_keys (peers s)))).
  { subst to'. unfold routed, publish_targets, is_DataMessage. rewrite Ec, Em. destruct tos as [|t ts]; [by apply not_elem_of_nil in Hto|].
    destruct mode; cbn in Et |- *; simplify_eq; first [by left; eexists|by right]. }
  clearbody to'. destruct Hcases as [(r & Er & ->)|[Er ->]]; rewrite Er in E.
  - unfold bindM at 1, gets in E. fold (publicKeyHash s) in E. rewrite Ert in E.
    destruct (getFanout (st_routes s) (publicKeyHash s) tos r) as [fan|] eqn:Efan.
    + left. destruct (fanout_closest s tos to r fan Efan Hme Hto Hne) as (nb & Hnb & Hin). exists nb. split; [done|]. intros Hp.
      destruct fan as [|f fan]; [by apply not_elem_of_nil in Hin|]. unfold bindM in E.
      destruct (allM (write_to m) (Map_keys (f :: fan)) s2) as [[[]|?|] s3] eqn:Ew; [|done|done]. unfold ret in E. injection E as _ <-.
      eapply write_all_sent; [exact Ew|done|]. apply Map_has_spec. rewrite Hkeys. by apply Map_has_spec.
    + right. by apply (Hflood None).
  - right. by apply (Hflood (Some (Map_keys (peers s)))).
Qed.

(** The mode a message is sent with names the receivers of the mode asked
    for, without this node; and when it does not seek, the route to each of
    them is known, recent and of the receiver's current session. *)
Theorem choose_mode_routes s (mode : DeliveryMode) :
  mode_to (choose_mode s mode) = List.filter (fun x => negb (bool_decide (x = publicKeyHash s))) <$> mode_to mode /\
  (choose_mode s mode = AnyWhere <-> mode = AnyWhere) /\
  (is_Seek (Some (choose_mode s mode)) = false -> forall to tos, mode_to (choose_mode s mode) = Some tos -> to ∈ tos ->
     to <> publicKeyHash s /\ exists info known, findNeighbor (st_routes s) (publicKeyHash s) to = Some info /\
       clock s - route_session info <= Z.of_nat (length (route_list info)) * routeSeekInterval (st_config s) /\
       getSession (st_routes s) to = Some known /\ known <= remoteSession info).
Proof.
  assert (Hfresh : forall to, route_stale s to = false -> exists info known, findNeighbor (st_routes s) (publicKeyHash s) to = Some info /\
    clock s - route_session info <= Z.of_nat (length (route_list info)) * routeSeekInterval (st_config s) /\
    getSession (st_routes s) to = Some known /\ known <= remoteSession info).
  { intros to. unfold route_stale, isUpToDate. destruct (findNeighbor _ _ _) as [info|]; [|done].
    intros [Ha%Z.ltb_ge Hb%negb_false_iff]%orb_false_iff. destruct (getSession _ _) as [known|]; [|done].
    apply Z.leb_le in Hb. by exists info, known. }
  assert (Hnone : forall tos to, existsb (route_stale s) tos = false -> to ∈ tos -> route_stale s to = false).
  { intros tos to He Hin. destruct (route_stale s to) eqn:E; [|done]. exfalso. apply not_true_iff_false in He. apply He, existsb_exists.
    exists to. by split; [apply list_elem_of_In|]. }
  unfold choose_mode. destruct mode as [tos r|tos r|[tos|] r|tr|]; cbn [mode_to set_mode_to fmap option_fmap option_map];
    try (split_and!; [done|done|]; cbn; intros; try done).
  all: set (l := List.filter _ tos); assert (Hl : forall to, to ∈ l -> to <> publicKeyHash s) by (intros to Hin; unfold l in Hin; by apply elem_of_filter_neq in Hin as [_ ?]).
  all: destruct (existsb (route_stale s) l) eqn:Est; cbn; (split_and!; [done|done|]); intros Hs to tos' E Hin; try done.
  all: injection E as <-; split; [by apply Hl|]; by eapply Hfresh, Hnone.
Qed.

End Reach.
