(* ===== verification/StreamReceive.v ===== *)
(** * A node of the network: what it receives
    (packages/transport/stream/src/index.ts, class DirectStream)

    Messages from neighbours, acknowledgements, peers that come and go, and the
    life of the node.  The methods that subclasses override are the two classes
    [PeerHooks] and [MessageHooks]; their [base_] versions are those of
    DirectStream.  A call that the source does not await, because its failure
    is only logged, is an [attempt]. *)

From Stdlib Require Import ZArith Lia.
From stdpp Require Import base list strings.
From S2P Require Import Prelude JsMap Cache JsVal Integers Ranges PushableLanes Routes StreamMessages PeerStreams Effects DirectStream.

Local Open Scope Z_scope.
Local Open Scope effects_scope.

Section Receive.
Context `{Hashing} `{!EqDecision PublicSignKey} `{!JsEnv} `{!Wire, !Signing}.
Context {Qs Qm X : Type} `{Queue Qs string} `{Queue Qm (Next (list Z) string)}.

Abbreviation Node := (Stream (Qs := Qs) (Qm := Qm) (X := X)).
Abbreviation M := (Method Node).

Class PeerHooks := {
  onPeerReachable : PublicSignKey -> M unit;
  onPeerUnreachable : string -> M unit;
  onPeerSession : PublicSignKey -> Z -> M unit;
}.

Class MessageHooks := {
  onDataMessage : PublicSignKey -> string -> Message -> Z -> M (option bool);
  publish : option (list Z) -> PublishOptions -> M unit;
}.

Definition base_onPeerReachable (key : PublicSignKey) : M unit := emit (PeerReachable key).
Definition base_onPeerUnreachable (hash : string) : M unit :=
  key ⇠ gets (fun s => Map_get (peerKeyHashToPublicKey s) hash);;
  dispatch_unreachable key.
Definition base_onPeerSession (key : PublicSignKey) (session : Z) : M unit := emit (PeerSession key).

Context `{PeerHooks}.

(** ** Routes and sessions *)

Definition updateSession (key : PublicSignKey) (session : Z) : M unit :=
  changed ⇠ (fun s => let '(b, r) := Routes.updateSession (st_routes s) (hashcode key) (Some session) in (Val b, set_st_routes r s));;
  whenM changed (onPeerSession key session).

Definition invalidateSession (key : string) : M unit :=
  modify (fun s => set_st_routes (Routes.updateSession (st_routes s) key None).2 s).

Definition addRouteConnection (from neighbour : string) (target : PublicSignKey) (distance session remoteSession : Z) : M unit :=
  update ⇠ (fun s =>
    let '(u, r) := Routes.add (st_routes s) (clock s) from neighbour (hashcode target) distance session remoteSession in
    (Val u, set_st_routes r s));;
  my ⇠ gets publicKeyHash;;
  if bool_decide (from = my) then
    match update with
    | AddNew =>
        modify (fun s => set_peerKeyHashToPublicKey (Map_set (peerKeyHashToPublicKey s) (hashcode target) target) s);;;
        onPeerReachable target
    | _ => ret tt
    end
  else ret tt.

Definition removePeerFromRoutes (hash : string) (deleteIfNeighbour : bool) : M unit :=
  neighbour ⇠ gets (fun s => Map_has (peers s) hash);;
  if neighbour && negb deleteIfNeighbour then ret tt
  else
    unreachable ⇠ (fun s => let '(u, r) := Routes.remove (st_routes s) hash in (Val u, set_st_routes r s));;
    forM (fun node =>
      onPeerUnreachable node;;;
      modify (fun s => set_peerKeyHashToPublicKey (Map_delete (peerKeyHashToPublicKey s) node) s)) unreachable.

(** The timer of a health check fires; its entry stays. *)
Definition healthcheck_timeout (to : string) : M unit :=
  modify (fun s => set_healthChecks (Map_update (fun _ => false) (healthChecks s) to) s);;;
  removePeerFromRoutes to false.

(** ** Messages *)

Definition shouldIgnore (s : Node) (m : Message) (seenBefore : Z) : bool :=
  if existsb (fun k => bool_decide (k = me s)) (publicKeys m) then true
  else match msg_mode m with
       | Some (SeekDelivery _ redundancy) => redundancy <=? seenBefore
       | _ => 0 <? seenBefore
       end.

Definition verifyAndProcess (m : Message) : M bool :=
  verified ⇠ gets (fun s => (message_verify m true (clock s)).1);;
  if negb verified then ret false
  else match publicKeys m with
       | [] => raise "TypeError"
       | from :: _ =>
           neighbour ⇠ gets (fun s => Map_has (peers s) (hashcode from));;
           whenM (negb neighbour) (updateSession from (Number_of_bigint (h_session (m_header m))));;;
           ret true
       end.

(** Whether a message without topics concerns this node. *)
Definition is_for_me (s : Node) (from : PublicSignKey) (m : Message) : outcome bool :=
  match msg_mode m with
  | Some AnyWhere => Val true
  | mode =>
      if bool_decide (me s = from) then Val false
      else match mode with
           | None => Exn "TypeError"
           | Some mode => Val (match mode_to mode with None => true | Some to => bool_decide (publicKeyHash s ∈ to) end)
           end
  end.

(** A silent or acknowledged message that is meant for this node alone. *)
Definition only_for_me (s : Node) (m : Message) : bool :=
  match msg_mode m with
  | Some (SilentDelivery [x] _) | Some (AcknowledgeDelivery [x] _) => bool_decide (x = publicKeyHash s)
  | _ => false
  end.

(** The peers a seeking message is relayed to. *)
Definition seek_relays (s : Node) (peerStream : string) (m : Message) : list string :=
  map fst (List.filter (fun e => negb (bool_decide (e.2.1 ∈ publicKeys m)) && negb (bool_decide (e.1 = peerStream))) (peers s)).

(** [message.data], which is there even when empty. *)
Definition has_data (m : Message) : bool := match m_content m with DataContent (Some _) => true | _ => false end.

Definition base_onDataMessage (from : PublicSignKey) (peerStream : string) (m : Message) (seenBefore : Z) : M (option bool) :=
  ignore ⇠ gets (fun s => shouldIgnore s m seenBefore);;
  if ignore : bool then ret (Some false)
  else
    test ⇠ gets (fun s => is_for_me s from m);;
    mine ⇠ lift test;;
    verified ⇠ (if mine : bool then verifyAndProcess m else ret true);;
    if negb verified then ret (Some false)
    else
      whenM mine (maybeAcknowledgeMessage peerStream m seenBefore;;;
                  whenM ((seenBefore =? 0) && has_data m) (emit (DataEvent m)));;;
      only ⇠ gets (fun s => only_for_me s m);;
      if only : bool then ret (Some true)
      else
        match msg_mode m with
        | Some (SeekDelivery _ redundancy) =>
            to ⇠ gets (fun s => seek_relays s peerStream m);;
            whenM ((seenBefore <? redundancy) && (0 <? length to)%nat) (attempt (relayMessage from m (Some to));;; ret tt)
        | _ => whenM (seenBefore =? 0) (attempt (relayMessage from m None);;; ret tt)
        end;;;
        ret None.

(** ** Acknowledgements *)

Definition ack_callback (idString : string) (ack : Message) (messageThrough : string) (messageFrom : option string) : M unit :=
  found ⇠ gets (fun s => Map_get (ackCallbacks s) idString);;
  match found, publicKeys ack, m_content ack with
  | Some aw, target :: _, AckContent _ seenCounter =>
      clearHealthcheckTimer (hashcode target);;;
      my ⇠ gets publicKeyHash;;
      whenM (aw_seek aw)
        (addRouteConnection (default my messageFrom) messageThrough target seenCounter (aw_session aw)
           (Number_of_bigint (h_session (m_header ack))));;;
      let aw := count_ack aw (hashcode target) seenCounter in
      modify (fun s => set_ackCallbacks (Map_update (fun _ => aw) (ackCallbacks s) idString) s);;;
      checkDone idString aw
  | _, _, _ => ret tt
  end.

(** Addresses not dialled lately; each is remembered. *)
Fixpoint undialled (l : list string) : M (list string) :=
  match l with
  | [] => ret []
  | x :: l =>
      fresh ⇠ (fun s =>
        match recentDials s with
        | None => (Exn "TypeError", s)
        | Some c =>
            match (hc ← Cache.has (clock s) c x; c' ← Cache.add (clock s) hc.2 x None 1; Val (negb hc.1, c')) with
            | Val (b, c') => (Val b, set_recentDials (Some c') s)
            | Exn e => (Exn e, s)
            | NoFuel => (NoFuel, s)
            end
        end);;
      rest ⇠ undialled l;;
      ret (if fresh : bool then x :: rest else rest)
  end.

Definition maybeConnectDirectly (toHash : string) (origin : list string) : M unit :=
  connected ⇠ gets (fun s => Map_has (peers s) toHash);;
  pruned ⇠ (if connected : bool then ret true else pruned_has toHash);;
  if pruned : bool then ret tt
  else
    addresses ⇠ undialled origin;;
    match last addresses with Some a => emit (OpenConnection a) | None => ret tt end.

(** [findIndex] of this node in the trace. *)
Fixpoint index_of (x : string) (l : list string) : option nat :=
  match l with [] => None | y :: l => if decide (y = x) then Some 0%nat else S <$> index_of x l end.

(** The stream one step back along the trace, and whether this node began it. *)
Definition trace_back (s : Node) (trace : list string) : option string * bool :=
  match index_of (publicKeyHash s) trace with
  | Some (S i) =>
      match trace !! i with
      | Some next => (if bool_decide (next = ""%string) then None else if Map_has (peers s) next then Some next else None, false)
      | None => (None, false)
      end
  | Some O => (None, true)
  | None => (None, false)
  end.

Definition onAck (peerStream : string) (messageBytes : list Z) (m : Message) : M unit :=
  seenBefore ⇠ modifySeenCache (sha256Base64Sync messageBytes);;
  if 0 <? seenBefore then ret tt
  else
    verified ⇠ verifyAndProcess m;;
    if negb verified then ret tt
    else match msg_mode m, m_content m with
         | Some (TracedDelivery trace), AckContent id _ =>
             back ⇠ gets (fun s => trace_back s trace);;
             ack_callback (toBase64 id) m peerStream back.1;;;
             match back with
             | (Some next, _) => my ⇠ gets me;; publishMessage my m (Some [next]) true;;; ret tt
             | (None, mine) =>
                 dials ⇠ gets (fun s => dialer (st_config s));;
                 match h_origin (m_header m), publicKeys m with
                 | Some origin, target :: _ => whenM (mine && dials) (maybeConnectDirectly (hashcode target) origin)
                 | _, _ => ret tt
                 end
             end
         | _, _ => raise "TypeError"
         end.

Context `{MessageHooks}.

(** ** Peers that leave *)

Definition checkIsAlive (remotes : list string) : M unit :=
  alone ⇠ gets (fun s => (length (peers s) =? 0)%nat);;
  if alone || (length remotes =? 0)%nat then ret tt
  else attempt (publish None (MkPublishOptions (Some (SeekDelivery (Some remotes) DEFAULT_SEEK_MESSAGE_REDUDANCY)) None None None));;; ret tt.

Definition maybeDeleteRemoteRoutes (remotes : list string) : M unit :=
  forM invalidateSession remotes;;; checkIsAlive remotes.

(** The message is passed on to those who depend on the peers that left; its
    receivers grow from one of them to the next. *)
Fixpoint forward_goodbye (from : PublicSignKey) (m : Message) (leaving : list string) : M unit :=
  match leaving with
  | [] => ret tt
  | target :: leaving =>
      dependent ⇠ gets (fun s => getDependent (st_routes s) target);;
      my ⇠ gets publicKeyHash;;
      to ⇠ lift (match msg_mode m with
                 | Some mode => match mode_to mode with Some to => Val to | None => Exn "TypeError" end
                 | None => Exn "TypeError" end);;
      let newTo := List.filter (fun x => negb (bool_decide (x = my))) (to ++ dependent) in
      let m := with_mode m (SilentDelivery newTo 1) in
      whenM (0 <? length newTo)%nat (publishMessage from m None true;;; ret tt);;;
      forward_goodbye from m leaving
  end.

Definition onGoodBye (from : PublicSignKey) (peerStream : string) (messageBytes : list Z) (m : Message) (leaving : list string) : M unit :=
  seenBefore ⇠ modifySeenCache (getMsgId messageBytes);;
  if 0 <? seenBefore then ret tt
  else
    verified ⇠ verifyAndProcess m;;
    if negb verified then ret tt
    else
      maybeAcknowledgeMessage peerStream m seenBefore;;;
      filteredLeaving ⇠ gets (fun s => List.filter (hasTarget (st_routes s)) leaving);;
      forward_goodbye from m leaving;;;
      maybeDeleteRemoteRoutes filteredLeaving.

Definition _onDataMessage (from : PublicSignKey) (peerStream : string) (messageBytes : list Z) (m : Message) : M (option bool) :=
  seenBefore ⇠ modifySeenCache (getMsgId messageBytes);;
  onDataMessage from peerStream m seenBefore.

Definition processMessage (from : PublicSignKey) (peerStream : string) (msg : list Z) : M unit :=
  on ⇠ gets started;;
  if negb on then ret tt
  else
    m ⇠ lift (Message_from msg);;
    emit (MessageEvent m);;;
    match m_content m with
    | DataContent _ => attempt (_onDataMessage from peerStream msg m);;; ret tt
    | AckContent _ _ => attempt (onAck peerStream msg m);;; ret tt
    | GoodbyeContent leaving => attempt (onGoodBye from peerStream msg m leaving);;; ret tt
    | HelloContent _ => raise "Unsupported message type"
    end.

(** ** Peers and their streams *)

Definition addPeer (key : PublicSignKey) (protocol connId : string) : M unit :=
  let hash := hashcode key in
  clearHealthcheckTimer hash;;;
  existing ⇠ gets (fun s => Map_get (peers s) hash);;
  match existing with
  | Some (k, p) => modify (fun s => set_peers (Map_set (peers s) hash (k, set_connId p connId)) s)
  | None =>
      modify (fun s => set_peers (Map_set (peers s) hash (key, new_PeerStreams protocol connId)) s);;;
      updateSession key (-1);;;
      my ⇠ gets publicKeyHash;;
      now ⇠ gets clock;;
      addRouteConnection my hash key (-1) now (-1)
  end.

(** Closing the streams makes their "close" listener remove the peer as well. *)
Definition _removePeer (key : PublicSignKey) : M unit :=
  let hash := hashcode key in
  clearHealthcheckTimer hash;;;
  existing ⇠ gets (fun s => Map_get (peers s) hash);;
  match existing with
  | None => ret tt
  | Some (_, p) => lift (PeerStreams.close p);;; modify (fun s => set_peers (Map_delete (peers s) hash) s)
  end.

(** [stillConnected]: libp2p knows the connection that ended among several. *)
Definition onPeerDisconnected (key : PublicSignKey) (stillConnected : bool) : M unit :=
  let hash := hashcode key in
  known ⇠ gets (fun s => Map_has (peers s) hash);;
  my ⇠ gets me;;
  if stillConnected || negb known || bool_decide (my = key) then ret tt
  else
    _removePeer key;;;
    dependent ⇠ gets (fun s => getDependent (st_routes s) hash);;
    removePeerFromRoutes hash true;;;
    whenM (0 <? length dependent)%nat
      (h ⇠ new_header (SilentDelivery dependent 2) None None None;;
       m ⇠ sign_message (new_Goodbye h [hash]);;
       publishMessage my m None false;;; ret tt);;;
    checkIsAlive [hash].

(** [usable]: the connection is open and without limits. *)
Definition onPeerConnected (key : PublicSignKey) (usable : bool) : M unit :=
  on ⇠ gets started;;
  if negb on || negb usable then ret tt
  else
    pruned ⇠ pruned_has (hashcode key);;
    emit (if pruned : bool then CloseConnections (hashcode key) else OutboundInflight (hashcode key)).

Definition set_peer_streams (hash : string) (f : PeerStreams Qm -> PeerStreams Qm) : M unit :=
  modify (fun s => set_peers (Map_update (fun e => (e.1, f e.2)) (peers s) hash) s).

Definition _onIncomingStream (key : PublicSignKey) (protocol : option string) (connId : string) (stream : nat) : M unit :=
  on ⇠ gets started;;
  match on, protocol with
  | true, Some protocol =>
      pruned ⇠ pruned_has (hashcode key);;
      if pruned : bool then emit (CloseConnections (hashcode key))
      else
        addPeer key protocol connId;;;
        set_peer_streams (hashcode key) (fun p => (attachInboundStream p stream).1);;;
        emit (OutboundInflight (hashcode key))
  | _, _ => ret tt
  end.

(** What [connection.newStream] comes back with. *)
Inductive NewStream := Created (protocol : option string) (stream : nat) | Unsupported | Failed (silently : bool).

(** Four tries, as long as the protocol is not supported yet. *)
Fixpoint createOutboundStream_loop (tries : nat) (key : PublicSignKey) (connId : string) (results : nat -> NewStream) (n : nat) : M unit :=
  match tries with
  | O => ret tt
  | S tries =>
      on ⇠ gets started;;
      if negb on then ret tt
      else match results n with
           | Created (Some protocol) stream =>
               addPeer key protocol connId;;;
               set_peer_streams (hashcode key) (fun p => (attachOutboundStream p stream).1)
           | Created None _ => ret tt
           | Unsupported => createOutboundStream_loop tries key connId results (S n)
           | Failed silently => if silently then ret tt else raise "Error"
           end
  end.

Definition createOutboundStream (hasOutbound : bool) (key : PublicSignKey) (connId : string) (results : nat -> NewStream) : M unit :=
  if hasOutbound then ret tt else createOutboundStream_loop 4 key connId results 0.

(** ** Pruning of connections *)

Definition getQueuedBytes (s : Node) : Z :=
  fold_left (fun sum e => sum + match outboundStream e.2.2 with Some out => readableLength out | None => 0 end) (peers s) 0.

(** The moving averages of the bandwidth are [usedBandwidth]. *)
Definition pruneConnections (usedBandwidth : string -> Z) : M unit :=
  few ⇠ gets (fun s => Z.of_nat (length (peers s)) <=? minConnections (st_config s));;
  if few : bool then ret tt
  else
    prunables ⇠ gets (fun s => getPrunable (st_routes s)
      (js_sort (fun x y => usedBandwidth x - usedBandwidth y) (Map_keys (peers s))));;
    match prunables with
    | [] => ret tt
    | hash :: _ =>
        peer ⇠ gets (fun s => Map_get (peers s) hash);;
        match peer with
        | None => raise "TypeError"
        | Some (key, _) =>
            (fun s => match prunedConnectionsCache s with
                      | None => (Exn "TypeError", s)
                      | Some c => match Cache.add (clock s) c (hashcode key) None 1 with
                                  | Val c => (Val tt, set_prunedConnectionsCache (Some c) s)
                                  | Exn e => (Exn e, s)
                                  | NoFuel => (NoFuel, s) end
                      end);;;
            onPeerDisconnected key false;;;
            emit (CloseConnections (hashcode key))
        end
    end.

Definition maybePruneConnections (usedBandwidth : string -> Z) : M unit :=
  prune ⇠ gets (fun s =>
    match pruner (st_config s) with
    | None => false
    | Some p =>
        let n := Z.of_nat (length (peers s)) in
        match pruner_bandwidth p with
        | Some bandwidth => (0 <? n) && (bandwidth * n <? fold_left (fun sum e => sum + usedBandwidth e.1) (peers s) 0)
        | None => match pruner_maxBuffer p with Some max => max <? getQueuedBytes s | None => false end
        end
    end);;
  whenM prune (pruneConnections usedBandwidth).

(** ** Start and stop *)

Definition start (existing : list (PublicSignKey * bool)) : M unit :=
  on ⇠ gets started;;
  if on : bool then ret tt
  else
    modify (fun s => set_session (clock s) s);;;
    modify (fun s => set_st_routes (new_Routes (publicKeyHash s) (Some (cf_routeMaxRetentionPeriod (st_config s)))) s);;;
    modify (set_started true);;;
    modify (set_stopping false);;;
    forM (fun c => onPeerConnected c.1 c.2) existing.

Definition base_stop : M unit :=
  on ⇠ gets started;;
  if negb on then ret tt
  else
    modify (set_started false);;;
    ps ⇠ gets peers;;
    forM (fun e => lift (PeerStreams.close e.2.2);;; ret tt) ps;;;
    modify (set_healthChecks []);;;
    modify (fun s => set_prunedConnectionsCache ((fun c => Cache.clear (cache_max c) (cache_ttl c)) <$> prunedConnectionsCache s) s);;;
    modify (set_peers []);;;
    modify (fun s => set_seenCache (Cache.clear (cache_max (seenCache s)) (cache_ttl (seenCache s))) s);;;
    modify (fun s => set_st_routes (Routes.clear (st_routes s)) s);;;
    modify (set_peerKeyHashToPublicKey []);;;
    waits ⇠ gets ackCallbacks;;
    forM (fun e => ack_clear e.1;;; settle (aw_promise e.2) Resolved) waits;;;
    modify (set_ackCallbacks []);;;
    modify (set_stopping false).

(** What [waitFor] waits for. *)
Definition reachable_now (s : Node) (hash : string) (neighbour : bool) : bool :=
  (negb neighbour || Map_has (peers s) hash) && isReachable (st_routes s) (publicKeyHash s) hash 0.

Definition getPublicKey (s : Node) (hash : string) : option PublicSignKey := Map_get (peerKeyHashToPublicKey s) hash.
Definition pending (s : Node) : bool := (0 <? length (ackCallbacks s))%nat.

End Receive.
