(* ===== verification/StreamInvariant.v ===== *)
(** * What every method of a node keeps

    [ok]: the node knows the key of every peer it has a route to, so that the
    events about peers that become unreachable name one, and the fields of the
    subclass satisfy an invariant of its own.  What the overridden methods have
    to keep is the classes [PeerHookLaws] and [MessageHookLaws]; from them every
    method of the node keeps [ok]. *)

From Stdlib Require Import ZArith Lia List.
From stdpp Require Import base list strings.
From S2P Require Import Prelude JsMap Cache JsVal Integers Ranges PushableLanes Routes RoutesFacts StreamMessages PeerStreams Effects DirectStream DeliveryFacts StreamReceive.

Local Open Scope Z_scope.

(** ** Facts about the tables of routes *)

Lemma updateSession_routes r remote session :
  routes (Routes.updateSession r remote session).2 = routes r /\ Routes.me (Routes.updateSession r remote session).2 = Routes.me r.
Proof.
  unfold Routes.updateSession. destruct session; [|done]. destruct (Map_get (remoteInfo r) remote); [|done]. by case_ifs_all.
Qed.

Lemma findNeighbor_routes r r' from to : routes r = routes r' -> findNeighbor r from to = findNeighbor r' from to.
Proof. intros E. rewrite !findNeighbor_get. by rewrite E. Qed.

Lemma remove_me r target : Routes.me (Routes.remove r target).2 = Routes.me r.
Proof. unfold Routes.remove. by destruct (remove_loop _ _ _ _ _) as [[? ?] ?]. Qed.

Lemma remove_loop_NoDup me_ target m b u : NoDup u -> NoDup (remove_loop me_ target m b u).2.
Proof.
  revert b u. induction m as [|[k fm] m IH]; intros b u Hu; cbn [remove_loop]; [done|].
  destruct (drop_from_map target (Map_delete fm target)) as [kept lost].
  assert (Hadd : forall l v : list string, NoDup v -> NoDup (fold_left Set_add l v)).
  { induction l as [|x l IHl]; intros v Hv; cbn; [done|]. by apply IHl, Set_add_NoDup. }
  match goal with |- context [remove_loop me_ target m ?b' ?u'] => specialize (IH b' u'); destruct (remove_loop me_ target m b' u') as [[m' r'] un] end.
  apply IH. by case_bool_decide; [apply Hadd|].
Qed.

Lemma remove_unreachable_NoDup r target : NoDup (Routes.remove r target).1.
Proof.
  unfold Routes.remove. pose proof (remove_loop_NoDup (Routes.me r) target (Map_delete (routes r) target) false [] ltac:(constructor)) as Hn.
  destruct (remove_loop _ _ _ _ _) as [[m b] u]. cbn in Hn |- *. apply NoDup_List_filter. destruct b; [by apply Set_add_NoDup|done].
Qed.

Lemma remove_finds_less r target from to :
  routes_ok r -> is_Some (findNeighbor (Routes.remove r target).2 from to) -> is_Some (findNeighbor r from to).
Proof.
  intros Hr. rewrite remove_find by done. case_decide; [by intros [? ?]|]. destruct (findNeighbor r from to); [done|]. by intros [? ?].
Qed.

Lemma cleanup_finds_less r now from to f t :
  routes_ok r -> is_Some (findNeighbor (cleanup r now from to) f t) -> is_Some (findNeighbor r f t).
Proof.
  intros Hr. unfold cleanup. destruct (Map_get (routes r) from) as [fm|] eqn:Ef; [|done]. destruct (Map_get fm to) as [info|] eqn:Et; [|done].
  rewrite !findNeighbor_get. destruct (List.filter _ _) as [|x l].
  - cbn [with_routes routes]. destruct (_ =? 1)%nat; [rewrite Map_get_delete|rewrite Map_get_set]; case_decide as Hd; cbn; subst; try done.
    rewrite Ef. cbn. rewrite Map_get_delete. by case_decide; [intros [? ?]|].
  - cbn [with_routes routes]. rewrite Map_get_set. case_decide as Hd; subst; cbn; [|done]. rewrite Ef. cbn. rewrite Map_get_set.
    case_decide; subst; [by rewrite Et|done].
Qed.

Lemma add_finds r now from nb target distance session rs u r' :
  routes_ok r -> Routes.add r now from nb target distance session rs = (u, r') ->
  routes_ok r' /\ Routes.me r' = Routes.me r /\
  (forall f t, is_Some (findNeighbor r' f t) -> f = from /\ t = target \/ is_Some (findNeighbor r f t)) /\
  (u <> AddNew -> is_Some (findNeighbor r from target)).
Proof.
  intros Hr E. pose proof (add_ok r now from nb target distance session rs Hr) as Hok. pose proof (add_outcome r now from nb target distance session rs Hr) as H.
  rewrite E in Hok, H. cbn in Hok. cbv zeta in H. destruct H as (info & existed & Er & Em & _ & _ & _ & _ & Hu & Hal).
  split_and!; [done|done| |].
  - intros f t. rewrite !findNeighbor_get, Er, Map_get_set. case_decide as Hf; [|by right]. subst. cbn. rewrite Map_get_set.
    case_decide; [by left|by right].
  - intros Hne. destruct existed; [|by exfalso; apply Hne, Hu]. pose proof (proj1 (al_existed _ _ _ _ _ _ _ _ _ Hal) eq_refl) as (y & Hy & _).
    unfold routes_via in Hy. destruct (findNeighbor r from target); [done|]. by apply not_elem_of_nil in Hy.
Qed.

Section Invariant.
Context `{Hashing} `{!EqDecision PublicSignKey} `{!JsEnv} `{!Wire, !Signing}.
Context {Qs Qm X : Type} `{Queue Qs string} `{Queue Qm (Next (list Z) string)}.

Abbreviation Node := (Stream (Qs := Qs) (Qm := Qm) (X := X)).
Implicit Types s : Node.

(** The invariant of the subclass's fields. *)
Context (I : X -> Prop).

(** ** The invariant *)

(** The key of every peer with a route is known. *)
Record routes_known s : Prop := {
  rk_ok : routes_ok (st_routes s);
  rk_me : Routes.me (st_routes s) = publicKeyHash s;
  rk_known x : is_Some (findNeighbor (st_routes s) (publicKeyHash s) x) -> Map_has (peerKeyHashToPublicKey s) x = true;
}.

Record ok s : Prop := {
  ok_known : routes_known s;
  ok_log : Forall known_event (st_log s);
  ok_ext : I (st_ext s);
}.

(** A method of the subclass leaves the tables of the node alone. *)
Definition tables s := (st_config s, st_routes s, peerKeyHashToPublicKey s).
Record framed (t : _) s : Prop := {
  fr_tables : tables s = t;
  fr_log : Forall known_event (st_log s);
  fr_ext : I (st_ext s);
}.

Class PeerHookLaws `{!PeerHooks (Qs := Qs) (Qm := Qm) (X := X)} : Prop := {
  reachable_framed t key : keeps (framed t) (onPeerReachable key);
  session_framed t key n : keeps (framed t) (onPeerSession key n);
  unreachable_framed t hash : Map_has t.2 hash = true -> keeps (framed t) (onPeerUnreachable hash);
}.

Lemma known_tables s s' : tables s' = tables s -> routes_known s -> routes_known s'.
Proof.
  unfold tables. intros E [K1 K2 K3]. injection E as Ec Er Ek. unfold publicKeyHash, me in *.
  split; rewrite ?Er, ?Ek; [done| |]; unfold publicKeyHash, me; by rewrite Ec.
Qed.

Lemma framed_ok {A} (m : Method Node A) : (forall t, keeps (framed t) m) -> keeps ok m.
Proof.
  intros Hm s [Hk Hl Hi]. destruct (Hm (tables s) s) as [Et Hl' Hi']; [by split|]. split; [by eapply known_tables|done|done].
Qed.

Lemma quiet_framed {A} (m : Method Node A) t : quiet m -> keeps (framed t) m.
Proof.
  intros Hm s [Et Hl Hi]. destruct (Hm (view s) (peer_keys s) True s) as (Hv & _ & Hc); [by split_and!|].
  unfold viewed, view in Hv. injection Hv as E1 E2 E3 E4 _ _. split; [by unfold tables; rewrite E1, E3, E4|by apply Hc|by rewrite E2].
Qed.

Lemma quiet_ok {A} (m : Method Node A) : quiet m -> keeps ok m.
Proof. intros Hm. apply framed_ok. intros t. by apply quiet_framed. Qed.

Lemma ok_same s s' : tables s' = tables s -> st_log s' = st_log s -> st_ext s' = st_ext s -> ok s -> ok s'.
Proof. intros Et El Ee [Hk Hl Hi]. split; [by eapply known_tables|by rewrite El|by rewrite Ee]. Qed.

(** Changes of fields that the invariant does not speak of. *)
Lemma modify_ok (f : Node -> Node) :
  (forall s, tables (f s) = tables s /\ st_log (f s) = st_log s /\ st_ext (f s) = st_ext s) -> keeps ok (modify f).
Proof.
  intros Hf. apply keeps_modify. intros s Hs. destruct (Hf s) as (Et & El & Ee). by apply (ok_same s). Qed.

Context `{!PeerHooks (Qs := Qs) (Qm := Qm) (X := X)} `{!PeerHookLaws}.

(** ** Routes *)

Lemma updateSession_ok key n : keeps ok (updateSession key n).
Proof.
  unfold updateSession. apply keeps_bind; [|intros b; apply keeps_when, framed_ok; intros t; apply session_framed].
  intros s [[K1 K2 K3] Hl Hi]. destruct (updateSession_routes (st_routes s) (hashcode key) (Some n)) as [Er Em].
  destruct (Routes.updateSession _ _ _) as [b r]. cbn in *. split; [split|done|done]; cbn.
  - unfold routes_ok. by rewrite Er.
  - by rewrite Em.
  - intros x. rewrite (findNeighbor_routes r (st_routes s)) by done. apply K3.
Qed.

Lemma invalidateSession_ok hash : keeps ok (invalidateSession hash).
Proof.
  apply keeps_modify. intros s [[K1 K2 K3] Hl Hi]. destruct (updateSession_routes (st_routes s) hash None) as [Er Em].
  split; [split|done|done]; cbn [set_st_routes st_routes peerKeyHashToPublicKey].
  - unfold routes_ok. by rewrite Er.
  - by rewrite Em.
  - intros x. rewrite (findNeighbor_routes _ (st_routes s)) by done. apply K3.
Qed.

Lemma addRouteConnection_ok from nb target distance session rs : keeps ok (addRouteConnection from nb target distance session rs).
Proof.
  intros s [[K1 K2 K3] Hl Hi]. unfold addRouteConnection, bindM at 1. destruct (Routes.add _ _ _ _ _ _ _ _) as [u r] eqn:E.
  destruct (add_finds _ _ _ _ _ _ _ _ _ _ K1 E) as (R1 & R2 & R3 & R4). unfold bindM at 1, gets at 1.
  change (publicKeyHash (set_st_routes r s)) with (publicKeyHash s).
  assert (Hsame : (from = publicKeyHash s -> Map_has (peerKeyHashToPublicKey s) (hashcode target) = true) -> ok (set_st_routes r s)).
  { intros Ht. split; [split|done|done]; cbn; [done|by rewrite R2|].
    change (publicKeyHash (set_st_routes r s)) with (publicKeyHash s). intros x Hx. destruct (R3 _ _ Hx) as [[<- ->]|]; [by apply Ht|by apply K3]. }
  case_bool_decide as Hf; [|by apply Hsame]. subst from. destruct u; try (apply Hsame; intros _; by apply K3, R4).
  assert (Hset : ok (set_peerKeyHashToPublicKey (Map_set (peerKeyHashToPublicKey s) (hashcode target) target) (set_st_routes r s))).
  { split; [split|done|done]; cbn; [done|by rewrite R2|].
    match goal with |- context [publicKeyHash ?q] => change (publicKeyHash q) with (publicKeyHash s) end.
    intros x Hx. unfold Map_has. rewrite Map_get_set. case_decide; [done|]. destruct (R3 _ _ Hx) as [[_ ->]|Hx']; [done|]. by apply K3 in Hx'. }
  exact (framed_ok (onPeerReachable target) (fun t => reachable_framed t target) _ Hset).
Qed.

(** Telling of the unreachable peers, one after the other. *)
Lemma tell_unreachable_ok l s :
  ok s -> NoDup l ->
  (forall x, x ∈ l -> Map_has (peerKeyHashToPublicKey s) x = true /\ findNeighbor (st_routes s) (publicKeyHash s) x = None) ->
  ok (forM (fun node => bindM (onPeerUnreachable node)
    (fun _ => modify (fun s => set_peerKeyHashToPublicKey (Map_delete (peerKeyHashToPublicKey s) node) s))) l s).2.
Proof.
  intros Hok Hnd. revert s Hok. induction Hnd as [|x l Hx _ IH]; intros s [Hk Hl Hi] Hall; cbn [forM]; [by split|].
  destruct (Hall x ltac:(by left)) as [Hkey Hnone].
  pose proof (unreachable_framed (tables s) x Hkey s ltac:(by split)) as [Et Hl' Hi']. unfold bindM.
  destruct (onPeerUnreachable x s) as [[[]|e|] s1]; cbn in Et, Hl', Hi'; try (split; [by eapply known_tables|done|done]).
  cbn [modify]. pose proof (known_tables s s1 Et Hk) as [K1 K2 K3].
  assert (E : st_config s1 = st_config s /\ st_routes s1 = st_routes s /\ peerKeyHashToPublicKey s1 = peerKeyHashToPublicKey s) by (unfold tables in Et; by simplify_eq).
  destruct E as (Ec & Er & Ek). assert (Em : publicKeyHash s1 = publicKeyHash s) by (unfold publicKeyHash, me; by rewrite Ec).
  apply IH.
  - split; [split|done|done]; cbn; [done|done|].
    match goal with |- context [publicKeyHash ?q] => change (publicKeyHash q) with (publicKeyHash s1) end.
    intros y Hy. unfold Map_has. rewrite Map_get_delete. case_decide; [|by apply K3 in Hy]. subst y. rewrite Er, Em, Hnone in Hy. by destruct Hy.
  - intros y Hy. destruct (Hall y ltac:(by right)) as [Hky Hny]. cbn.
    match goal with |- context [publicKeyHash ?q] => change (publicKeyHash q) with (publicKeyHash s1) end.
    rewrite Er, Em, Ek. split; [|done]. unfold Map_has. rewrite Map_get_delete. case_decide; [by subst|done].
Qed.

Lemma removePeerFromRoutes_ok hash d : keeps ok (removePeerFromRoutes hash d).
Proof.
  intros s [[K1 K2 K3] Hl Hi]. unfold removePeerFromRoutes, bindM at 1, gets at 1. destruct (_ && _); [by split|].
  unfold bindM at 1. pose proof (remove_unreachable_NoDup (st_routes s) hash) as Hnd. pose proof (remove_me (st_routes s) hash) as Em.
  pose proof (remove_ok (st_routes s) hash K1) as Hr. pose proof (remove_finds_less (st_routes s) hash (publicKeyHash s)) as Hless.
  pose proof (remove_correct (st_routes s) hash K1) as Hc. destruct (Routes.remove (st_routes s) hash) as [u r]. destruct Hc as (_ & _ & Hu). cbn in Hnd, Em, Hr, Hless.
  rewrite K2 in Hu. apply tell_unreachable_ok; [|done|].
  - split; [split|done|done]; cbn; [done|by rewrite Em|]. intros x Hx. apply K3. by apply Hless.
  - intros x (_ & Hs & Hn)%Hu. cbn. split; [by apply K3|done].
Qed.

Lemma cleanup_node_ok s now from to : ok s -> ok (set_st_routes (cleanup (st_routes s) now from to) s).
Proof.
  intros [[K1 K2 K3] Hl Hi]. split; [split|done|done]; cbn.
  - by apply RoutesFacts.cleanup_ok.
  - etrans; [|exact K2]. unfold cleanup. destruct (Map_get _ from); [|done]. destruct (Map_get _ to); [|done]. by destruct (List.filter _ _).
  - intros x Hx. apply K3. by eapply cleanup_finds_less.
Qed.

End Invariant.

#[export] Hint Resolve updateSession_ok invalidateSession_ok addRouteConnection_ok removePeerFromRoutes_ok : keeps.

(** Takes a method apart; quiet steps and known methods are done. *)
Ltac ok_step :=
  match goal with
    | |- keeps _ (bindM _ _) => apply keeps_bind; [|intros ?]
    | |- keeps _ (whenM _ _) => apply keeps_when
    | |- keeps _ (attempt _) => apply keeps_attempt
    | |- keeps _ (forM _ _) => apply keeps_forM; intros ?
    | |- keeps _ (match ?x with _ => _ end) => destruct x
    | |- keeps _ (if ?b then _ else _) => destruct b
    | |- keeps _ (modify _) => apply modify_ok; by intros ?
    | |- keeps _ _ => first [solve [auto 2 with keeps] | apply quiet_ok; solve [quiet_auto]]
    end.
Ltac ok_auto := repeat ok_step.

Section Methods.
Context `{Hashing} `{!EqDecision PublicSignKey} `{!JsEnv} `{!Wire, !Signing}.
Context {Qs Qm X : Type} `{Queue Qs string} `{Queue Qm (Next (list Z) string)}.
Context (I : X -> Prop) `{!PeerHooks (Qs := Qs) (Qm := Qm) (X := X)} `{!PeerHookLaws I}.

Abbreviation Node := (Stream (Qs := Qs) (Qm := Qm) (X := X)).
Implicit Types s : Node.
Abbreviation okI := (ok (Qs := Qs) (Qm := Qm) I).

(** ** Messages *)

Lemma verifyAndProcess_ok m : keeps okI (verifyAndProcess m).
Proof. unfold verifyAndProcess. ok_auto. Qed.
Hint Resolve verifyAndProcess_ok : keeps.

Lemma base_onDataMessage_ok from p m n : keeps okI (base_onDataMessage from p m n).
Proof. unfold base_onDataMessage. ok_auto. Qed.

Lemma ack_callback_ok i a t f : keeps okI (ack_callback i a t f).
Proof. unfold ack_callback. ok_auto. Qed.
Hint Resolve ack_callback_ok : keeps.

Lemma undialled_ok l : keeps okI (undialled l).
Proof.
  induction l as [|x l IH]; cbn [undialled]; [apply keeps_ret|]. apply keeps_bind; [|intros b; apply keeps_bind; [done|intros; apply keeps_ret]].
  intros s Hs. destruct (recentDials s) as [c|]; [|done].
  match goal with |- context [match ?o with Val _ => _ | Exn _ => _ | NoFuel => _ end] => destruct o as [[b c']|e|]; [by apply (ok_same I s)|done|done] end.
Qed.
Hint Resolve undialled_ok : keeps.

Lemma maybeConnectDirectly_ok h o : keeps okI (maybeConnectDirectly h o).
Proof. unfold maybeConnectDirectly. ok_auto. Qed.
Hint Resolve maybeConnectDirectly_ok : keeps.

Lemma onAck_ok p b m : keeps okI (onAck p b m).
Proof. unfold onAck. ok_auto. Qed.

Lemma healthcheck_timeout_ok to : keeps okI (healthcheck_timeout to).
Proof. unfold healthcheck_timeout. ok_auto. Qed.

(** ** Peers that come and go *)

Class MessageHookLaws `{!MessageHooks (Qs := Qs) (Qm := Qm) (X := X)} : Prop := {
  onDataMessage_ok from p m n : keeps okI (onDataMessage from p m n);
  publish_ok d o : keeps okI (publish d o);
}.
Context `{!MessageHooks (Qs := Qs) (Qm := Qm) (X := X)} `{!MessageHookLaws}.
Hint Resolve onDataMessage_ok publish_ok : keeps.

Lemma checkIsAlive_ok l : keeps okI (checkIsAlive l).
Proof. unfold checkIsAlive. ok_auto. Qed.
Hint Resolve checkIsAlive_ok : keeps.

Lemma forward_goodbye_ok from m l : keeps okI (forward_goodbye from m l).
Proof. revert m. induction l as [|x l IH]; intros m; cbn [forward_goodbye]; [apply keeps_ret|]. ok_auto; apply IH. Qed.
Hint Resolve forward_goodbye_ok : keeps.

Lemma onGoodBye_ok from p b m l : keeps okI (onGoodBye from p b m l).
Proof. unfold onGoodBye, maybeDeleteRemoteRoutes. ok_auto. Qed.
Hint Resolve onGoodBye_ok onAck_ok : keeps.

Lemma processMessage_ok from p msg : keeps okI (processMessage from p msg).
Proof. unfold processMessage, _onDataMessage. ok_auto. Qed.

Lemma addPeer_ok key pr c : keeps okI (addPeer key pr c).
Proof. unfold addPeer. ok_auto. Qed.
Hint Resolve addPeer_ok : keeps.

Lemma onPeerDisconnected_ok key b : keeps okI (onPeerDisconnected key b).
Proof. unfold onPeerDisconnected, _removePeer. ok_auto. Qed.
Hint Resolve onPeerDisconnected_ok : keeps.

Lemma onPeerConnected_ok key b : keeps okI (onPeerConnected key b).
Proof. unfold onPeerConnected. ok_auto. Qed.
Hint Resolve onPeerConnected_ok : keeps.

Lemma onIncomingStream_ok key pr c n : keeps okI (_onIncomingStream key pr c n).
Proof. unfold _onIncomingStream, set_peer_streams. ok_auto. Qed.

Lemma createOutboundStream_ok b key c r : keeps okI (createOutboundStream b key c r).
Proof.
  assert (Hl : forall t n, keeps okI (createOutboundStream_loop t key c r n)).
  { induction t as [|t IH]; intros n; cbn [createOutboundStream_loop]; [apply keeps_ret|]. unfold set_peer_streams. ok_auto; apply IH. }
  unfold createOutboundStream. by destruct b; [apply keeps_ret|].
Qed.

Lemma maybePruneConnections_ok u : keeps okI (maybePruneConnections u).
Proof.
  unfold maybePruneConnections, pruneConnections. ok_auto.
  intros st Hs. destruct (prunedConnectionsCache st) as [c|]; [|done].
  destruct (Cache.add _ _ _ _ _); [by apply (ok_same I st)|done|done].
Qed.

(** ** Start and stop *)

Lemma new_routes_ok s ms : ok I s -> ok I (set_st_routes (new_Routes (publicKeyHash s) ms) s).
Proof. intros [_ Hl Hi]. split; [|done|done]. split; cbn; [split; [constructor|done]|done|]. by intros x [? ?]. Qed.

Lemma start_ok l : keeps okI (start l).
Proof. unfold start. ok_auto. apply keeps_modify. intros s. apply new_routes_ok. Qed.

(** The routes and the keys are cleared together. *)
Lemma clear_tables_ok (k : Method Node unit) :
  keeps okI k ->
  keeps okI (bindM (modify (fun s => set_st_routes (Routes.clear (st_routes s)) s)) (fun _ => bindM (modify (set_peerKeyHashToPublicKey [])) (fun _ => k))).
Proof.
  intros Hk s [[K1 K2 K3] Hl Hi]. apply Hk. split; [|done|done]. split; cbn; [split; [constructor|done]|done|]. by intros x [? ?].
Qed.

Lemma base_stop_ok : keeps okI base_stop.
Proof.
  unfold base_stop. apply keeps_bind; [ok_auto|intros ?]. destruct (negb _); [apply keeps_ret|].
  do 7 (apply keeps_bind; [ok_auto|intros ?]). apply clear_tables_ok. ok_auto.
Qed.

End Methods.

#[export] Hint Resolve verifyAndProcess_ok base_onDataMessage_ok healthcheck_timeout_ok processMessage_ok onPeerDisconnected_ok
  onPeerConnected_ok onIncomingStream_ok createOutboundStream_ok maybePruneConnections_ok start_ok base_stop_ok : keeps.
