(* ===== verification/RemoteBlocks.v ===== *)
(** * Blocks of other nodes
    (packages/transport/blocks/src/remote.ts, any-blockstore.ts;
    packages/transport/blocks-interface/src/block.ts)

    A node reads the block of a content id from its own store, or asks its peers for it.
    Calls for one block share a promise; a response is decoded and compared with the id
    before it counts.  [block_step] are the events of a node.  What a call returns is what
    its id names ([blocks_genuine]), one good response serves all that wait
    ([waiting_served]), and a read that is aborted is never given up
    ([aborted_read_sticks]). *)

From Stdlib Require Import ZArith Lia.
From stdpp Require Import base list strings.
From S2P Require Import Prelude JsMap Cache StreamMessages.

Local Open Scope Z_scope.

(** ** Content ids (multiformats) *)

(** [decode] gives the id of a block, whose bytes stay as they are; [raw_cid] is the id
    of bytes with the codec raw. *)
Class BlockFormat (B Cid Codec Hasher : Type) := {
  Cid_eq :: EqDecision Cid;
  cidifyString : string -> outcome Cid;
  stringifyCid : Cid -> string;
  codecCodes : Cid -> option Codec;
  decode : option Codec -> Hasher -> B -> outcome Cid;
  raw_cid : B -> Cid;
  defaultHasher : Hasher;
}.
Class BlockFormatLaws (B Cid Codec Hasher : Type) `{BlockFormat B Cid Codec Hasher} : Prop := {
  law_stringified (c : Cid) : cidifyString (stringifyCid c) = Val c;
  law_raw (b : B) : decode (codecCodes (raw_cid b)) defaultHasher b = Val (raw_cid b);
}.

Definition AbortError : string := "AbortError".

Section RemoteBlocks.
Context {B Cid Codec Hasher Qc : Type} `{BlockFormat B Cid Codec Hasher, Queue Qc string}.

Definition checkDecodeBlock (expectedCID : Cid) (bytes : B) (hasher : option Hasher) : outcome B :=
  cid ← decode (codecCodes expectedCID) (default defaultHasher hasher) bytes;
  if decide (cid = expectedCID) then Val bytes else Exn "CID does not match".

(** ** The own store *)

Definition store_get (store : list (string * B)) (cid : string) (hasher : option Hasher) : outcome (option B) :=
  cidObject ← cidifyString cid;
  match Map_get store cid with
  | None => Val None
  | Some bytes => _ ← decode (codecCodes cidObject) (default defaultHasher hasher) bytes; Val (Some bytes)
  end.

Definition store_put (store : list (string * B)) (bytes : B) : list (string * B) := Map_set store (stringifyCid (raw_cid bytes)) bytes.

(** ** State *)

Record RemoteOptions := MkRemoteOptions { ro_hasher : option Hasher; ro_from : option (list string); ro_replicate : bool }.
Record GetOptions := MkGetOptions { go_hasher : option Hasher; go_remote : option RemoteOptions }.

Inductive BlockMessage := BlockRequest (cid : string) | BlockResponse (cid : string) (bytes : B).

(** A promise of [_readFromPeers], with the responses its resolver is decoding;
    [rd_closing], [rd_aborting]: whether its abort handler listens to the node's signal
    and to the caller's. *)
Inductive Promised := Waits | Resolves (b : option B) | Rejects (e : string).
Record Read := MkRead {
  rd_cid : string;
  rd_object : Cid;
  rd_hasher : option Hasher;
  rd_promise : Promised;
  rd_decoding : list B;
  rd_closing : bool;
  rd_aborting : bool;
}.

(** A call of [get]: the one that makes the promise publishes before it waits. *)
Inductive CallStage := Publishes (read : nat) | Awaits (read : nat) (owner : bool) | Done (r : outcome (option B)).
Record Call := MkCall { cl_cid : string; cl_replicate : bool; cl_stage : CallStage }.

Record Remote := MkRemote {
  rb_store : list (string * B);
  rb_resolvers : list (string * nat);
  rb_promises : list (string * nat);
  rb_reads : list Read;
  rb_calls : list Call;
  rb_cache : option (Cache string B Qc);
  rb_listeners : list (nat * (string * option (list string)));
  rb_published : list (BlockMessage * option (list string) * option DeliveryMode);
  rb_open : bool;
}.

Definition set_store (x : list (string * B)) (s : Remote) : Remote :=
  MkRemote x (rb_resolvers s) (rb_promises s) (rb_reads s) (rb_calls s) (rb_cache s) (rb_listeners s) (rb_published s) (rb_open s).
Definition set_resolvers (x : list (string * nat)) (s : Remote) : Remote :=
  MkRemote (rb_store s) x (rb_promises s) (rb_reads s) (rb_calls s) (rb_cache s) (rb_listeners s) (rb_published s) (rb_open s).
Definition set_promises (x : list (string * nat)) (s : Remote) : Remote :=
  MkRemote (rb_store s) (rb_resolvers s) x (rb_reads s) (rb_calls s) (rb_cache s) (rb_listeners s) (rb_published s) (rb_open s).
Definition set_reads (x : list Read) (s : Remote) : Remote :=
  MkRemote (rb_store s) (rb_resolvers s) (rb_promises s) x (rb_calls s) (rb_cache s) (rb_listeners s) (rb_published s) (rb_open s).
Definition set_calls (x : list Call) (s : Remote) : Remote :=
  MkRemote (rb_store s) (rb_resolvers s) (rb_promises s) (rb_reads s) x (rb_cache s) (rb_listeners s) (rb_published s) (rb_open s).
Definition set_cache (x : option (Cache string B Qc)) (s : Remote) : Remote :=
  MkRemote (rb_store s) (rb_resolvers s) (rb_promises s) (rb_reads s) (rb_calls s) x (rb_listeners s) (rb_published s) (rb_open s).
Definition set_listeners (x : list (nat * (string * option (list string)))) (s : Remote) : Remote :=
  MkRemote (rb_store s) (rb_resolvers s) (rb_promises s) (rb_reads s) (rb_calls s) (rb_cache s) x (rb_published s) (rb_open s).
Definition set_open (x : bool) (s : Remote) : Remote :=
  MkRemote (rb_store s) (rb_resolvers s) (rb_promises s) (rb_reads s) (rb_calls s) (rb_cache s) (rb_listeners s) (rb_published s) x.
Definition publish (m : BlockMessage) (to : option (list string)) (mode : option DeliveryMode) (s : Remote) : Remote :=
  MkRemote (rb_store s) (rb_resolvers s) (rb_promises s) (rb_reads s) (rb_calls s) (rb_cache s) (rb_listeners s) (rb_published s ++ [(m, to, mode)]) (rb_open s).

Definition set_stage (st : CallStage) (c : Call) : Call := MkCall (cl_cid c) (cl_replicate c) st.
Definition set_decoding (l : list B) (r : Read) : Read := MkRead (rd_cid r) (rd_object r) (rd_hasher r) (rd_promise r) l (rd_closing r) (rd_aborting r).
Definition settle (p : Promised) (r : Read) : Read :=
  match rd_promise r with
  | Waits => MkRead (rd_cid r) (rd_object r) (rd_hasher r) p (rd_decoding r) (rd_closing r) (rd_aborting r)
  | _ => r
  end.
Definition no_close (r : Read) : Read := MkRead (rd_cid r) (rd_object r) (rd_hasher r) (rd_promise r) (rd_decoding r) false (rd_aborting r).
Definition no_handlers (r : Read) : Read := MkRead (rd_cid r) (rd_object r) (rd_hasher r) (rd_promise r) (rd_decoding r) false false.

Definition change_read (i : nat) (f : Read -> Read) (s : Remote) : Remote := set_reads (alter f i (rb_reads s)) s.
Definition change_call (c : nat) (f : Call -> Call) (s : Remote) : Remote := set_calls (alter f c (rb_calls s)) s.

(** ** Reading *)

(** The end of [get]: a block that is to be replicated is put. *)
Definition finish_call (c : nat) (replicate : bool) (r : outcome (option B)) (s : Remote) : Remote :=
  let s := match r with Val (Some b) => if replicate then set_store (store_put (rb_store s) b) s else s | _ => s end in
  change_call c (set_stage (Done r)) s.

(** What came before it was asked for, and is what is asked for. *)
Definition early_block (now : Z) (cid : string) (object : Cid) (hasher : option Hasher) (s : Remote) : outcome (option B * Remote) :=
  match rb_cache s with
  | None => Val (None, s)
  | Some cache =>
      '(v, cache) ← Cache.get now cache cid;
      match v with
      | Some (Some bytes) =>
          let s := set_cache (Some (Cache.del cache cid).2) s in
          match checkDecodeBlock object bytes hasher with
          | Val b => Val (Some b, s)
          | Exn _ => Val (None, s)
          | NoFuel => NoFuel
          end
      | _ => Val (None, set_cache (Some cache) s)
      end
  end.

(** [_readFromPeers] of the call [c], up to where it waits. *)
Definition readFromPeers (now : Z) (c : nat) (cid : string) (object : Cid) (o : RemoteOptions) (s : Remote) : Remote :=
  match early_block now cid object (ro_hasher o) s with
  | Exn e => change_call c (set_stage (Done (Exn e))) s
  | NoFuel => s
  | Val (Some b, s) => finish_call c (ro_replicate o) (Val (Some b)) s
  | Val (None, s) =>
      match Map_get (rb_promises s) cid with
      | Some i => change_call c (set_stage (Awaits i false)) s
      | None =>
          let i := length (rb_reads s) in
          let s := set_reads (rb_reads s ++ [MkRead cid object (ro_hasher o) Waits [] (rb_open s) true]) s in
          let s := set_promises (Map_set (rb_promises s) cid i) (set_resolvers (Map_set (rb_resolvers s) cid i) s) in
          let s := set_listeners (rb_listeners s ++ [(i, (cid, ro_from o))]) s in
          change_call c (set_stage (Publishes i))
            (publish (BlockRequest cid) None (Some (match ro_from o with Some from => SilentDelivery from 1 | None => AnyWhere end)) s)
      end
  end.

Definition get (now : Z) (cid : string) (o : GetOptions) (s : Remote) : Remote :=
  let c := length (rb_calls s) in
  let s := set_calls (rb_calls s ++ [MkCall cid (match go_remote o with Some r => ro_replicate r | None => false end) (Done (Val None))]) s in
  match cidifyString cid with
  | Val object =>
      match store_get (rb_store s) cid (go_hasher o) with
      | Val (Some b) => change_call c (set_stage (Done (Val (Some b)))) s
      | Val None => match go_remote o with Some r => readFromPeers now c cid object r s | None => s end
      | Exn e => change_call c (set_stage (Done (Exn e))) s
      | NoFuel => s
      end
  | Exn e => change_call c (set_stage (Done (Exn e))) s
  | NoFuel => s
  end.

(** ** Messages *)

(** [handleFetchRequest]; its failures are not seen. *)
Definition handleFetchRequest (cid : string) (from : option string) (s : Remote) : Remote :=
  match from with
  | None => s
  | Some from =>
      match store_get (rb_store s) cid None with
      | Val (Some bytes) => publish (BlockResponse cid bytes) (Some [from]) None s
      | _ => s
      end
  end.

Definition onMessage (now : Z) (message : BlockMessage) (from : option string) (s : Remote) : Remote :=
  match message with
  | BlockRequest cid => handleFetchRequest cid from s
  | BlockResponse cid bytes =>
      match Map_get (rb_resolvers s) cid with
      | Some i => change_read i (fun r => set_decoding (rd_decoding r ++ [bytes]) r) s
      | None =>
          match rb_cache s with
          | Some cache => match Cache.add now cache cid (Some bytes) 1 with Val cache => set_cache (Some cache) s | _ => s end
          | None => s
          end
      end
  end.

(** [publishOnNewPeers] of every read that listens. *)
Definition onReachable (peer : string) (s : Remote) : Remote :=
  fold_left (fun s l =>
    match l.2.2 with
    | Some from => if bool_decide (peer ∈ from) then publish (BlockRequest l.2.1) (Some [peer]) (Some AnyWhere) s else s
    | None => publish (BlockRequest l.2.1) (Some [peer]) (Some AnyWhere) s
    end) (rb_listeners s) s.

(** ** Events *)

Inductive BlockEvent :=
| Get (now : Z) (cid : string) (o : GetOptions)
| Put (bytes : B)
| Rm (cid : string)
| PublishDone (c : nat) (r : outcome unit)
| Message (now : Z) (message : BlockMessage) (from : option string)
| Decoded (i k : nat)
| Timeout (i : nat)
| Abort (i : nat)
| Return (c : nat)
| Reachable (peer : string)
| Begin
| Stop.

(** The resolver of a read when a response has been decoded. *)
Definition decoded (i : nat) (r : Read) (bytes : B) (s : Remote) : Remote :=
  match checkDecodeBlock (rd_object r) bytes (rd_hasher r) with
  | Val b => change_read i (fun r => no_close (settle (Resolves (Some b)) r)) (set_resolvers (Map_delete (rb_resolvers s) (rd_cid r)) s)
  | _ => s
  end.

(** A waiting call goes on when the promise has settled. *)
Definition return_call (c : nat) (cl : Call) (i : nat) (owner : bool) (s : Remote) : option Remote :=
  r ← rb_reads s !! i;
  match rd_promise r with
  | Waits => None
  | Resolves v =>
      let s := if owner then set_listeners (List.filter (fun l => negb (l.1 =? i)%nat) (rb_listeners s)) (set_promises (Map_delete (rb_promises s) (cl_cid cl)) s) else s in
      Some (finish_call c (cl_replicate cl) (Val v) s)
  | Rejects e => Some (finish_call c (cl_replicate cl) (Exn e) s)
  end.

Definition block_step (e : BlockEvent) (s : Remote) : option Remote :=
  match e with
  | Get now cid o => Some (get now cid o s)
  | Put bytes => Some (set_store (store_put (rb_store s) bytes) s)
  | Rm cid => Some (set_store (Map_delete (rb_store s) cid) s)
  | PublishDone c r =>
      cl ← rb_calls s !! c;
      match cl_stage cl, r with
      | Publishes i, Val _ => Some (change_call c (set_stage (Awaits i true)) s)
      | Publishes i, Exn e => Some (change_call c (set_stage (Done (Exn e))) s)
      | _, _ => None
      end
  | Message now message from => Some (onMessage now message from s)
  | Decoded i k =>
      r ← rb_reads s !! i;
      bytes ← rd_decoding r !! k;
      Some (decoded i r bytes (change_read i (fun r => set_decoding (delete k (rd_decoding r)) r) s))
  | Timeout i => r ← rb_reads s !! i; match rd_promise r with Waits => Some (change_read i (settle (Resolves None)) s) | _ => None end
  | Abort i =>
      r ← rb_reads s !! i;
      if rd_aborting r then
        Some (change_read i (fun r => no_handlers (settle (Rejects AbortError) r)) (set_resolvers (Map_delete (rb_resolvers s) (rd_cid r)) s))
      else None
  | Return c =>
      cl ← rb_calls s !! c;
      match cl_stage cl with Awaits i owner => return_call c cl i owner s | _ => None end
  | Reachable peer => Some (onReachable peer s)
  | Begin => Some (set_open true (set_listeners [] (set_reads (map no_close (rb_reads s)) s)))
  | Stop =>
      let s := set_reads (map (fun r => if rd_closing r then no_handlers (settle (Rejects AbortError) r) else r) (rb_reads s)) s in
      Some (set_cache (fmap (fun c => Cache.clear (cache_max c) (cache_ttl c)) (rb_cache s)) (set_open false (set_resolvers [] (set_promises [] s))))
  end.

Inductive block_run : Remote -> list BlockEvent -> Remote -> Prop :=
| block_run_nil s : block_run s [] s
| block_run_snoc s es s1 e s2 : block_run s es s1 -> block_step e s1 = Some s2 -> block_run s (es ++ [e]) s2.

(** ** What is read is what was asked for *)

Context `{!BlockFormatLaws B Cid Codec Hasher}.
Implicit Types (s : Remote) (b : B) (rd : Read) (cl : Call).

(** A block that an id names, for the hasher that was used. *)
Definition named (cid : string) b : Prop := exists object hasher, cidifyString cid = Val object /\ checkDecodeBlock object b hasher = Val b.

Definition read_ok rd : Prop := cidifyString (rd_cid rd) = Val (rd_object rd) /\ forall b, rd_promise rd = Resolves (Some b) -> named (rd_cid rd) b.
Definition stage_ok (reads : list Read) (cid : string) (st : CallStage) : Prop :=
  match st with
  | Publishes i | Awaits i _ => exists rd, reads !! i = Some rd /\ rd_cid rd = cid
  | Done (Val (Some b)) => named cid b
  | Done _ => True
  end.

Record blocks_ok s : Prop := {
  bo_store k b : Map_get (rb_store s) k = Some b -> k = stringifyCid (raw_cid b);
  bo_reads i rd : rb_reads s !! i = Some rd -> read_ok rd;
  bo_promises cid i : Map_get (rb_promises s) cid = Some i -> exists rd, rb_reads s !! i = Some rd /\ rd_cid rd = cid;
  bo_calls c cl : rb_calls s !! c = Some cl -> stage_ok (rb_reads s) (cl_cid cl) (cl_stage cl);
}.

Lemma check_bytes object b b' hasher : checkDecodeBlock object b hasher = Val b' -> b' = b.
Proof. unfold checkDecodeBlock. destruct (decode _ _ b) as [c|?|]; [|done|done]. cbn. case_decide; [by intros [= <-]|done]. Qed.

Lemma stored_named k b : k = stringifyCid (raw_cid b) -> named k b.
Proof.
  intros ->. exists (raw_cid b), None. split; [apply law_stringified|]. unfold checkDecodeBlock. cbn. rewrite law_raw. cbn. by rewrite decide_True.
Qed.

Lemma store_get_ok s cid hasher b : blocks_ok s -> store_get (rb_store s) cid hasher = Val (Some b) -> named cid b.
Proof.
  intros Hs. unfold store_get. destruct (cidifyString cid) as [object|?|]; [|done|done]. cbn. destruct (Map_get (rb_store s) cid) as [b'|] eqn:E; [|done].
  destruct (decode _ _ b'); [|done|done]. cbn. intros [= ->]. apply stored_named. by apply (bo_store s Hs).
Qed.

(** The parts of the state that do not matter. *)
Lemma ok_rest s s' : rb_store s' = rb_store s -> rb_reads s' = rb_reads s -> rb_calls s' = rb_calls s ->
  (forall cid i, Map_get (rb_promises s') cid = Some i -> Map_get (rb_promises s) cid = Some i) -> blocks_ok s -> blocks_ok s'.
Proof. intros E1 E2 E3 Hp [H1' H2' H3' H4']. split; rewrite ?E1, ?E2, ?E3; auto. Qed.

Lemma ok_put s bytes : blocks_ok s -> blocks_ok (set_store (store_put (rb_store s) bytes) s).
Proof.
  intros [H1' H2' H3' H4']. split; cbn; try done. intros k b. unfold store_put. rewrite Map_get_set. case_decide as Hk; [intros [= <-]; congruence|apply H1'].
Qed.

Lemma stage_later reads reads' cid st : (forall i rd, reads !! i = Some rd -> exists rd', reads' !! i = Some rd' /\ rd_cid rd' = rd_cid rd) ->
  stage_ok reads cid st -> stage_ok reads' cid st.
Proof. intros Hr. destruct st as [i|i o|[[b|]|e|]]; cbn; try done; intros (rd & Hi & <-); by apply Hr. Qed.

Lemma ok_reads s reads' : blocks_ok s -> (forall i rd, rb_reads s !! i = Some rd -> exists rd', reads' !! i = Some rd' /\ rd_cid rd' = rd_cid rd) ->
  (forall i rd, reads' !! i = Some rd -> read_ok rd) -> blocks_ok (set_reads reads' s).
Proof.
  intros [H1' H2' H3' H4'] Hl Hok. split; cbn; [done|done| |].
  - intros cid i Hi. destruct (H3' cid i Hi) as (rd & Hrd & <-). by apply Hl.
  - intros c cl Hc. eapply stage_later; [exact Hl|by apply H4' in Hc].
Qed.

(** What happens to a read leaves its id, and resolves it with a block it names. *)
Definition steps_to rd rd' : Prop := rd_cid rd' = rd_cid rd /\ rd_object rd' = rd_object rd /\
  (rd_promise rd' = rd_promise rd \/ forall b, rd_promise rd' = Resolves (Some b) -> named (rd_cid rd) b).

Lemma read_steps rd rd' : read_ok rd -> steps_to rd rd' -> read_ok rd'.
Proof. intros [H1' H2'] (Ec & Eo & Hp). split; [by rewrite Ec, Eo|]. rewrite Ec. destruct Hp as [E|Hp]; [by rewrite E|done]. Qed.

Lemma settle_steps p rd : (forall b, p = Resolves (Some b) -> named (rd_cid rd) b) -> steps_to rd (settle p rd).
Proof. intros Hp. unfold settle, steps_to. destruct (rd_promise rd) eqn:E; [by split_and!; [..|right]|by rewrite E; split_and!; [..|left]|by rewrite E; split_and!; [..|left]]. Qed.

Lemma ok_change_read i f s : blocks_ok s -> (forall rd, rb_reads s !! i = Some rd -> steps_to rd (f rd)) -> blocks_ok (change_read i f s).
Proof.
  intros Hs Hf. apply ok_reads; [done| |].
  - intros k rd Hk. destruct (decide (k = i)) as [->|Hne]; [|exists rd; by rewrite list_lookup_alter_ne].
    rewrite list_lookup_alter_eq, Hk. cbn. eexists. split; [done|]. by apply Hf.
  - intros k rd. destruct (decide (k = i)) as [->|Hne]; [|rewrite list_lookup_alter_ne by done; apply (bo_reads s Hs)].
    rewrite list_lookup_alter_eq. destruct (rb_reads s !! i) as [rd0|] eqn:E; [|done]. intros [= <-]. eapply read_steps; [by apply (bo_reads s Hs i)|by apply Hf].
Qed.

Lemma ok_map_reads f s : blocks_ok s -> (forall rd, read_ok rd -> steps_to rd (f rd)) -> blocks_ok (set_reads (map f (rb_reads s)) s).
Proof.
  intros Hs Hf. pose proof (bo_reads s Hs) as Hok. apply ok_reads; [done| |]; intros i rd.
  - intros Hi. rewrite list_lookup_fmap, Hi. cbn. eexists. split; [done|]. by apply Hf, (Hok i).
  - rewrite list_lookup_fmap. destruct (rb_reads s !! i) as [rd0|] eqn:E; [|done]. intros [= <-]. eapply read_steps; [by apply (Hok i)|]. by apply Hf, (Hok i).
Qed.

Lemma ok_change_call c st s : blocks_ok s -> (forall cl, rb_calls s !! c = Some cl -> stage_ok (rb_reads s) (cl_cid cl) st) -> blocks_ok (change_call c (set_stage st) s).
Proof.
  intros [H1' H2' H3' H4'] Hst. split; cbn; try done. intros k cl. destruct (decide (k = c)) as [->|Hne]; [|rewrite list_lookup_alter_ne by done; apply H4'].
  rewrite list_lookup_alter_eq. destruct (rb_calls s !! c) as [cl0|] eqn:E; [|done]. intros [= <-]. exact (Hst cl0 eq_refl).
Qed.

Lemma ok_finish c replicate r s : blocks_ok s -> (forall cl b, rb_calls s !! c = Some cl -> r = Val (Some b) -> named (cl_cid cl) b) ->
  blocks_ok (finish_call c replicate r s).
Proof.
  intros Hs Hr. assert (Hst : forall s' cl, rb_calls s' = rb_calls s -> rb_calls s' !! c = Some cl -> stage_ok (rb_reads s') (cl_cid cl) (Done r)).
  { intros s' cl E Hc. rewrite E in Hc. destruct r as [[b|]|e|]; try done. by apply Hr. }
  unfold finish_call. destruct r as [[b|]|e|]; try (apply ok_change_call; [done|by intros; eapply Hst]).
  destruct replicate; (apply ok_change_call; [|by intros; eapply Hst]); [by apply ok_put|done].
Qed.

Lemma early_block_ok now cid object hasher s r : early_block now cid object hasher s = Val r -> cidifyString cid = Val object ->
  (forall b, r.1 = Some b -> named cid b) /\ exists x, r.2 = set_cache x s.
Proof.
  unfold early_block. intros E Hc. assert (Hsame : s = set_cache (rb_cache s) s) by by destruct s. destruct (rb_cache s) as [cache|] eqn:Ec.
  - destruct (Cache.get now cache cid) as [[v cache']|?|]; [|done|done]. cbn in E.
    destruct v as [[bytes|]|]; [|injection E as <-; split; [done|by eexists]..].
    destruct (checkDecodeBlock object bytes hasher) as [b|?|] eqn:Ed; [|injection E as <-; split; [done|by eexists]|done].
    injection E as <-. split; [|by eexists]. intros b' [= <-]. exists object, hasher. split; [done|]. by rewrite <- (check_bytes _ _ _ _ Ed) in Ed.
  - injection E as <-. split; [done|]. by eexists.
Qed.

Lemma ok_new_call cid replicate s : blocks_ok s -> blocks_ok (set_calls (rb_calls s ++ [MkCall cid replicate (Done (Val None))]) s).
Proof.
  intros [H1' H2' H3' H4']. split; cbn; try done. intros c cl [Hc|[_ Hc]]%lookup_app_Some; [by eapply H4'|].
  apply list_lookup_singleton_Some in Hc as [_ <-]. done.
Qed.

(** The call that [c] is, in a state that differs in other parts. *)
Definition call_is c cid s : Prop := forall cl, rb_calls s !! c = Some cl -> cl_cid cl = cid.

Lemma ok_readFromPeers now c cid object o s : blocks_ok s -> call_is c cid s -> cidifyString cid = Val object -> blocks_ok (readFromPeers now c cid object o s).
Proof.
  intros Hs Hc Hobj. unfold readFromPeers. destruct (early_block now cid object (ro_hasher o) s) as [[v s']|e|] eqn:E; [| |done].
  - destruct (early_block_ok _ _ _ _ _ _ E Hobj) as (Hv & x & Es). cbn [fst snd] in *. subst s'.
    assert (Hs' : blocks_ok (set_cache x s)) by (eapply ok_rest; [..|exact Hs]; done).
    destruct v as [b|].
    + apply ok_finish; [done|]. intros cl b' Hcl [= <-]. rewrite (Hc cl Hcl). by apply Hv.
    + change (rb_promises (set_cache x s)) with (rb_promises s). destruct (Map_get (rb_promises s) cid) as [i|] eqn:Ep.
      * apply ok_change_call; [done|]. intros cl Hcl. rewrite (Hc cl Hcl). apply (bo_promises s Hs cid i Ep).
      * cbv zeta. change (rb_reads (set_cache x s)) with (rb_reads s). set (i := length (rb_reads s)). change (rb_open (set_cache x s)) with (rb_open s). set (rd := MkRead cid object (ro_hasher o) Waits [] (rb_open s) true).
        assert (Hi : (rb_reads s ++ [rd]) !! i = Some rd) by (unfold i; by rewrite lookup_app_r, Nat.sub_diag by lia).
        assert (Hs1 : blocks_ok (set_reads (rb_reads s ++ [rd]) (set_cache x s))).
        { apply ok_reads; [done| |].
          - intros k rd' Hk. exists rd'. split; [by apply lookup_app_l_Some|done].
          - intros k rd' [Hk|[_ Hk]]%lookup_app_Some; [by eapply (bo_reads s Hs)|]. apply list_lookup_singleton_Some in Hk as [_ <-]. by split. }
        apply ok_change_call; [|intros cl Hcl; cbn in Hcl; rewrite (Hc cl Hcl); by exists rd].
        destruct Hs1 as [H1' H2' H3' H4']. split; [exact H1'|exact H2'| |exact H4'].
        intros cid' k. cbn. rewrite Map_get_set. case_decide as Hk; [|apply H3']. intros [= <-]. exists rd. by subst.
  - by apply ok_change_call.
Qed.

Lemma ok_get now cid o s : blocks_ok s -> blocks_ok (get now cid o s).
Proof.
  intros Hs. unfold get. set (s1 := set_calls _ s). assert (Hs1 : blocks_ok s1) by by apply ok_new_call.
  assert (Hc : call_is (length (rb_calls s)) cid s1) by (intros cl; cbn; rewrite lookup_app_r, Nat.sub_diag by lia; by intros [= <-]).
  destruct (cidifyString cid) as [object|e|] eqn:E; [|by apply ok_change_call|done].
  change (rb_store s1) with (rb_store s). destruct (store_get (rb_store s) cid (go_hasher o)) as [[b|]|e|] eqn:Eg; [| |by apply ok_change_call|done].
  - apply ok_change_call; [done|]. intros cl Hcl. rewrite (Hc cl Hcl). by eapply store_get_ok.
  - destruct (go_remote o); [|done]. by apply ok_readFromPeers.
Qed.

Lemma ok_onMessage now message from s : blocks_ok s -> blocks_ok (onMessage now message from s).
Proof.
  intros Hs. destruct message as [cid|cid bytes]; cbn [onMessage].
  - unfold handleFetchRequest. destruct from as [from|]; [|done]. destruct (store_get _ _ _) as [[b|]| |]; [|done..]. by apply (ok_rest s).
  - destruct (Map_get (rb_resolvers s) cid) as [i|].
    + apply ok_change_read; [done|]. intros rd _. do 2 (split; [done|]); by left.
    + destruct (rb_cache s) as [cache|]; [|done]. destruct (Cache.add now cache cid (Some bytes) 1); try done. by apply (ok_rest s).
Qed.

Lemma ok_onReachable peer s : blocks_ok s -> blocks_ok (onReachable peer s).
Proof.
  intros Hs. unfold onReachable. generalize (rb_listeners s). intros l. revert s Hs. induction l as [|x l IH]; intros s Hs; cbn; [done|]. apply IH.
  destruct x.2.2 as [from|]; [case_bool_decide; [|done]|]; by apply (ok_rest s).
Qed.

Lemma block_step_ok e s s' : blocks_ok s -> block_step e s = Some s' -> blocks_ok s'.
Proof.
  intros Hs. destruct e as [now cid o|bytes|cid|c r|now message from|i k|i|i|c|peer| |]; cbn [block_step].
  - intros [= <-]. by apply ok_get.
  - intros [= <-]. by apply ok_put.
  - intros [= <-]. destruct Hs as [H1' H2' H3' H4']. split; cbn; try done. intros k b. rewrite Map_get_delete. case_decide; [done|apply H1'].
  - destruct (rb_calls s !! c) as [cl|] eqn:Ec; [|done]. cbn. pose proof (bo_calls s Hs c cl Ec) as Hst. destruct (cl_stage cl) as [i|i o|x], r as [|e|]; try done; intros [= <-]; (apply ok_change_call; [done|]).
    + intros cl' E. assert (cl' = cl) as -> by congruence. exact Hst.
    + done.
  - intros [= <-]. by apply ok_onMessage.
  - destruct (rb_reads s !! i) as [rd|] eqn:Ei; [|done]. cbn. destruct (rd_decoding rd !! k) as [bytes|]; [|done]. cbn. intros [= <-].
    set (s1 := change_read i _ s). assert (Hs1 : blocks_ok s1) by (apply ok_change_read; [done|]; intros rd' _; do 2 (split; [done|]); by left).
    assert (Hi1 : exists rd1, rb_reads s1 !! i = Some rd1 /\ rd_cid rd1 = rd_cid rd) by (cbn; rewrite list_lookup_alter_eq, Ei; by eexists).
    clearbody s1. unfold decoded. destruct (checkDecodeBlock (rd_object rd) bytes (rd_hasher rd)) as [b|?|] eqn:Ed; [|done|done].
    apply ok_change_read; [by apply (ok_rest s1)|]. intros rd' E'. cbn in E'. destruct Hi1 as (rd1 & E1 & Ec). assert (rd' = rd1) as -> by congruence.
    apply (settle_steps (Resolves (Some b)) rd1). intros b' [= <-]. rewrite Ec. exists (rd_object rd), (rd_hasher rd). split; [by apply (bo_reads s Hs i)|].
    by rewrite <- (check_bytes _ _ _ _ Ed) in Ed.
  - destruct (rb_reads s !! i) as [rd|]; [|done]. cbn. destruct (rd_promise rd); [|done..]. intros [= <-]. apply ok_change_read; [done|]. intros rd' _. by apply settle_steps.
  - destruct (rb_reads s !! i) as [rd|]; [|done]. cbn. destruct (rd_aborting rd); [|done]. intros [= <-]. apply ok_change_read; [by apply (ok_rest s)|]. intros rd' _.
    by apply (settle_steps (Rejects AbortError) rd').
  - destruct (rb_calls s !! c) as [cl|] eqn:Ec; [|done]. cbn. pose proof (bo_calls s Hs c cl Ec) as Hst. destruct (cl_stage cl) as [i|i o|x]; [done| |done].
    cbn in Hst. destruct Hst as (rd & Hi & Hcid). unfold return_call. rewrite Hi. cbn. destruct (bo_reads s Hs i rd Hi) as [_ Hn]. destruct (rd_promise rd) as [|v|e]; [done| |]; intros [= <-].
    + assert (Hv : forall s1, rb_calls s1 = rb_calls s -> blocks_ok s1 -> blocks_ok (finish_call c (cl_replicate cl) (Val v) s1)).
      { intros s1 E1 Hs1. apply ok_finish; [done|]. intros cl' b E' [= ->]. rewrite E1 in E'. assert (cl' = cl) as -> by congruence. rewrite <- Hcid. by apply Hn. }
      destruct o; apply Hv; try done. eapply ok_rest; [..|exact Hs]; try done. intros cid k. cbn. rewrite Map_get_delete. by case_decide.
    + by apply ok_finish.
  - intros [= <-]. by apply ok_onReachable.
  - intros [= <-]. eapply (ok_rest (set_reads _ s)); [done|done|done|done|]. apply ok_map_reads; [done|]. intros rd _. do 2 (split; [done|]); by left.
  - intros [= <-]. eapply (ok_rest (set_reads _ s)); [done|done|done|done|]. apply ok_map_reads; [done|]. intros rd _.
    destruct (rd_closing rd); [|do 2 (split; [done|]); by left]. by apply (settle_steps (Rejects AbortError) rd).
Qed.

(** A node that has read nothing yet, with blocks under the ids of their bytes. *)
Definition stocked s : Prop := (forall k b, Map_get (rb_store s) k = Some b -> k = stringifyCid (raw_cid b)) /\
  rb_reads s = [] /\ rb_calls s = [] /\ rb_promises s = [].

Lemma run_ok s0 es s : stocked s0 -> block_run s0 es s -> blocks_ok s.
Proof.
  intros (H1' & H2' & H3' & H4') Hr. induction Hr as [s|s es s1 e s2 Hr IH Hstep]; [|by eapply block_step_ok; [apply IH|]].
  split; [done|rewrite H2'; done|rewrite H4'; done|rewrite H3'; done].
Qed.

(** C12. From a node that has read nothing yet and whose store has its blocks under the
    ids of their bytes: whatever peers send, and however calls, responses, timers
    and aborts interleave, a block that a call returns is what its id names, its
    bytes decode to that id; and the blocks of the store stay under the ids of their
    bytes. *)
Theorem blocks_genuine s0 es s : stocked s0 -> block_run s0 es s ->
  (forall c cl b, rb_calls s !! c = Some cl -> cl_stage cl = Done (Val (Some b)) ->
     exists object hasher, cidifyString (cl_cid cl) = Val object /\ decode (codecCodes object) hasher b = Val object) /\
  (forall k b, Map_get (rb_store s) k = Some b -> k = stringifyCid (raw_cid b)).
Proof.
  intros H0' Hr. pose proof (run_ok _ _ _ H0' Hr) as Hs. split; [|apply (bo_store s Hs)]. intros c cl b Hc Hst.
  pose proof (bo_calls s Hs c cl Hc) as Hn. rewrite Hst in Hn. destruct Hn as (object & hasher & Ho & Hd). exists object, (default defaultHasher hasher). split; [done|].
  unfold checkDecodeBlock in Hd. destruct (decode _ _ b) as [cid|?|]; [|done|done]. cbn in Hd. case_decide; [by subst|done].
Qed.

(** A call that waits goes on when its read has settled. *)
Lemma return_settled c cl i owner rd s : rb_calls s !! c = Some cl -> cl_stage cl = Awaits i owner -> rb_reads s !! i = Some rd -> rd_promise rd <> Waits ->
  exists s' cl', block_step (Return c) s = Some s' /\ rb_calls s' !! c = Some cl' /\
    cl_stage cl' = Done (match rd_promise rd with Resolves v => Val v | Rejects e => Exn e | Waits => NoFuel end).
Proof.
  intros Hc Hst Hi Hp. cbn [block_step]. rewrite Hc. cbn. rewrite Hst. unfold return_call. rewrite Hi. cbn.
  destruct (rd_promise rd) as [|v|e]; [done| |]; eexists _, _; (split; [done|]).
  - split; [|by instantiate (1 := set_stage (Done (Val v)) cl)].
    unfold finish_call. destruct v as [b|], owner; cbn; try destruct (cl_replicate cl); cbn; by rewrite list_lookup_alter_eq, Hc.
  - split; [|by instantiate (1 := set_stage (Done (Exn e)) cl)]. cbn. by rewrite list_lookup_alter_eq, Hc.
Qed.

(** C13. One good response serves all: when a response that its id names comes while a
    read that is registered as the resolver of that id waits for it, every call that
    awaits this read, its owner and those that joined, can go on and returns the
    block. *)
Theorem waiting_served s i rd now bytes b from :
  rb_reads s !! i = Some rd -> rd_promise rd = Waits -> Map_get (rb_resolvers s) (rd_cid rd) = Some i ->
  checkDecodeBlock (rd_object rd) bytes (rd_hasher rd) = Val b ->
  exists s1 s2, block_step (Message now (BlockResponse (rd_cid rd) bytes) from) s = Some s1 /\
    block_step (Decoded i (length (rd_decoding rd))) s1 = Some s2 /\ Map_get (rb_resolvers s2) (rd_cid rd) = None /\
    forall c cl owner, rb_calls s !! c = Some cl -> cl_stage cl = Awaits i owner ->
      exists s3 cl', block_step (Return c) s2 = Some s3 /\ rb_calls s3 !! c = Some cl' /\ cl_stage cl' = Done (Val (Some bytes)).
Proof.
  intros Hi Hw Hr Hd. pose proof (check_bytes _ _ _ _ Hd) as ->. set (rd1 := set_decoding (rd_decoding rd ++ [bytes]) rd).
  set (s1 := change_read i (fun r => set_decoding (rd_decoding r ++ [bytes]) r) s). set (k := length (rd_decoding rd)).
  assert (Hi1 : rb_reads s1 !! i = Some rd1) by (cbn; by rewrite list_lookup_alter_eq, Hi).
  set (s2 := decoded i rd1 bytes (change_read i (fun r => set_decoding (delete k (rd_decoding r)) r) s1)).
  assert (E2 : s2 = change_read i (fun r => no_close (settle (Resolves (Some bytes)) r))
                      (set_resolvers (Map_delete (rb_resolvers s) (rd_cid rd)) (change_read i (fun r => set_decoding (delete k (rd_decoding r)) r) s1))).
  { unfold s2, decoded. cbn [rd1 set_decoding rd_object rd_hasher]. by rewrite Hd. }
  exists s1, s2. split_and!.
  - cbn. by rewrite Hr.
  - cbn [block_step]. rewrite Hi1. cbn. unfold k. by rewrite lookup_app_r, Nat.sub_diag by lia.
  - rewrite E2. cbn. by rewrite Map_get_delete, decide_True.
  - intros c cl owner Hc Hst. clearbody s2. subst s2. set (rd2 := no_close (settle (Resolves (Some bytes)) (set_decoding (delete k (rd_decoding rd1)) rd1))).
    destruct (return_settled c cl i owner rd2 (change_read i (fun r => no_close (settle (Resolves (Some bytes)) r))
                (set_resolvers (Map_delete (rb_resolvers s) (rd_cid rd)) (change_read i (fun r => set_decoding (delete k (rd_decoding r)) r) s1)))) as (s3 & cl' & E & Hc' & Hst').
    + exact Hc.
    + exact Hst.
    + cbn. by rewrite !list_lookup_alter_eq, Hi.
    + unfold rd2, settle. cbn. by rewrite Hw.
    + exists s3, cl'. split; [exact E|]. split; [exact Hc'|]. rewrite Hst'. unfold rd2, settle. cbn. by rewrite Hw.
Qed.

(** ** A read that was aborted *)

(** The promise of [cid] is rejected, and no call owns another read of it. *)
Record stuck (cid : string) (i : nat) (e : string) s : Prop := {
  st_promise : Map_get (rb_promises s) cid = Some i;
  st_rejected : exists rd, rb_reads s !! i = Some rd /\ rd_promise rd = Rejects e;
  st_owner c cl j : rb_calls s !! c = Some cl -> cl_cid cl = cid -> cl_stage cl = Publishes j \/ cl_stage cl = Awaits j true -> j = i;
}.

Section Stuck.
Context (cid : string) (i : nat) (e : string).

Lemma stuck_rest s s' : rb_promises s' = rb_promises s -> rb_reads s' = rb_reads s -> rb_calls s' = rb_calls s -> stuck cid i e s -> stuck cid i e s'.
Proof. intros E1 E2 E3 [H1' H2' H3']. split; rewrite ?E1, ?E2, ?E3; auto. Qed.

Lemma stuck_reads reads s : (forall k rd, rb_reads s !! k = Some rd -> exists rd', reads !! k = Some rd' /\ (rd_promise rd = Rejects e -> rd_promise rd' = Rejects e)) ->
  stuck cid i e s -> stuck cid i e (set_reads reads s).
Proof. intros Hr [H1' (rd & Hi & Hp) H3']. split; [done| |done]. destruct (Hr i rd Hi) as (rd' & Hi' & Hp'). exists rd'. auto. Qed.

Lemma stuck_change_read k f s : (forall rd, rd_promise rd = Rejects e -> rd_promise (f rd) = Rejects e) -> stuck cid i e s -> stuck cid i e (change_read k f s).
Proof.
  intros Hf. apply stuck_reads. intros j rd Hj. destruct (decide (j = k)) as [->|Hne]; [|exists rd; by rewrite list_lookup_alter_ne].
  exists (f rd). rewrite list_lookup_alter_eq, Hj. split; [done|apply Hf].
Qed.

Lemma settle_rejected p rd : rd_promise rd = Rejects e -> rd_promise (settle p rd) = Rejects e.
Proof. intros E. unfold settle. by rewrite E. Qed.

Lemma stuck_change_call c st s : (forall cl j, rb_calls s !! c = Some cl -> cl_cid cl = cid -> st = Publishes j \/ st = Awaits j true -> j = i) ->
  stuck cid i e s -> stuck cid i e (change_call c (set_stage st) s).
Proof.
  intros Hst [H1' H2' H3']. split; [done|done|]. intros k cl j. cbn. destruct (decide (k = c)) as [->|Hne]; [|rewrite list_lookup_alter_ne by done; apply H3'].
  rewrite list_lookup_alter_eq. destruct (rb_calls s !! c) as [cl0|] eqn:E; [|done]. intros [= <-]. by apply (Hst cl0).
Qed.

Lemma stuck_done c r s : stuck cid i e s -> stuck cid i e (change_call c (set_stage (Done r)) s).
Proof. apply stuck_change_call. by intros cl j _ _ [|]. Qed.

Lemma stuck_finish c replicate r s : stuck cid i e s -> stuck cid i e (finish_call c replicate r s).
Proof. intros Hs. unfold finish_call. apply stuck_done. destruct r as [[b|]| |]; try done. destruct replicate; [|done]. by apply (stuck_rest s). Qed.

Lemma early_cache now cid' object hasher s r : early_block now cid' object hasher s = Val r -> exists x, r.2 = set_cache x s.
Proof.
  unfold early_block. assert (Hsame : s = set_cache (rb_cache s) s) by by destruct s. destruct (rb_cache s) as [cache|] eqn:Ec; [|intros [= <-]; by eexists].
  destruct (Cache.get now cache cid') as [[v cache']|?|]; [|done|done]. cbn.
  destruct v as [[bytes|]|]; [|intros [= <-]; by eexists..]. destruct (checkDecodeBlock object bytes hasher); [..|done]; intros [= <-]; by eexists.
Qed.

Lemma stuck_readFromPeers now c cid' object o s : call_is c cid' s -> stuck cid i e s -> stuck cid i e (readFromPeers now c cid' object o s).
Proof.
  intros Hc Hs. unfold readFromPeers. destruct (early_block now cid' object (ro_hasher o) s) as [[v s']|?|] eqn:E; [| |done]; [|by apply stuck_done].
  destruct (early_cache _ _ _ _ _ _ E) as (x & Es). cbn in Es. subst s'. assert (Hs' : stuck cid i e (set_cache x s)) by by apply (stuck_rest s).
  destruct v as [b|]; [by apply stuck_finish|]. change (rb_promises (set_cache x s)) with (rb_promises s). destruct (Map_get (rb_promises s) cid') as [k|] eqn:Ep.
  - apply stuck_change_call; [|done]. by intros cl j _ _ [|].
  - assert (Hne : cid' <> cid) by (intros ->; rewrite (st_promise _ _ _ _ Hs) in Ep; done). apply stuck_change_call.
    { intros cl j Hcl Hcid _. destruct Hne. by rewrite <- (Hc cl Hcl). }
    destruct Hs as [H1' (rd & Hi & Hp) H3']. split; [|exists rd; split; [by apply lookup_app_l_Some|done]|exact H3'].
    cbn. rewrite Map_get_set. by case_decide.
Qed.

Lemma stuck_get now cid' o s : stuck cid i e s -> stuck cid i e (get now cid' o s).
Proof.
  intros Hs. unfold get. set (s1 := set_calls _ s). assert (Hc : call_is (length (rb_calls s)) cid' s1) by (intros cl; cbn; rewrite lookup_app_r, Nat.sub_diag by lia; by intros [= <-]).
  assert (Hs1 : stuck cid i e s1).
  { destruct Hs as [H1' H2' H3']. split; [done|done|]. intros c cl j. cbn. intros [Hk|[_ Hk]]%lookup_app_Some; [by apply (H3' c)|].
    apply list_lookup_singleton_Some in Hk as [_ <-]. by intros _ [|]. }
  destruct (cidifyString cid') as [object|?|]; [|by apply stuck_done|done]. destruct (store_get _ cid' (go_hasher o)) as [[b|]|?|]; [by apply stuck_done| |by apply stuck_done|done].
  destruct (go_remote o); [|done]. by apply stuck_readFromPeers.
Qed.

Lemma stuck_publishes l peer s : stuck cid i e s -> stuck cid i e (fold_left (fun s (l : nat * (string * option (list string))) =>
    match l.2.2 with
    | Some from => if bool_decide (peer ∈ from) then publish (BlockRequest l.2.1) (Some [peer]) (Some AnyWhere) s else s
    | None => publish (BlockRequest l.2.1) (Some [peer]) (Some AnyWhere) s
    end) l s).
Proof.
  revert s. induction l as [|x l IH]; intros s Hs; cbn; [done|]. apply IH.
  destruct x.2.2 as [from|]; [case_bool_decide; [|done]|]; by apply (stuck_rest s).
Qed.

Lemma stuck_step ev s s' : ev <> Stop -> stuck cid i e s -> block_step ev s = Some s' -> stuck cid i e s'.
Proof.
  intros Hev Hs. destruct ev as [now cid' o|bytes|cid'|c r|now message from|k j|k|k|c|peer| |]; cbn [block_step]; [..|done].
  - intros [= <-]. by apply stuck_get.
  - intros [= <-]. by apply (stuck_rest s).
  - intros [= <-]. by apply (stuck_rest s).
  - destruct (rb_calls s !! c) as [cl|] eqn:Ec; [|done]. cbn. destruct (cl_stage cl) as [k|k o|x] eqn:Est, r as [|err|]; try done; intros [= <-]; [|by apply stuck_done].
    apply stuck_change_call; [|done]. intros cl' j E Hcid [|[= <-]]; [done|]. assert (cl' = cl) as -> by congruence. apply (st_owner _ _ _ _ Hs c cl); auto.
  - intros [= <-]. destruct message as [cid'|cid' bytes]; cbn [onMessage].
    + unfold handleFetchRequest. destruct from as [from|]; [|done]. destruct (store_get _ _ _) as [[b|]| |]; [|done..]. by apply (stuck_rest s).
    + destruct (Map_get (rb_resolvers s) cid') as [k|]; [by apply stuck_change_read|]. destruct (rb_cache s) as [cache|]; [|done].
      destruct (Cache.add now cache cid' (Some bytes) 1); try done. by apply (stuck_rest s).
  - destruct (rb_reads s !! k) as [rd|] eqn:Ei; [|done]. cbn. destruct (rd_decoding rd !! j) as [bytes|]; [|done]. cbn. intros [= <-].
    unfold decoded. set (s1 := change_read k _ s). assert (Hs1 : stuck cid i e s1) by by apply stuck_change_read.
    destruct (checkDecodeBlock _ bytes _); [|done|done]. apply stuck_change_read; [|by apply (stuck_rest s1)]. intros rd'. apply settle_rejected.
  - destruct (rb_reads s !! k) as [rd|]; [|done]. cbn. destruct (rd_promise rd); [|done..]. intros [= <-]. apply stuck_change_read; [|done]. apply settle_rejected.
  - destruct (rb_reads s !! k) as [rd|]; [|done]. cbn. destruct (rd_aborting rd); [|done]. intros [= <-]. apply stuck_change_read; [|by apply (stuck_rest s)]. intros rd'. apply settle_rejected.
  - destruct (rb_calls s !! c) as [cl|] eqn:Ec; [|done]. cbn. destruct (cl_stage cl) as [k|k o|x] eqn:Est; [done| |done]. unfold return_call.
    destruct (rb_reads s !! k) as [rd|] eqn:Ek; [|done]. cbn. destruct (rd_promise rd) as [|v|err] eqn:Ep; [done| |]; intros [= <-]; [|by apply stuck_finish].
    apply stuck_finish. destruct o; [|done]. destruct (decide (cl_cid cl = cid)) as [Hcid|Hne].
    + assert (k = i) as -> by (apply (st_owner _ _ _ _ Hs c cl); auto). destruct (st_rejected _ _ _ _ Hs) as (rd' & Hi & Hp). congruence.
    + destruct Hs as [H1' H2' H3']. split; [|done|done]. cbn. rewrite Map_get_delete. by case_decide.
  - intros [= <-]. by apply stuck_publishes.
  - intros [= <-]. apply (stuck_rest (set_reads (map no_close (rb_reads s)) s)); [done|done|done|]. apply stuck_reads; [|done].
    intros k rd Hk. exists (no_close rd). by rewrite list_lookup_fmap, Hk.
Qed.

Lemma stuck_run es s s' : stuck cid i e s -> block_run s es s' -> Stop ∉ es -> stuck cid i e s'.
Proof.
  intros Hs Hr Hno. induction Hr as [s|s es s1 ev s2 Hr IH Hstep]; [done|]. rewrite not_elem_of_app, list_elem_of_singleton in Hno. destruct Hno as [Hno Hne].
  eapply (stuck_step ev s1); [congruence|by apply IH|done].
Qed.

(** A read that is rejected is not given up: until the node stops, every later call
    that finds the block neither in the store nor early joins it and fails. *)
Theorem aborted_read_sticks es s s' object now o r : stuck cid i e s -> block_run s es s' -> Stop ∉ es ->
  cidifyString cid = Val object -> go_remote o = Some r -> Map_get (rb_store s') cid = None -> rb_cache s' = None ->
  exists s2 s3 cl, block_step (Get now cid o) s' = Some s2 /\ block_step (Return (length (rb_calls s'))) s2 = Some s3 /\
    rb_calls s3 !! length (rb_calls s') = Some cl /\ cl_stage cl = Done (Exn e).
Proof.
  intros Hs Hr Hno Ho Hgo Hstore Hcache. pose proof (stuck_run es s s' Hs Hr Hno) as Hs'.
  clear Hs Hr Hno. destruct Hs' as [Hp (rd & Hi & He) _]. set (c := length (rb_calls s')). set (cl := MkCall cid (ro_replicate r) (Awaits i false)).
  set (s2 := get now cid o s'). assert (Hc : rb_calls s2 !! c = Some cl /\ rb_reads s2 = rb_reads s').
  { unfold s2, get. cbn [rb_store set_calls]. rewrite Ho. unfold store_get. rewrite Ho. cbn. rewrite Hstore, Hgo. unfold readFromPeers, early_block. cbn -[Map_get]. rewrite Hcache. cbn -[Map_get]. rewrite Hp. cbn. split; [|done].
    unfold c. by rewrite list_lookup_alter_eq, lookup_app_r, Nat.sub_diag by lia. }
  destruct Hc as [Hc Er]. destruct (return_settled c cl i false rd s2) as (s3 & cl' & E & Hc' & Hst); [done|done|by rewrite Er|congruence|].
  exists s2, s3, cl'. split; [done|]. split; [done|]. split; [done|]. by rewrite Hst, He.
Qed.

End Stuck.

End RemoteBlocks.
