(* ===== verification/DirectSub.v ===== *)
(** * Publish and subscribe
    (packages/transport/pubsub/src/index.ts, pubsub-interface/src/messages.ts and index.ts)

    [DirectSub] extends the node of StreamReceive with the topics it listens to,
    who subscribes to them, and its own subscriptions.  A tables entry is written
    when a signed Subscribe or Unsubscribe arrives; the last one of every peer
    and topic is remembered, so that an older one that arrives late is refused. *)

From Stdlib Require Import ZArith Lia.
From stdpp Require Import base list strings.
From S2P Require Import Prelude JsMap Cache JsVal Integers Ranges PushableLanes Routes StreamMessages PeerStreams Effects DirectStream StreamReceive.

Local Open Scope Z_scope.
Local Open Scope effects_scope.

(** ** Messages *)

Inductive PubSubMessage :=
| PubSubData (topics : list string) (strict : bool) (data : list Z)
| Subscribe (topics : list string) (requestSubscribers : bool)
| Unsubscribe (topics : list string)
| GetSubscribers (topics : list string).

Definition pubsub_variant (p : PubSubMessage) : Z :=
  match p with PubSubData _ _ _ => 0 | Subscribe _ _ => 1 | Unsubscribe _ => 2 | GetSubscribers _ => 3 end.

(** borsh, for these messages. *)
Class PubSubWire := {
  pubsub_bytes : PubSubMessage -> list Z;
  pubsub_deserialize : Z -> list Z -> outcome PubSubMessage;
}.

Class PubSubWireLaws `{PubSubWire} : Prop := {
  pubsub_first p : head (pubsub_bytes p) = Some (pubsub_variant p);
  pubsub_deserialize_bytes p : pubsub_deserialize (pubsub_variant p) (pubsub_bytes p) = Val p;
}.

Definition PubSubMessage_from `{PubSubWire} (b : list Z) : outcome PubSubMessage :=
  match b with
  | [] => Exn "Unsupported"
  | first :: _ =>
      if (first =? 0) || (first =? 1) || (first =? 2) || (first =? 3) then pubsub_deserialize first b else Exn "Unsupported"
  end.

Section Sub.
Context `{Hashing} `{!EqDecision PublicSignKey} `{!JsEnv} `{!Wire, !Signing} `{!PubSubWire}.
Context {Qs Qm : Type} `{Queue Qs string} `{Queue Qm (Next (list Z) string)}.

(** ** State *)

Record SubscriptionData := MkSubscription { sd_publicKey : PublicSignKey; sd_session : Z; sd_timestamp : Z }.

Inductive SubEvent :=
| Published (data : PubSubMessage) (m : Message)
| DataReceived (data : PubSubMessage) (m : Message)
| SubscriptionEvent (from : PublicSignKey) (subscriptions : list string)
| UnsubcriptionEvent (from : PublicSignKey) (unsubscriptions : list string).

Record Sub := MkSub {
  topics : list (string * list (string * SubscriptionData));
  peerToTopic : list (string * list string);
  topicsToPeers : list (string * list string);
  subscriptions : list (string * Z);
  lastSubscriptionMessages : list (string * list (string * Message));
  sub_events : list SubEvent;
}.

Definition new_Sub : Sub := MkSub [] [] [] [] [] [].

Definition set_topics (v : list (string * list (string * SubscriptionData))) (b : Sub) : Sub :=
  MkSub v (peerToTopic b) (topicsToPeers b) (subscriptions b) (lastSubscriptionMessages b) (sub_events b).
Definition set_peerToTopic (v : list (string * list string)) (b : Sub) : Sub :=
  MkSub (topics b) v (topicsToPeers b) (subscriptions b) (lastSubscriptionMessages b) (sub_events b).
Definition set_topicsToPeers (v : list (string * list string)) (b : Sub) : Sub :=
  MkSub (topics b) (peerToTopic b) v (subscriptions b) (lastSubscriptionMessages b) (sub_events b).
Definition set_subscriptions (v : list (string * Z)) (b : Sub) : Sub :=
  MkSub (topics b) (peerToTopic b) (topicsToPeers b) v (lastSubscriptionMessages b) (sub_events b).
Definition set_last (v : list (string * list (string * Message))) (b : Sub) : Sub :=
  MkSub (topics b) (peerToTopic b) (topicsToPeers b) (subscriptions b) v (sub_events b).
Definition sub_dispatch (e : SubEvent) (b : Sub) : Sub :=
  MkSub (topics b) (peerToTopic b) (topicsToPeers b) (subscriptions b) (lastSubscriptionMessages b) (sub_events b ++ [e]).

(** ** The tables *)

Definition initializeTopic (topic : string) (b : Sub) : Sub :=
  let b := if Map_has (topics b) topic then b else set_topics (Map_set (topics b) topic []) b in
  if Map_has (topicsToPeers b) topic then b else set_topicsToPeers (Map_set (topicsToPeers b) topic []) b.

Definition initializePeer (publicKey : PublicSignKey) (b : Sub) : Sub :=
  if Map_has (peerToTopic b) (hashcode publicKey) then b
  else set_peerToTopic (Map_set (peerToTopic b) (hashcode publicKey) []) b.

Definition listenForSubscribers (topic : string) (b : Sub) : Sub := initializeTopic topic b.

(** [if (!this.peerToTopic.get(hash)?.size) this.peerToTopic.delete(hash)]. *)
Definition drop_if_empty (publicKeyHash : string) (b : Sub) : Sub :=
  match default [] (Map_get (peerToTopic b) publicKeyHash) with
  | [] => set_peerToTopic (Map_delete (peerToTopic b) publicKeyHash) b
  | _ => b
  end.

(** The subscription that is deleted, if any, and the tables without it. *)
Definition deletePeerFromTopic (topic publicKeyHash : string) (b : Sub) : option SubscriptionData * Sub :=
  let change := Map_get (topics b) topic ≫= fun peers => Map_get peers publicKeyHash in
  let b := set_topics (Map_update (fun peers => Map_delete peers publicKeyHash) (topics b) topic) b in
  let b := set_peerToTopic (Map_update (fun ts => Set_delete ts topic) (peerToTopic b) publicKeyHash) b in
  let b := drop_if_empty publicKeyHash b in
  (change, set_topicsToPeers (Map_update (fun ps => Set_delete ps publicKeyHash) (topicsToPeers b) topic) b).

(** The topics of a peer, deleted one by one: those it was subscribed to. *)
Fixpoint delete_topics (publicKeyHash : string) (ts : list string) (b : Sub) : list string * Sub :=
  match ts with
  | [] => ([], b)
  | topic :: ts =>
      let '(change, b) := deletePeerFromTopic topic publicKeyHash b in
      let '(changed, b) := delete_topics publicKeyHash ts b in
      (match change with Some _ => topic :: changed | None => changed end, b)
  end.

Definition removeSubscriptions (publicKey : PublicSignKey) (b : Sub) : Sub :=
  let '(changed, b) := delete_topics (hashcode publicKey) (default [] (Map_get (peerToTopic b) (hashcode publicKey))) b in
  let b := set_last (Map_delete (lastSubscriptionMessages b) (hashcode publicKey)) b in
  match changed with [] => b | _ => sub_dispatch (UnsubcriptionEvent publicKey changed) b end.

Definition getPeersOnTopics (b : Sub) (ts : list string) : list string :=
  fold_left (fun newPeers topic => fold_left Set_add (default [] (Map_get (topicsToPeers b) topic)) newPeers) ts [].

Definition getSubscriptionOverlap (b : Sub) (ts : option (list string)) : list string :=
  match ts with
  | Some ts => List.filter (fun topic => Map_has (subscriptions b) topic) ts
  | None => Map_keys (subscriptions b)
  end.

Definition getSubscribers (b : Sub) (my : PublicSignKey) (topic : string) : option (list PublicSignKey) :=
  match Map_get (topics b) topic with
  | None => None
  | Some remote =>
      Some (map sd_publicKey (Map_values remote) ++ (if Map_has (subscriptions b) topic then [my] else []))
  end.

(** [lastTimestamp > message.header.timestamp] for one topic. *)
Definition newer_known (b : Sub) (subscriber : string) (m : Message) (topic : string) : bool :=
  match Map_get (lastSubscriptionMessages b) subscriber ≫= fun l => Map_get l topic with
  | Some last => h_timestamp (m_header m) <? h_timestamp (m_header last)
  | None => false
  end.

Definition remember (subscriber : string) (m : Message) (b : Sub) (topic : string) : Sub :=
  set_last (Map_set (lastSubscriptionMessages b) subscriber
    (Map_set (default [] (Map_get (lastSubscriptionMessages b) subscriber)) topic m)) b.

Definition subscriptionMessageIsLatest (subscriber : string) (m : Message) (ts : list string) (b : Sub) : bool * Sub :=
  if existsb (newer_known b subscriber m) ts then (false, b)
  else (true, fold_left (remember subscriber m) ts b).

(** One topic of a Subscribe message: whether it changed, and the tables. *)
Definition subscribe_topic (sender : PublicSignKey) (m : Message) (topic : string) (b : Sub) : bool * Sub :=
  match Map_get (topics b) topic with
  | None => (false, b)
  | Some peers =>
      let b := initializePeer sender b in
      let existing := Map_get peers (hashcode sender) in
      let newer := match existing with None => true | Some e => sd_session e <? h_session (m_header m) end in
      let b := if newer
               then set_topics (Map_set (topics b) topic (Map_set peers (hashcode sender)
                      (MkSubscription sender (h_session (m_header m)) (h_timestamp (m_header m))))) b
               else b in
      (newer,
       match existing with
       | Some _ => b
       | None => set_peerToTopic (Map_update (fun ts => Set_add ts topic) (peerToTopic b) (hashcode sender))
                   (set_topicsToPeers (Map_update (fun ps => Set_add ps (hashcode sender)) (topicsToPeers b) topic) b)
       end)
  end.

Fixpoint subscribe_topics (sender : PublicSignKey) (m : Message) (ts : list string) (b : Sub) : list string * Sub :=
  match ts with
  | [] => ([], b)
  | topic :: ts =>
      let '(c, b) := subscribe_topic sender m topic b in
      let '(changed, b) := subscribe_topics sender m ts b in
      (if c : bool then topic :: changed else changed, b)
  end.

(** What a Subscribe message does to the tables. *)
Definition apply_subscribe (sender : PublicSignKey) (m : Message) (ts : list string) (b : Sub) : Sub :=
  let '(changed, b) := subscribe_topics sender m ts b in
  match changed with [] => b | _ => sub_dispatch (SubscriptionEvent sender changed) b end.

(** What an Unsubscribe message does to them. *)
Definition apply_unsubscribe (sender : PublicSignKey) (seenBefore : Z) (ts : list string) (b : Sub) : Sub :=
  let '(changed, b) := delete_topics (hashcode sender) ts b in
  match changed with [] => b | _ => if seenBefore =? 0 then sub_dispatch (UnsubcriptionEvent sender changed) b else b end.

(** ** The node *)

Abbreviation Node := (Stream (Qs := Qs) (Qm := Qm) (X := Sub)).
Abbreviation M := (Method Node).

Definition on_sub (f : Sub -> Sub) : M unit := modify (fun s => set_st_ext (f (st_ext s)) s).
Definition with_sub {A} (f : Sub -> A * Sub) : M A := fun s => let '(a, b) := f (st_ext s) in (Val a, set_st_ext b s).

(** A signed message of this protocol. *)
Definition sub_message (p : PubSubMessage) (mode : DeliveryMode) : M Message :=
  h ⇠ new_header mode (Some 1) None None;;
  sign_message (new_DataMessage h (Some (pubsub_bytes p))).

Definition publish_sub (p : PubSubMessage) (mode : DeliveryMode) (to : option (list string)) : M (option nat) :=
  my ⇠ gets me;;
  m ⇠ sub_message p mode;;
  publishMessage my m to false.

Definition check_started : M unit := on ⇠ gets started;; if on : bool then ret tt else raise NotStartedError.

Definition subscribe (topic : string) : M unit :=
  check_started;;;
  prev ⇠ gets (fun s => Map_get (subscriptions (st_ext s)) topic);;
  match prev with
  | Some counter => on_sub (fun b => set_subscriptions (Map_set (subscriptions b) topic (counter + 1)) b)
  | None =>
      on_sub (fun b => listenForSubscribers topic (set_subscriptions (Map_set (subscriptions b) topic 1) b));;;
      publish_sub (Subscribe [topic] true) (SeekDelivery None 2) None;;; ret tt
  end.

Definition unsubscribe (topic : string) (force : bool) : M bool :=
  check_started;;;
  prev ⇠ gets (fun s => Map_get (subscriptions (st_ext s)) topic);;
  on_sub (fun b => set_last (fold_left Map_delete (default [] (Map_get (topicsToPeers b) topic)) (lastSubscriptionMessages b)) b);;;
  match prev with
  | None => ret false
  | Some counter =>
      let counter := if 0 <? counter then counter - 1 else counter in
      on_sub (fun b => set_subscriptions (Map_set (subscriptions b) topic counter) b);;;
      if (counter =? 0) || force then
        publish_sub (Unsubscribe [topic]) AnyWhere None;;;
        on_sub (fun b => set_subscriptions (Map_delete (subscriptions b) topic) b);;;
        on_sub (fun b => set_topics (Map_delete (topics b) topic) b);;;
        on_sub (fun b => set_topicsToPeers (Map_delete (topicsToPeers b) topic) b);;;
        ret true
      else ret false
  end.

Definition requestSubscribers (topic : option (string + list string)) (to : option PublicSignKey) : M unit :=
  check_started;;;
  match topic with
  | None => raise "ERR_NOT_VALID_TOPIC"
  | Some topic =>
      let ts := match topic with inl t => if bool_decide (t = ""%string) then [] else [t] | inr ts => ts end in
      match ts with
      | [] => ret tt
      | _ =>
          forM (fun t => on_sub (listenForSubscribers t)) ts;;;
          publish_sub (GetSubscribers ts) (SeekDelivery ((fun k => [hashcode k]) <$> to) 2) None;;; ret tt
      end
  end.

(** ** Overridden methods *)

Definition sub_onPeerSession (key : PublicSignKey) (session : Z) : M unit := on_sub (removeSubscriptions key).

(** The new peer is told all subscriptions; what becomes of the message is not
    waited for. *)
Definition sub_onPeerReachable (key : PublicSignKey) : M unit :=
  base_onPeerReachable key;;;
  neighbour ⇠ gets (fun s => Map_has (peers s) (hashcode key));;
  mine ⇠ gets (fun s => getSubscriptionOverlap (st_ext s) None);;
  match mine with
  | [] => ret tt
  | _ => attempt (publish_sub (Subscribe mine true) (SeekDelivery (if neighbour : bool then None else Some [hashcode key]) 2) None);;; ret tt
  end.

Definition sub_onPeerUnreachable (publicKeyHash : string) : M unit :=
  base_onPeerUnreachable publicKeyHash;;;
  key ⇠ gets (fun s => Map_get (peerKeyHashToPublicKey s) publicKeyHash);;
  match key with Some key => on_sub (removeSubscriptions key) | None => raise "TypeError" end.

#[export] Instance sub_hooks : PeerHooks (Qs := Qs) (Qm := Qm) (X := Sub) := {
  onPeerReachable := sub_onPeerReachable;
  onPeerUnreachable := sub_onPeerUnreachable;
  onPeerSession := sub_onPeerSession;
}.

(** [publish]: the id of the message and the promise of its delivery. *)
Definition sub_publish (data : option (list Z)) (ts : list string) (o : PublishOptions) : M (list Z * option nat) :=
  check_started;;;
  let explicit := match po_mode o with Some mode => deliveryModeHasReceiver mode | None => false end in
  tos ⇠ gets (fun s => if explicit then default [] (po_mode o ≫= mode_to) else getPeersOnTopics (st_ext s) ts);;
  let dataMessage := (fun d => PubSubData ts explicit d) <$> data in
  m ⇠ createMessage (pubsub_bytes <$> dataMessage) (MkPublishOptions (po_mode o) (Some (map inl tos)) (po_priority o) (po_id o));;
  match dataMessage with Some p => on_sub (sub_dispatch (Published p m)) | None => ret tt end;;;
  my ⇠ gets me;;
  delivery ⇠ publishMessage my m None false;;
  ret (h_id (m_header m), delivery).

(** What the caller of [publish] gets once the promise has settled. *)
Definition publish_result (mode : option DeliveryMode) (id : list Z) (d : Deferred) : option (outcome (list Z)) :=
  match d with
  | Pending => None
  | Resolved => Some (Val id)
  | RejectedWith e => Some (if bool_decide (e = DeliveryError) && is_Silent mode then Val id else Exn e)
  end.

(** The peers on the topics join the receivers of the message. *)
Definition addPeersOnTopic (b : Sub) (my : string) (mode : DeliveryMode) (ts : list string) : list string :=
  Set_delete (fold_left Set_add (fold_left Set_add (default [] (mode_to mode)) []) (getPeersOnTopics b ts)) my.

(** [!!topics.find(f)]: the first topic found counts, unless it is empty. *)
Definition finds (f : string -> bool) (ts : list string) : bool :=
  match List.find f ts with Some topic => negb (bool_decide (topic = ""%string)) | None => false end.

Definition data_for_me (b : Sub) (my : string) (mode : DeliveryMode) (ts : list string) (strict : bool) : bool :=
  let meInTOs := match mode_to mode with Some to => bool_decide (my ∈ to) | None => false end in
  let subscribed := finds (fun topic => Map_has (subscriptions b) topic) ts in
  if strict then subscribed && meInTOs
  else subscribed || ((length ts =? 0)%nat && meInTOs).

Definition on_data (from : PublicSignKey) (stream : string) (m : Message) (seenBefore : Z) (p : PubSubMessage) (ts : list string) (strict : bool) : M (option bool) :=
  match msg_mode m with
  | Some AnyWhere => raise "Unexpected mode for PubSubData messages"
  | None => raise "TypeError"
  | Some mode =>
      my ⇠ gets publicKeyHash;;
      forMe ⇠ gets (fun s => data_for_me (st_ext s) my mode ts strict);;
      verified ⇠ (if forMe : bool then verifyAndProcess m else ret true);;
      if negb verified then ret (Some false)
      else
        maybeAcknowledgeMessage stream m seenBefore;;;
        whenM (forMe && (seenBefore =? 0)) (on_sub (sub_dispatch (DataReceived p m)));;;
        tos ⇠ gets (fun s => if strict then default [] (mode_to mode) else addPeersOnTopic (st_ext s) my mode ts);;
        let m := if strict then m else with_mode m (set_mode_to mode tos) in
        unknown ⇠ gets (fun s => negb (finds (fun topic => Map_has (topics (st_ext s)) topic) ts));;
        whenM ((0 <? length tos)%nat || unknown || is_Seek (Some mode)) (attempt (relayMessage from m None);;; ret tt);;;
        ret (Some true)
  end.

Definition on_subscribe (from sender : PublicSignKey) (m : Message) (seenBefore : Z) (ts : list string) (requestSubscribers : bool) : M unit :=
  latest ⇠ (if seenBefore =? 0 then with_sub (subscriptionMessageIsLatest (hashcode sender) m ts) else ret false);;
  whenM (latest && (0 <? length ts)%nat)
    (on_sub (apply_subscribe sender m ts);;;
     mine ⇠ gets (fun s => getSubscriptionOverlap (st_ext s) (Some ts));;
     whenM (requestSubscribers && (0 <? length mine)%nat)
       (attempt (publish_sub (Subscribe mine false) (SeekDelivery (Some [hashcode sender]) 2) None);;; ret tt));;;
  attempt (relayMessage from m None);;; ret tt.

Definition on_unsubscribe (from sender : PublicSignKey) (m : Message) (seenBefore : Z) (ts : list string) : M unit :=
  latest ⇠ with_sub (subscriptionMessageIsLatest (hashcode sender) m ts);;
  whenM latest (on_sub (apply_unsubscribe sender seenBefore ts));;;
  my ⇠ gets publicKeyHash;;
  m ⇠ gets (fun s =>
    match msg_mode m with
    | Some ((SeekDelivery _ _ | SilentDelivery _ _ | AcknowledgeDelivery _ _) as mode) =>
        if latest : bool then with_mode m (set_mode_to mode (addPeersOnTopic (st_ext s) my mode ts)) else m
    | _ => m
    end);;
  attempt (relayMessage from m None);;; ret tt.

Definition on_getSubscribers (from sender : PublicSignKey) (stream : string) (m : Message) (ts : list string) : M unit :=
  mine ⇠ gets (fun s => getSubscriptionOverlap (st_ext s) (Some ts));;
  whenM (0 <? length mine)%nat
    (attempt (publish_sub (Subscribe mine false) (SilentDelivery [hashcode sender] 2) (Some [stream]));;; ret tt);;;
  attempt (relayMessage from m None);;; ret tt.

Definition sub_onDataMessage (from : PublicSignKey) (stream : string) (m : Message) (seenBefore : Z) : M (option bool) :=
  match m_content m with
  | DataContent (Some (x :: data)) =>
      ignore ⇠ gets (fun s => shouldIgnore s m seenBefore);;
      if ignore : bool then ret (Some false)
      else
        p ⇠ lift (PubSubMessage_from (x :: data));;
        match p with
        | PubSubData ts strict _ => on_data from stream m seenBefore p ts strict
        | _ =>
            verified ⇠ verifyAndProcess m;;
            if negb verified then ret (Some false)
            else match publicKeys m with
                 | [] => ret (Some false)
                 | sender :: _ =>
                     maybeAcknowledgeMessage stream m seenBefore;;;
                     match p with
                     | Subscribe ts request => on_subscribe from sender m seenBefore ts request
                     | Unsubscribe ts => on_unsubscribe from sender m seenBefore ts
                     | GetSubscribers ts => on_getSubscribers from sender stream m ts
                     | PubSubData _ _ _ => ret tt
                     end;;;
                     ret (Some true)
                 end
        end
  | _ => base_onDataMessage from stream m seenBefore
  end.

#[export] Instance sub_messages : MessageHooks (Qs := Qs) (Qm := Qm) (X := Sub) := {
  onDataMessage := sub_onDataMessage;
  publish data o := sub_publish data [] o;;; ret tt;
}.

Definition stop : M unit :=
  on_sub (set_subscriptions []);;;
  on_sub (set_topics []);;;
  on_sub (set_peerToTopic []);;;
  on_sub (set_topicsToPeers []);;;
  base_stop.

End Sub.
