(* ===== verification/DirectSubFacts.v ===== *)
(** * Publish and subscribe: the tables agree

    [tables_ok]: the peers on a topic are the same in both tables, each of them
    lists the topic, and every own subscription has a table.  Every method of
    the node keeps it, because DirectSub meets the classes of StreamInvariant:
    [tables_agree] and [unreachable_known] hold in every state that messages,
    timers, connections and calls can produce, in any order. *)

From Stdlib Require Import ZArith Lia List.
From stdpp Require Import base list strings relations sorting.
From S2P Require Import Prelude JsMap Cache JsVal Integers Ranges PushableLanes Routes RoutesFacts StreamMessages PeerStreams Effects DirectStream DeliveryFacts StreamReceive StreamInvariant DirectSub.

Local Open Scope Z_scope.

Section Tables.
Context `{Hashing}.
Implicit Types b : Sub.

Record tables_ok b : Prop := {
  to_wf : Map_wf (topics b) /\ Map_wf (peerToTopic b) /\ Map_wf (topicsToPeers b) /\ Map_wf (subscriptions b);
  to_peers t : Map_get (topicsToPeers b) t = Map_keys <$> Map_get (topics b) t;
  to_inner t ps : Map_get (topics b) t = Some ps ->
    Map_wf ps /\ forall h sd, Map_get ps h = Some sd -> hashcode (sd_publicKey sd) = h /\ t ∈ default [] (Map_get (peerToTopic b) h);
  to_lists h l : Map_get (peerToTopic b) h = Some l -> l <> [] /\ NoDup l;
  to_subs t c : Map_get (subscriptions b) t = Some c -> Map_has (topics b) t = true /\ 0 <= c;
}.

Lemma new_Sub_ok : tables_ok new_Sub.
Proof. split; cbn; try done. split_and!; constructor. Qed.

(** Fields the tables do not depend on. *)
Lemma ok_set_last b v : tables_ok b -> tables_ok (set_last v b).
Proof. by intros []. Qed.
Lemma ok_dispatch b e : tables_ok b -> tables_ok (sub_dispatch e b).
Proof. by intros []. Qed.

Lemma initializeTopic_ok t b : tables_ok b -> tables_ok (initializeTopic t b) /\ Map_has (topics (initializeTopic t b)) t = true /\
  subscriptions (initializeTopic t b) = subscriptions b.
Proof.
  intros [(W1 & W2 & W3 & W4) Hp Hi Hl Hs]. unfold initializeTopic.
  assert (Hh : Map_has (topicsToPeers b) t = Map_has (topics b) t) by (unfold Map_has; rewrite Hp; by destruct (Map_get (topics b) t)).
  destruct (Map_has (topics b) t) eqn:Et; rewrite ?Hh; [by split|]. cbn [set_topics topicsToPeers]. rewrite Hh.
  assert (Hnone : Map_get (topics b) t = None) by (unfold Map_has in Et; by destruct (Map_get (topics b) t)).
  split; [split; cbn|split; [|done]].
  - split_and!; auto using Map_set_wf.
  - intros x. rewrite !Map_get_set. by case_decide.
  - intros x ps. rewrite Map_get_set. case_decide; [|apply Hi]. intros [= <-]. split; [apply Map_empty_wf|done].
  - done.
  - intros x c E. destruct (Hs x c E) as [Hx ?]. split; [|done]. unfold Map_has in *. rewrite Map_get_set. by case_decide.
  - unfold Map_has. cbn. by rewrite Map_get_set_eq.
Qed.

Lemma deletePeerFromTopic_ok t h b : tables_ok b -> tables_ok (deletePeerFromTopic t h b).2.
Proof.
  intros [(W1 & W2 & W3 & W4) Hp Hi Hl Hs]. unfold deletePeerFromTopic. cbn [snd set_topics set_peerToTopic peerToTopic].
  set (p2t := Map_update (fun ts => Set_delete ts t) (peerToTopic b) h).
  assert (Hget : forall x, Map_get p2t x = if decide (h = x) then (fun ts => Set_delete ts t) <$> Map_get (peerToTopic b) x else Map_get (peerToTopic b) x)
    by (intros x; apply Map_get_update).
  set (b1 := set_peerToTopic p2t _).
  set (b2 := drop_if_empty h b1).
  assert (E2 : topics b2 = Map_update (fun ps => Map_delete ps h) (topics b) t /\ topicsToPeers b2 = topicsToPeers b /\ subscriptions b2 = subscriptions b /\ Map_wf (peerToTopic b2) /\
    forall x, Map_get (peerToTopic b2) x = if decide (h = x) then
      match Set_delete (default [] (Map_get (peerToTopic b) x)) t with [] => None | l => Some l end else Map_get (peerToTopic b) x).
  { assert (Wp : Map_wf p2t) by by apply Map_update_wf.
    subst b2. unfold drop_if_empty. cbn [b1 set_peerToTopic peerToTopic]. rewrite Hget, decide_True by done.
    destruct (Map_get (peerToTopic b) h) as [l|] eqn:El; cbn [fmap option_fmap option_map default from_option id].
    - destruct (Set_delete l t) as [|y l'] eqn:Ed; (split_and!; [done|done|done| |]); cbn; [by apply Map_delete_wf| |done|].
      + intros x. rewrite Map_get_delete, Hget. case_decide; [subst; rewrite El; cbn [fmap option_fmap option_map default from_option id]; by rewrite Ed|done].
      + intros x. rewrite Hget. case_decide; [subst; rewrite El; cbn [fmap option_fmap option_map default from_option id]; by rewrite Ed|done].
    - split_and!; [done|done|done|by apply Map_delete_wf|]. cbn. intros x. rewrite Map_get_delete, Hget.
      case_decide; [subst; by rewrite El|done]. }
  clearbody b2. destruct E2 as (Et & Ep & Es & Wp & Hget2). split; cbn.
  - rewrite Et, Ep, Es. split_and!; auto using Map_update_wf.
  - intros x. rewrite Et, Ep. rewrite !Map_get_update, Hp.
    case_decide; [|done]. subst. destruct (Map_get (topics b) x) as [ps|]; [|done]. apply (f_equal Some). symmetry. apply Map_keys_delete.
  - intros x ps. rewrite Et. rewrite Map_get_update. case_decide as Ht.
    + subst x. destruct (Map_get (topics b) t) as [ps'|] eqn:E; [|done]. cbn. intros [= <-]. destruct (Hi t ps' E) as [Wi Hin].
      split; [by apply Map_delete_wf|]. intros y sd. rewrite Map_get_delete. case_decide; [done|]. intros Ey. destruct (Hin y sd Ey) as [? Hy].
      split; [done|]. rewrite Hget2, decide_False by done. done.
    + intros E. destruct (Hi x ps E) as [Wi Hin]. split; [done|]. intros y sd Ey. destruct (Hin y sd Ey) as [? Hy]. split; [done|].
      rewrite Hget2. case_decide as Hd; [|done]. rewrite <- Hd in Hy |- *.
      assert (Hx : x ∈ Set_delete (default [] (Map_get (peerToTopic b) h)) t) by (apply Set_delete_elem; by split).
      destruct (Set_delete _ t); [by apply not_elem_of_nil in Hx|done].
  - intros x l. rewrite Hget2. case_decide as Hd; [|apply Hl]. subst x.
    destruct (Set_delete _ t) as [|y l'] eqn:E; [done|]. intros [= <-]. split; [done|]. rewrite <- E. apply Set_delete_NoDup.
    destruct (Map_get (peerToTopic b) h) as [l0|] eqn:El; cbn; [by apply (Hl h)|constructor].
  - intros x c. rewrite Es. intros E. destruct (Hs x c E) as [Hx ?]. split; [|done]. rewrite Et. unfold Map_has in *.
    rewrite Map_get_update. case_decide; [|done]. by destruct (Map_get (topics b) x).
Qed.

Lemma delete_topics_ok h ts b : tables_ok b -> tables_ok (delete_topics h ts b).2.
Proof.
  revert b. induction ts as [|t ts IH]; intros b Hb; cbn [delete_topics]; [done|].
  pose proof (deletePeerFromTopic_ok t h b Hb) as Hd. destruct (deletePeerFromTopic t h b) as [c b1].
  specialize (IH b1 Hd). by destruct (delete_topics h ts b1).
Qed.

Lemma removeSubscriptions_ok k b : tables_ok b -> tables_ok (removeSubscriptions k b).
Proof.
  intros Hb. unfold removeSubscriptions.
  pose proof (delete_topics_ok (hashcode k) (default [] (Map_get (peerToTopic b) (hashcode k))) b Hb) as Hd.
  destruct (delete_topics _ _ b) as [changed b1]. cbn in Hd. by destruct changed; [apply ok_set_last|apply ok_dispatch, ok_set_last].
Qed.

Lemma apply_unsubscribe_ok k n ts b : tables_ok b -> tables_ok (apply_unsubscribe k n ts b).
Proof.
  intros Hb. unfold apply_unsubscribe. pose proof (delete_topics_ok (hashcode k) ts b Hb) as Hd.
  destruct (delete_topics _ ts b) as [changed b1]. cbn in Hd. destruct changed; [done|]. by destruct (n =? 0); [apply ok_dispatch|].
Qed.

Lemma latest_ok h m ts b : tables_ok b -> tables_ok (subscriptionMessageIsLatest h m ts b).2.
Proof.
  intros Hb. unfold subscriptionMessageIsLatest. destruct (existsb _ ts); [done|]. cbn.
  revert b Hb. induction ts as [|t ts IH]; intros b Hb; cbn; [done|]. by apply IH, ok_set_last.
Qed.

(** A Subscribe for one topic. *)
Lemma subscribe_topic_ok k m t b : tables_ok b -> tables_ok (subscribe_topic k m t b).2.
Proof.
  intros Hok. pose proof Hok as [(W1 & W2 & W3 & W4) Hp Hi Hl Hs]. unfold subscribe_topic.
  destruct (Map_get (topics b) t) as [ps|] eqn:Et; [|done]. destruct (Hi t ps Et) as [Wi Hin]. cbn [snd].
  set (sd := MkSubscription k (h_session (m_header m)) (h_timestamp (m_header m))).
  set (p2t := if Map_has (peerToTopic b) (hashcode k) then peerToTopic b else Map_set (peerToTopic b) (hashcode k) []).
  assert (Einit : initializePeer k b = set_peerToTopic p2t b) by (unfold initializePeer, p2t; destruct (Map_has _ _); [by destruct b|done]).
  assert (Wp : Map_wf p2t) by (unfold p2t; destruct (Map_has _ _); [done|by apply Map_set_wf]).
  assert (Gp : forall x, default [] (Map_get p2t x) = default [] (Map_get (peerToTopic b) x)).
  { intros x. unfold p2t. destruct (Map_has _ _) eqn:E; [done|]. rewrite Map_get_set. case_decide; [|done]. subst.
    unfold Map_has in E. by destruct (Map_get (peerToTopic b) (hashcode k)). }
  rewrite Einit. destruct (Map_get ps (hashcode k)) as [e|] eqn:Eold.
  - (* known: the subscription is replaced or stays *)
    destruct (Hin _ _ Eold) as [Ek Hmem]. assert (Ep2t : p2t = peerToTopic b).
    { unfold p2t, Map_has. destruct (Map_get (peerToTopic b) (hashcode k)); [done|by apply not_elem_of_nil in Hmem]. }
    rewrite Ep2t. replace (set_peerToTopic (peerToTopic b) b) with b by by destruct b.
    destruct (sd_session e <? _); [|done]. split; cbn.
    + split_and!; auto using Map_set_wf.
    + intros x. rewrite Map_get_set, Hp. case_decide; [|done]. subst. rewrite Et. cbn. f_equal.
      rewrite Map_keys_set. unfold Map_has. by rewrite Eold.
    + intros x ps'. rewrite Map_get_set. case_decide; [|apply Hi]. subst. intros [= <-]. split; [by apply Map_set_wf|].
      intros h sd'. rewrite Map_get_set. case_decide; [|apply Hin]. subst. by intros [= <-].
    + done.
    + intros x c E. destruct (Hs x c E) as [Hx ?]. split; [|done]. unfold Map_has in *. rewrite Map_get_set. by case_decide.
  - (* new *)
    split; cbn [set_topics set_peerToTopic set_topicsToPeers topics peerToTopic topicsToPeers subscriptions snd].
    + split_and!; auto using Map_set_wf, Map_update_wf.
    + intros x. rewrite Map_get_set, Map_get_update, Hp. case_decide; [|done]. subst. rewrite Et. cbn. f_equal.
      rewrite Map_keys_set. unfold Map_has, Set_add, Set_has. rewrite Eold, bool_decide_false; [done|]. by apply Map_get_None.
    + intros x ps'. rewrite Map_get_set. case_decide as Hx.
      * subst. intros [= <-]. split; [by apply Map_set_wf|]. intros h sd'. rewrite Map_get_set, Map_get_update.
        case_decide as Hh; [subst; intros [= <-]; split; [done|]|].
        -- destruct (Map_get p2t (hashcode k)) as [l|] eqn:E; cbn; [apply Set_add_elem; by left|].
           exfalso. unfold p2t, Map_has in E. destruct (Map_get (peerToTopic b) (hashcode k)) eqn:E'; [congruence|by rewrite Map_get_set_eq in E].
        -- rewrite Gp. apply Hin.
      * intros E. destruct (Hi x ps' E) as [Wx Hinx]. split; [done|]. intros h sd' Eh. destruct (Hinx h sd' Eh) as [? Hm]. split; [done|].
        rewrite <- Gp in Hm. rewrite Map_get_update. case_decide; [|done]. destruct (Map_get p2t h); [|done]. cbn in *. apply Set_add_elem. by right.
    + intros h l. rewrite Map_get_update. case_decide as Hh.
      * subst. destruct (Map_get p2t (hashcode k)) as [l0|] eqn:E; [|done]. cbn. intros [= <-]. split.
        -- intros E0. assert (Hin0 : t ∈ Set_add l0 t) by (apply Set_add_elem; by left). rewrite E0 in Hin0. by apply not_elem_of_nil in Hin0.
        -- apply Set_add_NoDup. unfold p2t in E. destruct (Map_has _ _); [by apply (Hl (hashcode k))|]. rewrite Map_get_set_eq in E. injection E as <-. constructor.
      * intros E. apply (Hl h). unfold p2t in E. destruct (Map_has _ _); [done|]. by rewrite Map_get_set_ne in E.
    + intros x c E. destruct (Hs x c E) as [Hx ?]. split; [|done]. unfold Map_has in *. rewrite Map_get_set. by case_decide.
Qed.

Lemma apply_subscribe_ok k m ts b : tables_ok b -> tables_ok (apply_subscribe k m ts b).
Proof.
  assert (Hts : forall b, tables_ok b -> tables_ok (subscribe_topics k m ts b).2).
  { induction ts as [|t ts IH]; intros b0 Hb; cbn [subscribe_topics]; [done|]. pose proof (subscribe_topic_ok k m t b0 Hb) as Ht.
    destruct (subscribe_topic k m t b0) as [c b1]. specialize (IH b1 Ht). by destruct (subscribe_topics k m ts b1). }
  intros Hb. unfold apply_subscribe. specialize (Hts b Hb). destruct (subscribe_topics k m ts b) as [changed b1].
  destruct changed; [done|by apply ok_dispatch].
Qed.

End Tables.

Create HintDb tables discriminated.
#[export] Hint Resolve ok_set_last ok_dispatch removeSubscriptions_ok apply_subscribe_ok apply_unsubscribe_ok latest_ok : tables.

Section Node.
Context `{Hashing} `{!EqDecision PublicSignKey} `{!JsEnv} `{!Wire, !Signing} `{!PubSubWire}.
Context {Qs Qm : Type} `{Queue Qs string} `{Queue Qm (Next (list Z) string)}.

Abbreviation Node := (Stream (Qs := Qs) (Qm := Qm) (X := Sub)).
Abbreviation okN := (ok (Qs := Qs) (Qm := Qm) tables_ok).
Implicit Types s : Node.

(** ** Methods that write to the tables *)

Lemma ok_set_ext s b : okN s -> tables_ok b -> okN (set_st_ext b s).
Proof. intros [Hk Hl _] Hb. split; [|done|done]. by apply (known_tables s). Qed.

Lemma on_sub_framed (f : Sub -> Sub) t : (forall b, tables_ok b -> tables_ok (f b)) -> keeps (framed (Qs := Qs) (Qm := Qm) tables_ok t) (on_sub f).
Proof. intros Hf s [Et Hl Hi]. split; [done|done|]. by apply Hf. Qed.

Lemma with_sub_framed {A} (f : Sub -> A * Sub) t :
  (forall b, tables_ok b -> tables_ok (f b).2) -> keeps (framed (Qs := Qs) (Qm := Qm) tables_ok t) (with_sub f).
Proof. intros Hf s [Et Hl Hi]. unfold with_sub. specialize (Hf _ Hi). destruct (f (st_ext s)). by split. Qed.

Lemma on_sub_ok (f : Sub -> Sub) : (forall b, tables_ok b -> tables_ok (f b)) -> keeps okN (on_sub f).
Proof. intros Hf. apply framed_ok. intros t. by apply on_sub_framed. Qed.

Lemma with_sub_ok {A} (f : Sub -> A * Sub) : (forall b, tables_ok b -> tables_ok (f b).2) -> keeps okN (with_sub f).
Proof. intros Hf. apply framed_ok. intros t. by apply with_sub_framed. Qed.

Lemma quiet_publish_sub p mode to : quiet (publish_sub (Qs := Qs) (Qm := Qm) p mode to).
Proof. unfold publish_sub, sub_message. quiet_auto. Qed.
Hint Resolve quiet_publish_sub : quiet.

Lemma quiet_check_started : quiet (check_started (Qs := Qs) (Qm := Qm)).
Proof. unfold check_started. quiet_auto. Qed.
Hint Resolve quiet_check_started : quiet.

#[export] Instance sub_hook_laws : PeerHookLaws (Qs := Qs) (Qm := Qm) tables_ok.
Proof.
  split; cbn.
  - intros t key. apply quiet_framed. unfold sub_onPeerReachable, base_onPeerReachable. quiet_auto.
  - intros t key n. apply on_sub_framed. intros b. apply removeSubscriptions_ok.
  - intros t hash Hkey s [Et Hl Hi]. unfold sub_onPeerUnreachable, base_onPeerUnreachable, bindM at 1, bindM at 1, gets at 1.
    assert (Ek : is_Some (Map_get (peerKeyHashToPublicKey s) hash)).
    { rewrite <- Et in Hkey. cbn in Hkey. unfold Map_has in Hkey. by destruct (Map_get _ hash). }
    destruct Ek as [key Ek]. rewrite Ek.
    pose proof (quiet_framed tables_ok (dispatch_unreachable (Some key)) t (quiet_dispatch_unreachable key) s ltac:(by split)) as Hq.
    destruct (dispatch_unreachable (Some key) s) as [[[]|e|] s1]; cbn in Hq; [|done|done].
    unfold bindM, gets. destruct Hq as [Et1 Hl1 Hi1].
    assert (Ek1 : peerKeyHashToPublicKey s1 = peerKeyHashToPublicKey s) by (rewrite <- Et in Et1; unfold tables in Et1; by simplify_eq).
    rewrite Ek1, Ek. apply on_sub_framed; [intros b; apply removeSubscriptions_ok|by split].
Qed.

Lemma sub_verify_ok m : keeps okN (verifyAndProcess m).
Proof. apply verifyAndProcess_ok, _. Qed.
Lemma sub_base_data_ok from p m n : keeps okN (base_onDataMessage from p m n).
Proof. apply base_onDataMessage_ok, _. Qed.
Hint Resolve sub_verify_ok sub_base_data_ok : keeps.

(** Takes a method of DirectSub apart. *)
Ltac sub_auto :=
  repeat match goal with
    | |- keeps _ (on_sub _) => apply on_sub_ok; intros ? ?
    | |- keeps _ (with_sub _) => apply with_sub_ok; intros ? ?
    | |- keeps _ _ => ok_step
    end; auto 3 with tables.

(** ** Messages *)

Lemma on_data_ok from st m n p ts strict : keeps okN (on_data from st m n p ts strict).
Proof. unfold on_data. sub_auto. Qed.

Lemma on_subscribe_ok from k m n ts r : keeps okN (on_subscribe from k m n ts r).
Proof. unfold on_subscribe. sub_auto. Qed.

Lemma on_unsubscribe_ok from k m n ts : keeps okN (on_unsubscribe from k m n ts).
Proof. unfold on_unsubscribe. sub_auto. Qed.

Lemma on_getSubscribers_ok from k st m ts : keeps okN (on_getSubscribers from k st m ts).
Proof. unfold on_getSubscribers. sub_auto. Qed.
Hint Resolve on_data_ok on_subscribe_ok on_unsubscribe_ok on_getSubscribers_ok : keeps.

Lemma sub_onDataMessage_ok from p m n : keeps okN (sub_onDataMessage from p m n).
Proof. unfold sub_onDataMessage. sub_auto. Qed.

Lemma sub_publish_ok d ts o : keeps okN (sub_publish d ts o).
Proof. unfold sub_publish. sub_auto. Qed.
Hint Resolve sub_onDataMessage_ok sub_publish_ok : keeps.

#[export] Instance sub_message_laws : MessageHookLaws (Qs := Qs) (Qm := Qm) tables_ok.
Proof. split; cbn; intros; sub_auto. Qed.

(** ** Calls of the application *)

Lemma ok_set_subscription b t c : tables_ok b -> Map_has (topics b) t = true -> 0 <= c -> tables_ok (set_subscriptions (Map_set (subscriptions b) t c) b).
Proof.
  intros [(W1 & W2 & W3 & W4) Hp Hi Hl Hs] Ht Hc. split; cbn [set_subscriptions topics peerToTopic topicsToPeers subscriptions]; [|done..|].
  - split_and!; auto using Map_set_wf.
  - intros x d. rewrite Map_get_set. case_decide; [|apply Hs]. subst. by intros [= <-].
Qed.

Lemma listen_ok t b : tables_ok b -> tables_ok (listenForSubscribers t b).
Proof. intros Hb. by apply initializeTopic_ok. Qed.

Lemma listen_subscribe t b :
  tables_ok b -> tables_ok (listenForSubscribers t (set_subscriptions (Map_set (subscriptions b) t 1) b)).
Proof.
  intros Hb. destruct (initializeTopic_ok t b Hb) as (Hok & Ht & Hsub).
  assert (E : listenForSubscribers t (set_subscriptions (Map_set (subscriptions b) t 1) b) =
              set_subscriptions (Map_set (subscriptions (initializeTopic t b)) t 1) (initializeTopic t b)).
  { rewrite Hsub. unfold listenForSubscribers, initializeTopic. cbn. destruct (Map_has (topics b) t); cbn; by destruct (Map_has (topicsToPeers b) t). }
  rewrite E. by apply ok_set_subscription.
Qed.

Lemma subscribe_ok t : keeps okN (subscribe t).
Proof.
  unfold subscribe. apply keeps_bind; [ok_auto|intros _]. intros s Hs. unfold bindM at 1, gets.
  destruct (Map_get (subscriptions (st_ext s)) t) as [c|] eqn:E.
  - destruct Hs as [Hk Hl Hi]. destruct (to_subs _ Hi t c E) as [Ht Hc]. 
    apply ok_set_ext; [by split|]. apply ok_set_subscription; [done|done|lia].
  - refine (keeps_bind okN _ _ _ _ s Hs); [|intros _; ok_auto]. apply on_sub_ok. intros b. apply listen_subscribe.
Qed.

(** Leaving a topic: its tables go with the subscription. *)
Lemma leave_topic_ok b t :
  tables_ok b ->
  tables_ok (set_topicsToPeers (Map_delete (topicsToPeers b) t) (set_topics (Map_delete (topics b) t) (set_subscriptions (Map_delete (subscriptions b) t) b))).
Proof.
  intros [(W1 & W2 & W3 & W4) Hp Hi Hl Hs]. split; cbn [set_topicsToPeers set_topics set_subscriptions topics peerToTopic topicsToPeers subscriptions].
  - split_and!; auto using Map_delete_wf.
  - intros x. rewrite !Map_get_delete, Hp. by case_decide.
  - intros x ps. rewrite Map_get_delete. case_decide; [done|]. apply Hi.
  - done.
  - intros x c. rewrite Map_get_delete. case_decide; [done|]. intros E. destruct (Hs x c E) as [Hx ?]. split; [|done].
    unfold Map_has in *. rewrite Map_get_delete. by case_decide.
Qed.

Lemma unsubscribe_ok t f : keeps okN (unsubscribe t f).
Proof.
  unfold unsubscribe. apply keeps_bind; [ok_auto|intros _]. intros s Hs. unfold bindM at 1, gets.
  destruct (Map_get (subscriptions (st_ext s)) t) as [c|] eqn:E; [|apply keeps_bind; [|intros _; apply keeps_ret|done]; sub_auto].
  destruct Hs as [Hk Hl Hi]. destruct (to_subs _ Hi t c E) as [Ht Hc]. unfold bindM at 1, on_sub at 1, modify at 1. unfold bindM at 1, on_sub at 1, modify at 1.
  set (c' := if 0 <? c then c - 1 else c). assert (Hc' : 0 <= c') by (subst c'; destruct (Z.ltb_spec 0 c); lia).
  match goal with |- okN (_ ?q).2 => set (s1 := q); assert (Hs1 : okN s1) end.
  { apply ok_set_ext; [apply ok_set_ext; [by split|by apply ok_set_last]|]. apply ok_set_subscription; [by apply ok_set_last|done|done]. }
  clearbody s1. destruct ((c' =? 0) || f); [|done]. revert s1 Hs1. apply keeps_bind; [ok_auto|intros _].
  intros s1 Hs1. pose proof Hs1 as [_ _ Hi1]. apply (ok_set_ext s1 _ Hs1 (leave_topic_ok _ t Hi1)).
Qed.

Lemma requestSubscribers_ok t to : keeps okN (requestSubscribers t to).
Proof.
  unfold requestSubscribers. apply keeps_bind; [ok_auto|intros _]. destruct t as [t|]; [|apply keeps_raise].
  match goal with |- context [match ?x with inl _ => _ | inr _ => _ end] => generalize (match x with inl t => if bool_decide (t = ""%string) then [] else [t] | inr ts => ts end) end.
  intros [|t0 ts]; [apply keeps_ret|]. apply keeps_bind; [|intros _; ok_auto]. apply keeps_forM. intros x. apply on_sub_ok. intros b. apply listen_ok.
Qed.

Lemma stop_ok : keeps okN (stop (Qs := Qs) (Qm := Qm)).
Proof.
  intros s [Hk Hl Hi]. unfold stop, bindM, on_sub, modify. apply (base_stop_ok tables_ok).
  apply (ok_set_ext s (set_topicsToPeers [] (set_peerToTopic [] (set_topics [] (set_subscriptions [] (st_ext s)))))); [by split|].
  split; cbn; try done. split_and!; constructor.
Qed.

(** ** Reachable states *)

(** What can happen to a node: time passes, its timers fire, messages and
    streams come in, connections begin and end, the application calls. *)
Inductive node_step : Node -> Node -> Prop :=
| step_time s s' : tables s' = tables s -> st_log s' = st_log s -> st_ext s' = st_ext s -> node_step s s'
| step_route_timer s c : c ∈ scheduled (st_routes s) -> node_step s (set_st_routes (fire (st_routes s) (clock s) c) s)
| step_healthcheck s to : node_step s (healthcheck_timeout to s).2
| step_ack_timeout s i : node_step s (ack_timeout i s).2
| step_message s from p msg : node_step s (processMessage from p msg s).2
| step_incoming s key pr c n : node_step s (_onIncomingStream key pr c n s).2
| step_outgoing s b key c r : node_step s (createOutboundStream b key c r s).2
| step_connected s key b : node_step s (onPeerConnected key b s).2
| step_disconnected s key b : node_step s (onPeerDisconnected key b s).2
| step_prune s u : node_step s (maybePruneConnections u s).2
| step_start s l : node_step s (start l s).2
| step_stop s : node_step s (stop s).2
| step_subscribe s t : node_step s (subscribe t s).2
| step_unsubscribe s t f : node_step s (unsubscribe t f s).2
| step_request s t to : node_step s (requestSubscribers t to s).2
| step_publish s d ts o : node_step s (sub_publish d ts o s).2.

(** A node as it is constructed. *)
Definition initial s : Prop :=
  st_routes s = new_Routes (publicKeyHash s) None /\ peerKeyHashToPublicKey s = [] /\ st_ext s = new_Sub /\ st_log s = [].

Lemma initial_ok s : initial s -> okN s.
Proof.
  intros (Er & Ek & Ex & El). split; [split|by rewrite El|rewrite Ex; apply new_Sub_ok].
  - rewrite Er. split; [constructor|done].
  - by rewrite Er.
  - intros x. rewrite Er. by intros [? ?].
Qed.

Lemma node_step_ok s s' : okN s -> node_step s s' -> okN s'.
Proof.
  intros Hs Hstep. revert Hs. destruct Hstep; intros Hs.
  - by apply (ok_same tables_ok s).
  - destruct Hs as [[K1 K2 K3] Hl Hi]. unfold fire.
    apply (cleanup_node_ok tables_ok (set_st_routes (MkRoutes (Routes.me (st_routes s)) (routes (st_routes s)) (remoteInfo (st_routes s))
      (routeMaxRetentionPeriod (st_routes s)) _) s)). split; [split|done|done]; cbn; done.
  - by apply (healthcheck_timeout_ok tables_ok).
  - by apply (quiet_ok tables_ok _ (quiet_ack_timeout i)).
  - by apply (processMessage_ok tables_ok).
  - by apply (onIncomingStream_ok tables_ok).
  - by apply (createOutboundStream_ok tables_ok).
  - by apply (onPeerConnected_ok tables_ok).
  - by apply (onPeerDisconnected_ok tables_ok).
  - by apply (maybePruneConnections_ok tables_ok).
  - by apply (start_ok tables_ok).
  - by apply stop_ok.
  - by apply subscribe_ok.
  - by apply unsubscribe_ok.
  - by apply requestSubscribers_ok.
  - by apply sub_publish_ok.
Qed.

Lemma reachable_node_ok s0 s : initial s0 -> rtc node_step s0 s -> okN s.
Proof. intros Hinit%initial_ok Hr. induction Hr as [|s1 s2 s3 Hs _ IH]; [done|]. by apply IH, (node_step_ok s1). Qed.

(** C27. Whatever messages, timers, connections and calls a node has seen since it was
    created, in whatever order: the peers on a topic are the same in both of its
    tables, each of them under its own hash with a subscription of its own key and
    with the topic in its list, and every topic the node subscribes to has its
    tables. *)
Theorem tables_agree s0 s :
  initial s0 -> rtc node_step s0 s ->
  (forall t, Map_get (topicsToPeers (st_ext s)) t = Map_keys <$> Map_get (topics (st_ext s)) t) /\
  (forall t ps h sd, Map_get (topics (st_ext s)) t = Some ps -> Map_get ps h = Some sd ->
     hashcode (sd_publicKey sd) = h /\ t ∈ default [] (Map_get (peerToTopic (st_ext s)) h)) /\
  (forall t c, Map_get (subscriptions (st_ext s)) t = Some c -> 0 <= c /\ Map_has (topics (st_ext s)) t = true).
Proof.
  intros Hinit Hr. destruct (reachable_node_ok s0 s Hinit Hr) as [_ _ [_ Hp Hi _ Hs]]. split_and!; [done| |].
  - intros t ps h sd Et. destruct (Hi t ps Et) as [_ Hin]. apply Hin.
  - intros t c E. destruct (Hs t c E). by split.
Qed.

(** Every peer a node has a route to is one whose key it knows; so when a
    peer becomes unreachable the event names its key, and none of the listeners,
    those of the deliveries and DirectSub itself, meets an undefined one. *)
Theorem unreachable_known s0 s :
  initial s0 -> rtc node_step s0 s ->
  (forall x, is_Some (findNeighbor (st_routes s) (publicKeyHash s) x) -> is_Some (getPublicKey s x)) /\
  (forall key, PeerUnreachable key ∈ st_log s -> is_Some key) /\ ListenerTypeError ∉ st_log s.
Proof.
  intros Hinit Hr. destruct (reachable_node_ok s0 s Hinit Hr) as [[_ _ Hk] Hl _]. rewrite Forall_forall in Hl. split_and!.
  - intros x Hx. specialize (Hk x Hx). unfold Map_has in Hk. unfold getPublicKey. by destruct (Map_get _ x).
  - intros [key|] Hin; [done|]. by apply Hl in Hin.
  - intros Hin. by apply Hl in Hin.
Qed.

End Node.

(** * Publish and subscribe: messages in any order

    What a node knows of the subscriptions of others is a register per peer and
    topic that the message with the newest timestamp wins: [register_refined]
    shows that the tables of DirectSub implement it, [order_irrelevant] that two
    nodes that saw the same messages in different orders agree.  Where the code
    departs from it: [stale_topic_drops_all] and [unsubscribe_forgets]. *)

(** ** Last-writer-wins registers: the specification *)

Section Register.

(** For a peer and a topic: the time of the last message, and what it said. *)
Definition Register : Type := string -> string -> option (Z * bool).

Record Write := MkWrite { w_peer : string; w_topic : string; w_time : Z; w_subscribe : bool }.

#[export] Instance Write_eq_dec : EqDecision Write.
Proof. solve_decision. Defined.

Definition register_step (r : Register) (w : Write) : Register := fun h t =>
  if decide (h = w_peer w /\ t = w_topic w) then
    match r h t with
    | Some (time, b) => if w_time w <? time then Some (time, b) else Some (w_time w, w_subscribe w)
    | None => Some (w_time w, w_subscribe w)
    end
  else r h t.

Definition register_run (r : Register) (ws : list Write) : Register := fold_left register_step ws r.

Definition empty_register : Register := fun _ _ => None.

(** A write that no other of the same peer and topic, old or new, reaches. *)
Definition newest (w : Write) (ws : list Write) : Prop :=
  w ∈ ws /\ forall v, v ∈ ws -> w_peer v = w_peer w -> w_topic v = w_topic w -> v <> w -> w_time v < w_time w.

Lemma register_step_other r w h t : ~ (h = w_peer w /\ t = w_topic w) -> register_step r w h t = r h t.
Proof. intros. unfold register_step. by rewrite decide_False. Qed.

Lemma register_step_time r w h t time b :
  register_step r w h t = Some (time, b) -> r h t = Some (time, b) \/ (h = w_peer w /\ t = w_topic w /\ time = w_time w /\ b = w_subscribe w).
Proof.
  unfold register_step. case_decide as E; [|by left]. destruct E as [-> ->]. destruct (r (w_peer w) (w_topic w)) as [[time' b']|].
  - destruct (_ <? _); [by left|]. intros [= <- <-]. by right.
  - intros [= <- <-]. by right.
Qed.

(** What the register holds afterwards was there or is one of the writes. *)
Lemma register_run_from r ws h t time b :
  register_run r ws h t = Some (time, b) ->
  r h t = Some (time, b) \/ exists w, w ∈ ws /\ w_peer w = h /\ w_topic w = t /\ w_time w = time /\ w_subscribe w = b.
Proof.
  unfold register_run. revert r. induction ws as [|w ws IH]; intros r; cbn [fold_left]; [by left|]. intros E.
  apply IH in E as [E|(v & Hv & E)]; [|right; exists v; split; [by right|done]].
  apply register_step_time in E as [E|(-> & -> & -> & ->)]; [by left|]. right. exists w. split; [by left|done].
Qed.

(** It is at least as new as every write. *)
Lemma register_run_newer r ws h t w :
  (w ∈ ws \/ exists b, r h t = Some (w_time w, b)) -> w_peer w = h -> w_topic w = t ->
  exists time b, register_run r ws h t = Some (time, b) /\ w_time w <= time.
Proof.
  unfold register_run. revert r. intros r Hw Eh Et.
  assert (Hgen : forall r, (exists time b, r h t = Some (time, b) /\ w_time w <= time) \/ w ∈ ws ->
    exists time b, fold_left register_step ws r h t = Some (time, b) /\ w_time w <= time).
  { clear r Hw. induction ws as [|v ws IH]; intros r [Hr|Hin]; cbn [fold_left].
    - done.
    - by apply not_elem_of_nil in Hin.
    - apply IH. left. destruct Hr as (time & b & E & Hle). unfold register_step. case_decide as Ev; [|by exists time, b].
      rewrite E. destruct (Z.ltb_spec (w_time v) time); [by exists time, b|]. exists (w_time v), (w_subscribe v). split; [done|lia].
    - apply elem_of_cons in Hin as [<-|Hin]; [|by apply IH; right]. apply IH. left. unfold register_step. rewrite decide_True by done.
      destruct (r h t) as [[time b]|]; [destruct (Z.ltb_spec (w_time w) time)|].
      + exists time, b. split; [done|lia].
      + by exists (w_time w), (w_subscribe w).
      + by exists (w_time w), (w_subscribe w). }
  apply Hgen. destruct Hw as [Hw|[b Hb]]; [by right|]. left. by exists (w_time w), b.
Qed.

Lemma newest_wins w ws : newest w ws -> register_run empty_register ws (w_peer w) (w_topic w) = Some (w_time w, w_subscribe w).
Proof.
  intros [Hin Hall]. destruct (register_run_newer empty_register ws (w_peer w) (w_topic w) w ltac:(by left) eq_refl eq_refl) as (time & b & E & Hle).
  rewrite E. apply register_run_from in E as [E|(v & Hv & Ep & Et & Etime & Eb)]; [done|]. subst time b.
  destruct (decide (v = w)) as [->|Hne]; [done|]. specialize (Hall v Hv Ep Et Hne). lia.
Qed.

End Register.

(** ** The tables *)

Section Tables.
Context `{Hashing}.
Implicit Types b : Sub.

Definition last_time b (h t : string) : option Z :=
  (fun m => h_timestamp (m_header m)) <$> (Map_get (lastSubscriptionMessages b) h ≫= fun l => Map_get l t).

(** The node lists the peer as a subscriber of the topic. *)
Definition subscribed b (h t : string) : bool :=
  match Map_get (topics b) t with Some peers => Map_has peers h | None => false end.

Lemma last_time_newer b h m t : newer_known b h m t = match last_time b h t with Some time => h_timestamp (m_header m) <? time | None => false end.
Proof. unfold newer_known, last_time. by destruct (_ ≫= _). Qed.

Lemma remember_time b h m t h' t' :
  last_time (remember h m b t) h' t' = if decide (h' = h /\ t' = t) then Some (h_timestamp (m_header m)) else last_time b h' t'.
Proof.
  unfold last_time, remember. cbn [set_last lastSubscriptionMessages]. rewrite Map_get_set. destruct (decide (h = h')) as [<-|Hne].
  - cbn [mbind option_bind]. rewrite Map_get_set. destruct (decide (t = t')) as [<-|Ht].
    + by rewrite decide_True.
    + rewrite decide_False by (intros [_ ?]; by apply Ht). by destruct (Map_get (lastSubscriptionMessages b) h).
  - rewrite decide_False by (intros [? _]; by apply Hne). done.
Qed.

Lemma remember_rest b h m t : topics (remember h m b t) = topics b.
Proof. done. Qed.

(** Leaving a topic concerns one peer and one topic. *)
Lemma delete_peer_get t h b h' t' :
  topics (deletePeerFromTopic t h b).2 = Map_update (fun peers => Map_delete peers h) (topics b) t /\
  lastSubscriptionMessages (deletePeerFromTopic t h b).2 = lastSubscriptionMessages b /\
  subscribed (deletePeerFromTopic t h b).2 h' t' = (if decide (h' = h /\ t' = t) then false else subscribed b h' t') /\
  Map_has (topics (deletePeerFromTopic t h b).2) t' = Map_has (topics b) t'.
Proof.
  assert (Et : topics (deletePeerFromTopic t h b).2 = Map_update (fun peers => Map_delete peers h) (topics b) t).
  { unfold deletePeerFromTopic, drop_if_empty. cbn [snd set_topicsToPeers topics]. by destruct (default _ _). }
  split_and!; [done|unfold deletePeerFromTopic, drop_if_empty; cbn [snd set_topicsToPeers lastSubscriptionMessages]; by destruct (default _ _)| |].
  - unfold subscribed. rewrite Et, Map_get_update. destruct (decide (t = t')) as [<-|Hne].
    + destruct (Map_get (topics b) t) as [ps|] eqn:E; cbn [fmap option_fmap option_map]; [|by case_decide]. unfold Map_has. rewrite Map_get_delete.
      destruct (decide (h = h')) as [<-|Hh]; [by rewrite decide_True|]. rewrite decide_False; [done|]. intros [? _]. by apply Hh.
    + rewrite decide_False; [done|]. intros [_ ?]. by apply Hne.
  - rewrite Et. unfold Map_has. rewrite Map_get_update. case_decide; [|done]. subst. by destruct (Map_get (topics b) t').
Qed.

Lemma apply_unsubscribe_get k t b h' t' :
  subscribed (apply_unsubscribe k 0 [t] b) h' t' = (if decide (h' = hashcode k /\ t' = t) then false else subscribed b h' t') /\
  last_time (apply_unsubscribe k 0 [t] b) h' t' = last_time b h' t' /\
  Map_has (topics (apply_unsubscribe k 0 [t] b)) t' = Map_has (topics b) t'.
Proof.
  destruct (delete_peer_get t (hashcode k) b h' t') as (_ & El & Es & Eh). unfold apply_unsubscribe. cbn [delete_topics].
  destruct (deletePeerFromTopic t (hashcode k) b) as [c b1]. cbn [snd] in *.
  destruct c; cbn; (split_and!; [exact Es| |exact Eh]); unfold last_time; cbn; by rewrite El.
Qed.

Lemma apply_subscribe_get k m t b h' t' :
  subscribed (apply_subscribe k m [t] b) h' t' = (if decide (h' = hashcode k /\ t' = t) then Map_has (topics b) t else subscribed b h' t') /\
  last_time (apply_subscribe k m [t] b) h' t' = last_time b h' t' /\
  Map_has (topics (apply_subscribe k m [t] b)) t' = Map_has (topics b) t'.
Proof.
  assert (Hst : subscribed (subscribe_topic k m t b).2 h' t' = (if decide (h' = hashcode k /\ t' = t) then Map_has (topics b) t else subscribed b h' t') /\
    lastSubscriptionMessages (subscribe_topic k m t b).2 = lastSubscriptionMessages b /\
    Map_has (topics (subscribe_topic k m t b).2) t' = Map_has (topics b) t').
  { unfold subscribe_topic. destruct (Map_get (topics b) t) as [ps|] eqn:Et.
    2:{ split_and!; [|done|done]. unfold subscribed, Map_has. destruct (decide _) as [[-> ->]|]; [|done]. cbn [snd]. by rewrite !Et. }
    assert (Ei : topics (initializePeer k b) = topics b /\ lastSubscriptionMessages (initializePeer k b) = lastSubscriptionMessages b)
      by (unfold initializePeer; by destruct (Map_has _ _)).
    destruct Ei as [Ei El]. set (sd := MkSubscription _ _ _). set (b0 := initializePeer k b) in *. clearbody b0.
    assert (Hset : forall v, subscribed (set_topics (Map_set (topics b0) t (Map_set ps (hashcode k) v)) b0) h' t' =
      (if decide (h' = hashcode k /\ t' = t) then Map_has (topics b) t else subscribed b h' t') /\
      Map_has (Map_set (topics b0) t (Map_set ps (hashcode k) v)) t' = Map_has (topics b) t').
    { intros v. unfold subscribed, Map_has. cbn [set_topics topics]. rewrite !Map_get_set, Ei. destruct (decide (t = t')) as [<-|Hne].
      - rewrite Et, Map_get_set. split; [|done]. destruct (decide (hashcode k = h')) as [<-|Hh]; [by rewrite decide_True|].
        rewrite decide_False; [done|]. intros [? _]. by apply Hh.
      - rewrite decide_False; [done|]. intros [_ ?]. by apply Hne. }
    destruct (Map_get ps (hashcode k)) as [e|] eqn:Eold; cbn [snd].
    - destruct (sd_session e <? _); cbn [snd].
      + destruct (Hset sd) as [Hs1 Hs2]. by split_and!.
      + unfold subscribed. rewrite Ei. split_and!; [|done|done]. destruct (decide _) as [[-> ->]|]; [|done]. unfold Map_has. by rewrite !Et, Eold.
    - destruct (Hset sd) as [Hs1 Hs2]. split_and!; [|done|].
      + unfold subscribed in *. cbn [set_peerToTopic set_topicsToPeers set_topics topics] in *. exact Hs1.
      + exact Hs2. }
  destruct Hst as (Es & El & Eh). unfold apply_subscribe. cbn [subscribe_topics].
  destruct (subscribe_topic k m t b) as [c b1]. cbn [snd] in *.
  destruct c; cbn; (split_and!; [exact Es| |exact Eh]); unfold last_time; cbn; by rewrite El.
Qed.

End Tables.

(** ** The node *)

Section Node.
Context `{Hashing} `{!EqDecision PublicSignKey} `{!JsEnv} `{!Wire, !Signing} `{!PubSubWire}.
Context {Qs Qm : Type} `{Queue Qs string} `{Queue Qm (Next (list Z) string)}.

Abbreviation Node := (Stream (Qs := Qs) (Qm := Qm) (X := Sub)).
Implicit Types s : Node.

Lemma quiet_ext {A} (m : Method Node A) s : quiet m -> st_ext (m s).2 = st_ext s.
Proof. intros Hm. destruct (Hm (view s) (peer_keys s) False s (quiet_start s)) as (Hv & _). unfold viewed, view in Hv. by injection Hv. Qed.

Lemma bind_quiet_ext {A B} (m : Method Node A) (k : A -> Method Node B) s : (forall a, quiet (k a)) -> st_ext (bindM m k s).2 = st_ext (m s).2.
Proof. intros Hk. unfold bindM. destruct (m s) as [[a|e|] s1]; [|done|done]. by rewrite (quiet_ext (k a)). Qed.

(** What the messages of a peer about its topics do to the tables. *)
Lemma on_subscribe_ext from k m ts r s :
  st_ext (on_subscribe from k m 0 ts r s).2 =
  (let '(latest, b) := subscriptionMessageIsLatest (hashcode k) m ts (st_ext s) in
   if latest && (0 <? length ts)%nat then apply_subscribe k m ts b else b).
Proof.
  unfold on_subscribe. cbn [Z.eqb]. unfold bindM at 1, with_sub at 1.
  destruct (subscriptionMessageIsLatest (hashcode k) m ts (st_ext s)) as [latest b].
  rewrite bind_quiet_ext by (intros ?; quiet_auto). destruct (latest && (0 <? length ts)%nat); [|done]. cbn [whenM].
  rewrite bind_quiet_ext; [done|]. intros ?. unfold publish_sub, sub_message. quiet_auto.
Qed.

Lemma on_unsubscribe_ext from k m n ts s :
  st_ext (on_unsubscribe from k m n ts s).2 =
  (let '(latest, b) := subscriptionMessageIsLatest (hashcode k) m ts (st_ext s) in
   if latest then apply_unsubscribe k n ts b else b).
Proof.
  unfold on_unsubscribe. unfold bindM at 1, with_sub at 1.
  destruct (subscriptionMessageIsLatest (hashcode k) m ts (st_ext s)) as [latest b].
  rewrite bind_quiet_ext by (intros ?; quiet_auto). by destruct latest.
Qed.

(** ** Messages about one topic, seen for the first time *)

Record TopicMessage := MkTopicMessage {
  tm_from : PublicSignKey; tm_sender : PublicSignKey; tm_topic : string; tm_subscribe : bool; tm_request : bool; tm_message : Message }.

Definition deliver s (x : TopicMessage) : Node :=
  if tm_subscribe x then (on_subscribe (tm_from x) (tm_sender x) (tm_message x) 0 [tm_topic x] (tm_request x) s).2
  else (on_unsubscribe (tm_from x) (tm_sender x) (tm_message x) 0 [tm_topic x] s).2.

Definition write_of (x : TopicMessage) : Write :=
  MkWrite (hashcode (tm_sender x)) (tm_topic x) (h_timestamp (m_header (tm_message x))) (tm_subscribe x).

(** The tables stand for the registers: the time of the last message, and for
    the topics the node listens to whether it is a subscription. *)
Definition refines (r : Register) (b : Sub) : Prop := forall h t,
  last_time b h t = fst <$> r h t /\
  (Map_has (topics b) t = true -> subscribed b h t = match r h t with Some (_, sub) => sub | None => false end).

Lemma new_refines : refines empty_register new_Sub.
Proof. done. Qed.

Lemma deliver_listens s x t : Map_has (topics (st_ext (deliver s x))) t = Map_has (topics (st_ext s)) t.
Proof.
  unfold deliver. destruct (tm_subscribe x).
  - rewrite on_subscribe_ext. unfold subscriptionMessageIsLatest. cbn [existsb fold_left]. destruct (_ || _); [done|]. cbn [andb Nat.ltb Nat.leb length].
    by destruct (apply_subscribe_get (tm_sender x) (tm_message x) (tm_topic x) (remember (hashcode (tm_sender x)) (tm_message x) (st_ext s) (tm_topic x)) "" t) as (_ & _ & ->).
  - rewrite on_unsubscribe_ext. unfold subscriptionMessageIsLatest. cbn [existsb fold_left]. destruct (_ || _); [done|].
    by destruct (apply_unsubscribe_get (tm_sender x) (tm_topic x) (remember (hashcode (tm_sender x)) (tm_message x) (st_ext s) (tm_topic x)) "" t) as (_ & _ & ->).
Qed.

Lemma deliver_refines r s x : refines r (st_ext s) -> refines (register_step r (write_of x)) (st_ext (deliver s x)).
Proof.
  intros Hr h t. set (m := tm_message x). set (hx := hashcode (tm_sender x)). set (tx := tm_topic x).
  set (stale := match r hx tx with Some (time, _) => h_timestamp (m_header m) <? time | None => false end).
  assert (Estale : newer_known (st_ext s) hx m tx || false = stale).
  { rewrite orb_false_r, last_time_newer. destruct (Hr hx tx) as [-> _]. unfold stale. by destruct (r hx tx) as [[]|]. }
  set (b1 := remember hx m (st_ext s) tx).
  assert (E : st_ext (deliver s x) = if stale then st_ext s else if tm_subscribe x then apply_subscribe (tm_sender x) m [tx] b1 else apply_unsubscribe (tm_sender x) 0 [tx] b1).
  { unfold deliver. destruct (tm_subscribe x); rewrite ?on_subscribe_ext, ?on_unsubscribe_ext; unfold subscriptionMessageIsLatest; cbn [existsb];
      fold hx m tx; rewrite Estale; by destruct stale. }
  rewrite E. unfold register_step. change (w_peer (write_of x)) with hx. change (w_topic (write_of x)) with tx.
  change (w_time (write_of x)) with (h_timestamp (m_header m)). change (w_subscribe (write_of x)) with (tm_subscribe x).
  assert (Hnew : stale = false -> match r hx tx with
      | Some (time, b) => if h_timestamp (m_header m) <? time then Some (time, b) else Some (h_timestamp (m_header m), tm_subscribe x)
      | None => Some (h_timestamp (m_header m), tm_subscribe x) end = Some (h_timestamp (m_header m), tm_subscribe x)).
  { unfold stale. destruct (r hx tx) as [[time b]|]; [|done]. by intros ->. }
  destruct stale eqn:Es.
  - (* an old message changes nothing *)
    assert (Hold : match r hx tx with
        | Some (time, b) => if h_timestamp (m_header m) <? time then Some (time, b) else Some (h_timestamp (m_header m), tm_subscribe x)
        | None => Some (h_timestamp (m_header m), tm_subscribe x) end = r hx tx).
    { unfold stale in Es. destruct (r hx tx) as [[time b]|]; [by rewrite Es|done]. }
    destruct (decide _) as [[-> ->]|]; [|apply Hr]. rewrite Hold. apply Hr.
  - specialize (Hnew eq_refl). pose proof (remember_time (st_ext s) hx m tx h t) as Et1. fold b1 in Et1.
    assert (Hsub1 : subscribed b1 h t = subscribed (st_ext s) h t) by done.
    assert (Hhas1 : forall t, Map_has (topics b1) t = Map_has (topics (st_ext s)) t) by done.
    destruct (tm_subscribe x).
    + destruct (apply_subscribe_get (tm_sender x) m tx b1 h t) as (E1 & E2 & E3). rewrite E1, E2, E3. fold hx.
      destruct (decide (h = hx /\ t = tx)) as [[-> ->]|Hne]; rewrite Et1.
      * rewrite Hnew. split; [done|]. by rewrite Hhas1.
      * rewrite Hsub1, Hhas1. apply Hr.
    + destruct (apply_unsubscribe_get (tm_sender x) tx b1 h t) as (E1 & E2 & E3). rewrite E1, E2, E3. fold hx.
      destruct (decide (h = hx /\ t = tx)) as [[-> ->]|Hne]; rewrite Et1.
      * rewrite Hnew. by split.
      * rewrite Hsub1, Hhas1. apply Hr.
Qed.

Lemma deliver_all_refines xs r s : refines r (st_ext s) -> refines (register_run r (map write_of xs)) (st_ext (fold_left deliver xs s)).
Proof. revert r s. induction xs as [|x xs IH]; intros r s Hr; [done|]. by apply IH, deliver_refines. Qed.

Lemma deliver_all_listens xs s t : Map_has (topics (st_ext (fold_left deliver xs s))) t = Map_has (topics (st_ext s)) t.
Proof. revert s. induction xs as [|x xs IH]; intros s; [done|]. cbn [fold_left]. by rewrite IH, deliver_listens. Qed.


(** Two nodes that know nothing of a peer on a topic and then handle the
    same messages in different orders agree in the end: both list the peer
    exactly when its newest message about the topic is a Subscribe. *)
Theorem order_irrelevant (xs ys : list TopicMessage) (x : TopicMessage) s1 s2 :
  xs ≡ₚ ys -> x ∈ xs -> newest (write_of x) (map write_of xs) ->
  refines empty_register (st_ext s1) -> refines empty_register (st_ext s2) ->
  Map_has (topics (st_ext s1)) (tm_topic x) = true -> Map_has (topics (st_ext s2)) (tm_topic x) = true ->
  let h := hashcode (tm_sender x) in
  subscribed (st_ext (fold_left deliver xs s1)) h (tm_topic x) = tm_subscribe x /\
  subscribed (st_ext (fold_left deliver ys s2)) h (tm_topic x) = tm_subscribe x.
Proof.
  intros Hp Hx Hn Hr1 Hr2 Ht1 Ht2 h.
  assert (Hn' : newest (write_of x) (map write_of ys)).
  { destruct Hn as [Hin Hall]. assert (Hpm : map write_of xs ≡ₚ map write_of ys) by by apply Permutation_map.
    split; [by rewrite <- Hpm|]. intros v Hv. apply Hall. by rewrite Hpm. }
  assert (Hone : forall zs s, newest (write_of x) (map write_of zs) -> refines empty_register (st_ext s) -> Map_has (topics (st_ext s)) (tm_topic x) = true ->
    subscribed (st_ext (fold_left deliver zs s)) h (tm_topic x) = tm_subscribe x).
  { intros zs s Hz Hr Ht. destruct (deliver_all_refines zs empty_register s Hr h (tm_topic x)) as [_ Hs].
    rewrite Hs by by rewrite deliver_all_listens. pose proof (newest_wins _ _ Hz) as E. cbn in E. unfold h. by rewrite E. }
  split; by apply Hone.
Qed.

(** ** Where the code departs from the registers *)

(** A Subscribe or Unsubscribe message that names several topics is dropped
    whole when a newer message of that peer about one of them is known: it
    changes no table, neither for the other topics it names, nor what is
    remembered of them. *)
Theorem stale_topic_drops_all (from k : PublicSignKey) (m last : Message) (n : Z) (ts : list string) (t : string) (r : bool) s :
  t ∈ ts ->
  Map_get (lastSubscriptionMessages (st_ext s)) (hashcode k) ≫= (fun l => Map_get l t) = Some last ->
  h_timestamp (m_header m) < h_timestamp (m_header last) ->
  st_ext (on_subscribe from k m 0 ts r s).2 = st_ext s /\ st_ext (on_unsubscribe from k m n ts s).2 = st_ext s.
Proof.
  intros Hin El Hlt. rewrite on_subscribe_ext, on_unsubscribe_ext. unfold subscriptionMessageIsLatest.
  assert (E : existsb (newer_known (st_ext s) (hashcode k) m) ts = true); [|by rewrite E].
  apply existsb_exists. exists t. split; [by apply list_elem_of_In|]. unfold newer_known. rewrite El. by apply Z.ltb_lt.
Qed.

Lemma fold_delete_get {V} (l : list string) (mp : list (string * V)) h : h ∈ l -> Map_get (fold_left Map_delete l mp) h = None.
Proof.
  assert (Hkeep : forall l mp, Map_get mp h = None -> Map_get (fold_left (Map_delete (V := V)) l mp) h = None).
  { clear. intros l. induction l as [|x l IH]; intros mp E; cbn [fold_left]; [done|]. apply IH. rewrite Map_get_delete. by case_decide. }
  revert mp. induction l as [|x l IH]; intros mp; cbn [fold_left]; [by intros ?%not_elem_of_nil|].
  intros [->|Hin]%elem_of_cons; [|by apply IH]. apply Hkeep. rewrite Map_get_delete. by rewrite decide_True.
Qed.

(** Calling unsubscribe on a topic that other parts of the program still
    use only lowers its counter, but forgets the last messages of every peer on
    the topic: an Unsubscribe older than the peer's Subscribe, which the node
    would have refused, then removes the peer from the topic. *)
Theorem unsubscribe_forgets (from k : PublicSignKey) (m : Message) (t : string) (c : Z) s :
  started s = true -> Map_get (subscriptions (st_ext s)) t = Some c -> 2 <= c ->
  hashcode k ∈ default [] (Map_get (topicsToPeers (st_ext s)) t) -> subscribed (st_ext s) (hashcode k) t = true ->
  newer_known (st_ext s) (hashcode k) m t = true ->
  let s1 := (unsubscribe t false s).2 in
  subscribed (st_ext (on_unsubscribe from k m 0 [t] s).2) (hashcode k) t = true /\
  Map_get (subscriptions (st_ext s1)) t = Some (c - 1) /\ subscribed (st_ext s1) (hashcode k) t = true /\
  subscribed (st_ext (on_unsubscribe from k m 0 [t] s1).2) (hashcode k) t = false.
Proof.
  intros Hon Hc Hc2 Hin Hsub Hnew s1.
  assert (E : st_ext s1 = set_subscriptions (Map_set (subscriptions (st_ext s)) t (c - 1))
    (set_last (fold_left Map_delete (default [] (Map_get (topicsToPeers (st_ext s)) t)) (lastSubscriptionMessages (st_ext s))) (st_ext s))).
  { unfold s1, unsubscribe, check_started. unfold bindM at 1, bindM at 1, gets at 1. rewrite Hon. cbn [ret]. unfold bindM at 1, gets at 1. rewrite Hc.
    unfold bindM at 1, on_sub at 1, modify at 1. unfold bindM, on_sub, modify. destruct (Z.ltb_spec 0 c); [|lia]. destruct (Z.eqb_spec (c - 1) 0); [lia|done]. }
  split_and!.
  - rewrite on_unsubscribe_ext. unfold subscriptionMessageIsLatest. cbn [existsb]. by rewrite Hnew.
  - rewrite E. cbn. by rewrite Map_get_set_eq.
  - rewrite E. done.
  - rewrite on_unsubscribe_ext. unfold subscriptionMessageIsLatest. cbn [existsb]. unfold newer_known. rewrite E. cbn [set_subscriptions lastSubscriptionMessages set_last].
    rewrite fold_delete_get by done. cbn [orb fold_left].
    match goal with |- context [remember ?h ?m' ?b t] => destruct (apply_unsubscribe_get k t (remember h m' b t) (hashcode k) t) as (E1 & _ & _) end.
    etrans; [exact E1|]. by rewrite decide_True.
Qed.

End Node.
