(* ===== verification/Concrete.v ===== *)
(** * A concrete platform

    Instances of the parameters of the model ([JsEnv], [Hashing], documents) by
    small functions that satisfy the laws the theorems assume, so that the
    theorems can be applied to concrete indexes and ranges. *)

From Stdlib Require Import ZArith Lia.
From stdpp Require Import base sets list strings countable pretty.
From S2P Require Import Prelude JsMap JsVal Query IndexInterface SimpleIndex SimpleIndexFacts Integers Ranges RangeFacts RangeQueries.

Local Open Scope Z_scope.

(** An injective text for a byte string, and the order of strings by length. *)
Definition text_of_bytes (b : list Z) : string := pretty (Npos (encode b)).

#[export] Instance concrete_env : JsEnv := {
  toBase64 := text_of_bytes;
  localeCompare s t := Z.of_nat (String.length s) - Z.of_nat (String.length t);
}.

#[export] Instance concrete_env_laws : JsEnvLaws.
Proof.
  split; simpl.
  - intros a b Hab. unfold text_of_bytes in Hab. apply (inj pretty) in Hab. injection Hab as Hab.
    by apply (inj encode) in Hab.
  - lia.
  - lia.
Qed.

#[export] Instance concrete_hashing : Hashing := {
  PublicSignKey := list Z;
  key_bytes := fun k => k;
  sha256Base64Sync := fun b => String.append "h" (text_of_bytes b);
  serialize_range := fun r => r_id r ++ [r_timestamp r; r_start1 r; r_end1 r; r_start2 r; r_end2 r];
  serialize_segment := fun s => [hs_start1 s; hs_end1 s; hs_start2 s; hs_end2 s; intent_value (hs_mode s)];
}.

#[export] Instance concrete_range_document : Document Range := {
  to_js := range_js;
  schema_clone := fun r => r;
}.

#[export] Instance concrete_range_document_laws : DocumentLaws Range.
Proof. by split. Qed.

#[export] Instance concrete_range_to_js : RangeDocument.
Proof. by split. Qed.

(** Documents that are plain JavaScript values. *)
#[export] Instance concrete_js_document : Document jsval := {
  to_js := fun v => v;
  schema_clone := fun v => v;
}.

#[export] Instance concrete_js_document_laws : DocumentLaws jsval.
Proof. by split. Qed.

(** ** An index of documents with a string id and an age *)

Definition person (name : string) (age : Z) : jsval := JObj [("id", JStr name); ("age", JNum age)]%string.

Definition people : HashmapIndex jsval :=
  MkHashmapIndex (map (fun p => (PStr p.1, MkIndexedResult (StringKey p.1) (person p.1 p.2)))
                      [("a", 30); ("b", 10); ("c", 20)]%string) ["id"%string] None.

Lemma people_ok : hm_ok people.
Proof.
  split; simpl.
  - unfold Map_wf. simpl. repeat constructor; set_solver.
  - done.
  - by eexists.
  - intros p r Hin. repeat (apply elem_of_cons in Hin as [Hin|Hin]; [simplify_eq; split; [done|by eexists]|]).
    by apply elem_of_nil in Hin.
Qed.

Definition age_over (z : Z) : Query := IntegerCompare ["age"%string] Greater (UnsignedIntegerValue z).

Lemma people_supported z sorts :
  sorts = None \/ sorts = Some [MkSort ["age"%string] DESC] ->
  supported (idx_contents people) [age_over z] sorts.
Proof.
  intros Hs r Hin. simpl in Hin.
  repeat (apply elem_of_cons in Hin as [->|Hin]; [by destruct Hs as [->| ->]|]).
  by apply elem_of_nil in Hin.
Qed.

(** ** Ranges of three owners *)

Definition mk_range (id : Z) (hash : string) (timestamp start1 end1 : Z) (mode : ReplicationIntent) : Range :=
  MkRange U32 [id] hash timestamp start1 end1 start1 end1 (end1 - start1) mode.

Definition range_a : Range := mk_range 1 "a"%string 5 0 10 NonStrict.
Definition range_b : Range := mk_range 2 "b"%string 7 20 30 NonStrict.
Definition range_c : Range := mk_range 3 "a"%string 9 2 5 NonStrict.
Definition range_w : Range := MkRange U32 [4] "c"%string 3 4294967290 4294967295 0 4 9 NonStrict.

Definition range_entry (r : Range) : IdPrimitive * IndexedResult Range :=
  (PStr (text_of_bytes (r_id r)), MkIndexedResult (Uint8ArrayKey (r_id r)) r).

Definition stored (l : list Range) : HashmapIndex Range :=
  MkHashmapIndex (map range_entry l) ["id"%string] None.

Lemma stored_ok l :
  NoDup (map r_id l) -> Forall (range_ok U32) l -> ranges_ok U32 (stored l).
Proof.
  intros Hnd Hl. split.
  - split; simpl.
    + unfold Map_wf, Map_keys. simpl.
      assert (E : forall k, map fst (map range_entry k) = map (fun i => PStr (text_of_bytes i)) (map r_id k))
        by (intros k; by rewrite !map_map).
      eapply (eq_ind_r (fun k => NoDup k)); [|exact (E l)].
      apply NoDup_fmap_2; [|done]. intros a b Hab. injection Hab as Hab. by apply (toBase64_inj a b).
    + done.
    + by eexists.
    + intros p r Hin. apply list_elem_of_fmap in Hin as (x & E & Hx). unfold range_entry in E. simplify_eq.
      split; [done|]. simpl. by eexists.
  - assert (E : ranges (stored l) = l); [|by rewrite E].
    unfold ranges, stored. simpl. unfold Map_values. clear. induction l as [|r l IH]; [done|]. simpl. by f_equal.
Qed.

Lemma mk_range_ok id hash ts s e mode :
  0 <= ts <= MAX_U64 -> 0 <= s <= e -> e <= MAX_U32 -> range_ok U32 (mk_range id hash ts s e mode).
Proof. intros. split; [done|done|]. by apply shape_single. Qed.

Lemma range_w_ok : range_ok U32 range_w.
Proof. split; [done|unfold MAX_U64; simpl; lia|]. apply shape_wrapped; by vm_compute. Qed.

Definition some_ranges : HashmapIndex Range := stored [range_a; range_b; range_c; range_w].

Lemma some_ranges_ok : ranges_ok U32 some_ranges.
Proof.
  apply stored_ok.
  - simpl. repeat constructor; set_solver.
  - repeat apply Forall_cons_2; [..|apply Forall_nil_2]; try apply range_w_ok; apply mk_range_ok; by vm_compute.
Qed.
