(* ===== verification/Witnesses.v ===== *)
(** * The theorems at concrete inputs

    Each lemma applies one theorem of the library to concrete data on the
    platform of Concrete, where its hypotheses hold. *)

From Stdlib Require Import ZArith Lia QArith.
From stdpp Require Import base list strings sorting sets.
From S2P Require Import Prelude JsMap Cache Clock JsVal Query IndexInterface SimpleIndex SimpleIndexFacts Integers LogSorting EntryIndex EntryIndexFacts Trim Log LogState LogJoin LogDelete TrimFacts Ranges RangeFacts RangeAlgebra RangeMerge RangeQueries RangeIterators RangeIteratorsFacts RangeSampling CoverSet Rebalance RebalanceFacts Concrete.

Local Open Scope Z_scope.

(** ** The index *)

(** An iterator over a list of numbers. *)
Definition list_ops : IteratorOps nat (option bool * list nat) := {|
  it_next n s := Val (take n s.2, (Some (length s.2 <=? n)%nat, drop n s.2));
  it_all s := Val (s.2, (Some true, []));
  it_done s := s.1;
  it_pending s := Val (length s.2, s);
  it_close s := (Some true, []);
|}.

Lemma list_ops_hands_out l : hands_out list_ops (None, l) l.
Proof. intros n. eexists. split; [reflexivity|]. simpl it_done. by destruct (length l <=? S n)%nat. Qed.

Lemma series_next_spec_witness :
  exists s', series_next list_ops list_ops 3 (series_start (None, [1; 2]%nat) (None, [3; 4; 5; 6]%nat)) =
    Val ([1; 2; 3; 4; 5]%nat, s').
Proof.
  apply (series_next_spec list_ops list_ops (None, [1; 2]%nat) (None, [3; 4; 5; 6]%nat) [1; 2]%nat [3; 4; 5; 6]%nat 2);
    (reflexivity || apply list_ops_hands_out).
Defined.

Lemma and_on_array_field_witness :
  exists ih, handleQueryObject ["id"%string] None 2
    (And (int_queries "c" [(Greater, UnsignedIntegerValue 1); (Less, UnsignedIntegerValue 9)]))
    (JObj [("c"%string, JArr [JNum 0; JNum 5])]) [] 0 = Val (Some true, ih).
Proof.
  apply (and_on_array_field ["id"%string] 0 "c" [(Greater, UnsignedIntegerValue 1); (Less, UnsignedIntegerValue 9)]
    (JObj [("c"%string, JArr [JNum 0; JNum 5])]) [JNum 0; JNum 5]); try done. by repeat constructor.
Defined.

Lemma nested_arrays_diverge_witness :
  let doc := JObj [("c"%string, JArr [JArr [JNum 7]])] in
  let q := IntegerCompare ["c"%string] Equal (UnsignedIntegerValue 7) in
  (exists ih, handleFieldQuery ["id"%string] None 5 q doc 0 [] = Val (Some true, ih)) /\
  handleQueryObject ["id"%string] None 1000 (And [q; q]) doc [] 0 = NoFuel.
Proof. by apply (nested_arrays_diverge ["id"%string] 1000 "c" 7). Defined.

Lemma put_get_witness :
  exists idx' id, SimpleIndex.put people (person "d" 40) None = Val idx' /\
    toId <$> extractFieldValue (person "d" 40) ["id"%string] None = Val (Val id) /\
    hm_ok idx' /\ SimpleIndex.get idx' id = Some (MkIndexedResult id (person "d" 40)) /\
    (primitive (StringKey "a") <> primitive id -> SimpleIndex.get idx' (StringKey "a") = SimpleIndex.get people (StringKey "a")) /\
    getSize idx' = 4%nat.
Proof.
  eexists. destruct (put_get people _ (person "d" 40) (StringKey "a") people_ok eq_refl) as (id & H1 & H2 & H3 & H4 & H5).
  exists id. split; [reflexivity|]. split; [exact H1|]. split; [exact H2|]. split; [exact H3|].
  split; [exact H4|]. reflexivity.
Defined.

Lemma del_correct_witness :
  exists idx', SimpleIndex.del people (QLMany [age_over 15]) =
      Val (map ir_id (reference_results (idx_contents people) [age_over 15] None), idx') /\
    hm_ok idx' /\
    forall r, r ∈ idx_contents idx' <-> r ∈ idx_contents people /\ sat_all [age_over 15] (doc_of r) = false.
Proof. apply (del_correct people [age_over 15] people_ok). apply people_supported. by left. Defined.

Lemma paging_complete_witness :
  exists ps, pages 4 0 people (iterate (MkIterateOptions (QLMany [age_over 15]) (Some [MkSort ["age"%string] DESC]))) = Val ps /\
    map ir_value (concat ps) = [person "a" 30; person "c" 20].
Proof.
  destruct (paging_complete people [age_over 15] (Some [MkSort ["age"%string] DESC]) 0 people_ok) as (ps & E & Hc).
  - apply people_supported. by right.
  - exists ps. split; [exact E|]. rewrite Hc. reflexivity.
Defined.

Lemma pending_drops_first_witness :
  exists st st', pending people (iterate (MkIterateOptions (QLMany [age_over 15]) None)) = Val (1%nat, st) /\
    fetch people None st = Val ([MkIndexedResult (StringKey "c") (person "c" 20)], st').
Proof.
  apply (pending_drops_first people [age_over 15] None (MkIndexedResult (StringKey "a") (person "a" 30))
    [MkIndexedResult (StringKey "c") (person "c" 20)] people_ok).
  - apply people_supported. by left.
  - reflexivity.
Defined.

(** ** The log *)

Lemma before_after_wallTime_witness :
  let e := MkSortable (MkTimestamp 100 5) "g" "h1" in
  let x := MkSortable (MkTimestamp 100 3) "g" "h2" in
  compareEntries x e LastWriteWins = Val (-1) /\
  (qs ← before LastWriteWins e; matches_all ["hash"%string] None 1 qs (sortable_js x) []) = Val false.
Proof.
  destruct (before_after_wallTime (MkSortable (MkTimestamp 100 5) "g" "h1")
    (MkSortable (MkTimestamp 100 3) "g" "h2") ["hash"%string] 0) as (_ & _ & _ & H & _); [by vm_compute|].
  destruct H as (H1 & H2 & _); [reflexivity|by vm_compute|]. split; [exact H1|exact H2].
Defined.

(** ** Ranges *)

Definition props (offset width : Z) : RangeProps := {|
  p_id := Some [9]; p_random := []; p_offset := offset; p_width := width; p_mode := None;
  p_timestamp := Some 4; p_owner := publicKeyHash "a"%string |}.

Lemma new_range_contains_witness :
  exists r, new_Range U32 (props 4294967290 10) = Val r /\ wrapped r = true /\
    (contains r 3 = true <-> (3 - 4294967290) mod 4294967295 < 10).
Proof.
  destruct (new_range_contains U32 (props 4294967290 10) "a"%string) as [H _]; [reflexivity|by vm_compute|].
  destruct H as (r & E & _ & _ & Hw & Hc); [by vm_compute|].
  exists r. split; [exact E|]. split; [exact Hw|]. apply (Hc 3). by vm_compute.
Defined.

Definition owned_w : Range := MkRange U32 [4] (hashcode (H := concrete_hashing) [7; 7]) 3 4294967290 4294967295 0 4 9 NonStrict.

Lemma message_roundtrip_witness :
  toReplicationRangeIndexable (toReplicationRange owned_w) ([7; 7] : @PublicSignKey concrete_hashing) = Val owned_w.
Proof.
  apply (message_roundtrip owned_w ([7; 7] : @PublicSignKey concrete_hashing)).
  - apply shape_wrapped; by vm_compute.
  - by vm_compute.
  - reflexivity.
  - discriminate.
Defined.

Lemma range_a_shape : shape range_a.
Proof. apply shape_single; by vm_compute. Qed.
Lemma range_c_shape : shape range_c.
Proof. apply shape_single; by vm_compute. Qed.
Lemma range_w_shape : shape range_w.
Proof. apply range_w_ok. Qed.

Lemma overlaps_iff_common_point_witness :
  overlaps range_w range_c = true /\ exists p, contains range_w p = true /\ contains range_c p = true.
Proof.
  split; [reflexivity|].
  apply (overlaps_iff_common_point range_w range_c range_w_shape range_c_shape); by vm_compute.
Defined.

Lemma merge_segments_correct_witness :
  mergeBigIntSegments [(10, 20); (1, 3); (20, 25)] = [(1, 3); (10, 25)] /\
  separated (mergeBigIntSegments [(10, 20); (1, 3); (20, 25)]).
Proof.
  split; [reflexivity|]. apply (merge_segments_correct [(10, 20); (1, 3); (20, 25)]).
  by repeat constructor.
Defined.

Lemma symmetric_difference_correct_witness :
  let '(fromA, fromB) := symmetricDifferenceRanges range_a range_w in
  (forall p, Exists (fun r => contains r p = true) fromA <->
             contains range_a p = true /\ contains range_w p = false) /\
  fromB <> [].
Proof.
  pose proof (symmetric_difference_correct range_a range_w range_a_shape range_w_shape) as H.
  destruct (symmetricDifferenceRanges range_a range_w) as [fromA fromB] eqn:E.
  destruct H as (H1 & _). split; [exact H1|]. intros ->. by vm_compute in E.
Defined.

Lemma merge_ranges_tight_witness :
  exists r, mergeRanges [mk_range 1 "a" 5 100 110 NonStrict; mk_range 2 "a" 5 300 330 Strict] 0 MAX_U32 [] = Val r /\
    r_start1 r = 100 /\ r_width r = 230 /\
    tight_cover [mk_range 1 "a" 5 100 110 NonStrict; mk_range 2 "a" 5 300 330 Strict] r.
Proof.
  destruct (merge_ranges_tight "a" [mk_range 1 "a" 5 100 110 NonStrict; mk_range 2 "a" 5 300 330 Strict] [])
    as (r & E & H); [done|done| |].
  - repeat apply Forall_cons_2; [..|apply Forall_nil_2]; repeat split; by vm_compute.
  - exists r. split; [exact E|]. vm_compute in E. injection E as <-. done.
Defined.

Lemma containing_point_correct_witness :
  countRangesContainingPoint some_ranges U32 3 None = Val 3%nat /\
  exists results, allRangesContainingPoint some_ranges U32 (OnePoint 3) None None = Val results /\
    (forall x, x ∈ results <-> x ∈ idx_contents some_ranges /\ contains (ir_value x) 3 = true).
Proof.
  destruct (containing_point_correct U32 some_ranges 3 some_ranges_ok) as [H1 (results & H2 & H3 & _)]; [by vm_compute|].
  split; [exact H1|]. exists results. split; [exact H2|exact H3].
Defined.

Lemma coverage_normalized_witness :
  appromixateCoverage some_ranges U32 4 (createNumbers U32) true = Val (1 # 4)%Q.
Proof.
  destruct (coverage_normalized U32 some_ranges 4 some_ranges_ok) as [H _]; [lia|].
  rewrite H. by vm_compute.
Defined.

Lemma covering_same_owner_witness :
  exists b, countCoveringRangesSameOwner some_ranges U32 range_c = Val b /\
    (b = true -> exists r, r ∈ ranges some_ranges /\ r_hash r = r_hash range_c /\ r_id r <> r_id range_c /\
                           forall p, contains range_c p = true -> contains r p = true).
Proof.
  destruct (covering_same_owner U32 some_ranges range_c some_ranges_ok range_c_shape) as (b & E & _ & H); [reflexivity|].
  exists b. split; [exact E|exact H].
Defined.

Definition some_entry : EntryReplicated :=
  MkEntryReplicated U32 "hash" "gid" [17; 4294967293] 9 false
    (MkMeta (MkLamportClock [1] (MkTimestamp 9 0)) "gid" [] APPEND None).

Lemma entries_in_range_witness :
  exists q, matchEntriesInRangeQuery U32 (arcs_of range_w) = Val q /\
    matches_all ["hash"%string] None 2 [q] (entry_js some_entry) [] = Val true.
Proof. apply (entries_in_range ["hash"%string] range_w some_entry 0 range_w_shape). Defined.

(** * The searches of the ring on concrete ranges

    The theorems on [getDistance], [getClosest], [getSamples] and
    [getCoverSet] applied to the four ranges of [Concrete.some_ranges]. *)

Lemma getDistance_ring_witness :
  getDistance 4294967290 5 closest MAX_U32 = 10 /\ getDistance 5 4294967290 below MAX_U32 = 4294967285.
Proof.
  destruct (getDistance_ring 4294967290 5 MAX_U32) as (E & _); [by vm_compute..|].
  destruct (getDistance_ring 5 4294967290 MAX_U32) as (_ & _ & _ & _ & _ & E'); [by vm_compute..|].
  by rewrite E, E'.
Defined.

Lemma getClosest_minimal_witness :
  exists it it' w, getClosest true some_ranges U32 15 false (createNumbers U32) (MkClosestOptions None None) = Val it /\
    it_next (iter_ops it) 1 (iter_state it) = Val ([w], it') /\ w ∈ idx_contents some_ranges.
Proof.
  destruct (getClosest_minimal U32 some_ranges true false 15 (MkClosestOptions None None))
    as (it & res & it' & E1 & E2 & H); [exact some_ranges_ok|by vm_compute|done|].
  destruct res as [w|]; [exists it, it', w; split; [exact E1|split; [exact E2|exact (proj1 H)]]|].
  exfalso. enough (Hf : closest_admits false (MkClosestOptions None None) range_a = false) by (by vm_compute in Hf).
  apply (H (MkIndexedResult (Uint8ArrayKey (r_id range_a)) range_a)). by left.
Defined.

Lemma getSamples_correct_witness :
  exists m, getSamples 200 [3; 25] some_ranges U32 0 1000 (createNumbers U32) (MkSampleOptions false None) = Val m /\
    Map_get m "b"%string = Some true.
Proof.
  destruct (getSamples_correct U32 some_ranges 200 [3; 25] 0 1000 (MkSampleOptions false None))
    as (m & E & H); [exact some_ranges_ok|by apply Nat.ltb_lt; vm_compute|by repeat constructor|].
  exists m. split; [exact E|]. destruct (H "b"%string) as (_ & _ & _ & Ho). apply Ho; [done|]. exists range_b, 25. split_and!; [|by right; left|done|done].
  by right; left.
Defined.

Lemma getCoverSet_ends_witness :
  exists ret, getCoverSet some_ranges U32 (createNumbers U32) 1000 (cover_fuel U32) (StartPoint 3) 500 10 77 EagerOff = Val ret /\
    forall h, h ∈ ret -> owners some_ranges h.
Proof.
  destruct (getCoverSet_ends U32 some_ranges some_ranges_ok 1000 (cover_fuel U32) (StartPoint 3) 500 10 77 EagerOff)
    as (ret & E & H); [by vm_compute..|done|apply le_n|].
  exists ret. split; [exact E|]. intros h Hh. by destruct (H h Hh) as [?|(k & ? & _)].
Defined.

(** * Rebalancing on concrete changes

    The theorems on replication changes applied to the ranges of [Concrete],
    with the history kept in a cache over a list queue. *)

Definition ticking (n : nat) : Z := 1000 + Z.of_nat n.

#[local] Instance history : History (nat * Cache string unit (list string)) := CacheHistory ticking.
#[local] Instance history_laws : HistoryLaws (nat * Cache string unit (list string)) := CacheHistory_laws ticking.

Definition no_history : nat * Cache string unit (list string) := (0%nat, clear 1000 (Some 100000)).

Lemma no_history_ok : history_ok no_history.
Proof. simpl. by apply (new_Cache_inv 1000 (Some 100000)). Qed.

(** A range of owner "a" that moves: the old one is replaced by the new one. *)
Definition old_range : Range := mk_range 7 "a"%string 5 100 200 NonStrict.
Definition new_range : Range := mk_range 7 "a"%string 9 150 250 NonStrict.
Definition move : ReplicationChanges :=
  Changes [MkChange replaced old_range 5; MkChange (added false) new_range 9].

Lemma mk_range_shape id hash ts s e mode : 0 <= s <= e -> e <= MAX_U32 -> cut_ok (mk_range id hash ts s e mode).
Proof. intros. apply shape_cut_ok. by apply shape_single. Qed.

Lemma move_ok : Forall (fun c => cut_ok (ch_range c)) (flatten move).
Proof. repeat constructor; by apply mk_range_shape. Qed.

(** The history after the old range had been added. *)
Definition known_history : nat * Cache string unit (list string) :=
  match history_add no_history (rangeHash old_range) with Val h => h | _ => no_history end.

Lemma known_history_ok : history_ok known_history.
Proof.
  unfold known_history. destruct (law_add no_history (rangeHash old_range) no_history_ok) as (h & -> & Hh). done.
Qed.

Lemma merge_changes_correct_witness :
  exists out h', mergeReplicationChanges move known_history = Val (out, h') /\
    map (fun c => (is_added c, r_start1 (ch_range c), r_end1 (ch_range c))) out =
      [(false, 100, 150); (true, 200, 250)] /\
    forall c, c ∈ out -> exists c0, c0 ∈ flatten move /\ cut_of c c0.
Proof.
  destruct (merge_changes_correct move known_history known_history_ok move_ok) as (out & h' & E & _ & Ht & _).
  exists out, h'. split; [exact E|]. split; [|exact Ht]. vm_compute in E. injection E as <- _. reflexivity.
Defined.

Lemma known_removals_lost_witness :
  let r1 := MkChange removed old_range 5 in
  let r2 := MkChange removed new_range 9 in
  exists h h', mergeReplicationChanges (Changes [r1; r2]) h = Val ([], h') /\
    mergeReplicationChanges (Changes [r1]) no_history <> Val ([], h').
Proof.
  intros r1 r2. set (h := match history_add known_history (rangeHash new_range) with Val h => h | _ => no_history end).
  exists h. eexists. split; [|by vm_compute].
  eapply (known_removals_lost r1 r2 h); [done|done|done|by vm_compute|by vm_compute|by vm_compute].
Defined.

(** ** An index with one entry *)

#[local] Instance entry_document : Document EntryReplicated := { to_js := entry_js; schema_clone e := e }.
#[local] Instance entry_document_laws : DocumentLaws EntryReplicated.
Proof. by split. Qed.
#[local] Instance entry_document_js : EntryDocument.
Proof. by split. Qed.

Definition an_entry (hash : string) (coordinate : Z) : EntryReplicated :=
  MkEntryReplicated U32 hash "gid" [coordinate] 9 false
    (MkMeta (MkLamportClock [1] (MkTimestamp 9 0)) "gid" [] APPEND None).

Definition entries : HashmapIndex EntryReplicated :=
  MkHashmapIndex (map (fun e => (PStr (er_hash e), MkIndexedResult (StringKey (er_hash e)) e))
    [an_entry "x" 120; an_entry "y" 170; an_entry "z" 240]) ["hash"%string] None.

Lemma toRebalance_correct_witness :
  exists l h', toRebalance 2 move entries known_history = Val (l, h') /\ map er_hash l = ["x"; "z"]%string.
Proof.
  destruct (toRebalance_correct move known_history entries 2 known_history_ok move_ok) as (change & h' & E & E');
    [done|lia|].
  exists (List.filter (inspects change) (map ir_value (idx_contents entries))), h'. split; [exact E'|].
  vm_compute in E. injection E as <- _. reflexivity.
Defined.

(** * The entry index on a small log

    The three sort functions of the log order every pair of entries, and the
    theorems of EntryIndexFacts apply to a log with an entry and a follower. *)

#[export] Instance concrete_shallow_document : Document ShallowEntry := {
  to_js := shallow_js;
  schema_clone := fun e => e;
}.

#[export] Instance concrete_shallow_document_laws : DocumentLaws ShallowEntry.
Proof. by split. Qed.

#[export] Instance concrete_shallow : ShallowDocument.
Proof. by split. Qed.

Lemma LastWriteWins_total : sorts_total (sort LastWriteWins).
Proof. apply readable_total. repeat constructor; intros e; by eexists. Qed.

Lemma FirstWriteWins_total : sorts_total (sort FirstWriteWins).
Proof. apply readable_total. repeat constructor; intros e; by eexists. Qed.

Lemma SortByEntryHash_total : sorts_total (sort SortByEntryHash).
Proof. apply readable_total. repeat constructor; intros e; by eexists. Qed.

(** A log with one entry. *)
Definition meta_at (time : Z) (gid : string) (next : list string) : Meta :=
  MkMeta (MkLamportClock [1] (MkTimestamp time 0)) gid next APPEND None.

Definition first_entry : ShallowEntry := toShallow (MkEntry "a" (meta_at 1 "g" []) 3) true.

Definition one_entry : EntryIndex (Q := list string) :=
  MkEntryIndex (MkHashmapIndex [(PStr "a", MkIndexedResult (StringKey "a") first_entry)]%string ["hash"%string] None)
    (clear 1000 None) [("a"%string, MkEntry "a" (meta_at 1 "g" []) 3)] 1 LastWriteWins.

Lemma one_entry_ok : index_ok one_entry.
Proof.
  split; [split; [| |by apply (new_Cache_inv 1000 None)|apply LastWriteWins_total]|].
  - split; [|done..|].
    + unfold Map_wf. simpl. apply NoDup_singleton.
    + intros p r [[= -> ->]|?%not_elem_of_nil]%elem_of_cons; [|done]. done.
  - done.
  - intros h e. unfold stored_at. cbn [one_entry ei_index hm_index Map_get]. case_decide; [|done]. by intros [= <-].
Qed.

(** A follower with another gid: the gid of the first entry is reported. *)
Definition follower_meta : Meta := meta_at 2 "h" ["a"%string].

Lemma put_keeps_heads_witness :
  exists gids s', put "b" 5 one_entry (Some "b"%string) follower_meta 4 false true false = Val (gids, s') /\
    index_ok s' /\ gids = ["g"%string].
Proof.
  destruct (put_keeps_heads "b" 5 one_entry "b" follower_meta 4 false false one_entry_ok)
    as (gids & s' & E & Hok & _); try done.
  - by intros [=]%list_elem_of_singleton.
  - right. by intros (? & ? & ? & _).
  - exists gids, s'. split; [exact E|]. split; [exact Hok|]. vm_compute in E. by injection E as <- _.
Defined.

Definition two_entries : EntryIndex (Q := list string) :=
  match put "b" 5 one_entry (Some "b"%string) follower_meta 4 false true false with
  | Val (_, s) => s | _ => one_entry end.

Lemma two_entries_ok : index_ok two_entries.
Proof.
  destruct (put_ok "b" 5 one_entry "b" follower_meta 4 false true false (proj1 one_entry_ok))
    as (gids & s' & E & Hst & _); try done.
  - by intros [=]%list_elem_of_singleton.
  - right. by intros (? & ? & ? & _).
  - unfold two_entries. rewrite E. apply (put_index_ok "b" false (MkEntry "b" follower_meta 4) true one_entry s'); try done.
    + apply one_entry_ok.
    + by intros [=]%list_elem_of_singleton.
Qed.

Lemma delete_keeps_heads_witness :
  exists e s', EntryIndex.delete two_entries "b" None = Val (Some e, s') /\ index_ok s' /\
    se_head <$> stored_at (ei_index two_entries) "a" = Some false /\ se_head <$> stored_at (ei_index s') "a" = Some true.
Proof.
  destruct (delete_keeps_heads two_entries "b" (toShallow (MkEntry "b" follower_meta 4) true) None two_entries_ok)
    as (s' & E & Hok & _); [by vm_compute|done|by left|].
  eexists _, s'. split; [exact E|]. split; [exact Hok|]. split; [by vm_compute|].
  vm_compute in E. injection E as <-. by vm_compute.
Defined.

Lemma put_accepts_wrong_hash_witness :
  exists gids s', put "true hash" 5 one_entry (Some "b"%string) follower_meta 4 false true true = Val (gids, s') /\
    is_Some (stored_at (ei_index s') "b"%string) /\ Map_get (ei_store s') "b"%string = None.
Proof.
  apply (put_accepts_wrong_hash "true hash" 5 one_entry "b" follower_meta 4 false true one_entry_ok); try done.
  - by intros [=]%list_elem_of_singleton.
  - right. by intros (? & ? & ? & _).
Defined.

(** * The log on concrete entries

    A small environment in which two entries can be fetched and one is refused,
    logs built from a list of entries, and the theorems on joining, appending,
    removing and trimming applied to them. *)

(** [b] and [d] follow [a], and [c] follows [b]. *)
Definition entry_a : Entry := MkEntry "a" (meta_at 1 "g" []) 3.
Definition entry_b : Entry := MkEntry "b" (meta_at 2 "g" ["a"%string]) 3.
Definition entry_c : Entry := MkEntry "c" (meta_at 4 "g" ["b"%string]) 3.
Definition entry_d : Entry := MkEntry "d" (meta_at 3 "g" ["a"%string]) 3.

(** [a] and [b] are at other nodes, and [c] is refused. *)
#[export] Instance concrete_log_env : LogEnv := {
  Data := string;
  byteLength d := Z.of_nat (String.length d);
  multihash _ d := d;
  multihash_of := en_hash;
  remote_get h := if bool_decide (h = "a"%string) then Some entry_a else if bool_decide (h = "b"%string) then Some entry_b else None;
  verifySignatures _ := true;
  option_canAppend h _ _ := Val (negb (bool_decide (h = Some "c"%string)));
  wall_time _ := 1000;
  date_now _ := 1;
}.

(** ** Logs made of a list of entries and their marks *)

Definition table_of (es : list (Entry * bool)) : HashmapIndex ShallowEntry :=
  MkHashmapIndex (map (fun p => (PStr (en_hash p.1), MkIndexedResult (StringKey (en_hash p.1)) (toShallow p.1 p.2))) es) ["hash"%string] None.

Definition log_of (es : list (Entry * bool)) : Log (Q := list string) :=
  MkLog (MkEntryIndex (table_of es) (clear 1000 None) (map (fun p => (en_hash p.1, p.1)) es) (Z.of_nat (length es)) LastWriteWins)
    (new_Trim None) (new_HLC 1000 None None None None) false [7] 0 [] [].

Lemma table_of_ok es : NoDup (map (fun p => en_hash p.1) es) -> table_ok (table_of es).
Proof.
  intros Hnd. split; [|done..|].
  - unfold Map_wf, Map_keys. cbn [table_of hm_index]. change (NoDup (map fst (map (fun p : Entry * bool =>
      (PStr (en_hash p.1), MkIndexedResult (StringKey (en_hash p.1)) (toShallow p.1 p.2))) es))). rewrite map_map.
    rewrite <- (map_map (fun p : Entry * bool => en_hash p.1) PStr). assert (Inj eq eq PStr) by by intros ? ? [=].
    by apply (NoDup_fmap_2 PStr).
  - intros p r Hin. apply list_elem_of_fmap in Hin as (q & [= -> ->] & _). done.
Qed.

Lemma stored_of es h x : stored_at (table_of es) h = Some x -> exists p, p ∈ es /\ en_hash p.1 = h /\ x = toShallow p.1 p.2.
Proof.
  unfold stored_at, table_of. cbn [hm_index]. induction es as [|p es IH]; [done|]. cbn [map Map_get]. case_decide as Hp.
  - injection Hp as Hp. intros [= <-]. exists p. split; [left|done].
  - intros (q & Hq & ?)%IH. exists q. split; [by right|done].
Qed.

Lemma store_of es h e : Map_get (store (log_of es)) h = Some e -> exists m, (e, m) ∈ es /\ en_hash e = h.
Proof.
  cbn [log_of lg_entryIndex ei_store]. induction es as [|[q m] es IH]; [done|]. cbn [map Map_get fst]. case_decide as Hp.
  - intros [= <-]. exists m. split; [left|done].
  - intros (m' & ? & ?)%IH. exists m'. split; [by right|done].
Qed.

Lemma meta_of_log es h m : meta_of (table (log_of es)) h = Some m -> exists p, p ∈ es /\ en_hash p.1 = h /\ m = new_ShallowMeta (en_meta p.1).
Proof.
  unfold meta_of. destruct (stored_at _ h) as [x|] eqn:E; [|done]. intros [= <-].
  apply stored_of in E as (p & ? & ? & ->). by exists p.
Qed.

Lemma log_of_index es : NoDup (map (fun p => en_hash p.1) es) -> index_wf (lg_entryIndex (log_of es)).
Proof.
  intros Hnd. split; [by apply table_of_ok| |by apply (new_Cache_inv 1000 None)|apply LastWriteWins_total].
  cbn. by rewrite length_map.
Qed.

Lemma log_of_ready es : NoDup (map (fun p => en_hash p.1) es) -> state_ready (log_of es).
Proof. intros Hnd. split; [by apply log_of_index|]. intros k v Hv. done. Qed.

(** An entry that comes with what it follows, its mark and a time before 1000. *)
Definition listed (es : list (Entry * bool)) (p : Entry * bool) : Prop :=
  en_hash p.1 <> ""%string /\ meta_type (en_meta p.1) = APPEND /\ wallTime (lc_timestamp (meta_clock (en_meta p.1))) < 1000 /\
  p.2 = negb (followed (table_of es) (en_hash p.1)) /\
  Forall (fun a => bool_decide (is_Some (stored_at (table_of es) a)) = true) (meta_next (en_meta p.1)).

Lemma log_of_wf es : NoDup (map (fun p => en_hash p.1) es) -> Forall (listed es) es -> log_wf (fun _ => False) (log_of es).
Proof.
  intros Hnd Hes. rewrite Forall_forall in Hes. split; try done.
  - by apply log_of_index.
  - intros k (v & x & Hv & _). discriminate Hv.
  - intros h x (p & Hp & <- & ->)%stored_of. left. apply Hes in Hp as (_ & _ & _ & Hp & _). exact Hp.
  - intros h m a (p & Hp & <- & ->)%meta_of_log Ha. apply in_log_stored. apply Hes in Hp as (_ & _ & _ & _ & Hn).
    rewrite Forall_forall in Hn. by apply Hn, bool_decide_eq_true in Ha.
  - intros h m (p & Hp & <- & ->)%meta_of_log. by apply Hes in Hp as (_ & ? & _).
  - intros h [m (p & Hp & <- & _)%meta_of_log]. by apply Hes in Hp as (? & _).
  - intros h m (p & Hp & <- & ->)%meta_of_log. right. apply Hes in Hp as (_ & _ & Ht & _).
    apply Timestamp_lt_spec. left. exact Ht.
Qed.

(** ** Joining *)

Definition all_entries : list Entry := [entry_a; entry_b; entry_d].
Definition depth_of (h : string) : nat := if bool_decide (h = "a"%string) then 0 else if bool_decide (h = "c"%string) then 2 else 1.

Ltac each_of H := repeat (apply elem_of_cons in H as [H|H]; [|]); try by apply not_elem_of_nil in H.

Lemma all_in (P : Entry -> Prop) : P entry_a -> P entry_b -> P entry_d -> forall e, e ∈ all_entries -> P e.
Proof. intros ? ? ? e He. unfold all_entries in He. set_solver. Qed.

(** One goal per entry for a hypothesis that an entry is one of them. *)
Ltac per_entry e He := generalize dependent e; intros e He; pattern e; refine (all_in _ _ _ _ e He); clear e He.

Lemma concrete_universe : universe all_entries depth_of 1000.
Proof.
  split.
  - intros e He. by per_entry e He.
  - intros e e' He He'. per_entry e He; per_entry e' He'; done.
  - intros e He. by per_entry e He.
  - intros e He. by per_entry e He.
  - intros e a He. per_entry e He; intros Ha; cbn in Ha; each_of Ha; subst a; vm_compute; lia.
  - intros e He. by per_entry e He.
  - intros e He. by per_entry e He.
  - intros e He. by per_entry e He.
  - done.
  - intros a e. cbn. repeat case_bool_decide; intros [= <-]; subst a; unfold all_entries; set_solver.
Qed.

Lemma log_of_state es :
  NoDup (map (fun p => en_hash p.1) es) -> Forall (listed es) es -> (forall p, p ∈ es -> p.1 ∈ all_entries) -> log_state all_entries 1000 (log_of es).
Proof.
  intros Hnd Hl Hin. assert (Hm : forall l : Log (Q := list string), (missing all_entries l <= 3)%nat).
  { intros l. unfold missing. etrans; [apply List.filter_length_le|done]. }
  split.
  - split; try done.
    + by apply log_of_wf.
    + intros a e (m & Hm' & Ha)%store_of. subst a. apply Hin in Hm'. by destruct e.
    + specialize (Hm (log_of es)). change (1000 + Z.of_nat (missing all_entries (log_of es)) <= UINT64_MAX). unfold UINT64_MAX. lia.
    + specialize (Hm (log_of es)). unfold UINT64_MAX. lia.
    + specialize (Hm (log_of es)). cbn [log_of lg_entryIndex ei_length].
      assert (length es <= 3)%nat; [|unfold MAX_SAFE_INTEGER; lia].
      rewrite <- (length_map (fun p => en_hash p.1)). apply (List.NoDup_incl_length (l' := ["a"; "b"; "d"]%string)); [by apply NoDup_ListNoDup|].
      intros h Hh. apply list_elem_of_In. apply list_elem_of_In, list_elem_of_fmap in Hh as (p & -> & Hp). apply Hin in Hp. destruct p as [e mark]. cbn in Hp |- *. per_entry e Hp; set_solver.
  - intros h m e (p & Hp & <- & ->)%meta_of_log He Hh. apply Hin in Hp. by rewrite (un_unique _ _ _ concrete_universe e p.1 He Hp Hh).
Qed.

Lemma depth_enough e : e ∈ all_entries -> (depth_of (en_hash e) < 2)%nat.
Proof. intros He. per_entry e He; vm_compute; lia. Qed.

Definition empty_log : Log (Q := list string) := log_of [].
Definition log_ab : Log (Q := list string) := log_of [(entry_a, false); (entry_b, true)].
Definition log_ad : Log (Q := list string) := log_of [(entry_a, false); (entry_d, true)].

Ltac concrete_log := repeat constructor; try (by set_solver).

Lemma empty_log_state : log_state all_entries 1000 empty_log.
Proof. apply log_of_state; [constructor|constructor|set_solver]. Qed.

Lemma log_ab_state : log_state all_entries 1000 log_ab.
Proof. apply log_of_state; [concrete_log|concrete_log|unfold all_entries; set_solver]. Qed.

Lemma log_ad_state : log_state all_entries 1000 log_ad.
Proof. apply log_of_state; [concrete_log|concrete_log|unfold all_entries; set_solver]. Qed.

(** An empty log joins [d]: [a] is fetched. *)
Lemma join_correct_witness :
  exists l', Log.join 2 empty_log (JoinIterator [entry_d]) no_join_options = Val l' /\
    in_log l' "a"%string /\ in_log l' "d"%string /\ ~ in_log l' "b"%string /\ heads_exact (table l').
Proof.
  destruct (join_correct all_entries depth_of 1000 concrete_universe empty_log (JoinIterator [entry_d]) no_join_options 2)
    as (l' & E & _ & Hin & _ & _ & Hh); [exact empty_log_state| | |done|exact depth_enough|].
  - split; [|done]. intros e He. cbn in He. unfold all_entries. set_solver.
  - intros e a He. per_entry e He; intros Ha; cbn in Ha; each_of Ha; subst a; right; right; right; by eexists.
  - exists l'. split; [exact E|]. split_and!; [| | |exact Hh]; vm_compute in E; injection E as <-; [by eexists|by eexists|].
    by intros [m Hm].
Defined.

Lemma join_converges_witness :
  exists l1 l2, Log.join 2 log_ab (JoinLog [entry_a; entry_d]) no_join_options = Val l1 /\
    Log.join 2 log_ad (JoinLog [entry_a; entry_b]) no_join_options = Val l2 /\
    (forall h, in_log l1 h <-> in_log l2 h) /\ in_log l1 "d"%string.
Proof.
  assert (Hc : forall e e' m m', contents_of all_entries (log_of [(e, m); (e', m')]) [e; e'] <-> e ∈ all_entries /\ e' ∈ all_entries).
  { intros e e' m m'. split; [intros [Hin _]; split; apply Hin; set_solver|]. intros [He He']. split; [set_solver|]. intros h. split.
    - cbn [map]. intros Hh. apply in_log_stored. unfold stored_at, table_of. cbn.
      case_decide; [by eexists|]. case_decide; [by eexists|]. set_solver.
    - intros [x (p & Hp & <- & _)%meta_of_log]. set_solver. }
  destruct (join_converges all_entries depth_of 1000 concrete_universe log_ab log_ad [entry_a; entry_b] [entry_a; entry_d] no_join_options 2)
    as (l1 & l2 & E1 & E2 & H1 & H2 & _);
    [exact log_ab_state|exact log_ad_state|apply Hc; unfold all_entries; set_solver|apply Hc; unfold all_entries; set_solver|done| |exact depth_enough|].
  - intros e a He. per_entry e He; intros Ha; cbn in Ha; each_of Ha; subst a; left; by eexists.
  - exists l1, l2. split_and!; [exact E1|exact E2| |].
    + intros h. by rewrite H1, H2.
    + apply H1. right. by eexists.
Defined.

Lemma ancestor_cases U e h :
  ancestor U e h -> h = en_hash e \/ exists a e', a ∈ meta_next (en_meta e) /\ e' ∈ U /\ en_hash e' = a /\ ancestor U e' h.
Proof. intros [? | ? a e' ? ? ? ? ?]; [by left|right]. by exists a, e'. Qed.

(** [c] is refused after [a] and [b] have been fetched for it. *)
Lemma join_refused_loses_head_witness :
  exists l' x, Log.join 3 empty_log (JoinIterator [entry_c]) no_join_options = Val l' /\ ~ in_log l' "c"%string /\
    stored_at (table l') "b"%string = Some x /\ se_head x = false.
Proof.
  destruct (join_refused_loses_head all_entries depth_of 1000 concrete_universe empty_log entry_b entry_c no_join_options 2)
    as (l' & x & E & Hc & Hb & _ & Hx);
    [exact empty_log_state|done|unfold all_entries; set_solver|by intros [m Hm]| |right; by eexists|done|by intros [m Hm]| | | | | |exact depth_enough|].
  - intros e a He. per_entry e He; intros Ha; cbn in Ha; each_of Ha; subst a; right; right; by eexists.
  - intros [[=]|(a & e & Ha & He & Hh & Hc)]%ancestor_cases. cbn in Ha. each_of Ha. subst a. revert Hh Hc.
    per_entry e He; [|done|done]. intros _ [[=]|(a & e & Ha & _)]%ancestor_cases. by apply not_elem_of_nil in Ha.
  - reflexivity.
  - reflexivity.
  - reflexivity.
  - reflexivity.
  - exists l', x. split; [exact E|]. split; [exact Hc|]. by split.
Defined.

(** ** Appending, removing and trimming *)

Definition payload : @Data concrete_log_env := "x"%string.


(** Every stored entry is deeper than what it follows. *)
Lemma log_of_acyclic es :
  Forall (fun p => Forall (fun a => (depth_of a < depth_of (en_hash p.1))%nat) (meta_next (en_meta p.1))) es ->
  acyclic depth_of (full (lg_entryIndex (log_of es))).
Proof.
  intros Hes k e a. unfold full. destruct (Map_get _ k) as [q|] eqn:E; [|done]. intros [= <-] Ha.
  apply (store_of es) in E as (m & Hin & <-). rewrite Forall_forall in Hes. specialize (Hes _ Hin). cbn in Hes.
  rewrite Forall_forall in Hes. by apply Hes.
Qed.

Definition log_abd : Log (Q := list string) := log_of [(entry_a, false); (entry_b, true); (entry_d, true)].

Lemma log_ab_ready : state_ready log_ab.
Proof. apply log_of_ready. concrete_log. Qed.

Lemma log_abd_ready : state_ready log_abd.
Proof. apply log_of_ready. concrete_log. Qed.

Lemma b_ranked : ranked depth_of (node_of entry_b).
Proof. intros a Ha. cbn in Ha. each_of Ha. subst a. vm_compute. lia. Qed.

Lemma d_ranked : ranked depth_of (node_of entry_d).
Proof. intros a Ha. cbn in Ha. each_of Ha. subst a. vm_compute. lia. Qed.

(** [b] goes with [a], which only it follows. *)
Lemma remove_recursively_exact_witness :
  exists fuel change l', remove fuel log_ab [node_of entry_b] true = Val (change, l') /\ ~ in_log l' "b"%string /\ ~ in_log l' "a"%string.
Proof.
  destruct (remove_recursively_exact depth_of log_ab [node_of entry_b] log_ab_ready) as (fuel & Hf);
    [done|done| |apply log_of_acyclic; repeat constructor|].
  - intros n ->%list_elem_of_singleton. exact b_ranked.
  - destruct (Hf fuel (le_n fuel)) as (change & l' & E & _ & _ & Hin & _). exists fuel, change, l'. split; [exact E|].
    split; intros [_ Hn]%Hin; apply Hn; exists (node_of entry_b); [exists (node_of entry_b)|exists (node_of entry_a)];
      (split; [left|]); (split; [|done]); [apply visit_self|].
    apply (visit_next _ _ _ "a"%string (node_of entry_a)); [left|left|apply visit_self].
Defined.

(** A cut that follows [b] removes [b] and [a]. *)
Definition cut_b : Entry := MkEntry "c" (MkMeta (MkLamportClock [1] (MkTimestamp 4 0)) "g" ["b"%string] CUT None) 3.
Definition log_cut : Log (Q := list string) := log_of [(entry_a, false); (entry_b, false); (cut_b, true)].

Lemma cut_removes_witness :
  exists fuel l1 ds l', processEntry fuel log_cut cut_b = Val (l1, ds) /\ run_deletes l1 ds = Val l' /\
    in_log l' "c"%string /\ ~ in_log l' "b"%string /\ ~ in_log l' "a"%string.
Proof.
  destruct (cut_removes depth_of log_cut cut_b) as (fuel & Hf); [apply log_of_ready; concrete_log|done|done| |apply log_of_acyclic; repeat constructor|].
  - intros a Ha. cbn in Ha. each_of Ha. subst a. vm_compute. lia.
  - destruct (Hf fuel (le_n fuel)) as (l1 & ds & l' & E & Ed & Hin & Hc). exists fuel, l1, ds, l'.
    split; [exact E|]. split; [exact Ed|]. split_and!.
    + apply Hin. split; [by eexists|exact Hc].
    + intros [_ Hn]%Hin. apply Hn. exists (node_of entry_b), (node_of entry_b). split; [left|]. split; [apply visit_self|done].
    + intros [_ Hn]%Hin. apply Hn. exists (node_of entry_b), (node_of entry_a). split; [left|]. split; [|done].
      apply (visit_next _ _ _ "a"%string (node_of entry_a)); [left|left|apply visit_self].
Defined.

(** [b] and [d] are removed and [a] stays. *)
Lemma remove_keeps_stem_witness :
  exists fuel change l', remove fuel log_abd [node_of entry_b; node_of entry_d] true = Val (change, l') /\
    in_log l' "a"%string /\ ~ in_log l' "b"%string /\ ~ in_log l' "d"%string.
Proof.
  destruct (remove_keeps_stem depth_of log_abd [node_of entry_b; node_of entry_d] "a" "b" "d" (toShallow entry_b true) (toShallow entry_d true)
    log_abd_ready) as (fuel & Hf); try reflexivity; try done; try (by left); try (by eexists); try (apply log_of_acyclic; repeat constructor).
  - intros n Hn. each_of Hn; subst n; [exact b_ranked|exact d_ranked].
  - intros n Hn. by each_of Hn; subst n.
  - destruct (Hf fuel (le_n fuel)) as (change & l' & E & Ha & Hgone). exists fuel, change, l'. split; [exact E|]. split; [exact Ha|].
    apply Hgone.
    + exists (node_of entry_b), (node_of entry_b). split; [left|]. split; [apply visit_self|done].
    + exists (node_of entry_d), (node_of entry_d). split; [right; left|]. split; [apply visit_self|done].
Defined.

Lemma log_of_by_clock es :
  NoDup (map (fun p => en_hash p.1) es) -> Forall (fun p => 0 <= wallTime (lc_timestamp (meta_clock (en_meta p.1))) <= UINT64_MAX) es ->
  by_clock (lg_entryIndex (log_of es)).
Proof.
  intros Hnd Hes. split; [by apply log_of_index|done|]. intros h m (p & Hp & _ & ->)%meta_of_log.
  rewrite Forall_forall in Hes. by apply Hes.
Qed.

Lemma trim_to_length_witness :
  exists deleted l', log_trim log_abd (Some (to_length 1 None)) = Val (deleted, l') /\ ei_length (lg_entryIndex l') = 1.
Proof.
  destruct (trim_to_length log_abd 1 None) as (deleted & l' & E & Hl); [done|apply log_of_by_clock; [concrete_log|repeat constructor; done]| |].
  - intros h h' m m' (p & Hp & <- & ->)%(meta_of_log [(entry_a, false); (entry_b, true); (entry_d, true)])
      (p' & Hp' & <- & ->)%(meta_of_log [(entry_a, false); (entry_b, true); (entry_d, true)]).
    each_of Hp; each_of Hp'; subst p p'; done.
  - exists deleted, l'. split; [exact E|]. by destruct Hl as [-> _].
Defined.

(** Three entries of one time. *)
Definition same_time : Log (Q := list string) :=
  log_of [(MkEntry "a" (meta_at 1 "g" []) 3, true); (MkEntry "b" (meta_at 1 "g" []) 3, true); (MkEntry "c" (meta_at 1 "g" []) 3, true)].

Lemma trim_same_time_stops_witness :
  exists deleted l', log_trim same_time (Some (to_length 1 None)) = Val (deleted, l') /\ ei_length (lg_entryIndex l') = 2.
Proof.
  destruct (trim_same_time_stops same_time 1 None 1) as (deleted & l' & E & Hl & _); [done| | |vm_compute; congruence|lia|done|].
  - apply log_of_by_clock; [concrete_log|repeat constructor; done].
  - intros h m (p & Hp & _ & ->)%meta_of_log. by each_of Hp; subst p.
  - exists deleted, l'. split; [exact E|]. exact Hl.
Defined.
