(* ===== verification/DocumentWitnesses.v ===== *)
(** * A small document store

    Notes with a text as their id and a number, in a log whose hashes spell out
    what they name: the theorems on document stores apply to it. *)

From S2P Require Import StreamMessages Rpc RemoteBlocks Strings.
From Stdlib Require Import ZArith Lia Ascii Sorted.
From stdpp Require Import base list strings sets countable relations.
From S2P Require Import Prelude JsMap Cache Clock JsVal Query IndexInterface SimpleIndex SimpleIndexFacts IndexStore Integers LogSorting EntryIndex EntryIndexFacts Trim Log LogState LogDelete LogReady Effects DocumentIndex Documents DocumentsFacts DocumentStore DocumentSearch DocumentMerge Concrete Witnesses.

Local Open Scope Z_scope.
Local Open Scope effects_scope.

(** ** Hashes that spell out contents *)

#[export] Instance IdKey_countable : Countable IdKey.
Proof.
  refine (inj_countable' (fun k => match k with StringKey s => inl (inl s) | Uint8ArrayKey b => inl (inr b)
                                   | IntegerKey z => inr (inl z) | LargeIntegerKey z => inr (inr z) end)
    (fun c => match c with inl (inl s) => StringKey s | inl (inr b) => Uint8ArrayKey b
              | inr (inl z) => IntegerKey z | inr (inr z) => LargeIntegerKey z end) _).
  intros []; reflexivity.
Defined.

#[export] Instance Operation_countable : Countable Operation.
Proof.
  refine (inj_countable' (fun o => match o with PutWithKeyOperation k d => inl (inl (k, d)) | DeleteByStringKeyOperation k => inl (inr k)
                                   | PutOperation d => inr (inl d) | DeleteOperation k => inr (inr k) end)
    (fun c => match c with inl (inl (k, d)) => PutWithKeyOperation k d | inl (inr k) => DeleteByStringKeyOperation k
              | inr (inl d) => PutOperation d | inr (inr k) => DeleteOperation k end) _).
  intros []; reflexivity.
Defined.

#[export] Instance EntryType_eq_dec : EqDecision EntryType.
Proof. solve_decision. Defined.
#[export] Instance LamportClock_eq_dec : EqDecision (@LamportClock (list Z)).
Proof. solve_decision. Defined.
#[export] Instance Meta_eq_dec : EqDecision Meta.
Proof. solve_decision. Defined.

#[export] Instance Meta_countable : Countable Meta.
Proof.
  refine (inj_countable' (fun m => (lc_id (meta_clock m), wallTime (lc_timestamp (meta_clock m)), logical (lc_timestamp (meta_clock m)), meta_gid m,
                                    meta_next m, match meta_type m with APPEND => true | CUT => false end, meta_data m))
    (fun c => let '(i, w, l, g, n, t, d) := c in MkMeta (MkLamportClock i (MkTimestamp w l)) g n (if t : bool then APPEND else CUT) d) _).
  intros [[i [w l]] g n [] d]; reflexivity.
Defined.

Fixpoint spell (p : positive) : string :=
  match p with xH => ""%string | xO p => String "0"%char (spell p) | xI p => String "1"%char (spell p) end.
Fixpoint unspell (s : string) : positive :=
  match s with
  | "" => xH
  | String c s => if bool_decide (c = "0"%char) then xO (unspell s) else xI (unspell s)
  end%string.

Lemma unspell_spell p : unspell (spell p) = p.
Proof. induction p as [p IH|p IH|]; cbn; by rewrite ?IH. Qed.

Definition spelt_hash (m : Meta) (op : Operation) : string := String "z"%char (spell (encode (m, op))).
Definition spelt (h : string) : option (Meta * Operation) := match h with String _ s => decode (unspell s) | _ => None end.

Lemma spelt_spelt m op : spelt (spelt_hash m op) = Some (m, op).
Proof. unfold spelt, spelt_hash. by rewrite unspell_spell, decode_encode. Qed.

#[export] Instance operations_env : LogEnv := {
  Data := Operation;
  byteLength op := match isPutOperation op with Some d => Z.of_nat (length d) | None => 1 end;
  multihash := spelt_hash;
  multihash_of := en_hash;
  remote_get h := None;
  verifySignatures _ := true;
  option_canAppend h _ _ := Val true;
  wall_time _ := 1000;
  date_now _ := 1;
}.

#[export] Instance operations_env_laws : LogEnvLaws.
Proof.
  split; [|done]. intros m d m' d' E. cbn in *. assert (E' : spelt (spelt_hash m d) = spelt (spelt_hash m' d')) by by rewrite E.
  rewrite !spelt_spelt in E'. by injection E' as -> ->.
Qed.

#[export] Instance operations_data : OperationData := fun op => op.

(** ** Notes *)

Definition Note : Type := string * Z.

#[export] Instance note_document : Document Note := {
  to_js v := JObj [("id", JStr v.1); ("age", JNum v.2)]%string;
  schema_clone v := v;
}.

#[export] Instance note_document_laws : DocumentLaws Note.
Proof. by split. Qed.

#[export] Instance note_in_context_laws : DocumentLaws (WithContext Note).
Proof. split. by intros []. Qed.

#[export] Instance notes : DocumentSetup Note Note := {
  serialize v := [Zpos (encode v)];
  decoder b := match b with [Zpos p] => match decode p with Some v => Val v | None => Exn BorshError end | _ => Exn BorshError end;
  transformer v _ := Val v;
  cast := Some (fun i => i);
  idResolver v := Val (JStr v.1);
  getPayloadValue e := match spelt (en_hash e) with Some (_, op) => Val op | None => Exn BorshError end;
  indexBy := ["id"%string];
  immutable := false;
  compatibility := None;
  optionCanPerform := Some (fun x => match x with CanPut v _ _ => Val (bool_decide (v.1 <> "secret"%string)) | CanDelete _ _ => Val true end);
  self := "me"%string;
  random_id n := String.append "r" (pretty.pretty n);
}.

#[export, refine] Instance notes_laws : DocumentSetupLaws Note Note := { id_field := "id"%string; id_sample := StringKey "" }.
Proof.
  - done.
  - intros v. cbn. by rewrite decode_encode.
  - intros v c. by exists v.
  - intros v c i [= <-]. exists (StringKey v.1). done.
  - by intros f v c i [= <-] [= <-].
Defined.

#[export] Instance notes_log : OperationLog Note Note.
Proof. split. intros e m op E. cbn in *. by rewrite E, spelt_spelt. Qed.

(** ** A store without notes *)

Abbreviation NoteStore := (Documents (HashmapIndex (WithContext Note)) (ItState (WithContext Note)) (Log (Q := list string)) Note Note (list string) (list IdPrimitive)).

Definition empty_store : NoteStore :=
  MkDocuments (log_of []) (MkHashmapIndex [] ["id"%string] None) (clear 10000 None) (clear 10 None) [] 0 [].

Lemma empty_log_ready : log_ready (log_of []).
Proof.
  assert (Hok : index_wf (lg_entryIndex (log_of []))).
  { split; [apply table_of_ok; constructor|done|by apply (new_Cache_inv 1000 None)|apply LastWriteWins_total]. }
  split; try done.
  intros k [x E]. discriminate E.
Qed.

Lemma empty_store_ok : store_ok (fun _ => None) empty_store.
Proof.
  split; try done.
  - apply empty_log_ready.
  - split; [apply NoDup_nil_2|done|by eexists|]. by intros ? ? ?%not_elem_of_nil.
  - by apply (new_Cache_inv 10000 None).
  - by apply (new_Cache_inv 10 None).
  - by intros w ?%not_elem_of_nil.
Qed.

(** ** The theorems on notes *)

Definition note_x : Note := ("x"%string, 3).
Definition no_notes : IdPrimitive -> option Note := fun _ => None.
Definition some_options : @dl_options (Log (Q := list string)) _ := MkLogOptions 0 "g" None.

Lemma empty_clock : exists t, dl_time (log_of []) = Val t.
Proof. eexists. vm_compute. reflexivity. Qed.


(** The first version of a note, and a note that [canPerform] refuses. *)
Definition note_view (v : Note) (next : list string) : EntryView :=
  MkView None (MkMeta (MkLamportClock [1] (MkTimestamp 1000 1)) "g" next APPEND None) 1 (Val (PutOperation (serialize v))).

Lemma edits_accepted_witness : exists fuel s1 s2 s3,
  canAppend fuel 5 [] (note_view note_x []) None empty_store = (Val true, s1) /\
  canAppend fuel 5 [] (note_view note_x ["a"%string]) None empty_store = (Val false, s2) /\
  canAppend fuel 5 [] (note_view ("secret"%string, 3) []) None empty_store = (Val false, s3).
Proof.
  assert (Hdec : forall v : Note, exists v', decoder (serialize v) = Val v') by (intros v; exists v; apply law_decode).
  destruct (edits_accepted 5 no_notes empty_store [] (note_view note_x []) (PutOperation (serialize note_x)) true
    (CanPut note_x (PutOperation (serialize note_x)) (note_view note_x [])) empty_store_ok eq_refl eq_refl (Hdec _)) as [f1 H1'];
    [by vm_compute|by vm_compute|].
  destruct (edits_accepted 5 no_notes empty_store [] (note_view note_x ["a"%string]) (PutOperation (serialize note_x)) true
    (CanPut note_x (PutOperation (serialize note_x)) (note_view note_x ["a"%string])) empty_store_ok eq_refl eq_refl (Hdec _)) as [f2 H2'];
    [by vm_compute|by vm_compute|].
  destruct (edits_accepted 5 no_notes empty_store [] (note_view ("secret"%string, 3) []) (PutOperation (serialize (T := Note) ("secret"%string, 3))) false
    (CanPut ("secret"%string, 3) (PutOperation (serialize (T := Note) ("secret"%string, 3))) (note_view ("secret"%string, 3) [])) empty_store_ok eq_refl eq_refl (Hdec _)) as [f3 H3'];
    [by vm_compute|by vm_compute|].
  set (f := (f1 + f2 + f3)%nat). exists f.
  destruct (wp_returns _ _ _ (H1' f ltac:(unfold f; lia))) as (b1 & s1 & E1 & _ & Hb1).
  destruct (wp_returns _ _ _ (H2' f ltac:(unfold f; lia))) as (b2 & s2 & E2 & _ & Hb2).
  destruct (wp_returns _ _ _ (H3' f ltac:(unfold f; lia))) as (b3 & s3 & E3 & _ & Hb3).
  exists s1, s2, s3. split_and!.
  - rewrite E1. f_equal. f_equal. apply Hb1. split; [|done]. exists note_x, (PStr "x"). split; [apply law_decode|]. split; [done|]. done.
  - rewrite E2. f_equal. f_equal. apply not_true_iff_false. intros [(v & p & _ & _ & Hm) _]%Hb2. cbn in Hm. discriminate Hm.
  - rewrite E3. f_equal. f_equal. apply not_true_iff_false. by intros [_ [=]]%Hb3.
Defined.

(** A note is put; a change that adds and removes its entry takes it away. *)
Lemma first_mention_wins_witness : exists (s s' : NoteStore) e,
  store_ok (mset no_notes (PStr "x") note_x) s /\ dl_full (d_log s) (en_hash e) = Some e /\
  handleChanges 5 (MkChange [(true, e)] [Full e]) None s = (Val tt, s') /\
  store_ok (fun p => if decide (PStr "x" = p) then None else mset no_notes (PStr "x") note_x p) s'.
Proof.
  destruct empty_clock as [t Ht].
  destruct (put_document_ok 5 no_notes empty_store note_x (PutOperation (serialize note_x)) some_options t empty_store_ok eq_refl Ht) as [fuel Hw];
    [vm_compute; discriminate|by intros x|done|].
  destruct (Hw fuel (Nat.le_refl _)) as [fuel' Hw']. destruct (wp_returns _ _ _ (Hw' fuel' (Nat.le_refl _))) as ([e r] & s & _ & p & Ep & Hs & Hput & _ & Hfull & _).
  cbn [fst] in *. injection Ep as <-.
  pose proof (first_mention_wins 5 (mset no_notes (PStr "x") note_x) s (MkChange [(true, e)] [Full e]) None Hs) as Hf.
  destruct (wp_returns _ _ _ (Hf ltac:(split; [by intros x ->%list_elem_of_singleton|]; intros x ->%list_elem_of_singleton; exists e; split; [exact Hfull|by intros x' [= ->]]) Logic.I))
    as ([] & s' & E & Hs' & _).
  exists s, s', e. split; [exact Hs|]. split; [exact Hfull|]. split; [exact E|]. eapply store_ok_ext; [|exact Hs'].
  intros q. cbn [changed_entries added removed map app first_mention snd]. unfold mention. rewrite (about_put _ _ Hput). cbn [mbind option_bind].
  rewrite Hput. cbn. assert (Hin : Set_has (Set_add [] (en_hash e)) (en_hash e) = true) by by apply Set_has_spec, Set_add_elem; left.
  rewrite Hin. destruct (decide (PStr "x" = q)) as [<-|Hne]; [done|]. cbn in Hfull. rewrite Hfull. cbn. unfold mention.
  rewrite (about_put _ _ Hput). cbn. rewrite Hput. cbn. by rewrite decide_False.
Defined.

(** ** A search through two peers *)

(** Peers with the documents they have, and what they have left of requests. *)
Record NotePeers := MkNotePeers {
  np_notes : string -> list (Result Note Note);
  np_left : string -> string -> list (Result Note Note);
}.

Definition np_answer (n : nat) (rest : string -> list (Result Note Note)) (peers : list (option string)) : list (option string * AbstractSearchResult Note Note) :=
  map (fun p => (Some p, ResultsResponse (page n (rest p)))) (omap Datatypes.id peers).
Definition np_advance (id : string) (n : nat) (rest : string -> list (Result Note Note)) (peers : list (option string)) (r : NotePeers) : NotePeers :=
  MkNotePeers (np_notes r) (fun i p => if decide (i = id /\ Some p ∈ peers) then drop n (rest p) else np_left r i p).

#[export] Instance note_peers : SearchPeers NotePeers Note Note := {
  sp_cover r := Some ["me"; "a"; "b"]%string;
  sp_random r := 0%nat;
  sp_request q peers r :=
    match q with
    | SearchRequest q => (Val (np_answer (sr_fetch q) (np_notes r) peers), np_advance (sr_id q) (sr_fetch q) (np_notes r) peers r)
    | CollectNextRequest id n => (Val (np_answer n (np_left r id) peers), np_advance id n (np_left r id) peers r)
    | _ => (Val [], r)
    end;
  sp_send q p r := (Val tt, r);
}.

Lemma omap_some (peers : list string) : omap Datatypes.id (map Some peers) = peers.
Proof. induction peers as [|p peers IH]; [done|]. cbn. by f_equal. Qed.

#[export] Instance note_peers_laws : SearchPeersLaws NotePeers Note Note.
Proof.
  split. intros q p0 ps. generalize (map Some (p0 :: ps)). intros peers r r' rs x. assert (Ha : forall n rest, x ∈ np_answer n rest peers -> x.1 ∈ peers).
  { intros n rest (p & -> & Hp)%list_elem_of_fmap. apply list_elem_of_omap in Hp as (o & Ho & E). cbn in *. by rewrite <- E. }
  destruct q; cbn; intros [= <- <-] Hx; try (by apply elem_of_nil in Hx); by eapply Ha.
Qed.

#[export, refine] Instance note_peers_honest : HonestPeers NotePeers Note Note := {
  hp_all r _ _ p := np_notes r p;
  hp_left := np_left;
}.
Proof.
  - intros q n peers r En Hn. exists peers. eexists. split; [done|]. split; [cbn; unfold np_answer; by rewrite En, omap_some|].
    intros p Hp. cbn. rewrite decide_True; [done|]. split; [done|]. by apply list_elem_of_fmap_2.
  - intros id n p r Hne. eexists. split; [done|]. intros p'. cbn. destruct (decide (p' = p)) as [->|Hp]; [rewrite decide_True; [done|split; [done|left]]|rewrite decide_False; [done|]]. intros [_ E%list_elem_of_singleton]. congruence.
Defined.

Definition by_age : list Sort := [MkSort ["age"%string] ASC].
Definition note_context : ResultContext := toContext (MkContext 0 0 "h" "g" 0).
Definition note_result (v : Note) : Result Note Note := ResultValue note_context v None.
Definition kept_notes (p : string) : list Note :=
  if decide (p = "a"%string) then [("x", 3); ("y", 5)]%string else if decide (p = "b"%string) then [("z", 4); ("y", 5)]%string else [].
Definition found_notes (p : string) : list (Result Note Note) := map note_result (kept_notes p).

Definition note_search : Searching (Ix := HashmapIndex (WithContext Note)) (St := ItState (WithContext Note)) (L := Log (Q := list string))
    (T := Note) (I := Note) (Q := list string) (Qk := list IdPrimitive) (R := NotePeers) :=
  MkSearching empty_store (MkNotePeers found_notes (fun _ _ => []))
    (MkIteration (SearchRequest (MkSearch "q" [] by_age 10)) (MkSearchOptions true true false None false) false [] [] (Some false) false None) [].

Lemma no_document_twice_witness : exists s', run note_search (map note_result [("x", 3); ("z", 4)]%string ++ map note_result [("y", 5)]%string) s' /\
  NoDup (map result_id (map note_result [("x", 3); ("z", 4)]%string ++ map note_result [("y", 5)]%string)).
Proof.
  destruct (next 0 2 note_search) as [r1 s1] eqn:E1. assert (H1' : r1 = Val (map note_result [("x", 3); ("z", 4)]%string)).
  { change r1 with (r1, s1).1. rewrite <- E1. vm_compute. reflexivity. }
  destruct (next 0 2 s1) as [r2 s2] eqn:E2. assert (H2' : r2 = Val (map note_result [("y", 5)]%string)).
  { change r2 with (r2, s2).1. rewrite <- E2. change s1 with (r1, s1).2. rewrite <- E1. vm_compute. reflexivity. }
  exists s2. assert (Hr : run note_search (map note_result [("x", 3); ("z", 4)]%string ++ map note_result [("y", 5)]%string) s2).
  { eapply run_next; [|by rewrite <- H2']. change (map note_result [("x", 3); ("z", 4)]%string) with ([] ++ map note_result [("x", 3); ("z", 4)]%string).
    eapply run_next; [apply run_start|by rewrite <- H1']. }
  split; [exact Hr|]. by eapply (no_document_twice note_search s2).
Defined.

Definition is_note (j : jsval) : Prop := exists v : Note, j = to_js v.

Lemma by_age_order (v w : Note) : sort_order by_age (to_js v) (to_js w) = if v.2 <? w.2 then -1 else if w.2 <? v.2 then 1 else 0.
Proof.
  change (sort_order by_age (to_js v) (to_js w)) with (let c := sortCompare (JNum v.2) (JNum w.2) in if c =? 0 then 0 else c). cbn.
  by destruct (Z.ltb_spec v.2 w.2), (Z.ltb_spec w.2 v.2).
Qed.

Lemma by_age_orders : orders (sort_order by_age) is_note.
Proof.
  split.
  - intros x y [v ->] [w ->]. rewrite !by_age_order. destruct (Z.ltb_spec v.2 w.2), (Z.ltb_spec w.2 v.2); lia.
  - intros x y z [v ->] [w ->] [u ->]. rewrite !by_age_order. destruct (Z.ltb_spec v.2 w.2), (Z.ltb_spec w.2 v.2), (Z.ltb_spec w.2 u.2), (Z.ltb_spec u.2 w.2), (Z.ltb_spec v.2 u.2), (Z.ltb_spec u.2 v.2); lia.
Qed.

Lemma found_cases p x : x ∈ found_notes p -> exists v, x = note_result v /\ (v = ("x", 3) \/ v = ("y", 5) \/ v = ("z", 4))%string.
Proof. intros (v & -> & Hv)%list_elem_of_fmap. exists v. split; [done|]. unfold kept_notes in Hv. repeat case_decide; set_solver. Qed.

Lemma found_usable p y : y ∈ found_notes p -> usable by_age is_note true y /\ (p <> self -> usable by_age is_note false y).
Proof.
  intros (v & -> & _)%found_cases. assert (Hu : forall use, usable by_age is_note use (note_result v)) by (intros use; split_and!; [done|by destruct use|done|by exists v]). by split.
Qed.

Lemma found_distinct p : NoDup (map id_key (found_notes p)).
Proof. unfold found_notes, kept_notes. repeat case_decide; vm_compute; repeat constructor; set_solver. Qed.

Lemma found_agreeing : agreeing by_age found_notes.
Proof.
  split.
  - intros ps x y [p [_ (v & -> & Hv)%found_cases]] [q [_ (w & -> & Hw)%found_cases]].
    destruct Hv as [Hv|[Hv|Hv]], Hw as [Hw|[Hw|Hw]]; subst v w; try done; vm_compute; intros [=].
  - intros ps x y [p [_ (v & -> & Hv)%found_cases]] [q [_ (w & -> & Hw)%found_cases]].
    destruct Hv as [Hv|[Hv|Hv]], Hw as [Hw|[Hw|Hw]]; subst v w; try done; vm_compute; intros H1' H2'; by destruct H1', H2'.
  - intros p. unfold found_notes, kept_notes. repeat case_decide; repeat constructor; by vm_compute.
Qed.

Lemma note_search_fresh : fresh no_notes "q" [] by_age found_notes note_search.
Proof.
  split; try done.
  - by exists 10%nat.
  - by left.
  - intros _. split; [apply empty_store_ok|done|done|by intros r ?%elem_of_nil|]. constructor.
  - intros groups [= <-]. repeat constructor; set_solver.
Qed.


(** A run, event by event. *)
Ltac forward := first [apply Rpc.rpc_run_nil|apply RemoteBlocks.block_run_nil|(eapply Rpc.rpc_run_snoc || eapply RemoteBlocks.block_run_snoc); [forward|by vm_compute]].

(** ** Two nodes with RPC

    They ask for a number with a text; a sealed value names the keys that open it. *)

Module RpcExamples.
Import Rpc.
Local Open Scope string_scope.

#[export] Instance open_sealing : Sealing nat (option (list nat) * (string + nat)) (string + nat) := {
  plain d := (None, d);
  encrypt _ ks d := (Some ks, d);
  decrypt ks x := match x.1 with None => Val x.2 | Some to => if existsb (fun k => bool_decide (k ∈ to)) ks then Val x.2 else Exn "AccessError" end;
}.
#[export] Instance open_sealing_laws : SealingLaws nat (option (list nat) * (string + nat)) (string + nat).
Proof.
  split; [done|]. intros k k' ks ks' d H1 H2. cbn. assert (existsb (fun k => bool_decide (k ∈ ks)) ks' = true) as ->; [|done].
  apply existsb_exists. exists k'. split; [by apply list_elem_of_In|by apply bool_decide_eq_true].
Qed.

#[export] Instance text_codec : Codec string (string + nat) := {
  encode_value := inl;
  decode_value d := match d with inl s => Val s | inr _ => Exn "BorshError" end;
}.
#[export] Instance number_codec : Codec nat (string + nat) := {
  encode_value := inr;
  decode_value d := match d with inr n => Val n | inl _ => Exn "BorshError" end;
}.
#[export] Instance text_codec_laws : CodecLaws string (string + nat).
Proof. by split. Qed.
#[export] Instance number_codec_laws : CodecLaws nat (string + nat).
Proof. by split. Qed.

Definition Node : Type := Rpc (Key := nat) (Sealed := option (list nat) * (string + nat)) (Q := string) (R := nat).

(** How long a text is. *)
Definition measure (q from : string) (timestamp : Z) : outcome (option nat) := Val (Some (String.length q)).
Definition node (keypair : nat) : Node := MkRpc "t" (Some measure) keypair [keypair] true false [] [] [].

Definition to_b : RequestOptions (Key := nat) (R := nat) := MkRequestOptions (Some (SilentDelivery ["b"] 1)) None (Some (1, [2]))%nat None None None.
Definition from_b : Message := MkMessage "m1" "b" 5 None.
Definition answer_b : RPCMessage (Key := nat) (Sealed := option (list nat) * (string + nat)) := ResponseV0 "id" (encrypt 2 [7] (inr 5))%nat.

(** A message for somebody else comes between. *)
Definition asked : list (Event (Key := nat) (Sealed := option (list nat) * (string + nat)) (Q := string) (R := nat)) :=
  ((((([] ++ [Start "hello" to_b "id" 7%nat]) ++ [PublishDone 0 (Val tt)]) ++ [Receive ["t"] from_b (Val (ResponseV0 "id" (encrypt 2 [8] (inr 9))%nat))]) ++
    [HandlerDone 0 0]) ++ [Receive ["t"] from_b (Val answer_b)]) ++ [HandlerDone 0 0].

Fixpoint steps es (s : Node) : option Node := match es with [] => Some s | e :: es => match rpc_step e s with Some s => steps es s | None => None end end.
Definition answered : Node := default (node 1) (steps asked (node 1)).

Lemma asked_run : rpc_run (node 1) asked answered.
Proof. unfold asked. forward. Qed.

Definition asked_request := default (MkRequest "" 0%nat to_b None [] [] Pending [] Publishing) (rpc_requests answered !! 0%nat).

Lemma answers_genuine_witness : exists topics message response d,
  Receive topics message (Val (ResponseV0 "id" response)) ∈ asked /\ "t" ∈ topics /\ me_from message = "b" /\ decrypt [7%nat] response = Val d /\ decode_value d = Val 5%nat.
Proof.
  destruct (answers_genuine (node 1) asked answered 0 asked_request 5%nat "b") as (topics & message & response & d & Hin & Ht & Hf & Hd & Hv & _).
  - by vm_compute.
  - apply asked_run.
  - by vm_compute.
  - vm_compute. left.
  - exists topics, message, response, d. split; [exact Hin|]. split; [exact Ht|]. split; [exact Hf|]. split; [exact Hd|exact Hv].
Defined.

Lemma request_settles_witness : exists s', rpc_step (Return 0) answered = Some s' /\ rpc_resolvers s' = [] /\ ended 0 s'.
Proof.
  destruct (request_settles (node 1) asked answered 0 asked_request) as [Hs _].
  - by vm_compute.
  - apply asked_run.
  - by vm_compute.
  - by vm_compute.
  - destruct Hs as (s' & E & He).
    + left. exists ["b"]. split; [by vm_compute|]. intros p ->%list_elem_of_singleton. vm_compute. left.
    + exists s'. split; [exact E|]. split; [|exact He]. vm_compute in E. by injection E as <-.
Defined.

Lemma to_b_exchange : exchange (node 1) (node 2) "a" "b" to_b measure.
Proof.
  split; try done.
  - intros k ks [= <- <-] _. exists 2%nat. by split; left.
  - intros ex [= <-]. left.
Qed.

Lemma exchange_roundtrip_witness : exists p p' s2 s3 rq,
  rpc_published (onMessage (pu_topics p) (MkMessage "id" "a" 3 None) (Val (pu_message p)) (node 2)) = [p'] /\
  rpc_step (Receive (pu_topics p') from_b (Val (pu_message p'))) (request_start "hello" to_b "id" 7%nat (node 1)).2 = Some s2 /\
  rpc_step (HandlerDone 0 0) s2 = Some s3 /\ rpc_requests s3 !! 0%nat = Some rq /\ rq_results rq = [(5%nat, "b")].
Proof.
  destruct (exchange_roundtrip (node 1) (node 2) "a" "b" to_b measure "hello" 5%nat "id" 7%nat 0 (request_start "hello" to_b "id" 7%nat (node 1)).2
    (MkMessage "id" "a" 3 None) from_b to_b_exchange) as (p & p' & s2 & s3 & rq & _ & _ & E1 & _ & E2 & E3 & E4 & E5); try reflexivity.
  exists p, p', s2, s3, rq. split; [exact E1|]. split; [exact E2|]. split; [exact E3|]. split; [exact E4|exact E5].
Defined.

End RpcExamples.

(** ** Blocks that are texts

    The id of a text is the text after a letter. *)

Module BlockExamples.
Import RemoteBlocks.
Local Open Scope string_scope.

#[export] Instance text_blocks : BlockFormat string string unit unit := {
  cidifyString := Val;
  stringifyCid c := c;
  codecCodes _ := Some tt;
  decode _ _ b := Val ("z" +:+ b);
  raw_cid b := "z" +:+ b;
  defaultHasher := tt;
}.
#[export] Instance text_blocks_laws : BlockFormatLaws string string unit unit.
Proof. by split. Qed.

Definition Blocks : Type := Remote (B := string) (Cid := string) (Hasher := unit) (Qc := list string).
Definition blocks : Blocks := MkRemote [("zmine", "mine")] [] [] [] [] None [] [] true.
Definition remotely : GetOptions (Hasher := unit) := MkGetOptions None (Some (MkRemoteOptions None None true)).

(** Two calls for one block, which share a read. *)
Definition two_calls : list (BlockEvent (B := string) (Hasher := unit)) := (([] ++ [Get 0 "zhi" remotely]) ++ [PublishDone 0 (Val tt)]) ++ [Get 1 "zhi" remotely].
(** A wrong response, and a good one. *)
Definition served : list (BlockEvent (B := string) (Hasher := unit)) :=
  ((((two_calls ++ [Message 2 (BlockResponse "zhi" "ho") (Some "b")]) ++ [Message 3 (BlockResponse "zhi" "hi") (Some "c")]) ++ [Decoded 0 0]) ++ [Decoded 0 0]) ++ [Return 0].

Fixpoint steps es (s : Blocks) : option Blocks := match es with [] => Some s | e :: es => match block_step e s with Some s => steps es s | None => None end end.
Definition waiting : Blocks := default blocks (steps two_calls blocks).
Definition served_blocks : Blocks := default blocks (steps served blocks).

Lemma served_run : block_run blocks served served_blocks.
Proof. unfold served, two_calls. forward. Qed.

Lemma blocks_genuine_witness : exists object hasher, cidifyString "zhi" = Val object /\ decode (codecCodes object) hasher "hi" = Val object.
Proof.
  destruct (blocks_genuine blocks served served_blocks) as [Hc _].
  - split; [|done]. intros k b. cbn. by case_decide; [intros [= <-]|].
  - apply served_run.
  - apply (Hc 0%nat (MkCall "zhi" true (Done (Val (Some "hi")))) "hi"); reflexivity.
Defined.

Lemma waiting_served_witness : exists s1 s2 s3 cl',
  block_step (Message 3 (BlockResponse "zhi" "hi") (Some "c")) waiting = Some s1 /\ block_step (Decoded 0 0) s1 = Some s2 /\
  block_step (Return 1) s2 = Some s3 /\ rb_calls s3 !! 1%nat = Some cl' /\ cl_stage cl' = Done (Val (Some "hi")).
Proof.
  destruct (waiting_served waiting 0 (MkRead "zhi" "zhi" None Waits [] true true) 3 "hi" "hi" (Some "c")) as (s1 & s2 & E1 & E2 & _ & Hc); try reflexivity.
  destruct (Hc 1%nat (MkCall "zhi" true (Awaits 0 false)) false) as (s3 & cl' & E3 & E4 & E5); [reflexivity..|].
  exists s1, s2, s3, cl'. split; [exact E1|]. split; [exact E2|]. split; [exact E3|]. split; [exact E4|exact E5].
Defined.

End BlockExamples.

(** ** A string in a log

    [entry_a], [entry_b] and [entry_d] write, replace and remove letters. *)

Module StringExamples.
Import Strings.

#[export] Instance plain_strings : StringEnv := {
  max_length := 1000;
  toLowerCase := map (fun c => if (65 <=? c) && (c <=? 90) then c + 32 else c);
}.

Fixpoint text (s : string) : Text :=
  match s with
  | EmptyString => []
  | String a s => Z.of_N (N_of_ascii a) :: text s
  end.

Definition edit_of (e : Entry) : outcome StringOperation :=
  if bool_decide (en_hash e = "a"%string) then Val (add_operation (text "hello") (MkRange 0 0))
  else if bool_decide (en_hash e = "b"%string) then Val (add_operation (text "J") (MkRange 0 1))
  else if bool_decide (en_hash e = "d"%string) then Val (del_operation (MkRange 4 1))
  else Exn "BorshError".

Definition index_of (es : list (Entry * bool)) : EntryIndex (Q := list string) := lg_entryIndex (log_of es).

Lemma stored_full es h x : stored_at (table_of es) h = Some x -> exists p, p ∈ es /\ en_hash p.1 = h /\ full (index_of es) h = Some p.1 /\ x = toShallow p.1 p.2.
Proof.
  unfold stored_at, table_of, full, index_of. cbn [hm_index log_of lg_entryIndex ei_store]. induction es as [|[e b] es IH]; [done|]. cbn [map Map_get fst]. case_decide as Hp.
  - injection Hp as Hp. intros [= <-]. exists (e, b). split; [left|]. split; [done|]. rewrite decide_True by done. split; [|done]. cbn. f_equal. subst h. by destruct e.
  - intros (p & Hin & Hh & Hf & ->)%IH. exists p. split; [by right|]. split; [done|]. rewrite decide_False by congruence. done.
Qed.

Lemma dated_of es : NoDup (map (fun p => en_hash p.1) es) ->
  (forall p q, p ∈ es -> q ∈ es -> clock_of p.1 = clock_of q.1 -> en_hash p.1 = en_hash q.1) -> dated (index_of es).
Proof.
  intros Hn Hd. split; [by apply log_of_ready|done| |].
  - intros h x (p & _ & _ & Hf & ->)%stored_full. by exists p.1.
  - intros h1 h2 e1 e2 (x1 & Hx1) (x2 & Hx2) He1 He2 E. apply stored_full in Hx1 as (p & Hp & <- & Hf1 & _). apply stored_full in Hx2 as (q & Hq & <- & Hf2 & _).
    apply Hd; [done|done|]. congruence.
Qed.

Definition one_way : list (Entry * bool) := [(entry_a, false); (entry_b, true); (entry_d, true)].
Definition other_way : list (Entry * bool) := [(entry_d, true); (entry_b, true); (entry_a, false)].

Lemma ways_dated : dated (index_of one_way) /\ dated (index_of other_way) /\ dated (index_of [(entry_a, false); (entry_b, true)]).
Proof.
  split_and!; apply dated_of; try (repeat constructor; set_solver); intros p q Hp Hq; each_of Hp; each_of Hq; subst p q; done.
Qed.

Lemma ways_agree h : (holds_entry (index_of one_way) h <-> holds_entry (index_of other_way) h) /\ full (index_of one_way) h = full (index_of other_way) h.
Proof.
  unfold holds_entry, full, index_of, stored_at. cbn.
  repeat case_decide; try congruence; cbn; (split; [split; first [done|by intros; eexists]|done]).
Qed.


Lemma later_edit_applies_witness :
  ds_string <$> updateIndex edit_of 5 (MkDString (index_of one_way) []) = applyOperation (text "Jello") (del_operation (MkRange 4 1)).
Proof.
  destruct (updateIndex edit_of 0 (MkDString (index_of [(entry_a, false); (entry_b, true)]) [])) as [d1|e|] eqn:E1; [|by vm_compute in E1..].
  assert (Et : ds_string d1 = text "Jello") by (vm_compute in E1; by injection E1 as <-). rewrite <- Et.
  apply (later_edit_applies edit_of 0 5 (MkDString (index_of [(entry_a, false); (entry_b, true)]) []) d1 (MkDString (index_of one_way) []) entry_d).
  - apply ways_dated.
  - apply ways_dated.
  - exact E1.
  - reflexivity.
  - by intros [x Hx].
  - reflexivity.
  - intros h. unfold holds_entry, index_of, stored_at. cbn. repeat case_decide; cbn; split; try (intros; by eexists); try naive_solver; intros [[? ?]|?]; congruence.
  - intros h [x Hx]. unfold full, index_of, stored_at in *. cbn in *. repeat case_decide; simplify_eq; done.
  - intros h x _ Hf. unfold full, index_of in Hf. cbn in Hf. repeat case_decide; try done; injection Hf as <-; by vm_compute.
Defined.

Lemma occurrences_exact_witness : exists l, findAllOccurrences 9 (text "BaNaNa") (text "ana") = Val l /\ l = [1; 3]%nat.
Proof.
  destruct (occurrences_exact (text "BaNaNa") (text "ana") 9) as (l & E & _ & _); [done|by vm_compute; lia|].
  exists l. split; [exact E|]. vm_compute in E. by injection E as <-.
Defined.

(** Entries of one time are replayed in the order in which they came. *)
Definition at_once (e : Entry) : Entry := MkEntry (en_hash e) (meta_at 9 "g" []) 3.
Lemma same_time_diverges :
  ds_string <$> updateIndex edit_of 0 (MkDString (index_of [(at_once entry_a, true); (at_once entry_b, true)]) []) = Val (text "Jello") /\
  ds_string <$> updateIndex edit_of 0 (MkDString (index_of [(at_once entry_b, true); (at_once entry_a, true)]) []) = Val (text "helloJ").
Proof. split; vm_compute; reflexivity. Qed.

(** A match that is not exact finds nothing with upper case in it; an exact one does not
    tell the cases apart. *)
Lemma exact_match_inverted :
  match_ranges 9 (text "Ana") (MkStringMatch (text "Ana") false) = Val [] /\
  match_ranges 9 (text "Ana") (MkStringMatch (text "aNA") true) = Val [MkRange 0 3].
Proof. split; vm_compute; reflexivity. Qed.

End StringExamples.
