(* ===== verification/StreamWitnesses.v ===== *)
(** * Streams and subscriptions on concrete nodes

    Instances of borsh, of signatures and of a network of a few nodes, at which
    the theorems of the streams and of publish and subscribe apply. *)

From Stdlib Require Import ZArith Lia.
From stdpp Require Import base list strings relations countable pretty sets gmap fin_maps.
From S2P Require Import Prelude JsMap Cache JsVal Query IndexInterface SimpleIndex Integers Ranges PushableLanes Routes TrustGraph Program ProgramFacts StreamMessages PeerStreams Effects DirectStream DeliveryFacts StreamReceive DirectSub DirectSubFacts Concrete.

Local Open Scope Z_scope.

(** ** Signatures and bytes *)

#[export] Instance key_eq_dec : EqDecision (PublicSignKey (Hashing := concrete_hashing)).
Proof. change (EqDecision (list Z)). apply _. Defined.

(** A signature is what it signs. *)
#[export] Instance concrete_signing : Signing (H := concrete_hashing) := {
  Keypair := list Z;
  key_of k := k;
  sign_bytes k b := MkSignature (H := concrete_hashing) b k 0;
  verify s b := bool_decide (sig_signature s = b);
}.

#[export] Instance concrete_signing_laws : SigningLaws.
Proof.
  split; cbn; [done| |].
  - intros k b. by apply bool_decide_eq_true.
  - intros s b b' <-%bool_decide_eq_true <-%bool_decide_eq_true. done.
Qed.

#[export] Instance mode_countable : Countable DeliveryMode.
Proof.
  apply (inj_countable'
    (fun m => match m with
      | SilentDelivery to r => inl (inl (to, r)) | AcknowledgeDelivery to r => inl (inr (to, r))
      | SeekDelivery to r => inr (inl (to, r)) | TracedDelivery tr => inr (inr (Some tr)) | AnyWhere => inr (inr None) end)
    (fun x => match x with
      | inl (inl (to, r)) => SilentDelivery to r | inl (inr (to, r)) => AcknowledgeDelivery to r
      | inr (inl (to, r)) => SeekDelivery to r | inr (inr (Some tr)) => TracedDelivery tr | inr (inr None) => AnyWhere end)).
  by intros [].
Defined.

#[export] Instance content_eq_dec : EqDecision Content.
Proof. solve_decision. Defined.
#[export] Instance content_countable : Countable Content.
Proof.
  apply (inj_countable'
    (fun c => match c with
      | DataContent d => inl (inl d) | AckContent id n => inl (inr (id, n)) | HelloContent l => inr (inl l) | GoodbyeContent l => inr (inr l) end)
    (fun x => match x with
      | inl (inl d) => DataContent d | inl (inr (id, n)) => AckContent id n | inr (inl l) => HelloContent l | inr (inr l) => GoodbyeContent l end)).
  by intros [].
Defined.

Definition signature_fields (s : SignatureWithKey (H := concrete_hashing)) : list Z * list Z * Z := (sig_signature s, sig_publicKey s, sig_prehash s).
Definition signature_of (x : list Z * list Z * Z) : SignatureWithKey (H := concrete_hashing) := MkSignature (H := concrete_hashing) x.1.1 x.1.2 x.2.

Definition header_fields (h : MessageHeader (H := concrete_hashing)) :=
  (h_id h, (h_timestamp h, (h_session h, (h_expires h, (h_priority h, (h_origin h, (h_mode h, map signature_fields <$> h_signatures h))))))).
Definition header_of x : MessageHeader (H := concrete_hashing) :=
  let '(i, (t, (s, (e, (p, (o, (m, sg))))))) := x in MkHeader (H := concrete_hashing) i t s e p o m (map signature_of <$> sg).

Lemma header_of_fields h : header_of (header_fields h) = h.
Proof.
  destruct h as [i t s e p o m [l|]]; cbn; [|done]. do 2 f_equal. rewrite map_map. rewrite <- (map_id l) at 2. apply map_ext. by intros [].
Qed.

(** A number as its bits. *)
Fixpoint bits (p : positive) : list Z :=
  match p with xH => [] | xO p => 0 :: bits p | xI p => 1 :: bits p end.
Fixpoint unbits (l : list Z) : positive :=
  match l with [] => xH | b :: l => if b =? 0 then xO (unbits l) else xI (unbits l) end.

Lemma unbits_bits p : unbits (bits p) = p.
Proof. induction p as [p IH|p IH|]; cbn; by rewrite ?IH. Qed.
Lemma bits_u8 p : Forall u8 (bits p).
Proof. induction p; cbn; constructor; try done; unfold u8; lia. Qed.

(** The variants and the id in front, as borsh writes them. *)
#[export] Instance concrete_wire : Wire := {
  serialize h c := variant_of c :: 0 :: take 31 (h_id h) ++ bits (encode (header_fields h, c));
  deserialize v b :=
    match decode (unbits (drop 33 b)) with
    | Some (f, c) => if decide (variant_of c = v) then Val (header_of f, c) else Exn "variant"
    | None => Exn "decode"
    end;
}.

#[export] Instance concrete_wire_laws : WireLaws.
Proof.
  assert (Hlen : forall h c, encodable h c -> length (take 31 (h_id h)) = 31%nat).
  { intros h c [[Hl _] _ _ _ _ _]. rewrite length_take, Hl. reflexivity. }
  split; intros h c Hl%Hlen; cbn -[take drop encode decode].
  - rewrite !skipn_cons, drop_app_length' by done. by rewrite unbits_bits, decode_encode, decide_True, header_of_fields.
  - rewrite !firstn_cons, take_app_length' by done. done.
Qed.

#[export] Instance pubsub_eq_dec : EqDecision PubSubMessage.
Proof. solve_decision. Defined.
#[export] Instance pubsub_countable : Countable PubSubMessage.
Proof.
  apply (inj_countable'
    (fun p => match p with
      | PubSubData t s d => inl (inl (t, s, d)) | Subscribe t r => inl (inr (t, r)) | Unsubscribe t => inr (inl t) | GetSubscribers t => inr (inr t) end)
    (fun x => match x with
      | inl (inl (t, s, d)) => PubSubData t s d | inl (inr (t, r)) => Subscribe t r | inr (inl t) => Unsubscribe t | inr (inr t) => GetSubscribers t end)).
  by intros [].
Defined.

#[export] Instance concrete_pubsub_wire : PubSubWire := {
  pubsub_bytes p := [pubsub_variant p; Zpos (encode p)];
  pubsub_deserialize v b :=
    match b with
    | [_; Zpos q] => match decode q with Some p => if decide (pubsub_variant p = v) then Val p else Exn "variant" | None => Exn "decode" end
    | _ => Exn "length"
    end;
}.

#[export] Instance concrete_pubsub_laws : PubSubWireLaws.
Proof. split; [done|]. intros p. cbn -[decode encode]. by rewrite decode_encode, decide_True. Qed.

(** ** Messages *)

Definition alice : list Z := [1].
Definition bob : list Z := [2].
Definition carol : list Z := [3].
Definition hash_of (k : list Z) : string := hashcode (H := concrete_hashing) k.

Definition plain_header (mode : DeliveryMode) (time : Z) : MessageHeader :=
  new_MessageHeader (MkHeaderOptions None None 5 None mode None) time (repeat 7 32).

(** A message of data in such a header, with the signatures of some keys. *)
Definition data_message (mode : DeliveryMode) (time : Z) (keys : list (list Z)) (data : list Z) : Message :=
  fold_left sign keys (new_DataMessage (plain_header mode time) (Some data)).

Lemma serialize_u8 h c : Forall u8 (h_id h) -> Forall u8 (serialize h c).
Proof.
  intros Hid. cbn. constructor; [destruct c; unfold u8; cbn; lia|]. constructor; [unfold u8; lia|].
  apply Forall_app. split; [by apply Forall_take|apply bits_u8].
Qed.

Lemma id_u8 : Forall u8 (repeat 7 32).
Proof. cbn. repeat constructor; done. Qed.

Lemma signed_encodable m (k : list Z) : encodable (m_header m) (m_content m) ->
  (forall l, h_signatures (m_header m) = Some l -> (length l < 255)%nat) -> encodable (m_header (sign m k)) (m_content (sign m k)).
Proof.
  intros [[E1 E1'] E2 E3 E4 E5 E6] Hl.
  assert (Hsig : Forall u8 (signed_bytes m)) by by apply serialize_u8.
  split; cbn; [done..| |done]. destruct (h_signatures (m_header m)) as [l|].
  - destruct E5 as [_ E5]. specialize (Hl l eq_refl). rewrite length_app. cbn. split; [lia|]. apply Forall_app. split; [done|]. constructor; [|done].
    split; [done|unfold u8; cbn; lia].
  - cbn. split; [lia|]. constructor; [|done]. split; [done|unfold u8; cbn; lia].
Qed.

Lemma plain_encodable (mode : DeliveryMode) (time : Z) (data : list Z) :
  mode_fits mode -> 0 <= time <= 2 ^ 63 -> Forall u8 data ->
  let m := new_DataMessage (plain_header mode time) (Some data) in encodable (m_header m) (m_content m).
Proof.
  intros Hm Ht Hd m. split; cbn.
  - split; [done|apply id_u8].
  - unfold u64, WEEK_MS. lia.
  - by destruct mode; unfold u32; cbn; lia.
  - done.
  - split; [lia|constructor].
  - done.
Qed.

Definition greeting : Message := data_message (SilentDelivery [hash_of bob] 1) 1000 [alice] [104; 105].

Lemma greeting_encodable : encodable (m_header greeting) (m_content greeting).
Proof.
  apply signed_encodable; [|intros l [= <-]; cbn; lia].
  apply plain_encodable; [unfold mode_fits, u8; lia|lia|]. repeat constructor; unfold u8; lia.
Qed.

Lemma wire_roundtrip_witness :
  encodable (m_header greeting) (m_content greeting) /\ Message_from (bytes greeting) = Val greeting.
Proof.
  split; [apply greeting_encodable|]. destruct (wire_roundtrip greeting greeting_encodable) as [[Hp _] Heq].
  destruct (Hp ltac:(by left)) as [m' Em]. rewrite (Heq m' Em) in Em. exact Em.
Defined.

(** The greeting at bob, who has read and relayed it. *)
Definition relayed_greeting : Message := with_mode (sign greeting bob) (SilentDelivery [hash_of carol] 1).

Lemma relayed_verifies_witness :
  rtc relay_step greeting relayed_greeting /\ (message_verify relayed_greeting true 2000).1 = true.
Proof.
  assert (Hr : rtc relay_step greeting relayed_greeting).
  { eapply rtc_l; [apply (relay_transit greeting greeting), wire_roundtrip_witness; apply greeting_encodable|].
    eapply rtc_l; [apply relay_sign|]. eapply rtc_l; [apply relay_mode|apply rtc_refl]. }
  split; [exact Hr|]. apply (relayed_verifies greeting relayed_greeting 2000); [|exact Hr|vm_compute; discriminate|reflexivity].
  vm_compute. reflexivity.
Defined.

Lemma verified_content_witness : m_content relayed_greeting = DataContent (Some [104; 105]) /\ hd_error (publicKeys relayed_greeting) = Some alice.
Proof.
  set (m0 := new_DataMessage (plain_header (SilentDelivery [hash_of bob] 1) 1000) (Some [104; 105])).
  destruct (verified_content (H := concrete_hashing) (H2 := concrete_signing) relayed_greeting m0 alice (default [] (tail <$> h_signatures (m_header relayed_greeting)))) as (_ & Hc & Hk).
  - apply (bare_encodable (m_header greeting)), greeting_encodable.
  - apply (bare_encodable (m_header greeting)), greeting_encodable.
  - reflexivity.
  - vm_compute. reflexivity.
  - split; [exact Hc|exact Hk].
Defined.

Lemma header_expires_witness :
  header_verify (plain_header AnyWhere 1000) 606800 = true /\ header_verify (plain_header AnyWhere 1000) 661000 = false.
Proof.
  destruct (header_expires (H := concrete_hashing) (MkHeaderOptions None None 5 None AnyWhere None) 1000 606800 (repeat 7 32) eq_refl) as [Ht Hf].
  split; [apply Ht; lia|exact Hf].
Defined.

(** ** The streams to a peer *)

Abbreviation MessageQueue := (list (Next (list Z) string)).

(** The first byte is the priority. *)
Definition first_byte (d : list Z) : Z := default 0 (head d).

Definition peer_new : PeerStreams MessageQueue := new_PeerStreams "/lanes" "c1".
Definition peer_open : PeerStreams MessageQueue := (attachOutboundStream peer_new 0).1.

Definition after_write (p : PeerStreams MessageQueue) (d : list Z) : PeerStreams MessageQueue :=
  match waitForWrite p d (first_byte d) with Val (p', _) => p' | _ => p end.

(** Two messages of low priority wait. *)
Definition peer_low : PeerStreams MessageQueue := after_write (after_write peer_open [0; 1]) [0; 2].

Lemma peer_low_reachable : rtc (peer_step first_byte) peer_new peer_low.
Proof.
  eapply rtc_l; [apply (peer_attach first_byte peer_new 0)|].
  eapply rtc_l; [eapply (peer_write first_byte peer_open [0; 1]); [done|vm_compute; reflexivity]|].
  eapply rtc_l; [eapply (peer_write first_byte (after_write peer_open [0; 1]) [0; 2]); [done|vm_compute; reflexivity]|].
  apply rtc_refl.
Qed.

Lemma one_low_ahead_witness :
  exists ahead behind, queued (after_write peer_low [1; 3]) = ahead ++ value_next [1; 3] :: behind /\
    Forall (high first_byte) (tail ahead) /\ queued peer_low = ahead ++ behind.
Proof.
  assert (E : exists out, outboundStream peer_low = Some out /\ onNext out = None) by (vm_compute; eexists; split; reflexivity).
  destruct E as (out & Eo & En).
  assert (Ew : exists eff, waitForWrite peer_low [1; 3] (first_byte [1; 3]) = Val (after_write peer_low [1; 3], eff)) by (vm_compute; eexists; reflexivity).
  destruct Ew as [eff Ew].
  destruct (one_low_ahead first_byte "/lanes" "c1" peer_low (after_write peer_low [1; 3]) out [1; 3] eff peer_low_reachable Eo En ltac:(done) ltac:(cbn; lia) Ew ltac:(reflexivity))
    as (ahead & behind & E1 & E2 & _ & E4).
  exists ahead, behind. split_and!; [exact E1|exact E2|exact E4].
Defined.

Lemma written_fits_reader_witness : value_next [0; 2] ∈ queued peer_low /\ exists d, value_next (E := string) [0; 2] = value_next d /\ data_length d < MAX_DATA_LENGTH_IN.
Proof.
  assert (Hin : value_next [0; 2] ∈ queued peer_low) by (vm_compute; right; left).
  split; [exact Hin|].
  destruct (proj1 (written_fits_reader first_byte "/lanes" "c1" peer_low peer_low_reachable) _ Hin) as (d & Ed & Hle & Hlt).
  exists d. injection Ed as <-. split; [reflexivity|lia].
Defined.

(** ** Deliveries *)

(** Two keys with hashes of one length. *)
Definition two_keys : Hashing := {|
  PublicSignKey := bool;
  key_bytes := fun k => [if k then 1 else 2];
  sha256Base64Sync := fun b => if bool_decide (b = [1]) then "a" else "b";
  serialize_range := fun r => r_id r;
  serialize_segment := fun s => [hs_start1 s];
|}%string.

Definition two_signing : Signing (H := two_keys) := {|
  Keypair := bool : Type;
  key_of := fun k : bool => k : PublicSignKey (Hashing := two_keys);
  sign_bytes := fun k b => MkSignature (H := two_keys) b k 0;
  verify := fun s b => bool_decide (sig_signature s = b);
|}.

Lemma two_hash_length (k k' : PublicSignKey (Hashing := two_keys)) : String.length (hashcode k) = String.length (hashcode k').
Proof. by destruct k, k'. Qed.

Definition two_config : Config (H := two_keys) (H2 := two_signing) :=
  @MkConfig two_keys two_signing true true 1000 1000 1 false None [] (fun n => repeat (Z.of_nat n) 32).

Abbreviation TwoNode := (@Stream two_keys two_signing (list string) MessageQueue unit).

Definition two_node (hash : string) (peer : PublicSignKey (Hashing := two_keys)) (waits : list (string * AckWait)) (ps : list Deferred) : TwoNode :=
  MkStream two_config tt true false 5 [(hash, (peer, peer_open))] [] (new_Routes "a" None) (Cache.clear 100 None) [] waits ps None None 1000 0 [].

Definition two_header (mode : DeliveryMode) : MessageHeader (H := two_keys) :=
  new_MessageHeader (H := two_keys) (MkHeaderOptions None None 5 None mode None) 1000 (repeat 7 32).
Definition two_message : Message (H := two_keys) := new_DataMessage (H := two_keys) (two_header (AcknowledgeDelivery ["b"%string] 1)) (Some [1]).

Definition before_delivery : TwoNode := two_node "b" false [] [].
Definition after_delivery : TwoNode := (createDeliveryPromise (H := two_keys) true two_message false before_delivery).2.


(** Two receivers, of which the first has answered. *)
Definition two_wait : AckWait := MkAckWait 0 ["a"; "b"]%string true false (Some 1) false 1000 [] [].
Definition waiting_node (l : list (PublicSignKey (Hashing := two_keys) * Z)) : TwoNode :=
  two_node "b" false [("id", after_acks (H := two_keys) two_wait l)]%string [Pending].

Lemma timeout_rule_witness :
  promises (ack_timeout "id" (waiting_node [(true, 0)])).2 !! 0%nat = Some Resolved /\
  promises (ack_timeout "id" (waiting_node [(false, 0)])).2 !! 0%nat = Some (RejectedWith DeliveryError).
Proof.
  split.
  - destruct (timeout_rule (H := two_keys) two_hash_length (waiting_node [(true, 0)]) "id" two_wait "a" ["b"%string] [(true, 0)] eq_refl (conj eq_refl eq_refl) eq_refl eq_refl eq_refl)
      as (_ & Hyes & _).
    apply Hyes. exists 0. split_and!; [left|split; [reflexivity|unfold MAX_ROUTE_DISTANCE, MAX_SAFE_INTEGER; lia]|]. exists true. split; [reflexivity|left].
  - destruct (timeout_rule (H := two_keys) two_hash_length (waiting_node [(false, 0)]) "id" two_wait "a" ["b"%string] [(false, 0)] eq_refl (conj eq_refl eq_refl) eq_refl eq_refl eq_refl)
      as (_ & _ & Hno).
    apply Hno. intros (c & _ & _ & k & Hk & Hin). apply list_elem_of_singleton in Hin as [= -> ->]. discriminate.
Defined.

(** ** A network: alice with a stream to bob *)

Abbreviation NetNode X := (@Stream concrete_hashing concrete_signing (list string) MessageQueue X).

Definition net_config : Config (H := concrete_hashing) (H2 := concrete_signing) :=
  @MkConfig concrete_hashing concrete_signing alice true 1000 1000 1 false None [] (fun n => repeat (Z.of_nat n) 32).

Definition alice_node {X} (x : X) : NetNode X :=
  MkStream net_config x true false 5 [(hash_of bob, (bob, peer_open))] [] (new_Routes (hash_of alice) None)
    (Cache.clear 100 None) [] [] [] None None 1000 0 [].

Lemma publish_reaches_witness :
  exists s', flooded (alice_node tt) s' greeting /\ Sent (hash_of bob) greeting ∈ st_log s'.
Proof.
  assert (E : exists d s', publishMessage (me (alice_node tt)) greeting None false (alice_node tt) = (Val d, s')).
  { assert (E1 : exists d, (publishMessage (me (alice_node tt)) greeting None false (alice_node tt)).1 = Val d) by (vm_compute; eexists; reflexivity).
    destruct E1 as [d E1]. exists d, (publishMessage (me (alice_node tt)) greeting None false (alice_node tt)).2. rewrite <- E1. apply surjective_pairing. }
  destruct E as (d & s' & E). exists s'.
  destruct (publish_reaches (alice_node tt) s' greeting [hash_of bob] (hash_of bob) (SilentDelivery [hash_of bob] 1) d) as [(nb & (info & x & Hn & _) & _)|Hf];
    [reflexivity|reflexivity|reflexivity|left|vm_compute; discriminate|reflexivity|exact E|vm_compute in Hn; discriminate|].
  split; [exact Hf|]. apply (Hf (hash_of bob) bob peer_open); [reflexivity|vm_compute; discriminate|].
  intros Hin. vm_compute in Hin. apply list_elem_of_singleton in Hin. discriminate.
Defined.

Definition sub0 : NetNode Sub := alice_node new_Sub.
Definition sub1 : NetNode Sub := (subscribe "t" sub0).2.
Definition bob_message (time : Z) (p : PubSubMessage) : Message := data_message (SeekDelivery None 2) time [bob] (pubsub_bytes p).
Definition bob_bytes : list Z := bytes (bob_message 1000 (Subscribe ["t"%string] false)).
Definition sub2 : NetNode Sub := (processMessage bob (hash_of bob) bob_bytes sub1).2.

Lemma sub2_reachable : rtc node_step sub0 sub2.
Proof.
  exact (rtc_l _ sub0 sub1 sub2 (step_subscribe sub0 "t") (rtc_once sub1 sub2 (step_message sub1 bob (hash_of bob) bob_bytes))).
Qed.

Lemma sub0_initial : initial sub0.
Proof. by split_and!. Qed.

Lemma tables_agree_witness :
  rtc node_step sub0 sub2 /\ Map_get (topicsToPeers (st_ext sub2)) "t" = Some [hash_of bob] /\
  Map_keys <$> Map_get (topics (st_ext sub2)) "t" = Some [hash_of bob].
Proof.
  split; [exact sub2_reachable|]. destruct (tables_agree sub0 sub2 sub0_initial sub2_reachable) as (Ht & _ & _).
  assert (E : Map_get (topicsToPeers (st_ext sub2)) "t" = Some [hash_of bob]) by (vm_compute; reflexivity).
  split; [exact E|]. rewrite <- (Ht "t"%string). exact E.
Defined.

(** Bob connects and leaves: he is reachable, and then he is not. *)
Definition alone : NetNode Sub := set_peers [] sub0.
Definition connected : NetNode Sub := (_onIncomingStream bob (Some "/lanes"%string) "c1" 1%nat alone).2.
Definition left_alone : NetNode Sub := (onPeerDisconnected bob false connected).2.

Lemma unreachable_known_witness :
  is_Some (findNeighbor (st_routes connected) (publicKeyHash connected) (hash_of bob)) /\ is_Some (getPublicKey connected (hash_of bob)) /\
  PeerUnreachable (Some bob) ∈ st_log left_alone /\ ListenerTypeError ∉ st_log left_alone.
Proof.
  assert (Hc : rtc node_step alone connected) by exact (rtc_once alone connected (step_incoming alone bob (Some "/lanes"%string) "c1" 1%nat)).
  assert (Hl : rtc node_step alone left_alone) by exact (rtc_r alone connected left_alone Hc (step_disconnected connected bob false)).
  assert (Hi : initial alone) by (by split_and!).
  assert (Hf : is_Some (findNeighbor (st_routes connected) (publicKeyHash connected) (hash_of bob))) by (vm_compute; eexists; reflexivity).
  split; [exact Hf|]. split; [|split].
  - apply (proj1 (unreachable_known alone connected Hi Hc) _ Hf).
  - vm_compute. repeat first [left|right].
  - apply (unreachable_known alone left_alone Hi Hl).
Defined.

(** ** Subscriptions *)

Definition listening : NetNode Sub := alice_node (listenForSubscribers "t" new_Sub).

Lemma listening_refines : refines empty_register (st_ext listening).
Proof.
  intros h t. split; [reflexivity|]. intros _. unfold subscribed. cbn [listening alice_node st_ext listenForSubscribers initializeTopic].
  change (topics (listenForSubscribers "t" new_Sub)) with [("t"%string, @nil (string * SubscriptionData (H := concrete_hashing)))]. cbn. by case_decide.
Qed.

Definition topic_message (time : Z) (on : bool) : TopicMessage :=
  MkTopicMessage bob bob "t" on false (bob_message time (if on then Subscribe ["t"%string] false else Unsubscribe ["t"%string])).

Definition in_order : list TopicMessage := [topic_message 1000 true; topic_message 1001 false; topic_message 1002 true].
Definition out_of_order : list TopicMessage := [topic_message 1002 true; topic_message 1000 true; topic_message 1001 false].


Lemma order_irrelevant_witness :
  subscribed (st_ext (fold_left deliver in_order listening)) (hash_of bob) "t" = true /\
  subscribed (st_ext (fold_left deliver out_of_order listening)) (hash_of bob) "t" = true.
Proof.
  apply (order_irrelevant in_order out_of_order (topic_message 1002 true) listening listening).
  - symmetry. apply (Permutation.Permutation_cons_append [topic_message 1000 true; topic_message 1001 false] (topic_message 1002 true)).
  - right. right. left.
  - split; [vm_compute; right; right; left|]. intros v Hv _ _ Hne. cbn [map in_order] in Hv.
    apply elem_of_cons in Hv as [->|Hv]; [vm_compute; reflexivity|]. apply elem_of_cons in Hv as [->|Hv]; [vm_compute; reflexivity|].
    apply list_elem_of_singleton in Hv. by destruct Hne.
  - apply listening_refines.
  - apply listening_refines.
  - vm_compute. reflexivity.
  - vm_compute. reflexivity.
Defined.

(** Bob has subscribed to "t" at 1001; a message of 1000 names "u" as well. *)
Definition heard : NetNode Sub := deliver listening (topic_message 1001 true).

Lemma stale_topic_drops_all_witness :
  st_ext (on_subscribe bob bob (bob_message 1000 (Subscribe ["u"; "t"]%string false)) 0 ["u"; "t"]%string false heard).2 = st_ext heard.
Proof.
  refine (proj1 (stale_topic_drops_all (H := concrete_hashing) (H2 := concrete_signing) bob bob (bob_message 1000 (Subscribe ["u"; "t"]%string false))
    (tm_message (topic_message 1001 true)) 0 ["u"; "t"]%string "t"%string false heard _ _ _)).
  - right. left.
  - vm_compute. reflexivity.
  - vm_compute. reflexivity.
Defined.

(** Alice has subscribed twice. *)
Definition twice : NetNode Sub := (subscribe "t" (subscribe "t" (alice_node new_Sub)).2).2.
Definition twice_heard : NetNode Sub := deliver twice (topic_message 1001 true).

Lemma unsubscribe_forgets_witness :
  let old := bob_message 1000 (Unsubscribe ["t"%string]) in
  subscribed (st_ext (on_unsubscribe bob bob old 0 ["t"%string] twice_heard).2) (hash_of bob) "t" = true /\
  subscribed (st_ext (on_unsubscribe bob bob old 0 ["t"%string] (unsubscribe "t" false twice_heard).2).2) (hash_of bob) "t" = false.
Proof.
  destruct (unsubscribe_forgets (H := concrete_hashing) (H2 := concrete_signing) bob bob (bob_message 1000 (Unsubscribe ["t"%string])) "t" 2 twice_heard) as (H1 & _ & _ & H2).
  - vm_compute. reflexivity.
  - vm_compute. reflexivity.
  - lia.
  - vm_compute. left.
  - vm_compute. reflexivity.
  - vm_compute. reflexivity.
  - split; [exact H1|exact H2].
Defined.

Import TrustGraph Program ProgramFacts.

(** * Trust graphs of a few keys

    Keys are lists of numbers; a store hands out one object per relation or a
    new object with every search.  The theorems of TrustGraph applied. *)

(** A key is written with its length; the digest is its input. *)
#[export] Instance concrete_identities : Identities (H := concrete_hashing) := {
  equals := list_eq_dec;
  serialize_key := fun k : list Z => Z.of_nat (length k) :: k;
  sha256Sync := fun b => b;
}.

#[export] Instance text_of_bytes_inj : Inj eq eq text_of_bytes.
Proof. intros a b E. unfold text_of_bytes in E. apply (inj pretty) in E. injection E as E. by apply (inj encode) in E. Qed.

#[export] Instance concrete_identity_laws : IdentityLaws (H := concrete_hashing).
Proof.
  split.
  - intros k k'. unfold hashcode. cbn. intros E. injection E as E. by apply (inj (R := eq) (S := eq) text_of_bytes) in E.
  - cbn. intros a b c d [= Hl E]. apply app_inj_1 in E as [-> E]; [|lia]. by injection E as _ ->.
Qed.

Definition object (n : nat) (r : IdentityRelation (H := concrete_hashing)) : positive :=
  encode (n, rel_id r, rel_from r : list Z, rel_to r : list Z).

Lemma object_inj n m r r' : object n r = object m r' -> n = m /\ r = r'.
Proof. intros E. apply (inj encode) in E. destruct r, r'; cbn in *. by simplify_eq. Qed.

Definition key (z : Z) : PublicSignKey (Hashing := concrete_hashing) := [z].
Definition relation (from to : Z) : IdentityRelation (H := concrete_hashing) := new_IdentityRelation (key to) (key from).
Definition one_object (rs : list IdentityRelation) : GraphStore := MkStore rs (fun _ => object 0).
Definition new_objects (rs : list IdentityRelation) : GraphStore := MkStore rs object.

Lemma one_object_shared rs : shared (one_object rs).
Proof. intros n m r r'. split; [by intros [_ ?]%object_inj|by intros ->]. Qed.

Ltac decided := apply (bool_decide_unpack _); vm_compute; exact I.

Lemma vouches_in rs from to : bool_decide (relation from to ∈ rs) = true -> vouches (one_object rs) (key from) (key to).
Proof. intros Hr%bool_decide_eq_true. by exists (relation from to). Qed.

(** The root 0 trusts 1, which trusts 2. *)
Definition chain : GraphStore := one_object [relation 0 1; relation 1 2].
Definition chain_network : TrustedNetwork (H := concrete_hashing) := MkNetwork (key 0) chain.

Lemma chain_NoDup : NoDup (gs_relations chain).
Proof. apply (NoDup_fmap_1 rel_from). decided. Qed.

Lemma chain_tree : tree getFromByTo chain (key 2).
Proof. apply tree_once; decided. Qed.

Lemma isTrusted_correct_witness : isTrusted 3 chain_network (key 2) None = Val true.
Proof.
  destruct (isTrusted_correct 3 chain_network (key 2) None) as (b & E & Hb);
    [apply one_object_shared|apply chain_NoDup|apply chain_tree|cbn; lia|].
  rewrite E. f_equal. apply Hb. right. apply (rtc_l _ _ (key 1)); [|apply rtc_once]; by apply vouches_in; vm_compute.
Defined.

(** The root 0 trusts 1, 1 trusts 2, 2 trusts 3 and 4, and both trust 5. *)
Definition diamond : GraphStore :=
  one_object [relation 0 1; relation 1 2; relation 2 3; relation 2 4; relation 3 5; relation 4 5].

Lemma isTrusted_diamond_lost_witness :
  isTrusted 3 (MkNetwork (key 0) diamond) (key 5) None = Val false /\ rtc (vouches diamond) (key 0) (key 5).
Proof.
  assert (Hc : rtc (vouches diamond) (key 0) (key 5)).
  { apply (rtc_l _ _ (key 1)); [by apply vouches_in; vm_compute|]. apply (rtc_l _ _ (key 2)); [by apply vouches_in; vm_compute|].
    apply (rtc_l _ _ (key 3)); [by apply vouches_in; vm_compute|]. apply rtc_once. by apply vouches_in; vm_compute. }
  split; [|exact Hc].
  apply (isTrusted_diamond_lost 3 (MkNetwork (key 0) diamond) (key 5) (relation 3 5) (relation 4 5) (relation 2 3) (relation 2 4));
    [apply one_object_shared|lia|reflexivity|reflexivity|reflexivity|reflexivity| | | | |exact Hc].
  - apply (NoDup_fmap_1 rel_id). decided.
  - exists (relation 1 2). decided.
  - intros r Hr. change (found _ _ _) with [relation 1 2] in Hr. by apply list_elem_of_singleton in Hr as ->.
  - decided.
Defined.

(** 1 and 2 vouch for each other, nobody else for them. *)
Definition cycle : GraphStore := new_objects [relation 1 2; relation 2 1].

Lemma isTrusted_cycle_diverges_witness : isTrusted 100 (MkNetwork (key 0) cycle) (key 1) None = NoFuel.
Proof.
  apply (isTrusted_cycle_diverges (fun k => k = (key 1) \/ k = (key 2)) (MkNetwork (key 0) cycle)).
  - intros n m r r'. apply object_inj.
  - apply (NoDup_fmap_1 rel_id). decided.
  - intros k [->| ->].
    + change (found _ _ _) with [relation 2 1]. split; [by eexists; left|]. intros r ->%list_elem_of_singleton. by right.
    + change (found _ _ _) with [relation 1 2]. split; [by eexists; left|]. intros r ->%list_elem_of_singleton. by left.
  - by left.
  - intros [?|?]; discriminate.
Defined.

Lemma network_rooted_witness : rtc (vouches (one_object [relation 0 1])) (key 0) (key 1).
Proof.
  destruct (network_rooted (key 0) (MkNetwork (key 0) (one_object [relation 0 1]))) as (_ & _ & Hr).
  - apply (network_put (key 0) (MkNetwork (key 0) (one_object [])) 1 (key 1) (key 0) [key 0] (fun _ => object 0)
      (MkNetwork (key 0) (one_object [relation 0 1]))); [apply network_new|reflexivity].
  - apply (Hr (relation 0 1)). decided.
Defined.

(** The key 2 takes the place of the relation by which the root trusts 1. *)
Lemma forged_id_replaces_witness :
  exists tn', tn_perform 3 chain_network (PutRelation (MkRelation (rel_id (relation 0 1)) (key 2) (key 9))) [key 2] = Val tn' /\
    relation 0 1 ∉ gs_relations (tn_trustGraph tn').
Proof.
  destruct (forged_id_replaces 3 chain_network (relation 0 1) (key 2) (key 9)) as (tn' & E & _ & Hn); [decided|reflexivity|decided|].
  exists tn'. split; [exact E|exact Hn].
Defined.

(** The key 7 may read, 8 is vouched for by 7. *)
Definition controller : AccessController :=
  MkController [MkAccess [AccessRead] (PublicKeyAccessCondition (key 7))] (one_object [relation 7 8]) chain_network.

Lemma canRead_correct_witness : canRead 3 controller (Some (key 8)) = Val true.
Proof.
  destruct (canRead_correct 3 controller (key 8)) as (b & E & Hb).
  - apply one_object_shared.
  - apply chain_NoDup.
  - apply tree_once; decided.
  - cbn. lia.
  - apply one_object_shared.
  - apply NoDup_singleton.
  - apply tree_once; decided.
  - cbn. lia.
  - by intros a ->%list_elem_of_singleton.
  - rewrite E. f_equal. apply Hb. right. exists (key 7). split.
    + apply rtc_once. by apply vouches_in; vm_compute.
    + eexists. split; [left|]. done.
Defined.

(** * A few programs

    Worlds given by the list of their programs, and the theorems on closing and
    opening applied to them. *)

Local Open Scope nat_scope.
Definition world_of (ps : list Program) (items : list (string * nat)) : World := MkWorld (map_seq 0 ps) items [] [].

Lemma obj_world ps items id : obj (world_of ps items) id = default (new_Program (MkSource "" false []) []) (ps !! id).
Proof. unfold obj, world_of. cbn. by rewrite lookup_map_seq_0. Qed.

Definition opened (cid : string) (parents : list (option nat)) (children : list nat) : Program :=
  MkProgram (MkSource cid true []) [] (Some cid) (Some false) (Some parents) (Some children) None true.

Definition unopened (cid : string) : Program := new_Program (MkSource cid true []) [].

(** 0 holds 1 and 2, 1 holds 2, and 2 holds 3, which was also opened on its own. *)
Definition some_programs : World :=
  world_of [opened "a" [None] [1; 2]; opened "b" [Some 0] [2]; opened "c" [Some 0; Some 1] [3]; opened "d" [Some 2; None] []] [].

Ltac each_program id := destruct id as [|[|[|[|id]]]].

Lemma some_linked : linked some_programs.
Proof. intros c p. unfold parents, children, some_programs. rewrite !obj_world. each_program c; each_program p; reflexivity. Qed.

Lemma some_ranked : ranked (fun id => 3 - id) 3 some_programs.
Proof.
  intros c p. unfold parents, some_programs. rewrite !obj_world. each_program c; cbn; intros Hp;
    repeat (apply elem_of_cons in Hp as [Hp|Hp]; [try discriminate Hp; injection Hp as ->; lia|]); by apply not_elem_of_nil in Hp.
Qed.

Lemma some_open : all_open some_programs.
Proof.
  intros p. unfold closed, children, some_programs. rewrite !obj_world. each_program p; cbn; intros Hp; try discriminate Hp; (split; [by eexists|]);
    intros c Hc; repeat (apply elem_of_cons in Hc as [->|Hc]; [by rewrite obj_world|]); by apply not_elem_of_nil in Hc.
Qed.

(** Closing 0 closes 1 and 2, and 3 stays open. *)
Lemma close_releases_witness :
  exists w', close 7 0 None some_programs = (Val true, w') /\ closed w' 2 = true /\ closed w' 3 = false /\ linked w'.
Proof.
  destruct (close_releases (fun id => 3 - id) 3 some_programs 0 7) as (w' & D & E & Hin & Hc & _ & _ & _ & Hl & _);
    [apply some_linked|apply some_ranked|apply some_open|reflexivity|reflexivity|cbn; lia|].
  assert (H0 : 0 ∈ D) by (apply Hin; by left).
  assert (H1 : 1 ∈ D).
  { apply Hin. right. split; [reflexivity|]. split; [discriminate|]. intros q Hq. change (parents _ _) with [Some 0] in Hq.
    apply list_elem_of_singleton in Hq as ->. by exists 0. }
  assert (H2 : 2 ∈ D).
  { apply Hin. right. split; [reflexivity|]. split; [discriminate|]. intros q Hq. change (parents _ _) with [Some 0; Some 1] in Hq.
    apply elem_of_cons in Hq as [->|Hq]; [by exists 0|]. apply list_elem_of_singleton in Hq as ->. by exists 1. }
  exists w'. split; [exact E|]. split; [|split; [|exact Hl]].
  - rewrite Hc, bool_decide_true by exact H2. apply orb_true_r.
  - rewrite Hc, bool_decide_false; [reflexivity|]. intros [H3|(_ & _ & H3)]%Hin; [discriminate|].
    destruct (H3 None) as (p & Hp & _); [|discriminate]. change (parents _ _) with [Some 2; None]. right. left.
Defined.

Definition no_events : UserEvents := MkUserEvents None None None None.

Lemma open_keeps_links_witness :
  linked (handler_open 9 (inl "x"%string) (MkOpenOptions None (Some 0) no_events None) some_programs).2.
Proof. apply open_keeps_links; [discriminate|apply some_linked]. Defined.

(** 1 is another object for the program that 0 is. *)
Definition two_objects : World := world_of [opened "a" [None] []; unopened "a"; opened "p" [None] []] [("a"%string, 0)].

Lemma reuse_forgets_parent_witness :
  exists w', handler_open 3 (inr 1) (MkOpenOptions (Some reuse) (Some 2) no_events None) two_objects = (Val 0, w') /\
    (drop_program 3 0 (Some 2) w').1 = Exn "Could not find from in parents".
Proof.
  destruct (reuse_forgets_parent 3 2 two_objects 1 0 [None] 2 no_events None) as (w' & E & _ & Hd); try reflexivity; try discriminate.
  - by intros Hq%list_elem_of_singleton.
  - exists w'. split; [exact E|exact Hd].
Defined.

Lemma released_child_blocks_close_witness :
  let w := world_of [opened "p" [None] [1]; opened "c" [Some 0; None] []] [] in
  exists w1 w2, close 2 1 (Some 0) w = (Val false, w1) /\ close 2 0 None w1 = (Exn "Could not find from in parents", w2) /\ closed w2 0 = false.
Proof.
  intros w. destruct (released_child_blocks_close 2 w 0 1 "p") as (w1 & w2 & E1 & E2 & Hc & _); try reflexivity; try discriminate.
  exists w1, w2. split; [exact E1|]. split; [exact E2|exact Hc].
Defined.

Lemma failed_open_stays_open_witness :
  exists w1, handler_open 2 (inr 0) (MkOpenOptions None None no_events (Some "boom"%string)) (world_of [unopened "a"] []) = (Exn "boom"%string, w1) /\
    (handler_open 2 (inr 0) (MkOpenOptions None None no_events None) w1).1 = Val 0.
Proof.
  destruct (failed_open_stays_open 1 (world_of [unopened "a"] []) 0 "a" "boom" no_events) as (w1 & E & _ & Hr); try reflexivity; try discriminate.
  exists w1. split; [exact E|]. apply Hr. discriminate.
Defined.
