(* ===== verification/ReplicationWitnesses.v ===== *)
(** * Replicators, synchronisation and debouncing on concrete inputs

    The theorems of ReplicationSteps, SimpleSyncFacts, ExchangeHeads and
    Debounce applied to the ranges, entries and keys of the other files of
    witnesses. *)

From Stdlib Require Import ZArith Lia SpecFloat QArith_base.
From stdpp Require Import base sets list strings relations countable pretty.
From S2P Require Import Prelude JsMap Cache Clock JsVal Query IndexInterface SimpleIndex SimpleIndexFacts IndexStore Integers LogSorting EntryIndex EntryIndexFacts Trim Log LogState LogDelete ExchangeHeads Ranges RangeFacts JsFloat Factors RangeQueries Rebalance SimpleSync SimpleSyncFacts Effects Replicators ReplicatorsFacts ReplicationSteps Replicate ReplicateFacts Debounce Concrete Witnesses.

Local Open Scope Z_scope.

(** ** Replicators *)

(** The keys of this node and of two others. *)
Definition my_key : @PublicSignKey concrete_hashing := [1].
Definition key_2 : @PublicSignKey concrete_hashing := [2].
Definition key_3 : @PublicSignKey concrete_hashing := [3].

Abbreviation peer := (@hashcode concrete_hashing).

Definition here : Options := MkOptions my_key U32 None 10000.

Definition range_of (id : Z) (key : @PublicSignKey concrete_hashing) (ts s e : Z) : Range := mk_range id (peer key) ts s e NonStrict.

Lemma range_of_ok id key ts s e : 0 <= ts <= MAX_U64 -> 0 <= s <= e -> e <= MAX_U32 -> range_ok U32 (range_of id key ts s e).
Proof. apply mk_range_ok. Qed.

Lemma stored_store_ok l : NoDup (map r_id l) -> Forall (range_ok U32) l -> store_ok here (stored l).
Proof. intros Hn Hl. split; [by apply stored_ok|]. intros r. done. Qed.

Definition my_range : Range := range_of 1 my_key 5 0 10.
Definition range_2 : Range := range_of 2 key_2 5 20 30.
Definition range_3 : Range := range_of 3 key_3 5 40 50.

Definition three : list Range := [my_range; range_2; range_3].

Lemma three_valid : Forall (range_ok U32) three.
Proof. repeat apply Forall_cons_2; [..|apply Forall_nil_2]; by apply range_of_ok. Qed.

Lemma three_ids : NoDup (map r_id three).
Proof. simpl. repeat constructor; set_solver. Qed.

(** Three nodes replicate. *)
Definition replicators : Replicators (I := HashmapIndex Range) :=
  MkReplicators (stored three) [peer my_key; peer key_2; peer key_3] [] 5 (Some true) (Some false) [] [] 0 [] [].

Lemma replicators_ok : rep_ok here replicators.
Proof.
  split; [apply stored_store_ok; [apply three_ids|apply three_valid]|].
  intros r Hr. change (ranges (replicationIndex replicators)) with three in Hr. unfold three in Hr. set_solver.
Qed.

Definition old_enough : Method (Replicators (I := HashmapIndex Range)) Z := ret 10000.

Lemma old_enough_reads : reads old_enough.
Proof. intros s. by exists 10000. Qed.

(** The node announces a range, a peer leaves and its message arrives late. *)
Lemma replicators_tracked_witness :
  exists s : Replicators (I := HashmapIndex Range), rtc (rep_step here) (opened (stored []) 0) s /\
    ranges (replicationIndex s) = [my_range] /\ uniqueReplicators_ s = [peer my_key] /\
    store_ok here (replicationIndex s) /\ forall r, r ∈ ranges (replicationIndex s) -> r_hash r ∈ uniqueReplicators_ s.
Proof.
  pose (ao := MkAddOptions false false None true).
  pose (s0 := opened (stored []) 0 : Replicators (I := HashmapIndex Range)).
  pose (s1 := (addReplicationRange here [my_range] my_key ao old_enough 7 s0).2).
  pose (s2 := (removeReplicator here (AKey key_2) false 8 s1).2). exists s2.
  assert (Hrtc : rtc (rep_step here) s0 s2).
  { eapply rtc_l; [apply (step_add here [my_range] ao old_enough 7 s0)|].
    - intros r ->%list_elem_of_singleton. split; [by apply range_of_ok|done].
    - apply old_enough_reads.
    - eapply rtc_l; [apply (step_removeReplicator here key_2 false 8 s1)|apply rtc_refl]. }
  split; [exact Hrtc|]. split; [by vm_compute|]. split; [by vm_compute|].
  apply (replicators_tracked here (stored []) 0 s2); [|done|exact Hrtc].
  apply stored_store_ok; simpl; constructor.
Defined.

(** Peer 2 moves its range and adds another. *)
Definition announced : list RangeMessage := [MkRangeMessage U32 [2] 6 60 10 NonStrict; MkRangeMessage U32 [4] 6 80 5 NonStrict].
Definition announced_ranges : list Range := [range_of 2 key_2 6 60 70; range_of 4 key_2 6 80 85].

Lemma announced_valid r : r ∈ announced_ranges -> range_ok U32 r.
Proof. intros [->|[->|[]%not_elem_of_nil]%elem_of_cons]%elem_of_cons; by apply range_of_ok. Qed.

Lemma announced_to_ranges : to_ranges announced key_2 = Val announced_ranges.
Proof. by vm_compute. Qed.

Lemma announcement_replaces_witness :
  exists s', onReplicationMessage here idString (AllReplicatingSegmentsMessage announced) key_2 6 false old_enough 9 replicators = (Val tt, s') /\
    (forall x, x ∈ ranges (replicationIndex s') <-> x ∈ announced_ranges \/ x = my_range \/ x = range_3) /\
    uniqueReplicators_ s' = [peer my_key; peer key_2; peer key_3].
Proof.
  destruct (announcement_replaces here idString key_2 announced announced_ranges 6 9 old_enough replicators replicators_ok
    old_enough_reads eq_refl eq_refl) as (s' & E & Hr & Hu).
  - intros p. done.
  - apply announced_to_ranges.
  - apply announced_valid.
  - simpl. repeat constructor; set_solver.
  - intros x. change (ranges (replicationIndex replicators)) with three. unfold three.
    intros [->|[->|[->|[]%not_elem_of_nil]%elem_of_cons]%elem_of_cons]%elem_of_cons; simpl; [|done|]; intros Hx; set_solver.
  - exists s'. split; [exact E|]. split; [|by rewrite Hu]. intros x. rewrite Hr.
    change (ranges (replicationIndex replicators)) with three. unfold three. split.
    + intros [Hx|[Hx Hne]]; [by left|]. right.
      apply elem_of_cons in Hx as [->|Hx]; [by left|]. apply elem_of_cons in Hx as [->|Hx]; [done|]. apply list_elem_of_singleton in Hx as ->. by right.
    + intros [Hx|[->| ->]]; [by left|right..]; (split; [set_solver|done]).
Defined.

(** The dynamic range of the node grows from 0-10 to 0-15. *)
Lemma grown_range_dropped_witness :
  exists s', addReplicationRange here [range_of 1 my_key 5 0 15] my_key (MkAddOptions false false None true) old_enough 9 replicators =
    (Val (Some [MkChange replaced my_range 4; MkChange (added false) (range_of 1 my_key 5 0 15) 5]), s') /\
    agg_flush (pendingChanges s') = Some [MkChange replaced my_range 4].
Proof.
  destruct (grown_range_dropped here my_range (range_of 1 my_key 5 0 15) 9 old_enough replicators replicators_ok old_enough_reads
    eq_refl) as (s' & change & E & -> & Ha).
  - change (ranges (replicationIndex replicators)) with three. left.
  - done.
  - done.
  - by vm_compute.
  - by apply range_of_ok.
  - done.
  - exists s'. split; [exact E|exact Ha].
Defined.

(** ** Participation *)

(** A dynamic range has id 9 and begins at 100; ranges of one mode may be merged. *)
Definition environment : Environment (I := HashmapIndex Range) :=
  MkEnvironment [9] (MkDynamic None None (Some (Num (of_Z 100))) (Some false)) (Some (fun a b => bool_decide (r_mode a = r_mode b))) old_enough idString.

Lemma environment_ok : env_ok environment.
Proof. split. apply old_enough_reads. Qed.

Lemma environment_valid : dynamic_valid here (openOptions environment).
Proof. intros offset E. assert (E0 : getDynamicRangeOffset here (openOptions environment) = Val 100) by (vm_compute; reflexivity). rewrite E0 in E. injection E as <-. by split. Qed.

Definition no_draws (_ : nat) : Draw := MkDraw (of_Z 0) [7].
Definition plain : ReplicateOptions := MkReplicateOptions None false false false None.
Definition fresh_node : Participation (I := HashmapIndex Range) := MkParticipation (opened (stored []) 0) None.

(** The node becomes a dynamic replicator, and resizes its range twice. *)
Definition became : Participation (I := HashmapIndex Range) := (replicate here environment (ROptions OptUndefined) plain no_draws 5 fresh_node).2.
Definition grown : Participation (I := HashmapIndex Range) := (rebalanceParticipation here environment false (of_Z 0) None 6 became).2.

Lemma became_ranges : ranges (replicationIndex (log_ became)) = [MkRange U32 [9] (peer my_key) 5 100 100 100 100 0 NonStrict].
Proof. by vm_compute. Qed.

Definition dynamic_range : Range := MkRange U32 [9] (peer my_key) 5 100 100 100 100 0 NonStrict.
Definition grown_range : Range := MkRange U32 [9] (peer my_key) 5 100 1331439961 100 1331439961 1331439861 NonStrict.

Lemma fresh_own : own_dynamic here environment (log_ fresh_node).
Proof. intros r. change (ranges (replicationIndex (log_ fresh_node))) with (@nil Range). by intros []%not_elem_of_nil. Qed.

Lemma dynamic_proper : proper U32 (peer my_key) dynamic_range.
Proof. split; [split; [done|done|by apply shape_single]|done]. Qed.

Lemma became_own : own_dynamic here environment (log_ became).
Proof. intros r. rewrite became_ranges. intros ->%list_elem_of_singleton _. apply dynamic_proper. Qed.

Lemma became_step : participation_step here environment fresh_node became.
Proof. apply (step_replicate here environment (ROptions OptUndefined) plain no_draws 5 fresh_node); [apply fresh_own|done|done|done]. Qed.

(** It replicates ten coordinates more, and these become part of the stored range. *)
Definition ten_at (offset : Z) : FixedReplicationOptions := MkFixed None (Some false) (FactorAmount (Num (of_Z 10))) false (Some (Num (of_Z offset))).
Definition merging : ReplicateOptions := MkReplicateOptions None false false true None.
Definition draws_from (a : Z) (j : nat) : Draw := MkDraw (of_Z 0) [a + Z.of_nat j].
Definition ten : Participation (I := HashmapIndex Range) := (replicate here environment (ROptions (OptFixed (ten_at 10))) plain (draws_from 20) 5 fresh_node).2.
Definition fifteen : Participation (I := HashmapIndex Range) := (replicate here environment (ROptions (OptFixed (ten_at 15))) merging (draws_from 30) 6 ten).2.
Definition range_ten : Range := MkRange U32 [20] (peer my_key) 5 10 20 10 20 10 NonStrict.
Definition range_fifteen : Range := MkRange U32 [20] (peer my_key) 0 10 25 10 25 15 NonStrict.

Lemma ten_ranges : ranges (replicationIndex (log_ ten)) = [range_ten].
Proof. by vm_compute. Qed.

Lemma ten_valid offset j : 10 <= offset <= 15 -> arg_valid here (ten_at offset) (draws_from j 0).
Proof.
  intros Ho w E. assert (Hw : w = offset) by (assert (offset = 10 \/ offset = 11 \/ offset = 12 \/ offset = 13 \/ offset = 14 \/ offset = 15) as Hc by lia;
    repeat destruct Hc as [->|Hc]; try subst offset; by injection E as <-). subst w. split; [change (ring (resolution_ here)) with MAX_U32; unfold MAX_U32; lia|].
  intros width Ew. by injection Ew as <-.
Qed.

Lemma participants_tracked_witness :
  rtc (participation_step here environment) fresh_node fifteen /\ ranges (replicationIndex (log_ fifteen)) = [range_fifteen] /\
  rtc (participation_step here environment) fresh_node grown /\ ranges (replicationIndex (log_ grown)) = [grown_range] /\
  (forall r, r ∈ ranges (replicationIndex (log_ fifteen)) -> r_hash r ∈ uniqueReplicators_ (log_ fifteen)) /\
  (forall r, r ∈ ranges (replicationIndex (log_ grown)) -> r_hash r ∈ uniqueReplicators_ (log_ grown)).
Proof.
  assert (Hg : rtc (participation_step here environment) fresh_node grown).
  { eapply rtc_l; [apply became_step|]. apply rtc_once.
    apply (step_rebalance here environment false (of_Z 0) None 6 became); [apply became_own|done]. }
  assert (Hs : rtc (participation_step here environment) fresh_node fifteen).
  { eapply rtc_l; [|apply rtc_once].
    - apply (step_replicate here environment (ROptions (OptFixed (ten_at 10))) plain (draws_from 20) 5 fresh_node);
        [apply fresh_own|done|done|by apply ten_valid].
    - apply (step_replicate here environment (ROptions (OptFixed (ten_at 15))) merging (draws_from 30) 6 ten); [|intros _ _|done|by apply ten_valid];
        intros r; rewrite ten_ranges; by intros ->%list_elem_of_singleton. }
  assert (Hi : store_ok here (stored [])) by (apply stored_store_ok; simpl; constructor).
  split; [exact Hs|]. split; [by vm_compute|]. split; [exact Hg|]. split; [by vm_compute|]. split.
  - by apply (participants_tracked here environment (stored []) 0 fifteen environment_ok environment_valid).
  - by apply (participants_tracked here environment (stored []) 0 grown environment_ok environment_valid).
Defined.

Definition controller : PIDReplicationController := new_PID None None None None None.

Lemma became_ok : node_ok here became.
Proof.
  apply (participation_step_ok here environment fresh_node became environment_ok environment_valid became_step).
  apply opened_ok; [apply stored_store_ok; simpl; constructor|done].
Qed.

(** Alone and without limits, the controller asks for a third of the ring. *)
Lemma rebalance_resizes_witness :
  exists s', rebalanceParticipation here environment false (of_Z 0) None 6 became = (Val (Some true), s') /\
    forall x, x ∈ ranges (replicationIndex (log_ s')) <-> x = grown_range.
Proof.
  pose proof (rebalance_resizes here environment controller dynamic_range (0 # 25) (of_Z 0) None 6 became became_ok environment_ok eq_refl) as K.
  assert (H1 : (isReplicating_ (log_ became), isAdaptiveReplicating (log_ became)) = (Some true, Some true)) by (vm_compute; reflexivity).
  assert (H2 : replicationController became = Some controller) by (vm_compute; reflexivity).
  assert (H3 : dynamic_range ∈ ranges (replicationIndex (log_ became))) by (rewrite became_ranges; left).
  assert (H4 : appromixateCoverage (replicationIndex (log_ became)) U32 25 (createNumbers U32) false = Val (0 # 25)) by (vm_compute; reflexivity).
  specialize (K H1 H2 H3 eq_refl dynamic_proper H4 1331439861 grown_range).
  cbv zeta in K. match type of K with context [Factors.step controller ?m] => destruct (Factors.step controller m) as [factor c'] eqn:Es end.
  assert (H5 : denormalize U32 factor = Val 1331439861).
  { apply (f_equal fst) in Es. cbn [fst] in Es. rewrite <- Es, ?became_ranges. vm_compute. reflexivity. }
  assert (H6 : resized here dynamic_range 1331439861 = Val grown_range) by (vm_compute; reflexivity).
  destruct (K H5 H6) as (s' & E & _ & _ & Hin & _).
  assert (H7 : lt_n (decimal 1 4) (Math_abs (widthNormalized dynamic_range - factor) / widthNormalized dynamic_range)%n = true).
  { apply (f_equal fst) in Es. cbn [fst] in Es. rewrite <- Es, ?became_ranges. vm_compute. reflexivity. }
  rewrite H7 in E, Hin. exists s'. split; [exact E|]. intros x. rewrite Hin, became_ranges. split.
  - intros [->|[->%list_elem_of_singleton Hx]]; [vm_compute; reflexivity|by destruct Hx].
  - intros ->. left. vm_compute. reflexivity.
Defined.

(** A quarter of the ring, at the middle. *)
Definition quarter : FixedReplicationOptions := MkFixed None None (FactorAmount (Num (decimal 25 2))) false None.
Definition half_way (_ : nat) : Draw := MkDraw (decimal 5 1) [7].
Definition quarter_range : Range := MkRange U32 [7] (peer my_key) 9 2147483648 3221225472 2147483648 3221225472 1073741824 NonStrict.

Lemma replicate_factor_replaces_witness :
  exists s', _replicate here environment (OptFixed quarter) plain half_way 9 (MkParticipation replicators None) = (Val ([quarter_range], None), s') /\
    (forall x, x ∈ ranges (replicationIndex (log_ s')) <-> x = quarter_range \/ x = range_2 \/ x = range_3) /\
    outbox (log_ s') = [(AllReplicatingSegmentsMessage [MkRangeMessage U32 [7] 9 2147483648 1073741824 NonStrict], Everyone)].
Proof.
  destruct (replicate_factor_replaces here environment quarter plain half_way 9 quarter_range (MkParticipation replicators None)
    replicators_ok environment_ok) as (s' & E & Hin & _ & Ho & _).
  - done.
  - by split.
  - reflexivity.
  - reflexivity.
  - reflexivity.
  - vm_compute. reflexivity.
  - intros offset E. assert (E0 : range_offset here quarter true (half_way 0%nat) = Val 2147483648) by (vm_compute; reflexivity).
    assert (E1 : offset = 2147483648) by (change (range_offset here quarter true (half_way 0%nat) = Val offset) in E; congruence).
    subst offset. split; [by split|]. intros width Ew.
    assert (E2 : range_width here quarter true 2147483648 = Val 1073741824) by (vm_compute; reflexivity).
    assert (E3 : width = 1073741824) by (change (range_width here quarter true 2147483648 = Val width) in Ew; congruence). subst width. done.
  - vm_compute. reflexivity.
  - intros x. change (ranges (replicationIndex (log_ (MkParticipation replicators None)))) with three. unfold three.
    intros [->|[->|[->|[]%not_elem_of_nil]%elem_of_cons]%elem_of_cons]%elem_of_cons; done.
  - exists s'. split; [exact E|]. split; [|exact Ho]. intros x. rewrite Hin.
    change (ranges (replicationIndex (log_ (MkParticipation replicators None)))) with three. unfold three. split.
    + intros [->|[Hx Hne]]; [by left|right]. apply elem_of_cons in Hx as [->|Hx]; [done|]. apply elem_of_cons in Hx as [->|Hx]; [by left|].
      apply list_elem_of_singleton in Hx as ->. by right.
    + intros [->|[->| ->]]; [by left|right; split; [right; left|done]|right; split; [right; right; left|done]].
Defined.

(** ** Synchronisation *)

Lemma concrete_hash_inj (a b : @PublicSignKey concrete_hashing) : peer a = peer b -> a = b.
Proof.
  unfold hashcode. cbn [sha256Base64Sync key_bytes concrete_hashing]. intros E. cbn [String.append] in E. injection E as E.
  exact (toBase64_inj a b E).
Qed.

(** The node has nothing yet; two peers announce the entry "x". *)
Definition nothing : Holdings := MkHoldings (fun _ => 0%nat) (fun _ => false).
Definition key_x : SyncableKey := HashKey "x".

Abbreviation idle := (@new_SimpleSyncronizer concrete_hashing).
Definition syncing : SimpleSyncronizer :=
  (queueSync (queueSync (open idle nothing 0).1 nothing [key_x] key_2 false 1).1 nothing [key_x] key_3 false 2).1.

Lemma syncing_reached : rtc sync_step idle syncing.
Proof.
  eapply rtc_l; [apply (step_open idle nothing 0)|]. eapply rtc_l; [apply (step_queueSync _ nothing [key_x] key_2 false 1)|].
  eapply rtc_l; [apply (step_queueSync _ nothing [key_x] key_3 false 2)|apply rtc_refl].
Qed.

Lemma sync_tables_agree_witness :
  Map_get (syncInFlightQueue syncing) key_x = Some [key_3] /\
  exists set, Map_get (syncInFlightQueueInverted syncing) (peer key_3) = Some set /\ key_x ∈ set.
Proof.
  split; [by vm_compute|]. destruct (sync_tables_agree syncing concrete_hash_inj syncing_reached) as [Hq _].
  destruct (Hq key_x [key_3]) as [_ Hp]; [by vm_compute|]. apply (Hp key_3). left.
Defined.

(** The first announcer was asked at once; the second is asked in round 0. *)
Lemma candidates_asked_witness :
  exists sends, run_rounds nothing [([], 100)] syncing !! 0%nat = Some sends /\ asks sends key_x (peer key_3).
Proof.
  apply (candidates_asked syncing nothing [([], 100)] key_x [key_3] 0 key_3 concrete_hash_inj syncing_reached);
    [by vm_compute|by vm_compute|by vm_compute|done|simpl; lia].
Defined.

(** ** Exchanging heads *)

(** An entry of the gid "h" that follows one of "g". *)
Definition entry_e : Entry := MkEntry "e" (meta_at 2 "h" ["a"%string]) 3.
Definition log_ae : Log (Q := list string) := log_of [(entry_a, false); (entry_e, true)].

Lemma log_ae_ready : state_ready log_ae.
Proof. apply log_of_ready. simpl. repeat constructor; set_solver. Qed.

Lemma log_ae_backed : backed log_ae.
Proof.
  intros h x (p & Hp & <- & ->)%stored_of.
  apply elem_of_cons in Hp as [->|[->|[]%not_elem_of_nil]%elem_of_cons]; by eexists.
Qed.

Lemma unique_gids_correct_witness :
  exists es l', allEntriesWithUniqueGids 4 log_ae entry_e = Val (es, l') /\ map en_hash es = ["e"; "a"]%string /\
    NoDup (map (fun e => meta_gid (en_meta e)) es).
Proof.
  destruct (unique_gids_correct log_ae entry_e 4 log_ae_ready log_ae_backed) as (es & l' & E & _ & _ & Hnd & _); [simpl; lia|].
  exists es, l'. split; [exact E|]. split; [|exact Hnd]. vm_compute in E. by injection E as <- _.
Defined.

(** Entries of 60 kB: the second of them closes the first message. *)
Lemma exchange_complete_witness :
  exists l', createExchangeHeadsMessages (fun _ => 60000) 4 log_ae [HeadEntry entry_e; HeadHash "missing"; HeadHash "a"; HeadEntry entry_a] =
    Val ([MkExchangeHeads [MkEntryWithRefs entry_e ["g"%string]; MkEntryWithRefs entry_a []]; MkExchangeHeads [MkEntryWithRefs entry_a []]], l') /\
    recached log_ae l'.
Proof.
  destruct (exchange_complete (fun _ => 60000) log_ae [HeadEntry entry_e; HeadHash "missing"; HeadHash "a"; HeadEntry entry_a] 4
    log_ae_ready log_ae_backed) as (closed_ & last_ & l' & E & Hl & _); [simpl; lia|].
  exists l'. split; [|exact Hl]. rewrite E. remember (map MkExchangeHeads (closed_ ++ last_)) as ms eqn:Ems. clear Ems.
  vm_compute in E. by injection E as <- _.
Defined.

(** ** Debouncing *)

Lemma debounced_calls_reached : rtc debounce_step (new_Debounce, []) (debounced 3 25 10 (finish 21 10 (invoke (debounced 2 10 10 (debounced 1 9 10 new_Debounce)))), [1; 2; 3]).
Proof.
  eapply rtc_l; [apply (step_call 1 9 10)|]. eapply rtc_l; [apply (step_call 2 10 10)|].
  eapply rtc_l; [by eapply step_timer|]. eapply rtc_l; [by apply (step_finish 21 10)|].
  eapply rtc_l; [apply (step_call 3 25 10)|apply rtc_refl].
Qed.

(** Two calls before the timer make one run, with the second's argument. *)
Lemma debounce_keeps_last_witness :
  let d := debounced 3 25 10 (finish 21 10 (invoke (debounced 2 10 10 (debounced 1 9 10 new_Debounce)))) in
  timeout d = Armed 35 /\ started d = [2] /\ started (invoke d) = [2; 3].
Proof.
  intros d. destruct (debounce_keeps_last d [1; 2; 3] debounced_calls_reached) as (_ & _ & _ & Hf).
  split; [done|]. split; [done|]. apply (Hf 35); [done|done].
Defined.

(** The last leaders of a key win, and a key that is taken out is not sent. *)
#[local] Instance by_key : Accumulator string (string * Z) (list (string * Z)) := map_Accumulator None.

Definition collecting : Accumulating (V := list (string * Z)) :=
  add ("a"%string, 2) 12 10 (delete "b"%string (add ("b"%string, 5) 11 10 (add ("a"%string, 1) 10 10 new_Accumulating))).

Definition collected : list (Op (K := string) (T := string * Z)) :=
  [Add ("a"%string, 1); Add ("b"%string, 5); Delete "b"%string; Add ("a"%string, 2)].

Lemma accumulator_correct_witness : sent (fire collecting) = [[("a"%string, 2)]].
Proof.
  destruct (accumulator_correct collecting [] collected) as (_ & _ & Hp).
  - eapply rtc_l; [apply (acc_step_add ("a"%string, 1) 10 10)|]. eapply rtc_l; [apply (acc_step_add ("b"%string, 5) 11 10)|].
    eapply rtc_l; [apply (acc_step_delete "b"%string)|]. eapply rtc_l; [apply (acc_step_add ("a"%string, 2) 12 10)|apply rtc_refl].
  - destruct (Hp ("a"%string, 1)) as (_ & E & _); [left|]. rewrite E. by vm_compute.
Defined.
