(* ===== verification/SharedLogWitnesses.v ===== *)
(** * A shared log with one entry

    A node that replicates a part of the ring, a peer that replicates another,
    and an entry that lies in the peer's part: the theorems on leaders,
    rebalancing and pruning applied to it, from the request to the removal. *)

From Stdlib Require Import ZArith Lia.
From stdpp Require Import base sets list strings relations.
From S2P Require Import Prelude JsMap Cache Clock JsVal Query IndexInterface SimpleIndex SimpleIndexFacts IndexStore Integers LogSorting EntryIndex EntryIndexFacts Trim Log LogState LogDelete ExchangeHeads Ranges RangeFacts RangeQueries RangeIterators RangeSampling Rebalance RebalanceFacts SimpleSync Effects Replicators ReplicatorsFacts ReplicationSteps Replication SharedLog Pruning SharedLogMessages SharedLogFacts PruningFacts RebalanceLog Concrete Witnesses ReplicationWitnesses.

Local Open Scope Z_scope.

(** borsh's bytes of a [u32] behind the variant. *)
Definition u32_bytes (v : Z) : list Z := [v mod 256; v / 256 mod 256; v / 65536 mod 256; v / 16777216 mod 256].

Definition is_byte (b : Z) : bool := (0 <=? b) && (b <? 256).

#[export] Instance concrete_replicas : ReplicasCodec := {
  serialize m := match m with
                 | AbsoluteReplicas v => if (0 <=? v) && (v <=? UINT32_MAX) then Val (0 :: u32_bytes v) else Exn BorshError
                 | AbstractMinReplicas => Exn BorshError
                 end;
  deserialize b := match b with
                   | [0; a; b; c; d] => if forallb is_byte [a; b; c; d] then Val (AbsoluteReplicas (a + 256 * b + 65536 * c + 16777216 * d))
                                        else Exn BorshError
                   | _ => Exn BorshError
                   end;
}.

#[export] Instance concrete_replicas_laws : ReplicasCodecLaws.
Proof.
  split.
  - intros v Hv. exists (0 :: u32_bytes v). unfold UINT32_MAX in Hv. cbn [serialize deserialize concrete_replicas]. split.
    + unfold UINT32_MAX. by rewrite !(proj2 (Z.leb_le _ _)) by lia.
    + unfold u32_bytes. unfold forallb, is_byte.
      rewrite !(proj2 (Z.leb_le _ _)), !(proj2 (Z.ltb_lt _ _)) by (apply Z.mod_pos_bound; lia). cbn [andb]. do 2 f_equal.
      pose proof (Z.div_mod v 256 ltac:(lia)). pose proof (Z.div_mod (v / 256) 256 ltac:(lia)). pose proof (Z.div_mod (v / 65536) 256 ltac:(lia)).
      rewrite (Z.mod_small (v / 16777216)) by (split; [apply Z.div_pos; lia|apply Z.div_lt_upper_bound; lia]).
      replace (v / 65536) with (v / 256 / 256) in * by (rewrite Z.div_div by lia; reflexivity).
      replace (v / 16777216) with (v / 256 / 256 / 256) by (rewrite !Z.div_div by lia; reflexivity). lia.
  - intros b. cbn [deserialize concrete_replicas].
    destruct b as [|[|z|z] [|b0 [|b1 [|b2 [|b3 [|b4 b]]]]]]; try done.
    destruct (forallb is_byte [b0; b1; b2; b3]) eqn:Eb; [|done]. eexists. split; [done|].
    cbn [forallb] in Eb. unfold is_byte in Eb. unfold UINT32_MAX. lia.
Qed.

#[local] Instance entry_document : Document EntryReplicated := { to_js := entry_js; schema_clone e := e }.
#[local] Instance entry_document_laws : DocumentLaws EntryReplicated.
Proof. by split. Qed.
#[local] Instance entry_document_js : EntryDocument.
Proof. by split. Qed.
#[local] Instance history : History (nat * Cache string unit (list string)) := CacheHistory ticking.
#[local] Instance history_laws : HistoryLaws (nat * Cache string unit (list string)) := CacheHistory_laws ticking.

Abbreviation Node := (SharedLog (I := HashmapIndex Range) (J := HashmapIndex EntryReplicated) (Q := list string)
  (Sy := SimpleSyncronizer) (Hi := nat * Cache string unit (list string))).

(** One replica of every entry, at coordinate 25. *)
Definition one_replica : list Z := [0; 1; 0; 0; 0].

Definition the_entry : Entry :=
  MkEntry "a" (MkMeta (MkLamportClock [1] (MkTimestamp 1 0)) "g" [] APPEND (Some one_replica)) 3.
Definition the_ref : EntryRef := ref_of_entry the_entry.

Definition shared_at (c : Z) : SharedOptions :=
  MkSharedOptions (MkReplicationLimits (AbsoluteReplicas 1) None) (fun _ => Val c) None 9000 5000 5000.
Definition shared : SharedOptions := shared_at 25.

Definition no_round (t : Z) (n : nat) : Z := t.
Definition two_subscribers (now : Z) : nat := 2.

Definition indexed (assigned : bool) : EntryReplicated :=
  MkEntryReplicated U32 "a" "g" [25] 1 assigned (en_meta the_entry).

Definition coordinates_of (es : list EntryReplicated) : HashmapIndex EntryReplicated :=
  MkHashmapIndex (map (fun e => (PStr (er_hash e), MkIndexedResult (StringKey (er_hash e)) e)) es) ["hash"%string] None.

Lemma coordinates_of_ok es : NoDup (map er_hash es) -> coordinates_ok (coordinates_of es).
Proof.
  intros Hnd. split; [|by intros e]. split; simpl.
  - unfold Map_wf, Map_keys. cbn [coordinates_of hm_index].
    assert (E : map fst (map (fun e => (PStr (er_hash e), MkIndexedResult (StringKey (er_hash e)) e)) es) = map PStr (map er_hash es))
      by by rewrite !map_map.
    change (NoDup (map fst (map (fun e => (PStr (er_hash e), MkIndexedResult (StringKey (er_hash e)) e)) es))). rewrite E.
    assert (Inj eq eq PStr) by by intros ? ? [=]. by apply (NoDup_fmap_2 PStr).
  - done.
  - by eexists.
  - intros p r (e & [= -> ->] & _)%list_elem_of_fmap. split; [done|]. by eexists.
Qed.

(** The node has the entry; the ranges are those of the three replicators. *)
Definition node_with (rs : list Range) : Node :=
  MkSharedLog (MkReplicators (stored rs) (map r_hash rs) [] 5 (Some true) (Some false) [] [] 0 [] [])
    (coordinates_of [indexed false]) [] [] [] [] [] [] [] [] [] [] [] [] (log_of [(the_entry, true)])
    new_SimpleSyncronizer no_history false 0 [].

Definition node : Node := node_with three.

Lemma node_ranges : ranges_ok U32 (replicationIndex (sl_rep node)).
Proof. apply stored_ok; [apply three_ids|apply three_valid]. Qed.

Lemma node_coordinates : coordinates_ok (sl_coordinates node).
Proof. apply coordinates_of_ok. simpl. apply NoDup_singleton. Qed.

(** ** Leaders *)

(** An entry in the node's own part. *)
Lemma findLeaders_stores_witness :
  exists (m : list (string * bool)) (s' : Node),
    findLeaders here no_round two_subscribers [5] the_ref None true PersistUndefined 20000 node = (Val m, s') /\
    m = [(peer my_key, true)] /\ documents (sl_coordinates s') = [new_entry here [5] the_ref false] /\
    coordinateToHash s' = [(5, "a"%string)].
Proof.
  destruct (findLeaders_stores here (shared_at 5) no_round two_subscribers the_ref 1 5 None true 20000 node node_ranges node_coordinates
    eq_refl eq_refl) as (_ & m & s' & E & _ & Hs).
  exists m, s'. split; [exact E|].
  assert (Em : m = [(peer my_key, true)]) by (vm_compute in E; by injection E as <- _).
  split; [exact Em|]. subst m. destruct Hs as [_ Hc]. split; [|exact Hc]. vm_compute in E. by injection E as <-.
Defined.

Definition reopened_node : Node :=
  set_rep (opened (stored three) 0) node.

Lemma reopened_without_leaders_witness :
  _findLeaders here no_round two_subscribers [35; 5] None 20000 reopened_node = (Val [], reopened_node) /\
  (exists r, r ∈ ranges (replicationIndex (sl_rep reopened_node)) /\ contains r 5 = true).
Proof.
  split.
  - apply (reopened_without_leaders here no_round two_subscribers 35 [5] 20000 0 (stored three) reopened_node).
    + apply stored_ok; [apply three_ids|apply three_valid].
    + done.
    + split; by vm_compute.
    + change (ranges (stored three)) with three. unfold three. intros r Hr.
      repeat (apply elem_of_cons in Hr as [->|Hr]; [by vm_compute|]). by apply elem_of_nil in Hr.
  - exists my_range. split; [change (my_range ∈ three); left|by vm_compute].
Defined.


(** ** Pruning *)

Definition to_prune : list (string * (EntryRef * option (list (string * bool)))) :=
  [("a"%string, (the_ref, Some [(peer key_2, true)]))].

Lemma to_prune_prunable : Forall prunable (Map_values to_prune).
Proof.
  repeat constructor. exists [(peer key_2, true)], (AbsoluteReplicas 1). split; [done|]. split; [|done].
  unfold Map_wf. simpl. apply NoDup_singleton.
Qed.

Lemma prune_asks_leaders_witness :
  exists (requests : list (string * list string)) (s' : Node), prune here shared 10 to_prune None false 20000 node = (Val tt, s') /\
    sl_outbox s' = map request_to requests /\ (peer key_2 ∈ map fst requests) /\ removals s' = [].
Proof.
  destruct (prune_asks_leaders here shared 10 to_prune None 20000 node to_prune_prunable eq_refl)
    as (requests & s' & E & Eo & _ & _ & Hk & _ & Er & _).
  exists requests, s'. split; [exact E|]. split; [exact Eo|]. split; [by apply Hk|exact Er].
Defined.

Lemma prune_without_leaders_witness :
  exists s1 s2 : Node, prune_later "a" the_ref None node = (Val tt, s1) /\
    flush_prune here shared 10 20000 s1 = (Exn "TypeError"%string, s2) /\ pruneDebounced s2 = [] /\ sl_outbox s2 = [].
Proof. apply (prune_without_leaders here shared 10 the_ref 20000 node); [done|done|constructor]. Defined.

Definition pending_a : PendingDelete := MkPendingDelete 0 the_ref (AbsoluteReplicas 1) 30000.

Lemma given_up_still_removes_witness :
  let s1 := reject pending_a "Timeout for checked pruning" node in
  let s2 := (count_answer shared pending_a (peer key_2) 1 20000 s1).2 in
  Map_get (settled s2) 0%nat = Some (Exn "Timeout for checked pruning"%string) /\ length (removals s2) = 1%nat.
Proof.
  destruct (given_up_still_removes here shared pending_a (peer key_2) "Timeout for checked pruning" 1 20000 node) as (_ & Es & Er);
    [lia|done|].
  split; [exact Es|]. rewrite Er. done.
Defined.

(** The peer is asked, answers, is found to lead alone, and the removal waits
    for its timer. *)
Definition asked_node : Node := (prune here shared 10 to_prune None false 20000 node).2.
Definition answered_node : Node :=
  (onMessage here shared no_round two_subscribers 10 (MsgResponseIPrune (MkResponseIPrune ["a"%string])) key_2 20001 asked_node).2.
Definition counted_node : Node := (wake here shared no_round two_subscribers 10 1 20002 answered_node).2.

Definition the_removal : Removal := MkRemoval 0 the_ref (AbsoluteReplicas 1) 25002.

Lemma counted_removals : removals counted_node = [the_removal].
Proof. by vm_compute. Qed.

Abbreviation step := (prune_step here shared no_round two_subscribers 10).

Lemma asked_step : step (node, []) (asked_node, []).
Proof. exact (step_prune here shared no_round two_subscribers 10 to_prune None false 20000 node []). Qed.

Lemma answered_step : step (asked_node, []) (answered_node, [("a"%string, peer key_2)]).
Proof.
  exact (step_message here shared no_round two_subscribers 10 (MsgResponseIPrune (MkResponseIPrune ["a"%string])) key_2 20001 asked_node []).
Qed.

Lemma counted_step : step (answered_node, [("a"%string, peer key_2)]) (counted_node, [("a"%string, peer key_2)]).
Proof. exact (step_wake here shared no_round two_subscribers 10 1 20002 answered_node [("a"%string, peer key_2)]). Qed.

Lemma counted_reached : rtc step (node, []) (counted_node, [("a"%string, peer key_2)]).
Proof. exact (rtc_l _ _ _ _ asked_step (rtc_l _ _ _ _ answered_step (rtc_l _ _ _ _ counted_step (rtc_refl _ _)))). Qed.


(** Three replicas and two replicators, of which peer 2 is not mature (its range
    is from time 19000, and 10000 is the age): the search around 35 has seen
    both, so it ends at 40, and the owner of the range at 25 is not a leader,
    though it is when the set of replicators is not given. *)
Definition young_2 : Range := range_of 2 key_2 19000 20 30.

Example early_exit_misses_owner :
  let idx := stored [my_range; young_2] in
  let search u := getSamples 100 [35; 40; 25] idx U32 10000 20000 (createNumbers U32) (MkSampleOptions false u) in
  search (Some [peer my_key; peer key_2]) = Val [(peer my_key, false)] /\
  search None = Val [(peer my_key, false); (peer key_2, true)].
Proof. split; by vm_compute. Qed.

(** ** Degrees *)

Lemma degree_roundtrip_witness :
  maxReplicas (MkReplicationLimits (AbsoluteReplicas 2) (Some (AbsoluteReplicas 5))) [Some [0; 1; 0; 0; 0]; Some [0; 4; 0; 0; 0]] = Val 4 /\
  getClampedReplicas (MkReplicationLimits (AbsoluteReplicas 2) (Some (AbsoluteReplicas 5))) (Some (AbsoluteReplicas 700)) = Val (AbsoluteReplicas 5).
Proof.
  destruct (degree_roundtrip 2 5 700 [Some [0; 1; 0; 0; 0]; Some [0; 4; 0; 0; 0]] [1; 4]) as (E & _ & _ & (m & Em & Hall & Hin)).
  - lia.
  - by vm_compute.
  - repeat constructor.
  - split; [|exact E]. rewrite Em. destruct Hin as [->|Hin].
    + apply Forall_cons in Hall as [H1 _]. lia.
    + apply Forall_cons in Hall as [_ [H4 _]%Forall_cons]. do 2 f_equal. repeat (apply elem_of_cons in Hin as [->|Hin]; [lia|]). by apply elem_of_nil in Hin.
Defined.
